(* ===== verification/_CoqProject ===== *)
-Q . S2P
Prelude.v
Decimal.v
Domain.v
Config.v
DecimalText.v
Strategy.v
Risk.v
Json.v
FaultData.v
TradesimData.v
Runtimeops.v
World.v
Tradesim.v
Fault.v
Sha256.v
AesGcm.v
Venue.v
Process.v
Oms.v
OmsFacts.v
OmsSafety.v
OmsRestart.v
OmsCancel.v
Rpc.v
Oracle.v
Configdiff.v
Discipline.v
AuditEvents.v
Engine.v
EngineCycle.v
EngineControl.v
EngineFacts.v
EngineWrites.v
EngineSafety.v
EngineLive.v
EngineStops.v
AccountLocks.v
Lease.v
App.v
Scheduler.v
SchedulerFacts.v
Watchdog.v
Wire.v
Binance.v
Mgbx.v
Adapters.v
AdapterSafety.v
AdapterFacts.v
AdapterOrders.v
Shared.v
AuditLog.v
ConfigJson.v
StatusJson.v
RuntimeStore.v
RuntimeSafety.v
Configstore.v
ConfigstoreFacts.v
ConfigstoreOps.v
ConfigstoreSafety.v
Password.v
Credentials.v
Accounts.v
Scope.v
Monitoring.v
Users.v
AdminServer.v
AdminSafety.v
Commits.v
CredentialsSafety.v
Startup.v
AccountsFacts.v
AccountsOps.v
AccountsAuth.v
AccountsSafety.v
EngineExamples.v
SchedulerExamples.v
AdapterExamples.v
ConfigstoreExamples.v
AccountsExamples.v
AdminExamples.v
