(* ===== verification/Prelude.v ===== *)
(** * FluxMaker: a market maker, verified

    FluxMaker (Go, under src/) keeps ladders of post-only orders on exchanges around a
    reference price read from PancakeSwap V2 pairs.  A configuration names the
    instruments, the exchanges and the strategy; every cycle the engine reads the
    reference price (internal/oracle/pancakev2), generates quotes
    (internal/strategy), filters and limits them (internal/risk), decides from the
    health of the market whether to trade (internal/fault) and lets the reconciler
    (internal/oms) bring the open orders in line with the quotes, each exchange
    write behind a fencing guard.  internal/engine runs that cycle for every
    instrument, holds the leases of the markets in Redis (internal/runtimeops),
    applies operator controls and hot configuration changes.  internal/configdiff
    decides how a new configuration is applied; internal/tradesim produces internal
    fills.  internal/app builds the clients and the engine of a configuration, the loop
    of cmd/fluxmaker replaces the running configuration by a published one and keeps
    everything due; cmd/watchdog, another process, cancels the managed orders when
    that loop stops showing signs of life.  The adapters of internal/venue/binance and
    internal/venue/mgbx turn the calls of all these into signed HTTP requests.
    internal/configstore keeps drafts and published versions of the configuration in
    PostgreSQL, with a copy of the active one in Redis, for several processes at once.
    The administration server (internal/adminapi) serves operators: accounts, roles and
    sessions (internal/auth), drafts and publications, operator controls and the state
    of the process in Redis (internal/runtimeops), exchange credentials sealed in the
    database (internal/credentials), alerts and metrics.  What the engine did is appended
    to a rotating audit log (internal/audit).

    ** Files

    - Prelude.v: 64- and 32-bit arithmetic, errors and results of Go calls ([go]),
      time, strings, map iteration ([MapRange]), [sort.Slice] ([SliceSort]), lists,
      loops.
    - Decimal.v, DecimalText.v: internal/num/decimal.go, exact rationals; quantisation;
      text and parsing.
    - Domain.v: internal/domain/types.go and the data of internal/venue (spec.go,
      venue.go).
    - Config.v: internal/config/config.go: data, defaults, normalisation, [Validate].
    - Strategy.v: internal/strategy/quote.go: [GenerateAt] and everything below it.
    - Risk.v: internal/risk (budget.go, market.go, risk.go).
    - Json.v: encoding/json on trees, with the [Marshal] and [Unmarshal] classes.
    - World.v: programs with effects, [prog], and their specifications.
    - Tradesim.v: internal/tradesim/generator.go.
    - Fault.v: internal/fault/manager.go.
    - Sha256.v: the digest and number formats order ids are made of.
    - Venue.v: internal/venue (venue.go, batch.go): adapters, dispatcher, registry.
    - Oms.v: internal/oms/reconciler.go, every operation.  OmsFacts.v: one lemma per
      operation; OmsSafety.v: the effects of a cycle; OmsRestart.v: persistence;
      OmsCancel.v: matching, cancellation runs, concrete runs.
    - Rpc.v, Oracle.v: internal/oracle/pancakev2 (rpc.go, oracle.go).
    - Configdiff.v: internal/configdiff/plan.go.
    - FaultData.v, TradesimData.v, Runtimeops.v: the records that internal/fault,
      internal/tradesim and internal/runtimeops exchange with the engine;
      AuditEvents.v: their JSON in the audit log.
    - Process.v: programs that may panic and keep their state, [X S A], with deferred
      functions, recovery, zooming into a part of the state and guards that run
      inside another component; their total and partial specifications.
    - Engine.v, EngineCycle.v, EngineControl.v: internal/engine/engine.go,
      every operation: state, leases and faults; the cycle of one instrument; paused
      and blocked instruments and the preflight; [RunOnce], [Prepare], rules,
      cancellations, controls.  EngineFacts.v: one lemma per operation;
      EngineWrites.v: the writes of a cycle; EngineSafety.v (with what the
      engine relies on of the oracle), EngineLive.v, EngineStops.v: the theorems;
      EngineExamples.v: concrete runs.  Discipline.v: what the engine relies on of the
      reconciler, and traces in which each write follows the events that allow it.
    - AccountLocks.v: the workers of a cycle and the account locks as a step relation.
    - Lease.v: the Lua scripts of the market leases in internal/runtimeops/store.go.
    - App.v: internal/app (runtime.go, venues.go): clients, trading rules, candidates,
      the cleanup before a switch.
    - Scheduler.v: the loop of cmd/fluxmaker/main.go and internal/heartbeat/publisher.go.
      SchedulerFacts.v: what the process writes and when a published version becomes
      active.
    - Watchdog.v: cmd/watchdog/main.go.  SchedulerExamples.v: concrete runs of both
      processes.
    - Wire.v: what both adapters use: query strings and how they are read back,
      signatures, decoding.  Binance.v,
      Mgbx.v: internal/venue/binance/client.go and internal/venue/mgbx/client.go, every
      method.  Adapters.v: [wire] runs the calls of a program through the adapters, with
      its simulation [wire_spec].  AdapterSafety.v: the requests of the trading process;
      AdapterFacts.v: placements and cancellations; AdapterOrders.v: trading rules and the
      pages of open orders; AdapterExamples.v: concrete runs.

    - Shared.v: programs of several clients of a database and a cache, their interleavings,
      the documented behaviour of the database, and a rely-guarantee logic for them.
    - ConfigJson.v: the configuration as JSON and back.  Configstore.v:
      internal/configstore/store.go, every operation; ConfigstoreFacts.v: the invariant
      and one lemma per statement; ConfigstoreOps.v: one lemma per operation;
      ConfigstoreSafety.v: the theorems; ConfigstoreExamples.v: computed schedules.
    - StatusJson.v, RuntimeStore.v: the rest of internal/runtimeops/store.go: the records
      as JSON and every method as a program of Redis commands; RuntimeSafety.v: its
      theorems.
    - AuditLog.v: the text of encoding/json; internal/audit/jsonl.go over a file system
      with faults, torn writes and crashes, with its theorems.
    - Password.v, Accounts.v: internal/auth (password.go, service.go).  Users.v: the
      handlers of users, roles, passwords and sessions of internal/adminapi/server.go.
      Commits.v: transactions as the changes they commit; AccountsFacts.v: the invariant;
      AccountsOps.v, AccountsAuth.v: one lemma per operation; AccountsSafety.v: the
      theorems; AccountsExamples.v: computed schedules.
    - AesGcm.v: the sealing of crypto/aes and crypto/cipher.  Credentials.v:
      internal/credentials/service.go; CredentialsSafety.v: its theorems.
    - Monitoring.v: the alerts and the metrics of internal/adminapi/monitoring.go, with
      their theorems.
    - Scope.v: the data scopes of an identity in internal/adminapi/server.go.
      AdminServer.v: every other handler and route of that file, as programs of calls of
      the services behind the server; AdminSafety.v: its theorems; AdminExamples.v:
      concrete requests.
    - Startup.v: what processes do before and beside their loops: the migrations of
      internal/database/database.go, opening and closing the services and
      cmd/admin-api/main.go, the heartbeat file of internal/heartbeat/heartbeat.go.

    ** How code becomes definitions

    Pure functions are functions; a call that can fail or panic returns [go A]
    ([Ret], [Err], [Panic]).  Code that reads the clock, uses the store, calls an
    exchange, a node or the guard, or draws random numbers is a [prog A]: a tree of
    actions that an environment answers, the environment being an arbitrary
    function of the whole history.  [run env past p] gives the events and the
    outcome; [ok p Q] states that [p] always returns and that its events and value
    satisfy [Q] whatever the environment does.  Mutable state is passed
    explicitly: the maps of the reconciler and of the fault manager as records of
    [gmap]s, the oracle and its RPC client through the state and error monad [M].
    The engine's operations are [X (Engine O)], for any price source [O] (class
    [PriceSource]); a panic leaves the state as it was when it happened, [deferX] and
    [recoverX] are Go's deferred call and recover.  The write guard is a closure of
    the engine that the reconciler calls: [handle_guard] answers each guard action
    of the reconciler by running the engine's closure on the engine's state.
    Concurrency appears twice: the workers of a cycle are an interleaving step
    relation over the locks (AccountLocks.v); the cycle itself takes the instruments
    in an arbitrary order ([Schedule]).  Leases run on a server given by its
    commands and their laws (classes [Redis] and [RedisLaws]), an in-memory server
    being an instance.
    Services outside these components (published versions, credentials, heartbeat files,
    the status in Redis) are [Host] actions.  Where two structs share a slice, a map or an
    oracle the model says so: a candidate is given back together with the configuration
    its building has rewritten ([sharedWith]), the loop remembers whether its raw
    configuration and its candidate share with the running one.
    An HTTP request of an adapter is an action too ([HttpDo]: method, URL and header, the
    answer a status and the tree its body decodes to); the clock offset of the Binance
    client is state of its own, given per call.
    Clients of the database are programs of single statements and cache commands ([proc],
    Shared.v) whose steps interleave with those of any other clients; a statement is a
    function on the tables; the database (class [Database]) may do whatever PostgreSQL
    documents for READ COMMITTED, including failed calls and commits whose answer is lost.
    [wp] reasons about one client under what the others guarantee.
    The accounts, the credentials and the runtime store are clients in the same sense,
    each of its own tables or keys.  The handlers of the administration server are
    programs of calls of these services ([service] in AdminServer.v), each answered by
    whatever the service may return; a theorem on them speaks about every trace of calls.
    The audit log is a program of file-system calls ([syscall]) on files of bytes; a call
    may fail, a write may be torn, and a crash loses any part of a file that was not
    synchronised; whether synchronising a file also commits the names of its directory is a
    parameter ([FileSystem]), and if not, a crash may undo creations and renames as well.
    Machine integers are integers with the wrap-around written out where the code
    can reach it; times are nanoseconds.

    ** What is shown

    - Quotes: validated configurations give ladders that never cross the book, with
      prices on the tick and quantities on the step, strictly ordered levels and
      bounded jitter; generation does not panic for an accepted configuration whose
      widest spread is a 64-bit number, and the inputs on which it does are exhibited.
    - Risk: the filters accept what the generator produces and nothing unsafe;
      budgets are respected; order limits stay balanced.
    - Faults: the thresholds are exact, recovery needs its streak, the state survives
      a restart.
    - Orders: a cycle writes at most twenty times, never places and cancels together,
      never writes without a passed guard, submits only targets within their number,
      cancels only managed orders; an uncertain write blocks the market, also
      across restarts; matching is one-to-one; a cancellation run that reports no error
      has cancelled every managed order, or found an earlier batch still unconfirmed and
      says so by cancelling nothing; the saved state is read back.
    - Oracle: a price is the product over its legs of the time-weighted averages, or while
      warming up of the spot prices; averages are growths of the accumulators between two
      observations, although 32-bit stamps wrap; prices are positive and fresh, endpoints
      are tried in order, batch items are matched by id in any order.
    - Configuration changes: the cancelled markets are exactly those that must be left;
      a change applied in place touches parameters only.
    - Engine: a cycle returns whatever the environment answers, isolates the failures
      and panics of its instruments and publishes each; every write goes to an open
      market directly after a validation of a lease acquired in the same operation;
      every order is traced to what it was made of, the answer of the price source, the
      book and the open orders this exchange gave, and the free balances of its account,
      through the price check, the risk filter, the order limit and the budget; shadow,
      paused and blocked instruments, preflight and rule refreshes write nothing;
      controls and shutdown only cancel; an emergency stop is applied only when no
      managed order is left; hot parameters reach every instrument and nothing else.
    - The trading process: from its start to its end, over any number of iterations and
      configurations, every write is fenced; a version is active only after it was
      loaded, prepared and the running one cleaned up, or when it changes parameters only.
    - The watchdog: it never places an order, acts only on a live configuration without
      signs of life and once per episode, and then has every managed order of every traded
      market cancelled, through the adapter of its venue and the account of its credential.
    - The adapters: end to end, every request of the trading process other than GET comes
      after a passed validation with nothing in between but its adapter; a placement
      takes effect at most once although Binance's is repeated after a refused time
      stamp; a cancellation without error was confirmed for every order; the pages of
      open orders are complete; rules have positive steps; queries are read back exactly.
    - The configuration store: at every moment there is one active version, versions grow
      and are never changed, whatever other clients do and whichever call fails; a loaded
      configuration was the active one at some moment of the call, or the database failed;
      a publication without error is the active version.
    - Accounts: while an account keeps its version it keeps its password, state and rights;
      a revocation, a change or reset of a password or an update of the account ends the
      sessions issued before it; whatever ordinary administrators send, nobody becomes a
      super administrator and no super administrator is changed; hashed passwords verify.
    - The runtime store: an acknowledged pause holds until a resume, a snapshot that is read
      is a published one less than forty-five seconds old, the keys hold values that were
      written and that the readers decode.
    - Monitoring: the alerts are the raised ones, most severe first and stable; when the
      summary is healthy; the exposition is parsed back.
    - The audit log: what a flush acknowledged survives crashes until it is rotated out, on
      file systems where synchronising a file commits its name too, and an example of the
      loss on the others; its files stay within their bounds.
    - Credentials: a resolution gives what a row decrypts to under the master key of the
      process or says why not, and fails to decrypt only rows sealed under another key;
      concurrent updates of a row merge, while all processes have one key.
    - Administration: every call of a request is one its user may make; the endpoints that
      show configurations and the runtime show nothing outside the scope, while the plan of a
      publication may; a scoped edit of a configuration is a lens.
    - Migrations are carried out once, whole and in order, by any number of processes; the
      administration server serves only when everything it needs is there, and closes what
      it opened; a heartbeat file never looks younger than the last beat of its writer.
    - Leases: a generation that lost its lease stays invalid, valid writes are ordered
      by generation, free leases are granted.
    - Workers: no deadlock and no infinite run, every instrument runs once, cycles
      that share an account never run together.
    - Simulation: generated fills stay inside the spread and the configured sizes.
    - Lemmas named in the findings show behaviour the code does not intend.

    ** Bounds and fuel

    Loops over slices are structural.  The native cancellation batches take the number
    of ids as fuel, at least one id leaving per batch; number printing takes the
    number of digits of a 64-bit value; the jitter and FNV loops run over their
    inputs.  The chunks of MGBX cancellations take the number of ids as fuel; its pages
    take the thousand of the code, after which it gives up, so that bound is a
    hypothesis of the completeness of the pages.  No other theorem is conditional on fuel.

    ** Not modelled

    JSON texts other than those of the audit log (values are trees, in which a nil and an
    empty slice are the same), the transport of HTTP (connections, bodies beyond two
    megabytes), the text of SQL statements; log output; the cancellation of contexts (a
    call after it answers like any failed call; the renewal of a lease is an operation of
    its own); interleavings of components other than the workers and the clients of the
    database and of Redis: an operation runs to completion, as the mutexes and the account
    locks of the engine arrange; case folding and trimming outside ASCII; IPv6 and escaped
    URLs.  Texts are ordered by their bytes, the clock of the database may show any time
    in a transaction, Redis does not lose data in a restart, the parameters of Argon2 and the
    grammar of mail addresses are left to their packages.  The text of the SQL files,
    the handler of the logger, the embedded web pages, the middleware of request logs and
    security headers, flags and signals are input and output. *)
From Stdlib Require Export ZArith QArith Qabs Qround Lia Lqa String Ascii.
From stdpp Require Export base tactics list gmap strings fin_maps sets pretty.
From stdpp Require Export sorting.

#[export] Set Default Goal Selector "!".
#[export] Set Warnings "-register-all".
#[global] Open Scope Z_scope.

(** ** Machine integers

    Go's [int] and [int64] are two's complement 64-bit integers; [uint64] and
    [uint32] are residues.  Values are kept as [Z]; every source operation that
    can wrap goes through one of the functions below. *)

Definition min_int64 : Z := - 2 ^ 63.
Definition max_int64 : Z := 2 ^ 63 - 1.
Definition in_int64 (z : Z) : Prop := min_int64 <= z <= max_int64.

Definition wrap64 (z : Z) : Z := (z + 2 ^ 63) mod 2 ^ 64 - 2 ^ 63.
Definition wrapU64 (z : Z) : Z := z mod 2 ^ 64.
Definition wrapU32 (z : Z) : Z := z mod 2 ^ 32.

Declare Scope go_scope.
Delimit Scope go_scope with go.
Notation "x +i y" := (wrap64 (x + y)) (at level 50, left associativity) : go_scope.
Notation "x -i y" := (wrap64 (x - y)) (at level 50, left associativity) : go_scope.
Notation "x *i y" := (wrap64 (x * y)) (at level 40, left associativity) : go_scope.
(** Go's integer division and remainder truncate towards zero. *)
Notation "x /i y" := (wrap64 (Z.quot x y)) (at level 40, left associativity) : go_scope.
Notation "x %i y" := (Z.rem x y) (at level 40, left associativity) : go_scope.

Lemma wrap64_range z : in_int64 (wrap64 z).
Proof.
  unfold in_int64, wrap64, min_int64, max_int64.
  pose proof (Z.mod_pos_bound (z + 2 ^ 63) (2 ^ 64) ltac:(lia)). lia.
Qed.

Lemma wrap64_id z : in_int64 z -> wrap64 z = z.
Proof.
  unfold in_int64, wrap64, min_int64, max_int64. intros ?.
  rewrite Z.mod_small by lia. lia.
Qed.

Lemma wrapU64_range z : 0 <= wrapU64 z < 2 ^ 64.
Proof. apply Z.mod_pos_bound. lia. Qed.

Lemma wrapU32_range z : 0 <= wrapU32 z < 2 ^ 32.
Proof. apply Z.mod_pos_bound. lia. Qed.

Lemma wrapU32_id z : 0 <= z < 2 ^ 32 -> wrapU32 z = z.
Proof. apply Z.mod_small. Qed.

(** [wrap_simpl] removes the wrap-around of a subterm whose exact value is
    provably inside the 64-bit range. *)
Ltac in_range := unfold in_int64, min_int64, max_int64 in *; try lia; try nia.
Ltac wrap_simpl :=
  repeat match goal with
  | |- context [wrap64 ?z] => rewrite (wrap64_id z) by in_range
  | H : context [wrap64 ?z] |- _ => rewrite (wrap64_id z) in H by in_range
  end.

(** ** Errors

    An [error] keeps the chain that [fmt.Errorf] with [%w] and [errors.Join]
    build; [Error] renders the text the source would print. *)

Inductive error :=
  | Errorf (msg : string)
  | Wrapf (prefix : string) (inner : error)
  | JoinOne (e : error)
  | JoinTwo (e1 e2 : error).

#[export] Instance error_eq_dec : EqDecision error.
Proof. solve_decision. Defined.

Definition newline : string := String (ascii_of_nat 10) EmptyString.

Fixpoint Error (e : error) : string :=
  match e with
  | Errorf msg => msg
  | Wrapf prefix inner => prefix +:+ Error inner
  | JoinOne e => Error e
  | JoinTwo e1 e2 => Error e1 +:+ newline +:+ Error e2
  end.

(** [errors.Join(e, o)] with a non-nil first error. *)
Definition errors_Join (e : error) (o : option error) : error :=
  match o with None => JoinOne e | Some e' => JoinTwo e e' end.

(** [errors.Is(e, target)]: [target] occurs in the chain of [e]. *)
Fixpoint errors_Is (e target : error) : bool :=
  bool_decide (e = target) ||
  match e with
  | Errorf _ => false
  | Wrapf _ inner => errors_Is inner target
  | JoinOne e' => errors_Is e' target
  | JoinTwo e1 e2 => errors_Is e1 target || errors_Is e2 target
  end.

Lemma errors_Is_refl e : errors_Is e e = true.
Proof. destruct e; simpl; rewrite bool_decide_true; done. Qed.

(** ** Results of a Go call: a value, a returned error, or a panic. *)

Inductive go (A : Type) :=
  | Ret (a : A)
  | Err (e : error)
  | Panic (msg : string).
Arguments Ret {A} a.
Arguments Err {A} e.
Arguments Panic {A} msg.

#[export] Instance go_ret : MRet go := fun A => Ret.
#[export] Instance go_bind : MBind go := fun A B f c =>
  match c with Ret a => f a | Err e => Err e | Panic m => Panic m end.

(** [c] finishes without a panic. *)
Definition no_panic {A} (c : go A) : Prop :=
  match c with Panic _ => False | _ => True end.

Definition panics {A} (c : go A) : bool :=
  match c with Panic _ => true | _ => false end.

(** Post-condition of a call that must not panic: [Q] on the value returned. *)
Definition post {A} (c : go A) (Q : A -> Prop) : Prop :=
  match c with Ret a => Q a | Err _ => True | Panic _ => False end.

Lemma post_bind {A B} (c : go A) (f : A -> go B) Q :
  post c (fun a => post (f a) Q) -> post (c ≫= f) Q.
Proof. destruct c; done. Qed.

Lemma post_mono {A} (c : go A) (P Q : A -> Prop) :
  post c P -> (forall a, P a -> Q a) -> post c Q.
Proof. destruct c; simpl; auto. Qed.

Lemma post_no_panic {A} (c : go A) Q : post c Q -> no_panic c.
Proof. destruct c; done. Qed.

Lemma post_ret {A} (c : go A) Q a : post c Q -> c = Ret a -> Q a.
Proof. intros H ->. exact H. Qed.

Create HintDb go discriminated.
#[export] Hint Resolve post_no_panic wrap64_range : go.

(** ** Time

    A [time.Time] is the number of nanoseconds since the Unix epoch; the zero
    value of the type is the first of January of year one.  Durations are
    nanosecond counts. *)

Abbreviation Time := Z (only parsing).
Abbreviation Duration := Z (only parsing).

Definition Second : Z := 1000000000.
Definition Millisecond : Z := 1000000.
Definition zero_time : Z := -62135596800 * Second.

Definition IsZero (t : Time) : bool := t =? zero_time.
Definition After (t u : Time) : bool := u <? t.
Definition Before (t u : Time) : bool := t <? u.
Definition UnixSec (t : Time) : Z := t / Second.

(** [t.Sub(u)] saturates at the bounds of [time.Duration]. *)
Definition TimeSub (t u : Time) : Duration :=
  Z.max min_int64 (Z.min max_int64 (t - u)).

Lemma TimeSub_lt t u d : d <= max_int64 -> min_int64 < d ->
  TimeSub t u < d <-> t - u < d.
Proof. unfold TimeSub, min_int64, max_int64. lia. Qed.

(** ** Strings

    Strings are byte strings; the case folding and trimming functions below are
    Go's on ASCII text (identifiers, symbols, addresses and venue names). *)

Definition is_space (c : ascii) : bool :=
  let n := N_of_ascii c in
  (N.leb 9 n && N.leb n 13) || N.eqb n 32.

Fixpoint trim_left_by (p : ascii -> bool) (s : string) : string :=
  match s with
  | EmptyString => EmptyString
  | String c s' => if p c then trim_left_by p s' else s
  end.

Fixpoint trim_right_by (p : ascii -> bool) (s : string) : string :=
  match s with
  | EmptyString => EmptyString
  | String c s' =>
      match trim_right_by p s' with
      | EmptyString => if p c then EmptyString else String c EmptyString
      | t => String c t
      end
  end.

Definition TrimSpace (s : string) : string :=
  trim_right_by is_space (trim_left_by is_space s).

Definition lower (c : ascii) : ascii :=
  let n := N_of_ascii c in
  if N.leb 65 n && N.leb n 90 then ascii_of_N (n + 32) else c.

Fixpoint ToLower (s : string) : string :=
  match s with
  | EmptyString => EmptyString
  | String c s' => String (lower c) (ToLower s')
  end.

Definition EqualFold (a b : string) : bool := String.eqb (ToLower a) (ToLower b).
Definition HasPrefix (s p : string) : bool := String.prefix p s.

Fixpoint drop_string (n : nat) (s : string) : string :=
  match n, s with
  | O, _ => s
  | S n', EmptyString => EmptyString
  | S n', String _ s' => drop_string n' s'
  end.

Fixpoint forall_string (p : ascii -> bool) (s : string) : bool :=
  match s with
  | EmptyString => true
  | String c s' => p c && forall_string p s'
  end.

(** [%q] of a text without characters to escape. *)
Definition quoted (s : string) : string :=
  let q := String (ascii_of_nat 34) EmptyString in q +:+ s +:+ q.

(** [strings.Join] *)
Fixpoint StringsJoin (l : list string) (sep : string) : string :=
  match l with
  | [] => ""
  | [s] => s
  | s :: l' => s +:+ sep +:+ StringsJoin l' sep
  end.

(** [strings.Split], with a single character as the separator *)
Fixpoint Split (sep : ascii) (s : string) : list string :=
  match s with
  | "" => [""]
  | String c s' =>
      if Ascii.eqb c sep then "" :: Split sep s'
      else match Split sep s' with p :: ps => String c p :: ps | [] => [String c ""] end
  end.

Lemma lower_idem c : lower (lower c) = lower c.
Proof. destruct c as [[] [] [] [] [] [] [] []]; reflexivity. Qed.

Lemma ToLower_idem s : ToLower (ToLower s) = ToLower s.
Proof. induction s as [|c s IH]; simpl; [done|]. by rewrite lower_idem, IH. Qed.

Lemma ToLower_app s t : ToLower (s +:+ t) = ToLower s +:+ ToLower t.
Proof. induction s as [|c s IH]; simpl; [done|]. by rewrite IH. Qed.

Lemma EqualFold_refl s : EqualFold s s = true.
Proof. apply String.eqb_refl. Qed.

Lemma string_prefix_app p s : String.prefix p (p +:+ s) = true.
Proof. induction p as [|c p IH]; simpl; [by destruct s|].
  destruct (ascii_dec c c); done. Qed.

Lemma Split_one sep s : forall_string (fun c => negb (Ascii.eqb c sep)) s = true -> Split sep s = [s].
Proof.
  induction s as [|c s IH]; intros Hs; [done|]. simpl in *. apply andb_prop in Hs as [Hc Hs].
  apply negb_true_iff in Hc. by rewrite Hc, IH.
Qed.

Lemma Split_more sep s t : forall_string (fun c => negb (Ascii.eqb c sep)) s = true ->
  Split sep (s +:+ String sep t) = s :: Split sep t.
Proof.
  induction s as [|c s IH]; intros Hs.
  { change ("" +:+ String sep t) with (String sep t). simpl. by rewrite Ascii.eqb_refl. }
  simpl in Hs. apply andb_prop in Hs as [Hc Hs]. change (String c s +:+ String sep t) with (String c (s +:+ String sep t)).
  simpl. apply negb_true_iff in Hc. by rewrite Hc, IH.
Qed.

Lemma Split_join sep l : Forall (fun s => forall_string (fun c => negb (Ascii.eqb c sep)) s = true) l ->
  l <> [] -> Split sep (StringsJoin l (String sep "")) = l.
Proof.
  intros Hl Hne. induction Hl as [|s l Hs Hl IH]; [done|]. destruct l as [|t l]; [by apply Split_one|].
  change (StringsJoin (s :: t :: l) (String sep "")) with (s +:+ String sep (StringsJoin (t :: l) (String sep ""))).
  rewrite Split_more by done. by rewrite IH.
Qed.

(** ** Iteration over Go maps

    [range] over a map visits its entries in an unspecified order.  Every
    definition that iterates over a map takes the order from this class; the
    instance below is one admissible order, used to evaluate examples. *)

Class MapRange := {
  range : forall {V : Type}, gmap string V -> list (string * V);
  range_perm : forall {V : Type} (m : gmap string V), range m ≡ₚ map_to_list m
}.

Definition sorted_range : MapRange := {|
  range := fun V m => map_to_list m;
  range_perm := fun V m => Permutation_refl _
|}.

Lemma elem_of_range `{MapRange} {V} (m : gmap string V) k v :
  (k, v) ∈ range m <-> m !! k = Some v.
Proof. rewrite range_perm. apply elem_of_map_to_list. Qed.

Lemma length_range `{MapRange} {V} (m : gmap string V) : length (range m) = size m.
Proof. rewrite range_perm. apply length_map_to_list. Qed.

Lemma NoDup_range `{MapRange} {V} (m : gmap string V) : NoDup (range m).*1.
Proof. rewrite range_perm. apply NoDup_fst_map_to_list. Qed.

(** ** Sorting

    [sort.Slice] is not stable: the order of equal elements comes from this class.
    The result is a permutation, ordered when [less] is a strict weak order. *)
Class SliceSort := {
  sort_slice : forall {A : Type}, (A -> A -> bool) -> list A -> list A;
  sort_slice_perm : forall {A : Type} (less : A -> A -> bool) (l : list A),
    sort_slice less l ≡ₚ l;
  sort_slice_sorted : forall {A : Type} (less : A -> A -> bool) (l : list A),
    (forall a b, less a b = true -> less b a = false) ->
    (forall a b c, less b a = false -> less c b = false -> less c a = false) ->
    StronglySorted (fun a b => less b a = false) (sort_slice less l)
}.

(** Merge sort is one admissible implementation, used to evaluate examples. *)
Definition not_after {A} (less : A -> A -> bool) (a b : A) : Prop := less b a = false.
#[export] Instance not_after_dec {A} (less : A -> A -> bool) a b : Decision (not_after less a b).
Proof. unfold not_after. apply _. Defined.

Lemma merge_slice_sorted {A} (less : A -> A -> bool) (l : list A) :
  (forall a b, less a b = true -> less b a = false) ->
  (forall a b c, less b a = false -> less c b = false -> less c a = false) ->
  StronglySorted (fun a b => less b a = false) (merge_sort (not_after less) l).
Proof.
  intros Hasym Htrans. apply StronglySorted_merge_sort.
  - intros a b c. apply Htrans.
  - intros a b. unfold not_after. destruct (less b a) eqn:E; [right|by left]. by apply Hasym.
Qed.

Definition merge_slice_sort : SliceSort := {|
  sort_slice := fun A less l => merge_sort (not_after less) l;
  sort_slice_perm := fun A less l => merge_sort_Permutation (not_after less) l;
  sort_slice_sorted := fun A less l => merge_slice_sorted less l
|}.

(** [a < b] on strings: by bytes. *)
Definition string_less (a b : string) : bool := negb (String.leb b a).

Lemma string_less_false a b : string_less b a = false <-> String.leb a b = true.
Proof. unfold string_less. by rewrite negb_false_iff. Qed.
Lemma string_leb_refl a : String.leb a a = true.
Proof. destruct (String.leb_total a a); done. Qed.
Lemma string_leb_trans a b c :
  String.leb a b = true -> String.leb b c = true -> String.leb a c = true.
Proof.
  intros H1 H2. apply Is_true_true. apply Is_true_true in H1, H2.
  exact (transitivity (R := String.le) H1 H2).
Qed.
Lemma string_less_asym a b : string_less a b = true -> string_less b a = false.
Proof.
  unfold string_less. rewrite negb_true_iff, negb_false_iff.
  destruct (String.leb_total a b) as [?|H]; [done|congruence].
Qed.
Lemma string_less_trans a b c :
  string_less b a = false -> string_less c b = false -> string_less c a = false.
Proof. rewrite !string_less_false. apply string_leb_trans. Qed.

(** ** Lists shared by the components *)

(** [imap]-free indexed membership: the loops of the source run over indices. *)
Lemma Forall_flip {A} (P : A -> Prop) (l : list A) x : Forall P l -> x ∈ l -> P x.
Proof. rewrite Forall_forall. auto. Qed.

Definition count_true (l : list bool) : nat := length (filter (fun b => b = true) l).

Lemma count_true_cons b l : count_true (b :: l) = ((if b then 1 else 0) + count_true l)%nat.
Proof. unfold count_true. rewrite filter_cons. destruct b; case_decide; done. Qed.

Lemma count_true_insert l i :
  l !! i = Some false -> count_true (<[i:=true]> l) = S (count_true l).
Proof.
  revert i. induction l as [|b l IH]; intros [|i] Hi; simplify_eq/=.
  - by rewrite !count_true_cons.
  - rewrite !count_true_cons, IH by done. lia.
Qed.

Lemma count_true_replicate n : count_true (replicate n false) = 0%nat.
Proof. induction n as [|n IH]; [done|]. simpl. by rewrite count_true_cons, IH. Qed.

Lemma count_true_le l : (count_true l <= length l)%nat.
Proof. unfold count_true. apply length_filter. Qed.

Create Rewrite HintDb go.
#[export] Hint Rewrite @count_true_cons count_true_replicate : go.

(** ** Early returns and loops of fallible code *)

(** [if b { return err }] *)
Definition fail_if (b : bool) (e : error) : go unit := if b then Err e else Ret tt.

(** A [for] loop over a slice that carries a state and may return an error. *)
Fixpoint foldM {A B} (f : B -> A -> go B) (l : list A) (b : B) : go B :=
  match l with
  | [] => Ret b
  | a :: l' => f b a ≫= foldM f l'
  end.

Definition is_ret {A} (c : go A) : bool :=
  match c with Ret _ => true | _ => false end.

Lemma bind_ret_inv {A B} (c : go A) (f : A -> go B) b :
  c ≫= f = Ret b -> exists a, c = Ret a /\ f a = Ret b.
Proof. destruct c; naive_solver. Qed.

Lemma fail_if_ret b e u : fail_if b e = Ret u <-> b = false.
Proof. unfold fail_if. destruct b, u; split; congruence. Qed.

Lemma fail_if_bind_ret {A} b e (k : unit -> go A) a :
  fail_if b e ≫= k = Ret a <-> b = false /\ k tt = Ret a.
Proof. unfold fail_if. destruct b; split; naive_solver. Qed.

Lemma no_panic_fail_if {A} b e (k : unit -> go A) :
  no_panic (k tt) -> no_panic (fail_if b e ≫= k).
Proof. unfold fail_if. by destruct b. Qed.

Lemma foldM_app {A B} (f : B -> A -> go B) l1 l2 b :
  foldM f (l1 ++ l2) b = foldM f l1 b ≫= foldM f l2.
Proof. revert b. induction l1 as [|a l1 IH]; intros b; simpl; [done|].
  destruct (f b a); simpl; auto. Qed.

(** Rule for a loop: an invariant preserved by every successful iteration. *)
Lemma foldM_inv {A B} (f : B -> A -> go B) (I : B -> Prop) l b b' :
  (forall x a y, a ∈ l -> I x -> f x a = Ret y -> I y) ->
  I b -> foldM f l b = Ret b' -> I b'.
Proof.
  revert b. induction l as [|a l IH]; intros b Hf Hb; simpl; [by intros [= <-]|].
  intros (x & Hx & Hl)%bind_ret_inv. apply (IH x); [|by eapply Hf; [left|..]|done].
  intros y a' z Ha. apply Hf. by right.
Qed.

(** A loop without state: it succeeds exactly when every iteration does. *)
Definition forM {A} (f : A -> go unit) (l : list A) : go unit :=
  foldM (fun _ a => f a) l tt.

Lemma forM_ret {A} (f : A -> go unit) l :
  forM f l = Ret tt <-> Forall (fun a => f a = Ret tt) l.
Proof.
  unfold forM. induction l as [|a l IH]; simpl; [by rewrite Forall_nil|].
  rewrite Forall_cons, <- IH. destruct (f a) as [[]| |]; simpl; naive_solver.
Qed.

(** [inv_ret] inverts a successful sequence of checks. *)
Ltac inv_ret H :=
  repeat match type of H with
  | fail_if _ _ ≫= _ = Ret _ =>
      let G := fresh "G" in apply fail_if_bind_ret in H as [G H]
  | fail_if _ _ = Ret _ => apply fail_if_ret in H
  | _ ≫= _ = Ret _ =>
      let a := fresh "a" in let G := fresh "G" in
      apply bind_ret_inv in H as (a & G & H)
  end.

Lemma exists_pair_cons {A B} (P : A -> B -> Prop) a b (l : list (A * B)) :
  (exists x y, (x, y) ∈ (a, b) :: l /\ P x y) <-> P a b \/ exists x y, (x, y) ∈ l /\ P x y.
Proof.
  split.
  - intros (x & y & [[= -> ->]|Hin]%elem_of_cons & HP); eauto.
  - intros [HP|(x & y & Hin & HP)]; [exists a, b|exists x, y]; split; try done.
    + by left.
    + by right.
Qed.

(** Rule for a counting loop [for k := 0; k < n; k++] that must not panic. *)
Lemma foldM_seqZ_post {B} (f : B -> Z -> go B) (I : Z -> B -> Prop) (m n : Z) b :
  0 <= n -> I m b ->
  (forall k b, m <= k < m + n -> I k b -> post (f b k) (I (k + 1))) ->
  post (foldM f (seqZ m n) b) (I (m + n)).
Proof.
  intros Hn. revert m b. pattern n. apply natlike_ind; [| |done]; clear n Hn.
  - intros m b Hb _. simpl. by rewrite Z.add_0_r.
  - intros n Hn IH m b Hb Hf. rewrite seqZ_cons by lia. cbn [foldM].
    apply post_bind. rewrite Z.pred_succ.
    eapply post_mono; [apply Hf; [lia|done]|].
    intros b' Hb'. replace (m + Z.succ n) with (m + 1 + n) by lia.
    replace (Z.succ m) with (m + 1) by lia.
    apply IH; [done|]. intros k b'' Hk. apply Hf. lia.
Qed.

(** A loop none of whose iterations changes the returned error. *)
Lemma post_and {A} (c : go A) (P Q : A -> Prop) :
  post c P -> post c Q -> post c (fun a => P a /\ Q a).
Proof. destruct c; simpl; auto. Qed.
