(* ===== verification/Decimal.v ===== *)
(** [num.Decimal]: exact rational decimals (src/internal/num/decimal.go).

    A [Decimal] is a pointer to a [big.Rat], nil for the zero value of the type.
    A [big.Rat] is always kept in lowest terms, so every operation ends with
    [Qred].  [Div], [QuantizeDown] and [QuantizeUp] panic where the source does. *)
From S2P Require Import Prelude.

Declare Scope dec_scope.
Delimit Scope dec_scope with dec.

(** ** Data and operations *)

Record Decimal := MkDecimal { r : option Q }.

#[export] Instance Q_eq_dec : EqDecision Q.
Proof. solve_decision. Defined.
#[export] Instance Decimal_eq_dec : EqDecision Decimal.
Proof. solve_decision. Defined.

Definition Zero : Decimal := MkDecimal None.

(** [(d Decimal) rat()]: a nil pointer reads as the rational zero. *)
Definition rat (d : Decimal) : Q :=
  match r d with None => 0%Q | Some q => q end.

Definition FromRat (q : Q) : Decimal := MkDecimal (Some (Qred q)).
Definition FromInt64 (v : Z) : Decimal := FromRat (inject_Z v).

Definition one : Decimal := FromRat 1.
Definition tenThousand : Decimal := FromRat 10000.
Definition One : Decimal := one.
Definition TenThousand : Decimal := tenThousand.

(** [big.Rat.Sign] and [big.Rat.Cmp]. *)
Definition rat_sign (q : Q) : Z := Z.sgn (Qnum q).

Definition rat_cmp (p q : Q) : Z :=
  match (p ?= q)%Q with Lt => -1 | Eq => 0 | Gt => 1 end.

Definition Sign (d : Decimal) : Z := rat_sign (rat d).
Definition DIsZero (d : Decimal) : bool := rat_sign (rat d) =? 0.
Definition IsPositive (d : Decimal) : bool := 0 <? rat_sign (rat d).
Definition Cmp (d o : Decimal) : Z := rat_cmp (rat d) (rat o).

Definition Add (d o : Decimal) : Decimal := FromRat (rat d + rat o).
Definition Sub (d o : Decimal) : Decimal := FromRat (rat d - rat o).
Definition Mul (d o : Decimal) : Decimal := FromRat (rat d * rat o).

Definition Div (d o : Decimal) : go Decimal :=
  if DIsZero o then Panic "decimal division by zero"
  else Ret (FromRat (rat d / rat o)).

Definition Abs (d : Decimal) : Decimal := FromRat (Qabs (rat d)).
Definition Neg (d : Decimal) : Decimal := FromRat (- rat d).

Definition DMin (d o : Decimal) : Decimal := if Cmp d o <=? 0 then d else o.
Definition DMax (d o : Decimal) : Decimal := if 0 <=? Cmp d o then d else o.

(** [q.Num()] and [q.Denom()] of a quotient in lowest terms; [big.Int.Quo] and
    [big.Int.QuoRem] truncate towards zero. *)
Definition QuantizeDown (d step : Decimal) : go Decimal :=
  if (Sign step <=? 0) || (Sign d <? 0)
  then Panic "QuantizeDown requires non-negative value and positive step"
  else
    let q := Qred (rat d / rat step) in
    let n := Z.quot (Qnum q) (Zpos (Qden q)) in
    Ret (FromRat (inject_Z n * rat step)).

Definition QuantizeUp (d step : Decimal) : go Decimal :=
  if (Sign step <=? 0) || (Sign d <? 0)
  then Panic "QuantizeUp requires non-negative value and positive step"
  else
    let q := Qred (rat d / rat step) in
    let n := Z.quot (Qnum q) (Zpos (Qden q)) in
    let rem := Z.rem (Qnum q) (Zpos (Qden q)) in
    let n := if Z.sgn rem =? 0 then n else n + 1 in
    Ret (FromRat (inject_Z n * rat step)).

Arguments FromRat : simpl never.
Arguments FromInt64 : simpl never.
Arguments Add : simpl never.
Arguments Sub : simpl never.
Arguments Mul : simpl never.
Arguments Div : simpl never.
Arguments Cmp : simpl never.
Arguments Sign : simpl never.
Arguments IsPositive : simpl never.
Arguments DIsZero : simpl never.
Arguments QuantizeDown : simpl never.
Arguments QuantizeUp : simpl never.

(** ** Equality of values

    Two decimals with the same value behave alike whatever their pointers;
    all operations respect this equivalence. *)

Definition deq (d o : Decimal) : Prop := (rat d == rat o)%Q.
Infix "≐" := deq (at level 70, no associativity) : dec_scope.
#[global] Open Scope dec_scope.

#[export] Instance deq_equiv : Equivalence deq.
Proof.
  split; unfold deq.
  - intros d. reflexivity.
  - intros d o H. by symmetry.
  - intros d o p H1 H2. by rewrite H1.
Qed.

Lemma rat_FromRat q : (rat (FromRat q) == q)%Q.
Proof. apply Qred_correct. Qed.

Lemma rat_Add d o : (rat (Add d o) == rat d + rat o)%Q.
Proof. apply Qred_correct. Qed.
Lemma rat_Sub d o : (rat (Sub d o) == rat d - rat o)%Q.
Proof. apply Qred_correct. Qed.
Lemma rat_Mul d o : (rat (Mul d o) == rat d * rat o)%Q.
Proof. apply Qred_correct. Qed.
Lemma rat_Neg d : (rat (Neg d) == - rat d)%Q.
Proof. apply Qred_correct. Qed.
Lemma rat_Abs d : (rat (Abs d) == Qabs (rat d))%Q.
Proof. apply Qred_correct. Qed.
Lemma rat_FromInt64 v : (rat (FromInt64 v) == inject_Z v)%Q.
Proof. apply Qred_correct. Qed.
Lemma rat_Zero : (rat Zero == 0)%Q.
Proof. reflexivity. Qed.
Lemma rat_One : (rat One == 1)%Q.
Proof. reflexivity. Qed.
Lemma rat_TenThousand : (rat TenThousand == 10000)%Q.
Proof. reflexivity. Qed.

Lemma rat_cmp_lt p q : rat_cmp p q < 0 <-> (p < q)%Q.
Proof. unfold rat_cmp. rewrite Qlt_alt. destruct (p ?= q)%Q; split; done. Qed.
Lemma rat_cmp_gt p q : 0 < rat_cmp p q <-> (q < p)%Q.
Proof. unfold rat_cmp. rewrite Qgt_alt. destruct (p ?= q)%Q; split; done. Qed.
Lemma rat_cmp_eq p q : rat_cmp p q = 0 <-> (p == q)%Q.
Proof. unfold rat_cmp. rewrite Qeq_alt. destruct (p ?= q)%Q; split; done. Qed.

Lemma Qsgn_pos q : 0 < rat_sign q <-> (0 < q)%Q.
Proof. unfold rat_sign, Qlt. simpl. lia. Qed.
Lemma Qsgn_neg q : rat_sign q < 0 <-> (q < 0)%Q.
Proof. unfold rat_sign, Qlt. simpl. lia. Qed.
Lemma Qsgn_zero q : rat_sign q = 0 <-> (q == 0)%Q.
Proof. unfold rat_sign, Qeq. simpl. lia. Qed.

(** ** Reading a boolean test as an order on rationals *)

Lemma IsPositive_iff d : IsPositive d = true <-> (0 < rat d)%Q.
Proof. unfold IsPositive. rewrite Z.ltb_lt. apply Qsgn_pos. Qed.
Lemma IsPositive_false d : IsPositive d = false <-> (rat d <= 0)%Q.
Proof.
  rewrite <- Bool.not_true_iff_false, IsPositive_iff.
  split; [apply Qnot_lt_le | apply Qle_not_lt].
Qed.
Lemma DIsZero_iff d : DIsZero d = true <-> (rat d == 0)%Q.
Proof. unfold DIsZero. rewrite Z.eqb_eq. apply Qsgn_zero. Qed.
Lemma DIsZero_false d : DIsZero d = false <-> ~ (rat d == 0)%Q.
Proof. by rewrite <- Bool.not_true_iff_false, DIsZero_iff. Qed.
Lemma Sign_neg d : Sign d < 0 <-> (rat d < 0)%Q.
Proof. apply Qsgn_neg. Qed.
Lemma Sign_nonpos d : Sign d <= 0 <-> (rat d <= 0)%Q.
Proof.
  unfold Sign. pose proof (Qsgn_pos (rat d)) as Hp. split; intros H.
  - apply Qnot_lt_le. intros Hl. apply Hp in Hl. lia.
  - apply Qle_not_lt in H. rewrite <- Hp in H. lia.
Qed.
Lemma Cmp_le d o : Cmp d o <= 0 <-> (rat d <= rat o)%Q.
Proof.
  unfold Cmp. pose proof (rat_cmp_gt (rat d) (rat o)) as Hp. split; intros H.
  - apply Qnot_lt_le. intros Hl. apply Hp in Hl. lia.
  - apply Qle_not_lt in H. rewrite <- Hp in H. lia.
Qed.
Lemma Cmp_ge d o : 0 <= Cmp d o <-> (rat o <= rat d)%Q.
Proof.
  unfold Cmp. pose proof (rat_cmp_lt (rat d) (rat o)) as Hp. split; intros H.
  - apply Qnot_lt_le. intros Hl. apply Hp in Hl. lia.
  - apply Qle_not_lt in H. rewrite <- Hp in H. lia.
Qed.
Lemma Cmp_lt d o : Cmp d o < 0 <-> (rat d < rat o)%Q.
Proof. apply rat_cmp_lt. Qed.
Lemma Cmp_gt d o : 0 < Cmp d o <-> (rat o < rat d)%Q.
Proof. apply rat_cmp_gt. Qed.
Lemma Cmp_eq d o : Cmp d o = 0 <-> d ≐ o.
Proof. apply rat_cmp_eq. Qed.

(** ** Automation

    [dec_hyps] turns the boolean tests of the hypotheses into orders on
    rationals, [dec_norm] unfolds the value of the operations, [dec] closes
    linear goals. *)

Ltac dec_hyps :=
  repeat match goal with
  | H : _ && _ = true |- _ => apply andb_true_iff in H as [? ?]
  | H : _ || _ = false |- _ => apply orb_false_iff in H as [? ?]
  | H : negb _ = true |- _ => apply negb_true_iff in H
  | H : negb _ = false |- _ => apply negb_false_iff in H
  | H : (_ <? _) = true |- _ => apply Z.ltb_lt in H
  | H : (_ <? _) = false |- _ => apply Z.ltb_ge in H
  | H : (_ <=? _) = true |- _ => apply Z.leb_le in H
  | H : (_ <=? _) = false |- _ => apply Z.leb_gt in H
  | H : (_ =? _) = true |- _ => apply Z.eqb_eq in H
  | H : (_ =? _) = false |- _ => apply Z.eqb_neq in H
  | H : IsPositive _ = true |- _ => apply IsPositive_iff in H
  | H : IsPositive _ = false |- _ => apply IsPositive_false in H
  | H : DIsZero _ = true |- _ => apply DIsZero_iff in H
  | H : DIsZero _ = false |- _ => apply DIsZero_false in H
  | H : Sign _ <= 0 |- _ => apply Sign_nonpos in H
  | H : Sign _ < 0 |- _ => apply Sign_neg in H
  | H : 0 < Sign _ |- _ => apply Qsgn_pos in H
  | H : Cmp _ _ <= 0 |- _ => apply Cmp_le in H
  | H : 0 <= Cmp _ _ |- _ => apply Cmp_ge in H
  | H : Cmp _ _ < 0 |- _ => apply Cmp_lt in H
  | H : 0 < Cmp _ _ |- _ => apply Cmp_gt in H
  | H : Cmp _ _ = 0 |- _ => apply Cmp_eq in H
  end.

Ltac dec_norm :=
  unfold deq in *;
  repeat match goal with
  | |- context [rat (Add _ _)] => rewrite rat_Add
  | |- context [rat (Sub _ _)] => rewrite rat_Sub
  | |- context [rat (Mul _ _)] => rewrite rat_Mul
  | |- context [rat (Neg _)] => rewrite rat_Neg
  | |- context [rat (FromInt64 _)] => rewrite rat_FromInt64
  | |- context [rat Zero] => rewrite rat_Zero
  | |- context [rat One] => rewrite rat_One
  | |- context [rat TenThousand] => rewrite rat_TenThousand
  | |- context [rat (FromRat _)] => rewrite rat_FromRat
  | H : context [rat (Add _ _)] |- _ => rewrite rat_Add in H
  | H : context [rat (Sub _ _)] |- _ => rewrite rat_Sub in H
  | H : context [rat (Mul _ _)] |- _ => rewrite rat_Mul in H
  | H : context [rat (Neg _)] |- _ => rewrite rat_Neg in H
  | H : context [rat (FromInt64 _)] |- _ => rewrite rat_FromInt64 in H
  | H : context [rat Zero] |- _ => rewrite rat_Zero in H
  | H : context [rat One] |- _ => rewrite rat_One in H
  | H : context [rat TenThousand] |- _ => rewrite rat_TenThousand in H
  | H : context [rat (FromRat _)] |- _ => rewrite rat_FromRat in H
  end.

Ltac dec := dec_hyps; dec_norm; try lra.

(** ** The operations respect equality of values *)

#[export] Instance FromRat_proper : Proper (Qeq ==> deq) FromRat.
Proof. intros p q H. dec. Qed.
#[export] Instance Add_proper : Proper (deq ==> deq ==> deq) Add.
Proof. intros ?? H1 ?? H2. dec. Qed.
#[export] Instance Sub_proper : Proper (deq ==> deq ==> deq) Sub.
Proof. intros ?? H1 ?? H2. dec. Qed.
#[export] Instance Mul_proper : Proper (deq ==> deq ==> deq) Mul.
Proof. intros ?? H1 ?? H2. dec_norm. by rewrite H1, H2. Qed.
#[export] Instance Cmp_proper : Proper (deq ==> deq ==> eq) Cmp.
Proof.
  intros a b H1 c d H2. unfold deq, Cmp, rat_cmp in *. by rewrite H1, H2.
Qed.
#[export] Instance Sign_proper : Proper (deq ==> eq) Sign.
Proof.
  intros a b H. unfold deq, Sign in *.
  destruct (Z.lt_total (rat_sign (rat a)) 0) as [Ha|[Ha|Ha]].
  - pose proof Ha as Hb. rewrite Qsgn_neg, H, <- Qsgn_neg in Hb.
    unfold rat_sign in *. lia.
  - pose proof Ha as Hb. rewrite Qsgn_zero, H, <- Qsgn_zero in Hb. congruence.
  - pose proof Ha as Hb. rewrite Qsgn_pos, H, <- Qsgn_pos in Hb.
    unfold rat_sign in *. lia.
Qed.
#[export] Instance IsPositive_proper : Proper (deq ==> eq) IsPositive.
Proof. intros a b H. change ((0 <? Sign a) = (0 <? Sign b)). by rewrite H. Qed.
#[export] Instance DIsZero_proper : Proper (deq ==> eq) DIsZero.
Proof. intros a b H. change ((Sign a =? 0) = (Sign b =? 0)). by rewrite H. Qed.

(** ** Division, minimum and maximum *)

Lemma Div_Ret d o : ~ (rat o == 0)%Q -> Div d o = Ret (FromRat (rat d / rat o)).
Proof. intros H. unfold Div. by rewrite (proj2 (DIsZero_false o) H). Qed.

Lemma Div_post d o Q :
  ~ (rat o == 0)%Q -> (forall v, (rat v == rat d / rat o)%Q -> Q v) -> post (Div d o) Q.
Proof. intros H HQ. rewrite Div_Ret by done. apply HQ, rat_FromRat. Qed.

Lemma DMin_le_l d o : (rat (DMin d o) <= rat d)%Q.
Proof. unfold DMin. destruct (Cmp d o <=? 0) eqn:E; dec. Qed.
Lemma DMin_le_r d o : (rat (DMin d o) <= rat o)%Q.
Proof. unfold DMin. destruct (Cmp d o <=? 0) eqn:E; dec. Qed.
Lemma DMax_ge_l d o : (rat d <= rat (DMax d o))%Q.
Proof. unfold DMax. destruct (0 <=? Cmp d o) eqn:E; dec. Qed.
Lemma DMax_ge_r d o : (rat o <= rat (DMax d o))%Q.
Proof. unfold DMax. destruct (0 <=? Cmp d o) eqn:E; dec. Qed.
Lemma DMin_cases d o : DMin d o = d \/ DMin d o = o.
Proof. unfold DMin. case_match; auto. Qed.
Lemma DMax_cases d o : DMax d o = d \/ DMax d o = o.
Proof. unfold DMax. case_match; auto. Qed.

(** ** Quantisation *)

(** [is_multiple d step]: [d] is an integral number of steps. *)
Definition is_multiple (d step : Decimal) : Prop :=
  exists n : Z, (rat d == inject_Z n * rat step)%Q.

#[export] Instance is_multiple_proper : Proper (deq ==> deq ==> iff) is_multiple.
Proof.
  intros a b H1 c d H2. unfold is_multiple, deq in *.
  split; intros [n Hn]; exists n; by rewrite ?H1, ?H2 in *.
Qed.

Lemma is_multiple_add d o step :
  is_multiple d step -> is_multiple o step -> is_multiple (Add d o) step.
Proof.
  intros [n Hn] [m Hm]. exists (n + m). dec_norm. rewrite Hn, Hm, inject_Z_plus. ring.
Qed.
Lemma is_multiple_sub d o step :
  is_multiple d step -> is_multiple o step -> is_multiple (Sub d o) step.
Proof.
  intros [n Hn] [m Hm]. exists (n - m). dec_norm.
  rewrite Hn, Hm. unfold Z.sub. rewrite inject_Z_plus, inject_Z_opp. ring.
Qed.
Lemma is_multiple_self step : is_multiple step step.
Proof. exists 1. ring. Qed.
Lemma is_multiple_scale n step : is_multiple (Mul step (FromInt64 n)) step.
Proof. exists n. dec_norm. ring. Qed.

#[export] Hint Resolve is_multiple_add is_multiple_sub is_multiple_self
  is_multiple_scale : go.

Lemma quot_floor q : (0 <= q)%Q -> Z.quot (Qnum q) (Zpos (Qden q)) = Qfloor q.
Proof.
  destruct q as [n d]. unfold Qle. simpl. intros H. apply Z.quot_div_nonneg; lia.
Qed.

Lemma rem_floor q : (0 <= q)%Q ->
  Z.rem (Qnum q) (Zpos (Qden q)) = Qnum q - Zpos (Qden q) * Qfloor q.
Proof.
  intros H. rewrite <- quot_floor by done.
  pose proof (Z.quot_rem (Qnum q) (Zpos (Qden q)) ltac:(lia)). lia.
Qed.

(** Exactly when the remainder vanishes the value is its own floor. *)
Lemma rem_zero_floor q : (0 <= q)%Q ->
  Z.rem (Qnum q) (Zpos (Qden q)) = 0 <-> (q == inject_Z (Qfloor q))%Q.
Proof.
  intros H. rewrite rem_floor by done. unfold Qeq, inject_Z. simpl. lia.
Qed.

Lemma Qdiv_nonneg_floor d step :
  (0 <= d)%Q -> (0 < step)%Q ->
  let n := Qfloor (Qred (d / step)) in
  0 <= n /\ (inject_Z n * step <= d)%Q /\ (d < inject_Z n * step + step)%Q.
Proof.
  intros Hd Hs n. unfold n. rewrite (Qfloor_comp _ _ (Qred_correct (d / step))).
  assert (Hq : (0 <= d / step)%Q) by (apply Qle_shift_div_l; [done|lra]).
  assert (Hv : (d == d / step * step)%Q) by (field; lra).
  pose proof (Qfloor_le (d / step)) as Hle. pose proof (Qlt_floor (d / step)) as Hlt.
  set (f := Qfloor (d / step)) in *. rewrite inject_Z_plus in Hlt.
  change (inject_Z 1) with 1%Q in Hlt. repeat split.
  - apply (Qfloor_resp_le 0) in Hq. exact Hq.
  - apply (Qmult_le_r _ _ step Hs) in Hle. lra.
  - apply (Qmult_lt_r _ _ step Hs) in Hlt. lra.
Qed.

(** Contract of [QuantizeDown]: the largest multiple of the step below the value. *)
Definition quantized_down (d step v : Decimal) : Prop :=
  is_multiple v step /\ (0 <= rat v)%Q /\ (rat v <= rat d)%Q
    /\ (rat d < rat v + rat step)%Q.

Definition quantized_up (d step v : Decimal) : Prop :=
  is_multiple v step /\ (rat d <= rat v)%Q /\ (rat v < rat d + rat step)%Q.

Lemma quantize_guard d step :
  (0 <= rat d)%Q -> (0 < rat step)%Q -> (Sign step <=? 0) || (Sign d <? 0) = false.
Proof.
  intros Hd Hs. apply orb_false_iff. split.
  - apply Z.leb_gt. by apply Qsgn_pos.
  - apply Z.ltb_ge. destruct (Z.lt_ge_cases (Sign d) 0) as [H|]; [|done].
    apply Sign_neg in H. lra.
Qed.

Lemma QuantizeDown_spec d step :
  (0 <= rat d)%Q -> (0 < rat step)%Q ->
  exists v, QuantizeDown d step = Ret v /\ quantized_down d step v.
Proof.
  intros Hd Hs. unfold QuantizeDown. rewrite quantize_guard by done.
  destruct (Qdiv_nonneg_floor _ _ Hd Hs) as (Hn & Hlo & Hhi).
  assert (Hq : (0 <= Qred (rat d / rat step))%Q).
  { rewrite Qred_correct. apply Qle_shift_div_l; [done|lra]. }
  rewrite quot_floor by done. set (n := Qfloor _) in *.
  eexists. split; [done|]. unfold quantized_down. rewrite rat_FromRat. repeat split.
  - exists n. by rewrite rat_FromRat.
  - apply Qmult_le_0_compat; [|lra]. rewrite (Zle_Qle 0) in Hn. exact Hn.
  - done.
  - done.
Qed.

Lemma QuantizeUp_spec d step :
  (0 <= rat d)%Q -> (0 < rat step)%Q ->
  exists v, QuantizeUp d step = Ret v /\ quantized_up d step v.
Proof.
  intros Hd Hs. unfold QuantizeUp. rewrite quantize_guard by done.
  destruct (Qdiv_nonneg_floor _ _ Hd Hs) as (Hn & Hlo & Hhi).
  assert (Hq : (0 <= Qred (rat d / rat step))%Q).
  { rewrite Qred_correct. apply Qle_shift_div_l; [done|lra]. }
  assert (Hv : (rat d == Qred (rat d / rat step) * rat step)%Q).
  { rewrite Qred_correct. field. lra. }
  pose proof (rem_zero_floor _ Hq) as Hz. rewrite quot_floor by done.
  set (q := Qred _) in *. set (n := Qfloor q) in *. unfold quantized_up.
  destruct (Z.sgn _ =? 0) eqn:E; eexists; (split; [done|]); rewrite rat_FromRat.
  - assert (Hqn : (q == inject_Z n)%Q) by (apply Hz; apply Z.eqb_eq in E; lia).
    rewrite Hqn in Hv. repeat split; [exists n; by rewrite rat_FromRat | lra | lra].
  - assert (Hne : ~ (q == inject_Z n)%Q).
    { intros Hc. apply Hz in Hc. apply Z.eqb_neq in E. apply E. by rewrite Hc. }
    pose proof (Qfloor_le q) as Hle. fold n in Hle.
    assert (Hlt : (inject_Z n < q)%Q).
    { apply Qle_lteq in Hle as [?|Hc]; [done|]. destruct Hne. by symmetry. }
    apply (Qmult_lt_r _ _ (rat step) Hs) in Hlt.
    rewrite inject_Z_plus. change (inject_Z 1) with 1%Q.
    repeat split; [|lra|lra].
    exists (n + 1). rewrite rat_FromRat, inject_Z_plus. reflexivity.
Qed.

Lemma QuantizeDown_post d step Q :
  (0 <= rat d)%Q -> (0 < rat step)%Q ->
  (forall v, quantized_down d step v -> Q v) -> post (QuantizeDown d step) Q.
Proof. intros Hd Hs HQ. destruct (QuantizeDown_spec d step Hd Hs) as (v & -> & Hv). by apply HQ. Qed.

Lemma QuantizeUp_post d step Q :
  (0 <= rat d)%Q -> (0 < rat step)%Q ->
  (forall v, quantized_up d step v -> Q v) -> post (QuantizeUp d step) Q.
Proof. intros Hd Hs HQ. destruct (QuantizeUp_spec d step Hd Hs) as (v & -> & Hv). by apply HQ. Qed.

(** A multiple of the step strictly above another one is at least a step above. *)
Lemma is_multiple_gap a b step :
  is_multiple a step -> is_multiple b step -> (0 < rat step)%Q ->
  (rat a < rat b)%Q -> (rat a + rat step <= rat b)%Q.
Proof.
  intros [n Hn] [m Hm] Hs Hlt. rewrite Hn, Hm in *.
  assert (Hnm : n < m).
  { rewrite Zlt_Qlt. apply (Qmult_lt_r _ _ (rat step) Hs). done. }
  assert (Hle : (inject_Z (n + 1) <= inject_Z m)%Q) by (rewrite <- Zle_Qle; lia).
  rewrite inject_Z_plus in Hle. change (inject_Z 1) with 1%Q in Hle.
  apply (Qmult_le_r _ _ (rat step) Hs) in Hle. lra.
Qed.
