(* ===== verification/Domain.v ===== *)
(** The trading data model (src/internal/domain/types.go) and the venue data and
    adapter metadata the components exchange (src/internal/venue/venue.go,
    src/internal/venue/spec.go). *)
From S2P Require Import Prelude Decimal.

(** ** Enumerations, string types of the source *)

Abbreviation Side := string (only parsing).
Definition Buy : Side := "BUY".
Definition Sell : Side := "SELL".

Abbreviation Mode := string (only parsing).
Definition ModeShadow : Mode := "shadow".
Definition ModeLive : Mode := "live".

Abbreviation OrderState := string (only parsing).
Definition OrderNew : OrderState := "NEW".
Definition OrderPartiallyFilled : OrderState := "PARTIALLY_FILLED".
Definition OrderFilled : OrderState := "FILLED".
Definition OrderCanceled : OrderState := "CANCELED".
Definition OrderRejected : OrderState := "REJECTED".
Definition OrderExpired : OrderState := "EXPIRED".
Definition OrderUnknown : OrderState := "UNKNOWN".

(** ** Market data *)

Record Book := MkBook {
  book_Venue : string;
  book_Symbol : string;
  BidPrice : Decimal;
  BidQty : Decimal;
  AskPrice : Decimal;
  AskQty : Decimal;
  book_Timestamp : Time
}.

Definition HasBid (b : Book) : bool := IsPositive (BidPrice b).
Definition HasAsk (b : Book) : bool := IsPositive (AskPrice b).
Definition HasPrices (b : Book) : bool := HasBid b || HasAsk b.
Definition TwoSided (b : Book) : bool := HasBid b && HasAsk b.

Record ReferencePrice := MkReferencePrice {
  ref_InstrumentID : string;
  ref_Price : Decimal;
  ref_Spot : Decimal;
  ref_TWAPReady : bool;
  ref_Confidence : string;
  ref_BlockNumber : Z;
  ref_BlockTime : Time;
  ref_ValidUntil : Time
}.

Record Quote := MkQuote {
  quote_InstrumentID : string;
  quote_Venue : string;
  quote_Symbol : string;
  quote_Side : Side;
  quote_Level : Z;
  quote_Price : Decimal;
  quote_Quantity : Decimal;
  quote_Reference : Decimal;
  quote_ValidUntil : Time
}.

#[export] Instance Quote_eq_dec : EqDecision Quote.
Proof. solve_decision. Defined.

Record Order := MkOrder {
  order_Venue : string;
  OrderID : string;
  ClientID : string;
  order_Symbol : string;
  order_Side : Side;
  order_Price : Decimal;
  order_Quantity : Decimal;
  ExecutedQty : Decimal;
  order_State : OrderState;
  CreatedAt : Time
}.

#[export] Instance Order_eq_dec : EqDecision Order.
Proof. solve_decision. Defined.

(** The zero [domain.Order]. *)
Definition zeroOrder : Order :=
  MkOrder "" "" "" "" "" Zero Zero Zero "" zero_time.

Record Balance := MkBalance {
  bal_Asset : string;
  bal_Free : Decimal;
  bal_Locked : Decimal
}.

Record QuoteBudget := MkQuoteBudget {
  ReserveBPS : Z;
  TargetOrders : Z;
  EligibleOrders : Z;
  BaseBudget : Decimal;
  BaseRequired : Decimal;
  BudgetQuote : Decimal;
  QuoteRequired : Decimal;
  BaseLimited : bool;
  QuoteLimited : bool
}.

Record MarketRules := MkMarketRules {
  rules_Symbol : string;
  rules_BaseAsset : string;
  rules_QuoteAsset : string;
  rules_PriceTick : Decimal;
  rules_QuantityStep : Decimal;
  rules_MinQuantity : Decimal;
  rules_MaxQuantity : Decimal;
  rules_MinNotional : Decimal;
  rules_MaxNotional : Decimal;
  rules_MinPrice : Decimal;
  rules_MaxPrice : Decimal;
  rules_MaxOpenOrders : Z
}.

Record Fill := MkFill {
  fill_Venue : string;
  TradeID : string;
  fill_OrderID : string;
  fill_Symbol : string;
  fill_Side : Side;
  fill_Price : Decimal;
  fill_Quantity : Decimal;
  QuoteQuantity : Decimal;
  Fee : Decimal;
  FeeAsset : string;
  Maker : bool;
  Aggregate : bool;
  Simulated : bool;
  fill_Timestamp : Time
}.

(** ** Venue requests and adapter metadata *)

Record PlaceRequest := MkPlaceRequest {
  req_Symbol : string;
  req_Side : Side;
  req_Price : Decimal;
  req_Quantity : Decimal;
  req_ClientID : string;
  req_FenceGeneration : Z
}.

(** [venue.ClientKey] *)
Definition ClientKey (venueName instrumentID : string) : string :=
  ToLower (TrimSpace venueName) +:+ "|" +:+ ToLower (TrimSpace instrumentID).

Record AdapterSpec := MkAdapterSpec {
  spec_Type : string;
  spec_Name : string;
  ProductionBaseURL : string;
  TestnetBaseURL : string;
  DefaultSelfTradePrevention : string;
  RequiresSelfTradePrevention : bool;
  RequiresDedicatedAccount : bool
}.

Definition adapterSpecs : list AdapterSpec := [
  MkAdapterSpec "binance" "Binance" "https://api.binance.com"
    "https://testnet.binance.vision" "EXPIRE_BOTH" true false;
  MkAdapterSpec "mgbx" "MGBX" "https://open.mgbx.com" "" "" false true
].

(** [venue.AdapterSpecFor] *)
Definition AdapterSpecFor (typeName : string) : option AdapterSpec :=
  let normalized := ToLower (TrimSpace typeName) in
  head (filter (fun s => spec_Type s = normalized) adapterSpecs).

(** ** Order-book facts used by the pricing and risk components *)

Lemma HasAsk_iff b : HasAsk b = true <-> (0 < rat (AskPrice b))%Q.
Proof. apply IsPositive_iff. Qed.
Lemma HasBid_iff b : HasBid b = true <-> (0 < rat (BidPrice b))%Q.
Proof. apply IsPositive_iff. Qed.

Lemma HasPrices_false b : HasPrices b = false -> HasBid b = false /\ HasAsk b = false.
Proof. apply orb_false_iff. Qed.

Lemma TwoSided_true b : TwoSided b = true -> HasBid b = true /\ HasAsk b = true.
Proof. apply andb_true_iff. Qed.

Lemma Buy_ne_Sell : Buy <> Sell.
Proof. done. Qed.

#[export] Hint Resolve Buy_ne_Sell : go.
