(* ===== verification/Config.v ===== *)
(** Configuration data, defaults and validation (src/internal/config/config.go).

    [map[string]VenueConfig] and the market maps are [gmap]s; the loops over them
    follow the order of [MapRange].  [url.Parse] is modelled on URLs of the form
    scheme://host[:port]/...; IPv6 literals and percent-escaped hosts are
    rejected. *)
From S2P Require Import Prelude Decimal Domain.

Open Scope string_scope.
Open Scope Z_scope.

(** ** Data *)

Record RPCConfig := MkRPCConfig {
  URLs : list string;
  ChainID : Z;
  RequestTimeoutMS : Z
}.

Record AssetConfig := MkAssetConfig {
  asset_Symbol : string;
  asset_Address : string;
  asset_Decimals : Z
}.

Record PairLegConfig := MkPairLegConfig {
  PairAddress : string;
  ExpectedFactory : string;
  BaseToken : string;
  QuoteToken : string;
  MinQuoteReserve : Decimal;
  MaxIdleSeconds : Z
}.

Record ReferenceConfig := MkReferenceConfig {
  refcfg_Type : string;
  Legs : list PairLegConfig;
  TWAPWindowSeconds : Z;
  MaxSpotTWAPDeviationBPS : Z;
  StaleAfterSeconds : Z;
  AllowSpotDuringWarmup : bool
}.

Record StrategyConfig := MkStrategyConfig {
  HalfSpreadBPS : Z;
  LevelSpacingBPS : Z;
  Levels : Z;
  OrderSize : Decimal;
  MinOrderNotional : Decimal;
  MaxOrderNotional : Decimal;
  RepriceThresholdBPS : Z;
  BalanceReserveBPS : Z;
  MaxVenueReferenceDeviationBPS : Z;
  MaxVenueSpreadBPS : Z;
  TargetBase : Decimal;
  MaxBaseDeviation : Decimal;
  InventorySkewBPS : Z;
  QuoteRefreshSeconds : Z;
  QuoteRefreshRatioBPS : Z;
  MinOrderLifetimeSeconds : Z;
  MaxOrderLifetimeSeconds : Z;
  FillReplenishMinDelaySeconds : Z;
  FillReplenishMaxDelaySeconds : Z;
  PriceJitterTicks : Z;
  BestLevels : Z;
  BestLevelRefreshSeconds : Z
}.

Record TradeSimulationConfig := MkTradeSimulationConfig {
  sim_Enabled : bool;
  SourceVenue : string;
  sim_MinQuantity : Decimal;
  sim_MaxQuantity : Decimal;
  MinIntervalMS : Z;
  MaxIntervalMS : Z;
  BuyProbabilityBPS : Z;
  RecentLimit : Z
}.

Record InstrumentConfig := MkInstrumentConfig {
  ID : string;
  inst_Base : AssetConfig;
  inst_Quote : AssetConfig;
  Reference : ReferenceConfig;
  Strategy : StrategyConfig;
  TradeSimulation : TradeSimulationConfig
}.

Record VenueMarketConfig := MkVenueMarketConfig {
  market_Symbol : string;
  market_BaseAsset : string;
  market_QuoteAsset : string;
  PriceTick : Decimal;
  QuantityStep : Decimal;
  MinNotional : Decimal;
  MinQuantity : Decimal;
  MaxQuantity : Decimal;
  MaxNotional : Decimal;
  MinPrice : Decimal;
  MaxPrice : Decimal;
  MaxOpenOrders : Z;
  MaxBaseCommitment : Decimal;
  MaxQuoteCommitment : Decimal;
  CredentialID : Z
}.

Record VenueConfig := MkVenueConfig {
  venue_Type : string;
  Environment : string;
  venue_Enabled : bool;
  TradingEnabled : bool;
  DedicatedAccount : bool;
  BaseURL : string;
  SelfTradePrevention : string;
  Markets : gmap string VenueMarketConfig
}.

Record Config := MkConfig {
  cfg_Mode : Mode;
  PollIntervalMS : Z;
  AuditPath : string;
  AuditMaxBytes : Z;
  AuditBackups : Z;
  HeartbeatPath : string;
  WatchdogTimeoutSeconds : Z;
  MarketFailureThreshold : Z;
  MarketRecoveryThreshold : Z;
  MarketErrorGraceSeconds : Z;
  TradingProgressTimeoutSeconds : Z;
  MaxConcurrentInstruments : Z;
  RulesRefreshSeconds : Z;
  RPC : RPCConfig;
  Instruments : list InstrumentConfig;
  Venues : gmap string VenueConfig
}.

(** ** Defaults *)

Definition DefaultQuoteRefreshSeconds : Z := 45.
Definition DefaultQuoteRefreshRatioBPS : Z := 1000.
Definition DefaultMinOrderLifetimeSeconds : Z := 30.
Definition DefaultMaxOrderLifetimeSeconds : Z := 300.
Definition DefaultFillReplenishMinDelaySeconds : Z := 3.
Definition DefaultFillReplenishMaxDelaySeconds : Z := 8.
Definition DefaultPriceJitterTicks : Z := 2.
Definition DefaultBestLevels : Z := 3.
Definition DefaultBestRefreshSeconds : Z := 90.
Definition MaxStrategyLevels : Z := 100.

Definition EffectiveQuoteRefreshSeconds (s : StrategyConfig) : Z :=
  if 0 <? QuoteRefreshSeconds s then QuoteRefreshSeconds s
  else DefaultQuoteRefreshSeconds.

Definition EffectiveQuoteRefreshRatioBPS (s : StrategyConfig) : Z :=
  if 0 <? QuoteRefreshRatioBPS s then QuoteRefreshRatioBPS s
  else DefaultQuoteRefreshRatioBPS.

Definition seconds_or (seconds default : Z) : Duration :=
  (let seconds := if seconds <=? 0 then default else seconds in
   seconds *i Second)%go.

Definition EffectiveMinOrderLifetime (s : StrategyConfig) : Duration :=
  seconds_or (MinOrderLifetimeSeconds s) DefaultMinOrderLifetimeSeconds.
Definition EffectiveMaxOrderLifetime (s : StrategyConfig) : Duration :=
  seconds_or (MaxOrderLifetimeSeconds s) DefaultMaxOrderLifetimeSeconds.
Definition EffectiveFillReplenishMinDelay (s : StrategyConfig) : Duration :=
  seconds_or (FillReplenishMinDelaySeconds s) DefaultFillReplenishMinDelaySeconds.
Definition EffectiveFillReplenishMaxDelay (s : StrategyConfig) : Duration :=
  seconds_or (FillReplenishMaxDelaySeconds s) DefaultFillReplenishMaxDelaySeconds.

Definition EffectivePriceJitterTicks (s : StrategyConfig) : Z :=
  if 0 <? PriceJitterTicks s then PriceJitterTicks s else DefaultPriceJitterTicks.

Definition EffectiveBestLevels (s : StrategyConfig) : Z :=
  let levels := if BestLevels s <=? 0 then DefaultBestLevels else BestLevels s in
  if Levels s <? levels then Levels s else levels.

Definition EffectiveBestLevelRefreshSeconds (s : StrategyConfig) : Z :=
  if 0 <? BestLevelRefreshSeconds s then BestLevelRefreshSeconds s
  else DefaultBestRefreshSeconds.

Definition RefreshOrdersPerCycle (s : StrategyConfig) (orderCount : Z) : Z :=
  if orderCount <=? 0 then 0
  else
    let count := ((orderCount *i EffectiveQuoteRefreshRatioBPS s +i 9999) /i 10000)%go in
    if count <? 1 then 1
    else if orderCount <? count then orderCount
    else count.

Definition UsesOrderNotionalRange (s : StrategyConfig) : bool :=
  negb (DIsZero (MinOrderNotional s)) || negb (DIsZero (MaxOrderNotional s)).

Definition or_default (v d : Z) : Z := if v =? 0 then d else v.

(** The body of the loop of [NormalizeStrategySizing]. *)
Definition normalizeStrategy (s : StrategyConfig) : StrategyConfig :=
  let orderSize :=
    if IsPositive (MinOrderNotional s) && IsPositive (MaxOrderNotional s)
    then Zero else OrderSize s in
  let quoteRefresh := or_default (QuoteRefreshSeconds s) DefaultQuoteRefreshSeconds in
  MkStrategyConfig (HalfSpreadBPS s) (LevelSpacingBPS s) (Levels s) orderSize
    (MinOrderNotional s) (MaxOrderNotional s) (RepriceThresholdBPS s)
    (BalanceReserveBPS s) (MaxVenueReferenceDeviationBPS s) (MaxVenueSpreadBPS s)
    (TargetBase s) (MaxBaseDeviation s) (InventorySkewBPS s)
    quoteRefresh
    (or_default (QuoteRefreshRatioBPS s) DefaultQuoteRefreshRatioBPS)
    (or_default (MinOrderLifetimeSeconds s) DefaultMinOrderLifetimeSeconds)
    (or_default (MaxOrderLifetimeSeconds s) DefaultMaxOrderLifetimeSeconds)
    (or_default (FillReplenishMinDelaySeconds s) DefaultFillReplenishMinDelaySeconds)
    (or_default (FillReplenishMaxDelaySeconds s) DefaultFillReplenishMaxDelaySeconds)
    (or_default (PriceJitterTicks s) DefaultPriceJitterTicks)
    (or_default (BestLevels s) (Z.min DefaultBestLevels (Levels s)))
    (or_default (BestLevelRefreshSeconds s) (Z.max DefaultBestRefreshSeconds quoteRefresh)).

Definition set_Strategy (i : InstrumentConfig) (s : StrategyConfig) : InstrumentConfig :=
  MkInstrumentConfig (ID i) (inst_Base i) (inst_Quote i) (Reference i) s (TradeSimulation i).

Definition set_Instruments (c : Config) (l : list InstrumentConfig) : Config :=
  MkConfig (cfg_Mode c) (PollIntervalMS c) (AuditPath c) (AuditMaxBytes c) (AuditBackups c)
    (HeartbeatPath c) (WatchdogTimeoutSeconds c) (MarketFailureThreshold c)
    (MarketRecoveryThreshold c) (MarketErrorGraceSeconds c)
    (TradingProgressTimeoutSeconds c) (MaxConcurrentInstruments c)
    (RulesRefreshSeconds c) (RPC c) l (Venues c).

Definition NormalizeStrategySizing (c : Config) : Config :=
  set_Instruments c
    (map (fun i => set_Strategy i (normalizeStrategy (Strategy i))) (Instruments c)).

Definition PollInterval (c : Config) : Duration := (PollIntervalMS c *i Millisecond)%go.
Definition RequestTimeout (c : Config) : Duration :=
  (RequestTimeoutMS (RPC c) *i Millisecond)%go.

(** ** URLs, as far as the validation looks at them *)

Record URL := MkURL { Scheme : string; Host : string; Hostname : string }.

Definition char_in (c : ascii) (lo hi : ascii) : bool :=
  N.leb (N_of_ascii lo) (N_of_ascii c) && N.leb (N_of_ascii c) (N_of_ascii hi).
Definition is_digit (c : ascii) : bool := char_in c "0" "9".
Definition is_letter (c : ascii) : bool := char_in c "a" "z" || char_in c "A" "Z".
Definition is_control (c : ascii) : bool :=
  N.ltb (N_of_ascii c) 32 || N.eqb (N_of_ascii c) 127.
Definition is_one_of (l : list ascii) (c : ascii) : bool := bool_decide (c ∈ l).

(** The part of [s] before the first character of the class [p], and the rest
    after that character. *)
Fixpoint cut (p : ascii -> bool) (s : string) : string * option string :=
  match s with
  | EmptyString => (EmptyString, None)
  | String c s' =>
      if p c then (EmptyString, Some s')
      else let '(a, b) := cut p s' in (String c a, b)
  end.

(** The part after the last occurrence of a character of the class [p]. *)
Fixpoint after_last (p : ascii -> bool) (s : string) : string :=
  match cut p s with
  | (_, None) => s
  | _ => match s with EmptyString => EmptyString | String _ s' => after_last p s' end
  end.

Fixpoint getScheme (first : bool) (raw s acc : string) : option (string * string) :=
  match s with
  | EmptyString => Some (EmptyString, raw)
  | String c s' =>
      if is_letter c || (negb first && (is_digit c || is_one_of ["+"; "-"; "."]%char c))
      then getScheme false raw s' (acc +:+ String c EmptyString)
      else if Ascii.eqb c ":" then
        if first then None else Some (ToLower acc, s')
      else Some (EmptyString, raw)
  end.

Definition parse_authority (authority : string) : option (string * string) :=
  let host := after_last (Ascii.eqb "@") authority in
  let '(name, port) := cut (Ascii.eqb ":") host in
  if forall_string (fun c => negb (is_one_of [" "; "%"; "["; "]"; "<"; ">"]%char c)) name
     && match port with None => true | Some p => forall_string is_digit p end
  then Some (host, name) else None.

Definition url_Parse (raw : string) : option URL :=
  if negb (forall_string (fun c => negb (is_control c)) raw) then None else
  match getScheme true (fst (cut (Ascii.eqb "#") raw)) (fst (cut (Ascii.eqb "#") raw)) "" with
  | None => None
  | Some (scheme, rest) =>
      let rest := fst (cut (Ascii.eqb "?") rest) in
      if HasPrefix rest "//" then
        match parse_authority (fst (cut (Ascii.eqb "/") (drop_string 2 rest))) with
        | Some (host, name) => Some (MkURL scheme host name)
        | None => None
        end
      else Some (MkURL scheme "" "")
  end.

(** ** Validation *)

Definition looksLikeAddress (value : string) : bool :=
  let value := TrimSpace value in
  if negb (String.length value =? 42)%nat || negb (HasPrefix (ToLower value) "0x")
  then false
  else forall_string
    (fun c => is_digit c || char_in c "a" "f" || char_in c "A" "F") (drop_string 2 value).

Definition inst_err (id msg : string) : error :=
  Errorf ("instrument " +:+ id +:+ ": " +:+ msg).

(** The loop over the legs of the price path, carrying [expectedInput]. *)
Definition validateLeg (id : string) (st : Z * string) (leg : PairLegConfig)
    : go (Z * string) :=
  let '(legIndex, expectedInput) := st in
  fail_if (negb (looksLikeAddress (PairAddress leg)) || negb (looksLikeAddress (BaseToken leg))
           || negb (looksLikeAddress (QuoteToken leg)))
    (inst_err id "invalid Pancake V2 leg address") ;;
  fail_if (negb (EqualFold (TrimSpace (BaseToken leg)) (TrimSpace expectedInput)))
    (inst_err id ("leg " +:+ pretty (legIndex + 1)
       +:+ " base token does not continue the price path")) ;;
  fail_if (negb (String.eqb (ExpectedFactory leg) "")
           && negb (looksLikeAddress (ExpectedFactory leg)))
    (inst_err id "invalid expected factory") ;;
  fail_if ((MaxIdleSeconds leg <? 0) || (Sign (MinQuoteReserve leg) <? 0))
    (inst_err id "invalid leg safety limits") ;;
  Ret (legIndex + 1, QuoteToken leg).

Definition validateReference (mode : Mode) (i : InstrumentConfig) : go unit :=
  let id := ID i in
  fail_if (negb (looksLikeAddress (asset_Address (inst_Base i)))
           || negb (looksLikeAddress (asset_Address (inst_Quote i))))
    (inst_err id "invalid base or quote token address") ;;
  fail_if (negb (String.eqb (refcfg_Type (Reference i)) "pancake_v2"))
    (inst_err id "unsupported reference type") ;;
  fail_if (length (Legs (Reference i)) =? 0)%nat
    (inst_err id "reference legs required") ;;
  fail_if (String.eqb mode ModeLive && AllowSpotDuringWarmup (Reference i))
    (inst_err id "live mode forbids allow_spot_during_warmup") ;;
  st ← foldM (validateLeg id) (Legs (Reference i)) (0, asset_Address (inst_Base i));
  fail_if (negb (EqualFold (TrimSpace (snd st)) (TrimSpace (asset_Address (inst_Quote i)))))
    (inst_err id "price path does not end at quote token") ;;
  fail_if (TWAPWindowSeconds (Reference i) <=? 0)
    (inst_err id "twap window must be positive").

(** [outermostSpreadBPS], computed in [int64]. *)
Definition outermostSpreadBPS (s : StrategyConfig) : Z :=
  (HalfSpreadBPS s +i (Levels s -i 1) *i LevelSpacingBPS s)%go.

Definition validateSizing (id : string) (s : StrategyConfig) : go unit :=
  fail_if ((Levels s <? 1) || (MaxStrategyLevels <? Levels s))
    (inst_err id "levels must be 1..100") ;;
  (if UsesOrderNotionalRange s then
     fail_if (negb (IsPositive (MinOrderNotional s)) || negb (IsPositive (MaxOrderNotional s)))
       (inst_err id "minimum and maximum order notional must be positive") ;;
     fail_if (Cmp (MaxOrderNotional s) (MinOrderNotional s) <? 0)
       (inst_err id "maximum order notional must be greater than or equal to minimum order notional")
   else
     fail_if (negb (IsPositive (OrderSize s)))
       (inst_err id "order notional range or legacy order size is required")).

Definition validateRefresh (id : string) (s : StrategyConfig) : go unit :=
  fail_if ((QuoteRefreshSeconds s <? 0)
           || ((0 <? QuoteRefreshSeconds s) && (QuoteRefreshSeconds s <? 10)))
    (inst_err id "quote refresh interval must be zero or at least 10 seconds") ;;
  fail_if ((QuoteRefreshRatioBPS s <? 0) || (10000 <? QuoteRefreshRatioBPS s))
    (inst_err id "quote refresh ratio must be 0..10000 bps") ;;
  fail_if ((MinOrderLifetimeSeconds s <? 0)
           || ((0 <? MinOrderLifetimeSeconds s) && (MinOrderLifetimeSeconds s <? 5)))
    (inst_err id "minimum order lifetime must be zero or at least 5 seconds") ;;
  fail_if ((MaxOrderLifetimeSeconds s <? 0)
           || ((0 <? MaxOrderLifetimeSeconds s) && (MaxOrderLifetimeSeconds s <? 10)))
    (inst_err id "maximum order lifetime must be zero or at least 10 seconds") ;;
  fail_if (EffectiveMaxOrderLifetime s <? EffectiveMinOrderLifetime s)
    (inst_err id "maximum order lifetime must be greater than or equal to minimum order lifetime") ;;
  fail_if ((FillReplenishMinDelaySeconds s <? 0) || (3600 <? FillReplenishMinDelaySeconds s)
           || (FillReplenishMaxDelaySeconds s <? 0) || (3600 <? FillReplenishMaxDelaySeconds s))
    (inst_err id "fill replenishment delays must be 0..3600 seconds") ;;
  fail_if (EffectiveFillReplenishMaxDelay s <? EffectiveFillReplenishMinDelay s)
    (inst_err id "maximum fill replenishment delay must be greater than or equal to minimum fill replenishment delay") ;;
  fail_if ((PriceJitterTicks s <? 0) || (100 <? PriceJitterTicks s))
    (inst_err id "price jitter must be 0..100 ticks") ;;
  fail_if ((BestLevels s <? 0) || (Levels s <? BestLevels s))
    (inst_err id "best levels must be 0..levels") ;;
  fail_if ((BestLevelRefreshSeconds s <? 0)
           || ((0 <? BestLevelRefreshSeconds s)
               && (BestLevelRefreshSeconds s <? EffectiveQuoteRefreshSeconds s)))
    (inst_err id "best-level refresh interval must not be shorter than the regular refresh interval").

Definition validateStrategy (id : string) (s : StrategyConfig) : go unit :=
  validateSizing id s ;;
  fail_if ((HalfSpreadBPS s <? 0) || (LevelSpacingBPS s <? 0) || (RepriceThresholdBPS s <? 0))
    (inst_err id "spread, spacing and reprice threshold must not be negative") ;;
  validateRefresh id s ;;
  fail_if ((BalanceReserveBPS s <? 0) || (10000 <? BalanceReserveBPS s))
    (inst_err id "balance reserve must be 0..10000 bps") ;;
  fail_if ((MaxVenueReferenceDeviationBPS s <? 0) || (10000 <? MaxVenueReferenceDeviationBPS s)
           || (MaxVenueSpreadBPS s <? 0) || (10000 <? MaxVenueSpreadBPS s))
    (inst_err id "venue price protection limits must be 0..10000 bps") ;;
  fail_if (10000 <=? outermostSpreadBPS s)
    (inst_err id "outermost quote spread must be below 10000 bps") ;;
  fail_if ((Sign (TargetBase s) <? 0) || (Sign (MaxBaseDeviation s) <? 0)
           || (InventorySkewBPS s <? 0))
    (inst_err id "inventory controls must not be negative").

Definition validateSimulation (id : string) (sim : TradeSimulationConfig) : go unit :=
  if negb (sim_Enabled sim) then Ret tt else
  fail_if (String.eqb (TrimSpace (SourceVenue sim)) "")
    (inst_err id "trade simulation source venue is required") ;;
  fail_if (negb (IsPositive (sim_MinQuantity sim))
           || (Cmp (sim_MaxQuantity sim) (sim_MinQuantity sim) <? 0))
    (inst_err id "trade simulation quantity range is invalid") ;;
  fail_if ((MinIntervalMS sim <? 100) || (MaxIntervalMS sim <? MinIntervalMS sim))
    (inst_err id "trade simulation interval must be at least 100ms and max >= min") ;;
  fail_if ((BuyProbabilityBPS sim <? 0) || (10000 <? BuyProbabilityBPS sim))
    (inst_err id "trade simulation buy probability must be 0..10000 bps") ;;
  fail_if ((RecentLimit sim <? 1) || (200 <? RecentLimit sim))
    (inst_err id "trade simulation recent limit must be 1..200").

(** One iteration of the loop over the instruments, carrying [seen]. *)
Definition validateInstrument (mode : Mode) (seen : gset string) (i : InstrumentConfig)
    : go (gset string) :=
  fail_if (String.eqb (TrimSpace (ID i)) "" || bool_decide (ID i ∈ seen))
    (Errorf "instrument id must be unique and non-empty") ;;
  validateReference mode i ;;
  validateStrategy (ID i) (Strategy i) ;;
  validateSimulation (ID i) (TradeSimulation i) ;;
  Ret ({[ID i]} ∪ seen).

Definition validateGlobals (c : Config) : go unit :=
  fail_if (negb (String.eqb (cfg_Mode c) ModeShadow) && negb (String.eqb (cfg_Mode c) ModeLive))
    (Errorf "mode must be shadow or live") ;;
  fail_if (PollIntervalMS c <? 250) (Errorf "poll_interval_ms must be >= 250") ;;
  fail_if (String.eqb (cfg_Mode c) ModeLive
           && (String.eqb (HeartbeatPath c) "" || (WatchdogTimeoutSeconds c <=? 0)))
    (Errorf "live mode requires heartbeat_path and positive watchdog_timeout_seconds") ;;
  fail_if ((MarketFailureThreshold c <? 0) || (MarketRecoveryThreshold c <? 0)
           || (MarketErrorGraceSeconds c <? 0) || (TradingProgressTimeoutSeconds c <? 0))
    (Errorf "market fault thresholds must not be negative") ;;
  fail_if ((MaxConcurrentInstruments c <? 0) || (32 <? MaxConcurrentInstruments c))
    (Errorf "max_concurrent_instruments must be 0..32") ;;
  fail_if ((RulesRefreshSeconds c <? 0)
           || ((0 <? RulesRefreshSeconds c) && (RulesRefreshSeconds c <? 30)))
    (Errorf "rules_refresh_seconds must be zero or at least 30") ;;
  fail_if ((0 <? TradingProgressTimeoutSeconds c) && (TradingProgressTimeoutSeconds c <? 30))
    (Errorf "trading progress timeout must be at least 30 seconds") ;;
  fail_if ((AuditMaxBytes c <? 0) || (AuditBackups c <? 0) || (30 <? AuditBackups c))
    (Errorf "audit rotation limits are invalid") ;;
  fail_if ((0 <? AuditMaxBytes c) && (AuditMaxBytes c <? Z.shiftl 1 20))
    (Errorf "audit rotation requires at least 1 MiB") ;;
  fail_if (length (URLs (RPC c)) =? 0)%nat (Errorf "at least one rpc url is required") ;;
  fail_if (ChainID (RPC c) =? 0) (Errorf "rpc.chain_id must be positive") ;;
  fail_if (RequestTimeoutMS (RPC c) <=? 0)
    (Errorf "rpc.request_timeout_ms must be positive") ;;
  fail_if (length (Instruments c) =? 0)%nat (Errorf "at least one instrument is required").

Definition venue_err (name msg : string) : error :=
  Errorf ("venue " +:+ name +:+ ": " +:+ msg).

(** The checks of one enabled venue before its markets. *)
Definition validateVenueHead (name : string) (v : VenueConfig) : go unit :=
  match AdapterSpecFor (venue_Type v) with
  | None => Err (venue_err name "unsupported type")
  | Some adapter =>
      fail_if (String.eqb (BaseURL v) "") (venue_err name "base_url required") ;;
      fail_if (negb (String.eqb (Environment v) "") && negb (String.eqb (Environment v) "production")
               && negb (String.eqb (Environment v) "testnet"))
        (venue_err name "environment must be production or testnet") ;;
      match url_Parse (BaseURL v) with
      | None => Err (venue_err name "base_url must be an https URL")
      | Some u =>
          fail_if (negb (String.eqb (Scheme u) "https") || String.eqb (Host u) "")
            (venue_err name "base_url must be an https URL") ;;
          fail_if (String.eqb (Environment v) "testnet"
                   && negb (String.eqb (TestnetBaseURL adapter) "")
                   && negb (EqualFold (Hostname u)
                        (match url_Parse (TestnetBaseURL adapter) with
                         | Some t => Hostname t | None => "" end)))
            (venue_err name (spec_Name adapter +:+ " testnet must use "
               +:+ TestnetBaseURL adapter)) ;;
          fail_if (RequiresSelfTradePrevention adapter && TradingEnabled v
                   && (String.eqb (SelfTradePrevention v) ""
                       || EqualFold (SelfTradePrevention v) "NONE"))
            (venue_err name (spec_Name adapter +:+ " trading requires self-trade prevention")) ;;
          fail_if (RequiresDedicatedAccount adapter && TradingEnabled v
                   && negb (DedicatedAccount v))
            (venue_err name (spec_Name adapter +:+ " live trading requires dedicated_account=true"))
      end
  end.

Definition market_err (name id msg : string) : error :=
  Errorf ("venue " +:+ name +:+ " market " +:+ id +:+ ": " +:+ msg).

Definition validateMarket (mode : Mode) (seen : gset string) (name : string)
    (v : VenueConfig) (im : string * VenueMarketConfig) : go unit :=
  let '(id, m) := im in
  fail_if (negb (bool_decide (id ∈ seen)))
    (venue_err name ("market references unknown instrument " +:+ id)) ;;
  fail_if (String.eqb (market_Symbol m) "" || String.eqb (market_BaseAsset m) ""
           || String.eqb (market_QuoteAsset m) "" || negb (IsPositive (PriceTick m))
           || negb (IsPositive (QuantityStep m)) || negb (IsPositive (MinNotional m)))
    (market_err name id "invalid symbol/ticks") ;;
  fail_if ((Sign (MaxBaseCommitment m) <? 0) || (Sign (MaxQuoteCommitment m) <? 0))
    (market_err name id "commitment limits must not be negative") ;;
  fail_if (String.eqb mode ModeLive && TradingEnabled v && (CredentialID m <=? 0))
    (market_err name id "credential is required for live trading").

(** The counters the venue loop updates: [enabledMarkets], and the instruments
    with a positive count in [marketsByInstrument]. *)
Definition countMarkets `{MapRange} (acc : Z * gset string) (v : VenueConfig)
    : Z * gset string :=
  (fst acc + Z.of_nat (size (Markets v)), dom (Markets v) ∪ snd acc).

Definition validateVenue `{MapRange} (mode : Mode) (seen : gset string)
    (acc : Z * gset string) (nv : string * VenueConfig) : go (Z * gset string) :=
  let '(name, v) := nv in
  if negb (venue_Enabled v) then Ret acc else
  validateVenueHead name v ;;
  forM (validateMarket mode seen name v) (range (Markets v)) ;;
  Ret (countMarkets acc v).

(** The last loop: every instrument has a market, simulations have a source. *)
Definition validateCoverage (venues : gmap string VenueConfig) (covered : gset string)
    (i : InstrumentConfig) : go unit :=
  fail_if (negb (bool_decide (ID i ∈ covered)))
    (Errorf ("instrument " +:+ ID i +:+ " has no enabled venue market")) ;;
  if negb (sim_Enabled (TradeSimulation i)) then Ret tt else
  match venues !! SourceVenue (TradeSimulation i) with
  | None => Err (inst_err (ID i) ("trade simulation source venue "
              +:+ SourceVenue (TradeSimulation i) +:+ " is not enabled"))
  | Some v =>
      fail_if (negb (venue_Enabled v)) (inst_err (ID i) ("trade simulation source venue "
        +:+ SourceVenue (TradeSimulation i) +:+ " is not enabled")) ;;
      match Markets v !! ID i with
      | None => Err (inst_err (ID i) ("trade simulation source venue "
                  +:+ SourceVenue (TradeSimulation i) +:+ " has no market mapping"))
      | Some _ => Ret tt
      end
  end.

(** [(c Config) Validate()] *)
Definition Validate `{MapRange} (c : Config) : go unit :=
  validateGlobals c ;;
  seen ← foldM (validateInstrument (cfg_Mode c)) (Instruments c) ∅;
  counts ← foldM (validateVenue (cfg_Mode c) seen) (range (Venues c)) (0, ∅);
  fail_if (fst counts =? 0) (Errorf "at least one enabled venue market is required") ;;
  forM (validateCoverage (Venues c) (snd counts)) (Instruments c).

Definition ValidateRuntime `{MapRange} (c : Config) : go unit := Validate c.

Arguments validateVenue : simpl never.
Arguments validateMarket : simpl never.
Arguments validateVenueHead : simpl never.
Arguments validateInstrument : simpl never.

(** ** What the validation accepts *)

(** [venue_ok] says of one entry of the venue map what one successful iteration
    checks, without the order in which it is reached. *)
Definition venue_ok (mode : Mode) (seen : gset string) (nv : string * VenueConfig) : Prop :=
  venue_Enabled (snd nv) = true ->
  validateVenueHead (fst nv) (snd nv) = Ret tt /\
  forall id m, Markets (snd nv) !! id = Some m ->
    validateMarket mode seen (fst nv) (snd nv) (id, m) = Ret tt.

Definition enabled_size (nv : string * VenueConfig) : nat :=
  if venue_Enabled (snd nv) then size (Markets (snd nv)) else 0%nat.

Section Facts.
Context `{MR : MapRange}.

Lemma validateVenue_ret mode seen acc nv acc' :
  validateVenue mode seen acc nv = Ret acc' <->
  venue_ok mode seen nv /\
  acc' = if venue_Enabled (snd nv) then countMarkets acc (snd nv) else acc.
Proof.
  destruct nv as [name v]. unfold validateVenue, venue_ok. simpl.
  destruct (venue_Enabled v); simpl; [|naive_solver].
  assert (Hm : forM (validateMarket mode seen name v) (range (Markets v)) = Ret tt <->
    forall id m, Markets v !! id = Some m -> validateMarket mode seen name v (id, m) = Ret tt).
  { rewrite forM_ret, Forall_forall. setoid_rewrite <- elem_of_range. split.
    - intros H id m. apply H.
    - intros H [id m]. apply H. }
  destruct (validateVenueHead name v) as [[]| |]; simpl; [|naive_solver..].
  destruct (forM _ _) as [[]| |]; simpl; naive_solver.
Qed.

Lemma validateVenues_ret mode seen l acc acc' :
  foldM (validateVenue mode seen) l acc = Ret acc' ->
  Forall (venue_ok mode seen) l
  /\ fst acc' = fst acc + Z.of_nat (sum_list_with enabled_size l)
  /\ forall id, id ∈ snd acc' <-> id ∈ snd acc \/
       exists name v, (name, v) ∈ l /\ venue_Enabled v = true /\ id ∈ dom (Markets v).
Proof.
  revert acc. induction l as [|[name v] l IH]; intros acc; simpl.
  { intros [= <-]. split_and!; [done|lia|set_solver]. }
  intros (a & [Hok ->]%validateVenue_ret & Hl)%bind_ret_inv.
  destruct (IH _ Hl) as (Hf & Hs & Hd). split_and!; [by constructor| |].
  - rewrite Hs. unfold enabled_size. simpl. destruct (venue_Enabled v); simpl; lia.
  - intros id. rewrite Hd, exists_pair_cons. simpl.
    destruct (venue_Enabled v); simpl; [rewrite elem_of_union|]; intuition congruence.
Qed.

Lemma validateVenues_some mode seen l acc :
  Forall (venue_ok mode seen) l ->
  exists acc', foldM (validateVenue mode seen) l acc = Ret acc'.
Proof.
  revert acc. induction l as [|nv l IH]; intros acc; simpl; [eauto|].
  intros [Hnv Hl]%Forall_cons.
  rewrite (proj2 (validateVenue_ret mode seen acc nv _) (conj Hnv eq_refl)). simpl. auto.
Qed.

(** The instrument ids an accepted loop has seen are distinct and non-blank. *)
Lemma validateInstruments_ret mode l seen seen' :
  foldM (validateInstrument mode) l seen = Ret seen' ->
  seen' = list_to_set (map ID l) ∪ seen
  /\ NoDup (map ID l) /\ Forall (fun i => ID i ∉ seen) l
  /\ Forall (fun i => validateReference mode i = Ret tt
       /\ validateStrategy (ID i) (Strategy i) = Ret tt
       /\ validateSimulation (ID i) (TradeSimulation i) = Ret tt
       /\ TrimSpace (ID i) <> "") l.
Proof.
  revert seen. induction l as [|i l IH]; intros seen; simpl.
  { intros [= <-]. split_and!; [set_solver|constructor|done|done]. }
  intros (a & Hi & Hl)%bind_ret_inv. unfold validateInstrument in Hi. inv_ret Hi.
  destruct a0, a1, a2. injection Hi as <-.
  apply orb_false_iff in G as [Gt Gs]. apply bool_decide_eq_false in Gs.
  destruct (IH _ Hl) as (-> & Hnd & Hns & Hf). split_and!.
  - set_solver.
  - constructor; [|done]. rewrite list_elem_of_fmap. intros (j & Hj & Hin).
    rewrite Forall_forall in Hns. specialize (Hns j Hin). set_solver.
  - constructor; [done|]. eapply Forall_impl; [exact Hns|]. set_solver.
  - constructor; [|done]. split_and!; [done..|]. by apply String.eqb_neq.
Qed.

Lemma validateInstruments_some mode l seen :
  NoDup (map ID l) -> Forall (fun i => ID i ∉ seen) l ->
  Forall (fun i => TrimSpace (ID i) <> "" /\ validateReference mode i = Ret tt
       /\ validateStrategy (ID i) (Strategy i) = Ret tt
       /\ validateSimulation (ID i) (TradeSimulation i) = Ret tt) l ->
  exists seen', foldM (validateInstrument mode) l seen = Ret seen'.
Proof.
  revert seen. induction l as [|i l IH]; intros seen; simpl; [eauto|].
  intros [Hni Hnd]%NoDup_cons [Hs Hss]%Forall_cons [(Ht & Hr & Hst & Hsim) Hf]%Forall_cons.
  assert (Hv : validateInstrument mode seen i = Ret ({[ID i]} ∪ seen)).
  { unfold validateInstrument. apply fail_if_bind_ret. split.
    - apply orb_false_iff. split; [by apply String.eqb_neq|by apply bool_decide_eq_false].
    - by rewrite Hr, Hst, Hsim. }
  rewrite Hv. simpl. apply IH; [done| |done].
  apply Forall_forall. intros j Hj. rewrite Forall_forall in Hss.
  specialize (Hss j Hj). intros [Heq%elem_of_singleton|?]%elem_of_union; [|done].
  apply Hni. rewrite <- Heq. by apply list_elem_of_fmap_2.
Qed.
End Facts.

(** ** A characterisation of the accepted configurations

    [Valid] lists what [Validate] demands without the order of any map. *)

Definition has_market (venues : gmap string VenueConfig) (id : string) : Prop :=
  exists name v, venues !! name = Some v /\ venue_Enabled v = true /\ is_Some (Markets v !! id).

Definition simulation_sourced (venues : gmap string VenueConfig) (i : InstrumentConfig) : Prop :=
  sim_Enabled (TradeSimulation i) = true ->
  exists v, venues !! SourceVenue (TradeSimulation i) = Some v
    /\ venue_Enabled v = true /\ is_Some (Markets v !! ID i).

Record Valid (c : Config) : Prop := {
  valid_globals : validateGlobals c = Ret tt;
  valid_unique : NoDup (map ID (Instruments c));
  valid_instruments : Forall (fun i => TrimSpace (ID i) <> ""
    /\ validateReference (cfg_Mode c) i = Ret tt
    /\ validateStrategy (ID i) (Strategy i) = Ret tt
    /\ validateSimulation (ID i) (TradeSimulation i) = Ret tt) (Instruments c);
  valid_venues : forall name v, Venues c !! name = Some v ->
    venue_ok (cfg_Mode c) (list_to_set (map ID (Instruments c))) (name, v);
  valid_some_market : exists id, has_market (Venues c) id;
  valid_covered : Forall (fun i => has_market (Venues c) (ID i)
    /\ simulation_sourced (Venues c) i) (Instruments c)
}.

Section ValidateIff.
Context `{MR : MapRange}.

Lemma validateCoverage_ret venues covered i :
  validateCoverage venues covered i = Ret tt <->
  ID i ∈ covered /\ simulation_sourced venues i.
Proof.
  unfold validateCoverage, simulation_sourced. rewrite fail_if_bind_ret.
  rewrite negb_false_iff, bool_decide_eq_true. apply and_iff_compat_l.
  destruct (sim_Enabled (TradeSimulation i)); simpl; [|naive_solver].
  destruct (venues !! _) as [v|]; [|naive_solver].
  rewrite fail_if_bind_ret, negb_false_iff.
  destruct (Markets v !! ID i) eqn:E; split.
  - intros [He _] _. exists v. rewrite E. eauto.
  - intros (w & [= <-] & He & _); [done|]. done.
  - by intros [_ ?].
  - intros (w & [= <-] & _ & Hs); [done|]. rewrite E in Hs. by destruct Hs.
Qed.

Lemma has_market_range venues id :
  (exists name v, (name, v) ∈ range venues /\ venue_Enabled v = true /\ id ∈ dom (Markets v))
  <-> has_market venues id.
Proof. unfold has_market. setoid_rewrite elem_of_range. by setoid_rewrite elem_of_dom. Qed.

Lemma enabled_markets_pos (l : list (string * VenueConfig)) :
  (0 < sum_list_with enabled_size l)%nat <->
  exists name v, (name, v) ∈ l /\ venue_Enabled v = true /\ exists id, is_Some (Markets v !! id).
Proof.
  induction l as [|[name v] l IH].
  { split; [simpl; lia|]. intros (? & ? & ?%not_elem_of_nil & _). done. }
  rewrite exists_pair_cons, <- IH. unfold enabled_size. simpl.
  assert (Hz : (0 < size (Markets v))%nat <-> exists id, is_Some (Markets v !! id)).
  { split.
    - intros Hp. destruct (map_choose (Markets v)) as (id & x & Hx); [|by exists id, x].
      intros He. rewrite He, map_size_empty in Hp. lia.
    - intros (id & x & Hx). destruct (size (Markets v)) eqn:E; [|lia].
      apply map_size_empty_inv in E. by rewrite E, lookup_empty in Hx. }
  destruct (venue_Enabled v); [rewrite <- Hz|]; intuition (try lia; try congruence).
Qed.

Lemma Validate_iff c : Validate c = Ret tt <-> Valid c.
Proof.
  unfold Validate. split.
  - intros H. inv_ret H. destruct a.
    destruct (validateInstruments_ret _ _ _ _ G0) as (-> & Hnd & _ & Hf).
    destruct (validateVenues_ret _ _ _ _ _ G1) as (Hv & Hs & Hd).
    apply Z.eqb_neq in G2. rewrite forM_ret in H. rewrite right_id_L in Hv by apply _.
    constructor; [done|done| | | |].
    + eapply Forall_impl; [exact Hf|]. simpl. tauto.
    + intros name v Hl. rewrite Forall_forall in Hv. by apply Hv, elem_of_range.
    + assert (Hn : (0 < sum_list_with enabled_size (range (Venues c)))%nat) by (simpl in *; lia).
      apply enabled_markets_pos in Hn as (n & v & Hin & He & id & Hid).
      exists id. apply has_market_range. exists n, v. by rewrite elem_of_dom.
    + eapply Forall_impl; [exact H|]. simpl. intros i [Hc Hsim]%validateCoverage_ret.
      split; [|done]. apply has_market_range. apply Hd in Hc. set_solver.
  - intros [Hg Hnd Hi Hv Hm Hc].
    rewrite Hg. simpl.
    destruct (validateInstruments_some (cfg_Mode c) (Instruments c) ∅) as [seen Hseen].
    { done. }
    { apply Forall_forall. set_solver. }
    { done. }
    rewrite Hseen. simpl.
    destruct (validateInstruments_ret _ _ _ _ Hseen) as (-> & _). rewrite right_id_L by apply _.
    destruct (validateVenues_some (cfg_Mode c) (list_to_set (map ID (Instruments c)))
      (range (Venues c)) (0, ∅)) as [acc Hacc].
    { apply Forall_forall. intros [name v] Hin%elem_of_range. by apply Hv. }
    rewrite Hacc. simpl. destruct (validateVenues_ret _ _ _ _ _ Hacc) as (_ & Hs & Hd).
    rewrite fail_if_bind_ret, forM_ret. split.
    + destruct Hm as [id Hm]. apply has_market_range in Hm as (n & v & Hin & He & Hid).
      assert (Hp : (0 < sum_list_with enabled_size (range (Venues c)))%nat).
      { apply enabled_markets_pos. exists n, v. rewrite elem_of_dom in Hid. eauto. }
      simpl in Hs. apply Z.eqb_neq. lia.
    + eapply Forall_impl; [exact Hc|]. simpl. intros i [Hh Hsim].
      apply validateCoverage_ret. split; [|done]. apply Hd. right. by apply has_market_range.
Qed.
End ValidateIff.

(** ** Normalisation keeps a configuration acceptable *)

Lemma seconds_or_default v d :
  0 <= v -> 0 < d -> seconds_or (or_default v d) d = seconds_or v d.
Proof.
  intros Hv Hd. unfold seconds_or, or_default.
  destruct (v =? 0) eqn:E; [|done]. apply Z.eqb_eq in E as ->.
  rewrite (proj2 (Z.leb_gt d 0)) by done. done.
Qed.

Lemma or_default_idem v d : d <> 0 -> or_default (or_default v d) d = or_default v d.
Proof.
  intros Hd. unfold or_default. destruct (v =? 0) eqn:E; [|by rewrite E].
  by rewrite (proj2 (Z.eqb_neq d 0)).
Qed.

Lemma or_default_cases v d : (v = 0 /\ or_default v d = d) \/ (v <> 0 /\ or_default v d = v).
Proof. unfold or_default. destruct (v =? 0) eqn:E; [left|right]; lia. Qed.

Lemma normalize_refresh_ok id s :
  1 <= Levels s -> validateRefresh id s = Ret tt ->
  validateRefresh id (normalizeStrategy s) = Ret tt.
Proof.
  intros Hl H. unfold validateRefresh in H. inv_ret H.
  unfold validateRefresh. simpl.
  unfold EffectiveMaxOrderLifetime, EffectiveMinOrderLifetime,
    EffectiveFillReplenishMinDelay, EffectiveFillReplenishMaxDelay in *. simpl.
  dec_hyps.
  rewrite !seconds_or_default by (first [done|lia]).
  unfold EffectiveQuoteRefreshSeconds in *. simpl.
  rewrite !fail_if_bind_ret, fail_if_ret.
  unfold DefaultQuoteRefreshSeconds, DefaultQuoteRefreshRatioBPS,
    DefaultMinOrderLifetimeSeconds, DefaultMaxOrderLifetimeSeconds,
    DefaultFillReplenishMinDelaySeconds, DefaultFillReplenishMaxDelaySeconds,
    DefaultPriceJitterTicks, DefaultBestLevels, DefaultBestRefreshSeconds in *.
  split_and!; try (first [apply Z.ltb_ge; assumption|reflexivity]);
  repeat match goal with
  | |- context [or_default ?v ?d] =>
      let E := fresh "E" in
      destruct (or_default_cases v d) as [[? E]|[? E]]; rewrite E in *; clear E
  | |- context [if ?b then _ else _] => destruct b eqn:?
  | H : context [if ?b then _ else _] |- _ => destruct b eqn:?
  end; lia.
Qed.

Lemma normalize_strategy_ok id s :
  validateStrategy id s = Ret tt -> validateStrategy id (normalizeStrategy s) = Ret tt.
Proof.
  intros H. unfold validateStrategy in H. inv_ret H.
  pose proof G as Gs. unfold validateSizing in Gs. inv_ret Gs. destruct a, a0.
  unfold validateStrategy.
  assert (Hs : validateSizing id (normalizeStrategy s) = Ret tt).
  { unfold validateSizing. apply fail_if_bind_ret. split; [done|].
    change (UsesOrderNotionalRange (normalizeStrategy s)) with (UsesOrderNotionalRange s).
    destruct (UsesOrderNotionalRange s) eqn:E; [done|]. simpl.
    unfold UsesOrderNotionalRange in E. dec_hyps.
    destruct (IsPositive (MinOrderNotional s)) eqn:Hp; simpl; [|done].
    dec. }
  rewrite Hs. simpl. rewrite (normalize_refresh_ok id s); [|lia|done]. simpl.
  unfold outermostSpreadBPS in *. simpl.
  by rewrite !fail_if_bind_ret, fail_if_ret.
Qed.

Lemma normalizeStrategy_idem s :
  1 <= Levels s -> normalizeStrategy (normalizeStrategy s) = normalizeStrategy s.
Proof.
  intros Hl. unfold normalizeStrategy. simpl.
  rewrite !or_default_idem; try done.
  - by destruct (IsPositive (MinOrderNotional s) && IsPositive (MaxOrderNotional s)).
  - unfold DefaultBestRefreshSeconds. lia.
  - unfold DefaultBestLevels. lia.
Qed.

Lemma map_ID_normalize c :
  map ID (Instruments (NormalizeStrategySizing c)) = map ID (Instruments c).
Proof. simpl. rewrite map_map. done. Qed.

Section Claims.
Context `{MR : MapRange}.

Lemma Valid_normalize c : Valid c -> Valid (NormalizeStrategySizing c).
Proof.
  intros [Hg Hnd Hi Hv Hm Hc]. constructor.
  - unfold validateGlobals in *. simpl. by rewrite length_map.
  - by rewrite map_ID_normalize.
  - simpl. rewrite Forall_map. eapply Forall_impl; [exact Hi|]. simpl.
    intros i (? & ? & ? & ?). split_and!; try done. by apply normalize_strategy_ok.
  - rewrite map_ID_normalize. exact Hv.
  - exact Hm.
  - simpl. rewrite Forall_map. exact Hc.
Qed.

Lemma Valid_levels c i : Valid c -> i ∈ Instruments c -> 1 <= Levels (Strategy i) <= 100.
Proof.
  intros Hc Hin. pose proof (Forall_flip _ _ _ (valid_instruments _ Hc) Hin) as (_ & _ & H & _).
  unfold validateStrategy in H. inv_ret H. unfold validateSizing in G. inv_ret G.
  unfold MaxStrategyLevels in *. lia.
Qed.

(** Normalising an accepted configuration (what every load and save of the
    configuration store does first) yields an accepted configuration, and
    normalising twice is the same as normalising once. *)
Theorem Normalize_preserves_Validate c :
  Validate c = Ret tt ->
  Validate (NormalizeStrategySizing c) = Ret tt
  /\ NormalizeStrategySizing (NormalizeStrategySizing c) = NormalizeStrategySizing c.
Proof.
  rewrite !Validate_iff. intros Hc. split; [by apply Valid_normalize|].
  set (f := fun i => set_Strategy i (normalizeStrategy (Strategy i))).
  assert (Hm : map f (map f (Instruments c)) = map f (Instruments c)).
  { rewrite map_map. apply map_ext_in. intros i Hin. apply list_elem_of_In in Hin.
    pose proof (Valid_levels c i Hc Hin). unfold f, set_Strategy. simpl.
    by rewrite normalizeStrategy_idem by lia. }
  unfold NormalizeStrategySizing, set_Instruments. fold f. simpl. by rewrite Hm.
Qed.

Lemma Valid_market c name v id m :
  Valid c -> Venues c !! name = Some v -> venue_Enabled v = true -> Markets v !! id = Some m ->
  (0 < rat (PriceTick m))%Q /\ (0 < rat (QuantityStep m))%Q /\ (0 < rat (MinNotional m))%Q
  /\ id ∈ map ID (Instruments c)
  /\ (cfg_Mode c = ModeLive -> TradingEnabled v = true -> 0 < CredentialID m).
Proof.
  intros Hc Hl He Hid. destruct (valid_venues _ Hc _ _ Hl He) as [_ Hm]. simpl in Hm.
  specialize (Hm _ _ Hid). unfold validateMarket in Hm. inv_ret Hm.
  dec_hyps. apply bool_decide_eq_true in G. rewrite elem_of_list_to_set in G.
  split_and!; try done. intros Hmode Ht. rewrite Hmode, Ht in Hm. simpl in Hm. lia.
Qed.

(** C32: whatever the iteration order of the maps, an accepted configuration gives
    the engine positive price and quantity steps in every enabled market, only
    markets of listed instruments, a credential wherever live orders may be placed,
    and at least one enabled market per instrument; and a venue traded has the safety
    setting its adapter requires: a self-trade prevention that is neither empty nor
    "NONE" in any letter case, or a dedicated account. *)
Theorem Validate_guarantees c name v :
  Validate c = Ret tt -> Venues c !! name = Some v -> venue_Enabled v = true ->
  (forall id m, Markets v !! id = Some m ->
     (0 < rat (PriceTick m))%Q /\ (0 < rat (QuantityStep m))%Q /\ (0 < rat (MinNotional m))%Q
     /\ id ∈ map ID (Instruments c)
     /\ (cfg_Mode c = ModeLive -> TradingEnabled v = true -> 0 < CredentialID m))
  /\ (TradingEnabled v = true -> exists spec, AdapterSpecFor (venue_Type v) = Some spec
     /\ (RequiresSelfTradePrevention spec = true ->
         SelfTradePrevention v <> "" /\ EqualFold (SelfTradePrevention v) "NONE" = false)
     /\ (RequiresDedicatedAccount spec = true -> DedicatedAccount v = true))
  /\ Forall (fun i => has_market (Venues c) (ID i)) (Instruments c).
Proof.
  rewrite Validate_iff. intros Hc Hl He.
  destruct (valid_venues _ Hc _ _ Hl He) as [Hh _]. simpl in Hh. split_and!.
  - intros id m. by apply (Valid_market c name v).
  - intros Ht. unfold validateVenueHead in Hh.
    destruct (AdapterSpecFor _) as [spec|]; [|done]. exists spec. split; [done|].
    inv_ret Hh. destruct (url_Parse _); [|done]. inv_ret Hh. rewrite Ht in *. split.
    + intros Hr. rewrite Hr in *. simpl in *.
      match goal with G : orb _ (EqualFold _ _) = false |- _ => apply orb_false_iff in G as [G ?] end.
      split; [by apply String.eqb_neq|done].
    + intros Hr. rewrite Hr in Hh. by apply negb_false_iff in Hh.
  - eapply Forall_impl; [exact (valid_covered _ Hc)|]. by intros i [? _].
Qed.

Lemma Valid_spread c i level :
  Valid c -> i ∈ Instruments c ->
  HalfSpreadBPS (Strategy i) + (Levels (Strategy i) - 1) * LevelSpacingBPS (Strategy i) <= max_int64 ->
  0 <= level < Levels (Strategy i) ->
  0 <= (HalfSpreadBPS (Strategy i) +i level *i LevelSpacingBPS (Strategy i))%go < 10000.
Proof.
  intros Hc Hin Hov Hlev. pose proof (Valid_levels _ _ Hc Hin).
  pose proof (Forall_flip _ _ _ (valid_instruments _ Hc) Hin) as (_ & _ & H' & _).
  unfold validateStrategy in H'. inv_ret H'. dec_hyps. unfold outermostSpreadBPS in *.
  set (h := HalfSpreadBPS (Strategy i)) in *. set (sp := LevelSpacingBPS (Strategy i)) in *.
  set (n := Levels (Strategy i)) in *.
  assert (level * sp <= (n - 1) * sp) by nia.
  unfold max_int64 in Hov. wrap_simpl. lia.
Qed.

(** In an accepted configuration whose widest spread fits 64 bits, the spread
    of every quoted level lies in [0, 10000) basis points, so [1 - spread] stays
    positive. *)
Theorem validated_spread_in_range c i level :
  Validate c = Ret tt -> i ∈ Instruments c ->
  HalfSpreadBPS (Strategy i) + (Levels (Strategy i) - 1) * LevelSpacingBPS (Strategy i) <= max_int64 ->
  0 <= level < Levels (Strategy i) ->
  0 <= (HalfSpreadBPS (Strategy i) +i level *i LevelSpacingBPS (Strategy i))%go < 10000.
Proof. rewrite Validate_iff. apply Valid_spread. Qed.

End Claims.

(** Acceptance does not depend on the order in which Go iterates over the venue
    and market maps (only which error is reported first can). *)
Theorem Validate_order_irrelevant (R1 R2 : MapRange) c :
  @Validate R1 c = Ret tt <-> @Validate R2 c = Ret tt.
Proof. by rewrite !Validate_iff. Qed.

(** ** Concrete configurations *)

Definition dec_of (n : Z) (d : positive) : Decimal := FromRat (n # d).

Definition ex_strategy : StrategyConfig :=
  MkStrategyConfig 20 10 5 Zero (dec_of 10 1) (dec_of 50 1) 30 500 500 1000
    (dec_of 100 1) (dec_of 50 1) 100 45 1000 30 300 3 8 2 3 90.

Definition ex_address (c : string) : string :=
  "0x" +:+ StringsJoin (replicate 40 c) "".

Definition ex_reference : ReferenceConfig :=
  MkReferenceConfig "pancake_v2"
    [MkPairLegConfig (ex_address "1") "" (ex_address "a") (ex_address "b") Zero 0]
    300 200 60 false.

Definition ex_no_simulation : TradeSimulationConfig :=
  MkTradeSimulationConfig false "" Zero Zero 0 0 0 0.

Definition ex_instrument (s : StrategyConfig) : InstrumentConfig :=
  MkInstrumentConfig "abc-usdt" (MkAssetConfig "ABC" (ex_address "a") 18)
    (MkAssetConfig "USDT" (ex_address "b") 18) ex_reference s ex_no_simulation.

Definition ex_market : VenueMarketConfig :=
  MkVenueMarketConfig "ABCUSDT" "ABC" "USDT" (dec_of 1 100) (dec_of 1 1000) (dec_of 5 1)
    Zero Zero Zero Zero Zero 0 Zero Zero 7.

Definition ex_venue : VenueConfig :=
  MkVenueConfig "binance" "production" true true false "https://api.binance.com" "EXPIRE_BOTH"
    {["abc-usdt" := ex_market]}.

Definition ex_config (s : StrategyConfig) : Config :=
  MkConfig ModeLive 1000 "" 0 0 "/tmp/heartbeat" 15 3 3 15 120 4 300
    (MkRPCConfig ["https://bsc"] 56 5000) [ex_instrument s] {["binance" := ex_venue]}.

Lemma ex_config_valid : @Validate sorted_range (ex_config ex_strategy) = Ret tt.
Proof. vm_compute. reflexivity. Qed.

Lemma Normalize_preserves_Validate_witness :
  @Validate sorted_range (NormalizeStrategySizing (ex_config ex_strategy)) = Ret tt
  /\ NormalizeStrategySizing (NormalizeStrategySizing (ex_config ex_strategy))
     = NormalizeStrategySizing (ex_config ex_strategy).
Proof. apply (@Normalize_preserves_Validate sorted_range). exact ex_config_valid. Defined.

Lemma Validate_guarantees_witness :
  (forall id m, Markets ex_venue !! id = Some m ->
     (0 < rat (PriceTick m))%Q /\ (0 < rat (QuantityStep m))%Q /\ (0 < rat (MinNotional m))%Q
     /\ id ∈ map ID (Instruments (ex_config ex_strategy))
     /\ (cfg_Mode (ex_config ex_strategy) = ModeLive -> TradingEnabled ex_venue = true ->
         0 < CredentialID m))
  /\ (TradingEnabled ex_venue = true -> exists spec,
       AdapterSpecFor (venue_Type ex_venue) = Some spec
       /\ (RequiresSelfTradePrevention spec = true ->
           SelfTradePrevention ex_venue <> "" /\ EqualFold (SelfTradePrevention ex_venue) "NONE" = false)
       /\ (RequiresDedicatedAccount spec = true -> DedicatedAccount ex_venue = true))
  /\ Forall (fun i => has_market (Venues (ex_config ex_strategy)) (ID i))
       (Instruments (ex_config ex_strategy)).
Proof.
  apply (@Validate_guarantees sorted_range (ex_config ex_strategy) "binance" ex_venue);
    [exact ex_config_valid|reflexivity|reflexivity].
Defined.

Lemma validated_spread_in_range_witness :
  0 <= (HalfSpreadBPS (Strategy (ex_instrument ex_strategy))
        +i 4 *i LevelSpacingBPS (Strategy (ex_instrument ex_strategy)))%go < 10000.
Proof.
  apply (@validated_spread_in_range sorted_range (ex_config ex_strategy));
    [exact ex_config_valid|by left|vm_compute; discriminate|vm_compute; split; congruence].
Defined.

(** The widest spread is checked with wrapping [int64] arithmetic. *)
Definition ex_overflow_strategy : StrategyConfig :=
  MkStrategyConfig 20 (2 ^ 62) 5 Zero (dec_of 10 1) (dec_of 50 1) 30 500 500 1000
    (dec_of 100 1) (dec_of 50 1) 100 45 1000 30 300 3 8 2 3 90.

(** The check of the widest spread wraps around: a configuration whose level
    spacing is 2^62 basis points is accepted although its second level is quoted
    further than 10000 basis points away from the mid price. *)
Theorem Validate_accepts_overflowing_spread :
  @Validate sorted_range (ex_config ex_overflow_strategy) = Ret tt
  /\ 10000 <= (HalfSpreadBPS ex_overflow_strategy
               +i 1 *i LevelSpacingBPS ex_overflow_strategy)%go.
Proof. split; [vm_compute; reflexivity|vm_compute; discriminate]. Qed.
