(* ===== verification/DecimalText.v ===== *)
(** Decimal text: [Parse], [Fixed], [String] and the JSON form of a [Decimal]
    (src/internal/num/decimal.go).

    [big.Rat.SetString] is modelled on decimal literals (optional sign, digits,
    optional fraction, optional exponent) and on fractions of decimal integers;
    the binary, octal and hexadecimal prefixes and digit separators it also
    accepts are outside the model and rejected here. *)
From S2P Require Import Prelude Decimal.

Open Scope string_scope.
Open Scope Z_scope.

(** ** Printing *)

Definition digit_char (n : Z) : ascii := ascii_of_N (48 + Z.to_N n).

(** The [k] least significant decimal digits of [n], most significant first. *)
Fixpoint fixed_digits (k : nat) (n : Z) : string :=
  match k with
  | O => EmptyString
  | S k' => String (digit_char (n / 10 ^ Z.of_nat k' mod 10)) (fixed_digits k' n)
  end.

Fixpoint num_digits (fuel : nat) (n : Z) : nat :=
  match fuel with
  | O => 1
  | S f => if n <? 10 then 1 else S (num_digits f (n / 10))
  end.

(** The decimal digits of a non-negative integer, without leading zeros; the
    binary logarithm bounds the number of digits. *)
Definition int_digits (n : Z) : string :=
  fixed_digits (num_digits (Z.to_nat (Z.log2 n)) n) n.

(** [|q|] scaled by [10^prec] and rounded, halves away from zero. *)
Definition scaled_abs (prec : nat) (q : Q) : Z :=
  (2 * Z.abs (Qnum q) * 10 ^ Z.of_nat prec + Zpos (Qden q)) / (2 * Zpos (Qden q)).

(** [big.Rat.FloatString] *)
Definition FloatString (q : Q) (prec : nat) : string :=
  let n := scaled_abs prec q in
  let p := 10 ^ Z.of_nat prec in
  (if Qnum q <? 0 then "-" else "") +:+ int_digits (n / p)
  +:+ (if (prec =? 0)%nat then "" else "." +:+ fixed_digits prec (n mod p)).

Definition Fixed (d : Decimal) (scale : nat) : string := FloatString (rat d) scale.

(** [(d Decimal) String()] *)
Definition String_ (d : Decimal) : string :=
  if DIsZero d then "0"
  else
    let s := FloatString (rat d) 18 in
    let s := trim_right_by (Ascii.eqb "0") s in
    let s := trim_right_by (Ascii.eqb ".") s in
    if String.eqb s "-0" then "0" else s.

(** ** Parsing *)

Definition digit_value (c : ascii) : option Z :=
  let n := Z.of_N (N_of_ascii c) in
  if (48 <=? n) && (n <=? 57) then Some (n - 48) else None.

(** The longest prefix of digits: its value on top of [acc], its length, the rest. *)
Fixpoint scan_digits (s : string) (acc : Z) : Z * nat * string :=
  match s with
  | EmptyString => (acc, O, EmptyString)
  | String c s' =>
      match digit_value c with
      | Some v => let '(x, n, rest) := scan_digits s' (10 * acc + v) in (x, S n, rest)
      | None => (acc, O, s)
      end
  end.

Definition scan_sign (s : string) : bool * string :=
  match s with
  | String c s' =>
      if Ascii.eqb c "-" then (true, s') else if Ascii.eqb c "+" then (false, s')
      else (false, s)
  | EmptyString => (false, s)
  end.

(** The optional exponent, which must end the text. *)
Definition scan_exponent (s : string) : option Z :=
  match s with
  | EmptyString => Some 0
  | String c s' =>
      if Ascii.eqb c "e" || Ascii.eqb c "E" then
        let '(neg, s'') := scan_sign s' in
        match scan_digits s'' 0 with
        | (v, S _, EmptyString) => Some (if neg then - v else v)
        | _ => None
        end
      else None
  end.

(** [mantissa * 10^e] *)
Definition scale10 (mantissa e : Z) : Q :=
  if 0 <=? e then inject_Z (mantissa * 10 ^ e)
  else mantissa # Z.to_pos (10 ^ (- e)).

Definition SetString (s : string) : option Q :=
  let '(neg, s) := scan_sign s in
  let signed (z : Z) : Z := if neg then - z else z in
  let '(ip, ni, rest) := scan_digits s 0 in
  match rest with
  | String "/"%char rest' =>
      match ni, scan_digits rest' 0 with
      | S _, (den, S _, EmptyString) =>
          if den =? 0 then None else Some (Qred (signed ip # Z.to_pos den))
      | _, _ => None
      end
  | String "."%char rest' =>
      let '(m, nf, rest'') := scan_digits rest' ip in
      if (ni + nf =? 0)%nat then None else
      e ← scan_exponent rest'';
      Some (Qred (scale10 (signed m) (e - Z.of_nat nf)))
  | _ =>
      if (ni =? 0)%nat then None else
      e ← scan_exponent rest; Some (Qred (scale10 (signed ip) e))
  end.

Definition Parse (s : string) : go Decimal :=
  let s := TrimSpace s in
  if String.eqb s "" then Err (Errorf "empty decimal")
  else match SetString s with
       | None => Err (Errorf ("invalid decimal " +:+ quoted s))
       | Some q => Ret (MkDecimal (Some q))
       end.

(** [num.Must] panics on the text [Parse] refuses. *)
Definition Must (s : string) : go Decimal :=
  match Parse s with Err e => Panic (Error e) | c => c end.

Example String_ex1 : String_ (FromRat (-5 # 4)) = "-1.25".
Proof. vm_compute. reflexivity. Qed.
Example String_ex2 : String_ (FromRat (100 # 1)) = "100".
Proof. vm_compute. reflexivity. Qed.
Example String_ex3 : String_ (FromRat (1 # 3)) = "0.333333333333333333".
Proof. vm_compute. reflexivity. Qed.
Example String_ex4 : String_ (FromRat (-1 # 10000000000000000000)) = "0".
Proof. vm_compute. reflexivity. Qed.
Example Parse_ex1 : Parse " -1.250 " = Ret (MkDecimal (Some (-5 # 4)%Q)).
Proof. vm_compute. reflexivity. Qed.
Example Parse_ex2 : Parse "12e-3" = Ret (MkDecimal (Some (3 # 250)%Q)).
Proof. vm_compute. reflexivity. Qed.

(** ** Reading back what was printed *)

Lemma append_cons c s t : String c s +:+ t = String c (s +:+ t).
Proof. reflexivity. Qed.

Lemma trim_right_app p s t :
  trim_right_by p (s +:+ t) =
    if String.eqb (trim_right_by p t) "" then trim_right_by p s else s +:+ trim_right_by p t.
Proof.
  induction s as [|c s IH]; simpl.
  - destruct (String.eqb _ _) eqn:E; [by apply String.eqb_eq in E|done].
  - rewrite IH. destruct (String.eqb _ _) eqn:E; [done|].
    destruct s; simpl; [|done]. destruct (trim_right_by p t); [done|done].
Qed.

Lemma trim_left_id p s : forall_string (fun c => negb (p c)) s = true -> trim_left_by p s = s.
Proof. destruct s as [|c s]; simpl; [done|]. by destruct (p c). Qed.

Lemma trim_right_id p s : forall_string (fun c => negb (p c)) s = true -> trim_right_by p s = s.
Proof.
  induction s as [|c s IH]; simpl; [done|]. intros [Hc Hs]%andb_true_iff.
  rewrite IH by done. destruct s; [|done]. by destruct (p c).
Qed.

Lemma TrimSpace_id s : forall_string (fun c => negb (is_space c)) s = true -> TrimSpace s = s.
Proof. intros H. unfold TrimSpace. rewrite trim_left_id by done. by apply trim_right_id. Qed.

Lemma forall_string_app p s t :
  forall_string p (s +:+ t) = forall_string p s && forall_string p t.
Proof. induction s as [|c s IH]; simpl; [done|]. by rewrite IH, andb_assoc. Qed.

Lemma forall_string_impl (p q : ascii -> bool) s :
  (forall c, p c = true -> q c = true) -> forall_string p s = true -> forall_string q s = true.
Proof.
  intros Hpq. induction s as [|c s IH]; simpl; [done|]. intros [Hc Hs]%andb_true_iff.
  by rewrite (Hpq _ Hc), (IH Hs).
Qed.

Lemma string_app_assoc (s t u : string) : (s +:+ t) +:+ u = s +:+ (t +:+ u).
Proof. induction s as [|c s IH]; [done|]. by rewrite !append_cons, IH. Qed.

Lemma digit_value_char v : 0 <= v < 10 -> digit_value (digit_char v) = Some v.
Proof.
  intros Hv. unfold digit_value, digit_char.
  rewrite N_ascii_embedding by lia.
  rewrite (proj2 (Z.leb_le _ _)), (proj2 (Z.leb_le _ _)) by lia. simpl. f_equal. lia.
Qed.

Definition is_dec_char (c : ascii) : bool :=
  match digit_value c with Some _ => true | None => Ascii.eqb c "." || Ascii.eqb c "-" end.

Lemma is_dec_char_not_space c : is_dec_char c = true -> negb (is_space c) = true.
Proof. destruct c as [[] [] [] [] [] [] [] []]; vm_compute; congruence. Qed.

Lemma mod10_range n : 0 <= n mod 10 < 10.
Proof. apply Z.mod_pos_bound. lia. Qed.

Lemma digit_is_dec n : is_dec_char (digit_char (n mod 10)) = true.
Proof. unfold is_dec_char. by rewrite digit_value_char by apply mod10_range. Qed.

Lemma fixed_digits_dec k n : forall_string is_dec_char (fixed_digits k n) = true.
Proof. induction k as [|k IH]; simpl; [done|]. by rewrite digit_is_dec, IH. Qed.

Lemma fixed_digits_snoc k n :
  fixed_digits (S k) n = fixed_digits k (n / 10) +:+ String (digit_char (n mod 10)) "".
Proof.
  induction k as [|k IH]; [by simpl; rewrite Z.div_1_r|].
  change (fixed_digits (S (S k)) n) with
    (String (digit_char (n / 10 ^ Z.of_nat (S k) mod 10)) (fixed_digits (S k) n)).
  rewrite IH. cbn [fixed_digits]. rewrite append_cons.
  rewrite Z.div_div by lia. by rewrite <- Z.pow_succ_r, <- Nat2Z.inj_succ by lia.
Qed.

Lemma scan_fixed_digits k n acc rest : 0 <= n ->
  scan_digits (fixed_digits k n +:+ rest) acc =
    let '(x, m, r) := scan_digits rest (acc * 10 ^ Z.of_nat k + n mod 10 ^ Z.of_nat k) in
    (x, (k + m)%nat, r).
Proof.
  intros Hn. revert acc. induction k as [|k IH]; intros acc.
  - cbn [fixed_digits]. change (10 ^ Z.of_nat 0) with 1.
    rewrite Z.mod_1_r, Z.mul_1_r, Z.add_0_r. cbn [append].
    change ("" +:+ rest) with rest. by destruct (scan_digits rest acc) as [[??]?].
  - cbn [fixed_digits]. rewrite append_cons. cbn [scan_digits].
    rewrite digit_value_char by apply mod10_range. rewrite IH.
    assert (E : (10 * acc + n / 10 ^ Z.of_nat k mod 10) * 10 ^ Z.of_nat k + n mod 10 ^ Z.of_nat k
      = acc * 10 ^ Z.of_nat (S k) + n mod 10 ^ Z.of_nat (S k)).
    { rewrite Nat2Z.inj_succ, Z.pow_succ_r by lia.
      rewrite (Z.mul_comm 10 (10 ^ _)), Z.rem_mul_r by lia. ring. }
    rewrite E. by destruct (scan_digits rest _) as [[??]?].
Qed.

Lemma num_digits_bound fuel n :
  0 <= n < 2 ^ Z.of_nat (S fuel) -> n < 10 ^ Z.of_nat (num_digits fuel n).
Proof.
  revert n. induction fuel as [|f IH]; intros n Hn; simpl num_digits; [simpl in *; lia|].
  destruct (n <? 10) eqn:E; [simpl; lia|].
  rewrite Nat2Z.inj_succ, Z.pow_succ_r by lia. rewrite Nat2Z.inj_succ, Z.pow_succ_r in Hn by lia.
  apply Z.ltb_ge in E.
  assert (H : n / 10 < 2 ^ Z.of_nat (S f)) by (apply Z.div_lt_upper_bound; lia).
  assert (Hp : 0 <= n / 10) by (apply Z.div_pos; lia).
  specialize (IH _ (conj Hp H)). pose proof (Z.div_mod n 10 ltac:(lia)).
  pose proof (mod10_range n). lia.
Qed.

Lemma num_digits_pos fuel n : (0 < num_digits fuel n)%nat.
Proof. destruct fuel; simpl; [lia|]. destruct (n <? 10); lia. Qed.

Lemma scan_int_digits n acc rest : 0 <= n ->
  exists k, (0 < k)%nat /\ scan_digits (int_digits n +:+ rest) acc =
    let '(x, m, r) := scan_digits rest (acc * 10 ^ Z.of_nat k + n) in (x, (k + m)%nat, r).
Proof.
  intros Hn. unfold int_digits. set (k := num_digits _ n). exists k. split; [apply num_digits_pos|].
  rewrite scan_fixed_digits by done. rewrite (Z.mod_small n); [done|]. split; [done|].
  apply num_digits_bound. split; [done|].
  destruct (Z.eq_dec n 0) as [->|Hne]; [done|].
  rewrite Nat2Z.inj_succ, Z2Nat.id by apply Z.log2_nonneg.
  apply Z.log2_spec. lia.
Qed.

(** Dropping the trailing zeros of a fraction keeps its value. *)
Lemma trim_zeros_fixed k f : 0 <= f < 10 ^ Z.of_nat k ->
  exists j f', (j <= k)%nat /\ 0 <= f' < 10 ^ Z.of_nat j
    /\ f = f' * 10 ^ Z.of_nat (k - j)
    /\ trim_right_by (Ascii.eqb "0") (fixed_digits k f) = fixed_digits j f'
    /\ trim_right_by (Ascii.eqb ".") (fixed_digits j f') = fixed_digits j f'.
Proof.
  revert f. induction k as [|k IH]; intros f Hf.
  { exists O, f. simpl in *. split_and!; try done; lia. }
  rewrite fixed_digits_snoc, trim_right_app. cbn [trim_right_by].
  pose proof (mod10_range f) as Hm. pose proof (Z.div_mod f 10 ltac:(lia)) as Hd.
  rewrite Nat2Z.inj_succ, Z.pow_succ_r in Hf by lia.
  assert (Hf' : 0 <= f / 10 < 10 ^ Z.of_nat k).
  { split; [apply Z.div_pos; lia|]. apply Z.div_lt_upper_bound; lia. }
  destruct (Ascii.eqb "0" (digit_char (f mod 10))) eqn:E.
  - assert (Hz : f mod 10 = 0).
    { apply Ascii.eqb_eq in E. apply (f_equal digit_value) in E.
      rewrite digit_value_char in E by done. by injection E. }
    destruct (IH _ Hf') as (j & f' & Hj & Hr & Heq & Ht & Hdot). simpl String.eqb. cbv iota.
    exists j, f'. split_and!; try done; try lia.
    replace (S k - j)%nat with (S (k - j)) by lia.
    rewrite Nat2Z.inj_succ, Z.pow_succ_r by lia. lia.
  - cbn [String.eqb]. exists (S k), f. rewrite fixed_digits_snoc, trim_right_app.
    rewrite Nat2Z.inj_succ, Z.pow_succ_r, Nat.sub_diag by lia. cbn [trim_right_by].
    assert (Hdot : Ascii.eqb "." (digit_char (f mod 10)) = false).
    { apply Ascii.eqb_neq. intros Hc. apply (f_equal digit_value) in Hc.
      rewrite digit_value_char in Hc by done. done. }
    rewrite Hdot. cbn [String.eqb]. split_and!; try done; try lia.
Qed.

(** Values with at most eighteen fractional digits: every price, quantity and
    amount on an exchange grid. *)
Definition representable (d : Decimal) : Prop :=
  exists m : Z, (rat d == m # 10 ^ 18)%Q.

Lemma scaled_abs_exact q m : (q == m # 10 ^ 18)%Q -> scaled_abs 18 q = Z.abs m.
Proof.
  unfold Qeq, scaled_abs. simpl Qnum. simpl Qden. intros H.
  change (10 ^ Z.of_nat 18) with (Z.pos (10 ^ 18)). set (P := Z.pos (10 ^ 18)) in *.
  assert (Ha : Z.abs (Qnum q) * P = Z.abs m * Z.pos (Qden q)).
  { rewrite <- (Z.abs_eq P), <- (Z.abs_eq (Z.pos (Qden q))), <- !Z.abs_mul by (unfold P; lia).
    by rewrite H. }
  replace (2 * Z.abs (Qnum q) * P + Z.pos (Qden q))
    with (Z.pos (Qden q) + Z.abs m * (2 * Z.pos (Qden q))) by lia.
  rewrite Z.div_add, Z.div_small by lia. done.
Qed.

Lemma append_empty_r s : s +:+ "" = s.
Proof. induction s as [|c s IH]; [done|]. by rewrite append_cons, IH. Qed.

Lemma scan_sign_int n rest : scan_sign (int_digits n +:+ rest) = (false, int_digits n +:+ rest).
Proof.
  unfold int_digits. destruct (num_digits _ n) as [|k] eqn:E.
  { pose proof (num_digits_pos (Z.to_nat (Z.log2 n)) n). lia. }
  cbn [fixed_digits]. rewrite append_cons. cbn [scan_sign].
  pose proof (digit_value_char _ (mod10_range (n / 10 ^ Z.of_nat k))) as Hd.
  set (c := digit_char _) in *.
  destruct (Ascii.eqb c "-") eqn:E1; [apply Ascii.eqb_eq in E1; by rewrite E1 in Hd|].
  destruct (Ascii.eqb c "+") eqn:E2; [apply Ascii.eqb_eq in E2; by rewrite E2 in Hd|].
  done.
Qed.

Lemma scale10_neg x j : (scale10 x (0 - Z.of_nat j) == x # Z.to_pos (10 ^ Z.of_nat j))%Q.
Proof.
  unfold scale10. destruct j as [|j].
  - simpl. unfold Qeq. simpl. lia.
  - rewrite (proj2 (Z.leb_gt _ _)) by lia.
    by replace (- (0 - Z.of_nat (S j))) with (Z.of_nat (S j)) by lia.
Qed.

(** The text of a sign, an integer part and an optional fraction. *)
Definition dec_text (neg : bool) (ip : Z) (j : nat) (f : Z) : string :=
  (if neg then "-" else "") +:+ int_digits ip
  +:+ (if (j =? 0)%nat then "" else "." +:+ fixed_digits j f).

Lemma SetString_dec_text (neg : bool) ip j f : 0 <= ip -> 0 <= f < 10 ^ Z.of_nat j ->
  exists q, SetString (dec_text neg ip j f) = Some (Qred q)
    /\ (q == (if neg then - (ip * 10 ^ Z.of_nat j + f) else ip * 10 ^ Z.of_nat j + f)
             # Z.to_pos (10 ^ Z.of_nat j))%Q.
Proof.
  intros Hip Hf. unfold SetString, dec_text.
  set (tail := if (j =? 0)%nat then "" else _).
  assert (Hs : scan_sign ((if neg then "-" else "") +:+ int_digits ip +:+ tail)
    = (neg, int_digits ip +:+ tail)).
  { destruct neg; [done|]. apply scan_sign_int. }
  rewrite Hs. destruct (scan_int_digits ip 0 tail Hip) as (k & Hk & Hd). rewrite Hd.
  unfold tail. destruct j as [|j].
  - simpl in Hf. assert (f = 0) as -> by lia. cbn [Nat.eqb scan_digits].
    rewrite (proj2 (Nat.eqb_neq _ _)) by lia. simpl scan_exponent. cbn [mbind option_bind].
    eexists. split; [done|]. change (10 ^ Z.of_nat 0) with 1. rewrite Z.mul_1_r, Z.add_0_r.
    exact (scale10_neg _ 0).
  - cbn [Nat.eqb]. rewrite append_cons. change ("" +:+ fixed_digits (S j) f) with (fixed_digits (S j) f).
    cbn [scan_digits]. change (digit_value ".") with (@None Z). cbv iota beta.
    rewrite <- (append_empty_r (fixed_digits (S j) f)), scan_fixed_digits by lia.
    cbn [scan_digits]. rewrite (Z.mod_small f) by lia.
    rewrite (proj2 (Nat.eqb_neq _ _)) by lia. simpl scan_exponent. cbn [mbind option_bind].
    eexists. split; [done|]. rewrite Nat.add_0_r. apply scale10_neg.
Qed.

Lemma trim_right_app_ne p s t u :
  trim_right_by p t = u -> u <> "" -> trim_right_by p (s +:+ t) = s +:+ u.
Proof.
  intros Htu Hu. rewrite trim_right_app, Htu.
  destruct (String.eqb u "") eqn:E; [by apply String.eqb_eq in E|done].
Qed.

Definition is_digit_char (c : ascii) : bool :=
  match digit_value c with Some _ => true | None => false end.

Lemma int_digits_digits n : forall_string is_digit_char (int_digits n) = true.
Proof.
  unfold int_digits. induction (num_digits _ n) as [|k IH]; [done|].
  cbn [fixed_digits forall_string]. unfold is_digit_char at 1.
  by rewrite digit_value_char, IH by apply mod10_range.
Qed.

Lemma int_digits_nonempty n : int_digits n <> "".
Proof.
  unfold int_digits. destruct (num_digits _ n) as [|k] eqn:E; [|done].
  pose proof (num_digits_pos (Z.to_nat (Z.log2 n)) n). lia.
Qed.

Lemma dec_text_not_space neg ip j f :
  forall_string (fun c => negb (is_space c)) (dec_text neg ip j f) = true.
Proof.
  apply (forall_string_impl is_dec_char); [apply is_dec_char_not_space|].
  unfold dec_text. rewrite !forall_string_app. repeat (apply andb_true_iff; split).
  - by destruct neg.
  - apply fixed_digits_dec.
  - destruct (j =? 0)%nat; [done|]. rewrite forall_string_app. by rewrite fixed_digits_dec.
Qed.

(** Every value prints as a sign, an integer part and at most eighteen digits. *)
Lemma FloatString_dec_text q :
  exists ip j f, 0 <= ip /\ 0 <= f < 10 ^ Z.of_nat j /\ (j <= 18)%nat
    /\ scaled_abs 18 q = (ip * 10 ^ Z.of_nat j + f) * 10 ^ Z.of_nat (18 - j)
    /\ trim_right_by (Ascii.eqb ".") (trim_right_by (Ascii.eqb "0") (FloatString q 18))
       = dec_text (Qnum q <? 0) ip j f.
Proof.
  unfold FloatString. change (18 =? 0)%nat with false. cbv iota zeta.
  set (n := scaled_abs 18 q). assert (Hn : 0 <= n) by (unfold n, scaled_abs; apply Z.div_pos; lia).
  clearbody n. set (sg := if Qnum q <? 0 then "-" else ""). unfold dec_text. fold sg. clearbody sg.
  set (P := 10 ^ Z.of_nat 18). assert (HP : 0 < P) by done.
  pose proof (Z.mod_pos_bound n P HP) as Hf.
  destruct (trim_zeros_fixed 18 _ Hf) as (j & f & Hj & Hfj & Heq & Ht & Hdot).
  exists (n / P), j, f. split_and!; try done; try lia; [apply Z.div_pos; lia| |].
  - rewrite Z.mul_add_distr_r, <- Heq, <- Z.mul_assoc, <- Z.pow_add_r by lia.
    replace (Z.of_nat j + Z.of_nat (18 - j)) with (Z.of_nat 18) by lia. fold P.
    pose proof (Z.div_mod n P ltac:(lia)). lia.
  - set (I := int_digits (n / P)).
    pose proof (int_digits_nonempty (n / P)) as Hne. fold I in Hne.
    destruct j as [|j].
    + assert (E1 : trim_right_by (Ascii.eqb "0") ("." +:+ fixed_digits 18 (n mod P)) = ".")
        by (rewrite trim_right_app, Ht; done).
      rewrite (trim_right_app_ne _ sg _ (I +:+ ".")); [|by apply trim_right_app_ne|by destruct I].
      rewrite (trim_right_app_ne _ sg _ I); [by rewrite append_empty_r| |done].
      rewrite trim_right_app. change (trim_right_by (Ascii.eqb ".") ".") with "".
      cbn [String.eqb]. apply trim_right_id. eapply forall_string_impl; [|apply int_digits_digits].
      intros c. destruct c as [[] [] [] [] [] [] [] []]; vm_compute; congruence.
    + cbn [Nat.eqb]. set (F := fixed_digits (S j) f) in *.
      assert (HF : F <> "") by done.
      assert (E : forall p, trim_right_by p (fixed_digits 18 (n mod P)) = F ->
        trim_right_by p (sg +:+ I +:+ "." +:+ fixed_digits 18 (n mod P))
          = sg +:+ I +:+ "." +:+ F).
      { intros p Hp. do 3 (apply trim_right_app_ne; [|by destruct sg, I]). done. }
      rewrite (E _ Ht). do 3 (apply trim_right_app_ne; [|by destruct sg, I]). done.
Qed.

Lemma String_dec_text d m : (rat d == m # 10 ^ 18)%Q ->
  exists ip j f, 0 <= ip /\ 0 <= f < 10 ^ Z.of_nat j /\ (j <= 18)%nat
    /\ Z.abs m = (ip * 10 ^ Z.of_nat j + f) * 10 ^ Z.of_nat (18 - j)
    /\ trim_right_by (Ascii.eqb ".") (trim_right_by (Ascii.eqb "0") (FloatString (rat d) 18))
       = dec_text (m <? 0) ip j f.
Proof.
  intros Hd. destruct (FloatString_dec_text (rat d)) as (ip & j & f & ? & ? & ? & Hs & Ht).
  rewrite (scaled_abs_exact _ _ Hd) in Hs. exists ip, j, f. split_and!; try done; try lia.
  rewrite Ht. f_equal. unfold Qeq in Hd. simpl in Hd.
  apply eq_bool_prop_intro. rewrite !Is_true_true, !Z.ltb_lt. nia.
Qed.

(** Whatever was printed can be read again. *)
Lemma Parse_total d : exists d', Parse (String_ d) = Ret d'.
Proof.
  unfold String_. destruct (DIsZero d); [by eexists|].
  destruct (FloatString_dec_text (rat d)) as (ip & j & f & Hip & Hf & _ & _ & Ht). rewrite Ht.
  destruct (String.eqb _ "-0"); [by eexists|].
  destruct (SetString_dec_text (Qnum (rat d) <? 0) ip j f Hip Hf) as (q & Hq & _).
  unfold Parse. rewrite TrimSpace_id by apply dec_text_not_space.
  destruct (String.eqb _ "") eqn:E; [|rewrite Hq; by eexists].
  apply String.eqb_eq in E. by rewrite E in Hq.
Qed.

Lemma Parse_text d : representable d -> Parse (String_ d) = Ret (FromRat (rat d)).
Proof.
  intros [m Hm]. unfold String_. destruct (DIsZero d) eqn:Ez.
  { apply DIsZero_iff in Ez. change (Parse "0") with (Ret (FromRat 0)).
    unfold FromRat. do 3 f_equal. apply Qred_complete. by symmetry. }
  assert (Hm0 : m <> 0).
  { intros ->. apply DIsZero_false in Ez. apply Ez. rewrite Hm. done. }
  destruct (String_dec_text d m Hm) as (ip & j & f & Hip & Hf & Hj & Habs & Ht). rewrite Ht.
  destruct (SetString_dec_text (m <? 0) ip j f Hip Hf) as (q & Hq & Hv).
  assert (Hqd : (q == rat d)%Q).
  { rewrite Hv, Hm. unfold Qeq. cbn [Qnum Qden]. rewrite Z2Pos.id by (apply Z.pow_pos_nonneg; lia).
    assert (Hp : Z.pos (10 ^ 18) = 10 ^ Z.of_nat j * 10 ^ Z.of_nat (18 - j)).
    { rewrite <- Z.pow_add_r by lia. replace (Z.of_nat j + Z.of_nat (18 - j)) with 18 by lia. done. }
    rewrite Hp. destruct (m <? 0) eqn:E; [apply Z.ltb_lt in E|apply Z.ltb_ge in E]; nia. }
  assert (Hn : String.eqb (dec_text (m <? 0) ip j f) "-0" = false).
  { apply String.eqb_neq. intros Hc. rewrite Hc in Hq. injection Hq as Hq0.
    apply DIsZero_false in Ez. apply Ez. rewrite <- Hqd, <- (Qred_correct q), <- Hq0. done. }
  rewrite Hn. unfold Parse. rewrite TrimSpace_id by apply dec_text_not_space.
  destruct (String.eqb (dec_text _ _ _ _) "") eqn:E.
  { apply String.eqb_eq in E. rewrite E in Hq. done. }
  rewrite Hq. unfold FromRat. do 3 f_equal. by apply Qred_complete.
Qed.

(** C34: printing a decimal with at most eighteen fractional digits and parsing the
    text gives the decimal back: nothing is lost when prices, quantities and
    amounts pass through JSON. *)
Theorem Parse_String_ d : representable d -> Parse (String_ d) = Ret (FromRat (rat d)).
Proof. apply Parse_text. Qed.

Lemma Parse_String__witness :
  Parse (String_ (FromRat (-12345 # 1000))) = Ret (FromRat (rat (FromRat (-12345 # 1000)))).
Proof. apply Parse_String_. exists (-12345000000000000000). by vm_compute. Defined.
