(* ===== verification/Strategy.v ===== *)
(** Quote generation (src/internal/strategy/quote.go).

    [GenerateAt] is the loop over the levels; a level may return an error or
    panic, so the definitions live in the [go] monad.  [wall] stands for the value
    [time.Now()] returns inside [GenerateAt].  The 64-bit FNV-1a hash of the
    standard library, which spreads sizes and jitter, is computed byte by byte. *)
From S2P Require Import Prelude Decimal DecimalText Domain Config.

Open Scope string_scope.
Open Scope Z_scope.

(** ** Stable pseudo-random choices *)

Definition fnv_offset : Z := 14695981039346656037.
Definition fnv_prime : Z := 1099511628211.

(** [fnv.New64a()] after writing [s]. *)
Fixpoint fnv64a_from (h : Z) (s : string) : Z :=
  match s with
  | EmptyString => h
  | String c s' => fnv64a_from (wrapU64 (Z.lxor h (Z.of_N (N_of_ascii c)) * fnv_prime)) s'
  end.
Definition fnv64a (s : string) : Z := fnv64a_from fnv_offset s.

Definition stableOrderNotional (instrumentID venueName symbol : string) (side : Side)
    (level : Z) (minimum maximum : Decimal) (refreshGeneration : Z) : go Decimal :=
  if Cmp minimum maximum =? 0 then Ret minimum else
  let hash := fnv64a (instrumentID +:+ "|" +:+ venueName +:+ "|" +:+ symbol +:+ "|" +:+ side
    +:+ "|" +:+ pretty level +:+ "|" +:+ String_ minimum +:+ "|" +:+ String_ maximum
    +:+ "|" +:+ pretty refreshGeneration) in
  let buckets := 1000000 in
  fraction ← Div (FromInt64 (hash mod (buckets - 1) + 1)) (FromInt64 buckets);
  Ret (Add minimum (Mul (Sub maximum minimum) fraction)).

Definition refreshGeneration (strategy : StrategyConfig) (side : Side) (level : Z)
    (now : Time) : Z :=
  (if (QuoteRefreshSeconds strategy <=? 0) || IsZero now then 0 else
   let bestLevels := EffectiveBestLevels strategy in
   if level <? bestLevels
   then UnixSec now /i EffectiveBestLevelRefreshSeconds strategy else
   let deepLevels := Levels strategy -i bestLevels in
   if deepLevels <=? 0
   then UnixSec now /i EffectiveBestLevelRefreshSeconds strategy else
   let refreshCount :=
     (deepLevels *i EffectiveQuoteRefreshRatioBPS strategy +i 9999) /i 10000 in
   let refreshCount := if refreshCount <? 1 then 1 else refreshCount in
   let groups := (deepLevels +i refreshCount -i 1) /i refreshCount in
   let deepIndex := level -i bestLevels in
   let deepIndex :=
     if String.eqb side Sell && (1 <? deepLevels)
     then (deepIndex +i deepLevels /i 2) %i deepLevels else deepIndex in
   let phase := deepIndex /i refreshCount in
   let window := UnixSec now /i EffectiveQuoteRefreshSeconds strategy in
   if window <? phase then 0
   else (window -i phase) /i groups +i 1)%go.

Definition stableJitterTicks (instrumentID venueName symbol : string) (side : Side)
    (level generation maxTicks : Z) : Z :=
  if (generation =? 0) || (maxTicks <=? 0) then 0 else
  let hash := fnv64a (instrumentID +:+ "|" +:+ venueName +:+ "|" +:+ symbol +:+ "|" +:+ side
    +:+ "|" +:+ pretty level +:+ "|" +:+ pretty generation +:+ "|jitter") in
  let width := wrapU64 (maxTicks *i 2 +i 1)%go in
  (wrap64 (hash mod width) -i maxTicks)%go.

Definition applyPriceJitter (price tick : Decimal) (ticks : Z) : Decimal :=
  if ticks =? 0 then price else Add price (Mul tick (FromInt64 ticks)).

(** The loop of [boundedJitterTicks], counting down from [n] ticks. *)
Fixpoint boundedJitterLoop (price tick maximumMove : Decimal) (n : nat) : Z :=
  match n with
  | O => 0
  | S n' =>
      let move := Mul tick (FromInt64 (Z.of_nat n)) in
      if (Cmp move maximumMove <=? 0) && (Cmp move price <? 0) then Z.of_nat n
      else boundedJitterLoop price tick maximumMove n'
  end.

Definition boundedJitterTicks (price tick : Decimal)
    (configuredTicks repriceThresholdBPS : Z) : go Z :=
  if (configuredTicks <=? 0) || (repriceThresholdBPS <=? 0)
     || negb (IsPositive price) || negb (IsPositive tick)
  then Ret 0 else
  maximumMove ← Div (Mul price (FromInt64 repriceThresholdBPS)) TenThousand;
  Ret (boundedJitterLoop price tick maximumMove (Z.to_nat configuredTicks)).

Definition stablePriceAnchor (price tick : Decimal) (repriceThresholdBPS : Z) : go Decimal :=
  if repriceThresholdBPS <=? 0 then Ret price else
  raw ← Div (Mul price (FromInt64 repriceThresholdBPS)) TenThousand;
  width ← QuantizeUp raw tick;
  let width := if negb (IsPositive width) then tick else width in
  anchor ← QuantizeDown price width;
  Ret (if negb (IsPositive anchor) then price else anchor).

Definition applyInventorySkew (fair : Decimal) (cfg : StrategyConfig) (inventory : Decimal)
    : go Decimal :=
  if (Sign (MaxBaseDeviation cfg) <=? 0) || (InventorySkewBPS cfg <=? 0) then Ret fair else
  deviation ← Div (Sub inventory (TargetBase cfg)) (MaxBaseDeviation cfg);
  let deviation := if 0 <? Cmp deviation One then One else deviation in
  let deviation :=
    if Cmp deviation (FromInt64 (-1)) <? 0 then FromInt64 (-1) else deviation in
  shift ← Div (Mul deviation (FromInt64 (InventorySkewBPS cfg))) TenThousand;
  Ret (Mul fair (Sub One shift)).

(** ** Sizes *)

(** The price-dependent bounds of the quantity: [minimumQty] and [maximumQty]. *)
Definition quantityBounds (market : VenueMarketConfig) (minimum maximum price : Decimal)
    : go (Decimal * Decimal) :=
  minRaw ← Div minimum price;
  minimumQty ← QuantizeUp minRaw (QuantityStep market);
  minimumQty ←
    (if IsPositive (MinQuantity market) then
       q ← QuantizeUp (MinQuantity market) (QuantityStep market); Ret (DMax minimumQty q)
     else Ret minimumQty);
  maxRaw ← Div maximum price;
  maximumQty ← QuantizeDown maxRaw (QuantityStep market);
  maximumQty ←
    (if IsPositive (MaxQuantity market) then
       q ← QuantizeDown (MaxQuantity market) (QuantityStep market); Ret (DMin maximumQty q)
     else Ret maximumQty);
  Ret (minimumQty, maximumQty).

Definition effectiveNotional (s : StrategyConfig) (market : VenueMarketConfig)
    : Decimal * Decimal :=
  let minimum := DMax (MinOrderNotional s) (MinNotional market) in
  let maximum := MaxOrderNotional s in
  (minimum, if IsPositive (MaxNotional market) then DMin maximum (MaxNotional market)
            else maximum).

Definition quoteQuantity (i : InstrumentConfig) (venueName : string)
    (market : VenueMarketConfig) (side : Side) (level : Z) (price : Decimal)
    (generation : Z) : go Decimal :=
  let s := Strategy i in
  if negb (UsesOrderNotionalRange s) then
    qty ← QuantizeDown (OrderSize s) (QuantityStep market);
    if negb (IsPositive qty) then Err (Errorf "legacy order size rounded to zero")
    else Ret qty
  else
    let '(minimum, maximum) := effectiveNotional s market in
    if Cmp maximum minimum <? 0 then
      Err (Errorf ("configured notional range " +:+ String_ (MinOrderNotional s) +:+ "-"
        +:+ String_ (MaxOrderNotional s) +:+ " is incompatible with exchange range "
        +:+ String_ (MinNotional market) +:+ "-" +:+ String_ (MaxNotional market)))
    else
    bounds ← quantityBounds market minimum maximum price;
    let '(minimumQty, maximumQty) := bounds in
    if negb (IsPositive maximumQty) || (0 <? Cmp minimumQty maximumQty) then
      Err (Errorf ("notional range " +:+ String_ minimum +:+ "-" +:+ String_ maximum
        +:+ " cannot satisfy quantity step " +:+ String_ (QuantityStep market)
        +:+ " and exchange limits at price " +:+ String_ price))
    else
    target ← stableOrderNotional (ID i) venueName (market_Symbol market) side level
               minimum maximum generation;
    anchor ← stablePriceAnchor price (PriceTick market) (RepriceThresholdBPS s);
    raw ← Div target anchor;
    quantity ← QuantizeDown raw (QuantityStep market);
    let quantity := if Cmp quantity minimumQty <? 0 then minimumQty else quantity in
    let quantity := if 0 <? Cmp quantity maximumQty then maximumQty else quantity in
    if negb (IsPositive quantity) then Err (Errorf "order quantity rounded to zero")
    else
    let actual := Mul price quantity in
    if (Cmp actual minimum <? 0) || (0 <? Cmp actual maximum) then
      Err (Errorf ("rounded notional " +:+ String_ actual +:+ " is outside effective range "
        +:+ String_ minimum +:+ "-" +:+ String_ maximum))
    else Ret quantity.

(** ** The ladder *)

(** Prices of one level before the order book and the previous level are
    considered: skewed mid, spread, rounding to the tick, and jitter. *)
Definition rawPrices (i : InstrumentConfig) (venueName : string) (market : VenueMarketConfig)
    (mid : Decimal) (level bidGeneration askGeneration : Z) : go (Decimal * Decimal) :=
  let s := Strategy i in
  let tick := PriceTick market in
  let spreadBPS := (HalfSpreadBPS s +i level *i LevelSpacingBPS s)%go in
  spread ← Div (FromInt64 spreadBPS) TenThousand;
  bid ← QuantizeDown (Mul mid (Sub One spread)) tick;
  ask ← QuantizeUp (Mul mid (Add One spread)) tick;
  bidLimit ← boundedJitterTicks bid tick (EffectivePriceJitterTicks s) (RepriceThresholdBPS s);
  askLimit ← boundedJitterTicks ask tick (EffectivePriceJitterTicks s) (RepriceThresholdBPS s);
  Ret (applyPriceJitter bid tick (stableJitterTicks (ID i) venueName (market_Symbol market)
         Buy level bidGeneration bidLimit),
       applyPriceJitter ask tick (stableJitterTicks (ID i) venueName (market_Symbol market)
         Sell level askGeneration askLimit)).

(** A post-only bid stays below the best ask, a post-only ask above the best bid. *)
Definition postOnlyPrices (book : Book) (tick bid ask : Decimal) : go (Decimal * Decimal) :=
  bid ← (if HasAsk book then
           let maxBid := Sub (AskPrice book) tick in
           if 0 <? Cmp bid maxBid then QuantizeDown maxBid tick else Ret bid
         else Ret bid);
  ask ← (if HasBid book then
           let minAsk := Add (BidPrice book) tick in
           if Cmp ask minAsk <? 0 then QuantizeUp minAsk tick else Ret ask
         else Ret ask);
  Ret (bid, ask).

(** From the second level on, prices move strictly away from the previous level. *)
Definition separateLevels (level : Z) (tick previousBid previousAsk bid ask : Decimal)
    : go (Decimal * Decimal) :=
  if 0 <? level then
    bid ← (if 0 <=? Cmp bid previousBid then QuantizeDown (Sub previousBid tick) tick
           else Ret bid);
    ask ← (if Cmp ask previousAsk <=? 0 then QuantizeUp (Add previousAsk tick) tick
           else Ret ask);
    Ret (bid, ask)
  else Ret (bid, ask).

Record LevelState := MkLevelState {
  ls_quotes : list Quote;
  ls_previousBid : Decimal;
  ls_previousAsk : Decimal
}.

(** [fmt.Errorf("...: %w", err)] around the error of a call. *)
Definition wrap_error {A} (prefix : string) (c : go A) : go A :=
  match c with Err e => Err (Wrapf prefix e) | _ => c end.

(** The body of the loop of [GenerateAt]. *)
Definition generateLevel (i : InstrumentConfig) (venueName : string)
    (market : VenueMarketConfig) (ref : ReferencePrice) (book : Book) (mid : Decimal)
    (now wall : Time) (st : LevelState) (level : Z) : go LevelState :=
  let s := Strategy i in
  let bidGeneration := refreshGeneration s Buy level now in
  let askGeneration := refreshGeneration s Sell level now in
  raw ← rawPrices i venueName market mid level bidGeneration askGeneration;
  post_only ← postOnlyPrices book (PriceTick market) (fst raw) (snd raw);
  final ← separateLevels level (PriceTick market) (ls_previousBid st) (ls_previousAsk st)
            (fst post_only) (snd post_only);
  let '(bid, ask) := final in
  if negb (IsPositive bid) || negb (IsPositive ask) then Err (Errorf "quote rounded to zero")
  else if 0 <=? Cmp bid ask then Err (Errorf "generated quotes cross")
  else
  bidQty ← wrap_error ("buy level " +:+ pretty (level + 1) +:+ ": ")
             (quoteQuantity i venueName market Buy level bid bidGeneration);
  askQty ← wrap_error ("sell level " +:+ pretty (level + 1) +:+ ": ")
             (quoteQuantity i venueName market Sell level ask askGeneration);
  let validUntil :=
    if IsZero (ref_ValidUntil ref) then wall + 10 * Second else ref_ValidUntil ref in
  Ret (MkLevelState
    (ls_quotes st ++
      [MkQuote (ID i) venueName (market_Symbol market) Buy level bid bidQty
         (ref_Price ref) validUntil;
       MkQuote (ID i) venueName (market_Symbol market) Sell level ask askQty
         (ref_Price ref) validUntil])
    bid ask).

Definition levels (s : StrategyConfig) : list Z := seqZ 0 (Levels s).

Definition GenerateAt (i : InstrumentConfig) (venueName : string) (market : VenueMarketConfig)
    (ref : ReferencePrice) (book : Book) (inventory : Decimal) (now wall : Time)
    : go (list Quote) :=
  if negb (IsPositive (ref_Price ref)) then Err (Errorf "reference price is not positive")
  else if TwoSided book && (0 <=? Cmp (BidPrice book) (AskPrice book))
  then Err (Errorf "crossed venue book")
  else
  mid ← applyInventorySkew (ref_Price ref) (Strategy i) inventory;
  if (Levels (Strategy i) *i 2 <? 0)%go then Panic "makeslice: cap out of range" else
  st ← foldM (generateLevel i venueName market ref book mid now wall)
         (levels (Strategy i)) (MkLevelState [] Zero Zero);
  Ret (ls_quotes st).

Definition Generate (i : InstrumentConfig) (venueName : string) (market : VenueMarketConfig)
    (ref : ReferencePrice) (book : Book) (inventory : Decimal) (now wall : Time)
    : go (list Quote) := GenerateAt i venueName market ref book inventory now wall.

(** A ladder of three levels around a reference price of 100. *)
Definition ex_ref : ReferencePrice :=
  MkReferencePrice "abc-usdt" (dec_of 100 1) (dec_of 100 1) true "high" 1 0 (10 ^ 18 + 10 ^ 10).

Definition ex_book : Book :=
  MkBook "binance" "ABCUSDT" (dec_of 999 10) (dec_of 1 1) (dec_of 1001 10) (dec_of 1 1) (10 ^ 18).

Definition ex_quotes : go (list Quote) :=
  GenerateAt (ex_instrument ex_strategy) "binance" ex_market ex_ref ex_book (dec_of 110 1)
    (10 ^ 18) (10 ^ 18).

Example ex_quotes_ok : exists q, ex_quotes = Ret q /\ length q = 10%nat.
Proof. eexists. split; vm_compute; reflexivity. Qed.

(** ** Inventory skew and jitter *)

Lemma Div_TenThousand_post d Q :
  (forall v, (rat v == rat d / 10000)%Q -> Q v) -> post (Div d TenThousand) Q.
Proof. intros HQ. apply Div_post; [rewrite rat_TenThousand; lra|]. intros v. dec_norm. apply HQ. Qed.

Lemma Qdiv_10000 q : (q / 10000 == q * (1 # 10000))%Q.
Proof. field. Qed.

Lemma clamp_one d :
  let d1 := if 0 <? Cmp d One then One else d in
  let d2 := if Cmp d1 (FromInt64 (-1)) <? 0 then FromInt64 (-1) else d1 in
  (-1 <= rat d2 <= 1)%Q.
Proof.
  simpl. destruct (0 <? Cmp d One) eqn:E1; destruct (Cmp _ (FromInt64 (-1)) <? 0) eqn:E2;
    dec_hyps; dec_norm; change (inject_Z (-1)) with (-1)%Q in *; split; lra.
Qed.

Lemma inject_Z_le a b : a <= b -> (inject_Z a <= inject_Z b)%Q.
Proof. by rewrite Zle_Qle. Qed.
Lemma inject_Z_lt a b : a < b -> (inject_Z a < inject_Z b)%Q.
Proof. by rewrite Zlt_Qlt. Qed.

(** The skewed mid price stays within the configured share of the fair price. *)
Lemma applyInventorySkew_post fair s inventory :
  (0 <= rat fair)%Q -> 0 <= InventorySkewBPS s ->
  post (applyInventorySkew fair s inventory) (fun mid =>
    rat fair * (10000 - inject_Z (InventorySkewBPS s)) <= 10000 * rat mid
    /\ 10000 * rat mid <= rat fair * (10000 + inject_Z (InventorySkewBPS s)))%Q.
Proof.
  intros Hf Hs. apply (inject_Z_le 0) in Hs. unfold applyInventorySkew.
  set (sk := inject_Z (InventorySkewBPS s)) in *. change (inject_Z 0) with 0%Q in Hs.
  assert (Hfs : (0 <= rat fair * sk)%Q) by (by apply Qmult_le_0_compat).
  destruct ((Sign (MaxBaseDeviation s) <=? 0) || (InventorySkewBPS s <=? 0)) eqn:E.
  { simpl. split; lra. }
  apply orb_false_iff in E as [E _]. apply Z.leb_gt, Qsgn_pos in E.
  apply post_bind, Div_post; [lra|]. intros v _.
  pose proof (clamp_one v) as Hc. cbv zeta in Hc |- *.
  set (d := if Cmp _ _ <? 0 then _ else _) in *.
  apply post_bind, Div_TenThousand_post. intros sh Hsh. simpl. dec_norm. fold sk in Hsh.
  rewrite Hsh, Qdiv_10000. clear Hsh. destruct Hc as [Hlo Hhi].
  pose proof (Qmult_le_compat_r _ _ (rat fair * sk) Hlo Hfs).
  pose proof (Qmult_le_compat_r _ _ (rat fair * sk) Hhi Hfs). lra.
Qed.

Lemma boundedJitterLoop_spec price tick maximumMove n :
  let k := boundedJitterLoop price tick maximumMove n in
  0 <= k <= Z.of_nat n /\
  (k = 0 \/ (rat tick * inject_Z k <= rat maximumMove)%Q /\ (rat tick * inject_Z k < rat price)%Q).
Proof.
  induction n as [|n IH]; cbn -[Z.of_nat]; [lia|].
  destruct (_ && _) eqn:E.
  - dec_hyps. dec_norm. split; [lia|right]. done.
  - destruct IH as [? ?]. split; [lia|done].
Qed.

(** The jitter limit keeps the move below the price and the reprice threshold. *)
Definition jitter_limit_ok (price tick : Decimal) (configured thr limit : Z) : Prop :=
  0 <= limit <= Z.max 0 configured /\
  (limit = 0 \/ (10000 * (rat tick * inject_Z limit) <= rat price * inject_Z thr)%Q
                /\ (rat tick * inject_Z limit < rat price)%Q).

Lemma boundedJitterTicks_post price tick configured thr :
  post (boundedJitterTicks price tick configured thr) (jitter_limit_ok price tick configured thr).
Proof.
  unfold boundedJitterTicks, jitter_limit_ok.
  destruct (_ || _) eqn:E; [simpl; split; [lia|by left]|].
  apply post_bind, Div_TenThousand_post. intros m Hm. simpl. dec_norm.
  destruct (boundedJitterLoop_spec price tick m (Z.to_nat configured)) as [Hb Hc].
  set (k := boundedJitterLoop _ _ _ _) in *. split; [lia|].
  destruct Hc as [->|[H1 H2]]; [by left|right]. split; [|done].
  rewrite Hm, Qdiv_10000 in H1. lra.
Qed.

Lemma stableJitterTicks_range id venueName symbol side level generation maxTicks :
  0 <= maxTicks < 2 ^ 62 ->
  - maxTicks <= stableJitterTicks id venueName symbol side level generation maxTicks <= maxTicks.
Proof.
  intros Hm. unfold stableJitterTicks. destruct (_ || _) eqn:E; [lia|]. cbv zeta.
  set (hash := fnv64a _). clearbody hash. dec_hyps.
  wrap_simpl. unfold wrapU64. rewrite (Z.mod_small (maxTicks * 2 + 1)) by lia.
  pose proof (Z.mod_pos_bound hash (maxTicks * 2 + 1) ltac:(lia)).
  wrap_simpl. lia.
Qed.

Lemma applyPriceJitter_multiple price tick ticks :
  is_multiple price tick -> is_multiple (applyPriceJitter price tick ticks) tick.
Proof. intros H. unfold applyPriceJitter. destruct (ticks =? 0); auto with go. Qed.

Lemma rat_applyPriceJitter price tick ticks :
  (rat (applyPriceJitter price tick ticks) == rat price + rat tick * inject_Z ticks)%Q.
Proof.
  unfold applyPriceJitter. destruct (ticks =? 0) eqn:E; dec_norm; [|ring].
  apply Z.eqb_eq in E as ->. change (inject_Z 0) with 0%Q. ring.
Qed.

(** ** Prices of one level *)

Definition spread_ok (s : StrategyConfig) (level : Z) : Prop :=
  0 <= (HalfSpreadBPS s +i level *i LevelSpacingBPS s)%go < 10000.

Definition on_tick (tick : Decimal) (p : Decimal * Decimal) : Prop :=
  is_multiple (fst p) tick /\ is_multiple (snd p) tick.

Lemma rawPrices_post i venueName market mid level bg ag :
  (0 <= rat mid)%Q -> (0 < rat (PriceTick market))%Q -> spread_ok (Strategy i) level ->
  post (rawPrices i venueName market mid level bg ag) (on_tick (PriceTick market)).
Proof.
  intros Hm Ht [Hlo Hhi]. unfold rawPrices. cbv zeta.
  set (sp := (_ +i _)%go) in *. clearbody sp.
  apply inject_Z_le in Hlo. apply inject_Z_lt in Hhi.
  change (inject_Z 0) with 0%Q in Hlo. change (inject_Z 10000) with 10000%Q in Hhi.
  apply post_bind, Div_TenThousand_post. intros spread Hs. dec_norm. rewrite Qdiv_10000 in Hs.
  apply post_bind, QuantizeDown_post; [|done|].
  { dec_norm. apply Qmult_le_0_compat; lra. }
  intros bid (Hbid & _).
  apply post_bind, QuantizeUp_post; [|done|].
  { dec_norm. apply Qmult_le_0_compat; lra. }
  intros ask (Hask & _).
  apply post_bind. eapply post_mono; [apply boundedJitterTicks_post|]. intros bl _.
  apply post_bind. eapply post_mono; [apply boundedJitterTicks_post|]. intros al _.
  split; by apply applyPriceJitter_multiple.
Qed.

(** The book adjustment keeps prices on the tick grid and off the other side. *)
Definition off_book (book : Book) (p : Decimal * Decimal) : Prop :=
  (HasAsk book = true -> (rat (fst p) < rat (AskPrice book))%Q) /\
  (HasBid book = true -> (rat (BidPrice book) < rat (snd p))%Q).

Definition book_ok (tick : Decimal) (book : Book) : Prop :=
  HasAsk book = true -> (rat tick <= rat (AskPrice book))%Q.

Lemma postOnlyPrices_post book tick bid ask :
  (0 < rat tick)%Q -> book_ok tick book -> on_tick tick (bid, ask) ->
  post (postOnlyPrices book tick bid ask) (fun p => on_tick tick p /\ off_book book p).
Proof.
  intros Ht Hb [Hbm Ham]. simpl in *. unfold postOnlyPrices, off_book, on_tick.
  apply post_bind.
  apply (post_mono _ (fun b => is_multiple b tick /\
    (HasAsk book = true -> (rat b < rat (AskPrice book))%Q))).
  { destruct (HasAsk book) eqn:E; [|done]. specialize (Hb E).
    cbv zeta. destruct (0 <? _) eqn:Ec.
    - apply QuantizeDown_post; [dec|done|]. intros v (Hv & _ & Hle & _).
      split; [done|]. intros _. dec.
    - simpl. split; [done|]. intros _. dec. }
  intros b [Hb1 Hb2]. apply post_bind.
  apply (post_mono _ (fun a => is_multiple a tick /\
    (HasBid book = true -> (rat (BidPrice book) < rat a)%Q))).
  { destruct (HasBid book) eqn:E; [|done]. apply HasBid_iff in E.
    cbv zeta. destruct (_ <? 0) eqn:Ec.
    - apply QuantizeUp_post; [dec|done|]. intros v (Hv & Hle & _).
      split; [done|]. intros _. dec.
    - simpl. split; [done|]. intros _. dec. }
  intros a [Ha1 Ha2]. simpl. done.
Qed.

Lemma separateLevels_post book level tick pb pa bid ask :
  (0 < rat tick)%Q -> on_tick tick (bid, ask) -> off_book book (bid, ask) ->
  (0 < level -> on_tick tick (pb, pa) /\ (0 < rat pb)%Q /\ (0 < rat pa)%Q) ->
  post (separateLevels level tick pb pa bid ask) (fun p =>
    on_tick tick p /\ off_book book p /\
    (0 < level -> (rat (fst p) < rat pb)%Q /\ (rat pa < rat (snd p))%Q)).
Proof.
  intros Ht [Hbm Ham] [Hob Hoa] Hprev. simpl in *. unfold separateLevels.
  destruct (0 <? level) eqn:El.
  2:{ simpl. apply Z.ltb_ge in El. split_and!; try done. lia. }
  apply Z.ltb_lt in El. destruct (Hprev El) as ([Hpbm Hpam] & Hpb & Hpa). simpl in *.
  assert (Hgap : (rat tick <= rat pb)%Q).
  { assert (Hz : is_multiple Zero tick) by (exists 0; rewrite rat_Zero; ring).
    pose proof (is_multiple_gap Zero pb tick Hz Hpbm Ht) as Hg. dec_norm. lra. }
  apply post_bind.
  apply (post_mono _ (fun b => is_multiple b tick /\ (rat b <= rat bid)%Q /\ (rat b < rat pb)%Q)).
  { destruct (0 <=? _) eqn:Ec; [|simpl; split_and!; [done|lra|dec]].
    apply QuantizeDown_post; [dec|done|]. intros v (Hv & _ & Hle & _).
    dec_hyps. dec_norm. split_and!; [done|lra|lra]. }
  intros b (Hb1 & Hb2 & Hb3). apply post_bind.
  apply (post_mono _ (fun a => is_multiple a tick /\ (rat ask <= rat a)%Q /\ (rat pa < rat a)%Q)).
  { destruct (_ <=? 0) eqn:Ec; [|simpl; split_and!; [done|lra|dec]].
    apply QuantizeUp_post; [dec|done|]. intros v (Hv & Hle & _).
    dec_hyps. dec_norm. split_and!; [done|lra|lra]. }
  intros a (Ha1 & Ha2 & Ha3). simpl. unfold on_tick, off_book. simpl.
  split_and!; try done; intros He; [specialize (Hob He)|specialize (Hoa He)]; lra.
Qed.

(** ** Sizes *)

(** What a quantity returned by [quoteQuantity] satisfies. *)
Definition quantity_ok (s : StrategyConfig) (market : VenueMarketConfig)
    (price qty : Decimal) : Prop :=
  is_multiple qty (QuantityStep market) /\ (0 < rat qty)%Q /\
  (UsesOrderNotionalRange s = true ->
     (rat (MinOrderNotional s) <= rat price * rat qty)%Q
     /\ (rat (MinNotional market) <= rat price * rat qty)%Q
     /\ (rat price * rat qty <= rat (MaxOrderNotional s))%Q
     /\ (IsPositive (MaxNotional market) = true ->
           (rat price * rat qty <= rat (MaxNotional market))%Q)
     /\ (IsPositive (MinQuantity market) = true -> (rat (MinQuantity market) <= rat qty)%Q)
     /\ (IsPositive (MaxQuantity market) = true -> (rat qty <= rat (MaxQuantity market))%Q)).

Definition sizing_ok (s : StrategyConfig) (market : VenueMarketConfig) : Prop :=
  (0 < rat (QuantityStep market))%Q /\ (0 < rat (PriceTick market))%Q
  /\ (UsesOrderNotionalRange s = false -> 0 <= rat (OrderSize s))%Q
  /\ (0 <= rat (MinNotional market))%Q.

Lemma quantityBounds_post market minimum maximum price :
  (0 < rat (QuantityStep market))%Q -> (0 < rat price)%Q ->
  (0 <= rat minimum)%Q -> (0 <= rat maximum)%Q ->
  post (quantityBounds market minimum maximum price) (fun b =>
    on_tick (QuantityStep market) b /\
    (IsPositive (MinQuantity market) = true -> (rat (MinQuantity market) <= rat (fst b))%Q) /\
    (IsPositive (MaxQuantity market) = true -> (rat (snd b) <= rat (MaxQuantity market))%Q)).
Proof.
  intros Hst Hp Hmin Hmax. unfold quantityBounds.
  apply post_bind, Div_post; [lra|]. intros mr Hmr.
  apply post_bind, QuantizeUp_post; [|done|].
  { rewrite Hmr. apply Qle_shift_div_l; [done|lra]. }
  intros mq (Hmq & _). apply post_bind.
  apply (post_mono _ (fun q => is_multiple q (QuantityStep market) /\
    (IsPositive (MinQuantity market) = true -> (rat (MinQuantity market) <= rat q)%Q))).
  { destruct (IsPositive (MinQuantity market)) eqn:E; [|done]. apply IsPositive_iff in E.
    apply post_bind, QuantizeUp_post; [lra|done|]. intros v (Hv & Hle & _). simpl. split.
    - by destruct (DMax_cases mq v) as [->| ->].
    - intros _. pose proof (DMax_ge_r mq v). lra. }
  intros mq' [Hm1 Hm2]. apply post_bind, Div_post; [lra|]. intros xr Hxr.
  apply post_bind, QuantizeDown_post; [|done|].
  { rewrite Hxr. apply Qle_shift_div_l; [done|lra]. }
  intros xq (Hxq & _). apply post_bind.
  apply (post_mono _ (fun q => is_multiple q (QuantityStep market) /\
    (IsPositive (MaxQuantity market) = true -> (rat q <= rat (MaxQuantity market))%Q))).
  { destruct (IsPositive (MaxQuantity market)) eqn:E; [|done]. apply IsPositive_iff in E.
    apply post_bind, QuantizeDown_post; [lra|done|]. intros v (Hv & _ & Hle & _). simpl. split.
    - by destruct (DMin_cases xq v) as [->| ->].
    - intros _. pose proof (DMin_le_r xq v). lra. }
  intros xq' [Hx1 Hx2]. simpl. done.
Qed.

(** The hash picks an amount inside the range. *)
Lemma stableOrderNotional_post id venueName symbol side level minimum maximum g :
  (rat minimum <= rat maximum)%Q ->
  post (stableOrderNotional id venueName symbol side level minimum maximum g)
    (fun t => (rat minimum <= rat t /\ rat t <= rat maximum)%Q).
Proof.
  intros Hle. unfold stableOrderNotional.
  destruct (Cmp minimum maximum =? 0); [simpl; split; lra|]. cbv zeta.
  set (hash := fnv64a _). clearbody hash. set (f := hash mod (1000000 - 1) + 1).
  assert (Hf : 0 <= f <= 1000000).
  { unfold f. pose proof (Z.mod_pos_bound hash (1000000 - 1) ltac:(lia)). lia. }
  destruct Hf as [H0 H1]. apply inject_Z_le in H0, H1.
  change (inject_Z 0) with 0%Q in H0. change (inject_Z 1000000) with 1000000%Q in H1.
  apply post_bind, Div_post; [rewrite rat_FromInt64; done|]. intros fr Hfr. simpl. dec_norm.
  change (inject_Z 1000000) with 1000000%Q in Hfr.
  assert (Hlo : (0 <= rat fr)%Q) by (rewrite Hfr; apply Qle_shift_div_l; lra).
  assert (Hhi : (rat fr <= 1)%Q) by (rewrite Hfr; apply Qle_shift_div_r; lra).
  assert (Hd : (0 <= rat maximum - rat minimum)%Q) by lra.
  pose proof (Qmult_le_0_compat _ _ Hd Hlo).
  pose proof (Qmult_le_compat_r _ _ _ Hhi Hd). split; lra.
Qed.

(** The price bucket is positive and never above the price. *)
Lemma stablePriceAnchor_post price tick thr :
  (0 < rat price)%Q -> (0 < rat tick)%Q ->
  post (stablePriceAnchor price tick thr) (fun a => (0 < rat a /\ rat a <= rat price)%Q).
Proof.
  intros Hp Ht. unfold stablePriceAnchor.
  destruct (thr <=? 0) eqn:E; [simpl; split; lra|]. apply Z.leb_gt in E.
  apply inject_Z_lt in E. change (inject_Z 0) with 0%Q in E.
  apply post_bind, Div_TenThousand_post. intros rw Hr. dec_norm.
  rewrite Qdiv_10000 in Hr.
  pose proof (Qmult_lt_0_compat _ _ Hp E).
  apply post_bind, QuantizeUp_post; [lra|done|]. intros w (_ & Hw & _). cbv zeta.
  set (w' := if negb _ then _ else _).
  assert (Hw' : (0 < rat w')%Q).
  { unfold w'. destruct (IsPositive w) eqn:Ew; simpl; [|done]. by apply IsPositive_iff. }
  apply post_bind, QuantizeDown_post; [lra|done|]. intros a (_ & H0 & Ha & _). simpl.
  destruct (IsPositive a) eqn:Ea; simpl; [apply IsPositive_iff in Ea|]; split; lra.
Qed.

Lemma effectiveNotional_bounds s market :
  let m := effectiveNotional s market in
  (rat (MinOrderNotional s) <= rat (fst m) /\ rat (MinNotional market) <= rat (fst m)
   /\ rat (snd m) <= rat (MaxOrderNotional s))%Q
  /\ (IsPositive (MaxNotional market) = true -> (rat (snd m) <= rat (MaxNotional market))%Q).
Proof.
  unfold effectiveNotional. simpl. split_and!; [apply DMax_ge_l|apply DMax_ge_r| |].
  - destruct (IsPositive _); [apply DMin_le_l|lra].
  - intros ->. apply DMin_le_r.
Qed.

Lemma quoteQuantity_post i venueName market side level price g :
  sizing_ok (Strategy i) market -> (0 < rat price)%Q ->
  post (quoteQuantity i venueName market side level price g)
    (quantity_ok (Strategy i) market price).
Proof.
  intros (Hst & Ht & Hos & Hmn) Hp. unfold quoteQuantity. cbv zeta.
  destruct (UsesOrderNotionalRange (Strategy i)) eqn:Eu; simpl negb.
  2:{ apply post_bind, QuantizeDown_post; [by apply Hos|done|]. intros q (Hq & _).
      destruct (IsPositive q) eqn:E; simpl; [|done]. apply IsPositive_iff in E.
      unfold quantity_ok. rewrite Eu. done. }
  destruct (effectiveNotional_bounds (Strategy i) market) as ((Hm1 & Hm2 & Hx1) & Hx2).
  destruct (effectiveNotional (Strategy i) market) as [minimum maximum]. simpl in *.
  destruct (Cmp maximum minimum <? 0) eqn:Ec; [done|]. dec_hyps.
  apply post_bind. eapply post_mono; [apply quantityBounds_post; [done|done|lra|lra]|].
  intros [nq xq] (Hon & Hn & Hx). simpl in Hn, Hx. destruct Hon as [Hon1 Hon2]. simpl in Hon1, Hon2.
  destruct (negb _ || _) eqn:Eb; [done|]. apply orb_false_iff in Eb as [Eb1 Eb2].
  apply negb_false_iff, IsPositive_iff in Eb1. dec_hyps.
  apply post_bind. eapply post_mono; [apply stableOrderNotional_post; lra|].
  intros t (Ht1 & Ht2). apply post_bind.
  eapply post_mono; [apply stablePriceAnchor_post; done|]. intros a (Ha1 & Ha2).
  apply post_bind, Div_post; [lra|]. intros rw Hrw.
  apply post_bind, QuantizeDown_post; [rewrite Hrw; apply Qle_shift_div_l; lra|done|].
  intros q0 (Hq0 & _). cbv zeta.
  set (q1 := if Cmp q0 nq <? 0 then nq else q0).
  set (q2 := if 0 <? Cmp q1 xq then xq else q1).
  assert (Hq2 : is_multiple q2 (QuantityStep market) /\ (rat nq <= rat q2 <= rat xq)%Q).
  { unfold q2, q1. destruct (Cmp q0 nq <? 0) eqn:E1; destruct (0 <? _) eqn:E2;
      subst q1 q2; dec_hyps; (split; [done|split; lra]). }
  destruct Hq2 as [Hq2 [Hq3 Hq4]]. clearbody q2.
  destruct (IsPositive q2) eqn:Ep; simpl negb; [|done]. apply IsPositive_iff in Ep.
  destruct ((Cmp _ _ <? 0) || _) eqn:Ea; [done|]. dec_hyps. dec_norm.
  unfold quantity_ok. split_and!; [done|done|]. intros _. split_and!; try lra.
  - intros HH. specialize (Hx2 HH). lra.
  - intros HH. specialize (Hn HH). lra.
  - intros HH. specialize (Hx HH). lra.
Qed.

(** ** The ladder as a whole *)

Open Scope list_scope.

Definition quote_ok (s : StrategyConfig) (market : VenueMarketConfig) (book : Book)
    (q : Quote) : Prop :=
  is_multiple (quote_Price q) (PriceTick market) /\ (0 < rat (quote_Price q))%Q
  /\ quantity_ok s market (quote_Price q) (quote_Quantity q)
  /\ (quote_Side q = Buy -> HasAsk book = true ->
        (rat (quote_Price q) < rat (AskPrice book))%Q)
  /\ (quote_Side q = Sell -> HasBid book = true ->
        (rat (BidPrice book) < rat (quote_Price q))%Q).

Definition quote_key (q : Quote) : Side * Z := (quote_Side q, quote_Level q).
Definition quote_keys (k : Z) : list (Side * Z) :=
  concat (map (fun l => [(Buy, l); (Sell, l)]) (seqZ 0 k)).

(** Prices of a side move away from the market with the level, and no buy meets
    a sell. *)
Definition ladder_sorted (qs : list Quote) : Prop := forall q q', q ∈ qs -> q' ∈ qs ->
  (quote_Side q = Buy -> quote_Side q' = Buy -> quote_Level q < quote_Level q' ->
     (rat (quote_Price q') < rat (quote_Price q))%Q)
  /\ (quote_Side q = Sell -> quote_Side q' = Sell -> quote_Level q < quote_Level q' ->
     (rat (quote_Price q) < rat (quote_Price q'))%Q)
  /\ (quote_Side q = Buy -> quote_Side q' = Sell ->
     (rat (quote_Price q) < rat (quote_Price q'))%Q).

(** [within pb pa q]: the quote lies between the outermost prices so far. *)
Definition within (k : Z) (pb pa : Decimal) (q : Quote) : Prop :=
  quote_Level q < k
  /\ (quote_Side q = Buy ->
        (rat pb <= rat (quote_Price q) /\ rat (quote_Price q) < rat pa)%Q)
  /\ (quote_Side q = Sell ->
        (rat pb < rat (quote_Price q) /\ rat (quote_Price q) <= rat pa)%Q).

(** The invariant of the loop of [GenerateAt] after [k] levels. *)
Record ladder_inv (s : StrategyConfig) (market : VenueMarketConfig) (book : Book)
    (k : Z) (st : LevelState) : Prop := {
  inv_keys : map quote_key (ls_quotes st) = quote_keys k;
  inv_quotes : Forall (quote_ok s market book) (ls_quotes st);
  inv_sorted : ladder_sorted (ls_quotes st);
  inv_within : Forall (within k (ls_previousBid st) (ls_previousAsk st)) (ls_quotes st);
  inv_previous : 0 < k -> on_tick (PriceTick market) (ls_previousBid st, ls_previousAsk st)
    /\ (0 < rat (ls_previousBid st))%Q /\ (0 < rat (ls_previousAsk st))%Q
}.

Lemma quote_keys_succ k : 0 <= k -> quote_keys (k + 1) = quote_keys k ++ [(Buy, k); (Sell, k)].
Proof.
  intros Hk. unfold quote_keys.
  rewrite (seqZ_app 0 k 1) by lia. by rewrite map_app, concat_app.
Qed.

Lemma length_quote_keys k : 0 <= k -> length (quote_keys k) = Z.to_nat (2 * k).
Proof.
  intros Hk. pattern k. apply natlike_ind; [done| |done]. clear k Hk. intros k Hk IH.
  rewrite <- Z.add_1_r, quote_keys_succ, length_app, IH by done. simpl. lia.
Qed.

(** Adding a level below the lowest buy and above the highest sell. *)
Lemma ladder_sorted_snoc k pb pa qs b a :
  0 <= k -> ladder_sorted qs -> Forall (within k pb pa) qs ->
  quote_key b = (Buy, k) -> quote_key a = (Sell, k) ->
  (rat (quote_Price b) < rat (quote_Price a))%Q ->
  (0 < k -> (rat (quote_Price b) < rat pb)%Q /\ (rat pa < rat (quote_Price a))%Q) ->
  (qs <> [] -> 0 < k) ->
  ladder_sorted (qs ++ [b; a])
  /\ Forall (within (k + 1) (quote_Price b) (quote_Price a)) (qs ++ [b; a]).
Proof.
  intros Hk Hs Hw [= Hb1 Hb2] [= Ha1 Ha2] Hba Hprev Hne.
  assert (Hold : forall q, q ∈ qs -> within k pb pa q
    /\ (rat (quote_Price b) < rat pb)%Q /\ (rat pa < rat (quote_Price a))%Q).
  { intros q Hq. split; [by eapply Forall_flip|]. apply Hprev, Hne. by intros ->; apply not_elem_of_nil in Hq. }
  assert (Hin : forall q, q ∈ qs ++ [b; a] -> q ∈ qs \/ q = b \/ q = a).
  { intros q [?|Hq]%elem_of_app; [by left|right]. rewrite !elem_of_cons in Hq.
    destruct Hq as [?|[?|[]%not_elem_of_nil]]; auto. }
  split.
  - intros q q' Hq Hq'. apply Hin in Hq, Hq'.
    destruct Hq as [Hq|[-> | ->]], Hq' as [Hq'|[-> | ->]];
      rewrite ?Ha1, ?Hb1, ?Ha2, ?Hb2;
      try (specialize (Hold _ Hq) as ((Hl & Hwb & Hws) & Hpb & Hpa));
      try (specialize (Hold _ Hq') as ((Hl' & Hwb' & Hws') & Hpb' & Hpa'));
      try by apply Hs.
    all: split_and!; intros E1 E2; try done; try lia; try (intros; lia).
    all: try (destruct (Hwb E1)); try (destruct (Hws E1)); try (intros _; lra); try lra.
    all: try (destruct (Hwb' E2)); try (destruct (Hws' E2)); try lra.
  - apply Forall_forall. intros q Hq. apply Hin in Hq. destruct Hq as [Hq|[-> | ->]].
    + destruct (Hold _ Hq) as ((Hl & Hwb & Hws) & Hpb & Hpa).
      split_and!; [lia| |]; intros E; [destruct (Hwb E)|destruct (Hws E)]; split; lra.
    + split_and!; [lia| |]; rewrite Hb1; [intros _; split; lra|done].
    + split_and!; [lia| |]; rewrite Ha1; [done|intros _; split; lra].
Qed.

(** What the caller must supply for [GenerateAt] not to panic. *)
Record generate_pre (s : StrategyConfig) (market : VenueMarketConfig) (book : Book) : Prop := {
  pre_sizing : sizing_ok s market;
  pre_skew : 0 <= InventorySkewBPS s <= 10000;
  pre_levels : 0 <= Levels s < 2 ^ 62;
  pre_spread : forall level, 0 <= level < Levels s -> spread_ok s level;
  pre_book : book_ok (PriceTick market) book
}.

Lemma post_wrap_error {A} prefix (c : go A) Q : post c Q -> post (wrap_error prefix c) Q.
Proof. by destruct c. Qed.

Lemma generateLevel_post i venueName market ref book mid now wall k st :
  generate_pre (Strategy i) market book -> (0 <= rat mid)%Q -> 0 <= k < Levels (Strategy i) ->
  ladder_inv (Strategy i) market book k st ->
  post (generateLevel i venueName market ref book mid now wall st k)
    (ladder_inv (Strategy i) market book (k + 1)).
Proof.
  intros [Hsz _ _ Hsp Hbk] Hmid Hk [Hkeys Hqs Hsorted Hwithin Hprev].
  pose proof Hsz as (_ & Ht & _). unfold generateLevel. cbv zeta.
  apply post_bind. eapply post_mono; [apply rawPrices_post; auto|]. intros [b0 a0] Hraw.
  apply post_bind. eapply post_mono; [apply postOnlyPrices_post; done|]. intros [b1 a1] [Hpt Hpo].
  apply post_bind. eapply post_mono; [apply (separateLevels_post book); done|].
  intros [bid ask] ([Hbt Hat] & [Hbo Hao] & Hsep). simpl in Hbt, Hat, Hbo, Hao, Hsep.
  destruct (negb (IsPositive bid) || _) eqn:Ep; [done|]. dec_hyps.
  destruct (0 <=? Cmp bid ask) eqn:Ec; [done|]. dec_hyps.
  apply post_bind, post_wrap_error. eapply post_mono; [apply quoteQuantity_post; done|]. intros bq Hbq.
  apply post_bind, post_wrap_error. eapply post_mono; [apply quoteQuantity_post; done|]. intros aq Haq.
  set (vu := if IsZero _ then _ else _). clearbody vu.
  set (qb := MkQuote (ID i) venueName (market_Symbol market) Buy k bid bq (ref_Price ref) vu).
  set (qa := MkQuote (ID i) venueName (market_Symbol market) Sell k ask aq (ref_Price ref) vu).
  destruct (ladder_sorted_snoc k (ls_previousBid st) (ls_previousAsk st) (ls_quotes st) qb qa)
    as [Hs' Hw']; try done; [lia| |].
  { intros Hne. destruct (Z.eq_dec k 0) as [->|]; [|lia]. destruct Hne.
    by apply map_eq_nil in Hkeys. }
  constructor; simpl; try done.
  - rewrite map_app, Hkeys, quote_keys_succ by lia. done.
  - apply Forall_app. split; [done|]. 
    constructor; [|constructor; [|done]]; unfold quote_ok; simpl; split_and!; done.
Qed.

Lemma applyInventorySkew_nonneg fair s inventory :
  (0 <= rat fair)%Q -> 0 <= InventorySkewBPS s <= 10000 ->
  post (applyInventorySkew fair s inventory) (fun mid => (0 <= rat mid)%Q).
Proof.
  intros Hf Hs. eapply post_mono; [apply applyInventorySkew_post; [done|lia]|].
  intros mid [Hlo _]. destruct Hs as [_ Hs]. apply inject_Z_le in Hs.
  change (inject_Z 10000) with 10000%Q in Hs.
  assert (0 <= rat fair * (10000 - inject_Z (InventorySkewBPS s)))%Q
    by (apply Qmult_le_0_compat; lra). lra.
Qed.

Lemma GenerateAt_post i venueName market ref book inventory now wall :
  generate_pre (Strategy i) market book ->
  post (GenerateAt i venueName market ref book inventory now wall) (fun qs =>
    map quote_key qs = quote_keys (Levels (Strategy i))
    /\ Forall (quote_ok (Strategy i) market book) qs /\ ladder_sorted qs).
Proof.
  intros Hpre. unfold GenerateAt.
  destruct (IsPositive (ref_Price ref)) eqn:Er; simpl negb; [|done].
  destruct (TwoSided book && _) eqn:Eb; [done|]. dec_hyps.
  apply post_bind. eapply post_mono; [apply applyInventorySkew_nonneg; [lra|apply Hpre]|].
  intros mid Hmid. pose proof (pre_levels _ _ _ Hpre).
  destruct ((Levels (Strategy i) *i 2 <? 0)%go) eqn:El.
  { exfalso. apply Z.ltb_lt in El. revert El. wrap_simpl. lia. }
  apply post_bind. eapply post_mono.
  { apply (foldM_seqZ_post _ (ladder_inv (Strategy i) market book) 0); [lia| |].
    - constructor; simpl; [done|constructor| |constructor|lia].
      by intros q q' Hq%not_elem_of_nil.
    - intros k st Hk Hst. by apply generateLevel_post. }
  intros st [Hk Hq Hs _ _]. simpl. split_and!; done.
Qed.


(** An accepted configuration discharges everything but the facts about the
    market data and the bound on the inventory skew. *)
Lemma Valid_generate_pre c name v i m book :
  Valid c -> Venues c !! name = Some v -> venue_Enabled v = true ->
  i ∈ Instruments c -> Markets v !! ID i = Some m ->
  HalfSpreadBPS (Strategy i) + (Levels (Strategy i) - 1) * LevelSpacingBPS (Strategy i) <= max_int64 ->
  InventorySkewBPS (Strategy i) <= 10000 -> book_ok (PriceTick m) book ->
  generate_pre (Strategy i) m book.
Proof.
  intros Hc Hv He Hi Hm Hsp Hsk Hb.
  destruct (Valid_market c name v _ m Hc Hv He Hm) as (Ht & Hst & Hmn & _).
  pose proof (Valid_levels _ _ Hc Hi) as Hl.
  pose proof (Forall_flip _ _ _ (valid_instruments _ Hc) Hi) as (_ & _ & H & _).
  unfold validateStrategy in H. inv_ret H. destruct a, a0. unfold validateSizing in G. inv_ret G.
  constructor.
  - split_and!; [done|done| |lra]. intros Hu. rewrite Hu in G. apply fail_if_ret in G. dec.
  - dec_hyps. lia.
  - lia.
  - intros level Hlev. by apply (Valid_spread c).
  - done.
Qed.

(** ** Staggered refresh of the deep levels *)

Lemma go_quot_nonneg a b : 0 <= a <= max_int64 -> 0 < b -> (a /i b)%go = a / b.
Proof.
  intros [Ha Ha'] Hb. rewrite Z.quot_div_nonneg by lia. apply wrap64_id.
  pose proof (Z.div_pos a b Ha Hb). pose proof (Z.div_le_upper_bound a b a Hb ltac:(nia)).
  unfold in_int64, min_int64. lia.
Qed.

Lemma EffectiveBestLevels_range s :
  1 <= Levels s -> 1 <= EffectiveBestLevels s <= Levels s.
Proof.
  intros Hl. unfold EffectiveBestLevels, DefaultBestLevels. cbv zeta.
  destruct (BestLevels s <=? 0) eqn:E1; destruct (Levels s <? _) eqn:E2; lia.
Qed.

Lemma EffectiveQuoteRefreshRatioBPS_range s :
  QuoteRefreshRatioBPS s <= 10000 -> 1 <= EffectiveQuoteRefreshRatioBPS s <= 10000.
Proof.
  intros H. unfold EffectiveQuoteRefreshRatioBPS, DefaultQuoteRefreshRatioBPS.
  destruct (0 <? _) eqn:E; lia.
Qed.

Section Stagger.
Variable s : StrategyConfig.
Hypothesis Hrefresh : 0 < QuoteRefreshSeconds s.
Hypothesis Hlevels : 1 <= Levels s <= MaxStrategyLevels.
Hypothesis Hratio : QuoteRefreshRatioBPS s <= 10000.

Let best := EffectiveBestLevels s.
Let deep := Levels s - best.
Let count := RefreshOrdersPerCycle s deep.
Let groups := (deep + count - 1) / count.

(** The position of a level in the rotation; sells are offset by half a turn. *)
Definition rotation (side : Side) (level : Z) : Z :=
  let d := Levels s - EffectiveBestLevels s in
  let i := level - EffectiveBestLevels s in
  if String.eqb side Sell && (1 <? d) then (i + d / 2) mod d else i.

Definition refresh_window (now : Time) : Z := UnixSec now / EffectiveQuoteRefreshSeconds s.

Lemma refresh_count_range : 0 < deep -> 1 <= count <= deep.
Proof.
  intros Hd. pose proof (EffectiveBestLevels_range s ltac:(lia)) as Hb. fold best in Hb.
  unfold MaxStrategyLevels in Hlevels.
  pose proof (EffectiveQuoteRefreshRatioBPS_range s Hratio) as Hr.
  unfold count, RefreshOrdersPerCycle. destruct (deep <=? 0) eqn:E; [lia|].
  destruct (_ <? 1) eqn:E1; [lia|]. destruct (deep <? _) eqn:E2; lia.
Qed.

Lemma refresh_count_raw : 0 < deep ->
  let raw := ((deep *i EffectiveQuoteRefreshRatioBPS s +i 9999) /i 10000)%go in
  (if raw <? 1 then 1 else raw) = count.
Proof.
  intros Hd raw. pose proof (EffectiveBestLevels_range s ltac:(lia)) as Hb. fold best in Hb.
  unfold MaxStrategyLevels in Hlevels.
  pose proof (EffectiveQuoteRefreshRatioBPS_range s Hratio) as Hr.
  unfold count, RefreshOrdersPerCycle. rewrite (proj2 (Z.leb_gt deep 0)) by done. fold raw. cbv zeta.
  assert (Hraw : raw <= deep).
  { unfold raw. assert (deep * EffectiveQuoteRefreshRatioBPS s <= 1000000) by nia.
    assert (0 <= deep * EffectiveQuoteRefreshRatioBPS s) by nia.
    wrap_simpl. rewrite go_quot_nonneg by (unfold max_int64; lia).
    apply Z.lt_succ_r, Z.div_lt_upper_bound; nia. }
  destruct (raw <? 1) eqn:E1; [done|]. by rewrite (proj2 (Z.ltb_ge deep raw)).
Qed.

Lemma rotation_range side level :
  best <= level < Levels s -> 0 <= rotation side level < deep.
Proof.
  intros Hl. unfold rotation. fold best deep. destruct (_ && _) eqn:E; [|lia].
  apply Z.mod_pos_bound. lia.
Qed.

Lemma rotation_inj side l1 l2 :
  best <= l1 < Levels s -> best <= l2 < Levels s ->
  rotation side l1 = rotation side l2 -> l1 = l2.
Proof.
  intros H1 H2. unfold rotation. fold best deep. destruct (_ && _) eqn:E; [|lia].
  assert (Hd : 0 < deep) by lia. intros Heq.
  pose proof (Z.div_mod (l1 - best + deep / 2) deep ltac:(lia)) as E1.
  pose proof (Z.div_mod (l2 - best + deep / 2) deep ltac:(lia)) as E2.
  rewrite Heq in E1. clear Heq.
  set (q1 := (l1 - best + deep / 2) / deep) in E1. set (q2 := (l2 - best + deep / 2) / deep) in E2.
  set (x := (l2 - best + deep / 2) mod deep) in E1, E2.
  assert (Hm : l1 - l2 = deep * (q1 - q2)) by lia.
  assert (Hlt : - deep < l1 - l2 < deep) by (unfold deep; lia).
  assert (q1 - q2 = 0); [|nia]. clearbody deep.
  destruct (Z.lt_trichotomy (q1 - q2) 0) as [?|[?|?]]; [nia|done|nia].
Qed.

(** The generation of a deep level counts the turns of its group: it changes in
    the windows congruent to its phase. *)
Lemma refreshGeneration_deep side level now :
  best <= level < Levels s -> 0 <= UnixSec now < max_int64 ->
  refreshGeneration s side level now =
    let phase := rotation side level / count in
    if refresh_window now <? phase then 0
    else (refresh_window now - phase) / groups + 1.
Proof.
  intros Hl Hnow. unfold refreshGeneration.
  assert (Hz : IsZero now = false).
  { unfold IsZero, zero_time. apply Z.eqb_neq. intros ->. unfold UnixSec, Second in Hnow.
    rewrite Z.div_mul in Hnow by lia. lia. }
  rewrite Hz, (proj2 (Z.leb_gt _ 0)) by done. cbn [orb]. fold best.
  rewrite (proj2 (Z.ltb_ge level best)) by lia.
  pose proof (EffectiveBestLevels_range s ltac:(lia)) as Hb. fold best in Hb.
  unfold MaxStrategyLevels in Hlevels.
  assert (Hd0 : 0 < deep) by lia.
  assert (Hd : (Levels s -i best)%go = deep) by (unfold deep; wrap_simpl; lia).
  rewrite Hd, (proj2 (Z.leb_gt deep 0)) by done.
  pose proof (refresh_count_range Hd0) as Hc. pose proof (refresh_count_raw Hd0) as Hr.
  cbv zeta in Hr |- *. rewrite Hr.
  assert (Hg : ((deep +i count -i 1) /i count)%go = groups).
  { wrap_simpl. apply go_quot_nonneg; unfold max_int64; lia. }
  rewrite Hg.
  assert (Hrot : (if String.eqb side Sell && (1 <? deep)
    then ((level -i best) +i deep /i 2) %i deep else level -i best)%go = rotation side level).
  { unfold rotation. fold best deep.
    rewrite (go_quot_nonneg deep 2) by (unfold max_int64; lia).
    pose proof (Z.div_le_upper_bound deep 2 deep ltac:(lia) ltac:(lia)).
    pose proof (Z.div_pos deep 2 ltac:(lia) ltac:(lia)).
    wrap_simpl. destruct (_ && _); [|done]. apply Z.rem_mod_nonneg; lia. }
  rewrite Hrot. pose proof (rotation_range side level Hl) as Hrr.
  rewrite (go_quot_nonneg (rotation side level) count) by (unfold max_int64; lia).
  pose proof (Z.div_pos (rotation side level) count ltac:(lia) ltac:(lia)) as Hp.
  pose proof (Z.div_le_upper_bound (rotation side level) count deep ltac:(lia) ltac:(nia)) as Hp'.
  assert (Hes : 0 < EffectiveQuoteRefreshSeconds s).
  { unfold EffectiveQuoteRefreshSeconds. by rewrite (proj2 (Z.ltb_lt 0 _)). }
  rewrite (go_quot_nonneg (UnixSec now)) by (first [done|lia]). fold (refresh_window now).
  assert (Hw : 0 <= refresh_window now < max_int64).
  { unfold refresh_window. split; [apply Z.div_pos; lia|].
    apply Z.div_lt_upper_bound; [done|]. unfold max_int64 in *. nia. }
  destruct (refresh_window now <? rotation side level / count) eqn:E; [reflexivity|]. apply Z.ltb_ge in E.
  assert (Hgr : 0 < groups) by (unfold groups; apply Z.div_str_pos; lia).
  unfold max_int64 in Hw. wrap_simpl.
  rewrite go_quot_nonneg by (unfold max_int64; lia).
  pose proof (Z.div_pos (refresh_window now - rotation side level / count) groups ltac:(lia) Hgr).
  pose proof (Z.div_le_upper_bound (refresh_window now - rotation side level / count) groups
    (refresh_window now) Hgr ltac:(nia)).
  apply wrap64_id. unfold in_int64, min_int64, max_int64. lia.
Qed.
Lemma phase_range side level :
  best <= level < Levels s -> 0 <= rotation side level / count < groups.
Proof.
  intros Hl. pose proof (rotation_range side level Hl) as Hr.
  assert (Hd : 0 < deep) by lia. pose proof (refresh_count_range Hd) as Hc.
  split; [apply Z.div_pos; lia|]. unfold groups.
  replace (deep + count - 1) with (deep - 1 + 1 * count) by lia.
  rewrite Z.div_add by lia. apply Z.lt_succ_r, Z.div_le_mono; lia.
Qed.

(** A generation changes only in the windows congruent to the phase of its group. *)
Lemma generation_step w p g :
  0 <= w -> 0 <= p < g ->
  (if w <? p then 0 else (w - p) / g + 1) <> (if w + 1 <? p then 0 else (w + 1 - p) / g + 1) ->
  p = (w + 1) mod g.
Proof.
  intros Hw Hp Hne.
  assert (Hm : (w + 1 - p) mod g = 0).
  { destruct (w + 1 <? p) eqn:E1; destruct (w <? p) eqn:E; [done|lia| |].
    - replace (w + 1 - p) with 0 by lia. apply Z.mod_0_l. lia.
    - apply Z.ltb_ge in E, E1. pose proof (Z.div_mod (w - p) g ltac:(lia)) as H0.
      pose proof (Z.mod_pos_bound (w - p) g ltac:(lia)) as Hb.
      destruct (Z.eq_dec ((w - p) mod g) (g - 1)) as [Hg|Hg].
      + replace (w + 1 - p) with ((1 + (w - p) / g) * g) by lia. apply Z.mod_mul. lia.
      + exfalso. apply Hne. f_equal.
        apply (Z.div_unique_pos (w + 1 - p) g _ ((w - p) mod g + 1)); lia. }
  apply Z.div_exact in Hm; [|lia].
  apply (Z.mod_unique_pos _ _ ((w + 1 - p) / g)); lia.
Qed.

Definition deep_levels : list Z := seqZ best deep.

Lemma elem_of_deep_levels level : level ∈ deep_levels <-> best <= level < Levels s.
Proof. unfold deep_levels. rewrite elem_of_seqZ. unfold deep. lia. Qed.

(** The levels of a side whose generation changes from one window to the next. *)
Definition refreshed (side : Side) (now now' : Time) : list Z :=
  filter (fun l => refreshGeneration s side l now <> refreshGeneration s side l now')
    deep_levels.

Lemma refreshed_bound side now now' :
  0 <= UnixSec now < max_int64 -> 0 <= UnixSec now' < max_int64 ->
  refresh_window now' = refresh_window now + 1 ->
  Z.of_nat (length (refreshed side now now')) <= count.
Proof.
  intros Hn Hn' Hw. destruct (Z.le_gt_cases deep 0) as [Hd|Hd].
  { unfold refreshed, deep_levels. rewrite seqZ_nil by done. simpl.
    unfold count, RefreshOrdersPerCycle. by rewrite (proj2 (Z.leb_le deep 0)). }
  pose proof (refresh_count_range Hd) as Hc.
  set (p := refresh_window now' mod groups).
  assert (Hin : forall l, l ∈ refreshed side now now' -> best <= l < Levels s
    /\ p * count <= rotation side l < p * count + count).
  { intros l [Hne Hl%elem_of_deep_levels]%list_elem_of_filter. split; [done|].
    rewrite !refreshGeneration_deep in Hne by done. cbv zeta in Hne. rewrite Hw in Hne.
    pose proof (phase_range side l Hl) as Hp.
    apply generation_step in Hne; [|apply Z.div_pos; [lia|]|done].
    2:{ unfold EffectiveQuoteRefreshSeconds. by rewrite (proj2 (Z.ltb_lt 0 _)). }
    rewrite <- Hw in Hne. fold p in Hne. rewrite <- Hne.
    pose proof (Z.div_mod (rotation side l) count ltac:(lia)).
    pose proof (Z.mod_pos_bound (rotation side l) count ltac:(lia)). lia. }
  assert (Hle : (length (map (rotation side) (refreshed side now now'))
                 <= length (seqZ (p * count) count))%nat).
  { apply submseteq_length, NoDup_submseteq.
    - apply NoDup_fmap_2_strong; [|apply NoDup_filter, NoDup_seqZ].
      intros l1 l2 H1 H2. apply rotation_inj; by apply Hin.
    - intros x (l & -> & Hl)%list_elem_of_fmap. apply elem_of_seqZ. by apply Hin. }
  rewrite length_map, length_seqZ in Hle. lia.
Qed.

(** Inside one window nothing is refreshed. *)
Lemma refreshed_same_window side now now' :
  0 <= UnixSec now < max_int64 -> 0 <= UnixSec now' < max_int64 ->
  refresh_window now' = refresh_window now -> refreshed side now now' = [].
Proof.
  intros Hn Hn' Hw. unfold refreshed.
  assert (Hf : Forall (fun l => ~ refreshGeneration s side l now
      <> refreshGeneration s side l now') deep_levels).
  { apply Forall_forall. intros l Hl%elem_of_deep_levels Hne. apply Hne.
    rewrite !refreshGeneration_deep by done. by rewrite Hw. }
  induction Hf as [|l ls Hl _ IH]; [done|]. by rewrite filter_cons_False.
Qed.
End Stagger.

(** ** Properties of the quote generator *)

(** C27: generating the quotes never panics, whatever the reference price, the inventory
    and the clock, provided that: the configuration is accepted, the venue enabled and
    the instrument and its market listed in it; the widest spread of the strategy,
    [HalfSpreadBPS + (Levels - 1) * LevelSpacingBPS], fits 64 bits and the inventory skew
    is at most 10000 basis points (an accepted configuration need not satisfy either:
    [GenerateAt_panics_on_overflow], [GenerateAt_panics_on_skew]); and the best ask of the
    book, if it has one, is at least one tick ([GenerateAt_panics_below_tick]). *)
Theorem GenerateAt_no_panic `{MapRange} c name v i m ref book inventory now wall :
  Validate c = Ret tt -> Venues c !! name = Some v -> venue_Enabled v = true ->
  i ∈ Instruments c -> Markets v !! ID i = Some m ->
  HalfSpreadBPS (Strategy i) + (Levels (Strategy i) - 1) * LevelSpacingBPS (Strategy i) <= max_int64 ->
  InventorySkewBPS (Strategy i) <= 10000 ->
  (HasAsk book = true -> rat (PriceTick m) <= rat (AskPrice book))%Q ->
  no_panic (GenerateAt i name m ref book inventory now wall).
Proof.
  rewrite Validate_iff. intros Hc Hv He Hi Hm Hsp Hsk Hb. eapply post_no_panic, GenerateAt_post.
  by apply (Valid_generate_pre c name v).
Qed.

(** C28: for a listed instrument and its market on an enabled venue of an accepted
    configuration whose widest spread ([HalfSpreadBPS + (Levels - 1) * LevelSpacingBPS])
    fits 64 bits and whose inventory skew is at most 10000 basis points, and for a book
    whose best ask, if any, is at least one tick: a ladder that is generated has, in
    order, one buy and one sell quote for every configured level; prices move strictly
    away from the market with the level, and every buy is strictly below every sell, so
    the ladder never crosses itself; and every quote is on the grid of prices and of
    quantities, positive, and strictly off the other side of the book. *)
Theorem GenerateAt_ladder `{MapRange} c name v i m ref book inventory now wall qs :
  Validate c = Ret tt -> Venues c !! name = Some v -> venue_Enabled v = true ->
  i ∈ Instruments c -> Markets v !! ID i = Some m ->
  HalfSpreadBPS (Strategy i) + (Levels (Strategy i) - 1) * LevelSpacingBPS (Strategy i) <= max_int64 ->
  InventorySkewBPS (Strategy i) <= 10000 ->
  (HasAsk book = true -> rat (PriceTick m) <= rat (AskPrice book))%Q ->
  GenerateAt i name m ref book inventory now wall = Ret qs ->
  map quote_key qs = quote_keys (Levels (Strategy i))
  /\ length qs = Z.to_nat (2 * Levels (Strategy i))
  /\ ladder_sorted qs /\ Forall (quote_ok (Strategy i) m book) qs.
Proof.
  rewrite Validate_iff. intros Hc Hv He Hi Hm Hsp Hsk Hb Hq.
  assert (Hpre : generate_pre (Strategy i) m book) by by apply (Valid_generate_pre c name v).
  pose proof (GenerateAt_post i name m ref book inventory now wall Hpre) as H'.
  destruct (post_ret _ _ _ H' Hq) as (Hk & Hall & Hs). split_and!; [done| |done|done].
  rewrite <- (length_map quote_key), Hk. apply length_quote_keys. apply (pre_levels _ _ _ Hpre).
Qed.

(** Every generated quote is on the price grid with a positive price and a
    positive quantity on the quantity grid, stays post-only against the book it
    was generated from, and, when sized by notional, keeps its value inside the
    configured and the exchange's notional range and its quantity inside the
    exchange's limits. *)
Theorem GenerateAt_quotes i venueName market ref book inventory now wall qs q :
  generate_pre (Strategy i) market book ->
  GenerateAt i venueName market ref book inventory now wall = Ret qs -> q ∈ qs ->
  quote_ok (Strategy i) market book q.
Proof.
  intros Hpre Hq Hin. pose proof (GenerateAt_post i venueName market ref book inventory now wall Hpre) as H.
  destruct (post_ret _ _ _ H Hq) as (_ & Hqs & _). by eapply Forall_flip.
Qed.

(** The random move a quote may get, whatever the hash, leaves its price
    positive, on the grid, and within the reprice threshold of the price it
    started from. *)
Theorem price_jitter_bounded price tick configured thr limit id venueName symbol side level g :
  (0 < rat price)%Q -> (0 < rat tick)%Q -> configured < 2 ^ 62 ->
  boundedJitterTicks price tick configured thr = Ret limit ->
  let moved := applyPriceJitter price tick
    (stableJitterTicks id venueName symbol side level g limit) in
  (0 < rat moved)%Q /\ (is_multiple price tick -> is_multiple moved tick)
  /\ (10000 * Qabs (rat moved - rat price) <= rat price * inject_Z (Z.max 0 thr))%Q.
Proof.
  intros Hp Ht Hcf Hl moved.
  pose proof (post_ret _ _ _ (boundedJitterTicks_post price tick configured thr) Hl) as [Hr Hc].
  pose proof (stableJitterTicks_range id venueName symbol side level g limit ltac:(lia)) as Hj.
  unfold moved. set (j := stableJitterTicks _ _ _ _ _ _ _) in *. clearbody j.
  split_and!; [|apply applyPriceJitter_multiple|]; rewrite rat_applyPriceJitter.
  - destruct Hc as [->|[_ Hlt]].
    { assert (j = 0) as -> by lia. change (inject_Z 0) with 0%Q. lra. }
    destruct Hj as [Hj _]. apply inject_Z_le in Hj. rewrite inject_Z_opp in Hj.
    apply (Qmult_le_compat_r _ _ (rat tick)) in Hj; lra.
  - assert (Hthr : (0 <= rat price * inject_Z (Z.max 0 thr))%Q).
    { apply Qmult_le_0_compat; [lra|]. apply (inject_Z_le 0). lia. }
    assert (Hs : (rat price + rat tick * inject_Z j - rat price == rat tick * inject_Z j)%Q) by ring.
    rewrite Hs. clear Hs.
    destruct Hc as [->|[Hle _]].
    { assert (j = 0) as -> by lia. change (inject_Z 0) with 0%Q.
      assert (Hz : (rat tick * 0 == 0)%Q) by ring. rewrite Hz. done. }
    destruct Hj as [Hj1 Hj2]. apply inject_Z_le in Hj1, Hj2. rewrite inject_Z_opp in Hj1.
    apply (Qmult_le_compat_r _ _ (rat tick)) in Hj1, Hj2; try lra.
    assert (Ha : (Qabs (rat tick * inject_Z j) <= rat tick * inject_Z limit)%Q)
      by (apply Qabs_Qle_condition; split; lra).
    assert (Hm : (rat price * inject_Z thr <= rat price * inject_Z (Z.max 0 thr))%Q).
    { rewrite (Qmult_comm _ (inject_Z thr)), (Qmult_comm _ (inject_Z (Z.max 0 thr))).
      apply Qmult_le_compat_r; [apply inject_Z_le; lia|lra]. }
    lra.
Qed.

(** The refresh of the deep levels is staggered: from one refresh window to
    the next at most the configured share of a side's deep levels gets a new
    generation (a new size and jitter), and inside a window none does. *)
Theorem refresh_staggered s side now now' :
  0 < QuoteRefreshSeconds s -> 1 <= Levels s <= MaxStrategyLevels ->
  QuoteRefreshRatioBPS s <= 10000 ->
  0 <= UnixSec now < max_int64 -> 0 <= UnixSec now' < max_int64 ->
  (refresh_window s now' = refresh_window s now + 1 ->
     Z.of_nat (length (refreshed s side now now'))
       <= RefreshOrdersPerCycle s (Levels s - EffectiveBestLevels s))
  /\ (refresh_window s now' = refresh_window s now -> refreshed s side now now' = []).
Proof. split; intros; [by apply refreshed_bound|by apply refreshed_same_window]. Qed.

(** ** Inputs that make the generator panic *)

Definition ex_thin_book : Book :=
  MkBook "binance" "ABCUSDT" Zero Zero (dec_of 1 1000) (dec_of 1 1) (10 ^ 18).

(** With an accepted configuration the generator panics on a book whose best
    ask is below one tick: the bound [ask - tick] is negative, and
    [QuantizeDown] panics on it. *)
Theorem GenerateAt_panics_below_tick :
  @Validate sorted_range (ex_config ex_strategy) = Ret tt
  /\ panics (GenerateAt (ex_instrument ex_strategy) "binance" ex_market ex_ref ex_thin_book
       (dec_of 110 1) (10 ^ 18) (10 ^ 18)) = true.
Proof. split; vm_compute; reflexivity. Qed.

Definition ex_skewed_strategy : StrategyConfig :=
  MkStrategyConfig 20 10 5 Zero (dec_of 10 1) (dec_of 50 1) 30 500 500 1000
    (dec_of 100 1) (dec_of 50 1) 20000 45 1000 30 300 3 8 2 3 90.

(** An accepted configuration may skew by more than 10000 basis points; with a
    full inventory the mid price becomes negative and the generator panics. *)
Theorem GenerateAt_panics_on_skew :
  @Validate sorted_range (ex_config ex_skewed_strategy) = Ret tt
  /\ panics (GenerateAt (ex_instrument ex_skewed_strategy) "binance" ex_market ex_ref ex_book
       (dec_of 200 1) (10 ^ 18) (10 ^ 18)) = true.
Proof. split; vm_compute; reflexivity. Qed.

(** A widest spread of more than 64 bits is accepted, and the quotes of the level whose
    spread has no room below the mid price make the generator panic. *)
Theorem GenerateAt_panics_on_overflow :
  @Validate sorted_range (ex_config ex_overflow_strategy) = Ret tt
  /\ panics (GenerateAt (ex_instrument ex_overflow_strategy) "binance" ex_market ex_ref ex_book
       (dec_of 110 1) (10 ^ 18) (10 ^ 18)) = true.
Proof. split; vm_compute; reflexivity. Qed.

(** ** Witnesses *)

Definition ret_or {A} (d : A) (c : go A) : A := match c with Ret a => a | _ => d end.

Definition ex_ladder : list Quote := ret_or [] ex_quotes.

Lemma ex_ladder_ret : GenerateAt (ex_instrument ex_strategy) "binance" ex_market ex_ref ex_book
  (dec_of 110 1) (10 ^ 18) (10 ^ 18) = Ret ex_ladder.
Proof. vm_compute. reflexivity. Qed.

Lemma ex_book_ok : book_ok (PriceTick ex_market) ex_book.
Proof. intros _. by vm_compute. Qed.

Lemma ex_generate_pre : generate_pre (Strategy (ex_instrument ex_strategy)) ex_market ex_book.
Proof.
  apply (Valid_generate_pre (ex_config ex_strategy) "binance" ex_venue);
    [|done|done|by left|done|by vm_compute|by vm_compute|exact ex_book_ok].
  apply (@Validate_iff sorted_range). exact ex_config_valid.
Qed.

Lemma GenerateAt_no_panic_witness :
  no_panic (GenerateAt (ex_instrument ex_strategy) "binance" ex_market ex_ref ex_book
    (dec_of 110 1) (10 ^ 18) (10 ^ 18)).
Proof.
  apply (@GenerateAt_no_panic sorted_range (ex_config ex_strategy) "binance" ex_venue);
    [exact ex_config_valid|done|done|by left|done|by vm_compute|by vm_compute|exact ex_book_ok].
Defined.

Lemma GenerateAt_ladder_witness :
  map quote_key ex_ladder = quote_keys (Levels (Strategy (ex_instrument ex_strategy)))
  /\ length ex_ladder = Z.to_nat (2 * Levels (Strategy (ex_instrument ex_strategy)))
  /\ ladder_sorted ex_ladder
  /\ Forall (quote_ok (Strategy (ex_instrument ex_strategy)) ex_market ex_book) ex_ladder.
Proof.
  apply (@GenerateAt_ladder sorted_range (ex_config ex_strategy) "binance" ex_venue
    (ex_instrument ex_strategy) ex_market ex_ref ex_book (dec_of 110 1) (10 ^ 18) (10 ^ 18));
    [exact ex_config_valid|done|done|by left|done|by vm_compute|by vm_compute|exact ex_book_ok
    |exact ex_ladder_ret].
Defined.

Lemma GenerateAt_quotes_witness :
  exists q, quote_key q = (Sell, 4) /\ quote_ok (Strategy (ex_instrument ex_strategy)) ex_market ex_book q.
Proof.
  assert (Hl : exists q, last ex_ladder = Some q /\ quote_key q = (Sell, 4)).
  { eexists. split; vm_compute; reflexivity. }
  destruct Hl as (q & Hl & Hk). exists q. split; [exact Hk|].
  apply (GenerateAt_quotes _ "binance" ex_market ex_ref ex_book (dec_of 110 1) (10 ^ 18) (10 ^ 18)
    ex_ladder); [exact ex_generate_pre|exact ex_ladder_ret|].
  apply last_Some_elem_of, Hl.
Defined.

Lemma price_jitter_bounded_witness :
  let moved := applyPriceJitter (dec_of 100 1) (dec_of 1 100)
    (stableJitterTicks "abc-usdt" "binance" "ABCUSDT" Buy 2 7 2) in
  (0 < rat moved)%Q /\ (is_multiple (dec_of 100 1) (dec_of 1 100) -> is_multiple moved (dec_of 1 100))
  /\ (10000 * Qabs (rat moved - rat (dec_of 100 1))
      <= rat (dec_of 100 1) * inject_Z (Z.max 0 30))%Q.
Proof.
  apply (price_jitter_bounded (dec_of 100 1) (dec_of 1 100) 2 30 2); by vm_compute.
Defined.

Lemma refresh_staggered_witness :
  (refresh_window ex_strategy (Second * 90) = refresh_window ex_strategy (Second * 45) + 1 ->
     Z.of_nat (length (refreshed ex_strategy Sell (Second * 45) (Second * 90)))
       <= RefreshOrdersPerCycle ex_strategy (Levels ex_strategy - EffectiveBestLevels ex_strategy))
  /\ (refresh_window ex_strategy (Second * 90) = refresh_window ex_strategy (Second * 45) ->
        refreshed ex_strategy Sell (Second * 45) (Second * 90) = []).
Proof. apply refresh_staggered; vm_compute; repeat split; congruence. Defined.
