(* ===== verification/Risk.v ===== *)
(** Risk controls (src/internal/risk): the balance budget (budget.go), the check
    of the venue book against the reference price (market.go), and the last
    filter before quotes reach the order management (risk.go).

    [FilterQuotes] reads the clock once for the age of the book and once per
    quote; [since] is the first reading and [clock k] the reading at quote [k]. *)
From S2P Require Import Prelude Decimal DecimalText Domain Config Strategy.

Open Scope string_scope.
Open Scope Z_scope.
Open Scope list_scope.

(** ** Balance budget *)

(** The body of the loop over the managed orders: capital their open part holds. *)
Definition commitOrder (acc : Decimal * Decimal) (o : Order) : Decimal * Decimal :=
  let '(baseCommitted, quoteCommitted) := acc in
  let remaining := Sub (order_Quantity o) (ExecutedQty o) in
  if Sign remaining <=? 0 then acc
  else if String.eqb (order_Side o) Sell then (Add baseCommitted remaining, quoteCommitted)
  else if String.eqb (order_Side o) Buy
  then (baseCommitted, Add quoteCommitted (Mul (order_Price o) remaining))
  else acc.

Definition requireQuote (acc : Decimal * Decimal) (q : Quote) : Decimal * Decimal :=
  let '(baseRequired, quoteRequired) := acc in
  if String.eqb (quote_Side q) Sell then (Add baseRequired (quote_Quantity q), quoteRequired)
  else if String.eqb (quote_Side q) Buy
  then (baseRequired, Add quoteRequired (Mul (quote_Price q) (quote_Quantity q)))
  else acc.

(** The state of the selection loop. *)
Record Selection := MkSelection {
  usedBase : Decimal;
  usedQuote : Decimal;
  sel_BaseLimited : bool;
  sel_QuoteLimited : bool;
  eligible : list Quote
}.

Definition selectQuote (baseBudget quoteBudget : Decimal) (st : Selection) (q : Quote)
    : Selection :=
  if String.eqb (quote_Side q) Sell then
    let next := Add (usedBase st) (quote_Quantity q) in
    if 0 <? Cmp next baseBudget
    then MkSelection (usedBase st) (usedQuote st) true (sel_QuoteLimited st) (eligible st)
    else MkSelection next (usedQuote st) (sel_BaseLimited st) (sel_QuoteLimited st)
           (eligible st ++ [q])
  else if String.eqb (quote_Side q) Buy then
    let next := Add (usedQuote st) (Mul (quote_Price q) (quote_Quantity q)) in
    if 0 <? Cmp next quoteBudget
    then MkSelection (usedBase st) (usedQuote st) (sel_BaseLimited st) true (eligible st)
    else MkSelection (usedBase st) next (sel_BaseLimited st) (sel_QuoteLimited st)
           (eligible st ++ [q])
  else st.

Definition clampReserve (reserveBPS : Z) : Z :=
  let reserveBPS := if reserveBPS <? 0 then 0 else reserveBPS in
  if 10000 <? reserveBPS then 10000 else reserveBPS.

Definition capBudget (budget maximum : Decimal) : Decimal :=
  if IsPositive maximum then DMin budget maximum else budget.

Definition ApplyBalanceBudget (quotes : list Quote) (managed : list Order)
    (baseFree quoteFree : Decimal) (reserveBPS : Z) (maxBase maxQuote : Decimal)
    : go (list Quote * QuoteBudget) :=
  let reserveBPS := clampReserve reserveBPS in
  let committed := foldl commitOrder (FromInt64 0, FromInt64 0) managed in
  let baseFree := if Sign baseFree <? 0 then FromInt64 0 else baseFree in
  let quoteFree := if Sign quoteFree <? 0 then FromInt64 0 else quoteFree in
  factor ← Div (FromInt64 (10000 - reserveBPS)) TenThousand;
  let baseBudget := capBudget (Mul (Add baseFree (fst committed)) factor) maxBase in
  let quoteBudget := capBudget (Mul (Add quoteFree (snd committed)) factor) maxQuote in
  let required := foldl requireQuote (Zero, Zero) quotes in
  let st := foldl (selectQuote baseBudget quoteBudget)
              (MkSelection (FromInt64 0) (FromInt64 0) false false []) quotes in
  Ret (eligible st,
       MkQuoteBudget reserveBPS (Z.of_nat (length quotes)) (Z.of_nat (length (eligible st)))
         baseBudget (fst required) quoteBudget (snd required)
         (sel_BaseLimited st) (sel_QuoteLimited st)).

Definition ApplyOrderLimit (quotes : list Quote) (currentOrders managedOrders maxOpenOrders : Z)
    : list Quote :=
  if maxOpenOrders <=? 0 then quotes else
  let unmanaged := (currentOrders -i managedOrders)%go in
  let unmanaged := if unmanaged <? 0 then 0 else unmanaged in
  let available := (maxOpenOrders -i unmanaged)%go in
  let available := if available <? 0 then 0 else available in
  if Z.of_nat (length quotes) <=? available then quotes else
  let available := if negb (Z.rem available 2 =? 0) then available - 1 else available in
  take (Z.to_nat available) quotes.

(** ** Reference check *)

Definition ValidateMarketReference (ref : ReferencePrice) (book : Book) (s : StrategyConfig)
    : go unit :=
  if negb (IsPositive (ref_Price ref)) then Err (Errorf "invalid reference price")
  else if negb (TwoSided book) then Ret tt
  else if 0 <=? Cmp (BidPrice book) (AskPrice book) then Err (Errorf "crossed venue book")
  else
  mid ← Div (Add (BidPrice book) (AskPrice book)) (FromInt64 2);
  (if 0 <? MaxVenueReferenceDeviationBPS s then
     ratio ← Div (Abs (Sub mid (ref_Price ref))) (ref_Price ref);
     let deviation := Mul ratio TenThousand in
     fail_if (0 <? Cmp deviation (FromInt64 (MaxVenueReferenceDeviationBPS s)))
       (Errorf ("venue/reference deviation " +:+ String_ deviation +:+ " bps exceeds "
          +:+ pretty (MaxVenueReferenceDeviationBPS s)))
   else Ret tt) ;;
  (if 0 <? MaxVenueSpreadBPS s then
     ratio ← Div (Sub (AskPrice book) (BidPrice book)) mid;
     let spread := Mul ratio TenThousand in
     fail_if (0 <? Cmp spread (FromInt64 (MaxVenueSpreadBPS s)))
       (Errorf ("venue spread " +:+ String_ spread +:+ " bps exceeds "
          +:+ pretty (MaxVenueSpreadBPS s)))
   else Ret tt).

(** ** The last filter *)

(** The checks of one quote, in the order of the source. *)
Definition checkQuote (market : VenueMarketConfig) (book : Book) (now : Time) (q : Quote)
    : go unit :=
  fail_if (After now (quote_ValidUntil q)) (Errorf "quote reference expired") ;;
  fail_if (HasAsk book && String.eqb (quote_Side q) Buy
           && (0 <=? Cmp (quote_Price q) (AskPrice book)))
    (Errorf "buy quote would take liquidity") ;;
  fail_if (HasBid book && String.eqb (quote_Side q) Sell
           && (Cmp (quote_Price q) (BidPrice book) <=? 0))
    (Errorf "sell quote would take liquidity") ;;
  fail_if (Cmp (Mul (quote_Price q) (quote_Quantity q)) (MinNotional market) <? 0)
    (Errorf "quote below minimum notional") ;;
  fail_if (IsPositive (MinQuantity market) && (Cmp (quote_Quantity q) (MinQuantity market) <? 0))
    (Errorf "quote below exchange minimum quantity") ;;
  fail_if (IsPositive (MaxQuantity market) && (0 <? Cmp (quote_Quantity q) (MaxQuantity market)))
    (Errorf "quote above exchange maximum quantity") ;;
  fail_if (IsPositive (MaxNotional market)
           && (0 <? Cmp (Mul (quote_Price q) (quote_Quantity q)) (MaxNotional market)))
    (Errorf "quote above exchange maximum notional") ;;
  fail_if (IsPositive (MinPrice market) && (Cmp (quote_Price q) (MinPrice market) <? 0))
    (Errorf "quote below exchange minimum price") ;;
  fail_if (IsPositive (MaxPrice market) && (0 <? Cmp (quote_Price q) (MaxPrice market)))
    (Errorf "quote above exchange maximum price").

(** A side that would push the inventory further out of its band is dropped. *)
Definition inventoryBlocks (s : StrategyConfig) (deviation : Decimal) (q : Quote) : bool :=
  IsPositive (MaxBaseDeviation s)
  && (((0 <=? Cmp deviation (MaxBaseDeviation s)) && String.eqb (quote_Side q) Buy)
      || ((Cmp deviation (Neg (MaxBaseDeviation s)) <=? 0) && String.eqb (quote_Side q) Sell)).

Fixpoint filterLoop (s : StrategyConfig) (market : VenueMarketConfig) (book : Book)
    (deviation : Decimal) (clock : nat -> Time) (k : nat) (quotes : list Quote)
    : go (list Quote) :=
  match quotes with
  | [] => Ret []
  | q :: quotes' =>
      checkQuote market book (clock k) q ;;
      rest ← filterLoop s market book deviation clock (S k) quotes';
      Ret (if inventoryBlocks s deviation q then rest else q :: rest)
  end.

Definition selfCross (result : list Quote) : bool :=
  existsb (fun a => existsb (fun b =>
    String.eqb (quote_Side a) Buy && String.eqb (quote_Side b) Sell
    && (0 <=? Cmp (quote_Price a) (quote_Price b))) result) result.

Definition FilterQuotes (i : InstrumentConfig) (market : VenueMarketConfig) (book : Book)
    (inventory : Decimal) (quotes : list Quote) (since : Time) (clock : nat -> Time)
    : go (list Quote) :=
  fail_if (HasPrices book && (IsZero (book_Timestamp book)
             || (30 * Second <? TimeSub since (book_Timestamp book))))
    (Errorf "venue book is stale") ;;
  let deviation := Sub inventory (TargetBase (Strategy i)) in
  result ← filterLoop (Strategy i) market book deviation clock 0 quotes;
  fail_if (selfCross result) (Errorf "target quotes self-cross") ;;
  fail_if (length result =? 0)%nat
    (Errorf "all quote sides blocked by inventory limits") ;;
  Ret result.

(** ** The budget loop *)

(** What a list of quotes would lock: base quantity of the sells, quote amount of
    the buys. *)
Definition sell_quantity (qs : list Quote) : Q :=
  foldr (fun q acc => (if String.eqb (quote_Side q) Sell then rat (quote_Quantity q) else 0) + acc)%Q
    0%Q qs.
Definition buy_value (qs : list Quote) : Q :=
  foldr (fun q acc => (if String.eqb (quote_Side q) Buy
    then rat (quote_Price q) * rat (quote_Quantity q) else 0) + acc)%Q 0%Q qs.

Lemma sell_quantity_app a b : (sell_quantity (a ++ b) == sell_quantity a + sell_quantity b)%Q.
Proof. induction a as [|q a IH]; simpl; [ring|]. rewrite IH. ring. Qed.
Lemma buy_value_app a b : (buy_value (a ++ b) == buy_value a + buy_value b)%Q.
Proof. induction a as [|q a IH]; simpl; [ring|]. rewrite IH. ring. Qed.

Lemma side_cases (q : Quote) :
  (quote_Side q = Sell /\ String.eqb (quote_Side q) Sell = true
     /\ String.eqb (quote_Side q) Buy = false)
  \/ (quote_Side q = Buy /\ String.eqb (quote_Side q) Sell = false
     /\ String.eqb (quote_Side q) Buy = true)
  \/ (quote_Side q <> Sell /\ quote_Side q <> Buy /\ String.eqb (quote_Side q) Sell = false
     /\ String.eqb (quote_Side q) Buy = false).
Proof.
  destruct (String.eqb (quote_Side q) Sell) eqn:E1.
  - apply String.eqb_eq in E1. left. by rewrite E1.
  - right. apply String.eqb_neq in E1. destruct (String.eqb (quote_Side q) Buy) eqn:E2.
    + left. by apply String.eqb_eq in E2.
    + right. apply String.eqb_neq in E2. done.
Qed.

(** One step adds the quote and its cost, or sets the flag of its side. *)
Definition selected (bb qb : Decimal) (st : Selection) (q : Quote) (st' : Selection) : Prop :=
  exists l, l `sublist_of` [q] /\ eligible st' = eligible st ++ l
  /\ (rat (usedBase st') == rat (usedBase st) + sell_quantity l)%Q
  /\ (rat (usedQuote st') == rat (usedQuote st) + buy_value l)%Q
  /\ (rat (usedBase st') <= rat (usedBase st) \/ rat (usedBase st') <= rat bb)%Q
  /\ (rat (usedQuote st') <= rat (usedQuote st) \/ rat (usedQuote st') <= rat qb)%Q.

Lemma selectQuote_selected bb qb st q : selected bb qb st q (selectQuote bb qb st q).
Proof.
  unfold selected, selectQuote.
  destruct (side_cases q) as [(_ & Es & Eb)|[(_ & Es & Eb)|(_ & _ & Es & Eb)]]; rewrite Es, ?Eb.
  - cbv zeta. destruct (0 <? _) eqn:E; simpl; dec_hyps.
    + exists []. rewrite app_nil_r. split_and!; [apply sublist_nil_l|done|simpl; lra..|left; lra|left; lra].
    + exists [q]. simpl. rewrite Es, Eb. dec_norm.
      split_and!; [done|done|lra|lra|right; lra|left; lra].
  - cbv zeta. destruct (0 <? _) eqn:E; simpl; dec_hyps.
    + exists []. rewrite app_nil_r. split_and!; [apply sublist_nil_l|done|simpl; lra..|left; lra|left; lra].
    + exists [q]. simpl. rewrite Es, Eb. dec_norm.
      split_and!; [done|done|lra|lra|left; lra|right; lra].
  - exists []. rewrite app_nil_r. simpl. split_and!; [apply sublist_nil_l|done|lra|lra|left; lra|left; lra].
Qed.

Lemma selection_loop bb qb quotes st :
  let st' := foldl (selectQuote bb qb) st quotes in
  exists l, l `sublist_of` quotes /\ eligible st' = eligible st ++ l
  /\ (rat (usedBase st') == rat (usedBase st) + sell_quantity l)%Q
  /\ (rat (usedQuote st') == rat (usedQuote st) + buy_value l)%Q
  /\ (rat (usedBase st') <= rat (usedBase st) \/ rat (usedBase st') <= rat bb)%Q
  /\ (rat (usedQuote st') <= rat (usedQuote st) \/ rat (usedQuote st') <= rat qb)%Q.
Proof.
  revert st. induction quotes as [|q quotes IH]; intros st; simpl.
  { exists []. rewrite app_nil_r. simpl. split_and!; [done|done|lra|lra|left; lra|left; lra]. }
  destruct (selectQuote_selected bb qb st q) as (l1 & Hl1 & He1 & Hb1 & Hq1 & Hbb1 & Hqb1).
  destruct (IH (selectQuote bb qb st q)) as (l2 & Hl2 & He2 & Hb2 & Hq2 & Hbb2 & Hqb2).
  exists (l1 ++ l2). split_and!.
  - change (q :: quotes) with ([q] ++ quotes). by apply sublist_app.
  - by rewrite He2, He1, app_assoc.
  - rewrite Hb2, Hb1, sell_quantity_app. lra.
  - rewrite Hq2, Hq1, buy_value_app. lra.
  - destruct Hbb1, Hbb2; first [left; lra|right; lra].
  - destruct Hqb1, Hqb2; first [left; lra|right; lra].
Qed.

Definition priced (q : Quote) : Prop :=
  (quote_Side q = Buy \/ quote_Side q = Sell)
  /\ (0 <= rat (quote_Price q))%Q /\ (0 <= rat (quote_Quantity q))%Q.

Lemma sell_quantity_nonneg qs : Forall priced qs -> (0 <= sell_quantity qs)%Q.
Proof.
  induction 1 as [|q qs (_ & _ & Hq) _ IH]; simpl; [lra|]. destruct (String.eqb _ _); lra.
Qed.
Lemma buy_value_nonneg qs : Forall priced qs -> (0 <= buy_value qs)%Q.
Proof.
  induction 1 as [|q qs (_ & Hp & Hq) _ IH]; simpl; [lra|].
  pose proof (Qmult_le_0_compat _ _ Hp Hq). destruct (String.eqb _ _); lra.
Qed.

(** When both budgets cover everything, nothing is dropped. *)
Lemma selection_all bb qb quotes st :
  Forall priced quotes ->
  (rat (usedBase st) + sell_quantity quotes <= rat bb)%Q ->
  (rat (usedQuote st) + buy_value quotes <= rat qb)%Q ->
  let st' := foldl (selectQuote bb qb) st quotes in
  eligible st' = eligible st ++ quotes
  /\ sel_BaseLimited st' = sel_BaseLimited st /\ sel_QuoteLimited st' = sel_QuoteLimited st.
Proof.
  intros Hf. revert st. induction Hf as [|q quotes (Hs & Hp & Hq) Hf IH]; intros st Hb Hqv; simpl in *.
  { by rewrite app_nil_r. }
  pose proof (sell_quantity_nonneg _ Hf). pose proof (buy_value_nonneg _ Hf).
  unfold selectQuote at 2 4 6.
  destruct (side_cases q) as [(_ & Es & Eb)|[(_ & Es & Eb)|(H1 & H2 & _)]]; [| |tauto];
    rewrite Es, Eb in *; cbv zeta; destruct (0 <? _) eqn:E; try (exfalso; dec_hyps; dec_norm; lra).
  - edestruct IH as (-> & -> & ->); [| |simpl; by rewrite <- app_assoc]; simpl; dec_norm; lra.
  - edestruct IH as (-> & -> & ->); [| |simpl; by rewrite <- app_assoc]; simpl; dec_norm; lra.
Qed.

Lemma required_loop quotes acc :
  (rat (fst (foldl requireQuote acc quotes)) == rat (fst acc) + sell_quantity quotes)%Q
  /\ (rat (snd (foldl requireQuote acc quotes)) == rat (snd acc) + buy_value quotes)%Q.
Proof.
  revert acc. induction quotes as [|q quotes IH]; intros [a b]; simpl; [lra|].
  destruct (side_cases q) as [(_ & Es & Eb)|[(_ & Es & Eb)|(_ & _ & Es & Eb)]]; rewrite Es, Eb;
    edestruct IH as [-> ->]; simpl; dec_norm; lra.
Qed.

Lemma capBudget_le budget maximum :
  (rat (capBudget budget maximum) <= rat budget)%Q
  /\ (IsPositive maximum = true -> (rat (capBudget budget maximum) <= rat maximum)%Q).
Proof.
  unfold capBudget. destruct (IsPositive maximum).
  - split; [apply DMin_le_l|intros _; apply DMin_le_r].
  - split; [lra|done].
Qed.

(** The values of a computed budget, and the loop that used it. *)
Lemma ApplyBalanceBudget_ret quotes managed baseFree quoteFree reserve maxBase maxQuote :
  exists el b, ApplyBalanceBudget quotes managed baseFree quoteFree reserve maxBase maxQuote
      = Ret (el, b)
  /\ EligibleOrders b = Z.of_nat (length el) /\ 0 <= ReserveBPS b <= 10000
  /\ (rat (BaseRequired b) == sell_quantity quotes /\ rat (QuoteRequired b) == buy_value quotes)%Q
  /\ (IsPositive maxBase = true -> rat (BaseBudget b) <= rat maxBase)%Q
  /\ (IsPositive maxQuote = true -> rat (BudgetQuote b) <= rat maxQuote)%Q
  /\ let st := foldl (selectQuote (BaseBudget b) (BudgetQuote b))
       (MkSelection (FromInt64 0) (FromInt64 0) false false []) quotes in
     el = eligible st /\ BaseLimited b = sel_BaseLimited st /\ QuoteLimited b = sel_QuoteLimited st.
Proof.
  unfold ApplyBalanceBudget. cbv zeta.
  rewrite Div_Ret by (rewrite rat_TenThousand; lra). cbn [mbind go_bind].
  do 2 eexists. split; [reflexivity|]. cbn [EligibleOrders ReserveBPS BaseRequired QuoteRequired
    BaseBudget BudgetQuote BaseLimited QuoteLimited].
  destruct (required_loop quotes (Zero, Zero)) as [H1 H2].
  cbn [fst snd] in H1, H2. rewrite rat_Zero in H1, H2.
  split_and!; try done.
  - unfold clampReserve. destruct (reserve <? 0) eqn:E1; destruct (10000 <? _) eqn:E2; lia.
  - unfold clampReserve. destruct (reserve <? 0) eqn:E1; destruct (10000 <? _) eqn:E2; lia.
  - rewrite H1. lra.
  - rewrite H2. lra.
  - apply capBudget_le.
  - apply capBudget_le.
Qed.

Lemma ApplyBalanceBudget_sublist quotes managed baseFree quoteFree reserve maxBase maxQuote el b :
  ApplyBalanceBudget quotes managed baseFree quoteFree reserve maxBase maxQuote = Ret (el, b) ->
  el `sublist_of` quotes.
Proof.
  destruct (ApplyBalanceBudget_ret quotes managed baseFree quoteFree reserve maxBase maxQuote)
    as (el' & b' & -> & _ & _ & _ & _ & _ & He). intros [= <- <-]. destruct He as (-> & _).
  destruct (selection_loop (BaseBudget b') (BudgetQuote b') quotes
    (MkSelection (FromInt64 0) (FromInt64 0) false false [])) as (l & Hl & -> & _). done.
Qed.

Lemma ApplyOrderLimit_sublist quotes currentOrders managedOrders maxOpenOrders :
  ApplyOrderLimit quotes currentOrders managedOrders maxOpenOrders `sublist_of` quotes.
Proof.
  unfold ApplyOrderLimit. cbv zeta.
  repeat match goal with |- context [if ?b then _ else _] => destruct b end;
    first [done | apply sublist_take].
Qed.

(** Applying the balance budget always returns; the eligible quotes are a
    sub-list of the target in the same order, the base quantity of the sells and
    the quote amount of the buys it keeps never exceed the respective budget,
    and each budget respects its configured commitment limit. *)
Theorem ApplyBalanceBudget_respects_budget quotes managed baseFree quoteFree reserve maxBase maxQuote :
  exists el b, ApplyBalanceBudget quotes managed baseFree quoteFree reserve maxBase maxQuote
      = Ret (el, b)
  /\ el `sublist_of` quotes /\ EligibleOrders b = Z.of_nat (length el)
  /\ (sell_quantity el <= 0 \/ sell_quantity el <= rat (BaseBudget b))%Q
  /\ (buy_value el <= 0 \/ buy_value el <= rat (BudgetQuote b))%Q
  /\ (IsPositive maxBase = true -> rat (BaseBudget b) <= rat maxBase)%Q
  /\ (IsPositive maxQuote = true -> rat (BudgetQuote b) <= rat maxQuote)%Q.
Proof.
  destruct (ApplyBalanceBudget_ret quotes managed baseFree quoteFree reserve maxBase maxQuote)
    as (el & b & Hr & He & _ & _ & Hmb & Hmq & Hel & _). exists el, b.
  destruct (selection_loop (BaseBudget b) (BudgetQuote b) quotes
    (MkSelection (FromInt64 0) (FromInt64 0) false false [])) as (l & Hl & Hel' & Hb & Hq & Hbb & Hqb).
  rewrite <- Hel in Hel'. simpl in Hel'. subst l. simpl in Hb, Hq, Hbb, Hqb.
  rewrite rat_FromInt64 in Hb, Hq, Hbb, Hqb. change (inject_Z 0) with 0%Q in Hb, Hq, Hbb, Hqb.
  split_and!; try done.
  - destruct Hbb; [left|right]; lra.
  - destruct Hqb; [left|right]; lra.
Qed.

(** A target the budgets can pay for in full passes unchanged and is not marked
    as limited: the budget never drops a quote without need. *)
Theorem ApplyBalanceBudget_keeps_affordable quotes managed baseFree quoteFree reserve maxBase
    maxQuote el b :
  ApplyBalanceBudget quotes managed baseFree quoteFree reserve maxBase maxQuote = Ret (el, b) ->
  Forall priced quotes ->
  (rat (BaseRequired b) <= rat (BaseBudget b))%Q -> (rat (QuoteRequired b) <= rat (BudgetQuote b))%Q ->
  el = quotes /\ BaseLimited b = false /\ QuoteLimited b = false.
Proof.
  intros Hr Hf Hb Hq.
  destruct (ApplyBalanceBudget_ret quotes managed baseFree quoteFree reserve maxBase maxQuote)
    as (el' & b' & Hr' & _ & _ & (Hbr & Hqr) & _ & _ & Hel & Hlb & Hlq).
  rewrite Hr in Hr'. injection Hr' as <- <-.
  edestruct (selection_all (BaseBudget b) (BudgetQuote b) quotes
    (MkSelection (FromInt64 0) (FromInt64 0) false false [])) as (H1 & H2 & H3); [done| | |].
  - simpl. rewrite rat_FromInt64, <- Hbr. change (inject_Z 0) with 0%Q. lra.
  - simpl. rewrite rat_FromInt64, <- Hqr. change (inject_Z 0) with 0%Q. lra.
  - rewrite Hel, Hlb, Hlq, H1, H2, H3. done.
Qed.

(** ** The order limit *)

Lemma quote_keys_app k n : 0 <= k -> 0 <= n ->
  exists rest, quote_keys (k + n) = quote_keys k ++ rest.
Proof.
  intros Hk Hn. unfold quote_keys. rewrite (seqZ_app 0 k n) by done.
  rewrite map_app, concat_app. eauto.
Qed.

Lemma take_quote_keys k n : 0 <= k <= n -> take (Z.to_nat (2 * k)) (quote_keys n) = quote_keys k.
Proof.
  intros Hk. destruct (quote_keys_app k (n - k)) as [rest Hr]; [lia..|].
  replace (k + (n - k)) with n in Hr by lia. rewrite Hr, take_app_le.
  - by rewrite take_ge; [|rewrite length_quote_keys by lia].
  - by rewrite length_quote_keys by lia.
Qed.

(** Under an exchange limit on open orders, a generated ladder is cut to its
    closest levels, always as many buys as sells, and together with the orders
    this market does not manage stays within the limit. *)
Theorem ApplyOrderLimit_balanced quotes n currentOrders managedOrders maxOpenOrders :
  0 <= managedOrders <= currentOrders -> currentOrders <= max_int64 ->
  maxOpenOrders <= max_int64 -> 0 <= n -> map quote_key quotes = quote_keys n ->
  let kept := ApplyOrderLimit quotes currentOrders managedOrders maxOpenOrders in
  exists k, 0 <= k <= n /\ kept = take (Z.to_nat (2 * k)) quotes
    /\ map quote_key kept = quote_keys k
    /\ (0 < maxOpenOrders ->
          2 * k <= Z.max 0 (maxOpenOrders - (currentOrders - managedOrders)))
    /\ (maxOpenOrders <= 0 \/ 2 * n <= maxOpenOrders - (currentOrders - managedOrders) -> k = n).
Proof.
  intros Hm Hc Hx Hn Hk. cbv zeta.
  assert (Hlen : Z.of_nat (length quotes) = 2 * n).
  { rewrite <- (length_map quote_key), Hk, length_quote_keys by lia. lia. }
  assert (Hall : take (Z.to_nat (2 * n)) quotes = quotes) by (apply take_ge; lia).
  assert (Hkeys : forall k, 0 <= k <= n ->
    map quote_key (take (Z.to_nat (2 * k)) quotes) = quote_keys k).
  { intros k Hkn. by rewrite <- firstn_map, Hk, take_quote_keys. }
  unfold ApplyOrderLimit. cbv zeta. destruct (maxOpenOrders <=? 0) eqn:E0.
  { exists n. rewrite Hall, Hk. split_and!; try done; lia. }
  unfold max_int64 in Hc, Hx. wrap_simpl.
  rewrite (proj2 (Z.ltb_ge (currentOrders - managedOrders) 0)) by lia. wrap_simpl.
  set (av := if _ <? 0 then 0 else _).
  assert (Hav : av = Z.max 0 (maxOpenOrders - (currentOrders - managedOrders))).
  { unfold av. destruct (_ <? 0) eqn:E; lia. }
  clearbody av. rewrite Hlen. destruct (2 * n <=? av) eqn:E1.
  { exists n. rewrite Hall, Hk. split_and!; try done; lia. }
  exists (av / 2).
  assert (Hhalf : (if negb (Z.rem av 2 =? 0) then av - 1 else av) = 2 * (av / 2)).
  { rewrite Z.rem_mod_nonneg by lia. pose proof (Z.div_mod av 2 ltac:(lia)).
    pose proof (Z.mod_pos_bound av 2 ltac:(lia)). destruct (av mod 2 =? 0) eqn:E2; simpl; lia. }
  apply Z.leb_gt in E0, E1. pose proof (Z.div_mod av 2 ltac:(lia)). pose proof (Z.mod_pos_bound av 2 ltac:(lia)).
  rewrite Hhalf, Hkeys by lia. split_and!; try done; lia.
Qed.

(** ** The reference check *)

(** What an accepted two-sided book satisfies, without division. *)
Definition reference_close (ref : ReferencePrice) (book : Book) (s : StrategyConfig) : Prop :=
  let mid := ((rat (BidPrice book) + rat (AskPrice book)) / 2)%Q in
  (rat (BidPrice book) < rat (AskPrice book))%Q
  /\ (0 < MaxVenueReferenceDeviationBPS s ->
        (Qabs (mid - rat (ref_Price ref)) * 10000
          <= inject_Z (MaxVenueReferenceDeviationBPS s) * rat (ref_Price ref))%Q)
  /\ (0 < MaxVenueSpreadBPS s ->
        ((rat (AskPrice book) - rat (BidPrice book)) * 10000
          <= inject_Z (MaxVenueSpreadBPS s) * mid)%Q).

Lemma ratio_within (num den : Decimal) (bound : Z) : (0 < rat den)%Q ->
  (0 <? Cmp (Mul (FromRat (rat num / rat den)) TenThousand) (FromInt64 bound)) = false
  <-> (rat num * 10000 <= inject_Z bound * rat den)%Q.
Proof.
  intros Hd. rewrite Z.ltb_ge, Cmp_le. dec_norm.
  assert (He : (rat num / rat den * 10000 * rat den == rat num * 10000)%Q) by (field; lra).
  rewrite <- He. symmetry. by apply Qmult_le_r.
Qed.

Lemma optional_check (b : bool) (c k : go unit) (P : Prop) :
  (b = true -> c = Ret tt <-> P) ->
  ((if b then c else Ret tt) ;; k) = Ret tt <-> (b = true -> P) /\ k = Ret tt.
Proof.
  intros Hc. destruct b; simpl.
  - rewrite <- (Hc eq_refl). destruct c as [[]| |]; simpl; intuition congruence.
  - intuition congruence.
Qed.

Lemma checked_ratio (num den : Decimal) (bound : Z) msg : (0 < rat den)%Q ->
  (ratio ← Div num den;
   fail_if (0 <? Cmp (Mul ratio TenThousand) (FromInt64 bound)) (msg ratio)) = Ret tt
  <-> (rat num * 10000 <= inject_Z bound * rat den)%Q.
Proof.
  intros Hd. rewrite Div_Ret by lra. cbn [mbind go_bind].
  by rewrite fail_if_ret, ratio_within.
Qed.

(** The reference check never panics; it accepts a one-sided or empty book, and
    a two-sided book exactly when it is not crossed, its mid is within the
    configured deviation of the reference price and its spread within the
    configured bound (each where configured). *)
Theorem ValidateMarketReference_spec ref book s :
  no_panic (ValidateMarketReference ref book s)
  /\ (ValidateMarketReference ref book s = Ret tt <->
      (0 < rat (ref_Price ref))%Q /\ (TwoSided book = true -> reference_close ref book s)).
Proof.
  unfold ValidateMarketReference.
  destruct (IsPositive (ref_Price ref)) eqn:Er; simpl negb; cbv iota.
  2:{ split; [done|]. apply IsPositive_false in Er. split; [done|]. intros [? _]. lra. }
  apply IsPositive_iff in Er. destruct (TwoSided book) eqn:Et; simpl negb; cbv iota.
  2:{ split; [done|]. split; [|done]. intros _. by split. }
  apply TwoSided_true in Et as [Hb Ha]. apply HasBid_iff in Hb. apply HasAsk_iff in Ha.
  destruct (0 <=? Cmp _ _) eqn:Ec; dec_hyps.
  { split; [done|]. split; [done|]. intros [_ Hc]. destruct (Hc eq_refl) as [? _]. lra. }
  rewrite Div_Ret by (dec_norm; done). cbn [mbind go_bind].
  set (mid := FromRat _).
  assert (Hmid : (rat mid == (rat (BidPrice book) + rat (AskPrice book)) / 2)%Q).
  { unfold mid. rewrite rat_FromRat. dec_norm. done. }
  assert (Hpos : (0 < rat mid)%Q).
  { rewrite Hmid. apply Qlt_shift_div_l; lra. }
  clearbody mid. split.
  - destruct (0 <? MaxVenueReferenceDeviationBPS s), (0 <? MaxVenueSpreadBPS s);
      repeat (rewrite Div_Ret by lra; cbn [mbind go_bind]); unfold fail_if; repeat case_match; done.
  - rewrite (optional_check _ _ _ _ (fun _ => checked_ratio _ _ _ _ Er)).
    assert (Hk : forall c P, (0 < MaxVenueSpreadBPS s -> c = Ret tt <-> P) ->
      (if 0 <? MaxVenueSpreadBPS s then c else Ret tt) = Ret tt
      <-> (0 < MaxVenueSpreadBPS s -> P)).
    { intros c P Hc. destruct (0 <? MaxVenueSpreadBPS s) eqn:E;
        [apply Z.ltb_lt in E|apply Z.ltb_ge in E]; intuition lia. }
    rewrite (Hk _ _ (fun _ => checked_ratio _ _ _ _ Hpos)), Z.ltb_lt.
    unfold reference_close. cbv zeta. rewrite rat_Abs. dec_norm. rewrite Hmid. tauto.
Qed.

(** ** The last filter *)

(** What a quote that passed the filter satisfies. *)
Definition quote_allowed (market : VenueMarketConfig) (book : Book) (q : Quote) : Prop :=
  (HasAsk book = true -> quote_Side q = Buy -> rat (quote_Price q) < rat (AskPrice book))%Q
  /\ (HasBid book = true -> quote_Side q = Sell -> rat (BidPrice book) < rat (quote_Price q))%Q
  /\ (rat (MinNotional market) <= rat (quote_Price q) * rat (quote_Quantity q))%Q
  /\ (IsPositive (MaxNotional market) = true ->
        rat (quote_Price q) * rat (quote_Quantity q) <= rat (MaxNotional market))%Q
  /\ (IsPositive (MinQuantity market) = true ->
        rat (MinQuantity market) <= rat (quote_Quantity q))%Q
  /\ (IsPositive (MaxQuantity market) = true ->
        rat (quote_Quantity q) <= rat (MaxQuantity market))%Q
  /\ (IsPositive (MinPrice market) = true -> rat (MinPrice market) <= rat (quote_Price q))%Q
  /\ (IsPositive (MaxPrice market) = true -> rat (quote_Price q) <= rat (MaxPrice market))%Q.

Lemma guarded_le (b : bool) (x : Z) (P : Prop) :
  (x <? 0) = false <-> P -> b && (x <? 0) = false <-> (b = true -> P).
Proof. destruct b; simpl; intuition congruence. Qed.

Lemma guarded_gt (b : bool) (x : Z) (P : Prop) :
  (0 <? x) = false <-> P -> b && (0 <? x) = false <-> (b = true -> P).
Proof. destruct b; simpl; intuition congruence. Qed.

Lemma Cmp_ltb_false a b : (Cmp a b <? 0) = false <-> (rat b <= rat a)%Q.
Proof. by rewrite Z.ltb_ge, Cmp_ge. Qed.
Lemma Cmp_gtb_false a b : (0 <? Cmp a b) = false <-> (rat a <= rat b)%Q.
Proof. by rewrite Z.ltb_ge, Cmp_le. Qed.

Lemma side_guard (b : bool) (s1 s2 : string) (c : bool) (P : Prop) :
  (c = false <-> P) ->
  b && String.eqb s1 s2 && c = false <-> (b = true -> s1 = s2 -> P).
Proof.
  intros <-. destruct b; simpl; [|intuition congruence].
  destruct (String.eqb s1 s2) eqn:E; simpl.
  - apply String.eqb_eq in E. intuition.
  - apply String.eqb_neq in E. intuition.
Qed.

Lemma checkQuote_ret market book now q :
  checkQuote market book now q = Ret tt <->
  now <= quote_ValidUntil q /\ quote_allowed market book q.
Proof.
  unfold checkQuote, quote_allowed. rewrite !fail_if_bind_ret, fail_if_ret.
  rewrite !(guarded_le _ _ _ (Cmp_ltb_false _ _)), !(guarded_gt _ _ _ (Cmp_gtb_false _ _)).
  rewrite Cmp_ltb_false.
  rewrite (side_guard (HasAsk book) (quote_Side q) Buy _
    (rat (quote_Price q) < rat (AskPrice book))%Q) by (rewrite Z.leb_gt; apply Cmp_lt).
  rewrite (side_guard (HasBid book) (quote_Side q) Sell _
    (rat (BidPrice book) < rat (quote_Price q))%Q) by (rewrite Z.leb_gt; apply Cmp_gt).
  rewrite rat_Mul. unfold After. rewrite Z.ltb_ge. tauto.
Qed.

Lemma checkQuote_no_panic market book now q : no_panic (checkQuote market book now q).
Proof. unfold checkQuote. do 8 apply no_panic_fail_if. unfold fail_if. by case_match. Qed.

Lemma filterLoop_ret s market book dev clock k quotes result :
  filterLoop s market book dev clock k quotes = Ret result <->
  result = filter (fun q => inventoryBlocks s dev q = false) quotes
  /\ Forall (quote_allowed market book) quotes
  /\ (forall j q, quotes !! j = Some q -> clock (k + j)%nat <= quote_ValidUntil q).
Proof.
  revert k result. induction quotes as [|q quotes IH]; intros k result; simpl.
  { rewrite filter_nil. split; [intros [= <-]; split_and!; done|by intros (-> & _)]. }
  split.
  - intros (u & Hc & H)%bind_ret_inv. apply bind_ret_inv in H as (rest & Hr & [= <-]).
    destruct u. apply checkQuote_ret in Hc as [Ht Hq]. apply IH in Hr as (-> & Hf & Hcl).
    split_and!.
    + rewrite filter_cons. destruct (inventoryBlocks s dev q); case_decide; done.
    + by constructor.
    + intros [|j] q'; simpl; [intros [= <-]; by rewrite Nat.add_0_r|].
      intros Hj. rewrite Nat.add_succ_r. by apply (Hcl j).
  - intros (-> & [Hq Hf]%Forall_cons & Hcl).
    rewrite (proj2 (checkQuote_ret market book (clock k) q)).
    2:{ split; [|done]. specialize (Hcl O q eq_refl). by rewrite Nat.add_0_r in Hcl. }
    simpl. erewrite (proj2 (IH (S k) _)); simpl.
    2:{ split; [reflexivity|]. split; [done|]. intros j q' Hj. specialize (Hcl (S j) q' Hj).
        by rewrite Nat.add_succ_r in Hcl. }
    rewrite filter_cons. destruct (inventoryBlocks s dev q); case_decide; done.
Qed.

Lemma selfCross_false result :
  selfCross result = false <->
  forall a b, a ∈ result -> b ∈ result -> quote_Side a = Buy -> quote_Side b = Sell ->
    (rat (quote_Price a) < rat (quote_Price b))%Q.
Proof.
  unfold selfCross. rewrite <- not_true_iff_false, existsb_exists. split.
  - intros H a b Ha Hb Sa Sb. apply Qnot_le_lt. intros Hle. apply H. exists a.
    split; [by apply list_elem_of_In|]. apply existsb_exists. exists b.
    split; [by apply list_elem_of_In|]. rewrite Sa, Sb. simpl.
    by apply Z.leb_le, Cmp_ge.
  - intros H (a & Ha & (b & Hb & Hc)%existsb_exists). apply list_elem_of_In in Ha, Hb.
    apply andb_true_iff in Hc as [[Sa Sb]%andb_true_iff Hle].
    apply String.eqb_eq in Sa, Sb. specialize (H a b Ha Hb Sa Sb). dec_hyps. lra.
Qed.

Lemma existsb_false_filter {A} (f : A -> bool) l :
  existsb f l = false -> forall x, x ∈ l -> f x = false.
Proof.
  intros H x Hx. destruct (f x) eqn:E; [|done]. rewrite <- H. symmetry.
  apply existsb_exists. exists x. split; [by apply list_elem_of_In|done].
Qed.

(** The quotes the filter keeps, each allowed at the book it was checked against. *)
Lemma FilterQuotes_kept i market book inventory quotes since clock result :
  FilterQuotes i market book inventory quotes since clock = Ret result ->
  result `sublist_of` quotes /\ Forall (quote_allowed market book) result.
Proof.
  unfold FilterQuotes. cbv zeta. intros H. inv_ret H. injection H as ->.
  apply filterLoop_ret in G0 as (-> & Hf & _). split; [apply sublist_filter|].
  apply Forall_forall. intros q [_ Hq]%list_elem_of_filter. by eapply Forall_flip.
Qed.

(** Quotes that pass the last filter were checked against a book at most thirty
    seconds old, form a non-empty sub-list of the target that neither takes
    liquidity, nor breaks an exchange limit, nor crosses itself, and contain no
    quote on the side the inventory limits forbid. *)
Theorem FilterQuotes_safe i market book inventory quotes since clock result :
  FilterQuotes i market book inventory quotes since clock = Ret result ->
  result `sublist_of` quotes /\ result <> []
  /\ (HasPrices book = true -> since - book_Timestamp book <= 30 * Second)
  /\ Forall (quote_allowed market book) result
  /\ (forall a b, a ∈ result -> b ∈ result -> quote_Side a = Buy -> quote_Side b = Sell ->
        (rat (quote_Price a) < rat (quote_Price b))%Q)
  /\ (forall q, q ∈ result -> IsPositive (MaxBaseDeviation (Strategy i)) = true ->
        (quote_Side q = Buy -> rat inventory - rat (TargetBase (Strategy i))
             < rat (MaxBaseDeviation (Strategy i)))%Q
        /\ (quote_Side q = Sell -> - rat (MaxBaseDeviation (Strategy i))
             < rat inventory - rat (TargetBase (Strategy i)))%Q).
Proof.
  intros Hret. destruct (FilterQuotes_kept _ _ _ _ _ _ _ _ Hret) as [Hsub Hall].
  revert Hret. unfold FilterQuotes. cbv zeta. intros H. inv_ret H. injection H as ->.
  apply filterLoop_ret in G0 as (-> & Hf & _). pose proof (proj1 (selfCross_false _) G1) as Hcross.
  apply Nat.eqb_neq in G2. split_and!.
  - done.
  - by intros E; rewrite E in G2.
  - intros Hp. rewrite Hp in G. simpl in G. apply orb_false_iff in G as [_ G].
    apply Z.ltb_ge in G. unfold TimeSub, Second, max_int64, min_int64 in *. lia.
  - done.
  - done.
  - intros q [Hq _]%list_elem_of_filter Hpos. unfold inventoryBlocks in Hq. rewrite Hpos in Hq.
    simpl in Hq. apply orb_false_iff in Hq as [Hb Hs]. split; intros E; rewrite E in *; simpl in *.
    + rewrite andb_true_r in Hb. dec.
    + rewrite andb_true_r in Hs. dec.
Qed.

Lemma quote_ok_allowed s market book q :
  UsesOrderNotionalRange s = true -> quote_ok s market book q ->
  (IsPositive (MinPrice market) = true -> rat (MinPrice market) <= rat (quote_Price q))%Q ->
  (IsPositive (MaxPrice market) = true -> rat (quote_Price q) <= rat (MaxPrice market))%Q ->
  quote_allowed market book q.
Proof.
  intros Hu (_ & _ & (_ & _ & Hn) & Hb & Ha) Hmin Hmax.
  destruct (Hn Hu) as (_ & H1 & _ & H2 & H3 & H4). unfold quote_allowed. split_and!; auto.
Qed.

(** The generator and the filter agree: any part of a generated ladder (what the
    budget and the order limit left of it), checked against the book it was
    generated from while that book is fresh and the reference still valid, is
    refused only when the inventory limits leave no quote at all. *)
Theorem FilterQuotes_accepts_generated i venueName market ref book inventory now wall qs part
    since clock :
  generate_pre (Strategy i) market book -> UsesOrderNotionalRange (Strategy i) = true ->
  GenerateAt i venueName market ref book inventory now wall = Ret qs ->
  part `sublist_of` qs ->
  (HasPrices book = true -> book_Timestamp book <> zero_time
     /\ since - book_Timestamp book <= 30 * Second) ->
  (forall k q, q ∈ qs -> clock k <= quote_ValidUntil q
     /\ (IsPositive (MinPrice market) = true -> rat (MinPrice market) <= rat (quote_Price q))%Q
     /\ (IsPositive (MaxPrice market) = true -> rat (quote_Price q) <= rat (MaxPrice market))%Q) ->
  let passed := filter (fun q => inventoryBlocks (Strategy i)
    (Sub inventory (TargetBase (Strategy i))) q = false) part in
  FilterQuotes i market book inventory part since clock =
    if (length passed =? 0)%nat then Err (Errorf "all quote sides blocked by inventory limits")
    else Ret passed.
Proof.
  intros Hpre Hu Hgen Hpart Hfresh Hq passed.
  destruct (post_ret _ _ _ (GenerateAt_post i venueName market ref book inventory now wall Hpre) Hgen)
    as (_ & Hok & Hs).
  assert (Hin : forall q, q ∈ part -> q ∈ qs).
  { intros q Hqp. by eapply elem_of_submseteq, sublist_submseteq. }
  unfold FilterQuotes. cbv zeta.
  assert (Hst : HasPrices book && (IsZero (book_Timestamp book)
    || (30 * Second <? TimeSub since (book_Timestamp book))) = false).
  { destruct (HasPrices book); [|done]. destruct (Hfresh eq_refl) as [Hz Hd]. simpl.
    apply orb_false_iff. split; [by apply Z.eqb_neq|]. apply Z.ltb_ge.
    unfold TimeSub, Second, max_int64, min_int64 in *. lia. }
  rewrite Hst. simpl.
  rewrite (proj2 (filterLoop_ret (Strategy i) market book _ clock 0 part passed)); simpl.
  - rewrite (proj2 (selfCross_false passed)); simpl; [by destruct (length passed =? 0)%nat|].
    intros a b [_ Ha%Hin]%list_elem_of_filter [_ Hb%Hin]%list_elem_of_filter. by apply Hs.
  - split_and!; [done| |].
    + apply Forall_forall. intros q Hqp%Hin. destruct (Hq O q Hqp) as (_ & H1 & H2).
      apply (quote_ok_allowed (Strategy i)); try done. by eapply Forall_flip.
    + intros j q Hj%list_elem_of_lookup_2%Hin. by apply (Hq j q).
Qed.

(** ** Witnesses *)

Definition ex_budget_call : go (list Quote * QuoteBudget) :=
  ApplyBalanceBudget ex_ladder [] (dec_of 1000 1) (dec_of 100000 1) 500 Zero Zero.

Definition ex_budget : list Quote * QuoteBudget :=
  ret_or ([], MkQuoteBudget 0 0 0 Zero Zero Zero Zero false false) ex_budget_call.

Lemma ex_ladder_priced : Forall priced ex_ladder.
Proof.
  assert (Hb : forallb (fun q => (String.eqb (quote_Side q) Buy || String.eqb (quote_Side q) Sell)
      && (IsPositive (quote_Price q) && IsPositive (quote_Quantity q))) ex_ladder = true)
    by (vm_compute; reflexivity).
  rewrite forallb_forall in Hb. apply Forall_forall. intros q Hq%list_elem_of_In.
  specialize (Hb q Hq). apply andb_true_iff in Hb as [Hs [Hp Hn]%andb_true_iff].
  apply IsPositive_iff in Hp, Hn. apply orb_true_iff in Hs. rewrite !String.eqb_eq in Hs.
  exact (conj Hs (conj (Qlt_le_weak _ _ Hp) (Qlt_le_weak _ _ Hn))).
Qed.

Lemma ex_budget_ret :
  ApplyBalanceBudget ex_ladder [] (dec_of 1000 1) (dec_of 100000 1) 500 Zero Zero
    = Ret (fst ex_budget, snd ex_budget).
Proof. vm_compute. reflexivity. Qed.

Lemma ApplyBalanceBudget_keeps_affordable_witness :
  fst ex_budget = ex_ladder /\ BaseLimited (snd ex_budget) = false
  /\ QuoteLimited (snd ex_budget) = false.
Proof.
  apply (ApplyBalanceBudget_keeps_affordable ex_ladder [] (dec_of 1000 1) (dec_of 100000 1) 500
    Zero Zero (fst ex_budget) (snd ex_budget) ex_budget_ret ex_ladder_priced).
  - vm_compute. discriminate.
  - vm_compute. discriminate.
Defined.

Lemma ApplyOrderLimit_balanced_witness :
  exists k, 0 <= k <= 5 /\ ApplyOrderLimit ex_ladder 12 5 12 = take (Z.to_nat (2 * k)) ex_ladder
    /\ map quote_key (ApplyOrderLimit ex_ladder 12 5 12) = quote_keys k
    /\ (0 < 12 -> 2 * k <= Z.max 0 (12 - (12 - 5)))
    /\ (12 <= 0 \/ 2 * 5 <= 12 - (12 - 5) -> k = 5).
Proof.
  apply (ApplyOrderLimit_balanced ex_ladder 5 12 5 12);
    [lia|by vm_compute|by vm_compute|lia|vm_compute; reflexivity].
Defined.

Definition ex_clock (k : nat) : Time := 10 ^ 18.

Definition ex_passed : list Quote :=
  ret_or [] (FilterQuotes (ex_instrument ex_strategy) ex_market ex_book (dec_of 110 1) ex_ladder
    (10 ^ 18) ex_clock).

Lemma FilterQuotes_safe_witness :
  ex_passed `sublist_of` ex_ladder /\ ex_passed <> []
  /\ (HasPrices ex_book = true -> 10 ^ 18 - book_Timestamp ex_book <= 30 * Second)
  /\ Forall (quote_allowed ex_market ex_book) ex_passed
  /\ (forall a b, a ∈ ex_passed -> b ∈ ex_passed -> quote_Side a = Buy -> quote_Side b = Sell ->
        (rat (quote_Price a) < rat (quote_Price b))%Q)
  /\ (forall q, q ∈ ex_passed ->
        IsPositive (MaxBaseDeviation (Strategy (ex_instrument ex_strategy))) = true ->
        (quote_Side q = Buy -> rat (dec_of 110 1)
             - rat (TargetBase (Strategy (ex_instrument ex_strategy)))
             < rat (MaxBaseDeviation (Strategy (ex_instrument ex_strategy))))%Q
        /\ (quote_Side q = Sell -> - rat (MaxBaseDeviation (Strategy (ex_instrument ex_strategy)))
             < rat (dec_of 110 1) - rat (TargetBase (Strategy (ex_instrument ex_strategy))))%Q).
Proof.
  apply (FilterQuotes_safe (ex_instrument ex_strategy) ex_market ex_book (dec_of 110 1) ex_ladder
    (10 ^ 18) ex_clock). vm_compute. reflexivity.
Defined.

Lemma FilterQuotes_accepts_generated_witness :
  FilterQuotes (ex_instrument ex_strategy) ex_market ex_book (dec_of 110 1) ex_ladder
    (10 ^ 18) ex_clock = Ret ex_passed /\ length ex_passed = 10%nat.
Proof.
  split; [|vm_compute; reflexivity].
  etransitivity; [eapply (FilterQuotes_accepts_generated (ex_instrument ex_strategy) "binance"
    ex_market ex_ref ex_book (dec_of 110 1) (10 ^ 18) (10 ^ 18) ex_ladder)|].
  - exact ex_generate_pre.
  - vm_compute. reflexivity.
  - exact ex_ladder_ret.
  - reflexivity.
  - intros _. split; [by vm_compute|vm_compute; discriminate].
  - assert (Hb : forallb (fun q => 10 ^ 18 <=? quote_ValidUntil q) ex_ladder = true)
      by (vm_compute; reflexivity).
    rewrite forallb_forall in Hb. intros k q Hq%list_elem_of_In. specialize (Hb q Hq).
    apply Z.leb_le in Hb. split; [exact Hb|]. split; intros H; vm_compute in H; discriminate.
  - vm_compute. reflexivity.
Defined.
