(* ===== verification/Json.v ===== *)
(** JSON values (encoding/json), as far as the program stores and compares them.

    A value is the tree that a text denotes; a text that is not valid JSON is
    represented by the absence of a tree.  Times, which [encoding/json] writes in
    RFC 3339 with nanoseconds, are kept as a leaf of their own. *)
From S2P Require Import Prelude Decimal DecimalText.

Open Scope string_scope.
Open Scope list_scope.
Open Scope Z_scope.

Inductive Json :=
  | JNull
  | JBool (b : bool)
  | JNum (n : Z)
  | JStr (s : string)
  | JTime (t : Time)
  | JArr (l : list Json)
  | JObj (l : list (string * Json)).

(** Equality of trees, decided structurally. *)
Fixpoint json_eqb (a b : Json) : bool :=
  match a, b with
  | JNull, JNull => true
  | JBool x, JBool y => Bool.eqb x y
  | JNum x, JNum y => x =? y
  | JStr x, JStr y => String.eqb x y
  | JTime x, JTime y => x =? y
  | JArr l, JArr m =>
      (fix go l m := match l, m with
        | [], [] => true
        | x :: l', y :: m' => json_eqb x y && go l' m'
        | _, _ => false
        end) l m
  | JObj l, JObj m =>
      (fix go l m := match l, m with
        | [], [] => true
        | (k, x) :: l', (k', y) :: m' => String.eqb k k' && json_eqb x y && go l' m'
        | _, _ => false
        end) l m
  | _, _ => false
  end.

(** ** Encoders and decoders *)

Class Marshal (A : Type) := marshal : A -> Json.
Class Unmarshal (A : Type) := unmarshal : Json -> option A.

#[export] Instance marshal_string : Marshal string := JStr.
#[export] Instance marshal_Z : Marshal Z := JNum.
#[export] Instance marshal_bool : Marshal bool := JBool.
#[export] Instance marshal_decimal : Marshal Decimal := fun d => JStr (String_ d).
#[export] Instance marshal_list {A} `{Marshal A} : Marshal (list A) := fun l => JArr (map marshal l).
(** Go sorts the keys of a map; the tree keeps them in the canonical order of the map. *)
#[export] Instance marshal_map {A} `{Marshal A} : Marshal (gmap string A) := fun m =>
  JObj (map (fun '(k, v) => (k, marshal v)) (map_to_list m)).

(** A null leaves the variable at its zero value, any other kind of value must fit. *)
#[export] Instance unmarshal_string : Unmarshal string := fun j =>
  match j with JStr s => Some s | JNull => Some "" | _ => None end.
#[export] Instance unmarshal_Z : Unmarshal Z := fun j =>
  match j with JNum n => Some n | JNull => Some 0 | _ => None end.
#[export] Instance unmarshal_bool : Unmarshal bool := fun j =>
  match j with JBool b => Some b | JNull => Some false | _ => None end.
(** [(d *Decimal) UnmarshalJSON] *)
#[export] Instance unmarshal_decimal : Unmarshal Decimal := fun j =>
  match j with
  | JNull => Some Zero
  | JStr s => match Parse s with Ret d => Some d | _ => None end
  | JNum n => Some (FromInt64 n)
  | _ => None
  end.
Definition unmarshal_uint64 (j : Json) : option Z :=
  match j with
  | JNum n => if (0 <=? n) && (n <? 2 ^ 64) then Some n else None
  | JNull => Some 0
  | _ => None
  end.

Definition unmarshal_time (j : Json) : option Time :=
  match j with JTime t => Some t | JNull => Some zero_time | _ => None end.

#[export] Instance unmarshal_map {A} `{Unmarshal A} : Unmarshal (gmap string A) := fun j =>
  match j with
  | JNull => Some ∅
  | JObj l =>
      foldl (fun acc '(k, v) => m ← acc; a ← unmarshal v; Some (<[k := a]> m)) (Some ∅) l
  | _ => None
  end.

(** The field [name] of an object, [d] when it is absent. *)
Definition field {A} (dec : Json -> option A) (d : A) (name : string) (l : list (string * Json))
    : option A :=
  match list_find (fun kv => fst kv = name) l with
  | Some (_, (_, j)) => dec j
  | None => Some d
  end.

(** [omitempty] *)
Definition omit_if (empty : bool) (name : string) (j : Json) : list (string * Json) :=
  if empty then [] else [(name, j)].

(** ** Facts *)

Lemma json_eqb_refl a : json_eqb a a = true.
Proof.
  revert a. fix IH 1. intros [| [] | n | s | t | l | l]; simpl;
    rewrite ?Z.eqb_refl, ?String.eqb_refl; try reflexivity.
  - induction l as [|x l IHl]; [reflexivity|]. by rewrite IH, IHl.
  - induction l as [|[k x] l IHl]; [reflexivity|]. by rewrite String.eqb_refl, IH, IHl.
Qed.

Lemma json_eqb_eq a b : json_eqb a b = true -> a = b.
Proof.
  revert a b. fix IH 1. intros [| x | n | s | t | l | l] [| y | n' | s' | t' | m | m]; simpl; try done.
  - intros H. apply Bool.eqb_prop in H. by subst.
  - intros H. apply Z.eqb_eq in H. by subst.
  - intros H. apply String.eqb_eq in H. by subst.
  - intros H. apply Z.eqb_eq in H. by subst.
  - intros H. f_equal. revert m H. induction l as [|x l IHl]; intros [|y m]; try done.
    intros [Hx Hl]%andb_true_iff. by rewrite (IH _ _ Hx), (IHl _ Hl).
  - intros H. f_equal. revert m H. induction l as [|[k x] l IHl]; intros [|[k' y] m]; try done.
    intros [[Hk Hx]%andb_true_iff Hl]%andb_true_iff. apply String.eqb_eq in Hk as ->.
    by rewrite (IH _ _ Hx), (IHl _ Hl).
Qed.

Lemma json_eqb_iff a b : json_eqb a b = true <-> a = b.
Proof. split; [apply json_eqb_eq|intros ->; apply json_eqb_refl]. Qed.

(** Decoding inverts encoding up to the equality of decimal values. *)
Lemma unmarshal_marshal_decimal d : representable d ->
  unmarshal (A := Decimal) (marshal d) = Some (FromRat (rat d)).
Proof. intros H. simpl. unfold unmarshal, unmarshal_decimal, marshal, marshal_decimal.
  by rewrite Parse_text. Qed.

Lemma unmarshal_map_loop {A} `{Marshal A, Unmarshal A} (f : A -> A) (l : list (string * A))
    (acc : gmap string A) :
  NoDup l.*1 -> (forall k a, (k, a) ∈ l -> unmarshal (marshal a) = Some (f a)) ->
  foldl (fun (acc : option (gmap string A)) '(k, v) =>
      m ← acc; a ← unmarshal v; Some (<[k := a]> m)) (Some acc)
    (map (fun '(k, v) => (k, marshal v)) l)
  = Some ((f <$> (list_to_map l : gmap string A)) ∪ acc).
Proof.
  revert acc. induction l as [|[k a] l IH]; intros acc Hnd Hl.
  { simpl. by rewrite fmap_empty, (left_id_L ∅ (∪)). }
  apply NoDup_cons in Hnd as [Hk Hnd].
  assert (Ha : unmarshal (marshal a) = Some (f a)) by (apply (Hl k); left).
  cbn [map foldl]. rewrite Ha. cbn [mbind option_bind]. rewrite IH.
  - f_equal. cbn [list_to_map foldr]. simpl. rewrite fmap_insert.
    rewrite <- insert_union_l. symmetry. rewrite insert_union_r; [done|].
    rewrite lookup_fmap, (not_elem_of_list_to_map_1 l k); done.
  - done.
  - intros k' a' Hin. apply (Hl k'). by right.
Qed.

(** Reading a map that was written gives the map of the decoded entries. *)
Lemma unmarshal_marshal_map {A} `{Marshal A, Unmarshal A} (f : A -> A) (m : gmap string A) :
  (forall k a, m !! k = Some a -> unmarshal (marshal a) = Some (f a)) ->
  unmarshal (A := gmap string A) (marshal m) = Some (f <$> m).
Proof.
  intros Hf. unfold marshal, marshal_map, unmarshal, unmarshal_map.
  rewrite (unmarshal_map_loop f (map_to_list m) ∅).
  - by rewrite list_to_map_to_list, (right_id_L ∅ (∪)).
  - apply NoDup_fst_map_to_list.
  - intros k a Hin%elem_of_map_to_list. by apply (Hf k).
Qed.

(** What a decimal reads back as after it was printed: itself when it has at most
    eighteen fractional digits. *)
Definition reread (d : Decimal) : Decimal := default d (unmarshal (marshal d)).

Lemma unmarshal_reread d : unmarshal (marshal d) = Some (reread d).
Proof.
  unfold reread. destruct (Parse_total d) as [d' H].
  unfold unmarshal, unmarshal_decimal, marshal, marshal_decimal. by rewrite H.
Qed.

Lemma reread_representable d : representable d -> reread d = FromRat (rat d).
Proof. intros H. unfold reread. by rewrite unmarshal_marshal_decimal. Qed.
