(* ===== verification/FaultData.v ===== *)
(** The state of a market's fault machine, as the manager keeps it and publishes it
    (the data of src/internal/fault/manager.go). *)
From S2P Require Import Prelude.

Definition Normal : string := "normal".
Definition Degraded : string := "degraded".
Definition Canceling : string := "canceling".
Definition Paused : string := "paused".
Definition Recovering : string := "recovering".

Record Snapshot := MkSnapshot {
  Status : string;
  Stage : string;
  snap_Error : string;
  ConsecutiveFailures : Z;
  ConsecutiveSuccesses : Z;
  Since : Time;
  UpdatedAt : Time;
  LastHealthyAt : Time;
  OrdersRetained : bool
}.

#[export] Instance Snapshot_eq_dec : EqDecision Snapshot.
Proof. solve_decision. Defined.

Definition zero_snapshot : Snapshot :=
  MkSnapshot "" "" "" 0 0 zero_time zero_time zero_time false.
