(* ===== verification/TradesimData.v ===== *)
(** What the synthetic trade generator publishes (the data of
    src/internal/tradesim/generator.go). *)
From S2P Require Import Prelude Domain.

Record Snapshot := MkSnapshot {
  snap_Enabled : bool;
  snap_SourceVenue : string;
  snap_Status : string;
  snap_LastGeneratedAt : Time;
  snap_NextAt : Time;
  snap_Fills : list Fill;
  snap_Error : string
}.
