(* ===== verification/Runtimeops.v ===== *)
(** The operational data the engine exchanges with the runtime store
    (the types of src/internal/runtimeops/store.go): control requests, performance and
    metrics, and the snapshot of an instrument that operators see. *)
From S2P Require Import Prelude Decimal Domain FaultData TradesimData.

Open Scope string_scope.
Open Scope Z_scope.

Record CyclePerformance := MkCyclePerformance {
  perf_StartedAt : Time;
  DurationMS : Z;
  perf_Instruments : Z;
  Succeeded : Z;
  perf_Failed : Z;
  ConcurrentLimit : Z
}.

Record MetricsSnapshot := MkMetricsSnapshot {
  ms_StartedAt : Time;
  ms_UpdatedAt : Time;
  CyclesTotal : Z;
  CycleFailuresTotal : Z;
  InstrumentRunsTotal : Z;
  InstrumentFailuresTotal : Z;
  VenueFaultEventsTotal : Z;
  OMSPlacedTotal : Z;
  OMSCanceledTotal : Z;
  SimulatedTradesTotal : Z;
  AuditFlushErrorsTotal : Z;
  AuditPendingEvents : Z;
  RuleChangesTotal : Z;
  LeaseFenceRejectsTotal : Z
}.

Record RuleChange := MkRuleChange {
  rc_InstrumentID : string;
  rc_Venue : string;
  rc_Symbol : string;
  rc_Previous : MarketRules;
  rc_Current : MarketRules;
  DetectedAt : Time
}.

Definition ReasonManualPause : string := "manual_pause".
Definition ReasonEmergencyCancel : string := "emergency_cancel".

Record PauseState := MkPauseState {
  ps_InstrumentID : string;
  ps_Paused : bool;
  Reason : string;
  RequestedBy : Z;
  RequestedAt : Time
}.

Record ReconcileRequest := MkReconcileRequest {
  rr_InstrumentID : string;
  rr_RequestedBy : Z;
  rr_RequestedAt : Time
}.

Record VenueSnapshot := MkVenueSnapshot {
  vs_Name : string;
  vs_Type : string;
  vs_Symbol : string;
  vs_TradingEnabled : bool;
  MarketConnected : bool;
  AccountConnected : bool;
  vs_Book : option Book;
  BaseBalance : option Balance;
  QuoteBalance : option Balance;
  vs_Budget : option QuoteBudget;
  vs_Rules : option MarketRules;
  vs_Fault : option FaultData.Snapshot;
  OpenOrders : list Order;
  PendingOrders : Z;
  vs_Fills : list Fill;
  vs_Error : string;
  vs_UpdatedAt : Time;
  BookDurationMS : Z;
  OrdersDurationMS : Z;
  FillsDurationMS : Z;
  OMSDurationMS : Z
}.

Record InstrumentSnapshot := MkInstrumentSnapshot {
  is_InstrumentID : string;
  is_BaseSymbol : string;
  is_QuoteSymbol : string;
  is_Mode : Mode;
  is_Status : string;
  is_Paused : bool;
  is_Pause : option PauseState;
  is_Reference : option ReferencePrice;
  Inventory : Decimal;
  InventoryAvailable : bool;
  TargetInventory : Decimal;
  is_MaxBaseDeviation : Decimal;
  is_Venues : list VenueSnapshot;
  is_TradeSimulation : option TradesimData.Snapshot;
  is_Error : string;
  is_UpdatedAt : Time;
  TickDurationMS : Z;
  ReferenceDurationMS : Z;
  BalanceDurationMS : Z
}.

(** ** Assignments to one field *)

Definition set_MarketConnected (v : bool) (s : VenueSnapshot) : VenueSnapshot :=
  MkVenueSnapshot (vs_Name s) (vs_Type s) (vs_Symbol s) (vs_TradingEnabled s) v
    (AccountConnected s) (vs_Book s) (BaseBalance s) (QuoteBalance s) (vs_Budget s) (vs_Rules s)
    (vs_Fault s) (OpenOrders s) (PendingOrders s) (vs_Fills s) (vs_Error s) (vs_UpdatedAt s)
    (BookDurationMS s) (OrdersDurationMS s) (FillsDurationMS s) (OMSDurationMS s).
Definition set_AccountConnected (v : bool) (s : VenueSnapshot) : VenueSnapshot :=
  MkVenueSnapshot (vs_Name s) (vs_Type s) (vs_Symbol s) (vs_TradingEnabled s) (MarketConnected s)
    v (vs_Book s) (BaseBalance s) (QuoteBalance s) (vs_Budget s) (vs_Rules s) (vs_Fault s)
    (OpenOrders s) (PendingOrders s) (vs_Fills s) (vs_Error s) (vs_UpdatedAt s) (BookDurationMS s)
    (OrdersDurationMS s) (FillsDurationMS s) (OMSDurationMS s).
Definition set_vs_Book (v : option Book) (s : VenueSnapshot) : VenueSnapshot :=
  MkVenueSnapshot (vs_Name s) (vs_Type s) (vs_Symbol s) (vs_TradingEnabled s) (MarketConnected s)
    (AccountConnected s) v (BaseBalance s) (QuoteBalance s) (vs_Budget s) (vs_Rules s)
    (vs_Fault s) (OpenOrders s) (PendingOrders s) (vs_Fills s) (vs_Error s) (vs_UpdatedAt s)
    (BookDurationMS s) (OrdersDurationMS s) (FillsDurationMS s) (OMSDurationMS s).
Definition set_BaseBalance (v : option Balance) (s : VenueSnapshot) : VenueSnapshot :=
  MkVenueSnapshot (vs_Name s) (vs_Type s) (vs_Symbol s) (vs_TradingEnabled s) (MarketConnected s)
    (AccountConnected s) (vs_Book s) v (QuoteBalance s) (vs_Budget s) (vs_Rules s) (vs_Fault s)
    (OpenOrders s) (PendingOrders s) (vs_Fills s) (vs_Error s) (vs_UpdatedAt s) (BookDurationMS s)
    (OrdersDurationMS s) (FillsDurationMS s) (OMSDurationMS s).
Definition set_QuoteBalance (v : option Balance) (s : VenueSnapshot) : VenueSnapshot :=
  MkVenueSnapshot (vs_Name s) (vs_Type s) (vs_Symbol s) (vs_TradingEnabled s) (MarketConnected s)
    (AccountConnected s) (vs_Book s) (BaseBalance s) v (vs_Budget s) (vs_Rules s) (vs_Fault s)
    (OpenOrders s) (PendingOrders s) (vs_Fills s) (vs_Error s) (vs_UpdatedAt s) (BookDurationMS s)
    (OrdersDurationMS s) (FillsDurationMS s) (OMSDurationMS s).
Definition set_vs_Budget (v : option QuoteBudget) (s : VenueSnapshot) : VenueSnapshot :=
  MkVenueSnapshot (vs_Name s) (vs_Type s) (vs_Symbol s) (vs_TradingEnabled s) (MarketConnected s)
    (AccountConnected s) (vs_Book s) (BaseBalance s) (QuoteBalance s) v (vs_Rules s) (vs_Fault s)
    (OpenOrders s) (PendingOrders s) (vs_Fills s) (vs_Error s) (vs_UpdatedAt s) (BookDurationMS s)
    (OrdersDurationMS s) (FillsDurationMS s) (OMSDurationMS s).
Definition set_vs_Rules (v : option MarketRules) (s : VenueSnapshot) : VenueSnapshot :=
  MkVenueSnapshot (vs_Name s) (vs_Type s) (vs_Symbol s) (vs_TradingEnabled s) (MarketConnected s)
    (AccountConnected s) (vs_Book s) (BaseBalance s) (QuoteBalance s) (vs_Budget s) v (vs_Fault s)
    (OpenOrders s) (PendingOrders s) (vs_Fills s) (vs_Error s) (vs_UpdatedAt s) (BookDurationMS s)
    (OrdersDurationMS s) (FillsDurationMS s) (OMSDurationMS s).
Definition set_vs_Fault (v : option FaultData.Snapshot) (s : VenueSnapshot) : VenueSnapshot :=
  MkVenueSnapshot (vs_Name s) (vs_Type s) (vs_Symbol s) (vs_TradingEnabled s) (MarketConnected s)
    (AccountConnected s) (vs_Book s) (BaseBalance s) (QuoteBalance s) (vs_Budget s) (vs_Rules s) v
    (OpenOrders s) (PendingOrders s) (vs_Fills s) (vs_Error s) (vs_UpdatedAt s) (BookDurationMS s)
    (OrdersDurationMS s) (FillsDurationMS s) (OMSDurationMS s).
Definition set_OpenOrders (v : list Order) (s : VenueSnapshot) : VenueSnapshot :=
  MkVenueSnapshot (vs_Name s) (vs_Type s) (vs_Symbol s) (vs_TradingEnabled s) (MarketConnected s)
    (AccountConnected s) (vs_Book s) (BaseBalance s) (QuoteBalance s) (vs_Budget s) (vs_Rules s)
    (vs_Fault s) v (PendingOrders s) (vs_Fills s) (vs_Error s) (vs_UpdatedAt s) (BookDurationMS s)
    (OrdersDurationMS s) (FillsDurationMS s) (OMSDurationMS s).
Definition set_PendingOrders (v : Z) (s : VenueSnapshot) : VenueSnapshot :=
  MkVenueSnapshot (vs_Name s) (vs_Type s) (vs_Symbol s) (vs_TradingEnabled s) (MarketConnected s)
    (AccountConnected s) (vs_Book s) (BaseBalance s) (QuoteBalance s) (vs_Budget s) (vs_Rules s)
    (vs_Fault s) (OpenOrders s) v (vs_Fills s) (vs_Error s) (vs_UpdatedAt s) (BookDurationMS s)
    (OrdersDurationMS s) (FillsDurationMS s) (OMSDurationMS s).
Definition set_vs_Fills (v : list Fill) (s : VenueSnapshot) : VenueSnapshot :=
  MkVenueSnapshot (vs_Name s) (vs_Type s) (vs_Symbol s) (vs_TradingEnabled s) (MarketConnected s)
    (AccountConnected s) (vs_Book s) (BaseBalance s) (QuoteBalance s) (vs_Budget s) (vs_Rules s)
    (vs_Fault s) (OpenOrders s) (PendingOrders s) v (vs_Error s) (vs_UpdatedAt s)
    (BookDurationMS s) (OrdersDurationMS s) (FillsDurationMS s) (OMSDurationMS s).
Definition set_vs_Error (v : string) (s : VenueSnapshot) : VenueSnapshot :=
  MkVenueSnapshot (vs_Name s) (vs_Type s) (vs_Symbol s) (vs_TradingEnabled s) (MarketConnected s)
    (AccountConnected s) (vs_Book s) (BaseBalance s) (QuoteBalance s) (vs_Budget s) (vs_Rules s)
    (vs_Fault s) (OpenOrders s) (PendingOrders s) (vs_Fills s) v (vs_UpdatedAt s)
    (BookDurationMS s) (OrdersDurationMS s) (FillsDurationMS s) (OMSDurationMS s).
Definition set_vs_UpdatedAt (v : Time) (s : VenueSnapshot) : VenueSnapshot :=
  MkVenueSnapshot (vs_Name s) (vs_Type s) (vs_Symbol s) (vs_TradingEnabled s) (MarketConnected s)
    (AccountConnected s) (vs_Book s) (BaseBalance s) (QuoteBalance s) (vs_Budget s) (vs_Rules s)
    (vs_Fault s) (OpenOrders s) (PendingOrders s) (vs_Fills s) (vs_Error s) v (BookDurationMS s)
    (OrdersDurationMS s) (FillsDurationMS s) (OMSDurationMS s).
Definition set_BookDurationMS (v : Z) (s : VenueSnapshot) : VenueSnapshot :=
  MkVenueSnapshot (vs_Name s) (vs_Type s) (vs_Symbol s) (vs_TradingEnabled s) (MarketConnected s)
    (AccountConnected s) (vs_Book s) (BaseBalance s) (QuoteBalance s) (vs_Budget s) (vs_Rules s)
    (vs_Fault s) (OpenOrders s) (PendingOrders s) (vs_Fills s) (vs_Error s) (vs_UpdatedAt s) v
    (OrdersDurationMS s) (FillsDurationMS s) (OMSDurationMS s).
Definition set_OrdersDurationMS (v : Z) (s : VenueSnapshot) : VenueSnapshot :=
  MkVenueSnapshot (vs_Name s) (vs_Type s) (vs_Symbol s) (vs_TradingEnabled s) (MarketConnected s)
    (AccountConnected s) (vs_Book s) (BaseBalance s) (QuoteBalance s) (vs_Budget s) (vs_Rules s)
    (vs_Fault s) (OpenOrders s) (PendingOrders s) (vs_Fills s) (vs_Error s) (vs_UpdatedAt s)
    (BookDurationMS s) v (FillsDurationMS s) (OMSDurationMS s).
Definition set_FillsDurationMS (v : Z) (s : VenueSnapshot) : VenueSnapshot :=
  MkVenueSnapshot (vs_Name s) (vs_Type s) (vs_Symbol s) (vs_TradingEnabled s) (MarketConnected s)
    (AccountConnected s) (vs_Book s) (BaseBalance s) (QuoteBalance s) (vs_Budget s) (vs_Rules s)
    (vs_Fault s) (OpenOrders s) (PendingOrders s) (vs_Fills s) (vs_Error s) (vs_UpdatedAt s)
    (BookDurationMS s) (OrdersDurationMS s) v (OMSDurationMS s).
Definition set_OMSDurationMS (v : Z) (s : VenueSnapshot) : VenueSnapshot :=
  MkVenueSnapshot (vs_Name s) (vs_Type s) (vs_Symbol s) (vs_TradingEnabled s) (MarketConnected s)
    (AccountConnected s) (vs_Book s) (BaseBalance s) (QuoteBalance s) (vs_Budget s) (vs_Rules s)
    (vs_Fault s) (OpenOrders s) (PendingOrders s) (vs_Fills s) (vs_Error s) (vs_UpdatedAt s)
    (BookDurationMS s) (OrdersDurationMS s) (FillsDurationMS s) v.
Definition set_is_Status (v : string) (s : InstrumentSnapshot) : InstrumentSnapshot :=
  MkInstrumentSnapshot (is_InstrumentID s) (is_BaseSymbol s) (is_QuoteSymbol s) (is_Mode s) v
    (is_Paused s) (is_Pause s) (is_Reference s) (Inventory s) (InventoryAvailable s)
    (TargetInventory s) (is_MaxBaseDeviation s) (is_Venues s) (is_TradeSimulation s) (is_Error s)
    (is_UpdatedAt s) (TickDurationMS s) (ReferenceDurationMS s) (BalanceDurationMS s).
Definition set_is_Paused (v : bool) (s : InstrumentSnapshot) : InstrumentSnapshot :=
  MkInstrumentSnapshot (is_InstrumentID s) (is_BaseSymbol s) (is_QuoteSymbol s) (is_Mode s)
    (is_Status s) v (is_Pause s) (is_Reference s) (Inventory s) (InventoryAvailable s)
    (TargetInventory s) (is_MaxBaseDeviation s) (is_Venues s) (is_TradeSimulation s) (is_Error s)
    (is_UpdatedAt s) (TickDurationMS s) (ReferenceDurationMS s) (BalanceDurationMS s).
Definition set_is_Pause (v : option PauseState) (s : InstrumentSnapshot) : InstrumentSnapshot :=
  MkInstrumentSnapshot (is_InstrumentID s) (is_BaseSymbol s) (is_QuoteSymbol s) (is_Mode s)
    (is_Status s) (is_Paused s) v (is_Reference s) (Inventory s) (InventoryAvailable s)
    (TargetInventory s) (is_MaxBaseDeviation s) (is_Venues s) (is_TradeSimulation s) (is_Error s)
    (is_UpdatedAt s) (TickDurationMS s) (ReferenceDurationMS s) (BalanceDurationMS s).
Definition set_is_Reference (v : option ReferencePrice) (s : InstrumentSnapshot) : InstrumentSnapshot :=
  MkInstrumentSnapshot (is_InstrumentID s) (is_BaseSymbol s) (is_QuoteSymbol s) (is_Mode s)
    (is_Status s) (is_Paused s) (is_Pause s) v (Inventory s) (InventoryAvailable s)
    (TargetInventory s) (is_MaxBaseDeviation s) (is_Venues s) (is_TradeSimulation s) (is_Error s)
    (is_UpdatedAt s) (TickDurationMS s) (ReferenceDurationMS s) (BalanceDurationMS s).
Definition set_Inventory (v : Decimal) (s : InstrumentSnapshot) : InstrumentSnapshot :=
  MkInstrumentSnapshot (is_InstrumentID s) (is_BaseSymbol s) (is_QuoteSymbol s) (is_Mode s)
    (is_Status s) (is_Paused s) (is_Pause s) (is_Reference s) v (InventoryAvailable s)
    (TargetInventory s) (is_MaxBaseDeviation s) (is_Venues s) (is_TradeSimulation s) (is_Error s)
    (is_UpdatedAt s) (TickDurationMS s) (ReferenceDurationMS s) (BalanceDurationMS s).
Definition set_InventoryAvailable (v : bool) (s : InstrumentSnapshot) : InstrumentSnapshot :=
  MkInstrumentSnapshot (is_InstrumentID s) (is_BaseSymbol s) (is_QuoteSymbol s) (is_Mode s)
    (is_Status s) (is_Paused s) (is_Pause s) (is_Reference s) (Inventory s) v (TargetInventory s)
    (is_MaxBaseDeviation s) (is_Venues s) (is_TradeSimulation s) (is_Error s) (is_UpdatedAt s)
    (TickDurationMS s) (ReferenceDurationMS s) (BalanceDurationMS s).
Definition set_is_Venues (v : list VenueSnapshot) (s : InstrumentSnapshot) : InstrumentSnapshot :=
  MkInstrumentSnapshot (is_InstrumentID s) (is_BaseSymbol s) (is_QuoteSymbol s) (is_Mode s)
    (is_Status s) (is_Paused s) (is_Pause s) (is_Reference s) (Inventory s) (InventoryAvailable s)
    (TargetInventory s) (is_MaxBaseDeviation s) v (is_TradeSimulation s) (is_Error s)
    (is_UpdatedAt s) (TickDurationMS s) (ReferenceDurationMS s) (BalanceDurationMS s).
Definition set_is_TradeSimulation (v : option TradesimData.Snapshot) (s : InstrumentSnapshot) : InstrumentSnapshot :=
  MkInstrumentSnapshot (is_InstrumentID s) (is_BaseSymbol s) (is_QuoteSymbol s) (is_Mode s)
    (is_Status s) (is_Paused s) (is_Pause s) (is_Reference s) (Inventory s) (InventoryAvailable s)
    (TargetInventory s) (is_MaxBaseDeviation s) (is_Venues s) v (is_Error s) (is_UpdatedAt s)
    (TickDurationMS s) (ReferenceDurationMS s) (BalanceDurationMS s).
Definition set_is_Error (v : string) (s : InstrumentSnapshot) : InstrumentSnapshot :=
  MkInstrumentSnapshot (is_InstrumentID s) (is_BaseSymbol s) (is_QuoteSymbol s) (is_Mode s)
    (is_Status s) (is_Paused s) (is_Pause s) (is_Reference s) (Inventory s) (InventoryAvailable s)
    (TargetInventory s) (is_MaxBaseDeviation s) (is_Venues s) (is_TradeSimulation s) v
    (is_UpdatedAt s) (TickDurationMS s) (ReferenceDurationMS s) (BalanceDurationMS s).
Definition set_is_UpdatedAt (v : Time) (s : InstrumentSnapshot) : InstrumentSnapshot :=
  MkInstrumentSnapshot (is_InstrumentID s) (is_BaseSymbol s) (is_QuoteSymbol s) (is_Mode s)
    (is_Status s) (is_Paused s) (is_Pause s) (is_Reference s) (Inventory s) (InventoryAvailable s)
    (TargetInventory s) (is_MaxBaseDeviation s) (is_Venues s) (is_TradeSimulation s) (is_Error s)
    v (TickDurationMS s) (ReferenceDurationMS s) (BalanceDurationMS s).
Definition set_TickDurationMS (v : Z) (s : InstrumentSnapshot) : InstrumentSnapshot :=
  MkInstrumentSnapshot (is_InstrumentID s) (is_BaseSymbol s) (is_QuoteSymbol s) (is_Mode s)
    (is_Status s) (is_Paused s) (is_Pause s) (is_Reference s) (Inventory s) (InventoryAvailable s)
    (TargetInventory s) (is_MaxBaseDeviation s) (is_Venues s) (is_TradeSimulation s) (is_Error s)
    (is_UpdatedAt s) v (ReferenceDurationMS s) (BalanceDurationMS s).
Definition set_ReferenceDurationMS (v : Z) (s : InstrumentSnapshot) : InstrumentSnapshot :=
  MkInstrumentSnapshot (is_InstrumentID s) (is_BaseSymbol s) (is_QuoteSymbol s) (is_Mode s)
    (is_Status s) (is_Paused s) (is_Pause s) (is_Reference s) (Inventory s) (InventoryAvailable s)
    (TargetInventory s) (is_MaxBaseDeviation s) (is_Venues s) (is_TradeSimulation s) (is_Error s)
    (is_UpdatedAt s) (TickDurationMS s) v (BalanceDurationMS s).
Definition set_BalanceDurationMS (v : Z) (s : InstrumentSnapshot) : InstrumentSnapshot :=
  MkInstrumentSnapshot (is_InstrumentID s) (is_BaseSymbol s) (is_QuoteSymbol s) (is_Mode s)
    (is_Status s) (is_Paused s) (is_Pause s) (is_Reference s) (Inventory s) (InventoryAvailable s)
    (TargetInventory s) (is_MaxBaseDeviation s) (is_Venues s) (is_TradeSimulation s) (is_Error s)
    (is_UpdatedAt s) (TickDurationMS s) (ReferenceDurationMS s) v.
