(* ===== verification/World.v ===== *)
(** Programs that act on the outside world.

    A [prog A] is a computation that may read the clock, use the state store, call
    a venue adapter, run the write guard of its caller, draw random numbers or bytes,
    send an HTTP request, use the runtime store or record audit events, and ends with a
    value, a returned error or a panic.  The
    outside is a function of the whole history ([env]); theorems quantify over it,
    so they hold for every behaviour of exchanges, stores, clocks and nodes. *)
From S2P Require Import Prelude Decimal Domain Config Json Runtimeops.

Open Scope string_scope.
Open Scope list_scope.
Open Scope Z_scope.

(** ** Actions and their results *)

(** A call that returns a value or an error. *)
Abbreviation reply A := (A + error)%type.

(** The methods of [venue.Client] and of the optional capability interfaces. *)
Inductive venue_call :=
  | CTopBook (symbol : string)
  | CBalances
  | COpenOrders (symbol : string)
  | CPlacePostOnly (request : PlaceRequest)
  | CPlaceBatch (requests : list PlaceRequest)
  | CCancelOrder (symbol orderID : string)
  | CCancelOrders (symbol : string) (orderIDs : list string)
  | COrder (symbol orderID : string)
  | CRecentFills (symbol : string) (limit : Z)
  | CMarketRules (symbol : string).

Definition venue_result (c : venue_call) : Type :=
  match c with
  | CTopBook _ => reply Book
  | CBalances => reply (list Balance)
  | COpenOrders _ => reply (list Order)
  | CPlacePostOnly _ => reply Order
  | CPlaceBatch _ => list Order * option error
  | CCancelOrder _ _ => option error
  | CCancelOrders _ _ => option error
  | COrder _ _ => reply Order
  | CRecentFills _ _ => reply (list Fill)
  | CMarketRules _ => reply MarketRules
  end.

(** What came back from an HTTP endpoint: the status, the text of the body, and
    the JSON value the text denotes, if any. *)
Record HttpResponse := MkHttpResponse {
  StatusCode : Z;
  Body : string;
  Parsed : option Json
}.

(** A request of an adapter: the method, the address with its query, the headers. *)
Record HttpRequest := MkHttpRequest {
  ReqMethod : string;
  URL : string;
  Header : list (string * string)
}.

(** The methods of [engine.RuntimeStore] and of the optional interfaces of the runtime
    store: snapshots and controls, market leases, reports. *)
Inductive runtime_call :=
  | RPublish (snapshot : InstrumentSnapshot)
  | RGet (instrumentID : string)
  | RPaused
  | RReconciles
  | RClearReconcile (instrumentID : string)
  | RAcquireMarketLease (key owner : string) (ttl : Duration)
  | RValidateMarketLease (key owner : string) (generation : Z)
  | RReleaseMarketLease (key owner : string) (generation : Z)
  | RReportTradingProgress
  | RReportCyclePerformance (performance : CyclePerformance)
  | RReportMetrics (metrics : MetricsSnapshot)
  | RReportRuleChange (change : RuleChange)
  | RAppendSimulatedFill (instrumentID : string) (fill : Fill).

Definition runtime_result (c : runtime_call) : Type :=
  match c with
  | RGet _ => InstrumentSnapshot * option error
  | RPaused => reply (gmap string PauseState)
  | RReconciles => reply (gmap string ReconcileRequest)
  | RAcquireMarketLease _ _ _ => Z * option error
  | RValidateMarketLease _ _ _ => bool * option error
  | _ => option error
  end.

(** The methods of [audit.Logger]. *)
Inductive audit_call :=
  | ARecord (eventType : string) (data : Json)
  | AFlush
  | APendingCount.

Definition audit_result (c : audit_call) : Type :=
  match c with APendingCount => Z | _ => option error end.

(** [configstore.Snapshot] *)
Record ConfigSnapshot := MkConfigSnapshot {
  cs_Version : Z;
  cs_Config : Config;
  PublishedAt : Time
}.

(** The services around the process: the versioned configurations
    (internal/configstore), the credentials (internal/credentials), the state that
    engine and watchdog share (internal/runtimeops), the heartbeat file
    (internal/heartbeat) and the random owner id of an engine. *)
Inductive host_call :=
  | HLoadActive
  | HLoadVersion (version : Z)
  | HResolveCredential (id : Z) (venueType : string)
  | HAppliedVersion
  | HSetAppliedVersion (version : Z)
  | HTradingProgress
  | HReportWatchdog (healthy actionTriggered : bool) (reason cancelError : string)
  | HHeartbeat (version desiredVersion : Z) (ready : bool) (errorText : string)
  | HHeartbeatAge (path : string)
  | HTouch (path : string)
  | HNewOwnerID.

Definition host_result (c : host_call) : Type :=
  match c with
  | HLoadActive => reply ConfigSnapshot
  | HLoadVersion _ => reply ConfigSnapshot
  | HResolveCredential _ _ => reply (string * string)
  | HAppliedVersion => Z
  | HSetAppliedVersion _ => option error
  | HTradingProgress => Time
  | HReportWatchdog _ _ _ _ => option error
  | HHeartbeat _ _ _ _ => option error
  | HHeartbeatAge _ => reply Duration
  | HTouch _ => option error
  | HNewOwnerID => string
  end.

Inductive action :=
  | Now
  | LoadState (namespace key : string)
  | SaveState (namespace key : string) (payload : Json)
  | DeleteState (namespace key : string)
  | Call (client : string) (c : venue_call)
  | Guard
  | RandInt (max : Z)
  | HttpPost (url : string) (payload : Json)
  | HttpDo (request : HttpRequest)
  | RandRead (n : nat)
  | Runtime (c : runtime_call)
  | Audit (c : audit_call)
  | Host (c : host_call).

(** An empty payload is the absence of a stored state; the inner option is the
    JSON value of a non-empty payload, if it is valid JSON. *)
Definition result (a : action) : Type :=
  match a with
  | Now => Time
  | LoadState _ _ => reply (option (option Json))
  | SaveState _ _ _ => option error
  | DeleteState _ _ => option error
  | Call _ c => venue_result c
  | Guard => option error
  | RandInt _ => reply Z
  | HttpPost _ _ => reply HttpResponse
  | HttpDo _ => reply HttpResponse
  | RandRead _ => reply (list Z)
  | Runtime c => runtime_result c
  | Audit c => audit_result c
  | Host c => host_result c
  end.

(** ** A world where nothing answers

    The clock stands still, reads fail, the store is empty and writes succeed without
    effect: the base on which concrete environments override single answers. *)
Definition offline_venue (c : venue_call) : venue_result c :=
  match c with
  | CTopBook _ => inr (Errorf "offline")
  | CBalances => inr (Errorf "offline")
  | COpenOrders _ => inr (Errorf "offline")
  | CPlacePostOnly _ => inr (Errorf "offline")
  | CPlaceBatch _ => ([], None)
  | CCancelOrder _ _ => None
  | CCancelOrders _ _ => None
  | COrder _ _ => inr (Errorf "offline")
  | CRecentFills _ _ => inr (Errorf "offline")
  | CMarketRules _ => inr (Errorf "offline")
  end.

Definition zero_instrument_snapshot : InstrumentSnapshot :=
  MkInstrumentSnapshot "" "" "" "" "" false None None Zero false Zero Zero [] None "" zero_time 0 0 0.

Definition offline_runtime (c : runtime_call) : runtime_result c :=
  match c with
  | RGet _ => (zero_instrument_snapshot, Some (Errorf "offline"))
  | RPaused => inl ∅
  | RReconciles => inl ∅
  | RAcquireMarketLease _ _ _ => (0, Some (Errorf "offline"))
  | RValidateMarketLease _ _ _ => (false, Some (Errorf "offline"))
  | RPublish _ => None
  | RClearReconcile _ => None
  | RReleaseMarketLease _ _ _ => None
  | RReportTradingProgress => None
  | RReportCyclePerformance _ => None
  | RReportMetrics _ => None
  | RReportRuleChange _ => None
  | RAppendSimulatedFill _ _ => None
  end.

Definition offline_audit (c : audit_call) : audit_result c :=
  match c with APendingCount => 0 | ARecord _ _ => None | AFlush => None end.

Definition offline_host (c : host_call) : host_result c :=
  match c with
  | HLoadActive => inr (Errorf "offline")
  | HLoadVersion _ => inr (Errorf "offline")
  | HResolveCredential _ _ => inr (Errorf "offline")
  | HAppliedVersion => 0
  | HSetAppliedVersion _ => None
  | HTradingProgress => zero_time
  | HReportWatchdog _ _ _ _ => None
  | HHeartbeat _ _ _ _ => None
  | HHeartbeatAge _ => inr (Errorf "offline")
  | HTouch _ => None
  | HNewOwnerID => "owner"
  end.

Definition offline (a : action) : result a :=
  match a with
  | Now => 0
  | LoadState _ _ => inl None
  | SaveState _ _ _ => None
  | DeleteState _ _ => None
  | Call _ c => offline_venue c
  | Guard => None
  | RandInt _ => inr (Errorf "offline")
  | HttpPost _ _ => inr (Errorf "offline")
  | HttpDo _ => inr (Errorf "offline")
  | RandRead _ => inr (Errorf "offline")
  | Runtime c => offline_runtime c
  | Audit c => offline_audit c
  | Host c => offline_host c
  end.

Record event := MkEvent { ev_action : action; ev_result : result ev_action }.

Abbreviation trace := (list event) (only parsing).

(** ** Programs *)

Inductive prog (A : Type) :=
  | Done (a : A)
  | Fail (e : error)
  | Crash (msg : string)
  | Do (act : action) (k : result act -> prog A).
Arguments Done {A} a.
Arguments Fail {A} e.
Arguments Crash {A} msg.
Arguments Do {A} act k.

Fixpoint prog_bind {A B} (f : A -> prog B) (c : prog A) : prog B :=
  match c with
  | Done a => f a
  | Fail e => Fail e
  | Crash m => Crash m
  | Do act k => Do act (fun r => prog_bind f (k r))
  end.

#[export] Instance prog_ret : MRet prog := fun A => Done.
#[export] Instance prog_mbind : MBind prog := fun A B f c => prog_bind f c.

Definition act (a : action) : prog (result a) := Do a Done.

(** Code without effects inside a program. *)
Definition lift {A} (c : go A) : prog A :=
  match c with Ret a => Done a | Err e => Fail e | Panic m => Crash m end.

(** [v, err := f()]: the error as a value. *)
Fixpoint try {A} (c : prog A) : prog (reply A) :=
  match c with
  | Done a => Done (inl a)
  | Fail e => Done (inr e)
  | Crash m => Crash m
  | Do act k => Do act (fun r => try (k r))
  end.

(** A [for] loop over a slice with a carried state. *)
Fixpoint foldP {A B} (f : B -> A -> prog B) (l : list A) (b : B) : prog B :=
  match l with
  | [] => Done b
  | a :: l' => b' ← f b a; foldP f l' b'
  end.

(** ** Running a program *)

Definition Env := trace -> forall a : action, result a.

Fixpoint run {A} (env : Env) (past : trace) (p : prog A) : trace * go A :=
  match p with
  | Done a => ([], Ret a)
  | Fail e => ([], Err e)
  | Crash m => ([], Panic m)
  | Do act k =>
      let r := env past act in
      let '(tr, o) := run env (past ++ [MkEvent act r]) (k r) in
      (MkEvent act r :: tr, o)
  end.

(** [yields p es o]: some execution of [p] has the events [es] and the outcome [o]. *)
Fixpoint yields {A} (p : prog A) (es : trace) (o : go A) : Prop :=
  match p with
  | Done a => es = [] /\ o = Ret a
  | Fail e => es = [] /\ o = Err e
  | Crash m => es = [] /\ o = Panic m
  | Do act k => exists r es', es = MkEvent act r :: es' /\ yields (k r) es' o
  end.

Lemma run_yields {A} env past (p : prog A) es o : run env past p = (es, o) -> yields p es o.
Proof.
  revert past es. induction p as [a|e|m|a k IH]; intros past es; simpl; try by intros [= <- <-].
  destruct (run env _ (k (env past a))) as [es' o'] eqn:E. intros [= <- <-].
  exists (env past a), es'. split; [done|]. by eapply IH.
Qed.

(** ** Specifications

    [spec adm p Q]: whatever admissible results the world gives, the events of a
    run of [p] and its outcome satisfy [Q]. *)

Section Spec.
Context (adm : forall a : action, result a -> Prop).

Fixpoint spec {A} (p : prog A) (Q : trace -> go A -> Prop) : Prop :=
  match p with
  | Done a => Q [] (Ret a)
  | Fail e => Q [] (Err e)
  | Crash m => Q [] (Panic m)
  | Do act k => forall r, adm act r -> spec (k r) (fun es o => Q (MkEvent act r :: es) o)
  end.

Definition env_ok (env : Env) : Prop := forall past a, adm a (env past a).

Lemma spec_run {A} (p : prog A) Q env past :
  env_ok env -> spec p Q -> Q (fst (run env past p)) (snd (run env past p)).
Proof.
  intros He. revert past Q. induction p as [a|e|m|a k IH]; intros past Q H; simpl in *; try done.
  specialize (IH _ (past ++ [MkEvent a (env past a)]) _ (H _ (He past a))).
  by destruct (run env _ (k (env past a))).
Qed.

Lemma spec_mono {A} (p : prog A) (P Q : trace -> go A -> Prop) :
  (forall es o, P es o -> Q es o) -> spec p P -> spec p Q.
Proof.
  revert P Q. induction p as [a|e|m|a k IH]; intros P Q HPQ; simpl; auto.
  intros H r Hr. eapply IH; [|by apply H]. simpl. auto.
Qed.

(** The continuation is specified on the values of the first part; errors and
    panics of the first part end the program. *)
Lemma spec_bind {A B} (c : prog A) (f : A -> prog B) (Q : trace -> go B -> Prop) :
  spec c (fun es o => match o with
    | Ret a => spec (f a) (fun es' o' => Q (es ++ es') o')
    | Err e => Q es (Err e)
    | Panic m => Q es (Panic m)
    end) -> spec (c ≫= f) Q.
Proof.
  revert Q. induction c as [a|e|m|a k IH]; intros Q; simpl; auto.
Qed.

Lemma spec_act {A} (a : action) (k : result a -> prog A) Q :
  (forall r, adm a r -> spec (k r) (fun es o => Q (MkEvent a r :: es) o)) ->
  spec (act a ≫= k) Q.
Proof. done. Qed.

Lemma spec_lift {A} (c : go A) Q : Q [] c -> spec (lift c) Q.
Proof. by destruct c. Qed.

Lemma spec_try {A} (c : prog A) Q :
  spec c (fun es o => match o with
    | Ret a => Q es (Ret (inl a)) | Err e => Q es (Ret (inr e)) | Panic m => Q es (Panic m) end) ->
  spec (try c) Q.
Proof.
  revert Q. induction c as [a|e|m|a k IH]; intros Q; simpl; auto.
Qed.

Lemma spec_and {A} (p : prog A) P Q : spec p P -> spec p Q -> spec p (fun es o => P es o /\ Q es o).
Proof.
  revert P Q. induction p as [a|e|m|a k IH]; intros P Q; simpl; auto.
Qed.

(** What holds of every execution, with the execution itself. *)
Lemma spec_yields {A} (p : prog A) Q : spec p Q -> spec p (fun es o => yields p es o /\ Q es o).
Proof.
  revert Q. induction p as [a|e|m|a k IH]; intros Q; simpl; auto.
  intros H r Hr. eapply spec_mono; [|by apply IH, H]. simpl. intros es o [Hy HQ]. eauto.
Qed.

(** Loop rule with an invariant on the events so far and the carried state. *)
Lemma spec_foldP {A B} (f : B -> A -> prog B) (I : list A -> trace -> B -> Prop)
    (F : trace -> go B -> Prop) l b :
  I l [] b ->
  (forall x l' es b, I (x :: l') es b -> spec (f b x) (fun es' o => match o with
     | Ret b' => I l' (es ++ es') b'
     | Err e => F (es ++ es') (Err e)
     | Panic m => F (es ++ es') (Panic m) end)) ->
  spec (foldP f l b) (fun es o => match o with
     | Ret b' => I [] es b' | Err e => F es (Err e) | Panic m => F es (Panic m) end).
Proof.
  intros H0 Hf.
  assert (Hg : forall es0 b, I l es0 b -> spec (foldP f l b) (fun es o => match o with
     | Ret b' => I [] (es0 ++ es) b' | Err e => F (es0 ++ es) (Err e)
     | Panic m => F (es0 ++ es) (Panic m) end)).
  { clear H0 b. induction l as [|x l IH]; intros es0 b Hb; simpl; [by rewrite app_nil_r|].
    apply spec_bind. eapply spec_mono; [|apply (Hf x l es0 b Hb)].
    intros es [b'|e|m] H; simpl in *; try done.
    eapply spec_mono; [|apply (IH (es0 ++ es) b' H)].
    intros es' [?|?|?]; by rewrite app_assoc. }
  apply (Hg []). exact H0.
Qed.
End Spec.

(** No assumption on the outside. *)
Definition any_result (a : action) (r : result a) : Prop := True.

Lemma spec_any {A} (p : prog A) Q env past :
  spec any_result p Q -> Q (fst (run env past p)) (snd (run env past p)).
Proof. by apply spec_run. Qed.

(** The documented contract of [crypto/rand.Int]: a uniform value in [0, max). *)
Definition rand_contract (a : action) : result a -> Prop :=
  match a with
  | RandInt max => fun r => match r with inl v => 0 <= v < max | inr _ => True end
  | _ => fun _ => True
  end.

(** ** A store that works

    [stored ns key past] is what a working store holds after a history: the last
    payload saved successfully and not deleted since. *)
Definition store_effect (ns key : string) (e : event) (cur : option Json) : option Json :=
  match e with
  | MkEvent (SaveState n k payload) None =>
      if String.eqb n ns && String.eqb k key then Some payload else cur
  | MkEvent (DeleteState n k) None =>
      if String.eqb n ns && String.eqb k key then None else cur
  | _ => cur
  end.

Definition stored (ns key : string) (past : trace) : option Json :=
  foldl (fun cur e => store_effect ns key e cur) None past.

(** Loads return what is stored, saves and deletes succeed. *)
Definition honest_store (env : Env) : Prop :=
  (forall past ns key, env past (LoadState ns key) =
     inl (match stored ns key past with Some j => Some (Some j) | None => None end))
  /\ (forall past ns key payload, env past (SaveState ns key payload) = None)
  /\ (forall past ns key, env past (DeleteState ns key) = None).

Lemma stored_app ns key past es :
  stored ns key (past ++ es) = foldl (fun cur e => store_effect ns key e cur) (stored ns key past) es.
Proof. apply foldl_app. Qed.

Lemma run_bind {A B} env past (c : prog A) (f : A -> prog B) :
  run env past (c ≫= f) =
    let '(es, o) := run env past c in
    match o with
    | Ret a => let '(es', o') := run env (past ++ es) (f a) in (es ++ es', o')
    | Err e => (es, Err e)
    | Panic m => (es, Panic m)
    end.
Proof.
  revert past. induction c as [a|e|m|a k IH]; intros past; simpl.
  - rewrite app_nil_r. by destruct (run env past (f a)).
  - done.
  - done.
  - rewrite IH. destruct (run env _ (k (env past a))) as [es [x|e|m]]; try done.
    rewrite <- app_assoc. simpl. by destruct (run env _ (f x)).
Qed.

(** ** Programs that always return

    [ok p Q]: whatever the world answers, [p] returns a value, and its events and
    that value satisfy [Q]. *)
Definition returns {A} (Q : trace -> A -> Prop) (es : trace) (o : go A) : Prop :=
  match o with Ret a => Q es a | _ => False end.

Definition ok {A} (p : prog A) (Q : trace -> A -> Prop) : Prop := spec any_result p (returns Q).

Lemma ok_done {A} (a : A) (Q : trace -> A -> Prop) : Q [] a -> ok (Done a) Q.
Proof. done. Qed.

Lemma ok_mono {A} (p : prog A) (P Q : trace -> A -> Prop) :
  ok p P -> (forall es a, P es a -> Q es a) -> ok p Q.
Proof. intros H HPQ. eapply spec_mono; [|exact H]. intros es [a|e|m]; simpl; auto. Qed.

Lemma ok_bind {A B} (p : prog A) (f : A -> prog B) (P : trace -> A -> Prop) (Q : trace -> B -> Prop) :
  ok p P -> (forall es a, P es a -> ok (f a) (fun es' b => Q (es ++ es') b)) -> ok (p ≫= f) Q.
Proof.
  intros H Hf. apply spec_bind. eapply spec_mono; [|exact H].
  intros es [a|e|m] HP; [|destruct HP|destruct HP]. by apply Hf.
Qed.

Lemma ok_act {B} (a : action) (f : result a -> prog B) (Q : trace -> B -> Prop) :
  (forall r, ok (f r) (fun es b => Q (MkEvent a r :: es) b)) -> ok (act a ≫= f) Q.
Proof. intros H r _. apply (H r). Qed.

Lemma ok_done_bind {A B} (a : A) (f : A -> prog B) (Q : trace -> B -> Prop) :
  ok (f a) Q -> ok (Done a ≫= f) Q.
Proof. done. Qed.

Lemma ok_act_last (a : action) (Q : trace -> result a -> Prop) :
  (forall r, Q [MkEvent a r] r) -> ok (act a) Q.
Proof. intros H r _. apply H. Qed.

Lemma ok_and {A} (p : prog A) (P Q : trace -> A -> Prop) :
  ok p P -> ok p Q -> ok p (fun es a => P es a /\ Q es a).
Proof.
  intros H1 H2. eapply spec_mono; [|exact (spec_and _ _ _ _ H1 H2)].
  intros es [a|e|m]; simpl; tauto.
Qed.

Lemma ok_yields {A} (p : prog A) (Q : trace -> A -> Prop) :
  ok p Q -> ok p (fun es a => yields p es (Ret a) /\ Q es a).
Proof.
  intros H. eapply spec_mono; [|exact (spec_yields _ _ _ H)]. by intros es [a|e|m] [Hy HQ].
Qed.

Lemma ok_foldP {A B} (f : B -> A -> prog B) (I : trace -> B -> Prop) l b :
  I [] b ->
  (forall x es b, x ∈ l -> I es b -> ok (f b x) (fun es' b' => I (es ++ es') b')) ->
  ok (foldP f l b) I.
Proof.
  intros H0 Hf.
  assert (Hg : forall l' es0 b, (forall x, x ∈ l' -> x ∈ l) -> I es0 b ->
    ok (foldP f l' b) (fun es b' => I (es0 ++ es) b')).
  { clear H0 b. induction l' as [|x l' IH]; intros es0 b Hl Hb; simpl.
    { apply ok_done. by rewrite app_nil_r. }
    eapply ok_bind; [apply (Hf x es0 b); [apply Hl; left|done]|].
    intros es a Ha. eapply ok_mono; [apply IH; [|exact Ha]|].
    - intros y Hy. apply Hl. by right.
    - intros es' b' Hb'. by rewrite app_assoc. }
  apply (Hg l [] b); auto.
Qed.

Lemma ok_run {A} (p : prog A) (Q : trace -> A -> Prop) env past :
  ok p Q -> exists es a, run env past p = (es, Ret a) /\ Q es a.
Proof.
  intros H. pose proof (spec_any p _ env past H) as Hr.
  destruct (run env past p) as [es [a|e|m]]; simpl in Hr; [|done|done]. by exists es, a.
Qed.

Lemma ok_run_ret {A} (p : prog A) (Q : trace -> A -> Prop) env past es a :
  ok p Q -> run env past p = (es, Ret a) -> Q es a.
Proof. intros H E. destruct (ok_run p Q env past H) as (es' & a' & E' & HQ). rewrite E in E'. by injection E' as <- <-. Qed.
