(* ===== verification/Tradesim.v ===== *)
(** The synthetic trade generator (src/internal/tradesim/generator.go).

    [Observe] emits at most one internal fill per call; its only effects are draws
    from the random source, and the map of per-instrument states is passed along
    explicitly.  [crypto/rand.Int] is the action [RandInt]. *)
From S2P Require Import Prelude Decimal Domain TradesimData Config Strategy Json World.

Open Scope string_scope.
Open Scope list_scope.
Open Scope Z_scope.

Export TradesimData.

Record state := MkState {
  nextAt : Time;
  lastGeneratedAt : Time;
  fills : list Fill;
  sequence : Z
}.

Definition zero_state : state := MkState zero_time zero_time [] 0.

Abbreviation Generator := (gmap string state) (only parsing).
Definition New : Generator := ∅.

(** ** Random choices *)

Definition randomBelow (max : Z) : prog Z :=
  if max <=? 1 then Done 0 else
  r ← act (RandInt max);
  match r with inl value => Done value | inr _ => Done 0 end.

Definition randomDuration (minMS maxMS : Z) : prog Duration :=
  if maxMS <=? minMS then Done (minMS *i Millisecond)%go else
  r ← randomBelow (maxMS -i minMS +i 1)%go;
  Done ((minMS +i r) *i Millisecond)%go.

Definition randomStep (minimum maximum step : Decimal) : prog Decimal :=
  let delta := Sub maximum minimum in
  if Sign delta <? 0 then Fail (Errorf "invalid random range") else
  if DIsZero step then Crash "division by zero" else
  let quotient := Qred (rat delta / rat step) in
  let steps := Z.quot (Qnum quotient) (Zpos (Qden quotient)) + 1 in
  r ← act (RandInt steps);
  match r with
  | inr err => Fail (Wrapf "secure random: " err)
  | inl choice => Done (Add minimum (Mul step (FromRat (inject_Z choice))))
  end.

(** ** One fill *)

(** Lower and upper bound of the quantity. *)
Definition fillQuantities (cfg : TradeSimulationConfig) (market : VenueMarketConfig)
    (price : Decimal) : go (Decimal * Decimal) :=
  minQuantity ← QuantizeUp (sim_MinQuantity cfg) (QuantityStep market);
  minQuantity ← (if IsPositive (MinQuantity market) then
                   q ← QuantizeUp (MinQuantity market) (QuantityStep market);
                   Ret (DMax minQuantity q)
                 else Ret minQuantity);
  minQuantity ← (if IsPositive (MinNotional market) then
                   raw ← Div (MinNotional market) price;
                   q ← QuantizeUp raw (QuantityStep market);
                   Ret (DMax minQuantity q)
                 else Ret minQuantity);
  maxQuantity ← QuantizeDown (sim_MaxQuantity cfg) (QuantityStep market);
  maxQuantity ← (if IsPositive (MaxQuantity market) then
                   q ← QuantizeDown (MaxQuantity market) (QuantityStep market);
                   Ret (DMin maxQuantity q)
                 else Ret maxQuantity);
  Ret (minQuantity, maxQuantity).

Definition innerPrices (book : Book) (tick : Decimal) : go (Decimal * Decimal) :=
  low ← QuantizeDown (BidPrice book) tick;
  high ← QuantizeUp (AskPrice book) tick;
  Ret (Add low tick, Sub high tick).

Definition UnixMilli (t : Time) : Z := t / Millisecond.

Definition generateFill (i : InstrumentConfig) (venueName : string)
    (market : VenueMarketConfig) (book : Book) (now : Time) (seq : Z) : prog Fill :=
  prices ← lift (innerPrices book (PriceTick market));
  let '(firstPrice, lastPrice) := prices in
  if (Cmp firstPrice (BidPrice book) <=? 0) || (0 <=? Cmp lastPrice (AskPrice book))
     || (0 <? Cmp firstPrice lastPrice)
  then Fail (Errorf "no price tick exists strictly inside bid/ask") else
  price ← randomStep firstPrice lastPrice (PriceTick market);
  let cfg := TradeSimulation i in
  quantities ← lift (fillQuantities cfg market price);
  let '(minQuantity, maxQuantity) := quantities in
  if 0 <? Cmp minQuantity maxQuantity
  then Fail (Errorf "configured quantity range cannot satisfy exchange minimums") else
  quantity ← randomStep minQuantity maxQuantity (QuantityStep market);
  draw ← randomBelow 10000;
  let side := if draw <? BuyProbabilityBPS cfg then Buy else Sell in
  Done (MkFill venueName
    ("SIM-" +:+ ID i +:+ "-" +:+ pretty (UnixMilli now) +:+ "-" +:+ pretty seq) ""
    (market_Symbol market) side price quantity (Mul price quantity) Zero "" false false true now).

(** ** Observe *)

Definition snapshot_of (cfg : TradeSimulationConfig) (status error : string) (st : state)
    : Snapshot :=
  MkSnapshot (sim_Enabled cfg) (SourceVenue cfg) status (lastGeneratedAt st) (nextAt st)
    (fills st) error.

(** [current.fills[:limit]]; a negative bound panics. *)
Definition truncateFills (limit : Z) (l : list Fill) : go (list Fill) :=
  if limit <? Z.of_nat (length l) then
    if limit <? 0 then Panic "slice bounds out of range" else Ret (take (Z.to_nat limit) l)
  else Ret l.

Definition Observe (g : Generator) (i : InstrumentConfig) (venueName : string)
    (market : VenueMarketConfig) (book : Book) (now : Time)
    : prog (Snapshot * option Fill * Generator) :=
  let cfg := TradeSimulation i in
  if negb (sim_Enabled cfg) || negb (String.eqb venueName (SourceVenue cfg)) then
    Done (MkSnapshot (sim_Enabled cfg) (SourceVenue cfg) "disabled" zero_time zero_time [] "",
          None, g)
  else
  let current := default zero_state (g !! ID i) in
  current ← (if IsZero (nextAt current) then
               d ← randomDuration (MinIntervalMS cfg) (MaxIntervalMS cfg);
               Done (MkState (now + d) (lastGeneratedAt current) (fills current) (sequence current))
             else Done current);
  if negb (Before now (nextAt current)) then
    outcome ← try (generateFill i venueName market book now (wrapU64 (sequence current + 1)));
    d ← randomDuration (MinIntervalMS cfg) (MaxIntervalMS cfg);
    match outcome with
    | inr err =>
        let current := MkState (now + d) (lastGeneratedAt current) (fills current)
                         (sequence current) in
        Done (snapshot_of cfg "skipped" (Error err) current, None, <[ID i := current]> g)
    | inl fill =>
        kept ← lift (truncateFills (RecentLimit cfg) (fill :: fills current));
        let current := MkState (now + d) now kept (wrapU64 (sequence current + 1)) in
        Done (snapshot_of cfg "running" "" current, Some fill, <[ID i := current]> g)
    end
  else Done (snapshot_of cfg "waiting" "" current, None, <[ID i := current]> g).

(** ** What a fill satisfies *)

Definition fill_ok (cfg : TradeSimulationConfig) (market : VenueMarketConfig) (book : Book)
    (f : Fill) : Prop :=
  is_multiple (fill_Price f) (PriceTick market)
  /\ is_multiple (fill_Quantity f) (QuantityStep market)
  /\ (rat (BidPrice book) < rat (fill_Price f) /\ rat (fill_Price f) < rat (AskPrice book))%Q
  /\ (rat (sim_MinQuantity cfg) <= rat (fill_Quantity f)
      /\ rat (fill_Quantity f) <= rat (sim_MaxQuantity cfg))%Q
  /\ (IsPositive (MinQuantity market) = true -> rat (MinQuantity market) <= rat (fill_Quantity f))%Q
  /\ (IsPositive (MaxQuantity market) = true -> rat (fill_Quantity f) <= rat (MaxQuantity market))%Q
  /\ (IsPositive (MinNotional market) = true ->
        rat (MinNotional market) <= rat (fill_Price f) * rat (fill_Quantity f))%Q
  /\ (fill_Side f = Buy \/ fill_Side f = Sell)
  /\ Simulated f = true /\ fill_Symbol f = market_Symbol market.

(** Only random draws. *)
Definition random_only (es : trace) : Prop :=
  Forall (fun e => exists n, ev_action e = RandInt n) es.

Lemma randomBelow_spec max :
  spec rand_contract (randomBelow max) (fun es o =>
    random_only es /\ exists v, o = Ret v /\ 0 <= v /\ (1 < max -> v < max) /\ (max <= 1 -> v = 0)).
Proof.
  unfold randomBelow. destruct (max <=? 1) eqn:E.
  { simpl. split; [constructor|]. exists 0. split_and!; try done; lia. }
  apply spec_act. intros [v|e] Hv; simpl; (split; [repeat constructor; by eexists|]).
  - exists v. simpl in Hv. split_and!; try done; lia.
  - exists 0. split_and!; try done; lia.
Qed.

Lemma randomDuration_spec minMS maxMS :
  0 <= minMS -> maxMS * Millisecond <= max_int64 -> minMS * Millisecond <= max_int64 ->
  spec rand_contract (randomDuration minMS maxMS) (fun es o =>
    random_only es /\ exists d, o = Ret d
      /\ minMS * Millisecond <= d <= Z.max minMS maxMS * Millisecond).
Proof.
  intros Hmin Hmax Hmm. unfold randomDuration, Millisecond in *.
  destruct (maxMS <=? minMS) eqn:E.
  { simpl. split; [constructor|]. eexists. split; [done|]. unfold max_int64 in *. wrap_simpl. lia. }
  apply Z.leb_gt in E. apply spec_bind. eapply spec_mono; [|apply randomBelow_spec].
  intros es o (He & v & -> & Hv & Hlt & Hz). simpl. split; [by rewrite app_nil_r|].
  eexists. split; [done|]. unfold max_int64 in *.
  revert Hlt Hz. wrap_simpl. intros Hlt Hz.
  assert (v <= maxMS - minMS) by (destruct (Z.le_gt_cases (maxMS - minMS + 1) 1); lia).
  wrap_simpl. lia.
Qed.

(** A draw of whole steps between two multiples of the step. *)
Lemma randomStep_spec minimum maximum step :
  (0 < rat step)%Q -> (rat minimum <= rat maximum)%Q -> is_multiple minimum step ->
  spec rand_contract (randomStep minimum maximum step) (fun es o =>
    random_only es /\ ((exists v, o = Ret v /\ is_multiple v step
       /\ (rat minimum <= rat v /\ rat v <= rat maximum)%Q) \/ exists e, o = Err e)).
Proof.
  intros Hs Hle Hm. unfold randomStep. cbv zeta.
  assert (Hd : (0 <= rat (Sub maximum minimum))%Q) by (dec_norm; lra).
  assert (E : (Sign (Sub maximum minimum) <? 0) = false).
  { destruct (_ <? 0) eqn:E; [|done]. dec_hyps. lra. }
  rewrite E. assert (Ez : DIsZero step = false) by (apply DIsZero_false; lra). rewrite Ez.
  destruct (Qdiv_nonneg_floor _ _ Hd Hs) as (Hn & Hlo & _).
  rewrite quot_floor by (rewrite Qred_correct; apply Qle_shift_div_l; lra).
  set (n := Qfloor _) in *. clearbody n.
  apply spec_act. intros [c|e] Hc; simpl; (split; [repeat constructor; by eexists|]);
    [left|right; by eexists].
  simpl in Hc. exists (Add minimum (Mul step (FromRat (inject_Z c)))). split; [done|]. split.
  { apply is_multiple_add; [done|]. exists c. dec_norm. ring. }
  dec_norm. destruct Hc as [H0 H1]. apply inject_Z_le in H0.
  assert (H2 : (inject_Z c <= inject_Z n)%Q) by (apply inject_Z_le; lia).
  apply (Qmult_le_compat_r _ _ (rat step)) in H0, H2; [|lra|lra].
  change (inject_Z 0) with 0%Q in H0. split; lra.
Qed.

Lemma innerPrices_post book tick :
  (0 < rat tick)%Q -> (0 <= rat (BidPrice book))%Q -> (0 <= rat (AskPrice book))%Q ->
  post (innerPrices book tick) (fun p => is_multiple (fst p) tick
    /\ (rat (BidPrice book) < rat (fst p))%Q).
Proof.
  intros Ht Hb Ha. unfold innerPrices.
  apply post_bind, QuantizeDown_post; [done|done|]. intros low (Hl & _ & _ & Hlt).
  apply post_bind, QuantizeUp_post; [done|done|]. intros high _. simpl.
  split; [auto with go|]. dec_norm. lra.
Qed.

Record simulation_pre (cfg : TradeSimulationConfig) (market : VenueMarketConfig)
    (book : Book) : Prop := {
  sim_tick : (0 < rat (PriceTick market))%Q;
  sim_step : (0 < rat (QuantityStep market))%Q;
  sim_min : (0 < rat (sim_MinQuantity cfg))%Q;
  sim_max : (rat (sim_MinQuantity cfg) <= rat (sim_MaxQuantity cfg))%Q;
  sim_interval : 0 <= MinIntervalMS cfg <= MaxIntervalMS cfg
    /\ MaxIntervalMS cfg * Millisecond <= max_int64;
  sim_limit : 0 <= RecentLimit cfg;
  sim_book : (0 <= rat (BidPrice book) /\ 0 <= rat (AskPrice book))%Q
}.

Lemma raise_post step low x v Q :
  (0 < rat step)%Q -> (0 <= rat v)%Q ->
  (forall q, is_multiple q step -> (rat v <= rat q)%Q -> Q (DMax low q)) ->
  x = QuantizeUp v step -> post (q ← x; Ret (DMax low q)) Q.
Proof.
  intros Hs Hv HQ ->. apply post_bind, QuantizeUp_post; [done|done|].
  intros q (Hq & Hle & _). by apply HQ.
Qed.

Lemma fillQuantities_post cfg market book price :
  simulation_pre cfg market book -> (0 < rat price)%Q ->
  post (fillQuantities cfg market price) (fun b =>
    is_multiple (fst b) (QuantityStep market)
    /\ (rat (sim_MinQuantity cfg) <= rat (fst b))%Q
    /\ (IsPositive (MinQuantity market) = true -> rat (MinQuantity market) <= rat (fst b))%Q
    /\ (IsPositive (MinNotional market) = true ->
          rat (MinNotional market) <= rat price * rat (fst b))%Q
    /\ (rat (snd b) <= rat (sim_MaxQuantity cfg))%Q
    /\ (IsPositive (MaxQuantity market) = true -> rat (snd b) <= rat (MaxQuantity market))%Q).
Proof.
  intros [Ht Hs Hmin Hmax _ _ _] Hp. unfold fillQuantities. set (st := QuantityStep market) in *.
  apply post_bind, QuantizeUp_post; [lra|done|]. intros q1 (Hq1 & Hl1 & _).
  apply post_bind. apply (post_mono _ (fun q => is_multiple q st /\ (rat q1 <= rat q)%Q
    /\ (IsPositive (MinQuantity market) = true -> rat (MinQuantity market) <= rat q)%Q)).
  { destruct (IsPositive (MinQuantity market)) eqn:E; [|simpl; split_and!; [done|lra|done]].
    apply IsPositive_iff in E.
    apply (raise_post st q1 _ (MinQuantity market)); [done|by apply Qlt_le_weak| |done].
    intros q Hq Hle. split_and!; [by destruct (DMax_cases q1 q) as [->| ->]|apply DMax_ge_l|].
    intros _. pose proof (DMax_ge_r q1 q). lra. }
  intros q2 (Hq2 & Hl2 & Hmq). apply post_bind.
  apply (post_mono _ (fun q => is_multiple q st /\ (rat q2 <= rat q)%Q
    /\ (IsPositive (MinNotional market) = true ->
          rat (MinNotional market) <= rat price * rat q)%Q)).
  { destruct (IsPositive (MinNotional market)) eqn:E; [|simpl; split_and!; [done|lra|done]].
    apply IsPositive_iff in E. apply post_bind, Div_post; [lra|]. intros rw Hrw.
    apply (raise_post st q2 _ rw); [done| | |done].
    { rewrite Hrw. apply Qle_shift_div_l; lra. }
    intros q Hq Hle. split_and!; [by destruct (DMax_cases q2 q) as [->| ->]|apply DMax_ge_l|].
    intros _. pose proof (DMax_ge_r q2 q) as Hr.
    assert (Hv : (rat (MinNotional market) == rat price * rat rw)%Q) by (rewrite Hrw; field; lra).
    rewrite Hv, !(Qmult_comm (rat price)). apply Qmult_le_compat_r; lra. }
  intros q3 (Hq3 & Hl3 & Hmn). apply post_bind, QuantizeDown_post; [lra|done|].
  intros x1 (_ & _ & Hx1 & _). apply post_bind.
  apply (post_mono _ (fun x => (rat x <= rat x1)%Q
    /\ (IsPositive (MaxQuantity market) = true -> rat x <= rat (MaxQuantity market))%Q)).
  { destruct (IsPositive (MaxQuantity market)) eqn:E; [|simpl; split; [lra|done]].
    apply IsPositive_iff in E. apply post_bind, QuantizeDown_post; [lra|done|].
    intros v (_ & _ & Hle & _). simpl. split; [apply DMin_le_l|]. intros _.
    pose proof (DMin_le_r x1 v). lra. }
  intros x2 (Hx2 & Hxq). simpl. split_and!; try done; try lra.
  intros H. specialize (Hmq H). lra.
Qed.

Lemma generateFill_spec i venueName market book now seq :
  simulation_pre (TradeSimulation i) market book ->
  spec rand_contract (generateFill i venueName market book now seq) (fun es o =>
    random_only es /\ ((exists f, o = Ret f /\ fill_ok (TradeSimulation i) market book f)
                       \/ exists e, o = Err e)).
Proof.
  intros Hpre. pose proof Hpre as [Ht Hs Hmin Hmax Hint Hlim [Hb Ha]]. unfold generateFill.
  apply spec_bind, spec_lift. pose proof (innerPrices_post book (PriceTick market) Ht Hb Ha) as Hin.
  destruct (innerPrices _ _) as [[first last]|e|m]; simpl in Hin; [|split; [constructor|eauto]|done].
  destruct Hin as [Hfm Hfb]. destruct (_ || _) eqn:E; [split; [constructor|eauto]|].
  apply orb_false_iff in E as [[_ E2]%orb_false_iff E3]. dec_hyps.
  apply spec_bind. eapply spec_mono; [|apply randomStep_spec; done].
  intros es o (He & [(price & -> & Hpm & Hpl & Hph)|[e ->]]); [|split; [done|eauto]].
  cbn [app]. apply spec_bind, spec_lift.
  pose proof (fillQuantities_post (TradeSimulation i) market book price Hpre ltac:(lra)) as Hfq.
  destruct (fillQuantities _ _ _) as [[mn mx]|e|m]; simpl in Hfq;
    [|split; [by rewrite app_nil_r|eauto]|done].
  destruct Hfq as (Hq1 & Hq2 & Hq3 & Hq4 & Hq5 & Hq6).
  destruct (0 <? Cmp mn mx) eqn:Em; [split; [by rewrite !app_nil_r|eauto]|]. dec_hyps.
  apply spec_bind. eapply spec_mono; [|apply randomStep_spec; done].
  intros es' o (He' & [(qty & -> & Hqm & Hql & Hqh)|[e ->]]).
  2:{ split; [|eauto]. cbn [app]. by apply Forall_app. }
  apply spec_bind. eapply spec_mono; [|apply randomBelow_spec].
  intros es'' o (He'' & draw & -> & _). simpl. split.
  { rewrite app_nil_r. apply Forall_app. split; [done|]. by apply Forall_app. }
  left. eexists. split; [done|]. unfold fill_ok. simpl. split_and!; try done; try lra.
  - intros H. specialize (Hq3 H). lra.
  - intros H. specialize (Hq6 H). lra.
  - intros H. specialize (Hq4 H). rewrite (Qmult_comm (rat price)) in *.
    pose proof (Qmult_le_compat_r _ _ (rat price) Hql). lra.
  - destruct (draw <? _); auto.
Qed.

(** ** What one observation does *)

(** The relation between the generator before and after a call. *)
Definition observe_ok (g : Generator) (i : InstrumentConfig) (venueName : string)
    (market : VenueMarketConfig) (book : Book) (now : Time) (es : trace)
    (o : go (Snapshot * option Fill * Generator)) : Prop :=
  let cfg := TradeSimulation i in
  let old := default zero_state (g !! ID i) in
  random_only es /\ exists snap fo g', o = Ret (snap, fo, g')
  /\ (forall id, id <> ID i -> g' !! id = g !! id)
  /\ match fo with
     | None => (g' = g \/ exists st', g' = <[ID i := st']> g /\ fills st' = fills old
                          /\ sequence st' = sequence old)
     | Some f => sim_Enabled cfg = true /\ venueName = SourceVenue cfg
         /\ fill_ok cfg market book f
         /\ (nextAt old <= now \/ IsZero (nextAt old) = true)
         /\ exists st', g' = <[ID i := st']> g
            /\ snap_Fills snap = fills st'
            /\ fills st' = take (Z.to_nat (RecentLimit cfg)) (f :: fills old)
            /\ sequence st' = wrapU64 (sequence old + 1)
            /\ now + MinIntervalMS cfg * Millisecond <= nextAt st'
               <= now + MaxIntervalMS cfg * Millisecond
     end.

Lemma random_only_app es es' : random_only es -> random_only es' -> random_only (es ++ es').
Proof. intros. by apply Forall_app. Qed.

Lemma truncateFills_ret limit l : 0 <= limit ->
  truncateFills limit l = Ret (take (Z.to_nat limit) l).
Proof.
  intros Hl. unfold truncateFills. destruct (limit <? Z.of_nat (length l)) eqn:E.
  - by rewrite (proj2 (Z.ltb_ge limit 0)).
  - apply Z.ltb_ge in E. by rewrite take_ge by lia.
Qed.

(** The call once the state has a next time; [es0] are the draws made before. *)
Lemma observe_due g i venueName market book now current es0 :
  simulation_pre (TradeSimulation i) market book ->
  sim_Enabled (TradeSimulation i) = true -> venueName = SourceVenue (TradeSimulation i) ->
  random_only es0 ->
  fills current = fills (default zero_state (g !! ID i)) ->
  sequence current = sequence (default zero_state (g !! ID i)) ->
  (nextAt (default zero_state (g !! ID i)) = nextAt current
   \/ IsZero (nextAt (default zero_state (g !! ID i))) = true) ->
  spec rand_contract
    (if negb (Before now (nextAt current)) then
       outcome ← try (generateFill i venueName market book now (wrapU64 (sequence current + 1)));
       d ← randomDuration (MinIntervalMS (TradeSimulation i)) (MaxIntervalMS (TradeSimulation i));
       match outcome with
       | inr err =>
           let current := MkState (now + d) (lastGeneratedAt current) (fills current)
                            (sequence current) in
           Done (snapshot_of (TradeSimulation i) "skipped" (Error err) current, None,
                 <[ID i := current]> g)
       | inl fill =>
           kept ← lift (truncateFills (RecentLimit (TradeSimulation i)) (fill :: fills current));
           let current := MkState (now + d) now kept (wrapU64 (sequence current + 1)) in
           Done (snapshot_of (TradeSimulation i) "running" "" current, Some fill,
                 <[ID i := current]> g)
       end
     else Done (snapshot_of (TradeSimulation i) "waiting" "" current, None, <[ID i := current]> g))
    (fun es o => observe_ok g i venueName market book now (es0 ++ es) o).
Proof.
  intros Hpre Hen Hv Hes0 Hf Hq Hnx.
  pose proof Hpre as [_ _ _ _ [Hi1 Hi2] Hlim _].
  assert (Hother : forall st id, id <> ID i -> <[ID i := st]> g !! id = g !! id).
  { intros st id Hid. by rewrite lookup_insert_ne. }
  destruct (negb (Before now (nextAt current))) eqn:Hdue.
  2:{ simpl. split; [by rewrite app_nil_r|]. do 3 eexists. split; [done|]. split; [apply Hother|].
      right. eexists. split; [done|]. done. }
  apply spec_bind, spec_try. eapply spec_mono; [|by apply generateFill_spec].
  intros es o (Hes & Ho).
  assert (Hd : spec rand_contract (randomDuration (MinIntervalMS (TradeSimulation i))
      (MaxIntervalMS (TradeSimulation i))) (fun es o => random_only es /\ exists d, o = Ret d
      /\ MinIntervalMS (TradeSimulation i) * Millisecond <= d
         <= Z.max (MinIntervalMS (TradeSimulation i)) (MaxIntervalMS (TradeSimulation i)) * Millisecond)).
  { apply randomDuration_spec; unfold Millisecond in *; lia. }
  destruct Ho as [(f & -> & Hok)|[e ->]]; apply spec_bind;
    (eapply spec_mono; [|exact Hd]); intros es' o (Hes' & d & -> & Hdr).
  - rewrite truncateFills_ret by done. simpl. split.
    { rewrite app_nil_r. apply random_only_app; [done|]. by apply random_only_app. }
    do 3 eexists. split; [done|]. split; [apply Hother|]. split_and!; try done.
    { unfold Before in Hdue. apply negb_true_iff, Z.ltb_ge in Hdue.
      destruct Hnx as [->|]; auto. }
    eexists. split; [done|]. simpl. rewrite <- Hf, Hq. split_and!; try done; try lia.
    rewrite Z.max_r in Hdr by lia. lia.
  - simpl. split.
    { rewrite app_nil_r. apply random_only_app; [done|]. by apply random_only_app. }
    do 3 eexists. split; [done|]. split; [apply Hother|].
    right. eexists. split; [done|]. done.
Qed.

Lemma Observe_spec g i venueName market book now :
  simulation_pre (TradeSimulation i) market book ->
  spec rand_contract (Observe g i venueName market book now)
    (fun es o => observe_ok g i venueName market book now es o).
Proof.
  intros Hpre. unfold Observe. cbv zeta.
  destruct (negb (sim_Enabled _) || _) eqn:E.
  { simpl. split; [constructor|]. do 3 eexists. split; [done|]. split; [done|]. by left. }
  apply orb_false_iff in E as [E1 E2]. apply negb_false_iff in E1, E2.
  apply String.eqb_eq in E2. pose proof Hpre as [_ _ _ _ [Hi1 Hi2] _ _].
  set (cur := default zero_state (g !! ID i)).
  apply spec_bind. destruct (IsZero (nextAt cur)) eqn:Ez.
  - apply spec_bind. eapply spec_mono;
      [|apply randomDuration_spec; unfold Millisecond in *; lia].
    intros es o (Hes & d & -> & _). cbn [spec]. cbn [app]. rewrite app_nil_r.
    apply observe_due; auto.
  - cbn [spec app]. apply (observe_due g i venueName market book now cur []); auto. constructor.
Qed.

(** Whatever the random source returns, a call of [Observe] ends without error
    or panic, its only effects are random draws (it cannot reach a venue), and
    it emits a fill only when simulation is enabled for this venue and the next
    time has come; the fill is strictly inside the spread, on both grids, within
    the configured and the exchange's limits, and marked as simulated; at most
    [RecentLimit] fills are kept, newest first; the next one comes no earlier
    than the configured interval; other instruments are untouched. *)
Theorem Observe_safe env past g i venueName market book now :
  env_ok rand_contract env -> simulation_pre (TradeSimulation i) market book ->
  let '(es, o) := run env past (Observe g i venueName market book now) in
  observe_ok g i venueName market book now es o.
Proof.
  intros He Hpre. pose proof (spec_run _ _ _ _ past He (Observe_spec g i venueName market book now Hpre)).
  by destruct (run env past _).
Qed.

(** ** A concrete run *)

Definition ex_simulation : TradeSimulationConfig :=
  MkTradeSimulationConfig true "binance" (dec_of 1 1) (dec_of 5 1) 1000 5000 5000 50.

Definition ex_sim_instrument : InstrumentConfig :=
  MkInstrumentConfig "abc-usdt" (MkAssetConfig "ABC" (ex_address "a") 18)
    (MkAssetConfig "USDT" (ex_address "b") 18) ex_reference ex_strategy ex_simulation.

(** A world whose random source always returns the middle of the range. *)
Definition middle_env : Env := fun past a =>
  match a with
  | RandInt max => if 0 <? max then inl (max / 2) else inr (Errorf "bad range")
  | a => offline a
  end.

Lemma middle_env_ok : env_ok rand_contract middle_env.
Proof.
  intros past []; simpl; try done.
  destruct (0 <? max) eqn:E; [|done]. apply Z.ltb_lt in E. split.
  - apply Z.div_pos; lia.
  - apply Z.div_lt_upper_bound; lia.
Qed.

Definition ex_sim_state : Generator :=
  {["abc-usdt" := MkState (10 ^ 18) (10 ^ 18 - Second) [] 4]}.

Definition ex_observation : trace * go (Snapshot * option Fill * Generator) :=
  run middle_env [] (Observe ex_sim_state ex_sim_instrument "binance" ex_market ex_book
    (10 ^ 18 + Second)).

Example ex_observation_fills :
  match snd ex_observation with Ret (_, Some f, _) => TradeID f | _ => "" end
  = "SIM-abc-usdt-1000000001000-5".
Proof. vm_compute. reflexivity. Qed.

Lemma ex_simulation_pre : simulation_pre (TradeSimulation ex_sim_instrument) ex_market ex_book.
Proof. constructor; vm_compute; try reflexivity; try discriminate; repeat split; discriminate. Qed.

Lemma Observe_safe_witness :
  observe_ok ex_sim_state ex_sim_instrument "binance" ex_market ex_book (10 ^ 18 + Second)
    (fst ex_observation) (snd ex_observation).
Proof.
  pose proof (Observe_safe middle_env [] ex_sim_state ex_sim_instrument "binance" ex_market ex_book
    (10 ^ 18 + Second) middle_env_ok ex_simulation_pre) as H.
  unfold ex_observation. destruct (run middle_env [] _) as [es o]. exact H.
Defined.
