(* ===== verification/Fault.v ===== *)
(** The market fault manager (src/internal/fault/manager.go): the state machine
    normal - degraded - canceling - paused - recovering of every market, and its
    persistence in the state store.

    [failureStep] and [healthyStep] are the critical sections of
    [FailureWithContext] and [HealthyWithContext]; the manager's maps are the
    record [Manager], passed along explicitly.  [has_store] is [m.store != nil]. *)
From S2P Require Import Prelude FaultData Json World.

Open Scope string_scope.
Open Scope list_scope.
Open Scope Z_scope.

Export FaultData.

#[export] Instance marshal_snapshot : Marshal Snapshot := fun s =>
  JObj ([("status", marshal (Status s))]
    ++ omit_if (String.eqb (Stage s) "") "stage" (marshal (Stage s))
    ++ omit_if (String.eqb (snap_Error s) "") "error" (marshal (snap_Error s))
    ++ [("consecutive_failures", marshal (ConsecutiveFailures s));
        ("consecutive_successes", marshal (ConsecutiveSuccesses s));
        ("since", JTime (Since s)); ("updated_at", JTime (UpdatedAt s));
        ("last_healthy_at", JTime (LastHealthyAt s));
        ("orders_retained", marshal (OrdersRetained s))]).

#[export] Instance unmarshal_snapshot : Unmarshal Snapshot := fun j =>
  match j with
  | JNull => Some zero_snapshot
  | JObj l =>
      status ← field unmarshal "" "status" l;
      stage ← field unmarshal "" "stage" l;
      err ← field unmarshal "" "error" l;
      failures ← field unmarshal 0 "consecutive_failures" l;
      successes ← field unmarshal 0 "consecutive_successes" l;
      since ← field unmarshal_time zero_time "since" l;
      updated ← field unmarshal_time zero_time "updated_at" l;
      healthy ← field unmarshal_time zero_time "last_healthy_at" l;
      retained ← field unmarshal false "orders_retained" l;
      Some (MkSnapshot status stage err failures successes since updated healthy retained)
  | _ => None
  end.

Record Decision := MkDecision {
  State : Snapshot;
  AllowQuotes : bool;
  ShouldCancel : bool
}.

Definition zero_decision : Decision := MkDecision zero_snapshot false false.

Record Manager := MkManager {
  failureThreshold : Z;
  recoveryThreshold : Z;
  states : gmap string Snapshot;
  loaded : gset string;
  persisted : gset string;
  has_store : bool
}.

Definition NewWithStateStore (failureThreshold recoveryThreshold : Z) (store : bool) : Manager :=
  MkManager (if failureThreshold <? 1 then 3 else failureThreshold)
    (if recoveryThreshold <? 1 then 3 else recoveryThreshold) ∅ ∅ ∅ store.

Definition New (failureThreshold recoveryThreshold : Z) : Manager :=
  NewWithStateStore failureThreshold recoveryThreshold false.

Definition set_state (m : Manager) (key : string) (s : Snapshot) : Manager :=
  MkManager (failureThreshold m) (recoveryThreshold m) (<[key := s]> (states m)) (loaded m)
    (persisted m) (has_store m).
Definition set_loaded (m : Manager) (l : gset string) : Manager :=
  MkManager (failureThreshold m) (recoveryThreshold m) (states m) l (persisted m) (has_store m).
Definition set_persisted (m : Manager) (p : gset string) : Manager :=
  MkManager (failureThreshold m) (recoveryThreshold m) (states m) (loaded m) p (has_store m).

Definition state (m : Manager) (key : string) (now : Time) : Snapshot :=
  match states m !! key with
  | Some s => s
  | None => MkSnapshot Normal "" "" 0 0 now now now true
  end.

(** ** The transitions *)

(** The critical section of [FailureWithContext]. *)
Definition failureStep (failureThreshold : Z) (now : Time) (stage : string)
    (cause : option error) (forceCancel : bool) (s : Snapshot) : Decision :=
  let failures := (ConsecutiveFailures s +i 1)%go in
  let err := match cause with Some e => Error e | None => snap_Error s end in
  if forceCancel || (failureThreshold <=? failures) || String.eqb (Status s) Canceling then
    let since := if String.eqb (Status s) Canceling then Since s else now in
    MkDecision (MkSnapshot Canceling stage err failures 0 since now (LastHealthyAt s) false)
      false true
  else
    let since := if String.eqb (Status s) Normal || String.eqb (Status s) Recovering
                    || String.eqb (Status s) Paused then now else Since s in
    MkDecision (MkSnapshot Degraded stage err failures 0 since now (LastHealthyAt s) true)
      false false.

(** The [switch] of [HealthyWithContext]: state, [AllowQuotes], [ShouldCancel]. *)
Definition healthySwitch (managedOpenOrders : Z) (now : Time) (s : Snapshot) : Decision :=
  let s0 := MkSnapshot (Status s) "" "" 0 (ConsecutiveSuccesses s) (Since s) now
              (LastHealthyAt s) (OrdersRetained s) in
  if String.eqb (Status s) Normal then
    MkDecision (MkSnapshot Normal "" "" 0 (ConsecutiveSuccesses s) (Since s) now now true) true false
  else if String.eqb (Status s) Canceling then
    if 0 <? managedOpenOrders then MkDecision s0 false true
    else MkDecision (MkSnapshot Paused "" "" 0 (ConsecutiveSuccesses s) now now
                       (LastHealthyAt s) false) false false
  else if String.eqb (Status s) Paused || String.eqb (Status s) Degraded then
    MkDecision (MkSnapshot Recovering "" "" 0 1 now now (LastHealthyAt s) (OrdersRetained s))
      false false
  else if String.eqb (Status s) Recovering then
    MkDecision (MkSnapshot Recovering "" "" 0 (ConsecutiveSuccesses s +i 1)%go (Since s) now
                  (LastHealthyAt s) (OrdersRetained s)) false false
  else MkDecision s0 false false.

(** The critical section of [HealthyWithContext]. *)
Definition healthyStep (recoveryThreshold managedOpenOrders : Z) (now : Time) (s : Snapshot)
    : Decision :=
  let d := healthySwitch managedOpenOrders now s in
  let s := State d in
  if String.eqb (Status s) Recovering && (recoveryThreshold <=? ConsecutiveSuccesses s) then
    MkDecision (MkSnapshot Normal (Stage s) (snap_Error s) (ConsecutiveFailures s) 0 now
                  (UpdatedAt s) now true) true (ShouldCancel d)
  else d.

(** ** The operations with the store *)

Definition namespace : string := "fault".

Definition ensureLoaded (m : Manager) (key : string) : prog (option error * Manager) :=
  if bool_decide (key ∈ loaded m) then Done (None, m)
  else if negb (has_store m) then Done (None, set_loaded m ({[key]} ∪ loaded m))
  else
  r ← act (LoadState namespace key);
  match r with
  | inr err => Done (Some err, m)
  | inl payload =>
      let m' := set_loaded m ({[key]} ∪ loaded m) in
      match payload with
      | None => Done (None, m')
      | Some json =>
          match (json ≫= unmarshal : option Snapshot) with
          | None => Done (Some (Errorf "invalid JSON state"), set_loaded m' (loaded m' ∖ {[key]}))
          | Some s =>
              Done (None, set_persisted (set_state m' key s) ({[key]} ∪ persisted m'))
          end
      end
  end.

Definition quiet_state (s : Snapshot) : bool :=
  String.eqb (Status s) Normal && (ConsecutiveFailures s =? 0) && (ConsecutiveSuccesses s =? 0).

Definition persist (m : Manager) (key : string) (s : Snapshot) : prog (option error * Manager) :=
  if negb (has_store m) then Done (None, m)
  else if quiet_state s then
    let wasPersisted := bool_decide (key ∈ persisted m) in
    let m' := set_persisted m (persisted m ∖ {[key]}) in
    if negb wasPersisted then Done (None, m') else
    r ← act (DeleteState namespace key);
    match r with
    | Some err => Done (Some err, set_persisted m' ({[key]} ∪ persisted m'))
    | None => Done (None, m')
    end
  else
    r ← act (SaveState namespace key (marshal s));
    match r with
    | Some err => Done (Some err, m)
    | None => Done (None, set_persisted m ({[key]} ∪ persisted m))
    end.

(** A decision on the current state of [key], stored and persisted. *)
Definition decideWith (m : Manager) (key : string) (f : Time -> Snapshot -> Decision)
    : prog (Decision * option error * Manager) :=
  l ← ensureLoaded m key;
  let '(err, m) := l in
  match err with
  | Some e => Done (zero_decision, Some e, m)
  | None =>
      now ← act Now;
      let decision := f now (state m key now) in
      let m := set_state m key (State decision) in
      p ← persist m key (State decision);
      Done (decision, fst p, snd p)
  end.

Definition FailureWithContext (m : Manager) (key stage : string) (cause : option error)
    (forceCancel : bool) : prog (Decision * option error * Manager) :=
  decideWith m key (fun now s => failureStep (failureThreshold m) now stage cause forceCancel s).

Definition HealthyWithContext (m : Manager) (key : string) (managedOpenOrders : Z)
    : prog (Decision * option error * Manager) :=
  decideWith m key (fun now s => healthyStep (recoveryThreshold m) managedOpenOrders now s).

Definition drop_error {A B} (p : prog (A * option error * B)) : prog (A * B) :=
  r ← p; Done (fst (fst r), snd r).

Definition Failure (m : Manager) (key stage : string) (cause : option error)
    (forceCancel : bool) : prog (Decision * Manager) :=
  drop_error (FailureWithContext m key stage cause forceCancel).

Definition Healthy (m : Manager) (key : string) (managedOpenOrders : Z)
    : prog (Decision * Manager) :=
  drop_error (HealthyWithContext m key managedOpenOrders).

Definition SnapshotOf (m : Manager) (key : string) : prog Snapshot :=
  now ← act Now; Done (state m key now).

Definition ResetWithContext (m : Manager) (key : string) : prog (option error * Manager) :=
  let m' := MkManager (failureThreshold m) (recoveryThreshold m) (delete key (states m))
              ({[key]} ∪ loaded m) (persisted m ∖ {[key]}) (has_store m) in
  if has_store m then r ← act (DeleteState namespace key); Done (r, m')
  else Done (None, m').

Definition Reset (m : Manager) (key : string) : prog Manager :=
  r ← ResetWithContext m key; Done (snd r).

(** ** The state machine as a whole *)

(** What happens to a market, with the clock at that moment. *)
Inductive happening :=
  | Failed (now : Time) (stage : string) (cause : option error) (forceCancel : bool)
  | Healed (now : Time) (managedOpenOrders : Z).

Section Machine.
Variables ft rt : Z.
Hypothesis Hft : 1 <= ft <= max_int64.
Hypothesis Hrt : 1 <= rt <= max_int64.

Definition react (s : Snapshot) (h : happening) : Decision :=
  match h with
  | Failed now stage cause force => failureStep ft now stage cause force s
  | Healed now managed => healthyStep rt managed now s
  end.

(** The decision after a sequence of happenings. *)
Fixpoint after (d : Decision) (hs : list happening) : Decision :=
  match hs with
  | [] => d
  | h :: hs' => after (react (State d) h) hs'
  end.

Inductive edge : string -> string -> Prop :=
  | edge_stay s : edge s s
  | edge_degrade s : s <> Canceling -> edge s Degraded
  | edge_cancel s : edge s Canceling
  | edge_pause : edge Canceling Paused
  | edge_recover s : s = Paused \/ s = Degraded -> edge s Recovering
  | edge_normal s : s = Recovering \/ s = Paused \/ s = Degraded -> edge s Normal.

(** Well-formed snapshots: the counters fit the status. *)
Definition wf (s : Snapshot) : Prop :=
  (Status s ∈ [Normal; Degraded; Canceling; Paused; Recovering])
  /\ 0 <= ConsecutiveFailures s < max_int64
  /\ (Status s = Recovering -> 1 <= ConsecutiveSuccesses s < rt)
  /\ (Status s <> Recovering -> ConsecutiveSuccesses s = 0)
  /\ (Status s = Normal \/ Status s = Recovering \/ Status s = Paused -> ConsecutiveFailures s = 0)
  /\ (Status s = Degraded -> 1 <= ConsecutiveFailures s < ft)
  /\ (Status s = Normal \/ Status s = Degraded -> OrdersRetained s = true)
  /\ (Status s = Canceling \/ Status s = Paused -> OrdersRetained s = false).

(** What a decision promises to the engine. *)
Definition decision_ok (d : Decision) : Prop :=
  (AllowQuotes d = true -> Status (State d) = Normal)
  /\ (ShouldCancel d = true -> Status (State d) = Canceling)
  /\ AllowQuotes d && ShouldCancel d = false.

Lemma status_cases (s : Snapshot) : wf s ->
  Status s = Normal \/ Status s = Degraded \/ Status s = Canceling \/ Status s = Paused
  \/ Status s = Recovering.
Proof. intros [H _]. rewrite !elem_of_cons, elem_of_nil in H. tauto. Qed.

Lemma failureStep_ok now stage cause force s :
  wf s -> ConsecutiveFailures s < max_int64 - 1 ->
  let d := failureStep ft now stage cause force s in
  wf (State d) /\ edge (Status s) (Status (State d)) /\ decision_ok d
  /\ AllowQuotes d = false
  /\ (ShouldCancel d = true <-> force = true \/ ft <= ConsecutiveFailures s + 1
        \/ Status s = Canceling)
  /\ ConsecutiveFailures (State d) = ConsecutiveFailures s + 1
  /\ (ShouldCancel d = false -> Status (State d) = Degraded).
Proof.
  intros Hwf Hlt. pose proof Hwf as (_ & Hf & _). cbv zeta. unfold failureStep. cbv zeta.
  unfold max_int64 in *. wrap_simpl.
  destruct (force || (ft <=? ConsecutiveFailures s + 1) || String.eqb (Status s) Canceling) eqn:E.
  - rewrite !orb_true_iff, Z.leb_le, String.eqb_eq in E.
    split_and!; simpl; try done; try tauto.
    + unfold wf. simpl. unfold max_int64. split_and!; try done; try lia.
      * rewrite !elem_of_cons. auto.
      * intros [|[|]]; done.
      * intros [|]; done.
    + constructor.
  - rewrite !orb_false_iff, Z.leb_gt, String.eqb_neq in E. destruct E as [[E1 E2] E3].
    split_and!; simpl; try done.
    + unfold wf. simpl. unfold max_int64. split_and!; try done; try lia.
      * rewrite !elem_of_cons. auto.
      * intros [|[|]]; done.
      * intros [|]; done.
    + by constructor.
    + split; [done|]. intros [->|[?|?]]; [done|lia|done].
Qed.

(** Closes the goals about the fields of a concrete snapshot. *)
Ltac snapshot_ok :=
  unfold wf, decision_ok, max_int64; simpl; split_and!;
  repeat match goal with
  | |- _ <-> _ => split
  | |- _ ∈ _ => rewrite !elem_of_cons; tauto
  | |- edge _ _ => first [by constructor | constructor; tauto | by apply edge_pause]
  | |- _ -> _ => intros ?
  end; try done; try lia; try tauto;
  try match goal with H : _ \/ _ |- _ => destruct H; done end;
  try match goal with H : _ /\ _ |- _ => destruct H; done end;
  try (intuition congruence); try (intuition lia).

Lemma healthyStep_ok now managed s :
  wf s ->
  let d := healthyStep rt managed now s in
  wf (State d) /\ edge (Status s) (Status (State d)) /\ decision_ok d
  /\ (AllowQuotes d = true <-> Status (State d) = Normal)
  /\ (ShouldCancel d = true <-> Status s = Canceling /\ 0 < managed)
  /\ (Status s = Canceling -> managed <= 0 -> Status (State d) = Paused)
  /\ (Status (State d) = Recovering -> ConsecutiveSuccesses (State d) = ConsecutiveSuccesses s + 1)
  /\ (Status (State d) = Normal -> Status s = Normal \/ ConsecutiveSuccesses s + 1 = rt).
Proof.
  intros Hwf. pose proof Hwf as (_ & Hf & Hrec & Hnrec & Hz & Hdeg & Hret & Hnret).
  cbv zeta. unfold healthyStep, healthySwitch. cbv zeta.
  assert (Hnz : Status s <> Recovering -> ConsecutiveSuccesses s = 0) by done.
  destruct (status_cases s Hwf) as [E|[E|[E|[E|E]]]]; rewrite E in *; simpl.
  - rewrite Hnz by done. snapshot_ok.
  - destruct (rt <=? 1) eqn:Er; [apply Z.leb_le in Er|apply Z.leb_gt in Er]; simpl;
      rewrite Hnz by done; snapshot_ok.
  - destruct (0 <? managed) eqn:Em; [apply Z.ltb_lt in Em|apply Z.ltb_ge in Em]; simpl;
      rewrite Hnz by done; snapshot_ok.
  - destruct (rt <=? 1) eqn:Er; [apply Z.leb_le in Er|apply Z.leb_gt in Er]; simpl;
      rewrite Hnz by done; snapshot_ok.
  - specialize (Hrec eq_refl). unfold max_int64 in *. wrap_simpl.
    destruct (rt <=? ConsecutiveSuccesses s + 1) eqn:Er;
      [apply Z.leb_le in Er|apply Z.leb_gt in Er]; simpl; snapshot_ok.
Qed.
Lemma healthyStep_failures managed now s :
  ConsecutiveFailures (State (healthyStep rt managed now s)) = 0.
Proof.
  unfold healthyStep. cbv zeta.
  assert (H : ConsecutiveFailures (State (healthySwitch managed now s)) = 0).
  { unfold healthySwitch. cbv zeta.
    repeat match goal with |- context [if ?b then _ else _] => destruct b; simpl; try done end. }
  by destruct (String.eqb (Status (State (healthySwitch managed now s))) Recovering && _).
Qed.

Lemma after_app d hs h : after d (hs ++ [h]) = react (State (after d hs)) h.
Proof. revert d. induction hs as [|h' hs IH]; intros d; simpl; [done|apply IH]. Qed.

Lemma react_ok s h : wf s -> ConsecutiveFailures s < max_int64 - 1 ->
  let d := react s h in
  wf (State d) /\ edge (Status s) (Status (State d)) /\ decision_ok d
  /\ ConsecutiveFailures (State d) <= ConsecutiveFailures s + 1.
Proof.
  intros Hwf Hlt. destruct h as [now stage cause force|now managed]; simpl.
  - destruct (failureStep_ok now stage cause force s Hwf Hlt) as (H1 & H2 & H3 & _ & _ & H4 & _).
    split_and!; try done. lia.
  - destruct (healthyStep_ok now managed s Hwf) as (H1 & H2 & H3 & H4).
    destruct Hwf as (_ & [Hf _] & _). rewrite healthyStep_failures. split_and!; try done. lia.
Qed.

Lemma after_ok d hs : wf (State d) -> decision_ok d ->
  ConsecutiveFailures (State d) + Z.of_nat (length hs) < max_int64 ->
  wf (State (after d hs)) /\ decision_ok (after d hs)
  /\ ConsecutiveFailures (State (after d hs)) <= ConsecutiveFailures (State d) + Z.of_nat (length hs).
Proof.
  intros Hwf Hd. induction hs as [|h hs IH] using rev_ind; [intros _; simpl; split_and!; try done; lia|].
  rewrite length_app. simpl. intros Hb. destruct IH as (Hw & _ & Hf); [lia|].
  rewrite after_app. destruct (react_ok (State (after d hs)) h Hw ltac:(lia)) as (H1 & _ & H3 & H4).
  split_and!; try done. lia.
Qed.

Definition unforced (h : happening) : Prop :=
  match h with Failed _ _ _ force => force = false | Healed _ _ => False end.

Lemma failure_streak_gen s hs d0 : wf s -> State d0 = s ->
  ConsecutiveFailures s + Z.of_nat (length hs) < max_int64 ->
  Forall unforced hs -> hs <> [] ->
  (ShouldCancel (after d0 hs) = true <->
     Status s = Canceling \/ ft <= ConsecutiveFailures s + Z.of_nat (length hs))
  /\ (ShouldCancel (after d0 hs) = false -> Status (State (after d0 hs)) = Degraded).
Proof.
  revert s d0. induction hs as [|h hs IH]; intros s d0 Hwf <- Hb Hu Hne; [done|].
  apply Forall_cons in Hu as [Hh Hu]. destruct h as [now stage cause force|]; [|done].
  simpl in Hh. subst force. cbn [length] in *.
  destruct (failureStep_ok now stage cause false (State d0) Hwf ltac:(lia))
    as (H1 & _ & Hd & _ & H3 & H4 & H5).
  set (d1 := failureStep ft now stage cause false (State d0)) in *. cbn [after react]. fold d1.
  assert (Hc : Status (State d1) = Canceling <-> ShouldCancel d1 = true).
  { split; [|apply Hd]. intros E. destruct (ShouldCancel d1) eqn:E'; [done|].
    rewrite (H5 eq_refl) in E. done. }
  destruct hs as [|h' hs].
  { simpl. split; [|done]. rewrite H3. intuition (try done; try lia). }
  destruct (IH (State d1) d1 H1 eq_refl) as [IH1 IH2]; [cbn [length] in *; lia|done|done|].
  split; [|done]. rewrite IH1, Hc, H3, H4. cbn [length]. intuition (try done; try lia).
Qed.

Definition is_healthy (h : happening) : Prop :=
  match h with Failed _ _ _ _ => False | Healed _ _ => True end.
Definition seen_empty (h : happening) : Prop :=
  match h with Failed _ _ _ _ => False | Healed _ managed => managed <= 0 end.

(** [streak n hs]: the last [n] happenings were healthy. *)
Definition streak (n : Z) (hs : list happening) : Prop :=
  exists pre st, hs = pre ++ st /\ Forall is_healthy st /\ n <= Z.of_nat (length st).

Lemma streak_snoc n hs now managed : streak n hs -> streak (n + 1) (hs ++ [Healed now managed]).
Proof.
  intros (pre & st & -> & Hst & Hn). exists pre, (st ++ [Healed now managed]).
  rewrite app_assoc, length_app. split_and!; [done| |simpl; lia].
  apply Forall_app. split; [done|]. by repeat constructor.
Qed.

Lemma streak_zero hs : streak 0 hs.
Proof. exists hs, []. rewrite app_nil_r. split_and!; [done|constructor|simpl; lia]. Qed.

Lemma streak_le n n' hs : n' <= n -> streak n hs -> streak n' hs.
Proof. intros Hle (pre & st & E & H & Hn). exists pre, st. split_and!; [done|done|lia]. Qed.

(** The history that leads to each status, starting from a market being canceled. *)
Lemma recovery_history d hs : wf (State d) -> decision_ok d -> Status (State d) = Canceling ->
  ConsecutiveFailures (State d) + Z.of_nat (length hs) < max_int64 ->
  let s := State (after d hs) in
  (Status s <> Canceling -> Exists seen_empty hs)
  /\ (Status s = Recovering -> streak (ConsecutiveSuccesses s) hs)
  /\ (Status s = Normal -> streak rt hs).
Proof.
  intros Hwf Hd Hc. induction hs as [|h hs IH] using rev_ind.
  { simpl. rewrite Hc. done. }
  rewrite length_app. simpl. intros Hb. specialize (IH ltac:(lia)). destruct IH as (I1 & I2 & I3).
  destruct (after_ok d hs Hwf Hd ltac:(lia)) as (Hw & _ & Hf).
  rewrite after_app. set (s := State (after d hs)) in *.
  destruct h as [now stage cause force|now managed]; cbn [react].
  - destruct (failureStep_ok now stage cause force s Hw ltac:(lia))
      as (_ & Hedge & Hdec & _ & H3 & _ & H5).
    set (d1 := failureStep _ _ _ _ _ _) in *.
    destruct (ShouldCancel d1) eqn:E.
    + rewrite (proj1 (proj2 Hdec) E). done.
    + rewrite (H5 eq_refl). split; [|done]. intros _. apply Exists_app. left. apply I1.
      intros Es. assert (Hct : false = true) by (apply H3; auto). done.
  - destruct (healthyStep_ok now managed s Hw) as (Hw' & Hedge & Hdec & _ & H3 & H4 & H5 & H6).
    set (d1 := healthyStep _ _ _ _) in *.
    assert (Hsucc : Status s <> Recovering -> ConsecutiveSuccesses s = 0) by apply Hw.
    assert (Hstreak : streak (ConsecutiveSuccesses s) hs).
    { destruct (String.string_dec (Status s) Recovering) as [Es|Es]; [by apply I2|].
      rewrite Hsucc by done. apply streak_zero. }
    split_and!.
    + intros Hne. apply Exists_app.
      destruct (String.string_dec (Status s) Canceling) as [Es|Es]; [|left; by apply I1].
      right. constructor. simpl. destruct (Z.le_gt_cases managed 0) as [?|Hm]; [done|].
      assert (Hsc : ShouldCancel d1 = true) by (apply H3; auto). by apply Hdec in Hsc.
    + intros Hr. rewrite (H5 Hr). by apply streak_snoc.
    + intros Hn. destruct (H6 Hn) as [Es|Es].
      * apply (streak_le (rt + 1)); [lia|]. by apply streak_snoc, I3.
      * rewrite <- Es. by apply streak_snoc.
Qed.
End Machine.

(** ** Properties of the fault manager *)

(** From a consistent snapshot every sequence of failures and recoveries keeps
    the snapshot consistent (known status, counters below the thresholds that
    fit it, orders retained exactly outside canceling and paused), and no
    decision ever allows quoting and cancels at the same time: quoting is
    allowed only in normal, canceling only while canceling. *)
Theorem fault_invariant ft rt d hs :
  1 <= ft <= max_int64 -> 1 <= rt <= max_int64 -> wf ft rt (State d) -> decision_ok d ->
  ConsecutiveFailures (State d) + Z.of_nat (length hs) < max_int64 ->
  wf ft rt (State (after ft rt d hs)) /\ decision_ok (after ft rt d hs).
Proof. intros Hft Hrt Hw Hd Hb. by destruct (after_ok ft rt Hft Hrt d hs Hw Hd Hb) as (? & ? & _). Qed.

(** Failures that do not force a cancellation cancel the market's orders
    exactly when their number, together with the failures already counted,
    reaches the threshold (or the market is already being canceled); before
    that the market is degraded and keeps its orders. *)
Theorem failure_threshold_exact ft rt d hs :
  1 <= ft <= max_int64 -> 1 <= rt <= max_int64 -> wf ft rt (State d) ->
  ConsecutiveFailures (State d) + Z.of_nat (length hs) < max_int64 ->
  Forall unforced hs -> hs <> [] ->
  (ShouldCancel (after ft rt d hs) = true <->
     Status (State d) = Canceling \/ ft <= ConsecutiveFailures (State d) + Z.of_nat (length hs))
  /\ (ShouldCancel (after ft rt d hs) = false -> Status (State (after ft rt d hs)) = Degraded).
Proof. intros Hft Hrt Hw Hb Hu Hne. by apply failure_streak_gen with (rt := rt). Qed.

(** Once a market is being canceled, quoting is allowed again only after a
    healthy observation without managed open orders and after at least
    [recoveryThreshold] healthy observations in a row up to now. *)
Theorem recovery_requires_streak ft rt d hs :
  1 <= ft <= max_int64 -> 1 <= rt <= max_int64 -> wf ft rt (State d) -> decision_ok d ->
  Status (State d) = Canceling ->
  ConsecutiveFailures (State d) + Z.of_nat (length hs) < max_int64 ->
  AllowQuotes (after ft rt d hs) = true ->
  Exists seen_empty hs /\ streak rt hs.
Proof.
  intros Hft Hrt Hw Hd Hc Hb Ha.
  destruct (recovery_history ft rt Hft Hrt d hs Hw Hd Hc Hb) as (H1 & _ & H3).
  destruct (after_ok ft rt Hft Hrt d hs Hw Hd Hb) as (_ & (Hn & _) & _). apply Hn in Ha.
  split; [apply H1; by rewrite Ha|by apply H3].
Qed.

(** ** Persistence *)

Lemma unmarshal_marshal_snapshot s : unmarshal (A := Snapshot) (marshal s) = Some s.
Proof.
  destruct s as [status stage err cf cs since up lh ret].
  unfold marshal, marshal_snapshot. cbn [Status Stage snap_Error ConsecutiveFailures
    ConsecutiveSuccesses Since UpdatedAt LastHealthyAt OrdersRetained].
  destruct (String.eqb stage "") eqn:E1; [apply String.eqb_eq in E1 as ->|];
    (destruct (String.eqb err "") eqn:E2; [apply String.eqb_eq in E2 as ->|]); reflexivity.
Qed.

Lemma marshal_snapshot_inj (s s' : Snapshot) : marshal s = marshal s' -> s = s'.
Proof.
  intros E. assert (Hu : Some s = Some s'); [|by injection Hu].
  rewrite <- (unmarshal_marshal_snapshot s), <- (unmarshal_marshal_snapshot s'). by rewrite E.
Qed.

(** The bookkeeping of the manager agrees with the store on [key]. *)
Definition in_sync (m : Manager) (key : string) (past : trace) : Prop :=
  has_store m = true
  /\ (key ∈ loaded m -> key ∉ persisted m -> stored namespace key past = None)
  /\ (forall j, stored namespace key past = Some j -> exists s : Snapshot, j = marshal s).

Lemma run_persist env past m key s : honest_store env -> has_store m = true ->
  (key ∉ persisted m -> stored namespace key past = None) ->
  exists es m', run env past (persist m key s) = (es, Ret (None, m'))
  /\ states m' = states m /\ loaded m' = loaded m /\ has_store m' = true
  /\ failureThreshold m' = failureThreshold m /\ recoveryThreshold m' = recoveryThreshold m
  /\ stored namespace key (past ++ es) = (if quiet_state s then None else Some (marshal s))
  /\ (key ∉ persisted m' -> stored namespace key (past ++ es) = None).
Proof.
  intros (_ & Hsave & Hdel) Hst Hsync. unfold persist. rewrite Hst. simpl.
  destruct (quiet_state s) eqn:Eq.
  - destruct (bool_decide (key ∈ persisted m)) eqn:Ep; simpl.
    + rewrite Hdel. do 2 eexists. split; [reflexivity|]. simpl.
      split_and!; try done; rewrite stored_app; simpl; by rewrite !String.eqb_refl.
    + apply bool_decide_eq_false in Ep. specialize (Hsync Ep).
      do 2 eexists. split; [reflexivity|]. simpl. rewrite app_nil_r. done.
  - simpl. rewrite Hsave. do 2 eexists. split; [reflexivity|]. simpl.
    split_and!; try done; rewrite stored_app; simpl; rewrite !String.eqb_refl; [done|].
    set_solver.
Qed.

Lemma run_ensureLoaded env past m key : honest_store env -> in_sync m key past ->
  exists es m', run env past (ensureLoaded m key) = (es, Ret (None, m'))
  /\ in_sync m' key (past ++ es) /\ key ∈ loaded m'
  /\ stored namespace key (past ++ es) = stored namespace key past
  /\ failureThreshold m' = failureThreshold m /\ recoveryThreshold m' = recoveryThreshold m
  /\ (key ∉ loaded m -> forall s, stored namespace key past = Some (marshal s) ->
        states m' !! key = Some s)
  /\ (stored namespace key past = None -> states m' !! key = states m !! key).
Proof.
  intros (Hload & _ & _) (Hst & Hsync & Hval). unfold ensureLoaded.
  destruct (bool_decide (key ∈ loaded m)) eqn:El.
  - apply bool_decide_eq_true in El. exists [], m. rewrite app_nil_r. simpl.
    split_and!; try done.
  - apply bool_decide_eq_false in El. rewrite Hst. simpl. rewrite Hload.
    destruct (stored namespace key past) as [j|] eqn:Es; simpl.
    + destruct (Hval j eq_refl) as [s ->]. rewrite unmarshal_marshal_snapshot. simpl.
      do 2 eexists. split; [reflexivity|]. unfold in_sync. simpl. rewrite stored_app, Es. simpl.
      split_and!; try done.
      * set_solver.
      * set_solver.
      * intros _ s' Hs'. rewrite (marshal_snapshot_inj s' s) by congruence.
        by rewrite lookup_insert_eq.
    + do 2 eexists. split; [reflexivity|]. unfold in_sync. simpl. rewrite stored_app, Es. simpl.
      split_and!; try done. set_solver.
Qed.

(** With a working store, an operation of the manager returns its decision
    without error, leaves manager and store in agreement, and a manager started
    afterwards from the same store continues from the very same snapshot (from
    a fresh normal one when the market is normal with cleared counters, which is
    the state that is not kept in the store). *)
Theorem fault_state_survives_restart env past m key f :
  honest_store env -> in_sync m key past ->
  (key ∉ loaded m -> states m !! key = None) ->
  exists es d m', run env past (decideWith m key f) = (es, Ret (d, None, m'))
  /\ in_sync m' key (past ++ es) /\ states m' !! key = Some (State d)
  /\ exists es2 m2, run env (past ++ es)
       (ensureLoaded (NewWithStateStore (failureThreshold m) (recoveryThreshold m) true) key)
       = (es2, Ret (None, m2))
     /\ states m2 !! key = (if quiet_state (State d) then None else Some (State d)).
Proof.
  intros Henv Hsync Hfresh.
  destruct (run_ensureLoaded env past m key Henv Hsync)
    as (es1 & m1 & Hrun1 & Hsync1 & Hl1 & Hst1 & Hft & Hrt & _ & _).
  unfold decideWith. rewrite run_bind, Hrun1. simpl.
  set (now := env (past ++ es1) Now). set (d := f now (state m1 key now)).
  set (past2 := (past ++ es1) ++ [MkEvent Now now]).
  assert (Hs2 : stored namespace key past2 = stored namespace key (past ++ es1)).
  { unfold past2. by rewrite stored_app. }
  destruct Hsync1 as (Hhas & Hsy & Hval).
  destruct (run_persist env past2 (set_state m1 key (State d)) key (State d) Henv Hhas)
    as (es3 & m3 & Hrun3 & Hst3 & Hl3 & Hhas3 & Hft3 & Hrt3 & Hstored & Hsy3).
  { simpl. intros Hp. rewrite Hs2. auto. }
  change (prog_bind ?g ?p) with (p ≫= g). rewrite run_bind.
  rewrite Hrun3. simpl.
  do 3 eexists. split; [reflexivity|].
  assert (Hend : (past ++ (es1 ++ MkEvent Now now :: es3 ++ []))%list = past2 ++ es3).
  { unfold past2. rewrite app_nil_r, <- !app_assoc. done. }
  rewrite Hend. split_and!.
  - unfold in_sync. rewrite Hstored. split_and!; [done| |].
    + intros _ Hp. rewrite <- Hstored. auto.
    + destruct (quiet_state (State d)); [done|]. intros j [= <-]. by eexists.
  - rewrite Hst3. simpl. by rewrite lookup_insert_eq.
  - destruct (run_ensureLoaded env (past2 ++ es3)
      (NewWithStateStore (failureThreshold m) (recoveryThreshold m) true) key Henv)
      as (es4 & m4 & Hrun4 & _ & _ & _ & _ & _ & H1 & H2).
    { unfold in_sync. simpl. split_and!; [done|set_solver|].
      rewrite Hstored. destruct (quiet_state (State d)); [done|]. intros j [= <-]. by eexists. }
    do 2 eexists. split; [exact Hrun4|]. rewrite Hstored in H1, H2.
    destruct (quiet_state (State d)); [by rewrite H2|]. apply H1; [|done]. simpl. set_solver.
Qed.

(** ** Witnesses *)

Definition ex_normal : Decision :=
  MkDecision (MkSnapshot Normal "" "" 0 0 0 0 0 true) true false.
Definition ex_canceling : Decision :=
  MkDecision (MkSnapshot Canceling "book" "timeout" 3 0 0 0 0 false) false true.
Definition ex_failures : list happening :=
  [Failed 1 "book" None false; Failed 2 "book" None false; Failed 3 "book" None false].
Definition ex_recovery : list happening :=
  [Healed 4 2; Healed 5 0; Healed 6 0; Healed 7 0; Healed 8 0].

Lemma ex_normal_wf : wf 3 3 (State ex_normal).
Proof. unfold wf, max_int64. simpl. split_and!; try done; try lia; try (by left); intros [|]; done. Qed.
Lemma ex_canceling_wf : wf 3 3 (State ex_canceling).
Proof.
  unfold wf, max_int64. simpl. split_and!; try done; try lia; [by do 2 right; left|..];
    intros [|]; try done. by destruct H.
Qed.

Lemma fault_invariant_witness :
  wf 3 3 (State (after 3 3 ex_normal ex_failures)) /\ decision_ok (after 3 3 ex_normal ex_failures).
Proof.
  apply fault_invariant; [by vm_compute|by vm_compute|exact ex_normal_wf|by split_and!|by vm_compute].
Defined.

Lemma failure_threshold_exact_witness :
  (ShouldCancel (after 3 3 ex_normal ex_failures) = true <->
     Status (State ex_normal) = Canceling
     \/ 3 <= ConsecutiveFailures (State ex_normal) + Z.of_nat (length ex_failures))
  /\ (ShouldCancel (after 3 3 ex_normal ex_failures) = false ->
        Status (State (after 3 3 ex_normal ex_failures)) = Degraded).
Proof.
  apply failure_threshold_exact; [by vm_compute|by vm_compute|exact ex_normal_wf|by vm_compute| |done].
  by repeat constructor.
Defined.

Lemma recovery_requires_streak_witness : Exists seen_empty ex_recovery /\ streak 3 ex_recovery.
Proof.
  apply (recovery_requires_streak 3 3 ex_canceling ex_recovery);
    [by vm_compute|by vm_compute|exact ex_canceling_wf|by split_and!|done|by vm_compute|by vm_compute].
Defined.

(** A world with a store that works, a clock that counts the events, and nothing else. *)
Definition store_env : Env := fun past a =>
  match a with
  | Now => Z.of_nat (length past)
  | LoadState ns key =>
      inl (match stored ns key past with Some j => Some (Some j) | None => None end)
  | a => offline a
  end.

Lemma store_env_honest : honest_store store_env.
Proof. by split_and!. Qed.

Lemma fault_state_survives_restart_witness :
  exists es d m', run store_env [] (decideWith (NewWithStateStore 3 3 true) "binance|abc-usdt"
      (fun now s => failureStep 3 now "book" (Some (Errorf "timeout")) true s))
      = (es, Ret (d, None, m'))
  /\ in_sync m' "binance|abc-usdt" ([] ++ es)
  /\ states m' !! "binance|abc-usdt" = Some (State d)
  /\ exists es2 m2, run store_env ([] ++ es)
       (ensureLoaded (NewWithStateStore 3 3 true) "binance|abc-usdt") = (es2, Ret (None, m2))
     /\ states m2 !! "binance|abc-usdt" = (if quiet_state (State d) then None else Some (State d)).
Proof.
  apply (fault_state_survives_restart store_env [] (NewWithStateStore 3 3 true) "binance|abc-usdt");
    [exact store_env_honest| |done].
  split_and!; [done|set_solver|done].
Defined.
