(* ===== verification/Sha256.v ===== *)
(** Digests and number formats of the Go standard library that identifiers are
    built from: SHA-256 (crypto/sha256), hexadecimal (encoding/hex) and
    [strconv.FormatUint] in base 16 and 36. *)
From S2P Require Import Prelude.

Open Scope list_scope.
Open Scope Z_scope.

(** ** Bytes *)

(** The bytes of a string, and bytes as lower-case hexadecimal. *)
Fixpoint bytes_of (s : string) : list Z :=
  match s with
  | EmptyString => []
  | String c s' => Z.of_N (N_of_ascii c) :: bytes_of s'
  end.

Definition base_digit (n : Z) : ascii :=
  ascii_of_N (Z.to_N (if n <? 10 then 48 + n else 87 + n)).

Fixpoint hex_encode (l : list Z) : string :=
  match l with
  | [] => EmptyString
  | b :: l' => String (base_digit (b / 16)) (String (base_digit (b mod 16)) (hex_encode l'))
  end.

(** [strconv.FormatUint(n, base)]: at most 64 digits for 64-bit values. *)
Fixpoint format_digits (fuel : nat) (base n : Z) (acc : string) : string :=
  match fuel with
  | O => acc
  | S f =>
      let acc := String (base_digit (n mod base)) acc in
      if n <? base then acc else format_digits f base (n / base) acc
  end.
Definition FormatUint (n base : Z) : string := format_digits 64 base n EmptyString.

(** ** SHA-256 *)

Definition w32 (n : Z) : Z := n mod 2 ^ 32.
Definition rotr (n k : Z) : Z := Z.lor (Z.shiftr n k) (w32 (Z.shiftl n (32 - k))).

Definition sha_K : list Z := [
  1116352408; 1899447441; 3049323471; 3921009573; 961987163; 1508970993; 2453635748; 2870763221;
  3624381080; 310598401; 607225278; 1426881987; 1925078388; 2162078206; 2614888103; 3248222580;
  3835390401; 4022224774; 264347078; 604807628; 770255983; 1249150122; 1555081692; 1996064986;
  2554220882; 2821834349; 2952996808; 3210313671; 3336571891; 3584528711; 113926993; 338241895;
  666307205; 773529912; 1294757372; 1396182291; 1695183700; 1986661051; 2177026350; 2456956037;
  2730485921; 2820302411; 3259730800; 3345764771; 3516065817; 3600352804; 4094571909; 275423344;
  430227734; 506948616; 659060556; 883997877; 958139571; 1322822218; 1537002063; 1747873779;
  1955562222; 2024104815; 2227730452; 2361852424; 2428436474; 2756734187; 3204031479; 3329325298].

Definition sha_H0 : list Z := [
  1779033703; 3144134277; 1013904242; 2773480762; 1359893119; 2600822924; 528734635; 1541459225].

Definition be_bytes (k : nat) (n : Z) : list Z :=
  map (fun i => Z.shiftr n (8 * (Z.of_nat k - 1 - i)) mod 256) (seqZ 0 (Z.of_nat k)).

Definition sha_pad (msg : list Z) : list Z :=
  let len := Z.of_nat (length msg) in
  let zeros := (55 - len) mod 64 in
  msg ++ [128] ++ replicate (Z.to_nat zeros) 0 ++ be_bytes 8 (8 * len).

Fixpoint be_words (l : list Z) : list Z :=
  match l with
  | a :: b :: c :: d :: l' => (((a * 256 + b) * 256 + c) * 256 + d) :: be_words l'
  | _ => []
  end.

Fixpoint blocks (fuel : nat) (l : list Z) : list (list Z) :=
  match fuel, l with
  | O, _ | _, [] => []
  | S f, _ => take 16 l :: blocks f (drop 16 l)
  end.

(** The message schedule, kept newest first. *)
Fixpoint sha_extend (n : nat) (w : list Z) : list Z :=
  match n with
  | O => w
  | S n' =>
      let g k := nth k w 0 in
      let s0 := Z.lxor (Z.lxor (rotr (g 14%nat) 7) (rotr (g 14%nat) 18)) (Z.shiftr (g 14%nat) 3) in
      let s1 := Z.lxor (Z.lxor (rotr (g 1%nat) 17) (rotr (g 1%nat) 19)) (Z.shiftr (g 1%nat) 10) in
      sha_extend n' (w32 (g 15%nat + s0 + g 6%nat + s1) :: w)
  end.

Definition sha_round (st : list Z) (kw : Z * Z) : list Z :=
  match st with
  | [a; b; c; d; e; f; g; h] =>
      let S1 := Z.lxor (Z.lxor (rotr e 6) (rotr e 11)) (rotr e 25) in
      let ch := Z.lxor (Z.land e f) (Z.land (Z.lxor e (2 ^ 32 - 1)) g) in
      let t1 := w32 (h + S1 + ch + fst kw + snd kw) in
      let S0 := Z.lxor (Z.lxor (rotr a 2) (rotr a 13)) (rotr a 22) in
      let maj := Z.lxor (Z.lxor (Z.land a b) (Z.land a c)) (Z.land b c) in
      let t2 := w32 (S0 + maj) in
      [w32 (t1 + t2); a; b; c; w32 (d + t1); e; f; g]
  | _ => st
  end.

Definition sha_block (st : list Z) (block : list Z) : list Z :=
  let w := reverse (sha_extend 48 (reverse block)) in
  let out := foldl sha_round st (zip sha_K w) in
  zip_with (fun x y => w32 (x + y)) st out.

Definition Sum256 (msg : list Z) : list Z :=
  let words := be_words (sha_pad msg) in
  concat (map (be_bytes 4) (foldl sha_block sha_H0 (blocks (length words) words))).

Example Sum256_abc : hex_encode (Sum256 (bytes_of "abc")) =
  "ba7816bf8f01cfea414140de5dae2223b00361a396177a9cb410ff61f20015ad"%string.
Proof. vm_compute. reflexivity. Qed.

Example FormatUint_ex : FormatUint 46655 36 = "zzz"%string.
Proof. vm_compute. reflexivity. Qed.

(** ** Lengths and characters *)

Lemma sha_round_length st kw : length (sha_round st kw) = length st.
Proof. unfold sha_round. by do 9 (destruct st as [|? st]; try done). Qed.

Lemma sha_block_length st block : (length block = 16)%nat -> length st = 8%nat ->
  length (sha_block st block) = 8%nat.
Proof.
  intros _ Hst. unfold sha_block. rewrite length_zip_with.
  assert (H : forall l st, length (foldl sha_round st l) = length st).
  { induction l as [|x l IH]; intros s; simpl; [done|]. by rewrite IH, sha_round_length. }
  rewrite H, Hst. done.
Qed.

Lemma string_length_app (s t : string) :
  String.length (s +:+ t) = (String.length s + String.length t)%nat.
Proof. induction s as [|c s IH]; [done|]. change (String.length (String c s +:+ t)) with
  (S (String.length (s +:+ t))). rewrite IH. done. Qed.

Lemma hex_encode_length l : String.length (hex_encode l) = (2 * length l)%nat.
Proof. induction l as [|b l IH]; [done|]. simpl. rewrite IH. lia. Qed.

Lemma format_digits_length fuel base n acc :
  (String.length (format_digits fuel base n acc) <= fuel + String.length acc)%nat.
Proof.
  revert n acc. induction fuel as [|f IH]; intros n acc; simpl; [done|].
  destruct (n <? base); simpl; [lia|]. etransitivity; [apply IH|]. simpl. lia.
Qed.

(** A value below [base ^ k] has at most [k] digits. *)
Lemma format_digits_bound fuel base n acc k :
  1 < base -> 0 <= n < base ^ Z.of_nat (S k) ->
  (String.length (format_digits fuel base n acc) <= S k + String.length acc)%nat.
Proof.
  intros Hb. revert n acc k. induction fuel as [|f IH]; intros n acc k Hn; simpl; [lia|].
  destruct (n <? base) eqn:E; simpl; [lia|]. apply Z.ltb_ge in E.
  destruct k as [|k]; [change (Z.of_nat 1) with 1 in Hn; lia|].
  etransitivity; [apply (IH _ _ k)|simpl; lia].
  rewrite Nat2Z.inj_succ, Z.pow_succ_r in Hn by lia. split; [apply Z.div_pos; lia|].
  apply Z.div_lt_upper_bound; lia.
Qed.
