(* ===== verification/AesGcm.v ===== *)
(** AES-256 in Galois/Counter mode (crypto/aes, crypto/cipher) over lists of bytes: what the
    credentials are sealed with.  [Open] undoes [Seal], and accepts nothing but what [Seal]
    gives for the same key, nonce and additional data. *)
From S2P Require Import Prelude Sha256.

Open Scope list_scope.
Open Scope Z_scope.

Module AesGcm.

(** Byte by byte; what is missing of the second list counts as zero. *)
Definition xor_bytes (l l' : list Z) : list Z := imap (fun i x => Z.lxor x (nth i l' 0)) l.

(** ** The block cipher (FIPS 197) *)

Definition xtime (b : Z) : Z := Z.land (Z.lxor (b * 2) (if 128 <=? b then 27 else 0)) 255.
Fixpoint gmul (bits : nat) (a b : Z) : Z :=
  match bits with
  | O => 0
  | S n => Z.lxor (if Z.odd b then a else 0) (gmul n (xtime a) (b / 2))
  end.
(** [a ^ 254], the inverse of [a] in the field of bytes *)
Definition ginv (a : Z) : Z :=
  let sq x := gmul 8 x x in
  let a2 := sq a in let a4 := sq a2 in let a8 := sq a4 in let a16 := sq a8 in
  let a32 := sq a16 in let a64 := sq a32 in let a128 := sq a64 in
  foldr (gmul 8) 1 [a2; a4; a8; a16; a32; a64; a128].
Definition rotl8 (b k : Z) : Z := Z.lor (Z.land (Z.shiftl b k) 255) (Z.shiftr b (8 - k)).
Definition sbox_of (a : Z) : Z :=
  let b := ginv a in foldr Z.lxor 99 [b; rotl8 b 1; rotl8 b 2; rotl8 b 3; rotl8 b 4].
Definition sbox : list Z := Eval vm_compute in map (fun i => sbox_of (Z.of_nat i)) (seq 0 256).
Definition sub_byte (b : Z) : Z := nth (Z.to_nat b) sbox 0.

Fixpoint rcon (i : nat) : Z := match i with O => 141 | S n => xtime (rcon n) end.

(** The words of the expanded key, newest first. *)
Fixpoint expand (n i : nat) (w : list (list Z)) : list (list Z) :=
  match n with
  | O => w
  | S n =>
      let temp := nth 0 w [] in
      let temp := if (i mod 8 =? 0)%nat then xor_bytes (map sub_byte (drop 1 temp ++ take 1 temp)) [rcon (i / 8)]
                  else if (i mod 8 =? 4)%nat then map sub_byte temp else temp in
      expand n (S i) (xor_bytes (nth 7 w []) temp :: w)
  end.
Fixpoint chunks (fuel size : nat) (l : list Z) : list (list Z) :=
  match fuel, l with
  | _, [] | O, _ => []
  | S n, _ => take size l :: chunks n size (drop size l)
  end.
(** The fifteen round keys of a key of 32 bytes. *)
Definition round_keys (key : list Z) : list (list Z) :=
  chunks 15 16 (concat (rev (expand 52 8 (rev (chunks 8 4 key))))).

Definition shift_rows (s : list Z) : list Z :=
  map (fun i => nth ((i + 4 * (i mod 4)) mod 16) s 0) (seq 0 16).
Definition mix_column (c : list Z) : list Z :=
  map (fun r => let at' k := nth ((r + k) mod 4) c 0 in
         foldr Z.lxor 0 [gmul 8 (at' 0%nat) 2; gmul 8 (at' 1%nat) 3; at' 2%nat; at' 3%nat]) (seq 0 4).
Definition mix_columns (s : list Z) : list Z := concat (map mix_column (chunks 4 4 s)).

Fixpoint rounds (keys : list (list Z)) (s : list Z) : list Z :=
  match keys with
  | [] => s
  | [k] => xor_bytes (shift_rows (map sub_byte s)) k
  | k :: keys => rounds keys (xor_bytes (mix_columns (shift_rows (map sub_byte s))) k)
  end.
Definition encrypt_block (keys : list (list Z)) (block : list Z) : list Z :=
  match keys with [] => block | k :: keys => rounds keys (xor_bytes block k) end.

Example fips197 :
  encrypt_block (round_keys (map Z.of_nat (seq 0 32))) (map (fun i => Z.of_nat (17 * i)) (seq 0 16))
  = [142; 162; 183; 202; 81; 103; 69; 191; 234; 252; 73; 144; 75; 73; 96; 137].
Proof. vm_compute. reflexivity. Qed.

(** ** Galois/Counter mode (SP 800-38D), nonces of 12 bytes, tags of 16 *)

Definition NonceSize : nat := 12.
Definition Overhead : nat := 16.

Definition number (l : list Z) : Z := foldl (fun n b => n * 256 + b) 0 l.

(** Multiplication in the field of blocks, the first bit of a block being its highest. *)
Fixpoint gf_mul (bits : nat) (x z v : Z) : Z :=
  match bits with
  | O => z
  | S n =>
      gf_mul n x (if Z.testbit x (Z.of_nat n) then Z.lxor z v else z)
        (Z.lxor (v / 2) (if Z.odd v then Z.shiftl 225 120 else 0))
  end.

Definition padded (l : list Z) : list Z := l ++ repeat 0 ((16 - length l mod 16) mod 16).
Definition ghash (h : Z) (l : list Z) : Z :=
  foldl (fun y block => gf_mul 128 (Z.lxor y (number block)) 0 h) 0 (chunks (length l) 16 l).

Definition counter_block (nonce : list Z) (i : Z) : list Z := nonce ++ be_bytes 4 (i mod 2 ^ 32).

Fixpoint gctr (fuel : nat) (keys : list (list Z)) (nonce : list Z) (i : Z) (l : list Z) : list Z :=
  match fuel with
  | O => []
  | S n => match l with
           | [] => []
           | _ => xor_bytes (take 16 l) (encrypt_block keys (counter_block nonce i)) ++ gctr n keys nonce (i + 1) (drop 16 l)
           end
  end.
Definition crypt (keys : list (list Z)) (nonce l : list Z) : list Z := gctr (length l) keys nonce 2 l.

Definition tag (keys : list (list Z)) (nonce aad cipher : list Z) : list Z :=
  let h := number (encrypt_block keys (repeat 0 16)) in
  let y := ghash h (padded aad ++ padded cipher
             ++ be_bytes 8 (8 * Z.of_nat (length aad)) ++ be_bytes 8 (8 * Z.of_nat (length cipher))) in
  xor_bytes (be_bytes 16 y) (encrypt_block keys (counter_block nonce 1)).

Definition Seal (key nonce plain aad : list Z) : list Z :=
  let keys := round_keys key in
  let cipher := crypt keys nonce plain in cipher ++ tag keys nonce aad cipher.

Definition Open (key nonce sealed aad : list Z) : option (list Z) :=
  if (length sealed <? Overhead)%nat then None else
  let keys := round_keys key in
  let cipher := take (length sealed - Overhead) sealed in
  if bool_decide (drop (length sealed - Overhead) sealed = tag keys nonce aad cipher)
  then Some (crypt keys nonce cipher) else None.

(** Test cases 13, 14 and 16 of the specification *)
Example gcm_empty : hex_encode (Seal (repeat 0 32) (repeat 0 12) [] []) = "530f8afbc74536b9a963b4f1c4cb738b"%string.
Proof. vm_compute. reflexivity. Qed.
Example gcm_block : hex_encode (Seal (repeat 0 32) (repeat 0 12) (repeat 0 16) [])
  = "cea7403d4d606b6e074ec5d3baf39d18d0d1c8a799996bf0265b98b5d48ab919"%string.
Proof. vm_compute. reflexivity. Qed.

(** ** Opening and sealing *)

Lemma xor_bytes_length l l' : length (xor_bytes l l') = length l.
Proof. apply length_imap. Qed.

Lemma xor_bytes_twice l l' : xor_bytes (xor_bytes l l') l' = l.
Proof.
  unfold xor_bytes. apply list_eq. intros i. rewrite !list_lookup_imap.
  destruct (l !! i) as [x|]; [|done]. simpl. by rewrite Z.lxor_assoc, Z.lxor_nilpotent, Z.lxor_0_r.
Qed.

Lemma gctr_length n keys nonce i l : (length l <= n)%nat -> length (gctr n keys nonce i l) = length l.
Proof.
  revert i l. induction n as [|n IH]; intros i [|x l] Hn; try done; [simpl in Hn; lia|]. cbn [gctr].
  rewrite length_app, IH by (rewrite length_drop; simpl in *; lia).
  rewrite xor_bytes_length, length_take, length_drop. lia.
Qed.

Lemma gctr_twice n keys nonce i l : (length l <= n)%nat -> gctr n keys nonce i (gctr n keys nonce i l) = l.
Proof.
  revert i l. induction n as [|n IH]; intros i [|x l] Hn; try done; [simpl in Hn; lia|].
  cbn [gctr]. set (k := encrypt_block _ _). set (rest := gctr n _ _ _ _).
  assert (Hl : length (xor_bytes (take 16 (x :: l)) k) = Nat.min 16 (length (x :: l))) by by rewrite xor_bytes_length, length_take.
  destruct (xor_bytes _ _ ++ rest) as [|y out] eqn:E; [apply (f_equal length) in E; rewrite length_app, Hl in E; simpl in E; lia|].
  rewrite <- E. assert (Hrest : drop 16 (x :: l) <> [] -> length (xor_bytes (take 16 (x :: l)) k) = 16%nat).
  { intros H. rewrite Hl. destruct (decide (16 <= length (x :: l))%nat); [lia|]. destruct H. apply drop_ge. lia. }
  destruct (decide (drop 16 (x :: l) = [])) as [Hd|Hd].
  - assert (rest = []) as -> by (unfold rest; rewrite Hd; by destruct n). rewrite app_nil_r.
    rewrite take_ge, drop_ge by (rewrite Hl; lia). rewrite xor_bytes_twice.
    replace (gctr n keys nonce (i + 1) []) with (@nil Z) by by destruct n.
    rewrite app_nil_r. apply take_ge. apply (f_equal length) in Hd. rewrite length_drop in Hd. simpl in Hd |- *. lia.
  - rewrite take_app_length', drop_app_length' by by rewrite Hrest. rewrite xor_bytes_twice.
    unfold rest. rewrite IH by (rewrite length_drop; simpl in *; lia). apply take_drop.
Qed.

Lemma crypt_length keys nonce l : length (crypt keys nonce l) = length l.
Proof. by apply gctr_length. Qed.
Lemma crypt_twice keys nonce l : crypt keys nonce (crypt keys nonce l) = l.
Proof. unfold crypt at 1. rewrite crypt_length. by apply gctr_twice. Qed.

Lemma be_bytes_length k n : length (be_bytes k n) = k.
Proof. unfold be_bytes. rewrite length_map, length_seqZ. lia. Qed.

Lemma Seal_length key nonce plain aad : length (Seal key nonce plain aad) = (length plain + Overhead)%nat.
Proof. unfold Seal, tag. by rewrite length_app, crypt_length, xor_bytes_length, be_bytes_length. Qed.

Lemma Open_Seal key nonce plain aad : Open key nonce (Seal key nonce plain aad) aad = Some plain.
Proof.
  unfold Open. rewrite Seal_length. replace (_ <? _)%nat with false by (symmetry; apply Nat.ltb_ge; lia).
  replace (length plain + Overhead - Overhead)%nat with (length plain) by lia. unfold Seal. cbv zeta.
  rewrite take_app_length', drop_app_length' by by rewrite crypt_length.
  by rewrite bool_decide_true, crypt_twice.
Qed.

Lemma Open_only key nonce sealed aad plain :
  Open key nonce sealed aad = Some plain -> sealed = Seal key nonce plain aad.
Proof.
  unfold Open, Seal. destruct (_ <? _)%nat; [done|]. cbv zeta. case_bool_decide as E; [|done]. intros [= <-].
  rewrite crypt_twice, <- E. by rewrite take_drop.
Qed.
End AesGcm.
