(* ===== verification/Venue.v ===== *)
(** The venue boundary (src/internal/venue/venue.go, batch.go): capabilities of an
    adapter, the common order-placement dispatcher and the adapter registry.

    An adapter is its name, the optional interfaces it implements and what it
    declares; its methods are the actions [Call] of World.v. *)
From S2P Require Import Prelude Decimal Domain Json World.

Open Scope string_scope.
Open Scope list_scope.
Open Scope Z_scope.

Record Capabilities := MkCapabilities {
  ClientOrderIDs : bool;
  NativeBatchPlace : bool;
  NativeBatchCancel : bool;
  OrderLookup : bool;
  RecentFills : bool;
  HasMarketRules : bool
}.

(** A [venue.Client] value: [StateIdentity] and [Declared] are absent when the
    adapter does not implement the interface, the booleans say which of the other
    optional interfaces it implements. *)
Record Client := MkClient {
  Name : string;
  StateIdentity : option string;
  Declared : option Capabilities;
  isBatchPlacer : bool;
  isBatchCanceler : bool;
  isOrderReader : bool;
  isFillReader : bool;
  isRuleReader : bool
}.

Definition CapabilitiesOf (client : Client) : Capabilities :=
  let capabilities :=
    match Declared client with
    | Some c => c
    | None => MkCapabilities true false false false false false
    end in
  MkCapabilities (ClientOrderIDs capabilities) (isBatchPlacer client) (isBatchCanceler client)
    (isOrderReader client) (isFillReader client) (isRuleReader client).

Definition ManagesAllOrders (client : Client) : bool :=
  negb (ClientOrderIDs (CapabilitiesOf client)).

(** ** The dispatcher

    [before] is a closure that may update a variable of its caller; the variable
    is threaded as a state of type [S]. *)
Section Dispatch.
Context {S : Type}.
Variable client : Client.
Variable before : option (S -> prog (option error * S)).

Definition callBefore (s : S) : prog (option error * S) :=
  match before with None => Done (None, s) | Some f => f s end.

(** The loop of the fallback; [placed] are the confirmed orders so far, the slots
    of the remaining requests hold the zero order. *)
Fixpoint placeEach (placed : list Order) (requests : list PlaceRequest) (s : S)
    : prog (list Order * option error * S) :=
  match requests with
  | [] => Done (placed, None, s)
  | request :: rest =>
      b ← callBefore s;
      let '(err, s) := b in
      match err with
      | Some e => Done (placed ++ replicate (Datatypes.S (length rest)) zeroOrder, Some e, s)
      | None =>
          r ← act (Call (Name client) (CPlacePostOnly request));
          match r with
          | inr e => Done (placed ++ replicate (Datatypes.S (length rest)) zeroOrder, Some e, s)
          | inl order => placeEach (placed ++ [order]) rest s
          end
      end
  end.

Definition PlacePostOnlyBatch (requests : list PlaceRequest) (s : S)
    : prog (list Order * option error * S) :=
  if (length requests =? 0)%nat then Done ([], None, s)
  else if isBatchPlacer client then
    b ← callBefore s;
    let '(err, s) := b in
    match err with
    | Some e => Done (replicate (length requests) zeroOrder, Some e, s)
    | None =>
        r ← act (Call (Name client) (CPlaceBatch requests));
        let '(result, err) := r in
        if negb (length result =? length requests)%nat then
          let lengthErr := Errorf ("native batch returned " +:+ pretty (length result)
            +:+ " results for " +:+ pretty (length requests) +:+ " requests") in
          Done (result, Some (errors_Join lengthErr err), s)
        else Done (result, err, s)
    end
  else placeEach [] requests s.
End Dispatch.

(** ** The registry *)

Record ClientOptions := MkClientOptions {
  opt_Name : string;
  opt_StateIdentity : string;
  opt_BaseURL : string;
  APIKey : string;
  APISecret : string;
  opt_SelfTradePrevention : string;
  Timeout : Duration
}.

(** [FactoryFunc]: a missing constructor is a nil function; the constructor returns
    a client, a nil client or an error. *)
Record FactoryFunc := MkFactoryFunc {
  VenueType : string;
  FNew : option (ClientOptions -> go (option Client))
}.

Definition FType (f : FactoryFunc) : string := ToLower (TrimSpace (VenueType f)).

Definition FBuild (f : FactoryFunc) (options : ClientOptions) : go (option Client) :=
  match FNew f with
  | None => Err (Errorf ("venue factory " +:+ quoted (FType f) +:+ " has no constructor"))
  | Some new => new options
  end.

Abbreviation Registry := (gmap string FactoryFunc) (only parsing).

(** [factory] is absent for a nil interface value. *)
Definition Register (r : Registry) (factory : option FactoryFunc) : go Registry :=
  match factory with
  | None => Err (Errorf "venue factory is nil")
  | Some f =>
      let typeName := ToLower (TrimSpace (FType f)) in
      fail_if (String.eqb typeName "") (Errorf "venue factory type is required") ;;
      match r !! typeName with
      | Some _ => Err (Errorf ("venue factory " +:+ quoted typeName +:+ " is already registered"))
      | None => Ret (<[typeName := f]> r)
      end
  end.

Definition NewRegistry (factories : list (option FactoryFunc)) : go Registry :=
  foldM Register factories ∅.

Definition Build (r : Registry) (typeName : string) (options : ClientOptions) : go Client :=
  let normalized := ToLower (TrimSpace typeName) in
  match r !! normalized with
  | None => Err (Errorf ("unsupported venue type " +:+ quoted typeName))
  | Some factory =>
      match FBuild factory options with
      | Err e => Err (Wrapf ("build venue " +:+ normalized +:+ ": ") e)
      | Panic m => Panic m
      | Ret None => Err (Errorf ("venue factory " +:+ quoted normalized +:+ " returned a nil client"))
      | Ret (Some client) => Ret client
      end
  end.

(** ** Events the safety properties speak about *)

(** Requests submitted and order ids cancelled in a history. *)
Definition placed_by (e : event) : list PlaceRequest :=
  match ev_action e with
  | Call _ (CPlacePostOnly r) => [r]
  | Call _ (CPlaceBatch rs) => rs
  | _ => []
  end.
Definition cancelled_by (e : event) : list string :=
  match ev_action e with
  | Call _ (CCancelOrder _ id) => [id]
  | Call _ (CCancelOrders _ ids) => ids
  | _ => []
  end.
Definition placed (es : trace) : list PlaceRequest := concat (map placed_by es).
Definition cancelled (es : trace) : list string := concat (map cancelled_by es).

(** A call, or a request of an adapter, that may change something at an exchange. *)
Definition is_write (e : event) : bool :=
  match ev_action e with
  | Call _ (CPlacePostOnly _) | Call _ (CPlaceBatch _)
  | Call _ (CCancelOrder _ _) | Call _ (CCancelOrders _ _) => true
  | HttpDo q => negb (String.eqb (ReqMethod q) "GET")
  | _ => false
  end.

Definition is_guard (e : event) : bool :=
  match ev_action e with Guard => true | _ => false end.

Definition guard_passed (e : event) : bool :=
  match e with MkEvent Guard None => true | _ => false end.

(** [guarded g es]: when a guard is configured ([g]), every write directly follows a
    guard that passed. *)
Inductive guarded (g : bool) : trace -> Prop :=
  | guarded_nil : guarded g []
  | guarded_other e es : is_write e = false -> guarded g es -> guarded g (e :: es)
  | guarded_free e es : g = false -> guarded g es -> guarded g (e :: es)
  | guarded_write a e es : guard_passed a = true -> guarded g es -> guarded g (a :: e :: es).

(** No writes and no guard checks. *)
Definition quiet (es : trace) : Prop := Forall (fun e => is_write e = false) es.

Lemma guarded_app g es es' : guarded g es -> guarded g es' -> guarded g (es ++ es').
Proof.
  intros H H'. induction H as [|e es He _ IH|e es He _ IH|a e es He _ IH]; simpl; [done| | |].
  - by apply guarded_other.
  - by apply guarded_free.
  - by apply guarded_write.
Qed.

Lemma quiet_guarded g es : quiet es -> guarded g es.
Proof. induction 1; [constructor|]. by apply guarded_other. Qed.

Lemma placed_app es es' : placed (es ++ es') = placed es ++ placed es'.
Proof. unfold placed. by rewrite map_app, concat_app. Qed.
Lemma cancelled_app es es' : cancelled (es ++ es') = cancelled es ++ cancelled es'.
Proof. unfold cancelled. by rewrite map_app, concat_app. Qed.

Lemma quiet_nothing es : quiet es -> placed es = [] /\ cancelled es = [].
Proof.
  induction 1 as [|[a r] es He _ [IH1 IH2]]; [done|].
  unfold placed, cancelled in *. simpl. rewrite IH1, IH2. unfold is_write in He. simpl in He.
  unfold placed_by, cancelled_by. simpl. destruct a as [| | | |cl c| | | | | | | |]; try done. by destruct c.
Qed.

Lemma quiet_app es es' : quiet es -> quiet es' -> quiet (es ++ es').
Proof. intros. by apply Forall_app. Qed.
