(* ===== verification/Process.v ===== *)
(** Stateful processes with panics: the monad of the engine.

    An [X S A] passes a state of type [S] along and ends with a value or with a panic
    whose state is kept, as the deferred functions of Go see it.  [handle_guard]
    runs a program of a component with its write guard interpreted by a process.
    [runs P R] is the trace and frame specification most proofs about the engine
    use: [P] holds of the events and is closed under concatenation, [R] relates the
    states and is a preorder. *)
From S2P Require Import Prelude Json World Venue.

Open Scope string_scope.
Open Scope list_scope.
Open Scope Z_scope.

Definition X (S A : Type) : Type := S -> prog ((A + string) * S).

#[export] Instance X_ret {S} : MRet (X S) := fun A a s => Done (inl a, s).
#[export] Instance X_mbind {S} : MBind (X S) := fun A B f c s =>
  x ← c s;
  match fst x with
  | inl a => f a (snd x)
  | inr m => Done (inr m, snd x)
  end.

Definition getX {S} : X S S := fun s => Done (inl s, s).
Definition modifyX {S} (f : S -> S) : X S unit := fun s => Done (inl tt, f s).
Definition panicX {S A} (msg : string) : X S A := fun s => Done (inr msg, s).
Definition actX {S} (a : action) : X S (result a) := fun s => r ← act a; Done (inl r, s).

(** [v, err := f()] for code without effects. *)
Definition goX {S A} (c : go A) : X S (reply A) := fun s =>
  Done (match c with Ret a => inl (inl a) | Err e => inl (inr e) | Panic m => inr m end, s).

(** The outcome of a program as a value. *)
Fixpoint settle {A} (c : prog A) : prog (go A) :=
  match c with
  | Done a => Done (Ret a)
  | Fail e => Done (Err e)
  | Crash m => Done (Panic m)
  | Do act k => Do act (fun r => settle (k r))
  end.

(** A component's operation on its part of the state; an operation that returns its
    error as a value never ends in [Err]. *)
Definition onX {S T A} (get : S -> T) (set : T -> S -> S) (f : T -> prog (A * T)) : X S A := fun s =>
  o ← settle (f (get s));
  Done (match o with
        | Ret (a, t) => (inl a, set t s)
        | Err e => (inr (Error e), s)
        | Panic m => (inr m, s)
        end).

(** A process on a part of the state. *)
Definition zoom {S T A} (get : S -> T) (set : T -> S -> S) (c : X T A) : X S A := fun s =>
  x ← c (get s); Done (fst x, set (snd x) s).

(** [defer func() { recover() }()] *)
Definition recoverX {S A} (c : X S A) (f : string -> X S A) : X S A := fun s =>
  x ← c s;
  match fst x with
  | inl a => Done (inl a, snd x)
  | inr m => f m (snd x)
  end.

(** [defer f()]: [f] runs whatever the outcome, which it may change. *)
Definition deferX {S A} (c : X S A) (f : option A -> X S (option A)) : X S A := fun s =>
  x ← c s;
  y ← f (match fst x with inl a => Some a | inr _ => None end) (snd x);
  Done (match fst x, fst y with
        | inl a, inl (Some a') => inl a'
        | inl a, inl None => inl a
        | inr m, inl _ => inr m
        | _, inr m => inr m
        end, snd y).

Fixpoint foldX {S A B} (f : B -> A -> X S B) (l : list A) (b : B) : X S B :=
  match l with
  | [] => mret b
  | a :: l' => b' ← f b a; foldX f l' b'
  end.

Definition forX {S A} (f : A -> X S unit) (l : list A) : X S unit := foldX (fun _ => f) l tt.

(** [c] with every [Guard] answered by the process [g]. *)
Fixpoint handle_guard {S A} (g : X S (option error)) (c : prog A) : X S (reply A) := fun s =>
  match c with
  | Done a => Done (inl (inl a), s)
  | Fail e => Done (inl (inr e), s)
  | Crash m => Done (inr m, s)
  | Do a k =>
      match a as a return (result a -> X S (reply A)) -> prog ((reply A + string) * S) with
      | Guard => fun k' =>
          x ← g s;
          match fst x with
          | inl r => k' r (snd x)
          | inr m => Done (inr m, snd x)
          end
      | a => fun k' => Do a (fun r => k' r s)
      end (fun r => handle_guard g (k r))
  end.

(** ** Specifications *)

Definition okX {S A} (c : X S A) (s : S) (Q : trace -> A + string -> S -> Prop) : Prop :=
  ok (c s) (fun es x => Q es (fst x) (snd x)).

Section Rules.
Context {S : Type}.

Lemma okX_mono {A} (c : X S A) s (P Q : trace -> A + string -> S -> Prop) :
  okX c s P -> (forall es o s', P es o s' -> Q es o s') -> okX c s Q.
Proof. intros H HPQ. eapply ok_mono; [exact H|]. intros es [o s'] HP. by apply HPQ. Qed.

Lemma okX_ret {A} (a : A) s (Q : trace -> A + string -> S -> Prop) :
  Q [] (inl a) s -> okX (mret a) s Q.
Proof. intros H. exact H. Qed.

Lemma okX_get s (Q : trace -> S + string -> S -> Prop) : Q [] (inl s) s -> okX getX s Q.
Proof. intros H. exact H. Qed.

Lemma okX_modify f s (Q : trace -> unit + string -> S -> Prop) :
  Q [] (inl tt) (f s) -> okX (modifyX f) s Q.
Proof. intros H. exact H. Qed.

Lemma okX_act a s (Q : trace -> result a + string -> S -> Prop) :
  (forall r, Q [MkEvent a r] (inl r) s) -> okX (actX a) s Q.
Proof. intros H. apply ok_act. intros r. apply ok_done. apply H. Qed.

Lemma okX_bind {A B} (c : X S A) (f : A -> X S B) s P (Q : trace -> B + string -> S -> Prop) :
  okX c s P ->
  (forall es a s', P es (inl a) s' -> okX (f a) s' (fun es' o s'' => Q (es ++ es') o s'')) ->
  (forall es m s', P es (inr m) s' -> Q es (inr m) s') ->
  okX (c ≫= f) s Q.
Proof.
  intros Hc Hf Hm. eapply ok_bind; [exact Hc|]. intros es [[a|m] s'] HP; simpl in *.
  - by apply Hf.
  - apply ok_done. rewrite app_nil_r. by apply Hm.
Qed.

Lemma okX_get_bind {B} (f : S -> X S B) s (Q : trace -> B + string -> S -> Prop) :
  okX (f s) s Q -> okX (getX ≫= f) s Q.
Proof. intros H. exact H. Qed.

Lemma okX_act_bind {B} a (f : result a -> X S B) s (Q : trace -> B + string -> S -> Prop) :
  (forall r, okX (f r) s (fun es o s' => Q (MkEvent a r :: es) o s')) -> okX (actX a ≫= f) s Q.
Proof. intros H r _. exact (H r). Qed.

Lemma settle_ok {A} (c : prog A) Q : spec any_result c Q -> ok (settle c) Q.
Proof.
  revert Q. induction c as [a|e|m|a k IH]; intros Q; try done.
  intros H r Hr. apply IH. by apply H.
Qed.

Lemma okX_onX {T A} (get : S -> T) (set : T -> S -> S) (f : T -> prog (A * T)) s P
    (Q : trace -> A + string -> S -> Prop) :
  ok (f (get s)) P -> (forall es a t, P es (a, t) -> Q es (inl a) (set t s)) ->
  okX (onX get set f) s Q.
Proof.
  intros Hf HQ. eapply ok_bind; [by apply settle_ok|].
  intros es [[a t]|e|m] H; simpl in H; [|done|done].
  apply ok_done. rewrite app_nil_r. by apply HQ.
Qed.

Lemma okX_zoom {T A} (get : S -> T) (set : T -> S -> S) (c : X T A) s
    (Q : trace -> A + string -> S -> Prop) :
  okX c (get s) (fun es o t => Q es o (set t s)) -> okX (zoom get set c) s Q.
Proof.
  intros Hc. eapply ok_bind; [exact Hc|]. intros es [o t] H. apply ok_done. by rewrite app_nil_r.
Qed.
End Rules.

(** A run of a sequence that ends with a value, taken apart. *)
Lemma run_bindX {S A B} env past (c : X S A) (f : A -> X S B) s es b s' :
  run env past ((c ≫= f) s) = (es, Ret (inl b, s')) ->
  exists es1 a s1 es2, es = es1 ++ es2 /\ run env past (c s) = (es1, Ret (inl a, s1))
    /\ run env (past ++ es1) (f a s1) = (es2, Ret (inl b, s')).
Proof.
  unfold mbind, X_mbind. rewrite run_bind. destruct (run env past (c s)) as [es1 [[[a|m] s1]|e|m]]; try done.
  simpl. destruct (run env (past ++ es1) (f a s1)) as [es2 o] eqn:E. intros [= <- ->].
  by exists es1, a, s1, es2.
Qed.

(** ** Partial specifications *)

(** What holds if the components called return; the trace and frame specifications
    below say that they do. *)
Definition partX {S A} (c : X S A) (s : S) (Q : trace -> A + string -> S -> Prop) : Prop :=
  spec any_result (c s) (fun es o => match o with Ret x => Q es (fst x) (snd x) | _ => True end).

Lemma spec_true {A} (p : prog A) (Q : trace -> go A -> Prop) :
  (forall es o, Q es o) -> spec any_result p Q.
Proof. revert Q. induction p as [| | |a k IH]; intros Q HQ; simpl; auto. Qed.

Section Partial.
Context {S : Type}.

Lemma partX_any {A} (c : X S A) s (Q : trace -> A + string -> S -> Prop) :
  (forall es o s', Q es o s') -> partX c s Q.
Proof. intros HQ. apply spec_true. intros es [x|e|m]; auto. Qed.

Lemma partX_mono {A} (c : X S A) s (P Q : trace -> A + string -> S -> Prop) :
  partX c s P -> (forall es o s', P es o s' -> Q es o s') -> partX c s Q.
Proof. intros H HPQ. eapply spec_mono; [|exact H]. intros es [x|e|m]; auto. Qed.

Lemma okX_partX {A} (c : X S A) s (P Q : trace -> A + string -> S -> Prop) :
  okX c s P -> partX c s Q -> okX c s (fun es o s' => P es o s' /\ Q es o s').
Proof.
  intros HP HQ. eapply spec_mono; [|exact (spec_and _ _ _ _ HP HQ)].
  intros es [x|e|m]; simpl; tauto.
Qed.

Lemma partX_ret {A} (a : A) s (Q : trace -> A + string -> S -> Prop) :
  Q [] (inl a) s -> partX (mret a) s Q.
Proof. intros H. exact H. Qed.

Lemma partX_bind {A B} (c : X S A) (f : A -> X S B) s P (Q : trace -> B + string -> S -> Prop) :
  partX c s P ->
  (forall es a s', P es (inl a) s' -> partX (f a) s' (fun es' o s'' => Q (es ++ es') o s'')) ->
  (forall es m s', P es (inr m) s' -> Q es (inr m) s') ->
  partX (c ≫= f) s Q.
Proof.
  intros Hc Hf Hm. apply spec_bind. eapply spec_mono; [|exact Hc].
  intros es [[[a|m] s']|e|m] HP; simpl in *; [|rewrite app_nil_r; by apply Hm|done|done].
  by apply Hf.
Qed.

Lemma partX_get_bind {B} (f : S -> X S B) s (Q : trace -> B + string -> S -> Prop) :
  partX (f s) s Q -> partX (getX ≫= f) s Q.
Proof. intros H. exact H. Qed.

Lemma partX_act_bind {B} a (f : result a -> X S B) s (Q : trace -> B + string -> S -> Prop) :
  (forall r, partX (f r) s (fun es o s' => Q (MkEvent a r :: es) o s')) -> partX (actX a ≫= f) s Q.
Proof. intros H r _. exact (H r). Qed.

Lemma partX_zoom {T A} (get : S -> T) (set : T -> S -> S) (c : X T A) s
    (Q : trace -> A + string -> S -> Prop) :
  partX c (get s) (fun es o t => Q es o (set t s)) -> partX (zoom get set c) s Q.
Proof.
  intros Hc. apply spec_bind. eapply spec_mono; [|exact Hc].
  intros es [[o t]|e|m] H; simpl in *; [|done|done]. by rewrite app_nil_r.
Qed.

(** A deferred function runs whatever the outcome. *)
Lemma partX_defer {A} (c : X S A) (f : option A -> X S (option A)) s P
    (Q : trace -> A + string -> S -> Prop) :
  partX c s P ->
  (forall es o s', P es o s' ->
    partX (f (match o with inl a => Some a | inr _ => None end)) s'
      (fun es' y s'' => forall o', Q (es ++ es') o' s'')) ->
  partX (deferX c f) s Q.
Proof.
  intros Hc Hf. apply spec_bind. eapply spec_mono; [|exact Hc].
  intros es [[o s']|e|m] HP; simpl in *; [|done|done]. apply spec_bind.
  eapply spec_mono; [|exact (Hf _ _ _ HP)]. intros es' [[y s'']|e|m] HQ; simpl in *; [|done|done].
  rewrite app_nil_r. apply HQ.
Qed.

Lemma partX_and {A} (c : X S A) s (P Q : trace -> A + string -> S -> Prop) :
  partX c s P -> partX c s Q -> partX c s (fun es o s' => P es o s' /\ Q es o s').
Proof.
  intros HP HQ. eapply spec_mono; [|exact (spec_and _ _ _ _ HP HQ)].
  intros es [x|e|m]; simpl; tauto.
Qed.

Lemma okX_part {A} (c : X S A) s (P : trace -> A + string -> S -> Prop) : okX c s P -> partX c s P.
Proof. apply spec_mono. by intros es [x|e|m]. Qed.

(** A fold that keeps an invariant and collects one fact per element. *)
Lemma partX_foldX {A B} (I : S -> Prop) (G : A -> trace -> Prop) (f : B -> A -> X S B) l b s :
  (forall x es es', G x es -> G x (es ++ es')) -> (forall x es es', G x es' -> G x (es ++ es')) ->
  (forall x b s, x ∈ l -> I s ->
     partX (f b x) s (fun es o s' => I s' /\ (exists b', o = inl b') /\ G x es)) ->
  I s ->
  partX (foldX f l b) s (fun es o s' => I s' /\ (exists b', o = inl b') /\ forall x, x ∈ l -> G x es).
Proof.
  intros Hl Hr. revert b s. induction l as [|x l IH]; intros b s Hf HI; cbn [foldX].
  - apply partX_ret. split_and!; [done|eauto|]. by intros x ?%elem_of_nil.
  - eapply partX_bind; [apply Hf; [left|done]| |].
    + intros es b' s' (HI' & (b'' & [= <-]) & Hx). eapply partX_mono.
      { apply IH; [|exact HI']. intros y b0 s0 Hy. apply Hf. by right. }
      intros es' o s'' (HI'' & Ho & Hall). split_and!; [done|done|].
      intros y [->|Hy]%elem_of_cons; auto.
    + by intros es m s' (_ & (b' & E) & _).
Qed.
End Partial.

(** ** Trace and frame specifications *)

(** A property of traces closed under concatenation. *)
Class TraceProp (P : trace -> Prop) := {
  tp_nil : P [];
  tp_app : forall es es', P es -> P es' -> P (es ++ es')
}.

#[export] Instance quiet_like (f : event -> Prop) : TraceProp (Forall f).
Proof. split; [constructor|]. intros es es' H H'. by apply Forall_app. Qed.

#[export] Instance trace_prop_and P Q `{!TraceProp P, !TraceProp Q} :
  TraceProp (fun es => P es /\ Q es).
Proof.
  split; [split; apply tp_nil|]. intros es es' [H1 H2] [H1' H2'].
  split; by apply tp_app.
Qed.

(** The events of a program, whatever its outcome. *)
Definition emits {A} (P : trace -> Prop) (p : prog A) : Prop := spec any_result p (fun es _ => P es).

Section Emits.
Context {P : trace -> Prop} `{!TraceProp P}.

Lemma emits_done {A} (a : A) : emits P (Done a).
Proof. apply tp_nil. Qed.

Lemma emits_bind {A B} (c : prog A) (f : A -> prog B) :
  emits P c -> (forall a, emits P (f a)) -> emits P (c ≫= f).
Proof.
  intros Hc Hf. apply spec_bind. eapply spec_mono; [|exact Hc].
  intros es [a|e|m] HP; [|done|done]. eapply spec_mono; [|apply Hf].
  intros es' o HP'. by apply tp_app.
Qed.

Lemma emits_act a : (forall r, P [MkEvent a r]) -> emits P (act a).
Proof. intros H r _. apply H. Qed.

Lemma emits_foldP {A B} (f : B -> A -> prog B) l b :
  (forall b x, emits P (f b x)) -> emits P (foldP f l b).
Proof.
  intros Hf. revert b. induction l as [|x l IH]; intros b; simpl; [apply emits_done|].
  apply emits_bind; [apply Hf|apply IH].
Qed.
End Emits.

(** Unfolds a program to its actions; [emits_step] leaves the conditions on single events. *)
Ltac emits_step :=
  match goal with
  | |- forall _, _ => intros ?
  | |- emits _ (Done _) => apply emits_done
  | |- emits _ (act _) => apply emits_act; intros ?
  | |- emits _ (foldP _ _ _) => apply emits_foldP
  | |- emits _ (_ ≫= _) => apply emits_bind
  | |- emits _ (let '(_, _) := ?x in _) => destruct x
  | |- emits _ (match ?x with _ => _ end) => destruct x
  | |- emits _ _ => solve [eauto with emits]
  end.
Create HintDb emits discriminated.

Definition runs {S A} (P : trace -> Prop) (R : S -> S -> Prop) (c : X S A) (s : S) : Prop :=
  okX c s (fun es _ s' => P es /\ R s s').

Section Runs.
Context {S : Type} {P : trace -> Prop} `{!TraceProp P} {R : S -> S -> Prop} `{!PreOrder R}.

Lemma runs_ret {A} (a : A) s : runs P R (mret a) s.
Proof. apply okX_ret. split; [apply tp_nil|reflexivity]. Qed.

Lemma runs_panic {A} msg s : runs (A := A) P R (panicX msg) s.
Proof. apply ok_done. split; [apply tp_nil|reflexivity]. Qed.

Lemma runs_goX {A} (c : go A) s : runs P R (goX c) s.
Proof. apply ok_done. split; [apply tp_nil|reflexivity]. Qed.

Lemma runs_modify f s : R s (f s) -> runs P R (modifyX f) s.
Proof. intros H. apply okX_modify. split; [apply tp_nil|done]. Qed.

Lemma runs_act a s : (forall r, P [MkEvent a r]) -> runs P R (actX a) s.
Proof. intros H. apply okX_act. intros r. split; [apply H|reflexivity]. Qed.

Lemma runs_bind {A B} (c : X S A) (f : A -> X S B) s :
  runs P R c s -> (forall a s', R s s' -> runs P R (f a) s') -> runs P R (c ≫= f) s.
Proof.
  intros Hc Hf. eapply okX_bind; [exact Hc| |].
  - intros es a s' [HP HR]. eapply okX_mono; [by apply Hf|].
    intros es' o s'' [HP' HR']. split; [by apply tp_app|by transitivity s'].
  - by intros es m s' [HP HR].
Qed.

(** Reading the state gives the state. *)
Lemma runs_get_bind {B} (f : S -> X S B) s : runs P R (f s) s -> runs P R (getX ≫= f) s.
Proof. intros H. exact H. Qed.

Lemma runs_foldX {A B} (f : B -> A -> X S B) l b s :
  (forall x b s', x ∈ l -> R s s' -> runs P R (f b x) s') -> runs P R (foldX f l b) s.
Proof.
  revert b s. induction l as [|x l IH]; intros b s Hf; simpl; [apply runs_ret|].
  apply runs_bind.
  - apply Hf; [left|reflexivity].
  - intros b' s' HR. apply IH. intros y b'' s'' Hy HR'. apply Hf; [by right|by transitivity s'].
Qed.

Lemma runs_forX {A} (f : A -> X S unit) l s :
  (forall x s', x ∈ l -> R s s' -> runs P R (f x) s') -> runs P R (forX f l) s.
Proof. intros H. apply runs_foldX. intros x b. apply H. Qed.

Lemma runs_recover {A} (c : X S A) f s :
  runs P R c s -> (forall m s', R s s' -> runs P R (f m) s') -> runs P R (recoverX c f) s.
Proof.
  intros Hc Hf. eapply ok_bind; [exact Hc|]. intros es [[a|m] s'] [HP HR]; simpl in *.
  - apply ok_done. rewrite app_nil_r. by split.
  - eapply ok_mono; [by apply Hf|]. intros es' [o s''] [HP' HR']. simpl.
    split; [by apply tp_app|by transitivity s'].
Qed.

Lemma runs_defer {A} (c : X S A) f s :
  runs P R c s -> (forall o s', R s s' -> runs P R (f o) s') -> runs P R (deferX c f) s.
Proof.
  intros Hc Hf. eapply ok_bind; [exact Hc|]. intros es [o s'] [HP HR]; simpl in *.
  eapply ok_bind; [by apply Hf|]. intros es' [o' s''] [HP' HR']. apply ok_done.
  rewrite app_nil_r. split; [by apply tp_app|by transitivity s'].
Qed.

(** An operation of a component: its trace, and the frame of its part of the state. *)
Lemma runs_onX {T A} (get : S -> T) (set : T -> S -> S) (f : T -> prog (A * T)) s :
  spec any_result (f (get s)) (fun es _ => P es) -> (forall t, R s (set t s)) ->
  runs P R (onX get set f) s.
Proof.
  intros Hf HR. eapply ok_bind; [apply settle_ok; exact Hf|].
  intros es [[a t]|e|m] HP; apply ok_done; rewrite app_nil_r; simpl;
    (split; [done|first [apply HR | reflexivity]]).
Qed.

Lemma runs_zoom {T A} (RT : T -> T -> Prop) (get : S -> T) (set : T -> S -> S) (c : X T A) s :
  runs P RT c (get s) -> (forall t, RT (get s) t -> R s (set t s)) ->
  runs P R (zoom get set c) s.
Proof.
  intros Hc HR. apply okX_zoom. eapply okX_mono; [exact Hc|].
  intros es o t [HP Ht]. split; [done|by apply HR].
Qed.
End Runs.

Lemma runs_mono {S A} (P P' : trace -> Prop) (R R' : S -> S -> Prop) (c : X S A) s :
  runs P R c s -> (forall es, P es -> P' es) -> (forall s', R s s' -> R' s s') -> runs P' R' c s.
Proof. intros H HP HR. eapply okX_mono; [exact H|]. intros es o s' [H1 H2]. auto. Qed.

(** ** The guard handled by a process *)

(** [expands G es es']: [es'] is [es] with every guard check replaced by a trace of the
    guard, [G r] for the answer [r]. *)
Inductive expands (G : option error -> trace -> Prop) : trace -> trace -> Prop :=
  | expands_nil : expands G [] []
  | expands_other e es es' : is_guard e = false -> expands G es es' -> expands G (e :: es) (e :: es')
  | expands_guard r gs es es' :
      G r gs -> expands G es es' -> expands G (MkEvent Guard r :: es) (gs ++ es').

Definition outcome_of {A} (o : go A) : reply A + string :=
  match o with Ret a => inl (inl a) | Err e => inl (inr e) | Panic m => inr m end.

Lemma handle_guard_ok {S A} (g : X S (option error)) (G : option error -> trace -> Prop)
    (R : S -> S -> Prop) `{!PreOrder R} (c : prog A) s Q :
  (forall s1, R s s1 -> okX g s1 (fun es o s' => R s1 s' /\ exists r, o = inl r /\ G r es)) ->
  spec any_result c Q ->
  okX (handle_guard g c) s (fun es' o s' =>
    R s s' /\ exists es o', Q es o' /\ expands G es es' /\ o = outcome_of o').
Proof.
  revert s Q. induction c as [a|e|m|a k IH]; intros s Q Hg HQ.
  - apply ok_done. split; [reflexivity|]. exists [], (Ret a). split_and!; [done|constructor|done].
  - apply ok_done. split; [reflexivity|]. exists [], (Err e). split_and!; [done|constructor|done].
  - apply ok_done. split; [reflexivity|]. exists [], (Panic m). split_and!; [done|constructor|done].
  - assert (Hother : is_guard (MkEvent a (offline a)) = false ->
      ok (Do a (fun r => handle_guard g (k r) s)) (fun es' x => R s (snd x) /\ exists es o',
        Q es o' /\ expands G es es' /\ fst x = outcome_of o')).
    { intros Ha r _. refine (spec_mono _ _ _ _ _ (IH r s _ Hg (HQ r I))).
      intros es' [x|e|m]; simpl; [|done|done]. intros (HR & es & o' & H1 & H2 & H3).
      split; [done|]. exists (MkEvent a r :: es), o'. split_and!; [done|by constructor|done]. }
    destruct a; try (by apply Hother). clear Hother.
    eapply ok_bind; [apply Hg; reflexivity|]. intros gs [o1 s1] (HR1 & r & Ho & HG).
    simpl in Ho, HR1. subst o1.
    assert (Hg1 : forall s2, R s1 s2 ->
      okX g s2 (fun es o s' => R s2 s' /\ exists r, o = inl r /\ G r es)).
    { intros s2 H2. apply Hg. by transitivity s1. }
    change (okX (handle_guard g (k r)) s1 (fun es' o s' => R s s' /\ exists es o',
      Q es o' /\ expands G es (gs ++ es') /\ o = outcome_of o')).
    eapply okX_mono; [exact (IH r s1 _ Hg1 (HQ r I))|].
    intros es' o s' (HR & es & o' & H1 & H2 & H3). split; [by transitivity s1|].
    exists (MkEvent Guard r :: es), o'. split_and!; [done|by constructor|done].
Qed.

Lemma expands_app G es1 es1' es2 es2' :
  expands G es1 es1' -> expands G es2 es2' -> expands G (es1 ++ es2) (es1' ++ es2').
Proof.
  induction 1 as [|e es es' He _ IH|r gs es es' Hr _ IH]; intros H2; simpl; [done| |].
  - constructor; auto.
  - rewrite <- app_assoc. constructor; auto.
Qed.

(** A quiet guard changes nothing of what is submitted and cancelled. *)
Lemma expands_written G es es' : (forall r gs, G r gs -> quiet gs) -> expands G es es' ->
  placed es' = placed es /\ cancelled es' = cancelled es.
Proof.
  intros HG. induction 1 as [|e es es' He _ [IH1 IH2]|r gs es es' Hr _ [IH1 IH2]]; [done| |].
  - unfold placed, cancelled in *. simpl. by rewrite IH1, IH2.
  - rewrite placed_app, cancelled_app. destruct (quiet_nothing gs) as [-> ->]; [by eapply HG|].
    done.
Qed.

Create HintDb runs discriminated.
#[export] Hint Resolve runs_ret runs_panic runs_goX : runs.
