(* ===== verification/Oms.v ===== *)
(** Order management (src/internal/oms/reconciler.go): the state of the reconciler
    and its operations.

    The maps of the [Reconciler] are passed along explicitly; [has_store] is
    [r.store != nil] and [guard] is [guard != nil].  The loops that only match
    orders with quotes are pure; every clock reading of the source is one [Now].
    The order [sort.Slice] gives to equal elements comes from the class
    [SliceSort]. *)
From S2P Require Import Prelude Decimal DecimalText Domain Json World Sha256 Venue.

Open Scope string_scope.
Open Scope list_scope.
Open Scope Z_scope.

(** ** Constants and data *)

Definition managedPrefix : string := "fm-".
Definition maxOrderMutationsPerCycle : nat := 20.
Definition maxBatchCancelSize : nat := 20.
Definition pendingCreateLookupDelay : Duration := 2 * Second.
Definition pendingCreateMaxAge : Duration := 30 * Second.
Definition pendingCancelRetryDelay : Duration := 5 * Second.
Definition maxCancelAttempts : Z := 3.

Record Result := MkResult { Kept : Z; Canceled : Z; Placed : Z; Pending : Z }.
Definition zeroResult : Result := MkResult 0 0 0 0.

Record RefreshPolicy := MkRefreshPolicy {
  MinOrderAge : Duration;
  MaxOrderAge : Duration;
  MaxRefreshesPerCycle : Z
}.
Definition noRefresh : RefreshPolicy := MkRefreshPolicy 0 0 0.

Record pendingCreate := MkPendingCreate {
  pc_OrderID : string;
  pc_Quote : Quote;
  pc_SubmittedAt : Time;
  LastChecked : Time
}.

Record pendingCancelBatch := MkPendingCancelBatch {
  OrderIDs : gset string;
  pb_SubmittedAt : Time;
  Attempts : Z
}.

Record Reconciler := MkReconciler {
  blocked : gmap string error;
  pendingCancels : gmap string pendingCancelBatch;
  pendingCreates : gmap string (gmap string pendingCreate);
  loaded : gset string;
  has_store : bool
}.

Definition NewWithStateStore (store : bool) : Reconciler := MkReconciler ∅ ∅ ∅ ∅ store.
Definition New : Reconciler := NewWithStateStore false.

Definition set_blocked (r : Reconciler) (m : gmap string error) : Reconciler :=
  MkReconciler m (pendingCancels r) (pendingCreates r) (loaded r) (has_store r).
Definition set_pendingCancels (r : Reconciler) (m : gmap string pendingCancelBatch) : Reconciler :=
  MkReconciler (blocked r) m (pendingCreates r) (loaded r) (has_store r).
Definition set_pendingCreates (r : Reconciler) (m : gmap string (gmap string pendingCreate))
    : Reconciler :=
  MkReconciler (blocked r) (pendingCancels r) m (loaded r) (has_store r).
Definition set_loaded (r : Reconciler) (l : gset string) : Reconciler :=
  MkReconciler (blocked r) (pendingCancels r) (pendingCreates r) l (has_store r).

(** [r.pendingCreates[key]]; a missing entry reads as the empty map. *)
Definition createsOf (r : Reconciler) (key : string) : gmap string pendingCreate :=
  default ∅ (pendingCreates r !! key).

(** ** Persisted form *)

Record persistedState := MkPersistedState {
  ps_Blocked : string;
  ps_PendingCancels : option pendingCancelBatch;
  ps_PendingCreates : gmap string pendingCreate
}.

#[export] Instance marshal_quote : Marshal Quote := fun q =>
  JObj [("instrument_id", marshal (quote_InstrumentID q)); ("venue", marshal (quote_Venue q));
        ("symbol", marshal (quote_Symbol q)); ("side", marshal (quote_Side q));
        ("level", marshal (quote_Level q)); ("price", marshal (quote_Price q));
        ("quantity", marshal (quote_Quantity q)); ("reference", marshal (quote_Reference q));
        ("valid_until", JTime (quote_ValidUntil q))].

#[export] Instance unmarshal_quote : Unmarshal Quote := fun j =>
  match j with
  | JObj l =>
      instrument ← field unmarshal "" "instrument_id" l;
      venue ← field unmarshal "" "venue" l;
      symbol ← field unmarshal "" "symbol" l;
      side ← field unmarshal "" "side" l;
      level ← field unmarshal 0 "level" l;
      price ← field unmarshal Zero "price" l;
      quantity ← field unmarshal Zero "quantity" l;
      reference ← field unmarshal Zero "reference" l;
      valid ← field unmarshal_time zero_time "valid_until" l;
      Some (MkQuote instrument venue symbol side level price quantity reference valid)
  | JNull => Some (MkQuote "" "" "" "" 0 Zero Zero Zero zero_time)
  | _ => None
  end.

#[export] Instance marshal_create : Marshal pendingCreate := fun c =>
  JObj [("OrderID", marshal (pc_OrderID c)); ("Quote", marshal (pc_Quote c));
        ("SubmittedAt", JTime (pc_SubmittedAt c)); ("LastChecked", JTime (LastChecked c))].

#[export] Instance unmarshal_create : Unmarshal pendingCreate := fun j =>
  match j with
  | JObj l =>
      id ← field unmarshal "" "OrderID" l;
      quote ← field unmarshal (MkQuote "" "" "" "" 0 Zero Zero Zero zero_time) "Quote" l;
      submitted ← field unmarshal_time zero_time "SubmittedAt" l;
      checked ← field unmarshal_time zero_time "LastChecked" l;
      Some (MkPendingCreate id quote submitted checked)
  | JNull => Some (MkPendingCreate "" (MkQuote "" "" "" "" 0 Zero Zero Zero zero_time)
               zero_time zero_time)
  | _ => None
  end.

(** A [map[string]struct{}] is an object whose values are empty objects. *)
Definition marshal_idset (s : gset string) : Json :=
  JObj (map (fun id => (id, JObj [])) (elements s)).
Definition unmarshal_idset (j : Json) : option (gset string) :=
  match j with
  | JNull => Some ∅
  | JObj l =>
      foldl (fun acc '(id, v) => s ← acc;
        match v with JObj _ | JNull => Some ({[id]} ∪ s) | _ => None end) (Some ∅) l
  | _ => None
  end.

#[export] Instance marshal_batch : Marshal pendingCancelBatch := fun b =>
  JObj [("OrderIDs", marshal_idset (OrderIDs b)); ("SubmittedAt", JTime (pb_SubmittedAt b));
        ("Attempts", marshal (Attempts b))].

Definition unmarshal_batch (j : Json) : option (option pendingCancelBatch) :=
  match j with
  | JNull => Some None
  | JObj l =>
      ids ← field unmarshal_idset ∅ "OrderIDs" l;
      submitted ← field unmarshal_time zero_time "SubmittedAt" l;
      attempts ← field unmarshal 0 "Attempts" l;
      Some (Some (MkPendingCancelBatch ids submitted attempts))
  | _ => None
  end.

#[export] Instance marshal_state : Marshal persistedState := fun s =>
  JObj (omit_if (String.eqb (ps_Blocked s) "") "blocked" (marshal (ps_Blocked s))
    ++ match ps_PendingCancels s with
       | None => [] | Some b => [("pending_cancels", marshal b)]
       end
    ++ omit_if (bool_decide (ps_PendingCreates s = ∅)) "pending_creates"
         (marshal (ps_PendingCreates s))).

#[export] Instance unmarshal_state : Unmarshal persistedState := fun j =>
  match j with
  | JObj l =>
      reason ← field unmarshal "" "blocked" l;
      cancels ← field unmarshal_batch None "pending_cancels" l;
      creates ← field unmarshal ∅ "pending_creates" l;
      Some (MkPersistedState reason cancels creates)
  | JNull => Some (MkPersistedState "" None ∅)
  | _ => None
  end.

#[export] Instance Quote_inhabited : Inhabited Quote :=
  populate (MkQuote "" "" "" "" 0 Zero Zero Zero zero_time).
#[export] Instance pendingCreate_eq_dec : EqDecision pendingCreate.
Proof. solve_decision. Defined.

(** ** State keys, blocking and persistence *)

Definition namespace : string := "oms".

Definition stateKey (client : Client) (instrumentID : string) : string :=
  let identity :=
    match StateIdentity client with
    | Some s => if String.eqb s "" then Name client else s
    | None => Name client
    end in
  identity +:+ ":" +:+ instrumentID.

(** The value [persist] writes for [key]. *)
Definition snapshotOf (r : Reconciler) (key : string) : persistedState :=
  MkPersistedState
    (match blocked r !! key with Some e => Error e | None => "" end)
    (match pendingCancels r !! key with
     | Some pending => if bool_decide (OrderIDs pending = ∅) then None else Some pending
     | None => None
     end)
    (createsOf r key).

Definition emptyState (s : persistedState) : bool :=
  String.eqb (ps_Blocked s) ""
  && match ps_PendingCancels s with None => true | Some _ => false end
  && bool_decide (ps_PendingCreates s = ∅).

Definition persist (r : Reconciler) (key : string) : prog (option error) :=
  if negb (has_store r) then Done None else
  let state := snapshotOf r key in
  if emptyState state then act (DeleteState namespace key)
  else act (SaveState namespace key (marshal state)).

Definition block (r : Reconciler) (key : string) (err : error) : prog Reconciler :=
  let r := set_blocked r (<[key := err]> (blocked r)) in
  _ ← persist r key;
  Done r.

(** The assignments of [ensureLoaded] from a decoded state. *)
Definition restoreState (r : Reconciler) (key : string) (saved : persistedState) : Reconciler :=
  let r := if String.eqb (ps_Blocked saved) "" then r
           else set_blocked r (<[key := Errorf (ps_Blocked saved)]> (blocked r)) in
  let r := match ps_PendingCancels saved with
           | None => r
           | Some b => set_pendingCancels r (<[key := b]> (pendingCancels r))
           end in
  if bool_decide (ps_PendingCreates saved = ∅) then r
  else set_pendingCreates r (<[key := ps_PendingCreates saved]> (pendingCreates r)).

Definition ensureLoaded (r : Reconciler) (key : string) : prog (option error * Reconciler) :=
  if bool_decide (key ∈ loaded r) then Done (None, r) else
  let marked := set_loaded r ({[key]} ∪ loaded r) in
  if negb (has_store r) then Done (None, marked) else
  reply ← act (LoadState namespace key);
  match reply with
  | inr err => Done (Some err, set_loaded marked (loaded marked ∖ {[key]}))
  | inl None => Done (None, marked)
  | inl (Some json) =>
      match (json ≫= unmarshal : option persistedState) with
      | None => Done (Some (Errorf "invalid JSON state"),
                      set_loaded marked (loaded marked ∖ {[key]}))
      | Some saved => Done (None, restoreState marked key saved)
      end
  end.

Definition addPendingCreate (r : Reconciler) (key : string) (creation : pendingCreate)
    : Reconciler :=
  set_pendingCreates r
    (<[key := <[pc_OrderID creation := creation]> (createsOf r key)]> (pendingCreates r)).

(** [delete(r.pendingCreates[key], orderID)] *)
Definition removePendingCreate (r : Reconciler) (key orderID : string) : Reconciler :=
  match pendingCreates r !! key with
  | None => r
  | Some m => set_pendingCreates r (<[key := delete orderID m]> (pendingCreates r))
  end.

(** ** Orders *)

Definition sameTarget (left right : Quote) : bool :=
  String.eqb (quote_Side left) (quote_Side right)
  && (Cmp (quote_Price left) (quote_Price right) =? 0)
  && (Cmp (quote_Quantity left) (quote_Quantity right) =? 0).

Definition isActiveOrder (state : OrderState) : bool :=
  String.eqb state OrderNew || String.eqb state OrderPartiallyFilled
  || String.eqb state OrderUnknown.

Definition IsManaged (order : Order) : bool := HasPrefix (ClientID order) managedPrefix.

Definition ManagedOrders (orders : list Order) (manageAll : bool) : list Order :=
  filter (fun o => manageAll || IsManaged o = true) orders.

Definition ManagedOrdersFor (client : Client) (orders : list Order) : list Order :=
  ManagedOrders orders (ManagesAllOrders client).

Definition withinBPS (a b : Decimal) (threshold : Z) : bool :=
  if DIsZero a || DIsZero b then false else
  let deviation := Mul (Abs (Sub a b)) TenThousand in
  let tolerance := Mul b (FromInt64 threshold) in
  Cmp deviation tolerance <=? 0.

Definition clientID (instrumentID : string) (quote : Quote) (fenceGeneration : Z) (now : Time)
    : string :=
  let seed := instrumentID +:+ "|" +:+ quote_Venue quote +:+ "|" +:+ quote_Side quote
    +:+ "|" +:+ pretty (quote_Level quote) +:+ "|" +:+ pretty fenceGeneration
    +:+ "|" +:+ pretty now in
  managedPrefix +:+ "g" +:+ FormatUint fenceGeneration 36 +:+ "-"
    +:+ hex_encode (take 8 (Sum256 (bytes_of seed))).

(** [age.Round(time.Second)] printed: hours, minutes and seconds. *)
Definition roundedSeconds (d : Duration) : string :=
  let s := (d + Second / 2) / Second in
  (if 3600 <=? s then pretty (s / 3600) +:+ "h" else "")
  +:+ (if 60 <=? s then pretty (s / 60 mod 60) +:+ "m" else "")
  +:+ pretty (s mod 60) +:+ "s".

(** ** Guard and cancellation *)

Definition checkWriteGuard (guard : bool) : prog (option error) :=
  if negb guard then Done None else
  r ← act Guard;
  match r with
  | None => Done None
  | Some err => Done (Some (Wrapf "exchange write rejected by fencing guard: " err))
  end.

(** The native batches, [maxBatchCancelSize] ids at a time; [fuel] bounds the number
    of batches by the number of ids. *)
Fixpoint cancelBatches (client : Client) (guard : bool) (symbol : string) (fuel : nat)
    (ids : list string) : prog (option error) :=
  match fuel, ids with
  | O, _ | _, [] => Done None
  | S f, _ =>
      g ← checkWriteGuard guard;
      match g with
      | Some err => Done (Some err)
      | None =>
          r ← act (Call (Name client) (CCancelOrders symbol (take maxBatchCancelSize ids)));
          match r with
          | Some err => Done (Some err)
          | None => cancelBatches client guard symbol f (drop maxBatchCancelSize ids)
          end
      end
  end.

Fixpoint cancelEach (client : Client) (guard : bool) (symbol : string) (orders : list Order)
    : prog (option error) :=
  match orders with
  | [] => Done None
  | order :: rest =>
      g ← checkWriteGuard guard;
      match g with
      | Some err => Done (Some err)
      | None =>
          r ← act (Call (Name client) (CCancelOrder symbol (OrderID order)));
          match r with
          | Some err => Done (Some (Wrapf ("cancel order " +:+ OrderID order +:+ ": ") err))
          | None => cancelEach client guard symbol rest
          end
      end
  end.

Definition cancelOrders (client : Client) (symbol : string) (orders : list Order) (guard : bool)
    : prog (option error) :=
  if (length orders =? 0)%nat then Done None
  else if isBatchCanceler client
  then cancelBatches client guard symbol (length orders) (map OrderID orders)
  else cancelEach client guard symbol orders.

(** ** Pending cancellations *)

(** Whether the cycle must wait, or the error, and the reconciler afterwards. *)
Definition waitingForCancelConfirmation (r : Reconciler) (key : string) (orders : list Order)
    : prog (bool * option error * Reconciler) :=
  match pendingCancels r !! key with
  | None => Done (false, None, r)
  | Some pending =>
      if bool_decide (OrderIDs pending = ∅) then Done (false, None, r) else
      let remaining : gset string :=
        list_to_set (filter (fun id => id ∈ OrderIDs pending) (map OrderID orders)) in
      if bool_decide (remaining = ∅)
      then Done (false, None, set_pendingCancels r (delete key (pendingCancels r)))
      else
        let pending := MkPendingCancelBatch remaining (pb_SubmittedAt pending) (Attempts pending) in
        let r := set_pendingCancels r (<[key := pending]> (pendingCancels r)) in
        now ← act Now;
        if TimeSub now (pb_SubmittedAt pending) <? pendingCancelRetryDelay
        then Done (true, None, r)
        else if maxCancelAttempts <=? Attempts pending
        then Done (false, Some (Errorf ("orders remain open after " +:+ pretty (Attempts pending)
                                  +:+ " cancellation attempts")), r)
        else Done (false, None, r)
  end.

Definition setPendingCancels (r : Reconciler) (key : string) (pending : gset string)
    : prog Reconciler :=
  let attempts :=
    match pendingCancels r !! key with
    | Some current => (Attempts current +i 1)%go
    | None => 1
    end in
  now ← act Now;
  Done (set_pendingCancels r
    (<[key := MkPendingCancelBatch pending now attempts]> (pendingCancels r))).

(** ** Pending creations *)

Section Iteration.
Context `{MapRange}.

(** One iteration of the loop over the pending creations; [active] collects those
    that still count, an error ends the loop. *)
Definition checkPending (client : Client) (key symbol : string) (now : Time)
    (st : list pendingCreate * option error * Reconciler) (creation : pendingCreate)
    : prog (list pendingCreate * option error * Reconciler) :=
  let '(active, err, r) := st in
  match err with
  | Some _ => Done st
  | None =>
      let age := TimeSub now (pc_SubmittedAt creation) in
      let shouldLookup := isOrderReader client && (pendingCreateLookupDelay <=? age)
        && (IsZero (LastChecked creation)
            || (pendingCreateLookupDelay <=? TimeSub now (LastChecked creation))) in
      if shouldLookup then
        reply ← act (Call (Name client) (COrder symbol (pc_OrderID creation)));
        let creation := MkPendingCreate (pc_OrderID creation) (pc_Quote creation)
                          (pc_SubmittedAt creation) now in
        match reply with
        | inl order =>
            if negb (isActiveOrder (order_State order)) then
              let r := removePendingCreate r key (pc_OrderID creation) in
              p ← persist r key;
              match p with
              | Some e => Done ([], Some e, r)
              | None => Done (active, None, r)
              end
            else
              let r := addPendingCreate r key creation in
              p ← persist r key;
              match p with
              | Some e => Done ([], Some e, r)
              | None => Done (active ++ [creation], None, r)
              end
        | inr e =>
            if pendingCreateMaxAge <=? age then
              Done ([], Some (Wrapf ("pending order " +:+ pc_OrderID creation
                +:+ " status remains uncertain after " +:+ roundedSeconds age +:+ ": ") e), r)
            else
              let r := addPendingCreate r key creation in
              p ← persist r key;
              match p with
              | Some e => Done ([], Some e, r)
              | None => Done (active ++ [creation], None, r)
              end
        end
      else if negb (isOrderReader client) && (pendingCreateMaxAge <=? age) then
        Done ([], Some (Errorf ("pending order " +:+ pc_OrderID creation
          +:+ " was not confirmed after " +:+ roundedSeconds age)), r)
      else Done (active ++ [creation], None, r)
  end.

(** Creations that became visible are dropped first. *)
Definition dropVisible (r : Reconciler) (key : string) (orders : list Order) : Reconciler :=
  foldl (fun r o => removePendingCreate r key (OrderID o)) r orders.

Definition activePendingCreates (r : Reconciler) (client : Client) (key symbol : string)
    (orders : list Order) : prog (list pendingCreate * option error * Reconciler) :=
  now ← act Now;
  let r := dropVisible r key orders in
  let values := map snd (range (createsOf r key)) in
  p ← persist r key;
  match p with
  | Some e => Done ([], Some e, r)
  | None => foldP (checkPending client key symbol now) values ([], None, r)
  end.

(** ** Matching orders with targets *)

Record Matching := MkMatching {
  matchedQuotes : list bool;
  matchedOrders : list bool;
  scheduledRefresh : gset nat;
  refreshCount : Z;
  kept : Z
}.

(** The first unmatched quote a loop [for j, quote := range quotes] stops at. *)
Fixpoint firstFree (p : Quote -> bool) (matched : list bool) (quotes : list Quote) : option nat :=
  match matched, quotes with
  | m :: matched', q :: quotes' =>
      if negb m && p q then Some O else S <$> firstFree p matched' quotes'
  | _, _ => None
  end.

Definition takeQuote (m : Matching) (j : nat) : Matching :=
  MkMatching (<[j := true]> (matchedQuotes m)) (matchedOrders m) (scheduledRefresh m)
    (refreshCount m) (kept m).
Definition keepOrder (m : Matching) (i j : nat) : Matching :=
  MkMatching (<[j := true]> (matchedQuotes m)) (<[i := true]> (matchedOrders m))
    (scheduledRefresh m) (refreshCount m) (kept m + 1).
Definition scheduleOrder (m : Matching) (i j : nat) : Matching :=
  MkMatching (<[j := true]> (matchedQuotes m)) (matchedOrders m) ({[i]} ∪ scheduledRefresh m)
    (refreshCount m + 1) (kept m).

Definition remainingQty (o : Order) : Decimal := Sub (order_Quantity o) (ExecutedQty o).

(** An order that already is the quote: same side and size, price close enough. *)
Definition isExact (thr : Z) (o : Order) (q : Quote) : bool :=
  String.eqb (order_Side o) (quote_Side q)
  && (Cmp (remainingQty o) (quote_Quantity q) =? 0)
  && withinBPS (order_Price o) (quote_Price q) thr.

(** An order near the quote, of any size. *)
Definition isNear (thr : Z) (o : Order) (q : Quote) : bool :=
  String.eqb (order_Side o) (quote_Side q) && withinBPS (order_Price o) (quote_Price q) thr.

Definition matchPending (quotes : list Quote) (m : Matching) (creation : pendingCreate) : Matching :=
  match firstFree (sameTarget (pc_Quote creation)) (matchedQuotes m) quotes with
  | Some j => takeQuote m j
  | None => m
  end.

(** Indices of the orders older than [MaxOrderAge], oldest first. *)
Definition collectExpired (refresh : RefreshPolicy) (managed : list Order) : prog (list nat) :=
  foldP (fun acc io =>
    let '(index, order) := io in
    if IsZero (CreatedAt order) then Done acc else
    now ← act Now;
    Done (if MaxOrderAge refresh <=? TimeSub now (CreatedAt order) then acc ++ [index] else acc))
    (zip (seq 0 (length managed)) managed) [].

Definition scheduleExpired (quotes : list Quote) (thr : Z) (refresh : RefreshPolicy)
    (managed : list Order) (m : Matching) (index : nat) : Matching :=
  if MaxRefreshesPerCycle refresh <=? refreshCount m then m else
  match managed !! index with
  | None => m
  | Some order =>
      match firstFree (isExact thr order) (matchedQuotes m) quotes with
      | Some j => scheduleOrder m index j
      | None => m
      end
  end.

Definition matchOrder (quotes : list Quote) (thr : Z) (m : Matching) (io : nat * Order)
    : Matching :=
  let '(i, order) := io in
  if bool_decide (i ∈ scheduledRefresh m) then m else
  match firstFree (isExact thr order) (matchedQuotes m) quotes with
  | Some j => keepOrder m i j
  | None => m
  end.

(** A routine refresh: rotate the order, or keep it while young or over budget. *)
Definition pairRefresh (quotes : list Quote) (thr : Z) (refresh : RefreshPolicy)
    (m : Matching) (io : nat * Order) : prog Matching :=
  let '(i, order) := io in
  if nth i (matchedOrders m) false || bool_decide (i ∈ scheduledRefresh m)
     || IsPositive (ExecutedQty order) then Done m
  else
  match firstFree (isNear thr order) (matchedQuotes m) quotes with
  | None => Done m
  | Some j =>
      young ← (if (0 <? MinOrderAge refresh) && negb (IsZero (CreatedAt order)) then
                 now ← act Now;
                 Done (TimeSub now (CreatedAt order) <? MinOrderAge refresh)
               else Done false);
      Done (if young || (MaxRefreshesPerCycle refresh <=? refreshCount m)
            then keepOrder m i j else scheduleOrder m i j)
  end.

Context `{SliceSort}.

Definition createdBefore (managed : list Order) (a b : nat) : bool :=
  match managed !! a, managed !! b with
  | Some x, Some y => Before (CreatedAt x) (CreatedAt y)
  | _, _ => false
  end.

Definition matchAll (quotes : list Quote) (thr : Z) (refresh : RefreshPolicy)
    (managed : list Order) (pending : list pendingCreate) : prog Matching :=
  let m := MkMatching (replicate (length quotes) false) (replicate (length managed) false) ∅ 0 0 in
  let m := foldl (matchPending quotes) m pending in
  m ← (if (0 <? MaxRefreshesPerCycle refresh) && (0 <? MaxOrderAge refresh) then
         expired ← collectExpired refresh managed;
         Done (foldl (scheduleExpired quotes thr refresh managed) m
                 (sort_slice (createdBefore managed) expired))
       else Done m);
  let indexed := zip (seq 0 (length managed)) managed in
  let m := foldl (matchOrder quotes thr) m indexed in
  if 0 <? MaxRefreshesPerCycle refresh then foldP (pairRefresh quotes thr refresh) indexed m
  else Done m.

(** ** Choosing and submitting *)

(** Stale orders first, then the scheduled refreshes, at most twenty. *)
Definition selectStale (m : Matching) (acc : list Order) (io : nat * Order) : list Order :=
  let '(i, order) := io in
  if nth i (matchedOrders m) false || bool_decide (i ∈ scheduledRefresh m)
     || (maxOrderMutationsPerCycle <=? length acc)%nat then acc else acc ++ [order].

Definition selectScheduled (m : Matching) (acc : list Order) (io : nat * Order) : list Order :=
  let '(i, order) := io in
  if negb (bool_decide (i ∈ scheduledRefresh m))
     || (maxOrderMutationsPerCycle <=? length acc)%nat then acc else acc ++ [order].

Definition selectCancels (m : Matching) (managed : list Order) : list Order :=
  let indexed := zip (seq 0 (length managed)) managed in
  foldl (selectScheduled m) (foldl (selectStale m) [] indexed) indexed.

(** The requests of [placeMissing], with the quotes they are for. *)
Definition selectMissing (instrumentID : string) (fenceGeneration : Z) (limit : nat)
    (acc : list (Quote * PlaceRequest)) (mq : bool * Quote) : prog (list (Quote * PlaceRequest)) :=
  let '(matched, quote) := mq in
  if matched || (limit <=? length acc)%nat then Done acc else
  now ← act Now;
  Done (acc ++ [(quote, MkPlaceRequest (quote_Symbol quote) (quote_Side quote) (quote_Price quote)
    (quote_Quantity quote) (clientID instrumentID quote fenceGeneration now) fenceGeneration)]).

Definition addPlaced (res : Result) : Result :=
  MkResult (Kept res) (Canceled res) (Placed res + 1) (Pending res).
Definition addPendingCount (res : Result) : Result :=
  MkResult (Kept res) (Canceled res) (Placed res) (Pending res + 1).

(** The loop over the confirmed orders; [stop] is the error that ends it. *)
Definition recordOrder (key : string) (st : Result * option error * Reconciler)
    (oq : Order * Quote) : prog (Result * option error * Reconciler) :=
  let '(res, stop, r) := st in
  let '(order, quote) := oq in
  match stop with
  | Some _ => Done st
  | None =>
      if String.eqb (OrderID order) "" then Done st
      else if isActiveOrder (order_State order) then
        now ← act Now;
        let r := addPendingCreate r key (MkPendingCreate (OrderID order) quote now zero_time) in
        p ← persist r key;
        match p with
        | Some e =>
            r ← block r key (Wrapf ("persist accepted order " +:+ OrderID order +:+ ": ") e);
            Done (res, Some e, r)
        | None => Done (addPlaced (addPendingCount res), None, r)
        end
      else Done (addPlaced res, None, r)
  end.

Definition emptyIndex (orders : list Order) : option nat :=
  fst <$> list_find (fun o => OrderID o = "") orders.

(** The closure [placeMissing] passes to the dispatcher: it records its error. *)
Definition guardClosure (guard : bool) (guardErr : option error)
    : prog (option error * option error) :=
  e ← checkWriteGuard guard; Done (e, e).

Definition placeMissing (r : Reconciler) (client : Client) (key instrumentID : string)
    (quotes : list Quote) (matched : list bool) (limit : nat) (res : Result) (guard : bool)
    (fenceGeneration : Z) : prog (Result * option error * Reconciler) :=
  selected ← foldP (selectMissing instrumentID fenceGeneration limit) (zip matched quotes) [];
  let requests := map snd selected in
  submission ← PlacePostOnlyBatch client (Some (guardClosure guard)) requests None;
  let '(orders, submitErr, guardErr) := submission in
  recorded ← foldP (recordOrder key) (zip orders (map fst selected)) (res, None, r);
  let '(res, stop, r) := recorded in
  match stop with
  | Some e => Done (res, Some e, r)
  | None =>
      match submitErr with
      | Some e =>
          if match guardErr with Some ge => errors_Is e ge | None => false end
          then Done (res, Some e, r)
          else r ← block r key (Wrapf "submit batch may be partially unknown: " e);
               Done (res, Some e, r)
      | None =>
          if negb (length orders =? length requests)%nat then
            let err := Errorf ("venue returned " +:+ pretty (length orders)
              +:+ " order results for " +:+ pretty (length requests) +:+ " requests") in
            r ← block r key err; Done (res, Some err, r)
          else
          match emptyIndex orders with
          | Some index =>
              let err := Errorf ("venue returned an empty order id for batch item "
                +:+ pretty index) in
              r ← block r key err; Done (res, Some err, r)
          | None => Done (res, None, r)
          end
      end
  end.

(** ** Reconciling *)

(** [if err != nil { return fmt.Errorf(prefix + "%w", err) }] *)
Definition wrap_opt (prefix : string) (err : option error) : option error :=
  match err with None => None | Some e => Some (Wrapf prefix e) end.

(** The last part of a cycle: place into vacancies, or cancel a batch, or nothing. *)
Definition actOnMatching (r : Reconciler) (client : Client) (key instrumentID symbol : string)
    (quotes : list Quote) (managed : list Order) (pending : list pendingCreate) (m : Matching)
    (guard : bool) (fenceGeneration : Z) : prog (Result * option error * Reconciler) :=
  let res := MkResult (kept m) 0 0 (Z.of_nat (length pending)) in
  let vacancies := Z.of_nat (length quotes) - Z.of_nat (length managed)
                   - Z.of_nat (length pending) in
  if 0 <? vacancies then
    placeMissing r client key instrumentID quotes (matchedQuotes m)
      (Nat.min (Z.to_nat vacancies) maxOrderMutationsPerCycle) res guard fenceGeneration
  else
  let toCancel := selectCancels m managed in
  let res := MkResult (kept m) (Z.of_nat (length toCancel)) 0 (Z.of_nat (length pending)) in
  if (0 <? length toCancel)%nat then
    e ← cancelOrders client symbol toCancel guard;
    match e with
    | Some err =>
        r ← block r key (Wrapf "cancel order batch: " err);
        Done (MkResult (kept m) 0 0 (Z.of_nat (length pending)), Some err, r)
    | None =>
        r ← setPendingCancels r key (list_to_set (map OrderID toCancel));
        p ← persist r key;
        Done (res, wrap_opt "persist pending cancels: " p, r)
    end
  else Done (res, None, r).

Definition ReconcileWithOrdersGuardedPolicy (r : Reconciler) (client : Client)
    (instrumentID : string) (quotes : list Quote) (repriceThresholdBPS : Z) (orders : list Order)
    (guard : bool) (fenceGeneration : Z) (refresh : RefreshPolicy)
    : prog (Result * option error * Reconciler) :=
  let key := stateKey client instrumentID in
  l ← ensureLoaded r key;
  let '(loadErr, r) := l in
  match loadErr with
  | Some err => Done (zeroResult, Some (Wrapf "load OMS state: " err), r)
  | None =>
  match blocked r !! key with
  | Some reason =>
      Done (zeroResult, Some (Wrapf "venue market blocked after uncertain order state: " reason), r)
  | None =>
  match quotes with
  | [] => Done (zeroResult, Some (Errorf "empty quote target"), r)
  | quote :: _ =>
      let symbol := quote_Symbol quote in
      let managed := ManagedOrdersFor client orders in
      w ← waitingForCancelConfirmation r key managed;
      let '(waiting, waitErr, r) := w : bool * option error * Reconciler in
      p ← persist r key;
      match p with
      | Some err => Done (zeroResult, Some err, r)
      | None =>
      match waitErr with
      | Some err => r ← block r key err; Done (zeroResult, Some err, r)
      | None =>
      if waiting then Done (zeroResult, None, r) else
      a ← activePendingCreates r client key symbol managed;
      let '(pending, pendingErr, r) := a in
      match pendingErr with
      | Some err => r ← block r key err; Done (zeroResult, Some err, r)
      | None =>
          m ← matchAll quotes repriceThresholdBPS refresh managed pending;
          actOnMatching r client key instrumentID symbol quotes managed pending m guard
            fenceGeneration
      end end end end end end.

Definition ReconcileWithOrdersGuarded (r : Reconciler) (client : Client) (instrumentID : string)
    (quotes : list Quote) (repriceThresholdBPS : Z) (orders : list Order) (guard : bool)
    (fenceGeneration : Z) : prog (Result * option error * Reconciler) :=
  ReconcileWithOrdersGuardedPolicy r client instrumentID quotes repriceThresholdBPS orders guard
    fenceGeneration noRefresh.

Definition ReconcileWithOrders (r : Reconciler) (client : Client) (instrumentID : string)
    (quotes : list Quote) (repriceThresholdBPS : Z) (orders : list Order)
    : prog (Result * option error * Reconciler) :=
  ReconcileWithOrdersGuarded r client instrumentID quotes repriceThresholdBPS orders false 0.

Definition Reconcile (r : Reconciler) (client : Client) (instrumentID : string)
    (quotes : list Quote) (repriceThresholdBPS : Z) : prog (Result * option error * Reconciler) :=
  match quotes with
  | [] => Done (zeroResult, Some (Errorf "empty quote target"), r)
  | quote :: _ =>
      reply ← act (Call (Name client) (COpenOrders (quote_Symbol quote)));
      match reply with
      | inr err => Done (zeroResult, Some err, r)
      | inl orders =>
          ReconcileWithOrders r client instrumentID quotes repriceThresholdBPS orders
      end
  end.

(** ** Cancelling everything *)

(** The pending creations that are not among the visible orders join the list. *)
Definition withPendingCreates (managed : list Order) (creates : gmap string pendingCreate)
    : list Order :=
  managed ++ map (fun '(orderID, creation) =>
      MkOrder "" orderID "" (quote_Symbol (pc_Quote creation)) "" Zero Zero Zero "" zero_time)
    (filter (fun '(orderID, _) => orderID ∉ map OrderID managed) (range creates)).

Definition CancelManagedGuardedWithResult (r : Reconciler) (client : Client)
    (instrumentID symbol : string) (guard : bool) : prog (Z * option error * Reconciler) :=
  reply ← act (Call (Name client) (COpenOrders symbol));
  match reply with
  | inr err => Done (0, Some err, r)
  | inl orders =>
  let key := stateKey client instrumentID in
  l ← ensureLoaded r key;
  let '(loadErr, r) := l in
  match loadErr with
  | Some err => Done (0, Some (Wrapf "load OMS state: " err), r)
  | None =>
  let managed := ManagedOrdersFor client orders in
  w ← waitingForCancelConfirmation r key managed;
  let '(waiting, waitErr, r) := w : bool * option error * Reconciler in
  p ← persist r key;
  match p with
  | Some err => Done (0, Some err, r)
  | None =>
  match waitErr with
  | Some err => Done (0, Some err, r)
  | None =>
  if waiting then Done (0, None, r) else
  let targets := withPendingCreates managed (createsOf r key) in
  e ← cancelOrders client symbol targets guard;
  match e with
  | Some err => r ← block r key err; Done (0, Some err, r)
  | None =>
      r ← setPendingCancels r key (list_to_set (map OrderID targets));
      let r := set_pendingCreates r (delete key (pendingCreates r)) in
      p ← persist r key;
      Done (Z.of_nat (length targets), p, r)
  end end end end end.

Definition CancelManagedGuarded (r : Reconciler) (client : Client) (instrumentID symbol : string)
    (guard : bool) : prog (option error * Reconciler) :=
  x ← CancelManagedGuardedWithResult r client instrumentID symbol guard;
  Done (snd (fst x), snd x).

Definition CancelManaged (r : Reconciler) (client : Client) (instrumentID symbol : string)
    : prog (option error * Reconciler) := CancelManagedGuarded r client instrumentID symbol false.

Definition ClearBlocked (r : Reconciler) (client : Client) (instrumentID : string)
    : prog (option error * Reconciler) :=
  let key := stateKey client instrumentID in
  l ← ensureLoaded r key;
  let '(loadErr, r) := l in
  match loadErr with
  | Some err => Done (Some err, r)
  | None =>
      let r := set_blocked r (delete key (blocked r)) in
      p ← persist r key;
      Done (p, r)
  end.
End Iteration.
