(* ===== verification/OmsFacts.v ===== *)
(** Facts about the operations of the reconciler, one lemma per operation of
    Oms.v: which effects it has, and how it changes the state. *)
From S2P Require Import Prelude Decimal DecimalText Domain Json World Sha256 Venue Oms.

Open Scope string_scope.
Open Scope list_scope.
Open Scope Z_scope.

(** ** Other markets are untouched *)

Record same_elsewhere (key : string) (r r' : Reconciler) : Prop := {
  same_blocked : forall k, k <> key -> blocked r' !! k = blocked r !! k;
  same_cancels : forall k, k <> key -> pendingCancels r' !! k = pendingCancels r !! k;
  same_creates : forall k, k <> key -> pendingCreates r' !! k = pendingCreates r !! k;
  same_loaded : forall k, k <> key -> k ∈ loaded r' <-> k ∈ loaded r;
  same_store : has_store r' = has_store r
}.

#[export] Instance same_elsewhere_preorder key : PreOrder (same_elsewhere key).
Proof.
  split.
  - intros r. by constructor.
  - intros r1 r2 r3 [A1 A2 A3 A4 A5] [B1 B2 B3 B4 B5]. constructor.
    + intros k Hk. by rewrite B1, A1.
    + intros k Hk. by rewrite B2, A2.
    + intros k Hk. by rewrite B3, A3.
    + intros k Hk. by rewrite B4, A4.
    + by rewrite B5, A5.
Qed.

Lemma same_set_blocked key r f :
  (forall k, k <> key -> f !! k = blocked r !! k) -> same_elsewhere key r (set_blocked r f).
Proof. intros H. by constructor. Qed.
Lemma same_set_cancels key r f :
  (forall k, k <> key -> f !! k = pendingCancels r !! k) ->
  same_elsewhere key r (set_pendingCancels r f).
Proof. intros H. by constructor. Qed.
Lemma same_set_creates key r f :
  (forall k, k <> key -> f !! k = pendingCreates r !! k) ->
  same_elsewhere key r (set_pendingCreates r f).
Proof. intros H. by constructor. Qed.
Lemma same_set_loaded key r l :
  (forall k, k <> key -> k ∈ l <-> k ∈ loaded r) -> same_elsewhere key r (set_loaded r l).
Proof. intros H. by constructor. Qed.

Ltac frame_map := intros ? ?; first [by rewrite lookup_insert_ne | by rewrite lookup_delete_ne].

#[export] Hint Extern 1 (same_elsewhere _ ?r (set_blocked ?r _)) =>
  apply same_set_blocked; frame_map : go.
#[export] Hint Extern 1 (same_elsewhere _ ?r (set_pendingCancels ?r _)) =>
  apply same_set_cancels; frame_map : go.
#[export] Hint Extern 1 (same_elsewhere _ ?r (set_pendingCreates ?r _)) =>
  apply same_set_creates; frame_map : go.
#[export] Hint Extern 0 (same_elsewhere _ ?r ?r) => reflexivity : go.

(** Closes the conjunctions of quietness, framing and trivial equalities. *)
Ltac settle := cbn [fst snd]; split_and!; auto with go; try reflexivity; try done.

(** ** Quiet steps *)

Lemma quiet_nil : quiet [].
Proof. constructor. Qed.
Lemma quiet_one e : is_write e = false -> quiet [e].
Proof. by repeat constructor. Qed.
Lemma quiet_cons e es : is_write e = false -> quiet es -> quiet (e :: es).
Proof. by constructor. Qed.
#[export] Hint Resolve quiet_nil quiet_one quiet_cons quiet_app : go.

Lemma persist_ok r key : ok (persist r key) (fun es _ => quiet es).
Proof.
  unfold persist. destruct (has_store r); simpl; [|apply ok_done; auto with go].
  destruct (emptyState _); apply ok_act_last; intros; by apply quiet_one.
Qed.

Lemma block_ok r key err :
  ok (block r key err) (fun es r' => quiet es /\ r' = set_blocked r (<[key := err]> (blocked r))).
Proof.
  unfold block. eapply ok_bind; [apply persist_ok|]. intros es x Hq. apply ok_done.
  rewrite app_nil_r. done.
Qed.

Lemma restoreState_same r key saved : same_elsewhere key r (restoreState r key saved).
Proof.
  unfold restoreState. cbv zeta.
  set (r1 := if String.eqb _ _ then r else _).
  assert (H1 : same_elsewhere key r r1).
  { unfold r1. destruct (String.eqb _ _); auto with go. }
  set (r2 := match ps_PendingCancels saved with None => r1 | Some _ => _ end).
  assert (H2 : same_elsewhere key r1 r2).
  { unfold r2. destruct (ps_PendingCancels saved); auto with go. }
  transitivity r1; [done|]. transitivity r2; [done|].
  destruct (bool_decide _); auto with go.
Qed.

Lemma ensureLoaded_ok r key :
  ok (ensureLoaded r key) (fun es res => quiet es /\ same_elsewhere key r (snd res)
    /\ (key ∈ loaded r -> res = (None, r) /\ es = [])).
Proof.
  unfold ensureLoaded. destruct (bool_decide (key ∈ loaded r)) eqn:E.
  { apply ok_done. split_and!; auto with go. simpl. reflexivity. }
  apply bool_decide_eq_false in E.
  assert (Hm : same_elsewhere key r (set_loaded r ({[key]} ∪ loaded r))).
  { apply same_set_loaded. set_solver. }
  assert (Hu : same_elsewhere key r
    (set_loaded (set_loaded r ({[key]} ∪ loaded r))
       (loaded (set_loaded r ({[key]} ∪ loaded r)) ∖ {[key]}))).
  { etransitivity; [exact Hm|]. apply same_set_loaded. set_solver. }
  destruct (has_store r); simpl negb; cbv iota; [|apply ok_done; split_and!; auto with go; done].
  apply ok_act. intros [[json|]|err].
  - destruct (json ≫= unmarshal) as [saved|]; apply ok_done;
      (split_and!; [by apply quiet_one| |done]); simpl.
    + etransitivity; [exact Hm|]. apply restoreState_same.
    + exact Hu.
  - apply ok_done. split_and!; [by apply quiet_one|exact Hm|done].
  - apply ok_done. split_and!; [by apply quiet_one|exact Hu|done].
Qed.

Lemma waiting_ok r key orders :
  ok (waitingForCancelConfirmation r key orders) (fun es res => quiet es
    /\ same_elsewhere key r (snd res) /\ blocked (snd res) = blocked r
    /\ pendingCreates (snd res) = pendingCreates r /\ loaded (snd res) = loaded r
    /\ (pendingCancels r !! key = None -> res = (false, None, r))).
Proof.
  unfold waitingForCancelConfirmation. destruct (pendingCancels r !! key) as [pending|] eqn:E.
  2:{ apply ok_done. settle. }
  destruct (bool_decide (OrderIDs pending = ∅)).
  { apply ok_done. settle. }
  cbv zeta. destruct (bool_decide _).
  { apply ok_done. settle. }
  apply ok_act. intros now. simpl.
  set (r' := set_pendingCancels r _).
  assert (H : same_elsewhere key r r') by (unfold r'; auto with go).
  destruct (_ <? _); [|destruct (_ <=? _)]; apply ok_done; settle.
Qed.

(** The wait is for a batch one of whose orders is still open and that was sent less
    than the retry delay ago. *)
Definition awaiting (r : Reconciler) (key : string) (orders : list Order) (es : trace) : Prop :=
  exists batch id now, pendingCancels r !! key = Some batch
    /\ id ∈ OrderIDs batch /\ id ∈ map OrderID orders
    /\ MkEvent Now now ∈ es /\ TimeSub now (pb_SubmittedAt batch) < pendingCancelRetryDelay.

Lemma waiting_awaiting r key orders :
  ok (waitingForCancelConfirmation r key orders) (fun es res =>
    fst (fst res) = true -> awaiting r key orders es).
Proof.
  unfold waitingForCancelConfirmation. destruct (pendingCancels r !! key) as [batch|] eqn:E.
  2:{ by apply ok_done. }
  destruct (bool_decide (OrderIDs batch = ∅)); [by apply ok_done|].
  cbv zeta. destruct (bool_decide _) eqn:Er; [by apply ok_done|].
  apply ok_act. intros now. simpl. destruct (_ <? _) eqn:El; [|by destruct (_ <=? _); apply ok_done].
  apply ok_done. intros _. apply bool_decide_eq_false, set_choose_L in Er as [id Hid].
  apply elem_of_list_to_set, list_elem_of_filter in Hid as [Hid Ho].
  exists batch, id, now. split_and!; [done|done|done|by left|lia].
Qed.

(** ** Pending creations *)

Lemma addPendingCreate_same r key c : same_elsewhere key r (addPendingCreate r key c).
Proof. unfold addPendingCreate. auto with go. Qed.
Lemma removePendingCreate_same r key id : same_elsewhere key r (removePendingCreate r key id).
Proof. unfold removePendingCreate. destruct (pendingCreates r !! key); auto with go. Qed.

(** Only the pending creations of [key] may change. *)
Definition only_creates (key : string) (r r' : Reconciler) : Prop :=
  same_elsewhere key r r' /\ blocked r' = blocked r /\ pendingCancels r' = pendingCancels r
  /\ loaded r' = loaded r.

#[export] Instance only_creates_preorder key : PreOrder (only_creates key).
Proof.
  split.
  - intros r. by split_and!.
  - intros r1 r2 r3 (A & B & C & D) (A' & B' & C' & D').
    split_and!; [by transitivity r2|congruence..].
Qed.

Lemma addPendingCreate_only r key c : only_creates key r (addPendingCreate r key c).
Proof. split_and!; [apply addPendingCreate_same|done..]. Qed.
Lemma removePendingCreate_only r key id : only_creates key r (removePendingCreate r key id).
Proof.
  split_and!; [apply removePendingCreate_same|..]; unfold removePendingCreate; by case_match.
Qed.
Lemma dropVisible_only r key orders : only_creates key r (dropVisible r key orders).
Proof.
  unfold dropVisible. revert r. induction orders as [|o orders IH]; intros r; simpl; [done|].
  etransitivity; [apply removePendingCreate_only|apply IH].
Qed.
#[export] Hint Resolve addPendingCreate_only removePendingCreate_only dropVisible_only : go.

Section Cycle.
Context `{MapRange} `{SliceSort}.

(** A step that continues or stops after [persist]. *)
Lemma persist_then r key {A} (bad : error -> A) (good : A) (Q : trace -> A -> Prop) :
  (forall es e, quiet es -> Q es (bad e)) -> (forall es, quiet es -> Q es good) ->
  ok (p ← persist r key; match p with Some e => Done (bad e) | None => Done good end) Q.
Proof.
  intros Hb Hg. eapply ok_bind; [apply persist_ok|]. intros es [e|] Hq; apply ok_done;
    rewrite app_nil_r; auto.
Qed.

Lemma checkPending_ok client key symbol now st c :
  ok (checkPending client key symbol now st c) (fun es st' => quiet es
    /\ only_creates key (snd st) (snd st')
    /\ (length (fst (fst st')) <= S (length (fst (fst st))))%nat).
Proof.
  destruct st as [[active err] r]. unfold checkPending.
  destruct err as [e|]; [apply ok_done; split; [apply quiet_nil|split; [reflexivity|simpl; lia]]|].
  cbv zeta. destruct (isOrderReader client && _ && _).
  2:{ destruct (_ && _); apply ok_done; cbn [fst snd]; rewrite ?length_app; simpl;
        (split; [apply quiet_nil|split; [reflexivity|lia]]). }
  apply ok_act. intros [order|e].
  - destruct (negb _).
    + apply persist_then; intros; cbn [fst snd length];
        (split_and!; [auto with go|auto with go|lia]).
    + apply persist_then; intros; cbn [fst snd length]; rewrite ?length_app; simpl;
        (split_and!; [auto with go|apply addPendingCreate_only|lia]).
  - destruct (_ <=? _).
    + apply ok_done. cbn [fst snd length]. split_and!; [auto with go|reflexivity|lia].
    + apply persist_then; intros; cbn [fst snd length]; rewrite ?length_app; simpl;
        (split_and!; [auto with go|apply addPendingCreate_only|lia]).
Qed.

Lemma activePendingCreates_ok r client key symbol orders :
  ok (activePendingCreates r client key symbol orders) (fun es res => quiet es
    /\ only_creates key r (snd res)).
Proof.
  unfold activePendingCreates. apply ok_act. intros now. cbv zeta.
  eapply ok_bind; [apply persist_ok|]. intros es [e|] Hq.
  { apply ok_done. simpl. rewrite app_nil_r. auto with go. }
  eapply ok_mono.
  { apply (ok_foldP _ (fun es' st => quiet es' /\ only_creates key r (snd st))).
    - simpl. auto with go.
    - intros c es' st _ [Hes Hst]. eapply ok_mono; [apply checkPending_ok|].
      intros es'' st' (Hes'' & Hst' & _). split; [auto with go|]. by etransitivity. }
  intros es' st' [Hes Hst]. split; [|done]. simpl. auto with go.
Qed.

(** ** Matching *)

Lemma firstFree_spec p matched quotes j :
  firstFree p matched quotes = Some j ->
  matched !! j = Some false /\ exists q, quotes !! j = Some q /\ p q = true.
Proof.
  revert matched j. induction quotes as [|q quotes IH]; intros [|m matched] j; simpl; try done.
  destruct (negb m && p q) eqn:E.
  - intros [= <-]. apply andb_true_iff in E as [Em Ep]. apply negb_true_iff in Em as ->. simpl. eauto.
  - intros (j' & Hj & ->)%fmap_Some. simpl. by apply IH.
Qed.

Lemma firstFree_none p matched quotes j q :
  firstFree p matched quotes = None -> matched !! j = Some false -> quotes !! j = Some q ->
  p q = false.
Proof.
  revert matched j. induction quotes as [|q' quotes IH]; intros [|m matched] [|j]; simpl; try done;
    destruct (negb m && p q') eqn:E; try done; rewrite fmap_None.
  - intros _ [= ->] [= ->]. by apply andb_false_iff in E as [?|?].
  - apply IH.
Qed.

(** The invariant of matching: every order kept or scheduled took a quote of its
    own, on its side and near its price. *)
Record matching_inv (quotes : list Quote) (managed : list Order) (thr : Z) (base : nat)
    (m : Matching) : Prop := {
  mi_quotes : length (matchedQuotes m) = length quotes;
  mi_orders : length (matchedOrders m) = length managed;
  mi_count : count_true (matchedQuotes m)
    = (base + count_true (matchedOrders m) + size (scheduledRefresh m))%nat;
  mi_kept : kept m = Z.of_nat (count_true (matchedOrders m));
  mi_refresh : refreshCount m = Z.of_nat (size (scheduledRefresh m));
  mi_disjoint : forall i, i ∈ scheduledRefresh m -> matchedOrders m !! i = Some false;
  mi_near : forall i o, managed !! i = Some o ->
    matchedOrders m !! i = Some true \/ i ∈ scheduledRefresh m ->
    exists q, q ∈ quotes /\ isNear thr o q = true
}.

Lemma isExact_isNear thr o q : isExact thr o q = true -> isNear thr o q = true.
Proof. unfold isExact, isNear. rewrite !andb_true_iff. tauto. Qed.

Lemma keepOrder_inv quotes managed thr base m i j o q :
  matching_inv quotes managed thr base m ->
  managed !! i = Some o -> matchedOrders m !! i = Some false -> i ∉ scheduledRefresh m ->
  matchedQuotes m !! j = Some false -> quotes !! j = Some q -> isNear thr o q = true ->
  matching_inv quotes managed thr base (keepOrder m i j).
Proof.
  intros [I1 I2 I3 I4 I5 I6 I7] Ho Hm Hs Hj Hq Hn. constructor; simpl.
  - by rewrite length_insert.
  - by rewrite length_insert.
  - rewrite !count_true_insert by done. lia.
  - rewrite count_true_insert by done. lia.
  - done.
  - intros k Hk. rewrite list_lookup_insert_ne by (intros ->; done). auto.
  - intros k o' Ho' Hk. destruct (Nat.eq_dec k i) as [->|Hne].
    + simplify_eq. exists q. split; [by eapply list_elem_of_lookup_2|done].
    + rewrite list_lookup_insert_ne in Hk by done. eauto.
Qed.

Lemma scheduleOrder_inv quotes managed thr base m i j o q :
  matching_inv quotes managed thr base m ->
  managed !! i = Some o -> matchedOrders m !! i = Some false -> i ∉ scheduledRefresh m ->
  matchedQuotes m !! j = Some false -> quotes !! j = Some q -> isNear thr o q = true ->
  matching_inv quotes managed thr base (scheduleOrder m i j).
Proof.
  intros [I1 I2 I3 I4 I5 I6 I7] Ho Hm Hs Hj Hq Hn.
  assert (Hsz : size ({[i]} ∪ scheduledRefresh m) = S (size (scheduledRefresh m))).
  { rewrite size_union by set_solver. by rewrite size_singleton. }
  constructor; simpl.
  - by rewrite length_insert.
  - done.
  - rewrite !count_true_insert, Hsz by done. lia.
  - done.
  - rewrite Hsz. lia.
  - intros k [->%elem_of_singleton|Hk]%elem_of_union; auto.
  - intros k o' Ho' [Hk|[->%elem_of_singleton|Hk]%elem_of_union]; [eauto| |eauto].
    simplify_eq. exists q. split; [by eapply list_elem_of_lookup_2|done].
Qed.

(** An order that is left over fits no quote that is still free. *)
Definition no_fit (quotes : list Quote) (thr : Z) (m : Matching) (o : Order) : Prop :=
  forall j q, quotes !! j = Some q -> matchedQuotes m !! j = Some false -> isExact thr o q = false.

(** The orders before position [k] are kept, scheduled, or fit nothing; the ones
    from [k] on are not kept yet. *)
Definition upto (quotes : list Quote) (thr : Z) (managed : list Order) (k : nat) (m : Matching)
    : Prop :=
  (forall i, (k <= i)%nat -> (i < length managed)%nat -> matchedOrders m !! i = Some false)
  /\ (forall i o, (i < k)%nat -> managed !! i = Some o ->
        matchedOrders m !! i = Some true \/ i ∈ scheduledRefresh m \/ no_fit quotes thr m o).

Lemma no_fit_take quotes thr m m' o j :
  matchedQuotes m' = <[j:=true]> (matchedQuotes m) -> no_fit quotes thr m o ->
  no_fit quotes thr m' o.
Proof.
  intros E Hf j' q Hq Hm. apply (Hf j' q Hq). rewrite E in Hm.
  by apply list_lookup_insert_Some in Hm as [(_ & ? & _)|[_ ?]].
Qed.

Lemma foldl_indexed {A B} (f : B -> nat * A -> B) (I : nat -> B -> Prop) (l : list A) b :
  I 0%nat b ->
  (forall k x b, l !! k = Some x -> I k b -> I (S k) (f b (k, x))) ->
  I (length l) (foldl f b (zip (seq 0 (length l)) l)).
Proof.
  intros Hz Hf.
  assert (Hg : forall l' n b', (forall k x, l' !! k = Some x -> l !! (n + k)%nat = Some x) ->
    I n b' -> I (n + length l')%nat (foldl f b' (zip (seq n (length l')) l'))).
  { clear b Hz. induction l' as [|x l' IH]; intros n b' Hl Hb; simpl.
    { by rewrite Nat.add_0_r. }
    rewrite <- Nat.add_succ_comm. apply IH.
    - intros k y Hk. rewrite Nat.add_succ_comm. by apply (Hl (S k)).
    - apply Hf; [|done]. rewrite <- (Nat.add_0_r n). by apply (Hl 0%nat). }
  by apply (Hg l 0%nat b).
Qed.

Lemma zip_seq_elem {A} n (l : list A) i x :
  (i, x) ∈ zip (seq n (length l)) l -> (n <= i)%nat /\ l !! (i - n)%nat = Some x.
Proof.
  revert n. induction l as [|y l IH]; intros n; simpl; [by rewrite elem_of_nil|].
  rewrite elem_of_cons. intros [[= -> ->]|Hin].
  - rewrite Nat.sub_diag. done.
  - apply IH in Hin as [Hle Hl]. split; [lia|].
    replace (i - n)%nat with (S (i - S n)) by lia. done.
Qed.

Section Matches.
Variables (quotes : list Quote) (managed : list Order) (thr : Z) (refresh : RefreshPolicy).
Abbreviation inv := (matching_inv quotes managed thr).

Lemma matchPending_inv base m c :
  inv base m -> exists base', (base' <= S base)%nat /\ inv base' (matchPending quotes m c)
    /\ matchedOrders (matchPending quotes m c) = matchedOrders m
    /\ scheduledRefresh (matchPending quotes m c) = scheduledRefresh m.
Proof.
  intros Hm. unfold matchPending. destruct (firstFree _ _ _) as [j|] eqn:E.
  - apply firstFree_spec in E as [Hj _]. exists (S base). split_and!; try done.
    destruct Hm. constructor; simpl; rewrite ?length_insert; try done.
    rewrite count_true_insert by done. lia.
  - exists base. split_and!; [lia|done..].
Qed.

Lemma foldl_matchPending pending base m :
  inv base m -> exists base', (base' <= base + length pending)%nat
    /\ inv base' (foldl (matchPending quotes) m pending)
    /\ matchedOrders (foldl (matchPending quotes) m pending) = matchedOrders m
    /\ scheduledRefresh (foldl (matchPending quotes) m pending) = scheduledRefresh m.
Proof.
  revert base m. induction pending as [|c pending IH]; intros base m Hm; simpl.
  { exists base. split_and!; [lia|done..]. }
  destruct (matchPending_inv base m c Hm) as (b1 & Hb1 & Hi & Ho & Hs).
  destruct (IH b1 _ Hi) as (b2 & Hb2 & Hi' & Ho' & Hs'). exists b2.
  split_and!; [lia|done|congruence|congruence].
Qed.

Lemma scheduleExpired_inv base m i :
  inv base m -> i ∉ scheduledRefresh m -> matchedOrders m = replicate (length managed) false ->
  inv base (scheduleExpired quotes thr refresh managed m i)
  /\ matchedOrders (scheduleExpired quotes thr refresh managed m i) = matchedOrders m
  /\ scheduledRefresh (scheduleExpired quotes thr refresh managed m i) ⊆ {[i]} ∪ scheduledRefresh m.
Proof.
  intros Hm Hi Hr. unfold scheduleExpired. destruct (_ <=? _).
  { split_and!; [done..|set_solver]. }
  destruct (managed !! i) as [o|] eqn:Ho; [|split_and!; [done..|set_solver]].
  destruct (firstFree _ _ _) as [j|] eqn:E; [|split_and!; [done..|set_solver]].
  apply firstFree_spec in E as (Hj & q & Hq & Hex). split_and!; [|done|simpl; set_solver].
  eapply scheduleOrder_inv; eauto using isExact_isNear. rewrite Hr.
  apply lookup_replicate_2. by eapply lookup_lt_Some.
Qed.

Lemma foldl_scheduleExpired base m expired :
  inv base m -> NoDup expired -> (forall i, i ∈ expired -> i ∉ scheduledRefresh m) ->
  matchedOrders m = replicate (length managed) false ->
  inv base (foldl (scheduleExpired quotes thr refresh managed) m expired)
  /\ matchedOrders (foldl (scheduleExpired quotes thr refresh managed) m expired)
     = matchedOrders m.
Proof.
  revert m. induction expired as [|i expired IH]; intros m Hm Hnd Hd Hr; simpl; [done|].
  apply NoDup_cons in Hnd as [Hi Hnd].
  destruct (scheduleExpired_inv base m i Hm (Hd i ltac:(left)) Hr) as (H1 & H2 & H3).
  destruct (IH _ H1 Hnd) as [H4 H5]; [|congruence|split; [done|congruence]].
  intros i' Hi' Hs. apply H3, elem_of_union in Hs as [->%elem_of_singleton|Hs]; [done|].
  by apply (Hd i'); [right|].
Qed.

Lemma matchOrder_inv base m k o :
  managed !! k = Some o -> inv base m /\ upto quotes thr managed k m ->
  inv base (matchOrder quotes thr m (k, o)) /\ upto quotes thr managed (S k) (matchOrder quotes thr m (k, o)).
Proof.
  intros Ho [Hm [Hu1 Hu2]]. unfold matchOrder.
  assert (Hk : matchedOrders m !! k = Some false)
    by (apply Hu1; [lia|by eapply lookup_lt_Some]).
  destruct (bool_decide (k ∈ scheduledRefresh m)) eqn:Es.
  { apply bool_decide_eq_true in Es. split; [done|]. split; [intros; apply Hu1; lia|].
    intros i o' Hi Ho'. destruct (Nat.eq_dec i k) as [->|]; [auto|]. apply Hu2; [lia|done]. }
  apply bool_decide_eq_false in Es.
  destruct (firstFree _ _ _) as [j|] eqn:E.
  - apply firstFree_spec in E as (Hj & q & Hq & Hex).
    split; [eapply keepOrder_inv; eauto using isExact_isNear|]. split; simpl.
    + intros i Hi Hl. rewrite list_lookup_insert_ne by lia. apply Hu1; lia.
    + intros i o' Hi Ho'. destruct (Nat.eq_dec i k) as [->|Hne].
      { left. apply list_lookup_insert_eq. by eapply lookup_lt_Some. }
      destruct (Hu2 i o') as [H1|[H1|H1]]; [lia|done| |by right; left|].
      * left. by rewrite list_lookup_insert_ne.
      * right. right. by eapply no_fit_take.
  - split; [done|]. split; [intros; apply Hu1; lia|].
    intros i o' Hi Ho'. destruct (Nat.eq_dec i k) as [->|]; [|apply Hu2; [lia|done]].
    simplify_eq. right. right. intros j q Hq Hj. by eapply firstFree_none.
Qed.

Lemma foldl_matchOrder base m :
  inv base m -> matchedOrders m = replicate (length managed) false ->
  inv base (foldl (matchOrder quotes thr) m (zip (seq 0 (length managed)) managed))
  /\ upto quotes thr managed (length managed)
       (foldl (matchOrder quotes thr) m (zip (seq 0 (length managed)) managed)).
Proof.
  intros Hm Hr.
  apply (foldl_indexed _ (fun k m => inv base m /\ upto quotes thr managed k m)).
  - split; [done|]. split; [|lia]. intros i _ Hi. rewrite Hr. by apply lookup_replicate_2.
  - intros k o b Ho Hb. by apply matchOrder_inv.
Qed.

(** What [pairRefresh] preserves; the orders already decided stay decided. *)
Definition decided (base : nat) (m : Matching) : Prop :=
  inv base m /\ (forall i o, managed !! i = Some o ->
    matchedOrders m !! i = Some true \/ i ∈ scheduledRefresh m \/ no_fit quotes thr m o).

Lemma pairRefresh_ok base m io :
  io ∈ zip (seq 0 (length managed)) managed -> decided base m ->
  ok (pairRefresh quotes thr refresh m io) (fun es m' => quiet es /\ decided base m').
Proof.
  destruct io as [i o]. intros Hin [Hm Hd]. unfold pairRefresh.
  apply zip_seq_elem in Hin as [_ Ho]. rewrite Nat.sub_0_r in Ho.
  destruct (_ || _) eqn:Ec; [apply ok_done; by split; [apply quiet_nil|]|].
  apply orb_false_iff in Ec as [[En Es]%orb_false_iff _]. apply bool_decide_eq_false in Es.
  assert (Hi : matchedOrders m !! i = Some false).
  { rewrite <- En. rewrite nth_lookup.
    destruct (lookup_lt_is_Some_2 (matchedOrders m) i) as [b Hb].
    { rewrite (mi_orders _ _ _ _ _ Hm). by eapply lookup_lt_Some. }
    by rewrite Hb. }
  destruct (firstFree _ _ _) as [j|] eqn:E; [|apply ok_done; by split; [apply quiet_nil|]].
  apply firstFree_spec in E as (Hj & q & Hq & Hn).
  assert (Hk : decided base (keepOrder m i j)).
  { split; [by eapply keepOrder_inv|]. intros i' o' Ho'. simpl.
    destruct (Nat.eq_dec i' i) as [->|Hne].
    { left. apply list_lookup_insert_eq. by eapply lookup_lt_Some. }
    rewrite list_lookup_insert_ne by done.
    destruct (Hd i' o' Ho') as [?|[?|?]]; [auto..|]. right. right. by eapply no_fit_take. }
  assert (Hs : decided base (scheduleOrder m i j)).
  { split; [by eapply scheduleOrder_inv|]. intros i' o' Ho'. simpl.
    destruct (Hd i' o' Ho') as [?|[?|?]]; [auto|set_solver|]. right. right. by eapply no_fit_take. }
  eapply (ok_bind _ _ (fun es _ => quiet es)).
  - destruct (_ && _); [|apply ok_done; apply quiet_nil].
    apply ok_act. intros now. apply ok_done. by apply quiet_one.
  - intros es young Hq'. apply ok_done. rewrite app_nil_r. split; [done|]. by case_match.
Qed.

Lemma collectExpired_ok :
  ok (collectExpired refresh managed) (fun es l => quiet es /\ NoDup l).
Proof.
  unfold collectExpired.
  assert (Hg : forall l n acc, NoDup acc -> (forall i, i ∈ acc -> (i < n)%nat) ->
    ok (foldP (fun (acc : list nat) io => let '(index, order) := io : nat * Order in
          if IsZero (CreatedAt order) then Done acc else
          now ← act Now;
          Done (if MaxOrderAge refresh <=? TimeSub now (CreatedAt order) then acc ++ [index] else acc))
        (zip (seq n (length l)) l) acc) (fun es l => quiet es /\ NoDup l)).
  { induction l as [|o l IH]; intros n acc Hn Hl; cbn [zip zip_with seq length foldP].
    { apply ok_done. split; [apply quiet_nil|done]. }
    assert (Hl' : forall i, i ∈ acc -> (i < S n)%nat) by (intros i Hi; specialize (Hl i Hi); lia).
    destruct (IsZero _).
    { simpl. by apply IH. }
    simpl. apply ok_act. intros now. eapply ok_mono; [apply (IH (S n))|].
    - case_match; [|done]. apply NoDup_app. split_and!; [done| |apply NoDup_singleton].
      intros i Hi Hx. apply list_elem_of_singleton in Hx as ->. specialize (Hl _ Hi). lia.
    - case_match; [|done]. intros i Hi. apply elem_of_app in Hi as [Hi|Hi]; [auto|].
      apply list_elem_of_singleton in Hi as ->. lia.
    - intros es l' [? ?]. split; [by apply quiet_cons|done]. }
  apply Hg; [constructor|]. intros i Hi%elem_of_nil. done.
Qed.

(** Every order that ends up neither kept nor scheduled fits no free quote; every
    kept or scheduled order, and every matched pending creation, has a quote of its own. *)
Lemma matchAll_ok pending :
  ok (matchAll quotes thr refresh managed pending) (fun es m => quiet es
    /\ exists base, (base <= length pending)%nat /\ decided base m).
Proof.
  unfold matchAll. cbv zeta.
  set (m0 := MkMatching _ _ _ _ _).
  assert (Hz : inv 0 m0).
  { constructor; simpl; rewrite ?length_replicate, ?count_true_replicate; try done.
    - intros i o Ho [Hi|Hi]; [|by apply elem_of_empty in Hi]. by apply lookup_replicate in Hi as [? _]. }
  destruct (foldl_matchPending pending 0 m0 Hz) as (base & Hb & Hi & Ho & Hs).
  set (m1 := foldl (matchPending quotes) m0 pending) in *.
  eapply (ok_bind _ _ (fun es m => quiet es /\ inv base m
    /\ matchedOrders m = replicate (length managed) false)).
  { destruct (_ && _); [|apply ok_done; split_and!; [apply quiet_nil|done|done]].
    eapply ok_bind; [apply collectExpired_ok|]. intros es expired [Hq Hnd].
    apply ok_done. rewrite app_nil_r. split; [done|].
    destruct (foldl_scheduleExpired base m1
      (sort_slice (createdBefore managed) expired)) as [Hf1 Hf2]; try done.
    - by rewrite sort_slice_perm.
    - rewrite Hs. set_solver.
    - split; [done|]. rewrite Hf2. done. }
  intros es m2 (Hq & Hm2 & Hr2).
  destruct (foldl_matchOrder base m2 Hm2 Hr2) as [Hm3 [_ Hu3]].
  assert (Hd : decided base
    (foldl (matchOrder quotes thr) m2 (zip (seq 0 (length managed)) managed))).
  { split; [done|]. intros i o Hio. apply (Hu3 i o); [by eapply lookup_lt_Some|done]. }
  destruct (0 <? MaxRefreshesPerCycle refresh).
  2:{ apply ok_done. rewrite app_nil_r. eauto. }
  eapply ok_mono.
  { apply (ok_foldP _ (fun es m => quiet es /\ decided base m)).
    - split; [apply quiet_nil|done].
    - intros io es' m Hio [Hes Hdm]. eapply ok_mono; [by apply pairRefresh_ok|].
      intros es'' m' [? ?]. split; [by apply quiet_app|done]. }
  intros es' m [Hes Hdm]. split; [by apply quiet_app|eauto].
Qed.
End Matches.

End Cycle.
