(* ===== verification/OmsSafety.v ===== *)
(** Safety of the reconciler: what a reconciliation cycle or a cancellation run may
    do at the exchange, and what it leaves behind, whatever the exchange, the
    store, the clock and the write guard answer. *)
From S2P Require Import Prelude Decimal DecimalText Domain Json World Sha256 Venue Oms OmsFacts.

Open Scope string_scope.
Open Scope list_scope.
Open Scope Z_scope.

(** A write whose outcome at the exchange is not known for certain: a submission or
    cancellation that failed, or a batch whose results do not identify the orders. *)
Definition uncertain (e : event) : bool :=
  match e with
  | MkEvent (Call _ (CPlacePostOnly _)) (inr _) => true
  | MkEvent (Call _ (CPlaceBatch requests)) (orders, err) =>
      negb (bool_decide (err = None)) || negb (length orders =? length requests)%nat
      || existsb (fun o => String.eqb (OrderID o) "") orders
  | MkEvent (Call _ (CCancelOrder _ _)) (Some _) => true
  | MkEvent (Call _ (CCancelOrders _ _)) (Some _) => true
  | _ => false
  end.

(** A request that carries a target quote under a managed client id. *)
Definition request_for (instrumentID : string) (fence : Z) (quote : Quote) (q : PlaceRequest)
    : Prop :=
  req_Symbol q = quote_Symbol quote /\ req_Side q = quote_Side quote
  /\ req_Price q = quote_Price quote /\ req_Quantity q = quote_Quantity quote
  /\ req_FenceGeneration q = fence
  /\ exists now, req_ClientID q = clientID instrumentID quote fence now.

Lemma uncertain_write e : uncertain e = true -> is_write e = true.
Proof. destruct e as [[| | | |cl [| | | | | | | | |]| | | | | | | |] r]; simpl; try done. Qed.

Definition certain (es : trace) : Prop := Forall (fun e => uncertain e = false) es.

Lemma quiet_certain es : quiet es -> certain es.
Proof.
  intros H. eapply Forall_impl; [exact H|]. intros e He. simpl in He. destruct (uncertain e) eqn:E; [|done].
  apply uncertain_write in E. congruence.
Qed.

Lemma certain_app es es' : certain es -> certain es' -> certain (es ++ es').
Proof. intros. by apply Forall_app. Qed.
#[export] Hint Resolve quiet_certain certain_app quiet_guarded guarded_app : go.

(** ** The write guard *)

Lemma checkWriteGuard_ok g :
  ok (checkWriteGuard g) (fun es e => quiet es
    /\ (e = None -> forall w es', guarded g es' -> guarded g (es ++ w :: es'))).
Proof.
  unfold checkWriteGuard. destruct g; simpl negb; cbv iota.
  - apply ok_act. intros [err|]; apply ok_done; (split; [by apply quiet_one|]); [done|].
    intros _ w es' H. simpl. by apply guarded_write.
  - apply ok_done. split; [apply quiet_nil|]. intros _ w es' H. by apply guarded_free.
Qed.

(** A trace that only cancels: guarded, no submission. *)
Definition cancels_only (g : bool) (es : trace) : Prop := guarded g es /\ placed es = [].
(** A trace that only submits. *)
Definition places_only (g : bool) (es : trace) : Prop := guarded g es /\ cancelled es = [].

Lemma quiet_cancels_only g es : quiet es -> cancels_only g es.
Proof. intros H. split; [by apply quiet_guarded|]. by apply quiet_nothing. Qed.
Lemma quiet_places_only g es : quiet es -> places_only g es.
Proof. intros H. split; [by apply quiet_guarded|]. by apply quiet_nothing. Qed.
#[export] Hint Resolve quiet_cancels_only quiet_places_only : go.

Lemma quiet_cancelled_app es es' : quiet es -> cancelled (es ++ es') = cancelled es'.
Proof. intros H. rewrite cancelled_app. by destruct (quiet_nothing _ H) as [_ ->]. Qed.
Lemma quiet_placed_app es es' : quiet es -> placed (es ++ es') = placed es'.
Proof. intros H. rewrite placed_app. by destruct (quiet_nothing _ H) as [-> _]. Qed.
Lemma quiet_placed es : quiet es -> placed es = [].
Proof. intros H. by destruct (quiet_nothing _ H). Qed.
Lemma quiet_cancelled es : quiet es -> cancelled es = [].
Proof. intros H. by destruct (quiet_nothing _ H). Qed.
Lemma placed_cons e es : placed (e :: es) = placed_by e ++ placed es.
Proof. done. Qed.
Lemma cancelled_cons e es : cancelled (e :: es) = cancelled_by e ++ cancelled es.
Proof. done. Qed.

(** ** Cancelling a list of orders *)

(** The ids cancelled are a prefix of the list, all of it unless an error is
    returned; an uncertain cancellation is reported. *)
Definition cancels (g : bool) (ids : list string) (es : trace) (e : option error) : Prop :=
  cancels_only g es /\ cancelled es `prefix_of` ids /\ (e = None -> cancelled es = ids /\ certain es).

Lemma cancels_quiet g ids es err : quiet es -> cancels g ids es (Some err).
Proof.
  intros H. split_and!; [by apply quiet_cancels_only| |done].
  destruct (quiet_nothing _ H) as [_ ->]. apply prefix_nil.
Qed.

Lemma cancels_nil g : cancels g [] [] None.
Proof. split_and!; [apply quiet_cancels_only, quiet_nil|done|]. intros _. split; constructor. Qed.

(** One guarded call that cancels [now], then the rest. *)
Lemma cancels_step g es w es' now rest e :
  quiet es -> (forall w es', guarded g es' -> guarded g (es ++ w :: es')) ->
  placed_by w = [] -> cancelled_by w = now -> uncertain w = false ->
  cancels g rest es' e -> cancels g (now ++ rest) (es ++ w :: es') e.
Proof.
  intros Hq Hg Hp Hc Hu [[H1 H2] [H3 H4]]. split; [split|split].
  - by apply Hg.
  - by rewrite quiet_placed_app, placed_cons, Hp, H2.
  - rewrite quiet_cancelled_app, cancelled_cons, Hc by done. by apply prefix_app.
  - intros He. specialize (H4 He) as [H4 H5].
    rewrite quiet_cancelled_app, cancelled_cons, Hc, H4 by done. split; [done|].
    apply certain_app; [by apply quiet_certain|]. by constructor.
Qed.

(** One guarded call that cancels [now] and fails. *)
Lemma cancels_stop g es w now rest err :
  quiet es -> (forall w es', guarded g es' -> guarded g (es ++ w :: es')) ->
  placed_by w = [] -> cancelled_by w = now -> cancels g (now ++ rest) (es ++ [w]) (Some err).
Proof.
  intros Hq Hg Hp Hc. split; [split|split; [|done]].
  - apply Hg. constructor.
  - by rewrite quiet_placed_app, placed_cons, Hp.
  - rewrite quiet_cancelled_app, cancelled_cons, Hc by done. apply prefix_app.
    apply prefix_nil.
Qed.

Lemma cancelBatches_ok client g symbol fuel ids : (length ids <= fuel)%nat ->
  ok (cancelBatches client g symbol fuel ids) (cancels g ids).
Proof.
  revert ids. induction fuel as [|fuel IH]; intros ids Hf.
  { destruct ids; simpl in *; [|lia]. apply ok_done. apply cancels_nil. }
  cbn [cancelBatches]. destruct ids as [|id ids']; [apply ok_done; apply cancels_nil|].
  set (ids := id :: ids') in *.
  assert (Hsplit : cancels g ids = cancels g (take maxBatchCancelSize ids
    ++ drop maxBatchCancelSize ids)) by (by rewrite take_drop).
  eapply ok_bind; [apply checkWriteGuard_ok|]. intros es [err|] [Hq Hg].
  { apply ok_done. rewrite app_nil_r. by apply cancels_quiet. }
  apply ok_act. intros [err|].
  - apply ok_done. rewrite Hsplit.
    apply cancels_stop; auto.
  - apply (ok_mono _ (cancels g (drop maxBatchCancelSize ids))).
    + apply IH. rewrite length_drop. unfold ids in *. simpl in *. unfold maxBatchCancelSize. lia.
    + intros es' e He. rewrite Hsplit.
      apply cancels_step; auto.
Qed.

Lemma cancelEach_ok client g symbol orders :
  ok (cancelEach client g symbol orders) (cancels g (map OrderID orders)).
Proof.
  induction orders as [|order orders IH]; simpl.
  { apply ok_done. apply cancels_nil. }
  eapply ok_bind; [apply checkWriteGuard_ok|]. intros es [err|] [Hq Hg].
  { apply ok_done. rewrite app_nil_r. by apply cancels_quiet. }
  apply ok_act. intros [err|].
  - apply ok_done. apply (cancels_stop g es _ [OrderID order]); auto.
  - eapply ok_mono; [apply IH|]. intros es' e He.
    apply (cancels_step g es _ es' [OrderID order]); auto.
Qed.

Lemma cancelOrders_ok client symbol orders g :
  ok (cancelOrders client symbol orders g) (cancels g (map OrderID orders)).
Proof.
  unfold cancelOrders. destruct (length orders =? 0)%nat eqn:E.
  { apply Nat.eqb_eq, nil_length_inv in E as ->. apply ok_done. apply cancels_nil. }
  destruct (isBatchCanceler client); [|apply cancelEach_ok].
  apply cancelBatches_ok. by rewrite length_map.
Qed.

(** ** Submitting a batch *)

(** An uncertain submission is either reported as an error that is not the guard's,
    or visible as an accepted order without an id. *)
Definition submits (g : bool) (requests : list PlaceRequest) (es : trace)
    (res : list Order * option error * option error) : Prop :=
  let '(orders, err, guardErr) := res in
  places_only g es /\ placed es `prefix_of` requests
  /\ (err = None -> length orders = length requests)
  /\ (certain es \/ (err <> None /\ guardErr = None) \/ (err = None /\ emptyIndex orders <> None)).

Lemma guardClosure_ok g s :
  ok (guardClosure g s) (fun es res => quiet es /\ snd res = fst res
    /\ (fst res = None -> forall w es', guarded g es' -> guarded g (es ++ w :: es'))).
Proof.
  unfold guardClosure. eapply ok_bind; [apply checkWriteGuard_ok|]. intros es e [Hq Hg].
  apply ok_done. rewrite app_nil_r. done.
Qed.

Lemma placeEach_ok client g placedSoFar requests s :
  ok (placeEach client (Some (guardClosure g)) placedSoFar requests s) (fun es res =>
    let '(orders, err, guardErr) := res in
    places_only g es /\ placed es `prefix_of` requests
    /\ (err = None -> length orders = (length placedSoFar + length requests)%nat)
    /\ (certain es \/ (err <> None /\ guardErr = None))).
Proof.
  revert placedSoFar s. induction requests as [|request rest IH]; intros acc s; cbn [placeEach].
  { apply ok_done. split_and!; [apply quiet_places_only, quiet_nil|done| |by left; constructor].
    intros _. simpl. lia. }
  eapply ok_bind; [apply guardClosure_ok|]. intros es [[err|] s'] (Hq & Hs & Hg); simpl in Hs, Hg.
  { apply ok_done. rewrite app_nil_r. split_and!; [by apply quiet_places_only| |done|].
    - destruct (quiet_nothing _ Hq) as [-> _]. apply prefix_nil.
    - left. by apply quiet_certain. }
  subst s'. specialize (Hg eq_refl). apply ok_act. intros [order|e].
  - eapply ok_mono; [apply IH|]. intros es' [[orders err] ge] ([H1 H2] & H3 & H4 & H5).
    split_and!.
    + split; [by apply Hg|]. by rewrite quiet_cancelled_app, cancelled_cons.
    + rewrite quiet_placed_app, placed_cons by done. by apply (prefix_app [request]).
    + intros He. rewrite H4, length_app by done. simpl. lia.
    + destruct H5 as [H5|H5]; [left|by right]. apply certain_app; [by apply quiet_certain|].
      by constructor.
  - apply ok_done. split_and!.
    + split; [by apply Hg; constructor|]. by rewrite quiet_cancelled_app, cancelled_cons.
    + rewrite quiet_placed_app, placed_cons by done. apply (prefix_app [request]), prefix_nil.
    + done.
    + by right.
Qed.

Lemma existsb_empty_id orders :
  existsb (fun o => String.eqb (OrderID o) "") orders = true -> emptyIndex orders <> None.
Proof.
  unfold emptyIndex. intros (o & Ho & E)%existsb_exists Hn. apply String.eqb_eq in E.
  apply fmap_None in Hn. rewrite list_find_None, Forall_forall in Hn.
  apply (Hn o); [by apply list_elem_of_In|done].
Qed.

Lemma PlacePostOnlyBatch_ok client g requests :
  ok (PlacePostOnlyBatch client (Some (guardClosure g)) requests None) (submits g requests).
Proof.
  unfold PlacePostOnlyBatch. destruct (length requests =? 0)%nat eqn:E.
  { apply Nat.eqb_eq, nil_length_inv in E as ->. apply ok_done.
    split_and!; [apply quiet_places_only, quiet_nil|done|done|by left; constructor]. }
  destruct (isBatchPlacer client).
  - eapply ok_bind; [apply guardClosure_ok|]. intros es [[err|] s'] (Hq & Hs & Hg); simpl in Hs, Hg.
    { apply ok_done. rewrite app_nil_r. split_and!; [by apply quiet_places_only| |done|].
      - destruct (quiet_nothing _ Hq) as [-> _]. apply prefix_nil.
      - left. by apply quiet_certain. }
    subst s'. specialize (Hg eq_refl). apply ok_act. intros [orders err].
    assert (Hp : places_only g (es ++ [MkEvent (Call (Name client) (CPlaceBatch requests)) (orders, err)])
      /\ placed (es ++ [MkEvent (Call (Name client) (CPlaceBatch requests)) (orders, err)])
         `prefix_of` requests).
    { split; [split; [by apply Hg; constructor|]|].
      - by rewrite quiet_cancelled_app, cancelled_cons.
      - rewrite quiet_placed_app, placed_cons by done. simpl. by rewrite app_nil_r. }
    destruct (length orders =? length requests)%nat eqn:El; simpl negb; cbv iota;
      apply ok_done; (split_and!; [apply Hp|apply Hp|..]); try done; [by intros; apply Nat.eqb_eq| |].
    + destruct err as [e|]; [by right; left|]. destruct (existsb (fun o => String.eqb (OrderID o) "") orders) eqn:Ex.
      { right. right. split; [done|]. by apply existsb_empty_id. }
      left. apply certain_app; [by apply quiet_certain|]. constructor; [|constructor].
      unfold uncertain. rewrite El, Ex, bool_decide_true; done.
    + right. by left.
  - eapply ok_mono; [apply placeEach_ok|].
    intros es [[orders err] ge] (H1 & H2 & H3 & H4). split_and!; try done.
    destruct H4; [by left|by right; left].
Qed.

(** ** Blocking a market *)

(** The market is blocked, and the block was the last thing saved. *)
Definition blocks (key : string) (es : trace) (r : Reconciler) : Prop :=
  exists reason, blocked r !! key = Some reason /\ Error reason <> ""
  /\ (has_store r = true -> exists es0 x,
        es = es0 ++ [MkEvent (SaveState namespace key (marshal (snapshotOf r key))) x]).

Lemma blocks_app key es es' r : blocks key es' r -> blocks key (es ++ es') r.
Proof.
  intros (reason & H1 & H2 & H3). exists reason. split_and!; [done..|]. intros Hs.
  destruct (H3 Hs) as (es0 & x & ->). exists (es ++ es0), x. by rewrite app_assoc.
Qed.
Lemma blocks_cons key e es r : blocks key es r -> blocks key (e :: es) r.
Proof. apply (blocks_app key [e]). Qed.

Lemma Wrapf_nonempty prefix e : prefix <> "" -> Error (Wrapf prefix e) <> "".
Proof. by destruct prefix. Qed.
Lemma append_nonempty s t : s <> "" -> s +:+ t <> "".
Proof. by destruct s. Qed.
#[export] Hint Resolve Wrapf_nonempty append_nonempty : go.

Lemma block_blocks r key err : Error err <> "" ->
  ok (block r key err) (fun es r' => quiet es /\ same_elsewhere key r r' /\ blocks key es r').
Proof.
  intros He. unfold block, persist. cbv zeta. set (r1 := set_blocked r _).
  assert (Hb : blocked r1 !! key = Some err) by apply lookup_insert_eq.
  assert (Hsame : same_elsewhere key r r1) by (unfold r1; auto with go).
  clearbody r1. destruct (has_store r1) eqn:Hs; simpl negb; cbv iota.
  - assert (Hn : emptyState (snapshotOf r1 key) = false).
    { unfold emptyState, snapshotOf. simpl. rewrite Hb. by destruct (Error err). }
    rewrite Hn. apply ok_act. intros x. apply ok_done. split_and!; [by apply quiet_one|done|].
    exists err. split_and!; [done..|]. intros _. by exists [], x.
  - apply ok_done. split_and!; [apply quiet_nil|done|]. exists err. split_and!; [done..|].
    rewrite Hs. done.
Qed.

(** ** Filling vacancies *)

Section Cycle.
Context `{MapRange} `{SliceSort}.

(** The targets no visible order or pending creation occupies. *)
Definition free_quotes (mq : list (bool * Quote)) : list Quote :=
  map snd (filter (fun p => fst p = false) mq).

Lemma selectMissing_ok instrumentID fence limit l acc :
  ok (foldP (selectMissing instrumentID fence limit) l acc) (fun es acc' => quiet es
    /\ exists new, acc' = acc ++ new /\ map fst new `sublist_of` free_quotes l
       /\ Forall (fun qr => request_for instrumentID fence (fst qr) (snd qr)) new
       /\ (length acc' <= Nat.max limit (length acc))%nat).
Proof.
  revert acc. induction l as [|[matched quote] l IH]; intros acc; cbn [foldP].
  { apply ok_done. split; [apply quiet_nil|]. exists []. rewrite app_nil_r.
    split_and!; [done|constructor|constructor|lia]. }
  assert (Hsub : free_quotes l `sublist_of` free_quotes ((matched, quote) :: l)).
  { unfold free_quotes. rewrite filter_cons. case_decide; [by constructor|done]. }
  unfold selectMissing at 2. destruct (matched || (limit <=? length acc)%nat) eqn:E.
  { apply ok_done_bind. eapply ok_mono; [apply IH|]. intros es acc' (Hq & new & ? & ? & ? & ?). split; [done|].
    exists new. split_and!; try done. by etransitivity. }
  apply orb_false_iff in E as [-> Hl%Nat.leb_gt].
  apply ok_act. intros now. eapply ok_mono; [apply IH|].
  intros es acc' (Hq & new & -> & Hs & Hf & Hlen). split; [by apply quiet_cons|].
  eexists (_ :: new). rewrite <- app_assoc. split_and!; [reflexivity| | |].
  - unfold free_quotes. rewrite filter_cons_True by done. simpl. by constructor.
  - constructor; [|done]. simpl. split_and!; try done. by exists now.
  - rewrite !length_app in *. simpl in *. lia.
Qed.

Lemma recordOrder_ok key st oq :
  ok (recordOrder key st oq) (fun es st' => quiet es
    /\ same_elsewhere key (snd st) (snd st')
    /\ (snd (fst st) <> None -> st' = st /\ es = [])
    /\ (snd (fst st) = None -> snd (fst st') <> None -> blocks key es (snd st'))).
Proof.
  destruct st as [[res stop] r], oq as [order quote]. unfold recordOrder.
  destruct stop as [e|]; [apply ok_done; split_and!; auto with go; try done; reflexivity|].
  destruct (String.eqb _ _); [apply ok_done; split_and!; auto with go; try done; reflexivity|].
  destruct (isActiveOrder _); [|apply ok_done; split_and!; auto with go; try done; reflexivity].
  apply ok_act. intros now. cbv zeta. set (r1 := addPendingCreate r key _).
  assert (Hs : same_elsewhere key r r1) by apply addPendingCreate_same.
  eapply ok_bind; [apply persist_ok|]. intros es [e|] Hq.
  - eapply ok_bind; [apply block_blocks; by apply Wrapf_nonempty|]. intros es' r' (Hq' & Hs' & Hb).
    apply ok_done. rewrite app_nil_r. cbn [fst snd]. split_and!; [|by etransitivity|done|].
    + apply quiet_cons; [done|]. by apply quiet_app.
    + intros _ _. apply (blocks_app key (_ :: es)). done.
  - apply ok_done. rewrite app_nil_r. split_and!; [by apply quiet_cons|done|done|done].
Qed.

Lemma recordOrders_ok key l res r :
  ok (foldP (recordOrder key) l (res, None, r)) (fun es st => quiet es
    /\ same_elsewhere key r (snd st) /\ (snd (fst st) <> None -> blocks key es (snd st))).
Proof.
  apply (ok_foldP _ (fun es st => quiet es /\ same_elsewhere key r (snd st)
    /\ (snd (fst st) <> None -> blocks key es (snd st)))).
  { split_and!; [apply quiet_nil|reflexivity|done]. }
  intros oq es st _ (Hq & Hs & Hb). eapply ok_mono; [apply recordOrder_ok|].
  intros es' st' (Hq' & Hs' & Hk & Hn). split_and!; [by apply quiet_app|by etransitivity|].
  intros Hst. destruct (snd (fst st)) as [e|] eqn:E.
  - destruct (Hk ltac:(done)) as [-> ->]. rewrite app_nil_r. apply Hb. done.
  - apply blocks_app. by apply Hn.
Qed.

(** What one cycle does at the exchange, and to the reconciler. *)
Record cycle_effect (key : string) (managed : list Order) (free : list Quote)
    (instrumentID : string) (fence : Z) (limit : nat) (g : bool) (es : trace)
    (r' : Reconciler) : Prop := {
  ce_guarded : guarded g es;
  ce_exclusive : placed es = [] \/ cancelled es = [];
  ce_placed : exists qs, qs `sublist_of` free
    /\ Forall2 (request_for instrumentID fence) qs (placed es) /\ (length qs <= limit)%nat;
  ce_cancelled : exists os, os ⊆ managed /\ cancelled es = map OrderID os
    /\ (length os <= maxOrderMutationsPerCycle)%nat;
  ce_uncertain : certain es \/ blocks key es r'
}.

Lemma Forall2_prefix {A B} (R : A -> B -> Prop) l k k' :
  Forall2 R l k -> k' `prefix_of` k -> Forall2 R (take (length k') l) k'.
Proof.
  intros HR [k'' ->]. apply Forall2_app_inv_r in HR as (l1 & l2 & H1 & H2 & ->).
  rewrite <- (Forall2_length _ _ _ H1). by rewrite take_app_length.
Qed.

Lemma request_for_split instrumentID fence (new : list (Quote * PlaceRequest)) :
  Forall (fun qr => request_for instrumentID fence (fst qr) (snd qr)) new ->
  Forall2 (request_for instrumentID fence) (map fst new) (map snd new).
Proof. induction 1; by constructor. Qed.

(** A submission between quiet steps. *)
Lemma place_effect key managed free instrumentID fence limit g
    (new : list (Quote * PlaceRequest)) es1 es2 es' r' :
  quiet es1 -> places_only g es2 -> placed es2 `prefix_of` map snd new ->
  map fst new `sublist_of` free ->
  Forall (fun qr => request_for instrumentID fence (fst qr) (snd qr)) new ->
  (length new <= limit)%nat -> quiet es' -> (certain es2 \/ blocks key es' r') ->
  cycle_effect key managed free instrumentID fence limit g (es1 ++ es2 ++ es') r'.
Proof.
  intros Hq1 [Hg2 Hc2] Hp2 Hsub Hreq Hlen Hq Hu.
  assert (Hpl : placed (es1 ++ es2 ++ es') = placed es2).
  { by rewrite quiet_placed_app, placed_app, (quiet_placed es'), app_nil_r. }
  assert (Hca : cancelled (es1 ++ es2 ++ es') = []).
  { by rewrite quiet_cancelled_app, cancelled_app, Hc2, (quiet_cancelled es'). }
  constructor; [auto with go|by right|..].
  - rewrite Hpl. exists (take (length (placed es2)) (map fst new)). split_and!.
    + etransitivity; [apply sublist_take|done].
    + eapply Forall2_prefix; [by apply request_for_split|done].
    + rewrite length_take, length_map. lia.
  - exists []. split_and!; [set_solver|done|simpl; lia].
  - destruct Hu as [Hu|Hu]; [left; auto with go|right]. by do 2 apply blocks_app.
Qed.

Lemma placeMissing_ok r client key instrumentID quotes matched limit res g fence managed :
  ok (placeMissing r client key instrumentID quotes matched limit res g fence) (fun es out =>
    cycle_effect key managed (free_quotes (zip matched quotes)) instrumentID fence limit g es (snd out)
    /\ same_elsewhere key r (snd out)).
Proof.
  unfold placeMissing. eapply ok_bind; [apply selectMissing_ok|].
  intros es1 selected (Hq1 & new & -> & Hsub & Hreq & Hlen). cbv zeta. simpl in Hlen.
  rewrite app_nil_l in *.
  eapply ok_bind; [apply PlacePostOnlyBatch_ok|].
  intros es2 [[orders submitErr] guardErr] (Hpo2 & Hp2 & Hlen2 & Hu2).
  eapply ok_bind; [apply recordOrders_ok|].
  intros es3 [[res' stop] r'] (Hq3 & Hs3 & Hb3). cbn [fst snd] in Hs3, Hb3.
  assert (Heff : forall es4 r4, quiet es4 -> same_elsewhere key r' r4 ->
    (certain es2 \/ blocks key (es3 ++ es4) r4) ->
    cycle_effect key managed (free_quotes (zip matched quotes)) instrumentID fence limit g
      (es1 ++ es2 ++ es3 ++ es4) r4 /\ same_elsewhere key r r4).
  { intros es4 r4 Hq4 Hs4 Hu. split; [|by etransitivity].
    eapply place_effect; eauto with go. lia. }
  assert (Hend : forall r4 (o : Result * option error * Reconciler), snd o = r4 ->
    same_elsewhere key r' r4 -> (certain es2 \/ blocks key es3 r4) ->
    cycle_effect key managed (free_quotes (zip matched quotes)) instrumentID fence limit g
      (es1 ++ es2 ++ es3 ++ []) (snd o) /\ same_elsewhere key r (snd o)).
  { intros r4 o -> Hs4 Hu. apply Heff; [apply quiet_nil|done|by rewrite app_nil_r]. }
  assert (Hblk : forall err (o : Reconciler -> Result * option error * Reconciler),
    (forall x, snd (o x) = x) -> Error err <> "" ->
    ok (r4 ← block r' key err; Done (o r4)) (fun es out =>
      cycle_effect key managed (free_quotes (zip matched quotes)) instrumentID fence limit g
        (es1 ++ es2 ++ es3 ++ es) (snd out) /\ same_elsewhere key r (snd out))).
  { intros err o Ho He. eapply ok_bind; [apply block_blocks; exact He|]. intros es4 r4 (Hq4 & Hs4 & Hb4).
    apply ok_done. rewrite Ho, app_nil_r. apply Heff; [done|done|]. right. by apply blocks_app. }
  destruct stop as [e|]; [apply ok_done; apply (Hend r'); [done|reflexivity|by right; apply Hb3]|].
  destruct submitErr as [e|].
  - destruct guardErr as [ge|].
    + assert (Hc : certain es2) by (destruct Hu2 as [?|[[_ ?]|[? _]]]; done).
      destruct (errors_Is e ge); [apply ok_done; apply (Hend r'); [done|reflexivity|by left]|].
      apply (Hblk _ (fun x => (res', _, x))); [done|by apply Wrapf_nonempty].
    + apply (Hblk _ (fun x => (res', _, x))); [done|by apply Wrapf_nonempty].
  - destruct (length orders =? length (map snd new))%nat eqn:El; simpl negb; cbv iota.
    2:{ apply (Hblk _ (fun x => (res', _, x))); [done|]. simpl. by apply append_nonempty. }
    destruct (emptyIndex orders) as [index|] eqn:Ee.
    { apply (Hblk _ (fun x => (res', _, x))); [done|]. simpl. by apply append_nonempty. }
    apply ok_done. apply (Hend r'); [done|reflexivity|left].
    destruct Hu2 as [?|[[? _]|[_ ?]]]; done.
Qed.

(** ** Choosing and acting *)

Lemma selectCancels_spec m managed :
  selectCancels m managed ⊆ managed
  /\ (length (selectCancels m managed) <= maxOrderMutationsPerCycle)%nat
  /\ (forall o, o ∈ selectCancels m managed -> exists i, managed !! i = Some o
        /\ (nth i (matchedOrders m) false = false \/ i ∈ scheduledRefresh m)).
Proof.
  unfold selectCancels. cbv zeta. set (indexed := zip _ _).
  set (good := fun o => exists i, managed !! i = Some o
        /\ (nth i (matchedOrders m) false = false \/ i ∈ scheduledRefresh m)).
  assert (Hin : forall i o, (i, o) ∈ indexed -> managed !! i = Some o).
  { intros i o Hio. apply zip_seq_elem in Hio as [_ Hio]. by rewrite Nat.sub_0_r in Hio. }
  assert (Hg : forall (f : list Order -> nat * Order -> list Order),
    (forall acc i o, f acc (i, o) = acc \/ (f acc (i, o) = acc ++ [o] /\ (managed !! i = Some o -> good o)
       /\ (length acc < maxOrderMutationsPerCycle)%nat)) ->
    forall l acc, (forall i o, (i, o) ∈ l -> managed !! i = Some o) ->
    (length acc <= maxOrderMutationsPerCycle)%nat -> Forall good acc ->
    (length (foldl f acc l) <= maxOrderMutationsPerCycle)%nat /\ Forall good (foldl f acc l)).
  { intros f Hf. induction l as [|[i o] l IH]; intros acc Hl Hlen Ha; simpl; [done|].
    assert (Hl' : forall i o, (i, o) ∈ l -> managed !! i = Some o) by (intros; apply Hl; by right).
    destruct (Hf acc i o) as [->|(-> & Hgo & Hlt)]; [by apply IH|]. apply IH; [done|..].
    - rewrite length_app. simpl. lia.
    - apply Forall_app_2; [done|]. repeat constructor. apply Hgo, Hl. left. }
  destruct (Hg (selectStale m)) with (l := indexed) (acc := @nil Order) as [H1 H2]; [|exact Hin|cbn [length]; lia|constructor|].
  { intros acc i o. unfold selectStale. destruct (_ || _) eqn:E; [by left|right].
    apply orb_false_iff in E as [[E1 E2]%orb_false_iff E3%Nat.leb_gt]. split_and!; [done| |done].
    intros Ho. exists i. split; [done|by left]. }
  destruct (Hg (selectScheduled m)) with (l := indexed)
    (acc := foldl (selectStale m) [] indexed) as [H3 H4]; [|exact Hin|exact H1|exact H2|].
  { intros acc i o. unfold selectScheduled. destruct (_ || _) eqn:E; [by left|right].
    apply orb_false_iff in E as [E1%negb_false_iff%bool_decide_eq_true E3%Nat.leb_gt].
    split_and!; [done| |done]. intros Ho. exists i. split; [done|by right]. }
  split_and!; [|done|].
  - intros o Ho. rewrite Forall_forall in H4. destruct (H4 o Ho) as (i & Hi & _).
    by eapply list_elem_of_lookup_2.
  - intros o Ho. rewrite Forall_forall in H4. by apply H4.
Qed.

Lemma setPendingCancels_ok r key ids :
  ok (setPendingCancels r key ids) (fun es r' => quiet es /\ same_elsewhere key r r'
    /\ blocked r' = blocked r /\ (OrderIDs <$> pendingCancels r' !! key) = Some ids).
Proof.
  unfold setPendingCancels. cbv zeta. apply ok_act. intros now. apply ok_done.
  split_and!; [by apply quiet_one|auto with go|done|]. simpl. by rewrite lookup_insert_eq.
Qed.

Lemma prefix_of_map {A B} (f : A -> B) (k : list B) (l : list A) :
  k `prefix_of` map f l -> exists l', k = map f l' /\ l' `prefix_of` l.
Proof.
  intros [k' E]. apply map_eq_app in E as (l1 & l2 & -> & <- & _). exists l1. split; [done|].
  by exists l2.
Qed.

(** How many orders a cycle may add: the vacancies of the book, at most twenty. *)
Definition roomFor (quotes : list Quote) (managed : list Order) (pending : list pendingCreate) : nat :=
  Nat.min (length quotes - length managed - length pending) maxOrderMutationsPerCycle.

Lemma quiet_effect key managed free instrumentID fence limit g es r' :
  quiet es -> cycle_effect key managed free instrumentID fence limit g es r'.
Proof.
  intros Hq. destruct (quiet_nothing _ Hq) as [Hp Hc]. constructor; [auto with go| | | |].
  - by left.
  - rewrite Hp. exists []. split_and!; [apply sublist_nil_l|constructor|simpl; lia].
  - rewrite Hc. exists []. split_and!; [set_solver|done|simpl; lia].
  - left. by apply quiet_certain.
Qed.

Lemma effect_after key managed free instrumentID fence limit g es0 es r' :
  quiet es0 -> cycle_effect key managed free instrumentID fence limit g es r' ->
  cycle_effect key managed free instrumentID fence limit g (es0 ++ es) r'.
Proof.
  intros Hq [H1 H2 H3 H4 H5]. constructor.
  - auto with go.
  - by rewrite quiet_placed_app, quiet_cancelled_app.
  - by rewrite quiet_placed_app.
  - by rewrite quiet_cancelled_app.
  - destruct H5; [left; auto with go|right; by apply blocks_app].
Qed.

Lemma actOnMatching_ok r client key instrumentID symbol quotes managed pending m g fence :
  ok (actOnMatching r client key instrumentID symbol quotes managed pending m g fence)
    (fun es out => cycle_effect key managed (free_quotes (zip (matchedQuotes m) quotes))
       instrumentID fence (roomFor quotes managed pending) g es (snd out)
     /\ same_elsewhere key r (snd out)).
Proof.
  unfold actOnMatching. cbv zeta. destruct (0 <? _) eqn:Ev.
  { eapply ok_mono; [apply placeMissing_ok|]. intros es out H1. unfold roomFor.
    apply Z.ltb_lt in Ev.
    replace (length quotes - length managed - length pending)%nat with
      (Z.to_nat (Z.of_nat (length quotes) - Z.of_nat (length managed) - Z.of_nat (length pending)))
      by lia. exact H1. }
  destruct (selectCancels_spec m managed) as (Hsub & Hlen & _).
  destruct (0 <? length (selectCancels m managed))%nat.
  2:{ apply ok_done. split; [apply quiet_effect, quiet_nil|reflexivity]. }
  eapply ok_bind; [apply cancelOrders_ok|]. intros es e ([Hg Hp] & Hpre & Hc).
  assert (Heff : forall es' r', quiet es' -> (certain es \/ blocks key es' r') ->
    cycle_effect key managed (free_quotes (zip (matchedQuotes m) quotes)) instrumentID fence
      (roomFor quotes managed pending) g (es ++ es') r').
  { intros es' r' Hq Hu. destruct (quiet_nothing _ Hq) as [Hp' Hc'].
    assert (Hca : cancelled (es ++ es') = cancelled es) by (by rewrite cancelled_app, Hc', app_nil_r).
    assert (Hpl : placed (es ++ es') = []) by (by rewrite placed_app, Hp, Hp').
    constructor; [auto with go|by left| | |].
    - rewrite Hpl. exists []. split_and!; [apply sublist_nil_l|constructor|simpl; lia].
    - rewrite Hca. apply prefix_of_map in Hpre as (os & -> & Hos). exists os. split_and!.
      + intros o Ho. apply Hsub. destruct Hos as [k ->]. apply elem_of_app. by left.
      + done.
      + apply prefix_length in Hos. lia.
    - destruct Hu; [left; auto with go|right; by apply blocks_app]. }
  destruct e as [err|].
  - eapply ok_bind; [apply block_blocks; by apply Wrapf_nonempty|]. intros es' r' (Hq & Hs & Hb).
    apply ok_done. rewrite app_nil_r. split; [|done]. apply Heff; [done|by right].
  - specialize (Hc eq_refl) as [_ Hc]. eapply ok_bind; [apply setPendingCancels_ok|].
    intros es1 r1 (Hq1 & Hs1 & _ & _). eapply ok_bind; [apply persist_ok|].
    intros es2 p Hq2. apply ok_done. rewrite app_nil_r. split; [|done].
    apply Heff; [by apply quiet_app|by left].
Qed.

(** ** A whole cycle *)

Lemma cycle_effect_mono key managed free free' instrumentID fence limit limit' g es r' :
  free `sublist_of` free' -> (limit <= limit')%nat ->
  cycle_effect key managed free instrumentID fence limit g es r' ->
  cycle_effect key managed free' instrumentID fence limit' g es r'.
Proof.
  intros Hf Hl [H1 H2 (qs & H3 & H3' & H3'') H4 H5]. constructor; try done.
  exists qs. split_and!; [by etransitivity|done|lia].
Qed.

Lemma free_quotes_sublist matched quotes :
  free_quotes (zip matched quotes) `sublist_of` quotes.
Proof.
  revert matched. induction quotes as [|q quotes IH]; intros [|b matched];
    unfold free_quotes; cbn [zip zip_with]; try apply sublist_nil_l.
  rewrite filter_cons. destruct b; case_decide; try done; cbn [map snd].
  - apply sublist_cons, IH.
  - apply sublist_skip, IH.
Qed.

(** The effect of a cycle in terms of its arguments. *)
Definition cycle_safe (client : Client) (instrumentID : string) (quotes : list Quote)
    (orders : list Order) (g : bool) (fence : Z) : trace -> Reconciler -> Prop :=
  cycle_effect (stateKey client instrumentID) (ManagedOrdersFor client orders) quotes instrumentID
    fence (roomFor quotes (ManagedOrdersFor client orders) []) g.

Lemma reconcile_ok r client instrumentID quotes thr orders g fence refresh :
  ok (ReconcileWithOrdersGuardedPolicy r client instrumentID quotes thr orders g fence refresh)
    (fun es out => cycle_safe client instrumentID quotes orders g fence es (snd out)
     /\ same_elsewhere (stateKey client instrumentID) r (snd out)).
Proof.
  unfold ReconcileWithOrdersGuardedPolicy. cbv zeta. set (key := stateKey client instrumentID).
  unfold cycle_safe. fold key.
  assert (Hstop : forall es r' (o : Result * option error * Reconciler), snd o = r' ->
    quiet es -> same_elsewhere key r r' ->
    cycle_effect key (ManagedOrdersFor client orders) quotes instrumentID fence
      (roomFor quotes (ManagedOrdersFor client orders) []) g es (snd o)
    /\ same_elsewhere key r (snd o)).
  { intros es r' o -> Hq Hs. split; [by apply quiet_effect|done]. }
  assert (Hblock : forall es r1 err, quiet es -> same_elsewhere key r r1 ->
    ok (r' ← block r1 key err; Done (zeroResult, Some err, r')) (fun es' out =>
      cycle_effect key (ManagedOrdersFor client orders) quotes instrumentID fence
        (roomFor quotes (ManagedOrdersFor client orders) []) g (es ++ es') (snd out)
      /\ same_elsewhere key r (snd out))).
  { intros es r1 err Hq Hs. eapply ok_bind; [apply block_ok|]. intros es' r2 [Hq' ->].
    apply ok_done. rewrite app_nil_r. eapply Hstop; [done|by apply quiet_app|].
    etransitivity; [exact Hs|]. apply same_set_blocked. frame_map. }
  eapply ok_bind; [apply ensureLoaded_ok|]. intros es1 [loadErr r1] (Hq1 & Hs1 & _).
  destruct loadErr as [e|]; [apply ok_done; rewrite app_nil_r; by eapply Hstop|].
  destruct (blocked r1 !! key); [apply ok_done; rewrite app_nil_r; by eapply Hstop|].
  destruct quotes as [|quote quotes']; [apply ok_done; rewrite app_nil_r; by eapply Hstop|].
  set (quotes := quote :: quotes') in *.
  eapply ok_bind; [apply waiting_ok|]. intros es2 [[waiting waitErr] r2] (Hq2 & Hs2 & _).
  eapply ok_bind; [apply persist_ok|]. intros es3 p Hq3. cbn [fst snd] in *.
  assert (Hq : quiet (es1 ++ es2 ++ es3)) by auto with go.
  assert (Hs : same_elsewhere key r r2) by (by etransitivity).
  destruct p as [e|]; [apply ok_done; rewrite app_nil_r; by eapply Hstop|].
  destruct waitErr as [e|].
  { eapply ok_mono; [exact (Hblock _ r2 e Hq Hs)|]. intros es4 out. cbv beta. by rewrite <- !app_assoc. }
  destruct waiting; [apply ok_done; rewrite app_nil_r; by eapply Hstop|].
  eapply ok_bind; [apply activePendingCreates_ok|].
  intros es4 [[pending pendingErr] r3] (Hq4 & (Hs4 & _)). cbn [fst snd] in *.
  assert (Hq' : quiet ((es1 ++ es2 ++ es3) ++ es4)) by auto with go.
  assert (Hs' : same_elsewhere key r r3) by (by etransitivity).
  destruct pendingErr as [e|].
  { eapply ok_mono; [exact (Hblock _ r3 e Hq' Hs')|]. intros es5 out. cbv beta. by rewrite <- !app_assoc. }
  eapply ok_bind; [apply matchAll_ok|]. intros es5 m (Hq5 & _).
  eapply ok_mono; [apply actOnMatching_ok|]. intros es6 out [He6 Hs6].
  split; [|by etransitivity]. repeat (apply effect_after; [done|]).
  eapply cycle_effect_mono; [apply free_quotes_sublist| |exact He6].
  unfold roomFor. simpl. lia.
Qed.

(** A blocked market: a cycle does nothing but report an error, and stays blocked. *)
Lemma ensureLoaded_blocked r key : is_Some (blocked r !! key) ->
  ok (ensureLoaded r key) (fun es res => is_Some (blocked (snd res) !! key)).
Proof.
  intros Hb. unfold ensureLoaded. destruct (bool_decide _); [by apply ok_done|]. cbv zeta.
  destruct (negb _); [by apply ok_done|].
  apply ok_act. intros [[json|]|err]; [|by apply ok_done..].
  destruct (json ≫= unmarshal) as [saved|]; [|by apply ok_done].
  apply ok_done. simpl. unfold restoreState. cbv zeta.
  destruct (String.eqb _ _), (ps_PendingCancels saved), (bool_decide _); simpl;
    rewrite ?lookup_insert_eq; by eauto.
Qed.

Lemma frozen_ok r client instrumentID quotes thr orders g fence refresh :
  is_Some (blocked r !! stateKey client instrumentID) ->
  ok (ReconcileWithOrdersGuardedPolicy r client instrumentID quotes thr orders g fence refresh)
    (fun es out => quiet es /\ snd (fst out) <> None
     /\ is_Some (blocked (snd out) !! stateKey client instrumentID)).
Proof.
  intros Hb. unfold ReconcileWithOrdersGuardedPolicy. cbv zeta.
  eapply ok_bind; [apply ok_and; [apply ensureLoaded_ok|by apply ensureLoaded_blocked]|].
  intros es [loadErr r1] [(Hq & _) Hb1]. simpl in Hb1.
  destruct loadErr; [apply ok_done; rewrite app_nil_r; by split_and!|].
  destruct Hb1 as [reason Hr]. rewrite Hr. apply ok_done. rewrite app_nil_r. by split_and!.
Qed.

(** ** Claims *)

(** C6: a reconciliation cycle always returns; it never places and cancels in the
    same cycle, submits at most twenty orders, cancels at most twenty, and when a
    write guard is configured every exchange write directly follows a guard check
    that passed. *)
Theorem reconcile_writes_bounded env past r client instrumentID quotes thr orders g fence refresh :
  exists es res err r',
    run env past (ReconcileWithOrdersGuardedPolicy r client instrumentID quotes thr orders g fence
      refresh) = (es, Ret (res, err, r'))
    /\ guarded g es
    /\ (placed es = [] \/ cancelled es = [])
    /\ (length (placed es) <= maxOrderMutationsPerCycle)%nat
    /\ (length (cancelled es) <= maxOrderMutationsPerCycle)%nat.
Proof.
  destruct (ok_run _ _ env past (reconcile_ok r client instrumentID quotes thr orders g fence refresh))
    as (es & [[res err] r'] & Hrun & [[H1 H2 (qs & _ & H3 & H3') (os & _ & Hc & H4) _] _]).
  exists es, res, err, r'. split_and!; [done..| |by rewrite Hc, length_map].
  rewrite <- (Forall2_length _ _ _ H3). unfold roomFor in H3'. lia.
Qed.

Lemma clientID_managed instrumentID quote fence now :
  HasPrefix (clientID instrumentID quote fence now) managedPrefix = true.
Proof. unfold HasPrefix, clientID. apply string_prefix_app. Qed.

(** C25: every submitted order is one of the target quotes, each target at most once,
    under a client id that marks it as managed; and a cycle that submits orders
    leaves the number of managed orders plus submissions within the number of
    targets. *)
Theorem reconcile_places_targets env past r client instrumentID quotes thr orders g fence refresh :
  exists es out,
    run env past (ReconcileWithOrdersGuardedPolicy r client instrumentID quotes thr orders g fence
      refresh) = (es, Ret out)
    /\ (exists qs, qs `sublist_of` quotes
          /\ Forall2 (request_for instrumentID fence) qs (placed es))
    /\ Forall (fun q => HasPrefix (req_ClientID q) managedPrefix = true) (placed es)
    /\ (placed es = [] \/ (length (ManagedOrdersFor client orders) + length (placed es)
                           <= length quotes)%nat).
Proof.
  destruct (ok_run _ _ env past (reconcile_ok r client instrumentID quotes thr orders g fence refresh))
    as (es & out & Hrun & [[_ _ (qs & Hs & H3 & H3') _ _] _]).
  exists es, out. split_and!; [done|by exists qs| |].
  - clear -H3. induction H3 as [|q p qs ps (_ & _ & _ & _ & _ & now & E) _ IH]; [constructor|].
    constructor; [|done]. rewrite E. apply clientID_managed.
  - pose proof (Forall2_length _ _ _ H3) as Hl. unfold roomFor in H3'. simpl in H3'.
    destruct (placed es); [by left|right]. simpl in *. lia.
Qed.

(** Only orders of the given list that the engine manages are cancelled: orders
    whose client id carries the managed prefix, or any order at an adapter that
    cannot carry client ids. *)
Theorem reconcile_cancels_only_managed env past r client instrumentID quotes thr orders g fence
    refresh :
  exists es out,
    run env past (ReconcileWithOrdersGuardedPolicy r client instrumentID quotes thr orders g fence
      refresh) = (es, Ret out)
    /\ forall id, id ∈ cancelled es ->
         exists o, o ∈ orders /\ OrderID o = id
                   /\ (IsManaged o = true \/ ManagesAllOrders client = true).
Proof.
  destruct (ok_run _ _ env past (reconcile_ok r client instrumentID quotes thr orders g fence refresh))
    as (es & out & Hrun & [[_ _ _ (os & Hos & Hc & _) _] _]).
  exists es, out. split; [done|]. rewrite Hc. intros id Hid.
  apply list_elem_of_fmap in Hid as (o & -> & Ho). exists o. apply Hos in Ho.
  unfold ManagedOrdersFor, ManagedOrders in Ho. apply list_elem_of_filter in Ho as [Hm Ho].
  split_and!; [done..|]. destruct (ManagesAllOrders client); [by right|by left].
Qed.

(** C7: after a submission or cancellation whose outcome is uncertain the market is
    blocked with a reason, and from then on no cycle on it writes anything to the
    exchange: each one reports an error and leaves it blocked. *)
Theorem uncertain_write_blocks_market env past r client instrumentID quotes thr orders g fence
    refresh es res err r' :
  run env past (ReconcileWithOrdersGuardedPolicy r client instrumentID quotes thr orders g fence
    refresh) = (es, Ret (res, err, r')) ->
  Exists (fun e => uncertain e = true) es ->
  (exists reason, blocked r' !! stateKey client instrumentID = Some reason /\ Error reason <> "")
  /\ forall env2 past2 quotes2 thr2 orders2 g2 fence2 refresh2, exists es2 res2 e2 r2,
       run env2 past2 (ReconcileWithOrdersGuardedPolicy r' client instrumentID quotes2 thr2 orders2
         g2 fence2 refresh2) = (es2, Ret (res2, Some e2, r2))
       /\ quiet es2 /\ is_Some (blocked r2 !! stateKey client instrumentID).
Proof.
  intros Hrun Hu.
  destruct (ok_run_ret _ _ _ _ _ _
    (reconcile_ok r client instrumentID quotes thr orders g fence refresh) Hrun)
    as [[_ _ _ _ [Hc|(reason & Hb & Hne & _)]] _].
  { apply Exists_exists in Hu as (e & He & Eu). unfold certain in Hc.
    rewrite Forall_forall in Hc. rewrite (Hc e He) in Eu. done. }
  simpl in Hb. split; [by exists reason|]. intros env2 past2 quotes2 thr2 orders2 g2 fence2 refresh2.
  destruct (ok_run _ _ env2 past2 (frozen_ok r' client instrumentID quotes2 thr2 orders2 g2 fence2
    refresh2 ltac:(by exists reason))) as (es2 & [[res2 [e2|]] r2] & Hrun2 & Hq & He & Hb2); [|done].
  by exists es2, res2, e2, r2.
Qed.

End Cycle.
