(* ===== verification/OmsRestart.v ===== *)
(** The reconciler across restarts: what it saves is what it reads, a blocked market
    stays blocked in the next process; and the completeness of a cancellation run. *)
From S2P Require Import Prelude Decimal DecimalText Domain Json World Sha256 Venue Oms OmsFacts OmsSafety.

Open Scope string_scope.
Open Scope list_scope.
Open Scope Z_scope.

(** ** Codecs *)

Definition reread_quote (q : Quote) : Quote :=
  MkQuote (quote_InstrumentID q) (quote_Venue q) (quote_Symbol q) (quote_Side q) (quote_Level q)
    (reread (quote_Price q)) (reread (quote_Quantity q)) (reread (quote_Reference q))
    (quote_ValidUntil q).
Definition reread_create (c : pendingCreate) : pendingCreate :=
  MkPendingCreate (pc_OrderID c) (reread_quote (pc_Quote c)) (pc_SubmittedAt c) (LastChecked c).
Definition reread_state (s : persistedState) : persistedState :=
  MkPersistedState (ps_Blocked s) (ps_PendingCancels s) (reread_create <$> ps_PendingCreates s).

Lemma unmarshal_marshal_quote q : unmarshal (A := Quote) (marshal q) = Some (reread_quote q).
Proof.
  destruct q as [i v s sd l p qty ref vu].
  change (unmarshal (A := Quote) (marshal (MkQuote i v s sd l p qty ref vu))) with
    (price ← unmarshal (A := Decimal) (marshal p); quantity ← unmarshal (A := Decimal) (marshal qty);
     reference ← unmarshal (A := Decimal) (marshal ref);
     Some (MkQuote i v s sd l price quantity reference vu)).
  by rewrite !unmarshal_reread.
Qed.

Lemma unmarshal_marshal_create c :
  unmarshal (A := pendingCreate) (marshal c) = Some (reread_create c).
Proof.
  destruct c as [id q sub chk].
  change (unmarshal (A := pendingCreate) (marshal (MkPendingCreate id q sub chk))) with
    (quote ← unmarshal (A := Quote) (marshal q); Some (MkPendingCreate id quote sub chk)).
  by rewrite unmarshal_marshal_quote.
Qed.

Lemma unmarshal_idset_loop (l : list string) (acc : gset string) :
  foldl (fun (acc : option (gset string)) '(id, v) => s ← acc;
      match v with JObj _ | JNull => Some ({[id]} ∪ s) | _ => None end) (Some acc)
    (map (fun id => (id, JObj [])) l) = Some (list_to_set l ∪ acc).
Proof.
  revert acc. induction l as [|id l IH]; intros acc; simpl; [by rewrite (left_id_L ∅ (∪))|].
  rewrite IH. f_equal. set_solver.
Qed.

Lemma unmarshal_marshal_idset s : unmarshal_idset (marshal_idset s) = Some s.
Proof.
  unfold unmarshal_idset, marshal_idset. rewrite unmarshal_idset_loop.
  by rewrite list_to_set_elements_L, (right_id_L ∅ (∪)).
Qed.

Lemma unmarshal_marshal_batch b : unmarshal_batch (marshal b) = Some (Some b).
Proof.
  destruct b as [ids sub att].
  change (unmarshal_batch (marshal (MkPendingCancelBatch ids sub att))) with
    (ids' ← unmarshal_idset (marshal_idset ids); Some (Some (MkPendingCancelBatch ids' sub att))).
  by rewrite unmarshal_marshal_idset.
Qed.

Lemma unmarshal_marshal_state s :
  unmarshal (A := persistedState) (marshal s) = Some (reread_state s).
Proof.
  destruct s as [reason cancels creates]. unfold reread_state. cbn [ps_Blocked ps_PendingCancels
    ps_PendingCreates].
  assert (Hm : unmarshal (A := gmap string pendingCreate) (marshal creates)
    = Some (reread_create <$> creates)).
  { apply unmarshal_marshal_map. intros. apply unmarshal_marshal_create. }
  assert (H : unmarshal (A := persistedState) (marshal (MkPersistedState reason cancels creates))
    = (c ← match cancels with None => Some None | Some b => unmarshal_batch (marshal b) end;
       m ← (if bool_decide (creates = ∅) then Some ∅
            else unmarshal (A := gmap string pendingCreate) (marshal creates));
       Some (MkPersistedState reason c m))).
  { unfold marshal at 1, marshal_state, omit_if.
    cbn [ps_Blocked ps_PendingCancels ps_PendingCreates].
    destruct (String.eqb reason "") eqn:Er; [apply String.eqb_eq in Er as ->|];
      destruct cancels; repeat case_bool_decide; done || reflexivity. }
  rewrite H. clear H. destruct cancels as [b|]; rewrite ?unmarshal_marshal_batch; cbn [mbind option_bind];
    (destruct (bool_decide (creates = ∅)) eqn:Ec;
      [apply bool_decide_eq_true in Ec; subst creates; by rewrite fmap_empty|by rewrite Hm]).
Qed.

(** ** Loading what was saved *)

Lemma stored_save past key j : 
  stored namespace key (past ++ [MkEvent (SaveState namespace key j) None]) = Some j.
Proof. rewrite stored_app. simpl. by rewrite !String.eqb_refl. Qed.

Lemma run_load env past r key : honest_store env -> has_store r = true -> key ∉ loaded r ->
  (forall j, stored namespace key past = Some j -> exists s : persistedState, j = marshal s) ->
  exists es, quiet es /\ run env past (ensureLoaded r key) = (es, Ret (None,
    match (j ← stored namespace key past; unmarshal j) with
    | None => set_loaded r ({[key]} ∪ loaded r)
    | Some saved => restoreState (set_loaded r ({[key]} ∪ loaded r)) key saved
    end)).
Proof.
  intros (Hload & _ & _) Hs Hl Hj. unfold ensureLoaded. rewrite bool_decide_false by done.
  rewrite Hs. simpl. rewrite Hload. destruct (stored namespace key past) as [j|]; simpl.
  - destruct (Hj j eq_refl) as [s ->]. rewrite unmarshal_marshal_state.
    eexists. split; [|reflexivity]. by apply quiet_one.
  - eexists. split; [|reflexivity]. by apply quiet_one.
Qed.

Lemma restoreState_fresh r key saved :
  blocked r !! key = None -> pendingCancels r !! key = None -> pendingCreates r !! key = None ->
  (Error <$> blocked (restoreState r key saved) !! key)
    = (if String.eqb (ps_Blocked saved) "" then None else Some (ps_Blocked saved))
  /\ pendingCancels (restoreState r key saved) !! key = ps_PendingCancels saved
  /\ createsOf (restoreState r key saved) key = ps_PendingCreates saved.
Proof.
  intros H1 H2 H3. unfold restoreState, createsOf. cbv zeta.
  destruct (String.eqb _ _), (ps_PendingCancels saved), (bool_decide _) eqn:E; simpl;
    rewrite ?lookup_insert_eq, ?H1, ?H2, ?H3; simpl; split_and!; try done;
    by apply bool_decide_eq_true in E as ->.
Qed.

Lemma run_persist_oms env past r key : honest_store env -> has_store r = true ->
  exists es, run env past (persist r key) = (es, Ret None)
  /\ stored namespace key (past ++ es)
     = if emptyState (snapshotOf r key) then None else Some (marshal (snapshotOf r key)).
Proof.
  intros (_ & Hsave & Hdel) Hs. unfold persist. rewrite Hs. simpl.
  destruct (emptyState _); simpl; rewrite ?Hdel, ?Hsave; eexists; (split; [reflexivity|]).
  - rewrite stored_app. simpl. by rewrite !String.eqb_refl.
  - apply stored_save.
Qed.

(** The pending creations as a decimal-value equality would see them. *)
Definition same_creation (c c' : pendingCreate) : Prop :=
  pc_OrderID c = pc_OrderID c' /\ sameTarget (pc_Quote c) (pc_Quote c') = true
  /\ pc_SubmittedAt c = pc_SubmittedAt c' /\ LastChecked c = LastChecked c'.

Definition exact_quote (q : Quote) : Prop :=
  representable (quote_Price q) /\ representable (quote_Quantity q).

Lemma reread_same c : exact_quote (pc_Quote c) -> same_creation c (reread_create c).
Proof.
  intros [Hp Hq]. split_and!; try done. unfold sameTarget, reread_create, reread_quote. simpl.
  rewrite !reread_representable, String.eqb_refl by done.
  apply andb_true_iff; split; [apply andb_true_iff; split; [done|]|]; apply Z.eqb_eq, Cmp_eq;
    unfold deq; by rewrite rat_FromRat.
Qed.

Lemma emptyState_snapshot r key : emptyState (snapshotOf r key) = true ->
  ps_Blocked (snapshotOf r key) = "" /\ ps_PendingCancels (snapshotOf r key) = None
  /\ ps_PendingCreates (snapshotOf r key) = ∅.
Proof.
  unfold emptyState. destruct (snapshotOf r key) as [b c m]. simpl.
  intros [[->%String.eqb_eq Hc]%andb_true_iff ->%bool_decide_eq_true]%andb_true_iff.
  by destruct c.
Qed.

(** The events of a run are the answers of the environment. *)
Lemma run_events {A} env past (p : prog A) es0 e es1 o :
  run env past p = (es0 ++ e :: es1, o) -> ev_result e = env (past ++ es0) (ev_action e).
Proof.
  revert past es0. induction p as [a|err|m|a k IH]; intros past es0; simpl.
  1-3: intros [= E _]; by destruct es0.
  destruct (run env _ _) as [tr o'] eqn:Er. intros [= E <-].
  destruct es0 as [|e0 es0]; simplify_eq/=.
  - by rewrite app_nil_r.
  - apply IH in Er. by rewrite <- app_assoc in Er.
Qed.

Section Restart.
Context `{MapRange} `{SliceSort}.

(** After a block with a working store, the store holds the reason. *)
Lemma stored_after_block {A} env past (p : prog A) es o key r' : honest_store env ->
  has_store r' = true -> blocks key es r' -> run env past p = (es, o) ->
  stored namespace key (past ++ es) = Some (marshal (snapshotOf r' key))
  /\ String.eqb (ps_Blocked (snapshotOf r' key)) "" = false.
Proof.
  intros (_ & Hsave & _) Hs (reason & Hb & Hne & Hlast) Hrun.
  destruct (Hlast Hs) as (es0 & x & ->). pose proof (run_events _ _ _ _ _ _ _ Hrun) as He.
  simpl in He. rewrite Hsave in He. subst x. rewrite app_assoc, stored_save.
  split; [done|]. simpl. rewrite Hb. by apply String.eqb_neq.
Qed.

(** A block outlives the process.  With a working store, after a cycle with an
    uncertain write a reconciler started later from the same store, before anyone
    rewrote the saved state of the market, refuses to act on the market: its first
    cycle writes nothing and reports the block. *)
Theorem block_survives_restart env past r client instrumentID quotes thr orders g fence refresh
    es res err r' past2 quotes2 thr2 orders2 g2 fence2 refresh2 :
  honest_store env -> has_store r = true ->
  run env past (ReconcileWithOrdersGuardedPolicy r client instrumentID quotes thr orders g fence
    refresh) = (es, Ret (res, err, r')) ->
  Exists (fun e => uncertain e = true) es ->
  stored namespace (stateKey client instrumentID) past2
    = stored namespace (stateKey client instrumentID) (past ++ es) ->
  exists es2 e2 r2,
    run env past2 (ReconcileWithOrdersGuardedPolicy (NewWithStateStore true) client instrumentID
      quotes2 thr2 orders2 g2 fence2 refresh2) = (es2, Ret (zeroResult, Some e2, r2))
    /\ quiet es2 /\ is_Some (blocked r2 !! stateKey client instrumentID).
Proof.
  intros Henv Hs Hrun Hu Hpast.
  destruct (ok_run_ret _ _ _ _ _ _
    (reconcile_ok r client instrumentID quotes thr orders g fence refresh) Hrun)
    as [[_ _ _ _ [Hc|Hb]] Hsame].
  { apply Exists_exists in Hu as (e & He & Eu). unfold certain in Hc.
    rewrite Forall_forall in Hc. rewrite (Hc e He) in Eu. done. }
  simpl in Hb, Hsame. rewrite <- (same_store _ _ _ Hsame) in Hs.
  destruct (stored_after_block env past _ es _ _ r' Henv Hs Hb Hrun) as [Hst Hne].
  set (key := stateKey client instrumentID) in *. rewrite Hst in Hpast.
  destruct (run_load env past2 (NewWithStateStore true) key Henv) as (es2 & Hq2 & Hrun2);
    [done|set_solver|rewrite Hpast; intros j [= <-]; by eexists|].
  rewrite Hpast in Hrun2. cbn [mbind option_bind] in Hrun2. rewrite unmarshal_marshal_state in Hrun2.
  match type of Hrun2 with _ = (_, Ret (_, ?x)) => set (r2 := x) in * end.
  assert (Hr2 : blocked r2 !! key = Some (Errorf (ps_Blocked (snapshotOf r' key)))).
  { unfold r2, restoreState, reread_state. cbv zeta. cbn [ps_Blocked]. rewrite Hne.
    destruct (ps_PendingCancels _), (bool_decide _); simpl; by rewrite lookup_insert_eq. }
  clearbody r2. eexists es2, _, r2. split_and!; [|done|by rewrite Hr2].
  unfold ReconcileWithOrdersGuardedPolicy. cbv zeta. fold key.
  rewrite run_bind, Hrun2, Hr2. simpl. by rewrite app_nil_r.
Qed.

(** What the reconciler knows about a market survives a restart.  With a working
    store, [persist] succeeds, and a reconciler started afterwards from the store
    knows the same block text, the same batch of cancellations awaiting
    confirmation (unless it is empty), and the same accepted orders awaiting
    visibility, with the same targets and times. *)
Theorem oms_state_survives_restart env past r key :
  honest_store env -> has_store r = true ->
  (forall id c, createsOf r key !! id = Some c -> exact_quote (pc_Quote c)) ->
  exists es es2 r2, run env past (persist r key) = (es, Ret None)
  /\ run env (past ++ es) (ensureLoaded (NewWithStateStore true) key) = (es2, Ret (None, r2))
  /\ default "" (Error <$> blocked r2 !! key) = default "" (Error <$> blocked r !! key)
  /\ pendingCancels r2 !! key
     = (pendingCancels r !! key ≫= fun b => if bool_decide (OrderIDs b = ∅) then None else Some b)
  /\ forall id, match createsOf r key !! id, createsOf r2 key !! id with
                | Some c, Some c' => same_creation c c'
                | None, None => True
                | _, _ => False
                end.
Proof.
  intros Henv Hs Hrep. destruct (run_persist_oms env past r key Henv Hs) as (es & Hrun & Hst).
  destruct (run_load env (past ++ es) (NewWithStateStore true) key Henv) as (es2 & _ & Hrun2);
    [done|set_solver| |].
  { rewrite Hst. destruct (emptyState _); [done|]. intros j [= <-]. by eexists. }
  assert (Hcanc : ps_PendingCancels (snapshotOf r key) = (pendingCancels r !! key ≫= fun b =>
    if bool_decide (OrderIDs b = ∅) then None else Some b)).
  { unfold snapshotOf. simpl. by destruct (pendingCancels r !! key). }
  assert (Hbl : ps_Blocked (snapshotOf r key) = default "" (Error <$> blocked r !! key)).
  { unfold snapshotOf. simpl. by destruct (blocked r !! key). }
  rewrite Hst in Hrun2. do 3 eexists. split; [exact Hrun|split; [exact Hrun2|]]. clear Hrun Hrun2 Hst.
  rewrite <- Hcanc, <- Hbl. destruct (emptyState (snapshotOf r key)) eqn:Ee.
  { apply emptyState_snapshot in Ee as (-> & -> & He). simpl in He. split_and!; [done..|].
    intros id. by rewrite He. }
  cbn [mbind option_bind]. rewrite unmarshal_marshal_state.
  match goal with |- context [restoreState ?r0 key ?s0] =>
    destruct (restoreState_fresh r0 key s0) as (H1 & H2 & H3); [done..|] end.
  rewrite H1, H2, H3. unfold reread_state. cbn [ps_Blocked ps_PendingCancels ps_PendingCreates].
  split_and!; [|done|].
  - destruct (String.eqb _ "") eqn:E; [|done]. apply String.eqb_eq in E. symmetry. exact E.
  - intros id. change (ps_PendingCreates (snapshotOf r key)) with (createsOf r key).
    rewrite lookup_fmap. destruct (createsOf r key !! id) as [c|] eqn:Ec; [|done].
    simpl. apply reread_same. by eapply Hrep.
Qed.
End Restart.
