(* ===== verification/OmsCancel.v ===== *)
(** Matching and complete cancellation: which orders a cycle may cancel, and that a
    cancellation run reaches every managed order; with the concrete runs behind the
    witnesses of the order-management theorems. *)
From S2P Require Import Prelude Decimal DecimalText Domain Json World Sha256 Venue Oms OmsFacts OmsSafety OmsRestart.

Open Scope string_scope.
Open Scope list_scope.
Open Scope Z_scope.

Section Claims.
Context `{MapRange} `{SliceSort}.

(** Matching always finishes without touching the exchange.  Every order it keeps
    or rotates is near a target on its side, no two of them share a target, and an
    order chosen for cancellation is either scheduled for rotation or fits none of
    the targets that are left free. *)
Theorem matching_sound env past quotes thr refresh managed pending :
  exists es m, run env past (matchAll quotes thr refresh managed pending) = (es, Ret m)
  /\ quiet es
  /\ (forall i o, managed !! i = Some o ->
        matchedOrders m !! i = Some true \/ i ∈ scheduledRefresh m ->
        exists q, q ∈ quotes /\ isNear thr o q = true)
  /\ (count_true (matchedOrders m) + size (scheduledRefresh m) <= count_true (matchedQuotes m))%nat
  /\ (count_true (matchedQuotes m) <= length quotes)%nat
  /\ forall o, o ∈ selectCancels m managed ->
       exists i, managed !! i = Some o /\ matchedOrders m !! i = Some false
                 /\ (i ∈ scheduledRefresh m \/ no_fit quotes thr m o).
Proof.
  destruct (ok_run _ _ env past (matchAll_ok quotes managed thr refresh pending))
    as (es & m & Hrun & Hq & base & Hb & [[I1 I2 I3 I4 I5 I6 I7] Hd]).
  exists es, m. split_and!; [done|done|done|lia|rewrite <- I1; apply count_true_le|].
  intros o Ho. destruct (selectCancels_spec m managed) as (_ & _ & Hsel).
  destruct (Hsel o Ho) as (i & Hi & Hc). exists i. split; [done|].
  assert (Hf : matchedOrders m !! i = Some false).
  { destruct Hc as [Hc|Hc]; [|by apply I6].
    destruct (lookup_lt_is_Some_2 (matchedOrders m) i) as [b Hb'].
    { rewrite I2. by eapply lookup_lt_Some. }
    by rewrite nth_lookup, Hb' in Hc; simpl in Hc; subst b. }
  split; [done|]. destruct (Hd i o Hi) as [Ht|?]; [congruence|done].
Qed.

Lemma withPendingCreates_ids managed creates id :
  id ∈ map OrderID (withPendingCreates managed creates)
  <-> id ∈ map OrderID managed \/ is_Some (creates !! id).
Proof.
  unfold withPendingCreates. rewrite map_app, elem_of_app. split.
  - intros [?|Hid]; [by left|right]. apply list_elem_of_fmap in Hid as (o & -> & Ho).
    apply list_elem_of_fmap in Ho as ([k c] & -> & Hk). simpl.
    apply list_elem_of_filter in Hk as [_ Hk]. apply elem_of_range in Hk. by exists c.
  - intros [?|[c Hc]]; [by left|].
    destruct (decide (id ∈ map OrderID managed)) as [?|Hn]; [by left|right].
    rewrite map_map. apply list_elem_of_fmap. exists (id, c). split; [done|].
    apply list_elem_of_filter. split; [done|]. by apply elem_of_range.
Qed.

(** What a cancellation run that reports no error has done: the state of the market is the
    one in memory or, the first time, the stored one; either the run only waits for the
    confirmation of an earlier batch, or it has cancelled every managed order. *)
Definition cancelled_all (r : Reconciler) (client : Client) (instrumentID symbol : string)
    (es : trace) (n : Z) (r' : Reconciler) : Prop :=
  let key := stateKey client instrumentID in
  exists orders es1 r1 es2,
    es = MkEvent (Call (Name client) (COpenOrders symbol)) (inl orders) :: es1 ++ es2
    /\ yields (ensureLoaded r key) es1 (Ret (None, r1))
    /\ ((awaiting r1 key (ManagedOrdersFor client orders) es2 /\ cancelled es = [] /\ n = 0)
        \/ ((forall id, id ∈ cancelled es <->
               id ∈ map OrderID (ManagedOrdersFor client orders) \/ is_Some (createsOf r1 key !! id))
            /\ n = Z.of_nat (length (cancelled es))
            /\ pendingCreates r' !! key = None
            /\ (OrderIDs <$> pendingCancels r' !! key) = Some (list_to_set (cancelled es)))).

(** The cancellation of the targets and what is recorded of it. *)
Lemma cancelTargets_ok r key client symbol targets g :
  ok (e ← cancelOrders client symbol targets g;
      match e with
      | Some err => r ← block r key err; Done (0, Some err, r)
      | None =>
          r ← setPendingCancels r key (list_to_set (map OrderID targets));
          let r := set_pendingCreates r (delete key (pendingCreates r)) in
          p ← persist r key;
          Done (Z.of_nat (length targets), p, r)
      end) (fun es out =>
    guarded g es /\ placed es = [] /\ (certain es \/ is_Some (blocked (snd out) !! key))
    /\ (snd (fst out) = None -> cancelled es = map OrderID targets
        /\ fst (fst out) = Z.of_nat (length targets)
        /\ pendingCreates (snd out) !! key = None
        /\ (OrderIDs <$> pendingCancels (snd out) !! key) = Some (list_to_set (cancelled es)))).
Proof.
  eapply ok_bind; [apply cancelOrders_ok|]. intros es4 e ([Hg Hp] & _ & Hc). destruct e as [err|].
  - eapply ok_bind; [apply block_ok|]. intros es5 r5 [Hq5 ->]. apply ok_done. rewrite app_nil_r.
    split_and!; [auto with go|by rewrite placed_app, Hp, quiet_placed| |done]. right.
    simpl. rewrite lookup_insert_eq. by eexists.
  - specialize (Hc eq_refl) as [Hc Hcert].
    eapply ok_bind; [apply setPendingCancels_ok|]. intros es5 r5 (Hq5 & _ & _ & Hids).
    cbv zeta. eapply ok_bind; [apply persist_ok|]. intros es6 p Hq6. apply ok_done. rewrite app_nil_r.
    assert (Hq : quiet (es5 ++ es6)) by by apply quiet_app.
    assert (Hcan : cancelled (es4 ++ es5 ++ es6) = map OrderID targets).
    { by rewrite cancelled_app, Hc, (quiet_cancelled _ Hq), app_nil_r. }
    split_and!; [auto with go|by rewrite placed_app, Hp, quiet_placed|left; auto 10 with go|].
    intros _. rewrite Hcan. split_and!; [done|done| |].
    + simpl. by rewrite lookup_delete_eq.
    + simpl. rewrite Hids. done.
Qed.

(** The effects of a cancellation run. *)
Lemma CancelManaged_ok r client instrumentID symbol g :
  ok (CancelManagedGuardedWithResult r client instrumentID symbol g) (fun es out =>
    guarded g es /\ placed es = []
    /\ (certain es \/ is_Some (blocked (snd out) !! stateKey client instrumentID))
    /\ (snd (fst out) = None ->
        cancelled_all r client instrumentID symbol es (fst (fst out)) (snd out))).
Proof.
  unfold CancelManagedGuardedWithResult, cancelled_all. set (key := stateKey _ _). cbv zeta.
  set (Q := fun es out => _).
  assert (Hquiet : forall es out, quiet es -> snd (fst out) <> None -> Q es out).
  { intros es out Hq He. unfold Q. split_and!; [auto with go|by apply quiet_nothing| |done].
    left. by apply quiet_certain. }
  apply ok_act. intros [orders|e]; [|by apply ok_done, Hquiet; [apply quiet_one|]].
  set (e0 := MkEvent (Call (Name client) (COpenOrders symbol)) (inl orders)).
  eapply ok_bind; [apply ok_yields, ensureLoaded_ok|]. intros es1 [loadErr r1] (Hy & Hq1 & _ & _).
  destruct loadErr as [e|].
  { apply ok_done, Hquiet; [|done]. rewrite app_nil_r. by apply quiet_cons. }
  eapply ok_bind; [apply ok_and; [apply waiting_ok|apply waiting_awaiting]|].
  intros es2 [[waiting waitErr] r2] [(Hq2 & _ & _ & Hc2 & _ & _) Hw2].
  eapply ok_bind; [apply persist_ok|]. intros es3 p Hq3. cbn [fst snd] in *.
  assert (Hq : quiet (e0 :: es1 ++ es2 ++ es3)) by (apply quiet_cons; [done|auto with go]).
  destruct p as [e|]; [apply ok_done, Hquiet; [by rewrite app_nil_r|done]|].
  destruct waitErr as [e|]; [apply ok_done, Hquiet; [by rewrite app_nil_r|done]|].
  destruct waiting.
  { apply ok_done. rewrite app_nil_r. unfold Q. split_and!; [auto with go|by apply quiet_nothing| |].
    - left. by apply quiet_certain.
    - intros _. exists orders, es1, r1, (es2 ++ es3). split_and!; [done|done|left].
      split_and!; [|by apply quiet_cancelled|done].
      destruct (Hw2 eq_refl) as (batch & id & now & H1 & H2 & H3 & H4 & H5).
      exists batch, id, now. split_and!; try done. apply elem_of_app. by left. }
  eapply ok_mono; [apply cancelTargets_ok|]. intros es4 [[n e] r4] (Hg & Hp & Hc & Hd).
  replace (e0 :: es1 ++ es2 ++ es3 ++ es4) with ((e0 :: es1 ++ es2 ++ es3) ++ es4)
    by (simpl; by rewrite <- !app_assoc).
  unfold Q. split_and!; [auto with go|by rewrite placed_app, (quiet_placed _ Hq), Hp| |].
  { destruct Hc as [Hc|Hc]; [left; auto 10 with go|by right]. }
  intros Hn. destruct (Hd Hn) as (Hcan & -> & Hcr & Hids).
  exists orders, es1, r1, (es2 ++ es3 ++ es4). split; [simpl; by rewrite <- !app_assoc|].
  split; [exact Hy|right]. rewrite cancelled_app, (quiet_cancelled _ Hq), (app_nil_l _).
  split_and!; [|by rewrite Hcan, length_map|done|done].
  intros id. rewrite Hcan, withPendingCreates_ids. unfold createsOf. by rewrite Hc2.
Qed.

(** C26: a cancellation run always returns, in every state of the reconciler: it submits
    nothing, every cancellation follows a passed guard check, and an uncertain
    cancellation blocks the market.  When it reports no error, then in terms of the
    market's state (the one in memory, or the stored one when the market was not loaded)
    either a batch sent less than the retry delay ago still has an order open, and the
    run cancels nothing and reports zero, or it cancelled exactly the managed open orders
    and the accepted orders not yet visible, reports their number, awaits the confirmation
    of exactly those and forgets the pending creations. *)
Theorem cancel_managed_complete env past r client instrumentID symbol g :
  let key := stateKey client instrumentID in
  exists es n e r',
    run env past (CancelManagedGuardedWithResult r client instrumentID symbol g)
      = (es, Ret (n, e, r'))
  /\ guarded g es /\ placed es = []
  /\ (certain es \/ is_Some (blocked r' !! key))
  /\ (e = None -> exists orders es1 r1 es2,
        es = MkEvent (Call (Name client) (COpenOrders symbol)) (inl orders) :: es1 ++ es2
      /\ yields (ensureLoaded r key) es1 (Ret (None, r1))
      /\ ((awaiting r1 key (ManagedOrdersFor client orders) es2 /\ cancelled es = [] /\ n = 0)
          \/ ((forall id, id ∈ cancelled es <->
                 id ∈ map OrderID (ManagedOrdersFor client orders)
                 \/ is_Some (createsOf r1 key !! id))
              /\ n = Z.of_nat (length (cancelled es))
              /\ pendingCreates r' !! key = None
              /\ (OrderIDs <$> pendingCancels r' !! key) = Some (list_to_set (cancelled es))))).
Proof.
  intros key. destruct (ok_run _ _ env past (CancelManaged_ok r client instrumentID symbol g))
    as (es & [[n e] r'] & Hrun & Hg & Hp & Hc & Hdone).
  exists es, n, e, r'. by split_and!.
Qed.
End Claims.

(** ** A concrete exchange

    [oms_env orders place cancel guard] is a working store, a clock that advances one
    second per event, and an exchange that answers every call the same way. *)
Definition oms_env (orders : list Order) (place : list Order * option error)
    (cancel guard : option error) : Env := fun past a =>
  match a with
  | Now => Z.of_nat (length past) * Second
  | LoadState ns key =>
      inl (match stored ns key past with Some j => Some (Some j) | None => None end)
  | Call _ c =>
      match c with
      | COpenOrders _ => inl orders
      | CPlacePostOnly _ => match place with (o :: _, None) => inl o | _ => inr (Errorf "offline") end
      | CPlaceBatch _ => place
      | CCancelOrder _ _ => cancel
      | CCancelOrders _ _ => cancel
      | c => offline_venue c
      end
  | Guard => guard
  | a => offline a
  end.

Lemma oms_env_honest orders place cancel guard : honest_store (oms_env orders place cancel guard).
Proof. by split_and!. Qed.

Definition ex_client : Client := MkClient "binance" None None true true false false false.
Definition ex_each_client : Client := MkClient "binance" None None false false false false false.
Definition ex_quote (side : Side) (level price : Z) : Quote :=
  MkQuote "abc-usdt" "binance" "ABCUSDT" side level (FromInt64 price) One (FromInt64 price) 0.
Definition ex_quotes : list Quote := [ex_quote Buy 0 99; ex_quote Sell 0 101].
Definition ex_order (id client : string) (side : Side) (price : Z) : Order :=
  MkOrder "binance" id client "ABCUSDT" side (FromInt64 price) One Zero OrderNew 0.
Definition ex_open : list Order :=
  [ex_order "1" "fm-a" Buy 50; ex_order "2" "fm-b" Sell 101; ex_order "3" "manual" Buy 98].

#[local] Instance ex_range : MapRange := sorted_range.
#[local] Instance ex_sort : SliceSort := merge_slice_sort.

(** One cycle with empty books places the two targets. *)
Definition ex_cycle env g past r client orders :=
  run env past (ReconcileWithOrdersGuardedPolicy r client "abc-usdt" ex_quotes 10 orders g 7
    noRefresh).

Definition ex_final {A} (x : trace * go (A * option error * Reconciler)) : Reconciler :=
  match snd x with Ret (_, _, r) => r | _ => New end.
Definition ex_error {A} (x : trace * go (A * option error * Reconciler)) : option error :=
  match snd x with Ret (_, e, _) => e | _ => None end.

Example cycle_places :
  map req_Price (placed (fst (ex_cycle
    (oms_env [] ([ex_order "1" "" Buy 99; ex_order "2" "" Sell 101], None) None None) true [] New
    ex_client []))) = [FromInt64 99; FromInt64 101].
Proof. vm_compute. reflexivity. Qed.

Example cycle_cancels :
  cancelled (fst (ex_cycle (oms_env [] ([], None) None None) true [] New ex_client ex_open)) = ["1"].
Proof. vm_compute. reflexivity. Qed.

(** ** What the runs reveal *)

(** A batch of cancellations without orders is recorded too: cancelling an empty book
    three times uses up the attempts, and the next cancellation that takes longer
    than five seconds is reported as unconfirmed after four attempts although it
    was sent once. *)
Definition ex_after_empty : Reconciler :=
  let cancelOnce r := ex_final (run (oms_env [] ([], None) None None) []
    (CancelManagedGuardedWithResult r ex_client "abc-usdt" "ABCUSDT" false)) in
  cancelOnce (cancelOnce (cancelOnce New)).

Lemma empty_cancels_count_as_attempts :
  Attempts <$> pendingCancels ex_after_empty !! "binance:abc-usdt" = Some 3
  /\ let first := ex_cycle (oms_env [] ([], None) None None) false [] ex_after_empty ex_client ex_open in
     cancelled (fst first) = ["1"]
     /\ ex_error (ex_cycle (oms_env [] ([], None) None None) false
          (replicate 10 (MkEvent Guard None)) (ex_final first) ex_client ex_open)
        = Some (Errorf "orders remain open after 4 cancellation attempts")
     /\ is_Some (blocked (ex_final (ex_cycle (oms_env [] ([], None) None None) false
          (replicate 10 (MkEvent Guard None)) (ex_final first) ex_client ex_open))
          !! "binance:abc-usdt").
Proof. vm_compute. split_and!; try reflexivity. by eexists. Qed.

(** A guard that refuses a cancellation blocks the market, and saves the block, though
    nothing was sent; a guard that refuses a submission does not. *)
Lemma guard_rejection_blocks_cancel_only :
  let env := oms_env [] ([], None) None (Some (Errorf "lease lost")) in
  let cancelling := ex_cycle env true [] (NewWithStateStore true) ex_client ex_open in
  let placing := ex_cycle env true [] (NewWithStateStore true) ex_client [] in
  quiet (fst cancelling) /\ is_Some (blocked (ex_final cancelling) !! "binance:abc-usdt")
  /\ is_Some (stored namespace "binance:abc-usdt" (fst cancelling))
  /\ quiet (fst placing) /\ blocked (ex_final placing) !! "binance:abc-usdt" = None.
Proof. vm_compute. split_and!; try (by eexists); try reflexivity; repeat constructor. Qed.

(** In the one-by-one fallback an accepted order without an id is forgotten when the
    guard refuses the next submission: the market is not blocked. *)
Lemma empty_id_forgotten_after_guard :
  let env : Env := fun past a =>
    match a with
    | Guard => if existsb is_guard past then Some (Errorf "lease lost") else None
    | a => oms_env [] ([ex_order "" "" Buy 99], None) None None past a
    end in
  let placing := ex_cycle env true [] New ex_each_client [] in
  length (placed (fst placing)) = 1%nat /\ blocked (ex_final placing) !! "binance:abc-usdt" = None.
Proof. vm_compute. split; reflexivity. Qed.

(** ** Witnesses *)

Definition ex_failing : Env := oms_env [] ([], Some (Errorf "timeout")) None None.
Definition ex_failed (store : bool) : trace * go (Result * option error * Reconciler) :=
  ex_cycle ex_failing true [] (NewWithStateStore store) ex_client [].

Lemma ex_failed_run store : ex_failed store =
  (fst (ex_failed store), Ret (zeroResult, Some (JoinTwo (Errorf
    "native batch returned 0 results for 2 requests") (Errorf "timeout")), ex_final (ex_failed store))).
Proof. destruct store; vm_compute; reflexivity. Qed.

Lemma ex_failed_uncertain store : Exists (fun e => uncertain e = true) (fst (ex_failed store)).
Proof.
  apply Exists_exists.
  assert (H : existsb uncertain (fst (ex_failed store)) = true) by (destruct store; vm_compute; reflexivity).
  apply existsb_exists in H as (e & He & E). exists e. split; [by apply list_elem_of_In|done].
Qed.

Lemma uncertain_write_blocks_market_witness :
  exists reason, blocked (ex_final (ex_failed false)) !! stateKey ex_client "abc-usdt" = Some reason
    /\ Error reason <> "".
Proof.
  exact (proj1 (uncertain_write_blocks_market _ _ _ _ _ _ _ _ _ _ _ _ _ _ _
    (ex_failed_run false) (ex_failed_uncertain false))).
Defined.

Lemma block_survives_restart_witness : exists es2 e2 r2,
  run ex_failing (fst (ex_failed true))
    (ReconcileWithOrdersGuardedPolicy (NewWithStateStore true) ex_client "abc-usdt" ex_quotes 10
      ex_open true 8 noRefresh) = (es2, Ret (zeroResult, Some e2, r2))
  /\ quiet es2 /\ is_Some (blocked r2 !! stateKey ex_client "abc-usdt").
Proof.
  exact (block_survives_restart ex_failing [] (NewWithStateStore true) ex_client "abc-usdt"
    ex_quotes 10 [] true 7 noRefresh _ _ _ _ (fst (ex_failed true)) ex_quotes 10 ex_open true 8 noRefresh (oms_env_honest _ _ _ _) eq_refl
    (ex_failed_run true) (ex_failed_uncertain true) eq_refl).
Defined.

Definition ex_pending_state : Reconciler :=
  MkReconciler {["binance:abc-usdt" := Errorf "submit batch may be partially unknown"]}
    {["binance:abc-usdt" := MkPendingCancelBatch {["1"; "2"]} 5 1]}
    {["binance:abc-usdt" := {["3" := MkPendingCreate "3" (ex_quote Buy 0 99) 4 zero_time]}]}
    {["binance:abc-usdt"]} true.

Lemma oms_state_survives_restart_witness : exists es es2 r2,
  run ex_failing [] (persist ex_pending_state "binance:abc-usdt") = (es, Ret None)
  /\ run ex_failing ([] ++ es) (ensureLoaded (NewWithStateStore true) "binance:abc-usdt")
     = (es2, Ret (None, r2))
  /\ default "" (Error <$> blocked r2 !! "binance:abc-usdt")
     = default "" (Error <$> blocked ex_pending_state !! "binance:abc-usdt")
  /\ pendingCancels r2 !! "binance:abc-usdt"
     = (pendingCancels ex_pending_state !! "binance:abc-usdt"
        ≫= fun b => if bool_decide (OrderIDs b = ∅) then None else Some b)
  /\ forall id, match createsOf ex_pending_state "binance:abc-usdt" !! id,
                      createsOf r2 "binance:abc-usdt" !! id with
                | Some c, Some c' => same_creation c c'
                | None, None => True
                | _, _ => False
                end.
Proof.
  apply (oms_state_survives_restart ex_failing [] ex_pending_state "binance:abc-usdt"
    (oms_env_honest _ _ _ _) eq_refl).
  intros id c Hc. change (createsOf ex_pending_state "binance:abc-usdt") with
    ({["3" := MkPendingCreate "3" (ex_quote Buy 0 99) 4 zero_time]} : gmap string pendingCreate) in Hc.
  apply lookup_singleton_Some in Hc as [_ <-].
  split; [exists (99 * 10 ^ 18)|exists (10 ^ 18)]; by vm_compute.
Defined.

(** Two orders of the bot are open, one of another trader, and one accepted order is not
    visible yet. *)
Definition ex_to_cancel : Reconciler :=
  MkReconciler ∅ ∅
    {["binance:abc-usdt" := {["7" := MkPendingCreate "7" (ex_quote Buy 0 99) 4 zero_time]}]} ∅ true.

Example cancel_run_cancels :
  cancelled (fst (run (oms_env ex_open ([], None) None None) []
    (CancelManagedGuardedWithResult ex_to_cancel ex_client "abc-usdt" "ABCUSDT" true)))
  = ["1"; "2"; "7"].
Proof. vm_compute. reflexivity. Qed.
