(* ===== verification/Rpc.v ===== *)
(** The JSON-RPC client of the oracle (src/internal/oracle/pancakev2/rpc.go):
    failover over endpoints, batches matched by request id, the cached latest block
    and the decoding of hexadecimal results.

    The client's fields are passed along in a state and error monad, [M]; an HTTP
    exchange is one [HttpPost].  A response object is read by its exact field
    names, each present at most once. *)
From S2P Require Import Prelude Decimal DecimalText Domain Json World Sha256.

Open Scope string_scope.
Open Scope list_scope.
Open Scope Z_scope.

(** ** State and errors *)

Definition M (S A : Type) : Type := S -> prog (reply A * S).

#[export] Instance M_ret {S} : MRet (M S) := fun A a s => Done (inl a, s).
#[export] Instance M_mbind {S} : MBind (M S) := fun A B f c s =>
  x ← c s;
  match fst x with
  | inl a => f a (snd x)
  | inr e => Done (inr e, snd x)
  end.

Definition failM {S A} (e : error) : M S A := fun s => Done (inr e, s).
Definition getM {S} : M S S := fun s => Done (inl s, s).
Definition putM {S} (s : S) : M S unit := fun _ => Done (inl tt, s).
Definition actM {S} (a : action) : M S (result a) := fun s => r ← act a; Done (inl r, s).
Definition liftM {S A} (r : reply A) : M S A := fun s => Done (r, s).
(** [fmt.Errorf(prefix + "%w", err)] on the error of a call. *)
Definition wrapE {A} (prefix : string) (r : reply A) : reply A :=
  match r with inl a => inl a | inr e => inr (Wrapf prefix e) end.
Definition wrapM {S A} (prefix : string) (c : M S A) : M S A := fun s =>
  x ← c s; Done (wrapE prefix (fst x), snd x).

(** ** Data *)

Record Block := MkBlock { Number : Z; Timestamp : Z; Tag : string }.

Record RPCClient := MkRPCClient {
  urls : list string;
  nextID : Z;
  latestBlock : Block;
  blockFetchedAt : Time
}.

Record rpcRequest := MkRpcRequest { rq_ID : Z; Method : string; Params : Json }.

(** The [json.RawMessage] of a result is absent when the field is. *)
Record rpcResponse := MkRpcResponse {
  rs_ID : Z;
  Result_ : option Json;
  Error_ : option (Z * string)
}.

Record PairInfo := MkPairInfo { info_Pair : string; info_Token0 : string; info_Token1 : string;
  info_Factory : string }.

Definition NewRPCClient (l : list string) : RPCClient := MkRPCClient l 0 (MkBlock 0 0 "") zero_time.

#[export] Instance marshal_request : Marshal rpcRequest := fun q =>
  JObj [("jsonrpc", JStr "2.0"); ("id", JNum (rq_ID q)); ("method", JStr (Method q));
        ("params", Params q)].

Definition unmarshal_error (j : Json) : option (option (Z * string)) :=
  match j with
  | JNull => Some None
  | JObj l => code ← field unmarshal 0 "code" l; message ← field unmarshal "" "message" l;
              Some (Some (code, message))
  | _ => None
  end.
#[export] Instance unmarshal_response : Unmarshal rpcResponse := fun j =>
  match j with
  | JNull => Some (MkRpcResponse 0 None None)
  | JObj l =>
      version ← field (unmarshal (A := string)) "" "jsonrpc" l;
      id ← field unmarshal_uint64 0 "id" l;
      res ← field (fun j => Some (Some j)) None "result" l;
      err ← field unmarshal_error None "error" l;
      Some (MkRpcResponse id res err)
  | _ => None
  end.

Definition unmarshal_responses (j : Json) : option (list rpcResponse) :=
  match j with
  | JNull => Some []
  | JArr l => mapM unmarshal l
  | _ => None
  end.

Definition json_error : error := Errorf "invalid JSON".
Definition rpc_error (e : Z * string) : error :=
  Errorf ("rpc error " +:+ pretty (fst e) +:+ ": " +:+ snd e).

(** ** Hexadecimal *)

Definition hex_value (c : ascii) : option Z :=
  let n := Z.of_N (N_of_ascii c) in
  if (48 <=? n) && (n <=? 57) then Some (n - 48)
  else if (97 <=? n) && (n <=? 102) then Some (n - 87)
  else if (65 <=? n) && (n <=? 70) then Some (n - 55)
  else None.

(** [hex.DecodeString] on an even number of characters. *)
Fixpoint hex_decode (s : string) : option (list Z) :=
  match s with
  | EmptyString => Some []
  | String a (String b s') =>
      h ← hex_value a; l ← hex_value b; rest ← hex_decode s'; Some (16 * h + l :: rest)
  | String _ EmptyString => None
  end.

Definition TrimPrefix (s p : string) : string :=
  if HasPrefix s p then drop_string (String.length p) s else s.

Definition decodeHexResult (result : string) : reply (list Z) :=
  let result := TrimPrefix result "0x" in
  let result := if Nat.odd (String.length result) then "0" +:+ result else result in
  match hex_decode result with
  | Some b => inl b
  | None => inr (Wrapf "decode eth_call result: " (Errorf "encoding/hex: invalid byte"))
  end.

(** [strconv.ParseUint(s, 16, 64)] after the first character. *)
Fixpoint parse_hex (s : string) (n : Z) : reply Z :=
  match s with
  | EmptyString => inl n
  | String c s' =>
      match hex_value c with
      | None => inr (Errorf "invalid syntax")
      | Some d => if 2 ^ 64 <=? 16 * n + d then inr (Errorf "value out of range")
                  else parse_hex s' (16 * n + d)
      end
  end.

Definition parseHexUint64 (s : string) : reply Z :=
  let s := TrimPrefix s "0x" in
  if String.eqb s "" then inl 0 else parse_hex s 0.

(** ** One request *)

(** [http.NewRequestWithContext] refuses a malformed URL. *)
Class HttpRequests := request_error : string -> option error.

Section Client.
Context `{HttpRequests}.

Definition freshID : M RPCClient Z := fun c =>
  let id := wrapU64 (nextID c + 1) in
  Done (inl id, MkRPCClient (urls c) id (latestBlock c) (blockFetchedAt c)).

Definition httpBody (r : reply HttpResponse) : reply (option Json) :=
  match r with
  | inr e => inr e
  | inl resp =>
      if negb (Z.quot (StatusCode resp) 100 =? 2)
      then inr (Errorf ("rpc http " +:+ pretty (StatusCode resp) +:+ ": " +:+ Body resp))
      else inl (Parsed resp)
  end.

(** The value of one response, or the error that moves on to the next endpoint. *)
Definition decodeSingle {A} (dec : Json -> option A) (r : reply HttpResponse) : reply A :=
  match httpBody r with
  | inr e => inr e
  | inl None => inr json_error
  | inl (Some j) =>
      match (unmarshal j : option rpcResponse) with
      | None => inr json_error
      | Some decoded =>
          match Error_ decoded with
          | Some e => inr (rpc_error e)
          | None =>
              match Result_ decoded ≫= dec with
              | None => inr json_error
              | Some a => inl a
              end
          end
      end
  end.

Definition noEndpoint (lastErr : option error) : error :=
  default (Errorf "no rpc endpoints configured") lastErr.

Fixpoint requestLoop {A} (dec : Json -> option A) (method : string) (params : Json)
    (endpoints : list string) (lastErr : option error) : M RPCClient A :=
  match endpoints with
  | [] => failM (noEndpoint lastErr)
  | endpoint :: rest =>
      id ← freshID;
      match request_error endpoint with
      | Some e => failM e
      | None =>
          resp ← actM (HttpPost endpoint (marshal (MkRpcRequest id method params)));
          match decodeSingle dec resp with
          | inl a => mret a
          | inr e => requestLoop dec method params rest (Some e)
          end
      end
  end.

Definition request {A} (dec : Json -> option A) (method : string) (params : Json) : M RPCClient A :=
  c ← getM; requestLoop dec method params (urls c) None.

(** ** A batch of requests *)

(** The ids of the calls, in order. *)
Fixpoint freshIDs (n : nat) : M RPCClient (list Z) :=
  match n with
  | O => mret []
  | S n' => id ← freshID; rest ← freshIDs n'; mret (id :: rest)
  end.

(** [results[index] = item.Result] for the call with the item's id; the loop stops at
    the first bad item. *)
Definition indexByID (ids : list Z) (id : Z) : option nat := fst <$> list_find (fun x => x = id) ids.

Definition collectItem (ids : list Z) (acc : reply (list (option Json) * list bool))
    (item : rpcResponse) : reply (list (option Json) * list bool) :=
  match acc with
  | inr e => inr e
  | inl (results, filled) =>
      match indexByID ids (rs_ID item) with
      | None => inr (Errorf ("rpc batch returned unexpected id " +:+ pretty (rs_ID item)))
      | Some index =>
          match Error_ item with
          | Some e => inr (rpc_error e)
          | None =>
              if nth index filled false
              then inr (Errorf ("rpc batch returned duplicate id " +:+ pretty (rs_ID item)))
              else inl (<[index := Result_ item]> results, <[index := true]> filled)
          end
      end
  end.

Definition collect (ids : list Z) (decoded : list rpcResponse) : reply (list (option Json)) :=
  match foldl (collectItem ids)
      (inl (replicate (length ids) None, replicate (length ids) false)) decoded with
  | inr e => inr e
  | inl (results, _) => inl results
  end.

Definition decodeBatch (ids : list Z) (r : reply HttpResponse) : reply (list (option Json)) :=
  match httpBody r with
  | inr e => inr e
  | inl None => inr json_error
  | inl (Some j) =>
      match unmarshal_responses j with
      | None =>
          match (unmarshal j : option rpcResponse) with
          | Some (MkRpcResponse _ _ (Some e)) => inr (rpc_error e)
          | _ => inr json_error
          end
      | Some decoded =>
          if negb (length decoded =? length ids)%nat
          then inr (Errorf ("rpc batch returned " +:+ pretty (length decoded) +:+ " results for "
                      +:+ pretty (length ids) +:+ " requests"))
          else collect ids decoded
      end
  end.

Record rpcCall := MkRpcCall { call_Method : string; call_Params : Json }.

Fixpoint batchLoop (calls : list rpcCall) (endpoints : list string) (lastErr : option error)
    : M RPCClient (list (option Json)) :=
  match endpoints with
  | [] => failM (noEndpoint lastErr)
  | endpoint :: rest =>
      ids ← freshIDs (length calls);
      match request_error endpoint with
      | Some e => failM e
      | None =>
          resp ← actM (HttpPost endpoint (JArr (map (fun '(id, call) =>
            marshal (MkRpcRequest id (call_Method call) (call_Params call))) (zip ids calls))));
          match decodeBatch ids resp with
          | inl results => mret results
          | inr e => batchLoop calls rest (Some e)
          end
      end
  end.

Definition batchRequest (calls : list rpcCall) : M RPCClient (list (option Json)) :=
  c ← getM; batchLoop calls (urls c) None.

(** ** The calls *)

Definition blockFetchTTL : Duration := 500 * Millisecond.

(** The [number] and [timestamp] of a block object. *)
Definition unmarshal_block (j : Json) : option (string * string) :=
  match j with
  | JNull => Some ("", "")
  | JObj l => number ← field unmarshal "" "number" l; ts ← field unmarshal "" "timestamp" l;
              Some (number, ts)
  | _ => None
  end.

Definition cachedBlock (c : RPCClient) : M RPCClient (option Block) :=
  if IsZero (blockFetchedAt c) then mret None else
  now ← actM Now;
  mret (if TimeSub now (blockFetchedAt c) <? blockFetchTTL then Some (latestBlock c) else None).

Definition LatestBlock : M RPCClient Block :=
  c ← getM;
  cached ← cachedBlock c;
  match cached with
  | Some block => mret block
  | None =>
      raw ← request unmarshal_block "eth_getBlockByNumber" (JArr [JStr "latest"; JBool false]);
      number ← wrapM "decode block number: " (liftM (parseHexUint64 (fst raw)));
      ts ← wrapM "decode block timestamp: " (liftM (parseHexUint64 (snd raw)));
      let block := MkBlock number ts ("0x" +:+ FormatUint number 16) in
      now ← actM Now;
      c ← getM;
      _ ← putM (MkRPCClient (urls c) (nextID c) block now);
      mret block
  end.

Definition ChainID : M RPCClient Z :=
  raw ← request (unmarshal (A := string)) "eth_chainId" (JArr []);
  liftM (parseHexUint64 raw).

Definition ethCall (to data blockTag : string) : Json :=
  JArr [JObj [("data", JStr data); ("to", JStr to)]; JStr blockTag].

Definition CallAt (to data blockTag : string) : M RPCClient (list Z) :=
  raw ← request (unmarshal (A := string)) "eth_call" (ethCall to data blockTag);
  liftM (decodeHexResult raw).

(** [json.Unmarshal(message, &result)] and the decoding of the text. *)
Definition decodeMessage (message : option Json) : reply (list Z) :=
  match (message ≫= unmarshal : option string) with
  | None => inr (Wrapf "decode eth_call result: " json_error)
  | Some text => decodeHexResult text
  end.

Fixpoint decodeMessages (l : list (option Json)) : reply (list (list Z)) :=
  match l with
  | [] => inl []
  | message :: rest =>
      match decodeMessage message with
      | inr e => inr e
      | inl bytes => match decodeMessages rest with inr e => inr e | inl more => inl (bytes :: more) end
      end
  end.

(** A [BatchCall] is a target and its data. *)
Definition BatchCall (calls : list (string * string)) (blockTag : string)
    : M RPCClient (list (list Z)) :=
  if (length calls =? 0)%nat then mret [] else
  raw ← batchRequest (map (fun '(to, data) => MkRpcCall "eth_call" (ethCall to data blockTag)) calls);
  liftM (decodeMessages raw).

(** ** Words *)

Definition be_value (l : list Z) : Z := foldl (fun acc b => 256 * acc + b) 0 l.

Definition wordInt (data : list Z) (index : nat) : Z :=
  let start := (index * 32)%nat in
  if (length data <? start + 32)%nat then 0 else be_value (take 32 (drop start data)).

Definition wordAddress (data : list Z) : reply string :=
  if (length data <? 32)%nat then inr (Errorf "short address response")
  else inl ("0x" +:+ hex_encode (take 20 (drop 12 data))).

Definition normalizeAddress (s : string) : string :=
  let s := ToLower (TrimSpace s) in
  if HasPrefix s "0x" then s else "0x" +:+ s.

Definition validAddress (s : string) : bool :=
  (String.length s =? 42)%nat && HasPrefix s "0x"
  && match hex_decode (drop_string 2 s) with Some _ => true | None => false end.

Definition selectorGetReserves : string := "0x0902f1ac".
Definition selectorToken0 : string := "0x0dfe1681".
Definition selectorToken1 : string := "0xd21220a7".
Definition selectorDecimals : string := "0x313ce567".
Definition selectorFactory : string := "0xc45a0155".
Definition selectorPrice0CumulativeLast : string := "0x5909c0d5".
Definition selectorPrice1CumulativeLast : string := "0x5a3d5493".

Definition zeroAddress : string := "0x0000000000000000000000000000000000000000".

Definition InspectPair (pairAddress : string) : M RPCClient PairInfo :=
  let pairAddress := normalizeAddress pairAddress in
  token0Raw ← wrapM "read token0: " (CallAt pairAddress selectorToken0 "latest");
  token1Raw ← wrapM "read token1: " (CallAt pairAddress selectorToken1 "latest");
  factoryRaw ← wrapM "read factory: " (CallAt pairAddress selectorFactory "latest");
  token0 ← wrapM "decode token0: " (liftM (wordAddress token0Raw));
  token1 ← wrapM "decode token1: " (liftM (wordAddress token1Raw));
  factory ← wrapM "decode factory: " (liftM (wordAddress factoryRaw));
  if String.eqb token0 token1 || String.eqb token0 zeroAddress || String.eqb token1 zeroAddress
  then failM (Errorf "pair returned invalid token addresses")
  else mret (MkPairInfo pairAddress token0 token1 factory).
End Client.

(** ** Programs of the monad *)

(** [okM c s Q]: from [s] the call always returns; [Q] relates the events, the value
    or error, and the final state. *)
Definition okM {S A} (c : M S A) (s : S) (Q : trace -> reply A -> S -> Prop) : Prop :=
  ok (c s) (fun es out => Q es (fst out) (snd out)).

Lemma okM_ret {S A} (a : A) (s : S) (Q : trace -> reply A -> S -> Prop) :
  Q [] (inl a) s -> okM (mret a) s Q.
Proof. done. Qed.

Lemma okM_mono {S A} (c : M S A) s (P Q : trace -> reply A -> S -> Prop) :
  okM c s P -> (forall es a s', P es a s' -> Q es a s') -> okM c s Q.
Proof. intros H HPQ. eapply ok_mono; [exact H|]. intros es [a s'] HP. by apply HPQ. Qed.

Lemma okM_bind {S A B} (c : M S A) (f : A -> M S B) s (P : trace -> reply A -> S -> Prop) Q :
  okM c s P ->
  (forall es a s', P es (inl a) s' -> okM (f a) s' (fun es' b s'' => Q (es ++ es') b s'')) ->
  (forall es e s', P es (inr e) s' -> Q es (inr e) s') -> okM (c ≫= f) s Q.
Proof.
  intros H Hf He. unfold okM, mbind, M_mbind. eapply ok_bind; [exact H|].
  intros es [[a|e] s'] HP; simpl in HP |- *; [by apply Hf|].
  apply ok_done. rewrite app_nil_r. by apply He.
Qed.

Lemma okM_act {S B} (a : action) (f : result a -> M S B) s Q :
  (forall r, okM (f r) s (fun es b s' => Q (MkEvent a r :: es) b s')) -> okM (actM a ≫= f) s Q.
Proof.
  intros H. eapply (okM_bind _ _ _ (fun es r s' => exists x, r = inl x /\ es = [MkEvent a x] /\ s' = s)).
  - apply ok_act. intros x. apply ok_done. by exists x.
  - intros es x s' (x' & [= ->] & -> & ->). apply H.
  - intros es e s' (x' & ? & _). done.
Qed.

Lemma okM_yields {S A} (c : M S A) s (Q : trace -> reply A -> S -> Prop) :
  okM c s Q -> okM c s (fun es r s' => yields (c s) es (Ret (r, s')) /\ Q es r s').
Proof.
  intros Hc. eapply ok_mono; [apply ok_yields; exact Hc|]. by intros es [r s'].
Qed.

Lemma okM_lift {S A} (r : reply A) (s : S) Q : Q [] r s -> okM (liftM r) s Q.
Proof. done. Qed.

Lemma okM_wrap {S A} prefix (c : M S A) s (P Q : trace -> reply A -> S -> Prop) :
  okM c s P -> (forall es r s', P es r s' -> Q es (wrapE prefix r) s') -> okM (wrapM prefix c) s Q.
Proof.
  intros H HPQ. unfold okM, wrapM. eapply ok_bind; [exact H|]. intros es [r s'] HP.
  apply ok_done. rewrite app_nil_r. by apply HPQ.
Qed.

(** ** Failover *)

Section Failover.
Context `{HttpRequests} {A : Type} (dec : Json -> option A) (method : string) (params : Json).

(** The answer an exchange gave to this request, if it is one. *)
Definition answer (e : event) : option (reply A) :=
  match e with
  | MkEvent (HttpPost _ (JObj [_; (_, JNum id); _; _] as payload)) r =>
      if json_eqb payload (marshal (MkRpcRequest id method params))
      then Some (decodeSingle dec r) else None
  | _ => None
  end.
Definition posted_to (e : event) : string :=
  match ev_action e with HttpPost url _ => url | _ => "" end.

Definition failed_answer (e : event) : Prop := exists err, answer e = Some (inr err).

(** The endpoints were asked in order until one answered. *)
Definition fails_over (endpoints : list string) (es : trace) (r : reply A) : Prop :=
  map posted_to es `prefix_of` endpoints
  /\ match r with
     | inl a => exists es0 e, es = es0 ++ [e] /\ Forall failed_answer es0 /\ answer e = Some (inl a)
     | inr _ => Forall failed_answer es /\ (map posted_to es = endpoints
          \/ exists url, endpoints !! length es = Some url /\ request_error url <> None)
     end.

Lemma answer_post url id r :
  answer (MkEvent (HttpPost url (marshal (MkRpcRequest id method params))) r)
  = Some (decodeSingle dec r).
Proof. unfold answer, marshal at 1, marshal_request. by rewrite json_eqb_refl. Qed.

Lemma requestLoop_ok endpoints lastErr c :
  okM (requestLoop dec method params endpoints lastErr) c (fun es r _ => fails_over endpoints es r).
Proof.
  revert lastErr c. induction endpoints as [|url rest IH]; intros lastErr c; cbn [requestLoop].
  { apply okM_lift. split; [done|]. split; [constructor|by left]. }
  eapply (okM_bind _ _ _ (fun es r _ => es = [] /\ exists id, r = inl id)).
  { apply ok_done. split; [done|by eexists]. }
  2: { intros es e s' (_ & id & ?). done. }
  intros es id s' [-> _]. destruct (request_error url) as [e|] eqn:Eu.
  { apply okM_lift. split; [apply prefix_nil|]. split; [constructor|]. right. exists url.
    by rewrite Eu. }
  apply okM_act. intros resp. simpl app. pose proof (answer_post url id resp) as Ha.
  set (ev := MkEvent _ resp) in *. destruct (decodeSingle dec resp) as [a|e].
  - apply okM_ret. split; [apply (prefix_app [url]), prefix_nil|]. exists [], ev.
    by split_and!.
  - eapply okM_mono; [apply IH|]. intros es' r s'' [Hp Hr]. split.
    { by apply (prefix_app [url]). }
    assert (Hf : failed_answer ev) by (by exists e).
    destruct r as [a|err].
    + destruct Hr as (es0 & e0 & -> & Hes0 & Ha'). exists (ev :: es0), e0. split_and!; [done| |done].
      by constructor.
    + destruct Hr as [Hes Hr]. split; [by constructor|].
      destruct Hr as [Hr|(u & Hu & He)]; [left; simpl; by f_equal|right]. by exists u.
Qed.
End Failover.

(** ** Batches *)

Definition answerFor (decoded : list rpcResponse) (id : Z) : option Json :=
  match filter (fun item => rs_ID item = id) decoded with
  | [] => None
  | item :: _ => Result_ item
  end.

(** Every item answers one of the calls, without error, and no call twice. *)
Definition good_batch (ids : list Z) (decoded : list rpcResponse) : Prop :=
  Forall (fun item => rs_ID item ∈ ids /\ Error_ item = None) decoded
  /\ NoDup (map rs_ID decoded).

Definition batch_state (ids : list Z) (decoded : list rpcResponse)
    : reply (list (option Json) * list bool) :=
  inl (map (answerFor decoded) ids, map (fun id => bool_decide (id ∈ map rs_ID decoded)) ids).

Lemma answerFor_snoc decoded item id :
  answerFor (decoded ++ [item]) id =
    if bool_decide (id ∈ map rs_ID decoded) then answerFor decoded id
    else if bool_decide (rs_ID item = id) then Result_ item else None.
Proof.
  unfold answerFor. rewrite filter_app. case_bool_decide as E.
  - destruct (filter _ decoded) as [|x l] eqn:Ef; [|done]. exfalso.
    apply list_elem_of_fmap in E as (x & -> & Hx).
    assert (Hin : x ∈ filter (fun item => rs_ID item = rs_ID x) decoded)
      by (by apply list_elem_of_filter).
    rewrite Ef in Hin. by apply elem_of_nil in Hin.
  - assert (Ef : filter (fun item => rs_ID item = id) decoded = []).
    { destruct (filter _ decoded) as [|x l] eqn:Ef; [done|]. exfalso. apply E.
      assert (Hin : x ∈ filter (fun item => rs_ID item = id) decoded) by (rewrite Ef; left).
      apply list_elem_of_filter in Hin as [<- Hin]. by apply list_elem_of_fmap_2. }
    rewrite Ef. simpl. rewrite filter_cons. by repeat case_bool_decide; repeat case_decide.
Qed.

Lemma indexByID_Some ids id i : indexByID ids id = Some i -> ids !! i = Some id.
Proof.
  unfold indexByID. intros ([j x] & E & ->)%fmap_Some. simpl.
  apply list_find_Some in E as (Hj & -> & _). done.
Qed.

Lemma indexByID_in ids id : id ∈ ids -> exists i, indexByID ids id = Some i.
Proof.
  intros Hin. unfold indexByID. destruct (list_find_elem_of (fun x => x = id) ids id Hin eq_refl)
    as [[i x] E]. rewrite E. by exists i.
Qed.

Lemma map_insert_NoDup {B} (f g : Z -> B) ids i id : NoDup ids -> ids !! i = Some id ->
  (forall id', id' <> id -> g id' = f id') -> map g ids = <[i := g id]> (map f ids).
Proof.
  intros Hnd Hi Hfg. apply list_eq. intros j. rewrite list_lookup_insert.
  destruct (Nat.eq_dec i j) as [<-|Hne].
  - change (map f ids) with (f <$> ids). change (map g ids) with (g <$> ids).
    rewrite decide_True by (by rewrite length_fmap; split; [|eapply lookup_lt_Some]).
    by rewrite list_lookup_fmap, Hi.
  - rewrite decide_False by (by intros [? _]).
    change (map f ids) with (f <$> ids). change (map g ids) with (g <$> ids).
    rewrite !list_lookup_fmap. destruct (ids !! j) as [x|] eqn:Ej; [|done]. simpl. f_equal.
    apply Hfg. intros ->. apply Hne. by eapply NoDup_lookup.
Qed.

Lemma collectItem_step ids decoded item : NoDup ids ->
  (good_batch ids (decoded ++ [item]) ->
     collectItem ids (batch_state ids decoded) item = batch_state ids (decoded ++ [item]))
  /\ (good_batch ids decoded -> ~ good_batch ids (decoded ++ [item]) ->
     exists e, collectItem ids (batch_state ids decoded) item = inr e).
Proof.
  intros Hnd. unfold batch_state at 1 3, collectItem.
  assert (Hsplit : good_batch ids (decoded ++ [item]) <-> good_batch ids decoded
    /\ rs_ID item ∈ ids /\ Error_ item = None /\ rs_ID item ∉ map rs_ID decoded).
  { unfold good_batch. rewrite Forall_app, Forall_singleton, map_app, NoDup_app. simpl.
    split; [|intros ([? ?] & ? & ? & ?)]; [intros ([? [? ?]] & ? & Hx & ?)|].
    - split_and!; try done. intros Hin. apply (Hx _ Hin). left.
    - split_and!; try done; [|apply NoDup_singleton]. intros x Hx Hy.
      apply list_elem_of_singleton in Hy as ->. done. }
  assert (Hnth : forall i, ids !! i = Some (rs_ID item) ->
    nth i (map (fun id => bool_decide (id ∈ map rs_ID decoded)) ids) false
    = bool_decide (rs_ID item ∈ map rs_ID decoded)).
  { intros i Hi. rewrite nth_lookup.
    change (map ?f ids) with (f <$> ids). by rewrite list_lookup_fmap, Hi. }
  split.
  - intros (_ & Hin & He & Hn)%Hsplit. destruct (indexByID_in _ _ Hin) as [i Ei].
    rewrite Ei, He. apply indexByID_Some in Ei. rewrite (Hnth i Ei), bool_decide_false by done.
    unfold batch_state. do 2 f_equal.
    + rewrite (map_insert_NoDup (answerFor decoded) (answerFor (decoded ++ [item])) ids i
        (rs_ID item)); [|done|done|].
      * by rewrite answerFor_snoc, bool_decide_false, bool_decide_true by done.
      * intros id' Hne. rewrite answerFor_snoc.
        rewrite (bool_decide_eq_false_2 (rs_ID item = id')) by (intros E'; by apply Hne).
        destruct (bool_decide (id' ∈ map rs_ID decoded)) eqn:E; [done|].
        apply bool_decide_eq_false in E. unfold answerFor.
        destruct (filter _ decoded) as [|x l] eqn:Ef; [done|]. exfalso. apply E.
        assert (Hx : x ∈ filter (fun item => rs_ID item = id') decoded) by (rewrite Ef; left).
        apply list_elem_of_filter in Hx as [<- Hx]. by apply list_elem_of_fmap_2.
    + rewrite (map_insert_NoDup (fun id => bool_decide (id ∈ map rs_ID decoded))
        (fun id => bool_decide (id ∈ map rs_ID (decoded ++ [item]))) ids i (rs_ID item)); [|done|done|].
      * rewrite bool_decide_true; [done|]. rewrite map_app, elem_of_app. right. left.
      * intros id' Hne. apply bool_decide_ext. rewrite map_app, elem_of_app. simpl.
        rewrite list_elem_of_singleton. naive_solver.
  - intros Hg Hbad. destruct (indexByID ids (rs_ID item)) as [i|] eqn:Ei; [|by eexists].
    apply indexByID_Some in Ei. destruct (Error_ item) eqn:Ee; [by eexists|].
    rewrite (Hnth i Ei). case_bool_decide as Ed; [by eexists|]. exfalso. apply Hbad, Hsplit.
    split_and!; try done. by eapply list_elem_of_lookup_2.
Qed.

Lemma collectItem_error ids e decoded : foldl (collectItem ids) (inr e) decoded = inr e.
Proof. induction decoded; done. Qed.

(** The loop succeeds exactly on good batches, and then every call has the result of
    the item with its id. *)
Lemma collect_loop ids decoded : NoDup ids ->
  (good_batch ids decoded /\ foldl (collectItem ids) (batch_state ids []) decoded
     = batch_state ids decoded)
  \/ (~ good_batch ids decoded /\ exists e, foldl (collectItem ids) (batch_state ids []) decoded = inr e).
Proof.
  intros Hnd. induction decoded as [|item decoded IH] using rev_ind.
  { left. split; [|done]. split; constructor. }
  rewrite foldl_app. cbn [foldl]. destruct (collectItem_step ids decoded item Hnd) as [Hok Hbad].
  destruct IH as [[Hg ->]|[Hn [e ->]]].
  - destruct (decide (Forall (fun item => rs_ID item ∈ ids /\ Error_ item = None) (decoded ++ [item])
      /\ NoDup (map rs_ID (decoded ++ [item])))) as [Hg'|Hn'].
    + left. split; [done|]. by apply Hok.
    + right. split; [done|]. by apply Hbad.
  - right. split; [|by eexists]. intros [Hf Hnd']. apply Hn. split.
    + by apply Forall_app in Hf as [? _].
    + rewrite map_app in Hnd'. by apply NoDup_app in Hnd' as [? _].
Qed.

Lemma map_const {B} (f : Z -> B) x l : (forall a, f a = x) -> map f l = replicate (length l) x.
Proof. intros Hf. induction l as [|a l IH]; simpl; [done|]. by rewrite Hf, IH. Qed.

Lemma batch_state_nil ids : batch_state ids []
  = inl (replicate (length ids) None, replicate (length ids) false).
Proof.
  unfold batch_state. rewrite (map_const (answerFor []) None) by done.
  by rewrite (map_const _ false).
Qed.

Lemma collect_spec ids decoded : NoDup ids ->
  (good_batch ids decoded /\ collect ids decoded = inl (map (answerFor decoded) ids))
  \/ (~ good_batch ids decoded /\ exists e, collect ids decoded = inr e).
Proof.
  intros Hnd. unfold collect. rewrite <- batch_state_nil.
  destruct (collect_loop ids decoded Hnd) as [[Hg ->]|[Hn [e ->]]]; [by left|right]. by eauto.
Qed.

Lemma good_batch_perm ids decoded decoded' : decoded ≡ₚ decoded' ->
  good_batch ids decoded -> good_batch ids decoded'.
Proof.
  intros Hp [Hf Hnd]. split; [by rewrite <- Hp|].
  assert (Hm : map rs_ID decoded ≡ₚ map rs_ID decoded') by (by apply Permutation_map).
  by rewrite <- Hm.
Qed.

Lemma answerFor_perm ids decoded decoded' id : decoded ≡ₚ decoded' -> good_batch ids decoded ->
  answerFor decoded id = answerFor decoded' id.
Proof.
  intros Hp [_ Hnd]. unfold answerFor.
  assert (Hpf : filter (fun item => rs_ID item = id) decoded
    ≡ₚ filter (fun item => rs_ID item = id) decoded') by (by rewrite Hp).
  assert (Hle : (length (filter (fun item => rs_ID item = id) decoded) <= 1)%nat).
  { clear -Hnd. induction decoded as [|x l IH]; [simpl; lia|]. simpl in Hnd.
    apply NoDup_cons in Hnd as [Hx Hnd]. rewrite filter_cons. case_decide; [|auto].
    assert (E : filter (fun item => rs_ID item = id) l = []).
    { destruct (filter _ l) as [|y l'] eqn:Ef; [done|]. exfalso. apply Hx.
      assert (Hy : y ∈ filter (fun item => rs_ID item = id) l) by (rewrite Ef; left).
      apply list_elem_of_filter in Hy as [Ey Hy]. rewrite H, <- Ey. by apply list_elem_of_fmap_2. }
    rewrite E. simpl. lia. }
  destruct (filter _ decoded) as [|x [|y l]] eqn:E1.
  - by apply Permutation_nil_l in Hpf as <-.
  - by apply Permutation_singleton_l in Hpf as <-.
  - simpl in Hle. lia.
Qed.

(** ** Calls that always return *)

Definition total {S A} (c : M S A) : Prop := forall s, okM c s (fun _ _ _ => True).

Lemma total_ret {S A} (a : A) : total (S := S) (mret a).
Proof. done. Qed.
Lemma total_fail {S A} e : total (S := S) (failM (A := A) e).
Proof. done. Qed.
Lemma total_lift {S A} (r : reply A) : total (S := S) (liftM r).
Proof. done. Qed.
Lemma total_get {S} : total (getM (S := S)).
Proof. done. Qed.
Lemma total_put {S} (s : S) : total (putM s).
Proof. done. Qed.
Lemma total_act {S} a : total (actM (S := S) a).
Proof. intros s. by apply ok_act. Qed.
Lemma total_bind {S A B} (c : M S A) (f : A -> M S B) :
  total c -> (forall a, total (f a)) -> total (c ≫= f).
Proof. intros Hc Hf s. eapply okM_bind; [apply Hc|..]; [|done]. intros. apply Hf. Qed.
Lemma total_wrap {S A} p (c : M S A) : total c -> total (wrapM p c).
Proof. intros Hc s. eapply okM_wrap; [apply Hc|done]. Qed.
#[export] Hint Resolve total_ret total_fail total_lift total_get total_put total_act total_wrap : go.

Section Total.
Context `{HttpRequests}.

Lemma total_freshID : total freshID.
Proof. done. Qed.

Lemma total_request {A} (dec : Json -> option A) method params : total (request dec method params).
Proof.
  unfold request. apply total_bind; [apply total_get|]. intros c s.
  eapply okM_mono; [apply requestLoop_ok|done].
Qed.

Lemma total_freshIDs n : total (freshIDs n).
Proof.
  induction n as [|n IH]; cbn [freshIDs]; [apply total_ret|].
  apply total_bind; [apply total_freshID|]. intros id. apply total_bind; [done|]. intros. apply total_ret.
Qed.

Lemma total_batchLoop calls endpoints lastErr : total (batchLoop calls endpoints lastErr).
Proof.
  revert lastErr. induction endpoints as [|url rest IH]; intros lastErr; cbn [batchLoop];
    [apply total_fail|].
  apply total_bind; [apply total_freshIDs|]. intros ids.
  destruct (request_error url); [apply total_fail|].
  apply total_bind; [apply total_act|]. intros resp.
  destruct (decodeBatch ids resp); [apply total_ret|apply IH].
Qed.

Lemma total_BatchCall calls blockTag : total (BatchCall calls blockTag).
Proof.
  unfold BatchCall. destruct (_ =? _)%nat; [apply total_ret|]. apply total_bind; [|intros; apply total_lift].
  unfold batchRequest. apply total_bind; [apply total_get|]. intros. apply total_batchLoop.
Qed.

Lemma total_CallAt to data blockTag : total (CallAt to data blockTag).
Proof. apply total_bind; [apply total_request|]. intros. apply total_lift. Qed.

Lemma total_LatestBlock : total LatestBlock.
Proof.
  unfold LatestBlock. apply total_bind; [apply total_get|]. intros c. apply total_bind.
  { unfold cachedBlock. destruct (IsZero _); [apply total_ret|].
    apply total_bind; [apply total_act|]. intros. apply total_ret. }
  intros [b|]; [apply total_ret|]. apply total_bind; [apply total_request|]. intros raw.
  do 2 (apply total_bind; [apply total_wrap, total_lift|]; intros ?).
  apply total_bind; [apply total_act|]. intros now. apply total_bind; [apply total_get|]. intros c'.
  apply total_bind; [apply total_put|]. intros. apply total_ret.
Qed.
End Total.
#[export] Hint Resolve total_BatchCall total_CallAt total_LatestBlock : go.

(** ** Claims *)

(** The order of the items of a batch response does not matter: any permutation of
    the same items gives the same results, result [i] being that of the item that
    carries the id of call [i]. *)
Theorem batch_order_irrelevant ids decoded decoded' results :
  NoDup ids -> decoded ≡ₚ decoded' -> collect ids decoded = inl results ->
  collect ids decoded' = inl results /\ results = map (answerFor decoded) ids
  /\ good_batch ids decoded.
Proof.
  intros Hnd Hp Hc. destruct (collect_spec ids decoded Hnd) as [[Hg E]|[_ [e E]]]; [|congruence].
  rewrite E in Hc. injection Hc as <-.
  destruct (collect_spec ids decoded' Hnd) as [[Hg' E']|[Hn _]].
  - split_and!; [|done|done]. rewrite E'. f_equal. apply map_ext. intros id. symmetry.
    by eapply answerFor_perm.
  - exfalso. apply Hn. by eapply good_batch_perm.
Qed.

(** A request is sent to the endpoints in order; the first one that answers decides
    the result, and an error is returned only when every endpoint failed (or one of
    the URLs is malformed).  The client returns after at most one exchange per
    endpoint. *)
Theorem request_fails_over `{HttpRequests} {A} (dec : Json -> option A) env past method params c :
  exists es r c', run env past (request dec method params c) = (es, Ret (r, c'))
  /\ fails_over dec method params (urls c) es r.
Proof.
  assert (Hok : okM (request dec method params) c
    (fun es r _ => fails_over dec method params (urls c) es r)).
  { unfold request. eapply (okM_bind _ _ _ (fun es r s' => es = [] /\ r = inl c /\ s' = c)).
    - by apply ok_done.
    - intros es c0 s' (-> & [= ->] & ->). apply requestLoop_ok.
    - intros es e s' (_ & ? & _). done. }
  destruct (ok_run _ _ env past Hok) as (es & [r c'] & Hrun & Hr). by exists es, r, c'.
Qed.


Lemma batch_order_irrelevant_witness :
  collect [4; 5] [MkRpcResponse 5 (Some (JStr "b")) None; MkRpcResponse 4 (Some (JStr "a")) None]
    = inl [Some (JStr "a"); Some (JStr "b")].
Proof.
  apply (batch_order_irrelevant [4; 5]
    [MkRpcResponse 4 (Some (JStr "a")) None; MkRpcResponse 5 (Some (JStr "b")) None]);
    [|apply Permutation_swap|reflexivity].
  apply (bool_decide_eq_true_1 _). vm_compute. reflexivity.
Defined.
