(* ===== verification/Oracle.v ===== *)
(** The PancakeSwap V2 price oracle (src/internal/oracle/pancakev2/oracle.go): reading a
    pair at a block, spot and time-weighted prices of a leg, and the reference price
    of an instrument. *)
From S2P Require Import Prelude Decimal DecimalText Domain Config Json World Sha256 Rpc.

Open Scope string_scope.
Open Scope list_scope.
Open Scope Z_scope.

(** ** Data *)

Definition q112 : Z := 2 ^ 112.

Record pairMetadata := MkPairMetadata {
  Token0 : string;
  Token1 : string;
  Decimals0 : Z;
  Decimals1 : Z;
  Factory : string
}.

Record cumulativeSnapshot := MkSnapshot {
  Price0 : Z;
  Price1 : Z;
  UnixTime : Z;
  TWAP0 : Decimal;
  TWAP1 : Decimal;
  Ready : bool
}.

Record pairState := MkPairState {
  meta : pairMetadata;
  reserve0 : Z;
  reserve1 : Z;
  reserveTimestamp : Z;
  currentCumulative0 : Z;
  currentCumulative1 : Z;
  block : Block
}.

Record legPrice := MkLegPrice { lp_Spot : Decimal; lp_TWAP : Decimal; lp_Ready : bool }.

Record Oracle := MkOracle {
  rpc : RPCClient;
  metadata : gmap string pairMetadata;
  snapshots : gmap string cumulativeSnapshot
}.

Definition New (c : RPCClient) : Oracle := MkOracle c ∅ ∅.

(** A call of the RPC client from the oracle. *)
Definition onRPC {A} (c : M RPCClient A) : M Oracle A := fun o =>
  x ← c (rpc o); Done (fst x, MkOracle (snd x) (metadata o) (snapshots o)).

(** Code that may panic. *)
Definition liftGo {S A} (c : go A) : M S A := fun s =>
  match c with Ret a => Done (inl a, s) | Err e => Done (inr e, s) | Panic m => Crash m end.

(** ** Decimals of the tokens *)

(** [big.Int.Exp] gives one for a negative exponent. *)
Definition pow10 (decimals : Z) : Z := if decimals <=? 0 then 1 else 10 ^ decimals.
Definition decimalAdjustment (baseDecimals quoteDecimals : Z) : Q :=
  pow10 baseDecimals # Z.to_pos (pow10 quoteDecimals).

(** ** Reading a pair *)

Section Read.
Context `{HttpRequests}.

(** The reads of [getMetadata] when the pair is not known yet. *)
Definition fetchMetadata (pair blockTag : string) : M Oracle pairMetadata :=
  t0raw ← wrapM "token0: " (onRPC (CallAt pair selectorToken0 blockTag));
  t1raw ← wrapM "token1: " (onRPC (CallAt pair selectorToken1 blockTag));
  t0 ← liftM (wordAddress t0raw);
  t1 ← liftM (wordAddress t1raw);
  d0raw ← wrapM "token0 decimals: " (onRPC (CallAt t0 selectorDecimals blockTag));
  d1raw ← wrapM "token1 decimals: " (onRPC (CallAt t1 selectorDecimals blockTag));
  factoryRaw ← wrapM "factory: " (onRPC (CallAt pair selectorFactory blockTag));
  factory ← liftM (wordAddress factoryRaw);
  mret (MkPairMetadata t0 t1 (wrap64 (wordInt d0raw 0)) (wrap64 (wordInt d1raw 0)) factory).

Definition storeMetadata (pair : string) (m : pairMetadata) : M Oracle unit := fun o =>
  Done (inl tt, MkOracle (rpc o) (<[pair := m]> (metadata o)) (snapshots o)).

Definition getMetadata (pair blockTag : string) : M Oracle pairMetadata :=
  o ← getM;
  match metadata o !! pair with
  | Some m => mret m
  | None =>
      m ← fetchMetadata pair blockTag;
      _ ← storeMetadata pair m;
      mret m
  end.

(** The state of a pair from the words of its three reads. *)
Definition pairStateOf (m : pairMetadata) (words : list (list Z)) (b : Block) : reply pairState :=
  let reservesRaw := nth 0 words [] in
  if (length reservesRaw <? 96)%nat then inr (Errorf "short getReserves response") else
  let r0 := wordInt reservesRaw 0 in
  let r1 := wordInt reservesRaw 1 in
  let reserveTS := wrapU32 (wrapU64 (wordInt reservesRaw 2)) in
  let cum0 := wordInt (nth 1 words []) 0 in
  let cum1 := wordInt (nth 2 words []) 0 in
  let elapsed := wrapU32 (wrapU32 (Timestamp b) - reserveTS) in
  let update := (0 <? elapsed) && (0 <? r0) && (0 <? r1) in
  let cum0 := if update then cum0 + Z.quot (Z.shiftl r1 112) r0 * elapsed else cum0 in
  let cum1 := if update then cum1 + Z.quot (Z.shiftl r0 112) r1 * elapsed else cum1 in
  inl (MkPairState m r0 r1 reserveTS cum0 cum1 b).

Definition readPair (pair : string) (b : Block) : M Oracle pairState :=
  let pair := normalizeAddress pair in
  if negb (validAddress pair) then failM (Errorf "invalid pair address") else
  m ← getMetadata pair (Tag b);
  words ← wrapM "read pair state: " (onRPC (BatchCall
    [(pair, selectorGetReserves); (pair, selectorPrice0CumulativeLast);
     (pair, selectorPrice1CumulativeLast)] (Tag b)));
  liftM (pairStateOf m words b).

(** ** The price of a leg *)

(** Whether the base of the leg is the first token, and its reserves and decimals. *)
Definition orient (leg : PairLegConfig) (s : pairState) : reply (Z * Z * Z * Z) :=
  let base := normalizeAddress (BaseToken leg) in
  let quote := normalizeAddress (QuoteToken leg) in
  let m := meta s in
  if String.eqb base (Token0 m) && String.eqb quote (Token1 m)
  then inl (reserve0 s, reserve1 s, Decimals0 m, Decimals1 m)
  else if String.eqb base (Token1 m) && String.eqb quote (Token0 m)
  then inl (reserve1 s, reserve0 s, Decimals1 m, Decimals0 m)
  else inr (Errorf "configured base/quote tokens do not match pair").

(** The spot price, after the checks of the pair. *)
Definition checkLeg (leg : PairLegConfig) (s : pairState) : reply Decimal :=
  if negb (String.eqb (ExpectedFactory leg) "")
     && negb (String.eqb (normalizeAddress (ExpectedFactory leg)) (Factory (meta s)))
  then inr (Errorf ("pair factory " +:+ Factory (meta s) +:+ " does not match expected "
              +:+ normalizeAddress (ExpectedFactory leg))) else
  match orient leg s with
  | inr e => inr e
  | inl (reserveBase, reserveQuote, baseDecimals, quoteDecimals) =>
      if (reserveBase <=? 0) || (reserveQuote <=? 0) then inr (Errorf "empty reserves") else
      let idle := wrapU32 (wrapU32 (Timestamp (block s)) - reserveTimestamp s) in
      if (0 <? MaxIdleSeconds leg) && (wrapU32 (MaxIdleSeconds leg) <? idle)
      then inr (Errorf ("pair has not updated for " +:+ pretty idle +:+ " seconds")) else
      let quoteUnits := FromRat (reserveQuote # Z.to_pos (pow10 quoteDecimals)) in
      if IsPositive (MinQuoteReserve leg) && (Cmp quoteUnits (MinQuoteReserve leg) <? 0)
      then inr (Errorf ("quote reserve " +:+ String_ quoteUnits +:+ " below minimum "
                  +:+ String_ (MinQuoteReserve leg))) else
      inl (FromRat ((reserveQuote # Z.to_pos reserveBase)
                    * decimalAdjustment baseDecimals quoteDecimals))
  end.

(** The part of [readLeg] under the lock: the price, and the snapshot to store. *)
Definition updateSnapshot (isBase0 : bool) (windowSeconds : Z) (spot : Decimal) (s : pairState)
    (previous : option cumulativeSnapshot) : reply legPrice * option cumulativeSnapshot :=
  let ts := Timestamp (block s) in
  let fresh := MkSnapshot (currentCumulative0 s) (currentCumulative1 s) ts Zero Zero false in
  let cold := inl (MkLegPrice spot Zero false) in
  match previous with
  | None => (cold, Some fresh)
  | Some prev =>
      if ts <=? UnixTime prev then (cold, Some fresh) else
      let elapsed := ts - UnixTime prev in
      if elapsed <? wrapU64 windowSeconds then
        (if Ready prev
         then inl (MkLegPrice spot (if isBase0 then TWAP0 prev else TWAP1 prev) true)
         else cold, None)
      else
      let delta0 := currentCumulative0 s - Price0 prev in
      let delta1 := currentCumulative1 s - Price1 prev in
      if (delta0 <=? 0) || (delta1 <=? 0)
      then (inr (Errorf "non-positive cumulative price delta"), None) else
      let denominator := Z.to_pos (elapsed * q112) in
      let m := meta s in
      let twap0 := FromRat ((delta0 # denominator) * decimalAdjustment (Decimals0 m) (Decimals1 m)) in
      let twap1 := FromRat ((delta1 # denominator) * decimalAdjustment (Decimals1 m) (Decimals0 m)) in
      (inl (MkLegPrice spot (if isBase0 then twap0 else twap1) true),
       Some (MkSnapshot (currentCumulative0 s) (currentCumulative1 s) ts twap0 twap1 true))
  end.

Definition readLeg (leg : PairLegConfig) (windowSeconds : Z) (b : Block) : M Oracle legPrice :=
  s ← readPair (PairAddress leg) b;
  spot ← liftM (checkLeg leg s);
  let key := normalizeAddress (PairAddress leg) in
  let isBase0 := String.eqb (normalizeAddress (BaseToken leg)) (Token0 (meta s)) in
  o ← getM;
  let '(res, stored) := updateSnapshot isBase0 windowSeconds spot s (snapshots o !! key) in
  _ ← putM (match stored with
            | None => o
            | Some snapshot => MkOracle (rpc o) (metadata o) (<[key := snapshot]> (snapshots o))
            end);
  liftM res.

(** ** The reference price *)

Fixpoint priceLegs (legs : list PairLegConfig) (windowSeconds : Z) (b : Block)
    (acc : Decimal * Decimal * bool) : M Oracle (Decimal * Decimal * bool) :=
  match legs with
  | [] => mret acc
  | leg :: rest =>
      p ← wrapM ("pair " +:+ PairAddress leg +:+ ": ") (readLeg leg windowSeconds b);
      let '(spot, twap, allReady) := acc in
      priceLegs rest windowSeconds b
        (Mul spot (lp_Spot p), if lp_Ready p then Mul twap (lp_TWAP p) else twap,
         allReady && lp_Ready p)
  end.

(** The price and its confidence, or the refusal. *)
Definition choosePrice (ref : ReferenceConfig) (spot twap : Decimal) (allReady : bool)
    : go (Decimal * string) :=
  if negb allReady then
    if negb (AllowSpotDuringWarmup ref) then Err (Errorf "TWAP warming up")
    else Ret (spot, "warming_up")
  else if 0 <? MaxSpotTWAPDeviationBPS ref then
    q ← Div (Abs (Sub spot twap)) twap;
    let deviation := Mul q TenThousand in
    if 0 <? Cmp deviation (FromInt64 (MaxSpotTWAPDeviationBPS ref))
    then Err (Errorf ("spot/TWAP deviation " +:+ String_ deviation +:+ " bps exceeds "
                +:+ pretty (MaxSpotTWAPDeviationBPS ref)))
    else Ret (twap, "high")
  else Ret (twap, "high").

(** A time in an error message, as its Unix seconds. *)
Definition time_text (t : Time) : string := pretty (UnixSec t).

Definition Price (i : InstrumentConfig) : M Oracle ReferencePrice :=
  let ref := Reference i in
  if negb (String.eqb (refcfg_Type ref) "pancake_v2")
  then failM (Errorf ("unsupported oracle type " +:+ refcfg_Type ref)) else
  b ← onRPC LatestBlock;
  x ← priceLegs (Legs ref) (TWAPWindowSeconds ref) b (One, One, true);
  let '(spot, twap, allReady) := x in
  pc ← liftGo (choosePrice ref spot twap allReady);
  let '(price, confidence) := pc in
  let blockTime := wrap64 (Timestamp b) * Second in
  now ← actM Now;
  if After blockTime (now + 15 * Second)
  then failM (Errorf ("chain block timestamp is in the future: " +:+ time_text blockTime)) else
  let maxAge := (StaleAfterSeconds ref *i Second)%go in
  stale ← (if 0 <? StaleAfterSeconds ref
           then now ← actM Now; mret (maxAge <? TimeSub now blockTime) else mret false);
  if stale : bool then failM (Errorf ("chain block is stale: " +:+ time_text blockTime)) else
  let validFor := if maxAge <=? 0 then 15 * Second else maxAge in
  now ← actM Now;
  mret (MkReferencePrice (ID i) price spot allReady confidence (Number b) blockTime (now + validFor)).
End Read.

(** ** Positive prices *)

Lemma pow10_pos d : 0 < pow10 d.
Proof. unfold pow10. destruct (d <=? 0) eqn:E; [lia|]. apply Z.leb_gt in E. apply Z.pow_pos_nonneg; lia. Qed.

Lemma decimalAdjustment_pos b q : (0 < decimalAdjustment b q)%Q.
Proof. unfold decimalAdjustment, Qlt. simpl. pose proof (pow10_pos b). lia. Qed.

Lemma ratio_pos n d b q : 0 < n ->
  (0 < rat (FromRat ((n # d) * decimalAdjustment b q)))%Q.
Proof.
  intros Hn. rewrite rat_FromRat. apply Qmult_lt_0_compat; [|apply decimalAdjustment_pos].
  unfold Qlt. simpl. lia.
Qed.

Definition positive (d : Decimal) : Prop := (0 < rat d)%Q.

(** The average price over a window: the growth of an accumulator over the elapsed seconds,
    adjusted for the decimals of the tokens. *)
Definition average (delta elapsed baseDecimals quoteDecimals : Z) : Decimal :=
  FromRat ((delta # Z.to_pos (elapsed * q112)) * decimalAdjustment baseDecimals quoteDecimals).

Lemma average_pos delta elapsed b q : 0 < delta -> positive (average delta elapsed b q).
Proof. apply ratio_pos. Qed.

(** The averages a snapshot offers are those of its own accumulators since an earlier
    reading of them. *)
Definition snapshot_ok (m : pairMetadata) (s : cumulativeSnapshot) : Prop :=
  Ready s = true -> exists p0 p1 t, t < UnixTime s /\ p0 < Price0 s /\ p1 < Price1 s
    /\ TWAP0 s = average (Price0 s - p0) (UnixTime s - t) (Decimals0 m) (Decimals1 m)
    /\ TWAP1 s = average (Price1 s - p1) (UnixTime s - t) (Decimals1 m) (Decimals0 m).

Definition oracle_ok (o : Oracle) : Prop := forall k s, snapshots o !! k = Some s ->
  exists m, metadata o !! k = Some m /\ snapshot_ok m s.
Definition leg_ok (p : legPrice) : Prop :=
  positive (lp_Spot p) /\ (lp_Ready p = true -> positive (lp_TWAP p)).

Lemma snapshot_positive m s : snapshot_ok m s -> Ready s = true ->
  positive (TWAP0 s) /\ positive (TWAP1 s).
Proof.
  intros Hs (p0 & p1 & t & _ & H0 & H1 & -> & ->)%Hs. split; apply average_pos; lia.
Qed.

(** The average a leg is priced with: the one stored, while its window lasts, or else the
    one since the stored reading. *)
Definition leg_twap (isBase0 : bool) (window : Z) (s : pairState) (prev : cumulativeSnapshot)
    (twap : Decimal) : Prop :=
  let elapsed := Timestamp (block s) - UnixTime prev in
  0 < elapsed
  /\ ((elapsed < wrapU64 window /\ Ready prev = true
        /\ twap = (if isBase0 then TWAP0 prev else TWAP1 prev))
      \/ (wrapU64 window <= elapsed
          /\ 0 < currentCumulative0 s - Price0 prev /\ 0 < currentCumulative1 s - Price1 prev
          /\ twap = (if isBase0
              then average (currentCumulative0 s - Price0 prev) elapsed
                     (Decimals0 (meta s)) (Decimals1 (meta s))
              else average (currentCumulative1 s - Price1 prev) elapsed
                     (Decimals1 (meta s)) (Decimals0 (meta s))))).

Lemma checkLeg_positive leg s spot : checkLeg leg s = inl spot -> positive spot.
Proof.
  unfold checkLeg. destruct (_ && _); [done|]. destruct (orient leg s) as [[[[rb rq] bd] qd]|]; [|done].
  destruct ((rb <=? 0) || (rq <=? 0)) eqn:E; [done|]. cbv zeta.
  do 2 (destruct (_ && _); [done|]). intros [= <-]. apply orb_false_iff in E as [_ E%Z.leb_gt].
  by apply ratio_pos.
Qed.

Lemma updateSnapshot_price isBase0 window spot s previous p :
  fst (updateSnapshot isBase0 window spot s previous) = inl p ->
  lp_Spot p = spot
  /\ (lp_Ready p = true -> exists prev, previous = Some prev /\ leg_twap isBase0 window s prev (lp_TWAP p)).
Proof.
  unfold updateSnapshot, leg_twap. cbv zeta. destruct previous as [prev|]; [|by intros [= <-]].
  destruct (_ <=? UnixTime prev) eqn:Et; [by intros [= <-]|]. apply Z.leb_gt in Et.
  destruct (_ <? wrapU64 window) eqn:Ew.
  { apply Z.ltb_lt in Ew. destruct (Ready prev) eqn:Er; intros [= <-]; [|done].
    split; [done|]. intros _. exists prev. split; [done|]. split; [lia|]. by left. }
  apply Z.ltb_ge in Ew.
  destruct ((currentCumulative0 s - Price0 prev <=? 0) || (currentCumulative1 s - Price1 prev <=? 0))
    eqn:Ed; [done|]. apply orb_false_iff in Ed as [E0%Z.leb_gt E1%Z.leb_gt].
  intros [= <-]. split; [done|]. intros _. exists prev. split; [done|]. split; [lia|]. right.
  split_and!; [done|done|done|]. by destruct isBase0.
Qed.

Lemma updateSnapshot_stored isBase0 window spot s previous n :
  snd (updateSnapshot isBase0 window spot s previous) = Some n -> snapshot_ok (meta s) n.
Proof.
  unfold updateSnapshot. cbv zeta. destruct previous as [prev|]; [|by intros [= <-]].
  destruct (_ <=? UnixTime prev) eqn:Et; [by intros [= <-]|]. apply Z.leb_gt in Et.
  destruct (_ <? wrapU64 window); [done|].
  destruct ((currentCumulative0 s - Price0 prev <=? 0) || (currentCumulative1 s - Price1 prev <=? 0))
    eqn:Ed; [done|]. apply orb_false_iff in Ed as [E0%Z.leb_gt E1%Z.leb_gt].
  intros [= <-] _. exists (Price0 prev), (Price1 prev), (UnixTime prev). simpl.
  split_and!; [lia|lia|lia|done|done].
Qed.

Section Positive.
Context `{HttpRequests}.

(** The snapshots are the same, and no pair known is forgotten or described anew. *)
Definition extends (o o' : Oracle) : Prop :=
  snapshots o' = snapshots o /\ metadata o ⊆ metadata o'.

#[local] Instance extends_preorder : PreOrder extends.
Proof.
  split; [by intros o|]. intros o1 o2 o3 [H1 H2] [H3 H4]. split; [congruence|by etransitivity].
Qed.

Lemma extends_ok o o' : extends o o' -> oracle_ok o -> oracle_ok o'.
Proof.
  intros [Hs Hm] Ho k s. rewrite Hs. intros Hk. destruct (Ho k s Hk) as (m & H1 & H2).
  exists m. split; [by eapply lookup_weaken|done].
Qed.

(** A call that changes neither. *)
Definition keeps {A} (c : M Oracle A) : Prop :=
  forall o, okM c o (fun _ _ o' => snapshots o' = snapshots o /\ metadata o' = metadata o).

Lemma keeps_extends o o' :
  snapshots o' = snapshots o /\ metadata o' = metadata o -> extends o o'.
Proof. intros [H1 H2]. split; [done|by rewrite H2]. Qed.

Lemma keeps_bind {A B} (c : M Oracle A) (f : A -> M Oracle B) :
  keeps c -> (forall a, keeps (f a)) -> keeps (c ≫= f).
Proof.
  intros Hc Hf o. eapply okM_bind; [apply Hc|..]; simpl; [|done].
  intros es a o' E. eapply okM_mono; [apply Hf|]. simpl. intuition congruence.
Qed.
Lemma keeps_onRPC {A} (c : M RPCClient A) : total c -> keeps (onRPC c).
Proof.
  intros Hc o. unfold okM, onRPC. eapply ok_bind; [apply Hc|]. intros es x _. by apply ok_done.
Qed.
Lemma keeps_wrap {A} p (c : M Oracle A) : keeps c -> keeps (wrapM p c).
Proof. intros Hc o. eapply okM_wrap; [apply Hc|done]. Qed.
Lemma keeps_lift {A} (r : reply A) : keeps (liftM r).
Proof. done. Qed.
Lemma keeps_fail {A} e : keeps (failM (A := A) e).
Proof. done. Qed.
Lemma keeps_act a : keeps (actM a).
Proof. intros o. by apply ok_act. Qed.
#[local] Hint Resolve keeps_onRPC keeps_wrap keeps_lift keeps_fail keeps_act : go.

Lemma keeps_get : keeps getM.
Proof. done. Qed.
Lemma keeps_ret {A} (a : A) : keeps (mret a).
Proof. done. Qed.
#[local] Hint Resolve keeps_get keeps_ret : go.

Ltac keeps := repeat (apply keeps_bind; [auto with go|intros ?]); auto with go.

Lemma keeps_fetchMetadata pair blockTag : keeps (fetchMetadata pair blockTag).
Proof. unfold fetchMetadata. keeps. Qed.

Lemma getMetadata_ok pair blockTag o :
  okM (getMetadata pair blockTag) o (fun _ r o' => extends o o'
    /\ forall m, r = inl m -> metadata o' !! pair = Some m).
Proof.
  unfold getMetadata. eapply (okM_bind _ _ _ (fun es r s' => s' = o /\ r = inl o));
    [by apply ok_done| |by intros es e s' [_ ?]].
  intros es x s' (-> & [= ->]). destruct (metadata o !! pair) as [m|] eqn:Em.
  { apply okM_ret. split; [by split|]. by intros m' [= <-]. }
  eapply okM_bind; [apply keeps_fetchMetadata|..].
  - intros es' m o' [Hs Hm]. pose proof (keeps_extends _ _ (conj Hs Hm)) as Ho'. unfold okM, mbind, M_mbind, storeMetadata.
    cbn [mbind prog_mbind prog_bind fst snd]. apply ok_done. cbn [fst snd metadata]. split.
    + etransitivity; [exact Ho'|]. split; [done|]. apply insert_subseteq. by rewrite Hm.
    + intros m' [= <-]. apply lookup_insert_eq.
  - intros es' e o' Ho'. split; [by apply keeps_extends|done].
Qed.

Lemma readPair_ok pair b o :
  okM (readPair pair b) o (fun _ r o' => extends o o' /\ forall s, r = inl s ->
    block s = b /\ metadata o' !! normalizeAddress pair = Some (meta s)).
Proof.
  unfold readPair. cbv zeta. destruct (negb _); [by apply okM_lift|].
  eapply okM_bind; [apply getMetadata_ok|..]; simpl; [|by intros es e o' [? _]].
  intros es m o1 [H1 Hm]. specialize (Hm m eq_refl).
  eapply (okM_bind _ _ _ (fun _ _ o' => extends o1 o')).
  - eapply okM_mono; [apply keeps_wrap, keeps_onRPC; auto with go|]. intros es' r o2. apply keeps_extends.
  - intros es' words o2 H2. apply okM_lift. split; [by transitivity o1|].
    intros s Hs. unfold pairStateOf in Hs. destruct (_ <? 96)%nat; [done|]. injection Hs as <-.
    simpl. split; [done|]. eapply lookup_weaken; [exact Hm|apply H2].
  - intros es' e o2 H2. split; [by transitivity o1|done].
Qed.

(** What an oracle keeps of a leg just priced. *)
Definition store (key : string) (stored : option cumulativeSnapshot) (o : Oracle) : Oracle :=
  match stored with
  | None => o
  | Some snapshot => MkOracle (rpc o) (metadata o) (<[key := snapshot]> (snapshots o))
  end.

(** The price of a leg: its spot is that of the checked state of the pair at the block,
    which was read from the node by these events; and a leg that is ready has the average
    of the pair. *)
Definition leg_read (leg : PairLegConfig) (window : Z) (b : Block) (o : Oracle) (es : trace)
    (p : legPrice) (o' : Oracle) : Prop :=
  let key := normalizeAddress (PairAddress leg) in
  exists s o1, yields (readPair (PairAddress leg) b o) es (Ret (inl s, o1))
  /\ extends o o1 /\ block s = b /\ metadata o1 !! key = Some (meta s)
  /\ checkLeg leg s = inl (lp_Spot p)
  /\ let isBase0 := String.eqb (normalizeAddress (BaseToken leg)) (Token0 (meta s)) in
     (lp_Ready p = true -> exists prev, snapshots o !! key = Some prev
        /\ leg_twap isBase0 window s prev (lp_TWAP p))
     /\ o' = store key (snd (updateSnapshot isBase0 window (lp_Spot p) s (snapshots o !! key))) o1.

Lemma store_ok key s stored o : oracle_ok o -> metadata o !! key = Some (meta s) ->
  (forall n, stored = Some n -> snapshot_ok (meta s) n) -> oracle_ok (store key stored o).
Proof.
  intros Ho Hm Hn. destruct stored as [n|]; [|done]. intros k x. simpl.
  intros [[<- <-]|[_ Hx]]%lookup_insert_Some; [eauto|by eapply Ho].
Qed.

Lemma leg_read_positive leg window b o es p o' : oracle_ok o ->
  leg_read leg window b o es p o' -> leg_ok p /\ oracle_ok o'.
Proof.
  intros Ho (s & o1 & _ & Hx & _ & Hm & Hc & Hr & ->). split.
  - split; [by eapply checkLeg_positive|]. intros (prev & Hp & _ & Ht)%Hr.
    destruct Ht as [(_ & Hrd & ->)|(_ & H0 & H1 & ->)].
    + destruct (Ho _ _ Hp) as (m & _ & Hs). destruct (snapshot_positive m prev Hs Hrd).
      by destruct (String.eqb _ _).
    + destruct (String.eqb _ _); by apply average_pos.
  - apply (store_ok _ s); [by eapply extends_ok|done|]. intros n Hn. by eapply updateSnapshot_stored.
Qed.

Lemma readLeg_ok leg window b o :
  okM (readLeg leg window b) o (fun es r o' => (oracle_ok o -> oracle_ok o')
    /\ forall p, r = inl p -> leg_read leg window b o es p o').
Proof.
  unfold readLeg. eapply okM_bind; [apply okM_yields, readPair_ok| |].
  2:{ simpl. intros es e o' (_ & E & _). split; [by apply extends_ok|done]. }
  simpl. intros es s o1 (Hy & Hx & Hs). destruct (Hs s eq_refl) as [Hb Hm].
  destruct (checkLeg leg s) as [spot|e] eqn:Ec.
  2:{ apply okM_lift. split; [by apply extends_ok|done]. }
  set (key := normalizeAddress (PairAddress leg)) in *. set (isBase0 := String.eqb _ _).
  pose proof (updateSnapshot_price isBase0 window spot s (snapshots o1 !! key)) as Hp.
  pose proof (updateSnapshot_stored isBase0 window spot s (snapshots o1 !! key)) as Hst.
  unfold okM, mbind, M_mbind, liftM, getM, putM.
  cbn [mbind prog_mbind prog_bind fst snd]. fold key isBase0.
  destruct (updateSnapshot isBase0 window spot s (snapshots o1 !! key)) as [res stored] eqn:Eu.
  simpl in Hp, Hst. cbn [mbind prog_mbind prog_bind fst snd]. apply ok_done. cbn [fst snd].
  change (match stored with None => o1 | Some _ => _ end) with (store key stored o1). split.
  - intros Ho. apply (store_ok _ s); [by eapply extends_ok|done|done].
  - intros p ->. destruct (Hp p eq_refl) as [Hsp Hr]. subst spot. rewrite app_nil_r.
    exists s, o1. rewrite (proj1 Hx) in Hr, Eu. split_and!; try done. cbv zeta. fold key isBase0.
    by rewrite Eu.
Qed.

Lemma positive_Mul a b : positive a -> positive b -> positive (Mul a b).
Proof. unfold positive. intros. rewrite rat_Mul. by apply Qmult_lt_0_compat. Qed.

(** The legs of a price, one after the other. *)
Inductive priced (window : Z) (b : Block)
    : list PairLegConfig -> Oracle -> trace -> list legPrice -> Oracle -> Prop :=
  | priced_nil o : priced window b [] o [] [] o
  | priced_cons leg legs o es p o1 es' ps o2 :
      leg_read leg window b o es p o1 -> priced window b legs o1 es' ps o2 ->
      priced window b (leg :: legs) o (es ++ es') (p :: ps) o2.

Lemma priced_positive window b legs o es ps o' : oracle_ok o ->
  priced window b legs o es ps o' -> Forall leg_ok ps.
Proof.
  intros Ho H'. induction H' as [o|leg legs o es p o1 es' ps o2 H1 _ IH]; [constructor|].
  destruct (leg_read_positive _ _ _ _ _ _ _ Ho H1) as [? ?]. constructor; auto.
Qed.

Definition product (l : list Decimal) : Decimal := foldl Mul One l.

(** The averages, as far as the legs are ready. *)
Definition mulReady (twap : Decimal) (p : legPrice) : Decimal :=
  if lp_Ready p then Mul twap (lp_TWAP p) else twap.

Lemma mulReady_all ps d : forallb lp_Ready ps = true ->
  foldl mulReady d ps = foldl Mul d (map lp_TWAP ps).
Proof.
  revert d. induction ps as [|p ps IH]; intros d; simpl; [done|].
  intros [Hp Hps]%andb_true_iff. unfold mulReady at 2. rewrite Hp. by apply IH.
Qed.

Lemma mulReady_positive ps d : Forall leg_ok ps -> positive d -> positive (foldl mulReady d ps).
Proof.
  intros Hps. revert d. induction Hps as [|p ps [_ Hp] _ IH]; intros d Hd; simpl; [done|].
  apply IH. unfold mulReady. destruct (lp_Ready p); [apply positive_Mul; auto|done].
Qed.

Lemma product_positive ps d : Forall leg_ok ps -> positive d ->
  positive (foldl Mul d (map lp_Spot ps)).
Proof.
  intros Hps. revert d. induction Hps as [|p ps [Hp _] _ IH]; intros d Hd; simpl; [done|].
  by apply IH, positive_Mul.
Qed.

Lemma priceLegs_ok legs window b acc o :
  okM (priceLegs legs window b acc) o (fun es r o' => (oracle_ok o -> oracle_ok o')
    /\ forall x, r = inl x -> exists ps, priced window b legs o es ps o'
         /\ x = (foldl Mul (fst (fst acc)) (map lp_Spot ps), foldl mulReady (snd (fst acc)) ps,
                 snd acc && forallb lp_Ready ps)).
Proof.
  revert acc o. induction legs as [|leg rest IH]; intros [[spot twap] allReady] o; cbn [priceLegs].
  { apply okM_ret. split; [done|]. intros x [= <-]. exists []. split; [constructor|].
    simpl. by rewrite andb_true_r. }
  eapply (okM_bind _ _ _ (fun es r o' => (oracle_ok o -> oracle_ok o')
    /\ forall p, r = inl p -> leg_read leg window b o es p o')).
  - eapply okM_wrap; [apply readLeg_ok|]. intros es r o' [Ho' Hr]. split; [done|].
    intros p. destruct r as [p'|]; simpl; intros [= <-]. by apply Hr.
  - intros es p o' [Ho' Hp]. specialize (Hp p eq_refl).
    eapply okM_mono; [apply IH|]. intros es' r o'' [Ho'' Hr]. split; [auto|].
    intros x Hx. destruct (Hr x Hx) as (ps & Hps & ->). exists (p :: ps).
    split; [by econstructor|]. simpl. unfold mulReady at 3. by rewrite andb_assoc.
  - intros es e o' [? _]. by split.
Qed.

Lemma choosePrice_ok ref spot twap allReady : positive spot -> positive twap ->
  match choosePrice ref spot twap allReady with
  | Ret (price, confidence) =>
      (allReady = true /\ price = twap /\ confidence = "high"
       /\ (0 < MaxSpotTWAPDeviationBPS ref ->
           (Qabs (rat spot - rat twap) * 10000
              <= inject_Z (MaxSpotTWAPDeviationBPS ref) * rat twap)%Q))
      \/ (allReady = false /\ price = spot /\ confidence = "warming_up"
          /\ AllowSpotDuringWarmup ref = true)
  | Err _ => True
  | Panic _ => False
  end.
Proof.
  intros Hs Ht. unfold choosePrice. destruct allReady; simpl negb; cbv iota.
  2:{ destruct (AllowSpotDuringWarmup ref); [by right|done]. }
  destruct (0 <? MaxSpotTWAPDeviationBPS ref) eqn:Em.
  2:{ left. split_and!; [done..|]. apply Z.ltb_ge in Em. lia. }
  unfold positive in Ht. rewrite Div_Ret by lra. cbn [mbind go_bind].
  destruct (0 <? Cmp _ _) eqn:Ec; [done|]. apply Z.ltb_ge, Cmp_le in Ec.
  left. split_and!; [done..|]. intros _.
  rewrite rat_Mul, rat_FromRat, rat_Abs, rat_Sub, rat_TenThousand, rat_FromInt64 in Ec.
  set (x := Qabs (rat spot - rat twap)) in *. clearbody x.
  set (mx := inject_Z _) in *. clearbody mx. set (t := rat twap) in *. clearbody t.
  assert (E : (x * 10000 == x / t * 10000 * t)%Q) by (field; lra).
  rewrite E. apply Qmult_le_compat_r; [done|lra].
Qed.

Lemma in_cons_now (now : Time) es es' : MkEvent Now now ∈ es' -> MkEvent Now now ∈ es ++ es'.
Proof. intros. apply elem_of_app. by right. Qed.

(** Where a price comes from: the legs of the instrument, each priced at the latest block
    the oracle knows.  The spot price is the product of the spot prices of the legs, and
    the price of a reference whose legs are all ready is the product of their averages. *)
Definition priced_legs (i : InstrumentConfig) (o : Oracle) (es : trace) (p : ReferencePrice)
    (o' : Oracle) : Prop :=
  exists b es0 o1 es1 es2 ps,
    es = es0 ++ es1 ++ es2 /\ yields (onRPC LatestBlock o) es0 (Ret (inl b, o1))
    /\ extends o o1
    /\ priced (TWAPWindowSeconds (Reference i)) b (Legs (Reference i)) o1 es1 ps o'
    /\ ref_Spot p = product (map lp_Spot ps)
    /\ ref_TWAPReady p = forallb lp_Ready ps
    /\ (ref_TWAPReady p = true -> ref_Price p = product (map lp_TWAP ps))
    /\ ref_BlockNumber p = Number b /\ ref_BlockTime p = wrap64 (Timestamp b) * Second.

(** What a returned reference price promises, given the events of the call. *)
Definition good_reference (i : InstrumentConfig) (o : Oracle) (es : trace) (p : ReferencePrice)
    (o' : Oracle) : Prop :=
  ref_InstrumentID p = ID i /\ positive (ref_Price p) /\ positive (ref_Spot p)
  /\ priced_legs i o es p o'
  /\ ((ref_TWAPReady p = true /\ ref_Confidence p = "high"
        /\ (0 < MaxSpotTWAPDeviationBPS (Reference i) ->
            (Qabs (rat (ref_Spot p) - rat (ref_Price p)) * 10000
              <= inject_Z (MaxSpotTWAPDeviationBPS (Reference i)) * rat (ref_Price p))%Q))
      \/ (ref_TWAPReady p = false /\ ref_Confidence p = "warming_up"
          /\ ref_Price p = ref_Spot p /\ AllowSpotDuringWarmup (Reference i) = true))
  /\ (exists now : Time, MkEvent Now now ∈ es /\ ref_BlockTime p <= now + 15 * Second)
  /\ (0 < StaleAfterSeconds (Reference i) -> exists now : Time, MkEvent Now now ∈ es
        /\ TimeSub now (ref_BlockTime p) <= (StaleAfterSeconds (Reference i) *i Second)%go)
  /\ (exists now : Time, MkEvent Now now ∈ es /\ now < ref_ValidUntil p).

(** The checks of the block time and the validity of the answer. *)
Lemma finish_ok i price spot allReady confidence n (blockTime : Time) (o : Oracle)
    (Q : trace -> reply ReferencePrice -> Oracle -> Prop) :
  (forall es e, Q es (inr e) o) ->
  (forall es p, ref_InstrumentID p = ID i -> ref_Price p = price -> ref_Spot p = spot ->
     ref_TWAPReady p = allReady -> ref_Confidence p = confidence -> ref_BlockNumber p = n -> ref_BlockTime p = blockTime ->
     (exists now : Time, MkEvent Now now ∈ es /\ blockTime <= now + 15 * Second) ->
     (0 < StaleAfterSeconds (Reference i) -> exists now : Time, MkEvent Now now ∈ es
        /\ TimeSub now blockTime <= (StaleAfterSeconds (Reference i) *i Second)%go) ->
     (exists now : Time, MkEvent Now now ∈ es /\ now < ref_ValidUntil p) -> Q es (inl p) o) ->
  okM (now ← actM Now;
    if After blockTime (now + 15 * Second)
    then failM (Errorf ("chain block timestamp is in the future: " +:+ time_text blockTime)) else
    let maxAge := (StaleAfterSeconds (Reference i) *i Second)%go in
    stale ← (if 0 <? StaleAfterSeconds (Reference i)
             then now ← actM Now; mret (maxAge <? TimeSub now blockTime) else mret false);
    if stale : bool then failM (Errorf ("chain block is stale: " +:+ time_text blockTime)) else
    let validFor := if maxAge <=? 0 then 15 * Second else maxAge in
    now ← actM Now;
    mret (MkReferencePrice (ID i) price spot allReady confidence n blockTime (now + validFor))) o Q.
Proof.
  intros He Hp. apply okM_act. intros now1. destruct (After _ _) eqn:Ea; [by apply okM_lift|].
  unfold After in Ea. apply Z.ltb_ge in Ea. cbv zeta.
  set (maxAge := (StaleAfterSeconds (Reference i) *i Second)%go).
  assert (Hend : forall es (Hes : 0 < StaleAfterSeconds (Reference i) -> exists now : Time,
        MkEvent Now now ∈ es /\ TimeSub now blockTime <= maxAge),
    okM (now ← actM Now; mret (MkReferencePrice (ID i) price spot allReady confidence n blockTime
      (now + (if maxAge <=? 0 then 15 * Second else maxAge)))) o
      (fun es' r s' => Q (MkEvent Now now1 :: es ++ es') r s')).
  { intros es Hes. apply okM_act. intros now3. apply okM_ret. apply Hp; try done.
    - exists now1. split; [left|done].
    - intros Hst. destruct (Hes Hst) as (now2 & Hin & Hle). exists now2. split; [|done].
      right. apply elem_of_app. by left.
    - exists now3. split; [right; apply elem_of_app; right; left|]. simpl.
      destruct (maxAge <=? 0) eqn:Em; [unfold Second; lia|]. apply Z.leb_gt in Em. lia. }
  destruct (0 <? StaleAfterSeconds (Reference i)) eqn:Es.
  - eapply (okM_bind _ _ _ (fun es r s' => s' = o /\ exists now2 : Time, es = [MkEvent Now now2]
      /\ r = inl (maxAge <? TimeSub now2 blockTime))).
    + apply okM_act. intros now2. apply okM_ret. split; [done|]. by exists now2.
    + intros es stale s' (-> & now2 & -> & [= ->]). destruct (maxAge <? _) eqn:El; [by apply okM_lift|].
      apply Z.ltb_ge in El. eapply okM_mono; [apply (Hend [MkEvent Now now2])|done].
      intros _. exists now2. split; [left|done].
    + intros es e s' (_ & now2 & _ & ?). done.
  - eapply (okM_bind _ _ _ (fun es r s' => s' = o /\ es = [] /\ r = inl false)).
    + by apply okM_ret.
    + intros es stale s' (-> & -> & [= ->]). eapply okM_mono; [apply (Hend [])|done].
      apply Z.ltb_ge in Es. lia.
    + intros es e s' (_ & _ & ?). done.
Qed.

Lemma Price_ok i o : oracle_ok o ->
  okM (Price i) o (fun es r o' => oracle_ok o' /\ forall p, r = inl p -> good_reference i o es p o').
Proof.
  intros Ho. unfold Price. cbv zeta. destruct (negb _); [by apply okM_lift|].
  eapply okM_bind; [apply okM_yields, keeps_onRPC, total_LatestBlock|..].
  2:{ simpl. intros es e o' [_ E%keeps_extends]. split; [by eapply extends_ok|done]. }
  simpl. intros es0 b o1 [Hy E%keeps_extends]. pose proof (extends_ok _ _ E Ho) as Ho1.
  eapply okM_bind; [apply priceLegs_ok|..].
  2:{ simpl. intros es e o' [? _]. split; [auto|done]. }
  cbn [fst snd]. intros es1 x o2 [Ho2%(fun f => f Ho1) Hx].
  destruct (Hx _ eq_refl) as (ps & Hps & ->). rewrite andb_true_l.
  pose proof (priced_positive _ _ _ _ _ _ _ Ho1 Hps) as Hall.
  assert (H1 : positive One) by (unfold positive; by rewrite rat_One).
  pose proof (product_positive ps One Hall H1) as Hs. pose proof (mulReady_positive ps One Hall H1) as Ht.
  pose proof (choosePrice_ok (Reference i) _ _ (forallb lp_Ready ps) Hs Ht) as Hc.
  destruct (choosePrice _ _ _ _) as [[price confidence]|e|m]; [|by apply okM_lift|done].
  eapply (okM_bind _ _ _ (fun es r s' => s' = o2 /\ es = [] /\ r = inl (price, confidence)));
    [by apply ok_done| |by intros es e s' (_ & _ & ?)].
  intros es2 x o3 (-> & -> & [= ->]). apply finish_ok.
  - intros es e. by split.
  - intros es p Hid Hp Hsp Hr Hcf Hn Hbt Hb1 Hb2 Hb3. split; [done|]. intros p' [= <-].
    unfold good_reference, priced_legs. rewrite Hid, Hp, Hsp, Hr, Hcf, Hn, Hbt.
    assert (Happ : forall es' (P : Time -> Prop), (exists now : Time, MkEvent Now now ∈ es' /\ P now) ->
      exists now : Time, MkEvent Now now ∈ es0 ++ es1 ++ [] ++ es' /\ P now).
    { intros es' P (now & Hin & HP). exists now. split; [|done]. by do 3 apply in_cons_now. }
    split_and!; [done| |done| | |by apply Happ|intros Hst; by apply Happ, Hb2|by apply Happ].
    + by destruct Hc as [(_ & -> & _)|(_ & -> & _)].
    + exists b, es0, o1, es1, ([] ++ es), ps. split_and!; try done.
      intros Hrd. destruct Hc as [(_ & -> & _)|(Hf & _)]; [by apply mulReady_all|congruence].
    + destruct Hc as [(-> & -> & -> & Hd)|(-> & -> & -> & Hd)]; [by left|by right].
Qed.
End Positive.

(** ** The time-weighted average

    A pair publishes, for each token, the sum over its past of the floor of the
    price (scaled by 2^112) times the seconds it held, up to its last update; the
    [history] of a window lists the reserves it held, with durations. *)
Record segment := MkSegment { sg_r0 : Z; sg_r1 : Z; sg_secs : Z }.
Abbreviation history := (list segment) (only parsing).

Definition swap (sg : segment) : segment := MkSegment (sg_r1 sg) (sg_r0 sg) (sg_secs sg).
Definition floor_price (sg : segment) : Z := Z.quot (Z.shiftl (sg_r1 sg) 112) (sg_r0 sg).
Definition accrued (h : history) : Z := foldr (fun sg acc => floor_price sg * sg_secs sg + acc) 0 h.
Definition total_secs (h : history) : Z := foldr (fun sg acc => sg_secs sg + acc) 0 h.
(** Reserves fit the 112 bits of the contract. *)
Definition valid_segment (sg : segment) : Prop :=
  0 < sg_r0 sg < 2 ^ 112 /\ 0 < sg_r1 sg < 2 ^ 112 /\ 0 < sg_secs sg.
Definition spot_of (sg : segment) : Q := sg_r1 sg # Z.to_pos (sg_r0 sg).

Lemma valid_swap sg : valid_segment sg -> valid_segment (swap sg).
Proof. unfold valid_segment. simpl. tauto. Qed.

Lemma floor_price_bounds sg : valid_segment sg ->
  1 <= floor_price sg
  /\ (inject_Z (floor_price sg) <= spot_of sg * inject_Z q112)%Q
  /\ (spot_of sg * inject_Z q112 - 1 <= inject_Z (floor_price sg))%Q.
Proof.
  intros (H0 & H1 & _). unfold floor_price, spot_of.
  rewrite Z.shiftl_mul_pow2 by lia. rewrite Z.quot_div_nonneg by lia.
  fold q112. set (n := sg_r1 sg * q112).
  pose proof (Z.div_mod n (sg_r0 sg) ltac:(lia)) as Hdm.
  pose proof (Z.mod_pos_bound n (sg_r0 sg) ltac:(lia)) as Hmod.
  split_and!.
  - apply Z.div_le_lower_bound; [lia|]. unfold n, q112 in *. nia.
  - unfold Qle, Qmult, inject_Z. simpl. rewrite Pos.mul_1_r, Z2Pos.id by lia. fold n. nia.
  - unfold Qle, Qminus, Qplus, Qopp, Qmult, inject_Z. simpl.
    rewrite !Pos.mul_1_r, Z2Pos.id by lia. fold n. nia.
Qed.

Lemma inject_pos z : 0 < z -> (0 < inject_Z z)%Q.
Proof. change 0%Q with (inject_Z 0). by rewrite <- Zlt_Qlt. Qed.

(** The average of a history whose prices lie between [lo] and [hi]. *)
Lemma accrued_bounds h lo hi :
  Forall valid_segment h -> (forall sg, sg ∈ h -> (lo <= spot_of sg <= hi)%Q) ->
  ((lo * inject_Z q112 - 1) * inject_Z (total_secs h) <= inject_Z (accrued h))%Q
  /\ (inject_Z (accrued h) <= hi * inject_Z q112 * inject_Z (total_secs h))%Q.
Proof.
  induction h as [|sg h IH]; intros Hv Hb; simpl.
  { change (inject_Z 0) with 0%Q. split; lra. }
  apply Forall_cons in Hv as [Hsg Hv]. destruct IH as [IH1 IH2]; [done|intros; apply Hb; by right|].
  destruct (Hb sg ltac:(left)) as [Hlo Hhi].
  destruct (floor_price_bounds sg Hsg) as (_ & F1 & F2). destruct Hsg as (_ & _ & Hs).
  rewrite !inject_Z_plus, inject_Z_mult.
  assert (Hq : (0 < inject_Z q112)%Q) by (by apply inject_pos).
  assert (Hs' : (0 < inject_Z (sg_secs sg))%Q) by (by apply inject_pos).
  assert (A1 : (lo * inject_Z q112 <= spot_of sg * inject_Z q112)%Q) by (apply Qmult_le_compat_r; lra).
  assert (A2 : (spot_of sg * inject_Z q112 <= hi * inject_Z q112)%Q) by (apply Qmult_le_compat_r; lra).
  set (P := inject_Z (floor_price sg)) in *. set (S := inject_Z (sg_secs sg)) in *.
  set (L := (lo * inject_Z q112)%Q) in *. set (U := (hi * inject_Z q112)%Q) in *.
  set (T := inject_Z (total_secs h)) in *. set (A := inject_Z (accrued h)) in *.
  set (M' := (spot_of sg * inject_Z q112)%Q) in *. clearbody P S L U T A M'.
  assert (B1 : ((L - 1) * S <= P * S)%Q) by (apply Qmult_le_compat_r; lra).
  assert (B2 : (P * S <= U * S)%Q) by (apply Qmult_le_compat_r; lra).
  split; lra.
Qed.

Lemma accrued_pos h : Forall valid_segment h -> h <> [] -> 0 < accrued h.
Proof.
  induction h as [|sg h IH]; intros Hv Hne; [done|]. apply Forall_cons in Hv as [Hsg Hv]. simpl.
  destruct (floor_price_bounds sg Hsg) as (F & _). destruct Hsg as (_ & _ & Hs).
  destruct h as [|sg' h']; [simpl; nia|]. specialize (IH Hv ltac:(done)). nia.
Qed.

Lemma accrued_swap_pos h : Forall valid_segment h -> h <> [] -> 0 < accrued (map swap h).
Proof.
  intros Hv Hne. apply accrued_pos; [|by destruct h]. apply Forall_fmap.
  eapply Forall_impl; [exact Hv|]. apply valid_swap.
Qed.

Lemma total_secs_swap h : total_secs (map swap h) = total_secs h.
Proof. induction h as [|sg h IH]; simpl; [done|]. by rewrite IH. Qed.

Lemma average_bounds h lo hi adj :
  Forall valid_segment h -> h <> [] -> 0 < total_secs h -> (0 < adj)%Q ->
  (forall sg, sg ∈ h -> (lo <= spot_of sg <= hi)%Q) ->
  (adj * (lo - (1 # Z.to_pos q112))
     <= (accrued h # Z.to_pos (total_secs h * q112)) * adj <= adj * hi)%Q.
Proof.
  intros Hv Hne Ht Hadj Hb. destruct (accrued_bounds h lo hi Hv Hb) as [B1 B2].
  set (T := inject_Z (total_secs h)) in *. set (Qq := inject_Z q112) in *.
  assert (HT : (0 < T)%Q) by (by apply inject_pos).
  assert (HQ : (0 < Qq)%Q) by (by apply inject_pos).
  assert (Eavg : (accrued h # Z.to_pos (total_secs h * q112) == inject_Z (accrued h) / (T * Qq))%Q).
  { rewrite Qmake_Qdiv. unfold T, Qq. rewrite <- inject_Z_mult. by rewrite Z2Pos.id by (unfold q112; nia). }
  assert (Eone : (1 # Z.to_pos q112 == 1 / Qq)%Q) by (rewrite Qmake_Qdiv; done).
  rewrite Eavg, Eone. set (A := inject_Z (accrued h)) in *. clearbody T Qq A.
  assert (HTQ : (0 < T * Qq)%Q) by (by apply Qmult_lt_0_compat).
  split.
  - rewrite (Qmult_comm _ adj). apply Qmult_le_l; [done|]. apply Qle_shift_div_l; [done|].
    assert (E1 : ((lo - 1 / Qq) * (T * Qq) == (lo * Qq - 1) * T)%Q) by (field; lra).
    rewrite E1. exact B1.
  - rewrite (Qmult_comm _ adj). apply Qmult_le_l; [done|]. apply Qle_shift_div_r; [done|].
    assert (E1 : (hi * (T * Qq) == hi * Qq * T)%Q) by ring. rewrite E1. exact B2.
Qed.

(** The words of a pair agree with a history since the snapshot [prev]: the current
    reserves have been there since [updated], a moment less than 2^32 seconds ago
    whose low 32 bits the pair publishes, and the accumulators at that moment plus
    what accrued since are those of the snapshot plus the accruals of the history. *)
Record pair_history (words : list (list Z)) (now : Z) (prev : cumulativeSnapshot) (h : history)
    (updated : Z) : Prop := {
  ph_length : (96 <= length (nth 0 words []))%nat;
  ph_valid : Forall valid_segment h;
  ph_window : total_secs h = now - UnixTime prev;
  ph_reserves : 0 < wordInt (nth 0 words []) 0 /\ 0 < wordInt (nth 0 words []) 1;
  ph_updated : 0 <= now - updated < 2 ^ 32;
  ph_stamp : wordInt (nth 0 words []) 2 = wrapU32 updated;
  ph_cum0 : wordInt (nth 1 words []) 0
      + floor_price (MkSegment (wordInt (nth 0 words []) 0) (wordInt (nth 0 words []) 1) 0)
        * (now - updated) = Price0 prev + accrued h;
  ph_cum1 : wordInt (nth 2 words []) 0
      + floor_price (MkSegment (wordInt (nth 0 words []) 1) (wordInt (nth 0 words []) 0) 0)
        * (now - updated) = Price1 prev + accrued (map swap h)
}.

Lemma wrapU32_sub a b : 0 <= a - b < 2 ^ 32 -> wrapU32 (wrapU32 a - wrapU32 (wrapU64 (wrapU32 b))) = a - b.
Proof.
  intros Hab. unfold wrapU32, wrapU64.
  rewrite (Z.mod_small (b mod 2 ^ 32) (2 ^ 64)) by (pose proof (Z.mod_pos_bound b (2 ^ 32)); lia).
  rewrite Z.mod_mod by lia. rewrite <- Zminus_mod. by apply Z.mod_small.
Qed.

(** The counterfactual accumulators [readPair] computes are those of the history. *)
Lemma pairStateOf_history m words b prev h updated : pair_history words (Timestamp b) prev h updated ->
  exists s, pairStateOf m words b = inl s /\ meta s = m /\ block s = b
  /\ currentCumulative0 s = Price0 prev + accrued h
  /\ currentCumulative1 s = Price1 prev + accrued (map swap h).
Proof.
  intros [Hl _ _ [Hr0 Hr1] Hu Hst Hc0 Hc1]. unfold pairStateOf.
  rewrite (proj2 (Nat.ltb_ge _ _)) by done. cbv zeta. rewrite Hst, wrapU32_sub by done.
  rewrite (proj2 (Z.ltb_lt 0 (wordInt (nth 0 words []) 0))), (proj2 (Z.ltb_lt 0 (wordInt (nth 0 words []) 1))), !andb_true_r by done.
  eexists. split; [reflexivity|]. cbn [meta block currentCumulative0 currentCumulative1].
  rewrite <- Hc0, <- Hc1. unfold floor_price. cbn [sg_r0 sg_r1].
  destruct (0 <? Timestamp b - updated) eqn:E; [by split_and!|].
  apply Z.ltb_ge in E. assert (Timestamp b - updated = 0) as -> by lia. by rewrite !Z.mul_0_r, !Z.add_0_r.
Qed.

(** The time-weighted price.  When the window has passed since the last snapshot,
    the oracle stores a ready snapshot whose average of the first token is the
    average over the elapsed seconds of the pair's (truncated) prices: it lies
    between the lowest and the highest spot price of the window, up to 2^-112
    before the adjustment for decimals; the 32-bit update time of the pair may
    have wrapped around. *)
Theorem twap_between_window_prices m words b prev h updated isBase0 window spot lo hi :
  pair_history words (Timestamp b) prev h updated ->
  0 < Timestamp b - UnixTime prev -> wrapU64 window <= Timestamp b - UnixTime prev ->
  (forall sg, sg ∈ h -> (lo <= spot_of sg <= hi)%Q) ->
  exists s twap0 twap1, pairStateOf m words b = inl s
  /\ updateSnapshot isBase0 window spot s (Some prev) =
       (inl (MkLegPrice spot (if isBase0 then twap0 else twap1) true),
        Some (MkSnapshot (Price0 prev + accrued h) (Price1 prev + accrued (map swap h)) (Timestamp b)
                twap0 twap1 true))
  /\ (rat twap0 == (accrued h # Z.to_pos (total_secs h * q112))
                    * decimalAdjustment (Decimals0 m) (Decimals1 m))%Q
  /\ (decimalAdjustment (Decimals0 m) (Decimals1 m) * (lo - (1 # Z.to_pos q112)) <= rat twap0
      <= decimalAdjustment (Decimals0 m) (Decimals1 m) * hi)%Q.
Proof.
  intros Hh Hpos Hwin Hb. destruct (pairStateOf_history m words b prev h updated Hh)
    as (s & Hs & Hm & Hbl & Hc0 & Hc1).
  destruct Hh as [_ Hv Ht _ _ _ _ _].
  assert (Hne : h <> []) by (intros ->; simpl in Ht; lia).
  pose proof (accrued_pos h Hv Hne) as Ha0. pose proof (accrued_swap_pos h Hv Hne) as Ha1.
  exists s. unfold updateSnapshot. rewrite Hbl, Hm, Hc0, Hc1.
  rewrite (proj2 (Z.leb_gt _ _)) by lia. rewrite (proj2 (Z.ltb_ge _ _)) by done. cbv zeta.
  replace (Price0 prev + accrued h - Price0 prev) with (accrued h) by lia.
  replace (Price1 prev + accrued (map swap h) - Price1 prev) with (accrued (map swap h)) by lia.
  rewrite (proj2 (Z.leb_gt (accrued h) 0)), (proj2 (Z.leb_gt (accrued (map swap h)) 0)) by done.
  do 2 eexists. split; [done|]. split; [reflexivity|]. rewrite rat_FromRat, <- Ht.
  split; [reflexivity|].
  apply average_bounds; [done|done|lia|apply decimalAdjustment_pos|done].
Qed.

(** Reading a pair again at the block of its snapshot throws the average away: until a
    whole new window has passed the pair is reported as warming up. *)
Lemma same_block_discards_average isBase0 window spot s prev :
  UnixTime prev = Timestamp (block s) ->
  exists next, updateSnapshot isBase0 window spot s (Some prev)
    = (inl (MkLegPrice spot Zero false), Some next)
  /\ Ready next = false
  /\ forall isBase0' spot' s', Timestamp (block s) < Timestamp (block s') ->
       Timestamp (block s') - Timestamp (block s) < wrapU64 window ->
       updateSnapshot isBase0' window spot' s' (Some next) = (inl (MkLegPrice spot' Zero false), None).
Proof.
  intros E. unfold updateSnapshot at 1. rewrite E, Z.leb_refl. cbv zeta. eexists.
  split; [reflexivity|]. split; [done|]. intros isBase0' spot' s' H1 H2.
  unfold updateSnapshot. cbn [UnixTime Ready]. rewrite (proj2 (Z.leb_gt _ _)) by done.
  by rewrite (proj2 (Z.ltb_lt _ _)).
Qed.


(** ** Witnesses *)

#[local] Instance ex_urls : HttpRequests := fun _ => None.

(** Nodes that answer every request for a text with the same one. *)
Definition ex_node (answer : Json) : Env := fun past a =>
  match a with
  | Now => 1000 * Second
  | HttpPost _ _ => inl (MkHttpResponse 200 "" (Some (JObj [("id", JNum 1); ("result", answer)])))
  | a => offline a
  end.

Definition ex_oracle_client : RPCClient := NewRPCClient ["https://a"; "https://b"].

Example chain_id_ex :
  snd (run (ex_node (JStr "0x38")) [] (ChainID ex_oracle_client))
  = Ret (inl 56, MkRPCClient ["https://a"; "https://b"] 1 (MkBlock 0 0 "") zero_time).
Proof. vm_compute. reflexivity. Qed.

(** A node at block 5 (second 1000) whose pair has held reserves of 1000 and 2000 since
    second 900, and an oracle that read the accumulators of the pair at second 600. *)
Definition ex_batch : list (list Z) :=
  [be_bytes 32 1000 ++ be_bytes 32 2000 ++ be_bytes 32 900;
   be_bytes 32 (300 * (2 * q112)); be_bytes 32 (300 * (q112 / 2))].

Definition ex_chain : Env := fun past a =>
  match a with
  | Now => 1000 * Second
  | HttpPost _ (JArr _) => inl (MkHttpResponse 200 "" (Some (JArr (imap (fun k word =>
      JObj [("id", JNum (Z.of_nat k + 2)); ("result", JStr ("0x" +:+ hex_encode word))]) ex_batch))))
  | HttpPost _ _ => inl (MkHttpResponse 200 "" (Some (JObj [("id", JNum 1);
      ("result", JObj [("number", JStr "0x5"); ("timestamp", JStr "0x3e8")])])))
  | a => offline a
  end.

Definition ex_seen : Oracle :=
  MkOracle ex_oracle_client
    {[ex_address "1" := MkPairMetadata (ex_address "a") (ex_address "b") 18 18 (ex_address "f")]}
    {[ex_address "1" := MkSnapshot 0 0 600 Zero Zero false]}.

Lemma ex_seen_ok : oracle_ok ex_seen.
Proof.
  intros k s. unfold ex_seen. cbn [snapshots metadata].
  intros [<- <-]%lookup_singleton_Some. eexists. split; [apply lookup_singleton_eq|done].
Qed.

Definition ex_priced : trace * go (reply ReferencePrice * Oracle) :=
  run ex_chain [] (Price (ex_instrument ex_strategy) ex_seen).
Definition ex_reply : reply ReferencePrice * Oracle :=
  match snd ex_priced with Ret x => x | _ => (inr (Errorf ""), ex_seen) end.


Definition ex_words : list (list Z) :=
  [be_bytes 32 10 ++ be_bytes 32 20 ++ be_bytes 32 900; be_bytes 32 7; be_bytes 32 8].
Definition ex_prev : cumulativeSnapshot := MkSnapshot 7 8 900 Zero Zero false.
Definition ex_history : history := [MkSegment 10 20 100].

Lemma ex_pair_history : pair_history ex_words 1000 ex_prev ex_history 900.
Proof.
  constructor.
  - by apply Nat.leb_le.
  - constructor; [|constructor]. by split_and!.
  - done.
  - by split.
  - by split.
  - by vm_compute.
  - by vm_compute.
  - by vm_compute.
Qed.

Lemma twap_between_window_prices_witness :
  exists s twap0 twap1,
    pairStateOf (MkPairMetadata "0x" "0x" 18 18 "0x") ex_words (MkBlock 5 1000 "0x5") = inl s
  /\ updateSnapshot true 60 One s (Some ex_prev) =
       (inl (MkLegPrice One (if true then twap0 else twap1) true),
        Some (MkSnapshot (Price0 ex_prev + accrued ex_history)
                (Price1 ex_prev + accrued (map swap ex_history)) 1000 twap0 twap1 true))
  /\ (rat twap0 == (accrued ex_history # Z.to_pos (total_secs ex_history * q112))
                   * decimalAdjustment 18 18)%Q
  /\ (decimalAdjustment 18 18 * (2 - (1 # Z.to_pos q112)) <= rat twap0
      <= decimalAdjustment 18 18 * 2)%Q.
Proof.
  apply (twap_between_window_prices (MkPairMetadata "0x" "0x" 18 18 "0x") ex_words
    (MkBlock 5 1000 "0x5") ex_prev ex_history 900 true 60 One 2 2 ex_pair_history);
    [reflexivity|vm_compute; discriminate|].
  intros sg Hsg. apply list_elem_of_singleton in Hsg as ->. split; vm_compute; discriminate.
Defined.
