(* ===== verification/Configdiff.v ===== *)
(** The plan of a configuration change (src/internal/configdiff/plan.go): what changed,
    which markets must be cancelled first, and whether the running engine can apply
    the change in place.

    Sections are compared by their JSON encodings, as the source does; nil and
    empty slices are not told apart.  The reasons are the source's own texts. *)
From S2P Require Import Prelude Decimal DecimalText Domain Config Json.

Open Scope string_scope.
Open Scope list_scope.
Open Scope Z_scope.

(** ** JSON encodings of the configuration *)

#[export] Instance marshal_rpc : Marshal RPCConfig := fun c =>
  JObj [("urls", marshal (URLs c)); ("chain_id", marshal (ChainID c));
        ("request_timeout_ms", marshal (RequestTimeoutMS c))].

#[export] Instance marshal_asset : Marshal AssetConfig := fun a =>
  JObj ([("symbol", marshal (asset_Symbol a))]
    ++ omit_if (String.eqb (asset_Address a) "") "address" (marshal (asset_Address a))
    ++ [("decimals", marshal (asset_Decimals a))]).

#[export] Instance marshal_leg : Marshal PairLegConfig := fun l =>
  JObj ([("pair_address", marshal (PairAddress l))]
    ++ omit_if (String.eqb (ExpectedFactory l) "") "expected_factory" (marshal (ExpectedFactory l))
    ++ [("base_token", marshal (BaseToken l)); ("quote_token", marshal (QuoteToken l));
        ("min_quote_reserve", marshal (MinQuoteReserve l));
        ("max_idle_seconds", marshal (MaxIdleSeconds l))]).

#[export] Instance marshal_reference : Marshal ReferenceConfig := fun r =>
  JObj [("type", marshal (refcfg_Type r)); ("legs", marshal (Legs r));
        ("twap_window_seconds", marshal (TWAPWindowSeconds r));
        ("max_spot_twap_deviation_bps", marshal (MaxSpotTWAPDeviationBPS r));
        ("stale_after_seconds", marshal (StaleAfterSeconds r));
        ("allow_spot_during_warmup", marshal (AllowSpotDuringWarmup r))].

(** An integer field with [omitempty]. *)
Definition omit_zero (name : string) (n : Z) : list (string * Json) := omit_if (n =? 0) name (JNum n).

#[export] Instance marshal_strategy : Marshal StrategyConfig := fun s =>
  JObj ([("half_spread_bps", marshal (HalfSpreadBPS s));
         ("level_spacing_bps", marshal (LevelSpacingBPS s)); ("levels", marshal (Levels s));
         ("order_size", marshal (OrderSize s)); ("min_order_notional", marshal (MinOrderNotional s));
         ("max_order_notional", marshal (MaxOrderNotional s));
         ("reprice_threshold_bps", marshal (RepriceThresholdBPS s));
         ("balance_reserve_bps", marshal (BalanceReserveBPS s));
         ("max_venue_reference_deviation_bps", marshal (MaxVenueReferenceDeviationBPS s));
         ("max_venue_spread_bps", marshal (MaxVenueSpreadBPS s));
         ("target_base", marshal (TargetBase s));
         ("max_base_deviation", marshal (MaxBaseDeviation s));
         ("inventory_skew_bps", marshal (InventorySkewBPS s))]
    ++ omit_zero "quote_refresh_seconds" (QuoteRefreshSeconds s)
    ++ omit_zero "quote_refresh_ratio_bps" (QuoteRefreshRatioBPS s)
    ++ omit_zero "min_order_lifetime_seconds" (MinOrderLifetimeSeconds s)
    ++ omit_zero "max_order_lifetime_seconds" (MaxOrderLifetimeSeconds s)
    ++ omit_zero "fill_replenish_min_delay_seconds" (FillReplenishMinDelaySeconds s)
    ++ omit_zero "fill_replenish_max_delay_seconds" (FillReplenishMaxDelaySeconds s)
    ++ omit_zero "price_jitter_ticks" (PriceJitterTicks s)
    ++ omit_zero "best_levels" (BestLevels s)
    ++ omit_zero "best_level_refresh_seconds" (BestLevelRefreshSeconds s)).

#[export] Instance marshal_simulation : Marshal TradeSimulationConfig := fun t =>
  JObj [("enabled", marshal (sim_Enabled t)); ("source_venue", marshal (SourceVenue t));
        ("min_quantity", marshal (sim_MinQuantity t)); ("max_quantity", marshal (sim_MaxQuantity t));
        ("min_interval_ms", marshal (MinIntervalMS t)); ("max_interval_ms", marshal (MaxIntervalMS t));
        ("buy_probability_bps", marshal (BuyProbabilityBPS t));
        ("recent_limit", marshal (RecentLimit t))].

#[export] Instance marshal_market : Marshal VenueMarketConfig := fun m =>
  JObj ([("symbol", marshal (market_Symbol m)); ("base_asset", marshal (market_BaseAsset m));
         ("quote_asset", marshal (market_QuoteAsset m)); ("price_tick", marshal (PriceTick m));
         ("quantity_step", marshal (QuantityStep m)); ("min_notional", marshal (MinNotional m));
         ("min_quantity", marshal (MinQuantity m)); ("max_quantity", marshal (MaxQuantity m));
         ("max_notional", marshal (MaxNotional m)); ("min_price", marshal (MinPrice m));
         ("max_price", marshal (MaxPrice m))]
    ++ omit_zero "max_open_orders" (MaxOpenOrders m)
    ++ [("max_base_commitment", marshal (MaxBaseCommitment m));
        ("max_quote_commitment", marshal (MaxQuoteCommitment m))]
    ++ omit_zero "credential_id" (CredentialID m)).

Definition equalJSON {A} `{Marshal A} (a b : A) : bool := json_eqb (marshal a) (marshal b).

(** ** Plans *)

Record MarketTarget := MkMarketTarget {
  tg_InstrumentID : string;
  tg_Venue : string;
  tg_Symbol : string;
  Reason : string
}.

Record InstrumentChange := MkInstrumentChange {
  ch_InstrumentID : string;
  Action : string;
  Reasons : list string
}.

Record Plan := MkPlan {
  FirstPublish : bool;
  CancelAll : bool;
  Structural : bool;
  HotChanges : list string;
  InstrumentChanges : list InstrumentChange;
  CancelTargets : list MarketTarget;
  AffectedInstruments : Z;
  UnchangedInstruments : Z
}.

Definition set_CancelAll (p : Plan) : Plan :=
  MkPlan (FirstPublish p) true (Structural p) (HotChanges p) (InstrumentChanges p)
    (CancelTargets p) (AffectedInstruments p) (UnchangedInstruments p).
Definition set_Structural (p : Plan) : Plan :=
  MkPlan (FirstPublish p) (CancelAll p) true (HotChanges p) (InstrumentChanges p)
    (CancelTargets p) (AffectedInstruments p) (UnchangedInstruments p).
Definition addHot (text : string) (p : Plan) : Plan :=
  MkPlan (FirstPublish p) (CancelAll p) (Structural p) (HotChanges p ++ [text])
    (InstrumentChanges p) (CancelTargets p) (AffectedInstruments p) (UnchangedInstruments p).
Definition set_InstrumentChanges (p : Plan) (l : list InstrumentChange) : Plan :=
  MkPlan (FirstPublish p) (CancelAll p) (Structural p) (HotChanges p) l
    (CancelTargets p) (AffectedInstruments p) (UnchangedInstruments p).
Definition set_CancelTargets (p : Plan) (l : list MarketTarget) : Plan :=
  MkPlan (FirstPublish p) (CancelAll p) (Structural p) (HotChanges p) (InstrumentChanges p)
    l (AffectedInstruments p) (UnchangedInstruments p).

Definition emptyPlan (first : bool) : Plan := MkPlan first false false [] [] [] 0 0.

(** The map [changes] of [Build], filled by the closure [addChange]. *)
Abbreviation Changes := (gmap string InstrumentChange) (only parsing).

Definition actionPriority (action : string) : Z :=
  if String.eqb action "hot_reload" then 1
  else if String.eqb action "reconcile" then 2
  else if String.eqb action "reconfigure" then 3
  else if String.eqb action "add" then 4
  else if String.eqb action "remove" then 5
  else 0.

Definition contains (values : list string) (target : string) : bool :=
  existsb (String.eqb target) values.

Definition addChange (changes : Changes) (instrumentID action reason : string) : Changes :=
  let item := default (MkInstrumentChange instrumentID action []) (changes !! instrumentID) in
  let act := if actionPriority (Action item) <? actionPriority action then action else Action item in
  let reasons := if negb (String.eqb reason "") && negb (contains (Reasons item) reason)
                 then Reasons item ++ [reason] else Reasons item in
  <[instrumentID := MkInstrumentChange (ch_InstrumentID item) act reasons]> changes.

Definition sameTargetKey (a b : MarketTarget) : bool :=
  String.eqb (tg_InstrumentID a) (tg_InstrumentID b) && String.eqb (tg_Venue a) (tg_Venue b)
  && String.eqb (tg_Symbol a) (tg_Symbol b).

Definition addTargetTo (l : list MarketTarget) (t : MarketTarget) : list MarketTarget :=
  if existsb (fun current => sameTargetKey current t) l then l else l ++ [t].
Definition addTarget (p : Plan) (t : MarketTarget) : Plan :=
  set_CancelTargets p (addTargetTo (CancelTargets p) t).

Definition instrumentMap (values : list InstrumentConfig) : gmap string InstrumentConfig :=
  foldl (fun m v => <[ID v := v]> m) ∅ values.

Definition zeroMarket : VenueMarketConfig :=
  MkVenueMarketConfig "" "" "" Zero Zero Zero Zero Zero Zero Zero Zero 0 Zero Zero 0.
Definition zeroVenue : VenueConfig := MkVenueConfig "" "" false false false "" "" ∅.

(** ** The texts *)

Definition marketCancelReason (venueExists : bool) (newVenue : VenueConfig)
    (marketExists connectionChanged : bool) (oldMarket newMarket : VenueMarketConfig) : string :=
  if negb venueExists || negb (venue_Enabled newVenue) then "交易所被删除或停用"
  else if negb (TradingEnabled newVenue) then "交易所关闭实盘"
  else if negb marketExists then "交易市场被删除"
  else if connectionChanged then "交易所连接发生变化"
  else if negb (String.eqb (market_Symbol oldMarket) (market_Symbol newMarket))
  then "交易所 Symbol 发生变化"
  else if negb (CredentialID oldMarket =? CredentialID newMarket) then "交易凭证发生变化"
  else "交易市场需要重建".

(** ** Building a plan *)

Section Build.
Context `{MapRange} `{SliceSort}.

Definition addInstrumentMarkets (plan : Plan) (cfg : Config) (instrumentID reason : string) : Plan :=
  if negb (String.eqb (cfg_Mode cfg) ModeLive) then plan else
  foldl (fun plan '(venueName, venueCfg) =>
    if negb (venue_Enabled venueCfg) || negb (TradingEnabled venueCfg) then plan else
    match Markets venueCfg !! instrumentID with
    | Some market =>
        addTarget plan (MkMarketTarget instrumentID venueName (market_Symbol market) reason)
    | None => plan
    end) plan (range (Venues cfg)).

Definition connectionChangedOf (oldVenue : VenueConfig) (newVenue : option VenueConfig) : bool :=
  match newVenue with
  | None => true
  | Some n => negb (String.eqb (venue_Type oldVenue) (venue_Type n))
              || negb (String.eqb (Environment oldVenue) (Environment n))
              || negb (String.eqb (BaseURL oldVenue) (BaseURL n))
  end.

Definition mustCancelMarket (old : Config) (oldVenue : VenueConfig) (newVenue : option VenueConfig)
    (oldMarket : VenueMarketConfig) (newMarket : option VenueMarketConfig) : bool :=
  let new := default zeroVenue newVenue in
  let stopped := match newVenue with
                 | None => true
                 | Some n => negb (venue_Enabled n) || negb (TradingEnabled n)
                 end in
  String.eqb (cfg_Mode old) ModeLive && venue_Enabled oldVenue && TradingEnabled oldVenue
  && (stopped || match newMarket with None => true | Some _ => false end
      || connectionChangedOf oldVenue newVenue
      || negb (String.eqb (market_Symbol oldMarket) (market_Symbol (default zeroMarket newMarket)))
      || negb (CredentialID oldMarket =? CredentialID (default zeroMarket newMarket))).

(** One market of an old venue: the cancellation it needs, and the change it is. *)
Definition cancelMarket (old : Config) (venueName : string) (oldVenue : VenueConfig)
    (newVenue : option VenueConfig) (plan : Plan) (im : string * VenueMarketConfig) : Plan :=
  let '(instrumentID, oldMarket) := im in
  let newMarket := newVenue ≫= fun n => Markets n !! instrumentID in
  let venueExists := match newVenue with Some _ => true | None => false end in
  let marketExists := match newMarket with Some _ => true | None => false end in
  if mustCancelMarket old oldVenue newVenue oldMarket newMarket then
    addTarget plan (MkMarketTarget instrumentID venueName (market_Symbol oldMarket)
      (marketCancelReason venueExists (default zeroVenue newVenue) marketExists
         (connectionChangedOf oldVenue newVenue) oldMarket (default zeroMarket newMarket)))
  else plan.

Definition executionChangedOf (oldVenue newVenue : VenueConfig) : bool :=
  connectionChangedOf oldVenue (Some newVenue)
  || negb (String.eqb (SelfTradePrevention oldVenue) (SelfTradePrevention newVenue))
  || negb (Bool.eqb (DedicatedAccount oldVenue) (DedicatedAccount newVenue)).

Definition changeMarket (venueName : string) (oldVenue : VenueConfig)
    (newVenue : option VenueConfig) (changes : Changes) (im : string * VenueMarketConfig) : Changes :=
  let '(instrumentID, oldMarket) := im in
  match newVenue with
  | None => changes
  | Some n =>
      match Markets n !! instrumentID with
      | None => changes
      | Some newMarket =>
          if executionChangedOf oldVenue n
             || negb (Bool.eqb (venue_Enabled oldVenue) (venue_Enabled n))
             || negb (Bool.eqb (TradingEnabled oldVenue) (TradingEnabled n))
             || negb (equalJSON oldMarket newMarket)
          then addChange changes instrumentID "reconfigure"
                 ("交易市场 " +:+ venueName +:+ " 发生变化")
          else changes
      end
  end.

Definition diffMarket (old : Config) (venueName : string) (oldVenue : VenueConfig)
    (newVenue : option VenueConfig) (st : Plan * Changes) (im : string * VenueMarketConfig)
    : Plan * Changes :=
  let '(plan, changes) := st in
  (cancelMarket old venueName oldVenue newVenue plan im,
   changeMarket venueName oldVenue newVenue changes im).

Definition diffOldVenue (old next : Config) (st : Plan * Changes) (nv : string * VenueConfig)
    : Plan * Changes :=
  let '(venueName, oldVenue) := nv in
  foldl (diffMarket old venueName oldVenue (Venues next !! venueName)) st (range (Markets oldVenue)).

Definition diffNewVenue (old : Config) (changes : Changes) (nv : string * VenueConfig) : Changes :=
  let '(venueName, newVenue) := nv in
  foldl (fun changes '(instrumentID, _) =>
    match Venues old !! venueName with
    | None => addChange changes instrumentID "reconfigure" ("新增交易所 " +:+ venueName)
    | Some oldVenue =>
        match Markets oldVenue !! instrumentID with
        | None => addChange changes instrumentID "reconfigure" ("新增交易市场 " +:+ venueName)
        | Some _ => changes
        end
    end) changes (range (Markets newVenue)).

Definition diffVenues (old next : Config) (st : Plan * Changes) : Plan * Changes :=
  let '(plan, changes) := foldl (diffOldVenue old next) st (range (Venues old)) in
  (plan, foldl (diffNewVenue old) changes (range (Venues next))).

(** One instrument of the old configuration. *)
Definition diffInstrument (old : Config) (newInstruments : gmap string InstrumentConfig)
    (st : Plan * Changes) (io : string * InstrumentConfig) : Plan * Changes :=
  let '(plan, changes) := st in
  let '(id, o) := io in
  match newInstruments !! id with
  | None => (addInstrumentMarkets plan old id "删除币对", addChange changes id "remove" "删除币对")
  | Some n =>
      let changes :=
        if negb (equalJSON (inst_Base o) (inst_Base n)) || negb (equalJSON (inst_Quote o) (inst_Quote n))
        then addChange changes id "reconfigure" "Token 信息发生变化" else changes in
      let changes := if negb (equalJSON (Reference o) (Reference n))
        then addChange changes id "reconfigure" "Pancake 价格路径发生变化" else changes in
      let changes := if negb (equalJSON (Strategy o) (Strategy n))
        then addChange changes id "reconcile" "策略或库存参数发生变化" else changes in
      let changes := if negb (equalJSON (TradeSimulation o) (TradeSimulation n))
        then addChange changes id "hot_reload" "内部成交模拟参数发生变化" else changes in
      (plan, changes)
  end.

(** The comparisons of the scalar settings. *)
Definition diffScalars (old next : Config) (plan : Plan) : Plan :=
  let plan := if negb (PollIntervalMS old =? PollIntervalMS next)
      || negb (MaxConcurrentInstruments old =? MaxConcurrentInstruments next)
      || negb (RulesRefreshSeconds old =? RulesRefreshSeconds next)
    then addHot "轮询、币对并发与交易规则刷新" plan else plan in
  let plan := if negb (MarketFailureThreshold old =? MarketFailureThreshold next)
      || negb (MarketRecoveryThreshold old =? MarketRecoveryThreshold next)
      || negb (MarketErrorGraceSeconds old =? MarketErrorGraceSeconds next)
      || negb (TradingProgressTimeoutSeconds old =? TradingProgressTimeoutSeconds next)
    then addHot "市场故障宽限与恢复阈值" plan else plan in
  let plan := if negb (String.eqb (AuditPath old) (AuditPath next))
      || negb (AuditMaxBytes old =? AuditMaxBytes next) || negb (AuditBackups old =? AuditBackups next)
    then set_Structural (addHot "审计文件与轮转" plan) else plan in
  if negb (String.eqb (HeartbeatPath old) (HeartbeatPath next))
     || negb (WatchdogTimeoutSeconds old =? WatchdogTimeoutSeconds next)
  then set_Structural (addHot "Watchdog 与心跳参数" plan) else plan.

Definition changeAll (next : Config) (action reason : string) (changes : Changes) : Changes :=
  foldl (fun changes i => addChange changes (ID i) action reason) changes (Instruments next).

Definition diffRPC (old next : Config) (st : Plan * Changes) : Plan * Changes :=
  let '(plan, changes) := st in
  if equalJSON (RPC old) (RPC next) then st else
  (set_Structural (addHot "BNB Chain RPC（验证后热切换）" plan),
   changeAll next "hot_reload" "价格源连接发生变化" changes).

Definition diffMode (old next : Config) (st : Plan * Changes) : Plan * Changes :=
  let '(plan, changes) := st in
  if String.eqb (cfg_Mode old) (cfg_Mode next) then st else
  let plan := set_Structural (addHot "运行模式" plan) in
  (if String.eqb (cfg_Mode old) ModeLive && String.eqb (cfg_Mode next) ModeShadow
   then set_CancelAll plan else plan,
   changeAll next "reconfigure" "运行模式发生变化" changes).

Definition addedInstruments (oldInstruments newInstruments : gmap string InstrumentConfig)
    (changes : Changes) : Changes :=
  foldl (fun changes '(id, _) =>
    match oldInstruments !! id with
    | None => addChange changes id "add" "新增币对"
    | Some _ => changes
    end) changes (range newInstruments).

(** ** Finishing *)

Definition structuralAction (action : string) : bool :=
  String.eqb action "reconfigure" || String.eqb action "add" || String.eqb action "remove".

Definition targetLess (a b : MarketTarget) : bool :=
  if String.eqb (tg_InstrumentID a) (tg_InstrumentID b) then string_less (tg_Venue a) (tg_Venue b)
  else string_less (tg_InstrumentID a) (tg_InstrumentID b).

Definition finish (plan : Plan) (next : Config) : Plan :=
  let structural := Structural plan || CancelAll plan
    || negb (length (CancelTargets plan) =? 0)%nat
    || existsb (fun c => structuralAction (Action c)) (InstrumentChanges plan) in
  let unchanged := filter (fun i => ID i ∉ map ch_InstrumentID (InstrumentChanges plan))
                     (Instruments next) in
  MkPlan (FirstPublish plan) (CancelAll plan) structural
    (sort_slice string_less (HotChanges plan))
    (sort_slice (fun a b => string_less (ch_InstrumentID a) (ch_InstrumentID b))
       (InstrumentChanges plan))
    (sort_slice targetLess (CancelTargets plan))
    (Z.of_nat (length (InstrumentChanges plan)))
    (UnchangedInstruments plan + Z.of_nat (length unchanged)).

Definition sortReasons (c : InstrumentChange) : InstrumentChange :=
  MkInstrumentChange (ch_InstrumentID c) (Action c) (sort_slice string_less (Reasons c)).

Definition buildDiff (old next : Config) : Plan * Changes :=
  let oldInstruments := instrumentMap (Instruments old) in
  let newInstruments := instrumentMap (Instruments next) in
  let st := diffMode old next (diffRPC old next (diffScalars old next (emptyPlan false), ∅)) in
  let '(plan, changes) := foldl (diffInstrument old newInstruments) st (range oldInstruments) in
  diffVenues old next (plan, addedInstruments oldInstruments newInstruments changes).

Definition Build (previous : option Config) (next : Config) : Plan :=
  match previous with
  | None =>
      finish (set_InstrumentChanges (set_Structural (emptyPlan true))
        (map (fun i => MkInstrumentChange (ID i) "add" ["新增币对"]) (Instruments next))) next
  | Some old =>
      let '(plan, changes) := buildDiff old next in
      finish (set_InstrumentChanges plan
        (InstrumentChanges plan ++ map (fun kv => sortReasons (snd kv)) (range changes))) next
  end.
End Build.

(** ** Loops *)

Lemma foldl_or {A B} (P : B -> Prop) (C : A -> Prop) (f : B -> A -> B) l b :
  (forall x b, x ∈ l -> P (f b x) <-> P b \/ C x) ->
  P (foldl f b l) <-> P b \/ exists x, x ∈ l /\ C x.
Proof.
  revert b. induction l as [|x l IH]; intros b Hf; cbn [foldl].
  { split; [by left|]. intros [?|(x & Hx & _)]; [done|]. by apply elem_of_nil in Hx. }
  rewrite IH by (intros; apply Hf; by right). rewrite Hf by left. split.
  - intros [[?|?]|(y & ? & ?)]; [by left|right; exists x; split; [left|done]|right; exists y].
    split; [by right|done].
  - intros [?|(y & [->|?]%elem_of_cons & ?)]; [by left; left|by left; right|right; by exists y].
Qed.

Lemma foldl_pres {A B} (P : B -> Prop) (f : B -> A -> B) l b :
  (forall x b, P b -> P (f b x)) -> P b -> P (foldl f b l).
Proof. revert b. induction l as [|x l IH]; intros b Hf Hb; simpl; auto. Qed.

(** Reading a loop backwards: what held at the end held before every step. *)
Lemma foldl_back {A B} (P : B -> Prop) (Q : A -> Prop) (f : B -> A -> B) l b :
  (forall x b, P (f b x) -> P b /\ Q x) -> P (foldl f b l) -> P b /\ forall x, x ∈ l -> Q x.
Proof.
  intros Hf. revert b. induction l as [|x l IH]; intros b; cbn [foldl].
  { intros Hb. split; [done|]. by intros x Hx%elem_of_nil. }
  intros [[Hb Hx]%Hf Hl]%IH. split; [done|]. by intros y [->|Hy]%elem_of_cons; [|apply Hl].
Qed.

(** ** The markets to cancel *)

Definition tkey (t : MarketTarget) : string * string * string :=
  (tg_InstrumentID t, tg_Venue t, tg_Symbol t).

Lemma sameTargetKey_iff a b : sameTargetKey a b = true <-> tkey a = tkey b.
Proof.
  unfold sameTargetKey, tkey. rewrite !andb_true_iff, !String.eqb_eq. split; [|by intros [= -> -> ->]].
  by intros [[-> ->] ->].
Qed.

Lemma addTargetTo_keys l t k : k ∈ map tkey (addTargetTo l t) <-> k ∈ map tkey l \/ k = tkey t.
Proof.
  unfold addTargetTo. destruct (existsb _ l) eqn:E.
  - split; [by left|]. intros [?| ->]; [done|].
    apply existsb_exists in E as (c & Hc & E). apply sameTargetKey_iff in E. rewrite <- E.
    apply list_elem_of_fmap_2. by apply list_elem_of_In.
  - rewrite map_app, elem_of_app. simpl. by rewrite list_elem_of_singleton.
Qed.

Lemma addTargetTo_NoDup l t : NoDup (map tkey l) -> NoDup (map tkey (addTargetTo l t)).
Proof.
  intros Hnd. unfold addTargetTo. destruct (existsb _ l) eqn:E; [done|].
  rewrite map_app. apply NoDup_app. split_and!; [done| |apply NoDup_singleton].
  intros k Hk Hk'. apply list_elem_of_singleton in Hk' as ->.
  apply list_elem_of_fmap in Hk as (c & Ec & Hc).
  assert (existsb (fun current => sameTargetKey current t) l = true); [|congruence].
  apply existsb_exists. exists c. split; [by apply list_elem_of_In|]. by apply sameTargetKey_iff.
Qed.

Section Facts.
Context `{MapRange} `{SliceSort}.

Definition has_target (k : string * string * string) (p : Plan) : Prop :=
  k ∈ map tkey (CancelTargets p).
Definition distinct_targets (p : Plan) : Prop := NoDup (map tkey (CancelTargets p)).

(** A market the old configuration was trading on. *)
Definition trading_market (old : Config) (v i : string) (ov : VenueConfig) (m : VenueMarketConfig)
    : Prop :=
  cfg_Mode old = ModeLive /\ Venues old !! v = Some ov /\ venue_Enabled ov = true
  /\ TradingEnabled ov = true /\ Markets ov !! i = Some m.

(** Why a market must be left: its instrument, its venue or the market itself is gone
    or stopped, or it is reached under another connection, symbol or credential. *)
Definition must_leave (old next : Config) (v i : string) (ov : VenueConfig) (m : VenueMarketConfig)
    : Prop :=
  (is_Some (instrumentMap (Instruments old) !! i) /\ instrumentMap (Instruments next) !! i = None)
  \/ match Venues next !! v with
     | None => True
     | Some nv =>
         venue_Enabled nv = false \/ TradingEnabled nv = false
         \/ venue_Type ov <> venue_Type nv \/ Environment ov <> Environment nv
         \/ BaseURL ov <> BaseURL nv
         \/ match Markets nv !! i with
            | None => True
            | Some nm => market_Symbol m <> market_Symbol nm \/ CredentialID m <> CredentialID nm
            end
     end.

Lemma addInstrumentMarkets_targets plan cfg id reason k :
  has_target k (addInstrumentMarkets plan cfg id reason) <-> has_target k plan
  \/ exists v ov m, trading_market cfg v id ov m /\ k = (id, v, market_Symbol m).
Proof.
  unfold addInstrumentMarkets. destruct (String.eqb (cfg_Mode cfg) ModeLive) eqn:Em; simpl negb; cbv iota.
  2:{ apply String.eqb_neq in Em. split; [by left|]. by intros [?|(v & ov & m & (? & _) & _)]. }
  apply String.eqb_eq in Em.
  rewrite (foldl_or _ (fun vc => exists m, trading_market cfg (fst vc) id (snd vc) m
    /\ k = (id, fst vc, market_Symbol m))).
  - split; (intros [?|Hx]; [by left|right]).
    + destruct Hx as ([v vc] & _ & m & Ht & ->). by exists v, vc, m.
    + destruct Hx as (v & vc & m & Ht & ->). exists (v, vc). split; [|by exists m].
      apply elem_of_range, Ht.
  - intros [v vc] p Hin%elem_of_range. cbn [fst snd].
    destruct (venue_Enabled vc) eqn:Ee; simpl negb; cbv iota.
    2:{ cbn [orb]. split; [by left|]. intros [?|(m & (_ & _ & ? & _) & _)]; congruence. }
    destruct (TradingEnabled vc) eqn:Et; simpl orb; cbv iota.
    2:{ split; [by left|]. intros [?|(m & (_ & _ & _ & ? & _) & _)]; congruence. }
    destruct (Markets vc !! id) as [m|] eqn:Em'.
    2:{ split; [by left|]. intros [?|(m & (_ & _ & _ & _ & ?) & _)]; congruence. }
    unfold has_target. simpl. rewrite addTargetTo_keys. unfold tkey at 2. simpl. split.
    + intros [?| ->]; [by left|right]. by exists m.
    + intros [?|(m' & (_ & _ & _ & _ & ?) & ->)]; [by left|right]. congruence.
Qed.

Lemma mustCancelMarket_iff old next v i ov m :
  Venues old !! v = Some ov -> Markets ov !! i = Some m ->
  mustCancelMarket old ov (Venues next !! v) m (Venues next !! v ≫= fun n => Markets n !! i) = true
  <-> trading_market old v i ov m /\
      match Venues next !! v with
      | None => True
      | Some nv =>
          venue_Enabled nv = false \/ TradingEnabled nv = false
          \/ venue_Type ov <> venue_Type nv \/ Environment ov <> Environment nv
          \/ BaseURL ov <> BaseURL nv
          \/ match Markets nv !! i with
             | None => True
             | Some nm => market_Symbol m <> market_Symbol nm \/ CredentialID m <> CredentialID nm
             end
      end.
Proof.
  intros Hv Hm. unfold mustCancelMarket, trading_market, connectionChangedOf.
  destruct (Venues next !! v) as [nv|]; cbn [mbind option_bind default];
    rewrite !andb_true_iff, !orb_true_iff, ?negb_true_iff, ?String.eqb_eq, ?String.eqb_neq.
  - assert (Ht : (true = true) <-> True) by done. assert (Hf : (false = true) <-> False) by done.
    destruct (Markets nv !! i) as [nm|]; cbn [default];
      rewrite ?String.eqb_neq, ?Z.eqb_neq, ?Ht, ?Hf; tauto.
  - assert (Ht : (true = true) <-> True) by done. rewrite Ht. tauto.
Qed.

Lemma diffMarket_targets old next v ov st i m k :
  Venues old !! v = Some ov -> Markets ov !! i = Some m ->
  has_target k (fst (diffMarket old v ov (Venues next !! v) st (i, m))) <-> has_target k (fst st)
  \/ (mustCancelMarket old ov (Venues next !! v) m (Venues next !! v ≫= fun n => Markets n !! i) = true
      /\ k = (i, v, market_Symbol m)).
Proof.
  intros Hv Hm. destruct st as [plan changes]. cbn [diffMarket fst]. unfold cancelMarket. cbv zeta.
  destruct (mustCancelMarket _ _ _ _ _); [|naive_solver].
  unfold has_target. simpl. rewrite addTargetTo_keys. unfold tkey at 2. simpl. naive_solver.
Qed.

(** The targets of the two loops of [Build]. *)
Definition leaves (old next : Config) (k : string * string * string) : Prop :=
  exists v i ov m, trading_market old v i ov m /\ must_leave old next v i ov m
    /\ k = (i, v, market_Symbol m).

Lemma diffOldVenue_targets old next v ov st k : Venues old !! v = Some ov ->
  has_target k (fst (diffOldVenue old next st (v, ov))) <-> has_target k (fst st)
  \/ exists im, im ∈ range (Markets ov)
     /\ mustCancelMarket old ov (Venues next !! v) (snd im)
          (Venues next !! v ≫= fun n => Markets n !! fst im) = true
     /\ k = (fst im, v, market_Symbol (snd im)).
Proof.
  intros Hv. cbn [diffOldVenue].
  apply (foldl_or (fun st => has_target k (fst st)) (fun im =>
    mustCancelMarket old ov (Venues next !! v) (snd im)
      (Venues next !! v ≫= fun n => Markets n !! fst im) = true
    /\ k = (fst im, v, market_Symbol (snd im)))).
  intros [i m] st' Hin%elem_of_range. by apply diffMarket_targets.
Qed.

Lemma diffInstrument_targets old next st id o k :
  instrumentMap (Instruments old) !! id = Some o ->
  has_target k (fst (diffInstrument old (instrumentMap (Instruments next)) st (id, o)))
  <-> has_target k (fst st) \/ (instrumentMap (Instruments next) !! id = None
     /\ exists v ov m, trading_market old v id ov m /\ k = (id, v, market_Symbol m)).
Proof.
  intros Ho. destruct st as [plan changes]. unfold diffInstrument.
  destruct (instrumentMap (Instruments next) !! id) as [n|] eqn:En; cbn [fst].
  - split; [by left|]. by intros [?|[? _]].
  - rewrite addInstrumentMarkets_targets. tauto.
Qed.

Lemma first_plan_targets old next :
  CancelTargets (fst (diffMode old next (diffRPC old next (diffScalars old next (emptyPlan false), ∅)))) = [].
Proof.
  assert (Hs : forall p, CancelTargets (diffScalars old next p) = CancelTargets p).
  { intros p. unfold diffScalars. cbv zeta.
    repeat match goal with |- context [if ?b then _ else _] => destruct b end; reflexivity. }
  unfold diffMode, diffRPC. destruct (equalJSON _ _), (String.eqb (cfg_Mode old) (cfg_Mode next));
    try (destruct (_ && _)); exact (Hs _).
Qed.

Lemma buildDiff_targets old next k :
  has_target k (fst (buildDiff old next)) <-> leaves old next k.
Proof.
  unfold buildDiff. cbv zeta. pose proof (first_plan_targets old next) as H0'.
  set (st := diffMode _ _ _) in *. clearbody st.
  pose proof (foldl_or (fun st => has_target k (fst st))
    (fun io => instrumentMap (Instruments next) !! fst io = None
     /\ exists v ov m, trading_market old v (fst io) ov m /\ k = (fst io, v, market_Symbol m))
    (diffInstrument old (instrumentMap (Instruments next))) (range (instrumentMap (Instruments old)))
    st) as H1.
  destruct (foldl _ st _) as [plan changes]. cbn [fst] in H1. unfold diffVenues.
  pose proof (foldl_or (fun st => has_target k (fst st))
    (fun vo => exists im, im ∈ range (Markets (snd vo))
      /\ mustCancelMarket old (snd vo) (Venues next !! fst vo) (snd im)
           (Venues next !! fst vo ≫= fun n => Markets n !! fst im) = true
      /\ k = (fst im, fst vo, market_Symbol (snd im)))
    (diffOldVenue old next) (range (Venues old))
    (plan, addedInstruments (instrumentMap (Instruments old)) (instrumentMap (Instruments next)) changes))
    as H2.
  destruct (foldl _ (plan, _) _) as [plan' changes']. cbn [fst] in H2 |- *.
  rewrite H2, H1; clear H1 H2.
  2:{ intros [id o] st' Hin%elem_of_range. by apply diffInstrument_targets. }
  2:{ intros [v ov] st' Hin%elem_of_range. by apply diffOldVenue_targets. }
  assert (Hno : ~ has_target k (fst st)).
  { unfold has_target. rewrite H0'. apply not_elem_of_nil. }
  unfold leaves, must_leave. split.
  - intros [[?|([id o] & Hin%elem_of_range & Hn & v & ov & m & Ht & ->)]
           |([v ov] & Hin%elem_of_range & [i m] & Hm%elem_of_range & Hc & ->)]; [done|..].
    + exists v, id, ov, m. split_and!; [done| |done]. left. split; [by eexists|done].
    + cbn [fst snd] in *. apply (mustCancelMarket_iff old next v i ov m Hin Hm) in Hc as [Ht Hc].
      exists v, i, ov, m. split_and!; [done|by right|done].
  - intros (v & i & ov & m & Ht & [[[o Ho] Hn]|Hc] & ->).
    + left. right. exists (i, o). split; [by apply elem_of_range|]. split; [done|]. by exists v, ov, m.
    + right. destruct Ht as (Hlive & Hv & He & Htr & Hm).
      exists (v, ov). split; [by apply elem_of_range|]. exists (i, m).
      split; [by apply elem_of_range|]. split; [|done].
      apply (mustCancelMarket_iff old next v i ov m Hv Hm). by split; [split_and!|].
Qed.

Lemma buildDiff_distinct old next : distinct_targets (fst (buildDiff old next)).
Proof.
  unfold buildDiff. cbv zeta. pose proof (first_plan_targets old next) as H0'.
  set (st := diffMode _ _ _) in *. clearbody st.
  assert (Hst : distinct_targets (fst st)) by (unfold distinct_targets; rewrite H0'; constructor).
  assert (Hadd : forall p t, distinct_targets p -> distinct_targets (addTarget p t)).
  { intros p t Hp. by apply addTargetTo_NoDup. }
  assert (H1 : distinct_targets (fst (foldl (diffInstrument old (instrumentMap (Instruments next))) st
    (range (instrumentMap (Instruments old)))))).
  { apply (foldl_pres (fun st => distinct_targets (fst st))); [|done].
    intros [id o] [plan changes] Hp. unfold diffInstrument. case_match; [done|]. cbn [fst] in *.
    unfold addInstrumentMarkets. case_match; [done|]. apply foldl_pres; [|done].
    intros [v vc] p Hp'. case_match; [done|]. case_match; auto. }
  destruct (foldl _ st _) as [plan changes]. unfold diffVenues.
  set (st2 := (plan, addedInstruments _ _ _)).
  assert (H2 : distinct_targets (fst (foldl (diffOldVenue old next) st2 (range (Venues old))))).
  { apply (foldl_pres (fun st => distinct_targets (fst st))); [|done].
    intros [v ov] st' Hp. cbn [diffOldVenue].
    apply (foldl_pres (fun st => distinct_targets (fst st))); [|done].
    intros [i m] [p ch] Hp'. cbn [diffMarket fst] in *. unfold cancelMarket. cbv zeta.
    case_match; auto. }
  by destruct (foldl _ st2 _).
Qed.

Lemma targetLess_false a b : targetLess b a = false <->
  if String.eqb (tg_InstrumentID b) (tg_InstrumentID a)
  then String.leb (tg_Venue a) (tg_Venue b) = true
  else String.leb (tg_InstrumentID a) (tg_InstrumentID b) = true.
Proof. unfold targetLess. case_match; apply string_less_false. Qed.

Lemma targetLess_asym a b : targetLess a b = true -> targetLess b a = false.
Proof.
  unfold targetLess. rewrite (String.eqb_sym (tg_InstrumentID b)). case_match; apply string_less_asym.
Qed.

Lemma targetLess_trans a b c :
  targetLess b a = false -> targetLess c b = false -> targetLess c a = false.
Proof.
  rewrite !targetLess_false.
  destruct a as [ia va sa ra], b as [ib vb sb rb], c as [ic vc sc rc]. simpl.
  destruct (String.eqb_spec ib ia) as [E1|E1], (String.eqb_spec ic ib) as [E2|E2],
    (String.eqb_spec ic ia) as [E3|E3]; intros Ha Hb; subst; try done;
    try (by eapply string_leb_trans).
  exfalso. apply E1. by apply String.leb_antisym.
Qed.

Lemma Build_targets old next :
  CancelTargets (Build (Some old) next) = sort_slice targetLess (CancelTargets (fst (buildDiff old next))).
Proof. unfold Build. by destruct (buildDiff old next). Qed.

(** ** Changes the engine may apply in place *)

(** No change so far asks for more than new parameters. *)
Definition parameters_only (changes : Changes) : Prop :=
  forall id c, changes !! id = Some c -> structuralAction (Action c) = false.

Lemma structural_priority a : structuralAction a = (3 <=? actionPriority a).
Proof.
  unfold structuralAction, actionPriority.
  destruct (String.eqb_spec a "hot_reload") as [->|]; [reflexivity|].
  destruct (String.eqb_spec a "reconcile") as [->|]; [reflexivity|].
  destruct (String.eqb_spec a "reconfigure"); [done|].
  destruct (String.eqb_spec a "add"); [done|]. by destruct (String.eqb_spec a "remove").
Qed.

Lemma addChange_parameters changes id action reason :
  parameters_only (addChange changes id action reason) ->
  parameters_only changes /\ structuralAction action = false.
Proof.
  intros Hp. unfold addChange in Hp. cbv zeta in Hp.
  pose proof (Hp id _ (lookup_insert_eq _ _ _)) as Hid. cbn [Action] in Hid.
  rewrite structural_priority in *. split.
  - intros id' c Hc. destruct (decide (id' = id)) as [->|Hne].
    + rewrite Hc in Hid. simpl in Hid. rewrite structural_priority. case_match eqn:E; lia.
    + apply (Hp id'). by rewrite lookup_insert_ne.
  - case_match eqn:E; [done|]. lia.
Qed.

Lemma changeAll_parameters next action reason changes :
  parameters_only (changeAll next action reason changes) -> parameters_only changes.
Proof.
  intros Hp. apply (foldl_back parameters_only (fun _ => True)) in Hp as [? _]; [done|].
  intros i ch Hi. split; [exact (proj1 (addChange_parameters _ _ _ _ Hi))|done].
Qed.

(** What a step leaves when it is not structural. *)
Definition flat (st : Plan * Changes) : Prop :=
  Structural (fst st) = false /\ parameters_only (snd st).

Definition same_wiring (old next : Config) : Prop :=
  AuditPath old = AuditPath next /\ AuditMaxBytes old = AuditMaxBytes next
  /\ AuditBackups old = AuditBackups next /\ HeartbeatPath old = HeartbeatPath next
  /\ WatchdogTimeoutSeconds old = WatchdogTimeoutSeconds next
  /\ marshal (RPC old) = marshal (RPC next) /\ cfg_Mode old = cfg_Mode next.

Lemma diffScalars_flat old next plan : Structural (diffScalars old next plan) = false ->
  AuditPath old = AuditPath next /\ AuditMaxBytes old = AuditMaxBytes next
  /\ AuditBackups old = AuditBackups next /\ HeartbeatPath old = HeartbeatPath next
  /\ WatchdogTimeoutSeconds old = WatchdogTimeoutSeconds next.
Proof.
  unfold diffScalars. cbv zeta.
  destruct (String.eqb_spec (HeartbeatPath old) (HeartbeatPath next)); [|done].
  destruct (Z.eqb_spec (WatchdogTimeoutSeconds old) (WatchdogTimeoutSeconds next)); [|done].
  destruct (String.eqb_spec (AuditPath old) (AuditPath next)); [|done].
  destruct (Z.eqb_spec (AuditMaxBytes old) (AuditMaxBytes next)); [|done].
  by destruct (Z.eqb_spec (AuditBackups old) (AuditBackups next)).
Qed.

Lemma first_flat old next :
  flat (diffMode old next (diffRPC old next (diffScalars old next (emptyPlan false), ∅))) ->
  same_wiring old next.
Proof.
  unfold diffMode, diffRPC, flat, same_wiring.
  set (p := diffScalars _ _ _). unfold equalJSON.
  destruct (json_eqb _ _) eqn:Er; destruct (String.eqb_spec (cfg_Mode old) (cfg_Mode next)) as [Em|Em];
    cbn [fst snd]; try (intros [Hs _]; destruct (_ && _); done); try (by intros [? _]).
  intros [Hs _]. apply json_eqb_eq in Er. apply diffScalars_flat in Hs as (? & ? & ? & ? & ?).
  by split_and!.
Qed.

(** An instrument that only got new parameters. *)
Definition same_instrument (o n : InstrumentConfig) : Prop :=
  marshal (inst_Base o) = marshal (inst_Base n) /\ marshal (inst_Quote o) = marshal (inst_Quote n)
  /\ marshal (Reference o) = marshal (Reference n).

Lemma addInstrumentMarkets_structural plan cfg id reason :
  Structural (addInstrumentMarkets plan cfg id reason) = Structural plan.
Proof.
  unfold addInstrumentMarkets. case_match; [done|].
  apply (foldl_pres (fun p => Structural p = Structural plan)); [|done].
  intros [v vc] p Hp. by repeat case_match.
Qed.

Lemma if_parameters (b : bool) changes id action reason :
  parameters_only (if b then addChange changes id action reason else changes) ->
  parameters_only changes /\ (b = true -> structuralAction action = false).
Proof. destruct b; [|done]. by intros [? ?]%addChange_parameters. Qed.

Lemma diffInstrument_flat old newInstruments st id o :
  flat (diffInstrument old newInstruments st (id, o)) ->
  flat st /\ exists n, newInstruments !! id = Some n /\ same_instrument o n.
Proof.
  destruct st as [plan changes]. unfold diffInstrument, flat.
  destruct (newInstruments !! id) as [n|]; cbn [fst snd].
  2:{ intros [_ [_ ?]%addChange_parameters]. done. }
  intros [Hs [[[[Hp Hb]%if_parameters Hr]%if_parameters _]%if_parameters _]%if_parameters].
  split; [done|]. exists n. split; [done|]. unfold equalJSON in *.
  destruct (json_eqb (marshal (inst_Base o)) _) eqn:E1; [|by specialize (Hb eq_refl)].
  destruct (json_eqb (marshal (inst_Quote o)) _) eqn:E2; [|by specialize (Hb eq_refl)].
  destruct (json_eqb (marshal (Reference o)) _) eqn:E3; [|by specialize (Hr eq_refl)].
  apply json_eqb_eq in E1, E2, E3. done.
Qed.

(** A market of the new configuration that is the old one, reached the same way. *)
Definition same_market (ov nv : VenueConfig) (om nm : VenueMarketConfig) : Prop :=
  venue_Type ov = venue_Type nv /\ Environment ov = Environment nv /\ BaseURL ov = BaseURL nv
  /\ SelfTradePrevention ov = SelfTradePrevention nv
  /\ DedicatedAccount ov = DedicatedAccount nv /\ venue_Enabled ov = venue_Enabled nv
  /\ TradingEnabled ov = TradingEnabled nv /\ marshal om = marshal nm.

Lemma changeMarket_flat v ov newVenue changes i m :
  parameters_only (changeMarket v ov newVenue changes (i, m)) ->
  parameters_only changes /\ forall n nm, newVenue = Some n -> Markets n !! i = Some nm ->
    same_market ov n m nm.
Proof.
  unfold changeMarket. destruct newVenue as [n|]; [|done]. destruct (Markets n !! i) as [nm|] eqn:Em.
  2:{ intros Hp. split; [done|]. intros n' nm [= <-]. congruence. }
  intros [Hp Hc]%if_parameters. split; [done|]. intros n' nm' [= <-] Hnm. rewrite Em in Hnm.
  injection Hnm as <-.
  destruct (executionChangedOf ov n || _ || _ || _) eqn:E; [by specialize (Hc eq_refl)|].
  unfold executionChangedOf, connectionChangedOf, equalJSON in E.
  rewrite !orb_false_iff, !negb_false_iff, !String.eqb_eq, !Bool.eqb_true_iff, json_eqb_iff in E.
  unfold same_market. tauto.
Qed.

Lemma diffOldVenue_flat old next st v ov :
  flat (diffOldVenue old next st (v, ov)) ->
  flat st /\ forall im, im ∈ range (Markets ov) -> forall n nm, Venues next !! v = Some n ->
    Markets n !! fst im = Some nm -> same_market ov n (snd im) nm.
Proof.
  cbn [diffOldVenue]. apply (foldl_back flat). intros [i m] [plan changes]. unfold flat.
  cbn [diffMarket fst snd]. unfold cancelMarket. cbv zeta.
  intros [Hs [Hp Hm]%changeMarket_flat]. split; [|exact Hm]. split; [|done].
  by destruct (mustCancelMarket _ _ _ _ _).
Qed.

Lemma diffNewVenue_flat old changes v nv :
  parameters_only (diffNewVenue old changes (v, nv)) ->
  parameters_only changes /\ forall im, im ∈ range (Markets nv) ->
    exists ov om, Venues old !! v = Some ov /\ Markets ov !! fst im = Some om.
Proof.
  cbn [diffNewVenue]. apply (foldl_back parameters_only). intros [i m] ch.
  destruct (Venues old !! v) as [ov|]; [|by intros [_ ?]%addChange_parameters].
  cbn [fst]. destruct (Markets ov !! i) as [om|] eqn:Em; [|by intros [_ ?]%addChange_parameters].
  intros Hp. split; [done|]. by exists ov, om.
Qed.

Lemma addedInstruments_flat olds news changes :
  parameters_only (addedInstruments olds news changes) ->
  parameters_only changes /\ forall io, io ∈ range news -> is_Some (olds !! fst io).
Proof.
  apply (foldl_back parameters_only). intros [id n] ch. cbn [fst].
  destruct (olds !! id); [by split|]. by intros [_ ?]%addChange_parameters.
Qed.

(** Everything but parameters is the same in both configurations. *)
Record same_structure (old next : Config) : Prop := {
  ss_wiring : same_wiring old next;
  ss_kept : forall id o, instrumentMap (Instruments old) !! id = Some o ->
    exists n, instrumentMap (Instruments next) !! id = Some n /\ same_instrument o n;
  ss_new : forall id n, instrumentMap (Instruments next) !! id = Some n ->
    is_Some (instrumentMap (Instruments old) !! id);
  ss_markets : forall v nv i nm, Venues next !! v = Some nv -> Markets nv !! i = Some nm ->
    exists ov om, Venues old !! v = Some ov /\ Markets ov !! i = Some om /\ same_market ov nv om nm
}.

Lemma buildDiff_flat old next : flat (buildDiff old next) -> same_structure old next.
Proof.
  unfold buildDiff. cbv zeta. set (st := diffMode _ _ _).
  pose proof (foldl_back flat (fun io => exists n, instrumentMap (Instruments next) !! fst io = Some n
      /\ same_instrument (snd io) n)
    (diffInstrument old (instrumentMap (Instruments next))) (range (instrumentMap (Instruments old))) st)
    as Hinst.
  destruct (foldl _ st _) as [plan changes]. unfold diffVenues.
  set (st2 := (plan, addedInstruments _ _ _)).
  pose proof (foldl_back flat (fun vo => forall im, im ∈ range (Markets (snd vo)) ->
      forall n nm, Venues next !! fst vo = Some n -> Markets n !! fst im = Some nm ->
      same_market (snd vo) n (snd im) nm) (diffOldVenue old next) (range (Venues old)) st2) as Hold.
  destruct (foldl _ st2 _) as [plan2 changes2].
  intros [Hs Hp]. cbn [fst snd] in Hs, Hp.
  apply (foldl_back parameters_only (fun vn => forall im, im ∈ range (Markets (snd vn)) ->
    exists ov om, Venues old !! fst vn = Some ov /\ Markets ov !! fst im = Some om)) in Hp as [Hp Hnew].
  2:{ intros [v nv] ch. apply diffNewVenue_flat. }
  destruct Hold as [[Hs2 Hp2] Hold]; [|by split|].
  { intros [v ov] st'. apply diffOldVenue_flat. }
  cbn [st2 fst snd] in Hs2, Hp2. apply addedInstruments_flat in Hp2 as [Hp2 Hadded].
  destruct Hinst as [Hst Hinst]; [|by split|].
  { intros [id o] st'. apply diffInstrument_flat. }
  constructor.
  - by apply first_flat.
  - intros id o Ho. apply (Hinst (id, o)). by apply elem_of_range.
  - intros id n Hn. apply (Hadded (id, n)). by apply elem_of_range.
  - intros v nv i nm Hv Hm.
    destruct (Hnew (v, nv) ltac:(by apply elem_of_range) (i, nm) ltac:(by apply elem_of_range))
      as (ov & om & Hov & Hom). exists ov, om. split_and!; [done..|].
    apply (Hold (v, ov) ltac:(by apply elem_of_range) (i, om) ltac:(by apply elem_of_range)); done.
Qed.

Lemma finish_flat plan next : Structural (finish plan next) = false ->
  Structural plan = false /\ CancelAll plan = false /\ CancelTargets plan = []
  /\ forall c, c ∈ InstrumentChanges plan -> structuralAction (Action c) = false.
Proof.
  unfold finish. cbn [Structural]. rewrite !orb_false_iff, negb_false_iff, Nat.eqb_eq.
  intros [[[? ?] Hl%nil_length_inv] He]. split_and!; [done..|]. intros c Hc.
  destruct (structuralAction (Action c)) eqn:E; [|done].
  assert (existsb (fun c => structuralAction (Action c)) (InstrumentChanges plan) = true); [|congruence].
  apply existsb_exists. exists c. split; [by apply list_elem_of_In|done].
Qed.

Lemma Build_flat old next : Structural (Build (Some old) next) = false ->
  flat (buildDiff old next) /\ CancelAll (Build (Some old) next) = false
  /\ CancelTargets (Build (Some old) next) = [].
Proof.
  unfold Build. destruct (buildDiff old next) as [plan changes]. set (p := set_InstrumentChanges _ _).
  intros (Hs & Hall & Ht & Hc)%finish_flat. split_and!.
  - split; [done|]. intros id c Hin. unfold p in Hc. cbn [set_InstrumentChanges InstrumentChanges] in Hc.
    apply (Hc (sortReasons c)). apply elem_of_app. right. apply list_elem_of_fmap.
    exists (id, c). split; [done|]. by apply elem_of_range.
  - done.
  - unfold finish. cbn [CancelTargets]. rewrite Ht. apply Permutation_nil_r. apply sort_slice_perm.
Qed.

(** C33: the markets a plan cancels are exactly those that were being traded and must be
    left: live markets of enabled and trading venues whose instrument, venue or
    market is gone or stopped, or which are reached under another connection, symbol
    or credential; each is listed once, ordered by instrument and venue, whatever
    the iteration order of the maps.  (This is about the list of single markets: a change
    from live to shadow mode sets [CancelAll] instead, and the cleanup cancels everything.) *)
Theorem cancel_targets_exact old next :
  (forall k, k ∈ map tkey (CancelTargets (Build (Some old) next)) <-> leaves old next k)
  /\ NoDup (map tkey (CancelTargets (Build (Some old) next)))
  /\ StronglySorted (fun a b => targetLess b a = false) (CancelTargets (Build (Some old) next)).
Proof.
  rewrite Build_targets. set (l := CancelTargets _).
  assert (Hperm : map tkey (sort_slice targetLess l) ≡ₚ map tkey l)
    by (apply Permutation_map, sort_slice_perm).
  split_and!.
  - intros k. rewrite Hperm. apply buildDiff_targets.
  - rewrite Hperm. apply buildDiff_distinct.
  - apply sort_slice_sorted; [apply targetLess_asym|apply targetLess_trans].
Qed.

(** A plan that is not structural cancels nothing and changes only parameters: the
    mode, the RPC, audit and heartbeat settings are the same, the instruments are
    the same with the same tokens and price path, and every market of the new
    configuration existed under the same connection, switches and rules. *)
Theorem hot_apply_changes_parameters old next :
  Structural (Build (Some old) next) = false ->
  CancelAll (Build (Some old) next) = false /\ CancelTargets (Build (Some old) next) = []
  /\ same_structure old next.
Proof. intros (Hf & ? & ?)%Build_flat. split_and!; [done..|]. by apply buildDiff_flat. Qed.
End Facts.

(** ** Examples *)

#[local] Instance ex_range : MapRange := sorted_range.
#[local] Instance ex_sort : SliceSort := merge_slice_sort.

Definition ex_live : Config := ex_config ex_strategy.
Definition with_venues (c : Config) (mode : Mode) (venues : gmap string VenueConfig) : Config :=
  MkConfig mode (PollIntervalMS c) (AuditPath c) (AuditMaxBytes c) (AuditBackups c)
    (HeartbeatPath c) (WatchdogTimeoutSeconds c) (MarketFailureThreshold c)
    (MarketRecoveryThreshold c) (MarketErrorGraceSeconds c) (TradingProgressTimeoutSeconds c)
    (MaxConcurrentInstruments c) (RulesRefreshSeconds c) (RPC c) (Instruments c) venues.

Lemma hot_apply_changes_parameters_witness :
  CancelAll (Build (Some ex_live) ex_live) = false
  /\ CancelTargets (Build (Some ex_live) ex_live) = [] /\ same_structure ex_live ex_live.
Proof. apply hot_apply_changes_parameters. vm_compute. reflexivity. Defined.

(** Removing every market in shadow mode is not noticed: the plan is empty and not
    structural, so the running engine keeps its old markets. *)
Lemma shadow_removal_unnoticed :
  let old := with_venues ex_live ModeShadow (Venues ex_live) in
  let next := with_venues ex_live ModeShadow ∅ in
  Venues old <> ∅ /\ InstrumentChanges (Build (Some old) next) = []
  /\ HotChanges (Build (Some old) next) = [] /\ Structural (Build (Some old) next) = false.
Proof.
  cbv zeta. split; [|vm_compute; repeat split; reflexivity].
  intros E. apply (f_equal size) in E. revert E. vm_compute. discriminate.
Qed.
