(* ===== verification/Discipline.v ===== *)
(** What the engine relies on of the reconciler: every call goes to the client it was given;
    and traces in which each exchange write follows the events that allow it. *)
From S2P Require Import Prelude Decimal Domain Json World Venue Process Oms.

Open Scope string_scope.
Open Scope list_scope.
Open Scope Z_scope.

(** An event that is no call to another client, and none to the runtime store. *)
Definition at_client (client : string) (e : event) : Prop :=
  match ev_action e with
  | Call cl _ => cl = client
  | Runtime _ => False
  | _ => True
  end.

Section AtClient.
Context (client : Client) `{MapRange} `{SliceSort}.
Abbreviation P := (Forall (at_client (Name client))) (only parsing).
Abbreviation emitsC := (emits (Forall (at_client (Name client)))) (only parsing).

Ltac go := repeat first [emits_step | by repeat constructor].

Lemma guard_at g : emitsC (checkWriteGuard g).
Proof. unfold checkWriteGuard. go. Qed.
Hint Resolve guard_at : emits.

Lemma persist_at r key : emitsC (persist r key).
Proof. unfold persist. cbv zeta. go. Qed.
Hint Resolve persist_at : emits.

Lemma block_at r key err : emitsC (block r key err).
Proof. unfold block. cbv zeta. go. Qed.
Hint Resolve block_at : emits.

Lemma ensureLoaded_at r key : emitsC (ensureLoaded r key).
Proof. unfold ensureLoaded. cbv zeta. go. Qed.
Hint Resolve ensureLoaded_at : emits.

Lemma cancelBatches_at g symbol fuel ids : emitsC (cancelBatches client g symbol fuel ids).
Proof. revert ids. induction fuel as [|f IH]; intros [|id ids]; cbn [cancelBatches]; go. Qed.
Hint Resolve cancelBatches_at : emits.

Lemma cancelEach_at g symbol orders : emitsC (cancelEach client g symbol orders).
Proof. induction orders as [|o orders IH]; cbn [cancelEach]; go. Qed.
Hint Resolve cancelEach_at : emits.

Lemma cancelOrders_at symbol orders g : emitsC (cancelOrders client symbol orders g).
Proof. unfold cancelOrders. go. Qed.
Hint Resolve cancelOrders_at : emits.

Lemma waiting_at r key orders : emitsC (waitingForCancelConfirmation r key orders).
Proof. unfold waitingForCancelConfirmation. cbv zeta. go. Qed.
Hint Resolve waiting_at : emits.

Lemma setPendingCancels_at r key ids : emitsC (setPendingCancels r key ids).
Proof. unfold setPendingCancels. cbv zeta. go. Qed.
Hint Resolve setPendingCancels_at : emits.

Lemma CancelManaged_at r instrumentID symbol g :
  emitsC (CancelManagedGuardedWithResult r client instrumentID symbol g).
Proof. unfold CancelManagedGuardedWithResult. cbv zeta. go. Qed.

Lemma ClearBlocked_at r instrumentID : emitsC (ClearBlocked r client instrumentID).
Proof. unfold ClearBlocked. cbv zeta. go. Qed.

Lemma checkPending_at key symbol now st c : emitsC (checkPending client key symbol now st c).
Proof. unfold checkPending. cbv zeta. go. Qed.
Hint Resolve checkPending_at : emits.

Lemma activePendingCreates_at r key symbol orders :
  emitsC (activePendingCreates r client key symbol orders).
Proof. unfold activePendingCreates. cbv zeta. go. Qed.
Hint Resolve activePendingCreates_at : emits.

Lemma matchAll_at quotes thr refresh managed pending :
  emitsC (matchAll quotes thr refresh managed pending).
Proof. unfold matchAll, scheduleExpired, collectExpired, pairRefresh. cbv zeta. go. Qed.
Hint Resolve matchAll_at : emits.

Lemma selectMissing_at instrumentID fence limit acc mq :
  emitsC (selectMissing instrumentID fence limit acc mq).
Proof. unfold selectMissing. cbv zeta. go. Qed.
Hint Resolve selectMissing_at : emits.

Lemma recordOrder_at key st oq : emitsC (recordOrder key st oq).
Proof. unfold recordOrder. cbv zeta. go. Qed.
Hint Resolve recordOrder_at : emits.

Lemma guardClosure_at g s : emitsC (guardClosure g s).
Proof. unfold guardClosure. go. Qed.
Hint Resolve guardClosure_at : emits.

Lemma placeEach_at g done requests s : emitsC (placeEach client (Some (guardClosure g)) done requests s).
Proof. revert done s. induction requests as [|q l IH]; intros done s; cbn [placeEach callBefore]; go. Qed.
Hint Resolve placeEach_at : emits.

Lemma PlacePostOnlyBatch_at g requests s :
  emitsC (PlacePostOnlyBatch client (Some (guardClosure g)) requests s).
Proof. unfold PlacePostOnlyBatch. cbn [callBefore]. go. Qed.
Hint Resolve PlacePostOnlyBatch_at : emits.

Lemma placeMissing_at r key instrumentID quotes matched limit res g fence :
  emitsC (placeMissing r client key instrumentID quotes matched limit res g fence).
Proof. unfold placeMissing. cbv zeta. go. Qed.
Hint Resolve placeMissing_at : emits.

Lemma actOnMatching_at r key instrumentID symbol quotes managed pending m g fence :
  emitsC (actOnMatching r client key instrumentID symbol quotes managed pending m g fence).
Proof. unfold actOnMatching. cbv zeta. go. Qed.
Hint Resolve actOnMatching_at : emits.

Lemma Reconcile_at r instrumentID quotes thr orders g fence refresh :
  emitsC (ReconcileWithOrdersGuardedPolicy r client instrumentID quotes thr orders g fence refresh).
Proof. unfold ReconcileWithOrdersGuardedPolicy. cbv zeta. go. Qed.
End AtClient.

(** Disciplines: what must have happened before an exchange write.

    A rule says, of the events known so far and of the event directly before, whether
    an event may follow.  Rules ask something of writes only and are monotone in what
    is known, so a disciplined trace is closed under concatenation and the engine's
    operations can be checked one by one. *)

Definition Rule : Type := (event -> Prop) -> option event -> event -> Prop.

Class Discipline (Φ : Rule) := {
  d_mono : forall (K K' : event -> Prop) prev prev' e,
    (forall x, K x -> K' x) -> prev = None \/ prev = prev' -> Φ K prev e -> Φ K' prev' e;
  d_quiet : forall K prev e, is_write e = false -> Φ K prev e
}.

(** What is known once [e] has happened. *)
Definition learn (K : event -> Prop) (e : event) : event -> Prop := fun x => K x \/ x = e.

Fixpoint disciplined (Φ : Rule) (K : event -> Prop) (prev : option event) (es : trace) : Prop :=
  match es with
  | [] => True
  | e :: es' => Φ K prev e /\ disciplined Φ (learn K e) (Some e) es'
  end.

(** A trace property that every event but an exchange write has. *)
Class QuietProp (P : trace -> Prop) := {
  #[global] qp_trace :: TraceProp P;
  qp_quiet : forall e, is_write e = false -> P [e]
}.

#[export] Instance quiet_prop : QuietProp quiet.
Proof. split; [exact (quiet_like (fun e => is_write e = false))|]. intros e He. by repeat constructor. Qed.

Section Disciplines.
Context (Φ : Rule) `{!Discipline Φ}.

Lemma disciplined_mono K K' prev prev' es :
  (forall x, K x -> K' x) -> prev = None \/ prev = prev' ->
  disciplined Φ K prev es -> disciplined Φ K' prev' es.
Proof.
  revert K K' prev prev'. induction es as [|e es IH]; intros K K' prev prev' HK Hp; simpl; [done|].
  intros [H1 H2]. split; [by eapply d_mono|]. eapply IH; [|right; reflexivity|exact H2].
  intros x [Hx| ->]; [left; auto|by right].
Qed.

Lemma disciplined_app_any K prev es es' :
  disciplined Φ K prev es -> (forall prev', disciplined Φ K prev' es') ->
  disciplined Φ K prev (es ++ es').
Proof.
  revert K prev. induction es as [|e es IH]; intros K prev; simpl; [auto|].
  intros [H1 H2] H'. split; [done|]. apply IH; [done|]. intros prev'.
  eapply disciplined_mono; [|right; reflexivity|apply H']. by left.
Qed.

Lemma disciplined_app K prev es es' :
  disciplined Φ K prev es -> disciplined Φ K None es' -> disciplined Φ K prev (es ++ es').
Proof.
  intros H H'. apply disciplined_app_any; [done|]. intros prev'.
  eapply disciplined_mono; [|left; reflexivity|exact H']. done.
Qed.

#[export] Instance disciplined_quiet_prop K : QuietProp (disciplined Φ K None).
Proof.
  split; [split; [done|]|].
  - intros es es'. apply disciplined_app.
  - intros e He. split; [by apply d_quiet|done].
Qed.

Lemma quiet_disciplined K prev es : quiet es -> disciplined Φ K prev es.
Proof.
  intros H. revert K prev. induction H as [|e es He _ IH]; intros K prev; simpl; [done|].
  split; [by apply d_quiet|apply IH].
Qed.

(** What happened counts as known afterwards. *)
Lemma disciplined_app_learn K prev es es' : disciplined Φ K prev es ->
  disciplined Φ (fun x => K x \/ x ∈ es) None es' -> disciplined Φ K prev (es ++ es').
Proof.
  revert K prev. induction es as [|e es IH]; intros K prev; simpl.
  - intros _ H'. eapply disciplined_mono; [|left; reflexivity|exact H'].
    intros x [Hx|Hx]; [done|by apply elem_of_nil in Hx].
  - intros [H1 H2] H'. split; [done|]. apply IH; [done|].
    eapply disciplined_mono; [|left; reflexivity|exact H'].
    intros x [Hx|[->|Hx]%elem_of_cons]; [left; by left|left; by right|by right].
Qed.

(** A step whose events the rest may rely on. *)
Lemma runs_learn {S A B} (R : S -> S -> Prop) `{!PreOrder R} (c : X S A) (f : A -> X S B)
    (Post : trace -> A -> S -> Prop) K s :
  okX c s (fun es o s' => disciplined Φ K None es /\ R s s' /\ (forall a, o = inl a -> Post es a s')) ->
  (forall es a s', R s s' -> Post es a s' ->
    runs (disciplined Φ (fun x => K x \/ x ∈ es) None) R (f a) s') ->
  runs (disciplined Φ K None) R (c ≫= f) s.
Proof.
  intros Hc Hf. eapply okX_bind; [exact Hc| |].
  - intros es a s' (HP & HR & Hpost). eapply okX_mono; [apply Hf; [done|by apply Hpost]|].
    intros es' o s'' [HP' HR']. split; [by apply disciplined_app_learn|by transitivity s'].
  - by intros es m s' (HP & HR & _).
Qed.

(** The rule, at every position of a disciplined trace. *)
Lemma disciplined_at K es1 e es2 : disciplined Φ K None (es1 ++ e :: es2) ->
  Φ (fun x => K x \/ x ∈ es1) (last es1) e.
Proof.
  assert (Hg : forall prev, disciplined Φ K prev (es1 ++ e :: es2) ->
    Φ (fun x => K x \/ x ∈ es1) (match last es1 with Some x => Some x | None => prev end) e).
  { revert K. induction es1 as [|e1 es1 IH]; intros K prev; simpl.
    - intros [H _]. eapply d_mono; [|right; reflexivity|exact H]. by left.
    - intros [_ H]. specialize (IH _ _ H).
      assert (Hl : last (e1 :: es1) = match last es1 with Some x => Some x | None => Some e1 end).
      { by rewrite last_cons. }
      rewrite Hl. destruct (last es1); (eapply d_mono; [|right; reflexivity|exact IH]);
        (intros x [[Hx| ->]|Hx]; [by left|right; by left|right; by right]). }
  intros H. specialize (Hg None H). by destruct (last es1).
Qed.

(** ** A guarded component *)

(** A write only directly after a passed guard; [b]: the event before was one. *)
Fixpoint after_guard (b : bool) (es : trace) : Prop :=
  match es with
  | [] => True
  | e :: es' => (is_write e = true -> b = true) /\ after_guard (guard_passed e) es'
  end.

Lemma after_guard_mono b es : after_guard false es -> after_guard b es.
Proof. destruct es; simpl; [done|]. intros [H1 H2]. split; [|done]. intros Hw. by specialize (H1 Hw). Qed.

Lemma guarded_after b es : guarded true es -> after_guard b es.
Proof.
  intros H. revert b. induction H as [|e es He _ IH|e es He|a e es Ha _ IH]; intros b; simpl; try done.
  - split; [congruence|apply IH].
  - split.
    + destruct a as [[]]; try done.
    + by rewrite Ha.
Qed.

Definition guard_traces (pass : event) (r : option error) (gs : trace) : Prop :=
  quiet gs /\ (r = None -> gs = [pass]).

(** Guarded events, the guard replaced by its process: disciplined, if every write may
    follow the event [pass] of a passed guard. *)
Lemma expands_disciplined K pass es es' :
  is_write pass = false -> expands (guard_traces pass) es es' -> guarded true es ->
  (forall e, e ∈ es -> is_write e = true -> Φ K (Some pass) e) ->
  disciplined Φ K None es'.
Proof.
  intros Hpass Hexp Hg%(guarded_after false) HΦ.
  assert (Hgen : forall b prev, after_guard b es -> (b = true -> prev = Some pass) ->
    disciplined Φ K prev es'); [|by apply (Hgen false None)].
  clear Hg. revert HΦ. induction Hexp as [|e es es' He _ IH|r gs es es' [Hq Hr] _ IH];
    intros HΦ b prev; simpl; [done| |].
  - intros [Hw Hrest] Hb. split.
    + destruct (is_write e) eqn:Ew; [|by apply d_quiet]. rewrite (Hb (Hw eq_refl)).
      apply HΦ; [by left|done].
    + assert (Hp : guard_passed e = false) by (destruct e as [[] r]; done).
      rewrite Hp in Hrest. eapply disciplined_mono; [by left|right; reflexivity|].
      apply (IH (fun e' H' => HΦ e' (proj2 (elem_of_cons _ _ _) (or_intror H'))) false _ Hrest). done.
  - intros [_ Hrest] _. pose proof (IH (fun e' H' => HΦ e' (proj2 (elem_of_cons _ _ _) (or_intror H')))) as IH'.
    destruct r as [err|].
    + apply disciplined_app_any; [by apply quiet_disciplined|]. intros prev'. by apply (IH' false).
    + rewrite (Hr eq_refl). simpl. split; [by apply d_quiet|].
      eapply disciplined_mono; [by left|right; reflexivity|]. by apply (IH' true).
Qed.

(** Without a guard every write must be allowed by itself. *)
Lemma expands_disciplined_free K pass es es' :
  expands (guard_traces pass) es es' ->
  (forall e, e ∈ es -> is_write e = true -> Φ K None e) -> disciplined Φ K None es'.
Proof.
  intros Hexp HΦ. induction Hexp as [|e es es' He _ IH|r gs es es' [Hq Hr] _ IH]; [done| |].
  - apply (disciplined_app K None [e]).
    + split; [|done]. destruct (is_write e) eqn:Ew; [|by apply d_quiet]. apply HΦ; [by left|done].
    + apply IH. intros e' He'. apply HΦ. by right.
  - apply disciplined_app; [by apply quiet_disciplined|].
    apply IH. intros e' He'. apply HΦ. by right.
Qed.
End Disciplines.
