(* ===== verification/AuditEvents.v ===== *)
(** The JSON form of the data the engine writes to the audit log: the struct tags of
    src/internal/domain/types.go, src/internal/oms/reconciler.go and
    src/internal/runtimeops/store.go. *)
From S2P Require Import Prelude Decimal Domain Json Runtimeops World Venue Oms.

Open Scope string_scope.
Open Scope list_scope.
Open Scope Z_scope.

#[export] Instance marshal_book : Marshal Book := fun b =>
  JObj [("venue", marshal (book_Venue b)); ("symbol", marshal (book_Symbol b));
        ("bid_price", marshal (BidPrice b)); ("bid_qty", marshal (BidQty b));
        ("ask_price", marshal (AskPrice b)); ("ask_qty", marshal (AskQty b));
        ("timestamp", JTime (book_Timestamp b))].

#[export] Instance marshal_referencePrice : Marshal ReferencePrice := fun r =>
  JObj [("instrument_id", marshal (ref_InstrumentID r)); ("price", marshal (ref_Price r));
        ("spot", marshal (ref_Spot r)); ("twap_ready", marshal (ref_TWAPReady r));
        ("confidence", marshal (ref_Confidence r)); ("block_number", marshal (ref_BlockNumber r));
        ("block_time", JTime (ref_BlockTime r)); ("valid_until", JTime (ref_ValidUntil r))].

#[export] Instance marshal_budget : Marshal QuoteBudget := fun b =>
  JObj [("reserve_bps", marshal (ReserveBPS b)); ("target_orders", marshal (TargetOrders b));
        ("eligible_orders", marshal (EligibleOrders b)); ("base_budget", marshal (BaseBudget b));
        ("base_required", marshal (BaseRequired b)); ("quote_budget", marshal (BudgetQuote b));
        ("quote_required", marshal (QuoteRequired b)); ("base_limited", marshal (BaseLimited b));
        ("quote_limited", marshal (QuoteLimited b))].

#[export] Instance marshal_rules : Marshal MarketRules := fun r =>
  JObj [("symbol", marshal (rules_Symbol r)); ("base_asset", marshal (rules_BaseAsset r));
        ("quote_asset", marshal (rules_QuoteAsset r)); ("price_tick", marshal (rules_PriceTick r));
        ("quantity_step", marshal (rules_QuantityStep r));
        ("min_quantity", marshal (rules_MinQuantity r)); ("max_quantity", marshal (rules_MaxQuantity r));
        ("min_notional", marshal (rules_MinNotional r)); ("max_notional", marshal (rules_MaxNotional r));
        ("min_price", marshal (rules_MinPrice r)); ("max_price", marshal (rules_MaxPrice r));
        ("max_open_orders", marshal (rules_MaxOpenOrders r))].

#[export] Instance marshal_fill : Marshal Fill := fun f =>
  JObj ([("venue", marshal (fill_Venue f)); ("trade_id", marshal (TradeID f));
         ("order_id", marshal (fill_OrderID f)); ("symbol", marshal (fill_Symbol f));
         ("side", marshal (fill_Side f)); ("price", marshal (fill_Price f));
         ("quantity", marshal (fill_Quantity f)); ("quote_quantity", marshal (QuoteQuantity f));
         ("fee", marshal (Fee f))]
    ++ omit_if (String.eqb (FeeAsset f) "") "fee_asset" (marshal (FeeAsset f))
    ++ [("maker", marshal (Maker f))]
    ++ omit_if (negb (Aggregate f)) "aggregate" (marshal (Aggregate f))
    ++ omit_if (negb (Simulated f)) "simulated" (marshal (Simulated f))
    ++ [("timestamp", JTime (fill_Timestamp f))]).

#[export] Instance marshal_result : Marshal Oms.Result := fun r =>
  JObj [("kept", marshal (Kept r)); ("canceled", marshal (Canceled r));
        ("placed", marshal (Placed r)); ("pending", marshal (Pending r))].

#[export] Instance marshal_ruleChange : Marshal RuleChange := fun c =>
  JObj [("instrument_id", marshal (rc_InstrumentID c)); ("venue", marshal (rc_Venue c));
        ("symbol", marshal (rc_Symbol c)); ("previous", marshal (rc_Previous c));
        ("current", marshal (rc_Current c)); ("detected_at", JTime (DetectedAt c))].
