(* ===== verification/Engine.v ===== *)
(** The state of the trading engine and the helpers of its cycle
    (src/internal/engine/engine.go): controls, caches, market leases, the fencing guard,
    fault handling and the metrics.

    The engine is one record; the maps that the source guards with mutexes are fields
    of it.  An operation is a process [X Engine A] ([X Cycle A] where it also uses
    the balance cache of the cycle).  Logging (log/slog) has no effect here; the
    optional interfaces of the runtime store are the flags of [RuntimeStore].
    Cancellation of contexts shows as errors of the calls. *)
From S2P Require Import Prelude Decimal Domain Json FaultData TradesimData Runtimeops World Config Strategy Risk Tradesim Fault Venue Process Oms AuditEvents.

Open Scope string_scope.
Open Scope list_scope.
Open Scope Z_scope.

(** ** Interfaces and state *)

(** [engine.PriceSource], as an operation on the state of its implementation. *)
Class PriceSource (O : Type) := source_Price : InstrumentConfig -> O -> prog (reply ReferencePrice * O).

(** Which of the optional interfaces a runtime store implements. *)
Record RuntimeStore := MkRuntimeStore {
  isOMSStateStore : bool;
  isFaultStateStore : bool;
  isMarketLocker : bool;
  isReconcileController : bool;
  isTradingProgressReporter : bool;
  isCyclePerformanceReporter : bool;
  isMetricsReporter : bool;
  isRuleChangeReporter : bool;
  isSimulatedFillPublisher : bool
}.

Record engineMetrics := MkEngineMetrics {
  startedAt : Time;
  cyclesTotal : Z;
  cycleFailuresTotal : Z;
  instrumentRunsTotal : Z;
  instrumentFailuresTotal : Z;
  venueFaultEventsTotal : Z;
  omsPlacedTotal : Z;
  omsCanceledTotal : Z;
  simulatedTradesTotal : Z;
  auditFlushErrorsTotal : Z;
  ruleChangesTotal : Z;
  leaseFenceRejectsTotal : Z
}.

Record fillCacheEntry := MkFillCacheEntry {
  fc_fills : list Fill;
  errorText : string;
  fetchedAt : Time
}.

(** [pauseApplied] holds the keys whose entry is true; the locks of an instrument are
    the account keys they belong to. *)
Record Engine (O : Type) := MkEngine {
  cfg : Config;
  oracle : option O;
  venues : gmap string Client;
  reconciler : Reconciler;
  runtime : option RuntimeStore;
  paused : gmap string PauseState;
  pauseApplied : gset string;
  fillCache : gmap string fillCacheEntry;
  ownerID : string;
  heldLeases : gmap string Z;
  faults : Manager;
  lastReferenceValidUntil : gmap string Time;
  lastBookAt : gmap string Time;
  lastInventory : gmap string Decimal;
  startupFailures : gmap string string;
  preflightBlocked : gmap string string;
  tradeSimulator : gmap string Tradesim.state;
  instrumentAccountLocks : gmap string (list string);
  metrics : engineMetrics;
  lastCycleError : string;
  lastCycleErrorAt : Time
}.
Arguments MkEngine {O}.
Arguments cfg {O} e.
Arguments oracle {O} e.
Arguments venues {O} e.
Arguments reconciler {O} e.
Arguments runtime {O} e.
Arguments paused {O} e.
Arguments pauseApplied {O} e.
Arguments fillCache {O} e.
Arguments ownerID {O} e.
Arguments heldLeases {O} e.
Arguments faults {O} e.
Arguments lastReferenceValidUntil {O} e.
Arguments lastBookAt {O} e.
Arguments lastInventory {O} e.
Arguments startupFailures {O} e.
Arguments preflightBlocked {O} e.
Arguments tradeSimulator {O} e.
Arguments instrumentAccountLocks {O} e.
Arguments metrics {O} e.
Arguments lastCycleError {O} e.
Arguments lastCycleErrorAt {O} e.

(** Assignments to one field. *)
Section Setters.
Context {O : Type}.
Definition set_cfg (v : Config) (e : Engine O) : Engine O :=
  MkEngine v (oracle e) (venues e) (reconciler e) (runtime e) (paused e) (pauseApplied e)
    (fillCache e) (ownerID e) (heldLeases e) (faults e) (lastReferenceValidUntil e) (lastBookAt e)
    (lastInventory e) (startupFailures e) (preflightBlocked e) (tradeSimulator e)
    (instrumentAccountLocks e) (metrics e) (lastCycleError e) (lastCycleErrorAt e).
Definition set_oracle (v : option O) (e : Engine O) : Engine O :=
  MkEngine (cfg e) v (venues e) (reconciler e) (runtime e) (paused e) (pauseApplied e)
    (fillCache e) (ownerID e) (heldLeases e) (faults e) (lastReferenceValidUntil e) (lastBookAt e)
    (lastInventory e) (startupFailures e) (preflightBlocked e) (tradeSimulator e)
    (instrumentAccountLocks e) (metrics e) (lastCycleError e) (lastCycleErrorAt e).
Definition set_reconciler (v : Reconciler) (e : Engine O) : Engine O :=
  MkEngine (cfg e) (oracle e) (venues e) v (runtime e) (paused e) (pauseApplied e) (fillCache e)
    (ownerID e) (heldLeases e) (faults e) (lastReferenceValidUntil e) (lastBookAt e)
    (lastInventory e) (startupFailures e) (preflightBlocked e) (tradeSimulator e)
    (instrumentAccountLocks e) (metrics e) (lastCycleError e) (lastCycleErrorAt e).
Definition set_paused (v : gmap string PauseState) (e : Engine O) : Engine O :=
  MkEngine (cfg e) (oracle e) (venues e) (reconciler e) (runtime e) v (pauseApplied e)
    (fillCache e) (ownerID e) (heldLeases e) (faults e) (lastReferenceValidUntil e) (lastBookAt e)
    (lastInventory e) (startupFailures e) (preflightBlocked e) (tradeSimulator e)
    (instrumentAccountLocks e) (metrics e) (lastCycleError e) (lastCycleErrorAt e).
Definition set_pauseApplied (v : gset string) (e : Engine O) : Engine O :=
  MkEngine (cfg e) (oracle e) (venues e) (reconciler e) (runtime e) (paused e) v (fillCache e)
    (ownerID e) (heldLeases e) (faults e) (lastReferenceValidUntil e) (lastBookAt e)
    (lastInventory e) (startupFailures e) (preflightBlocked e) (tradeSimulator e)
    (instrumentAccountLocks e) (metrics e) (lastCycleError e) (lastCycleErrorAt e).
Definition set_fillCache (v : gmap string fillCacheEntry) (e : Engine O) : Engine O :=
  MkEngine (cfg e) (oracle e) (venues e) (reconciler e) (runtime e) (paused e) (pauseApplied e) v
    (ownerID e) (heldLeases e) (faults e) (lastReferenceValidUntil e) (lastBookAt e)
    (lastInventory e) (startupFailures e) (preflightBlocked e) (tradeSimulator e)
    (instrumentAccountLocks e) (metrics e) (lastCycleError e) (lastCycleErrorAt e).
Definition set_heldLeases (v : gmap string Z) (e : Engine O) : Engine O :=
  MkEngine (cfg e) (oracle e) (venues e) (reconciler e) (runtime e) (paused e) (pauseApplied e)
    (fillCache e) (ownerID e) v (faults e) (lastReferenceValidUntil e) (lastBookAt e)
    (lastInventory e) (startupFailures e) (preflightBlocked e) (tradeSimulator e)
    (instrumentAccountLocks e) (metrics e) (lastCycleError e) (lastCycleErrorAt e).
Definition set_faults (v : Manager) (e : Engine O) : Engine O :=
  MkEngine (cfg e) (oracle e) (venues e) (reconciler e) (runtime e) (paused e) (pauseApplied e)
    (fillCache e) (ownerID e) (heldLeases e) v (lastReferenceValidUntil e) (lastBookAt e)
    (lastInventory e) (startupFailures e) (preflightBlocked e) (tradeSimulator e)
    (instrumentAccountLocks e) (metrics e) (lastCycleError e) (lastCycleErrorAt e).
Definition set_lastReferenceValidUntil (v : gmap string Time) (e : Engine O) : Engine O :=
  MkEngine (cfg e) (oracle e) (venues e) (reconciler e) (runtime e) (paused e) (pauseApplied e)
    (fillCache e) (ownerID e) (heldLeases e) (faults e) v (lastBookAt e) (lastInventory e)
    (startupFailures e) (preflightBlocked e) (tradeSimulator e) (instrumentAccountLocks e)
    (metrics e) (lastCycleError e) (lastCycleErrorAt e).
Definition set_lastBookAt (v : gmap string Time) (e : Engine O) : Engine O :=
  MkEngine (cfg e) (oracle e) (venues e) (reconciler e) (runtime e) (paused e) (pauseApplied e)
    (fillCache e) (ownerID e) (heldLeases e) (faults e) (lastReferenceValidUntil e) v
    (lastInventory e) (startupFailures e) (preflightBlocked e) (tradeSimulator e)
    (instrumentAccountLocks e) (metrics e) (lastCycleError e) (lastCycleErrorAt e).
Definition set_lastInventory (v : gmap string Decimal) (e : Engine O) : Engine O :=
  MkEngine (cfg e) (oracle e) (venues e) (reconciler e) (runtime e) (paused e) (pauseApplied e)
    (fillCache e) (ownerID e) (heldLeases e) (faults e) (lastReferenceValidUntil e) (lastBookAt e)
    v (startupFailures e) (preflightBlocked e) (tradeSimulator e) (instrumentAccountLocks e)
    (metrics e) (lastCycleError e) (lastCycleErrorAt e).
Definition set_startupFailures (v : gmap string string) (e : Engine O) : Engine O :=
  MkEngine (cfg e) (oracle e) (venues e) (reconciler e) (runtime e) (paused e) (pauseApplied e)
    (fillCache e) (ownerID e) (heldLeases e) (faults e) (lastReferenceValidUntil e) (lastBookAt e)
    (lastInventory e) v (preflightBlocked e) (tradeSimulator e) (instrumentAccountLocks e)
    (metrics e) (lastCycleError e) (lastCycleErrorAt e).
Definition set_preflightBlocked (v : gmap string string) (e : Engine O) : Engine O :=
  MkEngine (cfg e) (oracle e) (venues e) (reconciler e) (runtime e) (paused e) (pauseApplied e)
    (fillCache e) (ownerID e) (heldLeases e) (faults e) (lastReferenceValidUntil e) (lastBookAt e)
    (lastInventory e) (startupFailures e) v (tradeSimulator e) (instrumentAccountLocks e)
    (metrics e) (lastCycleError e) (lastCycleErrorAt e).
Definition set_tradeSimulator (v : gmap string Tradesim.state) (e : Engine O) : Engine O :=
  MkEngine (cfg e) (oracle e) (venues e) (reconciler e) (runtime e) (paused e) (pauseApplied e)
    (fillCache e) (ownerID e) (heldLeases e) (faults e) (lastReferenceValidUntil e) (lastBookAt e)
    (lastInventory e) (startupFailures e) (preflightBlocked e) v (instrumentAccountLocks e)
    (metrics e) (lastCycleError e) (lastCycleErrorAt e).
Definition set_metrics (v : engineMetrics) (e : Engine O) : Engine O :=
  MkEngine (cfg e) (oracle e) (venues e) (reconciler e) (runtime e) (paused e) (pauseApplied e)
    (fillCache e) (ownerID e) (heldLeases e) (faults e) (lastReferenceValidUntil e) (lastBookAt e)
    (lastInventory e) (startupFailures e) (preflightBlocked e) (tradeSimulator e)
    (instrumentAccountLocks e) v (lastCycleError e) (lastCycleErrorAt e).
Definition set_lastCycleError (v : string) (e : Engine O) : Engine O :=
  MkEngine (cfg e) (oracle e) (venues e) (reconciler e) (runtime e) (paused e) (pauseApplied e)
    (fillCache e) (ownerID e) (heldLeases e) (faults e) (lastReferenceValidUntil e) (lastBookAt e)
    (lastInventory e) (startupFailures e) (preflightBlocked e) (tradeSimulator e)
    (instrumentAccountLocks e) (metrics e) v (lastCycleErrorAt e).
Definition set_lastCycleErrorAt (v : Time) (e : Engine O) : Engine O :=
  MkEngine (cfg e) (oracle e) (venues e) (reconciler e) (runtime e) (paused e) (pauseApplied e)
    (fillCache e) (ownerID e) (heldLeases e) (faults e) (lastReferenceValidUntil e) (lastBookAt e)
    (lastInventory e) (startupFailures e) (preflightBlocked e) (tradeSimulator e)
    (instrumentAccountLocks e) (metrics e) (lastCycleError e) v.
End Setters.

(** ** Small helpers *)

Definition errorString (err : option error) : string :=
  match err with None => "" | Some e => Error e end.

Definition appendError (current next : string) : string :=
  if String.eqb current "" then next else current +:+ "; " +:+ next.

Definition joinedError (failures : list string) : option error :=
  match failures with [] => None | _ => Some (Errorf (StringsJoin failures "; ")) end.

(** [fmt.Errorf(prefix + "%s", strings.Join(failures, "; "))] unless there is none. *)
Definition failuresError (prefix : string) (failures : list string) : option error :=
  match failures with [] => None | _ => Some (Errorf (prefix +:+ StringsJoin failures "; ")) end.

Definition findBalance (balances : list Balance) (asset : string) : option Balance :=
  snd <$> list_find (fun b => EqualFold (bal_Asset b) asset = true) balances.

Definition accountCacheKey (venueType : string) (credentialID : Z) : string :=
  ToLower venueType +:+ "/" +:+ pretty credentialID.

Definition marketFaultKey (venueName instrumentID : string) (market : VenueMarketConfig) : string :=
  ToLower (TrimSpace venueName +:+ "/" +:+ pretty (CredentialID market) +:+ "/"
    +:+ TrimSpace instrumentID +:+ "/" +:+ TrimSpace (market_Symbol market)).

Definition marketLeaseKey (venueName instrumentID : string) (market : VenueMarketConfig) : string :=
  ToLower (venueName +:+ "/" +:+ pretty (CredentialID market) +:+ "/"
    +:+ instrumentID +:+ "/" +:+ market_Symbol market).

(** The rules a market is configured with; the two snapshots of a cycle list the same
    fields. *)
Definition marketRulesFromConfig (market : VenueMarketConfig) : MarketRules :=
  MkMarketRules (market_Symbol market) (market_BaseAsset market) (market_QuoteAsset market)
    (PriceTick market) (QuantityStep market) (MinQuantity market) (MaxQuantity market)
    (MinNotional market) (MaxNotional market) (MinPrice market) (MaxPrice market)
    (MaxOpenOrders market).

Definition applyMarketRules (market : VenueMarketConfig) (rules : MarketRules) : VenueMarketConfig :=
  MkVenueMarketConfig (market_Symbol market) (market_BaseAsset market) (market_QuoteAsset market)
    (rules_PriceTick rules) (rules_QuantityStep rules)
    (if IsPositive (rules_MinNotional rules) then rules_MinNotional rules else MinNotional market)
    (rules_MinQuantity rules) (rules_MaxQuantity rules) (rules_MaxNotional rules)
    (rules_MinPrice rules) (rules_MaxPrice rules) (rules_MaxOpenOrders rules)
    (MaxBaseCommitment market) (MaxQuoteCommitment market) (CredentialID market).

Definition equalMarketRules (a b : MarketRules) : bool :=
  EqualFold (rules_Symbol a) (rules_Symbol b) && EqualFold (rules_BaseAsset a) (rules_BaseAsset b)
  && EqualFold (rules_QuoteAsset a) (rules_QuoteAsset b)
  && (Cmp (rules_PriceTick a) (rules_PriceTick b) =? 0)
  && (Cmp (rules_QuantityStep a) (rules_QuantityStep b) =? 0)
  && (Cmp (rules_MinQuantity a) (rules_MinQuantity b) =? 0)
  && (Cmp (rules_MaxQuantity a) (rules_MaxQuantity b) =? 0)
  && (Cmp (rules_MinNotional a) (rules_MinNotional b) =? 0)
  && (Cmp (rules_MaxNotional a) (rules_MaxNotional b) =? 0)
  && (Cmp (rules_MinPrice a) (rules_MinPrice b) =? 0)
  && (Cmp (rules_MaxPrice a) (rules_MaxPrice b) =? 0)
  && (rules_MaxOpenOrders a =? rules_MaxOpenOrders b).

Record quoteSummary := MkQuoteSummary {
  sum_Count : Z;
  BuyCount : Z;
  SellCount : Z;
  BestBid : Decimal;
  OuterBid : Decimal;
  BestAsk : Decimal;
  OuterAsk : Decimal;
  TotalQuantity : Decimal
}.

#[export] Instance marshal_summary : Marshal quoteSummary := fun s =>
  JObj [("count", marshal (sum_Count s)); ("buy_count", marshal (BuyCount s));
        ("sell_count", marshal (SellCount s)); ("best_bid", marshal (BestBid s));
        ("outer_bid", marshal (OuterBid s)); ("best_ask", marshal (BestAsk s));
        ("outer_ask", marshal (OuterAsk s)); ("total_quantity", marshal (TotalQuantity s))].

(** One iteration of the loop of [summarizeQuotes]. *)
Definition summarizeQuote (s : quoteSummary) (q : Quote) : quoteSummary :=
  let total := Add (TotalQuantity s) (quote_Quantity q) in
  let p := quote_Price q in
  if String.eqb (quote_Side q) Buy then
    let n := BuyCount s + 1 in
    MkQuoteSummary (sum_Count s) n (SellCount s)
      (if (n =? 1) || (0 <? Cmp p (BestBid s)) then p else BestBid s)
      (if (n =? 1) || (Cmp p (OuterBid s) <? 0) then p else OuterBid s)
      (BestAsk s) (OuterAsk s) total
  else
    let n := SellCount s + 1 in
    MkQuoteSummary (sum_Count s) (BuyCount s) n (BestBid s) (OuterBid s)
      (if (n =? 1) || (Cmp p (BestAsk s) <? 0) then p else BestAsk s)
      (if (n =? 1) || (0 <? Cmp p (OuterAsk s)) then p else OuterAsk s) total.

Definition summarizeQuotes (quotes : list Quote) : quoteSummary :=
  foldl summarizeQuote
    (MkQuoteSummary (Z.of_nat (length quotes)) 0 0 Zero Zero Zero Zero Zero) quotes.

(** ** Account locks *)

Section Locks.
Context `{MapRange} `{SliceSort}.

(** The keys of one market added to those of its instrument. *)
Definition addAccountKey (venueType : string) (keys : gmap string (gset string))
    (im : string * VenueMarketConfig) : gmap string (gset string) :=
  if CredentialID (snd im) <=? 0 then keys
  else <[fst im := {[accountCacheKey venueType (CredentialID (snd im))]}
                     ∪ default ∅ (keys !! fst im)]> keys.

Definition accountKeys (c : Config) : gmap string (gset string) :=
  foldl (fun keys '(_, v) =>
           if venue_Enabled v then foldl (addAccountKey (venue_Type v)) keys (range (Markets v))
           else keys)
    ∅ (range (Venues c)).

Definition buildInstrumentAccountLocks (c : Config) : gmap string (list string) :=
  (fun keySet => sort_slice string_less (elements keySet)) <$> accountKeys c.
End Locks.

(** ** Construction and configuration *)

Section Operations.
Context {O : Type}.

(** [NewWithOwner]: [fresh] is the random identifier drawn when no owner is given,
    [now] the start time of the metrics. *)
Definition NewWithOwner `{MapRange} `{SliceSort} (c : Config) (o : option O)
    (vs : gmap string Client) (store : option RuntimeStore) (owner fresh : string) (now : Time)
    : Engine O :=
  let has (f : RuntimeStore -> bool) := match store with Some s => f s | None => false end in
  MkEngine c o vs (Oms.NewWithStateStore (has isOMSStateStore)) store ∅ ∅ ∅
    (if String.eqb owner "" then fresh else owner) ∅
    (Fault.NewWithStateStore (MarketFailureThreshold c) (MarketRecoveryThreshold c)
       (has isFaultStateStore))
    ∅ ∅ ∅ ∅ ∅ Tradesim.New (buildInstrumentAccountLocks c)
    (MkEngineMetrics now 0 0 0 0 0 0 0 0 0 0 0) "" zero_time.

Definition SetStartupFailures (failures : gmap string string) (e : Engine O) : Engine O :=
  set_startupFailures (filter (fun kv => TrimSpace (snd kv) <> "") failures) e.

Definition BlockedInstruments (e : Engine O) : gmap string string := preflightBlocked e.

Definition startupFailure (e : Engine O) (instrumentID : string) : string :=
  default "" (startupFailures e !! instrumentID).

Definition EffectiveConfig (e : Engine O) : Config := cfg e.

Definition InheritMetricsFrom (previous : option (Engine O)) (e : Engine O) : Engine O :=
  match previous with Some p => set_metrics (metrics p) e | None => e end.

(** The strategy a hot swap installs, with the guardrails of the full build path. *)
Definition guardedStrategy (s : StrategyConfig) : StrategyConfig :=
  MkStrategyConfig (HalfSpreadBPS s) (LevelSpacingBPS s) (Levels s) (OrderSize s)
    (MinOrderNotional s) (MaxOrderNotional s) (RepriceThresholdBPS s) (BalanceReserveBPS s)
    (if MaxVenueReferenceDeviationBPS s =? 0 then 500 else MaxVenueReferenceDeviationBPS s)
    (if MaxVenueSpreadBPS s =? 0 then 1000 else MaxVenueSpreadBPS s)
    (TargetBase s) (MaxBaseDeviation s) (InventorySkewBPS s) (QuoteRefreshSeconds s)
    (QuoteRefreshRatioBPS s) (MinOrderLifetimeSeconds s) (MaxOrderLifetimeSeconds s)
    (FillReplenishMinDelaySeconds s) (FillReplenishMaxDelaySeconds s) (PriceJitterTicks s)
    (BestLevels s) (BestLevelRefreshSeconds s).

(** [byID[current.ID]]: the last instrument of the list with that id. *)
Definition instrumentByID (l : list InstrumentConfig) (id : string) : option InstrumentConfig :=
  (list_to_map (reverse (map (fun i => (ID i, i)) l)) : gmap string InstrumentConfig) !! id.

Definition applyInstrument (next : Config) (current : InstrumentConfig) : InstrumentConfig :=
  match instrumentByID (Instruments next) (ID current) with
  | Some updated =>
      MkInstrumentConfig (ID current) (inst_Base current) (inst_Quote current) (Reference current)
        (guardedStrategy (Strategy updated)) (TradeSimulation updated)
  | None => current
  end.

Definition positive_or (v d : Z) : Z := if 0 <? v then v else d.

Definition ApplyParameters (next : Config) (e : Engine O) : Engine O :=
  let c := cfg e in
  set_cfg (MkConfig (cfg_Mode c) (positive_or (PollIntervalMS next) (PollIntervalMS c))
    (AuditPath c) (AuditMaxBytes c) (AuditBackups c) (HeartbeatPath c) (WatchdogTimeoutSeconds c)
    (positive_or (MarketFailureThreshold next) (MarketFailureThreshold c))
    (positive_or (MarketRecoveryThreshold next) (MarketRecoveryThreshold c))
    (positive_or (MarketErrorGraceSeconds next) (MarketErrorGraceSeconds c))
    (positive_or (TradingProgressTimeoutSeconds next) (TradingProgressTimeoutSeconds c))
    (positive_or (MaxConcurrentInstruments next) (MaxConcurrentInstruments c))
    (positive_or (RulesRefreshSeconds next) (RulesRefreshSeconds c))
    (RPC c) (map (applyInstrument next) (Instruments c)) (Venues c)) e.

Definition newSnapshot (e : Engine O) (i : InstrumentConfig) : InstrumentSnapshot :=
  MkInstrumentSnapshot (ID i) (asset_Symbol (inst_Base i)) (asset_Symbol (inst_Quote i))
    (cfg_Mode (cfg e)) "running" false None None Zero false (TargetBase (Strategy i))
    (MaxBaseDeviation (Strategy i)) []
    (if sim_Enabled (TradeSimulation i)
     then Some (TradesimData.MkSnapshot true (SourceVenue (TradeSimulation i)) "waiting"
                  zero_time zero_time [] "")
     else None) "" zero_time 0 0 0.
End Operations.

(** ** Metrics *)

Definition recordCycle (instruments failures : Z) (m : engineMetrics) : engineMetrics :=
  MkEngineMetrics (startedAt m) (wrapU64 (cyclesTotal m + 1))
    (if 0 <? failures then wrapU64 (cycleFailuresTotal m + 1) else cycleFailuresTotal m)
    (wrapU64 (instrumentRunsTotal m + instruments)) (wrapU64 (instrumentFailuresTotal m + failures))
    (venueFaultEventsTotal m) (omsPlacedTotal m) (omsCanceledTotal m) (simulatedTradesTotal m)
    (auditFlushErrorsTotal m) (ruleChangesTotal m) (leaseFenceRejectsTotal m).

(** Added to the counters of events: venue faults, orders placed and cancelled, simulated
    trades, audit errors, rule changes, fence rejections. *)
Definition bump (fault placed canceled simulated audit rules fence : Z) (m : engineMetrics)
    : engineMetrics :=
  MkEngineMetrics (startedAt m) (cyclesTotal m) (cycleFailuresTotal m) (instrumentRunsTotal m)
    (instrumentFailuresTotal m) (wrapU64 (venueFaultEventsTotal m + fault))
    (wrapU64 (omsPlacedTotal m + placed)) (wrapU64 (omsCanceledTotal m + canceled))
    (wrapU64 (simulatedTradesTotal m + simulated)) (wrapU64 (auditFlushErrorsTotal m + audit))
    (wrapU64 (ruleChangesTotal m + rules)) (wrapU64 (leaseFenceRejectsTotal m + fence)).

Definition recordVenueFault : engineMetrics -> engineMetrics := bump 1 0 0 0 0 0 0.
Definition recordOMS (placed canceled : Z) : engineMetrics -> engineMetrics :=
  bump 0 (Z.max 0 placed) (Z.max 0 canceled) 0 0 0 0.
Definition recordSimulatedTrade : engineMetrics -> engineMetrics := bump 0 0 0 1 0 0 0.
Definition recordAuditFlushError : engineMetrics -> engineMetrics := bump 0 0 0 0 1 0 0.
Definition recordRuleChange : engineMetrics -> engineMetrics := bump 0 0 0 0 0 1 0.
Definition recordFenceRejection : engineMetrics -> engineMetrics := bump 0 0 0 0 0 0 1.

Definition metricsSnapshot (m : engineMetrics) (auditPending : Z) (now : Time) : MetricsSnapshot :=
  MkMetricsSnapshot (startedAt m) now (cyclesTotal m) (cycleFailuresTotal m)
    (instrumentRunsTotal m) (instrumentFailuresTotal m) (venueFaultEventsTotal m)
    (omsPlacedTotal m) (omsCanceledTotal m) (simulatedTradesTotal m) (auditFlushErrorsTotal m)
    auditPending (ruleChangesTotal m) (leaseFenceRejectsTotal m).

(** ** Operations of the engine *)

(** A pure call that cannot fail; a panic ends the process. *)
Definition mustX {S A} (c : go A) : X S A := fun s =>
  Done (match c with Ret a => inl a | Err e => inr (Error e) | Panic m => inr m end, s).

(** [n] readings of the clock. *)
Fixpoint readClock {S} (n : nat) : X S (list Time) :=
  match n with
  | O => mret []
  | Datatypes.S n' => t ← actX Now; rest ← readClock n'; mret (t :: rest)
  end.

(** [time.Since(start).Milliseconds()] *)
Definition elapsedMS {S} (start : Time) : X S Z :=
  now ← actX Now; mret (Z.quot (TimeSub now start) Millisecond).

Definition auditX {S} (eventType : string) (data : Json) : X S unit :=
  actX (Audit (ARecord eventType data)) ;; mret tt.

(** An optional interface of the runtime store; a missing store implements none. *)
Definition has {O} (e : Engine O) (iface : RuntimeStore -> bool) : bool :=
  match runtime e with Some s => iface s | None => false end.

Section Processes.
Context {O : Type} `{PriceSource O} `{MapRange} `{SliceSort}.
Abbreviation E := (X (Engine O)) (only parsing).

Definition onMetrics (f : engineMetrics -> engineMetrics) : E unit :=
  modifyX (fun e => set_metrics (f (metrics e)) e).

Definition preflightFailure (instrumentID : string) : E (option string) :=
  e ← getX; mret (preflightBlocked e !! instrumentID).

Definition isPaused (instrumentID : string) : E bool :=
  e ← getX; mret (bool_decide (is_Some (paused e !! instrumentID))).

Definition setLastReferenceValidUntil (instrumentID : string) (v : Time) : E unit :=
  modifyX (fun e => set_lastReferenceValidUntil (<[instrumentID := v]> (lastReferenceValidUntil e)) e).
Definition getLastReferenceValidUntil (instrumentID : string) : E Time :=
  e ← getX; mret (default zero_time (lastReferenceValidUntil e !! instrumentID)).
Definition setLastBookAt (key : string) (v : Time) : E unit :=
  modifyX (fun e => set_lastBookAt (<[key := v]> (lastBookAt e)) e).
Definition getLastBookAt (key : string) : E Time :=
  e ← getX; mret (default zero_time (lastBookAt e !! key)).
Definition setLastInventory (instrumentID : string) (v : Decimal) : E unit :=
  modifyX (fun e => set_lastInventory (<[instrumentID := v]> (lastInventory e)) e).
Definition getLastInventory (instrumentID : string) : E (option Decimal) :=
  e ← getX; mret (lastInventory e !! instrumentID).

(** [e.oracle.Price]; calling a nil interface panics. *)
Definition oraclePrice (i : InstrumentConfig) : E (reply ReferencePrice) :=
  e ← getX;
  match oracle e with
  | None => panicX "runtime error: invalid memory address or nil pointer dereference"
  | Some o => onX (fun _ => o) (fun o' => set_oracle (Some o')) (source_Price i)
  end.

(** ** Market leases and the write guard *)

Definition marketLeaseTTL (e : Engine O) : Duration :=
  let configured := ((WatchdogTimeoutSeconds (cfg e) *i Second) *i 2)%go in
  if 30 * Second <? configured then configured else 30 * Second.

Definition acquireMarketLease (key : string) : E (Z * option error) :=
  e ← getX;
  if negb (has e isMarketLocker) then mret (1, None) else
  r ← actX (Runtime (RAcquireMarketLease key (ownerID e) (marketLeaseTTL e)));
  let '(generation, err) := r : Z * option error in
  (if (0 <? generation) && match err with None => true | Some _ => false end
   then modifyX (fun e => set_heldLeases (<[key := generation]> (heldLeases e)) e)
   else mret tt) ;;
  mret (generation, err).

(** One tick of the renewal that [keepMarketLease] runs beside the writes: whether the
    context of the writes is cancelled. *)
Definition renewMarketLease (key : string) (generation : Z) : E bool :=
  e ← getX;
  r ← actX (Runtime (RAcquireMarketLease key (ownerID e) (marketLeaseTTL e)));
  let '(current, err) := r : Z * option error in
  mret (match err with Some _ => true | None => negb (current =? generation) end).

Definition releaseMarketLease (key : string) (generation : Z) : E (option error) :=
  e ← getX;
  if negb (has e isMarketLocker) || negb (bool_decide (heldLeases e !! key = Some generation))
  then mret None else
  err ← actX (Runtime (RReleaseMarketLease key (ownerID e) generation));
  match err : option error with
  | Some e => mret (Some e)
  | None =>
      modifyX (fun e =>
        if bool_decide (heldLeases e !! key = Some generation)
        then set_heldLeases (delete key (heldLeases e)) e else e) ;;
      mret None
  end.

Definition recordLeaseFenceRejection (key : string) (generation : Z) (cause : error) : E unit :=
  onMetrics recordFenceRejection ;;
  e ← getX;
  auditX "lease_fence_rejected"
    (JObj [("error", JStr (Error cause)); ("generation", JNum generation); ("market", JStr key);
           ("owner", JStr (ownerID e))]).

(** The closure of [marketWriteGuard]; without a locker the guard is nil. *)
Definition marketWriteGuard (key : string) (generation : Z) : E (option error) :=
  e ← getX;
  r ← actX (Runtime (RValidateMarketLease key (ownerID e) generation));
  let '(valid, err) := r : bool * option error in
  match err with
  | Some err =>
      recordLeaseFenceRejection key generation err ;;
      mret (Some (Wrapf ("validate market lease generation " +:+ pretty generation +:+ ": ") err))
  | None =>
      if valid then mret None else
      recordLeaseFenceRejection key generation (Errorf "lease is no longer current") ;;
      mret (Some (Errorf ("stale market lease generation " +:+ pretty generation)))
  end.

(** An operation of the reconciler whose guard is the one of a lease. *)
Definition onReconciler {A} (key : string) (generation : Z)
    (f : bool -> Reconciler -> prog (A * Reconciler)) : E A := fun e =>
  x ← handle_guard (marketWriteGuard key generation) (f (has e isMarketLocker) (reconciler e)) e;
  Done (match fst x with
        | inl (inl (a, r)) => (inl a, set_reconciler r (snd x))
        | inl (inr err) => (inr (Error err), snd x)
        | inr m => (inr m, snd x)
        end).

Definition cancelGuarded (key : string) (generation : Z) (client : Client)
    (instrumentID symbol : string) : E (Z * option error) :=
  onReconciler key generation (fun guard r =>
    CancelManagedGuardedWithResult r client instrumentID symbol guard).

Definition notOwned : error := Errorf "market is owned by another engine instance".

Definition cancelManagedFenced (venueName instrumentID : string) (market : VenueMarketConfig)
    (client : Client) : E (option error) :=
  let leaseKey := marketLeaseKey venueName instrumentID market in
  l ← acquireMarketLease leaseKey;
  let '(generation, err) := l : Z * option error in
  match err with
  | Some err => mret (Some (Wrapf "acquire market lease: " err))
  | None =>
      if generation =? 0 then mret (Some notOwned) else
      x ← cancelGuarded leaseKey generation client instrumentID (market_Symbol market);
      onMetrics (recordOMS 0 (fst x)) ;;
      mret (snd x)
  end.

(** ** Market faults *)

Definition faultFailure (key stage : string) (cause : error) (forceCancel : bool)
    : E (Decision * option error) :=
  onX faults set_faults (fun m => FailureWithContext m key stage (Some cause) forceCancel).

Definition faultHealthy (key : string) (managedOpenOrders : Z) : E (Decision * option error) :=
  onX faults set_faults (fun m => HealthyWithContext m key managedOpenOrders).

Definition faultReset (key : string) : E (option error) :=
  onX faults set_faults (fun m => ResetWithContext m key).

Definition withStatus (s : FaultData.Snapshot) : FaultData.Snapshot :=
  FaultData.MkSnapshot Canceling (Stage s) (FaultData.snap_Error s) (ConsecutiveFailures s)
    (ConsecutiveSuccesses s) (Since s) (FaultData.UpdatedAt s) (LastHealthyAt s) false.

Definition markVenueFailure (instrumentID venueName : string) (venueCfg : VenueConfig)
    (market : VenueMarketConfig) (client : Client) (stage : string) (cause : error)
    (forceCancel : bool) : E (FaultData.Snapshot * option error) :=
  onMetrics recordVenueFault ;;
  d ← faultFailure (marketFaultKey venueName instrumentID market) stage cause forceCancel;
  let '(decision, persistErr) := d : Decision * option error in
  let shouldCancel := ShouldCancel decision
                      || match persistErr with Some _ => true | None => false end in
  let state := match persistErr with
               | Some _ => withStatus (State decision) | None => State decision end in
  e ← getX;
  if negb shouldCancel || negb (String.eqb (cfg_Mode (cfg e)) ModeLive)
     || negb (TradingEnabled venueCfg)
  then mret (state, wrap_opt "persist fault state: " persistErr)
  else
  err ← cancelManagedFenced venueName instrumentID market client;
  let data :=
    match err : option error with
    | Some ce => [("cancel_error", JStr (Error ce))] | None => [] end
    ++ [("cause", JStr (Error cause)); ("fault", marshal state);
        ("instrument", JStr instrumentID)]
    ++ match persistErr with
       | Some pe => [("persist_error", JStr (Error pe))] | None => [] end
    ++ [("stage", JStr stage); ("venue", JStr venueName)] in
  let err := match persistErr with
             | Some pe => Some (Errorf (appendError (errorString err)
                                          ("persist fault state: " +:+ Error pe)))
             | None => err end in
  auditX "venue_fault" (JObj data) ;;
  mret (state, err).
End Processes.
