(* ===== verification/EngineCycle.v ===== *)
(** The trading cycle of one instrument (src/internal/engine/engine.go):
    [runInstrument], the read-only [runPausedInstrument], [publishPreflightBlocked], and
    the checks of a candidate, [prepareInstrument].

    The local variables that the deferred publication of [runInstrument] reads are the
    fields of [Frame]; a venue's local snapshot is a value handed from stage to stage. *)
From S2P Require Import Prelude Decimal Domain Json FaultData TradesimData Runtimeops World Config Strategy Risk Tradesim Fault Venue Process Oms AuditEvents Engine.

Open Scope string_scope.
Open Scope list_scope.
Open Scope Z_scope.

(** [balanceCache]: the account replies of one cycle. *)
Record Cycle (O : Type) := MkCycle {
  cy_engine : Engine O;
  cy_balances : option (gmap string (reply (list Balance)))
}.
Arguments MkCycle {O}.
Arguments cy_engine {O} c.
Arguments cy_balances {O} c.

Definition newBalanceCache : option (gmap string (reply (list Balance))) := Some ∅.

(** The running totals of [collectBalances]. *)
Record Collected := MkCollected {
  byVenue : gmap string (list Balance);
  total : Decimal;
  count : Z;
  errorsByVenue : gmap string error
}.

Record Frame (O : Type) := MkFrame {
  fr_cycle : Cycle O;
  fr_snapshot : InstrumentSnapshot;
  fr_failures : list string;
  fr_active : Z
}.
Arguments MkFrame {O}.
Arguments fr_cycle {O} f.
Arguments fr_snapshot {O} f.
Arguments fr_failures {O} f.
Arguments fr_active {O} f.

(** One venue of the loop: the constants of an iteration. *)
Record VenueCtx := MkVenueCtx {
  vc_name : string;
  vc_cfg : VenueConfig;
  vc_market : VenueMarketConfig;
  vc_client : Client;
  vc_instrument : InstrumentConfig
}.

Definition live (e_mode : Mode) (v : VenueConfig) : bool :=
  String.eqb e_mode ModeLive && TradingEnabled v.

(** The zero snapshot of a venue with its rules. *)
Definition venueSnapshotOf (venueName : string) (v : VenueConfig) (market : VenueMarketConfig)
    (now : Time) : VenueSnapshot :=
  MkVenueSnapshot venueName (venue_Type v) (market_Symbol market) (TradingEnabled v) false false
    None None None None (Some (marketRulesFromConfig market)) None [] 0 [] "" now 0 0 0 0.

(** The balances of a venue as its snapshot shows them; a missing asset is a zero. *)
Definition withBalances (balances : list Balance) (market : VenueMarketConfig) (vs : VenueSnapshot)
    : VenueSnapshot :=
  let shown asset := Some (default (MkBalance asset Zero Zero) (findBalance balances asset)) in
  set_QuoteBalance (shown (market_QuoteAsset market))
    (set_BaseBalance (shown (market_BaseAsset market)) (set_AccountConnected true vs)).

Definition addVenueError (next : string) (vs : VenueSnapshot) : VenueSnapshot :=
  set_vs_Error (appendError (vs_Error vs) next) vs.

(** The balance of an asset counted in the inventory: the first entry only. *)
Definition assetTotal (balances : list Balance) (asset : string) (total : Decimal) : Decimal :=
  match findBalance balances asset with
  | Some b => Add (Add total (bal_Free b)) (bal_Locked b)
  | None => total
  end.

Section Cycle.
Context {O : Type} `{PriceSource O} `{MapRange} `{SliceSort}.

Definition onEngine {A} (c : X (Engine O) A) : X (Cycle O) A :=
  zoom cy_engine (fun e s => MkCycle e (cy_balances s)) c.

Definition onFrame {A} (c : X (Cycle O) A) : X (Frame O) A :=
  zoom fr_cycle (fun c f => MkFrame c (fr_snapshot f) (fr_failures f) (fr_active f)) c.

Definition engineF {A} (c : X (Engine O) A) : X (Frame O) A := onFrame (onEngine c).

Definition onSnapshot (g : InstrumentSnapshot -> InstrumentSnapshot) : X (Frame O) unit :=
  modifyX (fun f => MkFrame (fr_cycle f) (g (fr_snapshot f)) (fr_failures f) (fr_active f)).

Definition addFailure (msg : string) : X (Frame O) unit :=
  modifyX (fun f => MkFrame (fr_cycle f) (fr_snapshot f) (fr_failures f ++ [msg]) (fr_active f)).

Definition appendVenue (vs : VenueSnapshot) : X (Frame O) unit :=
  onSnapshot (fun s => set_is_Venues (is_Venues s ++ [vs]) s).

(** ** Balances and fills *)

(** [balanceCache.fetch] *)
Definition fetchBalances (key : string) (client : Client) : X (Cycle O) (reply (list Balance)) :=
  c ← getX;
  match cy_balances c with
  | None => actX (Call (Name client) CBalances)
  | Some cache =>
      match cache !! key with
      | Some entry => mret entry
      | None =>
          r ← actX (Call (Name client) CBalances);
          modifyX (fun c => MkCycle (cy_engine c) (insert key (r : reply (list Balance)) <$> cy_balances c)) ;;
          mret (r : reply (list Balance))
      end
  end.

(** The client of a market, absent when the map holds none. *)
Definition clientOf (e : Engine O) (venueName instrumentID : string) : option Client :=
  venues e !! ClientKey venueName instrumentID.

Definition collectVenue (i : InstrumentConfig) (acc : Collected) (nv : string * VenueConfig)
    : X (Cycle O) Collected :=
  let '(venueName, v) := nv in
  c ← getX;
  let e := cy_engine c in
  if negb (venue_Enabled v)
     || (String.eqb (cfg_Mode (cfg e)) ModeLive && negb (TradingEnabled v))
  then mret acc else
  match Markets v !! ID i with
  | None => mret acc
  | Some market =>
      if CredentialID market <=? 0 then mret acc else
      match clientOf e venueName (ID i) with
      | None => mret (MkCollected (byVenue acc) (total acc) (count acc)
                  (<[venueName := Errorf "client missing"]> (errorsByVenue acc)))
      | Some client =>
          r ← fetchBalances (accountCacheKey (venue_Type v) (CredentialID market)) client;
          match r with
          | inr err => mret (MkCollected (byVenue acc) (total acc) (count acc)
                        (<[venueName := err]> (errorsByVenue acc)))
          | inl balances =>
              mret (MkCollected (<[venueName := balances]> (byVenue acc))
                (assetTotal balances (market_BaseAsset market) (total acc)) (count acc + 1)
                (errorsByVenue acc))
          end
      end
  end.

Definition collectBalances (i : InstrumentConfig) : X (Cycle O) Collected :=
  c ← getX;
  foldX (collectVenue i) (range (Venues (cfg (cy_engine c))))
    (MkCollected ∅ (FromInt64 0) 0 ∅).

Definition fillsTTL : Duration := 10 * Second.

(** The fills and the error that goes with them. *)
Definition recentFills (venueName instrumentID : string) (client : Client) (symbol : string)
    : X (Engine O) (list Fill * option error) :=
  if negb (isFillReader client) then mret ([], None) else
  e ← getX;
  let key := ClientKey venueName instrumentID in
  fresh ← (match fillCache e !! key with
           | None => mret None
           | Some cached =>
               now ← actX Now;
               mret (if TimeSub now (fetchedAt cached) <? fillsTTL then Some cached else None)
           end);
  match fresh : option fillCacheEntry with
  | Some cached =>
      mret (fc_fills cached,
            if String.eqb (errorText cached) "" then None else Some (Errorf (errorText cached)))
  | None =>
      r ← actX (Call (Name client) (CRecentFills symbol 50));
      now ← actX Now;
      let '(fills, err) := match r : reply (list Fill) with
                           | inl l => (l, None) | inr e => ([], Some e) end in
      modifyX (fun e => set_fillCache
        (<[key := MkFillCacheEntry fills (errorString err) now]> (fillCache e)) e) ;;
      mret (fills, err)
  end.

(** ** Stages of a venue in a live or shadow cycle *)

(** [FilterQuotes] with its readings of the clock. *)
Definition filterQuotes {S} (i : InstrumentConfig) (market : VenueMarketConfig) (book : Book)
    (inventory : Decimal) (quotes : list Quote) : X S (reply (list Quote)) :=
  since ← actX Now;
  times ← readClock (length quotes);
  goX (FilterQuotes i market book inventory quotes since (fun k => nth k times 0)).

(** [strategy.Generate] with its two readings of the clock. *)
Definition generateQuotes {S} (i : InstrumentConfig) (venueName : string) (market : VenueMarketConfig)
    (ref : ReferencePrice) (book : Book) (inventory : Decimal) : X S (reply (list Quote)) :=
  now ← actX Now;
  wall ← actX Now;
  goX (Generate i venueName market ref book inventory now wall).

Definition markFailure (vc : VenueCtx) (stage : string) (cause : error) (forceCancel : bool)
    : X (Frame O) (FaultData.Snapshot * option error) :=
  engineF (markVenueFailure (ID (vc_instrument vc)) (vc_name vc) (vc_cfg vc) (vc_market vc)
             (vc_client vc) stage cause forceCancel).

Definition faultKey (vc : VenueCtx) : string :=
  marketFaultKey (vc_name vc) (ID (vc_instrument vc)) (vc_market vc).

(** A stage that failed and forces the orders of the market to be cancelled. *)
Definition failStage (vc : VenueCtx) (stage label : string) (cause : error) (vs : VenueSnapshot)
    : X (Frame O) VenueSnapshot :=
  m ← markFailure vc stage cause true;
  let '(state, cancelErr) := m : FaultData.Snapshot * option error in
  addFailure (vc_name vc +:+ " " +:+ label +:+ ": " +:+ Error cause) ;;
  mret (addVenueError (appendError (label +:+ ": " +:+ Error cause) (errorString cancelErr))
          (set_vs_Fault (Some state) vs)).

(** The fault machine could not be persisted. *)
Definition failPersistence (vc : VenueCtx) (err : error) (vs : VenueSnapshot)
    : X (Frame O) VenueSnapshot :=
  addFailure (vc_name vc +:+ " fault persistence: " +:+ Error err) ;;
  mret (addVenueError ("fault persistence: " +:+ Error err) vs).

(** The market is not in the state that allows quotes. *)
Definition failState (vc : VenueCtx) (state : FaultData.Snapshot) : X (Frame O) unit :=
  addFailure (vc_name vc +:+ " fault state: " +:+ Status state).

(** The reading of the top of the book; an outage leaves the empty book. *)
Definition readBook (vc : VenueCtx) (vs : VenueSnapshot) : X (Frame O) (Book * VenueSnapshot) :=
  start ← actX Now;
  r ← actX (Call (Name (vc_client vc)) (CTopBook (market_Symbol (vc_market vc))));
  ms ← elapsedMS start;
  let vs := set_BookDurationMS ms vs in
  match r : reply Book with
  | inr err =>
      mret (MkBook (vc_name vc) (market_Symbol (vc_market vc)) Zero Zero Zero Zero zero_time,
            addVenueError ("盘口不可用，按指数价铺单: " +:+ Error err) vs)
  | inl book =>
      now ← actX Now;
      engineF (setLastBookAt (faultKey vc) now) ;;
      mret (book, set_vs_Book (Some book) (set_MarketConnected true vs))
  end.

(** The synthetic trade of the source venue. *)
Definition simulateTrade (vc : VenueCtx) (book : Book) : X (Frame O) unit :=
  let i := vc_instrument vc in
  let sim := TradeSimulation i in
  if negb (sim_Enabled sim && String.eqb (vc_name vc) (SourceVenue sim)) then mret tt else
  now ← actX Now;
  x ← engineF (onX tradeSimulator set_tradeSimulator (fun g =>
        Observe g i (vc_name vc) (vc_market vc) book now));
  let '(simulation, generated) := x : TradesimData.Snapshot * option Fill in
  onSnapshot (set_is_TradeSimulation (Some simulation)) ;;
  match generated with
  | None => mret tt
  | Some fill =>
      f ← getX;
      (if has (cy_engine (fr_cycle f)) isSimulatedFillPublisher then
         r ← actX (Runtime (RAppendSimulatedFill (ID i) fill));
         match r : option error with
         | None => mret tt
         | Some err =>
             let s := simulation in
             onSnapshot (set_is_TradeSimulation (Some (TradesimData.MkSnapshot (snap_Enabled s)
               (snap_SourceVenue s) (snap_Status s) (snap_LastGeneratedAt s) (snap_NextAt s)
               (snap_Fills s)
               (appendError (TradesimData.snap_Error s) ("publish stream: " +:+ Error err)))))
         end
       else mret tt) ;;
      auditX "simulated_trade"
        (JObj [("fill", marshal fill); ("instrument", JStr (ID i)); ("source_venue", JStr (vc_name vc))]) ;;
      engineF (onMetrics recordSimulatedTrade)
  end.

(** Open orders and fills of an account; the error of the open orders decides later. *)
Definition readAccount (vc : VenueCtx) (vs : VenueSnapshot)
    : X (Frame O) (option error * VenueSnapshot) :=
  if CredentialID (vc_market vc) <=? 0 then mret (None, vs) else
  let symbol := market_Symbol (vc_market vc) in
  start ← actX Now;
  r ← actX (Call (Name (vc_client vc)) (COpenOrders symbol));
  ms ← elapsedMS start;
  let '(err, vs) :=
    match r : reply (list Order) with
    | inr err => (Some err, addVenueError ("orders: " +:+ Error err)
                   (set_AccountConnected false (set_OpenOrders [] vs)))
    | inl orders => (None, set_AccountConnected true (set_OpenOrders orders vs))
    end in
  let vs := set_OrdersDurationMS ms vs in
  start ← actX Now;
  f ← engineF (recentFills (vc_name vc) (ID (vc_instrument vc)) (vc_client vc) symbol);
  ms ← elapsedMS start;
  let vs := set_FillsDurationMS ms (set_vs_Fills (fst f) vs) in
  mret (err, match snd f with
             | Some fe => addVenueError ("fills: " +:+ Error fe) vs | None => vs end).

Definition planData (vc : VenueCtx) (book : Book) (inventory : Decimal) (budget : option QuoteBudget)
    (quotes : list Quote) : Json :=
  JObj ([("book", marshal book)]
    ++ match budget with Some b => [("budget", marshal b)] | None => [] end
    ++ [("instrument", JStr (ID (vc_instrument vc))); ("inventory", marshal inventory);
        ("quote_summary", marshal (summarizeQuotes quotes)); ("venue", JStr (vc_name vc))]).

(** A market that is only observed: its fault machine recovers, nothing is written. *)
Definition shadowVenue (vc : VenueCtx) (book : Book) (inventory : Decimal) (quotes : list Quote)
    (vs : VenueSnapshot) : X (Frame O) VenueSnapshot :=
  h ← engineF (faultHealthy (faultKey vc) 0);
  let '(health, healthErr) := h : Decision * option error in
  match healthErr with
  | Some err => failPersistence vc err vs
  | None =>
      (if String.eqb (Status (State health)) Normal then mret tt else failState vc (State health)) ;;
      auditX "quote_plan" (planData vc book inventory None quotes) ;;
      mret (set_vs_Fault (Some (State health)) vs)
  end.

(** ** The live path *)

(** The budget left no order to quote: the market is cancelled. *)
Definition failBudget (vc : VenueCtx) (vs : VenueSnapshot) : X (Frame O) VenueSnapshot :=
  let err := Errorf "balance budget allows no orders" in
  m ← markFailure vc "budget" err true;
  let '(state, cancelErr) := m : FaultData.Snapshot * option error in
  let text := Error err +:+ match cancelErr with
                            | Some ce => "; cancel: " +:+ Error ce | None => "" end in
  addFailure (vc_name vc +:+ " budget: " +:+ text) ;;
  mret (addVenueError ("budget: " +:+ text) (set_vs_Fault (Some state) vs)).

(** The fault machine asks for the cancellation of the market's orders. *)
Definition faultCancel (vc : VenueCtx) (leaseKey : string) (generation : Z) (state : FaultData.Snapshot)
    (vs : VenueSnapshot) : X (Frame O) VenueSnapshot :=
  x ← engineF (cancelGuarded leaseKey generation (vc_client vc) (ID (vc_instrument vc))
                 (market_Symbol (vc_market vc)));
  engineF (onMetrics (recordOMS 0 (fst x))) ;;
  failState vc state ;;
  mret (match snd x with
        | Some err => addVenueError ("fault cancel: " +:+ Error err) vs | None => vs end).

Definition refreshPolicyOf (s : StrategyConfig) (quotes : list Quote) : RefreshPolicy :=
  if 0 <? QuoteRefreshSeconds s
  then MkRefreshPolicy (EffectiveMinOrderLifetime s) (EffectiveMaxOrderLifetime s)
         (RefreshOrdersPerCycle s (Z.of_nat (length quotes)))
  else noRefresh.

Definition reconcileGuarded (leaseKey : string) (generation : Z) (client : Client)
    (instrumentID : string) (quotes : list Quote) (thr : Z) (orders : list Order)
    (refresh : RefreshPolicy) : X (Engine O) (Oms.Result * option error) :=
  onReconciler leaseKey generation (fun guard r =>
    ReconcileWithOrdersGuardedPolicy r client instrumentID quotes thr orders guard generation
      refresh).

(** The reconciler failed: the market is cancelled and marked. *)
Definition failOMS (vc : VenueCtx) (leaseKey : string) (generation : Z) (err : error)
    (vs : VenueSnapshot) : X (Frame O) VenueSnapshot :=
  let i := ID (vc_instrument vc) in
  x ← engineF (cancelGuarded leaseKey generation (vc_client vc) i (market_Symbol (vc_market vc)));
  engineF (onMetrics (recordOMS 0 (fst x))) ;;
  m ← markFailure vc "oms" err true;
  let fields e := [("error", JStr (Error e)); ("instrument", JStr i); ("venue", JStr (vc_name vc))] in
  auditX "oms_error" (JObj (fields err)) ;;
  (match snd x with
   | Some ce => auditX "oms_cancel_error" (JObj (fields ce)) | None => mret tt end) ;;
  addFailure (vc_name vc +:+ " OMS: " +:+ Error err) ;;
  mret (addVenueError ("OMS: " +:+ Error err) (set_vs_Fault (Some (fst m)) vs)).

(** The open orders are brought in line with the quotes. *)
Definition quoteVenue (vc : VenueCtx) (leaseKey : string) (generation : Z) (book : Book)
    (inventory : Decimal) (budget : QuoteBudget) (quotes : list Quote) (vs : VenueSnapshot)
    : X (Frame O) VenueSnapshot :=
  let i := vc_instrument vc in
  auditX "quote_plan" (planData vc book inventory (Some budget) quotes) ;;
  start ← actX Now;
  x ← engineF (reconcileGuarded leaseKey generation (vc_client vc) (ID i) quotes
                 (RepriceThresholdBPS (Strategy i)) (OpenOrders vs)
                 (refreshPolicyOf (Strategy i) quotes));
  ms ← elapsedMS start;
  let vs := set_OMSDurationMS ms vs in
  match snd x with
  | Some err => failOMS vc leaseKey generation err vs
  | None =>
      auditX "oms_result" (JObj [("instrument", JStr (ID i)); ("result", marshal (fst x));
                                 ("venue", JStr (vc_name vc))]) ;;
      engineF (onMetrics (recordOMS (Placed (fst x)) (Canceled (fst x)))) ;;
      mret (set_PendingOrders (Pending (fst x)) vs)
  end.

(** The budget and the fault machine decide whether the market is quoted. *)
Definition ownedVenue (vc : VenueCtx) (leaseKey : string) (generation : Z) (book : Book)
    (inventory : Decimal) (quotes : list Quote) (vs : VenueSnapshot) : X (Frame O) VenueSnapshot :=
  let market := vc_market vc in
  let managed := ManagedOrdersFor (vc_client vc) (OpenOrders vs) in
  let quotes := ApplyOrderLimit quotes (Z.of_nat (length (OpenOrders vs)))
                  (Z.of_nat (length managed)) (MaxOpenOrders market) in
  let free b := match b with Some b => bal_Free b | None => FromInt64 0 end in
  b ← mustX (ApplyBalanceBudget quotes managed (free (BaseBalance vs)) (free (QuoteBalance vs))
               (BalanceReserveBPS (Strategy (vc_instrument vc))) (MaxBaseCommitment market)
               (MaxQuoteCommitment market));
  let '(quotes, budget) := b : list Quote * QuoteBudget in
  let vs := set_vs_Budget (Some budget) vs in
  if (length quotes =? 0)%nat then failBudget vc vs else
  h ← engineF (faultHealthy (faultKey vc) (Z.of_nat (length managed)));
  let '(health, healthErr) := h : Decision * option error in
  match healthErr with
  | Some err => failPersistence vc err vs
  | None =>
      let vs := set_vs_Fault (Some (State health)) vs in
      if ShouldCancel health then faultCancel vc leaseKey generation (State health) vs
      else if negb (AllowQuotes health) then failState vc (State health) ;; mret vs
      else quoteVenue vc leaseKey generation book inventory budget quotes vs
  end.

Definition liveVenue (vc : VenueCtx) (book : Book) (inventory : Decimal) (quotes : list Quote)
    (openOrdersErr : option error) (vs : VenueSnapshot) : X (Frame O) VenueSnapshot :=
  match openOrdersErr with
  | Some err =>
      m ← markFailure vc "open_orders" err false;
      let '(state, cancelErr) := m : FaultData.Snapshot * option error in
      addFailure (vc_name vc +:+ " orders: " +:+ Error err) ;;
      mret (addVenueError (errorString cancelErr) (set_vs_Fault (Some state) vs))
  | None =>
      let leaseKey := marketLeaseKey (vc_name vc) (ID (vc_instrument vc)) (vc_market vc) in
      l ← engineF (acquireMarketLease leaseKey);
      let '(generation, err) := l : Z * option error in
      match (match err with Some e => Some e
             | None => if generation =? 0 then Some notOwned else None end) with
      | Some e =>
          addFailure (vc_name vc +:+ " lease: " +:+ Error e) ;;
          mret (addVenueError ("lease: " +:+ Error e) vs)
      | None => ownedVenue vc leaseKey generation book inventory quotes vs
      end
  end.

(** ** A venue, an instrument *)

(** The quotes of a venue after the observation of its book and account. *)
Definition planVenue (vc : VenueCtx) (mode : Mode) (ref : ReferencePrice) (inventory : Decimal)
    (book : Book) (vs : VenueSnapshot) : X (Frame O) VenueSnapshot :=
  let i := vc_instrument vc in
  simulateTrade vc book ;;
  a ← readAccount vc vs;
  let '(openOrdersErr, vs) := a : option error * VenueSnapshot in
  quotes ← generateQuotes i (vc_name vc) (vc_market vc) ref book inventory;
  match quotes : reply (list Quote) with
  | inr err => failStage vc "strategy" "strategy" err vs
  | inl quotes =>
      quotes ← filterQuotes i (vc_market vc) book inventory quotes;
      match quotes : reply (list Quote) with
      | inr err => failStage vc "risk" "risk" err vs
      | inl quotes =>
          if live mode (vc_cfg vc) then liveVenue vc book inventory quotes openOrdersErr vs
          else shadowVenue vc book inventory quotes vs
      end
  end.

Definition cycleVenue (vc : VenueCtx) (mode : Mode) (ref : ReferencePrice) (inventory : Decimal)
    (collected : Collected) (vs : VenueSnapshot) : X (Frame O) VenueSnapshot :=
  let balanceErr := errorsByVenue collected !! vc_name vc in
  match balanceErr, live mode (vc_cfg vc) with
  | Some err, true =>
      m ← markFailure vc "balance" err false;
      let '(state, cancelErr) := m : FaultData.Snapshot * option error in
      addFailure (vc_name vc +:+ " balance: " +:+ Error err) ;;
      mret (set_vs_Error (appendError ("balance: " +:+ Error err) (errorString cancelErr))
              (set_vs_Fault (Some state) vs))
  | _, _ =>
      let vs := match byVenue collected !! vc_name vc, balanceErr with
                | Some balances, _ => withBalances balances (vc_market vc) vs
                | None, Some err => addVenueError ("balance: " +:+ Error err) vs
                | None, None => vs
                end in
      b ← readBook vc vs;
      let '(book, vs) := b : Book * VenueSnapshot in
      r ← goX (ValidateMarketReference ref book (Strategy (vc_instrument vc)));
      match r : reply unit with
      | inr err => failStage vc "market_reference" "price protection" err vs
      | inl _ => planVenue vc mode ref inventory book vs
      end
  end.

Definition runVenue (i : InstrumentConfig) (ref : ReferencePrice) (inventory : Decimal)
    (collected : Collected) (nv : string * VenueConfig) : X (Frame O) unit :=
  let '(venueName, v) := nv in
  if negb (venue_Enabled v) then mret tt else
  match Markets v !! ID i with
  | None => mret tt
  | Some market =>
      modifyX (fun f => MkFrame (fr_cycle f) (fr_snapshot f) (fr_failures f) (fr_active f + 1)) ;;
      now ← actX Now;
      let vs := venueSnapshotOf venueName v market now in
      f ← getX;
      let e := cy_engine (fr_cycle f) in
      match clientOf e venueName (ID i) with
      | None =>
          addFailure (venueName +:+ ": missing client") ;;
          appendVenue (set_vs_Error "client missing" vs)
      | Some client =>
          vs ← cycleVenue (MkVenueCtx venueName v market client i) (cfg_Mode (cfg e)) ref inventory
                 collected vs;
          appendVenue vs
      end
  end.

(** Without a reference price a live market is marked, and cancelled once the last
    price has expired. *)
Definition rejectVenue (i : InstrumentConfig) (err : error) (stale : bool) (nv : string * VenueConfig)
    : X (Frame O) unit :=
  let '(venueName, v) := nv in
  match Markets v !! ID i with
  | None => mret tt
  | Some market =>
      if negb (venue_Enabled v) || negb (TradingEnabled v) then mret tt else
      f ← getX;
      match clientOf (cy_engine (fr_cycle f)) venueName (ID i) with
      | None => mret tt
      | Some client =>
          m ← markFailure (MkVenueCtx venueName v market client i) "reference" err stale;
          let '(state, cancelErr) := m : FaultData.Snapshot * option error in
          now ← actX Now;
          appendVenue (MkVenueSnapshot venueName (venue_Type v) (market_Symbol market)
            (TradingEnabled v) false false None None None None None (Some state) [] 0 []
            (appendError (Error err) (errorString cancelErr)) now 0 0 0 0)
      end
  end.

Definition rejectReference (i : InstrumentConfig) (err : error) : X (Frame O) unit :=
  auditX "reference_rejected" (JObj [("error", JStr (Error err)); ("instrument", JStr (ID i))]) ;;
  f ← getX;
  let c := cfg (cy_engine (fr_cycle f)) in
  if negb (String.eqb (cfg_Mode c) ModeLive) then mret tt else
  lastValidUntil ← engineF (getLastReferenceValidUntil (ID i));
  stale ← (if IsZero lastValidUntil then mret true
           else now ← actX Now; mret (After now lastValidUntil));
  forX (rejectVenue i err stale) (range (Venues c)).

(** The inventory the strategy sees. *)
Definition strategyInventory (i : InstrumentConfig) (mode : Mode) (collected : Collected)
    : X (Frame O) Decimal :=
  if negb (String.eqb mode ModeLive) then mret (TargetBase (Strategy i)) else
  if (size (errorsByVenue collected) =? 0)%nat && (0 <? count collected) then
    engineF (setLastInventory (ID i) (total collected)) ;;
    mret (total collected)
  else
    cached ← engineF (getLastInventory (ID i));
    mret (default (TargetBase (Strategy i)) cached).

Definition instrumentBody (i : InstrumentConfig) : X (Frame O) (option error) :=
  start ← actX Now;
  r ← engineF (oraclePrice i);
  ms ← elapsedMS start;
  onSnapshot (set_ReferenceDurationMS ms) ;;
  match r : reply ReferencePrice with
  | inr err => rejectReference i err ;; mret (Some err)
  | inl ref =>
      engineF (setLastReferenceValidUntil (ID i) (ref_ValidUntil ref)) ;;
      onSnapshot (set_is_Reference (Some ref)) ;;
      start ← actX Now;
      collected ← onFrame (collectBalances i);
      ms ← elapsedMS start;
      onSnapshot (set_BalanceDurationMS ms) ;;
      (if 0 <? count collected
       then onSnapshot (fun s => set_InventoryAvailable true (set_Inventory (total collected) s))
       else mret tt) ;;
      f ← getX;
      let c := cfg (cy_engine (fr_cycle f)) in
      inventory ← strategyInventory i (cfg_Mode c) collected;
      auditX "reference_price" (marshal ref) ;;
      forX (runVenue i ref inventory collected) (range (Venues c)) ;;
      f ← getX;
      mret (if fr_active f =? 0 then Some (Errorf "no enabled venue markets")
            else joinedError (fr_failures f))
  end.

Definition publishX (snapshot : InstrumentSnapshot) : X (Engine O) (option error) :=
  e ← getX;
  match runtime e with
  | None => mret None
  | Some _ => actX (Runtime (RPublish snapshot))
  end.

(** The deferred publication: while a panic unwinds there is no returned error. *)
Definition publishCycle (start : Time) (returned : option (option error))
    : X (Frame O) (option (option error)) :=
  ms ← elapsedMS start;
  now ← actX Now;
  onSnapshot (fun s => set_is_UpdatedAt now (set_TickDurationMS ms s)) ;;
  (match returned with
   | Some (Some err) =>
       onSnapshot (fun s => set_is_Error (Error err) (set_is_Status "degraded" s))
   | _ => mret tt
   end) ;;
  f ← getX;
  engineF (publishX (fr_snapshot f)) ;;
  mret None.

(** A process of one frame, started on the empty one. *)
Definition inFrame {A} (i : InstrumentConfig) (c : X (Frame O) A) : X (Cycle O) A := fun s =>
  x ← c (MkFrame s (newSnapshot (cy_engine s) i) [] 0);
  Done (fst x, fr_cycle (snd x)).

Definition runInstrument (i : InstrumentConfig) : X (Cycle O) (option error) :=
  inFrame i (start ← actX Now; deferX (instrumentBody i) (publishCycle start)).
End Cycle.

(** The cycles that write nothing to an exchange (src/internal/engine/engine.go): the
    refresh of a paused instrument, the publication of a blocked one, and the preflight
    checks [Prepare] and [RetryBlocked] build on. *)

Section Idle.
Context {O : Type} `{PriceSource O} `{MapRange} `{SliceSort}.

(** ** A paused instrument *)

(** [snapshot.Pause], [snapshot.Paused] and [snapshot.Status] from the pause maps. *)
Definition withPause (e : Engine O) (instrumentID : string) (s : InstrumentSnapshot)
    : InstrumentSnapshot :=
  let applied := bool_decide (instrumentID ∈ pauseApplied e) in
  let s := match paused e !! instrumentID with
           | Some state => set_is_Pause (Some state) s | None => s end in
  set_is_Status (if applied then "paused" else "pausing") (set_is_Paused applied s).

Definition pausedBook (vc : VenueCtx) (vs : VenueSnapshot) : X (Frame O) VenueSnapshot :=
  start ← actX Now;
  r ← actX (Call (Name (vc_client vc)) (CTopBook (market_Symbol (vc_market vc))));
  ms ← elapsedMS start;
  let vs := set_BookDurationMS ms vs in
  match r : reply Book with
  | inr err =>
      addFailure (vc_name vc +:+ " book: " +:+ Error err) ;;
      mret (addVenueError ("book: " +:+ Error err) vs)
  | inl book => mret (set_vs_Book (Some book) (set_MarketConnected true vs))
  end.

Definition pausedAccount (vc : VenueCtx) (vs : VenueSnapshot) : X (Frame O) VenueSnapshot :=
  if CredentialID (vc_market vc) <=? 0 then mret vs else
  let symbol := market_Symbol (vc_market vc) in
  start ← actX Now;
  r ← actX (Call (Name (vc_client vc)) (COpenOrders symbol));
  ms ← elapsedMS start;
  let vs := set_OrdersDurationMS ms vs in
  vs ← (match r : reply (list Order) with
        | inr err =>
            addFailure (vc_name vc +:+ " orders: " +:+ Error err) ;;
            mret (addVenueError ("orders: " +:+ Error err) (set_AccountConnected false vs))
        | inl orders => mret (set_OpenOrders orders (set_AccountConnected true vs))
        end);
  start ← actX Now;
  f ← engineF (recentFills (vc_name vc) (ID (vc_instrument vc)) (vc_client vc) symbol);
  ms ← elapsedMS start;
  let vs := set_FillsDurationMS ms vs in
  match snd f with
  | Some err =>
      addFailure (vc_name vc +:+ " fills: " +:+ Error err) ;;
      mret (addVenueError ("fills: " +:+ Error err) vs)
  | None => mret (set_vs_Fills (fst f) vs)
  end.

Definition pausedVenue (i : InstrumentConfig) (collected : Collected) (nv : string * VenueConfig)
    : X (Frame O) unit :=
  let '(venueName, v) := nv in
  match Markets v !! ID i with
  | None => mret tt
  | Some market =>
      if negb (venue_Enabled v) then mret tt else
      now ← actX Now;
      let vs := venueSnapshotOf venueName v market now in
      f ← getX;
      match clientOf (cy_engine (fr_cycle f)) venueName (ID i) with
      | None =>
          addFailure (venueName +:+ ": client missing") ;;
          appendVenue (set_vs_Error "client missing" vs)
      | Some client =>
          let vc := MkVenueCtx venueName v market client i in
          vs ← (match byVenue collected !! venueName, errorsByVenue collected !! venueName with
                | Some balances, _ => mret (withBalances balances market vs)
                | None, Some err =>
                    addFailure (venueName +:+ " balance: " +:+ Error err) ;;
                    mret (addVenueError ("balance: " +:+ Error err) vs)
                | None, None => mret vs
                end);
          vs ← pausedBook vc vs;
          vs ← pausedAccount vc vs;
          appendVenue vs
      end
  end.

(** The reference price; an engine without an oracle has none. *)
Definition pausedReference (i : InstrumentConfig) : X (Frame O) unit :=
  f ← getX;
  match oracle (cy_engine (fr_cycle f)) with
  | None => mret tt
  | Some _ =>
      start ← actX Now;
      r ← engineF (oraclePrice i);
      ms ← elapsedMS start;
      onSnapshot (set_ReferenceDurationMS ms) ;;
      match r : reply ReferencePrice with
      | inr err => addFailure ("reference: " +:+ Error err)
      | inl ref => onSnapshot (set_is_Reference (Some ref))
      end
  end.

Definition pausedBody (i : InstrumentConfig) : X (Frame O) (option error) :=
  startedAt ← actX Now;
  f ← getX;
  let e := cy_engine (fr_cycle f) in
  onSnapshot (withPause e (ID i)) ;;
  pausedReference i ;;
  start ← actX Now;
  collected ← onFrame (collectBalances i);
  ms ← elapsedMS start;
  onSnapshot (set_BalanceDurationMS ms) ;;
  (if 0 <? count collected then
     onSnapshot (fun s => set_InventoryAvailable true (set_Inventory (total collected) s)) ;;
     engineF (setLastInventory (ID i) (total collected))
   else
     cached ← engineF (getLastInventory (ID i));
     match cached with Some v => onSnapshot (set_Inventory v) | None => mret tt end) ;;
  forX (pausedVenue i collected) (range (Venues (cfg e))) ;;
  ms ← elapsedMS startedAt;
  now ← actX Now;
  f ← getX;
  onSnapshot (fun s =>
    let s := set_is_UpdatedAt now (set_TickDurationMS ms s) in
    match fr_failures f with [] => s | l => set_is_Error (StringsJoin l "; ") s end) ;;
  f ← getX;
  engineF (publishX (fr_snapshot f)).

Definition runPausedInstrument (i : InstrumentConfig) : X (Cycle O) (option error) :=
  c ← getX;
  match runtime (cy_engine c) with
  | None => mret None
  | Some _ => inFrame i (pausedBody i)
  end.

(** ** A blocked instrument *)

Definition blockedVenue (i : InstrumentConfig) (failure : string) (now : Time)
    (nv : string * VenueConfig) : option VenueSnapshot :=
  let '(venueName, v) := nv in
  if negb (venue_Enabled v) then None else
  market ← Markets v !! ID i;
  Some (set_vs_Error failure (venueSnapshotOf venueName v market now)).

Definition publishPreflightBlocked (i : InstrumentConfig) (failure : string)
    : X (Engine O) (option error) :=
  e ← getX;
  now ← actX Now;
  let venues := sort_slice (fun a b => string_less (vs_Name a) (vs_Name b))
                  (omap (blockedVenue i failure now) (range (Venues (cfg e)))) in
  let snapshot := set_is_Venues venues (set_is_UpdatedAt now
    (set_is_Error ("startup preflight: " +:+ failure)
       (set_is_Status "degraded" (newSnapshot e i)))) in
  err ← publishX snapshot;
  mret (Some (match err with
              | Some err => Wrapf ("preflight blocked (" +:+ failure +:+ "); publish state: ") err
              | None => Errorf ("preflight blocked: " +:+ failure)
              end)).

(** ** Preflight *)

(** One market of [prepareInstrument]: the failure to report, if any. *)
Definition prepareAccount (vc : VenueCtx) (quotes : list Quote) : X (Engine O) (option string) :=
  let market := vc_market vc in
  let s := Strategy (vc_instrument vc) in
  let name := vc_name vc in
  rb ← actX (Call (Name (vc_client vc)) CBalances);
  match rb : reply (list Balance) with
  | inr err => mret (Some (name +:+ " account: " +:+ Error err))
  | inl balances =>
  ro ← actX (Call (Name (vc_client vc)) (COpenOrders (market_Symbol market)));
  match ro : reply (list Order) with
  | inr err => mret (Some (name +:+ " orders: " +:+ Error err))
  | inl orders =>
      let managed := ManagedOrdersFor (vc_client vc) orders in
      let quotes := ApplyOrderLimit quotes (Z.of_nat (length orders))
                      (Z.of_nat (length managed)) (MaxOpenOrders market) in
      let free asset := match findBalance balances asset with
                        | Some b => bal_Free b | None => Zero end in
      b ← mustX (ApplyBalanceBudget quotes managed (free (market_BaseAsset market))
                   (free (market_QuoteAsset market)) (BalanceReserveBPS s)
                   (MaxBaseCommitment market) (MaxQuoteCommitment market));
      mret (if (length (fst b) =? 0)%nat then Some (name +:+ " budget allows no orders") else None)
  end end.

Definition prepareVenue (vc : VenueCtx) (mode : Mode) (ref : ReferencePrice)
    : X (Engine O) (option string) :=
  let i := vc_instrument vc in
  let name := vc_name vc in
  rb ← actX (Call (Name (vc_client vc)) (CTopBook (market_Symbol (vc_market vc))));
  book ← (match rb : reply Book with
          | inl book =>
              now ← actX Now; setLastBookAt (marketFaultKey name (ID i) (vc_market vc)) now ;;
              mret book
          | inr _ => mret (MkBook name (market_Symbol (vc_market vc)) Zero Zero Zero Zero zero_time)
          end);
  r ← goX (ValidateMarketReference ref book (Strategy i));
  match r : reply unit with
  | inr err => mret (Some (name +:+ " price protection: " +:+ Error err))
  | inl _ =>
  quotes ← generateQuotes i name (vc_market vc) ref book (TargetBase (Strategy i));
  match quotes : reply (list Quote) with
  | inr err => mret (Some (name +:+ " strategy: " +:+ Error err))
  | inl quotes =>
  quotes ← filterQuotes i (vc_market vc) book (TargetBase (Strategy i)) quotes;
  match quotes : reply (list Quote) with
  | inr err => mret (Some (name +:+ " risk: " +:+ Error err))
  | inl quotes =>
      if negb (live mode (vc_cfg vc)) then mret None else prepareAccount vc quotes
  end end end.

(** The failures and the number of markets of the loop over the venues. *)
Definition prepareMarket (i : InstrumentConfig) (ref : ReferencePrice) (acc : list string * Z)
    (nv : string * VenueConfig) : X (Engine O) (list string * Z) :=
  let '(venueName, v) := nv in
  if negb (venue_Enabled v) then mret acc else
  match Markets v !! ID i with
  | None => mret acc
  | Some market =>
      e ← getX;
      failure ← (match clientOf e venueName (ID i) with
                 | None => mret (Some (venueName +:+ ": client missing"))
                 | Some client =>
                     prepareVenue (MkVenueCtx venueName v market client i) (cfg_Mode (cfg e)) ref
                 end);
      mret (fst acc ++ match failure : option string with Some f => [f] | None => [] end,
            snd acc + 1)
  end.

Definition prepareInstrument (i : InstrumentConfig) (startupFailure : string)
    : X (Engine O) (option error) :=
  let failures := if String.eqb startupFailure "" then [] else ["startup: " +:+ startupFailure] in
  r ← oraclePrice i;
  match r : reply ReferencePrice with
  | inr err => mret (joinedError (failures ++ ["reference: " +:+ Error err]))
  | inl ref =>
      setLastReferenceValidUntil (ID i) (ref_ValidUntil ref) ;;
      if negb (String.eqb startupFailure "") then mret (joinedError failures) else
      e ← getX;
      acc ← foldX (prepareMarket i ref) (range (Venues (cfg e))) (failures, 0);
      mret (joinedError (fst acc ++ if snd acc =? 0 then ["no enabled venue markets"] else []))
  end.
End Idle.
