(* ===== verification/EngineControl.v ===== *)
(** The operations of the engine on all its instruments (src/internal/engine/engine.go):
    the cycle [RunOnce] with its panic barrier, preflight, exchange rules, operator
    controls, cancellations and shutdown.

    The workers of [RunOnce] and the goroutines of [Prepare] take the instruments in
    the order of the [Schedule]; each instrument runs to completion, as the account
    locks arrange for instruments that share an account (AccountLocks.v). *)
From S2P Require Import Prelude Decimal Domain Json FaultData TradesimData Runtimeops World Config Strategy Risk Tradesim Fault Venue Process Oms AuditEvents Engine EngineCycle.

Open Scope string_scope.
Open Scope list_scope.
Open Scope Z_scope.

(** The order in which concurrent jobs run. *)
Class Schedule := {
  schedule : nat -> list nat;
  schedule_perm : forall n, schedule n ≡ₚ seq 0 n
}.

Definition in_order : Schedule := {|
  schedule := fun n => seq 0 n;
  schedule_perm := fun n => Permutation_refl _
|}.

Definition workerLimit (maxConcurrent : Z) (instruments : nat) : Z :=
  let n := Z.of_nat instruments in
  let limit := if maxConcurrent <=? 0 then 4 else maxConcurrent in
  let limit := if n <? limit then n else limit in
  if limit <? 1 then 1 else limit.

Section Control.
Context {O : Type} `{PriceSource O} `{MapRange} `{SliceSort} `{Schedule}.

(** ** The cycle *)

Definition runInstrumentGuarded (i : InstrumentConfig) : X (Cycle O) (option error) :=
  recoverX
    (p ← onEngine (isPaused (ID i));
     if p : bool then runPausedInstrument i else
     b ← onEngine (preflightFailure (ID i));
     match b : option string with
     | Some failure => onEngine (publishPreflightBlocked i failure)
     | None => runInstrument i
     end)
    (fun msg => mret (Some (Errorf ("panic: " +:+ msg)))).

Definition reportProgress : X (Cycle O) unit :=
  c ← getX;
  if has (cy_engine c) isTradingProgressReporter
  then actX (Runtime RReportTradingProgress) ;; mret tt else mret tt.

Definition runJob (instruments : list InstrumentConfig) (errs : list (option error)) (index : nat)
    : X (Cycle O) (list (option error)) :=
  match instruments !! index with
  | None => mret errs
  | Some i =>
      err ← runInstrumentGuarded i;
      reportProgress ;;
      mret (<[index := err]> errs)
  end.

Definition runJobs (instruments : list InstrumentConfig) : X (Cycle O) (list (option error)) :=
  foldX (runJob instruments) (schedule (length instruments))
    (replicate (length instruments) None).

(** A cycle's balance cache lives as long as the cycle. *)
Definition inCycle {A} (c : X (Cycle O) A) : X (Engine O) A := fun e =>
  x ← c (MkCycle e newBalanceCache);
  Done (fst x, cy_engine (snd x)).

Definition tickFailures (instruments : list InstrumentConfig) (errs : list (option error))
    : list string :=
  omap (fun '(i, err) => err' ← err; Some (ID i +:+ ": " +:+ Error err')) (zip instruments errs).

Definition flushAudit : X (Engine O) (option error) :=
  r ← actX (Audit AFlush); mret (r : option error).

(** What [logCycle] keeps for the next cycle. *)
Definition logCycle (failures : list string) : X (Engine O) unit :=
  let text := StringsJoin failures "; " in
  if String.eqb text "" then modifyX (set_lastCycleError "") else
  now ← actX Now;
  e ← getX;
  if String.eqb text (lastCycleError e)
     && (TimeSub now (lastCycleErrorAt e) <? 60 * Second)
  then mret tt
  else modifyX (fun e => set_lastCycleErrorAt now (set_lastCycleError text e)).

Definition reportCycle (started : Time) (instruments : list InstrumentConfig)
    (failures : list string) (limit : Z) : X (Engine O) unit :=
  let n := Z.of_nat (length instruments) in
  let failed := Z.of_nat (length failures) in
  e ← getX;
  (if has e isCyclePerformanceReporter then
     ms ← elapsedMS started;
     actX (Runtime (RReportCyclePerformance
       (MkCyclePerformance started ms n (n - failed) failed limit))) ;; mret tt
   else mret tt) ;;
  if has e isMetricsReporter then
    pending ← actX (Audit APendingCount);
    now ← actX Now;
    e ← getX;
    actX (Runtime (RReportMetrics (metricsSnapshot (metrics e) (pending : Z) now))) ;; mret tt
  else mret tt.

Definition RunOnce : X (Engine O) (option error) :=
  started ← actX Now;
  e ← getX;
  let instruments := Instruments (cfg e) in
  let limit := workerLimit (MaxConcurrentInstruments (cfg e)) (length instruments) in
  errs ← inCycle (runJobs instruments);
  let failures := tickFailures instruments errs in
  flushErr ← flushAudit;
  (match flushErr with
   | Some _ => onMetrics recordAuditFlushError | None => mret tt end) ;;
  onMetrics (recordCycle (Z.of_nat (length instruments)) (Z.of_nat (length failures))) ;;
  reportCycle started instruments failures limit ;;
  actX Now ;;
  logCycle failures ;;
  mret (failuresError "tick failures: " failures).

(** ** Preflight *)

Definition prepareJob (instruments : list InstrumentConfig) (acc : gmap string string * Z)
    (index : nat) : X (Engine O) (gmap string string * Z) :=
  match instruments !! index with
  | None => mret acc
  | Some i =>
      e ← getX;
      err ← prepareInstrument i (startupFailure e (ID i));
      mret (match err with
            | Some err => (<[ID i := Error err]> (fst acc), snd acc)
            | None => (fst acc, snd acc + 1)
            end)
  end.

Definition sortStrings (l : list string) : list string := sort_slice string_less l.

Definition Prepare : X (Engine O) (option error) :=
  e ← getX;
  let instruments := Instruments (cfg e) in
  acc ← foldX (prepareJob instruments) (schedule (length instruments)) (∅, 0);
  let '(blocked, ready) := acc : gmap string string * Z in
  modifyX (set_preflightBlocked blocked) ;;
  mret (if 0 <? ready then None
        else Some (Errorf ("candidate preflight: no runnable instruments: "
               +:+ StringsJoin (sortStrings (map (fun '(id, f) => id +:+ ": " +:+ f)
                                               (range blocked))) "; "))).

(** [e.cfg.Venues[venueName].Markets[instrumentID] = market] *)
Definition setMarket (venueName instrumentID : string) (market : VenueMarketConfig) (c : Config)
    : Config :=
  MkConfig (cfg_Mode c) (PollIntervalMS c) (AuditPath c) (AuditMaxBytes c) (AuditBackups c)
    (HeartbeatPath c) (WatchdogTimeoutSeconds c) (MarketFailureThreshold c)
    (MarketRecoveryThreshold c) (MarketErrorGraceSeconds c) (TradingProgressTimeoutSeconds c)
    (MaxConcurrentInstruments c) (RulesRefreshSeconds c) (RPC c) (Instruments c)
    (alter (fun v => MkVenueConfig (venue_Type v) (Environment v) (venue_Enabled v)
              (TradingEnabled v) (DedicatedAccount v) (BaseURL v) (SelfTradePrevention v)
              (<[instrumentID := market]> (Markets v))) venueName (Venues c)).

(** The answer to a request for a market's rules, checked against the market's assets. *)
Inductive RulesReply :=
  | NoReader
  | LoadFailed (err : error)
  | Mismatch (kind mine theirs : string)
  | Loaded (rules : MarketRules).

Definition readRules (client : Client) (market : VenueMarketConfig) : X (Engine O) RulesReply :=
  if negb (isRuleReader client) then mret NoReader else
  r ← actX (Call (Name client) (CMarketRules (market_Symbol market)));
  mret (match r : reply MarketRules with
        | inr err => LoadFailed err
        | inl rules =>
            let differs theirs mine := negb (String.eqb theirs "") && negb (EqualFold theirs mine) in
            if differs (rules_BaseAsset rules) (market_BaseAsset market)
            then Mismatch "base asset" (market_BaseAsset market) (rules_BaseAsset rules)
            else if differs (rules_QuoteAsset rules) (market_QuoteAsset market)
            then Mismatch "quote asset" (market_QuoteAsset market) (rules_QuoteAsset rules)
            else Loaded rules
        end).

Definition updateMarket (venueName instrumentID : string) (market : VenueMarketConfig)
    : X (Engine O) unit :=
  modifyX (fun e => set_cfg (setMarket venueName instrumentID market (cfg e)) e).

(** One venue of [refreshInstrumentRules]: the failures and the active markets. *)
Definition refreshVenueRules (instrumentID : string) (acc : list string * Z)
    (nv : string * VenueConfig) : X (Engine O) (list string * Z) :=
  let '(venueName, v) := nv in
  if negb (venue_Enabled v) then mret acc else
  match Markets v !! instrumentID with
  | None => mret acc
  | Some market =>
      let failed msg := (fst acc ++ [venueName +:+ msg], snd acc + 1) in
      e ← getX;
      match clientOf e venueName instrumentID with
      | None => mret (failed ": client unavailable")
      | Some client =>
          r ← readRules client market;
          match r with
          | NoReader => mret (failed ": trading rules unavailable")
          | LoadFailed err => mret (failed (": load trading rules: " +:+ Error err))
          | Mismatch kind mine theirs =>
              mret (failed (": " +:+ kind +:+ " " +:+ mine +:+ " does not match exchange " +:+ theirs))
          | Loaded rules =>
              if negb (IsPositive (rules_PriceTick rules)) || negb (IsPositive (rules_QuantityStep rules))
              then mret (failed ": exchange returned non-positive price or quantity precision")
              else
              updateMarket venueName instrumentID (applyMarketRules market rules) ;;
              mret (fst acc, snd acc + 1)
          end
      end
  end.

Definition refreshInstrumentRules (instrumentID : string) : X (Engine O) (option error) :=
  e ← getX;
  acc ← foldX (refreshVenueRules instrumentID) (range (Venues (cfg e))) ([], 0);
  mret (joinedError (fst acc ++ if snd acc =? 0 then ["no enabled venue markets"] else [])).

Definition retryInstrument (instruments : list InstrumentConfig) (acc : Z * list string)
    (instrumentID : string) : X (Engine O) (Z * list string) :=
  match instrumentByID instruments instrumentID with
  | None => mret (fst acc, snd acc ++ [instrumentID +:+ ": instrument configuration missing"])
  | Some i =>
      rulesErr ← refreshInstrumentRules instrumentID;
      failure ← (match rulesErr with
                 | Some err => mret ("rule refresh: " +:+ Error err)
                 | None =>
                     modifyX (fun e => set_startupFailures (delete instrumentID (startupFailures e)) e) ;;
                     mret ""
                 end);
      prepareErr ← prepareInstrument i failure;
      match prepareErr with
      | None =>
          modifyX (fun e => set_startupFailures (delete instrumentID (startupFailures e))
                     (set_preflightBlocked (delete instrumentID (preflightBlocked e)) e)) ;;
          mret (fst acc + 1, snd acc)
      | Some err =>
          modifyX (fun e => set_preflightBlocked (<[instrumentID := Error err]> (preflightBlocked e)) e) ;;
          mret (fst acc, snd acc ++ [instrumentID +:+ ": " +:+ Error err])
      end
  end.

Definition RetryBlocked : X (Engine O) (Z * option error) :=
  e ← getX;
  let blocked := BlockedInstruments e in
  if (size blocked =? 0)%nat then mret (0, None) else
  acc ← foldX (retryInstrument (Instruments (cfg e)))
          (sortStrings (map fst (range blocked))) (0, []);
  mret (fst acc, failuresError "blocked instrument retry: " (snd acc)).

(** One market of [RefreshMarketRules]: the changes and the failures. *)
Definition refreshMarket (venueName : string) (acc : Z * list string)
    (im : string * VenueMarketConfig) : X (Engine O) (Z * list string) :=
  let '(instrumentID, market) := im in
  let place := venueName +:+ "/" +:+ instrumentID in
  let failed msg := (fst acc, snd acc ++ [place +:+ msg]) in
  e ← getX;
  r ← (match clientOf e venueName instrumentID with
       | None => mret NoReader | Some client => readRules client market end);
  match r with
  | NoReader => mret (failed ": trading rules unavailable")
  | LoadFailed err => mret (failed (": " +:+ Error err))
  | Mismatch kind mine theirs =>
      mret (failed (": " +:+ kind +:+ " changed from " +:+ mine +:+ " to " +:+ theirs))
  | Loaded rules =>
      let previous := marketRulesFromConfig market in
      let market := applyMarketRules market rules in
      let current := marketRulesFromConfig market in
      if equalMarketRules previous current then mret acc else
      updateMarket venueName instrumentID market ;;
      now ← actX Now;
      let change := MkRuleChange instrumentID venueName (market_Symbol market) previous current now in
      failures ← (if has e isRuleChangeReporter then
                    err ← actX (Runtime (RReportRuleChange change));
                    mret (match err : option error with
                          | Some err => snd acc ++ [place +:+ " alert: " +:+ Error err]
                          | None => snd acc end)
                  else mret (snd acc));
      onMetrics recordRuleChange ;;
      auditX "trading_rules_changed" (marshal change) ;;
      mret (fst acc + 1, failures)
  end.

Definition refreshVenue (acc : Z * list string) (nv : string * VenueConfig)
    : X (Engine O) (Z * list string) :=
  let '(venueName, v) := nv in
  if negb (venue_Enabled v) then mret acc
  else foldX (refreshMarket venueName) (range (Markets v)) acc.

Definition RefreshMarketRules : X (Engine O) (Z * option error) :=
  e ← getX;
  acc ← foldX refreshVenue (range (Venues (cfg e))) (0, []);
  err ← flushAudit;
  failures ← (match err with
              | Some err =>
                  onMetrics recordAuditFlushError ;; mret (snd acc ++ ["audit: " +:+ Error err])
              | None => mret (snd acc) end);
  mret (fst acc, failuresError "refresh trading rules: " failures).

(** ** Cancellations *)

(** The markets of an instrument the engine may trade. *)
Definition tradedMarket (instrumentID : string) (nv : string * VenueConfig)
    : option (string * VenueMarketConfig) :=
  let '(venueName, v) := nv in
  if negb (venue_Enabled v) || negb (TradingEnabled v) then None
  else market ← Markets v !! instrumentID; Some (venueName, market).

Definition tradedMarkets (c : Config) (instrumentID : string) : list (string * VenueMarketConfig) :=
  omap (tradedMarket instrumentID) (range (Venues c)).

Definition appendFailure (failures : list string) (prefix : string) (err : option error)
    : list string :=
  match err with Some err => failures ++ [prefix +:+ Error err] | None => failures end.

Definition cancelVenue (instrumentID : string) (failures : list string)
    (nm : string * VenueMarketConfig) : X (Engine O) (list string) :=
  let '(venueName, market) := nm in
  e ← getX;
  match clientOf e venueName instrumentID with
  | None => mret failures
  | Some client =>
      err ← cancelManagedFenced venueName instrumentID market client;
      mret (appendFailure failures (venueName +:+ ": ") err)
  end.

Definition cancelInstrument (i : InstrumentConfig) : X (Engine O) (option error) :=
  b ← preflightFailure (ID i);
  match b with
  | Some _ => mret None
  | None =>
      e ← getX;
      failures ← foldX (cancelVenue (ID i)) (tradedMarkets (cfg e) (ID i)) [];
      mret (failuresError "cancel failures: " failures)
  end.

Definition confirmVenue (instrumentID : string) (acc : gmap string (list Order) * bool * list string)
    (nm : string * VenueMarketConfig) : X (Engine O) (gmap string (list Order) * bool * list string) :=
  let '(venueName, market) := nm in
  let '(orders, confirmed, failures) := acc in
  e ← getX;
  match clientOf e venueName instrumentID with
  | None => mret (orders, false, failures ++ [venueName +:+ ": client missing"])
  | Some client =>
      r ← actX (Call (Name client) (COpenOrders (market_Symbol market)));
      mret (match r : reply (list Order) with
            | inr err => (orders, false, failures ++ [venueName +:+ ": " +:+ Error err])
            | inl l => (<[venueName := l]> orders,
                        confirmed && (length (ManagedOrdersFor client l) =? 0)%nat, failures)
            end)
  end.

Definition instrumentCancellationConfirmed (i : InstrumentConfig)
    : X (Engine O) (gmap string (list Order) * bool * option error) :=
  e ← getX;
  acc ← foldX (confirmVenue (ID i)) (tradedMarkets (cfg e) (ID i)) (∅, true, []);
  let '(orders, confirmed, failures) := acc : gmap string (list Order) * bool * list string in
  mret (match failures with
        | [] => (orders, confirmed, None)
        | _ => (orders, false, failuresError "confirm cancellations: " failures)
        end).

Definition CancelMarket (instrumentID venueName : string) : X (Engine O) (option error) :=
  b ← preflightFailure instrumentID;
  match b with
  | Some _ => mret None
  | None =>
  e ← getX;
  match (v ← Venues (cfg e) !! venueName; tradedMarket instrumentID (venueName, v)) with
  | None => mret None
  | Some (_, market) =>
  match clientOf e venueName instrumentID with
  | None => mret (Some (Errorf "client missing"))
  | Some client =>
      let leaseKey := marketLeaseKey venueName instrumentID market in
      l ← acquireMarketLease leaseKey;
      let '(generation, err) := l : Z * option error in
      match err with
      | Some err => mret (Some err)
      | None =>
          if generation =? 0 then mret (Some notOwned) else
          x ← cancelGuarded leaseKey generation client instrumentID (market_Symbol market);
          onMetrics (recordOMS 0 (fst x)) ;;
          err ← (match snd x with
                 | Some err => mret (Some err)
                 | None => faultReset (marketFaultKey venueName instrumentID market) end);
          releaseErr ← releaseMarketLease leaseKey generation;
          mret (match err with Some err => Some err | None => releaseErr end)
      end
  end end end.

Definition releaseHeld (failures : list string) (kg : string * Z) : X (Engine O) (list string) :=
  err ← releaseMarketLease (fst kg) (snd kg);
  mret (appendFailure failures ("lease " +:+ fst kg +:+ ": ") err).

Definition Shutdown : X (Engine O) (option error) :=
  e ← getX;
  failures ← foldX (fun failures i =>
      err ← cancelInstrument i; mret (appendFailure failures (ID i +:+ ": ") err))
    (Instruments (cfg e)) [];
  e ← getX;
  failures ← foldX releaseHeld (range (heldLeases e)) failures;
  flushAudit ;;
  mret (failuresError "shutdown cancel failures: " failures).

(** ** Operator controls *)

Definition clearVenueBlock (instrumentID : string) (failures : list string)
    (nm : string * VenueMarketConfig) : X (Engine O) (list string) :=
  let '(venueName, market) := nm in
  let place := venueName +:+ "/" +:+ market_Symbol market in
  e ← getX;
  match clientOf e venueName instrumentID with
  | None => mret failures
  | Some client =>
      err ← onX reconciler set_reconciler (fun r => ClearBlocked r client instrumentID);
      let failures := appendFailure failures (place +:+ ": ") err in
      err ← faultReset (marketFaultKey venueName instrumentID market);
      mret (appendFailure failures (place +:+ " fault reset: ") err)
  end.

Definition clearInstrumentBlocks (i : InstrumentConfig) : X (Engine O) (option error) :=
  e ← getX;
  failures ← foldX (clearVenueBlock (ID i)) (tradedMarkets (cfg e) (ID i)) [];
  mret (failuresError "clear OMS blocks: " failures).

Definition publishPaused (i : InstrumentConfig) (errorText : string)
    (ordersByVenue : gmap string (list Order)) : X (Engine O) unit :=
  e ← getX;
  match runtime e with
  | None => mret tt
  | Some _ =>
      r ← actX (Runtime (RGet (ID i)));
      e ← getX;
      let snapshot := fst (r : InstrumentSnapshot * option error) in
      let snapshot := if String.eqb (is_InstrumentID snapshot) "" then newSnapshot e i else snapshot in
      let snapshot := withPause e (ID i) snapshot in
      let snapshot := set_is_Venues (map (fun vs =>
          match ordersByVenue !! vs_Name vs with
          | Some orders => set_OpenOrders orders vs | None => vs end) (is_Venues snapshot)) snapshot in
      now ← actX Now;
      publishX (set_is_UpdatedAt now (set_is_Error errorText snapshot)) ;;
      mret tt
  end.

Definition setPaused (id : string) (state : PauseState) : X (Engine O) unit :=
  modifyX (fun e => set_paused (<[id := state]> (paused e)) e).
Definition setApplied (id : string) : X (Engine O) unit :=
  modifyX (fun e => set_pauseApplied ({[id]} ∪ pauseApplied e) e).

Definition pauseData (i : InstrumentConfig) (state : PauseState) (retained : bool) : Json :=
  JObj ([("instrument", JStr (ID i))]
    ++ (if retained then [("orders_retained", JBool true)] else [])
    ++ [("reason", JStr (Reason state)); ("requested_by", JNum (RequestedBy state))]).

(** The operator opened the instrument again, or never closed it. *)
Definition resumeInstrument (i : InstrumentConfig) (failures : list string)
    : X (Engine O) (list string) :=
  wasPaused ← isPaused (ID i);
  modifyX (fun e => set_pauseApplied (pauseApplied e ∖ {[ID i]})
             (set_paused (delete (ID i) (paused e)) e)) ;;
  if wasPaused : bool then
    err ← clearInstrumentBlocks i;
    mret (appendFailure failures (ID i +:+ " unblock: ") err)
  else mret failures.

(** A soft close retains the resting orders; an emergency stop is applied once no
    managed order is left. *)
Definition softPause (i : InstrumentConfig) (state : PauseState) : X (Engine O) unit :=
  setApplied (ID i) ;;
  auditX "instrument_paused" (pauseData i state true) ;;
  publishPaused i "" ∅.

Definition emergencyPause (i : InstrumentConfig) (state : PauseState) (failures : list string)
    : X (Engine O) (list string) :=
  cancelErr ← cancelInstrument i;
  x ← (match cancelErr with
       | Some err => mret (∅, false, Some err)
       | None => instrumentCancellationConfirmed i
       end);
  let '(orders, confirmed, cancelErr) := x : gmap string (list Order) * bool * option error in
  failures ← (match cancelErr, confirmed with
              | None, true =>
                  setApplied (ID i) ;;
                  auditX "instrument_paused" (pauseData i state false) ;;
                  mret failures
              | Some err, _ => mret (failures ++ [ID i +:+ ": " +:+ Error err])
              | None, false => mret failures
              end);
  publishPaused i (errorString cancelErr) orders ;;
  mret failures.

Definition controlInstrument (requests : gmap string PauseState) (failures : list string)
    (i : InstrumentConfig) : X (Engine O) (list string) :=
  match requests !! ID i with
  | None => resumeInstrument i failures
  | Some state =>
      setPaused (ID i) state ;;
      e ← getX;
      if bool_decide (ID i ∈ pauseApplied e) then mret failures
      else if negb (String.eqb (Reason state) ReasonEmergencyCancel)
      then softPause i state ;; mret failures
      else emergencyPause i state failures
  end.

(** A requested reconciliation: cancel, unblock, forget the request. *)
Definition reconcileInstrument (requests : gmap string ReconcileRequest) (failures : list string)
    (i : InstrumentConfig) : X (Engine O) (list string) :=
  match requests !! ID i with
  | None => mret failures
  | Some request =>
      err ← cancelInstrument i;
      match err with
      | Some err => mret (failures ++ [ID i +:+ " reconcile cancel: " +:+ Error err])
      | None =>
      err ← clearInstrumentBlocks i;
      match err with
      | Some err => mret (failures ++ [ID i +:+ " reconcile unblock: " +:+ Error err])
      | None =>
      err ← actX (Runtime (RClearReconcile (ID i)));
      match err : option error with
      | Some err => mret (failures ++ [ID i +:+ " clear reconcile control: " +:+ Error err])
      | None =>
          auditX "instrument_reconciled"
            (JObj [("instrument", JStr (ID i)); ("requested_at", JTime (rr_RequestedAt request));
                   ("requested_by", JNum (rr_RequestedBy request))]) ;;
          mret failures
      end end end
  end.

Definition applyReconciles (instruments : list InstrumentConfig) (failures : list string)
    : X (Engine O) (list string) :=
  e ← getX;
  if negb (has e isReconcileController) then mret failures else
  r ← actX (Runtime RReconciles);
  match r : reply (gmap string ReconcileRequest) with
  | inr err => mret (failures ++ ["load reconcile controls: " +:+ Error err])
  | inl requests => foldX (reconcileInstrument requests) instruments failures
  end.

Definition ApplyControls : X (Engine O) (option error) :=
  e ← getX;
  match runtime e with
  | None => mret None
  | Some _ =>
      r ← actX (Runtime RPaused);
      match r : reply (gmap string PauseState) with
      | inr err => mret (Some err)
      | inl requests =>
          failures ← foldX (controlInstrument requests) (Instruments (cfg e)) [];
          failures ← applyReconciles (Instruments (cfg e)) failures;
          flushAudit ;;
          mret (failuresError "apply controls: " failures)
      end
  end.
End Control.
