(* ===== verification/EngineFacts.v ===== *)
(** One lemma per operation of the engine: which traces it has and what of the engine's
    state it leaves alone.  Operations that write nothing have every [QuietProp]; an
    operation that may write is disciplined by every rule its writes obey. *)
From S2P Require Import Prelude Decimal Domain Json FaultData TradesimData Runtimeops World Config Strategy Risk Tradesim Fault Venue Process Oms OmsFacts OmsSafety OmsCancel Discipline AuditEvents Engine EngineCycle EngineControl.

Open Scope string_scope.
Open Scope list_scope.
Open Scope Z_scope.

(** ** Frames *)

(** The price source is only ever asked for prices. *)
Definition asked {O} `{PriceSource O} (o o' : option O) : Prop := exists i x x' es r,
  o = Some x /\ o' = Some x' /\ yields (source_Price i x) es (Ret (r, x')).

(** What no trading cycle changes. *)
Record stable {O} `{PriceSource O} (e e' : Engine O) : Prop := MkStable {
  st_cfg : cfg e' = cfg e;
  st_venues : venues e' = venues e;
  st_runtime : runtime e' = runtime e;
  st_owner : ownerID e' = ownerID e;
  st_locks : instrumentAccountLocks e' = instrumentAccountLocks e;
  st_paused : paused e' = paused e;
  st_applied : pauseApplied e' = pauseApplied e;
  st_blocked : preflightBlocked e' = preflightBlocked e;
  st_startup : startupFailures e' = startupFailures e;
  st_oracle : rtc asked (oracle e) (oracle e')
}.

#[export] Instance stable_preorder {O} `{PriceSource O} : PreOrder (stable (O := O)).
Proof.
  split; [by constructor|]. intros e1 e2 e3 [] []. constructor; [congruence..|by etrans].
Qed.

(** The relation of a state that contains an engine. *)
Definition via {S O} `{PriceSource O} (get : S -> Engine O) (s s' : S) : Prop := stable (get s) (get s').

#[export] Instance via_preorder {S O} `{PriceSource O} (get : S -> Engine O) : PreOrder (via get).
Proof.
  split; [intros s; unfold via; reflexivity|]. intros s1 s2 s3 H12 H23. unfold via in *.
  by transitivity (get s2).
Qed.

Abbreviation stableC := (via cy_engine) (only parsing).
Abbreviation stableF := (via (fun f => cy_engine (fr_cycle f))) (only parsing).

(** ** Automation *)

Lemma quiet_trace P `{!QuietProp P} es : quiet es -> P es.
Proof.
  induction 1 as [|e es He _ IH]; [apply tp_nil|]. change (P ([e] ++ es)).
  apply tp_app; [by apply qp_quiet|done].
Qed.

Lemma runs_must {S A} P `{!TraceProp P} R `{!PreOrder R} (c : go A) (s : S) : runs P R (mustX c) s.
Proof. apply ok_done. split; [apply tp_nil|reflexivity]. Qed.

#[export] Hint Extern 0 (PreOrder _) => apply _ : runs.
#[export] Hint Extern 0 (TraceProp _) => apply _ : runs.
#[export] Hint Extern 0 (QuietProp _) => apply _ : runs.

Ltac keeps := first [reflexivity | by constructor].

Ltac runs_step :=
  match goal with
  | |- forall _, _ => intros ?
  | |- runs _ _ (mret _) _ => apply runs_ret
  | |- runs _ _ (panicX _) _ => apply runs_panic
  | |- runs _ _ (goX _) _ => apply runs_goX
  | |- runs _ _ (mustX _) _ => apply runs_must; apply _
  | |- runs _ _ (actX _) _ => apply runs_act; intros ?; apply qp_quiet; reflexivity
  | |- runs _ _ (modifyX _) _ => apply runs_modify; keeps
  | |- runs _ _ (getX ≫= _) _ => apply runs_get_bind
  | |- runs _ _ (_ ≫= _) _ => apply runs_bind
  | |- runs _ _ (foldX _ _ _) _ => apply runs_foldX
  | |- runs _ _ (forX _ _) _ => apply runs_forX
  | |- runs _ _ (let '(_, _) := ?x in _) _ => destruct x
  | |- runs _ _ (match ?x with _ => _ end) _ => destruct x
  | |- runs _ _ _ _ => solve [eauto with runs]
  end.
Ltac go := repeat (runs_step; cbv beta zeta).

(** ** The components the cycle calls *)

Ltac emits_all := repeat first [emits_step | by repeat constructor].

Lemma fault_decide_quiet m key f : emits quiet (decideWith m key f).
Proof. unfold decideWith, Fault.ensureLoaded, Fault.persist. cbv zeta. emits_all. Qed.

Lemma fault_reset_quiet m key : emits quiet (ResetWithContext m key).
Proof. unfold ResetWithContext. cbv zeta. emits_all. Qed.

Lemma emits_lift {A} P `{!TraceProp P} (c : go A) : emits P (lift c).
Proof. destruct c; apply tp_nil. Qed.

Lemma emits_try {A} P (c : prog A) : emits P c -> emits P (try c).
Proof.
  intros H. apply spec_try. eapply spec_mono; [|exact H]. by intros es [a|e|m].
Qed.

Lemma randomBelow_quiet max : emits quiet (randomBelow max).
Proof. unfold randomBelow. emits_all. Qed.
Lemma randomDuration_quiet a b : emits quiet (randomDuration a b).
Proof. unfold randomDuration. repeat first [apply randomBelow_quiet | emits_step]. Qed.
Lemma randomStep_quiet a b s : emits quiet (randomStep a b s).
Proof.
  unfold randomStep. cbv zeta.
  repeat first [emits_step | apply tp_nil | by repeat constructor].
Qed.
#[export] Hint Resolve randomBelow_quiet randomDuration_quiet randomStep_quiet : emits.

Lemma generateFill_quiet i venueName market book now seq :
  emits quiet (generateFill i venueName market book now seq).
Proof.
  unfold generateFill. cbv zeta.
  repeat first [apply emits_lift; apply _ | emits_step | apply tp_nil].
Qed.
#[export] Hint Resolve generateFill_quiet emits_try : emits.

Lemma Observe_quiet g i venueName market book now : emits quiet (Observe g i venueName market book now).
Proof.
  unfold Observe. cbv zeta. repeat first [apply emits_lift; apply _ | emits_step | apply tp_nil].
Qed.

Lemma ClearBlocked_quiet `{MapRange} r client instrumentID :
  emits quiet (ClearBlocked r client instrumentID).
Proof. unfold ClearBlocked, Oms.ensureLoaded, Oms.persist. cbv zeta. emits_all. Qed.

(** What a price source promises the engine: it writes to no exchange. *)
Class QuietSource (O : Type) `{PriceSource O} :=
  source_quiet : forall i o, emits quiet (source_Price i o).

(** ** Operations that write nothing *)

Section Quiet.
Context {O : Type} `{PriceSource O} `{!QuietSource O} `{MapRange} `{SliceSort}.
Context {P : trace -> Prop} `{!QuietProp P}.
Implicit Types e : Engine O.

(** A component's quiet operation on its field of the engine. *)
Lemma runs_component {T A} (get : Engine O -> T) (set : T -> Engine O -> Engine O)
    (f : T -> prog (A * T)) e :
  emits quiet (f (get e)) -> (forall t, stable e (set t e)) -> runs P stable (onX get set f) e.
Proof.
  intros Hf Hs. apply runs_onX; [|done]. eapply spec_mono; [|exact Hf].
  intros es o. by apply quiet_trace.
Qed.

Lemma readClock_runs {S} (R : S -> S -> Prop) `{!PreOrder R} n s : runs P R (readClock n) s.
Proof. revert s. induction n as [|n IH]; intros s; cbn [readClock]; go. Qed.
Hint Resolve readClock_runs : runs.

Lemma elapsedMS_runs {S} (R : S -> S -> Prop) `{!PreOrder R} start s : runs P R (elapsedMS start) s.
Proof. unfold elapsedMS. go. Qed.
Lemma auditX_runs {S} (R : S -> S -> Prop) `{!PreOrder R} ty data s : runs P R (auditX ty data) s.
Proof. unfold auditX. go. Qed.
Hint Resolve elapsedMS_runs auditX_runs : runs.

Lemma onMetrics_runs f e : runs P stable (onMetrics f) e.
Proof. unfold onMetrics. go. Qed.
Hint Resolve onMetrics_runs : runs.

(** The answer is one the price source gave, in the state it was in, of the events of the call. *)
Lemma oraclePrice_ok i e : okX (oraclePrice i) e (fun es out e' => P es /\ stable e e'
  /\ forall r, out = inl r -> exists o o', oracle e = Some o /\ yields (source_Price i o) es (Ret (r, o'))).
Proof.
  unfold oraclePrice. apply okX_get_bind. destruct (oracle e) as [o|] eqn:Eo.
  2:{ apply ok_done. split_and!; [apply tp_nil|reflexivity|done]. }
  eapply ok_bind; [apply settle_ok; exact (spec_yields _ _ _ (source_quiet i o))|].
  intros es [[r o']|err|m] [Hy HP]; apply ok_done; rewrite app_nil_r; simpl.
  - split_and!; [by apply quiet_trace| |].
    + constructor; try done. apply rtc_once. rewrite Eo. by exists i, o, o', es, r.
    + intros r' [= <-]. by exists o, o'.
  - split_and!; [by apply quiet_trace|reflexivity|done].
  - split_and!; [by apply quiet_trace|reflexivity|done].
Qed.

Lemma oraclePrice_runs i e : runs P stable (oraclePrice i) e.
Proof. eapply okX_mono; [apply oraclePrice_ok|]. tauto. Qed.
Hint Resolve oraclePrice_runs : runs.

Lemma acquireMarketLease_runs key e : runs P stable (acquireMarketLease key) e.
Proof. unfold acquireMarketLease. go. Qed.
Hint Resolve acquireMarketLease_runs : runs.

Lemma renewMarketLease_runs key generation e : runs P stable (renewMarketLease key generation) e.
Proof. unfold renewMarketLease. go. Qed.

Lemma releaseMarketLease_runs key generation e : runs P stable (releaseMarketLease key generation) e.
Proof.
  unfold releaseMarketLease. go. apply runs_modify.
  match goal with |- stable _ (if ?b then _ else _) => destruct b; keeps end.
Qed.

Lemma marketWriteGuard_runs key generation e : runs P stable (marketWriteGuard key generation) e.
Proof. unfold marketWriteGuard, recordLeaseFenceRejection. go. Qed.

Lemma faultFailure_runs key stage cause force e :
  runs P stable (faultFailure key stage cause force) e.
Proof. apply runs_component; [apply fault_decide_quiet|by constructor]. Qed.
Lemma faultHealthy_runs key managed e : runs P stable (faultHealthy key managed) e.
Proof. apply runs_component; [apply fault_decide_quiet|by constructor]. Qed.
Lemma faultReset_runs key e : runs P stable (faultReset key) e.
Proof. apply runs_component; [apply fault_reset_quiet|by constructor]. Qed.
Hint Resolve faultFailure_runs faultHealthy_runs faultReset_runs releaseMarketLease_runs : runs.

(** *** The state of a cycle *)

Lemma onEngine_runs {A} (c : X (Engine O) A) s :
  runs P stable c (cy_engine s) -> runs P stableC (onEngine c) s.
Proof. intros Hc. eapply runs_zoom; [exact Hc|]. intros t Ht. exact Ht. Qed.

Lemma onFrame_runs {A} (c : X (Cycle O) A) f :
  runs P stableC c (fr_cycle f) -> runs P stableF (onFrame c) f.
Proof. intros Hc. eapply runs_zoom; [exact Hc|]. intros t Ht. exact Ht. Qed.

Lemma engineF_runs {A} (c : X (Engine O) A) f :
  runs P stable c (cy_engine (fr_cycle f)) -> runs P stableF (engineF c) f.
Proof. intros Hc. by apply onFrame_runs, onEngine_runs. Qed.

Lemma onSnapshot_runs g (f : Frame O) : runs P stableF (onSnapshot g) f.
Proof. unfold onSnapshot. go. Qed.
Lemma addFailure_runs msg (f : Frame O) : runs P stableF (addFailure msg) f.
Proof. unfold addFailure. go. Qed.
Lemma appendVenue_runs vs (f : Frame O) : runs P stableF (appendVenue vs) f.
Proof. unfold appendVenue. apply onSnapshot_runs. Qed.
Hint Resolve onEngine_runs onFrame_runs engineF_runs onSnapshot_runs addFailure_runs
  appendVenue_runs : runs.

Lemma fetchBalances_runs key client (c : Cycle O) : runs P stableC (fetchBalances key client) c.
Proof. unfold fetchBalances. go. Qed.
Hint Resolve fetchBalances_runs : runs.

Lemma collectBalances_runs i (c : Cycle O) : runs P stableC (collectBalances i) c.
Proof. unfold collectBalances, collectVenue. go. Qed.
Hint Resolve collectBalances_runs : runs.

Lemma recentFills_runs venueName instrumentID client symbol e :
  runs P stable (recentFills venueName instrumentID client symbol) e.
Proof. unfold recentFills. go. Qed.
Hint Resolve recentFills_runs : runs.

Lemma filterQuotes_runs {S} (R : S -> S -> Prop) `{!PreOrder R} i market book inventory quotes s :
  runs P R (filterQuotes i market book inventory quotes) s.
Proof. unfold filterQuotes. go. Qed.
Lemma generateQuotes_runs {S} (R : S -> S -> Prop) `{!PreOrder R} i venueName market ref book inventory s :
  runs P R (generateQuotes i venueName market ref book inventory) s.
Proof. unfold generateQuotes. go. Qed.
Hint Resolve filterQuotes_runs generateQuotes_runs : runs.

Lemma failPersistence_runs vc err vs (f : Frame O) : runs P stableF (failPersistence vc err vs) f.
Proof. unfold failPersistence. go. Qed.
Lemma failState_runs vc state (f : Frame O) : runs P stableF (failState vc state) f.
Proof. unfold failState. go. Qed.
Hint Resolve failPersistence_runs failState_runs : runs.

Lemma setLastBookAt_runs key v e : runs P stable (setLastBookAt key v) e.
Proof. unfold setLastBookAt. go. Qed.
Lemma setLastInventory_runs i v e : runs P stable (setLastInventory i v) e.
Proof. unfold setLastInventory. go. Qed.
Lemma getLastInventory_runs i e : runs P stable (getLastInventory i) e.
Proof. unfold getLastInventory. go. Qed.
Lemma setValidUntil_runs i v e : runs P stable (setLastReferenceValidUntil i v) e.
Proof. unfold setLastReferenceValidUntil. go. Qed.
Lemma getValidUntil_runs i e : runs P stable (getLastReferenceValidUntil i) e.
Proof. unfold getLastReferenceValidUntil. go. Qed.
Hint Resolve setLastBookAt_runs setLastInventory_runs getLastInventory_runs setValidUntil_runs
  getValidUntil_runs : runs.

Lemma simulator_runs i venueName market book now e :
  runs P stable (onX tradeSimulator set_tradeSimulator
    (fun g => Observe g i venueName market book now)) e.
Proof. apply runs_component; [apply Observe_quiet|by constructor]. Qed.
Hint Resolve simulator_runs : runs.

Lemma readBook_runs vc vs (f : Frame O) : runs P stableF (readBook vc vs) f.
Proof. unfold readBook. go. Qed.
Lemma simulateTrade_runs vc book (f : Frame O) : runs P stableF (simulateTrade vc book) f.
Proof. unfold simulateTrade. go. Qed.
Lemma readAccount_runs vc vs (f : Frame O) : runs P stableF (readAccount vc vs) f.
Proof. unfold readAccount. go. Qed.
Lemma shadowVenue_runs vc book inventory quotes vs (f : Frame O) :
  runs P stableF (shadowVenue vc book inventory quotes vs) f.
Proof. unfold shadowVenue. go. Qed.
Lemma strategyInventory_runs i mode collected (f : Frame O) :
  runs P stableF (strategyInventory i mode collected) f.
Proof. unfold strategyInventory. go. Qed.
Hint Resolve readBook_runs simulateTrade_runs readAccount_runs shadowVenue_runs
  strategyInventory_runs : runs.

Lemma publishX_runs snapshot e : runs P stable (publishX snapshot) e.
Proof. unfold publishX. go. Qed.
Hint Resolve publishX_runs : runs.
Lemma publishCycle_runs start returned (f : Frame O) :
  runs P stableF (publishCycle start returned) f.
Proof. unfold publishCycle. go. Qed.
Hint Resolve publishCycle_runs : runs.

Lemma inFrame_runs {A} i (c : X (Frame O) A) s :
  (forall f, fr_cycle f = s -> runs P stableF c f) -> runs P stableC (inFrame i c) s.
Proof.
  intros Hc. eapply ok_bind; [apply Hc; reflexivity|]. intros es x [HP HR]. apply ok_done.
  rewrite app_nil_r. by split.
Qed.

(** *** Paused, blocked and candidate instruments *)

Lemma pausedBook_runs vc vs (f : Frame O) : runs P stableF (pausedBook vc vs) f.
Proof. unfold pausedBook. go. Qed.
Lemma pausedAccount_runs vc vs (f : Frame O) : runs P stableF (pausedAccount vc vs) f.
Proof. unfold pausedAccount. go. Qed.
Lemma pausedReference_runs i (f : Frame O) : runs P stableF (pausedReference i) f.
Proof. unfold pausedReference. go. Qed.
Hint Resolve pausedBook_runs pausedAccount_runs pausedReference_runs : runs.
Lemma pausedVenue_runs i collected nv (f : Frame O) : runs P stableF (pausedVenue i collected nv) f.
Proof. unfold pausedVenue. go. Qed.
Hint Resolve pausedVenue_runs : runs.

Lemma pausedBody_runs i (f : Frame O) : runs P stableF (pausedBody i) f.
Proof. unfold pausedBody. go. Qed.

Lemma runPausedInstrument_runs i (s : Cycle O) : runs P stableC (runPausedInstrument i) s.
Proof.
  unfold runPausedInstrument. apply runs_get_bind. destruct (runtime (cy_engine s)); [|apply runs_ret].
  apply inFrame_runs. intros f _. apply pausedBody_runs.
Qed.

Lemma publishPreflightBlocked_runs i failure e : runs P stable (publishPreflightBlocked i failure) e.
Proof. unfold publishPreflightBlocked. go. Qed.

Lemma prepareVenue_runs vc mode ref e : runs P stable (prepareVenue vc mode ref) e.
Proof. unfold prepareVenue, prepareAccount. go. Qed.
Hint Resolve prepareVenue_runs : runs.
Lemma prepareMarket_runs i ref acc nv e : runs P stable (prepareMarket i ref acc nv) e.
Proof. unfold prepareMarket. go. Qed.
Hint Resolve prepareMarket_runs : runs.
Lemma prepareInstrument_runs i failure e : runs P stable (prepareInstrument i failure) e.
Proof. unfold prepareInstrument. go. Qed.
End Quiet.
#[export] Hint Resolve readClock_runs elapsedMS_runs auditX_runs onMetrics_runs oraclePrice_runs
  acquireMarketLease_runs renewMarketLease_runs releaseMarketLease_runs marketWriteGuard_runs
  faultFailure_runs faultHealthy_runs faultReset_runs onSnapshot_runs addFailure_runs
  appendVenue_runs fetchBalances_runs collectBalances_runs recentFills_runs filterQuotes_runs
  generateQuotes_runs failPersistence_runs failState_runs setLastBookAt_runs
  setLastInventory_runs getLastInventory_runs setValidUntil_runs getValidUntil_runs
  simulator_runs readBook_runs simulateTrade_runs readAccount_runs shadowVenue_runs
  strategyInventory_runs publishX_runs publishCycle_runs pausedBook_runs pausedAccount_runs
  pausedReference_runs pausedVenue_runs pausedBody_runs runPausedInstrument_runs
  publishPreflightBlocked_runs prepareVenue_runs prepareMarket_runs prepareInstrument_runs
  onEngine_runs onFrame_runs engineF_runs : runs.
#[export] Hint Extern 0 (QuietSource _) => apply _ : runs.


(** ** Operations that may write *)

(** The event of a guard that passed, and what a write may be preceded by. *)
Definition pass_event {O} (e : Engine O) (key : string) (generation : Z) : event :=
  MkEvent (Runtime (RValidateMarketLease key (ownerID e) generation)) (true, None).

Definition fence_of {O} (e : Engine O) (key : string) (generation : Z) : option event :=
  if has e isMarketLocker then Some (pass_event e key generation) else None.

(** The lease was acquired by this engine in the events known; without leases the generation
    is 1. *)
Definition lease_known {O} (e : Engine O) (key : string) (generation : Z) (K : event -> Prop) : Prop :=
  (generation <> 0 /\ (has e isMarketLocker = false -> generation = 1))
  /\ (has e isMarketLocker = true ->
      exists ttl, K (MkEvent (Runtime (RAcquireMarketLease key (ownerID e) ttl)) (generation, None))).

(** Given the events [K0], a rule allows the writes [W] of a client under the lease [key]. *)
Definition allows {O} (Φ : Rule) (K0 : event -> Prop) (e : Engine O) (client : Client) (key : string)
    (W : Z -> event -> Prop) : Prop :=
  forall (K : event -> Prop) generation w, (forall x, K0 x -> K x) ->
    lease_known e key generation K -> is_write w = true ->
    at_client (Name client) w -> W generation w -> Φ K (fence_of e key generation) w.

Definition cancels_write (generation : Z) (w : event) : Prop := placed_by w = [].

(** A submission of targets under managed client ids. *)
Definition submits_quotes (instrumentID : string) (quotes : list Quote) (generation : Z) (w : event)
    : Prop :=
  Forall (fun q => exists quote, quote ∈ quotes /\ request_for instrumentID generation quote q)
    (placed_by w).

Lemma has_stable {O} `{PriceSource O} (e e' : Engine O) iface : stable e e' -> has e' iface = has e iface.
Proof. intros []. unfold has. by rewrite st_runtime0. Qed.

Lemma allows_know {O} Φ (K0 K1 : event -> Prop) (e : Engine O) client key W :
  (forall x, K0 x -> K1 x) -> allows Φ K0 e client key W -> allows Φ K1 e client key W.
Proof. intros H01 Ha K generation w HK. apply Ha. auto. Qed.

Lemma allows_stable {O} `{PriceSource O} Φ K0 (e e' : Engine O) client key W :
  stable e e' -> allows Φ K0 e client key W -> allows Φ K0 e' client key W.
Proof.
  intros Hs Ha K generation w HK [Hg Hk] Hw Hc HW. unfold fence_of, pass_event.
  rewrite (has_stable e e' _ Hs), (st_owner _ _ Hs).
  apply Ha; try done. unfold lease_known. by rewrite <- (has_stable e e' _ Hs), <- (st_owner _ _ Hs).
Qed.

Lemma lease_known_stable {O} `{PriceSource O} (e e' : Engine O) key generation K :
  stable e e' -> lease_known e key generation K -> lease_known e' key generation K.
Proof.
  intros Hs Hk. unfold lease_known. by rewrite (has_stable e e' _ Hs), (st_owner _ _ Hs).
Qed.

Lemma lease_known_mono {O} (e : Engine O) key generation (K K' : event -> Prop) :
  (forall x, K x -> K' x) -> lease_known e key generation K -> lease_known e key generation K'.
Proof. intros HK [Hg Hk]. split; [done|]. intros Hl. destruct (Hk Hl) as [ttl Ht]. eauto. Qed.

Section Writes.
Context {O : Type} `{PriceSource O} `{!QuietSource O} `{MapRange} `{SliceSort}.
Context (Φ : Rule) `{!Discipline Φ}.
Implicit Types e : Engine O.
Abbreviation D K := (disciplined Φ K None).

(** The guard: quiet, and its event alone when it passes. *)
Lemma marketWriteGuard_ok key generation e :
  okX (marketWriteGuard key generation) e (fun gs o e' => stable e e' /\
    exists r, o = inl r /\ guard_traces (pass_event e key generation) r gs).
Proof.
  assert (Hrej : forall cause err (r : result (Runtime (RValidateMarketLease key (ownerID e) generation))),
    ok ((recordLeaseFenceRejection key generation cause ;; mret (Some err)) e)
      (fun es x => stable e (snd x) /\ exists r', fst x = inl r' /\
        guard_traces (pass_event e key generation) r' (MkEvent _ r :: es))).
  { intros cause err r. unfold recordLeaseFenceRejection, auditX. apply ok_act. intros ra.
    apply ok_done. split; [by constructor|]. exists (Some err). split; [done|]. split; [|done].
    by repeat constructor. }
  unfold marketWriteGuard. apply ok_act. intros [valid [err|]].
  - exact (Hrej _ _ (valid, Some err)).
  - destruct valid; [|exact (Hrej _ _ (false, None))].
    apply ok_done. split; [reflexivity|]. exists None. split; [done|]. split; [|done].
    by repeat constructor.
Qed.

Lemma marketWriteGuard_stable key generation e e1 : stable e e1 ->
  okX (marketWriteGuard key generation) e1 (fun gs o e' => stable e1 e' /\
    exists r, o = inl r /\ guard_traces (pass_event e key generation) r gs).
Proof.
  intros Hs. assert (Hp : pass_event e key generation = pass_event e1 key generation).
  { unfold pass_event. by rewrite (st_owner _ _ Hs). }
  rewrite Hp. apply marketWriteGuard_ok.
Qed.

(** An operation of the reconciler for [client] that writes only what the rule allows. *)
Lemma onReconciler_ok {A} key generation (f : bool -> Reconciler -> prog (A * Reconciler))
    (client : Client) W (Q : trace -> A -> Prop) K e :
  lease_known e key generation K -> allows Φ K e client key W ->
  (forall r, ok (f (has e isMarketLocker) r) (fun es out =>
     guarded (has e isMarketLocker) es /\ Forall (at_client (Name client)) es
     /\ (forall w, w ∈ es -> is_write w = true -> W generation w) /\ Q es (fst out))) ->
  okX (onReconciler key generation f) e (fun es' o e' => D K es' /\ stable e e'
    /\ exists es a, o = inl a /\ Q es a /\ placed es' = placed es /\ cancelled es' = cancelled es).
Proof.
  intros Hk Ha Hf. set (g := has e isMarketLocker) in *.
  eapply ok_bind; [apply (handle_guard_ok (marketWriteGuard key generation)
    (guard_traces (pass_event e key generation)) stable _ e _ (marketWriteGuard_stable key generation e)
    (Hf (reconciler e)))|].
  intros es' [x s'] (Hs & es & [[a r]| |] & HQ & Hexp & Ho); simpl in HQ; [|done|done].
  destruct HQ as (Hg & Hc & HW & HQ). simpl in Ho, Hs. subst x. apply ok_done. rewrite app_nil_r. simpl.
  split_and!.
  - assert (Hallow : forall w, w ∈ es -> is_write w = true -> Φ K (fence_of e key generation) w).
    { intros w Hin Hw. apply Ha; [done|done|done| |by apply HW].
      by apply (proj1 (Forall_forall _ _) Hc). }
    unfold fence_of in Hallow. fold g in Hallow. destruct g.
    + by eapply (expands_disciplined Φ K (pass_event e key generation)).
    + by eapply (expands_disciplined_free Φ K (pass_event e key generation)).
  - etransitivity; [exact Hs|]. by constructor.
  - exists es, a. split_and!; try done; eapply expands_written; try exact Hexp; by intros r' gs [].
Qed.

Lemma placed_by_in w es q : w ∈ es -> q ∈ placed_by w -> q ∈ placed es.
Proof.
  intros Hw Hq. unfold placed. rewrite list_elem_of_In, in_concat. exists (placed_by w).
  split; [|by apply list_elem_of_In]. apply in_map. by apply list_elem_of_In.
Qed.

Lemma cancelGuarded_runs key generation client instrumentID symbol K e :
  lease_known e key generation K -> allows Φ K e client key cancels_write ->
  runs (D K) stable (cancelGuarded key generation client instrumentID symbol) e.
Proof.
  intros Hk Ha. eapply okX_mono.
  - apply (onReconciler_ok key generation _ client cancels_write (fun _ _ => True) K e Hk Ha).
    intros r. eapply ok_mono; [apply ok_and|].
    + apply CancelManaged_ok.
    + eapply spec_mono; [|exact (spec_and _ _ _ _ (CancelManaged_ok r client instrumentID symbol
        (has e isMarketLocker)) (CancelManaged_at client r instrumentID symbol (has e isMarketLocker)))].
      intros es [a|er|m]; simpl; [|tauto|tauto]. intros [_ Hc]. exact Hc.
    + intros es out [(Hg & Hp & _) Hc]. split_and!; try done. intros w Hw _. unfold cancels_write.
      destruct (placed_by w) as [|q l] eqn:E; [done|]. exfalso.
      assert (Hq : q ∈ placed es) by (apply (placed_by_in w); [done|rewrite E; by left]).
      rewrite Hp in Hq. by apply elem_of_nil in Hq.
  - intros es o s' (Hd & Hst & _). by split.
Qed.

Lemma reconcileGuarded_runs key generation client instrumentID quotes thr orders refresh K e :
  lease_known e key generation K ->
  allows Φ K e client key (submits_quotes instrumentID quotes) ->
  runs (D K) stable (reconcileGuarded key generation client instrumentID quotes thr orders refresh) e.
Proof.
  intros Hk Ha. eapply okX_mono.
  - apply (onReconciler_ok key generation _ client (submits_quotes instrumentID quotes)
      (fun _ _ => True) K e Hk Ha).
    intros r. eapply ok_mono; [apply ok_and|].
    + apply reconcile_ok.
    + eapply spec_mono; [|exact (spec_and _ _ _ _ (reconcile_ok r client instrumentID quotes thr orders
        (has e isMarketLocker) generation refresh)
        (Reconcile_at client r instrumentID quotes thr orders (has e isMarketLocker) generation refresh))].
      intros es [a|er|m]; simpl; [|tauto|tauto]. intros [_ Hc]. exact Hc.
    + intros es out [[[Hg _ (qs & Hsub & Hf & _) _ _] _] Hc]. split_and!; try done.
      intros w Hw _. apply Forall_forall. intros q Hq.
      assert (Hin : q ∈ placed es) by by eapply placed_by_in.
      apply list_elem_of_lookup in Hin as [k Hk'].
      destruct (Forall2_lookup_r _ _ _ _ _ Hf Hk') as (quote & Hl & Hr).
      exists quote. split; [|done]. eapply elem_of_sublist; [by eapply list_elem_of_lookup_2|done].
  - intros es o s' (Hd & Hst & _). by split.
Qed.

(** ** Acquiring, cancelling, marking *)

Lemma acquireMarketLease_ok key K e :
  okX (acquireMarketLease key) e (fun es o e' => D K es /\ stable e e'
    /\ forall a, o = inl a -> snd a = None -> fst a <> 0 -> lease_known e key (fst a) (fun x => x ∈ es)).
Proof.
  unfold acquireMarketLease. apply okX_get_bind. destruct (has e isMarketLocker) eqn:El; cbn [negb].
  - apply okX_act_bind. intros [gen err].
    assert (Hq : D K [MkEvent (Runtime (RAcquireMarketLease key (ownerID e) (marketLeaseTTL e))) (gen, err)]).
    { split; [by apply d_quiet|done]. }
    apply (okX_mono _ _ (fun es o e' => es = [] /\ stable e e' /\ o = inl (gen, err))).
    + destruct ((0 <? gen) && _); apply ok_done; (split_and!; [done| |done]); keeps.
    + intros es o e' (-> & Hs & ->). split_and!; [done|done|]. intros a [= <-] Hn Hz. simpl in *. subst.
      split; [split; [done|congruence]|]. intros _. eexists. left.
  - apply okX_ret. split_and!; [done|reflexivity|]. intros a [= <-] _ _. split; [by split|congruence].
Qed.

Lemma cancelManagedFenced_runs venueName instrumentID market client K e :
  allows Φ K e client (marketLeaseKey venueName instrumentID market) cancels_write ->
  runs (D K) stable (cancelManagedFenced venueName instrumentID market client) e.
Proof.
  intros Ha. unfold cancelManagedFenced. cbv zeta.
  eapply (runs_learn Φ stable _ _ (fun es a _ => snd a = None -> fst a <> 0 ->
    lease_known e (marketLeaseKey venueName instrumentID market) (fst a) (fun x => x ∈ es)));
    [apply acquireMarketLease_ok|].
  intros es [gen err] e1 Hs Hk. simpl in Hk. destruct err as [err|]; [apply runs_ret|].
  destruct (gen =? 0) eqn:Eg; [apply runs_ret|]. apply Z.eqb_neq in Eg.
  apply runs_bind; [|intros ? ? ?; go].
  apply cancelGuarded_runs; [|eapply allows_know; [by left|by eapply allows_stable]].
  eapply lease_known_stable; [exact Hs|]. eapply lease_known_mono; [|by apply Hk]. intros x Hx. by right.
Qed.

(** A failure is marked; orders are cancelled in live markets only. *)
Lemma markVenueFailure_runs instrumentID venueName v market client stage cause force K e :
  (live (cfg_Mode (cfg e)) v = true ->
     allows Φ K e client (marketLeaseKey venueName instrumentID market) cancels_write) ->
  runs (D K) stable (markVenueFailure instrumentID venueName v market client stage cause force) e.
Proof.
  intros Ha. unfold markVenueFailure. apply runs_bind; [apply onMetrics_runs|]. intros _ e1 Hs1.
  apply runs_bind; [apply faultFailure_runs|]. intros [decision persistErr] e2 Hs2. cbv zeta.
  apply runs_get_bind. assert (Hs : stable e e2) by by transitivity e1.
  destruct (negb _ || negb (String.eqb (cfg_Mode (cfg e2)) ModeLive) || negb (TradingEnabled v)) eqn:E;
    [apply runs_ret|].
  rewrite !orb_false_iff, !negb_false_iff in E. destruct E as [[_ Em] Et].
  apply runs_bind; [|intros ? ? ?; go].
  apply cancelManagedFenced_runs. eapply allows_stable; [exact Hs|]. apply Ha.
  unfold live. rewrite <- (st_cfg _ _ Hs), Em, Et. done.
Qed.
End Writes.
