(* ===== verification/EngineWrites.v ===== *)
(** What a trading cycle may write: the operations from the live path of one market up
    to [RunOnce], each disciplined by every rule the writes of its markets obey.

    [planned] is what the quotes of a market have gone through before they are submitted, each
    input traced to the events it came from; [cache_ok] says the same of the account replies
    that the instruments of one cycle share. *)
From S2P Require Import Prelude Decimal Domain Json FaultData TradesimData Runtimeops World Config Strategy Risk Tradesim Fault Venue Process Oms OmsFacts OmsSafety OmsCancel Discipline AuditEvents Engine EngineCycle EngineControl EngineFacts.

Open Scope string_scope.
Open Scope list_scope.
Open Scope Z_scope.

(** ** What the quotes of a market went through *)

Definition leaseKey (vc : VenueCtx) : string :=
  marketLeaseKey (vc_name vc) (ID (vc_instrument vc)) (vc_market vc).

Definition emptyBook (vc : VenueCtx) : Book :=
  MkBook (vc_name vc) (market_Symbol (vc_market vc)) Zero Zero Zero Zero zero_time.

(** The book came from the market's exchange; there is none only when that reading failed. *)
Definition book_seen (K : event -> Prop) (vc : VenueCtx) (book : Book) : Prop :=
  let top r := K (MkEvent (Call (Name (vc_client vc)) (CTopBook (market_Symbol (vc_market vc)))) r) in
  top (inl book) \/ (exists err, top (inr err)) /\ book = emptyBook vc.

(** The open orders the exchange listed; none are read without a credential. *)
Definition orders_seen (K : event -> Prop) (vc : VenueCtx) (orders : list Order) : Prop :=
  0 < CredentialID (vc_market vc)
    /\ K (MkEvent (Call (Name (vc_client vc)) (COpenOrders (market_Symbol (vc_market vc)))) (inl orders))
  \/ CredentialID (vc_market vc) <= 0 /\ orders = [].

Section Evidence.
(** The engine as it was when the cycle began. *)
Context {O : Type} `{PriceSource O} `{MapRange} (e0 : Engine O).
Implicit Types K : event -> Prop.

(** The reference price is the answer the price source gave, to the call for this instrument,
    of the events of that call. *)
Definition ref_seen K (i : InstrumentConfig) (ref : ReferencePrice) : Prop :=
  exists o o' es, rtc asked (oracle e0) (Some o)
    /\ yields (source_Price i o) es (Ret (inl ref, o')) /\ forall x, x ∈ es -> K x.

(** The clients of one exchange account. *)
Definition account_client (key : string) (client : Client) : Prop :=
  exists name v id market, Venues (cfg e0) !! name = Some v /\ Markets v !! id = Some market
    /\ accountCacheKey (venue_Type v) (CredentialID market) = key /\ clientOf e0 name id = Some client.

(** The account answered the question for its balances. *)
Definition account_read K (key : string) (r : reply (list Balance)) : Prop :=
  exists client, account_client key client /\ K (MkEvent (Call (Name client) CBalances) r).

(** What is free of an asset: the entry of the account, or nothing. *)
Definition free_of (balances : list Balance) (asset : string) : Decimal :=
  bal_Free (default (MkBalance asset Zero Zero) (findBalance balances asset)).

(** The free balances of the market's two assets, of the account of the market; a market
    without a credential has none. *)
Definition funds_seen K (vc : VenueCtx) (base quote : Decimal) : Prop :=
  (exists balances,
     account_read K (accountCacheKey (venue_Type (vc_cfg vc)) (CredentialID (vc_market vc))) (inl balances)
     /\ base = free_of balances (market_BaseAsset (vc_market vc))
     /\ quote = free_of balances (market_QuoteAsset (vc_market vc)))
  \/ CredentialID (vc_market vc) <= 0 /\ base = FromInt64 0 /\ quote = FromInt64 0.

(** Reference check, generation and risk filter. *)
Record screened K (vc : VenueCtx) (ref : ReferencePrice) (book : Book) (filtered : list Quote) : Prop := {
  sc_reference : ref_seen K (vc_instrument vc) ref;
  sc_book : book_seen K vc book;
  sc_valid : ValidateMarketReference ref book (Strategy (vc_instrument vc)) = Ret tt;
  sc_quotes : exists inventory now wall since clock all,
    Generate (vc_instrument vc) (vc_name vc) (vc_market vc) ref book inventory now wall = Ret all
    /\ FilterQuotes (vc_instrument vc) (vc_market vc) book inventory all since clock = Ret filtered
}.

(** What is submitted: the screened quotes within the limit of open orders and the budget. *)
Definition planned K (vc : VenueCtx) (ref : ReferencePrice) (book : Book) (quotes : list Quote) : Prop :=
  exists filtered orders base quote budget,
    screened K vc ref book filtered /\ orders_seen K vc orders /\ funds_seen K vc base quote
    /\ let managed := ManagedOrdersFor (vc_client vc) orders in
       ApplyBalanceBudget
         (ApplyOrderLimit filtered (Z.of_nat (length orders)) (Z.of_nat (length managed))
            (MaxOpenOrders (vc_market vc)))
         managed base quote (BalanceReserveBPS (Strategy (vc_instrument vc)))
         (MaxBaseCommitment (vc_market vc)) (MaxQuoteCommitment (vc_market vc)) = Ret (quotes, budget).

Lemma book_seen_mono K K' vc book : (forall x, K x -> K' x) -> book_seen K vc book -> book_seen K' vc book.
Proof. intros HK [Hb|[[err Hb] E]]; [left; auto|right; eauto]. Qed.

Lemma orders_seen_mono K K' vc orders : (forall x, K x -> K' x) -> orders_seen K vc orders -> orders_seen K' vc orders.
Proof. intros HK [[Hc Ho]|Ho]; [left; auto|by right]. Qed.

Lemma ref_seen_mono K K' i ref : (forall x, K x -> K' x) -> ref_seen K i ref -> ref_seen K' i ref.
Proof. intros HK (o & o' & es & Ho & Hy & He). exists o, o', es. split_and!; auto. Qed.

Lemma account_read_mono K K' key r : (forall x, K x -> K' x) -> account_read K key r -> account_read K' key r.
Proof. intros HK (client & Hc & Hr). exists client. auto. Qed.

Lemma funds_seen_mono K K' vc base quote : (forall x, K x -> K' x) ->
  funds_seen K vc base quote -> funds_seen K' vc base quote.
Proof. intros HK [(l & Hl & Hf)|Hf]; [|by right]. left. exists l. split; [by eapply account_read_mono|done]. Qed.

Lemma screened_mono K K' vc ref book filtered : (forall x, K x -> K' x) ->
  screened K vc ref book filtered -> screened K' vc ref book filtered.
Proof.
  intros HK [H1 H2 H3 H4]. constructor; [by eapply ref_seen_mono|by eapply book_seen_mono|done|done].
Qed.

Lemma planned_mono K K' vc ref book quotes : (forall x, K x -> K' x) ->
  planned K vc ref book quotes -> planned K' vc ref book quotes.
Proof.
  intros HK (filtered & orders & base & quote & budget & H1 & H2 & H3 & H4).
  exists filtered, orders, base, quote, budget.
  split_and!; [by eapply screened_mono|by eapply orders_seen_mono|by eapply funds_seen_mono|done].
Qed.
End Evidence.

(** A rule that allows what the live path of a market does. *)
Definition obeys {O} `{PriceSource O} `{MapRange} (Φ : Rule) (e0 e : Engine O) (vc : VenueCtx) : Prop :=
  allows Φ (fun _ => False) e (vc_client vc) (leaseKey vc) cancels_write
  /\ forall K ref book quotes, planned e0 K vc ref book quotes ->
       allows Φ K e (vc_client vc) (leaseKey vc) (submits_quotes (ID (vc_instrument vc)) quotes).

Lemma obeys_stable {O} `{PriceSource O} `{MapRange} Φ (e0 e e' : Engine O) vc :
  stable e e' -> obeys Φ e0 e vc -> obeys Φ e0 e' vc.
Proof.
  intros Hs [Hc Hq]. split; [by eapply allows_stable|]. intros K ref book quotes Hp.
  eapply allows_stable; [exact Hs|by eapply Hq].
Qed.

(** The markets of an instrument that a live engine trades. *)
Definition trades {O} `{MapRange} (e : Engine O) (i : InstrumentConfig) (vc : VenueCtx) : Prop :=
  vc_instrument vc = i
  /\ Venues (cfg e) !! vc_name vc = Some (vc_cfg vc)
  /\ venue_Enabled (vc_cfg vc) = true
  /\ live (cfg_Mode (cfg e)) (vc_cfg vc) = true
  /\ Markets (vc_cfg vc) !! ID i = Some (vc_market vc)
  /\ clientOf e (vc_name vc) (ID i) = Some (vc_client vc).

Lemma trades_stable {O} `{PriceSource O} `{MapRange} (e e' : Engine O) i vc : stable e e' -> trades e' i vc <-> trades e i vc.
Proof. intros Hs. unfold trades, clientOf. by rewrite (st_cfg _ _ Hs), (st_venues _ _ Hs). Qed.

(** ** What the operations on a frame leave alone

    The account replies shared by the cycle and the instrument of the snapshot, and what is
    made of the two. *)

Class FrameView {O T} (view : Frame O -> T) := frame_view f f' :
  cy_balances (fr_cycle f') = cy_balances (fr_cycle f) ->
  is_InstrumentID (fr_snapshot f') = is_InstrumentID (fr_snapshot f) -> view f' = view f.

Definition balances_of {O} (f : Frame O) : option (gmap string (reply (list Balance))) := cy_balances (fr_cycle f).
Definition instrument_of {O} (f : Frame O) : string := is_InstrumentID (fr_snapshot f).
#[export] Instance balances_view {O} : FrameView (@balances_of O).
Proof. by intros f f'. Qed.
#[export] Instance instrument_view {O} : FrameView (@instrument_of O).
Proof. by intros f f'. Qed.

Definition keeps {O T A} (view : Frame O -> T) (c : X (Frame O) A) : Prop :=
  forall f, partX c f (fun _ _ f' => view f' = view f).

Section KeepsRules.
Context {O T : Type} `{PriceSource O} `{MapRange} `{SliceSort} (view : Frame O -> T) `{!FrameView view}.
Implicit Types f : Frame O.
Abbreviation keeps_id := (keeps view).

Lemma keepsX_ret {A} (a : A) : keeps_id (mret a).
Proof. by intros f. Qed.
Lemma keepsX_bind {A B} (c : X (Frame O) A) (g : A -> X (Frame O) B) :
  keeps_id c -> (forall a, keeps_id (g a)) -> keeps_id (c ≫= g).
Proof.
  intros Hc Hg f. eapply partX_bind; [apply Hc| |done]. intros es a f' E.
  eapply partX_mono; [apply Hg|]. intros es' o f'' E'. congruence.
Qed.
Lemma keepsX_get {B} (g : Frame O -> X (Frame O) B) : (forall f, keeps_id (g f)) -> keeps_id (getX ≫= g).
Proof. intros Hg f. apply partX_get_bind, Hg. Qed.
Lemma keepsX_act a : keeps_id (actX a).
Proof. intros f r _. done. Qed.
Lemma keeps_goX {A} (c : go A) : keeps_id (goX c).
Proof. by intros f. Qed.
Lemma keeps_mustX {A} (c : go A) : keeps_id (mustX c).
Proof. by intros f. Qed.
Lemma keeps_engine {A} (c : X (Engine O) A) : keeps_id (engineF c).
Proof. intros f. apply partX_zoom, partX_zoom, partX_any. intros es o e. by apply frame_view. Qed.
Lemma keeps_snapshot g : (forall s, is_InstrumentID (g s) = is_InstrumentID s) -> keeps_id (onSnapshot g).
Proof. intros Hg f. apply frame_view; [done|]. apply Hg. Qed.
Lemma keeps_modify g : (forall f, fr_snapshot (g f) = fr_snapshot f) -> (forall f, fr_cycle (g f) = fr_cycle f) ->
  keeps_id (modifyX g).
Proof. intros Hg Hc f. apply frame_view; simpl; by rewrite ?Hg, ?Hc. Qed.
Lemma keeps_foldX {A B} (g : B -> A -> X (Frame O) B) l b :
  (forall b x, keeps_id (g b x)) -> keeps_id (foldX g l b).
Proof.
  intros Hg. revert b. induction l as [|x l IH]; intros b; [apply keepsX_ret|].
  apply keepsX_bind; [apply Hg|apply IH].
Qed.
Lemma keeps_clock n : keeps_id (readClock n).
Proof.
  induction n as [|n IH]; [apply keepsX_ret|]. apply keepsX_bind; [apply keepsX_act|]. intros t.
  apply keepsX_bind; [apply IH|]. intros l. apply keepsX_ret.
Qed.

End KeepsRules.

Create HintDb keeps discriminated.

Ltac keeps_step :=
  match goal with
  | |- forall _, _ => intros ?
  | |- keeps _ (mret _) => apply keepsX_ret
  | |- keeps _ (getX ≫= _) => apply keepsX_get
  | |- keeps _ (_ ≫= _) => apply keepsX_bind
  | |- keeps _ (actX _) => apply keepsX_act
  | |- keeps _ (goX _) => apply keeps_goX
  | |- keeps _ (mustX _) => apply keeps_mustX
  | |- keeps _ (engineF _) => apply keeps_engine; apply _
  | |- keeps _ (readClock _) => apply keeps_clock
  | |- keeps _ (onSnapshot _) => apply keeps_snapshot; [apply _|intros ?; reflexivity]
  | |- keeps _ (modifyX _) => apply keeps_modify; [apply _|intros ?; reflexivity..]
  | |- keeps _ (foldX _ _ _) => apply keeps_foldX
  | |- keeps _ (forX _ _) => apply keeps_foldX
  | |- keeps _ (let '(_, _) := ?x in _) => destruct x
  | |- keeps _ (match ?x with _ => _ end) => destruct x
  | |- keeps _ _ => solve [eauto with keeps]
  end.
Ltac keep := repeat (keeps_step; cbv beta zeta).


Section FrameKeeps.
Context {O T : Type} `{PriceSource O} `{MapRange} `{SliceSort} (view : Frame O -> T) `{!FrameView view}.
Abbreviation keeps_id := (keeps view).

Lemma markFailure_keeps vc stage cause force : keeps_id (markFailure vc stage cause force).
Proof. apply keeps_engine, _. Qed.
Lemma addFailure_keeps msg : keeps_id (addFailure msg).
Proof. unfold addFailure. keep. Qed.
Lemma appendVenue_keeps vs : keeps_id (appendVenue vs).
Proof. unfold appendVenue. keep. Qed.
Lemma auditX_keeps ty data : keeps_id (auditX ty data).
Proof. unfold auditX. keep. Qed.
Lemma elapsedMS_keeps start : keeps_id (elapsedMS start).
Proof. unfold elapsedMS. keep. Qed.
Hint Resolve markFailure_keeps addFailure_keeps appendVenue_keeps auditX_keeps elapsedMS_keeps : keeps.

Lemma failStage_keeps vc stage label cause vs : keeps_id (failStage vc stage label cause vs).
Proof. unfold failStage. keep. Qed.
Lemma failState_keeps vc state : keeps_id (failState vc state).
Proof. unfold failState. keep. Qed.
Hint Resolve failStage_keeps failState_keeps : keeps.

Lemma shadowVenue_keeps vc book inventory quotes vs : keeps_id (shadowVenue vc book inventory quotes vs).
Proof. unfold shadowVenue, failPersistence. keep. Qed.
Lemma failOMS_keeps vc key generation err vs : keeps_id (failOMS vc key generation err vs).
Proof. unfold failOMS. keep. Qed.
Hint Resolve shadowVenue_keeps failOMS_keeps : keeps.

Lemma liveVenue_keeps vc book inventory quotes err vs :
  keeps_id (liveVenue vc book inventory quotes err vs).
Proof.
  unfold liveVenue, ownedVenue, failBudget, faultCancel, failPersistence, quoteVenue. keep.
Qed.
Hint Resolve liveVenue_keeps : keeps.

Lemma planVenue_keeps vc mode ref inventory book vs : keeps_id (planVenue vc mode ref inventory book vs).
Proof. unfold planVenue, simulateTrade, readAccount, generateQuotes, filterQuotes. keep. Qed.
Hint Resolve planVenue_keeps : keeps.

Lemma cycleVenue_keeps vc mode ref inventory collected vs :
  keeps_id (cycleVenue vc mode ref inventory collected vs).
Proof. unfold cycleVenue, readBook. keep. Qed.
Hint Resolve cycleVenue_keeps : keeps.

(** The parts of an instrument's cycle beside the account replies. *)
Lemma rejectReference_keeps i err : keeps_id (rejectReference i err).
Proof. unfold rejectReference, rejectVenue. keep. Qed.
Lemma strategyInventory_keeps i mode collected : keeps_id (strategyInventory i mode collected).
Proof. unfold strategyInventory. keep. Qed.
Lemma runVenue_keeps i ref inventory collected nv : keeps_id (runVenue i ref inventory collected nv).
Proof. destruct nv. unfold runVenue. keep. Qed.
Lemma publishCycle_keeps start returned : keeps_id (publishCycle start returned).
Proof. unfold publishCycle. keep. Qed.
Lemma withPause_keeps e i : keeps_id (onSnapshot (withPause (O := O) e i)).
Proof. apply keeps_snapshot; [done|]. intros s. unfold withPause. by destruct (paused e !! i). Qed.
Lemma pausedReference_keeps i : keeps_id (pausedReference i).
Proof. unfold pausedReference. keep. Qed.
Lemma pausedVenue_keeps i collected nv : keeps_id (pausedVenue i collected nv).
Proof. destruct nv. unfold pausedVenue, pausedBook, pausedAccount. keep. Qed.
End FrameKeeps.
#[export] Hint Resolve markFailure_keeps addFailure_keeps appendVenue_keeps auditX_keeps elapsedMS_keeps
  rejectReference_keeps strategyInventory_keeps runVenue_keeps publishCycle_keeps withPause_keeps pausedReference_keeps
  pausedVenue_keeps : keeps.
#[export] Hint Extern 0 (FrameView _) => apply _ : keeps.

Section Cycle.
Context {O : Type} `{PriceSource O} `{!QuietSource O} `{MapRange} `{SliceSort}.
Context (Φ : Rule) `{!Discipline Φ} (e0 : Engine O).
Implicit Types f : Frame O.
Abbreviation D K := (disciplined Φ K None).
Abbreviation eng f := (cy_engine (fr_cycle f)).

Lemma markFailure_runs vc stage cause force K f :
  (live (cfg_Mode (cfg (eng f))) (vc_cfg vc) = true ->
     allows Φ K (eng f) (vc_client vc) (leaseKey vc) cancels_write) ->
  runs (D K) stableF (markFailure vc stage cause force) f.
Proof. intros Ha. apply engineF_runs. by apply markVenueFailure_runs. Qed.

Lemma failStage_runs vc stage label cause vs K f :
  (live (cfg_Mode (cfg (eng f))) (vc_cfg vc) = true ->
     allows Φ K (eng f) (vc_client vc) (leaseKey vc) cancels_write) ->
  runs (D K) stableF (failStage vc stage label cause vs) f.
Proof.
  intros Ha. unfold failStage. apply runs_bind; [by apply markFailure_runs|]. go.
Qed.

Lemma cancels_any K e client key : allows Φ (fun _ => False) e client key cancels_write ->
  allows (O := O) Φ K e client key cancels_write.
Proof. apply allows_know. by intros. Qed.

(** A cancellation under a known lease, then quiet steps. *)
Lemma cancelF_runs vc generation K f :
  obeys Φ e0 (eng f) vc -> lease_known (eng f) (leaseKey vc) generation K ->
  runs (D K) stableF (engineF (cancelGuarded (leaseKey vc) generation (vc_client vc)
    (ID (vc_instrument vc)) (market_Symbol (vc_market vc)))) f.
Proof. intros [Hc _] Hk. apply engineF_runs, cancelGuarded_runs; [apply _|done|by apply cancels_any]. Qed.

Lemma obeys_mark vc K f : obeys Φ e0 (eng f) vc ->
  live (cfg_Mode (cfg (eng f))) (vc_cfg vc) = true ->
  allows Φ K (eng f) (vc_client vc) (leaseKey vc) cancels_write.
Proof. intros [Hc _] _. by apply cancels_any. Qed.

Lemma failOMS_runs vc generation err vs K f :
  obeys Φ e0 (eng f) vc -> lease_known (eng f) (leaseKey vc) generation K ->
  runs (D K) stableF (failOMS vc (leaseKey vc) generation err vs) f.
Proof.
  intros Ho Hk. unfold failOMS. apply runs_bind; [by apply cancelF_runs|]. intros x f1 Hs1.
  apply runs_bind; [go|]. intros _ f2 Hs2. apply runs_bind; [|go].
  apply markFailure_runs, obeys_mark. eapply obeys_stable; [|exact Ho]. by transitivity (eng f1).
Qed.

Lemma quoteVenue_runs vc generation ref book inventory budget quotes vs K f :
  obeys Φ e0 (eng f) vc -> lease_known (eng f) (leaseKey vc) generation K ->
  planned e0 K vc ref book quotes ->
  runs (D K) stableF (quoteVenue vc (leaseKey vc) generation book inventory budget quotes vs) f.
Proof.
  intros Ho Hk Hp. unfold quoteVenue. cbv zeta.
  apply runs_bind; [go|]. intros _ f1 Hs1. apply runs_bind; [go|]. intros start f2 Hs2.
  assert (Hs : stable (eng f) (eng f2)) by by transitivity (eng f1).
  apply runs_bind.
  { apply engineF_runs, reconcileGuarded_runs; [apply _|by eapply lease_known_stable|].
    eapply allows_stable; [exact Hs|]. by eapply (proj2 Ho). }
  intros x f3 Hs3. apply runs_bind; [go|]. intros ms f4 Hs4.
  assert (Hs' : stable (eng f) (eng f4)).
  { transitivity (eng f2); [done|]. by transitivity (eng f3). }
  destruct (snd x) as [err|]; [|go].
  apply failOMS_runs; [by eapply obeys_stable|by eapply lease_known_stable].
Qed.

Lemma runs_must_bind {S A B} (P : trace -> Prop) `{!TraceProp P} (R : S -> S -> Prop) `{!PreOrder R}
    (c : go A) (g : A -> X S B) s :
  (forall a, c = Ret a -> runs P R (g a) s) -> runs P R (mustX c ≫= g) s.
Proof.
  intros Hg. destruct c as [a|err|m].
  - exact (Hg a eq_refl).
  - apply ok_done. split; [apply tp_nil|reflexivity].
  - apply ok_done. split; [apply tp_nil|reflexivity].
Qed.

Lemma runs_go_bind {S A B} (P : trace -> Prop) `{!TraceProp P} (R : S -> S -> Prop) `{!PreOrder R}
    (c : go A) (g : reply A -> X S B) s :
  (forall a, c = Ret a -> runs P R (g (inl a)) s) -> (forall err, runs P R (g (inr err)) s) ->
  runs P R (goX c ≫= g) s.
Proof.
  intros Hg He. destruct c as [a|err|m].
  - exact (Hg a eq_refl).
  - exact (He err).
  - apply ok_done. split; [apply tp_nil|reflexivity].
Qed.

(** The free balances that a snapshot shows. *)
Definition free_in (b : option Balance) : Decimal := match b with Some b => bal_Free b | None => FromInt64 0 end.
Definition funded K (vc : VenueCtx) (vs : VenueSnapshot) : Prop :=
  funds_seen e0 K vc (free_in (BaseBalance vs)) (free_in (QuoteBalance vs)).

Lemma ownedVenue_runs vc generation ref book inventory filtered vs K f :
  obeys Φ e0 (eng f) vc -> lease_known (eng f) (leaseKey vc) generation K ->
  screened e0 K vc ref book filtered -> funded K vc vs -> orders_seen K vc (OpenOrders vs) ->
  runs (D K) stableF (ownedVenue vc (leaseKey vc) generation book inventory filtered vs) f.
Proof.
  intros Ho Hk Hp Hf Hor. unfold ownedVenue. cbv zeta. apply runs_must_bind; [apply _..|].
  intros [quotes budget] Hbud.
  assert (Hp' : planned e0 K vc ref book quotes)
    by (exists filtered, (OpenOrders vs), (free_in (BaseBalance vs)), (free_in (QuoteBalance vs)), budget; done).
  destruct (length quotes =? 0)%nat.
  { unfold failBudget. apply runs_bind; [by apply markFailure_runs, obeys_mark|]. go. }
  apply runs_bind; [go|]. intros [health [err|]] f1 Hs1; [go|].
  destruct (ShouldCancel health).
  { unfold faultCancel. apply runs_bind; [|go].
    apply cancelF_runs; [by eapply obeys_stable|by eapply lease_known_stable]. }
  destruct (AllowQuotes health); cbn [negb]; [|go].
  eapply quoteVenue_runs; [by eapply obeys_stable|by eapply lease_known_stable|done].
Qed.

Lemma liveVenue_runs vc ref book inventory filtered openOrdersErr vs K f :
  obeys Φ e0 (eng f) vc -> screened e0 K vc ref book filtered -> funded K vc vs ->
  (openOrdersErr = None -> orders_seen K vc (OpenOrders vs)) ->
  runs (D K) stableF (liveVenue vc book inventory filtered openOrdersErr vs) f.
Proof.
  intros Ho Hp Hf Hor. unfold liveVenue. cbv zeta. fold (leaseKey vc).
  destruct openOrdersErr as [err|].
  { apply runs_bind; [by apply markFailure_runs, obeys_mark|]. go. }
  eapply (runs_learn Φ stableF _ _ (fun es a _ => snd a = None -> fst a <> 0 ->
    lease_known (eng f) (leaseKey vc) (fst a) (fun x => x ∈ es))).
  { apply okX_zoom, okX_zoom. eapply okX_mono; [apply (acquireMarketLease_ok Φ (leaseKey vc) K)|].
    intros es o e' (H1' & H2' & H3'). split_and!; [done|done|exact H3']. }
  intros es [gen err] f1 Hs1 Hl. simpl in Hl.
  destruct err as [err|]; [go|]. destruct (gen =? 0) eqn:Eg; [go|]. apply Z.eqb_neq in Eg.
  assert (Hin : forall x, K x -> K x \/ x ∈ es) by by left.
  eapply ownedVenue_runs; [by eapply obeys_stable| |by eapply screened_mono|by eapply funds_seen_mono|].
  - eapply lease_known_stable; [exact Hs1|]. eapply lease_known_mono; [|by apply Hl]. by right.
  - eapply orders_seen_mono; [exact Hin|by apply Hor].
Qed.

(** ** From the book to the quotes *)

Lemma generateQuotes_ok i venueName market ref book inventory K f :
  okX (generateQuotes i venueName market ref book inventory) f (fun es o f' =>
    D K es /\ via (fun f => eng f) f f' /\ forall r, o = inl r -> forall all, r = inl all ->
      exists now wall, Generate i venueName market ref book inventory now wall = Ret all).
Proof.
  unfold generateQuotes. apply okX_act_bind. intros now. apply okX_act_bind. intros wall.
  apply ok_done. simpl. split_and!; try by apply d_quiet.
  - done.
  - unfold via. reflexivity.
  - intros r Hr all ->. exists now, wall.
    destruct (Generate i venueName market ref book inventory now wall); congruence.
Qed.

Lemma filterQuotes_ok i market book inventory quotes K f :
  okX (filterQuotes i market book inventory quotes) f (fun es o f' =>
    D K es /\ via (fun f => eng f) f f' /\ forall r, o = inl r -> forall kept, r = inl kept ->
      exists since clock, FilterQuotes i market book inventory quotes since clock = Ret kept).
Proof.
  unfold filterQuotes. apply okX_act_bind. intros since.
  eapply okX_bind; [apply (readClock_runs (P := D K) stableF)| |].
  - intros es times f' [Hd Hs]. apply ok_done. simpl. rewrite app_nil_r.
    split_and!; [apply d_quiet; done| |exact Hs|].
    + eapply (disciplined_mono Φ); [by left|left; reflexivity|exact Hd].
    + intros r Hr kept ->. exists since, (fun k => nth k times 0).
      destruct (FilterQuotes i market book inventory quotes since _); congruence.
  - intros es m f' [Hd Hs]. simpl. split_and!; [apply d_quiet; done| |exact Hs|done].
    eapply (disciplined_mono Φ); [by left|left; reflexivity|exact Hd].
Qed.

(** The parts of a snapshot that the sizing of the quotes uses. *)
Definition same_account (vs vs' : VenueSnapshot) : Prop :=
  BaseBalance vs' = BaseBalance vs /\ QuoteBalance vs' = QuoteBalance vs /\ OpenOrders vs' = OpenOrders vs.

(** What follows the reading of the open orders. *)
Lemma readFills_ok vc (err : option error) vs K f :
  okX (start ← actX Now;
       fl ← engineF (recentFills (vc_name vc) (ID (vc_instrument vc)) (vc_client vc) (market_Symbol (vc_market vc)));
       ms ← elapsedMS start;
       let vs := set_FillsDurationMS ms (set_vs_Fills (fst fl) vs) in
       mret (err, match snd fl with Some fe => addVenueError ("fills: " +:+ Error fe) vs | None => vs end)) f
    (fun es o f' => D K es /\ via (fun f => eng f) f f'
      /\ forall a, o = inl a -> fst a = err /\ same_account vs (snd a)).
Proof.
  apply okX_act_bind. intros start. unfold elapsedMS.
  eapply okX_bind; [apply (engineF_runs (P := D K)), recentFills_runs|..].
  - intros es [fills fe] f' [Hd Hs] now _. apply ok_done.
    split; [|split; [exact Hs|by intros a [= <-]; destruct fe]].
    apply (disciplined_app Φ K None [_]); [split; [by apply d_quiet|done]|].
    apply (disciplined_app Φ K None es [_]); [done|]. split; [by apply d_quiet|done].
  - intros es m f' [Hd Hs]. split; [|by split; [exact Hs|]].
    apply (disciplined_app Φ K None [_]); [split; [by apply d_quiet|done]|done].
Qed.

Lemma readAccount_ok vc vs K f : OpenOrders vs = [] ->
  okX (readAccount vc vs) f (fun es o f' => D K es /\ via (fun f => eng f) f f' /\ forall a, o = inl a ->
    BaseBalance (snd a) = BaseBalance vs /\ QuoteBalance (snd a) = QuoteBalance vs
    /\ (fst a = None -> orders_seen (fun x => x ∈ es) vc (OpenOrders (snd a)))).
Proof.
  intros Hn. unfold readAccount. destruct (Z.leb_spec (CredentialID (vc_market vc)) 0) as [Ec|Ec].
  { apply okX_ret. split_and!; [done|reflexivity|]. intros a [= <-]. split_and!; [done..|]. by right. }
  unfold elapsedMS at 1. do 3 (apply okX_act_bind; intros ?).
  match goal with r : result (Call _ _) |- _ => destruct r as [orders|err] end;
    (eapply okX_mono; [apply readFills_ok|]); intros es o f' (Hd & Hs & Ha);
    (split; [apply (disciplined_app Φ K None [_; _; _]); [repeat (split; [by apply d_quiet|]); done|done]|]);
    (split; [exact Hs|]); intros a Ea; destruct (Ha a Ea) as (E & HB & HQ & HO); (split_and!; [done..|]); rewrite E; [|done].
  intros _. left. split; [done|]. rewrite HO. right; left.
Qed.

Lemma planVenue_runs vc mode ref inventory book vs K f :
  mode = cfg_Mode (cfg (eng f)) -> (live mode (vc_cfg vc) = true -> obeys Φ e0 (eng f) vc) ->
  ref_seen e0 K (vc_instrument vc) ref -> book_seen K vc book ->
  ValidateMarketReference ref book (Strategy (vc_instrument vc)) = Ret tt ->
  (live mode (vc_cfg vc) = true -> funded K vc vs) -> OpenOrders vs = [] ->
  runs (D K) stableF (planVenue vc mode ref inventory book vs) f.
Proof.
  intros -> Ho Hr Hb Hv Hfund Hopen. unfold planVenue. cbv zeta.
  apply runs_bind; [go|]. intros _ f1 Hs1.
  eapply (runs_learn Φ stableF); [by apply readAccount_ok|].
  intros es0 [openErr vs'] f2 Hs2 (HB & HQ & Horders). simpl in HB, HQ, Horders.
  assert (Hs : stable (eng f) (eng f2)) by by transitivity (eng f1).
  eapply (runs_learn Φ stableF); [apply generateQuotes_ok|].
  intros es quotes f3 Hs3 Hgen.
  assert (Hs' : stable (eng f) (eng f3)) by by transitivity (eng f2).
  assert (Hfail : forall K' g stage label err vs, stable (eng f) (eng g) ->
    runs (D K') stableF (failStage vc stage label err vs) g).
  { intros K' g stage label err vs0 Hsg. apply failStage_runs. intros Hl. apply obeys_mark; [|done].
    eapply obeys_stable; [exact Hsg|]. apply Ho. by rewrite <- (st_cfg _ _ Hsg). }
  destruct quotes as [all|err]; [|by apply Hfail].
  destruct (Hgen all eq_refl) as (now & wall & Hg).
  eapply (runs_learn Φ stableF); [apply filterQuotes_ok|].
  intros es' quotes f4 Hs4 Hfil.
  assert (Hs'' : stable (eng f) (eng f4)) by by transitivity (eng f3).
  destruct quotes as [kept|err]; [|by apply Hfail].
  destruct (Hfil kept eq_refl) as (since & clock & Hf).
  destruct (live (cfg_Mode (cfg (eng f))) (vc_cfg vc)) eqn:El; [|go].
  assert (Hin : forall x, K x -> ((K x \/ x ∈ es0) \/ x ∈ es) \/ x ∈ es') by by do 3 left.
  eapply (liveVenue_runs vc ref).
  - eapply obeys_stable; [exact Hs''|by apply Ho].
  - constructor; [by eapply ref_seen_mono|by eapply book_seen_mono|done|].
    by exists inventory, now, wall, since, clock, all.
  - unfold funded. rewrite HB, HQ. eapply funds_seen_mono; [exact Hin|by apply Hfund].
  - intros E. eapply orders_seen_mono; [|by apply Horders]. intros x Hx. left. left. by right.
Qed.

Lemma readBook_ok vc vs K f :
  okX (readBook vc vs) f (fun es o f' => D K es /\ via (fun f => eng f) f f'
    /\ forall a, o = inl a -> book_seen (fun x => x ∈ es) vc (fst a) /\ same_account vs (snd a)).
Proof.
  unfold readBook, elapsedMS. apply okX_act_bind. intros start. apply okX_act_bind. intros r.
  apply okX_act_bind. intros now. destruct r as [book|err].
  - apply okX_act_bind. intros now'. apply ok_done. simpl.
    split_and!; try by apply d_quiet.
    + done.
    + by constructor.
    + intros a [= <-]. split; [|done]. left. simpl. right. left.
  - apply ok_done. simpl. split_and!; try by apply d_quiet.
    + done.
    + unfold via. reflexivity.
    + intros a [= <-]. split; [|done]. right. split; [|done]. exists err. right. left.
Qed.

(** What the balances collected for an instrument say of one of its markets. *)
Definition balances_known K (vc : VenueCtx) (collected : Collected) : Prop :=
  match byVenue collected !! vc_name vc, errorsByVenue collected !! vc_name vc with
  | Some balances, _ =>
      account_read e0 K (accountCacheKey (venue_Type (vc_cfg vc)) (CredentialID (vc_market vc))) (inl balances)
  | None, Some _ => True
  | None, None => CredentialID (vc_market vc) <= 0
  end.

Lemma balances_known_mono K K' vc collected : (forall x, K x -> K' x) ->
  balances_known K vc collected -> balances_known K' vc collected.
Proof.
  intros HK. unfold balances_known. destruct (byVenue collected !! _); [by apply account_read_mono|done].
Qed.

Lemma cycleVenue_runs vc mode ref inventory collected vs K f :
  mode = cfg_Mode (cfg (eng f)) -> (live mode (vc_cfg vc) = true -> obeys Φ e0 (eng f) vc) ->
  ref_seen e0 K (vc_instrument vc) ref -> (live mode (vc_cfg vc) = true -> balances_known K vc collected) ->
  BaseBalance vs = None -> QuoteBalance vs = None -> OpenOrders vs = [] ->
  runs (D K) stableF (cycleVenue vc mode ref inventory collected vs) f.
Proof.
  intros Hm Ho Hr Hbal HB HQ HO. unfold cycleVenue. cbv zeta.
  assert (Hrest : forall vs, (live mode (vc_cfg vc) = true -> funded K vc vs) -> OpenOrders vs = [] -> runs (D K) stableF
    (b ← readBook vc vs;
     let '(book, vs) := b : Book * VenueSnapshot in
     r ← goX (ValidateMarketReference ref book (Strategy (vc_instrument vc)));
     match r : reply unit with
     | inr err => failStage vc "market_reference" "price protection" err vs
     | inl _ => planVenue vc mode ref inventory book vs
     end) f).
  { intros vs0 Hf HO'. eapply (runs_learn Φ stableF); [apply readBook_ok|].
    intros es [book vs1] f1 Hs1 [Hb (EB & EQ & EO)]. simpl in Hb, EB, EQ, EO. apply runs_go_bind; [apply _..| |].
    - intros [] Hv. apply planVenue_runs; [by rewrite (st_cfg _ _ Hs1)| | | |done| |congruence].
      + intros Hl. eapply obeys_stable; [exact Hs1|by apply Ho].
      + eapply ref_seen_mono; [|exact Hr]. by left.
      + eapply book_seen_mono; [|exact Hb]. by right.
      + intros Hl. unfold funded. rewrite EB, EQ. eapply funds_seen_mono; [|by apply Hf]. by left.
    - intros err. apply failStage_runs. intros Hl. apply obeys_mark; [|done].
      eapply obeys_stable; [exact Hs1|]. apply Ho. by rewrite Hm, <- (st_cfg _ _ Hs1). }
  unfold balances_known in Hbal. destruct (errorsByVenue collected !! vc_name vc) as [err|].
  - destruct (live mode (vc_cfg vc)) eqn:El.
    + apply runs_bind; [|go]. apply markFailure_runs, obeys_mark. by apply Ho.
    + apply Hrest; [done|]. by destruct (byVenue collected !! _).
  - assert (Hf : forall vs1, vs1 = match byVenue collected !! vc_name vc with
        | Some balances => withBalances balances (vc_market vc) vs | None => vs end ->
      (live mode (vc_cfg vc) = true -> funded K vc vs1) /\ OpenOrders vs1 = []).
    { intros vs1 ->. destruct (byVenue collected !! _) as [balances|]; (split; [|done]); intros Hl; specialize (Hbal Hl).
      - left. by exists balances.
      - right. unfold funded. rewrite HB, HQ. done. }
    destruct (byVenue collected !! vc_name vc) as [balances|] eqn:E; destruct (live mode (vc_cfg vc)) eqn:El;
      edestruct Hf as [H1' H2']; [reflexivity| |reflexivity| |reflexivity| |reflexivity|]; by apply Hrest.
Qed.

(** Every traded market of the instrument obeys the rule. *)
Definition instrument_obeys (e : Engine O) (i : InstrumentConfig) : Prop :=
  forall vc, trades e i vc -> obeys Φ e0 e vc.

Lemma instrument_obeys_stable e e' i : stable e e' -> instrument_obeys e i -> instrument_obeys e' i.
Proof.
  intros Hs Hi vc Ht. eapply obeys_stable; [exact Hs|]. apply Hi. by apply (trades_stable e e').
Qed.

(** What the collection of the balances of an instrument found of the venues [l]. *)
Record collected_ok (K : event -> Prop) (i : InstrumentConfig) (a : Collected)
    (l : list (string * VenueConfig)) : Prop := {
  co_seen : forall name balances, byVenue a !! name = Some balances -> exists v market,
    Venues (cfg e0) !! name = Some v /\ Markets v !! ID i = Some market
    /\ account_read e0 K (accountCacheKey (venue_Type v) (CredentialID market)) (inl balances);
  co_all : forall name v market, (name, v) ∈ l -> venue_Enabled v = true ->
    live (cfg_Mode (cfg e0)) v = true -> Markets v !! ID i = Some market -> 0 < CredentialID market ->
    is_Some (byVenue a !! name) \/ is_Some (errorsByVenue a !! name)
}.

Lemma collected_ok_mono K K' i a l : (forall x, K x -> K' x) -> collected_ok K i a l -> collected_ok K' i a l.
Proof.
  intros HK [Hseen Hall]. constructor; [|done]. intros name balances E.
  destruct (Hseen name balances E) as (v & market & Hv & Hm & Hr). exists v, market.
  split_and!; [done|done|by eapply account_read_mono].
Qed.

Lemma collected_known K i a vc : trades e0 i vc ->
  collected_ok K i a (range (Venues (cfg e0))) -> balances_known K vc a.
Proof.
  intros (_ & Hv & He & Hl & Hm & _) [Hseen Hall]. unfold balances_known.
  destruct (byVenue a !! vc_name vc) as [balances|] eqn:Eb.
  - destruct (Hseen _ _ Eb) as (v & market & Hv' & Hm' & Hr). rewrite Hv in Hv'. injection Hv' as <-.
    rewrite Hm in Hm'. by injection Hm' as <-.
  - destruct (errorsByVenue a !! vc_name vc) as [err|] eqn:Ee; [done|]. apply Z.nlt_ge. intros Hc.
    apply elem_of_range in Hv. by destruct (Hall _ _ _ Hv He Hl Hm Hc) as [[? ?]|[? ?]]; congruence.
Qed.

Lemma runVenue_runs i ref inventory collected nv K f :
  nv ∈ range (Venues (cfg (eng f))) -> instrument_obeys (eng f) i -> stable e0 (eng f) ->
  ref_seen e0 K i ref -> collected_ok K i collected (range (Venues (cfg e0))) ->
  runs (D K) stableF (runVenue i ref inventory collected nv) f.
Proof.
  destruct nv as [name v]. intros Hin%elem_of_range Hi H0s Hr Hcol. unfold runVenue.
  destruct (venue_Enabled v) eqn:Ee; cbn [negb]; [|go].
  destruct (Markets v !! ID i) as [market|] eqn:Em; [|go].
  apply runs_bind; [go|]. intros _ f1 Hs1. apply runs_bind; [go|]. intros now f2 Hs2. cbv zeta.
  apply runs_get_bind. assert (Hs : stable (eng f) (eng f2)) by by transitivity (eng f1).
  destruct (clientOf (eng f2) name (ID i)) as [client|] eqn:Ec; [|go].
  assert (Ht : forall e, stable e (eng f2) -> live (cfg_Mode (cfg (eng f2))) v = true ->
    Venues (cfg e) !! name = Some v -> trades e i (MkVenueCtx name v market client i)).
  { intros e He Hl Hv. apply (trades_stable e (eng f2)); [done|]. unfold trades. simpl.
    rewrite (st_cfg _ _ He). split_and!; try done. by rewrite <- (st_cfg _ _ He). }
  apply runs_bind; [|go]. apply cycleVenue_runs; try done.
  - intros Hl. apply (instrument_obeys_stable _ _ _ Hs Hi). apply Ht; [reflexivity|done|].
    by rewrite (st_cfg _ _ Hs).
  - intros Hl. eapply collected_known; [|exact Hcol]. apply Ht; [by transitivity (eng f)|done|].
    by rewrite <- (st_cfg _ _ H0s).
Qed.

Lemma rejectVenue_runs i err stale nv K f :
  nv ∈ range (Venues (cfg (eng f))) -> instrument_obeys (eng f) i ->
  runs (D K) stableF (rejectVenue i err stale nv) f.
Proof.
  destruct nv as [name v]. intros Hin%elem_of_range Hi. unfold rejectVenue.
  destruct (Markets v !! ID i) as [market|] eqn:Em; [|go].
  destruct (venue_Enabled v) eqn:Ee; cbn [negb orb]; [|go].
  destruct (TradingEnabled v) eqn:Et; cbn [negb]; [|go].
  apply runs_get_bind. destruct (clientOf (eng f) name (ID i)) as [client|] eqn:Ec; [|go].
  apply runs_bind; [|go]. apply markFailure_runs. intros Hl. apply obeys_mark; [|done].
  apply Hi. by unfold trades.
Qed.

Lemma rejectReference_runs i err K f : instrument_obeys (eng f) i ->
  runs (D K) stableF (rejectReference i err) f.
Proof.
  intros Hi. unfold rejectReference. apply runs_bind; [go|]. intros _ f1 Hs1. apply runs_get_bind.
  destruct (negb _); [go|]. apply runs_bind; [go|]. intros last f2 Hs2.
  apply runs_bind; [go|]. intros stale f3 Hs3. apply runs_forX. intros nv f4 Hin Hs4.
  assert (Hs14 : stable (eng f1) (eng f4)).
  { transitivity (eng f2); [done|]. by transitivity (eng f3). }
  assert (Hs : stable (eng f) (eng f4)) by by transitivity (eng f1).
  apply rejectVenue_runs; [|by eapply instrument_obeys_stable]. by rewrite (st_cfg _ _ Hs14).
Qed.

Lemma keeps_at {T A} (view : Frame O -> T) (c : X (Frame O) A) f :
  keeps view c -> partX c f (fun _ _ f' => view f' = view f).
Proof. intros Hk. apply Hk. Qed.

(** One quiet step; the stability of the states passed so far is kept in one fact. *)
Ltac advance :=
  apply runs_bind; [go|];
  let a := fresh "a" in let f' := fresh "f" in let Hs := fresh "Hs" in intros a f' Hs;
  repeat match goal with
  | H1 : via ?g ?x ?y, H2 : via ?g ?y ?z |- _ =>
      let H' := fresh "Hs" in
      assert (H' : via g x z) by (transitivity y; [exact H1|exact H2]); clear H1 H2
  end.

(** ** The account replies of a cycle *)

Definition after K (es : trace) : event -> Prop := fun x => K x \/ x ∈ es.

Lemma knows_after_app K es es' x : after (after K es) es' x -> after K (es ++ es') x.
Proof. unfold after. rewrite elem_of_app. tauto. Qed.

(** Each entry of the cache is what an account answered in the events known. *)
Definition cache_ok (K : event -> Prop) (c : Cycle O) : Prop := forall cache key r,
  cy_balances c = Some cache -> cache !! key = Some r -> account_read e0 K key r.

Lemma cache_ok_mono K K' c : (forall x, K x -> K' x) -> cache_ok K c -> cache_ok K' c.
Proof. intros HK Hc cache key r Eb Ek. eapply account_read_mono; [exact HK|by eapply Hc]. Qed.

Lemma cache_ok_same K c c' : cy_balances c' = cy_balances c -> cache_ok K c -> cache_ok K c'.
Proof. unfold cache_ok. by intros ->. Qed.

Lemma fetchBalances_ok key client K (s : Cycle O) : account_client e0 key client -> cache_ok K s ->
  okX (fetchBalances key client) s (fun es o s' => D K es /\ cy_engine s' = cy_engine s
    /\ cache_ok (after K es) s' /\ forall r, o = inl r -> account_read e0 (after K es) key r).
Proof.
  intros Ha Hc. destruct s as [e bal]. unfold fetchBalances. apply okX_get_bind. cbn [cy_balances].
  assert (Hnew : forall r, account_read e0 (after K [MkEvent (Call (Name client) CBalances) r]) key r).
  { intros r. exists client. split; [done|]. right. left. }
  assert (Hold : forall r, cache_ok (after K [MkEvent (Call (Name client) CBalances) r]) (MkCycle e bal)).
  { intros r. eapply cache_ok_mono; [|exact Hc]. by left. }
  destruct bal as [cache|].
  2:{ apply okX_act. intros r. split; [split; [by apply d_quiet|done]|]. split_and!; [done|done|]. by intros r' [= <-]. }
  destruct (cache !! key) as [entry|] eqn:E.
  - apply okX_ret. split_and!; [done|done|eapply cache_ok_mono; [|exact Hc]; by left|]. intros r [= <-].
    eapply account_read_mono; [|by eapply Hc]. by left.
  - apply okX_act_bind. intros r. apply ok_done. split; [split; [by apply d_quiet|done]|]. split_and!; [done| |].
    + intros cache' key' r' [= <-]. simpl. intros [[<- <-]|[_ Hl]]%lookup_insert_Some; [apply Hnew|by eapply Hold].
    + intros r' [= <-]. apply Hnew.
Qed.

Definition found (a : Collected) (name : string) : Prop :=
  is_Some (byVenue a !! name) \/ is_Some (errorsByVenue a !! name).

(** One venue more. *)
Lemma collected_ok_add K K' i acc a l name v : (forall x, K x -> K' x) -> collected_ok K i acc l ->
  Venues (cfg e0) !! name = Some v -> (forall n, found acc n -> found a n) ->
  (forall n b, byVenue a !! n = Some b -> byVenue acc !! n = Some b \/ n = name /\ exists market,
     Markets v !! ID i = Some market
     /\ account_read e0 K' (accountCacheKey (venue_Type v) (CredentialID market)) (inl b)) ->
  (forall market, venue_Enabled v = true -> live (cfg_Mode (cfg e0)) v = true ->
     Markets v !! ID i = Some market -> 0 < CredentialID market -> found a name) ->
  collected_ok K' i a (l ++ [(name, v)]).
Proof.
  intros HK Hacc Hv Hgrow Hnew Hthis. destruct (collected_ok_mono _ _ _ _ _ HK Hacc) as [Hs Ha]. constructor.
  - intros n b E. destruct (Hnew n b E) as [E'|(-> & market & Hm & Hr)]; [by apply Hs|]. by exists v, market.
  - intros n v' market [Hl|[= -> ->]%list_elem_of_singleton]%elem_of_app; [|by apply Hthis].
    intros He Hlv Hm Hcr. by apply Hgrow, (Ha n v' market).
Qed.

Lemma collected_ok_error K K' i acc l name v err : (forall x, K x -> K' x) -> collected_ok K i acc l ->
  Venues (cfg e0) !! name = Some v ->
  collected_ok K' i (MkCollected (byVenue acc) (total acc) (count acc) (<[name := err]> (errorsByVenue acc)))
    (l ++ [(name, v)]).
Proof.
  intros HK Hacc Hv. eapply collected_ok_add; [exact HK|exact Hacc|exact Hv| |by left|].
  - intros n [?|?]; [by left|]. right. cbn [errorsByVenue]. rewrite lookup_insert_is_Some.
    destruct (decide (name = n)); auto.
  - intros market _ _ _ _. right. cbn [errorsByVenue]. rewrite lookup_insert_eq. eauto.
Qed.

Lemma collected_ok_balances K K' i acc l name v market balances : (forall x, K x -> K' x) -> collected_ok K i acc l ->
  Venues (cfg e0) !! name = Some v -> Markets v !! ID i = Some market ->
  account_read e0 K' (accountCacheKey (venue_Type v) (CredentialID market)) (inl balances) ->
  collected_ok K' i (MkCollected (<[name := balances]> (byVenue acc))
    (assetTotal balances (market_BaseAsset market) (total acc)) (count acc + 1) (errorsByVenue acc)) (l ++ [(name, v)]).
Proof.
  intros HK Hacc Hv Hm Hr. eapply collected_ok_add; [exact HK|exact Hacc|exact Hv| | |].
  - intros n [?|?]; [|by right]. left. cbn [byVenue]. rewrite lookup_insert_is_Some. destruct (decide (name = n)); auto.
  - cbn [byVenue]. intros n b [[<- <-]|[_ ?]]%lookup_insert_Some; [right; eauto|by left].
  - intros market' _ _ _ _. left. cbn [byVenue]. rewrite lookup_insert_eq. eauto.
Qed.

Lemma collectVenue_ok i acc l nv K (s : Cycle O) : cfg (cy_engine s) = cfg e0 -> venues (cy_engine s) = venues e0 ->
  nv ∈ range (Venues (cfg e0)) -> cache_ok K s -> collected_ok K i acc l ->
  okX (collectVenue i acc nv) s (fun es o s' => D K es /\ cy_engine s' = cy_engine s
    /\ cache_ok (after K es) s' /\ forall a, o = inl a -> collected_ok (after K es) i a (l ++ [nv])).
Proof.
  destruct nv as [name v]. intros Hcfg Hven Hv%elem_of_range Hc Hacc. unfold collectVenue. apply okX_get_bind. cbv zeta.
  rewrite Hcfg. assert (Hleft : forall x, K x -> after K [] x) by by left.
  assert (Hstay : forall a, collected_ok (after K []) i a (l ++ [(name, v)]) ->
    okX (mret a) s (fun es o s' => D K es /\ cy_engine s' = cy_engine s
      /\ cache_ok (after K es) s' /\ forall a, o = inl a -> collected_ok (after K es) i a (l ++ [(name, v)]))).
  { intros a Ha. apply okX_ret. split_and!; [done|done|by eapply cache_ok_mono|]. by intros a' [= <-]. }
  assert (Hskip : (forall market, venue_Enabled v = true -> live (cfg_Mode (cfg e0)) v = true ->
       Markets v !! ID i = Some market -> 0 < CredentialID market -> False) ->
    collected_ok (after K []) i acc (l ++ [(name, v)])).
  { intros Hno. eapply collected_ok_add; [exact Hleft|exact Hacc|exact Hv|done|by left|].
    intros market He Hl Hm Hcr. by destruct (Hno market). }
  unfold live in Hskip. destruct (negb (venue_Enabled v) || _) eqn:Eg.
  { apply Hstay, Hskip. intros market He [Hm Ht]%andb_true_iff _ _. by rewrite He, Hm, Ht in Eg. }
  destruct (Markets v !! ID i) as [market|] eqn:Em; [|by apply Hstay, Hskip].
  destruct (Z.leb_spec (CredentialID market) 0) as [Hcr|Hcr]; [apply Hstay, Hskip; intros ? _ _ [= <-]; lia|].
  destruct (clientOf (cy_engine s) name (ID i)) as [client|] eqn:Ecl; [|by eapply Hstay, collected_ok_error].
  assert (Hac : account_client e0 (accountCacheKey (venue_Type v) (CredentialID market)) client).
  { exists name, v, (ID i), market. split_and!; try done. unfold clientOf. by rewrite <- Hven. }
  eapply okX_bind; [by apply fetchBalances_ok| |by intros es m s' (? & ? & ? & _)].
  intros es r s' (Hd & He & Hc' & Hr). specialize (Hr r eq_refl).
  assert (Hleft' : forall x, K x -> after K es x) by by left.
  destruct r as [balances|err]; apply ok_done; rewrite app_nil_r; (split_and!; [done..|]); intros a [= <-].
  - by eapply collected_ok_balances.
  - by eapply collected_ok_error.
Qed.

Lemma collectAll_ok i l seen K (s : Cycle O) acc : cfg (cy_engine s) = cfg e0 -> venues (cy_engine s) = venues e0 ->
  (forall nv, nv ∈ l -> nv ∈ range (Venues (cfg e0))) -> cache_ok K s -> collected_ok K i acc seen ->
  okX (foldX (collectVenue i) l acc) s (fun es o s' => D K es /\ cy_engine s' = cy_engine s
    /\ cache_ok (after K es) s' /\ forall a, o = inl a -> collected_ok (after K es) i a (seen ++ l)).
Proof.
  revert seen K s acc. induction l as [|nv l IH]; intros seen K s acc Hcfg Hven Hl Hc Hacc; cbn [foldX].
  - apply okX_ret. assert (forall x, K x -> after K [] x) by by left.
    split_and!; [exact I|reflexivity|by eapply cache_ok_mono|]. intros a [= <-]. rewrite app_nil_r. by eapply collected_ok_mono.
  - eapply okX_bind; [apply (collectVenue_ok i acc seen); [done|done|apply Hl; left|done|done]| |].
    2:{ intros es m s' (? & ? & ? & _). by split_and!. }
    intros es a s' (Hd & He & Hc' & Ha). eapply okX_mono.
    { apply (IH (seen ++ [nv]) (after K es)); [by rewrite He|by rewrite He|intros; apply Hl; by right|done|by apply Ha]. }
    intros es' o s'' (Hd' & He' & Hc'' & Ha'). pose proof (knows_after_app K es es') as Happ.
    split; [by apply disciplined_app_learn|]. split_and!; [congruence|by eapply cache_ok_mono|].
    intros a' Ea. eapply collected_ok_mono; [exact Happ|]. specialize (Ha' a' Ea). by rewrite <- app_assoc in Ha'.
Qed.

Lemma collectBalances_ok i K (s : Cycle O) : cfg (cy_engine s) = cfg e0 -> venues (cy_engine s) = venues e0 -> cache_ok K s ->
  okX (collectBalances i) s (fun es o s' => D K es /\ cy_engine s' = cy_engine s
    /\ cache_ok (after K es) s' /\ forall a, o = inl a -> collected_ok (after K es) i a (range (Venues (cfg e0)))).
Proof.
  intros Hcfg Hven Hc. unfold collectBalances. apply okX_get_bind. rewrite Hcfg.
  apply (collectAll_ok i _ []); [done..|]. constructor; [done|]. by intros name v market ?%elem_of_nil.
Qed.

(** ** Operations that may read balances *)

(** Disciplined, and the account replies remain what the accounts answered. *)
Definition reads {S A} (get : S -> Cycle O) K (c : X S A) (s : S) : Prop :=
  okX c s (fun es _ s' => D K es /\ via (fun s => cy_engine (get s)) s s' /\ cache_ok (after K es) (get s')).

Section Reads.
Context {S : Type} (get : S -> Cycle O).
Abbreviation V := (via (fun s => cy_engine (get s))).
Abbreviation same c s := (partX c s (fun _ _ s' => cy_balances (get s') = cy_balances (get s))).

Lemma reads_runs {A} K (c : X S A) s : runs (D K) V c s -> same c s -> cache_ok K (get s) -> reads get K c s.
Proof.
  intros Hr Hp Hc. eapply okX_mono; [exact (okX_partX _ _ _ _ Hr Hp)|]. intros es o s' [[Hd Hs] Hb].
  split_and!; [done|done|]. eapply cache_ok_same; [exact Hb|]. eapply cache_ok_mono; [|exact Hc]. by left.
Qed.

Lemma reads_learn {A B} (Post : trace -> A -> S -> Prop) K (c : X S A) (g : A -> X S B) s :
  okX c s (fun es o s' => D K es /\ V s s' /\ cache_ok (after K es) (get s') /\ forall a, o = inl a -> Post es a s') ->
  (forall es a s', V s s' -> cache_ok (after K es) (get s') -> Post es a s' -> reads get (after K es) (g a) s') ->
  reads get K (c ≫= g) s.
Proof.
  intros Hc Hg. eapply okX_bind; [exact Hc| |].
  - intros es a s' (Hd & Hs & Hk & Hp). eapply okX_mono; [by apply Hg, Hp|].
    intros es' o s'' (Hd' & Hs' & Hk'). split_and!; [by apply disciplined_app_learn|by transitivity s'|].
    eapply cache_ok_mono; [|exact Hk']. intros x. apply knows_after_app.
  - intros es m s' (Hd & Hs & Hk & _). by split_and!.
Qed.

(** A step that reads no balances. *)
Lemma reads_bind {A B} K (c : X S A) (g : A -> X S B) s : runs (D K) V c s -> same c s -> cache_ok K (get s) ->
  (forall a s', V s s' -> cache_ok K (get s') -> reads get K (g a) s') -> reads get K (c ≫= g) s.
Proof.
  intros Hr Hp Hc Hg. eapply okX_bind; [exact (okX_partX _ _ _ _ Hr Hp)| |].
  - intros es a s' [[Hd Hs] Hb]. eapply okX_mono; [apply Hg; [done|by eapply cache_ok_same]|].
    intros es' o s'' (Hd' & Hs' & Hk'). split_and!; [by apply (disciplined_app Φ)|by transitivity s'|].
    eapply cache_ok_mono; [|exact Hk']. intros x [Hx|Hx]; [by left|right; apply elem_of_app; by right].
  - intros es m s' [[Hd Hs] Hb]. split_and!; [done|done|]. eapply cache_ok_same; [exact Hb|].
    eapply cache_ok_mono; [|exact Hc]. by left.
Qed.

Lemma reads_defer {A} K (c : X S A) (f : option A -> X S (option A)) s : reads get K c s ->
  (forall o K' s', V s s' -> cache_ok K' (get s') -> reads get K' (f o) s') -> reads get K (deferX c f) s.
Proof.
  intros Hc Hf. eapply ok_bind; [exact Hc|]. intros es [o s'] (Hd & Hs & Hk). simpl in *.
  eapply ok_bind; [by apply (Hf _ (after K es))|]. intros es' [o' s''] (Hd' & Hs' & Hk'). apply ok_done. rewrite app_nil_r.
  split_and!; [by apply disciplined_app_learn|by transitivity s'|].
  eapply cache_ok_mono; [|exact Hk']. intros x. apply knows_after_app.
Qed.

Lemma reads_recover {A} K (c : X S A) (g : string -> A) s : reads get K c s ->
  reads get K (recoverX c (fun m => mret (g m))) s.
Proof.
  intros Hc. eapply ok_bind; [exact Hc|]. intros es [[a|m] s'] H'; apply ok_done; by rewrite app_nil_r.
Qed.

Lemma reads_ret {A} K (a : A) s : cache_ok K (get s) -> reads get K (mret a) s.
Proof. intros Hc. apply reads_runs; [apply runs_ret|by apply partX_ret|done]. Qed.

Lemma reads_foldX {A B} K (f : B -> A -> X S B) l b s : cache_ok K (get s) ->
  (forall x b K' s', x ∈ l -> V s s' -> cache_ok K' (get s') -> reads get K' (f b x) s') -> reads get K (foldX f l b) s.
Proof.
  revert K b s. induction l as [|x l IH]; intros K b s Hc Hf; cbn [foldX]; [by apply reads_ret|].
  apply (reads_learn (fun _ _ _ => True)).
  - eapply okX_mono; [apply Hf; [left|reflexivity|done]|]. intros es o s' (Hd & Hs & Hk). by split_and!.
  - intros es b' s' Hs Hk _. apply IH; [done|]. intros y b'' K' s'' Hy Hs'. apply Hf; [by right|by transitivity s'].
Qed.
End Reads.

Abbreviation readsF := (reads fr_cycle).
Abbreviation readsC := (reads (fun c : Cycle O => c)).

(** One step of a frame that reads no balances. *)
Ltac advanceR :=
  apply reads_bind; [go|apply (keeps_at balances_of); keep|assumption|];
  let a := fresh "a" in let f' := fresh "f" in let Hs := fresh "Hs" in let Hk := fresh "Hk" in intros a f' Hs Hk;
  repeat match goal with
  | H1 : via ?g ?x ?y, H2 : via ?g ?y ?z |- _ =>
      let H' := fresh "Hs" in
      assert (H' : via g x z) by (transitivity y; [exact H1|exact H2]); clear H1 H2
  end.

(** The collection of the balances, on a frame. *)
Lemma collectBalancesF_ok i K f : stable e0 (eng f) -> cache_ok K (fr_cycle f) ->
  okX (onFrame (collectBalances i)) f (fun es o f' => D K es /\ via (fun f => eng f) f f'
    /\ cache_ok (after K es) (fr_cycle f')
    /\ forall a, o = inl a -> collected_ok (after K es) i a (range (Venues (cfg e0)))).
Proof.
  intros Hs Hc. apply okX_zoom. eapply okX_mono.
  { apply collectBalances_ok; [by rewrite (st_cfg _ _ Hs)|by rewrite (st_venues _ _ Hs)|done]. }
  intros es o s' (Hd & He & Hk & Ha). split_and!; try done. unfold via. cbn [fr_cycle]. by rewrite He.
Qed.

(** The price for an instrument, on a frame. *)
Lemma oraclePriceF_ok i K f : stable e0 (eng f) -> cache_ok K (fr_cycle f) ->
  okX (engineF (oraclePrice i)) f (fun es o f' => D K es /\ via (fun f => eng f) f f'
    /\ cache_ok (after K es) (fr_cycle f')
    /\ forall r, o = inl r -> forall ref, r = inl ref -> ref_seen e0 (fun x => x ∈ es) i ref).
Proof.
  intros Hs Hc. apply okX_zoom, okX_zoom. eapply okX_mono; [apply (oraclePrice_ok (P := D K))|].
  intros es o e' (Hd & He & Hr). split_and!; [done|exact He| |].
  - eapply cache_ok_mono; [|exact Hc]. by left.
  - intros r Er ref ->. destruct (Hr _ Er) as (x & x' & Ex & Hy). exists x, x', es. split_and!; [|done|done].
    rewrite <- Ex. apply (st_oracle _ _ Hs).
Qed.

(** ** An instrument *)

Lemma instrumentBody_reads i K f : instrument_obeys (eng f) i -> stable e0 (eng f) -> cache_ok K (fr_cycle f) ->
  readsF K (instrumentBody i) f.
Proof.
  intros Hi H0s Hc. unfold instrumentBody. advanceR.
  assert (H0f : stable e0 (eng f0)) by by transitivity (eng f).
  eapply (reads_learn fr_cycle); [by apply oraclePriceF_ok|]. intros es r fx Hsx Hkx Href. cbn beta in Href.
  assert (Hsf : via (fun f => eng f) f fx) by by transitivity f0.
  do 2 advanceR. destruct r as [ref|err].
  2:{ apply reads_runs; [|apply (keeps_at balances_of); keep|done]. apply runs_bind; [|go].
      apply rejectReference_runs. by eapply instrument_obeys_stable. }
  specialize (Href ref eq_refl). do 3 advanceR.
  match goal with Hsx : via _ f ?g |- _ => assert (H0g : stable e0 (eng g)) by by transitivity (eng f) end.
  eapply (reads_learn fr_cycle); [by apply collectBalancesF_ok|]. intros es2 collected fy Hsy Hky Hcol.
  match goal with Hsx : via _ f _ |- _ => pose proof (transitivity Hsx Hsy) as Hsg; clear Hsx Hsy end.
  apply reads_runs; [|apply (keeps_at balances_of); keep|done]. do 3 advance. apply runs_get_bind.
  match goal with Hs : via _ f _ |- _ => rewrite (st_cfg _ _ Hs) end.
  do 2 advance. apply runs_bind; [|go]. apply runs_forX. intros nv f' Hin Hs'.
  match goal with Hs : via _ f _ |- _ =>
    assert (Hsf' : stable (eng f) (eng f')) by (etransitivity; [exact Hs|exact Hs']) end.
  apply runVenue_runs; [by rewrite (st_cfg _ _ Hsf')|by eapply instrument_obeys_stable|by transitivity (eng f)| |done].
  eapply ref_seen_mono; [|exact Href]. intros x Hx. left. by right.
Qed.

Lemma pausedBody_reads i K f : stable e0 (eng f) -> cache_ok K (fr_cycle f) -> readsF K (pausedBody i) f.
Proof.
  intros H0s Hc. unfold pausedBody. advanceR. apply okX_get_bind. cbv zeta.
  match goal with |- okX ?c ?f _ => change (readsF K c f) end. do 3 advanceR.
  match goal with Hsx : via _ f ?g |- _ => assert (H0g : stable e0 (eng g)) by by transitivity (eng f) end.
  eapply (reads_learn fr_cycle); [by apply collectBalancesF_ok|]. intros es2 collected fy Hsy Hky Hcol.
  apply reads_runs; [go|apply (keeps_at balances_of); keep|done].
  apply keeps_snapshot; [apply _|]. intros s. by destruct (fr_failures _).
Qed.

Lemma inFrame_reads {A} i (c : X (Frame O) A) K s :
  (forall f, fr_cycle f = s -> readsF K c f) -> readsC K (inFrame i c) s.
Proof.
  intros Hc. eapply ok_bind; [apply Hc; reflexivity|]. intros es x (HP & HR & Hk). apply ok_done.
  rewrite app_nil_r. by split_and!.
Qed.

Lemma runPausedInstrument_reads i K (s : Cycle O) : stable e0 (cy_engine s) -> cache_ok K s ->
  readsC K (runPausedInstrument i) s.
Proof.
  intros H0s Hc. unfold runPausedInstrument. apply okX_get_bind. destruct (runtime (cy_engine s)).
  - apply inFrame_reads. intros f <-. by apply pausedBody_reads.
  - by apply reads_ret.
Qed.

Lemma runInstrument_reads i K (s : Cycle O) : instrument_obeys (cy_engine s) i -> stable e0 (cy_engine s) ->
  cache_ok K s -> readsC K (runInstrument i) s.
Proof.
  intros Hi H0s Hc. unfold runInstrument. apply inFrame_reads. intros f <-. advanceR.
  apply reads_defer.
  - apply instrumentBody_reads; [by eapply instrument_obeys_stable|by transitivity (eng f)|done].
  - intros o K' f' _ Hk'. apply reads_runs; [go|apply (keeps_at balances_of); keep|done].
Qed.

(** A step on the engine alone. *)
Lemma onEngine_reads {A} (c : X (Engine O) A) K (s : Cycle O) : runs (D K) stable c (cy_engine s) -> cache_ok K s ->
  readsC K (onEngine c) s.
Proof.
  intros Hr Hc. apply okX_zoom. eapply okX_mono; [exact Hr|]. intros es o e [Hd Hs].
  split_and!; [done|exact Hs|]. eapply cache_ok_mono; [|exact Hc]. by left.
Qed.

(** A closed or blocked instrument writes nothing, whatever its markets obey. *)
Lemma runInstrumentGuarded_reads i K (s : Cycle O) :
  (paused (cy_engine s) !! ID i = None -> preflightBlocked (cy_engine s) !! ID i = None ->
     instrument_obeys (cy_engine s) i) -> stable e0 (cy_engine s) -> cache_ok K s ->
  readsC K (runInstrumentGuarded i) s.
Proof.
  intros Hi H0s Hc. unfold runInstrumentGuarded. apply reads_recover.
  destruct s as [e bal]. simpl in Hi, H0s.
  change (readsC K (if bool_decide (is_Some (paused e !! ID i))
    then runPausedInstrument i
    else b ← onEngine (preflightFailure (ID i)); match b : option string with
      | Some failure => onEngine (publishPreflightBlocked i failure)
      | None => runInstrument i
      end) (MkCycle e bal)).
  case_bool_decide as Hp; [by apply runPausedInstrument_reads|]. rewrite <- eq_None_not_Some in Hp.
  change (readsC K (match preflightBlocked e !! ID i with
      | Some failure => onEngine (publishPreflightBlocked i failure)
      | None => runInstrument i end) (MkCycle e bal)).
  destruct (preflightBlocked e !! ID i) as [failure|] eqn:Eb; [apply onEngine_reads; [go|done]|].
  apply runInstrument_reads; [by apply Hi|done|done].
Qed.

(** ** The whole cycle *)

(** The instruments that are neither closed nor blocked obey the rule. *)
Definition engine_obeys (e : Engine O) : Prop :=
  forall i, i ∈ Instruments (cfg e) -> paused e !! ID i = None -> preflightBlocked e !! ID i = None ->
    instrument_obeys e i.

Lemma engine_obeys_stable e e' : stable e e' -> engine_obeys e -> engine_obeys e'.
Proof.
  intros Hs He i Hi Hp Hb. eapply instrument_obeys_stable; [exact Hs|].
  rewrite (st_cfg _ _ Hs) in Hi. rewrite (st_paused _ _ Hs) in Hp. rewrite (st_blocked _ _ Hs) in Hb.
  by apply He.
Qed.

Lemma reportProgress_balances (s : Cycle O) :
  partX reportProgress s (fun _ _ s' => cy_balances s' = cy_balances s).
Proof. apply partX_get_bind. destruct (has _ _); [|by apply partX_ret]. by intros r _. Qed.

Lemma runJobs_reads `{Schedule} K (s : Cycle O) : engine_obeys (cy_engine s) -> stable e0 (cy_engine s) ->
  cache_ok K s -> readsC K (runJobs (Instruments (cfg (cy_engine s)))) s.
Proof.
  intros He H0s Hc. unfold runJobs. apply reads_foldX; [done|]. intros index errs K' s' _ Hs' Hk'. unfold runJob.
  destruct (Instruments (cfg (cy_engine s)) !! index) as [i|] eqn:Ei; [|by apply reads_ret].
  apply (reads_learn _ (fun _ _ _ => True)).
  - eapply okX_mono; [apply runInstrumentGuarded_reads; [|by transitivity (cy_engine s)|exact Hk']|].
    + apply (engine_obeys_stable _ _ Hs' He). rewrite (st_cfg _ _ Hs'). by eapply list_elem_of_lookup_2.
    + intros es o s'' (Hd & Hs & Hk). by split_and!.
  - intros es err s'' Hs'' Hk'' _. apply reads_runs; [unfold reportProgress; go| |done].
    eapply partX_bind; [apply reportProgress_balances|intros es' a s3 E; by apply partX_ret|done].
Qed.

Lemma cache_ok_new K e : cache_ok K (MkCycle e newBalanceCache).
Proof. intros cache key r [= <-] E. by rewrite lookup_empty in E. Qed.

Lemma inCycle_runs {A} (c : X (Cycle O) A) K e :
  runs (D K) stableC c (MkCycle e newBalanceCache) -> runs (D K) stable (inCycle c) e.
Proof.
  intros Hc. eapply ok_bind; [exact Hc|]. intros es x [HP HR]. apply ok_done.
  rewrite app_nil_r. by split.
Qed.

Lemma reportCycle_runs `{!QuietProp P} started instruments failures limit (e : Engine O) :
  runs P stable (reportCycle started instruments failures limit) e.
Proof. unfold reportCycle. go. Qed.
Lemma logCycle_runs `{!QuietProp P} failures (e : Engine O) : runs P stable (logCycle failures) e.
Proof. unfold logCycle. go. Qed.
Lemma flushAudit_runs `{!QuietProp P} (e : Engine O) : runs P stable flushAudit e.
Proof. unfold flushAudit. go. Qed.

Lemma RunOnce_runs `{Schedule} K e : engine_obeys e -> stable e0 e -> runs (D K) stable RunOnce e.
Proof.
  intros He H0s. unfold RunOnce. apply runs_bind; [go|]. intros started e1 Hs1. apply runs_get_bind.
  cbv zeta. apply runs_bind.
  { apply inCycle_runs. eapply okX_mono.
    - apply (runJobs_reads K (MkCycle e1 newBalanceCache)); [by eapply engine_obeys_stable|by transitivity e|apply cache_ok_new].
    - intros es o s (Hd & Hs & _). by split. }
  intros errs e2 Hs2. apply runs_bind; [apply flushAudit_runs|]. intros flush e3 Hs3.
  apply runs_bind; [go|]. intros _ e4 Hs4. apply runs_bind; [go|]. intros _ e5 Hs5.
  apply runs_bind; [apply reportCycle_runs|]. intros _ e6 Hs6. apply runs_bind; [go|].
  intros _ e7 Hs7. apply runs_bind; [apply logCycle_runs|]. go.
Qed.
End Cycle.
