(* ===== verification/EngineSafety.v ===== *)
(** Safety of the trading cycle: which exchange writes [RunOnce] may make, and what it takes
    for that from its price source. *)
From S2P Require Import Prelude Decimal Domain Json FaultData TradesimData Runtimeops World Config Strategy Risk Tradesim Fault Venue Process Oms OmsFacts OmsSafety OmsCancel Rpc Oracle Discipline AuditEvents Engine EngineCycle EngineControl EngineFacts EngineWrites.

Open Scope string_scope.
Open Scope list_scope.
Open Scope Z_scope.

(** ** The PancakeSwap oracle as the price source

    It implements [engine.PriceSource], and reading a price writes to no exchange. *)

#[export] Instance oracle_source `{HttpRequests} : PriceSource Oracle := fun i o => Price i o.

(** A computation of the client or the oracle that writes to no exchange. *)
Definition quietM {S A} (c : M S A) : Prop := forall s, emits quiet (c s).

Section Quiet.
Context `{HttpRequests}.

Lemma quietM_bind {S A B} (c : M S A) (f : A -> M S B) :
  quietM c -> (forall a, quietM (f a)) -> quietM (c ≫= f).
Proof.
  intros Hc Hf s. apply emits_bind; [apply Hc|]. intros [[a|e] s']; [apply Hf|apply emits_done].
Qed.

Lemma quietM_act {S} a : (forall r, is_write (MkEvent a r) = false) -> quietM (actM (S := S) a).
Proof.
  intros Ha s. apply emits_bind; [|intros; apply emits_done]. apply emits_act. intros r.
  by apply Forall_singleton.
Qed.

Lemma quietM_wrap {S A} p (c : M S A) : quietM c -> quietM (wrapM p c).
Proof. intros Hc s. apply emits_bind; [apply Hc|]. intros. apply emits_done. Qed.

Lemma quietM_onRPC {A} (c : M RPCClient A) : quietM c -> quietM (onRPC c).
Proof. intros Hc s. apply emits_bind; [apply Hc|]. intros. apply emits_done. Qed.

Lemma quietM_liftGo {S A} (c : go A) : quietM (S := S) (liftGo c).
Proof. intros s. unfold liftGo. destruct c; apply tp_nil. Qed.

Ltac quiet_step :=
  match goal with
  | |- forall _, _ => intros ?
  | |- quietM (_ ≫= _) => apply quietM_bind
  | |- quietM (actM _) => apply quietM_act; intros ?; reflexivity
  | |- quietM (wrapM _ _) => apply quietM_wrap
  | |- quietM (onRPC _) => apply quietM_onRPC
  | |- quietM (liftGo _) => apply quietM_liftGo
  | |- quietM (let '(_, _) := ?x in _) => destruct x
  | |- quietM (match ?x with _ => _ end) => destruct x
  | |- quietM (mret _) => intros ?; apply emits_done
  | |- quietM (failM _) => intros ?; apply emits_done
  | |- quietM (liftM _) => intros ?; apply emits_done
  | |- quietM getM => intros ?; apply emits_done
  | |- quietM (putM _) => intros ?; apply emits_done
  | |- quietM _ => solve [eauto with emits]
  end.
Ltac quietly := repeat (quiet_step; cbv beta zeta).

Lemma freshID_quiet : quietM freshID.
Proof. intros s. apply emits_done. Qed.
Hint Resolve freshID_quiet : emits.

Lemma freshIDs_quiet n : quietM (freshIDs n).
Proof. induction n; cbn [freshIDs]; quietly. Qed.
Hint Resolve freshIDs_quiet : emits.

Lemma requestLoop_quiet {A} (dec : Json -> option A) method params endpoints lastErr :
  quietM (requestLoop dec method params endpoints lastErr).
Proof. revert lastErr. induction endpoints as [|url rest IH]; intros; cbn [requestLoop]; quietly. Qed.

Lemma batchLoop_quiet calls endpoints lastErr : quietM (batchLoop calls endpoints lastErr).
Proof. revert lastErr. induction endpoints as [|url rest IH]; intros; cbn [batchLoop]; quietly. Qed.
Hint Resolve @requestLoop_quiet batchLoop_quiet : emits.

Lemma request_quiet {A} (dec : Json -> option A) method params : quietM (request dec method params).
Proof. unfold request. quietly. Qed.
Hint Resolve @request_quiet : emits.

Lemma CallAt_quiet to data tag : quietM (CallAt to data tag).
Proof. unfold CallAt. quietly. Qed.
Lemma BatchCall_quiet calls tag : quietM (BatchCall calls tag).
Proof. unfold BatchCall, batchRequest. quietly. Qed.
Lemma LatestBlock_quiet : quietM LatestBlock.
Proof. unfold LatestBlock, cachedBlock. quietly. Qed.
Hint Resolve CallAt_quiet BatchCall_quiet LatestBlock_quiet : emits.

Lemma storeMetadata_quiet pair m : quietM (storeMetadata pair m).
Proof. intros s. apply emits_done. Qed.
Hint Resolve storeMetadata_quiet : emits.

Lemma readPair_quiet pair b : quietM (readPair pair b).
Proof. unfold readPair, getMetadata, fetchMetadata. quietly. Qed.
Hint Resolve readPair_quiet : emits.

Lemma readLeg_quiet leg window b : quietM (readLeg leg window b).
Proof. unfold readLeg. quietly. Qed.
Hint Resolve readLeg_quiet : emits.

Lemma priceLegs_quiet legs window b acc : quietM (priceLegs legs window b acc).
Proof. revert acc. induction legs as [|leg rest IH]; intros; cbn [priceLegs]; quietly. Qed.
Hint Resolve priceLegs_quiet : emits.

Lemma Price_quiet i : quietM (Price i).
Proof. unfold Price. quietly. Qed.

#[export] Instance oracle_quiet : QuietSource Oracle.
Proof. intros i o. apply Price_quiet. Qed.
End Quiet.
#[export] Existing Instance oracle_quiet.

(** Safety of the trading cycle: which exchange writes [RunOnce] may make, under which
    leases, and which orders it may submit. *)

(** ** The rule of the live path *)

(** The engine acquired the lease in the events known, and the guard of this very
    generation passed directly before. *)
Definition fenced {O} (e : Engine O) (key : string) (generation : Z) (K : event -> Prop)
    (prev : option event) : Prop :=
  has e isMarketLocker = true ->
  prev = Some (pass_event e key generation)
  /\ exists ttl, K (MkEvent (Runtime (RAcquireMarketLease key (ownerID e) ttl)) (generation, None)).

(** An order of a planned quote, all of whose inputs are in the events known; without leases
    the generation is 1. *)
Definition vetted {O} `{PriceSource O} `{MapRange} (e : Engine O) (K : event -> Prop) (vc : VenueCtx) (generation : Z)
    (q : PlaceRequest) : Prop :=
  (has e isMarketLocker = false -> generation = 1)
  /\ exists ref book quotes quote,
    planned e K vc ref book quotes /\ quote ∈ quotes
    /\ request_for (ID (vc_instrument vc)) generation quote q.

(** A market the engine may write to now: enabled, traded live, and of an instrument
    that is neither paused nor blocked by its preflight. *)
Definition open_market {O} `{MapRange} (e : Engine O) (vc : VenueCtx) : Prop :=
  vc_instrument vc ∈ Instruments (cfg e)
  /\ paused e !! ID (vc_instrument vc) = None
  /\ preflightBlocked e !! ID (vc_instrument vc) = None
  /\ trades e (vc_instrument vc) vc.

Definition live_rule {O} `{PriceSource O} `{MapRange} (e : Engine O) : Rule := fun K prev w =>
  is_write w = true -> exists vc generation,
    open_market e vc /\ at_client (Name (vc_client vc)) w
    /\ fenced e (leaseKey vc) generation K prev
    /\ Forall (vetted e K vc generation) (placed_by w).

Lemma fenced_mono {O} (e : Engine O) key generation (K K' : event -> Prop) prev prev' :
  (forall x, K x -> K' x) -> prev = None \/ prev = prev' ->
  fenced e key generation K prev -> fenced e key generation K' prev'.
Proof.
  intros HK Hp Hf Hl. destruct (Hf Hl) as [-> [ttl Ht]]. destruct Hp as [|<-]; [done|]. eauto.
Qed.

Lemma vetted_mono {O} `{PriceSource O} `{MapRange} (e : Engine O) (K K' : event -> Prop) vc generation q :
  (forall x, K x -> K' x) -> vetted e K vc generation q -> vetted e K' vc generation q.
Proof.
  intros HK (H1 & ref & book & quotes & quote & H2 & H3). split; [done|].
  exists ref, book, quotes, quote. split; [by eapply planned_mono|done].
Qed.

#[export] Instance live_discipline {O} `{PriceSource O} `{MapRange} (e : Engine O) : Discipline (live_rule e).
Proof.
  split.
  - intros K K' prev prev' w HK Hp Hw Ew. destruct (Hw Ew) as (vc & generation & H1 & H2 & H3 & H4).
    exists vc, generation. split_and!; [done|done|by eapply fenced_mono|].
    eapply Forall_impl; [exact H4|]. intros q. by apply vetted_mono.
  - intros K prev w Hw Ew. congruence.
Qed.

(** What is submitted passed the risk filter. *)
Lemma planned_allowed {O} `{PriceSource O} `{MapRange} (e : Engine O) K vc ref book quotes quote :
  planned e K vc ref book quotes -> quote ∈ quotes -> quote_allowed (vc_market vc) book quote.
Proof.
  intros (filtered & orders & base & free & budget & [_ _ _ (inv & now & wall & since & clock & all & _ & Hf)] & _ & _ & Hb) Hq.
  apply FilterQuotes_kept in Hf as [_ Hall]. apply (proj1 (Forall_forall _ _) Hall).
  eapply elem_of_sublist; [exact Hq|]. etransitivity; [by eapply ApplyBalanceBudget_sublist|]. apply ApplyOrderLimit_sublist.
Qed.

Section Rule.
Context {O : Type} `{PriceSource O} `{MapRange}.
Implicit Types e : Engine O.

Lemma live_fenced e key generation (K : event -> Prop) :
  lease_known e key generation K -> fenced e key generation K (fence_of e key generation).
Proof. intros [_ Hk] Hl. unfold fence_of. rewrite Hl. split; [done|by apply Hk]. Qed.

(** What the live path of an open market does is what the rule asks for. *)
Lemma live_obeys e vc : open_market e vc -> obeys (live_rule e) e e vc.
Proof.
  intros Ho. split.
  - intros K generation w _ Hk Hw Hc HW _. exists vc, generation.
    split_and!; [done|done|by apply live_fenced|]. unfold cancels_write in HW. rewrite HW. constructor.
  - intros K0 ref book quotes Hp K generation w HK Hk Hw Hc HW _. exists vc, generation.
    split_and!; [done|done|by apply live_fenced|]. eapply Forall_impl; [exact HW|].
    intros q (quote & Hq & Hr). split; [apply Hk|]. exists ref, book, quotes, quote.
    split_and!; [by eapply planned_mono|done|done].
Qed.

Lemma live_engine_obeys e : engine_obeys (live_rule e) e e.
Proof.
  intros i Hi Hp Hb vc Ht. pose proof (proj1 Ht) as Ei. apply live_obeys.
  unfold open_market. rewrite Ei. by split_and!.
Qed.
End Rule.

(** ** Closed engines *)

(** No write at all. *)
Definition no_writes : Rule := fun _ _ w => is_write w = false.

#[export] Instance no_writes_discipline : Discipline no_writes.
Proof. by split. Qed.

Lemma no_writes_quiet K prev es : disciplined no_writes K prev es -> quiet es.
Proof.
  revert K prev. induction es as [|e es IH]; intros K prev; simpl; [constructor|].
  intros [H1 H2]. constructor; [done|by eapply IH].
Qed.

(** Every write: what holds of the states whatever is written. *)
Definition any_writes : Rule := fun _ _ _ => True.

#[export] Instance any_writes_discipline : Discipline any_writes.
Proof. by split. Qed.

Lemma any_obeys {O} `{PriceSource O} `{MapRange} (e0 e : Engine O) vc : obeys any_writes e0 e vc.
Proof. by split; repeat intro. Qed.

(** A cycle of an engine that may write to no market. *)
Lemma RunOnce_closed {O} `{PriceSource O} `{!QuietSource O} `{MapRange} `{SliceSort} `{Schedule}
    (e : Engine O) : (forall vc, ~ open_market e vc) ->
  okX RunOnce e (fun es _ _ => quiet es).
Proof.
  intros Hclosed. eapply okX_mono.
  - apply (RunOnce_runs no_writes e (fun _ => False)); [|reflexivity]. intros i Hi Hp Hb vc Ht. exfalso.
    pose proof (proj1 Ht) as Ei. apply (Hclosed vc). unfold open_market. rewrite Ei. by split_and!.
  - intros es o e' [Hd _]. by eapply no_writes_quiet.
Qed.

(** ** Claims *)

Section Claims.
Context `{HttpRequests} `{MapRange} `{SliceSort} `{Schedule}.

(** Every cycle returns, and its writes follow the rule. *)
Lemma RunOnce_live env past (e : Engine Oracle.Oracle) : exists es x,
  run env past (RunOnce e) = (es, Ret x)
  /\ forall es1 w es2, es = es1 ++ w :: es2 -> live_rule e (fun x => x ∈ es1) (last es1) w.
Proof.
  destruct (ok_run _ _ env past (RunOnce_runs (live_rule e) e (fun _ => False) e (live_engine_obeys e) (reflexivity e)))
    as (es & x & Hrun & Hd & _).
  exists es, x. split; [exact Hrun|]. intros es1 w es2 ->.
  apply disciplined_at in Hd; [|apply _].
  eapply (d_mono (Φ := live_rule e)); [|right; reflexivity|exact Hd]. by intros y [[]|Hy].
Qed.

(** C3: whatever the environment answers, each exchange write of a trading cycle goes to
    the exchange of an enabled market that is traded live and whose instrument is
    neither paused nor blocked; and with a lease store the write directly follows a
    validation that passed, for a lease of this market, owner and generation that the
    engine acquired earlier in the same cycle. *)
Theorem RunOnce_writes_fenced env past (e : Engine Oracle.Oracle) : exists es x,
  run env past (RunOnce e) = (es, Ret x)
  /\ forall es1 w es2, es = es1 ++ w :: es2 -> is_write w = true -> exists vc generation,
       open_market e vc /\ at_client (Name (vc_client vc)) w
       /\ (has e isMarketLocker = true ->
           last es1 = Some (MkEvent
             (Runtime (RValidateMarketLease (leaseKey vc) (ownerID e) generation)) (true, None))
           /\ exists ttl, MkEvent (Runtime (RAcquireMarketLease (leaseKey vc) (ownerID e) ttl))
                            (generation, None) ∈ es1).
Proof.
  destruct (RunOnce_live env past e) as (es & x & Hrun & Hw). exists es, x. split; [done|].
  intros es1 w es2 E Ew. destruct (Hw _ _ _ E Ew) as (vc & generation & H1' & H2' & H3' & _).
  exists vc, generation. split_and!; [done|done|exact H3'].
Qed.

(** C4: every order a trading cycle submits goes to an enabled, live, unpaused and unblocked
    market, under a generation that with a lease store is the one this engine acquired for
    this market earlier in the cycle and validated directly before the submission (without
    one it is 1), and belongs to a quote that went through the whole pipeline on inputs of
    this cycle: the reference price is the answer of the price source to the call for this
    instrument; the book is the one this exchange answered, and empty only when that reading
    failed; the price check accepted the two; the quote was generated from them and passed
    the risk filter; and it is one of those left by the limit of open orders, counted on the
    orders this exchange listed, and by the balance budget, computed from what was free on
    the account of this market (nothing, when the market has no credential). *)
Theorem RunOnce_orders_vetted env past (e : Engine Oracle.Oracle) : exists es x,
  run env past (RunOnce e) = (es, Ret x)
  /\ forall es1 w es2 q, es = es1 ++ w :: es2 -> q ∈ placed_by w ->
       let K x := x ∈ es1 in
       exists vc generation ref book inventory now wall since clock all filtered orders base free quotes budget quote,
         open_market e vc /\ at_client (Name (vc_client vc)) w
         /\ (has e isMarketLocker = true ->
              last es1 = Some (pass_event e (leaseKey vc) generation)
              /\ exists ttl, K (MkEvent (Runtime (RAcquireMarketLease (leaseKey vc) (ownerID e) ttl)) (generation, None)))
         /\ (has e isMarketLocker = false -> generation = 1)
         /\ (exists o o' es', rtc asked (oracle e) (Some o) /\ (forall x, x ∈ es' -> K x)
              /\ yields (Oracle.Price (vc_instrument vc) o) es' (Ret (inl ref, o')))
         /\ (let top r := K (MkEvent (Call (Name (vc_client vc)) (CTopBook (market_Symbol (vc_market vc)))) r) in
             top (inl book) \/ (exists err, top (inr err)) /\ book = emptyBook vc)
         /\ ValidateMarketReference ref book (Strategy (vc_instrument vc)) = Ret tt
         /\ Generate (vc_instrument vc) (vc_name vc) (vc_market vc) ref book inventory now wall = Ret all
         /\ FilterQuotes (vc_instrument vc) (vc_market vc) book inventory all since clock = Ret filtered
         /\ orders_seen K vc orders /\ funds_seen e K vc base free
         /\ (let managed := ManagedOrdersFor (vc_client vc) orders in
             ApplyBalanceBudget
               (ApplyOrderLimit filtered (Z.of_nat (length orders)) (Z.of_nat (length managed))
                  (MaxOpenOrders (vc_market vc)))
               managed base free (BalanceReserveBPS (Strategy (vc_instrument vc)))
               (MaxBaseCommitment (vc_market vc)) (MaxQuoteCommitment (vc_market vc)) = Ret (quotes, budget))
         /\ quote ∈ quotes /\ quote_allowed (vc_market vc) book quote
         /\ request_for (ID (vc_instrument vc)) generation quote q.
Proof.
  destruct (RunOnce_live env past e) as (es & x & Hrun & Hw). exists es, x. split; [done|].
  intros es1 w es2 q E Hq K.
  assert (Ew : is_write w = true) by (destruct w as [[| | | |cl []| | | | | | | |] r]; set_solver).
  destruct (Hw _ _ _ E Ew) as (vc & generation & Ho & Hc & Hf & Hall).
  destruct (proj1 (Forall_forall _ _) Hall q Hq) as (Hg & ref & book & quotes & quote & Hp & Hin & Hreq).
  pose proof (planned_allowed e K vc ref book quotes quote Hp Hin) as Ha.
  destruct Hp as (filtered & orders & base & free & budget & [(o & o' & es' & Hro & Hy & Hes) Hb Hv Hgen] & Hor & Hfu & Hbud).
  destruct Hgen as (inventory & now & wall & since & clock & all & Hgn & Hfi).
  exists vc, generation, ref, book, inventory, now, wall, since, clock, all, filtered, orders, base, free, quotes, budget, quote.
  split_and!; try done. by exists o, o', es'.
Qed.

(** Outside live mode, and when every instrument is paused or blocked by its
    preflight, a trading cycle returns and writes to no exchange. *)
Theorem RunOnce_closed_quiet env past (e : Engine Oracle.Oracle) :
  cfg_Mode (cfg e) <> ModeLive
  \/ (forall i, i ∈ Instruments (cfg e) ->
        is_Some (paused e !! ID i) \/ is_Some (preflightBlocked e !! ID i)) ->
  exists es x, run env past (RunOnce e) = (es, Ret x) /\ quiet es.
Proof.
  intros Hc. assert (Hclosed : forall vc, ~ open_market e vc).
  { intros vc (Hi & Hp & Hb & _ & _ & _ & Hl & _). destruct Hc as [Hm|Hall].
    - apply Hm. unfold live in Hl. apply andb_true_iff in Hl as [Hl _]. by apply String.eqb_eq.
    - destruct (Hall _ Hi) as [[? E]|[? E]]; congruence. }
  destruct (ok_run _ _ env past (RunOnce_closed e Hclosed)) as (es & x & Hrun & Hq). eauto.
Qed.
End Claims.
