(* ===== verification/EngineLive.v ===== *)
(** Liveness of the trading cycle: a panic in one instrument never stops [RunOnce], and
    each instrument that is not paused publishes its snapshot, whatever fails. *)
From S2P Require Import Prelude Decimal Domain Json FaultData TradesimData Runtimeops World Config Strategy Risk Tradesim Fault Venue Process Oms OmsFacts OmsSafety OmsCancel Rpc Oracle Discipline AuditEvents Engine EngineCycle EngineControl EngineFacts EngineWrites EngineSafety.

Open Scope string_scope.
Open Scope list_scope.
Open Scope Z_scope.

(** ** The snapshot stays the one of its instrument *)

Lemma instrumentBody_keeps {O} `{PriceSource O} `{MapRange} `{SliceSort} i : keeps (instrument_of (O := O)) (instrumentBody i).
Proof.
  unfold instrumentBody. keep; try solve [eauto with keeps].
  intros f. by apply partX_zoom, partX_any.
Qed.

(** ** Publication *)

(** The snapshot of an instrument was published. *)
Definition published (id : string) (es : trace) : Prop :=
  exists snapshot r, MkEvent (Runtime (RPublish snapshot)) r ∈ es /\ is_InstrumentID snapshot = id.

Lemma published_l id es es' : published id es -> published id (es ++ es').
Proof. intros (s & r & Hin & E). exists s, r. split; [|done]. apply elem_of_app. by left. Qed.
Lemma published_r id es es' : published id es' -> published id (es ++ es').
Proof. intros (s & r & Hin & E). exists s, r. split; [|done]. apply elem_of_app. by right. Qed.

Section Live.
Context {O : Type} `{PriceSource O} `{!QuietSource O} `{MapRange} `{SliceSort} `{Schedule}.
Implicit Types e : Engine O.

(** A state of a cycle that the engine [e] began. *)
Definition in_cycle e (s : Cycle O) : Prop := stable e (cy_engine s) /\ cache_ok e (fun _ => True) s.

Lemma publishX_publishes snapshot e : runtime e <> None ->
  partX (publishX snapshot) e (fun es o _ =>
    (exists a, o = inl a) /\ published (is_InstrumentID snapshot) es).
Proof.
  intros Hr. unfold publishX. apply partX_get_bind. destruct (runtime e); [|done].
  intros res _. simpl. split; [eauto|]. exists snapshot, res. split; [left|done].
Qed.

Lemma publishF_publishes snapshot (f : Frame O) (o : option (option error)) :
  runtime (cy_engine (fr_cycle f)) <> None ->
  partX (engineF (publishX snapshot) ;; mret o) f (fun es o' _ =>
    (exists a, o' = inl a) /\ published (is_InstrumentID snapshot) es).
Proof.
  intros Hr. apply (partX_bind _ _ _ (fun es o' _ => (exists a, o' = inl a)
    /\ published (is_InstrumentID snapshot) es)); [by apply partX_zoom, partX_zoom, publishX_publishes|..].
  - intros es a f' [_ Hp]. apply partX_ret. split; [eauto|by rewrite app_nil_r].
  - by intros es m f' [(a & ?) _].
Qed.

(** The snapshot is published also while a panic unwinds. *)
Lemma publishCycle_publishes start returned (f : Frame O) : runtime (cy_engine (fr_cycle f)) <> None ->
  partX (publishCycle start returned) f (fun es o _ =>
    (exists a, o = inl a) /\ published (is_InstrumentID (fr_snapshot f)) es).
Proof.
  intros Hr. assert (Hp : forall t t' g, (forall s, is_InstrumentID (g s) = is_InstrumentID s) ->
    let snapshot := g (set_is_UpdatedAt t' (set_TickDurationMS (Z.quot (TimeSub t start) Millisecond)
      (fr_snapshot f))) in
    partX (engineF (publishX snapshot) ;; mret (None : option (option error)))
      (MkFrame (fr_cycle f) snapshot (fr_failures f) (fr_active f))
      (fun es o _ => (exists a, o = inl a)
         /\ published (is_InstrumentID (fr_snapshot f)) ([MkEvent Now t; MkEvent Now t'] ++ es))).
  { intros t t' g Hg snapshot. eapply partX_mono; [by apply publishF_publishes|].
    intros es o s [Ho Hp]. split; [done|]. apply published_r. revert Hp. unfold snapshot.
    by rewrite Hg. }
  unfold publishCycle, elapsedMS. destruct returned as [[err|]|]; intros t _ t' _.
  - exact (Hp t t' (fun s => set_is_Error (Error err) (set_is_Status "degraded" s)) (fun _ => eq_refl)).
  - exact (Hp t t' (fun s => s) (fun _ => eq_refl)).
  - exact (Hp t t' (fun s => s) (fun _ => eq_refl)).
Qed.

Lemma runInstrument_publishes e i (s : Cycle O) : runtime (cy_engine s) <> None -> in_cycle e s ->
  partX (runInstrument i) s (fun es _ _ => published (ID i) es).
Proof.
  intros Hr [He Hc]. unfold runInstrument, inFrame. apply spec_bind. intros start _.
  set (f := MkFrame _ _ _ _).
  assert (Hbody : partX (deferX (instrumentBody i) (publishCycle start)) f
    (fun es _ _ => published (ID i) es)).
  { eapply partX_defer.
    - apply partX_and; [apply instrumentBody_keeps|].
      apply okX_part, (instrumentBody_reads any_writes e i (fun _ => True)); [|exact He|exact Hc].
      intros vc _. apply any_obeys.
    - intros es o s' [Hid (_ & Hs & _)]. eapply partX_mono.
      { apply publishCycle_publishes. by rewrite (st_runtime _ _ Hs). }
      intros es' o' s'' [_ Hp] _. apply published_r. unfold instrument_of in Hid. by rewrite Hid in Hp. }
  eapply spec_mono; [|exact Hbody]. intros es [[o f']|err|m] Hp; [|done|done].
  simpl. rewrite ?app_nil_r. by apply (published_r _ [_]).
Qed.

Lemma publishPreflightBlocked_publishes i failure e : runtime e <> None ->
  partX (publishPreflightBlocked i failure) e (fun es o _ => published (ID i) es).
Proof.
  intros Hr. unfold publishPreflightBlocked. apply partX_get_bind, partX_act_bind. intros now.
  eapply partX_bind; [by apply publishX_publishes|..].
  - intros es a s' [_ Hp]. apply partX_ret. by apply (published_r _ [_]), published_l.
  - by intros es m s' [[a ?] _].
Qed.

(** ** The panic barrier *)

Lemma partX_recover {S A} (c : X S A) (f : string -> X S A) s (Q : trace -> A + string -> S -> Prop) P :
  partX c s P ->
  (forall es a s', P es (inl a) s' -> Q es (inl a) s') ->
  (forall es m s', P es (inr m) s' -> partX (f m) s' (fun es' o s'' => Q (es ++ es') o s'')) ->
  partX (recoverX c f) s Q.
Proof.
  intros Hc Ha Hm. apply spec_bind. eapply spec_mono; [|exact Hc].
  intros es [[[a|m] s']|e|m] HP; simpl in *; [|by apply Hm|done|done].
  rewrite app_nil_r. by apply Ha.
Qed.

(** One job of a cycle: it returns, and an instrument that is not paused is published. *)
Definition job_done e (i : InstrumentConfig) (es : trace) : Prop :=
  runtime e <> None -> paused e !! ID i = None -> published (ID i) es.

Lemma runInstrumentGuarded_done e0 i (s : Cycle O) : in_cycle e0 s ->
  partX (runInstrumentGuarded i) s (fun es o _ => (exists a, o = inl a) /\ job_done (cy_engine s) i es).
Proof.
  intros Hcy. unfold runInstrumentGuarded. apply (partX_recover _ _ _ _
    (fun es _ _ => job_done (cy_engine s) i es)).
  - destruct s as [e bal]. unfold job_done. cbn [cy_engine].
    change (partX (if bool_decide (is_Some (paused e !! ID i)) then runPausedInstrument i else
      b ← onEngine (preflightFailure (ID i)); match b : option string with
        | Some failure => onEngine (publishPreflightBlocked i failure)
        | None => runInstrument i
        end) (MkCycle e bal)
      (fun es _ _ => runtime e <> None -> paused e !! ID i = None -> published (ID i) es)).
    case_bool_decide as Hp; [apply partX_any; intros es o s' _ E; destruct Hp; congruence|].
    change (partX (match preflightBlocked e !! ID i with
        | Some failure => onEngine (publishPreflightBlocked i failure)
        | None => runInstrument i end) (MkCycle e bal)
      (fun es _ _ => runtime e <> None -> paused e !! ID i = None -> published (ID i) es)).
    destruct (decide (runtime e = None)) as [Hr|Hr]; [by apply partX_any|].
    destruct (preflightBlocked e !! ID i) as [failure|].
    + apply partX_zoom. eapply partX_mono; [by apply publishPreflightBlocked_publishes|done].
    + eapply partX_mono; [by apply (runInstrument_publishes e0)|done].
  - eauto.
  - intros es m s' Hp. apply partX_ret. rewrite app_nil_r. eauto.
Qed.

Lemma job_done_stable e e' i es : stable e e' -> job_done e' i es -> job_done e i es.
Proof. intros Hs. unfold job_done. by rewrite (st_runtime _ _ Hs), (st_paused _ _ Hs). Qed.

Definition has_job (instruments : list InstrumentConfig) e (index : nat) (es : trace) : Prop :=
  forall i, instruments !! index = Some i -> job_done e i es.

Lemma has_job_l instruments e index es es' : has_job instruments e index es ->
  has_job instruments e index (es ++ es').
Proof. intros Hj i Hi Hr Hp. by apply published_l, (Hj i). Qed.
Lemma has_job_r instruments e index es es' : has_job instruments e index es' ->
  has_job instruments e index (es ++ es').
Proof. intros Hj i Hi Hr Hp. by apply published_r, (Hj i). Qed.

Lemma runJob_done e errs index (s : Cycle O) : in_cycle e s ->
  partX (runJob (Instruments (cfg e)) errs index) s (fun es o s' =>
    in_cycle e s' /\ (exists b, o = inl b) /\ has_job (Instruments (cfg e)) e index es).
Proof.
  intros Hs. unfold runJob, has_job.
  destruct (Instruments (cfg e) !! index) as [i|] eqn:Ei.
  2:{ apply partX_ret. by split_and!; [|eauto|]. }
  eapply partX_bind.
  { apply partX_and; [by apply (runInstrumentGuarded_done e)|].
    apply okX_part, (runInstrumentGuarded_reads any_writes e i (fun _ => True)); [|apply Hs..].
    intros _ _ vc _. apply any_obeys. }
  - intros es err s1 [[_ Hj] (_ & Hs1 & Hc1)]. eapply partX_bind.
    { apply okX_part. instantiate (1 := fun _ o s' => (exists a, o = inl a) /\ s' = s1).
      unfold reportProgress. apply okX_get_bind. destruct (has _ _); [|by apply okX_ret; split; [eauto|]].
      intros r _. split; [eauto|reflexivity]. }
    + intros es1 _ s2 [_ ->]. apply partX_ret. split_and!.
      * split; [transitivity (cy_engine s); [apply Hs|exact Hs1]|]. by eapply cache_ok_mono; [|exact Hc1].
      * eauto.
      * intros i' [= <-]. eapply job_done_stable; [apply Hs|]. intros Hr Hp. by apply published_l, Hj.
    + by intros es1 m s2 [(a & ?) _].
  - by intros es m s' [[(a & ?) _] _].
Qed.

Lemma runJobs_done e : partX (runJobs (Instruments (cfg e))) (MkCycle e newBalanceCache)
  (fun es o s' => in_cycle e s' /\ (exists b, o = inl b)
     /\ forall i, i ∈ Instruments (cfg e) -> job_done e i es).
Proof.
  unfold runJobs. eapply partX_mono.
  { apply (partX_foldX (in_cycle e) (has_job (Instruments (cfg e)) e)).
    - intros. by apply has_job_l.
    - intros. by apply has_job_r.
    - intros index errs s _. apply runJob_done.
    - split; [reflexivity|apply cache_ok_new]. }
  intros es o s' (H1' & H2' & Hall). split_and!; [done|done|].
  intros i [index Hi]%list_elem_of_lookup. apply (Hall index); [|done].
  rewrite schedule_perm. apply elem_of_seq. apply lookup_lt_Some in Hi. lia.
Qed.

(** ** The end of the cycle *)

(** A process that ends with a value. *)
Definition returnsX {S A} (c : X S A) : Prop := forall s, partX c s (fun _ o _ => exists a, o = inl a).

Lemma returns_ret {S A} (a : A) : returnsX (S := S) (mret a).
Proof. intros s. apply partX_ret. eauto. Qed.
Lemma returns_act {S} a : returnsX (S := S) (actX a).
Proof. intros s r _. simpl. eauto. Qed.
Lemma returns_modify {S} (f : S -> S) : returnsX (modifyX f).
Proof. intros s. by exists tt. Qed.
Lemma returns_bind {S A B} (c : X S A) (f : A -> X S B) :
  returnsX c -> (forall a, returnsX (f a)) -> returnsX (c ≫= f).
Proof.
  intros Hc Hf s. eapply partX_bind; [apply Hc| |].
  - intros es a s' _. eapply partX_mono; [apply Hf|]. done.
  - by intros es m s' [a ?].
Qed.

Lemma partX_returns {S A B} (c : X S A) (f : A -> X S B) s (Q : B + string -> S -> Prop) :
  returnsX c -> (forall a s', partX (f a) s' (fun _ o s'' => Q o s'')) ->
  partX (c ≫= f) s (fun _ o s' => Q o s').
Proof.
  intros Hc Hf. eapply partX_bind; [apply Hc|intros es a s' _; apply Hf|].
  by intros es m s' [a ?].
Qed.

Lemma returns_get {S B} (f : S -> X S B) : (forall s, returnsX (f s)) -> returnsX (getX ≫= f).
Proof. intros Hf s. apply partX_get_bind, Hf. Qed.

Lemma returns_reportCycle started instruments failures limit :
  returnsX (S := Engine O) (reportCycle started instruments failures limit).
Proof.
  unfold reportCycle, elapsedMS. cbv zeta.
  repeat match goal with
  | |- forall _, _ => intros ?
  | |- returnsX (mret _) => apply returns_ret
  | |- returnsX (actX _) => apply returns_act
  | |- returnsX (getX ≫= _) => apply returns_get
  | |- returnsX (_ ≫= _) => apply returns_bind
  | |- returnsX (if ?b then _ else _) => destruct b
  end.
Qed.

(** The text of the failures is kept for the next cycle, logged or not. *)
Lemma logCycle_keeps failures e : partX (logCycle failures) e (fun _ o e' =>
  (exists a, o = inl a) /\ lastCycleError e' = StringsJoin failures "; ").
Proof.
  unfold logCycle. cbv zeta. destruct (String.eqb _ "") eqn:E.
  { apply String.eqb_eq in E. rewrite E. by split; [exists tt|]. }
  apply partX_act_bind. intros now. apply partX_get_bind.
  destruct (String.eqb _ (lastCycleError e)) eqn:E'; [|by split; [exists tt|]].
  apply String.eqb_eq in E'. rewrite E'. by destruct (TimeSub _ _ <? _); split; try by exists tt.
Qed.

Definition reported (o : option error + string) e : Prop := exists err, o = inl err
  /\ match err with
     | None => lastCycleError e = ""
     | Some x => lastCycleError e <> "" /\ Error x = "tick failures: " +:+ lastCycleError e
     end.

Lemma tickFailures_nonempty instruments errs : Forall (fun s => s <> "") (tickFailures instruments errs).
Proof.
  apply Forall_forall. intros s Hs. unfold tickFailures in Hs.
  apply list_elem_of_omap in Hs as ([i [err|]] & _ & E); simpl in E; [|done].
  injection E as <-. by destruct (ID i).
Qed.

Lemma join_reported instruments errs o e :
  let failures := tickFailures instruments errs in
  o = inl (failuresError "tick failures: " failures) ->
  lastCycleError e = StringsJoin failures "; " -> reported o e.
Proof.
  cbv zeta. pose proof (tickFailures_nonempty instruments errs) as Hne.
  destruct (tickFailures instruments errs) as [|s l] eqn:E; intros -> Hl; unfold reported; simpl.
  - by exists None.
  - eexists. split; [done|]. cbv beta iota. rewrite Hl. split; [|done].
    apply Forall_cons in Hne as [Hs _]. destruct l; simpl; [done|]. by destruct s.
Qed.

Lemma RunOnce_part e : partX RunOnce e (fun es o e' =>
  reported o e' /\ forall i, i ∈ Instruments (cfg e) -> job_done e i es).
Proof.
  unfold RunOnce. apply partX_act_bind. intros started. apply partX_get_bind. cbv zeta.
  eapply (partX_bind _ _ _ (fun es o _ => (exists errs, o = inl errs)
    /\ forall i, i ∈ Instruments (cfg e) -> job_done e i es)).
  - unfold inCycle. apply spec_bind. eapply spec_mono; [|apply (runJobs_done e)].
    intros es [[o s']|er|m] Hx; [|done|done]. simpl in *. rewrite app_nil_r. tauto.
  - intros es errs e1 [_ Hjobs].
    apply (partX_mono _ _ (fun _ o e' => reported o e')).
    2:{ intros es' o e' Hrep. split; [done|]. intros i Hi Hr Hp.
        apply (published_r _ [_]), published_l. by apply (Hjobs i). }
    apply partX_returns; [unfold flushAudit; apply returns_bind; [apply returns_act|intros; apply returns_ret]|].
    intros flush e2. apply partX_returns; [destruct flush; [apply returns_modify|apply returns_ret]|].
    intros _ e3. apply partX_returns; [apply returns_modify|].
    intros _ e4. apply partX_returns; [apply returns_reportCycle|].
    intros _ e5. apply partX_returns; [apply returns_act|].
    intros _ e6. eapply partX_bind; [apply logCycle_keeps|..].
    + intros es1 a e' [_ Hl]. apply partX_ret. by eapply join_reported.
    + by intros es1 m e' [[a ?] _].
  - by intros es m s' [[a ?] _].
Qed.
End Live.

(** ** Claims *)

(** C5: a trading cycle returns whatever the venues, the stores and the oracle answer
    and whichever instrument panics: [RunOnce] never panics itself, it reports an error
    exactly when it keeps the text of the failures, and in the same cycle every
    instrument that is not paused publishes a snapshot of its own to the runtime
    store. *)
Theorem RunOnce_isolates_failures `{HttpRequests} `{MapRange} `{SliceSort} `{Schedule} env past
    (e : Engine Oracle.Oracle) :
  exists es err e',
    run env past (RunOnce e) = (es, Ret (inl err, e'))
    /\ match err with
       | None => lastCycleError e' = ""
       | Some x => lastCycleError e' <> "" /\ Error x = "tick failures: " +:+ lastCycleError e'
       end
    /\ (runtime e <> None -> forall i, i ∈ Instruments (cfg e) -> paused e !! ID i = None ->
         exists snapshot r, MkEvent (Runtime (RPublish snapshot)) r ∈ es
                            /\ is_InstrumentID snapshot = ID i).
Proof.
  pose proof (okX_partX _ _ _ _ (RunOnce_runs any_writes e (fun _ => False) e
    ltac:(intros i _ _ _ vc _; apply any_obeys) (reflexivity e)) (RunOnce_part e)) as Hok.
  destruct (ok_run _ _ env past Hok) as (es & x & Hrun & _ & (err & Ho & Hrep) & Hjobs).
  destruct x as [o e']. simpl in *. subst o. exists es, err, e'. split_and!; [done|done|].
  intros Hr i Hi Hp. by apply (Hjobs i Hi).
Qed.
