(* ===== verification/EngineStops.v ===== *)
(** What the engine does outside its trading cycle: the preflight and the refresh of
    rules write nothing, and operator controls, market cancellations and shutdown only
    cancel, each under the lease of its market. *)
From S2P Require Import Prelude Decimal Domain Json Configdiff FaultData TradesimData Runtimeops World Config Strategy Risk Tradesim Fault Venue Process Oms OmsFacts OmsSafety OmsCancel Rpc Oracle Discipline AuditEvents Engine EngineCycle EngineControl EngineFacts EngineWrites EngineSafety.

Open Scope string_scope.
Open Scope list_scope.
Open Scope Z_scope.

(** ** Frames *)

(** What no operation but [ApplyParameters] and the refresh of rules changes. *)
Record rooted {O} (e e' : Engine O) : Prop := MkRooted {
  rt_cfg : cfg e' = cfg e;
  rt_venues : venues e' = venues e;
  rt_runtime : runtime e' = runtime e;
  rt_owner : ownerID e' = ownerID e
}.

#[export] Instance rooted_preorder {O} : PreOrder (@rooted O).
Proof. split; [by constructor|]. intros e1 e2 e3 [] []. constructor; congruence. Qed.

Lemma stable_rooted {O} `{PriceSource O} (e e' : Engine O) : stable e e' -> rooted e e'.
Proof. intros []. by constructor. Qed.

Lemma runs_rooted {O A} `{PriceSource O} P (c : X (Engine O) A) e : runs P stable c e -> runs P rooted c e.
Proof. intros Hc. eapply runs_mono; [exact Hc|done|by apply stable_rooted]. Qed.

(** ** The rule of cancellations *)

Record traded {O} (e : Engine O) (venueName instrumentID : string) (market : VenueMarketConfig)
    (client : Client) : Prop := MkTraded {
  td_market : exists v, Venues (cfg e) !! venueName = Some v /\ venue_Enabled v = true
    /\ TradingEnabled v = true /\ Markets v !! instrumentID = Some market;
  td_client : clientOf e venueName instrumentID = Some client
}.

Definition cancel_rule {O} (e : Engine O) : Rule := fun K prev w =>
  is_write w = true -> placed_by w = []
  /\ exists venueName instrumentID market client generation,
       traded e venueName instrumentID market client /\ at_client (Name client) w
       /\ fenced e (marketLeaseKey venueName instrumentID market) generation K prev.

#[export] Instance cancel_discipline {O} (e : Engine O) : Discipline (cancel_rule e).
Proof.
  split.
  - intros K K' prev prev' w HK Hp Hw Ew.
    destruct (Hw Ew) as (Hpl & name & id & market & client & generation & H1 & H2 & H3).
    split; [done|]. exists name, id, market, client, generation.
    split_and!; [done|done|by eapply fenced_mono].
  - intros K prev w Hw Ew. congruence.
Qed.

Lemma has_rooted {O} (e e' : Engine O) iface : rooted e e' -> has e' iface = has e iface.
Proof. intros []. unfold has. by rewrite rt_runtime0. Qed.

Lemma fence_rooted {O} (e e' : Engine O) key generation : rooted e e' ->
  fence_of e' key generation = fence_of e key generation.
Proof. intros Hr. unfold fence_of, pass_event. by rewrite (has_rooted _ _ _ Hr), (rt_owner _ _ Hr). Qed.

Lemma traded_rooted {O} (e e' : Engine O) name id market client : rooted e e' ->
  traded e' name id market client -> traded e name id market client.
Proof.
  intros Hr [Hm Hc]. split; [by rewrite <- (rt_cfg _ _ Hr)|]. revert Hc. unfold clientOf.
  by rewrite (rt_venues _ _ Hr).
Qed.

Lemma cancel_allows {O} (e e' : Engine O) K name id market client : rooted e e' ->
  traded e' name id market client ->
  allows (cancel_rule e) K e' client (marketLeaseKey name id market) cancels_write.
Proof.
  intros Hr Ht K' generation w _ [_ Hk] Hw Hc HW _. split; [exact HW|].
  exists name, id, market, client, generation.
  split_and!; [by eapply traded_rooted|done|]. intros Hl. rewrite (fence_rooted _ _ _ _ Hr).
  unfold fence_of. rewrite Hl. split; [done|].
  rewrite (has_rooted _ _ _ Hr), (rt_owner _ _ Hr) in Hk. by apply Hk.
Qed.

(** ** Operations *)

Section Stops.
Context {O : Type} `{PriceSource O} `{!QuietSource O} `{MapRange} `{SliceSort} `{Schedule}.
Implicit Types e : Engine O.

Section Quiet.
Context {P : trace -> Prop} `{!QuietProp P}.

Lemma preflightFailure_runs id e : runs P stable (preflightFailure id) e.
Proof. unfold preflightFailure. go. Qed.

Lemma clearInstrumentBlocks_runs i e : runs P stable (clearInstrumentBlocks i) e.
Proof.
  unfold clearInstrumentBlocks. apply runs_get_bind. apply runs_bind; [|go].
  apply runs_foldX. intros [name market] failures e1 _ _. unfold clearVenueBlock. cbv zeta.
  apply runs_get_bind. destruct (clientOf _ _ _) as [client|]; [|go].
  apply runs_bind; [|go]. apply runs_component; [apply ClearBlocked_quiet|by constructor].
Qed.

Lemma publishPaused_runs i text orders e : runs P stable (publishPaused i text orders) e.
Proof. unfold publishPaused. go. Qed.

Lemma instrumentCancellationConfirmed_runs i e :
  runs P stable (instrumentCancellationConfirmed i) e.
Proof. unfold instrumentCancellationConfirmed, confirmVenue. go. Qed.

Lemma resumeInstrument_runs i failures e : runs P rooted (resumeInstrument i failures) e.
Proof.
  unfold resumeInstrument, isPaused. apply runs_bind; [apply runs_rooted; go|]. intros p e1 _.
  apply runs_bind; [apply runs_modify; by constructor|]. intros _ e2 _. destruct p; [|apply runs_ret].
  apply runs_bind; [apply runs_rooted, clearInstrumentBlocks_runs|]. intros err e3 _. apply runs_ret.
Qed.

(** A soft close retains the orders. *)
Lemma softPause_runs i state e : runs P rooted (softPause i state) e.
Proof.
  unfold softPause, setApplied. apply runs_bind; [apply runs_modify; by constructor|]. intros _ e1 _.
  apply runs_bind; [apply runs_rooted; go|]. intros _ e2 _. apply runs_rooted, publishPaused_runs.
Qed.

Lemma flush_runs e : runs P stable flushAudit e.
Proof. unfold flushAudit. go. Qed.

Lemma releaseHeld_runs failures kg e : runs P stable (releaseHeld failures kg) e.
Proof. unfold releaseHeld. go. Qed.
End Quiet.

Context (e0 : Engine O).
Abbreviation D K := (disciplined (cancel_rule e0) K None).

Lemma tradedMarkets_traded e id name market client :
  (name, market) ∈ tradedMarkets (cfg e) id -> clientOf e name id = Some client ->
  traded e name id market client.
Proof.
  intros Hin Hc. split; [|done]. unfold tradedMarkets in Hin.
  apply list_elem_of_omap in Hin as ([name' v] & Hv%elem_of_range & Ht). unfold tradedMarket in Ht.
  destruct (venue_Enabled v) eqn:Ee, (TradingEnabled v) eqn:Et; try done.
  destruct (Markets v !! id) as [m|] eqn:Em; simplify_eq/=. exists v. by split_and!.
Qed.

Lemma cancelInstrument_runs i K e : rooted e0 e -> runs (D K) stable (cancelInstrument i) e.
Proof.
  intros Hr. unfold cancelInstrument. apply runs_bind; [apply preflightFailure_runs|].
  intros b e1 Hs1. destruct b; [apply runs_ret|]. apply runs_get_bind. apply runs_bind; [|go].
  apply runs_foldX. intros [name market] failures e2 Hin Hs2. unfold cancelVenue. apply runs_get_bind.
  destruct (clientOf e2 name (ID i)) as [client|] eqn:Ec; [|apply runs_ret].
  apply runs_bind; [|intros; apply runs_ret].
  apply cancelManagedFenced_runs; [apply _|]. apply cancel_allows.
  - transitivity e; [done|]. apply stable_rooted. by transitivity e1.
  - apply tradedMarkets_traded; [|done]. by rewrite (st_cfg _ _ Hs2).
Qed.

Lemma emergencyPause_runs i state failures K e : rooted e0 e ->
  runs (D K) rooted (emergencyPause i state failures) e.
Proof.
  intros Hr. unfold emergencyPause. apply runs_bind; [by apply runs_rooted, cancelInstrument_runs|].
  intros cancelErr e1 Hr1. apply runs_bind.
  { destruct cancelErr; [apply runs_ret|]. apply runs_rooted, instrumentCancellationConfirmed_runs. }
  intros [[orders confirmed] err] e2 _. apply runs_bind.
  { destruct err as [err|]; [apply runs_ret|]. destruct confirmed; [|apply runs_ret].
    apply runs_bind; [apply runs_modify; by constructor|]. intros _ e3 _.
    apply runs_rooted. go. }
  intros fs e3 _. apply runs_bind; [apply runs_rooted, publishPaused_runs|]. intros. apply runs_ret.
Qed.

Lemma controlInstrument_runs requests failures i K e : rooted e0 e ->
  runs (D K) rooted (controlInstrument requests failures i) e.
Proof.
  intros Hr. unfold controlInstrument. destruct (requests !! ID i) as [state|];
    [|apply resumeInstrument_runs].
  apply runs_bind; [apply runs_modify; by constructor|]. intros _ e1 Hr1. apply runs_get_bind.
  destruct (bool_decide _); [apply runs_ret|]. destruct (negb _).
  - apply runs_bind; [apply softPause_runs|]. intros. apply runs_ret.
  - apply emergencyPause_runs. by transitivity e.
Qed.

Lemma reconcileInstrument_runs requests failures i K e : rooted e0 e ->
  runs (D K) stable (reconcileInstrument requests failures i) e.
Proof.
  intros Hr. unfold reconcileInstrument. destruct (requests !! ID i); [|apply runs_ret].
  apply runs_bind; [by apply cancelInstrument_runs|]. intros [err|] e1 _; [apply runs_ret|].
  apply runs_bind; [apply clearInstrumentBlocks_runs|]. intros [err|] e2 _; [apply runs_ret|]. go.
Qed.

Lemma ApplyControls_runs K e : rooted e0 e -> runs (D K) rooted ApplyControls e.
Proof.
  intros Hr. unfold ApplyControls. apply runs_get_bind. destruct (runtime e); [|apply runs_ret].
  apply runs_bind; [apply runs_rooted; go|]. intros [requests|err] e1 Hr1; [|apply runs_ret].
  apply runs_bind.
  { apply runs_foldX. intros i failures e2 _ Hr2. apply controlInstrument_runs.
    transitivity e; [done|]. by transitivity e1. }
  intros failures e2 Hr2. apply runs_bind.
  { unfold applyReconciles. apply runs_get_bind. destruct (negb _); [apply runs_ret|].
    apply runs_bind; [apply runs_rooted; go|]. intros [rs|err] e3 Hr3; [|apply runs_ret].
    apply runs_foldX. intros i fs e4 _ Hr4. apply runs_rooted, reconcileInstrument_runs.
    transitivity e; [done|]. transitivity e1; [done|]. transitivity e2; [done|]. by transitivity e3. }
  intros fs e3 _. apply runs_rooted. apply runs_bind; [apply flush_runs|]. go.
Qed.

Lemma Shutdown_runs K e : rooted e0 e -> runs (D K) stable Shutdown e.
Proof.
  intros Hr. unfold Shutdown. apply runs_get_bind, runs_bind.
  { apply runs_foldX. intros i failures e1 _ Hs1. apply runs_bind; [|go].
    apply cancelInstrument_runs. transitivity e; [done|by apply stable_rooted]. }
  intros failures e1 _. apply runs_get_bind, runs_bind.
  { apply runs_foldX. intros kg fs e2 _ _. apply releaseHeld_runs. }
  intros fs e2 _. apply runs_bind; [apply flush_runs|]. go.
Qed.

Lemma CancelMarket_runs id name K e : rooted e0 e -> runs (D K) stable (CancelMarket id name) e.
Proof.
  intros Hr. unfold CancelMarket. apply runs_bind; [apply preflightFailure_runs|].
  intros b e1 Hs1. destruct b; [apply runs_ret|]. apply runs_get_bind.
  destruct (v ← Venues (cfg e1) !! name; tradedMarket id (name, v)) as [[name' market]|] eqn:Et;
    [|apply runs_ret].
  destruct (clientOf e1 name id) as [client|] eqn:Ec; [|apply runs_ret]. cbv zeta.
  assert (Ht : traded e1 name id market client).
  { split; [|done]. destruct (Venues (cfg e1) !! name) as [v|]; [|done]. simpl in Et.
    destruct (venue_Enabled v) eqn:Ee, (TradingEnabled v) eqn:Etr; try done.
    destruct (Markets v !! id) eqn:Em; simplify_eq/=. exists v. by split_and!. }
  assert (Hr1 : rooted e0 e1) by (transitivity e; [done|by apply stable_rooted]).
  eapply (runs_learn (cancel_rule e0) stable _ _ (fun es a _ => snd a = None -> fst a <> 0 ->
    lease_known e1 (marketLeaseKey name id market) (fst a) (fun x => x ∈ es)));
    [apply acquireMarketLease_ok; apply _|].
  intros es [gen err] e2 Hs2 Hk. simpl in Hk. destruct err as [err|]; [apply runs_ret|].
  destruct (gen =? 0) eqn:Eg; [apply runs_ret|]. apply Z.eqb_neq in Eg.
  apply runs_bind.
  - apply cancelGuarded_runs; [apply _| |].
    + eapply lease_known_stable; [exact Hs2|]. eapply lease_known_mono; [|by apply Hk].
      intros x Hx. by right.
    + eapply allows_stable; [exact Hs2|]. by apply cancel_allows.
  - intros x e3 _. apply runs_bind; [go|]. intros _ e4 _. go.
Qed.
End Stops.

(** ** Operations that write nothing *)

(** The preflight and the refresh of rules change the configuration and what is blocked,
    not what the engine is attached to. *)
Record attached {O} (e e' : Engine O) : Prop := MkAttached {
  at_venues : venues e' = venues e;
  at_runtime : runtime e' = runtime e;
  at_owner : ownerID e' = ownerID e
}.
#[export] Instance attached_preorder {O} : PreOrder (@attached O).
Proof. split; [by constructor|]. intros e1 e2 e3 [] []. constructor; congruence. Qed.

Lemma runs_attached {O A} `{PriceSource O} P (c : X (Engine O) A) e : runs P stable c e -> runs P attached c e.
Proof. intros Hc. eapply runs_mono; [exact Hc|done|]. intros e' []. by constructor. Qed.

Section Preflight.
Context {O : Type} `{PriceSource O} `{!QuietSource O} `{MapRange} `{SliceSort} `{Schedule}.
Context {P : trace -> Prop} `{!QuietProp P}.
Implicit Types e : Engine O.

Hint Extern 5 (runs _ attached _ _) => apply runs_attached : runs.
Hint Extern 1 (attached _ _) => constructor : runs.

Lemma Prepare_runs e : runs P attached Prepare e.
Proof. unfold Prepare, prepareJob. go. Qed.

Lemma readRules_runs client market e : runs P stable (readRules client market) e.
Proof. unfold readRules. go. Qed.
Hint Resolve readRules_runs : runs.

Lemma updateMarket_runs name id market e : runs P attached (updateMarket name id market) e.
Proof. by apply runs_modify. Qed.
Hint Resolve updateMarket_runs : runs.

Lemma refreshVenueRules_runs id acc nv e : runs P attached (refreshVenueRules id acc nv) e.
Proof. unfold refreshVenueRules. go. Qed.
Hint Resolve refreshVenueRules_runs : runs.

Lemma RetryBlocked_runs e : runs P attached RetryBlocked e.
Proof. unfold RetryBlocked, retryInstrument, refreshInstrumentRules. go. Qed.

Lemma refreshMarket_runs name acc im e : runs P attached (refreshMarket name acc im) e.
Proof. unfold refreshMarket. go. Qed.
Hint Resolve refreshMarket_runs : runs.

Lemma RefreshMarketRules_runs e : runs P attached RefreshMarketRules e.
Proof. unfold RefreshMarketRules, refreshVenue, flushAudit. go. Qed.
End Preflight.

(** ** Emergency stops *)

Section Emergency.
Context {O : Type} `{PriceSource O} `{!QuietSource O} `{MapRange} `{SliceSort} `{Schedule}.
Implicit Types e : Engine O.

(** The exchange of a market reported no managed order. *)
Definition no_managed_orders e (instrumentID : string) (nm : string * VenueMarketConfig) (es : trace)
    : Prop :=
  exists client orders, clientOf e (fst nm) instrumentID = Some client
    /\ MkEvent (Call (Name client) (COpenOrders (market_Symbol (snd nm)))) (inl orders) ∈ es
    /\ ManagedOrdersFor client orders = [].

Lemma confirmVenue_part id acc nm e : partX (confirmVenue id acc nm) e (fun es o e' =>
  quiet es /\ e' = e /\ exists acc', o = inl acc'
    /\ (snd (fst acc') = true -> snd acc' = [] ->
        snd (fst acc) = true /\ snd acc = [] /\ no_managed_orders e id nm es)).
Proof.
  destruct nm as [name market], acc as [[orders confirmed] failures]. unfold confirmVenue.
  apply partX_get_bind. destruct (clientOf e name id) as [client|] eqn:Ec.
  2:{ apply partX_ret. split_and!; [constructor|done|]. eexists. by split. }
  apply partX_act_bind. intros r. apply partX_ret. split_and!; [by repeat constructor|done|].
  eexists. split; [done|]. destruct r as [l|err]; simpl; [|done]. intros Hc Hf.
  apply andb_true_iff in Hc as [-> Hm]. split_and!; [done|done|].
  exists client, l. split_and!; [done|left|]. apply Nat.eqb_eq in Hm. by apply nil_length_inv.
Qed.

Lemma confirm_all id nms acc e : partX (foldX (confirmVenue id) nms acc) e (fun es o e' =>
  quiet es /\ e' = e /\ exists acc', o = inl acc'
    /\ (snd (fst acc') = true -> snd acc' = [] ->
        snd (fst acc) = true /\ snd acc = []
        /\ forall nm, nm ∈ nms -> no_managed_orders e id nm es)).
Proof.
  revert acc. induction nms as [|nm nms IH]; intros acc; cbn [foldX].
  - apply partX_ret. split_and!; [constructor|done|]. exists acc. split; [done|].
    intros ? ?. split_and!; [done|done|]. by intros nm ?%elem_of_nil.
  - eapply partX_bind; [apply confirmVenue_part| |].
    + intros es acc1 e1 (Hq & -> & acc' & [= <-] & Hacc). eapply partX_mono; [apply IH|].
      intros es' o e2 (Hq' & -> & acc2 & -> & Hacc2). split_and!; [by apply quiet_app|done|].
      exists acc2. split; [done|]. intros H3 H4. destruct (Hacc2 H3 H4) as (H5 & H6 & Hall).
      destruct (Hacc H5 H6) as (H7 & H8 & (c & l & G1 & G2 & G3)). split_and!; [done|done|].
      intros nm' [->|Hin]%elem_of_cons.
      * exists c, l. split_and!; [done|apply elem_of_app; by left|done].
      * destruct (Hall nm' Hin) as (c' & l' & G1' & G2' & G3'). exists c', l'.
        split_and!; [done|apply elem_of_app; by right|done].
    + by intros es m e' (_ & _ & ? & ? & _).
Qed.

(** A stop that is applied ends with the confirmation of every traded market. *)
Definition confirmed_after e (i : InstrumentConfig) (es : trace) : Prop :=
  exists es1 es2, es = es1 ++ es2 /\ quiet es2
    /\ forall nm, nm ∈ tradedMarkets (cfg e) (ID i) -> no_managed_orders e (ID i) nm es2.

Lemma confirmation_part i e : partX (instrumentCancellationConfirmed i) e (fun es o e' =>
  quiet es /\ e' = e /\ exists x, o = inl x
    /\ (snd (fst x) = true -> snd x = None ->
        forall nm, nm ∈ tradedMarkets (cfg e) (ID i) -> no_managed_orders e (ID i) nm es)).
Proof.
  unfold instrumentCancellationConfirmed. apply partX_get_bind.
  eapply partX_bind; [apply confirm_all| |].
  - intros es acc e1 (Hq & -> & acc' & [= <-] & Hacc).
    destruct acc as [[orders confirmed] failures]. apply partX_ret. rewrite app_nil_r.
    split_and!; [done|done|]. eexists. split; [done|]. simpl in Hacc.
    destruct failures as [|f fs]; simpl; [|done]. intros Hc _. by apply Hacc.
  - by intros es m e' (_ & _ & ? & ? & _).
Qed.

Lemma no_managed_stable e e' id nm es : stable e e' ->
  no_managed_orders e' id nm es -> no_managed_orders e id nm es.
Proof.
  intros Hs (c & l & Hc & Hrest). exists c, l. split; [|done]. revert Hc. unfold clientOf.
  by rewrite (st_venues _ _ Hs).
Qed.

Lemma cancelInstrument_stable i e : partX (cancelInstrument i) e (fun _ _ e' => stable e e').
Proof.
  eapply partX_mono; [apply okX_part, (cancelInstrument_runs e i (fun _ => False)); reflexivity|].
  by intros es o e' [_ Hs].
Qed.

Hint Resolve publishPaused_runs : runs.

(** What follows the decision: reports only. *)
Lemma emergency_tail {A} (c : X (Engine O) A) e : runs quiet stable c e ->
  partX c e (fun es _ e' => quiet es /\ pauseApplied e' = pauseApplied e /\ paused e' = paused e).
Proof.
  intros Hc. eapply partX_mono; [apply okX_part, Hc|]. intros es o e' [Hq Hs].
  split_and!; [done|by rewrite (st_applied _ _ Hs)|by rewrite (st_paused _ _ Hs)].
Qed.

Definition stopped e i es e' : Prop :=
  paused e' = paused e
  /\ (pauseApplied e' = pauseApplied e
      \/ pauseApplied e' = {[ID i]} ∪ pauseApplied e /\ confirmed_after e i es).

Lemma stable_stopped e e' i es : stable e e' -> stopped e i es e'.
Proof. intros Hs. split; [by rewrite (st_paused _ _ Hs)|left; by rewrite (st_applied _ _ Hs)]. Qed.

(** The confirmation, unless the cancellation failed already. *)
Lemma confirm_unless_part i cancelErr e e1 : stable e e1 ->
  partX (match cancelErr with
         | Some err => mret (∅, false, Some err)
         | None => instrumentCancellationConfirmed i
         end : X (Engine O) (gmap string (list Order) * bool * option error)) e1
    (fun es o e2 => stable e e2 /\ quiet es
    /\ exists x, o = inl x /\ (snd (fst x) = true -> snd x = None ->
       forall nm, nm ∈ tradedMarkets (cfg e) (ID i) -> no_managed_orders e (ID i) nm es)).
Proof.
  intros Hs1. destruct cancelErr as [err|].
  - apply partX_ret. split_and!; [done|constructor|]. eexists. by split.
  - eapply partX_mono; [apply confirmation_part|]. intros es o e2 (Hq & -> & x & -> & Hx).
    split_and!; [done|done|]. exists x. split; [done|].
    intros H3 H4 nm Hnm. eapply no_managed_stable; [exact Hs1|]. apply Hx; [done|done|].
    by rewrite (st_cfg _ _ Hs1).
Qed.

Lemma emergencyPause_part i state failures e :
  partX (emergencyPause i state failures) e (fun es _ e' => stopped e i es e').
Proof.
  unfold emergencyPause. eapply partX_bind; [apply cancelInstrument_stable| |].
  2:{ intros es m e' Hs. by apply stable_stopped. }
  intros es0 cancelErr e1 Hs1. eapply partX_bind; [exact (confirm_unless_part i cancelErr e e1 Hs1)| |].
  2:{ by intros es m e2 (_ & _ & ? & ? & _). }
  intros es1 [[orders confirmed] err] e2 (Hs2 & Hq1 & x & [= <-] & Hconf). simpl in Hconf.
  assert (Hquit : forall fs, partX (publishPaused i (errorString err) orders ;; mret (fs : list string)) e2
      (fun es _ e' => stopped e i (es0 ++ es1 ++ es) e')).
  { intros fs. eapply partX_mono; [apply emergency_tail; go|].
    intros es o e' (_ & Ha & Hp).
    split; [by rewrite Hp, (st_paused _ _ Hs2)|left; by rewrite Ha, (st_applied _ _ Hs2)]. }
  destruct err as [err|]; [exact (Hquit _)|]. destruct confirmed; [|exact (Hquit _)].
  refine (partX_mono _ _ _ _ (emergency_tail (auditX "instrument_paused" (pauseData i state false) ;;
    publishPaused i (errorString None) orders ;; mret failures)
    (set_pauseApplied ({[ID i]} ∪ pauseApplied e2) e2) _) _); [go|].
  intros es o e' (Hq & Ha & Hp). split; [rewrite Hp; apply (st_paused _ _ Hs2)|]. right.
  split; [rewrite Ha; simpl; by rewrite (st_applied _ _ Hs2)|].
  exists es0, (es1 ++ es). split_and!; [done|by apply quiet_app|].
  intros nm Hnm. destruct (Hconf eq_refl eq_refl nm Hnm) as (c & l & G1 & G2 & G3).
  exists c, l. split_and!; [done|apply elem_of_app; by left|done].
Qed.

Lemma controlInstrument_part requests failures i state e :
  requests !! ID i = Some state -> Reason state = ReasonEmergencyCancel -> ID i ∉ pauseApplied e ->
  partX (controlInstrument requests failures i) e (fun es _ e' =>
    stopped (set_paused (<[ID i := state]> (paused e)) e) i es e').
Proof.
  intros Hr He Ha. unfold controlInstrument. rewrite Hr.
  eapply (partX_bind _ _ _ (fun es o e' => es = [] /\ (exists u, o = inl u)
    /\ e' = set_paused (<[ID i := state]> (paused e)) e)); 
    [split; [done|split; [by exists tt|done]]| |].
  2:{ by intros es m e' (_ & [? ?] & _). }
  intros es u e' (-> & _ & ->). apply partX_get_bind. rewrite He. simpl negb.
  rewrite bool_decide_eq_false_2 by exact Ha. apply emergencyPause_part.
Qed.
End Emergency.

(** ** Claims *)

(** Each write of the events is a cancellation at a traded market under its lease. *)
Definition cancels_only {O} (e : Engine O) (es : trace) : Prop :=
  forall es1 w es2, es = es1 ++ w :: es2 -> is_write w = true ->
    placed_by w = []
    /\ exists venueName instrumentID market client generation,
         traded e venueName instrumentID market client /\ at_client (Name client) w
         /\ fenced e (marketLeaseKey venueName instrumentID market) generation
              (fun x => x ∈ es1) (last es1).

Lemma disciplined_cancels {O} (e : Engine O) es :
  disciplined (cancel_rule e) (fun _ => False) None es -> cancels_only e es.
Proof.
  intros Hd es1 w es2 -> Ew. apply disciplined_at in Hd; [|apply _].
  eapply (d_mono (Φ := cancel_rule e)) in Hd; [exact (Hd Ew)| |right; reflexivity].
  by intros y [[]|Hy].
Qed.

Section Claims.
Context `{HttpRequests} `{MapRange} `{SliceSort} `{Schedule}.
Implicit Types e : Engine Oracle.Oracle.

(** Applying the operator controls, cancelling one market and shutting down return
    whatever the environment answers, and all they write are cancellations at enabled,
    traded markets, each directly after a validation of the lease of its market that
    the engine acquired before in the same operation. *)
Theorem stops_only_cancel env past e instrumentID venueName operation :
  operation ∈ [ApplyControls; Shutdown; CancelMarket instrumentID venueName] ->
  exists es o e', run env past (operation e) = (es, Ret (o, e')) /\ cancels_only e es.
Proof.
  intros Hop. assert (Hok : runs (disciplined (cancel_rule e) (fun _ => False) None) rooted operation e).
  { rewrite !elem_of_cons in Hop. destruct Hop as [->|[->|[->|?%elem_of_nil]]]; [| | |done].
    - by apply ApplyControls_runs.
    - by apply runs_rooted, Shutdown_runs.
    - by apply runs_rooted, CancelMarket_runs. }
  destruct (ok_run _ _ env past Hok) as (es & [o e'] & Hrun & Hd & _).
  exists es, o, e'. split; [done|by apply disciplined_cancels].
Qed.

(** The preflight, the retry of blocked instruments and the refresh of the trading
    rules return whatever the environment answers and write to no exchange. *)
Theorem preflight_writes_nothing env past e :
  (exists es o e', run env past (Prepare e) = (es, Ret (o, e')) /\ quiet es)
  /\ (exists es o e', run env past (RetryBlocked e) = (es, Ret (o, e')) /\ quiet es)
  /\ (exists es o e', run env past (RefreshMarketRules e) = (es, Ret (o, e')) /\ quiet es).
Proof.
  assert (Hq : forall A (c : X (Engine Oracle.Oracle) A), runs quiet attached c e ->
    exists es o e', run env past (c e) = (es, Ret (o, e')) /\ quiet es).
  { intros A c Hc. destruct (ok_run _ _ env past Hc) as (es & [o e'] & Hrun & Hq & _). eauto. }
  split_and!; apply Hq; [apply Prepare_runs|apply RetryBlocked_runs|apply RefreshMarketRules_runs].
Qed.

(** C8: an emergency stop that is not applied yet closes the instrument at once, and
    counts as applied only after every market the engine trades it on has reported,
    after the last write of the operation, that no managed order is left; otherwise it
    stays to be retried. *)
Theorem emergency_stop_confirmed env past e requests failures i state :
  requests !! ID i = Some state -> Reason state = ReasonEmergencyCancel -> ID i ∉ pauseApplied e ->
  exists es o e',
    run env past (controlInstrument requests failures i e) = (es, Ret (o, e'))
    /\ paused e' !! ID i = Some state
    /\ (ID i ∈ pauseApplied e' -> exists es1 es2, es = es1 ++ es2 /\ quiet es2
        /\ forall venueName market, (venueName, market) ∈ tradedMarkets (cfg e) (ID i) ->
             exists client orders, clientOf e venueName (ID i) = Some client
               /\ MkEvent (Call (Name client) (COpenOrders (market_Symbol market))) (inl orders) ∈ es2
               /\ ManagedOrdersFor client orders = []).
Proof.
  intros Hr He Ha.
  pose proof (okX_partX _ _ _ _ (controlInstrument_runs e requests failures i (fun _ => False) e
    (reflexivity e)) (controlInstrument_part requests failures i state e Hr He Ha)) as Hok.
  destruct (ok_run _ _ env past Hok) as (es & x & Hrun & _ & Hp & Hstop).
  destruct x as [o e']. simpl in *. exists es, o, e'. split_and!; [done| |].
  - by rewrite Hp, lookup_insert_eq.
  - intros Hin. destruct Hstop as [E|[_ (es1 & es2 & -> & Hq & Hall)]]; [by rewrite E in Hin|].
    exists es1, es2. split_and!; [done|done|]. intros name market Hnm.
    exact (Hall (name, market) Hnm).
Qed.

(** Once a pause is applied, every later request on the instrument is only
    remembered: an emergency cancellation that follows a manual pause (or any applied
    stop) performs no action at all, so the resting orders the manual pause retained
    stay on the exchange. *)
Theorem emergency_after_pause_ignored env past e requests failures i state :
  requests !! ID i = Some state -> ID i ∈ pauseApplied e ->
  run env past (controlInstrument requests failures i e)
  = ([], Ret (inl failures, set_paused (<[ID i := state]> (paused e)) e)).
Proof.
  intros Hr Ha. unfold controlInstrument. rewrite Hr.
  change (run env past ((if bool_decide (ID i ∈ pauseApplied e) then mret failures
    else if negb (String.eqb (Reason state) ReasonEmergencyCancel)
    then softPause i state ;; mret failures else emergencyPause i state failures)
    (set_paused (<[ID i := state]> (paused e)) e))
  = ([], Ret (inl failures, set_paused (<[ID i := state]> (paused e)) e))).
  by rewrite bool_decide_eq_true_2.
Qed.
End Claims.

(** Hot application of published parameters: [ApplyParameters] after a plan of the
    configdiff component that is not structural. *)

(** ** The instrument with an id *)

Lemma foldl_insert_map (l : list InstrumentConfig) (m : gmap string InstrumentConfig) :
  foldl (fun m v => <[ID v := v]> m) m l = list_to_map (reverse (map (fun i => (ID i, i)) l)) ∪ m.
Proof.
  revert m. induction l as [|i l IH]; intros m; [symmetry; apply (left_id_L ∅ (∪))|].
  cbn [foldl map]. rewrite IH, reverse_cons, list_to_map_app. rewrite <- (assoc_L (∪)). f_equal. simpl.
  by rewrite insert_empty, insert_union_singleton_l.
Qed.

Lemma instrumentByID_map l id : instrumentByID l id = instrumentMap l !! id.
Proof. unfold instrumentByID, instrumentMap. by rewrite foldl_insert_map, (right_id_L ∅ (∪)). Qed.

(** ** What a hot application installs *)

(** The parameters of [n] on the wiring of [i]. *)
Definition installed (i n i' : InstrumentConfig) : Prop :=
  i' = MkInstrumentConfig (ID i) (inst_Base i) (inst_Quote i) (Reference i)
         (guardedStrategy (Strategy n)) (TradeSimulation n).

Lemma applyInstrument_ID next i : ID (applyInstrument next i) = ID i.
Proof. unfold applyInstrument. by destruct (instrumentByID _ _). Qed.

Lemma applyInstrument_idem next i : applyInstrument next (applyInstrument next i) = applyInstrument next i.
Proof.
  unfold applyInstrument at 1. rewrite applyInstrument_ID. unfold applyInstrument.
  by destruct (instrumentByID (Instruments next) (ID i)).
Qed.

Lemma positive_or_idem v d : positive_or v (positive_or v d) = positive_or v d.
Proof. unfold positive_or. by destruct (0 <? v). Qed.

Section Apply.
Context {O : Type} `{MapRange} `{SliceSort}.
Implicit Types e : Engine O.

(** Applying a configuration whose plan against the active one is not structural
    gives every instrument of the running engine the published strategy (with the
    guardrails of a full build) and trade simulation and keeps its tokens and price
    path; the instruments stay in their order, the mode, RPC, audit and heartbeat
    settings and the markets with their learned rules are untouched, nothing of the
    engine but its configuration changes, and applying again changes nothing. *)
Theorem hot_apply_installs (old next : Config) e :
  Structural (Configdiff.Build (Some old) next) = false ->
  (forall i, i ∈ Instruments (cfg e) -> exists o, instrumentMap (Instruments old) !! ID i = Some o) ->
  let e' := ApplyParameters next e in
  Forall2 (fun i i' => exists n, instrumentMap (Instruments next) !! ID i = Some n /\ installed i n i')
    (Instruments (cfg e)) (Instruments (cfg e'))
  /\ cfg_Mode (cfg e') = cfg_Mode (cfg e) /\ Venues (cfg e') = Venues (cfg e)
  /\ same_wiring (cfg e) (cfg e')
  /\ e' = set_cfg (cfg e') e
  /\ ApplyParameters next e' = e'.
Proof.
  intros Hs Hold e'. apply Build_flat in Hs as (Hf & _ & _). apply buildDiff_flat in Hf.
  split_and!; try done.
  - subst e'. simpl. apply Forall2_fmap_r, Forall_Forall2_diag, Forall_forall. intros i Hi.
    destruct (Hold i Hi) as [o Ho]. destruct (ss_kept _ _ Hf _ _ Ho) as (n & Hn & _).
    exists n. split; [done|]. unfold applyInstrument, installed. by rewrite instrumentByID_map, Hn.
  - subst e'. unfold ApplyParameters. destruct e. simpl. unfold set_cfg. simpl.
    rewrite !positive_or_idem, map_map.
    rewrite (map_ext (fun i => applyInstrument next (applyInstrument next i)) (applyInstrument next)
      (applyInstrument_idem next)). done.
Qed.

(** The thresholds of the fault machine are an exception: a plan treats a change
    of the market failure and recovery thresholds as a hot change, the engine reports
    them in its configuration after a hot application, but the fault machine keeps
    counting with the thresholds it was built with. *)
Theorem hot_thresholds_ignored (c next : Config) (o : option O) clients store owner fresh now :
  0 < MarketFailureThreshold c -> 0 < MarketFailureThreshold next ->
  let e' := ApplyParameters next (NewWithOwner c o clients store owner fresh now) in
  MarketFailureThreshold (cfg e') = MarketFailureThreshold next
  /\ failureThreshold (faults e') = MarketFailureThreshold c.
Proof.
  intros Hc Hn. simpl. unfold positive_or. rewrite (proj2 (Z.ltb_lt _ _) Hn). split; [done|].
  destruct (MarketFailureThreshold c <? 1) eqn:E; [apply Z.ltb_lt in E; lia|done].
Qed.
End Apply.

(** ** Witnesses *)

#[local] Instance ex_range : MapRange := sorted_range.
#[local] Instance ex_sort : SliceSort := merge_slice_sort.

(** The configuration [ex_live] with another failure threshold. *)
Definition ex_threshold (n : Z) : Config :=
  MkConfig ModeLive 1000 "" 0 0 "/tmp/heartbeat" 15 n 3 15 120 4 300
    (MkRPCConfig ["https://bsc"] 56 5000) [ex_instrument ex_strategy] {["binance" := ex_venue]}.

Definition ex_running : Engine unit := NewWithOwner (ex_threshold 3) None ∅ None "node-1" "" 0.

(** The plan calls a new threshold a hot change. *)
Example threshold_is_hot :
  let plan := Configdiff.Build (Some (ex_threshold 3)) (ex_threshold 9) in
  Structural plan = false /\ length (HotChanges plan) = 1%nat.
Proof. vm_compute. by split. Qed.

Lemma hot_apply_installs_witness :
  Structural (Configdiff.Build (Some (ex_threshold 3)) (ex_threshold 9)) = false
  /\ ApplyParameters (ex_threshold 9) (ApplyParameters (ex_threshold 9) ex_running)
     = ApplyParameters (ex_threshold 9) ex_running.
Proof.
  split; [vm_compute; reflexivity|].
  refine (proj2 (proj2 (proj2 (proj2 (proj2 (hot_apply_installs (ex_threshold 3) (ex_threshold 9)
    ex_running _ _)))))); [vm_compute; reflexivity|].
  intros i Hi. exists (ex_instrument ex_strategy). apply list_elem_of_singleton in Hi as ->. reflexivity.
Defined.

Lemma hot_thresholds_ignored_witness :
  MarketFailureThreshold (cfg (ApplyParameters (ex_threshold 9) ex_running)) = 9
  /\ failureThreshold (faults (ApplyParameters (ex_threshold 9) ex_running)) = 3.
Proof. apply (hot_thresholds_ignored (ex_threshold 3) (ex_threshold 9)); reflexivity. Defined.
