(* ===== verification/AccountLocks.v ===== *)
(** The workers of [RunOnce] and their account locks (src/internal/engine/engine.go):
    a pool of goroutines that take instruments from a channel and hold the mutexes of
    the instrument's accounts while its cycle runs.

    A state of the pool is the jobs not yet taken, what every worker is doing, and the
    jobs completed, in order.  [work] is the next step of one worker, absent when it
    must wait; a run interleaves the steps of the workers arbitrarily. *)
From S2P Require Import Prelude Decimal Domain Config Engine EngineControl.

Open Scope string_scope.
Open Scope list_scope.
Open Scope Z_scope.

(** ** The pool *)

(** The mutexes held are listed last locked first, the order of the deferred unlock. *)
Inductive worker :=
  | Idle
  | Locking (index : nat) (held todo : list string)
  | Running (index : nat) (held : list string)
  | Unlocking (index : nat) (held : list string).

Record Pool := MkPool {
  queue : list nat;
  workers : list worker;
  finished : list nat
}.

Definition held_by (w : worker) : list string :=
  match w with
  | Idle => []
  | Locking _ held _ | Running _ held | Unlocking _ held => held
  end.

Definition held_keys (ws : list worker) : list string := concat (map held_by ws).

Definition startPool (jobs limit : nat) : Pool := MkPool (seq 0 jobs) (replicate limit Idle) [].

Definition becomes (p : Pool) (k : nat) (w : worker) : Pool :=
  MkPool (queue p) (<[k := w]> (workers p)) (finished p).

(** The next step of worker [k]; [locks] are the mutexes of a job's instrument. *)
Definition work (locks : nat -> list string) (k : nat) (p : Pool) : option Pool :=
  w ← workers p !! k;
  match w with
  | Idle =>
      match queue p with
      | [] => None
      | i :: q => Some (MkPool q (<[k := Locking i [] (locks i)]> (workers p)) (finished p))
      end
  | Locking i held (key :: todo) =>
      if bool_decide (key ∈ held_keys (workers p)) then None
      else Some (becomes p k (Locking i (key :: held) todo))
  | Locking i held [] => Some (becomes p k (Running i held))
  | Running i held => Some (becomes p k (Unlocking i held))
  | Unlocking i (key :: held) => Some (becomes p k (Unlocking i held))
  | Unlocking i [] => Some (MkPool (queue p) (<[k := Idle]> (workers p)) (finished p ++ [i]))
  end.

(** The locks of the instruments of an engine, by index. *)
Definition instrumentLocks {O} (e : Engine O) (index : nat) : list string :=
  match Instruments (cfg e) !! index with
  | Some i => default [] (instrumentAccountLocks e !! ID i)
  | None => []
  end.

Section Pool.
Context (locks : nat -> list string).

Definition step (p p' : Pool) : Prop := exists k, work locks k p = Some p'.

(** All jobs done, all workers ended. *)
Definition complete (p : Pool) : Prop := queue p = [] /\ Forall (fun w => w = Idle) (workers p).

(** ** The invariant *)

Definition worker_ok (w : worker) : Prop :=
  match w with
  | Idle => True
  | Locking i held todo => reverse held ++ todo = locks i
  | Running i held => reverse held = locks i
  | Unlocking i held => reverse held `prefix_of` locks i
  end.

Definition index_of (w : worker) : option nat :=
  match w with
  | Idle => None
  | Locking i _ _ | Running i _ | Unlocking i _ => Some i
  end.

Record pool_ok (jobs : nat) (p : Pool) : Prop := MkPoolOk {
  po_exclusive : NoDup (held_keys (workers p));
  po_workers : Forall worker_ok (workers p);
  po_jobs : queue p ++ omap index_of (workers p) ++ finished p ≡ₚ seq 0 jobs
}.

Lemma held_keys_split ws k w : ws !! k = Some w ->
  exists rest, held_keys ws ≡ₚ held_by w ++ rest
    /\ forall w', held_keys (<[k := w']> ws) ≡ₚ held_by w' ++ rest.
Proof.
  intros Hk. apply take_drop_middle in Hk as E. exists (held_keys (take k ws ++ drop (S k) ws)).
  assert (Hl : (k < length ws)%nat) by by eapply lookup_lt_Some.
  assert (Hp : forall w', held_keys (take k ws ++ w' :: drop (S k) ws)
    ≡ₚ held_by w' ++ held_keys (take k ws ++ drop (S k) ws)).
  { intros w'. unfold held_keys. rewrite !map_app, !concat_app. simpl.
    by rewrite Permutation_app_swap_app. }
  split; [by rewrite <- E at 1|]. intros w'. by rewrite insert_take_drop.
Qed.

Lemma omap_split ws k w : ws !! k = Some w ->
  exists rest, omap index_of ws ≡ₚ option_list (index_of w) ++ rest
    /\ forall w', omap index_of (<[k := w']> ws) ≡ₚ option_list (index_of w') ++ rest.
Proof.
  intros Hk. apply take_drop_middle in Hk as E.
  exists (omap index_of (take k ws ++ drop (S k) ws)).
  assert (Hl : (k < length ws)%nat) by by eapply lookup_lt_Some.
  assert (Hp : forall w', omap index_of (take k ws ++ w' :: drop (S k) ws)
    ≡ₚ option_list (index_of w') ++ omap index_of (take k ws ++ drop (S k) ws)).
  { intros w'. rewrite !omap_app. simpl. destruct (index_of w'); simpl; [|done].
    by rewrite Permutation_middle. }
  split; [by rewrite <- E at 1|]. intros w'. by rewrite insert_take_drop.
Qed.

(** A step of a worker that changes only that worker. *)
Lemma becomes_ok jobs p k w w' : pool_ok jobs p -> workers p !! k = Some w ->
  worker_ok w' -> index_of w' = index_of w ->
  (NoDup (held_keys (workers p)) -> forall rest, held_keys (workers p) ≡ₚ held_by w ++ rest ->
     NoDup (held_by w' ++ rest)) ->
  pool_ok jobs (becomes p k w').
Proof.
  intros [Hn Hw Hj] Hk Ok Hi Hnew. destruct (held_keys_split _ _ _ Hk) as (rest & E & E').
  destruct (omap_split _ _ _ Hk) as (rest' & F & F'). constructor; simpl.
  - rewrite E'. by apply Hnew.
  - by apply Forall_insert.
  - by rewrite F', Hi, <- F.
Qed.

Lemma released_ok (held : list string) key rest l :
  l ≡ₚ (key :: held) ++ rest -> NoDup l -> NoDup (held ++ rest).
Proof. intros ->. by inversion 1. Qed.

Lemma step_ok jobs p p' : pool_ok jobs p -> step p p' -> pool_ok jobs p'.
Proof.
  intros Hok [k Hw]. unfold work in Hw.
  destruct (workers p !! k) as [w|] eqn:Hk; simpl in Hw; [|done].
  pose proof (proj1 (Forall_lookup _ _) (po_workers _ _ Hok) _ _ Hk) as Hwk.
  assert (Hsame : forall w', held_by w' = held_by w ->
    NoDup (held_keys (workers p)) -> forall rest, held_keys (workers p) ≡ₚ held_by w ++ rest ->
    NoDup (held_by w' ++ rest)).
  { intros w' E Hn rest Hr. rewrite E, <- Hr. exact Hn. }
  destruct w as [|i held todo|i held|i held].
  - destruct (queue p) as [|i q] eqn:Eq; simplify_eq/=.
    destruct (held_keys_split _ _ _ Hk) as (rest & E & E').
    destruct (omap_split _ _ _ Hk) as (rest' & F & F').
    destruct Hok as [Hn Ho Hj]. constructor; simpl.
    + rewrite E'. simpl. by rewrite E in Hn.
    + by apply Forall_insert.
    + rewrite F'. simpl. rewrite Eq, F in Hj. simpl in Hj. by rewrite <- Permutation_middle.
  - destruct todo as [|key todo]; simplify_eq/=.
    + eapply becomes_ok; [done|exact Hk|by rewrite app_nil_r in Hwk|done|by apply Hsame].
    + case_bool_decide as Hin; simplify_eq/=. eapply becomes_ok; [done|exact Hk| |done|].
      * simpl. rewrite reverse_cons, <- app_assoc. exact Hwk.
      * intros Hn rest Hr. simpl. constructor; [|by rewrite Hr in Hn]. intros Hin'. apply Hin.
        by rewrite Hr.
  - simplify_eq/=. eapply becomes_ok; [done|exact Hk| |done|by apply Hsame].
    simpl in *. by rewrite Hwk.
  - destruct held as [|key held]; simplify_eq/=.
    + destruct (held_keys_split _ _ _ Hk) as (rest & E & E').
      destruct (omap_split _ _ _ Hk) as (rest' & F & F').
      destruct Hok as [Hn Ho Hj]. constructor; simpl.
      * rewrite E'. simpl. by rewrite E in Hn.
      * by apply Forall_insert.
      * rewrite F'. simpl. rewrite F in Hj. simpl in Hj. rewrite <- Hj.
        rewrite (assoc_L (++) rest'), (Permutation_app_comm _ [i]). simpl. by rewrite Permutation_middle.
    + eapply becomes_ok; [done|exact Hk| |done|].
      * simpl in *. rewrite reverse_cons in Hwk. by eapply prefix_app_l.
      * intros Hn rest Hr. by eapply released_ok.
Qed.

Lemma start_ok jobs limit : pool_ok jobs (startPool jobs limit).
Proof.
  constructor; simpl.
  - assert (E : held_keys (replicate limit Idle) = []) by by induction limit.
    rewrite E. constructor.
  - by apply Forall_replicate.
  - assert (E : omap index_of (replicate limit Idle) = []) by by induction limit.
    by rewrite E, !app_nil_r.
Qed.

(** ** Every run ends *)

Definition job_cost (index : nat) : nat := 2 * length (locks index) + 4.

Definition worker_cost (w : worker) : nat :=
  match w with
  | Idle => 0
  | Locking _ held todo => 2 * length todo + length held + 3
  | Running _ held => length held + 2
  | Unlocking _ held => length held + 1
  end.

(** The steps left. *)
Definition cost (p : Pool) : nat :=
  sum_list (map job_cost (queue p)) + sum_list (map worker_cost (workers p)).

Lemma sum_insert (f : worker -> nat) ws k w w' : ws !! k = Some w ->
  (sum_list (map f (<[k := w']> ws)) + f w = sum_list (map f ws) + f w')%nat.
Proof.
  revert k. induction ws as [|x ws IH]; intros [|k] Hk; simplify_eq/=; [lia|].
  specialize (IH _ Hk). lia.
Qed.

(** Each step of a worker does one unit of the work left. *)
Lemma step_cost p p' : step p p' -> cost p = S (cost p').
Proof.
  intros [k Hw]. unfold work in Hw.
  destruct (workers p !! k) as [w|] eqn:Hk; simpl in Hw; [|done]. unfold cost.
  pose proof (fun w' => sum_insert worker_cost _ _ _ w' Hk) as Hs.
  destruct w as [|i held [|key todo]|i held|i [|key held]]; simplify_eq/=.
  - destruct (queue p) as [|i q]; simplify_eq/=. specialize (Hs (Locking i [] (locks i))).
    unfold job_cost. simpl in *. lia.
  - specialize (Hs (Running i held)). simpl in *. lia.
  - case_bool_decide; simplify_eq/=. specialize (Hs (Locking i (key :: held) todo)). simpl in *. lia.
  - specialize (Hs (Unlocking i held)). simpl in *. lia.
  - specialize (Hs Idle). simpl in *. lia.
  - specialize (Hs (Unlocking i held)). simpl in *. lia.
Qed.

(** ** No deadlock *)

Abbreviation before := (fun a b => string_less a b = true).
Context (ordered : forall i, StronglySorted before (locks i)).

Definition wants (w : worker) : option string :=
  match w with Locking _ _ (key :: _) => Some key | _ => None end.

Lemma greatest (l : list string) : l <> [] ->
  exists m, m ∈ l /\ forall x, x ∈ l -> string_less m x = false.
Proof.
  induction l as [|a l IH]; [done|]. intros _. destruct l as [|b l].
  - exists a. split; [left|]. intros x ->%list_elem_of_singleton. apply string_less_false, string_leb_refl.
  - destruct IH as (m & Hm & Hmax); [done|]. destruct (string_less m a) eqn:E.
    + exists a. split; [left|]. intros x [->|Hx]%elem_of_cons.
      * apply string_less_false, string_leb_refl.
      * apply (string_less_trans x m a); [by apply Hmax|by apply string_less_asym].
    + exists m. split; [by right|]. intros x [->|Hx]%elem_of_cons; [done|by apply Hmax].
Qed.

Lemma sorted_app_before (l1 l2 : list string) a b :
  StronglySorted before (l1 ++ l2) -> a ∈ l1 -> b ∈ l2 -> string_less a b = true.
Proof.
  induction l1 as [|x l1 IH]; simpl; intros Hs Ha Hb; [by apply elem_of_nil in Ha|].
  inversion Hs as [|? ? Hs' Hall]; subst. apply elem_of_cons in Ha as [->|Ha]; [|by apply IH].
  rewrite Forall_forall in Hall. apply Hall, elem_of_app. by right.
Qed.

Lemma stuck_worker p k w : (forall k', work locks k' p = None) -> workers p !! k = Some w ->
  (w = Idle /\ queue p = [])
  \/ exists i held key todo, w = Locking i held (key :: todo) /\ key ∈ held_keys (workers p).
Proof.
  intros Hstuck Hk. specialize (Hstuck k). unfold work in Hstuck. rewrite Hk in Hstuck. simpl in Hstuck.
  destruct w as [|i held [|key todo]|i held|i [|key held]]; try done.
  - destruct (queue p); [by left|done].
  - case_bool_decide; [|done]. right. eauto 8.
Qed.

(** A pool in which no worker can move is complete. *)
Lemma stuck_complete jobs p : pool_ok jobs p -> workers p <> [] ->
  (forall k, work locks k p = None) -> complete p.
Proof.
  intros Hok Hne Hstuck.
  assert (Hin : forall w, w ∈ workers p -> (w = Idle /\ queue p = [])
    \/ exists i held key todo, w = Locking i held (key :: todo) /\ key ∈ held_keys (workers p)).
  { intros w [k Hk]%list_elem_of_lookup. by eapply stuck_worker. }
  destruct (omap wants (workers p)) as [|x l] eqn:E.
  - assert (Hidle : forall w, w ∈ workers p -> w = Idle /\ queue p = []).
    { intros w Hw. destruct (Hin w Hw) as [|(i & held & key & todo & -> & _)]; [done|].
      assert (H : key ∈ omap wants (workers p)) by (apply list_elem_of_omap; by eexists).
      rewrite E in H. by apply elem_of_nil in H. }
    split; [|apply Forall_forall; intros w Hw; by apply Hidle].
    destruct (workers p) as [|w ws]; [done|]. apply (Hidle w). left.
  - exfalso. destruct (greatest (omap wants (workers p))) as (m & Hm & Hmax); [by rewrite E|].
    apply list_elem_of_omap in Hm as (w & Hw & Ew).
    destruct (Hin w Hw) as [[-> _]|(i & held & key & todo & -> & Hheld)]; [done|].
    simplify_eq/=. apply list_elem_of_In, in_concat in Hheld as (hs & Hhs & Hkey%list_elem_of_In).
    apply in_map_iff in Hhs as (w' & <- & Hw'). apply list_elem_of_In in Hw'.
    destruct (Hin w' Hw') as [[-> _]|(i' & held' & key' & todo' & -> & _)];
      [by apply elem_of_nil in Hkey|]. simpl in Hkey.
    assert (Hlt : string_less m key' = true).
    { pose proof (Forall_flip _ _ _ (po_workers _ _ Hok) Hw') as Hl. simpl in Hl.
      apply (sorted_app_before (reverse held') (key' :: todo')); [by rewrite Hl|by rewrite elem_of_reverse|left]. }
    rewrite Hmax in Hlt; [done|]. apply list_elem_of_omap. by eexists.
Qed.

Lemma step_length p p' : step p p' -> length (workers p') = length (workers p).
Proof.
  intros [k Hw]. unfold work in Hw.
  destruct (workers p !! k) as [w|] eqn:Hk; simpl in Hw; [|done].
  destruct w as [|i held [|key todo]|i held|i [|key held]]; try destruct (queue p); try case_bool_decide;
    simplify_eq/=; by rewrite length_insert.
Qed.

(** A worker that can move, if any. *)
Lemma can_move p : (exists p', step p p') \/ forall k, work locks k p = None.
Proof.
  destruct (decide (Forall (fun k => work locks k p = None) (seq 0 (length (workers p))))) as [Hf|Hf].
  - right. intros k. destruct (decide (k < length (workers p))%nat).
    + apply (Forall_flip _ _ k Hf), elem_of_seq. lia.
    + unfold work. by rewrite lookup_ge_None_2 by lia.
  - left. apply not_Forall_Exists in Hf; [|intros k; apply _].
    apply Exists_exists in Hf as (k & _ & Hk). destruct (work locks k p) as [p'|] eqn:E; [|done].
    by exists p', k.
Qed.
End Pool.

(** A given interleaving. *)
Fixpoint interleave (locks : nat -> list string) (ks : list nat) (p : Pool) : option Pool :=
  match ks with
  | [] => Some p
  | k :: ks' => work locks k p ≫= interleave locks ks'
  end.

Lemma interleave_rtc locks ks p p' : interleave locks ks p = Some p' -> rtc (step locks) p p'.
Proof.
  revert p. induction ks as [|k ks IH]; intros p; simpl; [intros [= <-]; constructor|].
  destruct (work locks k p) as [p1|] eqn:E; simpl; [|done]. intros H.
  eapply rtc_l; [by exists k|by apply IH].
Qed.

(** ** The locks of an engine *)

Lemma string_less_total a b : a <> b -> string_less b a = false -> string_less a b = true.
Proof.
  intros Hne H%string_less_false. destruct (string_less a b) eqn:E; [done|]. exfalso.
  apply string_less_false in E. apply Hne. by apply String.leb_antisym.
Qed.

Lemma strictly_sorted (l : list string) : NoDup l ->
  StronglySorted (fun a b => string_less b a = false) l ->
  StronglySorted (fun a b => string_less a b = true) l.
Proof.
  intros Hn Hs. induction Hs as [|a l _ IH Hall]; [constructor|].
  apply NoDup_cons in Hn as [Ha Hn]. constructor; [by apply IH|].
  apply Forall_forall. intros b Hb. rewrite Forall_forall in Hall.
  apply string_less_total; [by intros ->|by apply Hall].
Qed.

Section Engine.
Context `{MapRange} `{SliceSort} {O : Type}.
Implicit Types e : Engine O.

(** The locks an engine is built with are strictly ordered by their account keys. *)
Lemma built_ordered c id :
  StronglySorted (fun a b => string_less a b = true) (default [] (buildInstrumentAccountLocks c !! id)).
Proof.
  unfold buildInstrumentAccountLocks. rewrite lookup_fmap.
  destruct (accountKeys c !! id) as [keys|]; simpl; [|constructor]. apply strictly_sorted.
  - rewrite sort_slice_perm. apply NoDup_elements.
  - apply sort_slice_sorted; [apply string_less_asym|apply string_less_trans].
Qed.

Lemma engine_ordered c e index : instrumentAccountLocks e = buildInstrumentAccountLocks c ->
  StronglySorted (fun a b => string_less a b = true) (instrumentLocks e index).
Proof.
  intros E. unfold instrumentLocks. rewrite E. destruct (Instruments (cfg e) !! index); [|constructor].
  apply built_ordered.
Qed.

(** The pool of the cycle of an engine. *)
Definition cyclePool e : Pool :=
  let n := length (Instruments (cfg e)) in
  startPool n (Z.to_nat (workerLimit (MaxConcurrentInstruments (cfg e)) n)).

Lemma workerLimit_pos m n : 1 <= workerLimit m n.
Proof.
  unfold workerLimit. cbv zeta.
  repeat match goal with |- context[?a <? ?b] => destruct (Z.ltb_spec a b) end; lia.
Qed.

Lemma reachable_ok e p : rtc (step (instrumentLocks e)) (cyclePool e) p ->
  pool_ok (instrumentLocks e) (length (Instruments (cfg e))) p /\ workers p <> [].
Proof.
  assert (Hgen : forall p0 p, rtc (step (instrumentLocks e)) p0 p ->
    pool_ok (instrumentLocks e) (length (Instruments (cfg e))) p0 -> workers p0 <> [] ->
    pool_ok (instrumentLocks e) (length (Instruments (cfg e))) p /\ workers p <> []).
  { induction 1 as [|p0 p1 p2 Hs _ IH]; [done|]. intros Hok Hne. apply IH; [by eapply step_ok|].
    apply step_length in Hs. destruct (workers p0), (workers p1); done. }
  intros Hr. apply (Hgen _ _ Hr); [apply start_ok|]. unfold cyclePool, startPool. simpl.
  pose proof (workerLimit_pos (MaxConcurrentInstruments (cfg e)) (length (Instruments (cfg e)))).
  destruct (Z.to_nat _) eqn:E; [lia|done].
Qed.

(** C29: the workers of a cycle never deadlock on the account locks and always finish:
    however their steps interleave, a pool in which no worker can move has run every
    instrument exactly once, and a run of [n] steps has done [n] of the finitely many
    units of work of the cycle, so there is no infinite run. *)
Theorem workers_finish c e p : instrumentAccountLocks e = buildInstrumentAccountLocks c ->
  rtc (step (instrumentLocks e)) (cyclePool e) p ->
  ((exists p', step (instrumentLocks e) p p')
   \/ complete p /\ finished p ≡ₚ seq 0 (length (Instruments (cfg e))))
  /\ exists n, nsteps (step (instrumentLocks e)) n (cyclePool e) p
               /\ (n + cost (instrumentLocks e) p = cost (instrumentLocks e) (cyclePool e))%nat.
Proof.
  intros El Hr. destruct (reachable_ok _ _ Hr) as [Hok Hne]. split.
  - destruct (can_move (instrumentLocks e) p) as [|Hstuck]; [by left|]. right.
    pose proof (stuck_complete _ (fun i => engine_ordered _ _ i El) _ _ Hok Hne Hstuck) as [Hq Hidle].
    split; [done|]. pose proof (po_jobs _ _ _ Hok) as Hj. rewrite Hq in Hj.
    assert (E : omap index_of (workers p) = []).
    { clear -Hidle. induction Hidle as [|w ws -> _ IH]; [done|exact IH]. }
    by rewrite E in Hj.
  - apply rtc_nsteps in Hr as [n Hn]. exists n. split; [done|]. clear -Hn.
    induction Hn as [|n p0 p1 p2 Hs _ IH]; [done|]. apply step_cost in Hs. lia.
Qed.

(** The cycles that run at the same time belong to different instruments without a
    common exchange account. *)
Theorem running_cycles_disjoint e p k k' i j held held' :
  rtc (step (instrumentLocks e)) (cyclePool e) p ->
  workers p !! k = Some (Running i held) -> workers p !! k' = Some (Running j held') -> k <> k' ->
  i <> j /\ forall account, account ∈ instrumentLocks e i -> account ∉ instrumentLocks e j.
Proof.
  intros Hr Hk Hk' Hne. destruct (reachable_ok _ _ Hr) as [[Hx Hw Hj] _].
  destruct (held_keys_split _ _ _ Hk) as (rest & E & E').
  destruct (omap_split _ _ _ Hk) as (rest' & F & F').
  assert (Hk2 : <[k := Idle]> (workers p) !! k' = Some (Running j held'))
    by by rewrite list_lookup_insert_ne.
  destruct (held_keys_split _ _ _ Hk2) as (rest2 & E2 & _).
  destruct (omap_split _ _ _ Hk2) as (rest2' & F2 & _).
  rewrite E' in E2. rewrite F' in F2. simpl in *. split.
  - assert (Hn : NoDup (queue p ++ omap index_of (workers p) ++ finished p))
      by (rewrite Hj; apply NoDup_seq).
    rewrite F, F2 in Hn. intros ->. apply NoDup_app in Hn as (_ & _ & Hn). simpl in Hn.
    apply NoDup_cons in Hn as [Hn _]. apply Hn. left.
  - rewrite E, E2 in Hx. intros account Ha Ha'.
    assert (Hl : forall w, w ∈ workers p -> worker_ok (instrumentLocks e) w)
      by (intros w; by apply Forall_flip).
    pose proof (Hl _ (list_elem_of_lookup_2 _ _ _ Hk)) as H1.
    pose proof (Hl _ (list_elem_of_lookup_2 _ _ _ Hk')) as H2. simpl in H1, H2.
    rewrite <- H1, elem_of_reverse in Ha. rewrite <- H2, elem_of_reverse in Ha'.
    apply NoDup_app in Hx as (_ & Hd & _). apply (Hd account Ha), elem_of_app. by left.
Qed.
End Engine.
