(* ===== verification/Lease.v ===== *)
(** Market leases (src/internal/runtimeops/store.go): the Lua scripts of
    [AcquireMarketLease], [ValidateMarketLease] and [ReleaseMarketLease].

    The scripts run atomically on a Redis server.  The server is a parameter: the class
    [Redis] has the commands the scripts use, [RedisLaws] their documented behaviour
    (values vanish when their time to live has passed, [INCR] counts, commands touch
    their key only, a Lua number below [10^14] prints as its digits).  [memory] is one
    server with these laws.  Times are the server's, in milliseconds. *)
From S2P Require Import Prelude Decimal DecimalText Domain World.

Open Scope string_scope.
Open Scope list_scope.
Open Scope Z_scope.

(** ** The server *)

Class Redis (R : Type) := {
  GET : string -> Z -> R -> option string;
  SET_PX : string -> string -> Z -> Z -> R -> R;
  PEXPIRE : string -> Z -> Z -> R -> R;
  DEL : string -> R -> R;
  INCR : string -> R -> Z * R;
  counter : string -> R -> Z;
  lua_text : Z -> string
}.

Definition lua_exact : Z := 10 ^ 14.

Class RedisLaws (R : Type) `{Redis R} := {
  get_expires : forall k t t' v r, t <= t' -> GET k t' r = Some v -> GET k t r = Some v;
  get_set : forall k v ttl now t r, now <= t ->
    GET k t (SET_PX k v ttl now r) = if t <? now + ttl then Some v else None;
  get_set_ne : forall k k' v ttl now t r, k' <> k -> GET k' t (SET_PX k v ttl now r) = GET k' t r;
  get_pexpire : forall k ttl now t v r, now <= t -> GET k t (PEXPIRE k ttl now r) = Some v ->
    GET k now r = Some v;
  get_pexpire_ne : forall k k' ttl now t r, k' <> k -> GET k' t (PEXPIRE k ttl now r) = GET k' t r;
  get_pexpire_alive : forall k ttl now t v r, now <= t < now + ttl -> GET k now r = Some v ->
    GET k t (PEXPIRE k ttl now r) = Some v;
  get_del : forall k t r, GET k t (DEL k r) = None;
  get_del_ne : forall k k' t r, k' <> k -> GET k' t (DEL k r) = GET k' t r;
  get_incr_ne : forall k k' t r, k' <> k -> GET k' t (snd (INCR k r)) = GET k' t r;
  incr_value : forall k r, fst (INCR k r) = counter k r + 1;
  counter_incr : forall k k' r, counter k' (snd (INCR k r)) = counter k' r + (if String.eqb k' k then 1 else 0);
  counter_set : forall k k' v ttl now r, k' <> k -> counter k' (SET_PX k v ttl now r) = counter k' r;
  counter_pexpire : forall k k' ttl now r, k' <> k -> counter k' (PEXPIRE k ttl now r) = counter k' r;
  counter_del : forall k k' r, k' <> k -> counter k' (DEL k r) = counter k' r;
  counter_nonneg : forall k r, 0 <= counter k r;
  lua_text_exact : forall n, 0 <= n < lua_exact -> lua_text n = pretty n
}.

Definition marketLeasePrefix : string := "fluxmaker:lease:market:".
Definition marketFencePrefix : string := "fluxmaker:lease:generation:".

(** ** The text of a lease *)

Fixpoint parse_digits (acc : Z) (s : string) : option Z :=
  match s with
  | EmptyString => Some acc
  | String c s' => v ← digit_value c; parse_digits (10 * acc + v) s'
  end.

(** One or more digits. *)
Definition digits_of (s : string) : option Z :=
  if String.eqb s "" then None else parse_digits 0 s.

(** [string.match] with the pattern of any text, a colon and digits up to the end, and
    [tonumber]: the owner is matched greedily. *)
Fixpoint match_lease (s : string) : option (string * Z) :=
  match s with
  | EmptyString => None
  | String c s' =>
      match match_lease s' with
      | Some (owner, generation) => Some (String c owner, generation)
      | None => if Ascii.eqb c ":" then (generation ← digits_of s'; Some ("", generation)) else None
      end
  end.

(** [fmt.Sprintf("%s:%d", owner, generation)] *)
Definition leaseText (owner : string) (generation : Z) : string := owner +:+ ":" +:+ pretty generation.

(** ** The operations *)

Section Store.
Context {R : Type} `{Redis R}.

(** The script of [AcquireMarketLease]: the generation, zero when another owns the lease. *)
Definition acquire_script (key owner : string) (ttl now : Z) (r : R) : Z * R :=
  let leaseKey := marketLeasePrefix +:+ key in
  match GET leaseKey now r with
  | Some current =>
      match match_lease current with
      | Some (currentOwner, currentGeneration) =>
          if String.eqb currentOwner owner
          then (currentGeneration, PEXPIRE leaseKey ttl now r) else (0, r)
      | None => (0, r)
      end
  | None =>
      let '(generation, r) := INCR (marketFencePrefix +:+ key) r in
      (generation, SET_PX leaseKey (owner +:+ ":" +:+ lua_text generation) ttl now r)
  end.

Definition validate_script (key expected : string) (now : Z) (r : R) : Z :=
  if bool_decide (GET (marketLeasePrefix +:+ key) now r = Some expected) then 1 else 0.

Definition release_script (key expected : string) (now : Z) (r : R) : R :=
  if bool_decide (GET (marketLeasePrefix +:+ key) now r = Some expected)
  then DEL (marketLeasePrefix +:+ key) r else r.

(** The method around a script: a failed call, or a non-positive result, is no lease. *)
Definition acquireResult (answer : reply Z) : Z * option error :=
  match answer with
  | inr err => (0, Some err)
  | inl result => if result <=? 0 then (0, None) else (result, None)
  end.

Definition leaseTTL (ttl : Duration) : Duration := if ttl <=? 0 then 30 * Second else ttl.

Definition AcquireMarketLease (key owner : string) (ttl : Duration) (now : Z) (r : R)
    : (Z * option error) * R :=
  let '(result, r') := acquire_script key owner (Z.quot (leaseTTL ttl) Millisecond) now r in
  (acquireResult (inl result), r').

Definition ValidateMarketLease (key owner : string) (generation : Z) (now : Z) (r : R) : bool :=
  validate_script key (leaseText owner generation) now r =? 1.

Definition ReleaseMarketLease (key owner : string) (generation : Z) (now : Z) (r : R) : R :=
  release_script key (leaseText owner generation) now r.
End Store.

(** ** Parsing what was written *)

Lemma pretty_N_char_value n : (n < 10)%N -> digit_value (pretty_N_char n) = Some (Z.of_N n).
Proof.
  intros Hn. assert (Forall (fun m => digit_value (pretty_N_char m) = Some (Z.of_N m))
    (N.of_nat <$> seq 0 10)) as Hall by (vm_compute; repeat constructor).
  rewrite Forall_fmap, Forall_forall in Hall. pose proof (Hall (N.to_nat n)) as Hat.
  unfold compose in Hat. rewrite N2Nat.id in Hat. apply Hat, elem_of_seq. lia.
Qed.

Lemma parse_pretty_go x s : parse_digits 0 (pretty_N_go x s) = parse_digits (Z.of_N x) s.
Proof.
  revert s. induction (N.lt_wf_0 x) as [x _ IH]; intros s.
  destruct (decide (x = 0)%N) as [->|Hx]; [by rewrite pretty_N_go_0|].
  rewrite pretty_N_go_step by lia. rewrite IH by (apply N.div_lt; lia). simpl.
  rewrite pretty_N_char_value by (apply N.mod_lt; lia). simpl. f_equal.
  rewrite N2Z.inj_div, N2Z.inj_mod. pose proof (Z.div_mod (Z.of_N x) 10). lia.
Qed.

Lemma pretty_go_nonempty x s : s <> "" -> pretty_N_go x s <> "".
Proof.
  revert s. induction (N.lt_wf_0 x) as [x _ IH]; intros s Hs.
  destruct (decide (x = 0)%N) as [->|Hx]; [by rewrite pretty_N_go_0|].
  rewrite pretty_N_go_step by lia. by apply IH; [apply N.div_lt; lia|].
Qed.

Lemma digits_of_pretty n : 0 <= n -> digits_of (pretty n) = Some n.
Proof.
  intros Hn. assert (E : forall m : N, digits_of (pretty m) = Some (Z.of_N m)).
  { intros m. unfold digits_of, pretty, pretty_N. case_decide as Hm; [by subst|].
    assert (Hne : pretty_N_go m "" <> "").
    { rewrite pretty_N_go_step by lia. by apply pretty_go_nonempty. }
    apply String.eqb_neq in Hne. rewrite Hne, parse_pretty_go. done. }
  destruct n as [|p|p]; [done|exact (E (Npos p))|lia].
Qed.

Lemma parse_digits_colon acc s t : parse_digits acc (s +:+ ":" +:+ t) = None.
Proof.
  revert acc. induction s as [|c s IH]; intros acc; [done|]. simpl.
  destruct (digit_value c); simpl; [apply IH|done].
Qed.

Lemma match_digits s acc n : parse_digits acc s = Some n -> match_lease s = None.
Proof.
  revert acc. induction s as [|c s IH]; intros acc; [done|]. simpl.
  destruct (digit_value c) as [v|] eqn:E; simpl; [|done]. intros Hp. rewrite (IH _ Hp).
  destruct (Ascii.eqb_spec c ":") as [->|]; [done|done].
Qed.

(** The script reads back what it wrote, whatever the owner's name is. *)
Lemma match_leaseText owner n : 0 <= n -> match_lease (leaseText owner n) = Some (owner, n).
Proof.
  intros Hn. unfold leaseText. pose proof (digits_of_pretty n Hn) as Hd.
  assert (Hm : match_lease (pretty n) = None).
  { unfold digits_of in Hd. destruct (String.eqb _ _); [done|]. by eapply match_digits. }
  revert Hd Hm. generalize (pretty n). intros digits Hd Hm.
  induction owner as [|c owner IH]; simpl; [|by rewrite IH].
  change ("" +:+ digits) with digits. by rewrite Hm, Hd.
Qed.

Lemma leaseText_inj owner owner' n n' : 0 <= n -> 0 <= n' ->
  leaseText owner n = leaseText owner' n' -> owner = owner' /\ n = n'.
Proof.
  intros Hn Hn' E. apply (f_equal match_lease) in E. rewrite !match_leaseText in E by done.
  by injection E.
Qed.

(** ** Sequences of requests *)

Inductive request :=
  | Acquire (key owner : string) (ttl : Z)
  | Validate (key owner : string) (generation : Z)
  | Release (key owner : string) (generation : Z).

Section Requests.
Context {R : Type} `{RedisLaws R}.

Definition serve1 (now : Z) (q : request) (r : R) : Z * R :=
  match q with
  | Acquire key owner ttl => acquire_script key owner ttl now r
  | Validate key owner generation => (validate_script key (leaseText owner generation) now r, r)
  | Release key owner generation => (0, release_script key (leaseText owner generation) now r)
  end.

(** The answers to requests at the given times, and the server afterwards. *)
Fixpoint serve (qs : list (Z * request)) (r : R) : list Z * R :=
  match qs with
  | [] => ([], r)
  | (now, q) :: qs' =>
      let '(a, r1) := serve1 now q r in let '(l, r2) := serve qs' r1 in (a :: l, r2)
  end.

(** Times do not go back, and leases live for a while. *)
Fixpoint timed (now : Z) (qs : list (Z * request)) : Prop :=
  match qs with
  | [] => True
  | (t, q) :: qs' => now <= t /\ match q with Acquire _ _ ttl => 0 < ttl | _ => True end /\ timed t qs'
  end.

Abbreviation leaseKey key := (marketLeasePrefix +:+ key).
Abbreviation fence key r := (counter (marketFencePrefix +:+ key) r).

(** From [now] on only leases of the last generation are visible, beyond [g] or of a
    owner in [P]. *)
Definition beyond (P : string -> Prop) (g : Z) (key : string) (now : Z) (r : R) : Prop :=
  0 <= g <= fence key r
  /\ forall t v, now <= t -> GET (leaseKey key) t r = Some v ->
       exists owner, v = leaseText owner (fence key r) /\ 0 < fence key r
         /\ (g < fence key r \/ g = fence key r /\ P owner).

Definition healthy (key : string) (now : Z) (r : R) : Prop := beyond (fun _ => False) 0 key now r.

Lemma key_inj p k k' : p +:+ k = p +:+ k' -> k = k'.
Proof. induction p as [|c p IH]; simpl; [done|]. intros [= E]. by apply IH. Qed.

Lemma lease_fence_ne k k' : leaseKey k <> marketFencePrefix +:+ k'.
Proof. by intros [=]. Qed.

Lemma beyond_later P g key now t r : now <= t -> beyond P g key now r -> beyond P g key t r.
Proof. intros Ht [Hg Hv]. split; [done|]. intros t' v Ht'. apply Hv. lia. Qed.

(** Commands that change neither the lease nor its fence. *)
Lemma beyond_frame P g key now r r' :
  (forall t v, now <= t -> GET (leaseKey key) t r' = Some v -> exists t', now <= t' /\ GET (leaseKey key) t' r = Some v) ->
  fence key r' = fence key r -> beyond P g key now r -> beyond P g key now r'.
Proof.
  intros Hget Hf [Hg Hv]. split; [by rewrite Hf|]. intros t v Ht Hgt. rewrite Hf.
  destruct (Hget t v Ht Hgt) as (t' & Ht' & E). by eapply Hv.
Qed.

Lemma acquire_beyond P g key k owner ttl now r : 0 < ttl -> fence key r + 1 < lua_exact ->
  beyond P g key now r -> beyond P g key now (snd (acquire_script k owner ttl now r)).
Proof.
  intros Httl Hb Hok. unfold acquire_script. destruct (decide (k = key)) as [->|Hk].
  - destruct (GET (leaseKey key) now r) as [v|] eqn:Ev.
    + destruct (match_lease v) as [[o n]|]; [|done]. destruct (String.eqb o owner); [|done]. simpl.
      eapply beyond_frame; [|by apply counter_pexpire, not_eq_sym, lease_fence_ne|exact Hok].
      intros t v' Ht Hget. exists now. split; [lia|]. by eapply get_pexpire.
    + destruct (INCR _ r) as [n r1] eqn:Ei.
      assert (En : n = fence key r + 1) by (rewrite <- incr_value, Ei; done).
      assert (Er : r1 = snd (INCR (marketFencePrefix +:+ key) r)) by by rewrite Ei. subst r1. simpl.
      destruct Hok as [Hg _]. pose proof (counter_nonneg (marketFencePrefix +:+ key) r).
      assert (Ef : fence key (SET_PX (leaseKey key) (owner +:+ ":" +:+ lua_text n) ttl now
        (snd (INCR (marketFencePrefix +:+ key) r))) = n).
      { rewrite counter_set by (apply not_eq_sym, lease_fence_ne). by rewrite counter_incr, String.eqb_refl. }
      split; [lia|]. rewrite Ef. intros t v Ht. rewrite get_set by done.
      destruct (t <? now + ttl); [|done]. intros [= <-]. exists owner. rewrite lua_text_exact by lia.
      split_and!; [done|lia|left; lia].
  - assert (Hne : leaseKey key <> leaseKey k) by (intros E; by apply Hk, (key_inj _ _ _ (eq_sym E))).
    assert (Hne' : marketFencePrefix +:+ key <> marketFencePrefix +:+ k)
      by (intros E; by apply Hk, (key_inj _ _ _ (eq_sym E))).
    destruct (GET (leaseKey k) now r) as [v|].
    + destruct (match_lease v) as [[o n]|]; [|done]. destruct (String.eqb o owner); [|done]. simpl.
      eapply beyond_frame; [|by apply counter_pexpire, not_eq_sym, lease_fence_ne|exact Hok].
      intros t v' Ht. rewrite get_pexpire_ne by done. eauto.
    + destruct (INCR _ r) as [n r1] eqn:Ei.
      assert (Er : r1 = snd (INCR (marketFencePrefix +:+ k) r)) by by rewrite Ei. subst r1. simpl.
      eapply beyond_frame; [| |exact Hok].
      * intros t v Ht. rewrite get_set_ne, get_incr_ne by (done || apply lease_fence_ne). eauto.
      * rewrite counter_set by (apply not_eq_sym, lease_fence_ne). rewrite counter_incr.
        apply String.eqb_neq in Hne'. rewrite Hne'. lia.
Qed.

Lemma release_beyond P g key k expected now r :
  beyond P g key now r -> beyond P g key now (release_script k expected now r).
Proof.
  intros Hok. unfold release_script. case_bool_decide; [|done].
  eapply beyond_frame; [|by apply counter_del, not_eq_sym, lease_fence_ne|exact Hok].
  intros t v Ht. destruct (decide (k = key)) as [->|Hk]; [by rewrite get_del|].
  rewrite get_del_ne by (intros E; by apply Hk, (key_inj _ _ _ (eq_sym E))). eauto.
Qed.

Lemma serve1_beyond P g key now t q r : now <= t -> fence key r + 1 < lua_exact ->
  match q with Acquire _ _ ttl => 0 < ttl | _ => True end ->
  beyond P g key now r -> beyond P g key t (snd (serve1 t q r)).
Proof.
  intros Ht Hb Hq Hok. apply (beyond_later _ _ _ _ _ _ Ht) in Hok. destruct q; simpl; [|done|].
  - by apply acquire_beyond.
  - by apply release_beyond.
Qed.

(** A request grants at most one generation. *)
Lemma serve1_fence key t q r : fence key (snd (serve1 t q r)) <= fence key r + 1.
Proof.
  assert (Hi : forall k, fence key (snd (INCR (marketFencePrefix +:+ k) r)) <= fence key r + 1).
  { intros k. rewrite counter_incr. destruct (String.eqb _ _); lia. }
  destruct q as [k owner ttl|k owner n|k owner n]; simpl; [|lia|].
  - unfold acquire_script. destruct (GET _ _ _) as [v|].
    + destruct (match_lease v) as [[o n]|]; simpl; [|lia].
      destruct (String.eqb o owner); simpl; [|lia].
      rewrite counter_pexpire by (apply not_eq_sym, lease_fence_ne). lia.
    + destruct (INCR _ r) as [n r1] eqn:Ei. specialize (Hi k). rewrite Ei in Hi. simpl in *.
      by rewrite counter_set by (apply not_eq_sym, lease_fence_ne).
  - unfold release_script. case_bool_decide; [|lia].
    rewrite counter_del by (apply not_eq_sym, lease_fence_ne). lia.
Qed.

(** What no visible lease contradicts stays so, whatever is requested. *)
Lemma serve_beyond P g key now qs r t : timed now qs ->
  fence key r + Z.of_nat (length qs) < lua_exact -> beyond P g key now r ->
  now <= t -> (forall s q, (s, q) ∈ qs -> s <= t) -> beyond P g key t (snd (serve qs r)).
Proof.
  revert now r. induction qs as [|[t1 q] qs IH]; intros now r Ht Hb Hok Hle Hall; simpl.
  - by eapply beyond_later.
  - destruct Ht as (Ht1 & Hq & Ht). cbn [length] in Hb.
    pose proof (serve1_fence key t1 q r) as Hf.
    pose proof (serve1_beyond P g key now t1 q r Ht1 ltac:(lia) Hq Hok) as Hok1.
    destruct (serve1 t1 q r) as [a r1]. simpl in *.
    specialize (IH t1 r1 Ht ltac:(lia) Hok1 ltac:(apply (Hall t1 q); left)
      ltac:(intros s q' Hin; apply (Hall s q'); by right)).
    by destruct (serve qs r1) as [l r2].
Qed.

Lemma beyond_invalid P g key now owner generation r : 0 <= generation ->
  beyond P g key now r -> generation < g \/ generation = g /\ ~ P owner ->
  ValidateMarketLease key owner generation now r = false.
Proof.
  intros Hn [Hg Hv] Hstale. unfold ValidateMarketLease, validate_script.
  case_bool_decide as E; [|done]. exfalso.
  destruct (Hv now _ ltac:(lia) E) as (o & Et & Hpos & Hb).
  apply leaseText_inj in Et as [<- ->]; [|done|lia]. destruct Hb as [?|[? ?]], Hstale as [?|[? ?]]; subst; try lia; done.
Qed.

(** A server on which no lease of the market is visible. *)
Definition unleased (key : string) (now : Z) (r : R) : Prop :=
  forall t, now <= t -> GET (leaseKey key) t r = None.

Lemma unleased_healthy key now r : unleased key now r -> healthy key now r.
Proof.
  intros Hu. split; [pose proof (counter_nonneg (marketFencePrefix +:+ key) r); lia|].
  intros t v Ht. by rewrite Hu.
Qed.

Lemma healthy_beyond (P : string -> Prop) g key now r : 0 <= g <= fence key r ->
  (forall owner, ValidateMarketLease key owner g now r = true -> P owner) ->
  healthy key now r -> beyond P g key now r.
Proof.
  intros Hg HP [_ Hv]. split; [done|]. intros t v Ht Hget. pose proof (get_expires _ _ _ _ _ Ht Hget) as Hnow.
  destruct (Hv t v Ht Hget) as (owner & -> & Hpos & _). exists owner. split_and!; [done|done|].
  destruct (decide (g = fence key r)) as [->|]; [right|left; lia]. split; [done|]. apply HP.
  unfold ValidateMarketLease, validate_script. by rewrite bool_decide_eq_true_2.
Qed.

Lemma validate_current key owner generation now r : 0 <= generation -> healthy key now r ->
  ValidateMarketLease key owner generation now r = true ->
  generation = fence key r /\ 0 < generation
  /\ GET (leaseKey key) now r = Some (leaseText owner generation).
Proof.
  intros Hn [_ Hv]. unfold ValidateMarketLease, validate_script. case_bool_decide as E; [|done].
  intros _. destruct (Hv now _ ltac:(lia) E) as (o & Et & Hpos & _).
  apply leaseText_inj in Et as [_ ->]; [|done|lia]. done.
Qed.

Section History.
Context (key : string) (now : Z) (r0 : R) (qs : list (Z * request)).
Context (Hstart : unleased key now r0) (Hqs : timed now qs).

(** The server after the requests. *)
Let r := snd (serve qs r0).

Lemma history_healthy t : fence key r0 + Z.of_nat (length qs) < lua_exact -> now <= t ->
  (forall s q, (s, q) ∈ qs -> s <= t) -> healthy key t r.
Proof. intros Hb Ht Hall. by apply (serve_beyond _ _ _ now qs r0 t Hqs Hb (unleased_healthy _ _ _ Hstart)). Qed.
End History.

(** ** Claims *)

(** Fencing. From a server without a lease of the market, whatever requests of any
    owners followed: once a granted generation is no longer valid for its owner, it is
    never valid again, whatever is requested afterwards; so a write that was delayed
    past the loss of its lease cannot pass its check later. *)
Theorem stale_lease_stays_stale key now r0 qs t qs' t' owner generation :
  unleased key now r0 -> timed now qs -> now <= t -> (forall s q, (s, q) ∈ qs -> s <= t) ->
  timed t qs' -> t <= t' -> (forall s q, (s, q) ∈ qs' -> s <= t') ->
  let r := snd (serve qs r0) in let r' := snd (serve qs' r) in
  fence key r0 + Z.of_nat (length qs) < lua_exact -> fence key r + Z.of_nat (length qs') < lua_exact ->
  0 <= generation <= fence key r ->
  ValidateMarketLease key owner generation t r = false ->
  ValidateMarketLease key owner generation t' r' = false.
Proof.
  intros Hu Hq Ht Hall Hq' Ht' Hall' r r' Hb Hb' Hg Hinv.
  pose proof (history_healthy key now r0 qs Hu Hq t Hb Ht Hall) as Hh.
  apply (beyond_invalid (fun o => o <> owner) generation key t' owner generation r'); [lia| |right].
  - apply (serve_beyond _ _ _ t qs' r t'); try done. apply healthy_beyond; [done| |done].
    intros o Ho ->. by rewrite Hinv in Ho.
  - by split; [|intros Hne; apply Hne].
Qed.

(** Writes are ordered by generation. If a validation passes for one owner and
    generation and later, after any requests, a validation of the same market passes
    for another, the later generation is greater: two engines never alternate on a
    market, and equal generations mean the same owner. *)
Theorem validations_ordered key now r0 qs t qs' t' owner generation owner' generation' :
  unleased key now r0 -> timed now qs -> now <= t -> (forall s q, (s, q) ∈ qs -> s <= t) ->
  timed t qs' -> t <= t' -> (forall s q, (s, q) ∈ qs' -> s <= t') ->
  let r := snd (serve qs r0) in let r' := snd (serve qs' r) in
  fence key r0 + Z.of_nat (length qs) < lua_exact -> fence key r + Z.of_nat (length qs') < lua_exact ->
  0 <= generation -> 0 <= generation' ->
  ValidateMarketLease key owner generation t r = true ->
  ValidateMarketLease key owner' generation' t' r' = true ->
  generation < generation' \/ generation = generation' /\ owner = owner'.
Proof.
  intros Hu Hq Ht Hall Hq' Ht' Hall' r r' Hb Hb' Hg Hg' Hv Hv'.
  pose proof (history_healthy key now r0 qs Hu Hq t Hb Ht Hall) as Hh. fold r in Hh.
  destruct (validate_current _ _ _ _ _ Hg Hh Hv) as (Ef & Hpos & Eget).
  assert (Hbe : beyond (fun o => o = owner) generation key t' r').
  { apply (serve_beyond _ _ _ t qs' r t'); try done. apply healthy_beyond; [lia| |done].
    intros o Ho. destruct (validate_current _ _ _ _ _ Hg Hh Ho) as (_ & _ & Eo).
    rewrite Eo in Eget. injection Eget as Et. by apply leaseText_inj in Et as [-> _]. }
  destruct (decide (generation < generation')) as [|Hlt]; [by left|]. right.
  destruct (decide (generation' = generation /\ owner' = owner)) as [[-> ->]|Hne]; [done|]. exfalso.
  rewrite (beyond_invalid _ _ _ _ _ _ _ Hg' Hbe) in Hv'; [done|].
  destruct (decide (generation' = generation)) as [->|]; [right; split; [done|tauto]|left; lia].
Qed.

(** A grant. Where no lease of the market is visible, acquiring returns a generation
    greater than all before and valid for its time to live; while a lease is valid the
    same owner renews it under the same generation and any other owner is refused
    without effect. *)
Theorem acquire_grants key now r0 qs t owner ttl :
  unleased key now r0 -> timed now qs -> now <= t -> (forall s q, (s, q) ∈ qs -> s <= t) ->
  let r := snd (serve qs r0) in
  fence key r0 + Z.of_nat (length qs) + 1 < lua_exact -> fence key r + 1 < lua_exact -> 0 < ttl ->
  let '(granted, r') := acquire_script key owner ttl t r in
  match GET (leaseKey key) t r with
  | None =>
      granted = fence key r + 1 /\ fence key r' = granted
      /\ forall t', t <= t' < t + ttl -> ValidateMarketLease key owner granted t' r' = true
  | Some _ => exists current, ValidateMarketLease key current (fence key r) t r = true
      /\ (owner = current -> granted = fence key r
          /\ forall t', t <= t' < t + ttl -> ValidateMarketLease key owner granted t' r' = true)
      /\ (owner <> current -> granted = 0 /\ r' = r)
  end.
Proof.
  intros Hu Hq Ht Hall r Hb Hb' Httl.
  pose proof (history_healthy key now r0 qs Hu Hq t ltac:(lia) Ht Hall) as [_ Hv]. fold r in Hv.
  unfold acquire_script. destruct (GET (leaseKey key) t r) as [v|] eqn:Ev.
  - destruct (Hv t v ltac:(lia) Ev) as (current & -> & Hpos & _). rewrite match_leaseText by lia.
    assert (Hval : ValidateMarketLease key current (fence key r) t r = true).
    { unfold ValidateMarketLease, validate_script. by rewrite bool_decide_eq_true_2. }
    destruct (String.eqb_spec current owner) as [->|Hne].
    + exists owner. split; [done|]. split; [|by intros ?]. intros _. split; [done|].
      intros t' Ht'. unfold ValidateMarketLease, validate_script.
      by rewrite bool_decide_eq_true_2 by by apply get_pexpire_alive.
    + exists current. split_and!; [done|by intros ->|done].
  - destruct (INCR _ r) as [n r1] eqn:Ei.
    assert (En : n = fence key r + 1) by (rewrite <- incr_value, Ei; done).
    assert (Er : r1 = snd (INCR (marketFencePrefix +:+ key) r)) by by rewrite Ei. subst r1.
    pose proof (counter_nonneg (marketFencePrefix +:+ key) r). split_and!; [done| |].
    + rewrite counter_set by (apply not_eq_sym, lease_fence_ne). rewrite counter_incr, String.eqb_refl. lia.
    + intros t' Ht'. unfold ValidateMarketLease, validate_script.
      rewrite get_set by lia. rewrite (proj2 (Z.ltb_lt _ _)) by lia. rewrite lua_text_exact by lia.
      by rewrite bool_decide_eq_true_2.
Qed.
End Requests.

(** ** A server in memory *)

(** Values with the time they expire, and counters. *)
Record memory := MkMemory { values : gmap string (string * Z); counters : gmap string N }.

Definition mem_get (k : string) (t : Z) (m : memory) : option string :=
  x ← values m !! k; if t <? snd x then Some (fst x) else None.

#[export] Instance memory_redis : Redis memory := {|
  GET := mem_get;
  SET_PX := fun k v ttl now m => MkMemory (<[k := (v, now + ttl)]> (values m)) (counters m);
  PEXPIRE := fun k ttl now m =>
    match mem_get k now m with
    | Some v => MkMemory (<[k := (v, now + ttl)]> (values m)) (counters m)
    | None => m
    end;
  DEL := fun k m => MkMemory (delete k (values m)) (counters m);
  INCR := fun k m =>
    let n := (default 0 (counters m !! k) + 1)%N in
    (Z.of_N n, MkMemory (values m) (<[k := n]> (counters m)));
  counter := fun k m => Z.of_N (default 0%N (counters m !! k));
  lua_text := fun n => pretty n
|}.

Lemma mem_get_insert k v e t m c :
  mem_get k t (MkMemory (<[k := (v, e)]> m) c) = if t <? e then Some v else None.
Proof. unfold mem_get. simpl. by rewrite lookup_insert_eq. Qed.

Lemma mem_get_ne k k' x t m c c' : k' <> k ->
  mem_get k' t (MkMemory (<[k := x]> m) c) = mem_get k' t (MkMemory m c').
Proof. intros Hne. unfold mem_get. simpl. by rewrite lookup_insert_ne. Qed.

#[export] Instance memory_laws : RedisLaws memory.
Proof.
  split; simpl.
  - intros k t t' v m Ht. unfold mem_get. destruct (values m !! k) as [[x e]|]; simpl; [|done].
    destruct (Z.ltb_spec t' e), (Z.ltb_spec t e); try done. lia.
  - intros. apply mem_get_insert.
  - intros. destruct r. by erewrite mem_get_ne.
  - intros k ttl now t v m Ht. destruct (mem_get k now m) as [w|] eqn:E.
    + rewrite mem_get_insert. by destruct (t <? now + ttl).
    + unfold mem_get in *. destruct (values m !! k) as [[x e]|]; simpl in *; [|done].
      destruct (Z.ltb_spec t e), (Z.ltb_spec now e); try done. lia.
  - intros k k' ttl now t m Hne. destruct (mem_get k now m); [|done]. destruct m. by erewrite mem_get_ne.
  - intros k ttl now t v m Ht ->. rewrite mem_get_insert. by rewrite (proj2 (Z.ltb_lt _ _)) by lia.
  - intros k t m. unfold mem_get. simpl. by rewrite lookup_delete_eq.
  - intros k k' t m Hne. unfold mem_get. simpl. by rewrite lookup_delete_ne.
  - done.
  - intros k m. destruct (counters m !! k); simpl; lia.
  - intros k k' m. destruct (String.eqb_spec k' k) as [->|Hne].
    + rewrite lookup_insert_eq. simpl. lia.
    + rewrite lookup_insert_ne by done. lia.
  - done.
  - intros k k' ttl now m _. by destruct (mem_get k now m).
  - done.
  - lia.
  - done.
Qed.

(** ** Witnesses *)

Definition ex_server : memory := MkMemory ∅ ∅.

(** The first engine acquires the market; its lease runs out; the second acquires. *)
Definition ex_first : list (Z * request) := [(0, Acquire "m" "node:1" 30000); (10, Acquire "m" "node-2" 30000)].
Definition ex_then : list (Z * request) := [(40000, Acquire "m" "node-2" 30000)].

Example lease_history :
  fst (serve (ex_first ++ ex_then ++ [(40001, Validate "m" "node:1" 1); (40002, Validate "m" "node-2" 2)])
    ex_server) = [1; 0; 2; 0; 1].
Proof. vm_compute. reflexivity. Qed.

Lemma ex_unleased : unleased "m" 0 ex_server.
Proof. intros t _. unfold GET. simpl. unfold mem_get. simpl. by rewrite lookup_empty. Qed.

Lemma ex_times l (b : Z) : Forall (fun x : Z * request => fst x <= b) l -> forall s q, (s, q) ∈ l -> s <= b.
Proof. intros Hf s q Hin. exact (Forall_flip _ _ _ Hf Hin). Qed.

Lemma stale_lease_stays_stale_witness :
  ValidateMarketLease "m" "node:1" 1 40001 (snd (serve ex_then (snd (serve ex_first ex_server)))) = false.
Proof.
  apply (stale_lease_stays_stale "m" 0 ex_server ex_first 35000 ex_then 40001 "node:1" 1 ex_unleased).
  - simpl. lia.
  - lia.
  - apply ex_times. repeat constructor; simpl; lia.
  - simpl. lia.
  - lia.
  - apply ex_times. repeat constructor; simpl; lia.
  - by vm_compute.
  - by vm_compute.
  - by vm_compute.
  - by vm_compute.
Defined.

Lemma validations_ordered_witness : 1 < 2 \/ 1 = 2 /\ "node:1" = "node-2".
Proof.
  apply (validations_ordered "m" 0 ex_server ex_first 20 ex_then 40001 "node:1" 1 "node-2" 2 ex_unleased).
  - simpl. lia.
  - lia.
  - apply ex_times. repeat constructor; simpl; lia.
  - simpl. lia.
  - lia.
  - apply ex_times. repeat constructor; simpl; lia.
  - by vm_compute.
  - by vm_compute.
  - lia.
  - lia.
  - by vm_compute.
  - by vm_compute.
Defined.

Lemma acquire_grants_witness :
  let '(granted, r') := acquire_script "m" "node-2" 30000 40000 (snd (serve ex_first ex_server)) in
  granted = 2 /\ ValidateMarketLease "m" "node-2" granted 69999 r' = true.
Proof.
  pose proof (acquire_grants "m" 0 ex_server ex_first 40000 "node-2" 30000 ex_unleased
    ltac:(simpl; lia) ltac:(lia) ltac:(apply ex_times; repeat constructor; simpl; lia)
    ltac:(by vm_compute) ltac:(by vm_compute) ltac:(lia)) as H.
  destruct H as (Hg & _ & Hv). split; [exact Hg|]. apply Hv. lia.
Defined.
