(* ===== verification/App.v ===== *)
(** The wiring of a runtime (src/internal/app/runtime.go, venues.go): exchange clients,
    trading rules, oracle and engine of a configuration, and the operations of the
    running process on them.

    A [Config] of Go is a struct whose [Instruments] slice and [Venues] map are shared
    by its copies.  [BuildRuntimeCandidate] writes to both, so it returns the
    caller's configuration as it is afterwards; Scheduler.v follows the sharing
    further. *)
From S2P Require Import Prelude Decimal Domain Config Json Runtimeops World Venue Process Rpc Oracle Configdiff AuditEvents Engine EngineCycle EngineControl EngineSafety.

Open Scope string_scope.
Open Scope list_scope.
Open Scope Z_scope.

(** [os.Getenv] *)
Class Environ := Getenv : string -> string.

(** ** Processes whose calls return errors *)

(** [v, err := c(); if err != nil { return nil, err }; f(v)] *)
Definition tryX {S A B} (c : X S (reply A)) (f : A -> X S (reply B)) : X S (reply B) :=
  r ← c; match r with inl a => f a | inr err => mret (inr err) end.

(** A call into code that keeps no state of the caller. *)
Definition callX {S A} (c : prog A) : X S (reply A) := fun s =>
  o ← settle c;
  Done (match o with Ret a => inl (inl a) | Err e => inl (inr e) | Panic m => inr m end, s).

(** ** Failures by instrument *)

Abbreviation InstrumentFailures := (gmap string (list string)) (only parsing).

Definition addInstrumentFailure (instrumentID : string) (messages : list string)
    (failures : InstrumentFailures) : InstrumentFailures :=
  <[instrumentID := default [] (failures !! instrumentID) ++ messages]> failures.

Definition mergeInstrumentFailures `{MapRange} (target source : InstrumentFailures)
    : InstrumentFailures :=
  foldl (fun acc kv => addInstrumentFailure (fst kv) (snd kv) acc) target (range source).

Definition flattenInstrumentFailures `{SliceSort} (values : InstrumentFailures) : gmap string string :=
  (fun failures => StringsJoin (sortStrings failures) "; ") <$> values.

(** ** Exchange clients (venues.go) *)

(** What the adapters of internal/venue/binance and internal/venue/mgbx implement. *)
Definition binanceClient (options : ClientOptions) : Client :=
  MkClient (opt_Name options) (Some (opt_StateIdentity options))
    (Some (MkCapabilities true false false false false false)) false true true true true.

Definition mgbxClient (options : ClientOptions) : Client :=
  MkClient (opt_Name options) (Some (opt_StateIdentity options))
    (Some (MkCapabilities false false false false false false)) false true true true true.

Definition defaultVenueRegistry : go (gmap string FactoryFunc) :=
  NewRegistry [Some (MkFactoryFunc "binance" (Some (fun options => Ret (Some (binanceClient options)))));
               Some (MkFactoryFunc "mgbx" (Some (fun options => Ret (Some (mgbxClient options)))))].

Abbreviation Clients := (gmap string Client) (only parsing).

Section Venues.
Context `{MapRange} {S : Type}.

(** The key and the secret of a market, or what makes it unusable. *)
Definition marketSecret (c : Config) (credentials : bool) (v : VenueConfig) (market : VenueMarketConfig)
    : X S ((string * string) + string) :=
  if 0 <? CredentialID market then
    if negb credentials then mret (inr ": credential service unavailable") else
    r ← actX (Host (HResolveCredential (CredentialID market) (venue_Type v)));
    mret (match r : reply (string * string) with
          | inl secret => inl secret
          | inr err => inr (" credential: " +:+ Error err)
          end)
  else mret (if live (cfg_Mode c) v then inr ": credential is required for live trading"
             else inl ("", "")).

Definition stateIdentityOf (name instrumentID : string) (market : VenueMarketConfig) : string :=
  ToLower name +:+ "/" +:+ ToLower instrumentID +:+ "/credential-" +:+ pretty (CredentialID market).

Definition buildMarket (c : Config) (credentials : bool) (registry : gmap string FactoryFunc)
    (name : string) (v : VenueConfig) (acc : Clients * InstrumentFailures)
    (im : string * VenueMarketConfig) : X S (Clients * InstrumentFailures) :=
  let '(clients, failures) := acc in
  let '(instrumentID, market) := im in
  let failed msg := (clients, addInstrumentFailure instrumentID ["venue " +:+ name +:+ msg] failures) in
  secret ← marketSecret c credentials v market;
  match secret with
  | inr msg => mret (failed msg)
  | inl (apiKey, apiSecret) =>
      let timeout := if RequestTimeout c <=? 0 then 5 * Second else RequestTimeout c in
      client ← goX (Venue.Build registry (venue_Type v)
        (MkClientOptions (name +:+ "/" +:+ instrumentID) (stateIdentityOf name instrumentID market)
           (BaseURL v) apiKey apiSecret (SelfTradePrevention v) timeout));
      mret (match client with
            | inr err => failed (" client: " +:+ Error err)
            | inl client => (<[ClientKey name instrumentID := client]> clients, failures)
            end)
  end.

Definition buildVenue (c : Config) (credentials : bool) (registry : gmap string FactoryFunc)
    (acc : Clients * InstrumentFailures) (nv : string * VenueConfig)
    : X S (Clients * InstrumentFailures) :=
  let '(name, v) := nv in
  if negb (venue_Enabled v) then mret acc
  else foldX (buildMarket c credentials registry name v) (range (Markets v)) acc.

(** A missing registry or credential service is a nil pointer. *)
Definition buildVenuesIsolatedWithRegistry (c : Config) (credentials : bool)
    (registry : option (gmap string FactoryFunc)) : X S (reply (Clients * InstrumentFailures)) :=
  match registry with
  | None => mret (inr (Errorf "venue registry is unavailable"))
  | Some registry =>
      acc ← foldX (buildVenue c credentials registry) (range (Config.Venues c)) (∅, ∅);
      mret (inl acc)
  end.

Definition BuildVenuesIsolated (c : Config) (credentials : bool)
    : X S (reply (Clients * InstrumentFailures)) :=
  tryX (goX defaultVenueRegistry)
    (fun registry => buildVenuesIsolatedWithRegistry c credentials (Some registry)).

Context `{SliceSort}.

(** The failures of the first instrument, in the order of the ids. *)
Definition BuildVenuesWithRegistry (c : Config) (credentials : bool)
    (registry : option (gmap string FactoryFunc)) : X S (reply Clients) :=
  tryX (buildVenuesIsolatedWithRegistry c credentials registry) (fun '(clients, failures) =>
    mret (match sortStrings (map fst (range failures)) with
          | [] => inl clients
          | id :: _ => inr (Errorf ("instrument " +:+ id +:+ ": "
                         +:+ StringsJoin (default [] (failures !! id)) "; "))
          end)).

Definition BuildVenues (c : Config) (credentials : bool) : X S (reply Clients) :=
  tryX (goX defaultVenueRegistry)
    (fun registry => BuildVenuesWithRegistry c credentials (Some registry)).
End Venues.

(** ** Trading rules *)

Definition reusableMarketRules (previous : option Config) (venueName : string) (v : VenueConfig)
    (instrumentID : string) (market : VenueMarketConfig) : option VenueMarketConfig :=
  previous ← previous;
  prevVenue ← Config.Venues previous !! venueName;
  if negb (String.eqb (venue_Type prevVenue) (venue_Type v))
     || negb (String.eqb (Environment prevVenue) (Environment v))
     || negb (String.eqb (BaseURL prevVenue) (BaseURL v)) then None else
  prevMarket ← Markets prevVenue !! instrumentID;
  if negb (String.eqb (market_Symbol prevMarket) (market_Symbol market))
     || negb (IsPositive (PriceTick prevMarket)) then None
  else Some prevMarket.

(** The exchange-owned fields of the market synchronised before. *)
Definition reuseRules (reuse market : VenueMarketConfig) : VenueMarketConfig :=
  MkVenueMarketConfig (market_Symbol market) (market_BaseAsset market) (market_QuoteAsset market)
    (PriceTick reuse) (QuantityStep reuse) (MinNotional reuse) (MinQuantity reuse)
    (MaxQuantity reuse) (MaxNotional reuse) (MinPrice reuse) (MaxPrice reuse) (MaxOpenOrders reuse)
    (MaxBaseCommitment market) (MaxQuoteCommitment market) (CredentialID market).

(** The rules an exchange reported; a tick, a step or a notional that is not positive
    leaves the configured one. *)
Definition syncRules (market : VenueMarketConfig) (rules : MarketRules) : VenueMarketConfig :=
  let or_kept d kept := if IsPositive d then d else kept in
  MkVenueMarketConfig (market_Symbol market) (market_BaseAsset market) (market_QuoteAsset market)
    (or_kept (rules_PriceTick rules) (PriceTick market))
    (or_kept (rules_QuantityStep rules) (QuantityStep market))
    (or_kept (rules_MinNotional rules) (MinNotional market))
    (rules_MinQuantity rules) (rules_MaxQuantity rules) (rules_MaxNotional rules)
    (rules_MinPrice rules) (rules_MaxPrice rules) (rules_MaxOpenOrders rules)
    (MaxBaseCommitment market) (MaxQuoteCommitment market) (CredentialID market).

Record marketRuleResult := MkMarketRuleResult {
  mr_venueName : string;
  mr_instrumentID : string;
  mr_market : VenueMarketConfig;
  mr_err : option error
}.

Section Rules.
Context `{MapRange} `{Schedule} {S : Type}.

(** The markets whose rules must be read, and the configuration with the rules that are
    taken over. *)
Definition planMarket (previous : option Config) (venueName : string) (v : VenueConfig)
    (acc : Config * list (string * string * VenueMarketConfig)) (im : string * VenueMarketConfig)
    : Config * list (string * string * VenueMarketConfig) :=
  let '(instrumentID, market) := im in
  match reusableMarketRules previous venueName v instrumentID market with
  | Some reuse => (setMarket venueName instrumentID (reuseRules reuse market) (fst acc), snd acc)
  | None => (fst acc, snd acc ++ [(venueName, instrumentID, market)])
  end.

Definition planSync (previous : option Config) (c : Config)
    : Config * list (string * string * VenueMarketConfig) :=
  foldl (fun acc '(venueName, v) =>
           if venue_Enabled v then foldl (planMarket previous venueName v) acc (range (Markets v))
           else acc)
    (c, []) (range (Config.Venues c)).

(** The goroutine of one market. *)
Definition syncMarket (clients : Clients) (job : string * string * VenueMarketConfig)
    : X S marketRuleResult :=
  let '(venueName, instrumentID, market) := job in
  let failed err := MkMarketRuleResult venueName instrumentID market (Some err) in
  match clients !! ClientKey venueName instrumentID with
  | None => mret (failed (Errorf "client unavailable"))
  | Some client =>
      if negb (isRuleReader client) then mret (failed (Errorf "trading rules unavailable")) else
      r ← actX (Call (Name client) (CMarketRules (market_Symbol market)));
      mret (match r : reply MarketRules with
            | inr err => failed (Wrapf "load trading rules: " err)
            | inl rules =>
                let differs theirs mine := negb (String.eqb theirs "") && negb (EqualFold theirs mine) in
                let mismatch kind mine theirs :=
                  failed (Errorf (kind +:+ " asset " +:+ mine +:+ " does not match exchange " +:+ theirs)) in
                if differs (rules_BaseAsset rules) (market_BaseAsset market)
                then mismatch "base" (market_BaseAsset market) (rules_BaseAsset rules)
                else if differs (rules_QuoteAsset rules) (market_QuoteAsset market)
                then mismatch "quote" (market_QuoteAsset market) (rules_QuoteAsset rules)
                else MkMarketRuleResult venueName instrumentID (syncRules market rules) None
            end)
  end.

(** The loop over the channel of results. *)
Definition installResult (acc : Config * InstrumentFailures) (r : marketRuleResult)
    : Config * InstrumentFailures :=
  match mr_err r with
  | Some err => (fst acc, addInstrumentFailure (mr_instrumentID r)
                            [mr_venueName r +:+ ": " +:+ Error err] (snd acc))
  | None => (setMarket (mr_venueName r) (mr_instrumentID r) (mr_market r) (fst acc), snd acc)
  end.

Definition syncMarketRulesIsolated (clients : Clients) (previous : option Config) (c : Config)
    : X S (Config * InstrumentFailures) :=
  let '(c, jobs) := planSync previous c in
  results ← foldX (fun results k =>
                     match jobs !! k with
                     | Some job => r ← syncMarket clients job; mret (results ++ [r])
                     | None => mret results
                     end) (schedule (length jobs)) [];
  mret (foldl installResult (c, ∅) results).
End Rules.

(** ** Runtimes (runtime.go) *)

(** The oracle of a runtime is the one of its engine. *)
Record Runtime := MkRuntime { rt_Config : Config; rt_Engine : Engine Oracle.Oracle }.

Definition rt_Oracle (r : Runtime) : option Oracle.Oracle := oracle (rt_Engine r).

Definition set_rt_Engine (e : Engine Oracle.Oracle) (r : Runtime) : Runtime := MkRuntime (rt_Config r) e.

Definition applyRuntimeSafetyDefaults (c : Config) : Config :=
  MkConfig (cfg_Mode c) (PollIntervalMS c) (AuditPath c)
    (or_default (AuditMaxBytes c) (100 * 1024 * 1024)) (or_default (AuditBackups c) 7)
    (HeartbeatPath c) (WatchdogTimeoutSeconds c)
    (or_default (MarketFailureThreshold c) 3) (or_default (MarketRecoveryThreshold c) 3)
    (or_default (MarketErrorGraceSeconds c) 15) (or_default (TradingProgressTimeoutSeconds c) 120)
    (or_default (MaxConcurrentInstruments c) 4) (or_default (RulesRefreshSeconds c) 300)
    (Config.RPC c)
    (map (fun i => MkInstrumentConfig (ID i) (inst_Base i) (inst_Quote i) (Reference i)
                     (guardedStrategy (Strategy i)) (TradeSimulation i)) (Instruments c))
    (Config.Venues c).

(** The struct [c] once its slice and its map have been written to through the copy [c']. *)
Definition sharedWith (c' c : Config) : Config :=
  MkConfig (cfg_Mode c) (PollIntervalMS c) (AuditPath c) (AuditMaxBytes c) (AuditBackups c)
    (HeartbeatPath c) (WatchdogTimeoutSeconds c) (MarketFailureThreshold c)
    (MarketRecoveryThreshold c) (MarketErrorGraceSeconds c) (TradingProgressTimeoutSeconds c)
    (MaxConcurrentInstruments c) (RulesRefreshSeconds c) (Config.RPC c)
    (Instruments c') (Config.Venues c').

(** [runtimeops.Store] implements every optional interface of the engine. *)
Definition runtimeStore : RuntimeStore := MkRuntimeStore true true true true true true true true true.

Section Runtimes.
Context `{HttpRequests} `{Environ} `{MapRange} `{SliceSort} `{Schedule}.

(** The oracle of the previous runtime serves on while the RPC section is the same. *)
Definition sameRPC (previous : option Runtime) (c : Config) : option Oracle.Oracle :=
  previous ← previous;
  if equalJSON (Config.RPC (rt_Config previous)) (Config.RPC c) then rt_Oracle previous else None.

Definition candidateOracle {S} (previous : option Runtime) (c : Config) : X S (reply Oracle.Oracle) :=
  match sameRPC previous c with
  | Some o => mret (inl o)
  | None =>
      tryX (callX (Rpc.ChainID (NewRPCClient (URLs (Config.RPC c))))) (fun '(chainID, rpc) =>
        mret (match chainID with
              | inr err => inr (Wrapf "check rpc chain id: " err)
              | inl chainID =>
                  if negb (chainID =? Config.ChainID (Config.RPC c))
                  then inr (Errorf ("rpc chain id " +:+ pretty chainID
                         +:+ " does not match configured " +:+ pretty (Config.ChainID (Config.RPC c))))
                  else inl (Oracle.New rpc)
              end))
  end.

Definition newEngine {S} (c : Config) (o : Oracle.Oracle) (clients : Clients)
    (failures : InstrumentFailures) (previous : option Runtime) : X S (Engine Oracle.Oracle) :=
  let owner := match previous with Some p => ownerID (rt_Engine p) | None => "" end in
  fresh ← (if String.eqb owner "" then actX (Host HNewOwnerID) else mret "");
  now ← actX Now;
  mret (InheritMetricsFrom (rt_Engine <$> previous)
          (SetStartupFailures (flattenInstrumentFailures failures)
             (NewWithOwner c (Some o) clients (Some runtimeStore) owner fresh now))).

(** The state is the local copy of the configuration. *)
Definition buildCandidate (credentials : bool) (previous : option Runtime) : X Config (reply Runtime) :=
  modifyX applyRuntimeSafetyDefaults ;;
  c ← getX;
  tryX (goX (ValidateRuntime c)) (fun _ =>
  if String.eqb (cfg_Mode c) ModeLive
     && negb (String.eqb (Getenv "FLUXMAKER_ENABLE_LIVE_TRADING") "I_UNDERSTAND")
  then mret (inr (Errorf "live mode requires FLUXMAKER_ENABLE_LIVE_TRADING=I_UNDERSTAND")) else
  tryX (BuildVenuesIsolated c credentials) (fun '(clients, startupFailures) =>
  s ← syncMarketRulesIsolated clients (rt_Config <$> previous) c;
  let '(c, ruleFailures) := s : Config * InstrumentFailures in
  modifyX (fun _ => c) ;;
  valid ← goX (ValidateRuntime c);
  match valid : reply unit with
  | inr err => mret (inr (Wrapf "validate synchronized trading rules: " err))
  | inl _ =>
      tryX (candidateOracle previous c) (fun o =>
      e ← newEngine c o clients (mergeInstrumentFailures startupFailures ruleFailures) previous;
      mret (inl (MkRuntime c e)))
  end)).

(** The candidate, and the caller's configuration afterwards. *)
Definition BuildRuntimeCandidate {S} (c : Config) (credentials : bool) (previous : option Runtime)
    : X S (reply Runtime * Config) := fun s =>
  x ← buildCandidate credentials previous c;
  Done (match fst x with
        | inl r => inl (r, sharedWith (snd x) c)
        | inr m => inr m
        end, s).

Definition BuildRuntime {S} (c : Config) (credentials : bool) : X S (reply Runtime * Config) :=
  BuildRuntimeCandidate c credentials None.

Definition onRuntime {A} (c : X (Engine Oracle.Oracle) A) : X Runtime A := zoom rt_Engine set_rt_Engine c.

Definition Runtime_Prepare : X Runtime (option error) := onRuntime Prepare.

(** [r.Config = r.Engine.EffectiveConfig()] *)
Definition takeEffective : X Runtime unit :=
  modifyX (fun r => MkRuntime (EffectiveConfig (rt_Engine r)) (rt_Engine r)).

Definition Runtime_RefreshMarketRules : X Runtime (Z * option error) :=
  r ← onRuntime RefreshMarketRules; takeEffective ;; mret r.

Definition Runtime_RetryBlocked : X Runtime (Z * option error) :=
  r ← onRuntime RetryBlocked; takeEffective ;; mret r.

Definition cleanTarget (failures : list string) (target : MarketTarget) : X Runtime (list string) :=
  err ← onRuntime (CancelMarket (tg_InstrumentID target) (tg_Venue target));
  mret (match err : option error with
        | Some err => failures ++ [tg_Venue target +:+ "/" +:+ tg_InstrumentID target +:+ ": " +:+ Error err]
        | None => failures
        end).

Definition ApplyCleanup (plan : Plan) : X Runtime (option error) :=
  if CancelAll plan then onRuntime Shutdown else
  failures ← foldX cleanTarget (CancelTargets plan) [];
  mret (failuresError "targeted cleanup failed: " failures).
End Runtimes.
