(* ===== verification/Scheduler.v ===== *)
(** The main loop of the trading process (src/cmd/fluxmaker/main.go): which
    configuration runs, how a newly published one replaces it, and what one iteration
    of the loop does.  The heartbeat publisher (src/internal/heartbeat/publisher.go) is
    the state it was last given; its goroutine is an operation of its own.

    Sharing.  The candidate's engine shares the metrics of the running engine and, with
    the same RPC section, its oracle: [oracleShared] says so, and the operations on
    the candidate copy the shared parts in and out.  The candidate also shares its
    instruments and venues with the published configuration it was built from, which
    becomes [activeRawConfig] if it is activated in the same iteration: then
    [rawShared] holds, and changes of the trading rules show in both. *)
From S2P Require Import Prelude Decimal Domain Config Json Runtimeops World Venue Process Rpc Oracle Configdiff Engine EngineCycle EngineControl EngineSafety App.

Open Scope string_scope.
Open Scope list_scope.
Open Scope Z_scope.

(** ** State *)

Record PublisherState := MkPublisherState {
  Path : string;
  Version : Z;
  DesiredVersion : Z;
  Ready : bool;
  pub_Error : string
}.

Record Scheduler := MkScheduler {
  sc_runtime : option Runtime;
  activeVersion : Z;
  desiredVersion : Z;
  activeRawConfig : Config;
  rawShared : bool;
  pendingRuntime : option Runtime;
  oracleShared : bool;
  pendingVersion : Z;
  pendingPlan : Plan;
  runtimeError : string;
  nextRun : Time;
  nextReload : Time;
  nextControl : Time;
  nextRulesRefresh : Time;
  nextBlockedRetry : Time;
  published : PublisherState
}.

(** Assignments to the variables. *)
Definition set_runtime (v : option Runtime) (s : Scheduler) : Scheduler :=
  MkScheduler v (activeVersion s) (desiredVersion s) (activeRawConfig s) (rawShared s)
    (pendingRuntime s) (oracleShared s) (pendingVersion s) (pendingPlan s) (runtimeError s)
    (nextRun s) (nextReload s) (nextControl s) (nextRulesRefresh s) (nextBlockedRetry s)
    (published s).
Definition set_activeVersion (v : Z) (s : Scheduler) : Scheduler :=
  MkScheduler (sc_runtime s) v (desiredVersion s) (activeRawConfig s) (rawShared s)
    (pendingRuntime s) (oracleShared s) (pendingVersion s) (pendingPlan s) (runtimeError s)
    (nextRun s) (nextReload s) (nextControl s) (nextRulesRefresh s) (nextBlockedRetry s)
    (published s).
Definition set_desiredVersion (v : Z) (s : Scheduler) : Scheduler :=
  MkScheduler (sc_runtime s) (activeVersion s) v (activeRawConfig s) (rawShared s)
    (pendingRuntime s) (oracleShared s) (pendingVersion s) (pendingPlan s) (runtimeError s)
    (nextRun s) (nextReload s) (nextControl s) (nextRulesRefresh s) (nextBlockedRetry s)
    (published s).
Definition set_activeRaw (c : Config) (shared : bool) (s : Scheduler) : Scheduler :=
  MkScheduler (sc_runtime s) (activeVersion s) (desiredVersion s) c shared (pendingRuntime s)
    (oracleShared s) (pendingVersion s) (pendingPlan s) (runtimeError s) (nextRun s)
    (nextReload s) (nextControl s) (nextRulesRefresh s) (nextBlockedRetry s) (published s).
Definition set_pending (r : option Runtime) (shared : bool) (version : Z) (s : Scheduler) : Scheduler :=
  MkScheduler (sc_runtime s) (activeVersion s) (desiredVersion s) (activeRawConfig s)
    (rawShared s) r shared version (pendingPlan s) (runtimeError s) (nextRun s) (nextReload s)
    (nextControl s) (nextRulesRefresh s) (nextBlockedRetry s) (published s).
Definition set_pendingPlan (v : Plan) (s : Scheduler) : Scheduler :=
  MkScheduler (sc_runtime s) (activeVersion s) (desiredVersion s) (activeRawConfig s)
    (rawShared s) (pendingRuntime s) (oracleShared s) (pendingVersion s) v (runtimeError s)
    (nextRun s) (nextReload s) (nextControl s) (nextRulesRefresh s) (nextBlockedRetry s)
    (published s).
Definition set_runtimeError (v : string) (s : Scheduler) : Scheduler :=
  MkScheduler (sc_runtime s) (activeVersion s) (desiredVersion s) (activeRawConfig s)
    (rawShared s) (pendingRuntime s) (oracleShared s) (pendingVersion s) (pendingPlan s) v
    (nextRun s) (nextReload s) (nextControl s) (nextRulesRefresh s) (nextBlockedRetry s)
    (published s).
Definition set_nextRun (v : Time) (s : Scheduler) : Scheduler :=
  MkScheduler (sc_runtime s) (activeVersion s) (desiredVersion s) (activeRawConfig s)
    (rawShared s) (pendingRuntime s) (oracleShared s) (pendingVersion s) (pendingPlan s)
    (runtimeError s) v (nextReload s) (nextControl s) (nextRulesRefresh s) (nextBlockedRetry s)
    (published s).
Definition set_nextReload (v : Time) (s : Scheduler) : Scheduler :=
  MkScheduler (sc_runtime s) (activeVersion s) (desiredVersion s) (activeRawConfig s)
    (rawShared s) (pendingRuntime s) (oracleShared s) (pendingVersion s) (pendingPlan s)
    (runtimeError s) (nextRun s) v (nextControl s) (nextRulesRefresh s) (nextBlockedRetry s)
    (published s).
Definition set_nextControl (v : Time) (s : Scheduler) : Scheduler :=
  MkScheduler (sc_runtime s) (activeVersion s) (desiredVersion s) (activeRawConfig s)
    (rawShared s) (pendingRuntime s) (oracleShared s) (pendingVersion s) (pendingPlan s)
    (runtimeError s) (nextRun s) (nextReload s) v (nextRulesRefresh s) (nextBlockedRetry s)
    (published s).
Definition set_nextRulesRefresh (v : Time) (s : Scheduler) : Scheduler :=
  MkScheduler (sc_runtime s) (activeVersion s) (desiredVersion s) (activeRawConfig s)
    (rawShared s) (pendingRuntime s) (oracleShared s) (pendingVersion s) (pendingPlan s)
    (runtimeError s) (nextRun s) (nextReload s) (nextControl s) v (nextBlockedRetry s)
    (published s).
Definition set_nextBlockedRetry (v : Time) (s : Scheduler) : Scheduler :=
  MkScheduler (sc_runtime s) (activeVersion s) (desiredVersion s) (activeRawConfig s)
    (rawShared s) (pendingRuntime s) (oracleShared s) (pendingVersion s) (pendingPlan s)
    (runtimeError s) (nextRun s) (nextReload s) (nextControl s) (nextRulesRefresh s) v
    (published s).
Definition set_published (v : PublisherState) (s : Scheduler) : Scheduler :=
  MkScheduler (sc_runtime s) (activeVersion s) (desiredVersion s) (activeRawConfig s)
    (rawShared s) (pendingRuntime s) (oracleShared s) (pendingVersion s) (pendingPlan s)
    (runtimeError s) (nextRun s) (nextReload s) (nextControl s) (nextRulesRefresh s)
    (nextBlockedRetry s) v.

(** [configstore.ErrNoActive] *)
Definition ErrNoActive : error := Errorf "no published configuration".

Definition zeroConfig : Config :=
  MkConfig "" 0 "" 0 0 "" 0 0 0 0 0 0 0 (MkRPCConfig [] 0 0) [] ∅.

(** The variables before the loop. *)
Definition startScheduler : Scheduler :=
  MkScheduler None 0 0 zeroConfig false None false 0 (emptyPlan false)
    "waiting for a published configuration" zero_time zero_time zero_time zero_time zero_time
    (MkPublisherState "" 0 0 false "").

Definition versionText (version : Z) : string := "version v" +:+ pretty version.

(** ** Sharing between the running engine and the candidate *)

(** The candidate as it is now, given the running runtime. *)
Definition linked (s : Scheduler) (p : Runtime) : Runtime :=
  match sc_runtime s with
  | None => p
  | Some r =>
      let e := set_metrics (metrics (rt_Engine r)) (rt_Engine p) in
      set_rt_Engine (if oracleShared s then set_oracle (rt_Oracle r) e else e) p
  end.

(** The running runtime after the candidate [p] has worked. *)
Definition relinked (s : Scheduler) (p : Runtime) (r : Runtime) : Runtime :=
  let e := set_metrics (metrics (rt_Engine p)) (rt_Engine r) in
  set_rt_Engine (if oracleShared s then set_oracle (rt_Oracle p) e else e) r.

Section Loop.
Context `{HttpRequests} `{Environ} `{MapRange} `{SliceSort} `{Schedule}.
Abbreviation L := (X Scheduler) (only parsing).

(** An operation of the running runtime, if there is one. *)
Definition onRunning {A} (none : A) (c : X Runtime A) : L A := fun s =>
  match sc_runtime s with
  | None => Done (inl none, s)
  | Some r => x ← c r; Done (fst x, set_runtime (Some (snd x)) s)
  end.

(** An operation of the candidate. *)
Definition onPending {A} (none : A) (c : X Runtime A) : L A := fun s =>
  match pendingRuntime s with
  | None => Done (inl none, s)
  | Some p =>
      x ← c (linked s p);
      Done (fst x, set_pending (Some (snd x)) (oracleShared s) (pendingVersion s)
                     (set_runtime (relinked s (snd x) <$> sc_runtime s) s))
  end.

Definition running (s : Scheduler) : bool := bool_decide (is_Some (sc_runtime s)).

(** [updateHeartbeat] and [Publisher.Update] *)
Definition updateHeartbeat : L unit :=
  modifyX (fun s => set_published
    (MkPublisherState (match sc_runtime s with Some r => HeartbeatPath (rt_Config r) | None => "" end)
       (activeVersion s) (desiredVersion s) (running s) (runtimeError s)) s).

(** ** Replacing the configuration *)

Definition dropPending : L unit := modifyX (set_pending None false 0).

(** The error of the write is only logged. *)
Definition setAppliedVersion (version : Z) : L unit :=
  actX (Host (HSetAppliedVersion version)) ;; mret tt.

Definition loadFailed (err : error) (s : Scheduler) : Scheduler :=
  if negb (errors_Is err ErrNoActive)
  then set_runtimeError ("load active configuration: " +:+ Error err) s
  else if running s then s else set_runtimeError "waiting for a published configuration" s.

(** Parameters only: the running engine takes them in place. *)
Definition hotApply (snapshot : ConfigSnapshot) (r : Runtime) : L unit :=
  let e := ApplyParameters (cs_Config snapshot) (rt_Engine r) in
  modifyX (fun s => set_activeRaw (cs_Config snapshot) false
             (set_activeVersion (cs_Version snapshot)
                (set_runtime (Some (MkRuntime (EffectiveConfig e) e)) s))) ;;
  dropPending ;;
  modifyX (fun s => set_nextRun zero_time (set_runtimeError "" s)) ;;
  setAppliedVersion (cs_Version snapshot) ;;
  updateHeartbeat.

(** The candidate of the snapshot, built unless it is there already: the snapshot's
    configuration afterwards, and whether the candidate shares it. *)
Definition buildPending (snapshot : ConfigSnapshot) : L (Config * bool) :=
  s ← getX;
  if (pendingVersion s =? cs_Version snapshot) && bool_decide (is_Some (pendingRuntime s))
  then mret (cs_Config snapshot, false) else
  b ← BuildRuntimeCandidate (cs_Config snapshot) true (sc_runtime s);
  let '(built, c) := b : reply Runtime * Config in
  match built with
  | inr err =>
      dropPending ;;
      modifyX (set_runtimeError (versionText (cs_Version snapshot) +:+ " preparation failed: " +:+ Error err)) ;;
      mret (c, false)
  | inl p =>
      modifyX (fun s =>
        set_pendingPlan (Configdiff.Build (rt_Config <$> sc_runtime s) (rt_Config p))
          (set_pending (Some p) (bool_decide (is_Some (sameRPC (sc_runtime s) (rt_Config p))))
             (cs_Version snapshot) s)) ;;
      mret (c, true)
  end.

(** [strings.Contains] *)
Definition Contains (s sub : string) : bool :=
  match String.index 0 sub s with Some _ => true | None => false end.

Definition preflightPending (version : Z) (err : error) : L unit :=
  modifyX (set_runtimeError (versionText version +:+ " preflight pending: " +:+ Error err)) ;;
  if Contains (ToLower (Error err)) "twap warming" then mret tt else dropPending.

Definition activate (version : Z) (raw : Config) (shared : bool) : L unit :=
  modifyX (fun s =>
    set_activeRaw raw shared (set_activeVersion version
      (set_runtime (linked s <$> pendingRuntime s) s))) ;;
  setAppliedVersion version ;;
  dropPending ;;
  modifyX (fun s => set_nextRun zero_time (set_runtimeError "" s)) ;;
  t1 ← actX Now;
  t2 ← actX Now;
  modifyX (fun s =>
    set_nextBlockedRetry (t2 + 30 * Second)
      (set_nextRulesRefresh
         (t1 + match sc_runtime s with Some r => (RulesRefreshSeconds (rt_Config r) *i Second)%go | None => 0 end) s)).

(** Preflight, cleanup of the running configuration, activation. *)
Definition switch (version : Z) (raw : Config) (shared : bool) : L unit :=
  s ← getX;
  if negb (bool_decide (is_Some (pendingRuntime s))) then mret tt else
  prepareErr ← onPending None Runtime_Prepare;
  match prepareErr : option error with
  | Some err => preflightPending version err
  | None =>
      s ← getX;
      cleanupErr ← onRunning None (ApplyCleanup (pendingPlan s));
      match cleanupErr : option error with
      | Some err =>
          modifyX (set_runtimeError (versionText version +:+ " targeted cleanup failed: " +:+ Error err))
      | None => activate version raw shared
      end
  end.

Definition rebuild (snapshot : ConfigSnapshot) : L unit :=
  b ← buildPending snapshot;
  switch (cs_Version snapshot) (fst b) (snd b).

Definition takeSnapshot (snapshot : ConfigSnapshot) : L unit :=
  s ← getX;
  if cs_Version snapshot =? activeVersion s then modifyX (set_desiredVersion (activeVersion s)) else
  modifyX (set_desiredVersion (cs_Version snapshot)) ;;
  updateHeartbeat ;;
  match sc_runtime s with
  | Some r =>
      if Structural (Configdiff.Build (Some (activeRawConfig s)) (cs_Config snapshot))
      then rebuild snapshot else hotApply snapshot r
  | None => rebuild snapshot
  end.

Definition reload (now : Time) : L unit :=
  s ← getX;
  if now <? nextReload s then mret tt else
  modifyX (set_nextReload (now + 2 * Second)) ;;
  r ← actX (Host HLoadActive);
  match r : reply ConfigSnapshot with
  | inr err => modifyX (loadFailed err)
  | inl snapshot => takeSnapshot snapshot
  end.

(** ** One iteration *)

(** A task of the running runtime that is due. *)
Definition due (now next : Time) (s : Scheduler) : bool := running s && (next <=? now).

(** What a change of the trading rules does to the configuration that shares them. *)
Definition syncRaw : L unit :=
  modifyX (fun s =>
    match sc_runtime s with
    | Some r => if rawShared s
                then set_activeRaw (sharedWith (rt_Config r) (activeRawConfig s)) true s else s
    | None => s
    end).

Definition controls (now : Time) : L unit :=
  s ← getX;
  if due now (nextControl s) s then
    onRunning None (onRuntime ApplyControls) ;;
    modifyX (set_nextControl (now + 500 * Millisecond))
  else mret tt.

Definition rulesRefresh (now : Time) : L unit :=
  s ← getX;
  if due now (nextRulesRefresh s) s && negb (IsZero (nextRulesRefresh s)) then
    onRunning (0, None) Runtime_RefreshMarketRules ;;
    syncRaw ;;
    modifyX (fun s => set_nextRulesRefresh
      (now + match sc_runtime s with Some r => (RulesRefreshSeconds (rt_Config r) *i Second)%go | None => 0 end) s)
  else mret tt.

Definition blockedRetry (now : Time) : L unit :=
  s ← getX;
  if due now (nextBlockedRetry s) s && negb (IsZero (nextBlockedRetry s)) then
    onRunning (0, None) Runtime_RetryBlocked ;;
    syncRaw ;;
    modifyX (set_nextBlockedRetry (now + 30 * Second))
  else mret tt.

Definition cycle (now : Time) : L unit :=
  s ← getX;
  if due now (nextRun s) s then
    onRunning None (onRuntime RunOnce) ;;
    modifyX (fun s => set_nextRun
      (now + match sc_runtime s with Some r => PollInterval (rt_Config r) | None => 0 end) s)
  else mret tt.

Definition iteration : L unit :=
  now ← actX Now;
  reload now ;; controls now ;; updateHeartbeat ;; rulesRefresh now ;; blockedRetry now ;; cycle now.

(** The process: some iterations, then the signal to stop. *)
Fixpoint iterations (n : nat) : L unit :=
  match n with O => mret tt | Datatypes.S n => iteration ;; iterations n end.

Definition terminate : L (option error) := onRunning None (onRuntime Shutdown).

Definition process (n : nat) : L (option error) := updateHeartbeat ;; iterations n ;; terminate.

(** [Publisher.Publish]: the status goes to the store, and the heartbeat file is touched
    while the process is ready. *)
Definition publishHeartbeat : L (option error) :=
  s ← getX;
  let state := published s in
  result ← actX (Host (HHeartbeat (Version state) (DesiredVersion state) (Ready state) (pub_Error state)));
  if Ready state then
    err ← actX (Host (HTouch (Path state)));
    mret (match result : option error, err : option error with
          | Some e1, Some e2 => Some (JoinTwo e1 e2)
          | Some e, None | None, Some e => Some (JoinOne e)
          | None, None => None
          end)
  else mret result.

(** [run] with the flag [-once]. *)
Definition runOnce : L (option error) :=
  r ← actX (Host HLoadActive);
  match r : reply ConfigSnapshot with
  | inr err => mret (Some err)
  | inl snapshot =>
      if String.eqb (cfg_Mode (cs_Config snapshot)) ModeLive
      then mret (Some (Errorf "-once is disabled in live mode")) else
      b ← BuildRuntime (cs_Config snapshot) true;
      match fst b : reply Runtime with
      | inr err => mret (Some err)
      | inl r =>
          modifyX (set_runtime (Some r)) ;;
          err ← onRunning None (onRuntime RunOnce);
          actX (Host (HTouch (HeartbeatPath (rt_Config r)))) ;;
          mret err
      end
  end.
End Loop.
