(* ===== verification/SchedulerFacts.v ===== *)
(** What the trading process as a whole writes to the exchanges, and when a published
    configuration replaces the running one. *)
From S2P Require Import Prelude Decimal Domain Config Json Runtimeops World Venue Process Rpc Oracle Configdiff Discipline Engine EngineCycle EngineControl EngineFacts EngineSafety EngineStops App Scheduler EngineWrites.

Open Scope string_scope.
Open Scope list_scope.
Open Scope Z_scope.

(** ** Fenced traces *)

(** Each write directly follows a validation that passed, of a lease that was acquired
    before. *)
Definition all_fenced (es : trace) : Prop :=
  forall es1 w es2, es = es1 ++ w :: es2 -> is_write w = true -> exists key owner generation,
    last es1 = Some (MkEvent (World.Runtime (RValidateMarketLease key owner generation)) (true, None))
    /\ exists ttl, MkEvent (World.Runtime (RAcquireMarketLease key owner ttl)) (generation, None) ∈ es1.

Lemma all_fenced_app es es' : all_fenced es -> all_fenced es' -> all_fenced (es ++ es').
Proof.
  intros H H' es1 w es2 E Hw. apply app_eq_app in E as (l & [[-> El]|[-> El]]).
  - destruct l as [|w' l]; simplify_eq/=.
    + destruct (H' [] w es2 eq_refl Hw) as (key & owner & generation & Hl & _). done.
    + by eapply H.
  - destruct (H' l w es2 El Hw) as (key & owner & generation & Hl & ttl & Ht).
    exists key, owner, generation. split; [by rewrite last_app, Hl|].
    exists ttl. apply elem_of_app. by right.
Qed.

#[export] Instance all_fenced_quiet : QuietProp all_fenced.
Proof.
  split; [split; [|exact all_fenced_app]|].
  - intros [|x es1] w es2 E; discriminate.
  - intros e He [|x [|y es1]] w es2 E Hw; simplify_eq/=. congruence.
Qed.

Section Fenced.
Context {O : Type} `{PriceSource O} `{MapRange}.
Implicit Types e : Engine O.

Lemma fenced_at e key generation es1 :
  has e isMarketLocker = true -> fenced e key generation (fun x => False \/ x ∈ es1) (last es1) ->
  exists key owner generation,
    last es1 = Some (MkEvent (World.Runtime (RValidateMarketLease key owner generation)) (true, None))
    /\ exists ttl, MkEvent (World.Runtime (RAcquireMarketLease key owner ttl)) (generation, None) ∈ es1.
Proof.
  intros Hl Hf. destruct (Hf Hl) as (Hlast & ttl & [[]|Ht]). exists key, (ownerID e), generation.
  split; [exact Hlast|by exists ttl].
Qed.

Lemma live_all_fenced e es : has e isMarketLocker = true ->
  disciplined (live_rule e) (fun _ => False) None es -> all_fenced es.
Proof.
  intros Hl Hd es1 w es2 -> Hw. apply disciplined_at in Hd; [|apply _].
  destruct (Hd Hw) as (vc & generation & _ & _ & Hf & _). exact (fenced_at _ _ _ _ Hl Hf).
Qed.

Lemma cancel_all_fenced e es : has e isMarketLocker = true ->
  disciplined (cancel_rule e) (fun _ => False) None es -> all_fenced es.
Proof.
  intros Hl Hd es1 w es2 -> Hw. apply disciplined_at in Hd; [|apply _].
  destruct (Hd Hw) as (_ & name & id & market & client & generation & _ & _ & Hf). exact (fenced_at _ _ _ _ Hl Hf).
Qed.
End Fenced.

(** ** Building a candidate *)

Section Build.
Context `{HttpRequests} `{Environ} `{MapRange} `{SliceSort} `{Schedule}.
Context {S : Type} {P : trace -> Prop} `{!QuietProp P} {R : S -> S -> Prop} `{!PreOrder R}.
Implicit Types s : S.

Lemma tryX_runs {A B} (c : X S (reply A)) (f : A -> X S (reply B)) s :
  runs P R c s -> (forall a s', R s s' -> runs P R (f a) s') -> runs P R (tryX c f) s.
Proof. intros Hc Hf. apply runs_bind; [done|]. intros [a|err] s' HR; [by apply Hf|apply runs_ret]. Qed.

Lemma callX_runs {A} (c : prog A) s : emits P c -> runs P R (callX c) s.
Proof.
  intros Hc. eapply ok_bind; [apply settle_ok; exact Hc|].
  intros es [a|e|m] HP; apply ok_done; rewrite app_nil_r; (split; [exact HP|simpl; reflexivity]).
Qed.

Lemma ChainID_quiet rpc : emits quiet (Rpc.ChainID rpc).
Proof.
  unfold Rpc.ChainID. apply (quietM_bind _ _ (request_quiet _ _ _)). intros raw s'. apply emits_done.
Qed.

Lemma quiet_P es : quiet es -> P es.
Proof.
  induction 1 as [|e es He _ IH]; [apply tp_nil|].
  apply (tp_app [e] es); [by apply qp_quiet|exact IH].
Qed.

Ltac build := repeat first [apply tryX_runs | runs_step]; cbv beta zeta.

Lemma BuildVenuesIsolated_runs c credentials s : runs P R (BuildVenuesIsolated c credentials) s.
Proof.
  unfold BuildVenuesIsolated, buildVenuesIsolatedWithRegistry, buildVenue, buildMarket, marketSecret.
  build.
Qed.

Lemma BuildVenues_runs c credentials s : runs P R (BuildVenues c credentials) s.
Proof.
  unfold BuildVenues, BuildVenuesWithRegistry, buildVenuesIsolatedWithRegistry, buildVenue, buildMarket,
    marketSecret. build.
Qed.

Lemma syncMarketRulesIsolated_runs clients previous c s :
  runs P R (syncMarketRulesIsolated clients previous c) s.
Proof. unfold syncMarketRulesIsolated, syncMarket. build. Qed.

Lemma candidateOracle_runs previous c s : runs P R (candidateOracle previous c) s.
Proof.
  unfold candidateOracle. destruct (sameRPC previous c); [apply runs_ret|]. apply tryX_runs.
  - apply callX_runs. eapply spec_mono; [|apply ChainID_quiet]. intros es o. apply quiet_P.
  - intros [id rpc] s' _. apply runs_ret.
Qed.
End Build.

Section Candidate.
Context `{HttpRequests} `{Environ} `{MapRange} `{SliceSort} `{Schedule}.
Context {P : trace -> Prop} `{!QuietProp P}.

Definition free {S} (s s' : S) : Prop := True.
#[local] Instance free_preorder {S} : PreOrder (@free S).
Proof. by split. Qed.

(** A result that can only be that of the last call. *)
Lemma partX_then {S A B} (c : X S A) (f : A -> X S B) s (Q : B + string -> Prop) :
  (forall a s', partX (f a) s' (fun _ o _ => Q o)) -> (forall m, Q (inr m)) ->
  partX (c ≫= f) s (fun _ o _ => Q o).
Proof.
  intros Hf Hm. eapply (partX_bind _ _ _ (fun _ _ _ => True)); [by apply partX_any| |auto].
  intros es a s' _. apply Hf.
Qed.

Lemma partX_try {S A B} (c : X S (reply A)) (f : A -> X S (reply B)) s (Q : reply B + string -> Prop) :
  (forall a s', partX (f a) s' (fun _ o _ => Q o)) -> (forall err, Q (inl (inr err))) ->
  (forall m, Q (inr m)) -> partX (tryX c f) s (fun _ o _ => Q o).
Proof.
  intros Hf He Hm. apply partX_then; [|done]. intros [a|err] s'; [apply Hf|]. by apply partX_ret.
Qed.

(** A candidate's engine has the runtime store. *)
Definition with_store (o : reply Runtime + string) : Prop :=
  forall r, o = inl (inl r) -> runtime (rt_Engine r) = Some runtimeStore.

Lemma with_store_err err : with_store (inl (inr err)).
Proof. by intros r. Qed.
Lemma with_store_panic m : with_store (inr m).
Proof. by intros r. Qed.
Hint Resolve with_store_err with_store_panic : core.

Lemma newEngine_store {S} c o clients failures previous (s : S) :
  partX (newEngine c o clients failures previous) s
    (fun _ o _ => forall e, o = inl e -> runtime e = Some runtimeStore).
Proof.
  unfold newEngine. apply partX_then; [|done]. intros fresh s1. apply partX_then; [|done].
  intros now s2. apply partX_ret. intros e [= <-]. by destruct previous.
Qed.

Lemma buildCandidate_store credentials previous c :
  partX (buildCandidate credentials previous) c (fun _ o _ => with_store o).
Proof.
  unfold buildCandidate. apply partX_then; [|done]. intros _ c1. apply partX_get_bind.
  apply partX_try; [|done|done]. intros _ c2.
  destruct (_ && _); [by apply partX_ret|]. apply partX_try; [|done|done].
  intros [clients failures] c3. apply partX_then; [|done]. intros [c' ruleFailures] c4.
  apply partX_then; [|done]. intros _ c5. apply partX_then; [|done]. intros [?|err] c6; [|by apply partX_ret].
  apply partX_try; [|done|done]. intros o c7.
  eapply partX_bind; [apply newEngine_store| |done]. intros es e c8 He. apply partX_ret.
  intros r [= <-]. by apply He.
Qed.

Lemma buildCandidate_runs credentials previous c : runs P free (buildCandidate credentials previous) c.
Proof.
  unfold buildCandidate. apply runs_bind; [by apply runs_modify|]. intros _ c1 _. apply runs_get_bind.
  apply tryX_runs; [apply runs_goX|]. intros _ c2 _. destruct (_ && _); [apply runs_ret|].
  apply tryX_runs; [apply BuildVenuesIsolated_runs|]. intros [clients failures] c3 _.
  apply runs_bind; [apply syncMarketRulesIsolated_runs|]. intros [c' ruleFailures] c4 _.
  apply runs_bind; [by apply runs_modify|]. intros _ c5 _. apply runs_bind; [apply runs_goX|].
  intros [?|err] c6 _; [|apply runs_ret]. apply tryX_runs; [apply candidateOracle_runs|].
  intros o c7 _. unfold newEngine. go.
Qed.

(** Building writes nothing and leaves the state of the caller alone. *)
Lemma BuildRuntimeCandidate_ok {S} c credentials previous (s : S) :
  okX (BuildRuntimeCandidate c credentials previous) s (fun es o s' =>
    P es /\ s' = s /\ forall b, o = inl b -> with_store (inl (fst b))).
Proof.
  eapply ok_bind; [apply okX_partX; [apply buildCandidate_runs|apply buildCandidate_store]|].
  intros es [o c'] [[HP _] Hs]. apply ok_done. rewrite app_nil_r. simpl in *.
  destruct o as [r|m]; simpl; (split_and!; [done|done|]); intros b [= <-]; done.
Qed.
End Candidate.

(** ** Operations of a runtime *)

Section Loop.
Context `{HttpRequests} `{Environ} `{MapRange} `{SliceSort} `{Schedule}.

Definition stored (r : Runtime) : Prop := runtime (rt_Engine r) = Some runtimeStore.
Definition keeps_stored (r r' : Runtime) : Prop := stored r -> stored r'.

#[local] Instance keeps_stored_preorder : PreOrder keeps_stored.
Proof. split; [by intros r Hs|]. intros r1 r2 r3 H12 H23 Hs. auto. Qed.

(** What an operation of a runtime does to the exchanges. *)
Definition sound {A} (c : X Runtime A) : Prop :=
  forall r, stored r -> runs all_fenced keeps_stored c r.

Lemma stored_locker r : stored r -> has (rt_Engine r) isMarketLocker = true.
Proof. intros E. unfold has. by rewrite E. Qed.

Lemma sound_onRuntime {A} (c : X (Engine Oracle.Oracle) A) :
  (forall e, has e isMarketLocker = true -> okX c e (fun es _ e' => all_fenced es /\ runtime e' = runtime e)) ->
  sound (onRuntime c).
Proof.
  intros Hc r Hs. apply okX_zoom. eapply okX_mono; [by apply Hc, stored_locker|].
  intros es o e' [Hf Hr] . split; [done|]. intros Hst. unfold stored, set_rt_Engine in *. simpl in *.
  congruence.
Qed.

Lemma sound_quiet {A} (c : X (Engine Oracle.Oracle) A) :
  (forall e, runs all_fenced attached c e) -> sound (onRuntime c).
Proof.
  intros Hc. apply sound_onRuntime. intros e _. eapply okX_mono; [apply Hc|].
  intros es o e' [Hf Ha]. split; [done|by destruct Ha].
Qed.

Lemma sound_Prepare : sound (onRuntime Prepare).
Proof. apply sound_quiet. intros e. apply Prepare_runs. Qed.

Lemma sound_cancelling {A} (c : X (Engine Oracle.Oracle) A) :
  (forall e, runs (disciplined (cancel_rule e) (fun _ => False) None) rooted c e) -> sound (onRuntime c).
Proof.
  intros Hc. apply sound_onRuntime. intros e Hl. eapply okX_mono; [apply Hc|].
  intros es o e' [Hd []]. split; [by eapply cancel_all_fenced|done].
Qed.

Lemma sound_ApplyControls : sound (onRuntime ApplyControls).
Proof. apply sound_cancelling. intros e. by apply ApplyControls_runs. Qed.

Lemma sound_Shutdown : sound (onRuntime Shutdown).
Proof. apply sound_cancelling. intros e. by apply runs_rooted, Shutdown_runs. Qed.

Lemma sound_CancelMarket id name : sound (onRuntime (CancelMarket id name)).
Proof. apply sound_cancelling. intros e. by apply runs_rooted, CancelMarket_runs. Qed.

Lemma sound_RunOnce : sound (onRuntime RunOnce).
Proof.
  apply sound_onRuntime. intros e Hl.
  eapply okX_mono; [apply (RunOnce_runs (live_rule e) e (fun _ => False)); [apply live_engine_obeys|reflexivity]|].
  intros es o e' [Hd []]. split; [by eapply live_all_fenced|done].
Qed.

Lemma sound_effective {A} (c : X (Engine Oracle.Oracle) A) : sound (onRuntime c) ->
  sound (r ← onRuntime c; takeEffective ;; mret r).
Proof.
  intros Hc r Hs. apply runs_bind; [by apply Hc|]. intros a r' _.
  apply runs_bind; [apply runs_modify; by intros ?|]. intros _ r'' _. apply runs_ret.
Qed.

Lemma sound_RefreshMarketRules : sound Runtime_RefreshMarketRules.
Proof. apply sound_effective, sound_quiet. intros e. apply RefreshMarketRules_runs. Qed.

Lemma sound_RetryBlocked : sound Runtime_RetryBlocked.
Proof. apply sound_effective, sound_quiet. intros e. apply RetryBlocked_runs. Qed.

Lemma sound_ApplyCleanup plan : sound (ApplyCleanup plan).
Proof.
  intros r Hs. unfold ApplyCleanup. destruct (CancelAll plan); [by apply sound_Shutdown|].
  apply runs_bind; [|intros; apply runs_ret]. apply runs_foldX. intros target failures r' _ Hr.
  unfold cleanTarget. apply runs_bind; [|intros; apply runs_ret]. apply sound_CancelMarket. by apply Hr.
Qed.

(** ** The loop *)

Definition wired (s : Scheduler) : Prop :=
  forall r, sc_runtime s = Some r \/ pendingRuntime s = Some r -> stored r.
Definition keeps_wired (s s' : Scheduler) : Prop := wired s -> wired s'.

#[local] Instance keeps_wired_preorder : PreOrder keeps_wired.
Proof. split; [by intros s Hs|]. intros s1 s2 s3 H12 H23 Hs. auto. Qed.

Abbreviation runsL := (runs all_fenced keeps_wired) (only parsing).

Lemma wired_runtime s r : wired s -> sc_runtime s = Some r -> stored r.
Proof. intros Hw E. apply Hw. by left. Qed.

Lemma wired_pending s p : wired s -> pendingRuntime s = Some p -> stored p.
Proof. intros Hw E. apply Hw. by right. Qed.

Lemma stored_linked s p : stored p -> stored (linked s p).
Proof. unfold linked. destruct (sc_runtime s); [|done]. by destruct (oracleShared s). Qed.

Lemma stored_relinked s p r : stored r -> stored (relinked s p r).
Proof. unfold relinked. by destruct (oracleShared s). Qed.

(** A step that changes neither runtime. *)
Lemma modify_runs f s : (forall s, sc_runtime (f s) = sc_runtime s /\ pendingRuntime (f s) = pendingRuntime s) ->
  runsL (modifyX f) s.
Proof.
  intros Hf. apply runs_modify. intros Hw r. destruct (Hf s) as [-> ->]. apply Hw.
Qed.

Lemma onRunning_runs {A} (none : A) (c : X Runtime A) s : sound c -> wired s -> runsL (onRunning none c) s.
Proof.
  intros Hc Hw. unfold onRunning. unfold runs, okX. destruct (sc_runtime s) as [r|] eqn:E.
  - eapply ok_bind; [by apply Hc, (wired_runtime s)|]. intros es [o r'] [Hf Hk].
    apply ok_done. rewrite app_nil_r. split; [exact Hf|]. intros _ r1 [[= <-]|Hp].
    + by apply Hk, (wired_runtime s).
    + by apply (wired_pending s).
  - apply ok_done. split; [apply tp_nil|by intros ?].
Qed.

Lemma onPending_runs {A} (none : A) (c : X Runtime A) s : sound c -> wired s -> runsL (onPending none c) s.
Proof.
  intros Hc Hw. unfold onPending. unfold runs, okX. destruct (pendingRuntime s) as [p|] eqn:E.
  - eapply ok_bind; [by apply Hc, stored_linked, (wired_pending s)|]. intros es [o p'] [Hf Hk].
    apply ok_done. rewrite app_nil_r. split; [exact Hf|]. intros _ r1 [Hr|[= <-]].
    + apply fmap_Some in Hr as (r & Er & ->). by apply stored_relinked, (wired_runtime s).
    + by apply Hk, stored_linked, (wired_pending s).
  - apply ok_done. split; [apply tp_nil|by intros ?].
Qed.

Lemma act_runs a s : is_write (MkEvent a (offline a)) = false -> runsL (actX a) s.
Proof. intros Ha. apply runs_act. intros r. apply qp_quiet. exact Ha. Qed.

Ltac same := apply modify_runs; intros ?; by split.

Lemma updateHeartbeat_runs s : runsL updateHeartbeat s.
Proof. same. Qed.

Lemma setAppliedVersion_runs v s : runsL (setAppliedVersion v) s.
Proof. apply runs_bind; [by apply act_runs|]. intros r s' _. apply runs_ret. Qed.

Lemma dropPending_runs s : runsL dropPending s.
Proof. apply runs_modify. intros Hw r [E|E]; [|done]. by apply (wired_runtime s). Qed.

Lemma hotApply_runs snapshot r s : wired s -> stored r -> runsL (hotApply snapshot r) s.
Proof.
  intros Hw Hr. unfold hotApply. apply runs_bind.
  { apply runs_modify. intros _ r' [[= <-]|E]; [exact Hr|by apply (wired_pending s)]. }
  intros _ s1 _. apply runs_bind; [apply dropPending_runs|]. intros _ s2 _.
  apply runs_bind; [same|]. intros _ s3 _. apply runs_bind; [apply setAppliedVersion_runs|].
  intros _ s4 _. apply updateHeartbeat_runs.
Qed.

(** Building a candidate is quiet and leaves the running engine in place. *)
Definition waits (s s' : Scheduler) : Prop :=
  keeps_wired s s' /\ activeVersion s' = activeVersion s /\ sc_runtime s' = sc_runtime s.

#[local] Instance waits_preorder : PreOrder waits.
Proof.
  split; [by intros s; split_and!|]. intros s1 s2 s3 (H12 & V12 & R12) (H23 & V23 & R23).
  split_and!; [by transitivity s2|congruence|congruence].
Qed.

Lemma dropPending_waits s : runs quiet waits dropPending s.
Proof.
  apply runs_modify. split_and!; [|done|done]. intros Hw r [E|E]; [|done]. by apply (wired_runtime s).
Qed.

Lemma buildPending_waits snapshot s : runs quiet waits (buildPending snapshot) s.
Proof.
  unfold buildPending. apply runs_get_bind. destruct (_ && _); [apply runs_ret|].
  eapply okX_bind; [apply (BuildRuntimeCandidate_ok (P := quiet))| |].
  - intros es [[p|err] c] s' (Hf & -> & Hp); simpl in *.
    + eapply okX_mono.
      { apply (runs_bind (P := quiet) (R := waits)); [|intros; apply runs_ret].
        apply runs_modify. split_and!; [|done|done]. intros Hw r [E|[= <-]]; [by apply (wired_runtime s)|].
        by apply (Hp _ eq_refl). }
      intros es' o s'' [Hf' Hk]. split; [by apply tp_app|done].
    + eapply okX_mono.
      { apply (runs_bind (P := quiet) (R := waits)); [apply dropPending_waits|].
        intros _ s1 _. apply runs_bind; [|intros; apply runs_ret].
        apply runs_modify. split_and!; [intros Hw; exact Hw|done|done]. }
      intros es' o s'' [Hf' Hk]. split; [by apply tp_app|done].
  - intros es m s' (Hf & -> & _). by split.
Qed.

Lemma buildPending_runs snapshot s : runsL (buildPending snapshot) s.
Proof.
  eapply runs_mono; [apply buildPending_waits| |].
  - intros es. apply quiet_P.
  - by intros s' [Hk _].
Qed.

Lemma activate_runs version raw shared s : wired s -> runsL (activate version raw shared) s.
Proof.
  intros Hw. unfold activate. apply runs_bind.
  { apply runs_modify. intros _ r [E|E]; [|by apply (wired_pending s)]. simpl in E.
    apply fmap_Some in E as (p & Ep & ->). by apply stored_linked, (wired_pending s). }
  intros _ s1 _. apply runs_bind; [apply setAppliedVersion_runs|]. intros _ s2 _.
  apply runs_bind; [apply dropPending_runs|]. intros _ s3 _. apply runs_bind; [same|]. intros _ s4 _.
  apply runs_bind; [by apply act_runs|]. intros t1 s5 _.
  apply runs_bind; [by apply act_runs|]. intros t2 s6 _. same.
Qed.

Lemma switch_runs version raw shared s : wired s -> runsL (switch version raw shared) s.
Proof.
  intros Hw. unfold switch. apply runs_get_bind. destruct (negb _); [apply runs_ret|].
  apply runs_bind; [by apply onPending_runs; [apply sound_Prepare|]|]. intros [err|] s1 Hk1.
  - unfold preflightPending. apply runs_bind; [same|]. intros _ s2 _.
    destruct (Contains _ _); [apply runs_ret|apply dropPending_runs].
  - apply runs_get_bind. apply runs_bind; [apply onRunning_runs; [apply sound_ApplyCleanup|auto]|].
    intros [err|] s2 Hk2; [same|]. apply activate_runs. auto.
Qed.

Lemma reload_runs now s : wired s -> runsL (reload now) s.
Proof.
  intros Hw. unfold reload. apply runs_get_bind. destruct (now <? nextReload s); [apply runs_ret|].
  apply runs_bind; [same|]. intros _ s1 Hk1. apply runs_bind; [by apply act_runs|].
  intros [snapshot|err] s2 Hk2.
  2:{ apply modify_runs. intros s3. unfold loadFailed. destruct (negb _); [done|]. by destruct (running s3). }
  unfold takeSnapshot. apply runs_get_bind. destruct (_ =? _); [same|].
  apply runs_bind; [same|]. intros _ s3 Hk3. apply runs_bind; [apply updateHeartbeat_runs|].
  intros _ s4 Hk4. assert (Hw2 : wired s2) by auto.
  assert (Hrebuild : forall s', wired s' -> runsL (rebuild snapshot) s').
  { intros s' Hw'. unfold rebuild. apply runs_bind; [apply buildPending_runs|].
    intros b s5 Hk5. apply switch_runs. auto. }
  destruct (sc_runtime s2) as [r|] eqn:E; [|apply Hrebuild; auto].
  destruct (Structural _); [apply Hrebuild; auto|]. apply hotApply_runs; [auto|].
  by apply (wired_runtime s2).
Qed.

(** A task that is due. *)
Lemma task_runs {A} (b : bool) (none : A) (c : X Runtime A) (rest : A -> X Scheduler unit) s :
  wired s -> sound c -> (forall a s', runsL (rest a) s') ->
  runsL (if b then onRunning none c ≫= rest else mret tt) s.
Proof.
  intros Hw Hc Hr. destruct b; [|apply runs_ret]. apply runs_bind; [by apply onRunning_runs|].
  intros a s' _. apply Hr.
Qed.

Lemma syncRaw_runs s : runsL syncRaw s.
Proof.
  apply modify_runs. intros s'. destruct (sc_runtime s') eqn:E; [|done]. by destruct (rawShared s').
Qed.

Lemma iteration_runs s : wired s -> runsL iteration s.
Proof.
  intros Hw. unfold iteration. apply runs_bind; [by apply act_runs|]. intros now s0 Hk0.
  apply runs_bind; [apply reload_runs; auto|]. intros _ s1 Hk1.
  apply runs_bind.
  { apply runs_get_bind, task_runs; [auto|apply sound_ApplyControls|]. intros a s'. same. }
  intros _ s2 Hk2. apply runs_bind; [apply updateHeartbeat_runs|]. intros _ s3 Hk3.
  apply runs_bind.
  { apply runs_get_bind, task_runs; [auto 10|apply sound_RefreshMarketRules|]. intros a s'.
    apply runs_bind; [apply syncRaw_runs|]. intros _ s'' _. same. }
  intros _ s4 Hk4. apply runs_bind.
  { apply runs_get_bind, task_runs; [auto 10|apply sound_RetryBlocked|]. intros a s'.
    apply runs_bind; [apply syncRaw_runs|]. intros _ s'' _. same. }
  intros _ s5 Hk5. apply runs_get_bind, task_runs; [auto 10|apply sound_RunOnce|]. intros a s'. same.
Qed.

Lemma iterations_runs n s : wired s -> runsL (iterations n) s.
Proof.
  revert s. induction n as [|n IH]; intros s Hw; simpl; [apply runs_ret|].
  apply runs_bind; [by apply iteration_runs|]. intros _ s' Hk. apply IH. auto.
Qed.

Lemma process_runs n : runsL (process n) startScheduler.
Proof.
  assert (Hw : wired startScheduler) by (intros r [E|E]; discriminate).
  unfold process. apply runs_bind; [apply updateHeartbeat_runs|]. intros _ s1 Hk1.
  apply runs_bind; [apply iterations_runs; auto|]. intros _ s2 Hk2.
  apply onRunning_runs; [apply sound_Shutdown|auto].
Qed.

(** C2: the trading process as a whole, however long it runs: through publications,
    switches, controls, refreshes, cycles and the shutdown, every write to an exchange
    directly follows a validation that passed, of a market lease the process acquired
    before. *)
Theorem process_writes_fenced env past n : exists es o s',
  run env past (process n startScheduler) = (es, Ret (o, s')) /\ all_fenced es.
Proof.
  destruct (ok_run _ _ env past (process_runs n)) as (es & [o s'] & Hrun & Hf & _). by exists es, o, s'.
Qed.
End Loop.

(** When a published configuration replaces the running one: parameters in place, or
    preflight, cleanup and activation in this order. *)

(** The same runtime, with another state of the oracle and other metrics. *)
Definition reshared (r r' : Runtime) : Prop :=
  rt_Config r' = rt_Config r
  /\ exists m o, rt_Engine r' = set_metrics m (set_oracle o (rt_Engine r)).

Lemma linked_reshared s p : reshared p (linked s p).
Proof.
  unfold linked, reshared. destruct p as [c e]. destruct (sc_runtime s) as [r|]; simpl.
  - split; [done|]. exists (metrics (rt_Engine r)).
    destruct (oracleShared s); simpl; [by exists (rt_Oracle r)|exists (oracle e); by destruct e].
  - split; [done|]. exists (metrics e), (oracle e). by destruct e.
Qed.

Lemma relinked_reshared s p r : reshared r (relinked s p r).
Proof.
  unfold relinked, reshared. destruct r as [c e]. simpl. split; [done|].
  exists (metrics (rt_Engine p)).
  destruct (oracleShared s); simpl; [by exists (rt_Oracle p)|exists (oracle e); by destruct e].
Qed.

Section Switch.
Context `{HttpRequests} `{Environ} `{MapRange} `{SliceSort} `{Schedule}.

(** A switch: the candidate [p] passed its preflight, then the cleanup of the running
    runtime reported no error; nothing else wrote to an exchange. *)
Definition switched (env : Env) (past : trace) (r : option Runtime) (plan : Plan) (r' : Runtime)
    (es : trace) : Prop :=
  exists p p' es2 es3 es4, es = es2 ++ es3 ++ es4 /\ quiet es2 /\ quiet es4
    /\ run env past (Runtime_Prepare p) = (es2, Ret (inl None, p')) /\ reshared p' r'
    /\ match r with
       | None => es3 = []
       | Some r => exists r1 r2, reshared r r1
           /\ run env (past ++ es2) (ApplyCleanup plan r1) = (es3, Ret (inl None, r2))
       end.

Lemma run_getX {S A} env past (f : S -> X S A) s :
  run env past ((getX ≫= f) s) = run env past (f s s).
Proof. unfold mbind, X_mbind, getX. rewrite run_bind. simpl. by destruct (run env (past ++ []) (f s s)) eqn:E; rewrite app_nil_r in E. Qed.

Lemma run_actX {S} env past a (s : S) es r s' :
  run env past (actX a s) = (es, Ret (inl r, s')) -> es = [MkEvent a r] /\ s' = s.
Proof. unfold actX. rewrite run_bind. simpl. intros E. by simplify_eq. Qed.

Lemma run_quiet {S A} (R : S -> S -> Prop) env past (c : X S A) s es o s' :
  runs quiet R c s -> run env past (c s) = (es, Ret (o, s')) -> quiet es /\ R s s'.
Proof. intros Hc Hr. exact (ok_run_ret _ _ _ _ _ _ Hc Hr). Qed.

(** What comes after the runtime is set. *)
Definition same_running (s1 s2 : Scheduler) : Prop :=
  activeVersion s2 = activeVersion s1 /\ pendingPlan s2 = pendingPlan s1
  /\ sc_runtime s2 = sc_runtime s1.

#[local] Instance same_running_preorder : PreOrder same_running.
Proof.
  split; [by intros s1|]. intros s1 s2 s3 (?&?&?) (?&?&?). unfold same_running.
  split_and!; congruence.
Qed.

Ltac bookkeeping :=
  repeat (apply runs_bind;
    [first [by apply runs_modify | apply runs_act; intros ?; by repeat constructor
           | apply runs_bind; [apply runs_act; intros ?; by repeat constructor|intros; apply runs_ret]]
    |intros ? ? _]);
  by apply runs_modify.

Lemma activate_run env past version raw shared s es u s' :
  run env past (activate version raw shared s) = (es, Ret (inl u, s')) ->
  quiet es /\ activeVersion s' = version /\ pendingPlan s' = pendingPlan s
  /\ sc_runtime s' = linked s <$> pendingRuntime s.
Proof.
  unfold activate. intros Hr. apply run_bindX in Hr as (es1 & [] & s1 & es2 & -> & Hr1 & Hr2).
  simpl in Hr1. injection Hr1 as <- <-.
  eapply (run_quiet same_running) in Hr2 as [Hq (Hv & Hp & Hs)]; [by rewrite Hv, Hp, Hs|].
  unfold setAppliedVersion, dropPending. bookkeeping.
Qed.

Lemma hotApply_run env past snapshot r s es u s' :
  run env past (hotApply snapshot r s) = (es, Ret (inl u, s')) ->
  quiet es /\ activeVersion s' = cs_Version snapshot
  /\ rt_Engine <$> sc_runtime s' = Some (ApplyParameters (cs_Config snapshot) (rt_Engine r)).
Proof.
  unfold hotApply. intros Hr. apply run_bindX in Hr as (es1 & [] & s1 & es2 & -> & Hr1 & Hr2).
  simpl in Hr1. injection Hr1 as <- <-.
  eapply (run_quiet same_running) in Hr2 as [Hq (Hv & Hp & Hs)]; [by rewrite Hv, Hs|].
  unfold setAppliedVersion, dropPending, updateHeartbeat. bookkeeping.
Qed.

Lemma onPending_run {A} (none : A) (c : X Runtime A) env past s p es o s' :
  pendingRuntime s = Some p -> run env past (onPending none c s) = (es, Ret (o, s')) ->
  exists p', run env past (c (linked s p)) = (es, Ret (o, p'))
    /\ s' = set_pending (Some p') (oracleShared s) (pendingVersion s)
              (set_runtime (relinked s p' <$> sc_runtime s) s).
Proof.
  intros E. unfold onPending. rewrite E, run_bind.
  destruct (run env past (c (linked s p))) as [es1 [[o1 p1]|e|m]]; simpl; [|done|done].
  rewrite app_nil_r. intros [= <- <- <-]. by exists p1.
Qed.

Lemma onRunning_run {A} (none : A) (c : X Runtime A) env past s es o s' :
  run env past (onRunning none c s) = (es, Ret (o, s')) ->
  match sc_runtime s with
  | None => es = [] /\ o = inl none /\ s' = s
  | Some r => exists r', run env past (c r) = (es, Ret (o, r')) /\ s' = set_runtime (Some r') s
  end.
Proof.
  unfold onRunning. destruct (sc_runtime s) as [r|]; [|by intros [= <- <- <-]].
  rewrite run_bind. destruct (run env past (c r)) as [es1 [[o1 r1]|e|m]]; simpl; [|done|done].
  rewrite app_nil_r. intros [= <- <- <-]. by exists r1.
Qed.

Lemma Prepare_quiet r : runs quiet free Runtime_Prepare r.
Proof. eapply (runs_zoom attached); [apply Prepare_runs|done]. Qed.

Lemma switch_run env past version raw shared s es u s' :
  run env past (switch version raw shared s) = (es, Ret (inl u, s')) ->
  activeVersion s' <> activeVersion s ->
  activeVersion s' = version /\ pendingPlan s' = pendingPlan s
  /\ exists p r', pendingRuntime s = Some p /\ sc_runtime s' = Some r'
       /\ switched env past (sc_runtime s) (pendingPlan s) r' es.
Proof.
  unfold switch. intros Hr Hv.
  rewrite run_getX in Hr.
  case_bool_decide as Hp; simpl negb in Hr; cbv iota in Hr; [|by injection Hr as <- _ <-].
  destruct Hp as [p Ep]. apply run_bindX in Hr as (es1 & prepareErr & s1 & esr & -> & Hr1 & Hr).
  apply (onPending_run _ _ _ _ _ p) in Hr1 as (p' & Hprep & ->); [|done].
  destruct prepareErr as [err|].
  { exfalso. apply Hv. revert Hr. unfold preflightPending. intros Hr.
    apply run_bindX in Hr as (es2 & [] & s2 & es3 & -> & Hr2 & Hr3). injection Hr2 as <- <-.
    destruct (Contains _ _); by injection Hr3 as <- _ <-. }
  rewrite run_getX in Hr. apply run_bindX in Hr as (es2 & cleanupErr & s2 & es3 & -> & Hr2 & Hr3).
  apply onRunning_run in Hr2. simpl in Hr2, Hr3, Hv.
  assert (Hv2 : activeVersion s2 = activeVersion s).
  { destruct (sc_runtime s); simpl in Hr2; [destruct Hr2 as (r2 & _ & ->)|destruct Hr2 as (_ & _ & ->)]; done. }
  destruct cleanupErr as [err|]; [injection Hr3 as <- _ <-; simpl in Hv; congruence|].
  apply activate_run in Hr3 as (Hq4 & Hver & Hplan & Hrun).
  destruct (run_quiet _ _ _ _ _ _ _ _ (Prepare_quiet _) Hprep) as [Hq1 _].
  assert (Hs2 : pendingRuntime s2 = Some p' /\ pendingPlan s2 = pendingPlan s).
  { destruct (sc_runtime s); simpl in Hr2; [destruct Hr2 as (r2 & _ & ->)|destruct Hr2 as (_ & _ & ->)]; done. }
  destruct Hs2 as [Ep' Eplan]. rewrite Ep' in Hrun. simpl in Hrun.
  split_and!; [done|congruence|]. exists p, (linked s2 p'). split_and!; [done|done|].
  exists (linked s p), p', es1, es2, es3. split_and!; [done|done|done|done|apply linked_reshared|].
  destruct (sc_runtime s) as [r|]; simpl in Hr2; [|by destruct Hr2].
  destruct Hr2 as (r2 & Hclean & _). exists (relinked s p' r), r2.
  split; [apply relinked_reshared|done].
Qed.

Lemma rebuild_run env past snapshot s es u s' :
  run env past (rebuild snapshot s) = (es, Ret (inl u, s')) -> activeVersion s' <> activeVersion s ->
  activeVersion s' = cs_Version snapshot
  /\ exists es1 es2 r', es = es1 ++ es2 /\ quiet es1 /\ sc_runtime s' = Some r'
       /\ switched env (past ++ es1) (sc_runtime s) (pendingPlan s') r' es2.
Proof.
  unfold rebuild. intros Hr Hv. apply run_bindX in Hr as (es1 & b & s1 & es2 & -> & Hr1 & Hr2).
  apply (run_quiet _ _ _ _ _ _ _ _ (buildPending_waits _ _)) in Hr1 as (Hq1 & _ & Ev & Er).
  apply switch_run in Hr2 as (Hver & Hplan & p & r' & _ & Er' & Hsw); [|congruence].
  split; [done|]. exists es1, es2, r'. rewrite Hplan, <- Er. done.
Qed.

(** How a published configuration takes over. An iteration that changes the active
    version loaded that version; then either it differs from the last one in
    parameters only, and the running engine took them without a write to an exchange,
    or the new engine's candidate passed its preflight and afterwards the cleanup
    planned for the running engine ended without an error, everything else being
    quiet. *)
Theorem reload_activates env past now s es s' :
  run env past (reload now s) = (es, Ret (inl tt, s')) -> activeVersion s' <> activeVersion s ->
  exists snapshot, MkEvent (Host HLoadActive) (inl snapshot) ∈ es
  /\ activeVersion s' = cs_Version snapshot
  /\ ((exists r, sc_runtime s = Some r /\ quiet es
        /\ Structural (Configdiff.Build (Some (activeRawConfig s)) (cs_Config snapshot)) = false
        /\ rt_Engine <$> sc_runtime s' = Some (ApplyParameters (cs_Config snapshot) (rt_Engine r)))
      \/ exists es1 es2 r', es = es1 ++ es2 /\ quiet es1 /\ sc_runtime s' = Some r'
           /\ switched env (past ++ es1) (sc_runtime s) (pendingPlan s') r' es2).
Proof.
  unfold reload. intros Hr Hv. rewrite run_getX in Hr.
  destruct (now <? nextReload s); [by injection Hr as _ <-|].
  apply run_bindX in Hr as (es1 & [] & s1 & es2 & -> & Hr1 & Hr). injection Hr1 as <- <-.
  apply run_bindX in Hr as (es1 & loaded & s1 & es3 & -> & Hr1 & Hr).
  apply (run_actX _ _ (Host HLoadActive)) in Hr1 as [-> ->].
  destruct loaded as [snapshot|err].
  2:{ exfalso. apply Hv. injection Hr as _ <-. unfold loadFailed. destruct (negb _); [done|].
      by destruct (running _). }
  unfold takeSnapshot in Hr. rewrite run_getX in Hr. cbn [app] in *.
  destruct (_ =? _); [by injection Hr as _ <-|].
  apply run_bindX in Hr as (es1 & [] & s1 & es2 & -> & Hr1 & Hr). injection Hr1 as <- <-.
  apply run_bindX in Hr as (es1 & [] & s1 & es3 & -> & Hr1 & Hr). injection Hr1 as <- <-.
  exists snapshot. split; [by left|]. rewrite !app_nil_r in Hr.
  change (sc_runtime (set_nextReload (now + 2 * Second) s)) with (sc_runtime s) in Hr.
  assert (Hre : forall s1, activeVersion s1 = activeVersion s -> sc_runtime s1 = sc_runtime s ->
    run env (past ++ [MkEvent (Host HLoadActive) (inl snapshot)]) (rebuild snapshot s1)
      = (es3, Ret (inl tt, s')) -> activeVersion s' = cs_Version snapshot
    /\ exists es1 es2 r', MkEvent (Host HLoadActive) (inl snapshot) :: es3 = es1 ++ es2
         /\ quiet es1 /\ sc_runtime s' = Some r'
         /\ switched env (past ++ es1) (sc_runtime s) (pendingPlan s') r' es2).
  { intros s1 Ev Er Hr1. apply rebuild_run in Hr1 as (Hver & es1 & es2 & r' & -> & Hq & Er' & Hsw);
      [|congruence]. split; [done|]. rewrite <- app_assoc in Hsw. rewrite Er in Hsw.
    eexists (_ :: es1), es2, r'. split_and!; [done|by constructor|done|exact Hsw]. }
  destruct (sc_runtime s) as [r|] eqn:Er; [destruct (Structural _) eqn:Es|].
  - apply Hre in Hr as [Hver Hsw]; [|done|done]. split; [done|by right].
  - apply hotApply_run in Hr as (Hq & Hver & He). split; [done|]. left. exists r.
    split_and!; [done|by constructor|done|done].
  - apply Hre in Hr as [Hver Hsw]; [|done|done]. split; [done|by right].
Qed.
End Switch.
