(* ===== verification/Watchdog.v ===== *)
(** The watchdog (src/cmd/watchdog/main.go): a second process that cancels every managed
    order when the trading process stops showing signs of life.

    [check] is one iteration of its loop, on the variable [episodeActive]; it ends in a
    pause before the next iteration or returns from [run].  The deadline of the
    cancellations shows as errors of the calls. *)
From S2P Require Import Prelude Decimal Domain Config Json Runtimeops World Venue Process Oms OmsFacts OmsSafety OmsCancel Discipline Engine EngineControl EngineFacts App Scheduler SchedulerFacts.

Open Scope string_scope.
Open Scope list_scope.
Open Scope Z_scope.

Inductive Verdict :=
  | Sleep (interval : Duration)
  | Return (err : option error).

(** ** Texts *)

(** [d.Round(time.Second)], in seconds: halves go away from zero. *)
Definition roundSeconds (d : Duration) : Z :=
  let r := Z.rem (Z.abs d) Second in
  let s := Z.quot (Z.abs d) Second + if r + r <? Second then 0 else 1 in
  if d <? 0 then - s else s.

(** [Duration.String] of a number of seconds. *)
Definition secondsText (s : Z) : string :=
  let u := Z.abs s in
  let h := u / 3600 in
  let m := u / 60 mod 60 in
  (if s <? 0 then "-" else "")
  +:+ (if 0 <? h then pretty h +:+ "h" else "")
  +:+ (if (0 <? h) || (0 <? m) then pretty m +:+ "m" else "")
  +:+ pretty (u mod 60) +:+ "s".

Definition watchdogReason (age : reply Duration) (progressStale : bool) : string :=
  match age with
  | inr ageErr => "process heartbeat unavailable: " +:+ Error ageErr
  | inl age =>
      if progressStale then "trading progress timeout"
      else "process heartbeat stale: " +:+ secondsText (roundSeconds age)
  end.

(** ** Cancelling everything *)

Section Cancel.
Context `{MapRange}.

Definition cancelMarket (clients : gmap string Client) (instrumentID : string)
    (failures : list string) (nv : string * VenueConfig) : X Reconciler (list string) :=
  let '(venueName, v) := nv in
  if negb (venue_Enabled v) || negb (TradingEnabled v) then mret failures else
  match Markets v !! instrumentID with
  | None => mret failures
  | Some market =>
      let failed msg := failures ++ [venueName +:+ "/" +:+ instrumentID +:+ ": " +:+ msg] in
      match clients !! ClientKey venueName instrumentID with
      | None => mret (failed "client missing")
      | Some client =>
          err ← onX id (fun r _ => r) (fun r => CancelManaged r client instrumentID (market_Symbol market));
          mret (match err : option error with
                | Some err => failed (Error err) | None => failures end)
      end
  end.

(** With a reconciler of its own. *)
Definition cancelAll {S} (c : Config) (clients : gmap string Client) : X S (option error) := fun s =>
  x ← foldX (fun failures i =>
               foldX (cancelMarket clients (ID i)) (range (Venues c)) failures)
        (Instruments c) [] Oms.New;
  Done (match fst x with
        | inl failures => inl (failuresError "watchdog cancel failures: " failures)
        | inr m => inr m
        end, s).
End Cancel.

(** ** One check *)

Section Watchdog.
Context `{MapRange} `{SliceSort} (once : bool).

Definition endCheck (err : option error) (interval : Duration) : Verdict :=
  if once then Return err else Sleep interval.

Definition reportWatchdog {S} (healthy triggered : bool) (reason cancelError : string) : X S unit :=
  actX (Host (HReportWatchdog healthy triggered reason cancelError)) ;; mret tt.

(** The configuration the trading process applied, or the active one. *)
Definition watchedConfig {S} : X S (reply ConfigSnapshot) :=
  version ← actX (Host HAppliedVersion);
  if 0 <? version then actX (Host (HLoadVersion version)) else actX (Host HLoadActive).

Definition progressTimeout (c : Config) : Duration :=
  ((if TradingProgressTimeoutSeconds c <=? 0 then 120 else TradingProgressTimeoutSeconds c) *i Second)%go.

(** The age of the heartbeat file and whether the trading progress is too old. *)
Definition signsOfLife {S} (c : Config) : X S (reply Duration * bool) :=
  age ← actX (Host (HHeartbeatAge (HeartbeatPath c)));
  progressAt ← actX (Host HTradingProgress);
  progressStale ← (if IsZero progressAt then mret false else
                     now ← actX Now; mret (progressTimeout c <? TimeSub now progressAt));
  mret (age, progressStale).

Definition isStale (c : Config) (age : reply Duration) (progressStale : bool) : bool :=
  match age with
  | inr _ => true
  | inl age => (WatchdogTimeoutSeconds c *i Second)%go <? age
  end || progressStale.

(** A new episode: the error [run] returns with, if the cancellation did not succeed. *)
Definition trigger (c : Config) (reason : string) : X bool (option error) :=
  clients ← BuildVenues c true;
  match clients : reply (gmap string Client) with
  | inr err => reportWatchdog false true reason (Error err) ;; mret (Some err)
  | inl clients =>
      err ← cancelAll c clients;
      match err : option error with
      | Some err => reportWatchdog false true reason (Error err) ;; mret (Some err)
      | None => modifyX (fun _ => true) ;; reportWatchdog false true reason "" ;; mret None
      end
  end.

Definition checkInterval (c : Config) : Duration :=
  let interval := Z.quot (WatchdogTimeoutSeconds c *i Second)%go 3 in
  if interval <? Second then Second else interval.

Definition watch (c : Config) : X bool Verdict :=
  life ← signsOfLife c;
  let '(age, progressStale) := life : reply Duration * bool in
  episodeActive ← getX;
  if isStale c age progressStale then
    if negb episodeActive then
      err ← trigger c (watchdogReason age progressStale);
      mret (match err with Some err => Return (Some err) | None => endCheck None (checkInterval c) end)
    else
      reportWatchdog false false (watchdogReason age progressStale) "" ;;
      mret (endCheck None (checkInterval c))
  else
    modifyX (fun _ => false) ;;
    reportWatchdog true false "" "" ;;
    mret (endCheck None (checkInterval c)).

Definition check : X bool Verdict :=
  loaded ← watchedConfig;
  match loaded : reply ConfigSnapshot with
  | inr err => mret (endCheck (Some err) (5 * Second))
  | inl snapshot =>
      let c := cs_Config snapshot in
      if negb (String.eqb (cfg_Mode c) ModeLive) then
        reportWatchdog true false "" "" ;; mret (endCheck None (5 * Second))
      else
        valid ← goX (ValidateRuntime c);
        match valid : reply unit with
        | inr err => mret (endCheck (Some err) (5 * Second))
        | inl _ => watch c
        end
  end.
End Watchdog.

(** ** What a cancellation run of a fresh reconciler does *)

(** The exchange of [client] accepted the request to cancel the order [id]. *)
Definition cancel_accepted (client symbol id : string) (es : trace) : Prop :=
  MkEvent (Call client (CCancelOrder symbol id)) None ∈ es
  \/ exists ids, id ∈ ids /\ MkEvent (Call client (CCancelOrders symbol ids)) None ∈ es.

(** It accepted to cancel each of the managed orders it listed. *)
Definition swept (client : Client) (symbol : string) (es : trace) : Prop :=
  exists orders, MkEvent (Call (Name client) (COpenOrders symbol)) (inl orders) ∈ es
  /\ forall o, o ∈ ManagedOrdersFor client orders -> cancel_accepted (Name client) symbol (OrderID o) es.

Lemma cancel_accepted_incl client symbol id es es' : (forall x, x ∈ es -> x ∈ es') ->
  cancel_accepted client symbol id es -> cancel_accepted client symbol id es'.
Proof. intros Hin [Hc|(ids & Hid & Hc)]; [left; auto|right; eauto]. Qed.

Lemma swept_incl client symbol es es' : (forall x, x ∈ es -> x ∈ es') ->
  swept client symbol es -> swept client symbol es'.
Proof.
  intros Hin (orders & Ho & Hall). exists orders. split; [auto|]. intros o Hm.
  by eapply cancel_accepted_incl, Hall.
Qed.

Lemma swept_app_l client symbol es es' : swept client symbol es -> swept client symbol (es ++ es').
Proof. apply swept_incl. set_solver. Qed.

Lemma swept_app_r client symbol es es' : swept client symbol es' -> swept client symbol (es ++ es').
Proof. apply swept_incl. set_solver. Qed.

(** Without an error every order was asked to be cancelled at this exchange, and accepted. *)
Lemma cancelBatches_asks client g symbol fuel ids : (length ids <= fuel)%nat ->
  ok (cancelBatches client g symbol fuel ids) (fun es err =>
    err = None -> forall id, id ∈ ids -> cancel_accepted (Name client) symbol id es).
Proof.
  revert ids. induction fuel as [|fuel IH]; intros [|id ids'] Hf; cbn [cancelBatches];
    try (apply ok_done; by intros _ ? ?%elem_of_nil); [simpl in Hf; lia|].
  set (ids := id :: ids') in *.
  eapply ok_bind; [apply checkWriteGuard_ok|]. intros es [err|] _; [by apply ok_done|].
  apply ok_act. intros [err|]; [by apply ok_done|]. eapply ok_mono.
  { apply IH. rewrite length_drop. unfold ids, maxBatchCancelSize in *. simpl in *. lia. }
  intros es' err Hrest He x Hx. rewrite <- (take_drop maxBatchCancelSize ids) in Hx.
  apply elem_of_app in Hx as [Hx|Hx].
  - right. exists (take maxBatchCancelSize ids). split; [done|]. apply elem_of_app. right. by left.
  - eapply cancel_accepted_incl; [|by apply Hrest]. set_solver.
Qed.

Lemma cancelEach_asks client g symbol orders :
  ok (cancelEach client g symbol orders) (fun es err =>
    err = None -> forall o, o ∈ orders -> cancel_accepted (Name client) symbol (OrderID o) es).
Proof.
  induction orders as [|order orders IH]; simpl; [apply ok_done; by intros _ ? ?%elem_of_nil|].
  eapply ok_bind; [apply checkWriteGuard_ok|]. intros es [err|] _; [by apply ok_done|].
  apply ok_act. intros [err|]; [by apply ok_done|]. eapply ok_mono; [apply IH|].
  intros es' err Hrest He x [->|Hx]%elem_of_cons.
  - left. apply elem_of_app. right. by left.
  - eapply cancel_accepted_incl; [|by apply Hrest]. set_solver.
Qed.

Lemma cancelOrders_asks client symbol orders g :
  ok (cancelOrders client symbol orders g) (fun es err =>
    err = None -> forall o, o ∈ orders -> cancel_accepted (Name client) symbol (OrderID o) es).
Proof.
  unfold cancelOrders. destruct orders as [|o l]; [apply ok_done; by intros _ ? ?%elem_of_nil|]. cbn [length Nat.eqb].
  destruct (isBatchCanceler client); [|apply cancelEach_asks].
  eapply ok_mono; [apply cancelBatches_asks; by rewrite length_map|].
  intros es err He E x Hx. apply He; [done|]. apply list_elem_of_fmap. by exists x.
Qed.

Lemma ensureLoaded_storeless r key : has_store r = false ->
  exists r', ensureLoaded r key = Done (None, r') /\ has_store r' = false
    /\ pendingCancels r' = pendingCancels r.
Proof.
  intros E. unfold ensureLoaded. rewrite E. case_bool_decide; eexists; by split_and!.
Qed.

Lemma persist_storeless r key : has_store r = false -> persist r key = Done None.
Proof. intros E. unfold persist. by rewrite E. Qed.

Section Sweep.
Context `{MapRange} `{SliceSort}.

Lemma sweep_ok r client instrumentID symbol :
  has_store r = false -> let key := stateKey client instrumentID in
  ok (CancelManagedGuardedWithResult r client instrumentID symbol false) (fun es out =>
    placed es = [] /\ same_elsewhere key r (snd out)
    /\ (pendingCancels r !! key = None -> snd (fst out) = None -> swept client symbol es)).
Proof.
  intros Hs key. unfold CancelManagedGuardedWithResult. fold key. apply ok_act. intros [orders|err].
  2:{ apply ok_done. split_and!; [done|reflexivity|done]. }
  set (e0 := MkEvent (Call (Name client) (COpenOrders symbol)) (inl orders)).
  pose proof (ensureLoaded_ok r key) as Hl. destruct (ensureLoaded_storeless r key Hs) as (r1 & El & Hs1 & Hp1).
  rewrite El in *. clear El. destruct Hl as (_ & Hf1 & _). simpl in Hf1. cbn [mbind prog_mbind prog_bind].
  eapply ok_bind; [apply waiting_ok|]. intros es2 [[waiting waitErr] r2] (Hq2 & Hf2 & _ & _ & _ & Hw2).
  cbn [fst snd] in *. assert (Hs2 : has_store r2 = false) by (by rewrite (same_store _ _ _ Hf2)).
  assert (Hf : same_elsewhere key r r2) by (by transitivity r1).
  assert (Hn2 : pendingCancels r !! key = None -> waiting = false /\ waitErr = None).
  { intros Hn. rewrite <- Hp1 in Hn. specialize (Hw2 Hn). by simplify_eq. }
  rewrite (persist_storeless _ _ Hs2). cbn [mbind prog_mbind prog_bind].
  assert (Hq : quiet (e0 :: es2)) by (by apply quiet_cons).
  destruct waitErr as [err|].
  { apply ok_done. rewrite app_nil_r. split_and!; [by apply quiet_nothing|done|done]. }
  destruct waiting.
  { apply ok_done. rewrite app_nil_r. split_and!; [by apply quiet_nothing|done|].
    intros Hn. by destruct (Hn2 Hn). }
  eapply ok_bind; [apply ok_and; [apply cancelOrders_ok|apply cancelOrders_asks]|]. intros es4 e [([_ Hp] & _ & _) Hc].
  assert (Hpl : forall es5, quiet es5 -> placed (e0 :: es2 ++ es4 ++ es5) = []).
  { intros es5 Hq5. change (e0 :: ?l) with ([e0] ++ l).
    rewrite !placed_app, Hp. by rewrite !quiet_placed by auto with go. }
  destruct e as [err|].
  - eapply ok_bind; [apply block_ok|]. intros es5 r5 [Hq5 ->]. apply ok_done. rewrite app_nil_r.
    split_and!; [by apply Hpl| |done]. transitivity r2; [done|]. simpl. auto with go.
  - specialize (Hc eq_refl). eapply ok_bind; [apply setPendingCancels_ok|].
    intros es5 r5 (Hq5 & Hf5 & _). cbv zeta. rewrite persist_storeless;
      [|simpl; by rewrite (same_store _ _ _ Hf5)]. apply ok_done. rewrite app_nil_r.
    split_and!; [by apply Hpl| |].
    + transitivity r2; [done|]. transitivity r5; [done|]. simpl. auto with go.
    + intros _ _. exists orders. split; [by left|]. intros o Ho.
      assert (Hid : OrderID o ∈ map OrderID (withPendingCreates (ManagedOrdersFor client orders)
        (default ∅ (pendingCreates r2 !! key)))).
      { apply withPendingCreates_ids. left. apply list_elem_of_fmap. by exists o. }
      apply list_elem_of_fmap in Hid as (o' & -> & Ho').
      eapply cancel_accepted_incl; [|by apply Hc]. set_solver.
Qed.

Context (clients : gmap string Client) (known : string -> string -> Prop).

(** Different markets, among those that are known, keep their state under different
    keys. *)
Definition distinct_keys : Prop := forall n i n' i' client client',
  known n i -> known n' i' -> clients !! ClientKey n i = Some client -> clients !! ClientKey n' i' = Some client' ->
  stateKey client i = stateKey client' i' -> n = n' /\ i = i'.

Definition fresh (r : Reconciler) (n i : string) : Prop :=
  has_store r = false
  /\ forall client, clients !! ClientKey n i = Some client -> pendingCancels r !! stateKey client i = None.

(** The managed orders of a market the watchdog is responsible for. *)
Definition swept_market (instrumentID : string) (nv : string * VenueConfig) (es : trace) : Prop :=
  forall market, venue_Enabled (snd nv) = true -> TradingEnabled (snd nv) = true ->
  Markets (snd nv) !! instrumentID = Some market ->
  exists client, clients !! ClientKey (fst nv) instrumentID = Some client
    /\ swept client (market_Symbol market) es.

Lemma swept_market_l i nv es es' : swept_market i nv es -> swept_market i nv (es ++ es').
Proof.
  intros Hs market H1 H2 H3. destruct (Hs market H1 H2 H3) as (client & E & Hw).
  exists client. split; [done|by apply swept_app_l].
Qed.

Lemma swept_market_r i nv es es' : swept_market i nv es' -> swept_market i nv (es ++ es').
Proof.
  intros Hs market H1 H2 H3. destruct (Hs market H1 H2 H3) as (client & E & Hw).
  exists client. split; [done|by apply swept_app_r].
Qed.

Definition frame (P : string -> string -> Prop) (r r' : Reconciler) : Prop :=
  has_store r' = has_store r /\ forall n i, known n i -> P n i -> fresh r n i -> fresh r' n i.

Definition knows (i : string) (nv : string * VenueConfig) : Prop :=
  is_Some (Markets (snd nv) !! i) -> known (fst nv) i.

Lemma swept_market_known i nv es :
  (known (fst nv) i -> swept_market i nv es) -> knows i nv -> swept_market i nv es.
Proof. intros Hs Hk market H1 H2 H3. by apply Hs; [apply Hk; eexists|..]. Qed.

Lemma cancelMarket_ok i failures nv r : distinct_keys -> knows i nv -> has_store r = false ->
  okX (cancelMarket clients i failures nv) r (fun es o r' => placed es = []
    /\ frame (fun n' i' => (n', i') <> (fst nv, i)) r r'
    /\ exists fs, o = inl fs
       /\ (fs = [] -> failures = [] /\ (fresh r (fst nv) i -> swept_market i nv es))).
Proof.
  intros Hd Hk Hs. destruct nv as [n v]. unfold cancelMarket.
  assert (Hframe : frame (fun n' i' => (n', i') <> (n, i)) r r) by (by split).
  destruct (venue_Enabled v) eqn:Ee, (TradingEnabled v) eqn:Et; simpl;
    try (apply okX_ret; split_and!; [done|done|]; exists failures; split; [done|];
         intros ->; split; [done|]; intros _ market H1 H2; simpl in *; congruence).
  destruct (Markets v !! i) as [market|] eqn:Em.
  2:{ apply okX_ret. split_and!; [done|done|]. exists failures. split; [done|].
      intros ->. split; [done|]. intros _ market H1 H2 H3. simpl in *. congruence. }
  destruct (clients !! ClientKey n i) as [client|] eqn:Ec.
  2:{ apply okX_ret. split_and!; [done|done|]. eexists. split; [done|]. by destruct failures. }
  eapply (okX_bind _ _ _ (fun es o r' => placed es = [] /\ same_elsewhere (stateKey client i) r r'
    /\ exists err, o = inl err
       /\ (err = None -> pendingCancels r !! stateKey client i = None -> swept client (market_Symbol market) es))).
  - unfold CancelManaged, CancelManagedGuarded.
    eapply (okX_onX _ _ _ _ (fun es x => placed es = []
      /\ same_elsewhere (stateKey client i) r (snd x)
      /\ (pendingCancels r !! stateKey client i = None -> fst x = None ->
          swept client (market_Symbol market) es))).
    + eapply ok_bind; [by apply sweep_ok|]. intros es [[k e] r'] (Hp & Hf & Hsw). apply ok_done.
      rewrite app_nil_r. exact (conj Hp (conj Hf Hsw)).
    + intros es err r' (Hp & Hf & Hsw). split_and!; [done|done|]. exists err. split; [done|].
      intros He Hn. by apply Hsw.
  - intros es err r' (Hp & Hf & err' & [= <-] & Hsw). apply okX_ret. rewrite app_nil_r.
    split_and!; [done| |].
    + split; [apply (same_store _ _ _ Hf)|]. intros n' i' Hk' Hne [Hs' Hn']. split; [by rewrite (same_store _ _ _ Hf)|].
      intros client' Ec'. rewrite (same_cancels _ _ _ Hf); [by apply Hn'|].
      intros E. apply Hne. by destruct (Hd _ _ _ _ _ _ Hk' (Hk ltac:(by eexists)) Ec' Ec E) as [-> ->].
    + destruct err as [err|]; [eexists; split; [done|]; by destruct failures|].
      exists failures. split; [done|]. intros ->. split; [done|].
      intros [_ Hn] market' _ _ Em'. simpl in Em'. simplify_eq. exists client. split; [done|]. by apply Hsw; [|apply Hn].
  - intros es m r' (_ & _ & err & [=] & _).
Qed.

Lemma sweep_venues i l failures r : distinct_keys -> Forall (knows i) l ->
  has_store r = false -> NoDup (map fst l) ->
  okX (foldX (cancelMarket clients i) l failures) r (fun es o r' => placed es = []
    /\ frame (fun _ i' => i' <> i) r r'
    /\ exists fs, o = inl fs /\ (fs = [] -> failures = []
       /\ forall nv, nv ∈ l -> fresh r (fst nv) i -> swept_market i nv es)).
Proof.
  intros Hd. revert failures r. induction l as [|nv l IH]; intros failures r Hk Hs Hnd; simpl.
  { apply okX_ret. split_and!; [done|by split|]. exists failures. split; [done|].
    intros ->. split; [done|]. by intros nv' ?%elem_of_nil. }
  apply NoDup_cons in Hnd as [Hn Hnd]. apply Forall_cons in Hk as [Hk1 Hk].
  eapply okX_bind; [by apply (cancelMarket_ok i failures nv r)| |].
  - intros es fs r' (Hp & [Hs' Hf] & fs' & [= <-] & Hsw).
    eapply okX_mono; [apply IH; [done|congruence|done]|].
    intros es' o r'' (Hp' & [Hs'' Hf'] & fs2 & -> & Hsw').
    split_and!; [by rewrite placed_app, Hp, Hp'| |].
    { split; [congruence|]. intros n' i' Hkn Hne Hfr. apply Hf'; [done|done|]. apply Hf; [done|congruence|done]. }
    exists fs2. split; [done|]. intros E. destruct (Hsw' E) as [E1 Hall]. destruct (Hsw E1) as [E2 H1].
    split; [done|]. intros nv' [->|Hin]%elem_of_cons Hfr.
    + by apply swept_market_l, H1.
    + apply swept_market_known; [|by eapply Forall_forall]. intros Hkn.
      apply swept_market_r, Hall; [done|]. apply Hf; [done| |done]. intros [= Ee]. apply Hn. rewrite <- Ee.
      apply list_elem_of_fmap. by exists nv'.
  - intros es m r' (_ & _ & fs & [=] & _).
Qed.

(** Every market of every instrument that is fresh at the beginning is swept. *)
Lemma sweep_instruments (venues : list (string * VenueConfig)) instruments failures r :
  distinct_keys -> Forall (fun i => Forall (knows (ID i)) venues) instruments ->
  has_store r = false -> NoDup (map fst venues) ->
  okX (foldX (fun failures i => foldX (cancelMarket clients (ID i)) venues failures) instruments failures) r
    (fun es o _ => placed es = [] /\ exists fs, o = inl fs /\ (fs = [] -> failures = []
       /\ forall i nv, i ∈ instruments -> nv ∈ venues -> (forall n, known n (ID i) -> fresh r n (ID i)) ->
            swept_market (ID i) nv es)).
Proof.
  intros Hd Hk Hs Hnd. revert failures r Hs. induction instruments as [|i l IH]; intros failures r Hs; simpl.
  { apply okX_ret. split; [done|]. exists failures. split; [done|]. intros ->. split; [done|].
    by intros i nv ?%elem_of_nil. }
  apply Forall_cons in Hk as [Hk1 Hk].
  eapply okX_bind; [by apply (sweep_venues (ID i) venues failures r)| |].
  - intros es fs r' (Hp & [Hs' Hf] & fs' & [= <-] & Hsw).
    eapply okX_mono; [apply IH; [done|congruence]|].
    intros es' o r'' (Hp' & fs2 & -> & Hsw'). split; [by rewrite placed_app, Hp, Hp'|].
    exists fs2. split; [done|]. intros E. destruct (Hsw' E) as [E1 Hall]. destruct (Hsw E1) as [E2 H1].
    split; [done|]. intros j nv Hj Hnv Hfr.
    destruct (decide (ID j = ID i)) as [Ej|Hne].
    + rewrite Ej in *. apply swept_market_known; [|eapply Forall_forall; [exact Hk1|done]].
      intros Hkn. apply swept_market_l, H1; [done|by apply Hfr].
    + apply elem_of_cons in Hj as [->|Hj]; [done|]. apply swept_market_r, Hall; [done|done|].
      intros n Hkn. apply Hf; [done|done|by apply Hfr].
  - intros es m r' (_ & _ & fs & [=] & _).
Qed.

Lemma cancelAll_ok {S} c (s : S) : distinct_keys ->
  (forall n i v, Venues c !! n = Some v -> is_Some (Markets v !! i) -> known n i) ->
  okX (cancelAll c clients) s (fun es o s' => placed es = [] /\ s' = s
    /\ exists err, o = inl err /\ (err = None -> forall i nv, i ∈ Instruments c ->
         nv ∈ range (Venues c) -> swept_market (ID i) nv es)).
Proof.
  intros Hd Hk. eapply ok_bind.
  - apply (sweep_instruments (range (Venues c)) (Instruments c) [] Oms.New); [done| |done|apply NoDup_range].
    apply Forall_forall. intros i _. apply Forall_forall. intros [n v] Hnv Hm.
    apply elem_of_range in Hnv. by eapply Hk.
  - intros es [o r] (Hp & fs & Ho & Hsw). simpl in Ho. subst o. apply ok_done. rewrite app_nil_r.
    split_and!; [done|done|]. eexists. split; [done|]. intros He i nv Hi Hnv.
    apply (Hsw ltac:(by destruct fs)); [done|done|]. intros n _. split; [done|]. intros client _.
    apply lookup_empty.
Qed.
End Sweep.

(** ** The clients the watchdog builds *)

Section Built.
Context `{MapRange} `{SliceSort} (c : Config).

Definition market_of (n i : string) (m : VenueMarketConfig) : Prop :=
  exists v, Venues c !! n = Some v /\ Markets v !! i = Some m.

Definition known_market (n i : string) : Prop := exists m, market_of n i m.

(** The client that the adapter of the venue makes for a market, with the key and the secret
    that the credential service gave for it. *)
Definition client_of (es : trace) (n i : string) (v : VenueConfig) (m : VenueMarketConfig) (client : Client) : Prop :=
  exists registry key secret,
    defaultVenueRegistry = Ret registry
    /\ (if 0 <? CredentialID m
        then MkEvent (Host (HResolveCredential (CredentialID m) (venue_Type v))) (inl (key, secret)) ∈ es
        else key = "" /\ secret = "")
    /\ Venue.Build registry (venue_Type v)
         (MkClientOptions (n +:+ "/" +:+ i) (stateIdentityOf n i m) (BaseURL v) key secret
            (SelfTradePrevention v) (if RequestTimeout c <=? 0 then 5 * Second else RequestTimeout c)) = Ret client.

Lemma client_of_incl es es' n i v m client : (forall x, x ∈ es -> x ∈ es') ->
  client_of es n i v m client -> client_of es' n i v m client.
Proof.
  intros Hin (registry & key & secret & Hr & Hs & Hb). exists registry, key, secret. split_and!; [done| |done].
  destruct (0 <? CredentialID m); auto.
Qed.

(** Each client is that of a market of the configuration. *)
Definition built (es : trace) (clients : gmap string Client) : Prop := forall k client,
  clients !! k = Some client -> exists n i v m,
    Venues c !! n = Some v /\ Markets v !! i = Some m /\ k = ClientKey n i /\ client_of es n i v m client.

(** Different markets have different keys for their clients and for their states. *)
Definition separate : Prop := forall n i m n' i' m',
  market_of n i m -> market_of n' i' m' ->
  ClientKey n i = ClientKey n' i' \/ stateIdentityOf n i m +:+ ":" +:+ i = stateIdentityOf n' i' m' +:+ ":" +:+ i' ->
  n = n' /\ i = i'.

Lemma identity_nonempty n i m : stateIdentityOf n i m <> "".
Proof. unfold stateIdentityOf. destruct (ToLower n); discriminate. Qed.

(** The factories of a registry are those it was made of, under their types. *)
Lemma registry_factory factories registry k f :
  NewRegistry factories = Ret registry -> registry !! k = Some f ->
  Some f ∈ factories /\ k = ToLower (TrimSpace (FType f)).
Proof.
  unfold NewRegistry. intros Hr.
  assert (Hg : forall l r r', foldM Register l r = Ret r' -> r' !! k = Some f ->
    r !! k = Some f \/ Some f ∈ l /\ k = ToLower (TrimSpace (FType f))).
  { induction l as [|g l IH]; intros r r' Hf Hk; simpl in Hf; [injection Hf as <-; by left|].
    apply bind_ret_inv in Hf as (r1 & H1 & Hf). destruct (IH _ _ Hf Hk) as [H2|[H2 H3]]; [|right; split; [by right|done]].
    destruct g as [g|]; [|done]. simpl in H1. apply bind_ret_inv in H1 as ([] & _ & H1).
    destruct (r !! _); [done|]. injection H1 as <-. apply lookup_insert_Some in H2 as [[<- ->]|[_ H2]].
    - right. split; [left|done].
    - by left. }
  intros Hk. destruct (Hg _ _ _ Hr Hk) as [Hn|Hin]; [by rewrite lookup_empty in Hn|done].
Qed.

(** What the adapters of the default registry make of their options: they keep the name and
    the identity, and the one of MGBX is responsible for every order of the account. *)
Lemma client_adapter es n i v m client : client_of es n i v m client ->
  Name client = n +:+ "/" +:+ i /\ StateIdentity client = Some (stateIdentityOf n i m)
  /\ (ToLower (TrimSpace (venue_Type v)) = "mgbx" -> ManagesAllOrders client = true).
Proof.
  intros (registry & key & secret & Hr & _ & Hb). unfold Venue.Build in Hb.
  destruct (registry !! _) as [f|] eqn:E; [|done].
  apply (registry_factory _ _ _ _ Hr) in E as [E Ek]. rewrite !elem_of_cons in E.
  destruct E as [[= ->]|[[= ->]|E%elem_of_nil]]; [| |done]; simpl in Hb; injection Hb as <-; (split_and!; [done|done|]).
  - intros Em. rewrite Em in Ek. by vm_compute in Ek.
  - done.
Qed.

Lemma built_distinct es clients : separate -> built es clients -> distinct_keys clients known_market.
Proof.
  intros Hs Hb.
  assert (Hkey : forall n i client, known_market n i -> clients !! ClientKey n i = Some client ->
    exists m, market_of n i m /\ stateKey client i = stateIdentityOf n i m +:+ ":" +:+ i).
  { intros n i client [m Hm] Hc. destruct (Hb _ _ Hc) as (n0 & i0 & v0 & m0 & Hv0 & Hm0 & Ek & Ecl).
    destruct (Hs n i m n0 i0 m0 Hm ltac:(by exists v0) (or_introl Ek)) as [<- <-].
    exists m0. split; [by exists v0|]. apply client_adapter in Ecl as (_ & Ei & _).
    unfold stateKey. rewrite Ei. destruct (String.eqb_spec (stateIdentityOf n i m0) "") as [E|_]; [|done].
    by apply identity_nonempty in E. }
  intros n i n' i' client client' Hk Hk' Hc Hc' E.
  destruct (Hkey _ _ _ Hk Hc) as (m & Hm & Ek), (Hkey _ _ _ Hk' Hc') as (m' & Hm' & Ek').
  rewrite Ek, Ek' in E. apply (Hs _ _ _ _ _ _ Hm Hm'). by right.
Qed.

Lemma built_incl es es' clients : (forall x, x ∈ es -> x ∈ es') -> built es clients -> built es' clients.
Proof.
  intros Hin Hb k client Hk. destruct (Hb k client Hk) as (n & i & v & m & Hv & Hm & Ek & Hc).
  exists n, i, v, m. split_and!; [done..|]. by eapply client_of_incl.
Qed.

Lemma marketSecret_seen {S} credentials v m (s : S) :
  partX (marketSecret c credentials v m) s (fun es o _ => forall key secret, o = inl (inl (key, secret)) ->
    if 0 <? CredentialID m
    then MkEvent (Host (HResolveCredential (CredentialID m) (venue_Type v))) (inl (key, secret)) ∈ es
    else key = "" /\ secret = "").
Proof.
  unfold marketSecret. destruct (0 <? CredentialID m).
  - destruct credentials; simpl; [|by apply partX_ret]. apply partX_act_bind. intros [[key secret]|err]; apply partX_ret.
    + intros key' secret' [= <- <-]. left.
    + done.
  - apply partX_ret. by destruct (EngineCycle.live _ _); intros key secret; [|intros [= <- <-]].
Qed.

Lemma buildMarket_built {S} credentials registry n v acc im es0 (s : S) :
  defaultVenueRegistry = Ret registry -> Venues c !! n = Some v -> Markets v !! fst im = Some (snd im) ->
  built es0 (fst acc) ->
  partX (buildMarket c credentials registry n v acc im) s
    (fun es o _ => forall acc', o = inl acc' -> built (es0 ++ es) (fst acc')).
Proof.
  intros Hr Hv Hm Hb. destruct acc as [clients failures], im as [i m]. unfold buildMarket.
  assert (Hkeep : forall es, built (es0 ++ es) clients).
  { intros es. eapply built_incl; [|exact Hb]. set_solver. }
  eapply partX_bind; [apply marketSecret_seen| |by intros es msg s1 _ acc' [=]].
  intros es [[key secret]|msg] s1 Hsec; [|apply partX_ret; intros ? [= <-]; apply Hkeep].
  specialize (Hsec key secret eq_refl). cbv zeta. destruct (Venue.Build _ _ _) as [client|err|msg] eqn:E; unfold goX.
  - apply partX_ret. intros acc' [= <-]. simpl. intros k client' Hk.
    apply lookup_insert_Some in Hk as [[<- <-]|[_ Hk]]; [|by apply (Hkeep (es ++ []))].
    exists n, i, v, m. split_and!; [done..|]. exists registry, key, secret. split_and!; [done| |done].
    destruct (0 <? CredentialID m); [set_solver|done].
  - apply partX_ret. intros acc' [= <-]. apply (Hkeep (es ++ [])).
  - by intros ?.
Qed.

(** A fold all of whose results have a property of the events so far. *)
Lemma partX_fold_result {S A B} (I : trace -> B -> Prop) (f : B -> A -> X S B) l es0 b (s : S) :
  (forall x es b s, x ∈ l -> I es b -> partX (f b x) s (fun es' o _ => forall b', o = inl b' -> I (es ++ es') b')) ->
  I es0 b -> partX (foldX f l b) s (fun es o _ => forall b', o = inl b' -> I (es0 ++ es) b').
Proof.
  revert es0 b s. induction l as [|x l IH]; intros es0 b s Hf Hb; simpl.
  { apply partX_ret. intros ? [= <-]. by rewrite app_nil_r. }
  eapply partX_bind; [apply Hf; [left|done]| |by intros es m s' _ b' [=]].
  intros es b' s' Hb'. eapply partX_mono.
  { apply (IH (es0 ++ es)); [|by apply Hb']. intros y es2 b2 s2 Hy. apply Hf. by right. }
  intros es' o s'' Hi b2 E. rewrite app_assoc. by apply Hi.
Qed.

Lemma BuildVenues_built {S} credentials (s : S) :
  partX (BuildVenues c credentials) s
    (fun es o _ => forall clients, o = inl (inl clients) -> built es clients).
Proof.
  unfold BuildVenues, tryX. destruct defaultVenueRegistry as [registry|err|m] eqn:Er; [|apply partX_ret; by intros ? [=]|done].
  unfold BuildVenuesWithRegistry, tryX, buildVenuesIsolatedWithRegistry.
  eapply (partX_bind _ _ _ (fun es o _ => forall acc, o = inl (inl acc) -> built es (fst acc))).
  - eapply partX_bind; [| |by intros es msg s' _ acc [=]].
    + apply (partX_fold_result (fun es acc => built es (fst acc)) _ _ []); [|by intros k client Hk].
      intros [n v] es acc s1 Hnv Hb. apply elem_of_range in Hnv. unfold buildVenue.
      destruct (venue_Enabled v); simpl; [|apply partX_ret; intros ? [= <-]; by rewrite app_nil_r].
      apply (partX_fold_result (fun es acc => built es (fst acc))); [|done].
      intros [i m] es' acc' s2 Him Hb'. apply elem_of_range in Him. by apply buildMarket_built.
    + intros es acc s1 Hb. apply partX_ret. intros acc' [= <-]. rewrite app_nil_r. by apply Hb.
  - intros es [[clients failures]|err] s1 Hb; [|apply partX_ret; by intros ? [=]].
    apply partX_ret. intros clients' E. destruct (sortStrings _); [|done].
    injection E as <-. rewrite app_nil_r. exact (Hb _ eq_refl).
  - by intros es msg s1 _ clients [=].
Qed.
End Built.

(** ** Checks *)

Section Checks.
Context `{MapRange} `{SliceSort}.

(** The configuration of the version the trading process applied, or the active one. *)
Definition loadedConfig (es : trace) (snapshot : ConfigSnapshot) : Prop := exists version,
  MkEvent (Host HAppliedVersion) version ∈ es
  /\ if 0 <? version then MkEvent (Host (HLoadVersion version)) (inl snapshot) ∈ es
     else MkEvent (Host HLoadActive) (inl snapshot) ∈ es.

Definition loadedLive (es : trace) (snapshot : ConfigSnapshot) : Prop :=
  loadedConfig es snapshot /\ cfg_Mode (cs_Config snapshot) = ModeLive.

Lemma loadedLive_l es es' snapshot : loadedLive es snapshot -> loadedLive (es ++ es') snapshot.
Proof.
  intros [(version & Hv & Hl) Hm]. split; [|done]. exists version.
  split; [apply elem_of_app; by left|]. destruct (0 <? version); apply elem_of_app; by left.
Qed.

(** The heartbeat file is unreadable or too old, or the trading progress is. *)
Definition lifeless (c : Config) (es : trace) : Prop :=
  (exists age, MkEvent (Host (HHeartbeatAge (HeartbeatPath c))) age ∈ es
     /\ match age with inl age => (WatchdogTimeoutSeconds c *i Second)%go < age | inr _ => True end)
  \/ exists progressAt now, MkEvent (Host HTradingProgress) progressAt ∈ es
     /\ IsZero progressAt = false /\ MkEvent Now now ∈ es /\ progressTimeout c < TimeSub now progressAt.

(** The orders that the watchdog is responsible for: on MGBX all of the account, elsewhere
    those whose client id is one of this program. *)
Definition ours (v : VenueConfig) (o : Order) : Prop :=
  ToLower (TrimSpace (venue_Type v)) = "mgbx" \/ HasPrefix (ClientID o) managedPrefix = true.

(** Every market that is traded has been swept: the adapter of its venue, for its account,
    listed its orders, and accepted to cancel each one that is ours. *)
Definition sweeps (c : Config) (es : trace) : Prop := forall i n v market,
  i ∈ Instruments c -> Venues c !! n = Some v -> venue_Enabled v = true ->
  TradingEnabled v = true -> Markets v !! ID i = Some market ->
  exists client orders,
    client_of c es n (ID i) v market client /\ Name client = n +:+ "/" +:+ ID i
    /\ MkEvent (Call (Name client) (COpenOrders (market_Symbol market))) (inl orders) ∈ es
    /\ forall o, o ∈ orders -> ours v o ->
         cancel_accepted (Name client) (market_Symbol market) (OrderID o) es.

Lemma sweeps_incl c es es' : (forall x, x ∈ es -> x ∈ es') -> sweeps c es -> sweeps c es'.
Proof.
  intros Hin Hs i n v market H1 H2 H3 H4 H5.
  destruct (Hs i n v market H1 H2 H3 H4 H5) as (client & orders & Hc & Hn & Ho & Hall).
  exists client, orders. split_and!; [by eapply client_of_incl|done|auto|].
  intros o Hino Hours. by eapply cancel_accepted_incl, Hall.
Qed.

Lemma sweeps_r c es es' : sweeps c es' -> sweeps c (es ++ es').
Proof. apply sweeps_incl. set_solver. Qed.

Lemma sweeps_l c es es' : sweeps c es -> sweeps c (es ++ es').
Proof. apply sweeps_incl. set_solver. Qed.

Lemma ours_managed c es n i v m client orders o : client_of c es n i v m client -> ours v o -> o ∈ orders ->
  o ∈ ManagedOrdersFor client orders.
Proof.
  intros Hc Ho Hin. unfold ManagedOrdersFor, ManagedOrders. apply list_elem_of_filter. split; [|done].
  apply orb_true_iff. destruct Ho as [Hm|Hp]; [left|by right].
  apply client_adapter in Hc as (_ & _ & Hall). by apply Hall.
Qed.

Lemma lifeless_l c es es' : lifeless c es -> lifeless c (es ++ es').
Proof.
  intros [(age & Hin & Ha)|(p & now & Hin & Hz & Hn & Hp)]; [left|right].
  - exists age. split; [apply elem_of_app; by left|done].
  - exists p, now. split_and!; [apply elem_of_app; by left|done|apply elem_of_app; by left|done].
Qed.

Lemma placed_nil_app es es' : placed es = [] -> placed es' = [] -> placed (es ++ es') = [].
Proof. intros E E'. by rewrite placed_app, E, E'. Qed.

#[local] Instance places_nothing : QuietProp (fun es => placed es = []).
Proof. split; [split; [done|apply placed_nil_app]|]. intros e He. by apply quiet_placed, quiet_one. Qed.

#[local] Instance anyhow {S} : PreOrder (fun _ _ : S => True).
Proof. by split. Qed.

Section Runs.
Context {P : trace -> Prop} `{!QuietProp P} {S : Type} {R : S -> S -> Prop} `{!PreOrder R}.

Lemma report_runs healthy triggered reason text s :
  runs P R (reportWatchdog healthy triggered reason text) s.
Proof. unfold reportWatchdog. repeat runs_step. Qed.

Lemma watchedConfig_runs s : runs P R watchedConfig s.
Proof. unfold watchedConfig. repeat runs_step. Qed.

Lemma signsOfLife_runs c s : runs P R (signsOfLife c) s.
Proof. unfold signsOfLife. repeat runs_step. Qed.
End Runs.

Lemma cancelAll_places {S} c clients (s : S) :
  runs (fun es => placed es = []) eq (cancelAll c clients) s.
Proof.
  eapply ok_bind.
  - eapply (runs_foldX (P := fun es => placed es = []) (R := fun _ _ => True)). intros i fs r' _ _.
    apply runs_foldX. intros [n v] fs' r'' _ _. unfold cancelMarket. repeat runs_step.
    apply (runs_onX (P := fun es => placed es = []) (R := fun _ _ => True)); [|done].
    apply (emits_bind (P := fun es => placed es = [])); [|intros [[k e] r2]; by apply emits_done].
    eapply spec_mono; [|apply CancelManaged_ok].
    intros es [x|e|m]; simpl; [tauto|done..].
  - intros es [o r] [Hp _]. apply ok_done. rewrite app_nil_r. split; [done|]. reflexivity.
Qed.
Lemma okX_imp {S A} (A0 : Prop) (m : X S A) s Q Q' :
  okX m s Q -> (A0 -> okX m s Q') -> okX m s (fun es o s' => Q es o s' /\ (A0 -> Q' es o s')).
Proof.
  unfold okX, ok. generalize (m s). intros p HQ HQ'.
  enough (spec any_result p (fun es o => A0 -> returns (fun es x => Q' es (fst x) (snd x)) es o)) as Hi.
  { eapply spec_mono; [|exact (spec_and _ _ _ _ HQ Hi)]. intros es [x|e|msg]; simpl; tauto. }
  clear HQ. revert HQ'. generalize (returns (fun es x => Q' es (fst x) (snd x))).
  induction p as [| | |a k IH]; intros Q0 HQ'; simpl in *; auto.
Qed.

Lemma cancelAll_sweeps {S} c es0 clients (s : S) : separate c -> built c es0 clients ->
  okX (cancelAll c clients) s (fun es o _ => o = inl None -> sweeps c (es0 ++ es)).
Proof.
  intros Hsep Hb. eapply okX_mono.
  - apply (cancelAll_ok clients (known_market c)); [by eapply built_distinct|].
    intros n i v Hv [m Hm]. by exists m, v.
  - intros es o s' (_ & _ & err & -> & Hsw) [= ->] i n v market Hi Hv He Ht Hm.
    destruct (Hsw eq_refl i (n, v) Hi ltac:(by apply elem_of_range) market He Ht Hm) as (client & Hc & orders & Ho & Hall).
    simpl in Hc. destruct (Hb _ _ Hc) as (n0 & i0 & v0 & m & Hv0 & Hm0 & Ek & Hcl).
    destruct (Hsep n (ID i) market n0 i0 m) as [<- <-]; [by exists v|by exists v0|by left|]. simplify_eq.
    exists client, orders. split_and!.
    + eapply client_of_incl; [|exact Hcl]. set_solver.
    + by apply client_adapter in Hcl as [? _].
    + set_solver.
    + intros o Hin Hours. eapply cancel_accepted_incl; [|apply Hall; by eapply ours_managed]. set_solver.
Qed.

Lemma report_then {A} healthy triggered reason text (a : A) (s : bool) :
  okX (reportWatchdog healthy triggered reason text ;; mret a) s (fun es o s' => quiet es /\ s' = s /\ o = inl a).
Proof.
  unfold reportWatchdog. apply ok_act. intros r. apply ok_done. split; [by repeat constructor|done].
Qed.

Lemma trigger_ok c reason :
  okX (trigger c reason) false (fun es o episode => placed es = []
    /\ (separate c -> episode = true -> sweeps c es)).
Proof.
  assert (Hreport : forall es es' s', placed es = [] -> quiet es' /\ s' = false /\ True ->
    placed (es ++ es') = [] /\ (separate c -> s' = true -> sweeps c (es ++ es'))).
  { intros es es' s' Hp (Hq & -> & _). split; [|done]. by apply placed_nil_app, quiet_placed. }
  unfold trigger. eapply (okX_bind _ _ _ (fun es o episode => (placed es = [] /\ episode = false)
    /\ forall clients, o = inl (inl clients) -> built c es clients)).
  - eapply okX_mono; [apply okX_partX; [|apply (BuildVenues_built c)]|].
    + apply (BuildVenues_runs (P := fun es => placed es = []) (R := eq)).
    + by intros es o episode [[Hp <-] Hb].
  - intros es [clients|err] episode [[Hp ->] Hb].
    2:{ eapply okX_mono; [apply report_then|]. intros es' o s' (Hq & -> & _). by apply Hreport. }
    eapply (okX_bind _ _ _ (fun es1 o s' => (placed es1 = [] /\ s' = false)
      /\ (separate c -> o = inl None -> sweeps c (es ++ es1)))).
    + apply okX_imp; [|intros Hsep; apply cancelAll_sweeps; [done|by apply Hb]].
      eapply okX_mono; [apply cancelAll_places|]. by intros es' o s' [Hp' <-].
    + intros es1 [err|] s1 [[Hp1 ->] Hsw].
      { eapply okX_mono; [apply report_then|]. intros es' o s' (Hq & -> & _).
        rewrite app_assoc. by apply Hreport; [apply placed_nil_app|]. }
      eapply okX_mono; [exact (report_then false true reason "" None true)|].
      intros es' o s' (Hq & -> & _). apply quiet_placed in Hq.
      split; [by repeat apply placed_nil_app|]. intros Hsep _. rewrite app_assoc. by apply sweeps_l, Hsw.
    + intros es1 m s1 [[Hp1 ->] _]. split; [by apply placed_nil_app|done].
  - intros es m episode [[Hp ->] _]. by split.
Qed.

Lemma signsOfLife_ok c (s : bool) :
  okX (signsOfLife c) s (fun es o s' => quiet es /\ s' = s /\ exists age stale,
    o = inl (age, stale) /\ (isStale c age stale = true -> lifeless c es)).
Proof.
  unfold signsOfLife. apply okX_act_bind. intros age. apply okX_act_bind. intros progressAt.
  destruct (IsZero progressAt) eqn:Ez.
  - apply okX_ret. split_and!; [by repeat constructor|done|]. exists age, false. split; [done|].
    unfold isStale. rewrite orb_false_r. intros Hst. left. exists age. split; [by left|].
    destruct age; [by apply Z.ltb_lt|done].
  - apply ok_act. intros now. apply ok_done. split_and!; [by repeat constructor|done|].
    exists age, (progressTimeout c <? TimeSub now progressAt). split; [done|].
    unfold isStale. intros [Ha|Hp%Z.ltb_lt]%orb_prop; [left|right].
    + exists age. split; [by left|]. destruct age; [by apply Z.ltb_lt|done].
    + exists progressAt, now. split_and!; [right; by left|done|right; right; by left|done].
Qed.

Lemma watch_ok once c episode :
  okX (watch once c) episode (fun es _ episode' => placed es = []
    /\ (quiet es \/ episode = false /\ lifeless c es)
    /\ (separate c -> episode = false -> episode' = true -> sweeps c es)).
Proof.
  unfold watch. eapply okX_bind; [apply signsOfLife_ok| |by intros es m s (_ & _ & age & st & [=] & _)].
  intros es life s (Hq & -> & age & st & [= ->] & Hl). apply okX_get_bind.
  destruct (isStale c age st).
  - destruct episode; simpl.
    + eapply okX_mono; [apply report_then|]. intros es' o s' (Hq' & -> & _).
      assert (quiet (es ++ es')) by by apply Forall_app. split_and!; [by apply quiet_placed|by left|done].
    + eapply okX_bind; [apply trigger_ok| |].
      * intros es1 err s1 [Hp Hsw]. apply okX_ret. rewrite app_nil_r. apply quiet_placed in Hq.
        split_and!; [by apply placed_nil_app|right; split; [done|by apply lifeless_l, Hl]|].
        intros Hsep _ ->. by apply sweeps_r, Hsw.
      * intros es1 m s1 [Hp Hsw]. apply quiet_placed in Hq.
        split_and!; [by apply placed_nil_app|right; split; [done|by apply lifeless_l, Hl]|].
        intros Hsep _ ->. by apply sweeps_r, Hsw.
  - eapply okX_mono; [exact (report_then true false "" "" _ false)|]. intros es' o s' (Hq' & -> & _).
    assert (quiet (es ++ es')) by by apply Forall_app. split_and!; [by apply quiet_placed|by left|done].
Qed.

Lemma watchedConfig_ok (s : bool) :
  okX watchedConfig s (fun es o s' => quiet es /\ s' = s /\ exists loaded, o = inl loaded
    /\ forall snapshot, loaded = inl snapshot -> loadedConfig es snapshot).
Proof.
  unfold watchedConfig. apply okX_act_bind. intros version.
  destruct (0 <? version) eqn:Ev; apply okX_act; intros loaded; (split_and!; [by repeat constructor|done|]);
    exists loaded; (split; [done|]); intros snapshot ->; exists version;
    (split; [by left|]); rewrite Ev; right; by left.
Qed.

(** What the events of a check are, when the configuration was loaded by the first of them. *)
Definition checked (episode : bool) (es : trace) (episode' : bool) : Prop :=
  placed es = []
  /\ (quiet es \/ episode = false /\ exists snapshot, loadedLive es snapshot /\ lifeless (cs_Config snapshot) es)
  /\ (episode = false -> episode' = true -> exists snapshot, loadedLive es snapshot
      /\ (separate (cs_Config snapshot) -> sweeps (cs_Config snapshot) es)).

Lemma checked_quiet episode es : quiet es -> checked episode es episode.
Proof. intros Hq. split_and!; [by apply quiet_placed|by left|]. by intros ->. Qed.

Lemma lifeless_r c es es' : lifeless c es' -> lifeless c (es ++ es').
Proof.
  intros [(age & Hin & Ha)|(p & now & Hin & Hz & Hn & Hp)]; [left|right].
  - exists age. split; [apply elem_of_app; by right|done].
  - exists p, now. split_and!; [apply elem_of_app; by right|done|apply elem_of_app; by right|done].
Qed.

Lemma check_ok once episode :
  okX (check once) episode (fun es _ episode' => checked episode es episode').
Proof.
  unfold check. eapply okX_bind; [apply watchedConfig_ok| |by intros es m s (_ & _ & l & [=] & _)].
  intros es loaded s (Hq & -> & l & [= <-] & Hl).
  destruct loaded as [snapshot|err]; [|apply okX_ret; rewrite app_nil_r; by apply checked_quiet].
  specialize (Hl snapshot eq_refl).
  destruct (String.eqb_spec (cfg_Mode (cs_Config snapshot)) ModeLive) as [Em|_]; simpl.
  2:{ eapply okX_mono; [apply report_then|]. intros es' o s' (Hq' & -> & _).
      apply checked_quiet. by apply Forall_app. }
  assert (Hlive : loadedLive es snapshot) by done.
  unfold goX. destruct (ValidateRuntime (cs_Config snapshot)) as [valid|err|m];
    [| |apply ok_done; rewrite app_nil_r; by apply checked_quiet].
  2:{ apply okX_ret. rewrite app_nil_r. by apply checked_quiet. }
  eapply okX_mono; [exact (watch_ok once (cs_Config snapshot) episode)|].
  intros es' o episode' (Hp & Hlife & Hsw). pose proof (quiet_placed _ Hq) as Hpq. split_and!.
  - by apply placed_nil_app.
  - destruct Hlife as [Hq'|[He Hlife]]; [left; by apply Forall_app|right]. split; [done|].
    exists snapshot. split; [by apply loadedLive_l|by apply lifeless_r].
  - intros He He'. exists snapshot. split; [by apply loadedLive_l|].
    intros Hsep. by apply sweeps_r, Hsw.
Qed.

End Checks.
