(* ===== verification/Wire.v ===== *)
(** What the exchange adapters share (src/internal/venue/binance, src/internal/venue/mgbx):
    query strings of net/url, HMAC-SHA256 of crypto/hmac, the decoding of response objects
    by encoding/json and the exchange of one request.

    A response object is read as encoding/json matches its keys, up to letter case, each
    key present at most once; its strings are not read as times, and a number that is
    not an integer is not a tree. *)
From S2P Require Import Prelude Decimal DecimalText Domain Json World Sha256 Rpc.

Open Scope string_scope.
Open Scope list_scope.
Open Scope Z_scope.

(** ** Query strings *)

(** [url.Values] *)
Abbreviation Values := (gmap string (list string)) (only parsing).

Definition SetValue (key value : string) (v : Values) : Values := <[key := [value]]> v.

Definition values_of (l : list (string * string)) : Values :=
  foldl (fun v '(key, value) => SetValue key value v) ∅ l.

Definition unreserved (c : ascii) : bool :=
  let n := Z.of_N (N_of_ascii c) in
  ((48 <=? n) && (n <=? 57)) || ((65 <=? n) && (n <=? 90)) || ((97 <=? n) && (n <=? 122))
  || (n =? 45) || (n =? 95) || (n =? 46) || (n =? 126).

Definition upper_digit (n : Z) : ascii :=
  ascii_of_N (Z.to_N (if n <? 10 then 48 + n else 55 + n)).

Definition escape_char (c : ascii) : string :=
  let n := Z.of_N (N_of_ascii c) in
  if unreserved c then String c ""
  else if n =? 32 then "+"
  else String "%" (String (upper_digit (n / 16)) (String (upper_digit (n mod 16)) "")).

Fixpoint QueryEscape (s : string) : string :=
  match s with "" => "" | String c s' => escape_char c +:+ QueryEscape s' end.

(** The parameters in the order of their keys, the values of one key in theirs. *)
Definition string_le (a b : string) : Prop := String.leb a b = true.
#[export] Instance string_le_dec a b : Decision (string_le a b).
Proof. unfold string_le. apply _. Defined.

Definition sortedKeys (v : Values) : list string := merge_sort string_le (map fst (map_to_list v)).

Definition pairs_of (keys : list string) (v : Values) : list (string * string) :=
  key ← keys; value ← v !!! key; [(key, value)].

Definition Encode (v : Values) : string :=
  StringsJoin (map (fun '(key, value) => QueryEscape key +:+ "=" +:+ QueryEscape value)
                 (pairs_of (sortedKeys v) v)) "&".

Definition withQuery (endpoint : string) (v : Values) : string :=
  let encoded := Encode v in endpoint +:+ if String.eqb encoded "" then "" else "?" +:+ encoded.

(** ** Signatures *)

(** The key of HMAC-SHA256, brought to the size of a block. *)
Definition hmac_key (key : list Z) : list Z :=
  let key := if (64 <? length key)%nat then Sum256 key else key in
  key ++ replicate (64 - length key) 0.

Definition HMAC (key msg : list Z) : list Z :=
  let pad b := map (Z.lxor b) (hmac_key key) in
  Sum256 (pad 92 ++ Sum256 (pad 54 ++ msg)).

(** [hex.EncodeToString] of the authentication code of a text. *)
Definition sign (secret text : string) : string :=
  hex_encode (HMAC (bytes_of secret) (bytes_of text)).

Example sign_ex : sign "Jefe" "what do ya want for nothing?" =
  "5bdcc146bf60754e6a042426089575c75a003f089d2739839dec58b964ec3843".
Proof. vm_compute. reflexivity. Qed.

(** ** Decoding responses *)

Definition asObject (j : Json) : option (list (string * Json)) :=
  match j with JObj l => Some l | JNull => Some [] | _ => None end.

Definition asSlice {A} (dec : Json -> option A) (j : Json) : option (list A) :=
  match j with JArr l => mapM dec l | JNull => Some [] | _ => None end.

Definition ifield {A} (dec : Json -> option A) (name : string) (l : list (string * Json)) : option A :=
  match list_find (fun kv => EqualFold (fst kv) name = true) l with
  | Some (_, (_, j)) => dec j
  | None => dec JNull
  end.

Definition unmarshal_int64 (j : Json) : option Z :=
  match j with
  | JNum n => if (min_int64 <=? n) && (n <=? max_int64) then Some n else None
  | JNull => Some 0
  | _ => None
  end.

Definition text (name : string) (l : list (string * Json)) : option string := ifield unmarshal name l.
Definition int64 (name : string) (l : list (string * Json)) : option Z := ifield unmarshal_int64 name l.

(** [num.Parse] as a call with two results. *)
Definition parseNum (s : string) : reply Decimal :=
  match Parse s with Ret d => inl d | Err e => inr e | Panic m => inr (Errorf m) end.

(** A number parsed, or the error returned. *)
Definition withNum {B} (s : string) (f : Decimal -> reply B) : reply B :=
  match parseNum s with inl d => f d | inr e => inr e end.

(** A loop that appends and returns at the first error. *)
Fixpoint mapReply {A B} (f : A -> reply B) (l : list A) : reply (list B) :=
  match l with
  | [] => inl []
  | x :: l' => match f x with
               | inr e => inr e
               | inl b => match mapReply f l' with inl bs => inl (b :: bs) | inr e => inr e end
               end
  end.

(** ** JSON texts of strings

    [json.Marshal] of a string: quotes, backslashes, control characters and the
    characters HTML gives a meaning are escaped; bytes outside ASCII are kept. *)
Definition json_char (c : ascii) : string :=
  let n := Z.of_N (N_of_ascii c) in
  if (n =? 34) || (n =? 92) then String "\" (String c "")
  else if n =? 8 then "\b" else if n =? 12 then "\f" else if n =? 10 then "\n"
  else if n =? 13 then "\r" else if n =? 9 then "\t"
  else if (n <? 32) || (n =? 60) || (n =? 62) || (n =? 38)
  then "\u00" +:+ String (base_digit (n / 16)) (String (base_digit (n mod 16)) "")
  else String c "".

Fixpoint json_chars (s : string) : string :=
  match s with "" => "" | String c s' => json_char c +:+ json_chars s' end.

Definition quote_char : ascii := ascii_of_nat 34.
Definition json_string (s : string) : string := String quote_char (json_chars s +:+ String quote_char "").
Definition json_strings (l : list string) : string := "[" +:+ StringsJoin (map json_string l) "," +:+ "]".

(** ** Time *)

(** [Time.UnixMilli] and [time.UnixMilli] *)
Definition UnixMilli (t : Time) : Z := t / Millisecond.
Definition fromUnixMilli (ms : Z) : Time := ms * Millisecond.

Definition ok_status (r : HttpResponse) : bool := Z.quot (StatusCode r) 100 =? 2.

(** Query strings read back: what a server decodes from the address of a request. *)

(** ** The reading side *)

Definition hex_digit (c : ascii) : option Z := Rpc.hex_value c.

(** [url.QueryUnescape] *)
Fixpoint QueryUnescape (s : string) : option string :=
  match s with
  | "" => Some ""
  | String "%" (String a (String b s')) =>
      h ← hex_digit a; l ← hex_digit b; rest ← QueryUnescape s';
      Some (String (ascii_of_N (Z.to_N (16 * h + l))) rest)
  | String "%" _ => None
  | String "+" s' => rest ← QueryUnescape s'; Some (String " " rest)
  | String c s' => rest ← QueryUnescape s'; Some (String c rest)
  end.

(** The text before and after the first separator. *)
Fixpoint Cut (sep : ascii) (s : string) : string * string :=
  match s with
  | "" => ("", "")
  | String c s' =>
      if Ascii.eqb c sep then ("", s') else let '(a, b) := Cut sep s' in (String c a, b)
  end.

Definition parsePair (part : string) : option (string * string) :=
  let '(k, v) := Cut "=" part in k ← QueryUnescape k; v ← QueryUnescape v; Some (k, v).

(** The parameters of a query, in order. *)
Definition ParseQuery (query : string) : option (list (string * string)) :=
  if String.eqb query "" then Some [] else mapM parsePair (Split "&" query).

(** ** Round trip *)

(** A text without the characters that separate. *)
Definition plain_char (c : ascii) : bool :=
  negb (Ascii.eqb c "&") && negb (Ascii.eqb c "=").

Lemma hex_digit_upper d : 0 <= d < 16 -> hex_digit (upper_digit d) = Some d.
Proof.
  intros Hd. assert (Hall : Forall (fun d => hex_digit (upper_digit d) = Some d) (seqZ 0 16)).
  { eapply (bool_decide_eq_true_1 _). vm_compute. reflexivity. }
  eapply Forall_forall in Hall; [exact Hall|]. apply elem_of_seqZ. lia.
Qed.

Lemma unreserved_kept c : unreserved c = true -> c <> "%"%char /\ c <> "+"%char.
Proof. intros Hu. by split; intros ->. Qed.

Lemma QueryUnescape_other c s : c <> "%"%char -> c <> "+"%char ->
  QueryUnescape (String c s) = (rest ← QueryUnescape s; Some (String c rest)).
Proof.
  intros H1 H2. destruct c as [[] [] [] [] [] [] [] []]; try reflexivity; exfalso; auto.
Qed.

Lemma escape_char_read c s t : QueryUnescape s = Some t ->
  QueryUnescape (escape_char c +:+ s) = Some (String c t).
Proof.
  intros Hs. unfold escape_char. destruct (unreserved c) eqn:Eu.
  { apply unreserved_kept in Eu as [H1 H2]. change (String c "" +:+ s) with (String c s).
    rewrite QueryUnescape_other by done. by rewrite Hs. }
  pose proof (N_ascii_bounded c) as Hc. set (n := Z.of_N (N_of_ascii c)).
  destruct (Z.eqb_spec n 32) as [E|_].
  { assert (c = " "%char) as ->.
    { rewrite <- (ascii_N_embedding c). unfold n in E. change 32 with (Z.of_N 32) in E.
      apply N2Z.inj in E. by rewrite E. }
    change ("+" +:+ s) with (String "+" s). simpl. by rewrite Hs. }
  assert (Hn : 0 <= n < 256) by (unfold n; lia).
  change (QueryUnescape (String "%" (String (upper_digit (n / 16)) (String (upper_digit (n mod 16)) "") ) +:+ s))
    with (h ← hex_digit (upper_digit (n / 16)); l ← hex_digit (upper_digit (n mod 16));
          rest ← QueryUnescape s; Some (String (ascii_of_N (Z.to_N (16 * h + l))) rest)).
  rewrite !hex_digit_upper, Hs.
  - simpl. rewrite <- Z.div_mod by lia. unfold n. by rewrite N2Z.id, ascii_N_embedding.
  - split; [by apply Z.div_pos; lia|]. apply Z.div_lt_upper_bound; lia.
  - by apply Z.mod_pos_bound.
Qed.

Lemma QueryUnescape_escape s : QueryUnescape (QueryEscape s) = Some s.
Proof. induction s as [|c s IH]; [done|]. by apply escape_char_read. Qed.

Lemma escape_char_plain c : forall_string plain_char (escape_char c) = true.
Proof. destruct c as [[] [] [] [] [] [] [] []]; vm_compute; reflexivity. Qed.

Lemma QueryEscape_plain s : forall_string plain_char (QueryEscape s) = true.
Proof.
  induction s as [|c s IH]; [done|]. simpl. by rewrite forall_string_app, IH, escape_char_plain.
Qed.

Lemma Cut_at sep s t : forall_string (fun c => negb (Ascii.eqb c sep)) s = true ->
  Cut sep (s +:+ String sep t) = (s, t).
Proof.
  induction s as [|c s IH]; intros Hs.
  { change ("" +:+ String sep t) with (String sep t). simpl. by rewrite Ascii.eqb_refl. }
  simpl in Hs. apply andb_prop in Hs as [Hc Hs]. change (String c s +:+ String sep t) with (String c (s +:+ String sep t)).
  simpl. apply negb_true_iff in Hc. by rewrite Hc, IH.
Qed.

Definition part_of (kv : string * string) : string :=
  let '(key, value) := kv in QueryEscape key +:+ "=" +:+ QueryEscape value.

Lemma parsePair_part kv : parsePair (part_of kv) = Some kv.
Proof.
  destruct kv as [key value]. unfold parsePair, part_of.
  change (QueryEscape key +:+ "=" +:+ QueryEscape value)
    with (QueryEscape key +:+ String "=" (QueryEscape value)).
  rewrite Cut_at.
  - by rewrite !QueryUnescape_escape.
  - eapply forall_string_impl; [|apply QueryEscape_plain]. unfold plain_char. intros c [_ Hc]%andb_prop. exact Hc.
Qed.

Lemma part_no_amp kv : forall_string (fun c => negb (Ascii.eqb c "&")) (part_of kv) = true.
Proof.
  destruct kv as [key value]. unfold part_of. rewrite !forall_string_app.
  assert (Hq : forall s, forall_string (fun c => negb (Ascii.eqb c "&")) (QueryEscape s) = true).
  { intros s. eapply forall_string_impl; [|apply QueryEscape_plain]. unfold plain_char. intros c [Hc _]%andb_prop. exact Hc. }
  by rewrite !Hq.
Qed.

Lemma StringsJoin_nonempty kv l : StringsJoin (map part_of (kv :: l)) "&" <> "".
Proof.
  destruct kv as [key value]. simpl. intros E.
  assert (Hlen : forall a b, QueryEscape a +:+ "=" +:+ b <> "").
  { intros a b. destruct (QueryEscape a); discriminate. }
  destruct (map part_of l) as [|p ps]; [by apply (Hlen key (QueryEscape value))|].
  unfold part_of in E. destruct (QueryEscape key); discriminate.
Qed.

(** The query of a request carries exactly the parameters the adapter set: a server that
    splits it at the separators and undoes the escaping reads every key with its values, in
    the order of the sorted keys, whatever characters keys and values hold. *)
Theorem query_round_trip (v : gmap string (list string)) :
  ParseQuery (Encode v) = Some (pairs_of (sortedKeys v) v).
Proof.
  unfold Encode, ParseQuery. fold part_of. change (fun '(key, value) => QueryEscape key +:+ "=" +:+ QueryEscape value) with part_of.
  destruct (pairs_of (sortedKeys v) v) as [|kv l] eqn:El; [done|].
  destruct (String.eqb_spec (StringsJoin (map part_of (kv :: l)) "&") "") as [E|_]; [by apply StringsJoin_nonempty in E|].
  change "&" with (String "&" "") at 1. rewrite Split_join; [| |done].
  - apply mapM_Some_2, Forall2_fmap_l, Forall_Forall2_diag, Forall_forall. intros x _. apply parsePair_part.
  - apply Forall_fmap, Forall_forall. intros x _. apply part_no_amp.
Qed.

(** The keys are those of the map, each once. *)
Lemma sortedKeys_perm (v : gmap string (list string)) : sortedKeys v ≡ₚ map fst (map_to_list v).
Proof. apply merge_sort_Permutation. Qed.
