(* ===== verification/Binance.v ===== *)
(** The Binance adapter (src/internal/venue/binance/client.go): every method of its client.

    The only state of a client is the offset of its clock, carried by the monad [M Z].
    The bounded parallel deletions run one after another, in the order in which they
    finish ([Schedule]).  The deadline of a request shows as its error. *)
From S2P Require Import Prelude Decimal DecimalText Domain Json World Sha256 Venue Rpc EngineControl Wire.

Open Scope string_scope.
Open Scope list_scope.
Open Scope Z_scope.

Module Binance.

Record Client := MkClient {
  name : string;
  identity : string;
  baseURL : string;
  apiKey : string;
  secret : string;
  stpMode : string
}.

Definition NewWithIdentity (name identity baseURL apiKey secret stpMode : string) : Client :=
  MkClient name identity (trim_right_by (Ascii.eqb "/") baseURL) apiKey secret stpMode.

Definition New (name baseURL apiKey secret stpMode : string) : Client :=
  NewWithIdentity name name baseURL apiKey secret stpMode.

(** ** Requests *)

(** [*apiError], or another error. *)
Inductive failure :=
  | apiError (Status Code : Z) (Msg : string)
  | otherError (err : error).

Definition failure_error (f : failure) : error :=
  match f with
  | apiError status code msg =>
      Errorf ("binance http " +:+ pretty status +:+ " code=" +:+ pretty code +:+ ": " +:+ msg)
  | otherError err => err
  end.

(** The code and the message of an error body, as far as they decode. *)
Definition api_error (r : HttpResponse) : failure :=
  let l := default [] (Parsed r ≫= asObject) in
  apiError (StatusCode r) (default 0 (int64 "code" l)) (default "" (text "msg" l)).

Section Requests.
Context `{HttpRequests} (c : Client).

Definition do_ {A} (method path : string) (values : Values) (authenticated : bool)
    (dec : Json -> option A) : prog (A + failure) :=
  let endpoint := withQuery (baseURL c +:+ path) values in
  match request_error endpoint with
  | Some err => Done (inr (otherError err))
  | None =>
      resp ← act (HttpDo (MkHttpRequest method endpoint
               (if authenticated then [("X-MBX-APIKEY", apiKey c)] else [])));
      Done (match resp with
            | inr err => inr (otherError err)
            | inl r =>
                if negb (ok_status r) then inr (api_error r) else
                match Parsed r ≫= dec with
                | Some a => inl a
                | None => inr (otherError (Wrapf "decode binance response: " json_error))
                end
            end)
  end.

Definition plain {A} (r : A + failure) : reply A :=
  match r with inl a => inl a | inr f => inr (failure_error f) end.

Definition public {A} (method path : string) (values : Values) (dec : Json -> option A) : M Z A :=
  fun offset => r ← do_ method path values false dec; Done (plain r, offset).

Definition signedValues (timestamp : Z) (values : Values) : Values :=
  let values := SetValue "recvWindow" "5000" (SetValue "timestamp" (pretty timestamp) values) in
  SetValue "signature" (sign (secret c) (Encode values)) values.

Definition signedOnce {A} (method path : string) (values : Values) (dec : Json -> option A)
    : M Z (A + failure) := fun offset =>
  now ← act Now;
  r ← do_ method path (signedValues (wrap64 (UnixMilli now + offset)) values) true dec;
  Done (inl r, offset).

Definition syncServerTime : M Z unit :=
  started ← actM Now;
  serverTime ← public "GET" "/api/v3/time" ∅ (fun j => asObject j ≫= int64 "serverTime");
  if serverTime <=? 0 then failM (Errorf "binance returned invalid server time") else
  now ← actM Now;
  let localMidpoint := wrap64 (UnixMilli started + Z.quot (Z.quot (TimeSub now started) Millisecond) 2) in
  putM (wrap64 (serverTime - localMidpoint)).

Definition outOfWindow {A} (r : A + failure) : bool :=
  match r with inr (apiError _ code _) => code =? -1021 | _ => false end.

Definition signed {A} (method path : string) (values : Values) (dec : Json -> option A) : M Z A :=
  if String.eqb (apiKey c) "" || String.eqb (secret c) ""
  then failM (Errorf "binance credentials are not configured") else
  r ← signedOnce method path values dec;
  if negb (outOfWindow r) then liftM (plain r) else fun offset =>
  s ← syncServerTime offset;
  match fst s : reply unit with
  | inr syncErr =>
      Done (inr (Errorf (match plain r with inr err => Error err | inl _ => "" end
              +:+ "; synchronize binance server time: " +:+ Error syncErr)), snd s)
  | inl _ =>
      (r ← signedOnce method path values dec; liftM (plain r)) (snd s)
  end.
End Requests.

(** ** Market data *)

Definition rawBook := (string * string * string * string * string)%type.

Definition decodeBook (j : Json) : option rawBook :=
  l ← asObject j;
  symbol ← text "symbol" l;
  bidPrice ← text "bidPrice" l; bidQty ← text "bidQty" l;
  askPrice ← text "askPrice" l; askQty ← text "askQty" l;
  Some (symbol, bidPrice, bidQty, askPrice, askQty).

Definition parseOptionalDecimal (value : string) : Decimal :=
  if String.eqb value "" then FromInt64 0
  else match parseNum value with inl d => d | inr _ => FromInt64 0 end.

Record rawFilter := MkRawFilter {
  filterType : string; tickSize : string; stepSize : string; minQty : string; maxQty : string;
  minPrice : string; maxPrice : string; minNotional : string; maxNotional : string;
  notional : string; maxNumOrders : Z
}.

Record rawSymbol := MkRawSymbol {
  rs_symbol : string; baseAsset : string; quoteAsset : string; filters : list rawFilter
}.

Definition decodeFilter (j : Json) : option rawFilter :=
  l ← asObject j;
  t ← text "filterType" l; tick ← text "tickSize" l; step ← text "stepSize" l;
  minQ ← text "minQty" l; maxQ ← text "maxQty" l; minP ← text "minPrice" l; maxP ← text "maxPrice" l;
  minN ← text "minNotional" l; maxN ← text "maxNotional" l; n ← text "notional" l;
  limit ← int64 "maxNumOrders" l;
  Some (MkRawFilter t tick step minQ maxQ minP maxP minN maxN n limit).

Definition decodeSymbol (j : Json) : option rawSymbol :=
  l ← asObject j;
  symbol ← text "symbol" l; base ← text "baseAsset" l; quote ← text "quoteAsset" l;
  fs ← ifield (asSlice decodeFilter) "filters" l;
  Some (MkRawSymbol symbol base quote fs).

Definition decodeSymbols (j : Json) : option (list rawSymbol) :=
  l ← asObject j; ifield (asSlice decodeSymbol) "symbols" l.

Definition applyFilter (rules : MarketRules) (f : rawFilter) : MarketRules :=
  let d := parseOptionalDecimal in
  match rules with
  | MkMarketRules symbol base quote tick step minQ maxQ minN maxN minP maxP limit =>
      if String.eqb (filterType f) "PRICE_FILTER" then
        MkMarketRules symbol base quote (d (tickSize f)) step minQ maxQ minN maxN
          (d (minPrice f)) (d (maxPrice f)) limit
      else if String.eqb (filterType f) "LOT_SIZE" then
        MkMarketRules symbol base quote tick (d (stepSize f)) (d (minQty f)) (d (maxQty f))
          minN maxN minP maxP limit
      else if String.eqb (filterType f) "MIN_NOTIONAL" then
        let minN := d (minNotional f) in
        MkMarketRules symbol base quote tick step minQ maxQ
          (if DIsZero minN then d (notional f) else minN) maxN minP maxP limit
      else if String.eqb (filterType f) "NOTIONAL" then
        MkMarketRules symbol base quote tick step minQ maxQ (d (minNotional f)) (d (maxNotional f))
          minP maxP limit
      else if String.eqb (filterType f) "MAX_NUM_ORDERS" then
        MkMarketRules symbol base quote tick step minQ maxQ minN maxN minP maxP (maxNumOrders f)
      else rules
  end.

Definition rulesOf (symbol : string) (symbols : list rawSymbol) : reply MarketRules :=
  match symbols with
  | [item] =>
      let rules := foldl applyFilter
        (MkMarketRules (rs_symbol item) (baseAsset item) (quoteAsset item)
           Zero Zero Zero Zero Zero Zero Zero Zero 0) (filters item) in
      if negb (IsPositive (rules_PriceTick rules)) || negb (IsPositive (rules_QuantityStep rules))
      then inr (Errorf ("binance symbol " +:+ symbol +:+ " returned incomplete trading rules"))
      else inl rules
  | _ => inr (Errorf ("binance symbol " +:+ symbol +:+ " not found"))
  end.

(** ** Orders and fills *)

Record rawOrder := MkRawOrder {
  ro_symbol : string; ro_orderId : Z; ro_clientOrderId : string; ro_price : string;
  ro_origQty : string; ro_executedQty : string; ro_status : string; ro_side : string; ro_time : Z
}.

(** The fields the answer to a placement is read for. *)
Definition decodePlaced (j : Json) : option rawOrder :=
  l ← asObject j;
  symbol ← text "symbol" l; id ← int64 "orderId" l; client ← text "clientOrderId" l;
  price ← text "price" l; qty ← text "origQty" l; executed ← text "executedQty" l;
  status ← text "status" l;
  Some (MkRawOrder symbol id client price qty executed status "" 0).

Definition decodeOrder (j : Json) : option rawOrder :=
  o ← decodePlaced j; l ← asObject j;
  side ← text "side" l; t ← int64 "time" l;
  Some (MkRawOrder (ro_symbol o) (ro_orderId o) (ro_clientOrderId o) (ro_price o) (ro_origQty o)
          (ro_executedQty o) (ro_status o) side t).

Definition orderOf (c : Client) (o : rawOrder) : reply Order :=
  withNum (ro_price o) (fun price =>
  withNum (ro_origQty o) (fun qty =>
  withNum (ro_executedQty o) (fun executed =>
  inl (MkOrder (name c) (pretty (ro_orderId o)) (ro_clientOrderId o) (ro_symbol o) (ro_side o)
         price qty executed (ro_status o) (fromUnixMilli (ro_time o)))))).

(** The fields without tags of the balances match their lower-case keys. *)
Definition decodeBalances (j : Json) : option (list (string * string * string)) :=
  l ← asObject j;
  ifield (asSlice (fun j =>
    l ← asObject j; asset ← text "Asset" l; free ← text "Free" l; locked ← text "Locked" l;
    Some (asset, free, locked))) "balances" l.

Definition balanceOf (b : string * string * string) : reply Balance :=
  let '(asset, free, locked) := b in
  withNum free (fun free => withNum locked (fun locked => inl (MkBalance asset free locked))).

Record rawFill := MkRawFill {
  rf_symbol : string; rf_id : Z; rf_orderId : Z; rf_price : string; rf_qty : string;
  rf_quoteQty : string; rf_commission : string; rf_commissionAsset : string; rf_time : Z;
  rf_isBuyer : bool; rf_isMaker : bool
}.

Definition decodeFill (j : Json) : option rawFill :=
  l ← asObject j;
  symbol ← text "symbol" l; id ← int64 "id" l; order ← int64 "orderId" l; price ← text "price" l;
  qty ← text "qty" l; quote ← text "quoteQty" l; commission ← text "commission" l;
  asset ← text "commissionAsset" l; t ← int64 "time" l;
  buyer ← ifield unmarshal "isBuyer" l; maker ← ifield unmarshal "isMaker" l;
  Some (MkRawFill symbol id order price qty quote commission asset t buyer maker).

Definition fillOf (c : Client) (f : rawFill) : reply Fill :=
  withNum (rf_price f) (fun price =>
  withNum (rf_qty f) (fun quantity =>
  withNum (rf_quoteQty f) (fun quote =>
  withNum (rf_commission f) (fun fee =>
  inl (MkFill (name c) (pretty (rf_id f)) (pretty (rf_orderId f)) (rf_symbol f)
         (if rf_isBuyer f then Buy else Sell) price quantity quote fee (rf_commissionAsset f)
         (rf_isMaker f) false false (fromUnixMilli (rf_time f))))))).

Definition fillLimit (limit : Z) : Z := if (limit <? 1) || (1000 <? limit) then 50 else limit.

(** A decimal that is zero when its text does not parse. *)
Definition lenient (s : string) : Decimal := match parseNum s with inl d => d | inr _ => Zero end.

Definition placeValues (c : Client) (q : PlaceRequest) : Values :=
  let v := values_of [("symbol", req_Symbol q); ("side", req_Side q); ("type", "LIMIT_MAKER");
    ("quantity", String_ (req_Quantity q)); ("price", String_ (req_Price q));
    ("newClientOrderId", req_ClientID q); ("newOrderRespType", "RESULT")] in
  if String.eqb (stpMode c) "" then v else SetValue "selfTradePreventionMode" (stpMode c) v.

(** ** The methods of the client *)

Section Methods.
Context `{HttpRequests} `{Schedule} (c : Client).

Definition TopBook (symbol : string) : M Z Book :=
  raw ← public c "GET" "/api/v3/ticker/bookTicker" (values_of [("symbol", symbol)]) decodeBook;
  let '(symbol, bidPrice, bidQty, askPrice, askQty) := raw : rawBook in
  bid ← liftM (parseNum bidPrice); bidQty ← liftM (parseNum bidQty);
  ask ← liftM (parseNum askPrice); askQty ← liftM (parseNum askQty);
  now ← actM Now;
  mret (MkBook (name c) symbol bid bidQty ask askQty now).

Definition MarketRules (symbol : string) : M Z MarketRules :=
  raw ← public c "GET" "/api/v3/exchangeInfo" (values_of [("symbol", symbol)]) decodeSymbols;
  liftM (rulesOf symbol raw).

Definition Balances : M Z (list Balance) :=
  raw ← signed c "GET" "/api/v3/account" ∅ decodeBalances;
  liftM (mapReply balanceOf raw).

Definition OpenOrders (symbol : string) : M Z (list Order) :=
  raw ← signed c "GET" "/api/v3/openOrders" (values_of [("symbol", symbol)]) (asSlice decodeOrder);
  liftM (mapReply (orderOf c) raw).

Definition Order (symbol orderID : string) : M Z Order :=
  raw ← signed c "GET" "/api/v3/order" (values_of [("symbol", symbol); ("orderId", orderID)]) decodeOrder;
  liftM (orderOf c raw).

Definition RecentFills (symbol : string) (limit : Z) : M Z (list Fill) :=
  raw ← signed c "GET" "/api/v3/myTrades"
    (values_of [("symbol", symbol); ("limit", pretty (fillLimit limit))]) (asSlice decodeFill);
  liftM (mapReply (fillOf c) raw).

Definition PlacePostOnly (q : PlaceRequest) : M Z Domain.Order :=
  raw ← signed c "POST" "/api/v3/order" (placeValues c q) decodePlaced;
  now ← actM Now;
  mret (MkOrder (name c) (pretty (ro_orderId raw)) (ro_clientOrderId raw) (ro_symbol raw) (req_Side q)
          (lenient (ro_price raw)) (lenient (ro_origQty raw)) (lenient (ro_executedQty raw))
          (ro_status raw) now).

Definition CancelOrder (symbol orderID : string) : M Z unit :=
  signed c "DELETE" "/api/v3/order" (values_of [("symbol", symbol); ("orderId", orderID)])
    (fun j => asObject j ;; Some tt).

(** [errors.Join] of a list. *)
Definition joinErrors (l : list error) : option error :=
  match l with
  | [] => None
  | _ => Some (Errorf (StringsJoin (map Error l) newline))
  end.

Definition cancelJob (symbol : string) (failures : list error) (orderID : string) : M Z (list error) :=
  fun offset =>
    r ← CancelOrder symbol orderID offset;
    Done (inl (match fst r : reply unit with
               | inl _ => failures
               | inr err => failures ++ [Wrapf ("cancel order " +:+ orderID +:+ ": ") err]
               end), snd r).

Fixpoint cancelJobs (symbol : string) (jobs : list string) (failures : list error) : M Z (list error) :=
  match jobs with
  | [] => mret failures
  | orderID :: rest => failures ← cancelJob symbol failures orderID; cancelJobs symbol rest failures
  end.

Definition CancelOrders (symbol : string) (orderIDs : list string) : M Z unit :=
  let jobs := omap (fun i => orderIDs !! i) (schedule (length orderIDs)) in
  failures ← cancelJobs symbol jobs [];
  match joinErrors failures with Some err => failM err | None => mret tt end.
End Methods.

End Binance.
