(* ===== verification/Mgbx.v ===== *)
(** The MGBX adapter (src/internal/venue/mgbx/client.go): every method of its client.

    Every answer is an envelope with a code of its own.  A client has no state.  Open
    orders are read page by page, at most a thousand pages. *)
From S2P Require Import Prelude Decimal DecimalText Domain Json World Sha256 Venue Rpc EngineControl Wire.

Open Scope string_scope.
Open Scope list_scope.
Open Scope Z_scope.

Module Mgbx.

Record Client := MkClient {
  name : string;
  identity : string;
  baseURL : string;
  apiKey : string;
  secret : string
}.

Definition NewWithIdentity (name identity baseURL apiKey secret : string) : Client :=
  MkClient name identity (trim_right_by (Ascii.eqb "/") baseURL) apiKey secret.

Definition New (name baseURL apiKey secret : string) : Client :=
  NewWithIdentity name name baseURL apiKey secret.

(** ** Requests *)

(** [json.RawMessage] of an answer: absent when the field is. *)
Record envelope := MkEnvelope { env_Code : Z; env_Msg : string; env_Message : string; env_Data : option Json }.

Definition decodeEnvelope (j : Json) : option envelope :=
  l ← asObject j;
  code ← int64 "code" l; msg ← text "msg" l; message ← text "message" l;
  Some (MkEnvelope code msg message
          (snd ∘ snd <$> list_find (fun kv => EqualFold (fst kv) "data" = true) l)).

Section Requests.
Context `{HttpRequests} `{MapRange} `{SliceSort} (c : Client).

Definition signaturePayload (values : Values) (timestamp : string) : string :=
  let keys := sortStrings (map fst (range values)) in
  StringsJoin (map (fun '(key, value) => key +:+ "=" +:+ value) (pairs_of keys values)) "&"
  +:+ "&timestamp=" +:+ timestamp.

Definition randomNonce : prog (reply string) :=
  r ← act (RandRead 16);
  Done (match r with inl b => inl (hex_encode b) | inr err => inr err end).

Definition accessHeaders (values : Values) (timestamp nonce : string) : list (string * string) :=
  [("X-Access-Key", apiKey c); ("X-Signature", sign (secret c) (signaturePayload values timestamp));
   ("X-Request-Timestamp", timestamp); ("X-Request-Nonce", nonce)].

Definition authenticate (values : Values) (authenticated : bool)
    : prog (reply (list (string * string))) :=
  if negb authenticated then Done (inl []) else
  if String.eqb (apiKey c) "" || String.eqb (secret c) ""
  then Done (inr (Errorf "MGBX credentials are not configured")) else
  now ← act Now;
  nonce ← randomNonce;
  Done (match nonce with
        | inl nonce => inl (accessHeaders values (pretty (UnixMilli now)) nonce)
        | inr err => inr err
        end).

(** The data of an answer; a missing field decodes like an empty text, as no JSON. *)
Definition answer (resp : reply HttpResponse) : reply (option Json) :=
  match resp with
  | inr err => inr err
  | inl r =>
      if negb (ok_status r)
      then inr (Errorf ("MGBX http " +:+ pretty (StatusCode r) +:+ ": " +:+ Body r)) else
      match Parsed r ≫= decodeEnvelope with
      | None => inr (Wrapf "decode MGBX response: " json_error)
      | Some env =>
          if negb (env_Code env =? 0)
          then inr (Errorf ("MGBX code " +:+ pretty (env_Code env) +:+ ": "
                 +:+ (if String.eqb (env_Msg env) "" then env_Message env else env_Msg env)))
          else inl (env_Data env)
      end
  end.

Definition do_ (method path : string) (values : Values) (authenticated : bool)
    : prog (reply (option Json)) :=
  let endpoint := baseURL c +:+ path in
  match request_error endpoint with
  | Some err => Done (inr err)
  | None =>
      headers ← authenticate values authenticated;
      match headers : reply (list (string * string)) with
      | inr err => Done (inr err)
      | inl headers =>
          resp ← act (HttpDo (MkHttpRequest method (withQuery endpoint values)
            (headers ++ [("Content-Type", "application/x-www-form-urlencoded")])));
          Done (answer resp)
      end
  end.

(** The data, decoded; the error of the decoding carries [prefix]. *)
Definition decoded {A} (prefix : string) (dec : Json -> option A) (data : reply (option Json)) : reply A :=
  match data with
  | inr err => inr err
  | inl data =>
      match data ≫= dec with
      | Some a => inl a
      | None => inr (if String.eqb prefix "" then json_error else Wrapf prefix json_error)
      end
  end.

Definition call {A} (method path : string) (values : Values) (authenticated : bool)
    (prefix : string) (dec : Json -> option A) : prog (reply A) :=
  data ← do_ method path values authenticated; Done (decoded prefix dec data).
End Requests.

(** ** Market data *)

Record rawDepth := MkRawDepth {
  rd_t : Z; rd_s : string; rd_b : list (list string); rd_a : list (list string)
}.

Definition decodeDepth (j : Json) : option rawDepth :=
  l ← asObject j;
  t ← int64 "t" l; s ← text "s" l;
  b ← ifield (asSlice (asSlice unmarshal)) "b" l; a ← ifield (asSlice (asSlice unmarshal)) "a" l;
  Some (MkRawDepth t s b a).

(** The best level of a side, zero when the side is empty. *)
Definition bestLevel (side : string) (levels : list (list string)) : reply (Decimal * Decimal) :=
  match levels with
  | [] => inl (Zero, Zero)
  | (price :: quantity :: _) :: _ =>
      match parseNum price with
      | inr err => inr (Wrapf ("decode MGBX " +:+ side +:+ " price: ") err)
      | inl price =>
          match parseNum quantity with
          | inr err => inr (Wrapf ("decode MGBX " +:+ side +:+ " quantity: ") err)
          | inl quantity => inl (price, quantity)
          end
      end
  | _ => inr (Errorf ("decode MGBX " +:+ side +:+ ": expected price and quantity"))
  end.

Record rawConfig := MkRawConfig {
  rc_symbol : string; rc_baseAsset : string; rc_quoteAsset : string;
  rc_pricePrecision : Z; rc_quantityPrecision : Z
}.

Definition decodeConfig (j : Json) : option rawConfig :=
  l ← asObject j;
  symbol ← text "symbol" l; base ← text "baseAsset" l; quote ← text "quoteAsset" l;
  price ← int64 "pricePrecision" l; quantity ← int64 "quantityPrecision" l;
  Some (MkRawConfig symbol base quote price quantity).

Fixpoint Repeat (s : string) (n : nat) : string :=
  match n with O => "" | S n' => s +:+ Repeat s n' end.

Definition precisionStep (precision : Z) : reply Decimal :=
  if (precision <? 0) || (30 <? precision)
  then inr (Errorf ("unsupported precision " +:+ pretty precision))
  else if precision =? 0 then inl One
  else parseNum ("0." +:+ Repeat "0" (Z.to_nat (precision - 1)) +:+ "1").

Fixpoint rulesOf (symbol : string) (items : list rawConfig) : reply MarketRules :=
  match items with
  | [] => inr (Errorf ("MGBX symbol " +:+ symbol +:+ " not found"))
  | item :: rest =>
      if negb (EqualFold (rc_symbol item) symbol) then rulesOf symbol rest else
      match precisionStep (rc_pricePrecision item) with
      | inr err => inr err
      | inl priceTick =>
          match precisionStep (rc_quantityPrecision item) with
          | inr err => inr err
          | inl quantityStep =>
              inl (MkMarketRules (rc_symbol item) (rc_baseAsset item) (rc_quoteAsset item)
                     priceTick quantityStep Zero Zero Zero Zero Zero Zero 0)
          end
      end
  end.

(** ** Orders and fills *)

Definition decodeBalance (j : Json) : option (string * string * string) :=
  l ← asObject j;
  coin ← text "coin" l; _ ← text "balance" l; freeze ← text "freeze" l; available ← text "availableBalance" l;
  Some (coin, available, freeze).

Definition balanceOf (b : string * string * string) : reply Balance :=
  let '(coin, available, freeze) := b in
  withNum available (fun free => withNum freeze (fun locked => inl (MkBalance coin free locked))).

Record orderPayload := MkOrderPayload {
  op_orderId : string; op_symbol : string; op_orderType : string; op_orderSide : string;
  op_timeInForce : string; op_price : string; op_origQty : string; op_executedQty : string;
  op_state : string; op_createdTime : Z
}.

Definition decodeOrder (j : Json) : option orderPayload :=
  l ← asObject j;
  id ← text "orderId" l; symbol ← text "symbol" l; t ← text "orderType" l; side ← text "orderSide" l;
  tif ← text "timeInForce" l; price ← text "price" l; qty ← text "origQty" l;
  executed ← text "executedQty" l; state ← text "state" l; created ← int64 "createdTime" l;
  Some (MkOrderPayload id symbol t side tif price qty executed state created).

Definition parseOrder (c : Client) (o : orderPayload) : reply Order :=
  withNum (op_price o) (fun price =>
  withNum (op_origQty o) (fun qty =>
  withNum (op_executedQty o) (fun executed =>
  inl (MkOrder (name c) (op_orderId o) "" (op_symbol o) (op_orderSide o) price qty executed
         (op_state o) (fromUnixMilli (op_createdTime o)))))).

Record rawPage := MkRawPage { pg_Total : Z; pg_Items : list orderPayload }.

Definition decodePage (j : Json) : option rawPage :=
  l ← asObject j;
  _ ← int64 "page" l; _ ← int64 "ps" l; total ← int64 "total" l;
  items ← ifield (asSlice decodeOrder) "items" l;
  Some (MkRawPage total items).

Record rawHistory := MkRawHistory {
  rh_orderId : string; rh_symbol : string; rh_orderSide : string; rh_avgPrice : string;
  rh_executedQty : string; rh_createdTime : Z
}.

Definition decodeHistoryItem (j : Json) : option rawHistory :=
  l ← asObject j;
  id ← text "orderId" l; symbol ← text "symbol" l; side ← text "orderSide" l; avg ← text "avgPrice" l;
  executed ← text "executedQty" l; created ← int64 "createdTime" l;
  Some (MkRawHistory id symbol side avg executed created).

Definition decodeHistory (j : Json) : option (list rawHistory) :=
  l ← asObject j; ifield (asSlice decodeHistoryItem) "items" l.

(** A fill of an order that was executed, none of the others. *)
Definition fillOf (c : Client) (h : rawHistory) : reply (option Fill) :=
  withNum (rh_executedQty h) (fun quantity =>
  if negb (IsPositive quantity) then inl None else
  withNum (rh_avgPrice h) (fun price =>
  inl (Some (MkFill (name c) ("order:" +:+ rh_orderId h) (rh_orderId h) (rh_symbol h) (rh_orderSide h)
               price quantity (Mul price quantity) Zero "" false true false
               (fromUnixMilli (rh_createdTime h)))))).

Definition fillLimit (limit : Z) : Z := if (limit <? 1) || (100 <? limit) then 50 else limit.

Definition pageSize : Z := 100.

(** What the answer to a page means: all orders read so far, and whether they are all. *)
Definition takePage (c : Client) (result : list Order) (page : rawPage) : reply (list Order * bool) :=
  match mapReply (parseOrder c) (pg_Items page) with
  | inr err => inr err
  | inl orders =>
      let result := result ++ orders in
      let n := Z.of_nat (length (pg_Items page)) in
      inl (result, (n =? 0)
                   || if 0 <? pg_Total page then pg_Total page <=? Z.of_nat (length result)
                      else n <? pageSize)
  end.

Definition pageValues (symbol : string) (page : Z) : Values :=
  values_of [("symbol", symbol); ("state", "9"); ("page", pretty page); ("size", pretty pageSize)].

Definition placeValues (q : PlaceRequest) : Values :=
  values_of [("symbol", req_Symbol q); ("direction", req_Side q); ("tradeType", "LIMIT");
             ("totalAmount", String_ (req_Quantity q)); ("price", String_ (req_Price q));
             ("timeInForce", "GTX")].

(** ** The methods of the client *)

Section Methods.
Context `{HttpRequests} `{MapRange} `{SliceSort} (c : Client).

Definition bookOf (symbol : string) (now : Time) (raw : rawDepth) : reply Book :=
  match bestLevel "bid" (rd_b raw) with
  | inr err => inr err
  | inl (bid, bidQty) =>
      match bestLevel "ask" (rd_a raw) with
      | inr err => inr err
      | inl (ask, askQty) =>
          inl (MkBook (name c) (if String.eqb (rd_s raw) "" then symbol else rd_s raw)
                 bid bidQty ask askQty (if 0 <? rd_t raw then fromUnixMilli (rd_t raw) else now))
      end
  end.

Definition TopBook (symbol : string) : prog (reply Book) :=
  raw ← call c "GET" "/spot/v1/p/quotation/depth" (values_of [("symbol", symbol); ("level", "5")])
    false "" decodeDepth;
  match raw with
  | inr err => Done (inr err)
  | inl raw => now ← act Now; Done (bookOf symbol now raw)
  end.

(** The rest of a method that only reads the answer. *)
Definition reading {A B} (f : A -> reply B) (p : prog (reply A)) : prog (reply B) :=
  r ← p; Done (match r with inl a => f a | inr err => inr err end).

Definition MarketRules (symbol : string) : prog (reply MarketRules) :=
  reading (rulesOf symbol)
    (call c "GET" "/spot/v1/p/symbol/configs" ∅ false "" (asSlice decodeConfig)).

Definition Balances : prog (reply (list Balance)) :=
  reading (mapReply balanceOf)
    (call c "GET" "/spot/v1/u/balance/spot" ∅ true "" (asSlice decodeBalance)).

Definition orderPage (symbol : string) (page : Z) : prog (reply rawPage) :=
  call c "GET" "/spot/v1/u/trade/order/list" (pageValues symbol page) true "" decodePage.

(** The loop over the pages from [page] on, [fuel] pages at most. *)
Fixpoint orderPages (symbol : string) (fuel : nat) (page : Z) (result : list Order)
    : prog (reply (list Order)) :=
  match fuel with
  | O => Done (inr (Errorf "MGBX open-order pagination exceeded safety limit"))
  | S fuel =>
      raw ← orderPage symbol page;
      match raw with
      | inr err => Done (inr err)
      | inl raw =>
          match takePage c result raw with
          | inr err => Done (inr err)
          | inl (result, true) => Done (inl result)
          | inl (result, false) => orderPages symbol fuel (page + 1) result
          end
      end
  end.

Definition OpenOrders (symbol : string) : prog (reply (list Order)) := orderPages symbol 1000 1 [].

Definition Order (orderID : string) : prog (reply Order) :=
  reading (parseOrder c)
    (call c "GET" "/spot/v1/u/trade/order/detail" (values_of [("orderId", orderID)]) true
       "decode MGBX order detail: " decodeOrder).

Definition RecentFills (symbol : string) (limit : Z) : prog (reply (list Fill)) :=
  reading (fun items => match mapReply (fillOf c) items with
                        | inl fills => inl (omap id fills)
                        | inr err => inr err
                        end)
    (call c "GET" "/spot/v1/u/trade/order/history"
       (values_of [("symbol", symbol); ("limit", pretty (fillLimit limit))]) true "" decodeHistory).

Definition PlacePostOnly (q : PlaceRequest) : prog (reply Domain.Order) :=
  id ← call c "POST" "/spot/v1/u/trade/order/create" (placeValues q) true
    "decode MGBX order id: " (unmarshal (A := string));
  match id with
  | inr err => Done (inr err)
  | inl id =>
      now ← act Now;
      Done (inl (MkOrder (name c) id "" (req_Symbol q) (req_Side q) (req_Price q) (req_Quantity q)
                   Zero OrderUnknown now))
  end.

(** The error of a call whose data are not looked at. *)
Definition send (method path : string) (values : Values) : prog (option error) :=
  r ← do_ c method path values true;
  Done (match r with inl _ => None | inr err => Some err end).

Definition CancelOrder (orderID : string) : prog (option error) :=
  send "POST" "/spot/v1/u/trade/order/cancel" (values_of [("orderId", orderID)]).

(** Chunks of twenty; [fuel] bounds their number. *)
Fixpoint cancelChunks (fuel : nat) (orderIDs : list string) : prog (option error) :=
  match fuel, orderIDs with
  | O, _ | _, [] => Done None
  | S fuel, _ =>
      err ← send "POST" "/spot/v1/u/trade/order/batch/cancel"
        (values_of [("orderIdsJson", json_strings (take 20 orderIDs))]);
      match err with
      | Some err => Done (Some err)
      | None => cancelChunks fuel (drop 20 orderIDs)
      end
  end.

Definition CancelOrders (orderIDs : list string) : prog (option error) :=
  cancelChunks (length orderIDs) orderIDs.
End Methods.
End Mgbx.
