(* ===== verification/Adapters.v ===== *)
(** The adapters behind the venue boundary: each method of a client runs the code of its
    adapter.

    [wire] replaces the calls of a program by the requests the adapters make for them;
    [wire_spec] is the simulation that carries what was shown of the calls over to the
    requests. *)
From S2P Require Import Prelude Decimal Domain Json World Venue Process Rpc EngineControl Wire Binance Mgbx.

Open Scope string_scope.
Open Scope list_scope.
Open Scope Z_scope.

Inductive Adapter :=
  | ABinance (c : Binance.Client)
  | AMgbx (c : Mgbx.Client).

Definition errorOf {A} (r : reply A) : option error :=
  match r with inl _ => None | inr err => Some err end.

Section Serve.
Context `{HttpRequests} `{MapRange} `{SliceSort} `{Schedule}.

Definition withOffset {A} (c : M Z A) (offset : Z) : prog (reply A) := x ← c offset; Done (fst x).

(** Neither adapter implements [BatchPlacer], so the dispatcher never asks for it. *)
Definition notBatchPlacer : list Order * option error := ([], Some (Errorf "batch placement is not implemented")).

Definition serveBinance (c : Binance.Client) (offset : Z) (q : venue_call) : prog (venue_result q) :=
  match q with
  | CTopBook symbol => withOffset (Binance.TopBook c symbol) offset
  | CBalances => withOffset (Binance.Balances c) offset
  | COpenOrders symbol => withOffset (Binance.OpenOrders c symbol) offset
  | CPlacePostOnly request => withOffset (Binance.PlacePostOnly c request) offset
  | CPlaceBatch _ => Done notBatchPlacer
  | CCancelOrder symbol orderID =>
      r ← withOffset (Binance.CancelOrder c symbol orderID) offset; Done (errorOf r)
  | CCancelOrders symbol orderIDs =>
      r ← withOffset (Binance.CancelOrders c symbol orderIDs) offset; Done (errorOf r)
  | COrder symbol orderID => withOffset (Binance.Order c symbol orderID) offset
  | CRecentFills symbol limit => withOffset (Binance.RecentFills c symbol limit) offset
  | CMarketRules symbol => withOffset (Binance.MarketRules c symbol) offset
  end.

Definition serveMgbx (c : Mgbx.Client) (q : venue_call) : prog (venue_result q) :=
  match q with
  | CTopBook symbol => Mgbx.TopBook c symbol
  | CBalances => Mgbx.Balances c
  | COpenOrders symbol => Mgbx.OpenOrders c symbol
  | CPlacePostOnly request => Mgbx.PlacePostOnly c request
  | CPlaceBatch _ => Done notBatchPlacer
  | CCancelOrder _ orderID => Mgbx.CancelOrder c orderID
  | CCancelOrders _ orderIDs => Mgbx.CancelOrders c orderIDs
  | COrder _ orderID => Mgbx.Order c orderID
  | CRecentFills symbol limit => Mgbx.RecentFills c symbol limit
  | CMarketRules symbol => Mgbx.MarketRules c symbol
  end.

Definition serveCall (a : Adapter * Z) (q : venue_call) : prog (venue_result q) :=
  match fst a with
  | ABinance c => serveBinance c (snd a) q
  | AMgbx c => serveMgbx c q
  end.

(** The [n]-th call goes to the adapter, and with the clock offset, that [resolve] says. *)
Fixpoint wire {A} (resolve : nat -> string -> Adapter * Z) (n : nat) (p : prog A) : prog A :=
  match p with
  | Done a => Done a
  | Fail e => Fail e
  | Crash m => Crash m
  | Do a k =>
      match a as a return (result a -> nat -> prog A) -> prog A with
      | Call name q => fun k => r ← serveCall (resolve n name) q; k r (Datatypes.S n)
      | a => fun k => Do a (fun r => k r n)
      end (fun r n => wire resolve n (k r))
  end.

(** ** What an adapter does *)

(** The clock, requests and random bytes. *)
Definition internal (e : event) : Prop :=
  match ev_action e with Now | HttpDo _ | RandRead _ => True | _ => False end.

(** The same without requests that may change something. *)
Definition reading (e : event) : Prop := internal e /\ is_write e = false.

Definition does (P : event -> Prop) {A} (p : prog A) : Prop := ok p (fun es _ => Forall P es).

Lemma does_done P {A} (a : A) : does P (Done a).
Proof. constructor. Qed.

Lemma does_bind P {A B} (p : prog A) (f : A -> prog B) :
  does P p -> (forall a, does P (f a)) -> does P (p ≫= f).
Proof.
  intros Hp Hf. eapply ok_bind; [exact Hp|]. intros es a HP.
  eapply ok_mono; [apply Hf|]. intros es' b HP'. by apply Forall_app.
Qed.

Lemma does_act (P : event -> Prop) a : (forall r, P (MkEvent a r)) -> does P (act a).
Proof. intros HP r _. by repeat constructor. Qed.

Lemma does_mono (P Q : event -> Prop) {A} (p : prog A) : (forall e, P e -> Q e) -> does P p -> does Q p.
Proof. intros HPQ Hp. eapply ok_mono; [exact Hp|]. intros es a HP.
  eapply Forall_impl; [exact HP|exact HPQ]. Qed.

Lemma ok_offset {A} (c : M Z A) offset (Q : trace -> reply A -> Prop) :
  ok (c offset) (fun es x => Q es (fst x)) -> ok (withOffset c offset) Q.
Proof. intros Hc. eapply ok_bind; [exact Hc|]. intros es x Hx. apply ok_done. by rewrite app_nil_r. Qed.

Lemma does_offset P {A} (c : M Z A) offset : (forall z, does P (c z)) -> does P (withOffset c offset).
Proof. intros Hc. apply does_bind; [apply Hc|]. intros x. apply does_done. Qed.

Section M.
Context (P : event -> Prop).
Definition doesM {A} (c : M Z A) : Prop := forall offset, does P (c offset).

Lemma doesM_bind {A B} (c : M Z A) (f : A -> M Z B) : doesM c -> (forall a, doesM (f a)) -> doesM (c ≫= f).
Proof.
  intros Hc Hf offset. apply does_bind; [apply Hc|]. intros [[a|err] z]; [apply Hf|apply does_done].
Qed.

Lemma doesM_lift {A} (r : reply A) : doesM (liftM r).
Proof. intros offset. apply does_done. Qed.

Lemma doesM_act a : (forall r, P (MkEvent a r)) -> doesM (actM a).
Proof. intros HP offset. apply does_bind; [by apply does_act|]. intros r. apply does_done. Qed.

Context (Hnow : forall r, P (MkEvent Now r)).

Section Binance.
Context (c : Binance.Client).

Lemma do_does {A} method path values authenticated (dec : Json -> option A) :
  (forall url headers r, P (MkEvent (HttpDo (MkHttpRequest method url headers)) r)) ->
  does P (Binance.do_ c method path values authenticated dec).
Proof.
  intros HP. unfold Binance.do_. destruct (request_error _); [apply does_done|].
  apply does_bind; [apply does_act; intros; apply HP|]. intros r. apply does_done.
Qed.

Lemma public_does {A} method path values (dec : Json -> option A) :
  (forall url headers r, P (MkEvent (HttpDo (MkHttpRequest method url headers)) r)) ->
  doesM (Binance.public c method path values dec).
Proof. intros HP offset. apply does_bind; [by apply do_does|]. intros r. apply does_done. Qed.

Lemma signed_does {A} method path values (dec : Json -> option A) :
  (forall url headers r, P (MkEvent (HttpDo (MkHttpRequest "GET" url headers)) r)) ->
  (forall url headers r, P (MkEvent (HttpDo (MkHttpRequest method url headers)) r)) ->
  doesM (Binance.signed c method path values dec).
Proof.
  intros Hget HP. unfold Binance.signed. destruct (_ || _); [apply doesM_lift|].
  assert (Honce : doesM (Binance.signedOnce c method path values dec)).
  { intros offset. apply does_bind; [by apply does_act|]. intros now.
    apply does_bind; [by apply do_does|]. intros r. apply does_done. }
  apply doesM_bind; [done|]. intros r. destruct (negb _); [apply doesM_lift|].
  intros offset. apply does_bind.
  - unfold Binance.syncServerTime. apply doesM_bind; [by apply doesM_act|]. intros t.
    apply doesM_bind; [by apply public_does|]. intros st. destruct (_ <=? _); [apply doesM_lift|].
    apply doesM_bind; [by apply doesM_act|]. intros now z. apply does_done.
  - intros [[u|err] z]; [|apply does_done]. apply doesM_bind; [done|]. intros r'. apply doesM_lift.
Qed.
End Binance.

Section Mgbx.
Context (c : Mgbx.Client) (Hrand : forall n r, P (MkEvent (RandRead n) r)).

Lemma mgbx_do_does method path values authenticated :
  (forall url headers r, P (MkEvent (HttpDo (MkHttpRequest method url headers)) r)) ->
  does P (Mgbx.do_ c method path values authenticated).
Proof.
  intros HP. unfold Mgbx.do_. destruct (request_error _); [apply does_done|].
  apply does_bind.
  - unfold Mgbx.authenticate. destruct (negb _); [apply does_done|]. destruct (_ || _); [apply does_done|].
    apply does_bind; [by apply does_act|]. intros now. apply does_bind.
    + apply does_bind; [by apply does_act|]. intros r. apply does_done.
    + intros nonce. apply does_done.
  - intros [headers|err]; [|apply does_done].
    apply does_bind; [apply does_act; intros; apply HP|]. intros r. apply does_done.
Qed.

Lemma call_does {A} method path values authenticated prefix (dec : Json -> option A) :
  (forall url headers r, P (MkEvent (HttpDo (MkHttpRequest method url headers)) r)) ->
  does P (Mgbx.call c method path values authenticated prefix dec).
Proof. intros HP. apply does_bind; [by apply mgbx_do_does|]. intros r. apply does_done. Qed.

Lemma reading_does {A B} (f : A -> reply B) (p : prog (reply A)) : does P p -> does P (Mgbx.reading f p).
Proof. intros Hpf. apply does_bind; [done|]. intros r. apply does_done. Qed.

Lemma orderPages_does symbol fuel page result :
  (forall url headers r, P (MkEvent (HttpDo (MkHttpRequest "GET" url headers)) r)) ->
  does P (Mgbx.orderPages c symbol fuel page result).
Proof.
  intros HP. revert page result. induction fuel as [|fuel IH]; intros page result; [apply does_done|].
  apply does_bind; [by apply call_does|]. intros [raw|err]; [|apply does_done].
  destruct (Mgbx.takePage c result raw) as [[result' []]|err]; [apply does_done|apply IH|apply does_done].
Qed.

Lemma send_does method path values :
  (forall url headers r, P (MkEvent (HttpDo (MkHttpRequest method url headers)) r)) ->
  does P (Mgbx.send c method path values).
Proof. intros HP. apply does_bind; [by apply mgbx_do_does|]. intros r. apply does_done. Qed.

Lemma cancelChunks_does fuel ids :
  (forall url headers r, P (MkEvent (HttpDo (MkHttpRequest "POST" url headers)) r)) ->
  does P (Mgbx.cancelChunks c fuel ids).
Proof.
  intros HP. revert ids. induction fuel as [|fuel IH]; intros ids; [apply does_done|].
  destruct ids as [|id ids]; [apply does_done|]. apply does_bind; [by apply send_does|].
  intros [err|]; [apply does_done|apply IH].
Qed.
End Mgbx.
End M.

Lemma cancelJobs_does P c symbol jobs failures : (forall r, P (MkEvent Now r)) ->
  (forall q r, P (MkEvent (HttpDo q) r)) -> doesM P (Binance.cancelJobs c symbol jobs failures).
Proof.
  intros Hnow HP. revert failures. induction jobs as [|job jobs IH]; intros failures; [apply doesM_lift|].
  apply doesM_bind; [|apply IH]. intros offset. apply does_bind; [by apply signed_does|].
  intros r. apply does_done.
Qed.

(** The methods that only read send no request but [GET]. *)
Ltac reads :=
  repeat first
    [ apply does_done | apply doesM_lift | apply doesM_bind; [|intros ?] | apply does_offset
    | apply mgbx_do_does | apply public_does | apply signed_does | apply reading_does | apply call_does
    | apply orderPages_does | apply doesM_act | apply does_bind; [|intros ?]
    | apply does_act | progress intros | done
    | match goal with |- context [match ?x with _ => _ end] => destruct x end ].

Lemma serve_reads a q : is_write (MkEvent (Call "" q) (offline_venue q)) = false ->
  does reading (serveCall a q).
Proof.
  intros Hq. destruct a as [[c|c] offset], q; try discriminate; unfold serveCall; simpl; by reads.
Qed.

Lemma serve_internal a q : does internal (serveCall a q).
Proof.
  destruct (is_write (MkEvent (Call "" q) (offline_venue q))) eqn:Eq.
  2:{ eapply does_mono; [|by apply serve_reads]. by intros e []. }
  destruct a as [[c|c] offset], q; try discriminate; unfold serveCall; simpl; try apply does_done.
  - apply does_offset. apply doesM_bind; [by apply signed_does|]. intros raw.
    apply doesM_bind; [by apply doesM_act|]. intros now. apply doesM_lift.
  - apply does_bind; [apply does_offset; by apply signed_does|]. intros r. apply does_done.
  - apply does_bind; [|intros r; apply does_done]. apply does_offset.
    apply doesM_bind; [by apply cancelJobs_does|]. intros fs. destruct (Binance.joinErrors fs); apply doesM_lift.
  - apply does_bind; [by apply call_does|]. intros [id|err]; [|apply does_done].
    apply does_bind; [by apply does_act|]. intros now. apply does_done.
  - by apply send_does.
  - by apply cancelChunks_does.
Qed.

(** ** The simulation *)

(** [es] with outcome [o] is possible for [p]. *)
Definition produces {A} (p : prog A) (es : trace) (o : A) : Prop :=
  forall Q : trace -> A -> Prop, ok p Q -> Q es o.

(** [adapts es es']: [es'] is [es] with every call replaced by what its adapter does to answer it. *)
Inductive adapts : trace -> trace -> Prop :=
  | adapts_nil : adapts [] []
  | adapts_other e es es' :
      (forall name q, ev_action e <> Call name q) -> adapts es es' -> adapts (e :: es) (e :: es')
  | adapts_call name q r a hs es es' :
      produces (serveCall a q) hs r -> adapts es es' ->
      adapts (MkEvent (Call name q) r :: es) (hs ++ es').

Lemma ok_produces {A} (p : prog A) (Q : trace -> A -> Prop) :
  ok p Q -> ok p (fun es a => Q es a /\ produces p es a).
Proof.
  unfold ok at 1 2. intros HQ.
  enough (Hg : spec any_result p (returns (fun es a => produces p es a))).
  { eapply spec_mono; [|exact (spec_and _ _ _ _ HQ Hg)]. intros es [x|e|m]; simpl; tauto. }
  revert Q HQ. induction p as [a|e|m|a k IH]; intros Q HQ; simpl in *; try done.
  - intros Q' HQ'. exact HQ'.
  - intros r Hr. eapply spec_mono; [|exact (IH r _ (HQ r Hr))].
    intros es [x|e|m]; simpl; [|done|done]. intros Hx Q' HQ'. apply Hx, (HQ' r Hr).
Qed.

(** Whatever holds of the runs of a program holds of its calls when adapters answer them. *)
Lemma wire_spec {A} resolve n (p : prog A) Q : spec any_result p Q ->
  spec any_result (wire resolve n p) (fun es' o => exists es, Q es o /\ adapts es es').
Proof.
  revert n Q. induction p as [a|e|m|a k IH]; intros n Q HQ; simpl;
    try (exists []; split; [exact HQ|constructor]).
  assert (Hother : (forall name q, a <> Call name q) ->
    spec any_result (Do a (fun r => wire resolve n (k r)))
      (fun es' o => exists es, Q es o /\ adapts es es')).
  { intros Ha r Hr. eapply spec_mono; [|exact (IH r n _ (HQ r Hr))].
    intros es' o (es & HQ' & Had). exists (MkEvent a r :: es). split; [done|by constructor]. }
  destruct a; try (apply Hother; congruence). clear Hother.
  apply spec_bind. pose proof (ok_produces _ _ (serve_internal (resolve n client) c)) as Hs.
  eapply spec_mono; [|exact Hs]. intros hs [r|e|m]; simpl; [|done|done]. intros [_ Hp].
  eapply spec_mono; [|exact (IH r (Datatypes.S n) _ (HQ r I))].
  intros es' o (es & HQ' & Had). exists (MkEvent (Call client c) r :: es). split; [done|by econstructor].
Qed.

Lemma produces_internal a q hs r : produces (serveCall a q) hs r -> Forall internal hs.
Proof. intros Hp. exact (Hp _ (serve_internal a q)). Qed.

Lemma produces_quiet a name q hs r r0 : produces (serveCall a q) hs r ->
  is_write (MkEvent (Call name q) r0) = false -> quiet hs.
Proof.
  intros Hp Hq. assert (Hr : does reading (serveCall a q)) by (apply serve_reads; by destruct q).
  eapply Forall_impl; [exact (Hp _ Hr)|]. by intros e [].
Qed.

Lemma adapts_events es es' : adapts es es' -> forall e, e ∈ es' -> ~ internal e -> e ∈ es.
Proof.
  induction 1 as [|e es es' He _ IH|name q r a hs es es' Hp _ IH]; intros x Hx Hi; [done| |].
  - apply elem_of_cons in Hx as [->|Hx]; [by left|right; by apply IH].
  - apply elem_of_app in Hx as [Hx|Hx]; [|right; by apply IH].
    destruct Hi. by eapply Forall_forall; [eapply produces_internal|].
Qed.
End Serve.
