(* ===== verification/AdapterSafety.v ===== *)
(** What the trading process sends to the exchanges, request by request. *)
From S2P Require Import Prelude Decimal Domain Json Runtimeops World Venue Process Rpc Discipline Engine EngineControl App Scheduler SchedulerFacts Wire Binance Mgbx Adapters.

Open Scope string_scope.
Open Scope list_scope.
Open Scope Z_scope.

(** Before each request that may change something: a validation of a lease that passed,
    then nothing but what the adapter does; and the lease was acquired before. *)
Definition http_fenced (es : trace) : Prop :=
  forall es1 w es2, es = es1 ++ w :: es2 -> is_write w = true ->
  exists es0 key owner generation hs,
    es1 = es0 ++ MkEvent (World.Runtime (RValidateMarketLease key owner generation)) (true, None) :: hs
    /\ Forall internal hs
    /\ exists ttl, MkEvent (World.Runtime (RAcquireMarketLease key owner ttl)) (generation, None) ∈ es0.

Section Requests.
Context `{HttpRequests} `{MapRange} `{SliceSort} `{Schedule}.

Lemma adapts_keeps es es' : adapts es es' -> forall e, e ∈ es ->
  (forall name q, ev_action e <> Call name q) -> e ∈ es'.
Proof.
  induction 1 as [|e es es' He _ IH|name q r a hs es es' Hp _ IH]; intros x Hx Hc; [done| |].
  - apply elem_of_cons in Hx as [->|Hx]; [by left|right; by apply IH].
  - apply elem_of_app. apply elem_of_cons in Hx as [->|Hx]; [by destruct (Hc name q)|right; by apply IH].
Qed.

Lemma adapts_snoc es0 v es' : (forall name q, ev_action v <> Call name q) -> adapts (es0 ++ [v]) es' ->
  exists es0', es' = es0' ++ [v] /\ adapts es0 es0'.
Proof.
  intros Hv. revert es'. induction es0 as [|e es0 IH]; intros es' Ha; simpl in Ha.
  - inversion Ha as [|e' l l' _ Hl|name q r a hs l l' _ Hl]; subst.
    + inversion Hl; subst. exists []. split; [done|constructor].
    + by destruct (Hv name q).
  - inversion Ha as [|e' l l' He Hl|name q r a hs l l' Hp Hl]; subst.
    + destruct (IH _ Hl) as (es0' & -> & Ha'). exists (e :: es0'). split; [done|by constructor].
    + destruct (IH _ Hl) as (es0' & -> & Ha'). exists (hs ++ es0'). rewrite app_assoc.
      split; [done|by econstructor].
Qed.

(** An event of the requests is an event of the calls, or one of those that answer a call. *)
Lemma adapts_split es es' : adapts es es' -> forall es1' w es2', es' = es1' ++ w :: es2' ->
  exists es1 e es2 es0' h1 h2, es = es1 ++ e :: es2 /\ adapts es1 es0' /\ es1' = es0' ++ h1
    /\ (e = w /\ h1 = [] /\ (forall name q, ev_action e <> Call name q)
        \/ exists name q r a, e = MkEvent (Call name q) r /\ produces (serveCall a q) (h1 ++ w :: h2) r).
Proof.
  induction 1 as [|e es es' He Ha IH|name q r a hs es es' Hp Ha IH]; intros es1' w es2' E.
  - by destruct es1'.
  - destruct es1' as [|e1 es1']; simplify_eq/=.
    + exists [], w, es, [], [], []. split_and!; [done|constructor|done|by left].
    + destruct (IH es1' w es2' eq_refl) as (es1 & e & es2 & es0' & h1 & h2 & -> & Ha' & -> & Hor).
      exists (e1 :: es1), e, es2, (e1 :: es0'), h1, h2. split_and!; [done|by constructor|done|exact Hor].
  - apply app_eq_app in E as (l & [[-> El]|[-> El]]).
    + destruct l as [|w' l]; simplify_eq/=.
      * destruct (IH [] w es2' eq_refl) as (es1 & e & es2 & es0' & h1 & h2 & -> & Ha' & E' & Hor).
        exists (MkEvent (Call name q) r :: es1), e, es2, (es1' ++ es0'), h1, h2.
        rewrite app_nil_r in Hp. split_and!; [done|by econstructor|by rewrite <- app_assoc, <- E', app_nil_r|exact Hor].
      * exists [], (MkEvent (Call name q) r), es, [], es1', l. split_and!; [done|constructor|done|].
        right. by exists name, q, r, a.
    + destruct (IH l w es2' El) as (es1 & e & es2 & es0' & h1 & h2 & -> & Ha' & -> & Hor).
      exists (MkEvent (Call name q) r :: es1), e, es2, (hs ++ es0'), h1, h2.
      split_and!; [done|by econstructor|by rewrite app_assoc|exact Hor].
Qed.

Lemma adapts_fenced es es' : adapts es es' -> all_fenced es -> http_fenced es'.
Proof.
  intros Ha Hf es1' w es2' E Hw.
  destruct (adapts_split _ _ Ha _ _ _ E) as (es1 & e & es2 & es0' & h1 & h2 & -> & Ha1 & -> & Hor).
  assert (is_write e = true /\ Forall internal h1) as [He Hh].
  { destruct Hor as [(-> & -> & _)|(name & q & r & a & -> & Hp)]; [split; [done|constructor]|].
    split; [|apply produces_internal in Hp; by apply Forall_app in Hp as []].
    destruct (is_write (MkEvent (Call name q) r)) eqn:Eq; [done|].
    pose proof (produces_quiet _ name _ _ _ _ Hp Eq) as Hq.
    apply Forall_app in Hq as [_ Hq]. apply Forall_cons in Hq as [Hq _]. congruence. }
  destruct (Hf es1 e es2 eq_refl He) as (key & owner & generation & Hlast & ttl & Hin).
  apply last_Some in Hlast as [es0 ->].
  apply adapts_snoc in Ha1 as (es0'' & -> & Ha0); [|done].
  exists es0'', key, owner, generation, h1. split_and!; [by rewrite <- app_assoc|done|].
  exists ttl. eapply adapts_keeps; [exact Ha0| |done].
  apply elem_of_app in Hin as [Hin|Hin]; [done|]. apply list_elem_of_singleton in Hin. discriminate.
Qed.

(** C1: end to end.  Run the trading process from its start, for any number of iterations, with
    the Binance and MGBX adapters behind its calls (any clients, any clock offsets, any
    answers of the network, the exchanges and the services): it returns, and before every
    HTTP request other than GET that an adapter sends there is a validation of a market lease
    that passed, acquired before by the same owner under the same generation, and between
    the two nothing but the steps of that adapter. *)
Theorem requests_fenced `{Environ} resolve env past n : exists es o s',
  run env past (wire resolve 0 (process n startScheduler)) = (es, Ret (o, s')) /\ http_fenced es.
Proof.
  assert (Hs : ok (wire resolve 0 (process n startScheduler)) (fun es' _ => http_fenced es')).
  { eapply spec_mono; [|apply wire_spec, (process_runs n)].
    intros es' [[o s']|err|m] (es & Hr & Ha); simpl in *; [|by destruct Hr..].
    destruct Hr as [Hf _]. by eapply adapts_fenced. }
  destruct (ok_run _ _ env past Hs) as (es & [o s'] & Hrun & Hf). by exists es, o, s'.
Qed.
End Requests.
