(* ===== verification/AdapterFacts.v ===== *)
(** What the adapters promise to the components above them: placements that happen at most
    once, cancellations that reach every order they report, trading rules with positive
    steps, the complete list of open orders. *)
From S2P Require Import Prelude Decimal DecimalText Domain Json World Venue Process Rpc EngineControl Wire Binance Mgbx Adapters.

Open Scope string_scope.
Open Scope list_scope.
Open Scope Z_scope.

(** ** Requests and their answers *)

(** The exchange refused the request because of its time stamp, before looking at it. *)
Definition refused (e : event) : bool :=
  match e with
  | MkEvent (HttpDo _) (inl r) =>
      negb (ok_status r) && match Binance.api_error r with
                            | Binance.apiError _ code _ => code =? -1021
                            | _ => false
                            end
  | _ => false
  end.

(** The requests that may have changed something. *)
Definition effective (es : trace) : list event := filter (fun e => is_write e && negb (refused e) = true) es.

Lemma effective_app es es' : effective (es ++ es') = effective es ++ effective es'.
Proof. apply filter_app. Qed.

Lemma effective_quiet es : quiet es -> effective es = [].
Proof.
  induction 1 as [|e es He _ IH]; [done|]. unfold effective in *. rewrite filter_cons, IH, He. done.
Qed.

Lemma effective_cons e es :
  effective (e :: es) = if is_write e && negb (refused e) then e :: effective es else effective es.
Proof. unfold effective. rewrite filter_cons. by destruct (_ && _). Qed.

Section Binance.
Context `{HttpRequests} `{Schedule} (c : Binance.Client).

(** A request of a signed call. *)
Definition signed_request (method path : string) (values : gmap string (list string)) (e : event) : Prop :=
  exists timestamp r, e = MkEvent (HttpDo (MkHttpRequest method
    (withQuery (Binance.baseURL c +:+ path) (Binance.signedValues c timestamp values))
    [("X-MBX-APIKEY", Binance.apiKey c)])) r.

Definition accepted (e : event) : Prop :=
  match e with MkEvent (HttpDo _) (inl r) => ok_status r = true | _ => False end.

(** The traces of a signed call that may write: its requests are the call's, at most one of
    them was not refused, and success means that one was accepted. *)
Definition signed_trace {A} (method path : string) (values : gmap string (list string))
    (es : trace) (out : reply A) : Prop :=
  Forall (fun e => is_write e = true -> signed_request method path values e) es
  /\ (length (effective es) <= 1)%nat
  /\ (forall a, out = inl a -> exists e, e ∈ es /\ signed_request method path values e /\ accepted e).

Lemma do_ok {A} method path values (dec : Json -> option A) :
  ok (Binance.do_ c method path values true dec) (fun es r =>
    (es = [] /\ exists err, r = inr (Binance.otherError err)) \/ exists resp, es = [MkEvent (HttpDo (MkHttpRequest method
      (withQuery (Binance.baseURL c +:+ path) values) [("X-MBX-APIKEY", Binance.apiKey c)])) resp]
    /\ (forall a, r = inl a -> exists h, resp = inl h /\ ok_status h = true)
    /\ (Binance.outOfWindow r = true -> exists h, resp = inl h /\ refused (MkEvent (HttpDo (MkHttpRequest "" "" [])) (inl h)) = true)).
Proof.
  unfold Binance.do_. destruct (request_error _) as [err|]; [apply ok_done; left; eauto|].
  apply ok_act. intros resp. apply ok_done. right. exists resp. split; [done|].
  destruct resp as [h|err]; simpl; [|by split; intros].
  destruct (ok_status h) eqn:Es; simpl.
  - split; [intros a _; by exists h|]. by destruct (Parsed h ≫= dec).
  - split; [done|]. intros Hw. exists h. split; [done|]. unfold refused. by rewrite Es.
Qed.

Lemma signedOnce_ok {A} method path values (dec : Json -> option A) offset :
  ok (Binance.signedOnce c method path values dec offset) (fun es out => exists r, out = (inl r, offset)
    /\ Forall (fun e => is_write e = true -> signed_request method path values e) es
    /\ (length (effective es) <= if Binance.outOfWindow r then 0 else 1)%nat
    /\ (forall a, r = inl a -> exists e, e ∈ es /\ signed_request method path values e /\ accepted e)).
Proof.
  apply ok_act. intros now. eapply ok_bind; [apply do_ok|].
  intros es r [(-> & err & ->)|(resp & -> & Hin & Hout)]; apply ok_done; rewrite app_nil_r; eexists;
    (split; [reflexivity|]).
  - split_and!; [by repeat constructor|by simpl; lia|done].
  - set (ts := wrap64 (UnixMilli now + offset)) in *.
    set (e := MkEvent _ resp). assert (He : signed_request method path values e) by (by exists ts, resp).
    split_and!.
    + apply Forall_cons; split; [done|]. by repeat constructor.
    + rewrite (effective_cons (MkEvent Now now)), effective_cons. cbn [is_write ev_action andb].
      destruct (Binance.outOfWindow r) eqn:Eo.
      * destruct (Hout eq_refl) as (h & -> & Hr). change (refused e = true) in Hr. by rewrite Hr, andb_false_r.
      * destruct (is_write e && negb (refused e)); simpl; lia.
    + intros a ->. exists e. split_and!; [right; left|done|]. by destruct (Hin a eq_refl) as (h & -> & Hh).
Qed.

Lemma sync_quiet offset : ok (Binance.syncServerTime c offset) (fun es _ => quiet es).
Proof.
  eapply does_mono with (P := fun e => is_write e = false); [done|]. revert offset.
  unfold Binance.syncServerTime. apply doesM_bind; [by apply doesM_act|]. intros t.
  apply doesM_bind; [by apply public_does|]. intros st. destruct (_ <=? _); [apply doesM_lift|].
  apply doesM_bind; [by apply doesM_act|]. intros now z. apply does_done.
Qed.

Lemma signed_trace_quiet {A} method path values es (err : error) : quiet es ->
  signed_trace (A := A) method path values es (inr err).
Proof.
  intros Hq. split_and!; [|by rewrite (effective_quiet _ Hq); simpl; lia|done].
  eapply Forall_impl; [exact Hq|]. simpl. congruence.
Qed.

Lemma plain_inl {A} (r : A + Binance.failure) a : Binance.plain r = inl a -> r = inl a.
Proof. destruct r; [|done]. by intros [= ->]. Qed.

Lemma signed_ok {A} method path values (dec : Json -> option A) offset :
  ok (Binance.signed c method path values dec offset) (fun es out => signed_trace method path values es (fst out)).
Proof.
  unfold Binance.signed. destruct (_ || _); [apply ok_done; apply signed_trace_quiet; constructor|].
  eapply ok_bind; [apply signedOnce_ok|]. intros es1 out (r & -> & H1 & H2 & H3). cbn [fst snd].
  destruct (Binance.outOfWindow r) eqn:Ew; cbn [negb].
  2:{ apply ok_done. rewrite app_nil_r. split_and!; [done|done|]. intros a Ha. by apply (H3 a), plain_inl. }
  eapply ok_bind; [apply sync_quiet|]. intros es2 [s z] Hq. cbn [fst snd].
  assert (H4 : Forall (fun e => is_write e = true -> signed_request method path values e) (es1 ++ es2)).
  { apply Forall_app. split; [done|]. eapply Forall_impl; [exact Hq|]. simpl. congruence. }
  assert (H5 : effective (es1 ++ es2) = []).
  { rewrite effective_app, (effective_quiet es2 Hq), app_nil_r. destruct (effective es1); [done|]. simpl in H2. lia. }
  destruct s as [u|err].
  2:{ apply ok_done. rewrite app_nil_r. split_and!; [done|by rewrite H5; simpl; lia|done]. }
  eapply ok_bind; [apply signedOnce_ok|]. intros es3 out (r' & -> & H1' & H2' & H3'). apply ok_done.
  rewrite app_nil_r, app_assoc. split_and!.
  - by apply Forall_app.
  - rewrite effective_app, H5. simpl. by destruct (Binance.outOfWindow r'); lia.
  - intros a Ha. destruct (H3' a) as (e & He & Hrest); [by apply plain_inl|].
    exists e. split; [apply elem_of_app; by right|done].
Qed.

(** A placement: its requests state the order, at most one of them took effect, and a confirmed
    order was accepted. *)
Lemma binance_place_ok q offset :
  ok (Binance.PlacePostOnly c q offset) (fun es out =>
    signed_trace "POST" "/api/v3/order" (Binance.placeValues c q) es (fst out)).
Proof.
  eapply ok_bind; [apply signed_ok|]. intros es [[raw|err] z] (H1 & H2 & H3); cbn [fst snd].
  2:{ apply ok_done. rewrite app_nil_r. by split_and!. }
  apply ok_act. intros now. apply ok_done. split_and!.
  - apply Forall_app. split; [done|]. by repeat constructor.
  - by rewrite effective_app, app_nil_r.
  - intros a _. destruct (H3 raw eq_refl) as (e & He & Hr). exists e. split; [apply elem_of_app; by left|done].
Qed.

(** The exchange accepted the cancellation of the order. *)
Definition cancelled_at (symbol orderID : string) (es : trace) : Prop :=
  exists e, e ∈ es /\ accepted e
  /\ signed_request "DELETE" "/api/v3/order" (values_of [("symbol", symbol); ("orderId", orderID)]) e.

Lemma cancelled_at_l symbol id es es' : cancelled_at symbol id es -> cancelled_at symbol id (es ++ es').
Proof. intros (e & He & Hr). exists e. split; [apply elem_of_app; by left|done]. Qed.
Lemma cancelled_at_r symbol id es es' : cancelled_at symbol id es' -> cancelled_at symbol id (es ++ es').
Proof. intros (e & He & Hr). exists e. split; [apply elem_of_app; by right|done]. Qed.

Lemma binance_cancel_ok symbol id offset :
  ok (Binance.CancelOrder c symbol id offset) (fun es out => fst out = inl tt -> cancelled_at symbol id es).
Proof.
  eapply ok_mono; [apply signed_ok|]. intros es out (_ & _ & H3) Ho.
  destruct (H3 tt Ho) as (e & He & Hr & Ha). by exists e.
Qed.

Lemma binance_job_ok symbol failures job offset :
  ok (Binance.cancelJob c symbol failures job offset) (fun es out => exists fs, fst out = inl fs
    /\ (fs = [] -> failures = [] /\ cancelled_at symbol job es)).
Proof.
  eapply ok_bind; [apply binance_cancel_ok|]. intros es [[[]|err] z] Hc; apply ok_done; rewrite app_nil_r;
    (eexists; split; [reflexivity|]); [|by destruct failures].
  cbn [fst]. intros ->. split; [done|by apply Hc].
Qed.

Lemma binance_jobs_ok symbol jobs failures offset :
  ok (Binance.cancelJobs c symbol jobs failures offset) (fun es out => exists fs, fst out = inl fs
    /\ (fs = [] -> failures = [] /\ forall id, id ∈ jobs -> cancelled_at symbol id es)).
Proof.
  revert failures offset. induction jobs as [|job jobs IH]; intros failures offset.
  { apply ok_done. exists failures. split; [done|]. intros ->. split; [done|]. by intros id ?%elem_of_nil. }
  eapply ok_bind; [apply binance_job_ok|].
  intros es [r z] (fs & Hr & Hf). cbn [fst snd] in *. subst r.
  eapply ok_mono; [apply IH|]. intros es' out (fs' & Ho & Hf'). exists fs'. split; [done|]. intros E.
  destruct (Hf' E) as [E' Hall]. destruct (Hf E') as [-> Hj]. split; [done|].
  intros id [->|Hin]%elem_of_cons; [by apply cancelled_at_l|by apply cancelled_at_r, Hall].
Qed.

Lemma scheduled_all (ids : list string) id : id ∈ ids -> id ∈ omap (fun i => ids !! i) (schedule (length ids)).
Proof.
  intros [i Hi]%list_elem_of_lookup. apply list_elem_of_omap. exists i. split; [|done].
  rewrite schedule_perm. apply elem_of_seq. apply lookup_lt_Some in Hi. lia.
Qed.

Lemma binance_cancels_ok symbol ids offset :
  ok (Binance.CancelOrders c symbol ids offset) (fun es out =>
    fst out = inl tt -> forall id, id ∈ ids -> cancelled_at symbol id es).
Proof.
  eapply ok_bind; [apply binance_jobs_ok|]. intros es [r z] (fs & Hr & Hf). cbn [fst snd] in *. subst r.
  destruct fs as [|f fs]; apply ok_done; rewrite app_nil_r; [|done]. intros _ id Hid.
  by apply Hf, scheduled_all.
Qed.
End Binance.

Section Mgbx.
Context `{HttpRequests} `{MapRange} `{SliceSort} (c : Mgbx.Client).

Definition mgbx_request (method path : string) (values : gmap string (list string)) (e : event) : Prop :=
  exists timestamp nonce r, e = MkEvent (HttpDo (MkHttpRequest method
    (withQuery (Mgbx.baseURL c +:+ path) values)
    (Mgbx.accessHeaders c values timestamp nonce ++ [("Content-Type", "application/x-www-form-urlencoded")]))) r.

(** The envelope of the answer carries no error. *)
Definition granted (e : event) : Prop :=
  match e with MkEvent (HttpDo _) r => exists data, Mgbx.answer r = inl data | _ => False end.

Definition mgbx_trace {A} (method path : string) (values : gmap string (list string))
    (es : trace) (out : reply A) : Prop :=
  Forall (fun e => is_write e = true -> mgbx_request method path values e) es
  /\ (length (effective es) <= 1)%nat
  /\ (forall a, out = inl a -> exists e, e ∈ es /\ mgbx_request method path values e /\ granted e).

Lemma mgbx_trace_quiet {A} method path values es (err : error) : quiet es ->
  mgbx_trace (A := A) method path values es (inr err).
Proof.
  intros Hq. split_and!; [|by rewrite (effective_quiet _ Hq); simpl; lia|done].
  eapply Forall_impl; [exact Hq|]. simpl. congruence.
Qed.

Lemma authenticate_ok values :
  ok (Mgbx.authenticate c values true) (fun es out => quiet es
    /\ forall hs, out = inl hs -> exists timestamp nonce, hs = Mgbx.accessHeaders c values timestamp nonce).
Proof.
  unfold Mgbx.authenticate. cbn [negb]. destruct (_ || _); [apply ok_done; split; [constructor|done]|].
  apply ok_act. intros now. unfold Mgbx.randomNonce. apply ok_act. intros [b|err]; apply ok_done;
    (split; [by repeat constructor|]); [|done]. intros hs [= <-]. by eexists _, _.
Qed.

Lemma mgbx_do_ok method path values :
  ok (Mgbx.do_ c method path values true) (mgbx_trace method path values).
Proof.
  unfold Mgbx.do_. destruct (request_error _); [apply ok_done, mgbx_trace_quiet; constructor|].
  eapply ok_bind; [apply authenticate_ok|]. intros es [hs|err] [Hq Hhs].
  2:{ apply ok_done. rewrite app_nil_r. by apply mgbx_trace_quiet. }
  destruct (Hhs hs eq_refl) as (ts & nonce & ->). apply ok_act. intros resp. apply ok_done.
  set (e := MkEvent _ resp). assert (He : mgbx_request method path values e) by (by exists ts, nonce, resp).
  split_and!.
  - apply Forall_app. split; [eapply Forall_impl; [exact Hq|]; simpl; congruence|]. by repeat constructor.
  - rewrite effective_app, (effective_quiet es Hq), effective_cons. destruct (_ && _); simpl; lia.
  - intros a Ha. exists e. split_and!; [apply elem_of_app; right; left|done|by exists a].
Qed.

Lemma mgbx_call_ok {A} method path values prefix (dec : Json -> option A) :
  ok (Mgbx.call c method path values true prefix dec) (mgbx_trace method path values).
Proof.
  eapply ok_bind; [apply mgbx_do_ok|]. intros es data (H1' & H2' & H3). apply ok_done. rewrite app_nil_r.
  split_and!; [done|done|]. intros a Ha. destruct data as [d|err]; [|done]. by apply (H3 d).
Qed.

Lemma mgbx_place_ok q :
  ok (Mgbx.PlacePostOnly c q) (mgbx_trace "POST" "/spot/v1/u/trade/order/create" (Mgbx.placeValues q)).
Proof.
  eapply ok_bind; [apply mgbx_call_ok|]. intros es [id|err] (H1' & H2' & H3).
  2:{ apply ok_done. rewrite app_nil_r. by split_and!. }
  apply ok_act. intros now. apply ok_done. split_and!.
  - apply Forall_app. split; [done|]. by repeat constructor.
  - by rewrite effective_app, app_nil_r.
  - intros a _. destruct (H3 id eq_refl) as (e & He & Hr). exists e. split; [apply elem_of_app; by left|done].
Qed.

(** The exchange granted a cancellation of at most twenty orders, this one among them. *)
Definition cancelled_in_batch (orderID : string) (es : trace) : Prop :=
  exists e ids, e ∈ es /\ granted e /\ orderID ∈ ids /\ (length ids <= 20)%nat
  /\ mgbx_request "POST" "/spot/v1/u/trade/order/batch/cancel" (values_of [("orderIdsJson", json_strings ids)]) e.

Lemma send_ok method path values : ok (Mgbx.send c method path values) (fun es err =>
  err = None -> exists e, e ∈ es /\ mgbx_request method path values e /\ granted e).
Proof.
  eapply ok_bind; [apply mgbx_do_ok|]. intros es data (_ & _ & H3). apply ok_done. rewrite app_nil_r.
  intros Hn. destruct data as [d|err]; [|done]. by apply (H3 d).
Qed.

Lemma cancelChunks_ok fuel ids : (length ids <= fuel)%nat ->
  ok (Mgbx.cancelChunks c fuel ids) (fun es err => err = None -> forall id, id ∈ ids -> cancelled_in_batch id es).
Proof.
  revert ids. induction fuel as [|fuel IH]; intros ids Hl.
  { destruct ids; [|simpl in Hl; lia]. apply ok_done. by intros _ id ?%elem_of_nil. }
  destruct ids as [|id0 ids]; [apply ok_done; by intros _ id ?%elem_of_nil|].
  set (l := id0 :: ids) in *. change (Mgbx.cancelChunks c (Datatypes.S fuel) l) with
    (err ← Mgbx.send c "POST" "/spot/v1/u/trade/order/batch/cancel" (values_of [("orderIdsJson", json_strings (take 20 l))]);
     match err with Some err => Done (Some err) | None => Mgbx.cancelChunks c fuel (drop 20 l) end).
  eapply ok_bind; [apply send_ok|]. intros es [err|] Hs; [by apply ok_done|].
  destruct (Hs eq_refl) as (e & He & Hreq & Hg).
  eapply ok_mono; [apply IH; rewrite length_drop; simpl in *; lia|]. intros es' err Hall Hn id Hid.
  rewrite <- (take_drop 20 l) in Hid. apply elem_of_app in Hid as [Hid|Hid].
  - exists e, (take 20 l). split_and!; [apply elem_of_app; by left|done|done|rewrite length_take; lia|done].
  - destruct (Hall Hn id Hid) as (e' & ids' & He' & Hrest). exists e', ids'. split; [apply elem_of_app; by right|done].
Qed.
End Mgbx.

(** ** The promises *)

Section Promises.
Context `{HttpRequests} `{MapRange} `{SliceSort} `{Schedule}.

(** The exchange confirmed the cancellation of the order, to the Binance client with a request
    of its own, to the MGBX client with a batch. *)
Definition reached (a : Adapter) (symbol orderID : string) (es : trace) : Prop :=
  match a with
  | ABinance c => cancelled_at c symbol orderID es
  | AMgbx c => cancelled_in_batch c orderID es
  end.

(** C10: when the cancellation of several orders reports no error, the exchange has confirmed the
    cancellation of every one of them: with a DELETE of its own to Binance, which was
    answered with success, or in a batch of at most twenty to MGBX, whose envelope carried
    no error.  It always returns. *)
Theorem cancellation_reaches_all a offset symbol orderIDs env past :
  match run env past (serveCall (a, offset) (CCancelOrders symbol orderIDs)) with
  | (es, Ret err) => err = None -> forall orderID, orderID ∈ orderIDs -> reached a symbol orderID es
  | _ => False
  end.
Proof.
  assert (Hok : ok (serveCall (a, offset) (CCancelOrders symbol orderIDs)) (fun es err =>
    err = None -> forall id, id ∈ orderIDs -> reached a symbol id es)).
  { destruct a as [c|c].
    - eapply ok_bind; [exact (ok_offset _ _ (fun es o => o = inl tt -> forall id, id ∈ orderIDs ->
        cancelled_at c symbol id es) (binance_cancels_ok c symbol orderIDs offset))|]. cbv beta.
      intros es [[]|err] Hx; apply ok_done; rewrite app_nil_r; [|done]. intros _. by apply Hx.
    - by apply cancelChunks_ok. }
  by destruct (ok_run _ _ env past Hok) as (es & err & -> & Hall).
Qed.

(** How the adapters name the parameters of an order. *)
Definition sideKey (a : Adapter) : string := match a with ABinance _ => "side" | AMgbx _ => "direction" end.
Definition quantityKey (a : Adapter) : string := match a with ABinance _ => "quantity" | AMgbx _ => "totalAmount" end.
Definition postOnly (a : Adapter) : string * string :=
  match a with ABinance _ => ("type", "LIMIT_MAKER") | AMgbx _ => ("timeInForce", "GTX") end.

(** A request for exactly the order that was asked for. *)
Definition states_order (a : Adapter) (q : PlaceRequest) (e : event) : Prop :=
  exists endpoint v headers r,
    e = MkEvent (HttpDo (MkHttpRequest "POST" (withQuery endpoint v) headers)) r
    /\ v !! "symbol" = Some [req_Symbol q] /\ v !! sideKey a = Some [req_Side q]
    /\ v !! "price" = Some [String_ (req_Price q)]
    /\ v !! quantityKey a = Some [String_ (req_Quantity q)]
    /\ v !! fst (postOnly a) = Some [snd (postOnly a)].

Lemma binance_states c q e : signed_request c "POST" "/api/v3/order" (Binance.placeValues c q) e ->
  states_order (ABinance c) q e.
Proof.
  intros (ts & r & ->). eexists _, _, _, _. split; [reflexivity|].
  unfold Binance.signedValues, Binance.placeValues, SetValue. cbn [sideKey quantityKey postOnly fst snd].
  destruct (String.eqb _ _); split_and!; by repeat (rewrite lookup_insert_ne by done); simpl; simplify_map_eq.
Qed.

Lemma mgbx_states c q e : mgbx_request c "POST" "/spot/v1/u/trade/order/create" (Mgbx.placeValues q) e ->
  states_order (AMgbx c) q e.
Proof.
  intros (ts & nonce & r & ->). eexists _, _, _, _. split; [reflexivity|].
  unfold Mgbx.placeValues. cbn [sideKey quantityKey postOnly fst snd values_of foldl]. unfold SetValue.
  by split_and!; simplify_map_eq.
Qed.

Definition confirmed (a : Adapter) (e : event) : Prop :=
  match a with ABinance _ => accepted e | AMgbx _ => granted e end.

(** C9: a placement takes effect at most once and is what was asked for: every request of the
    adapter that may change something states the symbol, the side, the exact texts of
    price and quantity and the post-only type of the order; all of them but at most one were
    refused by the exchange because of their time stamp (Binance's -1021, after which the
    clock is synchronised and the request repeated once); and an order is only reported
    when one of the requests was confirmed. *)
Theorem placement_at_most_once a offset q env past :
  match run env past (serveCall (a, offset) (CPlacePostOnly q)) with
  | (es, Ret out) =>
      (forall e, e ∈ es -> is_write e = true -> states_order a q e)
      /\ (length (effective es) <= 1)%nat
      /\ (forall order, out = inl order -> exists e, e ∈ es /\ states_order a q e /\ confirmed a e)
  | _ => False
  end.
Proof.
  assert (Hok : ok (serveCall (a, offset) (CPlacePostOnly q)) (fun es out =>
    (forall e, e ∈ es -> is_write e = true -> states_order a q e) /\ (length (effective es) <= 1)%nat
    /\ (forall order, out = inl order -> exists e, e ∈ es /\ states_order a q e /\ confirmed a e))).
  { destruct a as [c|c].
    - apply ok_offset. eapply ok_mono; [apply binance_place_ok|]. intros es x (H1' & H2' & H3). split_and!; [|done|].
      + intros e He Hw. apply binance_states. by eapply (proj1 (Forall_forall _ _) H1').
      + intros o Ho. destruct (H3 o Ho) as (e & He & Hr & Ha). exists e. split_and!; [done|by apply binance_states|done].
    - eapply ok_mono; [apply mgbx_place_ok|]. intros es x (H1' & H2' & H3). split_and!; [|done|].
      + intros e He Hw. apply (mgbx_states c). by eapply (proj1 (Forall_forall _ _) H1').
      + intros o Ho. destruct (H3 o Ho) as (e & He & Hr & Ha). exists e. split_and!; [done|by apply (mgbx_states c)|done]. }
  by destruct (ok_run _ _ env past Hok) as (es & out & -> & Hall).
Qed.
End Promises.
