(* ===== verification/AdapterOrders.v ===== *)
(** What the adapters read: trading rules with positive steps, and every open order of an
    exchange that lists them page by page. *)
From S2P Require Import Prelude Decimal DecimalText Domain Json World Venue Process Rpc EngineControl Wire Binance Mgbx Adapters.

Open Scope string_scope.
Open Scope list_scope.
Open Scope Z_scope.

(** ** Trading rules *)

Lemma precisionStep_exact p : 0 <= p <= 30 ->
  Mgbx.precisionStep p = inl (FromRat (1 # Z.to_pos (10 ^ p))).
Proof.
  intros Hp. assert (Hall : Forall (fun p => Mgbx.precisionStep p = inl (FromRat (1 # Z.to_pos (10 ^ p)))) (seqZ 0 31)).
  { eapply (bool_decide_eq_true_1 _). vm_compute. reflexivity. }
  eapply Forall_forall in Hall; [exact Hall|]. apply elem_of_seqZ. lia.
Qed.

Lemma precisionStep_positive p d : Mgbx.precisionStep p = inl d -> IsPositive d = true.
Proof.
  intros Hd. destruct (decide (0 <= p <= 30)) as [Hp|Hn].
  - rewrite precisionStep_exact in Hd by done. by injection Hd as <-.
  - unfold Mgbx.precisionStep in Hd. destruct (Z.ltb_spec p 0), (Z.ltb_spec 30 p); simpl in Hd; try done; lia.
Qed.

Definition positive_steps (rules : MarketRules) : Prop :=
  IsPositive (rules_PriceTick rules) = true /\ IsPositive (rules_QuantityStep rules) = true.

Lemma binance_rules symbol symbols rules : Binance.rulesOf symbol symbols = inl rules -> positive_steps rules.
Proof.
  unfold Binance.rulesOf. destruct symbols as [|item [|]]; try done.
  destruct (_ || _) eqn:Eb; [done|]. intros [= <-]. apply orb_false_elim in Eb as [E1 E2].
  by split; [apply negb_false_iff in E1|apply negb_false_iff in E2].
Qed.

Lemma mgbx_rules symbol items rules : Mgbx.rulesOf symbol items = inl rules -> positive_steps rules.
Proof.
  induction items as [|item items IH]; [done|]. simpl. destruct (negb _); [exact IH|].
  destruct (Mgbx.precisionStep (Mgbx.rc_pricePrecision item)) as [tick|] eqn:Et; [|done].
  destruct (Mgbx.precisionStep (Mgbx.rc_quantityPrecision item)) as [step|] eqn:Es; [|done].
  intros [= <-]. split; by eapply precisionStep_positive.
Qed.

Section Rules.
Context `{HttpRequests} `{MapRange} `{SliceSort} `{Schedule}.

Lemma ok_any {A} (p : prog A) P : does P p -> ok p (fun _ _ => True).
Proof. intros Hp. eapply ok_mono; [exact Hp|done]. Qed.

(** Whatever the exchange answers, the trading rules an adapter reports have a positive
    price tick and a positive quantity step; anything else is an error. *)
Theorem market_rules_positive a offset symbol env past :
  match run env past (serveCall (a, offset) (CMarketRules symbol)) with
  | (_, Ret out) => forall rules, out = inl rules ->
      IsPositive (rules_PriceTick rules) = true /\ IsPositive (rules_QuantityStep rules) = true
  | _ => False
  end.
Proof.
  assert (Hok : ok (serveCall (a, offset) (CMarketRules symbol)) (fun _ out =>
    forall rules, out = inl rules -> positive_steps rules)).
  { destruct a as [c|c].
    - apply ok_offset. eapply ok_bind; [apply (ok_any _ internal); by apply public_does|].
      intros es [[raw|err] z] _; apply ok_done; [|done]. intros rules. apply binance_rules.
    - eapply ok_bind; [apply (ok_any _ internal); by apply call_does|]. intros es [items|err] _; apply ok_done; [|done].
      intros rules. apply mgbx_rules. }
  by destruct (ok_run _ _ env past Hok) as (es & out & -> & Hall).
Qed.
End Rules.

(** ** Open orders, page by page *)

Lemma mapReply_Forall2 {A B} (f : A -> reply B) l bs :
  mapReply f l = inl bs <-> Forall2 (fun x b => f x = inl b) l bs.
Proof.
  revert bs. induction l as [|x l IH]; intros bs; simpl.
  { split; [by intros [= <-]|]. intros Hf. by inversion Hf. }
  split.
  - destruct (f x) eqn:Ex; [|done]. destruct (mapReply f l) as [bs'|] eqn:El; [|done].
    intros [= <-]. constructor; [done|by apply IH].
  - intros Hf. inversion Hf as [|y b l' bs' Hx Hl]; subst. rewrite Hx.
    by apply IH in Hl as ->.
Qed.

(** The JSON of an order, and of a page of the list. *)
Definition payload_json (o : Mgbx.orderPayload) : Json :=
  JObj [("orderId", JStr (Mgbx.op_orderId o)); ("symbol", JStr (Mgbx.op_symbol o));
        ("orderType", JStr (Mgbx.op_orderType o)); ("orderSide", JStr (Mgbx.op_orderSide o));
        ("timeInForce", JStr (Mgbx.op_timeInForce o)); ("price", JStr (Mgbx.op_price o));
        ("origQty", JStr (Mgbx.op_origQty o)); ("executedQty", JStr (Mgbx.op_executedQty o));
        ("state", JStr (Mgbx.op_state o)); ("createdTime", JNum (Mgbx.op_createdTime o))].

Definition page_json (page total : Z) (items : list Mgbx.orderPayload) : Json :=
  JObj [("code", JNum 0); ("data", JObj [("page", JNum page); ("ps", JNum 100); ("total", JNum total);
                                         ("items", JArr (map payload_json items))])].

(** The orders of page [page]. *)
Definition page_of {A} (page : Z) (l : list A) : list A := take 100 (drop (Z.to_nat (100 * (page - 1))) l).

Lemma decode_payload o : in_int64 (Mgbx.op_createdTime o) -> Mgbx.decodeOrder (payload_json o) = Some o.
Proof.
  intros Hi. destruct o as [id symbol t side tif price qty executed state created]. simpl in Hi.
  assert (Hc : unmarshal_int64 (JNum created) = Some created).
  { simpl. destruct Hi as [H1 H2]. apply Z.leb_le in H1, H2. by rewrite H1, H2. }
  unfold Mgbx.decodeOrder, payload_json. simpl.
  change (int64 "createdTime" _) with (unmarshal_int64 (JNum created)). by rewrite Hc.
Qed.

Lemma decode_page page total items : in_int64 page -> in_int64 total ->
  Forall (fun o => in_int64 (Mgbx.op_createdTime o)) items ->
  Mgbx.decoded "" Mgbx.decodePage (Mgbx.answer (inl (MkHttpResponse 200 "" (Some (page_json page total items)))))
  = inl (Mgbx.MkRawPage total items).
Proof.
  intros Hp Ht Hi.
  assert (Hd : mapM Mgbx.decodeOrder (map payload_json items) = Some items).
  { apply mapM_Some_2. induction Hi as [|o l Ho _ IH]; constructor; [by apply decode_payload|done]. }
  assert (Hn : forall n, in_int64 n -> unmarshal_int64 (JNum n) = Some n).
  { intros n [H1 H2]. simpl. apply Z.leb_le in H1, H2. by rewrite H1, H2. }
  unfold Mgbx.answer, page_json. simpl. unfold Mgbx.decodePage. simpl.
  change (int64 "page" _) with (unmarshal_int64 (JNum page)). rewrite Hn by done. simpl.
  change (int64 "ps" _) with (Some 100). simpl.
  change (int64 "total" _) with (unmarshal_int64 (JNum total)). rewrite Hn by done. simpl.
  change (ifield (asSlice Mgbx.decodeOrder) "items" _) with (mapM Mgbx.decodeOrder (map payload_json items)).
  by rewrite Hd.
Qed.

Section Pages.
Context `{HttpRequests} `{MapRange} `{SliceSort} (c : Mgbx.Client) (env : Env).

(** The exchange lists the orders [raws] in pages of a hundred, with [total] as their number,
    and random bytes are to be had. *)
Definition lists_orders (symbol : string) (total : Z) (raws : list Mgbx.orderPayload) : Prop :=
  (forall past n, exists bytes, env past (RandRead n) = inl bytes)
  /\ (forall past page headers, 1 <= page <= Z.of_nat (length raws) / 100 + 1 ->
      env past (HttpDo (MkHttpRequest "GET"
        (withQuery (Mgbx.baseURL c +:+ "/spot/v1/u/trade/order/list") (Mgbx.pageValues symbol page)) headers))
      = inl (MkHttpResponse 200 "" (Some (page_json page total (page_of page raws))))).

Context (symbol : string) (total : Z) (raws : list Mgbx.orderPayload) (os : list Order)
  (Hlists : lists_orders symbol total raws)
  (Hkey : Mgbx.apiKey c <> "") (Hsecret : Mgbx.secret c <> "")
  (Hurl : request_error (Mgbx.baseURL c +:+ "/spot/v1/u/trade/order/list") = None)
  (Htotal : total = 0 \/ total = Z.of_nat (length raws))
  (Htimes : Forall (fun o => in_int64 (Mgbx.op_createdTime o)) raws)
  (Hparse : mapReply (Mgbx.parseOrder c) raws = inl os)
  (Hmany : Z.of_nat (length raws) < 100000).

Lemma run_orderPage past page : 1 <= page <= Z.of_nat (length raws) / 100 + 1 ->
  exists es, run env past (Mgbx.orderPage c symbol page) = (es, Ret (inl (Mgbx.MkRawPage total (page_of page raws)))).
Proof.
  intros Hp. destruct Hlists as [Hrand Hhttp].
  unfold Mgbx.orderPage, Mgbx.call, Mgbx.do_, Mgbx.authenticate. rewrite Hurl. cbn [negb].
  rewrite (proj2 (String.eqb_neq _ _) Hkey), (proj2 (String.eqb_neq _ _) Hsecret). cbn [orb].
  destruct (Hrand (past ++ [MkEvent Now (env past Now)]) 16%nat) as [bytes Hb].
  eexists. simpl. rewrite Hb. simpl. rewrite Hhttp by done. rewrite decode_page; [reflexivity|..].
  - assert (Z.of_nat (length raws) / 100 < 1000) by (apply Z.div_lt_upper_bound; lia). in_range.
  - destruct Htotal as [->| ->]; in_range.
  - by apply Forall_take, Forall_drop.
Qed.

Lemma os_length : length os = length raws.
Proof. apply mapReply_Forall2 in Hparse. symmetry. by eapply Forall2_length. Qed.

Lemma parse_page page : mapReply (Mgbx.parseOrder c) (page_of page raws) = inl (page_of page os).
Proof. apply mapReply_Forall2 in Hparse. apply mapReply_Forall2. by apply Forall2_take, Forall2_drop. Qed.

Lemma page_length {A} page (l : list A) : 1 <= page ->
  Z.of_nat (length (page_of page l)) = 0 `max` (100 `min` (Z.of_nat (length l) - 100 * (page - 1))).
Proof. intros Hp. unfold page_of. rewrite length_take, length_drop. lia. Qed.

Lemma pages_so_far page : 1 <= page -> take (Z.to_nat (100 * (page - 1))) os ++ page_of page os
  = take (Z.to_nat (100 * page)) os.
Proof.
  intros Hp. unfold page_of. replace (Z.to_nat (100 * page)) with (Z.to_nat (100 * (page - 1)) + 100)%nat by lia.
  by rewrite take_take_drop.
Qed.

Lemma take_page page : 1 <= page <= Z.of_nat (length raws) / 100 + 1 ->
  exists done, Mgbx.takePage c (take (Z.to_nat (100 * (page - 1))) os) (Mgbx.MkRawPage total (page_of page raws))
      = inl (take (Z.to_nat (100 * page)) os, done)
  /\ if done then take (Z.to_nat (100 * page)) os = os
     else page + 1 <= Z.of_nat (length raws) / 100 + 1.
Proof.
  intros Hp. unfold Mgbx.takePage. cbn [Mgbx.pg_Items Mgbx.pg_Total]. rewrite parse_page. cbv zeta.
  rewrite pages_so_far by lia. eexists. split; [reflexivity|].
  rewrite page_length by lia. pose proof os_length as Hl.
  assert (Hall : Z.of_nat (length raws) <= 100 * page -> take (Z.to_nat (100 * page)) os = os).
  { intros Hle. apply take_ge. lia. }
  assert (Hdiv := Z.div_mod (Z.of_nat (length raws)) 100). pose proof (Z.mod_pos_bound (Z.of_nat (length raws)) 100).
  destruct (_ || _) eqn:Eb.
  - apply Hall. rewrite length_take in Eb. destruct Htotal as [->| ->].
    + apply orb_prop in Eb as [Eb|Eb]; [apply Z.eqb_eq in Eb; lia|]. simpl in Eb. unfold Mgbx.pageSize in Eb.
      apply Z.ltb_lt in Eb. lia.
    + apply orb_prop in Eb as [Eb|Eb]; [apply Z.eqb_eq in Eb; lia|].
      destruct (0 <? _) eqn:E0; [apply Z.leb_le in Eb; lia|]. apply Z.ltb_lt in Eb. unfold Mgbx.pageSize in Eb. lia.
  - apply orb_false_elim in Eb as [E1 E2]. apply Z.eqb_neq in E1. rewrite length_take in E2.
    enough (100 * page <= Z.of_nat (length raws)) by lia. destruct Htotal as [->| ->].
    + simpl in E2. unfold Mgbx.pageSize in E2. apply Z.ltb_ge in E2. lia.
    + destruct (Z.ltb_spec 0 (Z.of_nat (length raws))); [apply Z.leb_gt in E2; lia|lia].
Qed.

Lemma run_orderPages fuel page past : 1 <= page <= Z.of_nat (length raws) / 100 + 1 ->
  1001 - page <= Z.of_nat fuel ->
  exists es, run env past (Mgbx.orderPages c symbol fuel page (take (Z.to_nat (100 * (page - 1))) os))
    = (es, Ret (inl os)).
Proof.
  revert page past. induction fuel as [|fuel IH]; intros page past Hp Hf.
  { assert (Z.of_nat (length raws) / 100 < 1000) by (apply Z.div_lt_upper_bound; lia). lia. }
  destruct (run_orderPage past page Hp) as [es Hes]. destruct (take_page page Hp) as (last & Ht & Hlast).
  cbn [Mgbx.orderPages]. rewrite run_bind, Hes, Ht. destruct last.
  - eexists. simpl. by rewrite Hlast.
  - destruct (IH (page + 1) (past ++ es)) as [es' Hes']; [lia|lia|].
    replace (page + 1 - 1) with page in Hes' by lia. rewrite Hes'. by eexists.
Qed.
End Pages.

(** C30: reading the open orders from MGBX gives exactly the orders of the account, all of
    them and in order, whether or not the exchange reports their number, as long as there
    are fewer than a hundred thousand: the loop over the pages ends and neither loses nor
    repeats an order. *)
Theorem open_orders_complete `{HttpRequests} `{MapRange} `{SliceSort} c env past symbol total raws os :
  lists_orders c env symbol total raws -> Mgbx.apiKey c <> "" -> Mgbx.secret c <> "" ->
  request_error (Mgbx.baseURL c +:+ "/spot/v1/u/trade/order/list") = None ->
  total = 0 \/ total = Z.of_nat (length raws) ->
  Forall (fun o => in_int64 (Mgbx.op_createdTime o)) raws ->
  mapReply (Mgbx.parseOrder c) raws = inl os -> Z.of_nat (length raws) < 100000 ->
  exists es, run env past (Mgbx.OpenOrders c symbol) = (es, Ret (inl os)).
Proof.
  intros L1 L2 L3 L4 L5 L6 L7 L8.
  unfold Mgbx.OpenOrders. pose proof (Z.div_pos (Z.of_nat (length raws)) 100) as Hdiv.
  replace (@nil Order) with (take (Z.to_nat (100 * (1 - 1))) os) by done.
  eapply run_orderPages; [exact L1|done..| |]; lia.
Qed.
