(* ===== verification/Shared.v ===== *)
(** Clients of a database and a cache that run at the same time.

    The programs of internal/configstore and internal/auth run in several processes at
    once over one PostgreSQL database and one Redis server.  A client is a program [proc]
    whose steps are single statements; the steps of all clients interleave ([pstep]).

    The database is a parameter (class [Database]).  What is relied on is what PostgreSQL
    documents for READ COMMITTED: a statement outside a transaction takes effect at once
    or not at all; inside one it sees what is committed and what the transaction itself
    has written; a commit publishes all writes together; rows, index keys and advisory
    locks taken by a statement keep others out until the end of the transaction; any call
    may fail, a commit also after it took effect.  [wp] reasons about one client among
    others that keep a guarantee. *)
From S2P Require Import Prelude Json World.

Open Scope string_scope.
Open Scope list_scope.
Open Scope Z_scope.

(** ** Programs *)

Inductive proc {O : Type} (R : O -> Type) (A : Type) : Type :=
  | Return (a : A)
  | Ask (o : O) (k : R o -> proc R A).
Arguments Return {O R A} a.
Arguments Ask {O R A} o k.

Section Proc.
Context {O : Type} {R : O -> Type}.

#[export] Instance proc_ret : MRet (proc R) := fun A a => Return a.
#[export] Instance proc_bind : MBind (proc R) := fun A B k =>
  fix go p := match p with
              | Return a => k a
              | Ask o k' => Ask o (fun a => go (k' a))
              end.

Definition ask (o : O) : proc R (R o) := Ask o Return.

Lemma bind_return {A B} (a : A) (k : A -> proc R B) : (Return a : proc R A) ≫= k = k a.
Proof. done. Qed.
Lemma bind_ask {A B} o (k : R o -> proc R A) (k' : A -> proc R B) :
  Ask o k ≫= k' = Ask o (fun a => k a ≫= k').
Proof. done. Qed.
End Proc.

(** ** Tables, statements, locks *)

(** [sql q now drawn T]: the statement [q] on the tables [T]: the changes to make and what
    it returns; nothing when it violates a constraint.  [drawn] are the values the server
    chooses, those of sequences.  The rows to change are chosen in [T];
    in a transaction the changes reach the committed tables with the commit. *)
Class Schema := {
  tables : Type;
  query : Type;
  rows : query -> Type;
  lock : Type;
  conflict : lock -> lock -> bool;
  sql : forall q : query, Time -> list Z -> tables -> option ((tables -> tables) * rows q);
  locks_of : query -> list Z -> tables -> list lock
}.

Section Database.
Context `{Schema}.

Inductive op :=
  | Begin
  | TxExec (q : query)
  | Commit
  | Rollback
  | Exec (q : query)
  | RGet (key : string)
  | RSet (key : string) (value : Json)
  | RDel (key : string)
  | Clock
  | RandomBytes (n : nat).

Definition answer_to (o : op) : Type :=
  match o with
  | Begin => option error
  | TxExec q => reply (rows q)
  | Commit => option error
  | Rollback => unit
  | Exec q => reply (rows q)
  | RGet _ => reply (option Json)
  | RSet _ _ => option error
  | RDel _ => option error
  | Clock => Time
  | RandomBytes _ => reply (list Z)
  end.

(** What is committed and has been (newest first), the changes of the open
    transactions, the locks with their holders, the cache, and the clients whose calls to
    the database failed. *)
Record state := MkState {
  committed : tables;
  history : list tables;
  open : gmap nat (list (tables -> tables));
  held : list (lock * nat);
  kv : gmap string Json;
  faults : list nat
}.

Definition start (T : tables) : state := MkState T [T] ∅ [] ∅ [].

Definition replay (pend : list (tables -> tables)) (T : tables) : tables :=
  foldl (fun T w => w T) T pend.

Definition publish (T : tables) (s : state) : state :=
  MkState T (T :: history s) (open s) (held s) (kv s) (faults s).
Definition set_open (o : gmap nat (list (tables -> tables))) (s : state) : state :=
  MkState (committed s) (history s) o (held s) (kv s) (faults s).
Definition set_held (h : list (lock * nat)) (s : state) : state :=
  MkState (committed s) (history s) (open s) h (kv s) (faults s).
Definition set_kv (m : gmap string Json) (s : state) : state :=
  MkState (committed s) (history s) (open s) (held s) m (faults s).
Definition fault (c : nat) (s : state) : state :=
  MkState (committed s) (history s) (open s) (held s) (kv s) (c :: faults s).

(** The end of a transaction releases its locks. *)
Definition endTx (c : nat) (s : state) : state :=
  set_open (delete c (open s)) (set_held (filter (fun x => snd x <> c) (held s)) s).

(** No one else holds a lock in conflict; [own] tells which holders count as the client. *)
Definition free (own : nat -> bool) (ls : list lock) (s : state) : bool :=
  forallb (fun l => forallb (fun x => negb (conflict (fst x) l) || own (snd x)) (held s)) ls.

(** ** The documented behaviour *)

Inductive fate := Fine | Lost | Broken.

Definition db_error : error := Errorf "the database did not answer".
Definition tx_closed : error := Errorf "tx is closed".
Definition constraint : error := Errorf "violates a constraint".

(** What may happen to the call [o] of client [c]: it is answered, its effect takes place
    but the answer is lost, or nothing happens and it fails.  [now] and [bytes] are the
    clock and the values drawn at that moment.  Nothing while a lock is not free. *)
Definition answer (f : fate) (now : Time) (bytes : list Z) (c : nat) (o : op) (s : state)
    : option (state * answer_to o) :=
  match o return option (state * answer_to o) with
  | Begin =>
      match f with
      | Fine => Some (set_open (<[c := []]> (open s)) s, None)
      | _ => Some (fault c s, Some db_error)
      end
  | TxExec q =>
      match open s !! c with
      | None => Some (s, inr tx_closed)
      | Some pend =>
          let T := replay pend (committed s) in
          match f with
          | Fine =>
              if negb (free (Nat.eqb c) (locks_of q bytes T) s) then None else
              match sql q now bytes T with
              | Some (w, r) => Some (set_open (<[c := pend ++ [w]]> (open s))
                  (set_held (map (fun l => (l, c)) (locks_of q bytes T) ++ held s) s), inl r)
              | None => Some (endTx c s, inr constraint)
              end
          | _ => Some (fault c (endTx c s), inr db_error)
          end
      end
  | Commit =>
      match open s !! c with
      | None => Some (s, Some tx_closed)
      | Some pend =>
          let s' := publish (replay pend (committed s)) (endTx c s) in
          match f with
          | Fine => Some (s', None)
          | Lost => Some (fault c s', Some db_error)
          | Broken => Some (fault c (endTx c s), Some db_error)
          end
      end
  | Rollback => Some (endTx c s, tt)
  | Exec q =>
      match f with
      | Broken => Some (fault c s, inr db_error)
      | _ =>
          if negb (free (fun _ => false) (locks_of q bytes (committed s)) s) then None else
          match sql q now bytes (committed s) with
          | Some (w, r) => match f with
                           | Fine => Some (publish (w (committed s)) s, inl r)
                           | _ => Some (fault c (publish (w (committed s)) s), inr db_error)
                           end
          | None => Some (s, inr constraint)
          end
      end
  | RGet key => match f with Fine => Some (s, inl (kv s !! key)) | _ => Some (s, inr db_error) end
  | RSet key value =>
      match f with
      | Fine => Some (set_kv (<[key := value]> (kv s)) s, None)
      | Lost => Some (set_kv (<[key := value]> (kv s)) s, Some db_error)
      | Broken => Some (s, Some db_error)
      end
  | RDel key =>
      match f with
      | Fine => Some (set_kv (delete key (kv s)) s, None)
      | Lost => Some (set_kv (delete key (kv s)) s, Some db_error)
      | Broken => Some (s, Some db_error)
      end
  | Clock => Some (s, now)
  | RandomBytes n =>
      match f with
      | Fine => if (n <=? length bytes)%nat then Some (s, inl (take n bytes)) else None
      | _ => Some (s, inr db_error)
      end
  end.

(** What the servers do by themselves: entries of the cache vanish, the transaction of a
    client that is gone is rolled back. *)
Inductive idle (s : state) : state -> Prop :=
  | idle_expire m : m ⊆ kv s -> idle s (set_kv m s)
  | idle_gone c : idle s (endTx c s).

Class Database := {
  serve : nat -> forall o : op, state -> state -> answer_to o -> Prop;
  serve_documented : forall c o s s' a, serve c o s s' a ->
    exists f now bytes, answer f now bytes c o s = Some (s', a);
  between : state -> state -> Prop;
  between_documented : forall s s', between s s' -> idle s s'
}.

(** The database that may do all of this. *)
#[export, refine] Instance postgres : Database := {|
  serve c o s s' a := exists f now bytes, answer f now bytes c o s = Some (s', a);
  between := idle
|}.
Proof. all: done. Defined.

(** ** Clients at the same time *)

End Database.

Abbreviation program := (proc answer_to).
Abbreviation pool := (gmap nat (program unit)).

Section Steps.
Context `{Schema} `{!Database}.

Inductive pstep : pool * state -> pool * state -> Prop :=
  | pstep_client c o k (ts : pool) s s' a : ts !! c = Some (Ask o k) -> serve c o s s' a ->
      pstep (ts, s) (<[c := k a]> ts, s')
  | pstep_server (ts : pool) s s' : between s s' -> pstep (ts, s) (ts, s').

(** One call of client [c] from its first step to its return, among the others. *)
Inductive runs (c : nat) {A} : pool * state -> program A -> pool * state -> A -> Prop :=
  | runs_return x a : runs c x (Return a) x a
  | runs_others x x' p y a : pstep x x' -> runs c x' p y a -> runs c x p y a
  | runs_step (ts : pool) s s' o k b y a : serve c o s s' b -> runs c (ts, s') (k b) y a ->
      runs c (ts, s) (Ask o k) y a.
End Steps.

(** ** Rely and guarantee *)

(** [G c s s']: what the steps of client [c] keep.  [Rel c]: what client [c] relies on, a
    preorder that contains the steps of the others and of the servers. *)
Class Guarantee `{Schema} `{!Database} := {
  G : nat -> state -> state -> Prop;
  Rel : nat -> state -> state -> Prop;
  Rel_preorder c : PreOrder (Rel c);
  Rel_others c c' s s' : c' <> c -> G c' s s' -> Rel c s s';
  Rel_between c s s' : between s s' -> Rel c s s'
}.

Section Wp.
Context `{Guarantee}.

#[local] Existing Instance Rel_preorder.

(** From [s] on, whatever the others do, every step of [p] keeps the guarantee, and when
    [p] returns, [Q] holds. *)
Fixpoint wp {A} (c : nat) (p : program A) (Q : A -> state -> Prop) (s : state) : Prop :=
  match p with
  | Return a => Q a s
  | Ask o k => forall s1, Rel c s s1 -> forall s2 a, serve c o s1 s2 a ->
      G c s1 s2 /\ wp c (k a) Q s2
  end.

Definition stable (c : nat) (P : state -> Prop) : Prop := forall s s', P s -> Rel c s s' -> P s'.

Lemma wp_rely {A} c (p : program A) (Q : A -> state -> Prop) s s' :
  (forall a, stable c (Q a)) -> wp c p Q s -> Rel c s s' -> wp c p Q s'.
Proof.
  intros HQ Hw Hr. destruct p as [a|o k]; simpl in *; [by eapply HQ|].
  intros s1 H1'. apply Hw. by transitivity s'.
Qed.

Lemma wp_mono {A} c (p : program A) (Q Q' : A -> state -> Prop) s :
  (forall a s, Q a s -> Q' a s) -> wp c p Q s -> wp c p Q' s.
Proof.
  intros HQ. revert s. induction p as [a|o k IH]; simpl; intros s Hw; [by apply HQ|].
  intros s1 Hr s2 a Hs. destruct (Hw s1 Hr s2 a Hs) as [Hg Hk]. split; [done|]. by apply IH.
Qed.

Lemma wp_bind {A B} c (p : program A) (k : A -> program B) Q s :
  wp c p (fun a s => wp c (k a) Q s) s -> wp c (p ≫= k) Q s.
Proof.
  revert s. induction p as [a|o k' IH]; simpl; intros s Hw; [done|].
  intros s1 Hr s2 a Hs. destruct (Hw s1 Hr s2 a Hs) as [Hg Hk]. split; [done|]. by apply IH.
Qed.

(** One step from a stable assertion. *)
Lemma wp_ask {A} c o (k : answer_to o -> program A) P Q s :
  stable c P -> P s ->
  (forall s1 f now bytes s2 a, P s1 -> answer f now bytes c o s1 = Some (s2, a) ->
    G c s1 s2 /\ wp c (k a) Q s2) ->
  wp c (Ask o k) Q s.
Proof.
  intros HP Hs Hstep s1 Hr s2 a Hserve.
  apply serve_documented in Hserve as (f & now & bytes & Ha). eapply Hstep; [by eapply HP|exact Ha].
Qed.

(** All clients keep their guarantees. *)
Definition disciplined (x : pool * state) : Prop :=
  forall c p, x.1 !! c = Some p -> wp c p (fun _ _ => True) x.2.

Lemma disciplined_step x y : disciplined x -> pstep x y -> disciplined y.
Proof.
  intros Hd Hs. destruct Hs as [c o k ts s s' a Hc Hserve|ts s s' Hb]; intros c' p; simpl.
  - pose proof (Hd c _ Hc s (reflexivity s) _ _ Hserve) as [Hg Hk].
    intros [[<- <-]|[Hne Hp]]%lookup_insert_Some; [done|].
    eapply wp_rely; [done|by apply (Hd c' p)|by eapply Rel_others].
  - intros Hp. eapply wp_rely; [done|by apply (Hd c' p)|by apply Rel_between].
Qed.

Lemma disciplined_steps x y : disciplined x -> rtc pstep x y -> disciplined y.
Proof. intros Hd. induction 1 as [|x y z Hxy _ IH]; [done|]. by eapply IH, disciplined_step. Qed.

(** What all guarantees and the servers keep, every run keeps. *)
Lemma steps_keep (J : relation state) `{!PreOrder J} x y :
  (forall c s s', G c s s' -> J s s') -> (forall s s', between s s' -> J s s') ->
  disciplined x -> rtc pstep x y -> J x.2 y.2.
Proof.
  intros HG HB Hd. induction 1 as [|x y z Hxy _ IH]; [reflexivity|].
  transitivity y.2; [|by eapply IH, disciplined_step].
  destruct Hxy as [c o k ts s s' a Hc Hserve|ts s s' Hb]; simpl; [|by apply HB].
  destruct (Hd c _ Hc s (reflexivity s) _ _ Hserve) as [Hg _]. by eapply HG.
Qed.

(** A call of a client that is not in the pool ends as its [wp] says, and the others remain
    disciplined. *)
Lemma wp_runs {A} c x (p : program A) y a (Q : A -> state -> Prop) :
  (forall a, stable c (Q a)) -> x.1 !! c = None -> disciplined x -> wp c p Q x.2 ->
  runs c x p y a -> Q a y.2 /\ disciplined y /\ y.1 !! c = None.
Proof.
  intros HQ Hc Hd Hw Hr.
  induction Hr as [x a|x x' p y a Hs _ IH|ts s s' o k b y a Hserve _ IH].
  - done.
  - apply IH; try done; [|by eapply disciplined_step|].
    + destruct Hs as [c' o k ts s s' b Hc' _|]; [|done]. simpl in *.
      rewrite lookup_insert_ne; [done|]. intros ->. congruence.
    + destruct Hs as [c' o k ts s s' b Hc' Hserve|ts s s' Hb].
      * assert (c' <> c) by (intros ->; simpl in *; congruence).
        eapply wp_rely; [done|exact Hw|]. eapply Rel_others; [done|].
        by destruct (Hd c' _ Hc' s (reflexivity s) _ _ Hserve).
      * eapply wp_rely; [done|exact Hw|by apply Rel_between].
  - destruct (Hw s (reflexivity s) s' b Hserve) as [Hg Hk]. apply IH; try done.
    intros c' p Hp. simpl in *. assert (c' <> c) by (intros ->; congruence).
    eapply wp_rely; [done|by apply (Hd c' p)|by eapply Rel_others].
Qed.
End Wp.

(** A step whose error ends the operation. *)
Definition orFail `{Schema} {A B} (p : program (reply A)) (k : A -> program (reply B)) : program (reply B) :=
  r ← p; match r with inl a => k a | inr err => Return (inr err) end.

(** A transaction: the body commits or not, the deferred rollback ends what is still open. *)
Definition transaction `{Schema} {A} (body : program (reply A)) : program (reply A) :=
  begun ← ask Begin;
  match begun with
  | Some err => Return (inr err)
  | None => result ← body; _ ← ask Rollback; Return result
  end.

(** A call that only returns an error. *)
Definition checked `{Schema} (p : program (option error)) : program (reply unit) :=
  r ← p; Return (match r with None => inl tt | Some err => inr err end).

(** ** Runs computed

    A schedule names the client of each step with what happens to its call; [None] is for
    the client whose call is followed. *)
Section Drive.
Context `{Schema}.

Record turn := MkTurn { turn_client : option nat; turn_fate : fate; turn_now : Time; turn_bytes : list Z }.

Fixpoint drive {A} (c : nat) (l : list turn) (ts : pool) (s : state) (p : program A)
    : option (pool * state * A) :=
  match l with
  | [] => match p with Return a => Some (ts, s, a) | Ask _ _ => None end
  | t :: l =>
      match turn_client t with
      | None =>
          match p with
          | Return _ => None
          | Ask o k =>
              match answer (turn_fate t) (turn_now t) (turn_bytes t) c o s with
              | Some (s', a) => drive c l ts s' (k a)
              | None => None
              end
          end
      | Some c' =>
          match ts !! c' with
          | Some (Ask o k) =>
              match answer (turn_fate t) (turn_now t) (turn_bytes t) c' o s with
              | Some (s', a) => drive c l (<[c' := k a]> ts) s' p
              | None => None
              end
          | _ => None
          end
      end
  end.

Lemma drive_runs {A} c l ts s (p : program A) ts' s' a :
  drive c l ts s p = Some (ts', s', a) -> runs (H0 := postgres) c (ts, s) p (ts', s') a.
Proof.
  revert ts s p. induction l as [|t l IH]; simpl; intros ts s p.
  { destruct p; [|done]. intros [= <- <- <-]. constructor. }
  destruct (turn_client t) as [c'|].
  - destruct (ts !! c') as [[|o k]|] eqn:Hc; [done| |done].
    destruct (answer _ _ _ c' o s) as [[s1 b]|] eqn:Ha; [|done]. intros Hd.
    eapply runs_others; [|by apply IH]. eapply pstep_client; [exact Hc|]. by eexists _, _, _.
  - destruct p as [|o k]; [done|]. destruct (answer _ _ _ c o s) as [[s1 b]|] eqn:Ha; [|done]. intros Hd.
    eapply runs_step; [|by apply IH]. by eexists _, _, _.
Qed.

(** What is computed of the end of a schedule holds at the end of a run. *)
Lemma drive_spec {A B} c l ts s (p : program A) (f : state -> A -> B) b :
  (fun x => f (snd (fst x)) (snd x)) <$> drive c l ts s p = Some b ->
  exists y a, runs (H0 := postgres) c (ts, s) p y a /\ f y.2 a = b.
Proof.
  destruct (drive c l ts s p) as [[[ts' s'] a]|] eqn:E; [|done]. intros [= <-].
  exists (ts', s'), a. split; [by eapply drive_runs|done].
Qed.

(** Steps of the others alone. *)
Lemma drive_steps c l ts s ts' s' :
  drive c l ts s (Return tt) = Some (ts', s', tt) -> rtc (pstep (H0 := postgres)) (ts, s) (ts', s').
Proof.
  revert ts s. induction l as [|t l IH]; simpl; intros ts s; [by intros [= <- <-]|].
  destruct (turn_client t) as [c'|]; [|done]. destruct (ts !! c') as [[|o k]|] eqn:Hc; [done| |done].
  destruct (answer _ _ _ c' o s) as [[s1 b]|] eqn:Ha; [|done]. intros Hd.
  eapply rtc_l; [|by apply IH]. eapply pstep_client; [exact Hc|]. by eexists _, _, _.
Qed.
End Drive.
