(* ===== verification/AuditLog.v ===== *)
(** The audit log: the texts of its lines (encoding/json) and, in the module [Audit], its
    files (src/internal/audit/jsonl.go). *)
From S2P Require Import Prelude Decimal DecimalText Json World Wire Shared.

Open Scope string_scope.
Open Scope list_scope.
Open Scope Z_scope.

(** JSON texts: what [json.Marshal] prints for a tree, times in RFC 3339 with nanoseconds.
    The text is one line. *)

(** ** Dates *)

(** Year, month and day of a day counted from the first of January 1970. *)
Definition civil (day : Z) : Z * Z * Z :=
  let z := day + 719468 in let era := z / 146097 in let doe := z mod 146097 in
  let yoe := (doe - doe / 1460 + doe / 36524 - doe / 146096) / 365 in
  let doy := doe - (365 * yoe + yoe / 4 - yoe / 100) in
  let mp := (5 * doy + 2) / 153 in
  let month := if mp <? 10 then mp + 3 else mp - 9 in
  (yoe + era * 400 + (if month <=? 2 then 1 else 0), month, doy - (153 * mp + 2) / 5 + 1).

(** [t.UTC().Format(time.RFC3339Nano)] *)
Definition rfc3339 (t : Time) : string :=
  let '(year, month, day) := civil (t / (86400 * Second)) in
  let s := (t / Second) mod 86400 in let ns := t mod Second in
  fixed_digits 4 year +:+ "-" +:+ fixed_digits 2 month +:+ "-" +:+ fixed_digits 2 day +:+ "T"
  +:+ fixed_digits 2 (s / 3600) +:+ ":" +:+ fixed_digits 2 (s / 60 mod 60) +:+ ":" +:+ fixed_digits 2 (s mod 60)
  +:+ (if ns =? 0 then "" else "." +:+ trim_right_by (Ascii.eqb "0") (fixed_digits 9 ns)) +:+ "Z".

Example rfc3339_ex : map rfc3339 [0; 1709210096 * Second + 120000000; zero_time; 951782400 * Second] =
  ["1970-01-01T00:00:00Z"; "2024-02-29T12:34:56.12Z"; "0001-01-01T00:00:00Z"; "2000-02-29T00:00:00Z"].
Proof. vm_compute. reflexivity. Qed.

Definition int_literal (n : Z) : string := (if n <? 0 then "-" else "") +:+ int_digits (Z.abs n).

(** ** Texts *)

(** Nothing for a time whose year has not four digits. *)
Fixpoint json_text (j : Json) : option string :=
  match j with
  | JNull => Some "null"
  | JBool b => Some (if b then "true" else "false")
  | JNum n => Some (int_literal n)
  | JStr s => Some (json_string s)
  | JTime t =>
      let '(year, _, _) := civil (t / (86400 * Second)) in
      if (0 <=? year) && (year <=? 9999) then Some (json_string (rfc3339 t)) else None
  | JArr l =>
      texts ← (fix go l := match l with [] => Some [] | x :: l' => t ← json_text x; ts ← go l'; Some (t :: ts) end) l;
      Some ("[" +:+ StringsJoin texts "," +:+ "]")
  | JObj l =>
      texts ← (fix go l := match l with
                           | [] => Some []
                           | (k, x) :: l' => t ← json_text x; ts ← go l'; Some ((json_string k +:+ ":" +:+ t) :: ts)
                           end) l;
      Some ("{" +:+ StringsJoin texts "," +:+ "}")
  end.

(** ** One line *)

Definition one_line (s : string) : bool := forall_string (fun c => negb (Ascii.eqb c (ascii_of_nat 10))) s.

Lemma one_line_app s t : one_line (s +:+ t) = one_line s && one_line t.
Proof. apply forall_string_app. Qed.

Lemma one_line_digits s : forall_string is_digit_char s = true -> one_line s = true.
Proof.
  apply forall_string_impl. intros c Hc. destruct (Ascii.eqb_spec c (ascii_of_nat 10)) as [->|]; [|done].
  by vm_compute in Hc.
Qed.

Lemma one_line_json_char c : one_line (json_char c) = true.
Proof. destruct c as [[] [] [] [] [] [] [] []]; vm_compute; reflexivity. Qed.

Lemma one_line_json_string s : one_line (json_string s) = true.
Proof.
  change (one_line (String quote_char "" +:+ json_chars s +:+ String quote_char "") = true).
  rewrite !one_line_app. assert (H : one_line (json_chars s) = true); [|by rewrite H].
  induction s as [|c s IH]; [done|]. cbn [json_chars]. by rewrite one_line_app, one_line_json_char, IH.
Qed.

Lemma one_line_join l : Forall (fun s => one_line s = true) l -> one_line (StringsJoin l ",") = true.
Proof.
  intros Hl. induction Hl as [|s l Hs Hl IH]; [done|]. destruct l as [|t l]; [done|].
  change (StringsJoin (s :: t :: l) ",") with (s +:+ "," +:+ StringsJoin (t :: l) ",").
  by rewrite !one_line_app, Hs, IH.
Qed.

Lemma json_text_one_line j t : json_text j = Some t -> one_line t = true.
Proof.
  revert j t. fix IH 1. intros [| b | n | s | t0 | l | l] t; cbn [json_text].
  - by intros [= <-].
  - intros [= <-]. by destruct b.
  - intros [= <-]. unfold int_literal. rewrite one_line_app, (one_line_digits (int_digits _)) by apply int_digits_digits.
    by destruct (n <? 0).
  - intros [= <-]. apply one_line_json_string.
  - destruct (civil _) as [[y m] d]. destruct (_ && _); [|done]. intros [= <-]. apply one_line_json_string.
  - intros (texts & Hl & [= <-])%bind_Some. rewrite !one_line_app. rewrite one_line_join; [done|].
    revert texts Hl. induction l as [|x l IHl]; intros texts; [by intros [= <-]|].
    intros (t & Ht & (ts & Hts & [= <-])%bind_Some)%bind_Some. constructor; [by eapply IH|by apply IHl].
  - intros (texts & Hl & [= <-])%bind_Some. rewrite !one_line_app. rewrite one_line_join; [done|].
    revert texts Hl. induction l as [|[k x] l IHl]; intros texts; [by intros [= <-]|].
    intros (t & Ht & (ts & Hts & [= <-])%bind_Some)%bind_Some. constructor; [|by apply IHl].
    rewrite !one_line_app, one_line_json_string. by rewrite (IH x t Ht).
Qed.

Example json_text_ex : json_text (JArr [JNum (-3); JNull; JBool true; JArr []]) = Some "[-3,null,true,[]]".
Proof. vm_compute. reflexivity. Qed.

(** The audit log (src/internal/audit/jsonl.go): events are queued, written as lines of JSON
    and rotated.

    The methods are programs ([proc], Shared.v) of calls of the operating system.  [answer]
    is what a call may do: succeed, or fail with the effect it may have had, a write after
    any part of its bytes.  A file remembers how much of it is on disk for sure: a crash of
    the machine keeps that much at least.  The mutex of the logger makes its methods atomic
    to each other, and no other program writes its files. *)

Module Audit.

(** ** Files *)

Record file := MkFile { content : string; durable : nat }.
Abbreviation files := (gmap string file).

Inductive syscall :=
  | MkdirAll (dir : string)
  | Stat (path : string)
  | Remove (path : string)
  | Rename (old new : string)
  | OpenAppend (path : string)
  | Write (path : string) (text : string)
  | Sync (path : string)
  | Close (path : string).

Inductive errno := NotExist | Failed (e : error).

Definition result (o : syscall) : Type :=
  match o with Stat _ => Z + errno | _ => option errno end.

(** [Sane]: the call does what it says; [Fault n]: it fails, a write after [n] bytes. *)
Inductive outcome := Sane | Fault (n : nat).

Definition io_error : errno := Failed (Errorf "input/output error").

Definition size (f : file) : Z := Z.of_nat (String.length (content f)).
Fixpoint prefix_of (n : nat) (s : string) : string :=
  match n, s with S n', String c s' => String c (prefix_of n' s') | _, _ => "" end.
Definition append (text : string) (f : file) : file := MkFile (content f +:+ text) (durable f).

Definition answer (c : outcome) (o : syscall) (fs : files) : files * result o :=
  match c with
  | Fault n =>
      match o return files * result o with
      | Write path text => (alter (append (prefix_of n text)) path fs, Some io_error)
      | Stat _ => (fs, inr io_error)
      | _ => (fs, Some io_error)
      end
  | Sane =>
      match o return files * result o with
      | MkdirAll _ => (fs, None)
      | Stat path => (fs, match fs !! path with Some f => inl (size f) | None => inr NotExist end)
      | Remove path => match fs !! path with Some _ => (delete path fs, None) | None => (fs, Some NotExist) end
      | Rename old new => match fs !! old with
                          | Some f => (<[new := f]> (delete old fs), None) | None => (fs, Some NotExist) end
      | OpenAppend path => (match fs !! path with Some _ => fs | None => <[path := MkFile "" 0]> fs end, None)
      | Write path text => (alter (append text) path fs, None)
      | Sync path => (alter (fun f => MkFile (content f) (String.length (content f))) path fs, None)
      | Close _ => (fs, None)
      end
  end.

Abbreviation io := (proc result).

(** [p] started with the files [fs] may end with [fs'] and [a]. *)
Fixpoint ends {A} (fs : files) (p : io A) (fs' : files) (a : A) : Prop :=
  match p with
  | Return b => fs' = fs /\ b = a
  | Ask o k => exists c, ends (fst (answer c o fs)) (k (snd (answer c o fs))) fs' a
  end.

(** Whether a successful sync of a file also commits the directory operations before it, in
    their order, as the journal of ext4 or XFS does.  fsync(2) promises this for no file
    system, and the logger never syncs its directory. *)
Class FileSystem := sync_commits_names : bool.

Definition commit `{FileSystem} (c : outcome) (o : syscall) (past : list files) : list files :=
  match c, o with
  | Sane, Sync _ => if sync_commits_names then [] else past
  | _, _ => past
  end.

(** [ends], with the states of the directory passed since it was last committed. *)
Fixpoint passes `{FileSystem} {A} (fs : files) (past : list files) (p : io A)
    (fs' : files) (past' : list files) (a : A) : Prop :=
  match p with
  | Return b => fs' = fs /\ past' = past /\ b = a
  | Ask o k => exists c, passes (fst (answer c o fs)) (commit c o (fs :: past))
                          (k (snd (answer c o fs))) fs' past' a
  end.

(** A crash of the machine: the directory is as it was at some moment since it was last
    committed, so files created since may be gone and renamed ones back under their old
    names; of every file what is durable stays, perhaps more. *)
Definition crash (fs : files) (past : list files) (fs' : files) : Prop :=
  exists fs0, fs0 ∈ fs :: past /\
  forall path, match fs0 !! path with
               | None => fs' !! path = None
               | Some f => exists n, (durable f <= n)%nat /\ fs' !! path = Some (MkFile (prefix_of n (content f)) (durable f))
               end.

(** ** The logger *)

Record Logger := MkLogger { path : string; maxBytes : Z; backups : Z; pending : list string }.

Definition NewWithRotation (path : string) (maxBytes backups : Z) : Logger := MkLogger path maxBytes backups [].
Definition New (path : string) : Logger := NewWithRotation path 0 0.
Definition set_pending (l : list string) (lg : Logger) : Logger := MkLogger (path lg) (maxBytes lg) (backups lg) l.

Definition marshal_error : error := Errorf "json: error calling MarshalJSON for type time.Time".

(** A logger that is nil or has no path drops the event. *)
Definition Record_ (lg : option Logger) (eventType : string) (data : Json) (now : Time) : option error * option Logger :=
  match lg with
  | None => (None, None)
  | Some lg =>
      if String.eqb (path lg) "" then (None, Some lg) else
      match json_text (JObj [("timestamp", JTime now); ("type", JStr eventType); ("data", data)]) with
      | None => (Some marshal_error, Some lg)
      | Some b => (None, Some (set_pending (pending lg ++ [b]) lg))
      end
  end.

Definition PendingCount (lg : option Logger) : Z :=
  match lg with None => 0 | Some lg => Z.of_nat (length (pending lg)) end.

(** [filepath.Dir] of a path that names a file *)
Definition Dir (path : string) : string :=
  match rev (Split "/" path) with
  | [_; ""] => "/"
  | _ :: (d :: ds) => StringsJoin (rev (d :: ds)) "/"
  | _ => "."
  end.

(** [fmt.Sprintf("%s.%d", path, index)] *)
Definition backupPath (lg : Logger) (index : Z) : string := path lg +:+ "." +:+ pretty index.

(** [if err := o; err != nil { return err }] *)
Definition check (o : syscall) (p : result o -> option errno) (k : io (option error)) : io (option error) :=
  r ← (ask o : io (result o));
  match p r with
  | None => k
  | Some NotExist => Return (Some (Errorf "file does not exist"))
  | Some (Failed e) => Return (Some e)
  end.

(** [for index := from; index >= 1; index--]: backups move up by one. *)
Fixpoint shiftBackups (lg : Logger) (from : nat) (k : io (option error)) : io (option error) :=
  match from with
  | O => k
  | S below =>
      let index := Z.of_nat from in
      check (Rename (backupPath lg index) (backupPath lg (index + 1)))
        (fun r => match r with Some NotExist => None | _ => r end)
        (shiftBackups lg below k)
  end.

Definition rotateIfNeeded (lg : Logger) (incoming : Z) : io (option error) :=
  if (maxBytes lg <=? 0) || (backups lg <=? 0) then Return None else
  info ← (ask (Stat (path lg)) : io (Z + errno));
  match info with
  | inr NotExist => Return None
  | inr (Failed e) => Return (Some e)
  | inl size =>
      if (size =? 0) || (size + incoming <=? maxBytes lg) then Return None else
      _ ← (ask (Remove (backupPath lg (backups lg))) : io (option errno));
      shiftBackups lg (Z.to_nat (backups lg - 1))
        (check (Rename (path lg) (path lg +:+ ".1")) id (Return None))
  end.

(** ** The buffered writer *)

Definition bufferSize : nat := 64 * 1024.
Definition Errored (r : option errno) : option error :=
  match r with Some (Failed e) => Some e | Some NotExist => Some (Errorf "file does not exist") | None => None end.

Definition writeFile (path text : string) : io (option error) :=
  r ← (ask (Write path text) : io (option errno)); Return (Errored r).

(** [bufio.Writer.Write]: what is buffered after it.  A text that does not fit goes through
    the buffer; when the buffer is empty and the text still does not fit, directly. *)
Definition bufWrite (path buffer text : string) : io (reply string) :=
  let available := (bufferSize - String.length buffer)%nat in
  if (String.length text <=? available)%nat then Return (inl (buffer +:+ text)) else
  if String.eqb buffer "" then
    err ← writeFile path text; Return (match err with Some e => inr e | None => inl "" end)
  else
    err ← writeFile path (buffer +:+ prefix_of available text);
    match err with
    | Some e => Return (inr e)
    | None =>
        let rest := drop_string available text in
        if (String.length rest <=? bufferSize)%nat then Return (inl rest) else
        err ← writeFile path rest; Return (match err with Some e => inr e | None => inl "" end)
    end.

Definition line_of (item : string) : string := item +:+ newline.

(** [fmt.Fprintln] of every item, then [writer.Flush] *)
Fixpoint writeItems (path buffer : string) (items : list string) : io (option error) :=
  match items with
  | [] => if String.eqb buffer "" then Return None else writeFile path buffer
  | item :: items' =>
      r ← bufWrite path buffer (line_of item);
      match r with
      | inr e => Return (Some e)
      | inl buffer' => writeItems path buffer' items'
      end
  end.

(** An error after the file was opened: it is closed first. *)
Definition orClose (path : string) (err : option error) (k : io (option error)) : io (option error) :=
  match err with
  | None => k
  | Some e => _ ← (ask (Close path) : io (option errno)); Return (Some e)
  end.

(** [pendingBytes] *)
Definition pendingBytes (lg : Logger) : Z := foldr (fun item n => Z.of_nat (String.length item) + 1 + n) 0 (pending lg).

Definition flushPending (lg : Logger) : io (option error) :=
  check (MkdirAll (Dir (path lg))) id (
  err ← rotateIfNeeded lg (pendingBytes lg);
  match err with
  | Some e => Return (Some e)
  | None =>
      check (OpenAppend (path lg)) id (
      err ← writeItems (path lg) "" (pending lg);
      orClose (path lg) err (
      r ← (ask (Sync (path lg)) : io (option errno));
      orClose (path lg) (Errored r) (
      check (Close (path lg)) id (Return None))))
  end).

(** The queue is emptied when everything has succeeded. *)
Definition Flush (lg : option Logger) : io (option error * option Logger) :=
  match lg with
  | None => Return (None, None)
  | Some lg =>
      if String.eqb (path lg) "" || bool_decide (pending lg = []) then Return (None, Some lg) else
      err ← flushPending lg;
      Return (err, Some (match err with None => set_pending [] lg | Some _ => lg end))
  end.

(** ** Reasoning about calls *)

Fixpoint iwp {A} (p : io A) (Q : A -> files -> Prop) (fs : files) : Prop :=
  match p with
  | Return a => Q a fs
  | Ask o k => forall c, iwp (k (snd (answer c o fs))) Q (fst (answer c o fs))
  end.

Lemma iwp_ends {A} (p : io A) Q fs fs' a : iwp p Q fs -> ends fs p fs' a -> Q a fs'.
Proof.
  revert fs. induction p as [b|o k IH]; simpl; intros fs Hw; [by intros [-> <-]|].
  intros [c He]. by apply (IH _ _ (Hw c)).
Qed.

Lemma iwp_bind {A B} (p : io A) (k : A -> io B) Q fs :
  iwp p (fun a fs => iwp (k a) Q fs) fs -> iwp (p ≫= k) Q fs.
Proof. revert fs. induction p as [a|o k' IH]; simpl; intros fs Hw; [done|]. intros c. by apply IH. Qed.

Lemma iwp_mono {A} (p : io A) (Q Q' : A -> files -> Prop) fs :
  (forall a fs, Q a fs -> Q' a fs) -> iwp p Q fs -> iwp p Q' fs.
Proof. intros HQ. revert fs. induction p as [a|o k IH]; simpl; intros fs; [by apply HQ|]. intros Hw c. by apply IH. Qed.

(** A failing call ends the method with an error, a successful one goes on. *)
Lemma iwp_check o p k Q fs :
  (forall c, let '(fs', r) := answer c o fs in
    match p r with None => iwp k Q fs' | Some _ => forall e, Q (Some e) fs' end) ->
  iwp (check o p k) Q fs.
Proof.
  intros Hc. unfold check. apply iwp_bind. intros c. specialize (Hc c). destruct (answer c o fs) as [fs' r].
  simpl. destruct (p r) as [[]|]; [apply Hc|apply Hc|done].
Qed.

(** ** Texts of files *)

(** What a file is made of: batches of events that were written and synced, and rests of
    writes that failed. *)
Inductive seg := Torn (s : string) | Batch (items : list string).

Definition lines_text (items : list string) : string := foldr (fun item t => line_of item +:+ t) "" items.
Definition seg_text (x : seg) : string := match x with Torn s => s | Batch items => lines_text items end.
Definition segs_text (d : list seg) : string := foldr (fun x t => seg_text x +:+ t) "" d.
Definition batches (d : list seg) : list (list string) :=
  omap (fun x => match x with Batch items => Some items | Torn _ => None end) d.

(** [f] holds the segments [d], all of them on disk; what follows them is no batch. *)
Definition file_holds (o : option file) (d : list seg) : Prop :=
  match o with
  | None => d = []
  | Some f => exists junk, content f = segs_text d +:+ junk
      /\ (String.length (segs_text d) <= durable f <= String.length (content f))%nat
  end.

(** The generations of the log: the current file is number zero. *)
Definition name (lg : Logger) (i : nat) : string := match i with O => path lg | S _ => backupPath lg (Z.of_nat i) end.
Definition generations (lg : Logger) : nat := Z.to_nat (backups lg).
Definition holds (lg : Logger) (fs : files) (g : nat -> list seg) : Prop :=
  forall i, (i <= generations lg)%nat -> file_holds (fs !! name lg i) (g i).

(** The batches of the generations up to [n], oldest first. *)
Fixpoint stored (g : nat -> list seg) (n : nat) : list (list string) :=
  match n with O => batches (g O) | S m => batches (g n) ++ stored g m end.

Lemma append_assoc (a b c : string) : (a +:+ b) +:+ c = a +:+ b +:+ c.
Proof. induction a as [|x a IH]; [done|]. change (String x ((a +:+ b) +:+ c) = String x (a +:+ b +:+ c)). by rewrite IH. Qed.
Lemma append_nil (a : string) : a +:+ "" = a.
Proof. induction a as [|x a IH]; [done|]. change (String x (a +:+ "") = String x a). by rewrite IH. Qed.
Lemma append_length (a b : string) : String.length (a +:+ b) = (String.length a + String.length b)%nat.
Proof. induction a as [|x a IH]; [done|]. simpl. by rewrite IH. Qed.
Lemma prefix_drop n s : prefix_of n s +:+ drop_string n s = s.
Proof. revert s. induction n as [|n IH]; intros [|c s]; try done. change (String c (prefix_of n s +:+ drop_string n s) = String c s). by rewrite IH. Qed.

Lemma segs_app d1 d2 : segs_text (d1 ++ d2) = segs_text d1 +:+ segs_text d2.
Proof. induction d1 as [|x d1 IH]; [done|]. cbn [app segs_text foldr]. unfold segs_text in IH. by rewrite IH, append_assoc. Qed.
Lemma batches_app d1 d2 : batches (d1 ++ d2) = batches d1 ++ batches d2.
Proof. apply omap_app. Qed.

Lemma name_inj lg i j : name lg i = name lg j -> i = j.
Proof.
  assert (Hne : forall k, path lg <> backupPath lg k).
  { intros k E. apply (f_equal String.length) in E. unfold backupPath in E. rewrite append_length in E. simpl in E. lia. }
  destruct i as [|i], j as [|j]; [done|by intros E%Hne|by intros E%symmetry%Hne|].
  unfold name, backupPath. intros E%(inj (String.append (path lg)))%(inj (String.append "."))%(inj pretty). lia.
Qed.
Lemma files_weaken o d : file_holds o d -> file_holds o [].
Proof.
  destruct o as [f|]; [|done]. intros (junk & E & H). exists (content f). split; [done|]. simpl. lia.
Qed.

(** *** Moving generations *)

Definition dropped (g : nat -> list seg) (n : nat) : nat -> list seg := fun j => if decide (j = n) then [] else g j.
Definition moved (g : nat -> list seg) (i : nat) : nat -> list seg :=
  fun j => if decide (j = S i) then g i else if decide (j = i) then [] else g j.

Lemma stored_ext g g' n : (forall i, (i <= n)%nat -> g i = g' i) -> stored g n = stored g' n.
Proof. induction n as [|n IH]; intros E; simpl; rewrite (E _ (le_n _)); [done|]. rewrite IH; [done|]. intros i Hi. apply E. lia. Qed.

Lemma stored_dropped g n : stored (dropped g (S n)) (S n) = stored g n.
Proof.
  simpl. unfold dropped at 1. rewrite decide_True by done. simpl. apply stored_ext. intros i Hi.
  unfold dropped. rewrite decide_False by lia. done.
Qed.

Lemma moved_to g i : moved g i (S i) = g i.
Proof. unfold moved. by rewrite decide_True. Qed.
Lemma moved_from g i : moved g i i = [].
Proof. unfold moved. rewrite decide_False by lia. by rewrite decide_True. Qed.
Lemma moved_other g i j : j <> i -> j <> S i -> moved g i j = g j.
Proof. intros. unfold moved. by rewrite !decide_False. Qed.

Lemma stored_moved g i n : (i < n)%nat -> g (S i) = [] -> stored (moved g i) n = stored g n.
Proof.
  induction n as [|n IH]; intros Hi E; [lia|]. change (batches (moved g i (S n)) ++ stored (moved g i) n = batches (g (S n)) ++ stored g n).
  destruct (decide (i = n)) as [->|Hne]; [|rewrite IH, moved_other by (done || lia); done].
  rewrite E, moved_to. clear IH E Hi. destruct n as [|n]; simpl; [apply app_nil_r|]. rewrite moved_from. simpl. f_equal.
  apply stored_ext. intros j Hj. apply moved_other; lia.
Qed.

Lemma holds_dropped lg fs g n : holds lg fs g -> holds lg fs (dropped g n).
Proof. intros H i Hi. unfold dropped. case_decide; [by eapply files_weaken, H|by apply H]. Qed.

Lemma holds_removed lg fs g n : holds lg fs g -> holds lg (delete (name lg n) fs) (dropped g n).
Proof.
  intros H i Hi. unfold dropped. case_decide as E; [subst; by rewrite lookup_delete_eq|].
  rewrite lookup_delete_ne; [by apply H|]. by intros ?%name_inj.
Qed.

Lemma holds_renamed lg fs g i f :
  holds lg fs g -> (i < generations lg)%nat -> fs !! name lg i = Some f ->
  holds lg (<[name lg (S i) := f]> (delete (name lg i) fs)) (moved g i).
Proof.
  intros H Hi Ef j Hj. unfold moved. case_decide as E1; [subst; rewrite lookup_insert_eq, <- Ef; apply H; lia|].
  rewrite lookup_insert_ne by (by intros ?%name_inj). case_decide as E2; [subst; by rewrite lookup_delete_eq|].
  rewrite lookup_delete_ne by (by intros ?%name_inj). by apply H.
Qed.

Lemma holds_absent lg fs g i :
  holds lg fs g -> (i < generations lg)%nat -> g (S i) = [] -> fs !! name lg i = None -> holds lg fs (moved g i).
Proof.
  intros H Hi E Ef j Hj. unfold moved. assert (g i = []) as Eg by (specialize (H i ltac:(lia)); by rewrite Ef in H).
  case_decide as E1; [subst; rewrite Eg, <- E; by apply H|]. case_decide as E2; [subst; rewrite <- Eg; by apply H|]. by apply H.
Qed.

(** Renaming a generation to the free one after it loses no batch, whatever happens. *)
Lemma rename_spec lg fs g i c :
  holds lg fs g -> (i < generations lg)%nat -> g (S i) = [] ->
  let '(fs', r) := answer c (Rename (name lg i) (name lg (S i))) fs in
  exists g', holds lg fs' g' /\ stored g' (generations lg) = stored g (generations lg)
    /\ match r with
       | Some (Failed _) => True
       | None => g' i = [] /\ fs' !! name lg i = None
       | Some NotExist => g' i = [] /\ fs' = fs
       end.
Proof.
  intros H Hi E. destruct c; simpl; [|by exists g]. destruct (fs !! name lg i) as [f|] eqn:Ef.
  - exists (moved g i). split; [by apply holds_renamed|]. split; [by apply stored_moved|].
    unfold moved. rewrite decide_False, decide_True by lia. split; [done|].
    rewrite lookup_insert_ne by (intros ?%(name_inj lg (S i) i); lia). apply lookup_delete_eq.
  - exists (moved g i). split; [by apply holds_absent|]. split; [by apply stored_moved|].
    unfold moved. by rewrite decide_False, decide_True by lia.
Qed.
(** *** Rotation *)

(** What every exit of a rotation guarantees: the files still hold [kept]. *)
Definition keeps (lg : Logger) (kept : list (list string)) (fs : files) : Prop :=
  exists g, holds lg fs g /\ stored g (generations lg) = kept.

Lemma shift_spec lg kept k (Q : option error -> files -> Prop) :
  (forall fs g, holds lg fs g -> stored g (generations lg) = kept -> g 1%nat = [] -> iwp k Q fs) ->
  (forall e fs, keeps lg kept fs -> Q (Some e) fs) ->
  forall from fs g, (from < generations lg)%nat -> holds lg fs g -> stored g (generations lg) = kept ->
  g (S from) = [] -> iwp (shiftBackups lg from k) Q fs.
Proof.
  intros Hk Hq. induction from as [|from IH]; intros fs g Hlt Hh Hs E; [by apply (Hk fs g)|].
  apply iwp_check. intros c. pose proof (rename_spec lg fs g (S from) c Hh Hlt E) as H.
  replace (backupPath lg (Z.of_nat (S from) + 1)) with (name lg (S (S from))) by (simpl; do 2 f_equal; lia).
  change (backupPath lg (Z.of_nat (S from))) with (name lg (S from)).
  destruct (answer c _ fs) as [fs' r]. destruct H as (g' & Hh' & Hs' & Hr). rewrite Hs in Hs'.
  destruct r as [[|e]|]; [|intros; apply Hq; by exists g'|]; apply (IH fs' g'); (done || lia || by destruct Hr).
Qed.

(** After a rotation that succeeds there is no current file, or there was no need for one. *)
Definition has_room (lg : Logger) (incoming : Z) (fs : files) : Prop :=
  0 < maxBytes lg -> 0 < backups lg ->
  match fs !! path lg with None => True | Some f => size f = 0 \/ size f + incoming <= maxBytes lg end.

(** It loses the oldest generation at most, and only when the current file is too full. *)
Definition may_keep (lg : Logger) (incoming : Z) (fs : files) (g : nat -> list seg) (kept : list (list string)) : Prop :=
  kept = stored g (generations lg)
  \/ ~ has_room lg incoming fs /\ kept = stored g (pred (generations lg)).

Lemma not_room lg incoming fs f :
  0 < maxBytes lg -> 0 < backups lg -> fs !! path lg = Some f -> size f <> 0 -> maxBytes lg < size f + incoming ->
  ~ has_room lg incoming fs.
Proof. intros Hm Hb E H0 H1 H. specialize (H Hm Hb). rewrite E in H. lia. Qed.

Lemma path_one lg : path lg +:+ ".1" = name lg 1.
Proof. reflexivity. Qed.

(** The end of a rotation: the current file becomes the first backup. *)
Lemma last_rename lg kept (Q : option error -> files -> Prop) fs g :
  (forall fs, keeps lg kept fs -> fs !! path lg = None -> Q None fs) ->
  (forall e fs, keeps lg kept fs -> Q (Some e) fs) ->
  (0 < generations lg)%nat -> holds lg fs g -> stored g (generations lg) = kept -> g 1%nat = [] ->
  iwp (check (Rename (path lg) (path lg +:+ ".1")) id (Return None)) Q fs.
Proof.
  intros Hn He Hlt Hh Hs E. apply iwp_check. intros c. rewrite path_one.
  pose proof (rename_spec lg fs g 0 c Hh Hlt E) as H. change (name lg 0) with (path lg) in H.
  destruct (answer c _ fs) as [fs' r]. destruct H as (g' & Hh' & Hs' & Hr). rewrite Hs in Hs'.
  destruct r as [[|e]|]; cbn [id]; [intros; apply He; by exists g'..|]. apply Hn; [by exists g'|apply Hr].
Qed.

Lemma rotate_spec lg incoming fs g (Q : option error -> files -> Prop) :
  holds lg fs g ->
  (forall kept fs', may_keep lg incoming fs g kept -> keeps lg kept fs' -> has_room lg incoming fs' -> Q None fs') ->
  (forall kept e fs', may_keep lg incoming fs g kept -> keeps lg kept fs' -> Q (Some e) fs') ->
  iwp (rotateIfNeeded lg incoming) Q fs.
Proof.
  intros Hh Hn He. unfold rotateIfNeeded.
  assert (may_keep lg incoming fs g (stored g (generations lg)) /\ keeps lg (stored g (generations lg)) fs)
    as [Hm Hk] by (split; [by left|by exists g]).
  destruct (_ || _) eqn:Eo; [eapply Hn; [done..|]; intros ??; lia|].
  intros [|n]; [|by eapply He]. simpl. destruct (fs !! path lg) as [f|] eqn:Ef; simpl.
  2:{ eapply Hn; [done..|]. intros _ _. by rewrite Ef. }
  destruct ((size f =? 0) || _) eqn:Er; [eapply Hn; [done..|]; intros _ _; rewrite Ef; lia|].
  assert (may_keep lg incoming fs g (stored g (pred (generations lg)))) as Hm'.
  { right. split; [|done]. eapply not_room; [..|exact Ef| |]; lia. }
  assert (generations lg = S (pred (generations lg))) as Eg by (unfold generations; lia).
  assert (Z.to_nat (backups lg - 1) = pred (generations lg)) as -> by (unfold generations; lia).
  assert (backupPath lg (backups lg) = name lg (generations lg)) as ->.
  { rewrite Eg. simpl. f_equal. unfold generations. lia. }
  intros c. set (fs1 := fst _). assert (holds lg fs1 (dropped g (generations lg))) as H1.
  { unfold fs1. destruct c; simpl; [destruct (fs !! name lg (generations lg))|]; simpl;
      [by apply holds_removed|by apply holds_dropped..]. }
  eapply (shift_spec lg (stored g (pred (generations lg)))); [| |lia|exact H1| |].
  - intros fs2 g2 Hh2 Hs2 E2. eapply last_rename; [| |lia|done..]; [|by intros; eapply He].
    intros fs3 Hk3 E3. eapply Hn; [done..|]. intros _ _. by rewrite E3.
  - intros. by eapply He.
  - rewrite Eg. simpl pred. apply stored_dropped.
  - unfold dropped. rewrite decide_True; [done|]. by rewrite <- Eg.
Qed.
(** *** Writing *)

Lemma alter_append (fs : files) path t1 t2 :
  alter (append t2) path (alter (append t1) path fs) = alter (append (t1 +:+ t2)) path fs.
Proof.
  apply map_eq. intros p. destruct (decide (p = path)) as [->|E]; [|by rewrite !lookup_alter_ne].
  rewrite !lookup_alter_eq. destruct (fs !! path); simpl; [|done]. unfold append. simpl. by rewrite append_assoc.
Qed.

Section Writing.
Context (path : string) (fs : files) (total : string) (Q : option error -> files -> Prop).
Hypothesis partial : forall e t, Q (Some e) (alter (append t) path fs).
Hypothesis complete : Q None (alter (append total) path fs).

Lemma writeFile_spec w text (R : option error -> files -> Prop) :
  (forall e t, R (Some e) (alter (append t) path fs)) -> R None (alter (append (w +:+ text)) path fs) ->
  iwp (writeFile path text) R (alter (append w) path fs).
Proof. intros He Hn [|n]; simpl; rewrite alter_append; [apply Hn|apply He]. Qed.

(** The buffer hides nothing: what was written and what is buffered make up the text. *)
Lemma bufWrite_spec w buffer text (R : reply string -> files -> Prop) :
  (forall e t, R (inr e) (alter (append t) path fs)) ->
  (forall w' buffer', w' +:+ buffer' = w +:+ buffer +:+ text -> R (inl buffer') (alter (append w') path fs)) ->
  iwp (bufWrite path buffer text) R (alter (append w) path fs).
Proof.
  intros He Hn. unfold bufWrite. case_match; [by apply Hn|]. destruct (String.eqb_spec buffer "") as [->|_].
  - apply iwp_bind, writeFile_spec; [intros; apply He|]. apply Hn. by rewrite append_nil.
  - apply iwp_bind, writeFile_spec; [intros; apply He|]. set (n := Nat.sub _ _).
    assert (Hw : forall b, (w +:+ buffer +:+ prefix_of n text) +:+ drop_string n text +:+ b = w +:+ buffer +:+ text +:+ b).
    { intros b. by rewrite !append_assoc, <- (append_assoc (prefix_of n text)), prefix_drop. }
    specialize (Hw ""). rewrite !append_nil in Hw. case_match; [by apply Hn|].
    apply iwp_bind, writeFile_spec; [intros; apply He|]. apply Hn. by rewrite append_nil, Hw.
Qed.

Lemma writeItems_spec items : forall w buffer, w +:+ buffer +:+ lines_text items = total ->
  iwp (writeItems path buffer items) Q (alter (append w) path fs).
Proof using partial complete.
  induction items as [|item items IH]; intros w buffer E; simpl in *.
  - rewrite append_nil in E. destruct (String.eqb_spec buffer "") as [->|_];
      [rewrite append_nil in E; subst; apply complete|].
    apply writeFile_spec; [apply partial|]. rewrite E. apply complete.
  - apply iwp_bind, bufWrite_spec; [intros; apply partial|]. intros w' buffer' E'. apply IH.
    rewrite <- append_assoc, E', <- E. by rewrite !append_assoc.
Qed.
End Writing.

(** *** Flushing *)

Lemma pendingBytes_length lg : pendingBytes lg = Z.of_nat (String.length (lines_text (pending lg))).
Proof.
  unfold pendingBytes. induction (pending lg) as [|item l IH]; [done|]. cbn [foldr lines_text]. fold (lines_text l).
  rewrite IH. unfold line_of. rewrite !append_length. simpl. lia.
Qed.

Lemma holds_appended lg fs g t : holds lg fs g -> holds lg (alter (append t) (path lg) fs) g.
Proof.
  intros H i Hi. specialize (H i Hi). destruct (decide (name lg i = path lg)) as [E|E];
    [|by rewrite lookup_alter_ne by done].
  rewrite E in *. rewrite lookup_alter_eq. destruct (fs !! path lg) as [f|]; [|done].
  destruct H as (junk & E1 & H). exists (junk +:+ t). simpl. rewrite E1 in *. rewrite !append_length in *.
  split; [by rewrite append_assoc|]. lia.
Qed.

Lemma holds_opened lg fs g : holds lg fs g -> holds lg (fst (answer Sane (OpenAppend (path lg)) fs)) g.
Proof.
  intros H i Hi. specialize (H i Hi). simpl. destruct (fs !! path lg) as [f|] eqn:Ef; [done|]. simpl.
  destruct (decide (name lg i = path lg)) as [E|E]; [|by rewrite lookup_insert_ne by done].
  rewrite E in *. rewrite lookup_insert_eq. rewrite Ef in H. rewrite H. by exists "".
Qed.

Definition extended (g : nat -> list seg) (d : list seg) : nat -> list seg :=
  fun j => match j with O => g O ++ d | S _ => g j end.

Lemma stored_extended g d n : stored (extended g d) n = stored g n ++ batches d.
Proof. induction n as [|n IH]; simpl; [apply batches_app|]. by rewrite IH, app_assoc. Qed.

Lemma holds_sync lg fs g : holds lg fs g -> holds lg (fst (answer Sane (Sync (path lg)) fs)) g.
Proof.
  intros H i Hi. specialize (H i Hi). simpl. destruct (decide (name lg i = path lg)) as [E|E];
    [|by rewrite lookup_alter_ne by done].
  rewrite E in *. rewrite lookup_alter_eq. destruct (fs !! path lg) as [f|]; [|done].
  destruct H as (junk & E1 & H). exists junk. simpl. split; [done|]. lia.
Qed.

(** Syncing a file with whole lines after what it held makes them a batch. *)
Lemma holds_synced lg fs g f junk items :
  holds lg fs g -> fs !! path lg = Some f -> content f = segs_text (g O) +:+ junk +:+ lines_text items ->
  holds lg (fst (answer Sane (Sync (path lg)) fs)) (extended g [Torn junk; Batch items]).
Proof.
  intros H Ef E i Hi. specialize (H i Hi). simpl. destruct i as [|i]; simpl.
  - rewrite lookup_alter_eq, Ef. exists "". simpl. rewrite segs_app. simpl. rewrite !append_nil, E. split; [done|]. lia.
  - rewrite lookup_alter_ne; [done|]. by intros ?%(name_inj lg 0 (S i)).
Qed.
Lemma append_nothing path (fs : files) : alter (append "") path fs = fs.
Proof.
  apply map_eq. intros p. destruct (decide (p = path)) as [->|E]; [|by rewrite lookup_alter_ne].
  rewrite lookup_alter_eq. destruct (fs !! path) as [[t d]|]; [|done]. unfold append. simpl. by rewrite append_nil.
Qed.

Lemma iwp_orClose path err k Q fs :
  (forall e, err = Some e -> Q (Some e) fs) -> (err = None -> iwp k Q fs) -> iwp (orClose path err k) Q fs.
Proof. intros He Hk. destruct err as [e|]; simpl; [intros []; by apply He|by apply Hk]. Qed.

(** The current file stays within its limit, unless one batch alone is over it. *)
Definition in_bounds (lg : Logger) (fs : files) : Prop :=
  0 < maxBytes lg -> 0 < backups lg ->
  exists f, fs !! path lg = Some f /\ size f <= Z.max (maxBytes lg) (pendingBytes lg).

(** What a flush leaves of files that held [g]. *)
Definition flushed (lg : Logger) (fs : files) (g : nat -> list seg) (err : option error) (fs' : files) : Prop :=
  exists kept, may_keep lg (pendingBytes lg) fs g kept /\
    match err with
    | Some _ => keeps lg kept fs'
    | None => keeps lg (kept ++ [pending lg]) fs' /\ in_bounds lg fs'
    end.

Lemma in_bounds_appended lg fs f0 f1 :
  has_room lg (pendingBytes lg) fs -> (fs !! path lg = Some f0 \/ fs !! path lg = None /\ size f0 = 0) ->
  size f1 = size f0 + pendingBytes lg -> forall fs', fs' !! path lg = Some f1 -> in_bounds lg fs'.
Proof.
  intros Hr Hf E fs' E' Hm Hb. exists f1. split; [done|]. specialize (Hr Hm Hb).
  destruct Hf as [Ef|[Ef E0]]; rewrite Ef in Hr; lia.
Qed.

(** From the opened file to the end of the flush. *)
Lemma append_spec lg fs g f0 kept (Q : option error -> files -> Prop) :
  holds lg fs g -> stored g (generations lg) = kept -> fs !! path lg = Some f0 ->
  (forall e fs', keeps lg kept fs' -> Q (Some e) fs') ->
  (forall fs' f1, keeps lg (kept ++ [pending lg]) fs' -> fs' !! path lg = Some f1 ->
     size f1 = size f0 + pendingBytes lg -> Q None fs') ->
  iwp (err ← writeItems (path lg) "" (pending lg);
       orClose (path lg) err (
       r ← (ask (Sync (path lg)) : io (option errno));
       orClose (path lg) (Errored r) (
       check (Close (path lg)) id (Return None)))) Q fs.
Proof.
  intros Hh Hs Ef He Hn.
  assert (Hpart : forall t, keeps lg kept (alter (append t) (path lg) fs)) by (intros t; exists g; split; [by apply holds_appended|done]).
  apply iwp_bind. rewrite <- (append_nothing (path lg) fs). eapply writeItems_spec; [..|done].
  { intros e t. apply iwp_orClose; [|done]. intros e' _. by apply He. }
  apply iwp_orClose; [done|]. intros _. set (t := lines_text (pending lg)).
  change ("" +:+ "" +:+ t) with t. change ("" +:+ t) with t.
  apply iwp_bind. intros [|n]; [|intros []; apply He, Hpart].
  pose proof (Hh O (Nat.le_0_l _)) as H0. change (name lg 0) with (path lg) in H0. rewrite Ef in H0.
  destruct H0 as (junk & E & _). set (f1 := append t f0).
  assert (E1 : alter (append t) (path lg) fs !! path lg = Some f1) by by rewrite lookup_alter_eq, Ef.
  set (fs2 := fst _).
  assert (Hk : keeps lg (kept ++ [pending lg]) fs2).
  { exists (extended g [Torn junk; Batch (pending lg)]). split; [|by rewrite stored_extended, Hs].
    eapply holds_synced; [by apply holds_appended|exact E1|]. simpl. by rewrite E, append_assoc. }
  assert (E2 : fs2 !! path lg = Some (MkFile (content f1) (String.length (content f1))))
    by (unfold fs2; simpl; by rewrite lookup_alter_eq, E1).
  apply iwp_check. intros []; [|intros e; apply He; exists g; split; [by apply holds_sync, holds_appended|done]].
  eapply Hn; [done..|].
  rewrite pendingBytes_length. fold t. unfold size. cbn [content f1 append]. rewrite append_length. lia.
Qed.
Lemma flush_spec lg fs g : holds lg fs g -> iwp (flushPending lg) (flushed lg fs g) fs.
Proof.
  intros Hh. unfold flushPending. assert (forall e, flushed lg fs g (Some e) fs) as H0.
  { intros e. exists (stored g (generations lg)). split; [by left|by exists g]. }
  apply iwp_check. intros [|n]; [|done]. apply iwp_bind.
  eapply rotate_spec; [exact Hh|..].
  2:{ intros kept e fs1 Hm Hk. by exists kept. }
  intros kept fs1 Hm (g1 & Hh1 & Hs1) Hroom. apply iwp_check. intros [|n]; [|intros e; exists kept; split; [done|by exists g1]].
  assert (exists f0, fst (answer Sane (OpenAppend (path lg)) fs1) !! path lg = Some f0
    /\ (fs1 !! path lg = Some f0 \/ fs1 !! path lg = None /\ size f0 = 0)) as (f0 & E0 & Hf0).
  { simpl. destruct (fs1 !! path lg) as [f|] eqn:Ef; [exists f; by auto|].
    exists (MkFile "" 0). rewrite lookup_insert_eq. by auto. }
  eapply append_spec; [by apply holds_opened|exact Hs1|exact E0|..].
  - intros e fs' Hk. by exists kept.
  - intros fs' f1 Hk E1 Esz. exists kept. split; [done|]. split; [done|]. by eapply in_bounds_appended.
Qed.

(** The logger after a flush that ended with [err]. *)
Definition after (lg : Logger) (err : option error) : Logger := match err with None => set_pending [] lg | Some _ => lg end.

Lemma flush_outcome lg fs g fs' err lg' :
  path lg <> "" -> pending lg <> [] -> holds lg fs g -> ends fs (Flush (Some lg)) fs' (err, lg') ->
  lg' = Some (after lg err) /\ flushed lg fs g err fs'.
Proof.
  intros Hp Hq Hh He.
  assert (Flush (Some lg) = (err ← flushPending lg; Return (err, Some (after lg err)))) as Ef.
  { unfold Flush. by rewrite (proj2 (String.eqb_neq _ _) Hp), bool_decide_eq_false_2. }
  rewrite Ef in He. refine (iwp_ends _ (fun r fs' => r.2 = Some (after lg r.1) /\ flushed lg fs g r.1 fs') _ _ _ _ He).
  apply iwp_bind. eapply iwp_mono; [|by apply flush_spec]. intros e fs1 H. by split.
Qed.

(** C22: A flush of a logger with queued events, started on files that hold the batches [g],
    ends with the queue emptied and its events synced as one batch after those kept, or with
    an error, the queue and all batches as they were; it drops the oldest generation at most,
    only when rotation is on and the current file has no room for the queue, and after it
    the current file is no larger than its limit, or than the batch alone.  Every call of
    the operating system may fail, a write after any of its bytes. *)
Theorem flush_contract lg fs g fs' err lg' :
  path lg <> "" -> pending lg <> [] -> holds lg fs g ->
  ends fs (Flush (Some lg)) fs' (err, lg') ->
  lg' = Some (after lg err) /\
  exists kept,
    (kept = stored g (generations lg)
     \/ ~ has_room lg (pendingBytes lg) fs /\ kept = stored g (pred (generations lg))) /\
    match err with
    | Some _ => keeps lg kept fs'
    | None => keeps lg (kept ++ [pending lg]) fs' /\ in_bounds lg fs'
    end.
Proof. apply flush_outcome. Qed.

(** ** Directory states *)

Section Directory.
Context `{FileSystem}.

Lemma passes_ends {A} (p : io A) fs past fs' past' a : passes fs past p fs' past' a -> ends fs p fs' a.
Proof.
  revert fs past. induction p as [b|o k IH]; simpl; intros fs past; [by intros (-> & _ & <-)|].
  intros [c Hp]. exists c. by eapply IH.
Qed.

(** A method may fail at every moment: all its calls from there on fail. *)
Lemma ends_anywhere {A} (p : io A) fs : exists a, ends fs p fs a.
Proof.
  revert fs. induction p as [b|o k IH]; intros fs; [by exists b|].
  destruct (IH (snd (answer (Fault 0) o fs)) fs) as [a Ha]. exists a, (Fault 0).
  assert (E : fst (answer (Fault 0) o fs) = fs) by (destruct o; simpl; try done; apply append_nothing).
  by rewrite E.
Qed.

(** What a method passes through it may also end with. *)
Lemma passes_past {A} (p : io A) fs past fs' past' a : passes fs past p fs' past' a ->
  forall x, x ∈ past' -> x ∈ past \/ exists b, ends fs p x b.
Proof.
  revert fs past. induction p as [b|o k IH]; simpl; intros fs past; [intros (_ & -> & _); by left|].
  intros [c Hp] x Hx. destruct (IH _ _ _ Hp x Hx) as [Hin|[b Hb]]; [|right; by exists b, c].
  assert (Hin' : x ∈ fs :: past).
  { destruct c; [|exact Hin]. destruct o; try exact Hin. simpl in Hin.
    destruct sync_commits_names; [by apply elem_of_nil in Hin|exact Hin]. }
  apply elem_of_cons in Hin' as [->|?]; [right; apply (ends_anywhere (Ask o k))|by left].
Qed.

Lemma passes_bind {A B} (p : io A) (k : A -> io B) fs past fs' past' b :
  passes fs past (p ≫= k) fs' past' b ->
  exists fs1 past1 a, passes fs past p fs1 past1 a /\ passes fs1 past1 (k a) fs' past' b.
Proof.
  revert fs past. induction p as [a|o k' IH]; intros fs past; [by exists fs, past, a|].
  intros [c Hp]. destruct (IH _ _ _ Hp) as (fs1 & past1 & a & H1 & H2). exists fs1, past1, a.
  split; [by exists c|done].
Qed.

Lemma passes_check o p k fs past fs' past' : passes fs past (check o p k) fs' past' None ->
  exists c, p (snd (answer c o fs)) = None
    /\ passes (fst (answer c o fs)) (commit c o (fs :: past)) k fs' past' None.
Proof.
  intros [c Hc]. exists c. simpl in Hc.
  destruct (p (snd (answer c o fs))) as [[|e]|]; [by destruct Hc as (_ & _ & ?)..|done].
Qed.

Lemma passes_orClose path err k fs past fs' past' :
  passes fs past (orClose path err k) fs' past' None -> err = None /\ passes fs past k fs' past' None.
Proof. destruct err as [e|]; [|done]. by intros (c & _ & _ & ?). Qed.

(** A flush that succeeds has committed the directory after its last operation on it. *)
Lemma flushPending_commits lg fs past fs' past' : sync_commits_names = true ->
  passes fs past (flushPending lg) fs' past' None -> past' = [fs'].
Proof.
  intros Hj (c1 & _ & Hp)%passes_check. apply passes_bind in Hp as (fs1 & past1 & err & _ & Hp).
  destruct err as [e|]; [by destruct Hp as (_ & _ & ?)|].
  apply passes_check in Hp as (c2 & _ & Hp). apply passes_bind in Hp as (fs2 & past2 & err & _ & Hp).
  apply passes_orClose in Hp as [-> [c3 Hp]]. simpl in Hp. apply passes_orClose in Hp as [Hs Hp].
  destruct c3; [|done]. apply passes_check in Hp as (c4 & Hc & (-> & -> & _)).
  destruct c4; [|done]. simpl. by rewrite Hj.
Qed.
End Directory.

(** The batches but the last one: what held it is a rest. *)
Lemma segs_forget d k b : batches d = k ++ [b] -> exists d', batches d' = k /\ segs_text d' = segs_text d.
Proof.
  revert k. induction d as [|x d IH] using rev_ind; intros k; [by destruct k|].
  rewrite batches_app. destruct x as [t|items]; simpl; intros E.
  - rewrite app_nil_r in E. destruct (IH k E) as (d' & Hd & Ht). exists (d' ++ [Torn t]).
    rewrite batches_app, !segs_app, Hd, Ht. split; [apply app_nil_r|done].
  - apply app_inj_tail in E as [E ->]. exists (d ++ [Torn (lines_text b)]).
    rewrite batches_app, !segs_app, E. split; [apply app_nil_r|done].
Qed.

Definition replaced (g : nat -> list seg) (m : nat) (d : list seg) : nat -> list seg :=
  fun j => if decide (j = m) then d else g j.

Lemma stored_forget g n k b : stored g n = k ++ [b] ->
  exists m k0, (m <= n)%nat /\ batches (g m) = k0 ++ [b]
    /\ forall d, batches d = k0 -> stored (replaced g m d) n = k.
Proof.
  revert k. induction n as [|n IH]; intros k; simpl.
  { intros E. exists 0%nat, k. split; [done|]. split; [done|]. intros d Hd. unfold replaced. by rewrite decide_True. }
  intros E. destruct (decide (stored g n = [])) as [Es|(l & b1 & Es)%exists_last].
  - rewrite Es, app_nil_r in E. exists (S n), k. split; [done|]. split; [done|]. intros d Hd.
    rewrite (stored_ext (replaced g (S n) d) g n), Es, app_nil_r.
    + unfold replaced. by rewrite decide_True.
    + intros i Hi. unfold replaced. by rewrite decide_False by lia.
  - rewrite Es, app_assoc in E. apply app_inj_tail in E as [<- ->].
    destruct (IH l Es) as (m & k0 & Hle & Hm & Hd). exists m, k0. split; [lia|]. split; [done|].
    intros d Hb. rewrite (Hd d Hb). unfold replaced. by rewrite decide_False by lia.
Qed.

Lemma keeps_forget lg kept b fs : keeps lg (kept ++ [b]) fs -> keeps lg kept fs.
Proof.
  intros (g & Hh & Hs). destruct (stored_forget _ _ _ _ Hs) as (m & k0 & _ & Hm & Hd).
  destruct (segs_forget _ _ _ Hm) as (d & Hb & Ht). exists (replaced g m d). split; [|by apply Hd].
  intros i Hi. specialize (Hh i Hi). unfold replaced. case_decide as E; [subst i|done].
  unfold file_holds in *. destruct (fs !! name lg m) as [f|]; [by rewrite Ht|].
  rewrite Hh in Hm. by destruct k0.
Qed.

(** ** A logger over time *)

Section Time.
Context `{FileSystem}.

(** The files, the states of the directory since it was last committed, the logger, and the
    batches whose flush succeeded, those of loggers before it included. *)
Record world := MkWorld { disk : files; unsettled : list files; logger : Logger; acked : list (list string) }.

Definition acknowledged (w : world) (err : option error) : list (list string) :=
  match err with
  | None => if bool_decide (pending (logger w) = []) then [] else [pending (logger w)]
  | Some _ => []
  end.

Inductive step : world -> world -> Prop :=
  | step_record w eventType data now err lg' :
      Record_ (Some (logger w)) eventType data now = (err, Some lg') ->
      step w (MkWorld (disk w) (unsettled w) lg' (acked w))
  | step_flush w fs' past' err lg' :
      passes (disk w) (unsettled w) (Flush (Some (logger w))) fs' past' (err, Some lg') ->
      step w (MkWorld fs' past' lg' (acked w ++ acknowledged w err))
  (* the process ends, with the machine or alone, and is started again *)
  | step_crash w fs' :
      crash (disk w) (unsettled w) fs' ->
      step w (MkWorld fs' [] (NewWithRotation (path (logger w)) (maxBytes (logger w)) (backups (logger w))) (acked w))
  | step_restart w :
      step w (MkWorld (disk w) (unsettled w)
        (NewWithRotation (path (logger w)) (maxBytes (logger w)) (backups (logger w))) (acked w)).

(** Files with what was acknowledged, but for the oldest batches rotation has dropped. *)
Definition survives (lg : Logger) (l : list (list string)) (fs : files) : Prop :=
  exists lost kept, l = lost ++ kept /\ keeps lg kept fs
    /\ (maxBytes lg <= 0 \/ backups lg <= 0 -> lost = []).

(** Every state of the directory that a crash may bring back has it. *)
Definition retained (w : world) : Prop :=
  Forall (Forall (fun item => one_line item = true)) (pending (logger w) :: acked w)
  /\ forall fs, fs ∈ disk w :: unsettled w -> survives (logger w) (acked w) fs.

Lemma keeps_logger lg lg' kept fs :
  path lg = path lg' -> backups lg = backups lg' -> keeps lg kept fs -> keeps lg' kept fs.
Proof.
  intros E1 E2 (g & Hh & Hs). exists g. unfold generations in *. rewrite <- E2. split; [|done].
  intros i Hi. specialize (Hh i). unfold generations in *. rewrite E2 in Hh. specialize (Hh Hi).
  destruct i as [|i]; simpl in *; unfold backupPath in *; by rewrite <- E1.
Qed.

Lemma append_prefix a b n : (String.length a <= n)%nat -> prefix_of n (a +:+ b) = a +:+ prefix_of (n - String.length a) b.
Proof.
  revert n. induction a as [|c a IH]; intros n Hn; [simpl; by rewrite Nat.sub_0_r|].
  destruct n as [|n]; [simpl in Hn; lia|]. change (String c (prefix_of n (a +:+ b)) = String c (a +:+ prefix_of (n - String.length a) b)).
  rewrite IH; [done|]. simpl in Hn. lia.
Qed.
Lemma prefix_length n s : String.length (prefix_of n s) = Nat.min n (String.length s).
Proof. revert s. induction n as [|n IH]; intros [|c s]; simpl; [done..|]. by rewrite IH. Qed.

Lemma survives_logger lg lg' l fs : path lg = path lg' -> maxBytes lg = maxBytes lg' -> backups lg = backups lg' ->
  survives lg l fs -> survives lg' l fs.
Proof.
  intros E1 E2 E3 (lost & kept & El & Hk & Hl). exists lost, kept. rewrite <- E2, <- E3.
  split; [done|]. split; [by eapply keeps_logger|done].
Qed.

Lemma crash_keeps lg kept fs0 fs' :
  (forall path, match fs0 !! path with
               | None => fs' !! path = None
               | Some f => exists n, (durable f <= n)%nat /\ fs' !! path = Some (MkFile (prefix_of n (content f)) (durable f))
               end) -> keeps lg kept fs0 -> keeps lg kept fs'.
Proof.
  intros Hc (g & Hh & Hs). exists g. split; [|done]. intros i Hi. specialize (Hc (name lg i)). specialize (Hh i Hi).
  destruct (fs0 !! name lg i) as [f|]; [|by rewrite Hc]. destruct Hc as (n & Hn & ->).
  destruct Hh as (junk & E & H1 & H2). rewrite E. simpl. eexists. rewrite append_prefix by lia. split; [done|].
  rewrite append_length, prefix_length. rewrite E, append_length in H2. lia.
Qed.

Lemma after_fields lg err :
  path (after lg err) = path lg /\ maxBytes (after lg err) = maxBytes lg /\ backups (after lg err) = backups lg.
Proof. by destruct err. Qed.

(** A flush, wherever it ends, keeps what was acknowledged; one that succeeds adds to it. *)
Lemma flush_survives lg l fs fs' err lg' : path lg <> "" -> pending lg <> [] ->
  survives lg l fs -> ends fs (Flush (Some lg)) fs' (err, lg') ->
  lg' = Some (after lg err)
  /\ survives lg (l ++ match err with None => [pending lg] | Some _ => [] end) fs'
  /\ survives lg l fs'.
Proof.
  intros Hp Hq (lost & kept & -> & (g & Hh & Hs) & Hl) He.
  destruct (flush_outcome _ _ g _ _ _ Hp Hq Hh He) as (-> & kept' & Hm & Hk). split; [done|].
  assert (exists d, kept = d ++ kept' /\ (maxBytes lg <= 0 \/ backups lg <= 0 -> d = [])) as (d & -> & Hd).
  { rewrite <- Hs. destruct Hm as [->|[Hr ->]]; [by exists []|]. destruct (generations lg) as [|n] eqn:En.
    - by exists [].
    - exists (batches (g (S n))). split; [done|]. intros Hoff. destruct Hr. intros ??. lia. }
  assert (Hlost : maxBytes lg <= 0 \/ backups lg <= 0 -> lost ++ d = []) by (intros Hoff; by rewrite Hl, Hd).
  assert (Hk' : keeps lg kept' fs') by (destruct err; [exact Hk|eapply keeps_forget, Hk]).
  split; [|exists (lost ++ d), kept'; by rewrite app_assoc].
  exists (lost ++ d), (kept' ++ match err with None => [pending lg] | Some _ => [] end).
  split; [by rewrite !app_assoc|]. split; [|done]. destruct err; [by rewrite app_nil_r|apply Hk].
Qed.

Definition sound (p : string) (m b : Z) (w : world) : Prop :=
  path (logger w) = p /\ maxBytes (logger w) = m /\ backups (logger w) = b /\ retained w.

Hypothesis journaled : sync_commits_names = true.

Lemma Flush_pending lg : path lg <> "" -> pending lg <> [] ->
  Flush (Some lg) = (err ← flushPending lg; Return (err, Some (after lg err))).
Proof. intros Hp Hq. unfold Flush. by rewrite (proj2 (String.eqb_neq _ _) Hp), bool_decide_eq_false_2. Qed.

Lemma sound_flush p m b w fs' past' err lg' :
  p <> "" -> sound p m b w ->
  passes (disk w) (unsettled w) (Flush (Some (logger w))) fs' past' (err, Some lg') ->
  sound p m b (MkWorld fs' past' lg' (acked w ++ acknowledged w err)).
Proof using journaled.
  intros Hp (<- & <- & <- & H1 & Hs) He. unfold acknowledged. case_bool_decide as Eq.
  { unfold Flush in He. rewrite (bool_decide_eq_true_2 _ Eq), orb_true_r in He.
    destruct He as (-> & -> & [= <- <-]). split_and!; [done..|]. unfold retained. simpl. by rewrite app_nil_r. }
  pose proof (Hs (disk w) ltac:(by left)) as H0.
  destruct (flush_survives _ _ _ _ _ _ Hp Eq H0 (passes_ends _ _ _ _ _ _ He)) as ([= ->] & Hnew & Hold).
  destruct (after_fields (logger w) err) as (E1 & E2 & E3).
  split_and!; [done..|]. split.
  { simpl. apply Forall_cons in H1 as [H1 H2]. destruct err; simpl; [rewrite app_nil_r; by constructor|].
    constructor; [constructor|]. apply Forall_app. by split; [|constructor]. }
  simpl. intros fs Hfs. apply (survives_logger (logger w)); [done..|].
  apply elem_of_cons in Hfs as [->|Hfs]; [by destruct err|]. destruct err as [e|].
  - rewrite app_nil_r. destruct (passes_past _ _ _ _ _ _ He fs Hfs) as [Hin|[[err' lg''] Hb]].
    + apply Hs. by right.
    + by apply (flush_survives _ _ _ _ _ _ Hp Eq H0 Hb).
  - rewrite Flush_pending in He by done. apply passes_bind in He as (fs1 & past1 & e & Hf & (-> & -> & [= ->])).
    apply (flushPending_commits _ _ _ _ _ journaled) in Hf as ->.
    by apply list_elem_of_singleton in Hfs as ->.
Qed.

Lemma sound_record p m b w eventType data now err lg' : p <> "" -> sound p m b w ->
  Record_ (Some (logger w)) eventType data now = (err, Some lg') ->
  sound p m b (MkWorld (disk w) (unsettled w) lg' (acked w)).
Proof.
  intros Hp (E1 & E2 & E3 & Hr) E. unfold Record_ in E. subst. rewrite (proj2 (String.eqb_neq _ _) Hp) in E.
  assert (exists l, lg' = MkLogger (path (logger w)) (maxBytes (logger w)) (backups (logger w)) l
    /\ Forall (fun item => one_line item = true) l) as (l & -> & Hl1).
  { destruct Hr as [[Hl _]%Forall_cons _]. case_match eqn:Ej; injection E as <- <-.
    - eexists. split; [reflexivity|]. apply Forall_app. split; [done|]. constructor; [|done]. by eapply json_text_one_line.
    - exists (pending (logger w)). by destruct (logger w). }
  split_and!; [done..|]. destruct Hr as ([_ H1]%Forall_cons & Hs).
  split; [by constructor|]. intros fs Hfs. eapply survives_logger; [..|by apply Hs]; done.
Qed.

Lemma step_sound p m b w w' : p <> "" -> step w w' -> sound p m b w -> sound p m b w'.
Proof using journaled.
  intros Hp Hs Hw. destruct Hs as [w ty data now err lg' E|w fs' past' err lg' He|w fs' Hc|w].
  - by eapply sound_record.
  - by eapply sound_flush.
  - destruct Hw as (E1 & E2 & E3 & [_ H1]%Forall_cons & Hs). subst. split_and!; [done..|].
    split; [by constructor|]. simpl. intros fs ->%list_elem_of_singleton.
    destruct Hc as (fs0 & Hin & Hc). apply (survives_logger (logger w)); [done..|].
    destruct (Hs fs0 Hin) as (lost & kept & El & Hk & Hl). exists lost, kept.
    split; [done|]. split; [by eapply crash_keeps|done].
  - destruct Hw as (E1 & E2 & E3 & [_ H1]%Forall_cons & Hs). subst. split_and!; [done..|].
    split; [by constructor|]. intros fs Hfs. apply (survives_logger (logger w)); [done..|]. by apply Hs.
Qed.
End Time.

(** C21: on a file system whose sync of a file also commits the directory operations before
    it, in their order (journals do; fsync(2) does not promise it, and without it an
    acknowledged batch may vanish: [unsynced_directory_loses]): whatever a logger that is
    flushed, whose machine crashes and whose process is started again does, with calls of
    the operating system failing anywhere, the batches whose flush succeeded are lines of
    text, and they are on disk, whole and in order, but for the oldest, which rotation has
    dropped; without rotation there are none of those. *)
Theorem audit_durable `{FileSystem} path maxBytes backups w :
  sync_commits_names = true -> path <> "" ->
  rtc step (MkWorld ∅ [] (NewWithRotation path maxBytes backups) []) w ->
  Forall (Forall (fun item => one_line item = true)) (acked w) /\
  exists lost kept, acked w = lost ++ kept /\ keeps (logger w) kept (disk w)
    /\ (maxBytes <= 0 \/ backups <= 0 -> lost = []).
Proof.
  intros Hj Hp Hr.
  assert (sound path maxBytes backups w) as (_ & <- & <- & [_ H1]%Forall_cons & Hs);
    [|exact (conj H1 (Hs (disk w) ltac:(by left)))].
  assert (H0 : sound path maxBytes backups (MkWorld ∅ [] (NewWithRotation path maxBytes backups) [])).
  { split_and!; [done..|]. split; [by repeat constructor|]. intros fs ->%list_elem_of_singleton.
    exists [], []. split; [done|]. split; [|done]. exists (fun _ => []).
    split; [|by induction (generations _)]. intros i Hi. simpl. by rewrite lookup_empty. }
  revert H0. induction Hr as [|w1 w2 w3 Hs _ IH]; [done|]. intros H1. apply IH. by eapply step_sound.
Qed.
(** ** Runs *)

(** The run in which the calls go as [cs] says, those after it without a fault. *)
Fixpoint runs {A} (cs : list outcome) (p : io A) (fs : files) : files * A :=
  match p with
  | Return a => (fs, a)
  | Ask o k =>
      let c := hd Sane cs in
      runs (tl cs) (k (snd (answer c o fs))) (fst (answer c o fs))
  end.

Lemma io_runs_ends {A} cs (p : io A) fs fs' a : runs cs p fs = (fs', a) -> ends fs p fs' a.
Proof.
  revert cs fs. induction p as [b|o k IH]; simpl; intros cs fs; [by intros [= -> ->]|].
  intros H. exists (hd Sane cs). by eapply IH.
Qed.

Definition ex_log (maxBytes backups : Z) (l : list string) : Logger := MkLogger "logs/audit.jsonl" maxBytes backups l.
Definition ex_file (l : list string) : file := MkFile (lines_text l) (String.length (lines_text l)).

Definition ex_files : files :=
  {[ "logs/audit.jsonl" := ex_file ["{quote 3}"]; "logs/audit.jsonl.1" := ex_file ["{quote 2}"];
     "logs/audit.jsonl.2" := ex_file ["{quote 1}"] ]}.
Definition ex_generations (i : nat) : list seg :=
  match i with 0 => [Batch ["{quote 3}"]] | 1 => [Batch ["{quote 2}"]] | 2 => [Batch ["{quote 1}"]] | _ => [] end%nat.

Lemma ex_holds : holds (ex_log 16 2 ["{quote 4}"]) ex_files ex_generations.
Proof. intros [|[|[|i]]] Hi; [exists ""; vm_compute; auto with arith..|]. change (generations _) with 2%nat in Hi. lia. Qed.

Definition ex_rotated : files :=
  {[ "logs/audit.jsonl" := ex_file ["{quote 4}"]; "logs/audit.jsonl.1" := ex_file ["{quote 3}"];
     "logs/audit.jsonl.2" := ex_file ["{quote 2}"] ]}.

(** Three full generations, and the fourth event: the first one is dropped. *)
Lemma ex_rotation : ends ex_files (Flush (Some (ex_log 16 2 ["{quote 4}"]))) ex_rotated (None, Some (ex_log 16 2 [])).
Proof. apply (io_runs_ends []). vm_compute. reflexivity. Qed.

Lemma flush_contract_witness : exists kept,
  (kept = stored ex_generations 2
   \/ ~ has_room (ex_log 16 2 ["{quote 4}"]) 10 ex_files /\ kept = [["{quote 2}"]; ["{quote 3}"]])
  /\ keeps (ex_log 16 2 ["{quote 4}"]) (kept ++ [["{quote 4}"]]) ex_rotated
  /\ in_bounds (ex_log 16 2 ["{quote 4}"]) ex_rotated.
Proof.
  apply (flush_contract (ex_log 16 2 ["{quote 4}"]) ex_files ex_generations ex_rotated None (Some (ex_log 16 2 []))).
  - intros H. discriminate H.
  - intros H. discriminate H.
  - exact ex_holds.
  - exact ex_rotation.
Defined.

(** Steps as functions *)

Section Functions.
Context `{FileSystem}.

Fixpoint runs_passing {A} (cs : list outcome) (past : list files) (p : io A) (fs : files) : files * list files * A :=
  match p with
  | Return a => (fs, past, a)
  | Ask o k =>
      let c := hd Sane cs in
      runs_passing (tl cs) (commit c o (fs :: past)) (k (snd (answer c o fs))) (fst (answer c o fs))
  end.

Lemma runs_passes {A} cs past (p : io A) fs fs' past' a :
  runs_passing cs past p fs = (fs', past', a) -> passes fs past p fs' past' a.
Proof.
  revert cs past fs. induction p as [b|o k IH]; simpl; intros cs past fs; [by intros [= -> -> ->]|].
  intros E. exists (hd Sane cs). by eapply IH.
Qed.

Definition recorded (eventType : string) (now : Time) (w : world) : world :=
  match Record_ (Some (logger w)) eventType JNull now with
  | (_, Some lg) => MkWorld (disk w) (unsettled w) lg (acked w)
  | (_, None) => w
  end.

Definition flushed_by (cs : list outcome) (w : world) : world :=
  match runs_passing cs (unsettled w) (Flush (Some (logger w))) (disk w) with
  | (fs, past, (err, Some lg)) => MkWorld fs past lg (acked w ++ acknowledged w err)
  | _ => w
  end.

(** What is neither synced nor committed is lost. *)
Definition crashed (w : world) : world :=
  MkWorld (fmap (fun f => MkFile (prefix_of (durable f) (content f)) (durable f)) (default (disk w) (last (unsettled w)))) []
    (NewWithRotation (path (logger w)) (maxBytes (logger w)) (backups (logger w))) (acked w).

Lemma recorded_steps eventType now w w' : rtc step (recorded eventType now w) w' -> rtc step w w'.
Proof.
  intros Hr. unfold recorded in Hr. destruct (Record_ _ _ _ _) as [err [lg|]] eqn:E; [|done].
  eapply rtc_l; [|exact Hr]. by eapply step_record.
Qed.

Lemma flushed_by_steps cs w w' : rtc step (flushed_by cs w) w' -> rtc step w w'.
Proof.
  intros Hr. unfold flushed_by in Hr. destruct (runs_passing _ _ _ _) as [[fs past] [err [lg|]]] eqn:E; [|done].
  eapply rtc_l; [|exact Hr]. eapply step_flush. by eapply runs_passes.
Qed.

Lemma crashed_steps w w' : rtc step (crashed w) w' -> rtc step w w'.
Proof.
  intros Hr. eapply rtc_l; [|exact Hr]. apply step_crash.
  exists (default (disk w) (last (unsettled w))). split.
  - destruct (last (unsettled w)) as [fs|] eqn:E; [|by left]. right. by apply last_Some_elem_of.
  - intros p. rewrite lookup_fmap. destruct (_ !! p) as [f|]; [|done]. by exists (durable f).
Qed.

Definition ex_start (maxBytes backups : Z) : world := MkWorld ∅ [] (NewWithRotation "audit.jsonl" maxBytes backups) [].
End Functions.

Definition journal : FileSystem := true.
Definition no_journal : FileSystem := false.

(** A write that stops after three bytes, a second attempt, an attempt for which the file is
    rotated and whose write fails, a crash that undoes the rotation, and the next event. *)
Definition ex_run : world :=
  let w1 := flushed_by (H := journal) [] (flushed_by (H := journal) [Sane; Sane; Sane; Fault 3] (recorded "quote" 0 (ex_start 60 1))) in
  let w2 := flushed_by (H := journal) [Sane; Sane; Sane; Sane; Sane; Fault 2] (recorded "order" 0 w1) in
  flushed_by (H := journal) [] (recorded "fill" 0 (crashed w2)).

Lemma audit_durable_witness :
  acked ex_run <> [] /\
  Forall (Forall (fun item => one_line item = true)) (acked ex_run) /\
  exists lost kept, acked ex_run = lost ++ kept /\ keeps (logger ex_run) kept (disk ex_run)
    /\ (60 <= 0 \/ 1 <= 0 -> lost = []).
Proof.
  split; [by vm_compute|]. apply (audit_durable (H := journal) "audit.jsonl" 60 1 ex_run); [done|by intros [=]|].
  unfold ex_run. cbv zeta.
  apply (recorded_steps "quote" 0), (flushed_by_steps (H := journal) [Sane; Sane; Sane; Fault 3]),
    (flushed_by_steps (H := journal) []), (recorded_steps "order" 0),
    (flushed_by_steps (H := journal) [Sane; Sane; Sane; Sane; Sane; Fault 2]), crashed_steps,
    (recorded_steps "fill" 0), (flushed_by_steps (H := journal) []).
  apply rtc_refl.
Defined.

(** Where a sync does not commit names, a crash takes the file a first flush has created: the
    flush succeeded, the logger has synced the file but never its directory, and the batch
    is gone although nothing was rotated. *)
Theorem unsynced_directory_loses :
  let w := crashed (flushed_by (H := no_journal) [] (recorded "quote" 0 (ex_start 0 0))) in
  rtc (step (H := no_journal)) (ex_start 0 0) w
  /\ acked w = [pending (logger (recorded "quote" 0 (ex_start 0 0)))] /\ disk w = ∅.
Proof.
  split; [|split; vm_compute; reflexivity].
  apply (recorded_steps "quote" 0), (flushed_by_steps (H := no_journal) []), crashed_steps, rtc_refl.
Qed.

(** ** What faults leave behind *)

Definition current (w : world) : string := match disk w !! path (logger w) with Some f => content f | None => "" end.

(** The lines of a flush that follows a torn write start on the torn line: the flush
    succeeds, and its first event is on no line of its own. *)
Lemma torn_line_glued :
  let w := flushed_by (H := journal) [] (flushed_by (H := journal) [Sane; Sane; Fault 3] (recorded "quote" 0 (ex_start 0 0))) in
  acked w = [pending (logger (recorded "quote" 0 (ex_start 0 0)))]
  /\ forall event rest, acked w = [event :: rest] -> Split (ascii_of_nat 10) (current w) = [prefix_of 3 event +:+ event; ""].
Proof. split; [vm_compute; reflexivity|]. intros event rest H. vm_compute in H. injection H as <- <-. vm_compute. reflexivity. Qed.

(** A flush whose sync fails has written its events, and the next one writes them again. *)
Lemma flushed_twice :
  let w := flushed_by (H := journal) [] (flushed_by (H := journal) [Sane; Sane; Sane; Fault 0] (recorded "quote" 0 (ex_start 0 0))) in
  forall event rest, acked w = [event :: rest] -> current w = lines_text [event; event].
Proof. intros w event rest H. vm_compute in H. injection H as <- <-. vm_compute. reflexivity. Qed.

(** Flushes that fail after the rotation rotate again: what the torn writes left fills the
    backups, and a batch that was acknowledged is gone though the log never held as much as
    two files may. *)
Lemma torn_writes_rotate :
  let w1 := flushed_by (H := journal) [] (recorded "quote" 0 (ex_start 100 1)) in
  let w2 := flushed_by (H := journal) [Sane; Sane; Sane; Sane; Sane; Fault 50] (recorded "fill" 0 w1) in
  let w3 := flushed_by (H := journal) [] w2 in
  forall event1 event2, acked w3 = [[event1]; [event2]] ->
    fmap content (disk w3) = {[ "audit.jsonl" := lines_text [event2]; "audit.jsonl.1" := prefix_of 50 event2 ]}
    /\ (String.length (lines_text [event1; event2]) <= 150)%nat.
Proof. intros w1 w2 w3 event1 event2 H. vm_compute in H. injection H as <- <-. split; [vm_compute; reflexivity|]. vm_compute. lia. Qed.
End Audit.
