(* ===== verification/ConfigJson.v ===== *)
(** The JSON of a configuration (the field tags of src/internal/config/config.go): what the
    configuration store writes and reads back.

    [unmarshal_config] inverts [marshal_config] up to the rounding of amounts to eighteen
    digits, [reread_config].  The order of the keys of an object, which PostgreSQL changes,
    does not matter to the decoder; the tree keeps the one it was written with. *)
From S2P Require Import Prelude Decimal DecimalText Domain Config Json Wire Configdiff.

Open Scope string_scope.
Open Scope list_scope.
Open Scope Z_scope.

(** ** Encoding the remaining sections *)

#[export] Instance marshal_instrument : Marshal InstrumentConfig := fun i =>
  JObj [("id", marshal (ID i)); ("base", marshal (inst_Base i)); ("quote", marshal (inst_Quote i));
        ("reference", marshal (Reference i)); ("strategy", marshal (Strategy i));
        ("trade_simulation", marshal (TradeSimulation i))].

#[export] Instance marshal_venue : Marshal VenueConfig := fun v =>
  JObj ([("type", marshal (venue_Type v))]
    ++ omit_if (String.eqb (Environment v) "") "environment" (marshal (Environment v))
    ++ [("enabled", marshal (venue_Enabled v)); ("trading_enabled", marshal (TradingEnabled v));
        ("dedicated_account", marshal (DedicatedAccount v)); ("base_url", marshal (BaseURL v))]
    ++ omit_if (String.eqb (SelfTradePrevention v) "") "self_trade_prevention"
         (marshal (SelfTradePrevention v))
    ++ [("markets", marshal (Markets v))]).

#[export] Instance marshal_config : Marshal Config := fun c =>
  JObj [("mode", marshal (cfg_Mode c : string)); ("poll_interval_ms", marshal (PollIntervalMS c));
        ("audit_path", marshal (AuditPath c)); ("audit_max_bytes", marshal (AuditMaxBytes c));
        ("audit_backups", marshal (AuditBackups c)); ("heartbeat_path", marshal (HeartbeatPath c));
        ("watchdog_timeout_seconds", marshal (WatchdogTimeoutSeconds c));
        ("market_failure_threshold", marshal (MarketFailureThreshold c));
        ("market_recovery_threshold", marshal (MarketRecoveryThreshold c));
        ("market_error_grace_seconds", marshal (MarketErrorGraceSeconds c));
        ("trading_progress_timeout_seconds", marshal (TradingProgressTimeoutSeconds c));
        ("max_concurrent_instruments", marshal (MaxConcurrentInstruments c));
        ("rules_refresh_seconds", marshal (RulesRefreshSeconds c)); ("rpc", marshal (RPC c));
        ("instruments", marshal (Instruments c)); ("venues", marshal (Venues c))].

(** ** Decoding *)

Definition flag (name : string) (l : list (string * Json)) : option bool := ifield unmarshal name l.
Definition amount (name : string) (l : list (string * Json)) : option Decimal := ifield unmarshal name l.

Definition unmarshal_rpc (j : Json) : option RPCConfig :=
  l ← asObject j;
  urls ← ifield (asSlice unmarshal) "urls" l; chain ← ifield unmarshal_uint64 "chain_id" l;
  timeout ← int64 "request_timeout_ms" l;
  Some (MkRPCConfig urls chain timeout).

Definition unmarshal_asset (j : Json) : option AssetConfig :=
  l ← asObject j;
  symbol ← text "symbol" l; address ← text "address" l; decimals ← int64 "decimals" l;
  Some (MkAssetConfig symbol address decimals).

Definition unmarshal_leg (j : Json) : option PairLegConfig :=
  l ← asObject j;
  pair ← text "pair_address" l; factory ← text "expected_factory" l; base ← text "base_token" l;
  quote ← text "quote_token" l; reserve ← amount "min_quote_reserve" l;
  idle ← int64 "max_idle_seconds" l;
  Some (MkPairLegConfig pair factory base quote reserve idle).

Definition unmarshal_reference (j : Json) : option ReferenceConfig :=
  l ← asObject j;
  type ← text "type" l; legs ← ifield (asSlice unmarshal_leg) "legs" l;
  window ← int64 "twap_window_seconds" l; deviation ← int64 "max_spot_twap_deviation_bps" l;
  stale ← int64 "stale_after_seconds" l; warmup ← flag "allow_spot_during_warmup" l;
  Some (MkReferenceConfig type legs window deviation stale warmup).

Definition unmarshal_strategy (j : Json) : option StrategyConfig :=
  l ← asObject j;
  half ← int64 "half_spread_bps" l; spacing ← int64 "level_spacing_bps" l;
  levels ← int64 "levels" l; size ← amount "order_size" l;
  minNotional ← amount "min_order_notional" l; maxNotional ← amount "max_order_notional" l;
  reprice ← int64 "reprice_threshold_bps" l; reserve ← int64 "balance_reserve_bps" l;
  deviation ← int64 "max_venue_reference_deviation_bps" l; spread ← int64 "max_venue_spread_bps" l;
  target ← amount "target_base" l; maxDeviation ← amount "max_base_deviation" l;
  skew ← int64 "inventory_skew_bps" l; refresh ← int64 "quote_refresh_seconds" l;
  ratio ← int64 "quote_refresh_ratio_bps" l; minLife ← int64 "min_order_lifetime_seconds" l;
  maxLife ← int64 "max_order_lifetime_seconds" l;
  minDelay ← int64 "fill_replenish_min_delay_seconds" l;
  maxDelay ← int64 "fill_replenish_max_delay_seconds" l;
  jitter ← int64 "price_jitter_ticks" l; best ← int64 "best_levels" l;
  bestRefresh ← int64 "best_level_refresh_seconds" l;
  Some (MkStrategyConfig half spacing levels size minNotional maxNotional reprice reserve deviation
    spread target maxDeviation skew refresh ratio minLife maxLife minDelay maxDelay jitter best
    bestRefresh).

Definition unmarshal_simulation (j : Json) : option TradeSimulationConfig :=
  l ← asObject j;
  enabled ← flag "enabled" l; source ← text "source_venue" l; minQty ← amount "min_quantity" l;
  maxQty ← amount "max_quantity" l; minInterval ← int64 "min_interval_ms" l;
  maxInterval ← int64 "max_interval_ms" l; probability ← int64 "buy_probability_bps" l;
  recent ← int64 "recent_limit" l;
  Some (MkTradeSimulationConfig enabled source minQty maxQty minInterval maxInterval probability recent).

Definition unmarshal_instrument (j : Json) : option InstrumentConfig :=
  l ← asObject j;
  id ← text "id" l; base ← ifield unmarshal_asset "base" l; quote ← ifield unmarshal_asset "quote" l;
  reference ← ifield unmarshal_reference "reference" l;
  strategy ← ifield unmarshal_strategy "strategy" l;
  simulation ← ifield unmarshal_simulation "trade_simulation" l;
  Some (MkInstrumentConfig id base quote reference strategy simulation).

#[export] Instance unmarshal_market : Unmarshal VenueMarketConfig := fun j =>
  l ← asObject j;
  symbol ← text "symbol" l; base ← text "base_asset" l; quote ← text "quote_asset" l;
  tick ← amount "price_tick" l; step ← amount "quantity_step" l;
  minNotional ← amount "min_notional" l; minQty ← amount "min_quantity" l;
  maxQty ← amount "max_quantity" l; maxNotional ← amount "max_notional" l;
  minPrice ← amount "min_price" l; maxPrice ← amount "max_price" l;
  maxOrders ← int64 "max_open_orders" l; baseCommitment ← amount "max_base_commitment" l;
  quoteCommitment ← amount "max_quote_commitment" l; credential ← int64 "credential_id" l;
  Some (MkVenueMarketConfig symbol base quote tick step minNotional minQty maxQty maxNotional
    minPrice maxPrice maxOrders baseCommitment quoteCommitment credential).

#[export] Instance unmarshal_venue : Unmarshal VenueConfig := fun j =>
  l ← asObject j;
  type ← text "type" l; environment ← text "environment" l; enabled ← flag "enabled" l;
  trading ← flag "trading_enabled" l; dedicated ← flag "dedicated_account" l;
  url ← text "base_url" l; stp ← text "self_trade_prevention" l;
  markets ← ifield unmarshal "markets" l;
  Some (MkVenueConfig type environment enabled trading dedicated url stp markets).

Definition unmarshal_config (j : Json) : option Config :=
  l ← asObject j;
  mode ← text "mode" l; poll ← int64 "poll_interval_ms" l; path ← text "audit_path" l;
  maxBytes ← int64 "audit_max_bytes" l; backups ← int64 "audit_backups" l;
  heartbeat ← text "heartbeat_path" l; watchdog ← int64 "watchdog_timeout_seconds" l;
  failures ← int64 "market_failure_threshold" l; recovery ← int64 "market_recovery_threshold" l;
  grace ← int64 "market_error_grace_seconds" l; progress ← int64 "trading_progress_timeout_seconds" l;
  concurrent ← int64 "max_concurrent_instruments" l; rules ← int64 "rules_refresh_seconds" l;
  rpc ← ifield unmarshal_rpc "rpc" l;
  instruments ← ifield (asSlice unmarshal_instrument) "instruments" l;
  venues ← ifield unmarshal "venues" l;
  Some (MkConfig mode poll path maxBytes backups heartbeat watchdog failures recovery grace progress
    concurrent rules rpc instruments venues).

(** ** What is read back *)

Definition reread_leg (l : PairLegConfig) : PairLegConfig :=
  MkPairLegConfig (PairAddress l) (ExpectedFactory l) (BaseToken l) (QuoteToken l)
    (reread (MinQuoteReserve l)) (MaxIdleSeconds l).
Definition reread_reference (r : ReferenceConfig) : ReferenceConfig :=
  MkReferenceConfig (refcfg_Type r) (map reread_leg (Legs r)) (TWAPWindowSeconds r)
    (MaxSpotTWAPDeviationBPS r) (StaleAfterSeconds r) (AllowSpotDuringWarmup r).
Definition reread_strategy (s : StrategyConfig) : StrategyConfig :=
  MkStrategyConfig (HalfSpreadBPS s) (LevelSpacingBPS s) (Levels s) (reread (OrderSize s))
    (reread (MinOrderNotional s)) (reread (MaxOrderNotional s)) (RepriceThresholdBPS s)
    (BalanceReserveBPS s) (MaxVenueReferenceDeviationBPS s) (MaxVenueSpreadBPS s)
    (reread (TargetBase s)) (reread (MaxBaseDeviation s)) (InventorySkewBPS s)
    (QuoteRefreshSeconds s) (QuoteRefreshRatioBPS s) (MinOrderLifetimeSeconds s)
    (MaxOrderLifetimeSeconds s) (FillReplenishMinDelaySeconds s) (FillReplenishMaxDelaySeconds s)
    (PriceJitterTicks s) (BestLevels s) (BestLevelRefreshSeconds s).
Definition reread_simulation (t : TradeSimulationConfig) : TradeSimulationConfig :=
  MkTradeSimulationConfig (sim_Enabled t) (SourceVenue t) (reread (sim_MinQuantity t))
    (reread (sim_MaxQuantity t)) (MinIntervalMS t) (MaxIntervalMS t) (BuyProbabilityBPS t)
    (RecentLimit t).
Definition reread_instrument (i : InstrumentConfig) : InstrumentConfig :=
  MkInstrumentConfig (ID i) (inst_Base i) (inst_Quote i) (reread_reference (Reference i))
    (reread_strategy (Strategy i)) (reread_simulation (TradeSimulation i)).
Definition reread_market (m : VenueMarketConfig) : VenueMarketConfig :=
  MkVenueMarketConfig (market_Symbol m) (market_BaseAsset m) (market_QuoteAsset m)
    (reread (PriceTick m)) (reread (QuantityStep m)) (reread (MinNotional m))
    (reread (MinQuantity m)) (reread (MaxQuantity m)) (reread (MaxNotional m))
    (reread (MinPrice m)) (reread (MaxPrice m)) (MaxOpenOrders m)
    (reread (MaxBaseCommitment m)) (reread (MaxQuoteCommitment m)) (CredentialID m).
Definition reread_venue (v : VenueConfig) : VenueConfig :=
  MkVenueConfig (venue_Type v) (Environment v) (venue_Enabled v) (TradingEnabled v)
    (DedicatedAccount v) (BaseURL v) (SelfTradePrevention v) (reread_market <$> Markets v).
Definition reread_config (c : Config) : Config :=
  MkConfig (cfg_Mode c) (PollIntervalMS c) (AuditPath c) (AuditMaxBytes c) (AuditBackups c)
    (HeartbeatPath c) (WatchdogTimeoutSeconds c) (MarketFailureThreshold c)
    (MarketRecoveryThreshold c) (MarketErrorGraceSeconds c) (TradingProgressTimeoutSeconds c)
    (MaxConcurrentInstruments c) (RulesRefreshSeconds c) (RPC c)
    (map reread_instrument (Instruments c)) (reread_venue <$> Venues c).

(** The integers of a configuration are machine integers. *)
Definition strategy_ints (s : StrategyConfig) : list Z :=
  [HalfSpreadBPS s; LevelSpacingBPS s; Levels s; RepriceThresholdBPS s; BalanceReserveBPS s;
   MaxVenueReferenceDeviationBPS s; MaxVenueSpreadBPS s; InventorySkewBPS s; QuoteRefreshSeconds s;
   QuoteRefreshRatioBPS s; MinOrderLifetimeSeconds s; MaxOrderLifetimeSeconds s;
   FillReplenishMinDelaySeconds s; FillReplenishMaxDelaySeconds s; PriceJitterTicks s; BestLevels s;
   BestLevelRefreshSeconds s].
Definition leg_ints (l : PairLegConfig) : list Z := [MaxIdleSeconds l].
Definition instrument_ints (i : InstrumentConfig) : list Z :=
  let r := Reference i in let t := TradeSimulation i in
  [asset_Decimals (inst_Base i); asset_Decimals (inst_Quote i); TWAPWindowSeconds r;
   MaxSpotTWAPDeviationBPS r; StaleAfterSeconds r; MinIntervalMS t; MaxIntervalMS t;
   BuyProbabilityBPS t; RecentLimit t]
  ++ strategy_ints (Strategy i) ++ (Legs r ≫= leg_ints).
Definition venue_ints (v : VenueConfig) : Prop :=
  map_Forall (fun _ m => in_int64 (MaxOpenOrders m) /\ in_int64 (CredentialID m)) (Markets v).
Definition machine_config (c : Config) : Prop :=
  Forall in_int64 [PollIntervalMS c; AuditMaxBytes c; AuditBackups c; WatchdogTimeoutSeconds c;
    MarketFailureThreshold c; MarketRecoveryThreshold c; MarketErrorGraceSeconds c;
    TradingProgressTimeoutSeconds c; MaxConcurrentInstruments c; RulesRefreshSeconds c;
    RequestTimeoutMS (RPC c)]
  /\ 0 <= ChainID (RPC c) < 2 ^ 64
  /\ Forall (fun i => Forall in_int64 (instrument_ints i)) (Instruments c)
  /\ map_Forall (fun _ v => venue_ints v) (Venues c).

(** ** Reading a field of what was written *)

Lemma ifield_hit {A} (dec : Json -> option A) name k j l :
  EqualFold k name = true -> ifield dec name ((k, j) :: l) = dec j.
Proof. intros Hk. unfold ifield. cbn [list_find fst]. by rewrite decide_True. Qed.

Lemma ifield_skip {A} (dec : Json -> option A) name k j l :
  EqualFold k name = false -> ifield dec name ((k, j) :: l) = ifield dec name l.
Proof.
  intros Hk. unfold ifield. cbn [list_find fst]. rewrite decide_False by congruence.
  by destruct (list_find _ l) as [[i [k' j']]|].
Qed.

Lemma ifield_nil {A} (dec : Json -> option A) name : ifield dec name [] = dec JNull.
Proof. done. Qed.

Lemma ifield_omit_skip {A} (dec : Json -> option A) name b k j l :
  EqualFold k name = false -> ifield dec name (omit_if b k j ++ l) = ifield dec name l.
Proof. intros Hk. destruct b; [done|]. by apply ifield_skip. Qed.

Lemma ifield_omit_last {A} (dec : Json -> option A) name b k j :
  EqualFold k name = false -> ifield dec name (omit_if b k j) = dec JNull.
Proof. intros Hk. destruct b; [done|]. cbn [omit_if]. by rewrite ifield_skip. Qed.

Lemma decode_int n : in_int64 n -> unmarshal_int64 (marshal n) = Some n.
Proof.
  intros [Hl Hu]. unfold unmarshal_int64, marshal, marshal_Z. by rewrite (proj2 (Z.leb_le _ _) Hl), (proj2 (Z.leb_le _ _) Hu).
Qed.

Lemma decode_string (t : string) : unmarshal (marshal t) = Some t.
Proof. done. Qed.
Lemma decode_bool (b : bool) : unmarshal (marshal b) = Some b.
Proof. done. Qed.

(** An omitted field reads as the zero value it had. *)
Lemma ifield_omit_int name n l : in_int64 n ->
  ifield unmarshal_int64 name l = Some 0 ->
  ifield unmarshal_int64 name (omit_if (n =? 0) name (JNum n) ++ l) = Some n.
Proof.
  intros Hn Hl. destruct (Z.eqb_spec n 0) as [->|_]; [done|]. cbn [omit_if app].
  rewrite ifield_hit by apply EqualFold_refl. by apply decode_int.
Qed.
Lemma ifield_omit_int_last name n : in_int64 n ->
  ifield unmarshal_int64 name (omit_if (n =? 0) name (JNum n)) = Some n.
Proof. intros Hn. rewrite <- (app_nil_r (omit_if _ _ _)). by apply ifield_omit_int. Qed.
Lemma ifield_omit_text name (t : string) l :
  ifield unmarshal name l = Some "" ->
  ifield unmarshal name (omit_if (String.eqb t "") name (marshal t) ++ l) = Some t.
Proof.
  intros Hl. destruct (String.eqb_spec t "") as [->|_]; [done|]. cbn [omit_if app].
  by rewrite ifield_hit by apply EqualFold_refl.
Qed.

Lemma ifield_omit_bool name (b : bool) l :
  ifield unmarshal name l = Some false ->
  ifield unmarshal name (omit_if (negb b) name (marshal b) ++ l) = Some b.
Proof. intros Hl. destruct b; [|done]. cbn [omit_if negb app]. by rewrite ifield_hit by apply EqualFold_refl. Qed.

(** A pointer, omitted when it is nil. *)
Definition omit_none {A} `{Marshal A} (name : string) (o : option A) : list (string * Json) :=
  match o with Some a => [(name, marshal a)] | None => [] end.
Definition asPointer {A} (dec : Json -> option A) (j : Json) : option (option A) :=
  match j with JNull => Some None | _ => Some <$> dec j end.
Definition pointer {A B} `{Marshal A} (dec : Json -> option B) (o : option A) : option (option B) :=
  match o with Some a => asPointer dec (marshal a) | None => Some None end.

Lemma ifield_none_skip {A B} `{Marshal A} (dec : Json -> option B) name k (o : option A) l :
  EqualFold k name = false -> ifield dec name (omit_none k o ++ l) = ifield dec name l.
Proof. intros Hk. destruct o; [|done]. by apply ifield_skip. Qed.
Lemma ifield_none_hit {A B} `{Marshal A} (dec : Json -> option B) name (o : option A) l :
  ifield (asPointer dec) name l = Some None ->
  ifield (asPointer dec) name (omit_none name o ++ l) = pointer dec o.
Proof. intros Hl. destruct o; [|done]. cbn [omit_none app]. by rewrite ifield_hit by apply EqualFold_refl. Qed.

Lemma pointer_marshal {A B} `{Marshal A} (dec : Json -> option B) (f : A -> B) (o : option A) :
  (forall a, o = Some a -> marshal a <> JNull /\ dec (marshal a) = Some (f a)) ->
  pointer dec o = Some (f <$> o).
Proof.
  destruct o as [a|]; [|done]. intros Ha. destruct (Ha a eq_refl) as [Hn Hd]. cbn [pointer].
  unfold asPointer. rewrite Hd. by destruct (marshal a).
Qed.

(** A slice, omitted when it is empty. *)
Lemma ifield_omit_slice {A B} `{Marshal B} (dec : Json -> option A) name (l : list B) (b : bool) rest :
  (b = true -> l = []) -> ifield (asSlice dec) name rest = Some [] ->
  ifield (asSlice dec) name (omit_if b name (marshal l) ++ rest) = asSlice dec (marshal l).
Proof.
  intros Hb Hr. destruct b; [by rewrite Hb|]. cbn [omit_if app]. by rewrite ifield_hit by apply EqualFold_refl.
Qed.

Lemma asSlice_marshal {A B} `{Marshal B} (dec : Json -> option A) (f : B -> A) (l : list B) :
  Forall (fun b => dec (marshal b) = Some (f b)) l -> asSlice dec (marshal l) = Some (map f l).
Proof.
  intros Hl. unfold asSlice, marshal, marshal_list. induction Hl as [|b l Hb Hl IH]; [done|].
  cbn [map mapM]. rewrite Hb. simpl. by rewrite IH.
Qed.

(** The fields of an object that was written, as far as they are where their names are. *)
Ltac json_field :=
  cbn [app];
  repeat match goal with
  | |- context [ifield ?dec ?name ((?k, ?j) :: ?l)] =>
      let b := eval vm_compute in (EqualFold k name) in
      lazymatch b with
      | true => rewrite (ifield_hit dec name k j l) by (vm_compute; reflexivity)
      | false => rewrite (ifield_skip dec name k j l) by (vm_compute; reflexivity)
      end
  | |- context [ifield ?dec ?name (omit_if ?b ?k ?j ++ ?l)] =>
      lazymatch k with
      | name => first [ rewrite (ifield_omit_int name _ l) by (done || (json_field; done))
                      | rewrite (ifield_omit_text name _ l) by (json_field; done)
                      | rewrite (ifield_omit_bool name _ l) by (json_field; done)
                      | rewrite (ifield_omit_slice _ name _ b l) by (first [by destruct (_ : list _) | json_field; done]) ]
      | _ => rewrite (ifield_omit_skip dec name b k j l) by (vm_compute; reflexivity)
      end
  | |- context [ifield ?dec ?name (omit_none ?k ?o ++ ?l)] =>
      lazymatch k with
      | name => rewrite (ifield_none_hit _ name o l) by (json_field; done)
      | _ => rewrite (ifield_none_skip dec name k o l) by (vm_compute; reflexivity)
      end
  | |- context [ifield ?dec ?name (omit_if ?b ?k ?j)] =>
      lazymatch k with
      | name => rewrite (ifield_omit_int_last name) by done
      | _ => rewrite (ifield_omit_last dec name b k j) by (vm_compute; reflexivity)
      end
  end.

(** ** Round trips *)

Lemma decode_amount d : unmarshal (marshal d) = Some (reread d).
Proof. apply unmarshal_reread. Qed.

Ltac json_fields :=
  unfold text, int64, flag, amount, omit_zero; cbn [asObject mbind option_bind]; json_field;
  rewrite ?decode_string, ?decode_bool, ?decode_amount; repeat rewrite decode_int by done.

Lemma decode_rpc r : in_int64 (RequestTimeoutMS r) -> 0 <= ChainID r < 2 ^ 64 ->
  unmarshal_rpc (marshal r) = Some r.
Proof.
  intros Ht [Hc Hu]. unfold unmarshal_rpc, marshal at 1, marshal_rpc. json_fields.
  rewrite (asSlice_marshal (B := string) _ id) by (apply Forall_true; done).
  unfold marshal, marshal_Z, unmarshal_uint64.
  rewrite (proj2 (Z.leb_le _ _) Hc), (proj2 (Z.ltb_lt _ _) Hu).
  cbn [andb mbind option_bind]. rewrite map_id. by destruct r.
Qed.

Lemma decode_asset a : in_int64 (asset_Decimals a) -> unmarshal_asset (marshal a) = Some a.
Proof. intros Ha. unfold unmarshal_asset, marshal at 1, marshal_asset. json_fields. by destruct a. Qed.

Lemma decode_leg l : in_int64 (MaxIdleSeconds l) -> unmarshal_leg (marshal l) = Some (reread_leg l).
Proof. intros Hl. unfold unmarshal_leg, marshal at 1, marshal_leg. by json_fields. Qed.

Lemma decode_strategy s : Forall in_int64 (strategy_ints s) ->
  unmarshal_strategy (marshal s) = Some (reread_strategy s).
Proof.
  intros Hs. unfold strategy_ints in Hs. rewrite !Forall_cons in Hs. destruct_and! Hs.
  unfold unmarshal_strategy, marshal at 1, marshal_strategy. by json_fields.
Qed.

Lemma decode_reference r : Forall in_int64 [TWAPWindowSeconds r; MaxSpotTWAPDeviationBPS r; StaleAfterSeconds r] ->
  Forall in_int64 (Legs r ≫= leg_ints) -> unmarshal_reference (marshal r) = Some (reread_reference r).
Proof.
  intros Hr Hl. rewrite !Forall_cons in Hr. destruct_and! Hr.
  unfold unmarshal_reference, marshal at 1, marshal_reference. json_fields.
  rewrite (asSlice_marshal _ reread_leg); [done|]. apply Forall_forall. intros l Hin. apply decode_leg.
  rewrite Forall_forall in Hl. apply Hl, list_elem_of_bind. exists l. split; [by left|done].
Qed.

Lemma decode_simulation t :
  Forall in_int64 [MinIntervalMS t; MaxIntervalMS t; BuyProbabilityBPS t; RecentLimit t] ->
  unmarshal_simulation (marshal t) = Some (reread_simulation t).
Proof.
  intros Ht. rewrite !Forall_cons in Ht. destruct_and! Ht.
  unfold unmarshal_simulation, marshal at 1, marshal_simulation. by json_fields.
Qed.

Lemma decode_instrument i : Forall in_int64 (instrument_ints i) ->
  unmarshal_instrument (marshal i) = Some (reread_instrument i).
Proof.
  unfold instrument_ints. cbv zeta. rewrite !Forall_app, !Forall_cons. intros [Hi [Hs Hl]].
  destruct_and! Hi. unfold unmarshal_instrument, marshal at 1, marshal_instrument. json_fields.
  rewrite !decode_asset by done. rewrite decode_reference by (rewrite ?Forall_cons; done).
  rewrite decode_strategy by done. by rewrite decode_simulation by (rewrite ?Forall_cons; done).
Qed.

Lemma decode_market m : in_int64 (MaxOpenOrders m) -> in_int64 (CredentialID m) ->
  unmarshal (marshal m) = Some (reread_market m).
Proof.
  intros Hm Hc. unfold unmarshal at 1, unmarshal_market, marshal at 1, marshal_market. by json_fields.
Qed.

Lemma decode_venue v : venue_ints v -> unmarshal (marshal v) = Some (reread_venue v).
Proof.
  intros Hv. unfold unmarshal at 1, unmarshal_venue, marshal at 1, marshal_venue. json_fields.
  rewrite (unmarshal_marshal_map reread_market); [done|]. intros k m Hk.
  destruct (Hv k m Hk). by apply decode_market.
Qed.

Lemma decode_config c : machine_config c -> unmarshal_config (marshal c) = Some (reread_config c).
Proof.
  intros (Hc & Hr & Hi & Hv). rewrite !Forall_cons in Hc. destruct_and! Hc.
  unfold unmarshal_config, marshal at 1, marshal_config. json_fields.
  rewrite decode_rpc by done. cbn [mbind option_bind].
  rewrite (asSlice_marshal _ reread_instrument); [|by eapply Forall_impl; [exact Hi|apply decode_instrument]].
  cbn [mbind option_bind].
  by rewrite (unmarshal_marshal_map reread_venue) by (intros k v Hk; apply decode_venue, (Hv k v Hk)).
Qed.

(** ** Reading back twice *)

Lemma Parse_printed d : exists q, Parse (String_ d) = Ret (FromRat q) /\ representable (FromRat q)
  /\ (0 < rat_sign (Qred q) -> 0 < rat_sign (rat d)).
Proof.
  unfold String_. destruct (DIsZero d) eqn:Ez; [exists 0%Q; split_and!; [done|by exists 0|done]|].
  destruct (FloatString_dec_text (rat d)) as (ip & j & f & Hip & Hf & Hj & _ & Ht). rewrite Ht.
  destruct (String.eqb _ "-0"); [exists 0%Q; split_and!; [done|by exists 0|done]|].
  destruct (SetString_dec_text (Qnum (rat d) <? 0) ip j f Hip Hf) as (q & Hq & Hv).
  exists q. split_and!.
  - unfold Parse. rewrite TrimSpace_id by apply dec_text_not_space.
    destruct (String.eqb _ "") eqn:E; [|by rewrite Hq]. apply String.eqb_eq in E. by rewrite E in Hq.
  - unfold representable, FromRat, rat. cbn [r]. setoid_rewrite (Qred_correct q).
    exists ((if Qnum (rat d) <? 0 then - (ip * 10 ^ Z.of_nat j + f) else ip * 10 ^ Z.of_nat j + f)
            * 10 ^ Z.of_nat (18 - j)).
    rewrite Hv. unfold Qeq. cbn [Qnum Qden]. rewrite Z2Pos.id by (apply Z.pow_pos_nonneg; lia).
    replace (Z.pos (10 ^ 18)) with (10 ^ Z.of_nat (18 - j) * 10 ^ Z.of_nat j);
      [by rewrite Z.mul_assoc|].
    rewrite <- Z.pow_add_r by lia. by replace (Z.of_nat (18 - j) + Z.of_nat j) with (Z.of_nat 18) by lia.
  - assert (Hs : rat_sign (Qred q) = rat_sign q).
    { unfold rat_sign. pose proof (Qred_correct q) as Hr. unfold Qeq in Hr. nia. }
    rewrite Hs. unfold rat_sign. unfold Qeq in Hv. cbn [Qnum Qden] in Hv.
    rewrite Z2Pos.id in Hv by (apply Z.pow_pos_nonneg; lia).
    assert (0 < 10 ^ Z.of_nat j) by (apply Z.pow_pos_nonneg; lia).
    unfold DIsZero, rat_sign in Ez. apply Z.eqb_neq in Ez.
    destruct (Z.ltb_spec (Qnum (rat d)) 0); nia.
Qed.

Lemma reread_printed d : exists q, reread d = FromRat q /\ representable (FromRat q)
  /\ (IsPositive (reread d) = true -> IsPositive d = true).
Proof.
  destruct (Parse_printed d) as (q & Hp & Hr & Hs). exists q.
  assert (E : reread d = FromRat q).
  { unfold reread, unmarshal, unmarshal_decimal, marshal, marshal_decimal. by rewrite Hp. }
  rewrite E. split_and!; [done|done|]. unfold IsPositive. rewrite !Z.ltb_lt. exact Hs.
Qed.

Lemma reread_idem d : reread (reread d) = reread d.
Proof.
  destruct (reread_printed d) as (q & -> & Hr & _). rewrite reread_representable by done.
  unfold FromRat, rat. cbn [r]. do 2 f_equal. apply Qred_complete, Qred_correct.
Qed.

Lemma reread_positive d : IsPositive (reread d) = true -> IsPositive d = true.
Proof. by destruct (reread_printed d) as (q & _ & _ & ?). Qed.

Lemma or_default_again v d : or_default (or_default v d) d = or_default v d.
Proof. unfold or_default. destruct (v =? 0) eqn:E; [by destruct (d =? 0)|by rewrite E]. Qed.

Lemma in_int64_default v d : in_int64 v -> in_int64 d -> in_int64 (or_default v d).
Proof. intros Hv Hd. unfold or_default. by destruct (v =? 0). Qed.
Lemma in_int64_min v d : in_int64 v -> in_int64 d -> in_int64 (Z.min v d).
Proof. unfold in_int64. lia. Qed.
Lemma in_int64_max v d : in_int64 v -> in_int64 d -> in_int64 (Z.max v d).
Proof. unfold in_int64. lia. Qed.

#[local] Opaque reread or_default IsPositive.

(** What a load makes of a strategy a load has made, nothing changes any more. *)
Lemma normalize_reread_strategy s :
  let s' := normalizeStrategy (reread_strategy s) in normalizeStrategy (reread_strategy s') = s'.
Proof.
  cbv zeta. unfold normalizeStrategy, reread_strategy. cbn. rewrite !or_default_again, !reread_idem.
  destruct (IsPositive (reread (MinOrderNotional s)) && IsPositive (reread (MaxOrderNotional s)));
    by rewrite ?reread_idem.
Qed.

Definition normalized (c : Config) : Config := NormalizeStrategySizing (reread_config c).

Lemma normalized_idem c : normalized (normalized c) = normalized c.
Proof.
  destruct c as [? ? ? ? ? ? ? ? ? ? ? ? ? ? insts vs].
  unfold normalized, NormalizeStrategySizing, reread_config, set_Instruments. cbn. f_equal.
  - rewrite !map_map. apply map_ext. intros i. unfold set_Strategy. cbn.
    rewrite normalize_reread_strategy. f_equal.
    + unfold reread_reference. cbn. f_equal. rewrite map_map. apply map_ext. intros l.
      unfold reread_leg. cbn. by rewrite reread_idem.
    + unfold reread_simulation. cbn. by rewrite !reread_idem.
  - rewrite <- map_fmap_compose. apply map_fmap_ext. intros k v _. unfold compose, reread_venue. cbn. f_equal.
    rewrite <- map_fmap_compose. apply map_fmap_ext. intros k' m _. unfold compose, reread_market. cbn.
    by rewrite !reread_idem.
Qed.


Lemma reread_machine c : machine_config c -> machine_config (reread_config c).
Proof.
  intros (Hc & Hr & Hi & Hv). unfold reread_config.
  split; [exact Hc|split; [exact Hr|split]].
  - cbn [Instruments]. rewrite Forall_map. eapply Forall_impl; [exact Hi|]. intros i.
    unfold instrument_ints. cbv zeta. rewrite !Forall_app.
    intros (H1' & H2' & H3). split_and!; [exact H1'|exact H2'|]. cbn.
    rewrite Forall_bind in H3 |- *. rewrite Forall_map. exact H3.
  - cbn. intros k v. rewrite lookup_fmap. destruct (Venues c !! k) as [v0|] eqn:Ek; [|done]. simpl.
    intros [= <-] k' m. cbn. rewrite lookup_fmap. destruct (Markets v0 !! k') as [m0|] eqn:Em; [|done].
    simpl. intros [= <-]. by apply (Hv k v0 Ek k' m0).
Qed.

Lemma normalize_machine c : machine_config c -> machine_config (NormalizeStrategySizing c).
Proof.
  intros (Hc & Hr & Hi & Hv). unfold NormalizeStrategySizing, set_Instruments.
  split; [exact Hc|split; [exact Hr|split; [|exact Hv]]].
  cbn [Instruments]. rewrite Forall_map. eapply Forall_impl; [exact Hi|]. intros i.
  unfold instrument_ints, strategy_ints. cbv zeta. rewrite !Forall_app.
  intros (H1' & H2' & H3). split_and!; [exact H1'| |exact H3]. cbn.
  rewrite !Forall_cons in H2'. destruct_and! H2'.
  repeat apply Forall_cons_2; try apply Forall_nil_2; cbn; try done;
    repeat first [apply in_int64_default|apply in_int64_min|apply in_int64_max]; done.
Qed.

Lemma normalized_machine c : machine_config c -> machine_config (normalized c).
Proof. intros Hc. by apply normalize_machine, reread_machine. Qed.
