(* ===== verification/StatusJson.v ===== *)
(** The JSON of what the engine, the watchdog and the administration exchange over Redis
    (the field tags of src/internal/runtimeops/store.go and of the types it embeds), and
    what is read back of it: the value itself, amounts rounded to eighteen digits. *)
From S2P Require Import Prelude Decimal DecimalText Domain Json FaultData TradesimData Runtimeops Fault Wire AuditEvents ConfigJson.

Open Scope string_scope.
Open Scope list_scope.
Open Scope Z_scope.

(** ** The status of the engine and of the watchdog *)

Record WatchdogStatus := MkWatchdogStatus {
  Healthy : bool;
  LastCheckAt : Time;
  LastTriggeredAt : Time;
  ws_Reason : string;
  CancelError : string
}.

Record EngineStatus := MkEngineStatus {
  Online : bool;
  Ready : bool;
  es_Version : Z;
  es_DesiredVersion : Z;
  es_Error : string;
  LastHeartbeat : Time;
  LastTradingProgress : Time;
  Performance : option CyclePerformance;
  Metrics : option MetricsSnapshot;
  Watchdog : option WatchdogStatus;
  RuleChanges : list RuleChange
}.

Definition zero_status : EngineStatus :=
  MkEngineStatus false false 0 0 "" zero_time zero_time None None None [].

(** ** Encoding *)

#[export] Instance marshal_performance : Marshal CyclePerformance := fun p =>
  JObj [("started_at", JTime (perf_StartedAt p)); ("duration_ms", marshal (DurationMS p));
        ("instruments", marshal (perf_Instruments p)); ("succeeded", marshal (Succeeded p));
        ("failed", marshal (perf_Failed p)); ("concurrent_limit", marshal (ConcurrentLimit p))].

#[export] Instance marshal_metrics : Marshal MetricsSnapshot := fun m =>
  JObj [("started_at", JTime (ms_StartedAt m)); ("updated_at", JTime (ms_UpdatedAt m));
        ("cycles_total", marshal (CyclesTotal m)); ("cycle_failures_total", marshal (CycleFailuresTotal m));
        ("instrument_runs_total", marshal (InstrumentRunsTotal m));
        ("instrument_failures_total", marshal (InstrumentFailuresTotal m));
        ("venue_fault_events_total", marshal (VenueFaultEventsTotal m));
        ("oms_placed_total", marshal (OMSPlacedTotal m)); ("oms_canceled_total", marshal (OMSCanceledTotal m));
        ("simulated_trades_total", marshal (SimulatedTradesTotal m));
        ("audit_flush_errors_total", marshal (AuditFlushErrorsTotal m));
        ("audit_pending_events", marshal (AuditPendingEvents m));
        ("rule_changes_total", marshal (RuleChangesTotal m));
        ("lease_fence_rejects_total", marshal (LeaseFenceRejectsTotal m))].

#[export] Instance marshal_watchdog : Marshal WatchdogStatus := fun w =>
  JObj ([("healthy", marshal (Healthy w)); ("last_check_at", JTime (LastCheckAt w));
         ("last_triggered_at", JTime (LastTriggeredAt w))]
    ++ omit_if (String.eqb (ws_Reason w) "") "reason" (marshal (ws_Reason w))
    ++ omit_if (String.eqb (CancelError w) "") "cancel_error" (marshal (CancelError w)) ++ []).

#[export] Instance marshal_status : Marshal EngineStatus := fun s =>
  JObj ([("online", marshal (Online s)); ("ready", marshal (Ready s)); ("version", marshal (es_Version s));
         ("desired_version", marshal (es_DesiredVersion s))]
    ++ omit_if (String.eqb (es_Error s) "") "error" (marshal (es_Error s))
    ++ [("last_heartbeat", JTime (LastHeartbeat s)); ("last_trading_progress", JTime (LastTradingProgress s))]
    ++ omit_none "performance" (Performance s) ++ omit_none "metrics" (Metrics s)
    ++ omit_none "watchdog" (Watchdog s)
    ++ omit_if (bool_decide (RuleChanges s = [])) "rule_changes" (marshal (RuleChanges s)) ++ []).

#[export] Instance marshal_pause : Marshal PauseState := fun p =>
  JObj [("instrument_id", marshal (ps_InstrumentID p)); ("paused", marshal (ps_Paused p));
        ("reason", marshal (Reason p)); ("requested_by", marshal (RequestedBy p));
        ("requested_at", JTime (RequestedAt p))].

#[export] Instance marshal_reconcile : Marshal ReconcileRequest := fun q =>
  JObj [("instrument_id", marshal (rr_InstrumentID q)); ("requested_by", marshal (rr_RequestedBy q));
        ("requested_at", JTime (rr_RequestedAt q))].

#[export] Instance marshal_order : Marshal Order := fun o =>
  JObj ([("venue", marshal (order_Venue o)); ("order_id", marshal (OrderID o))]
    ++ omit_if (String.eqb (ClientID o) "") "client_id" (marshal (ClientID o))
    ++ [("symbol", marshal (order_Symbol o)); ("side", marshal (order_Side o));
        ("price", marshal (order_Price o)); ("quantity", marshal (order_Quantity o));
        ("executed_qty", marshal (ExecutedQty o)); ("state", marshal (order_State o));
        ("created_at", JTime (CreatedAt o))]).

#[export] Instance marshal_balance : Marshal Balance := fun b =>
  JObj [("asset", marshal (bal_Asset b)); ("free", marshal (bal_Free b)); ("locked", marshal (bal_Locked b))].

#[export] Instance marshal_trades : Marshal TradesimData.Snapshot := fun s =>
  JObj ([("enabled", marshal (snap_Enabled s)); ("source_venue", marshal (snap_SourceVenue s));
         ("status", marshal (snap_Status s)); ("last_generated_at", JTime (snap_LastGeneratedAt s));
         ("next_at", JTime (snap_NextAt s)); ("fills", marshal (snap_Fills s))]
    ++ omit_if (String.eqb (TradesimData.snap_Error s) "") "error" (marshal (TradesimData.snap_Error s)) ++ []).

#[export] Instance marshal_venueSnapshot : Marshal VenueSnapshot := fun v =>
  JObj ([("name", marshal (vs_Name v)); ("type", marshal (vs_Type v)); ("symbol", marshal (vs_Symbol v));
         ("trading_enabled", marshal (vs_TradingEnabled v)); ("market_connected", marshal (MarketConnected v));
         ("account_connected", marshal (AccountConnected v))]
    ++ omit_none "book" (vs_Book v) ++ omit_none "base_balance" (BaseBalance v)
    ++ omit_none "quote_balance" (QuoteBalance v) ++ omit_none "budget" (vs_Budget v)
    ++ omit_none "rules" (vs_Rules v) ++ omit_none "fault" (vs_Fault v)
    ++ [("open_orders", marshal (OpenOrders v)); ("pending_orders", marshal (PendingOrders v));
        ("fills", marshal (vs_Fills v))]
    ++ omit_if (String.eqb (vs_Error v) "") "error" (marshal (vs_Error v))
    ++ [("updated_at", JTime (vs_UpdatedAt v)); ("book_duration_ms", marshal (BookDurationMS v));
        ("orders_duration_ms", marshal (OrdersDurationMS v)); ("fills_duration_ms", marshal (FillsDurationMS v));
        ("oms_duration_ms", marshal (OMSDurationMS v))]).

#[export] Instance marshal_instrumentSnapshot : Marshal InstrumentSnapshot := fun s =>
  JObj ([("instrument_id", marshal (is_InstrumentID s)); ("base_symbol", marshal (is_BaseSymbol s));
         ("quote_symbol", marshal (is_QuoteSymbol s)); ("mode", marshal (is_Mode s : string));
         ("status", marshal (is_Status s)); ("paused", marshal (is_Paused s))]
    ++ omit_none "pause" (is_Pause s) ++ omit_none "reference" (is_Reference s)
    ++ [("inventory", marshal (Inventory s)); ("inventory_available", marshal (InventoryAvailable s));
        ("target_inventory", marshal (TargetInventory s)); ("max_base_deviation", marshal (is_MaxBaseDeviation s));
        ("venues", marshal (is_Venues s))]
    ++ omit_none "trade_simulation" (is_TradeSimulation s)
    ++ omit_if (String.eqb (is_Error s) "") "error" (marshal (is_Error s))
    ++ [("updated_at", JTime (is_UpdatedAt s)); ("tick_duration_ms", marshal (TickDurationMS s));
        ("reference_duration_ms", marshal (ReferenceDurationMS s));
        ("balance_duration_ms", marshal (BalanceDurationMS s))]).

(** ** Decoding *)

Definition stamp (name : string) (l : list (string * Json)) : option Time := ifield unmarshal_time name l.
Definition uint64 (name : string) (l : list (string * Json)) : option Z := ifield unmarshal_uint64 name l.

Definition unmarshal_performance (j : Json) : option CyclePerformance :=
  l ← asObject j;
  at_ ← stamp "started_at" l; duration ← int64 "duration_ms" l; instruments ← int64 "instruments" l;
  succeeded ← int64 "succeeded" l; failed ← int64 "failed" l; limit ← int64 "concurrent_limit" l;
  Some (MkCyclePerformance at_ duration instruments succeeded failed limit).

Definition unmarshal_metrics (j : Json) : option MetricsSnapshot :=
  l ← asObject j;
  started ← stamp "started_at" l; updated ← stamp "updated_at" l; cycles ← uint64 "cycles_total" l;
  cycleFailures ← uint64 "cycle_failures_total" l; runs ← uint64 "instrument_runs_total" l;
  failures ← uint64 "instrument_failures_total" l; faults ← uint64 "venue_fault_events_total" l;
  placed ← uint64 "oms_placed_total" l; canceled ← uint64 "oms_canceled_total" l;
  trades ← uint64 "simulated_trades_total" l; flushErrors ← uint64 "audit_flush_errors_total" l;
  pending ← int64 "audit_pending_events" l; changes ← uint64 "rule_changes_total" l;
  rejects ← uint64 "lease_fence_rejects_total" l;
  Some (MkMetricsSnapshot started updated cycles cycleFailures runs failures faults placed canceled trades
    flushErrors pending changes rejects).

Definition unmarshal_watchdog (j : Json) : option WatchdogStatus :=
  l ← asObject j;
  healthy ← flag "healthy" l; check ← stamp "last_check_at" l; triggered ← stamp "last_triggered_at" l;
  reason ← text "reason" l; cancelError ← text "cancel_error" l;
  Some (MkWatchdogStatus healthy check triggered reason cancelError).

Definition unmarshal_rules (j : Json) : option MarketRules :=
  l ← asObject j;
  symbol ← text "symbol" l; base ← text "base_asset" l; quote ← text "quote_asset" l;
  tick ← amount "price_tick" l; step ← amount "quantity_step" l; minQty ← amount "min_quantity" l;
  maxQty ← amount "max_quantity" l; minNotional ← amount "min_notional" l;
  maxNotional ← amount "max_notional" l; minPrice ← amount "min_price" l; maxPrice ← amount "max_price" l;
  orders ← int64 "max_open_orders" l;
  Some (MkMarketRules symbol base quote tick step minQty maxQty minNotional maxNotional minPrice maxPrice orders).

Definition unmarshal_ruleChange (j : Json) : option RuleChange :=
  l ← asObject j;
  instrument ← text "instrument_id" l; venue ← text "venue" l; symbol ← text "symbol" l;
  previous ← ifield unmarshal_rules "previous" l; current ← ifield unmarshal_rules "current" l;
  at_ ← stamp "detected_at" l;
  Some (MkRuleChange instrument venue symbol previous current at_).

Definition unmarshal_status (j : Json) : option EngineStatus :=
  l ← asObject j;
  online ← flag "online" l; ready ← flag "ready" l; version ← int64 "version" l;
  desired ← int64 "desired_version" l; err ← text "error" l; heartbeat ← stamp "last_heartbeat" l;
  progress ← stamp "last_trading_progress" l;
  performance ← ifield (asPointer unmarshal_performance) "performance" l;
  metrics ← ifield (asPointer unmarshal_metrics) "metrics" l;
  watchdog ← ifield (asPointer unmarshal_watchdog) "watchdog" l;
  changes ← ifield (asSlice unmarshal_ruleChange) "rule_changes" l;
  Some (MkEngineStatus online ready version desired err heartbeat progress performance metrics watchdog changes).

Definition unmarshal_pause (j : Json) : option PauseState :=
  l ← asObject j;
  instrument ← text "instrument_id" l; paused ← flag "paused" l; reason ← text "reason" l;
  by_ ← int64 "requested_by" l; at_ ← stamp "requested_at" l;
  Some (MkPauseState instrument paused reason by_ at_).

Definition unmarshal_reconcile (j : Json) : option ReconcileRequest :=
  l ← asObject j;
  instrument ← text "instrument_id" l; by_ ← int64 "requested_by" l; at_ ← stamp "requested_at" l;
  Some (MkReconcileRequest instrument by_ at_).

Definition unmarshal_book (j : Json) : option Book :=
  l ← asObject j;
  venue ← text "venue" l; symbol ← text "symbol" l; bid ← amount "bid_price" l; bidQty ← amount "bid_qty" l;
  ask ← amount "ask_price" l; askQty ← amount "ask_qty" l; at_ ← stamp "timestamp" l;
  Some (MkBook venue symbol bid bidQty ask askQty at_).

Definition unmarshal_price (j : Json) : option ReferencePrice :=
  l ← asObject j;
  instrument ← text "instrument_id" l; price ← amount "price" l; spot ← amount "spot" l;
  ready ← flag "twap_ready" l; confidence ← text "confidence" l; block ← uint64 "block_number" l;
  time ← stamp "block_time" l; valid ← stamp "valid_until" l;
  Some (MkReferencePrice instrument price spot ready confidence block time valid).

Definition unmarshal_order (j : Json) : option Order :=
  l ← asObject j;
  venue ← text "venue" l; id ← text "order_id" l; client ← text "client_id" l; symbol ← text "symbol" l;
  side ← text "side" l; price ← amount "price" l; quantity ← amount "quantity" l;
  executed ← amount "executed_qty" l; state ← text "state" l; at_ ← stamp "created_at" l;
  Some (MkOrder venue id client symbol side price quantity executed state at_).

Definition unmarshal_balance (j : Json) : option Balance :=
  l ← asObject j;
  asset ← text "asset" l; free ← amount "free" l; locked ← amount "locked" l;
  Some (MkBalance asset free locked).

Definition unmarshal_budget (j : Json) : option QuoteBudget :=
  l ← asObject j;
  reserve ← int64 "reserve_bps" l; target ← int64 "target_orders" l; eligible ← int64 "eligible_orders" l;
  base ← amount "base_budget" l; baseRequired ← amount "base_required" l; quote ← amount "quote_budget" l;
  quoteRequired ← amount "quote_required" l; baseLimited ← flag "base_limited" l;
  quoteLimited ← flag "quote_limited" l;
  Some (MkQuoteBudget reserve target eligible base baseRequired quote quoteRequired baseLimited quoteLimited).

Definition unmarshal_fill (j : Json) : option Fill :=
  l ← asObject j;
  venue ← text "venue" l; trade ← text "trade_id" l; order ← text "order_id" l; symbol ← text "symbol" l;
  side ← text "side" l; price ← amount "price" l; quantity ← amount "quantity" l;
  quote ← amount "quote_quantity" l; fee ← amount "fee" l; feeAsset ← text "fee_asset" l;
  maker ← flag "maker" l; aggregate ← flag "aggregate" l; simulated ← flag "simulated" l;
  at_ ← stamp "timestamp" l;
  Some (MkFill venue trade order symbol side price quantity quote fee feeAsset maker aggregate simulated at_).

Definition unmarshal_fault (j : Json) : option FaultData.Snapshot :=
  l ← asObject j;
  status ← text "status" l; stage ← text "stage" l; err ← text "error" l;
  failures ← int64 "consecutive_failures" l; successes ← int64 "consecutive_successes" l;
  since ← stamp "since" l; updated ← stamp "updated_at" l; healthy ← stamp "last_healthy_at" l;
  retained ← flag "orders_retained" l;
  Some (FaultData.MkSnapshot status stage err failures successes since updated healthy retained).

Definition unmarshal_trades (j : Json) : option TradesimData.Snapshot :=
  l ← asObject j;
  enabled ← flag "enabled" l; source ← text "source_venue" l; status ← text "status" l;
  last ← stamp "last_generated_at" l; next ← stamp "next_at" l;
  fills ← ifield (asSlice unmarshal_fill) "fills" l; err ← text "error" l;
  Some (TradesimData.MkSnapshot enabled source status last next fills err).

Definition unmarshal_venueSnapshot (j : Json) : option VenueSnapshot :=
  l ← asObject j;
  name ← text "name" l; type ← text "type" l; symbol ← text "symbol" l; trading ← flag "trading_enabled" l;
  market ← flag "market_connected" l; account ← flag "account_connected" l;
  book ← ifield (asPointer unmarshal_book) "book" l;
  base ← ifield (asPointer unmarshal_balance) "base_balance" l;
  quote ← ifield (asPointer unmarshal_balance) "quote_balance" l;
  budget ← ifield (asPointer unmarshal_budget) "budget" l;
  rules ← ifield (asPointer unmarshal_rules) "rules" l;
  fault ← ifield (asPointer unmarshal_fault) "fault" l;
  orders ← ifield (asSlice unmarshal_order) "open_orders" l; pending ← int64 "pending_orders" l;
  fills ← ifield (asSlice unmarshal_fill) "fills" l; err ← text "error" l;
  updated ← stamp "updated_at" l; bookMS ← int64 "book_duration_ms" l;
  ordersMS ← int64 "orders_duration_ms" l; fillsMS ← int64 "fills_duration_ms" l;
  omsMS ← int64 "oms_duration_ms" l;
  Some (MkVenueSnapshot name type symbol trading market account book base quote budget rules fault orders
    pending fills err updated bookMS ordersMS fillsMS omsMS).

Definition unmarshal_instrumentSnapshot (j : Json) : option InstrumentSnapshot :=
  l ← asObject j;
  id ← text "instrument_id" l; base ← text "base_symbol" l; quote ← text "quote_symbol" l;
  mode ← text "mode" l; status ← text "status" l; paused ← flag "paused" l;
  pause ← ifield (asPointer unmarshal_pause) "pause" l;
  reference ← ifield (asPointer unmarshal_price) "reference" l;
  inventory ← amount "inventory" l; available ← flag "inventory_available" l;
  target ← amount "target_inventory" l; deviation ← amount "max_base_deviation" l;
  venues ← ifield (asSlice unmarshal_venueSnapshot) "venues" l;
  trades ← ifield (asPointer unmarshal_trades) "trade_simulation" l; err ← text "error" l;
  updated ← stamp "updated_at" l; tick ← int64 "tick_duration_ms" l;
  referenceMS ← int64 "reference_duration_ms" l; balanceMS ← int64 "balance_duration_ms" l;
  Some (MkInstrumentSnapshot id base quote mode status paused pause reference inventory available target
    deviation venues trades err updated tick referenceMS balanceMS).

(** ** What is read back *)

Definition reread_rules (r : MarketRules) : MarketRules :=
  MkMarketRules (rules_Symbol r) (rules_BaseAsset r) (rules_QuoteAsset r) (reread (rules_PriceTick r))
    (reread (rules_QuantityStep r)) (reread (rules_MinQuantity r)) (reread (rules_MaxQuantity r))
    (reread (rules_MinNotional r)) (reread (rules_MaxNotional r)) (reread (rules_MinPrice r))
    (reread (rules_MaxPrice r)) (rules_MaxOpenOrders r).
Definition reread_ruleChange (c : RuleChange) : RuleChange :=
  MkRuleChange (rc_InstrumentID c) (rc_Venue c) (rc_Symbol c) (reread_rules (rc_Previous c))
    (reread_rules (rc_Current c)) (DetectedAt c).
Definition reread_status (s : EngineStatus) : EngineStatus :=
  MkEngineStatus (Online s) (Ready s) (es_Version s) (es_DesiredVersion s) (es_Error s) (LastHeartbeat s)
    (LastTradingProgress s) (Performance s) (Metrics s) (Watchdog s) (map reread_ruleChange (RuleChanges s)).
Definition reread_book (b : Book) : Book :=
  MkBook (book_Venue b) (book_Symbol b) (reread (BidPrice b)) (reread (BidQty b)) (reread (AskPrice b))
    (reread (AskQty b)) (book_Timestamp b).
Definition reread_price (p : ReferencePrice) : ReferencePrice :=
  MkReferencePrice (ref_InstrumentID p) (reread (ref_Price p)) (reread (ref_Spot p)) (ref_TWAPReady p)
    (ref_Confidence p) (ref_BlockNumber p) (ref_BlockTime p) (ref_ValidUntil p).
Definition reread_order (o : Order) : Order :=
  MkOrder (order_Venue o) (OrderID o) (ClientID o) (order_Symbol o) (order_Side o) (reread (order_Price o))
    (reread (order_Quantity o)) (reread (ExecutedQty o)) (order_State o) (CreatedAt o).
Definition reread_balance (b : Balance) : Balance :=
  MkBalance (bal_Asset b) (reread (bal_Free b)) (reread (bal_Locked b)).
Definition reread_budget (b : QuoteBudget) : QuoteBudget :=
  MkQuoteBudget (ReserveBPS b) (TargetOrders b) (EligibleOrders b) (reread (BaseBudget b))
    (reread (BaseRequired b)) (reread (BudgetQuote b)) (reread (QuoteRequired b)) (BaseLimited b) (QuoteLimited b).
Definition reread_fill (f : Fill) : Fill :=
  MkFill (fill_Venue f) (TradeID f) (fill_OrderID f) (fill_Symbol f) (fill_Side f) (reread (fill_Price f))
    (reread (fill_Quantity f)) (reread (QuoteQuantity f)) (reread (Fee f)) (FeeAsset f) (Maker f) (Aggregate f)
    (Simulated f) (fill_Timestamp f).
Definition reread_trades (s : TradesimData.Snapshot) : TradesimData.Snapshot :=
  TradesimData.MkSnapshot (snap_Enabled s) (snap_SourceVenue s) (snap_Status s) (snap_LastGeneratedAt s)
    (snap_NextAt s) (map reread_fill (snap_Fills s)) (TradesimData.snap_Error s).
Definition reread_venueSnapshot (v : VenueSnapshot) : VenueSnapshot :=
  MkVenueSnapshot (vs_Name v) (vs_Type v) (vs_Symbol v) (vs_TradingEnabled v) (MarketConnected v)
    (AccountConnected v) (reread_book <$> vs_Book v) (reread_balance <$> BaseBalance v)
    (reread_balance <$> QuoteBalance v) (reread_budget <$> vs_Budget v) (reread_rules <$> vs_Rules v)
    (vs_Fault v) (map reread_order (OpenOrders v)) (PendingOrders v) (map reread_fill (vs_Fills v)) (vs_Error v)
    (vs_UpdatedAt v) (BookDurationMS v) (OrdersDurationMS v) (FillsDurationMS v) (OMSDurationMS v).
Definition reread_snapshot (s : InstrumentSnapshot) : InstrumentSnapshot :=
  MkInstrumentSnapshot (is_InstrumentID s) (is_BaseSymbol s) (is_QuoteSymbol s) (is_Mode s) (is_Status s)
    (is_Paused s) (is_Pause s) (reread_price <$> is_Reference s) (reread (Inventory s)) (InventoryAvailable s)
    (reread (TargetInventory s)) (reread (is_MaxBaseDeviation s)) (map reread_venueSnapshot (is_Venues s))
    (reread_trades <$> is_TradeSimulation s) (is_Error s) (is_UpdatedAt s) (TickDurationMS s)
    (ReferenceDurationMS s) (BalanceDurationMS s).

(** ** Machine integers *)

Definition in_uint64 (n : Z) : Prop := 0 <= n < 2 ^ 64.

Definition machine_performance (p : CyclePerformance) : Prop :=
  Forall in_int64 [DurationMS p; perf_Instruments p; Succeeded p; perf_Failed p; ConcurrentLimit p].
Definition machine_metrics (m : MetricsSnapshot) : Prop :=
  Forall in_uint64 [CyclesTotal m; CycleFailuresTotal m; InstrumentRunsTotal m; InstrumentFailuresTotal m;
    VenueFaultEventsTotal m; OMSPlacedTotal m; OMSCanceledTotal m; SimulatedTradesTotal m;
    AuditFlushErrorsTotal m; RuleChangesTotal m; LeaseFenceRejectsTotal m] /\ in_int64 (AuditPendingEvents m).
Definition machine_ruleChange (c : RuleChange) : Prop :=
  in_int64 (rules_MaxOpenOrders (rc_Previous c)) /\ in_int64 (rules_MaxOpenOrders (rc_Current c)).
Definition machine_venue (v : VenueSnapshot) : Prop :=
  Forall in_int64 [PendingOrders v; BookDurationMS v; OrdersDurationMS v; FillsDurationMS v; OMSDurationMS v]
  /\ (forall b, vs_Budget v = Some b -> Forall in_int64 [ReserveBPS b; TargetOrders b; EligibleOrders b])
  /\ (forall r, vs_Rules v = Some r -> in_int64 (rules_MaxOpenOrders r))
  /\ forall f, vs_Fault v = Some f -> Forall in_int64 [ConsecutiveFailures f; ConsecutiveSuccesses f].
Definition machine_snapshot (s : InstrumentSnapshot) : Prop :=
  Forall in_int64 [TickDurationMS s; ReferenceDurationMS s; BalanceDurationMS s]
  /\ (forall p, is_Pause s = Some p -> in_int64 (RequestedBy p))
  /\ (forall r, is_Reference s = Some r -> in_uint64 (ref_BlockNumber r))
  /\ Forall machine_venue (is_Venues s).

(** ** Round trips *)

Lemma decode_time t : unmarshal_time (JTime t) = Some t.
Proof. done. Qed.

Lemma decode_uint n : in_uint64 n -> unmarshal_uint64 (marshal n) = Some n.
Proof.
  intros [Hl Hu]. unfold unmarshal_uint64, marshal, marshal_Z.
  by rewrite (proj2 (Z.leb_le _ _) Hl), (proj2 (Z.ltb_lt _ _) Hu).
Qed.

Ltac fields_of H := rewrite ?Forall_cons in H; destruct_and? H.
Ltac status_fields :=
  unfold stamp, uint64; json_fields; rewrite ?decode_time; repeat rewrite decode_uint by done.

Lemma decode_performance p : machine_performance p -> unmarshal_performance (marshal p) = Some p.
Proof.
  intros Hp. unfold machine_performance in Hp. fields_of Hp.
  unfold unmarshal_performance, marshal at 1, marshal_performance. status_fields. by destruct p.
Qed.

Lemma decode_metrics m : machine_metrics m -> unmarshal_metrics (marshal m) = Some m.
Proof.
  intros [Hm Hp]. fields_of Hm.
  unfold unmarshal_metrics, marshal at 1, marshal_metrics. status_fields. by destruct m.
Qed.

Lemma decode_watchdog w : unmarshal_watchdog (marshal w) = Some w.
Proof. unfold unmarshal_watchdog, marshal at 1, marshal_watchdog. status_fields. by destruct w. Qed.

Lemma decode_rules r : in_int64 (rules_MaxOpenOrders r) -> unmarshal_rules (marshal r) = Some (reread_rules r).
Proof. intros Hr. unfold unmarshal_rules, marshal at 1, marshal_rules. by status_fields. Qed.

Lemma decode_ruleChange c : machine_ruleChange c -> unmarshal_ruleChange (marshal c) = Some (reread_ruleChange c).
Proof.
  intros [Hp Hc]. unfold unmarshal_ruleChange, marshal at 1, marshal_ruleChange. status_fields.
  by rewrite !decode_rules by done.
Qed.

Lemma decode_pause p : in_int64 (RequestedBy p) -> unmarshal_pause (marshal p) = Some p.
Proof. intros Hp. unfold unmarshal_pause, marshal at 1, marshal_pause. status_fields. by destruct p. Qed.

Lemma decode_reconcile q : in_int64 (rr_RequestedBy q) -> unmarshal_reconcile (marshal q) = Some q.
Proof. intros Hq. unfold unmarshal_reconcile, marshal at 1, marshal_reconcile. status_fields. by destruct q. Qed.

Lemma decode_book b : unmarshal_book (marshal b) = Some (reread_book b).
Proof. unfold unmarshal_book, marshal at 1, marshal_book. by status_fields. Qed.

Lemma decode_price p : in_uint64 (ref_BlockNumber p) -> unmarshal_price (marshal p) = Some (reread_price p).
Proof. intros Hp. unfold unmarshal_price, marshal at 1, marshal_referencePrice. by status_fields. Qed.

Lemma decode_order o : unmarshal_order (marshal o) = Some (reread_order o).
Proof. unfold unmarshal_order, marshal at 1, marshal_order. by status_fields. Qed.

Lemma decode_balance b : unmarshal_balance (marshal b) = Some (reread_balance b).
Proof. unfold unmarshal_balance, marshal at 1, marshal_balance. by status_fields. Qed.

Lemma decode_budget b : Forall in_int64 [ReserveBPS b; TargetOrders b; EligibleOrders b] ->
  unmarshal_budget (marshal b) = Some (reread_budget b).
Proof. intros Hb. fields_of Hb. unfold unmarshal_budget, marshal at 1, marshal_budget. by status_fields. Qed.

Lemma decode_fill f : unmarshal_fill (marshal f) = Some (reread_fill f).
Proof. unfold unmarshal_fill, marshal at 1, marshal_fill. by status_fields. Qed.

Lemma decode_fault f : Forall in_int64 [ConsecutiveFailures f; ConsecutiveSuccesses f] ->
  unmarshal_fault (marshal f) = Some f.
Proof.
  intros Hf. fields_of Hf. unfold unmarshal_fault, marshal at 1, marshal_snapshot. status_fields. by destruct f.
Qed.

Lemma decode_all {A B} `{Marshal B} (dec : Json -> option A) (f : B -> A) (l : list B) :
  (forall b, dec (marshal b) = Some (f b)) -> asSlice dec (marshal l) = Some (map f l).
Proof. intros Hl. apply asSlice_marshal, Forall_true. auto. Qed.

Lemma decode_trades s : unmarshal_trades (marshal s) = Some (reread_trades s).
Proof.
  unfold unmarshal_trades, marshal at 1, marshal_trades. status_fields.
  by rewrite (decode_all _ reread_fill _ decode_fill).
Qed.

(** Pointers to what round trips. *)
Ltac pointers := repeat first
  [ rewrite (pointer_marshal unmarshal_book reread_book) by (intros; split; [done|apply decode_book])
  | rewrite (pointer_marshal unmarshal_balance reread_balance) by (intros; split; [done|apply decode_balance])
  | rewrite (pointer_marshal unmarshal_budget reread_budget) by (intros; split; [done|apply decode_budget; auto])
  | rewrite (pointer_marshal unmarshal_rules reread_rules) by (intros; split; [done|apply decode_rules; auto])
  | rewrite (pointer_marshal unmarshal_fault id) by (intros; split; [done|apply decode_fault; auto])
  | rewrite (pointer_marshal unmarshal_pause id) by (intros; split; [done|apply decode_pause; auto])
  | rewrite (pointer_marshal unmarshal_price reread_price) by (intros; split; [done|apply decode_price; auto])
  | rewrite (pointer_marshal unmarshal_trades reread_trades) by (intros; split; [done|apply decode_trades])
  | rewrite (pointer_marshal unmarshal_performance id) by (intros; split; [done|apply decode_performance; auto])
  | rewrite (pointer_marshal unmarshal_metrics id) by (intros; split; [done|apply decode_metrics; auto])
  | rewrite (pointer_marshal unmarshal_watchdog id) by (intros; split; [done|apply decode_watchdog])
  | progress cbn [mbind option_bind] ].

Lemma decode_venueSnapshot v : machine_venue v -> unmarshal_venueSnapshot (marshal v) = Some (reread_venueSnapshot v).
Proof.
  intros (Hv & Hb & Hr & Hf). fields_of Hv.
  unfold unmarshal_venueSnapshot, marshal at 1, marshal_venueSnapshot. status_fields. pointers.
  rewrite (decode_all _ reread_order _ decode_order). cbn [mbind option_bind].
  rewrite (decode_all _ reread_fill _ decode_fill). cbn [mbind option_bind].
  by rewrite option_fmap_id.
Qed.

Lemma decode_snapshot s : machine_snapshot s -> unmarshal_instrumentSnapshot (marshal s) = Some (reread_snapshot s).
Proof.
  intros (Hs & Hp & Hr & Hv). fields_of Hs.
  unfold unmarshal_instrumentSnapshot, marshal at 1, marshal_instrumentSnapshot. status_fields. pointers.
  rewrite (asSlice_marshal _ reread_venueSnapshot) by (eapply Forall_impl; [exact Hv|apply decode_venueSnapshot]).
  pointers. by rewrite option_fmap_id.
Qed.

Lemma decode_status s : in_int64 (es_Version s) -> in_int64 (es_DesiredVersion s) ->
  (forall p, Performance s = Some p -> machine_performance p) ->
  (forall m, Metrics s = Some m -> machine_metrics m) -> Forall machine_ruleChange (RuleChanges s) ->
  unmarshal_status (marshal s) = Some (reread_status s).
Proof.
  intros Hv Hd Hp Hm Hc. unfold unmarshal_status, marshal at 1, marshal_status. status_fields. pointers.
  rewrite (asSlice_marshal _ reread_ruleChange) by (eapply Forall_impl; [exact Hc|apply decode_ruleChange]).
  cbn [mbind option_bind]. by rewrite !option_fmap_id.
Qed.
