(* ===== verification/RuntimeStore.v ===== *)
(** The state that engine, watchdog and administration share in Redis: every method of
    src/internal/runtimeops/store.go but the leases (Lease.v).

    A method is a program ([proc], Shared.v) of single Redis commands.  [answer] is what
    Redis documents of a command: it is carried out at one moment or not at all, its answer
    may be lost, keys vanish when their time to live has passed.  The commands of any
    number of clients interleave ([rstep]). *)
From S2P Require Import Prelude Decimal Domain Json World Runtimeops Wire AuditEvents ConfigJson StatusJson Shared.

Open Scope string_scope.
Open Scope list_scope.
Open Scope Z_scope.

(** ** The server *)

Inductive value :=
  | Text (j : Json)
  | Hash (m : gmap string Json)
  | Queue (l : list Json).

Inductive command :=
  | GET (k : string)
  | SET (k : string) (j : Json) (ttl : Duration)
  | DEL (k : string)
  | HSET (k f : string) (j : Json)
  | HDEL (k f : string)
  | HGETALL (k : string)
  | PUSH (k : string) (j : Json) (stop : Z) (ttl : Duration)  (* LPUSH, LTRIM 0 stop, EXPIRE in one transaction *)
  | LRANGE (k : string) (start stop : Z)
  | XADD (k : string) (maxLen : Z) (j : Json)
  | CLOCK.

Definition result (o : command) : Type :=
  match o with
  | GET _ => reply (option Json)
  | HGETALL _ => reply (gmap string Json)
  | LRANGE _ _ _ => reply (list Json)
  | CLOCK => Time
  | _ => option error
  end.

(** The keys with their values and deadlines, the server's time, and what has been carried
    out, newest first. *)
Record redis := MkRedis {
  entries : gmap string (value * option Time);
  clock : Time;
  carried : list (Time * command)
}.

Definition empty_redis : redis := MkRedis ∅ 0 [].

Definition live (k : string) (now : Time) (s : redis) : option value :=
  match entries s !! k with
  | Some (v, Some deadline) => if now <? deadline then Some v else None
  | Some (v, None) => Some v
  | None => None
  end.

Definition deadline_of (k : string) (now : Time) (s : redis) : option Time :=
  match live k now s with Some _ => entries s !! k ≫= snd | None => None end.

Definition put (k : string) (v : value) (deadline : option Time) (o : command) (now : Time) (s : redis) : redis :=
  MkRedis (<[k := (v, deadline)]> (entries s)) now ((now, o) :: carried s).
Definition remove (k : string) (o : command) (now : Time) (s : redis) : redis :=
  MkRedis (delete k (entries s)) now ((now, o) :: carried s).
Definition tick (now : Time) (s : redis) : redis := MkRedis (entries s) now (carried s).

Definition WRONGTYPE : error := Errorf "WRONGTYPE Operation against a key holding the wrong kind of value".
Definition unanswered : error := Errorf "redis did not answer".

(** Indices below zero count from the end. *)
Definition lrange {A} (start stop : Z) (l : list A) : list A :=
  let index i := if i <? 0 then i + Z.of_nat (length l) else i in
  take (Z.to_nat (index stop + 1 - Z.max 0 (index start))) (drop (Z.to_nat (index start)) l).

Definition perform (now : Time) (draw : Z) (o : command) (s : redis) : redis * result o :=
  match o return redis * result o with
  | GET k => (tick now s, match live k now s with
                          | Some (Text j) => inl (Some j) | None => inl None | _ => inr WRONGTYPE end)
  | SET k j ttl => (put k (Text j) (if 0 <? ttl then Some (now + ttl) else None) (SET k j ttl) now s, None)
  | DEL k => (remove k (DEL k) now s, None)
  | HSET k f j =>
      match live k now s with
      | Some (Hash m) => (put k (Hash (<[f := j]> m)) (deadline_of k now s) (HSET k f j) now s, None)
      | None => (put k (Hash {[f := j]}) None (HSET k f j) now s, None)
      | _ => (tick now s, Some WRONGTYPE)
      end
  | HDEL k f =>
      match live k now s with
      | Some (Hash m) =>
          if bool_decide (delete f m = ∅) then (remove k (HDEL k f) now s, None)
          else (put k (Hash (delete f m)) (deadline_of k now s) (HDEL k f) now s, None)
      | None => (tick now s, None)
      | _ => (tick now s, Some WRONGTYPE)
      end
  | HGETALL k => (tick now s, match live k now s with
                              | Some (Hash m) => inl m | None => inl ∅ | _ => inr WRONGTYPE end)
  | PUSH k j stop ttl =>
      match live k now s with
      | Some (Queue l) => (put k (Queue (lrange 0 stop (j :: l))) (Some (now + ttl)) (PUSH k j stop ttl) now s, None)
      | None => (put k (Queue (lrange 0 stop [j])) (Some (now + ttl)) (PUSH k j stop ttl) now s, None)
      | _ => (tick now s, Some WRONGTYPE)
      end
  | LRANGE k start stop => (tick now s, match live k now s with
                                        | Some (Queue l) => inl (lrange start stop l)
                                        | None => inl [] | _ => inr WRONGTYPE end)
  | XADD k maxLen j =>
      let kept := Z.to_nat (Z.max maxLen draw) in  (* trimming is approximate *)
      match live k now s with
      | Some (Queue l) => (put k (Queue (take kept (j :: l))) (deadline_of k now s) (XADD k maxLen j) now s, None)
      | None => (put k (Queue [j]) None (XADD k maxLen j) now s, None)
      | _ => (tick now s, Some WRONGTYPE)
      end
  | CLOCK => (s, draw)
  end.

Definition failed (o : command) : result o :=
  match o return result o with
  | GET _ | HGETALL _ | LRANGE _ _ _ => inr unanswered
  | CLOCK => zero_time
  | _ => Some unanswered
  end.

(** What may become of a command: [now] is the time of the server, [draw] the time of the
    client's clock or how much of a stream is kept. *)
Definition answer (f : fate) (now : Time) (draw : Z) (o : command) (s : redis) : option (redis * result o) :=
  if now <? clock s then None else
  match o return option (redis * result o) with
  | CLOCK => Some (perform now draw CLOCK s)
  | o => match f with
         | Fine => Some (perform now draw o s)
         | Lost => Some (fst (perform now draw o s), failed o)
         | Broken => Some (s, failed o)
         end
  end.

Abbreviation calls := (proc result).

Class Cache := {
  replied : forall o, redis -> redis -> result o -> Prop;
  replied_documented : forall o s s' a, replied o s s' a ->
    exists f now draw, answer f now draw o s = Some (s', a)
}.

(** The server that may do all of this. *)
#[export, refine] Instance any_cache : Cache := {|
  replied o s s' a := exists f now draw, answer f now draw o s = Some (s', a)
|}.
Proof. done. Defined.

(** ** The store *)

Definition snapshotPrefix : string := "fluxmaker:runtime:instrument:".
Definition heartbeatKey : string := "fluxmaker:runtime:engine".
Definition appliedVersionKey : string := "fluxmaker:runtime:applied-version".
Definition pausedKey : string := "fluxmaker:control:paused".
Definition reconcileKey : string := "fluxmaker:control:reconcile".
Definition tradingProgressKey : string := "fluxmaker:runtime:trading-progress".
Definition cyclePerformanceKey : string := "fluxmaker:runtime:cycle-performance".
Definition metricsKey : string := "fluxmaker:runtime:metrics".
Definition watchdogKey : string := "fluxmaker:runtime:watchdog".
Definition ruleChangesKey : string := "fluxmaker:runtime:rule-changes".
Definition omsStatePrefix : string := "fluxmaker:oms:state:".
Definition faultStatePrefix : string := "fluxmaker:fault:state:".
Definition simulationPrefix : string := "fluxmaker:simulation:fills:".
Definition snapshotTTL : Duration := 45 * Second.
Definition heartbeatTTL : Duration := 15 * Second.
Definition Minute : Duration := 60 * Second.
Definition Hour : Duration := 3600 * Second.

(** Whether there is a client, and when progress was last reported. *)
Record Store := MkStore { connected : bool; lastProgress : Time }.
Definition New (redisClient : bool) : Store := MkStore redisClient zero_time.

Definition redis_Nil : error := Errorf "redis: nil".

Section Store.
Context (s : Store).

(** [if s == nil || s.redis == nil { return a }] *)
Definition unless_nil {A} (a : A) (p : calls A) : calls A := if connected s then p else Return a.
(** Methods without that check. *)
Definition dereference {A} (p : calls (go A)) : calls (go A) :=
  if connected s then p else Return (Panic "invalid memory address or nil pointer dereference").

(** A payload as it is, nothing when the key is missing. *)
Definition loadBytes (key : string) : calls (reply (option Json)) := unless_nil (inl None) (ask (GET key)).

Definition LoadOMSState (key : string) : calls (reply (option Json)) := loadBytes (omsStatePrefix +:+ key).
Definition SaveOMSState (key : string) (payload : Json) : calls (option error) :=
  unless_nil None (ask (SET (omsStatePrefix +:+ key) payload (7 * 24 * Hour))).
Definition DeleteOMSState (key : string) : calls (option error) :=
  unless_nil None (ask (DEL (omsStatePrefix +:+ key))).
Definition LoadFaultState (key : string) : calls (reply (option Json)) := loadBytes (faultStatePrefix +:+ key).
Definition SaveFaultState (key : string) (payload : Json) : calls (option error) :=
  unless_nil None (ask (SET (faultStatePrefix +:+ key) payload 0)).
Definition DeleteFaultState (key : string) : calls (option error) :=
  unless_nil None (ask (DEL (faultStatePrefix +:+ key))).

Definition Publish (snapshot : InstrumentSnapshot) : calls (option error) :=
  unless_nil None (ask (SET (snapshotPrefix +:+ is_InstrumentID snapshot) (marshal snapshot) snapshotTTL)).

Definition AppendSimulatedFill (instrumentID : string) (fill : Fill) : calls (option error) :=
  unless_nil None (ask (XADD (simulationPrefix +:+ instrumentID) 1000 (marshal fill))).

(** A key with a payload, or what a missing, failing or undecodable one gives. *)
Definition read {A} (key : string) (dec : Json -> option A) (d : A) : calls A :=
  unless_nil d (found ← ask (GET key);
    Return (match found with inl (Some j) => default d (dec j) | _ => d end)).

Definition Get (instrumentID : string) : calls (reply InstrumentSnapshot) :=
  unless_nil (inr redis_Nil) (found ← ask (GET (snapshotPrefix +:+ instrumentID));
    Return (match found with
            | inr err => inr err
            | inl None => inr redis_Nil
            | inl (Some j) => match unmarshal_instrumentSnapshot j with
                              | Some snapshot => inl snapshot | None => inr (Errorf "json: cannot unmarshal") end
            end)).

Definition Heartbeat (version desiredVersion : Z) (ready : bool) (errorText : string) : calls (option error) :=
  unless_nil None (now ← (ask CLOCK : calls Time);
    ask (SET heartbeatKey (marshal (MkEngineStatus true ready version desiredVersion errorText now zero_time
      None None None [])) heartbeatTTL)).

Definition TradingProgress : calls Time := read tradingProgressKey unmarshal_time zero_time.

(** At most once in a second; the store remembers the report before it is written. *)
Definition ReportTradingProgress : calls (option error * Store) :=
  unless_nil (None, s) (now ← (ask CLOCK : calls Time);
    if negb (IsZero (lastProgress s)) && (TimeSub now (lastProgress s) <? Second) then Return (None, s) else
    err ← (ask (SET tradingProgressKey (JTime now) 0) : calls (option error));
    Return (err, MkStore (connected s) now)).

Definition ReportCyclePerformance (performance : CyclePerformance) : calls (option error) :=
  unless_nil None (ask (SET cyclePerformanceKey (marshal performance) (5 * Minute))).
Definition CyclePerformance_ : calls (option CyclePerformance) :=
  read cyclePerformanceKey (fun j => Some <$> unmarshal_performance j) None.
Definition ReportMetrics (metrics : MetricsSnapshot) : calls (option error) :=
  unless_nil None (ask (SET metricsKey (marshal metrics) (5 * Minute))).
Definition Metrics_ : calls (option MetricsSnapshot) := read metricsKey (fun j => Some <$> unmarshal_metrics j) None.
Definition WatchdogStatus_ : calls (option WatchdogStatus) :=
  read watchdogKey (fun j => Some <$> unmarshal_watchdog j) None.

(** The last reason and trigger stay until they are replaced. *)
Definition nextStatus (healthy actionTriggered : bool) (reason cancelError : string) (now : Time)
    (previous : option WatchdogStatus) : WatchdogStatus :=
  let old := default (MkWatchdogStatus healthy now zero_time "" "") previous in
  MkWatchdogStatus healthy now (if actionTriggered then now else LastTriggeredAt old)
    (if healthy then ws_Reason old else reason) (if healthy then CancelError old else cancelError).

Definition ReportWatchdog (healthy actionTriggered : bool) (reason cancelError : string) : calls (option error) :=
  unless_nil None (now ← (ask CLOCK : calls Time); previous ← WatchdogStatus_;
    ask (SET watchdogKey (marshal (nextStatus healthy actionTriggered reason cancelError now previous)) (5 * Minute))).

Definition ReportRuleChange (change : RuleChange) : calls (option error) :=
  unless_nil None (ask (PUSH ruleChangesKey (marshal change) 99 (24 * Hour))).

Definition RuleChanges_ (limit : Z) : calls (list RuleChange) :=
  unless_nil [] (let limit := if (limit <=? 0) || (100 <? limit) then 50 else limit in
    found ← (ask (LRANGE ruleChangesKey 0 (limit - 1)) : calls (reply (list Json)));
    Return (match found with inl values => omap unmarshal_ruleChange values | inr _ => [] end)).

Definition EngineStatus_ : calls EngineStatus :=
  unless_nil zero_status (found ← ask (GET heartbeatKey);
    match found with
    | inl (Some j) =>
        match unmarshal_status j with
        | Some status =>
            now ← (ask CLOCK : calls Time);
            progress ← TradingProgress; performance ← CyclePerformance_; metrics ← Metrics_;
            watchdog ← WatchdogStatus_; changes ← RuleChanges_ 50;
            Return (MkEngineStatus (TimeSub now (LastHeartbeat status) <? heartbeatTTL) (Ready status)
              (es_Version status) (es_DesiredVersion status) (es_Error status) (LastHeartbeat status)
              progress performance metrics watchdog changes)
        | None => Return zero_status
        end
    | _ => Return zero_status
    end).

Definition SetAppliedVersion (version : Z) : calls (option error) :=
  if version <=? 0 then Return None else unless_nil None (ask (SET appliedVersionKey (JNum version) 0)).
Definition AppliedVersion : calls Z := read appliedVersionKey unmarshal_int64 0.

(** ** Controls *)

Definition SetPaused (instrumentID reason : string) (userID : Z) : calls (go PauseState) :=
  if String.eqb instrumentID "" then Return (Err (Errorf "instrument id is required")) else
  now ← (ask CLOCK : calls Time);
  let state := MkPauseState instrumentID true reason userID now in
  dereference (err ← (ask (HSET pausedKey instrumentID (marshal state)) : calls (option error));
    Return (match err with Some e => Err e | None => Ret state end)).

Definition Resume (instrumentID : string) : calls (go (option error)) :=
  dereference (err ← (ask (HDEL pausedKey instrumentID) : calls (option error)); Return (Ret err)).

Definition RequestReconcile (instrumentID : string) (userID : Z) : calls (go (ReconcileRequest * option error)) :=
  now ← (ask CLOCK : calls Time);
  let request := MkReconcileRequest instrumentID userID now in
  dereference (err ← (ask (HSET reconcileKey instrumentID (marshal request)) : calls (option error));
    Return (Ret (request, err))).

Definition ClearReconcile (instrumentID : string) : calls (go (option error)) :=
  dereference (err ← (ask (HDEL reconcileKey instrumentID) : calls (option error)); Return (Ret err)).

(** Entries that cannot be decoded are left out. *)
Definition decoded {A} (dec : Json -> option A) (m : gmap string Json) : gmap string A := omap dec m.

Definition Reconciles : calls (go (gmap string ReconcileRequest)) :=
  dereference (found ← (ask (HGETALL reconcileKey) : calls (reply (gmap string Json)));
    Return (match found with inl m => Ret (decoded unmarshal_reconcile m) | inr err => Err err end)).

Definition Paused : calls (reply (gmap string PauseState)) :=
  unless_nil (inl ∅) (found ← (ask (HGETALL pausedKey) : calls (reply (gmap string Json)));
    Return (match found with inl m => inl (decoded unmarshal_pause m) | inr err => inr err end)).
End Store.
