(* ===== verification/RuntimeSafety.v ===== *)
(** What the clients of the runtime store can rely on, however their calls interleave and
    whichever calls fail (src/internal/runtimeops/store.go).

    [issued] lists the commands of the methods; [entry_typed] says what a key may hold.
    Every state that clients reach is well typed ([reachable_typed]). *)
From S2P Require Import Prelude Decimal Domain Json World Runtimeops Wire AuditEvents ConfigJson StatusJson Shared RuntimeStore.

Open Scope string_scope.
Open Scope list_scope.
Open Scope Z_scope.

(** ** Clients *)

Inductive call :=
  | CallLoadOMSState (key : string) | CallSaveOMSState (key : string) (payload : Json) | CallDeleteOMSState (key : string)
  | CallLoadFaultState (key : string) | CallSaveFaultState (key : string) (payload : Json) | CallDeleteFaultState (key : string)
  | CallPublish (snapshot : InstrumentSnapshot) | CallAppendSimulatedFill (instrumentID : string) (fill : Fill)
  | CallGet (instrumentID : string)
  | CallHeartbeat (version desiredVersion : Z) (ready : bool) (errorText : string) | CallEngineStatus
  | CallReportTradingProgress | CallTradingProgress
  | CallReportCyclePerformance (performance : CyclePerformance) | CallReportMetrics (metrics : MetricsSnapshot)
  | CallReportWatchdog (healthy actionTriggered : bool) (reason cancelError : string)
  | CallReportRuleChange (change : RuleChange) | CallRuleChanges (limit : Z)
  | CallSetAppliedVersion (version : Z) | CallAppliedVersion
  | CallSetPaused (instrumentID reason : string) (userID : Z) | CallResume (instrumentID : string)
  | CallRequestReconcile (instrumentID : string) (userID : Z) | CallClearReconcile (instrumentID : string)
  | CallReconciles | CallPaused.

Definition keeping {A} (s : Store) (p : calls A) : calls Store := _ ← p; Return s.

(** A call of a process with its store, which the reports of progress change. *)
Definition make (c : call) (s : Store) : calls Store :=
  match c with
  | CallLoadOMSState key => keeping s (LoadOMSState s key)
  | CallSaveOMSState key payload => keeping s (SaveOMSState s key payload)
  | CallDeleteOMSState key => keeping s (DeleteOMSState s key)
  | CallLoadFaultState key => keeping s (LoadFaultState s key)
  | CallSaveFaultState key payload => keeping s (SaveFaultState s key payload)
  | CallDeleteFaultState key => keeping s (DeleteFaultState s key)
  | CallPublish snapshot => keeping s (Publish s snapshot)
  | CallAppendSimulatedFill id fill => keeping s (AppendSimulatedFill s id fill)
  | CallGet id => keeping s (Get s id)
  | CallHeartbeat version desired ready text => keeping s (Heartbeat s version desired ready text)
  | CallEngineStatus => keeping s (EngineStatus_ s)
  | CallReportTradingProgress => r ← ReportTradingProgress s; Return (snd r)
  | CallTradingProgress => keeping s (TradingProgress s)
  | CallReportCyclePerformance p => keeping s (ReportCyclePerformance s p)
  | CallReportMetrics m => keeping s (ReportMetrics s m)
  | CallReportWatchdog healthy triggered reason err => keeping s (ReportWatchdog s healthy triggered reason err)
  | CallReportRuleChange change => keeping s (ReportRuleChange s change)
  | CallRuleChanges limit => keeping s (RuleChanges_ s limit)
  | CallSetAppliedVersion version => keeping s (SetAppliedVersion s version)
  | CallAppliedVersion => keeping s (AppliedVersion s)
  | CallSetPaused id reason user => keeping s (SetPaused s id reason user)
  | CallResume id => keeping s (Resume s id)
  | CallRequestReconcile id user => keeping s (RequestReconcile s id user)
  | CallClearReconcile id => keeping s (ClearReconcile s id)
  | CallReconciles => keeping s (Reconciles s)
  | CallPaused => keeping s (Paused s)
  end.

(** A process that makes one call after the other. *)
Fixpoint session (l : list call) (s : Store) : calls unit :=
  match l with [] => Return tt | c :: l' => s' ← make c s; session l' s' end.

(** The integers of the arguments are machine integers. *)
Definition fits (c : call) : Prop :=
  match c with
  | CallPublish snapshot => machine_snapshot snapshot
  | CallHeartbeat version desired _ _ => in_int64 version /\ in_int64 desired
  | CallReportCyclePerformance p => machine_performance p
  | CallReportMetrics m => machine_metrics m
  | CallReportRuleChange change => machine_ruleChange change
  | CallSetAppliedVersion version => in_int64 version
  | CallSetPaused _ _ user | CallRequestReconcile _ user => in_int64 user
  | _ => True
  end.

(** ** Steps *)

Section Steps.
Context `{Cache}.

Inductive rstep : gmap nat (calls unit) * redis -> gmap nat (calls unit) * redis -> Prop :=
  | rstep_client c o k (ts : gmap nat (calls unit)) s s' a : ts !! c = Some (Ask o k) -> replied o s s' a ->
      rstep (ts, s) (<[c := k a]> ts, s').

(** One call from its first command to its return, the commands of the others in between. *)
Fixpoint rruns {A} (x : gmap nat (calls unit) * redis) (p : calls A) (y : gmap nat (calls unit) * redis) (a : A) : Prop :=
  match p with
  | Return b => rtc rstep x y /\ b = a
  | Ask o k => exists ts s s' b, rtc rstep x (ts, s) /\ replied o s s' b /\ rruns (ts, s') (k b) y a
  end.

(** Processes of the system. *)
Definition processes (ts : gmap nat (calls unit)) : Prop :=
  forall c p, ts !! c = Some p -> exists l s, Forall fits l /\ p = session l s.
End Steps.

(** ** The commands of a program *)

Fixpoint commands {A} (P : command -> Prop) (p : calls A) : Prop :=
  match p with Return _ => True | Ask o k => P o /\ forall a, commands P (k a) end.

Lemma commands_bind {A B} P (p : calls A) (k : A -> calls B) :
  commands P p -> (forall a, commands P (k a)) -> commands P (p ≫= k).
Proof. intros Hp Hk. induction p as [a|o k' IH]; [by apply Hk|]. destruct Hp as [Ho Hp]. split; [done|]. intros a. by apply IH. Qed.

Lemma commands_mono {A} (P Q : command -> Prop) (p : calls A) : (forall o, P o -> Q o) -> commands P p -> commands Q p.
Proof. intros HPQ. induction p as [a|o k IH]; [done|]. intros [Ho Hk]. split; [by apply HPQ|]. intros a. by apply IH. Qed.

Lemma commands_and {A} (P Q : command -> Prop) (p : calls A) :
  commands P p -> commands Q p -> commands (fun o => P o /\ Q o) p.
Proof. induction p as [a|o k IH]; [done|]. intros [? ?] [? ?]. split; [done|]. intros a. by apply IH. Qed.

(** Keys that hold one payload. *)
Inductive text_key : string -> Prop :=
  | key_oms key : text_key (omsStatePrefix +:+ key)
  | key_fault key : text_key (faultStatePrefix +:+ key)
  | key_snapshot id : text_key (snapshotPrefix +:+ id)
  | key_heartbeat : text_key heartbeatKey
  | key_progress : text_key tradingProgressKey
  | key_performance : text_key cyclePerformanceKey
  | key_metrics : text_key metricsKey
  | key_watchdog : text_key watchdogKey
  | key_version : text_key appliedVersionKey.

(** What the methods issue. *)
Inductive issued : command -> Prop :=
  | issued_get k : text_key k -> issued (GET k)
  | issued_hgetall k : k = pausedKey \/ k = reconcileKey -> issued (HGETALL k)
  | issued_lrange stop : issued (LRANGE ruleChangesKey 0 stop)
  | issued_clock : issued CLOCK
  | issued_oms key j : issued (SET (omsStatePrefix +:+ key) j (7 * 24 * Hour))
  | issued_del_oms key : issued (DEL (omsStatePrefix +:+ key))
  | issued_fault key j : issued (SET (faultStatePrefix +:+ key) j 0)
  | issued_del_fault key : issued (DEL (faultStatePrefix +:+ key))
  | issued_snapshot snap : machine_snapshot snap ->
      issued (SET (snapshotPrefix +:+ is_InstrumentID snap) (marshal snap) snapshotTTL)
  | issued_fill id (fill : Fill) : issued (XADD (simulationPrefix +:+ id) 1000 (marshal fill))
  | issued_heartbeat version desired ready err at_ : in_int64 version -> in_int64 desired ->
      issued (SET heartbeatKey (marshal (MkEngineStatus true ready version desired err at_ zero_time None None None [])) heartbeatTTL)
  | issued_progress t : issued (SET tradingProgressKey (JTime t) 0)
  | issued_performance p : machine_performance p -> issued (SET cyclePerformanceKey (marshal p) (5 * Minute))
  | issued_metrics m : machine_metrics m -> issued (SET metricsKey (marshal m) (5 * Minute))
  | issued_watchdog w : issued (SET watchdogKey (marshal (w : WatchdogStatus)) (5 * Minute))
  | issued_change c : machine_ruleChange c -> issued (PUSH ruleChangesKey (marshal c) 99 (24 * Hour))
  | issued_version n : in_int64 n -> issued (SET appliedVersionKey (JNum n) 0)
  | issued_pause st : in_int64 (RequestedBy st) -> ps_Paused st = true ->
      issued (HSET pausedKey (ps_InstrumentID st) (marshal st))
  | issued_resume id : issued (HDEL pausedKey id)
  | issued_reconcile q : in_int64 (rr_RequestedBy q) -> issued (HSET reconcileKey (rr_InstrumentID q) (marshal q))
  | issued_clear id : issued (HDEL reconcileKey id).
Create HintDb issued.
#[local] Hint Constructors issued text_key : issued.

Ltac commands_of :=
  repeat first
    [ progress (intros; simpl)
    | match goal with
      | |- commands _ (if ?b then _ else _) => destruct b
      | |- commands _ (match ?x with _ => _ end) => destruct x
      | |- _ /\ _ => split
      | |- True => exact I
      end ];
  auto with issued.

Lemma issued_make c s : fits c -> commands issued (make c s).
Proof.
  intros Hc. destruct c; unfold make, keeping; (apply commands_bind; [|done]);
    unfold LoadOMSState, SaveOMSState, DeleteOMSState, LoadFaultState, SaveFaultState, DeleteFaultState, loadBytes,
      Publish, AppendSimulatedFill, Get, Heartbeat, EngineStatus_, ReportTradingProgress, TradingProgress,
      ReportCyclePerformance, ReportMetrics, ReportWatchdog, ReportRuleChange, RuleChanges_, SetAppliedVersion,
      AppliedVersion, SetPaused, Resume, RequestReconcile, ClearReconcile, Reconciles, Paused,
      CyclePerformance_, Metrics_, WatchdogStatus_, read, unless_nil, dereference, ask.
  all: destruct (connected s); commands_of.
  - destruct Hc. by apply issued_heartbeat.
  - by apply (issued_pause (MkPauseState instrumentID true reason userID a)).
  - by apply (issued_reconcile (MkReconcileRequest instrumentID userID a)).
Qed.

Lemma issued_session l s : Forall fits l -> commands issued (session l s).
Proof.
  intros Hl. revert s. induction Hl as [|c l Hc _ IH]; intros s; [done|]. simpl.
  apply commands_bind; [by apply issued_make|]. intros a. apply IH.
Qed.

(** ** Well-typed servers *)

(** The payloads of the rule changes reported so far, newest first. *)
Definition reported (l : list (Time * command)) : list Json :=
  omap (fun x => match snd x with PUSH _ j _ _ => Some j | _ => None end) l.

(** The last thing done to a field of a hash. *)
Fixpoint last_field (k f : string) (l : list (Time * command)) : option Json :=
  match l with
  | [] => None
  | (_, HSET k' f' j) :: l' => if bool_decide (k' = k /\ f' = f) then Some j else last_field k f l'
  | (_, HDEL k' f') :: l' => if bool_decide (k' = k /\ f' = f) then None else last_field k f l'
  | _ :: l' => last_field k f l'
  end.

(** What a key holds. *)
Inductive entry_typed (s : redis) (k : string) : value -> option Time -> Prop :=
  | typed_text j ttl t0 : issued (SET k j ttl) -> (t0, SET k j ttl) ∈ carried s -> t0 <= clock s ->
      entry_typed s k (Text j) (if 0 <? ttl then Some (t0 + ttl) else None)
  | typed_hash m : k = pausedKey \/ k = reconcileKey ->
      (forall f j, m !! f = Some j -> issued (HSET k f j)) -> entry_typed s k (Hash m) None
  | typed_changes l t0 n : k = ruleChangesKey -> (n <= 100)%nat -> l = take n (reported (carried s)) ->
      entry_typed s k (Queue l) (Some (t0 + 24 * Hour))
  | typed_stream l id : k = simulationPrefix +:+ id -> entry_typed s k (Queue l) None.

Record typed (s : redis) : Prop := {
  typed_entries k v d : entries s !! k = Some (v, d) -> entry_typed s k v d;
  typed_fields k f : k = pausedKey \/ k = reconcileKey ->
    last_field k f (carried s) = match entries s !! k with Some (Hash m, _) => m !! f | _ => None end;
  typed_carried t o : (t, o) ∈ carried s -> issued o
}.

(** No key is of two kinds. *)
Ltac key_kinds :=
  repeat match goal with
  | H : issued (SET _ _ _) |- _ => inversion H; clear H
  | H : issued (HSET _ _ _) |- _ => inversion H; clear H
  | H : issued (PUSH _ _ _ _) |- _ => inversion H; clear H
  | H : issued (XADD _ _ _) |- _ => inversion H; clear H
  | H : issued (DEL _) |- _ => inversion H; clear H
  | H : issued (HDEL _ _) |- _ => inversion H; clear H
  | H : _ \/ _ |- _ => destruct H
  end; subst; try done; try congruence.

Lemma typed_live s k now v : typed s -> live k now s = Some v -> exists d, entries s !! k = Some (v, d) /\ entry_typed s k v d.
Proof.
  intros Hs Hl. unfold live in Hl. destruct (entries s !! k) as [[v' [d|]]|] eqn:E; [| |done].
  - destruct (now <? d); [|done]. injection Hl as ->. exists (Some d). by split; [|apply Hs].
  - injection Hl as ->. exists None. by split; [|apply Hs].
Qed.

Lemma entry_later s s' k v d : clock s <= clock s' -> (forall x, x ∈ carried s -> x ∈ carried s') ->
  (k = ruleChangesKey -> reported (carried s') = reported (carried s)) -> entry_typed s k v d -> entry_typed s' k v d.
Proof.
  intros Hc Hin Hr He. destruct He as [j ttl t0 Hi Ht Hle|m Hk Hm|l t0 n Hk Hn Hl|l id Hk].
  - eapply typed_text; [done|by apply Hin|lia].
  - by apply typed_hash.
  - eapply typed_changes; [done|exact Hn|]. by rewrite Hr.
  - by eapply typed_stream.
Qed.

Lemma typed_tick now s : typed s -> clock s <= now -> typed (tick now s).
Proof.
  intros [He Hf Hc] Hnow. constructor; simpl; [|done|done]. intros k v d Hk.
  eapply entry_later; [..|by apply He]; done.
Qed.

(** A write to [k]: what it holds then is of its kind. *)
Lemma typed_put k v d o now s : typed s -> clock s <= now -> issued o -> entry_typed (put k v d o now s) k v d ->
  reported ((now, o) :: carried s) = reported (carried s) \/ k = ruleChangesKey ->
  (forall k' f, k' = pausedKey \/ k' = reconcileKey -> last_field k' f ((now, o) :: carried s) =
    if bool_decide (k' = k) then match v with Hash m => m !! f | _ => None end else last_field k' f (carried s)) ->
  typed (put k v d o now s).
Proof.
  intros [He Hf Hc] Hnow Ho Hk Hrep Hlast. constructor; cbn [entries carried put].
  - intros k' v' d' [[<- [= <- <-]]|[Hne Hk']]%lookup_insert_Some; [done|].
    eapply entry_later; [exact Hnow| | |by apply He].
    + intros x Hx. by right.
    + intros ->. by destruct Hrep.
  - intros k' f Hk'. rewrite (Hlast k' f Hk'). case_bool_decide as Hkk.
    + subst. by rewrite lookup_insert_eq.
    + rewrite lookup_insert_ne by done. by apply Hf.
  - intros t o' [[= -> ->]|Hin]%elem_of_cons; [done|by eapply Hc].
Qed.

Lemma typed_remove k o now s : typed s -> clock s <= now -> issued o ->
  reported ((now, o) :: carried s) = reported (carried s) ->
  (forall k' f, k' = pausedKey \/ k' = reconcileKey -> last_field k' f ((now, o) :: carried s) =
    if bool_decide (k' = k) then None else last_field k' f (carried s)) ->
  typed (remove k o now s).
Proof.
  intros [He Hf Hc] Hnow Ho Hrep Hlast. constructor; cbn [entries carried remove].
  - intros k' v' d' [Hne Hk']%lookup_delete_Some. eapply entry_later; [exact Hnow| | |by apply He].
    + intros x Hx. by right.
    + intros _. exact Hrep.
  - intros k' f Hk'. rewrite (Hlast k' f Hk'). case_bool_decide as Hkk.
    + subst. by rewrite lookup_delete_eq.
    + rewrite lookup_delete_ne by done. by apply Hf.
  - intros t o' [[= -> ->]|Hin]%elem_of_cons; [done|by eapply Hc].
Qed.

(** The hashes never expire. *)
Lemma hash_live s k now : typed s -> k = pausedKey \/ k = reconcileKey ->
  entries s !! k = None /\ live k now s = None
  \/ exists m, entries s !! k = Some (Hash m, None) /\ live k now s = Some (Hash m)
     /\ forall f j, m !! f = Some j -> issued (HSET k f j).
Proof.
  intros Hs Hk. unfold live. destruct (entries s !! k) as [[v d]|] eqn:E; [|by left]. right.
  pose proof (typed_entries _ Hs _ _ _ E) as He. inversion He; subst; try by (key_kinds; exfalso).
  exists m. by split_and!.
Qed.

Lemma changes_live s now v : typed s -> live ruleChangesKey now s = Some v ->
  exists l n, v = Queue l /\ (n <= 100)%nat /\ l = take n (reported (carried s)).
Proof.
  intros Hs Hl. apply typed_live in Hl as (d & E & He); [|done]. inversion He; subst; key_kinds.
  by eexists _, _.
Qed.

Lemma stream_live s now v id : typed s -> live (simulationPrefix +:+ id) now s = Some v ->
  exists l, v = Queue l /\ deadline_of (simulationPrefix +:+ id) now s = None.
Proof.
  intros Hs Hl. pose proof Hl as Hl'. apply typed_live in Hl as (d & E & He); [|done].
  unfold deadline_of. rewrite Hl', E. simpl. inversion He; subst; key_kinds. by eexists.
Qed.

Lemma lrange_first {A} n (l : list A) : lrange 0 (Z.of_nat n) l = take (S n) l.
Proof.
  unfold lrange. cbv zeta. destruct (Z.ltb_spec (Z.of_nat n) 0); [lia|]. cbn [Z.ltb Z.compare].
  rewrite Z.max_id, Z.sub_0_r, drop_0. f_equal. lia.
Qed.

(** A write that is no field of the two hashes leaves them. *)
Lemma last_field_put k (v : value) o now s : (forall k f j, o <> HSET k f j) -> (forall k f, o <> HDEL k f) ->
  k <> pausedKey -> k <> reconcileKey -> forall k' f, k' = pausedKey \/ k' = reconcileKey ->
  last_field k' f ((now, o) :: carried s) =
    if bool_decide (k' = k) then match v with Hash m => m !! f | _ => None end else last_field k' f (carried s).
Proof.
  intros Hs Hd Hp Hr k' f Hk. rewrite bool_decide_false by (destruct Hk; subst; congruence).
  destruct o; try done; [by destruct (Hs k0 f0 j)|by destruct (Hd k0 f0)].
Qed.

Lemma perform_set k j ttl now s : typed s -> clock s <= now -> issued (SET k j ttl) ->
  typed (put k (Text j) (if 0 <? ttl then Some (now + ttl) else None) (SET k j ttl) now s).
Proof.
  intros Hs Hnow Ho. apply typed_put; try done.
  - apply typed_text; [done|by left|done].
  - by left.
  - apply (last_field_put k (Text j)); try done; inversion Ho; subst; intros [=].
Qed.

Lemma perform_hset k f j now s : typed s -> clock s <= now -> issued (HSET k f j) ->
  typed (fst (perform now 0 (HSET k f j) s)).
Proof.
  intros Hs Hnow Ho. assert (Hk : k = pausedKey \/ k = reconcileKey) by (inversion Ho; auto).
  cbn [perform]. destruct (hash_live s k now Hs Hk) as [[E ->]|(m & E & -> & Hm)]; cbn [fst].
  - apply typed_put; try done; [|by left|].
    + apply typed_hash; [done|]. intros f' j' [<- <-]%lookup_singleton_Some. done.
    + intros k' f' Hk'. cbn [last_field]. rewrite (typed_fields s Hs k' f' Hk').
      case_bool_decide as Hkf; [destruct Hkf as [<- <-]; rewrite bool_decide_true by done; by rewrite lookup_singleton_eq|].
      case_bool_decide as Hkk; [|done]. subst. rewrite E. rewrite lookup_singleton_ne; [done|naive_solver].
  - unfold deadline_of, live. rewrite E. cbn [snd mbind option_bind]. apply typed_put; try done; [|by left|].
    + apply typed_hash; [done|]. intros f' j' [[<- <-]|[_ Hj]]%lookup_insert_Some; [done|by apply Hm].
    + intros k' f' Hk'. cbn [last_field]. rewrite (typed_fields s Hs k' f' Hk').
      case_bool_decide as Hkf; [destruct Hkf as [<- <-]; rewrite bool_decide_true by done; by rewrite lookup_insert_eq|].
      case_bool_decide as Hkk; [|done]. subst. rewrite E. rewrite lookup_insert_ne; [done|naive_solver].
Qed.

Lemma perform_hdel k f now s : typed s -> clock s <= now -> issued (HDEL k f) ->
  typed (fst (perform now 0 (HDEL k f) s)).
Proof.
  intros Hs Hnow Ho. assert (Hk : k = pausedKey \/ k = reconcileKey) by (inversion Ho; auto).
  cbn [perform]. destruct (hash_live s k now Hs Hk) as [[E ->]|(m & E & -> & Hm)]; [by apply typed_tick|].
  assert (Hd : forall k' f', k' = pausedKey \/ k' = reconcileKey -> last_field k' f' ((now, HDEL k f) :: carried s) =
    if bool_decide (k' = k) then delete f m !! f' else last_field k' f' (carried s)).
  { intros k' f' Hk'. cbn [last_field]. rewrite (typed_fields s Hs k' f' Hk').
    case_bool_decide as Hkf; [destruct Hkf as [<- <-]; rewrite bool_decide_true by done; by rewrite lookup_delete_eq|].
    case_bool_decide as Hkk; [|done]. subst. rewrite E. rewrite lookup_delete_ne; [done|naive_solver]. }
  case_bool_decide as Hemp; cbn [fst].
  - apply typed_remove; try done. intros k' f' Hk'. rewrite (Hd k' f' Hk'), Hemp, lookup_empty. done.
  - unfold deadline_of, live. rewrite E. cbn [snd mbind option_bind]. apply typed_put; try done; [|by left].
    apply typed_hash; [done|]. intros f' j' [_ Hj]%lookup_delete_Some. by apply Hm.
Qed.

Lemma perform_push k j stop ttl now s : typed s -> clock s <= now -> issued (PUSH k j stop ttl) ->
  typed (fst (perform now 0 (PUSH k j stop ttl) s)).
Proof.
  intros Hs Hnow Ho. inversion Ho as [ | | | | | | | | | | | | | | |c Hc Ek| | | | |]. subst.
  assert (Hput : forall l, (exists n, (n <= 100)%nat /\ l = take n (marshal c :: reported (carried s))) ->
    typed (put ruleChangesKey (Queue l) (Some (now + 24 * Hour)) (PUSH ruleChangesKey (marshal c) 99 (24 * Hour)) now s)).
  { intros l (n & Hn & ->). apply typed_put; try done; [by eapply typed_changes|by right|by apply (last_field_put _ (Queue []))]. }
  cbn [perform]. change 99 with (Z.of_nat 99).
  destruct (live ruleChangesKey now s) as [v|] eqn:Hl; cbn [fst].
  - apply changes_live in Hl as (l & n & -> & Hn & ->); [|done]. apply Hput. exists (S (Nat.min 99 n)). split; [lia|].
    by rewrite lrange_first, !firstn_cons, take_take.
  - apply Hput. exists 1%nat. split; [lia|done].
Qed.

Lemma perform_xadd draw k n j now s : typed s -> clock s <= now -> issued (XADD k n j) ->
  typed (fst (perform now draw (XADD k n j) s)).
Proof.
  intros Hs Hnow Ho. inversion Ho as [ | | | | | | | | |id fill Ek| | | | | | | | | | |]. subst.
  assert (Hput : forall l, typed (put (simulationPrefix +:+ id) (Queue l) None (XADD (simulationPrefix +:+ id) 1000 (marshal fill)) now s)).
  { intros l. apply typed_put; try done; [by eapply typed_stream|by left|by apply (last_field_put _ (Queue []))]. }
  cbn [perform]. destruct (live _ now s) as [v|] eqn:Hl; cbn [fst]; [|apply Hput].
  apply stream_live in Hl as (l & -> & ->); [|done]. apply Hput.
Qed.

(** Every command keeps the server well typed. *)
Lemma perform_typed now draw o s : typed s -> clock s <= now -> issued o -> typed (fst (perform now draw o s)).
Proof.
  intros Hs Hnow Ho. destruct o; try by apply typed_tick.
  - by apply perform_set.
  - apply typed_remove; try done. intros k' f Hk. rewrite bool_decide_false; [done|].
    intros ->. inversion Ho; subst; by destruct Hk.
  - by apply (perform_hset k f j).
  - by apply (perform_hdel k f).
  - by apply (perform_push k j stop ttl).
  - by apply perform_xadd.
  - done.
Qed.

Lemma answer_typed f now draw o s s' a : typed s -> issued o -> answer f now draw o s = Some (s', a) ->
  typed s' /\ clock s <= clock s'.
Proof.
  intros Hs Ho Ha. unfold answer in Ha. destruct (Z.ltb_spec now (clock s)) as [|Hnow]; [done|].
  assert (Hcase : s' = s \/ s' = fst (perform now draw o s)).
  { destruct o, f; apply (f_equal (option_map fst)) in Ha; cbn [option_map fst] in Ha;
      first [right; congruence|left; congruence]. }
  destruct Hcase as [->| ->]; [done|]. split; [by apply perform_typed|].
  destruct o; simpl; try done; repeat (first [case_bool_decide|case_match]; simpl; try done).
Qed.

(** ** Runs *)

Section Runs.
Context `{Cache}.

(** What every configuration that processes reach satisfies; [P] says which commands the
    processes of the pool may still issue. *)
Definition sound (P : command -> Prop) (x : gmap nat (calls unit) * redis) : Prop :=
  typed x.2 /\ forall c p, x.1 !! c = Some p -> commands (fun o => issued o /\ P o) p.

Lemma sound_step P x y : sound P x -> rstep x y ->
  sound P y /\ clock x.2 <= clock y.2
  /\ exists o f now draw a, issued o /\ P o /\ answer f now draw o x.2 = Some (y.2, a).
Proof.
  intros [Ht Hp] Hs. destruct Hs as [c o k ts s s' a Hc Hr]. simpl in *.
  destruct (replied_documented _ _ _ _ Hr) as (f & now & draw & Ha). destruct (Hp c _ Hc) as [[Hi HP] Hk].
  destruct (answer_typed _ _ _ _ _ _ _ Ht Hi Ha) as [Ht' Hle]. split_and!; [|done|by eexists _, _, _, _, _].
  split; [done|]. simpl. intros c' p [[<- <-]|[_ Hp']]%lookup_insert_Some; [apply Hk|by eapply Hp].
Qed.

Lemma sound_steps P x y : sound P x -> rtc rstep x y -> sound P y /\ clock x.2 <= clock y.2.
Proof.
  intros Hx Hr. induction Hr as [x|x y z Hs _ IH]; [done|].
  destruct (sound_step P x y Hx Hs) as (Hy & Hle & _). destruct (IH Hy). split; [done|lia].
Qed.

Lemma processes_sound ts : processes ts -> sound (fun _ => True) (ts, empty_redis).
Proof.
  intros Hts. split.
  - constructor; simpl; [by intros k v d; rewrite lookup_empty| |by intros t o ?%elem_of_nil].
    intros k f _. by rewrite lookup_empty.
  - intros c p Hp. destruct (Hts c p Hp) as (l & s & Hl & ->). eapply commands_mono; [|by apply issued_session].
    done.
Qed.

(** The next command of a call, carried out among those of the others. *)
Lemma runs_ask P x o {A} (k : result o -> calls A) y a : sound P x -> issued o -> rruns x (Ask o k) y a ->
  exists x1 s' f now draw b, rtc rstep x x1 /\ sound P x1 /\ clock x.2 <= clock x1.2
    /\ answer f now draw o x1.2 = Some (s', b) /\ sound P (x1.1, s') /\ rruns (x1.1, s') (k b) y a.
Proof.
  intros Hx Hi (ts & s & s' & b & Hst & Hrep & Hk).
  destruct (sound_steps P x (ts, s) Hx Hst) as [Hx1 Hle].
  destruct (replied_documented _ _ _ _ Hrep) as (f & now & draw & Ha).
  destruct (answer_typed _ _ _ _ _ _ _ (proj1 Hx1) Hi Ha) as [Ht' _].
  exists (ts, s), s', f, now, draw, b. split_and!; try done. split; [done|]. apply Hx1.
Qed.

Lemma answer_carried f now draw o s s' a : answer f now draw o s = Some (s', a) ->
  carried s' = carried s \/ carried s' = (now, o) :: carried s.
Proof.
  intros Ha. unfold answer in Ha. destruct (now <? clock s); [done|].
  assert (Hcase : s' = s \/ s' = fst (perform now draw o s)).
  { destruct o, f; apply (f_equal (option_map fst)) in Ha; cbn [option_map fst] in Ha;
      first [right; congruence|left; congruence]. }
  destruct Hcase as [->| ->]; [by left|]. destruct o; simpl; auto;
    repeat (first [case_bool_decide|case_match]; simpl; auto).
Qed.

(** ** Pauses *)

(** Commands that leave the pause of an instrument as it is. *)
Definition leaves (id : string) (o : command) : Prop :=
  o <> HDEL pausedKey id /\ forall j, o <> HSET pausedKey id j.

Lemma leaves_field id now o l : leaves id o -> last_field pausedKey id ((now, o) :: l) = last_field pausedKey id l.
Proof.
  intros [Hd Hs]. destruct o; try done; cbn [last_field]; case_bool_decide as E; try done; destruct E as [-> ->].
  - by destruct (Hs j).
  - done.
Qed.

Lemma leaves_steps id j x y : sound (leaves id) x -> rtc rstep x y ->
  last_field pausedKey id (carried x.2) = Some j -> last_field pausedKey id (carried y.2) = Some j.
Proof.
  intros Hx Hr Hj. induction Hr as [x|x y z Hs _ IH]; [done|].
  destruct (sound_step _ x y Hx Hs) as (Hy & _ & o & f & now & draw & a & _ & Ho & Ha). apply IH; [done|].
  destruct (answer_carried _ _ _ _ _ _ _ Ha) as [->| ->]; [done|]. by rewrite leaves_field.
Qed.

(** A hash read is the one the commands carried out have left. *)
Lemma hgetall_answer f now draw k s s' m : typed s -> k = pausedKey \/ k = reconcileKey ->
  answer f now draw (HGETALL k) s = Some (s', inl m) ->
  (forall f, m !! f = last_field k f (carried s)) /\ forall f j, m !! f = Some j -> issued (HSET k f j).
Proof.
  intros Hs Hk Ha. unfold answer in Ha. destruct (now <? clock s); [done|]. destruct f; [|done..].
  cbn [perform] in Ha. injection Ha as _ Ha.
  split.
  - intros g. rewrite (typed_fields s Hs k g Hk).
    destruct (hash_live s k now Hs Hk) as [[E L]|(m' & E & L & _)]; rewrite L in Ha; rewrite E; injection Ha as <-; done.
  - destruct (hash_live s k now Hs Hk) as [[E L]|(m' & E & L & Hm)]; rewrite L in Ha; injection Ha as <-; [done|exact Hm].
Qed.

Lemma hset_answer f now draw k g j s s' : typed s -> issued (HSET k g j) ->
  answer f now draw (HSET k g j) s = Some (s', None) -> carried s' = (now, HSET k g j) :: carried s.
Proof.
  intros Hs Hi Ha. assert (Hk : k = pausedKey \/ k = reconcileKey) by (inversion Hi; auto).
  unfold answer in Ha. destruct (now <? clock s); [done|]. destruct f; [|done..].
  cbn [perform] in Ha. injection Ha as Ha.
  by destruct (hash_live s k now Hs Hk) as [[_ L]|(m & _ & L & _)]; rewrite L in Ha; injection Ha as <-.
Qed.

(** C35: a pause that was acknowledged holds.  After a call of SetPaused has returned without
    error, every call of Paused that returns without error lists the instrument with that
    state, whichever other calls are made at the same time and whichever commands fail,
    until somebody resumes the instrument or pauses it anew. *)
Theorem pause_holds ts x y z w s s' id reason user st m : processes ts -> rtc rstep (ts, empty_redis) x ->
  (forall c p, x.1 !! c = Some p -> commands (leaves id) p) -> in_int64 user ->
  rruns x (SetPaused s id reason user) y (Ret st) -> rtc rstep y z -> connected s' = true ->
  rruns z (Paused s') w (inl m) -> m !! id = Some st /\ ps_InstrumentID st = id /\ Reason st = reason.
Proof.
  intros Hts Hx Hl Hu Hset Hyz Hc Hread.
  destruct (sound_steps _ _ _ (processes_sound ts Hts) Hx) as [[Htx Hpx] _].
  assert (Hsx : sound (leaves id) x).
  { split; [done|]. intros c p Hp. apply commands_and; [|by eapply Hl]. eapply commands_mono; [|by eapply Hpx]. by intros o []. }
  unfold SetPaused in Hset. destruct (String.eqb id ""); [by destruct Hset|].
  destruct (runs_ask _ _ _ _ _ _ Hsx issued_clock Hset) as (x1 & s1 & f1 & n1 & d1 & at_ & _ & _ & _ & _ & Hx1 & Hr1).
  unfold dereference in Hr1. destruct (connected s); [|by destruct Hr1].
  set (st0 := MkPauseState id true reason user at_) in *.
  assert (Hi : issued (HSET pausedKey id (marshal st0))) by (by apply (issued_pause st0)).
  destruct (runs_ask _ _ _ _ _ _ Hx1 Hi Hr1) as (x2 & s2 & f2 & n2 & d2 & b & _ & Hx2 & _ & Ha & Hx3 & Hr2).
  destruct Hr2 as [Hy Hb]. destruct b as [e|]; [done|]. injection Hb as <-.
  apply hset_answer in Ha; [|apply Hx2|done].
  assert (Hf : last_field pausedKey id (carried z.2) = Some (marshal st0)).
  { eapply (leaves_steps id); [exact Hx3|by etrans|]. simpl. rewrite Ha. cbn [last_field].
    by rewrite bool_decide_true. }
  assert (Hsz : sound (leaves id) z) by (eapply sound_steps; [exact Hx3|by etrans]).
  unfold Paused, unless_nil in Hread. rewrite Hc in Hread.
  assert (Hh : issued (HGETALL pausedKey)) by (constructor; by left).
  destruct (runs_ask _ _ _ _ _ _ Hsz Hh Hread) as (x4 & s4 & f4 & n4 & d4 & b & Hz4 & Hx4 & _ & Ha4 & _ & _ & Hb).
  destruct b as [m'|]; [|done]. injection Hb as <-.
  destruct (hgetall_answer _ _ _ _ _ _ _ (proj1 Hx4) (or_introl eq_refl) Ha4) as [Hm _].
  split_and!; [|done|done]. unfold decoded. rewrite lookup_omap, Hm, (leaves_steps id _ _ _ Hsz Hz4 Hf).
  by apply decode_pause.
Qed.

(** ** Values *)

(** What a key with one payload holds was written to it, and is not older than it may be. *)
Lemma text_live s k now v : typed s -> text_key k -> live k now s = Some v ->
  exists j ttl t0, v = Text j /\ issued (SET k j ttl) /\ (t0, SET k j ttl) ∈ carried s /\ (0 < ttl -> now < t0 + ttl).
Proof.
  intros Hs Hk Hl. pose proof Hl as Hl'. apply typed_live in Hl as (d & E & He); [|done].
  inversion He as [j ttl t0 Hi Ht Hle|m Hh|l t0 n Hh|l id Hh]; subst;
    [|destruct Hh; subst; inversion Hk|inversion Hk|inversion Hk].
  exists j, ttl, t0. split_and!; try done. intros Hpos. unfold live in Hl'. rewrite E in Hl'.
  destruct (Z.ltb_spec 0 ttl); [|lia]. by destruct (Z.ltb_spec now (t0 + ttl)).
Qed.

Lemma get_answer f now draw k s s' j : typed s -> text_key k -> answer f now draw (GET k) s = Some (s', inl (Some j)) ->
  exists ttl t0, issued (SET k j ttl) /\ (t0, SET k j ttl) ∈ carried s /\ (0 < ttl -> clock s < t0 + ttl)
    /\ carried s' = carried s.
Proof.
  intros Hs Hk Ha. unfold answer in Ha. destruct (Z.ltb_spec now (clock s)) as [|Hnow]; [done|].
  destruct f; [|done..]. cbn [perform] in Ha. destruct (live k now s) as [v|] eqn:Hl; [|done].
  destruct (text_live s k now v Hs Hk Hl) as (j' & ttl & t0 & -> & Hi & Hin & Ht).
  injection Ha as <- <-. exists ttl, t0. split_and!; try done. intros Hpos. specialize (Ht Hpos). lia.
Qed.

Lemma sound_carried P x y : sound P x -> rtc rstep x y -> carried x.2 `suffix_of` carried y.2.
Proof.
  intros Hx Hr. induction Hr as [x|x y z Hs _ IH]; [done|].
  destruct (sound_step _ x y Hx Hs) as (Hy & _ & o & f & now & draw & a & _ & _ & Ha).
  etrans; [|by apply IH]. destruct (answer_carried _ _ _ _ _ _ _ Ha) as [->| ->]; [done|by apply suffix_cons_r].
Qed.

(** C37: what operators see is fresh and exact.  A snapshot that Get returns was published for
    that instrument, less than forty-five seconds before the call began or during it, and is
    the published one, its amounts rounded to eighteen digits.  (The time is that of the
    server's clock, which the model moves when a command is executed: the call began at the
    time of the last command before it.) *)
Theorem snapshot_fresh ts x y s id snap : processes ts -> rtc rstep (ts, empty_redis) x ->
  rruns x (Get s id) y (inl snap) ->
  exists t0 published, (t0, SET (snapshotPrefix +:+ id) (marshal published) snapshotTTL) ∈ carried y.2
    /\ is_InstrumentID published = id /\ snap = reread_snapshot published /\ clock x.2 < t0 + snapshotTTL.
Proof.
  intros Hts Hx Hr. destruct (sound_steps _ _ _ (processes_sound ts Hts) Hx) as [Hsx _].
  unfold Get, unless_nil in Hr. destruct (connected s); [|by destruct Hr].
  assert (Hi : issued (GET (snapshotPrefix +:+ id))) by (do 2 constructor).
  destruct (runs_ask _ _ _ _ _ _ Hsx Hi Hr) as (x1 & s1 & f & now & draw & b & Hx1 & Hs1 & Hle & Ha & Hs2 & Hy & Hb).
  destruct b as [[j|]|]; [|done..].
  destruct (get_answer _ _ _ _ _ _ _ (proj1 Hs1) (key_snapshot id) Ha) as (ttl & t0 & Hset & Hin & Ht & Hc).
  inversion Hset as [ | | | | | | | |published Hm Ek| | | | | | | | | | | |]; subst.
  apply (inj _) in Ek. rewrite decode_snapshot in Hb by done. injection Hb as <-.
  exists t0, published. split_and!; try done.
  - rewrite <- Hc in Hin. eapply elem_of_suffix; [exact Hin|]. exact (sound_carried _ _ _ Hs2 Hy).
  - pose proof (Ht ltac:(done)). lia.
Qed.

(** The rule changes reported, as values. *)
Lemma reported_changes s : typed s -> exists changes, reported (carried s) = map marshal changes /\ Forall machine_ruleChange changes.
Proof.
  intros Hs. pose proof (typed_carried s Hs) as Hc. induction (carried s) as [|[t o] past IH]; [by exists []|].
  destruct IH as (changes & E & Hm); [intros t' o' Hin; eapply Hc; by right|].
  assert (Hi : issued o) by (eapply Hc; by left). unfold reported in *. cbn [omap list_omap snd].
  destruct o; try by exists changes. inversion Hi; subst. exists (c :: changes). simpl. by rewrite E; split; [|constructor].
Qed.

Lemma omap_decoded changes : Forall machine_ruleChange changes ->
  omap unmarshal_ruleChange (map marshal changes) = map reread_ruleChange changes.
Proof.
  intros Hc. induction Hc as [|c changes Hc _ IH]; [done|].
  cbn [map omap list_omap]. rewrite decode_ruleChange by done. f_equal. exact IH.
Qed.

Lemma lrange_answer f now draw stop s s' l : typed s -> 0 <= stop -> answer f now draw (LRANGE ruleChangesKey 0 stop) s = Some (s', inl l) ->
  carried s' = carried s /\ exists n, (n <= 100)%nat /\ Z.of_nat n <= stop + 1 /\ l = take n (reported (carried s)).
Proof.
  intros Hs Hstop Ha. unfold answer in Ha. destruct (now <? clock s); [done|]. destruct f; [|done..].
  cbn [perform] in Ha. injection Ha as <- Ha. split; [done|].
  destruct (live ruleChangesKey now s) as [v|] eqn:Hl.
  - apply changes_live in Hl as (q & n & -> & Hn & ->); [|done]. injection Ha as <-.
    rewrite <- (Z2Nat.id stop) by done. rewrite lrange_first, take_take.
    exists (Nat.min (S (Z.to_nat stop)) n). split_and!; [lia|lia|done].
  - injection Ha as <-. exists 0%nat. split_and!; [lia|lia|done].
Qed.

(** The rule changes read are the newest ones.  RuleChanges returns, newest first, changes
    that were reported, with none left out between the first and the last, at most as many as
    asked for and at most a hundred. *)
Theorem rule_changes_newest ts x y s limit l : processes ts -> rtc rstep (ts, empty_redis) x ->
  rruns x (RuleChanges_ s limit) y l ->
  exists past changes n, carried x.2 `suffix_of` past /\ past `suffix_of` carried y.2
    /\ reported past = map marshal changes /\ l = map reread_ruleChange (take n changes)
    /\ Z.of_nat n <= (if (limit <=? 0) || (100 <? limit) then 50 else limit).
Proof.
  intros Hts Hx Hr. destruct (sound_steps _ _ _ (processes_sound ts Hts) Hx) as [Hsx _].
  unfold RuleChanges_, unless_nil in Hr. set (bound := if _ || _ then 50 else limit) in *.
  assert (Hb : 0 < bound) by (subst bound; destruct (Z.leb_spec limit 0); simpl; [lia|]; destruct (100 <? limit); lia).
  assert (Hnone : forall z, sound (fun _ => True) z -> carried x.2 `suffix_of` carried z.2 -> carried z.2 `suffix_of` carried y.2 ->
    exists past changes n, carried x.2 `suffix_of` past /\ past `suffix_of` carried y.2
    /\ reported past = map marshal changes /\ [] = map reread_ruleChange (take n changes) /\ Z.of_nat n <= bound).
  { intros z Hz Hxz Hzy. destruct (reported_changes z.2 (proj1 Hz)) as (changes & E & _).
    exists (carried z.2), changes, 0%nat. split_and!; try done. lia. }
  destruct (connected s).
  2: { destruct Hr as [Hr <-]. apply (Hnone x); [done|done|]. exact (sound_carried _ _ _ Hsx Hr). }
  destruct (runs_ask _ _ _ _ _ _ Hsx (issued_lrange _) Hr) as (x1 & s1 & f & now & draw & b & Hx1 & Hs1 & _ & Ha & Hs2 & Hy & <-).
  pose proof (sound_carried _ _ _ Hsx Hx1) as Hc1. pose proof (sound_carried _ _ _ Hs2 Hy) as Hc2.
  destruct b as [values|e].
  - apply lrange_answer in Ha as (Hc & n & _ & Hn & ->); [|apply Hs1|lia]. simpl in Hc2. rewrite Hc in Hc2.
    destruct (reported_changes _ (proj1 Hs1)) as (changes & E & Hm). exists (carried x1.2), changes, n.
    split_and!; try done; [|lia]. rewrite E, firstn_map. apply omap_decoded. by apply Forall_take.
  - apply (Hnone (x1.1, s1)); [done| |done]. etrans; [exact Hc1|].
    destruct (answer_carried _ _ _ _ _ _ _ Ha) as [E|E]; simpl; rewrite E; [done|by apply suffix_cons_r].
Qed.

(** ** Types *)

(** The decoder each method of the store applies to a payload accepts it: [Get],
    [EngineStatus_] and the [read]s of its parts, [AppliedVersion].  Order-management and
    fault states are handed back as they are. *)
Record decodes (k : string) (j : Json) : Prop := {
  dec_snapshot id : k = snapshotPrefix +:+ id -> is_Some (unmarshal_instrumentSnapshot j);
  dec_heartbeat : k = heartbeatKey -> is_Some (unmarshal_status j);
  dec_progress : k = tradingProgressKey -> is_Some (unmarshal_time j);
  dec_performance : k = cyclePerformanceKey -> is_Some (unmarshal_performance j);
  dec_metrics : k = metricsKey -> is_Some (unmarshal_metrics j);
  dec_watchdog : k = watchdogKey -> is_Some (unmarshal_watchdog j);
  dec_version : k = appliedVersionKey -> is_Some (unmarshal_int64 j)
}.

(** The decoders of [Paused] and [Reconciles]. *)
Record field_decodes (k : string) (j : Json) : Prop := {
  dec_pause : k = pausedKey -> is_Some (unmarshal_pause j);
  dec_reconcile : k = reconcileKey -> is_Some (unmarshal_reconcile j)
}.

(** An answer without WRONGTYPE each of whose payloads was written there by a command
    carried out before, and is accepted by the decoder of the method that reads the key. *)
Definition sensible (s : redis) (o : command) : result o -> Prop :=
  match o return result o -> Prop with
  | GET k => fun a => exists found, a = inl found /\ forall j, found = Some j ->
      (exists t ttl, (t, SET k j ttl) ∈ carried s) /\ decodes k j
  | HGETALL k => fun a => exists m, a = inl m /\ forall f j, m !! f = Some j ->
      (exists t, (t, HSET k f j) ∈ carried s) /\ field_decodes k j
  | LRANGE k _ _ => fun a => exists l, a = inl l /\ forall j, j ∈ l ->
      (exists t stop ttl, (t, PUSH k j stop ttl) ∈ carried s) /\ is_Some (unmarshal_ruleChange j)
  | CLOCK => fun _ => True
  | _ => fun a => a = None
  end.

Lemma issued_decodes k j ttl : issued (SET k j ttl) -> decodes k j.
Proof.
  intros Hi. inversion Hi; subst; constructor; intros; try done; try congruence.
  - by rewrite decode_snapshot.
  - by rewrite decode_status.
  - by rewrite decode_performance.
  - by rewrite decode_metrics.
  - by rewrite decode_watchdog.
  - change (JNum n) with (marshal n). by rewrite decode_int.
Qed.

Lemma issued_field_decodes k f j : issued (HSET k f j) -> field_decodes k j.
Proof.
  intros Hi. inversion Hi; subst; constructor; intros; try done.
  - by rewrite decode_pause.
  - by rewrite decode_reconcile.
Qed.

Lemma last_field_written k f l j : last_field k f l = Some j -> exists t, (t, HSET k f j) ∈ l.
Proof.
  induction l as [|[t o] l IH]; [done|]. intros Hl.
  assert (Hrest : last_field k f l = Some j -> exists t', (t', HSET k f j) ∈ (t, o) :: l).
  { intros (t' & Hin)%IH. exists t'. by right. }
  destruct o; cbn [last_field] in Hl; auto; case_bool_decide as E; auto; [|done].
  destruct E as [-> ->]. injection Hl as ->. exists t. by left.
Qed.

Lemma reported_written l j : j ∈ reported l -> exists t k stop ttl, (t, PUSH k j stop ttl) ∈ l.
Proof.
  intros ([t o] & Hin & Ho)%list_elem_of_omap. simpl in Ho. destruct o; try done.
  injection Ho as ->. by eexists _, _, _, _.
Qed.

Lemma perform_lrange_sensible now draw stop s : typed s ->
  sensible s (LRANGE ruleChangesKey 0 stop) (snd (perform now draw (LRANGE ruleChangesKey 0 stop) s)).
Proof.
  intros Hs. destruct (reported_changes s Hs) as (changes & E & Hm). cbn [perform snd sensible].
  destruct (live ruleChangesKey now s) as [v|] eqn:Hl; [|exists []; split; [done|]; by intros j ?%elem_of_nil].
  apply changes_live in Hl as (l & n & -> & _ & ->); [|done]. eexists; split; [done|].
  unfold lrange. cbn [Z.ltb Z.compare Z.to_nat]. rewrite drop_0. intros j Hj. do 2 apply subseteq_take in Hj.
  split.
  - destruct (reported_written _ _ Hj) as (t & k & stop' & ttl & Hin).
    pose proof (typed_carried s Hs _ _ Hin) as Hi. inversion Hi; subst. by eexists _, _, _.
  - rewrite E in Hj. apply list_elem_of_fmap in Hj as (c & -> & Hc).
    rewrite decode_ruleChange; [done|]. by apply (proj1 (Forall_forall _ _) Hm).
Qed.

Lemma perform_sensible now draw o s : typed s -> issued o -> sensible s o (snd (perform now draw o s)).
Proof.
  intros Hs Ho. destruct o; cbn [perform snd sensible]; try done.
  - inversion Ho as [? Hk| | | | | | | | | | | | | | | | | | | |]; subst.
    destruct (live k now s) as [v|] eqn:Hl; [|by exists None].
    destruct (text_live s k now v Hs Hk Hl) as (j & ttl & t0 & -> & Hi & Hin & _). exists (Some j). split; [done|].
    intros j' [= <-]. split; [by exists t0, ttl|by eapply issued_decodes].
  - assert (Hk : k = pausedKey \/ k = reconcileKey) by (inversion Ho; auto).
    by destruct (hash_live s k now Hs Hk) as [[_ ->]|(m & _ & -> & _)].
  - assert (Hk : k = pausedKey \/ k = reconcileKey) by (inversion Ho; auto).
    destruct (hash_live s k now Hs Hk) as [[_ ->]|(m & _ & -> & _)]; [done|]. by case_bool_decide.
  - assert (Hk : k = pausedKey \/ k = reconcileKey) by (inversion Ho; auto).
    destruct (hash_live s k now Hs Hk) as [[_ ->]|(m & E & -> & Hm)]; [by exists ∅|exists m].
    split; [done|]. intros f j Hj. split; [|by eapply issued_field_decodes, Hm].
    apply (last_field_written k). rewrite (typed_fields s Hs k f Hk), E. done.
  - inversion Ho; subst. destruct (live ruleChangesKey now s) as [v|] eqn:Hl; [|done].
    by apply changes_live in Hl as (l & n & -> & _).
  - inversion Ho; subst. exact (perform_lrange_sensible now draw _ s Hs).
  - inversion Ho; subst. destruct (live (simulationPrefix +:+ id) now s) as [v|] eqn:Hl; [|done].
    by apply stream_live in Hl as (l & -> & _).
Qed.

(** C36: the shared state is well typed.  Whatever the processes do with the methods of the
    store (the leases, which live under keys of their own in Lease.v, aside) and whichever
    calls fail, no command that a method issues meets a key of another kind; and every
    payload it reads was written to that key, or that field, by a command carried out
    before, and is accepted by the decoder that [Get], [EngineStatus], [RuleChanges],
    [AppliedVersion], [Paused] or [Reconciles] applies to it, so none is dropped as
    undecodable. *)
Theorem store_typed ts ts' s c o k now draw : processes ts -> rtc rstep (ts, empty_redis) (ts', s) ->
  ts' !! c = Some (Ask o k) -> sensible s o (snd (perform now draw o s)).
Proof.
  intros Hts Hx Hc. destruct (sound_steps _ _ _ (processes_sound ts Hts) Hx) as [[Ht Hp] _].
  destruct (Hp c _ Hc) as [[Ho _] _]. by apply perform_sensible.
Qed.
End Runs.

(** ** Concrete runs *)

(** A call alone, its commands answered as given. *)
Fixpoint alone {A} (l : list (fate * Time * Z)) (s : redis) (p : calls A) : option (redis * A) :=
  match p, l with
  | Return a, _ => Some (s, a)
  | Ask o k, (f, now, draw) :: l' => '(s', a) ← answer f now draw o s; alone l' s' (k a)
  | Ask _ _, [] => None
  end.

Lemma alone_runs {A} l ts s (p : calls A) s' a : alone l s p = Some (s', a) ->
  rruns (H := any_cache) (ts, s) p (ts, s') a.
Proof.
  revert s p. induction l as [|[[f now] draw] l IH]; intros s [b|o k]; simpl; try done; try (by intros [= <- <-]).
  destruct (answer f now draw o s) as [[s1 b]|] eqn:E; [|done]. simpl. intros Hl.
  exists ts, s, s1, b. split_and!; [done|by eexists _, _, _|by apply IH].
Qed.

(** Commands of the client [c]. *)
Fixpoint others (c : nat) (l : list (fate * Time * Z)) (ts : gmap nat (calls unit)) (s : redis)
    : option (gmap nat (calls unit) * redis) :=
  match l with
  | [] => Some (ts, s)
  | (f, now, draw) :: l' =>
      match ts !! c with
      | Some (Ask o k) => '(s', a) ← answer f now draw o s; others c l' (<[c := k a]> ts) s'
      | _ => None
      end
  end.

Lemma others_steps c l ts s y : others c l ts s = Some y -> rtc (rstep (H := any_cache)) (ts, s) y.
Proof.
  revert ts s. induction l as [|[[f now] draw] l IH]; simpl; intros ts s; [by intros [= <-]|].
  destruct (ts !! c) as [[|o k]|] eqn:Hc; [done| |done].
  destruct (answer f now draw o s) as [[s1 b]|] eqn:E; [|done]. simpl. intros Hl.
  eapply rtc_l; [|by apply IH]. eapply rstep_client; [exact Hc|]. by eexists _, _, _.
Qed.

Definition ex_snap : InstrumentSnapshot :=
  MkInstrumentSnapshot "btc" "BTC" "USDT" ModeLive "running" false None None (FromInt64 1) true Zero Zero [] None ""
    5 3 1 1.
Definition ex_change : RuleChange :=
  let rules n := MkMarketRules "BTCUSDT" "BTC" "USDT" (FromInt64 1) (FromInt64 1) Zero Zero Zero Zero Zero Zero n in
  MkRuleChange "btc" "binance" "BTCUSDT" (rules 10) (rules 20) 7.
Definition ex_ts : gmap nat (calls unit) :=
  {[1%nat := session [CallPublish ex_snap; CallReportRuleChange ex_change; CallResume "eth"] (New true)]}.
Definition ex_user : Z := 7.
Definition ex_paused : PauseState := MkPauseState "btc" true ReasonManualPause ex_user 10.

Lemma ex_processes : processes ex_ts.
Proof.
  intros c p Hc. unfold ex_ts in Hc. cbn [fst] in Hc. apply lookup_singleton_Some in Hc as [<- <-]. eexists _, (New true). split; [|done].
  repeat constructor; unfold in_int64, min_int64, max_int64; simpl; try lia; try done; intros ? [=].
Qed.

(** The admin pauses btc, the engine publishes, reports a change and resumes eth. *)
Definition ex_y : redis := default empty_redis (fst <$> alone [(Fine, 1, 10); (Fine, 2, 0)] empty_redis
  (SetPaused (New true) "btc" ReasonManualPause ex_user)).
Definition ex_z : gmap nat (calls unit) * redis :=
  default (∅, empty_redis) (others 1 [(Fine, 3, 0); (Lost, 4, 0); (Fine, 5, 0)] ex_ts ex_y).

Lemma ex_pause : alone [(Fine, 1, 10); (Fine, 2, 0)] empty_redis (SetPaused (New true) "btc" ReasonManualPause ex_user)
  = Some (ex_y, Ret ex_paused).
Proof. vm_compute. reflexivity. Qed.
Lemma ex_others : others 1 [(Fine, 3, 0); (Lost, 4, 0); (Fine, 5, 0)] ex_ts ex_y = Some ex_z.
Proof. vm_compute. reflexivity. Qed.

Lemma pause_holds_witness : exists w m, rruns (H := any_cache) ex_z (Paused (New true)) w (inl m) /\ m !! "btc" = Some ex_paused.
Proof.
  exists (ex_z.1, tick 6 ex_z.2), {["btc" := ex_paused]}.
  assert (Hr : rruns (H := any_cache) ex_z (Paused (New true)) (ex_z.1, tick 6 ex_z.2) (inl {["btc" := ex_paused]})).
  { rewrite (surjective_pairing ex_z) at 1. apply (alone_runs [(Fine, 6, 0)]). vm_compute. reflexivity. }
  split; [exact Hr|].
  refine (proj1 (pause_holds (H := any_cache) ex_ts (ex_ts, empty_redis) (ex_ts, ex_y) ex_z _ (New true) (New true)
    "btc" ReasonManualPause ex_user ex_paused _ ex_processes _ _ _ _ _ eq_refl Hr)).
  - apply rtc_refl.
  - intros c p Hc. unfold ex_ts in Hc. cbn [fst] in Hc. apply lookup_singleton_Some in Hc as [<- <-]. simpl. repeat split; try done; by intros ? [=].
  - done.
  - apply (alone_runs [(Fine, 1, 10); (Fine, 2, 0)]), ex_pause.
  - apply (others_steps 1 [(Fine, 3, 0); (Lost, 4, 0); (Fine, 5, 0)]), ex_others.
Defined.

Definition ex_x : gmap nat (calls unit) * redis :=
  default (∅, empty_redis) (others 1 [(Fine, 3, 0); (Lost, 4, 0)] ex_ts empty_redis).
Lemma ex_reach : rtc (rstep (H := any_cache)) (ex_ts, empty_redis) ex_x.
Proof. apply (others_steps 1 [(Fine, 3, 0); (Lost, 4, 0)]). vm_compute. reflexivity. Qed.

Lemma snapshot_fresh_witness : exists y snap, rruns (H := any_cache) ex_x (Get (New true) "btc") y (inl snap)
  /\ exists t0 published, (t0, SET (snapshotPrefix +:+ "btc") (marshal published) snapshotTTL) ∈ carried y.2
    /\ is_InstrumentID published = "btc" /\ snap = reread_snapshot published /\ clock ex_x.2 < t0 + snapshotTTL.
Proof.
  exists (ex_x.1, tick 6 ex_x.2), (reread_snapshot ex_snap).
  assert (Hr : rruns (H := any_cache) ex_x (Get (New true) "btc") (ex_x.1, tick 6 ex_x.2) (inl (reread_snapshot ex_snap))).
  { rewrite (surjective_pairing ex_x) at 1. apply (alone_runs [(Fine, 6, 0)]). vm_compute. reflexivity. }
  split; [exact Hr|]. exact (snapshot_fresh (H := any_cache) _ _ _ _ _ _ ex_processes ex_reach Hr).
Defined.

Lemma rule_changes_newest_witness : exists y, rruns (H := any_cache) ex_x (RuleChanges_ (New true) 50) y [reread_ruleChange ex_change]
  /\ exists past changes n, carried ex_x.2 `suffix_of` past /\ past `suffix_of` carried y.2
    /\ reported past = map marshal changes /\ [reread_ruleChange ex_change] = map reread_ruleChange (take n changes) /\ Z.of_nat n <= 50.
Proof.
  exists (ex_x.1, tick 6 ex_x.2).
  assert (Hr : rruns (H := any_cache) ex_x (RuleChanges_ (New true) 50) (ex_x.1, tick 6 ex_x.2) [reread_ruleChange ex_change]).
  { rewrite (surjective_pairing ex_x) at 1. apply (alone_runs [(Fine, 6, 0)]). vm_compute. reflexivity. }
  split; [exact Hr|]. exact (rule_changes_newest (H := any_cache) _ _ _ _ 50 _ ex_processes ex_reach Hr).
Defined.

(** The engine has written its heartbeat, and the next command reads it. *)
Definition ex_beat : gmap nat (calls unit) :=
  {[1%nat := session [CallHeartbeat 3 4 true ""; CallEngineStatus] (New true)]}.
Definition ex_beaten : gmap nat (calls unit) * redis :=
  default (∅, empty_redis) (others 1 [(Fine, 1, 10); (Fine, 2, 0)] ex_beat empty_redis).
Definition ex_status : EngineStatus := MkEngineStatus true true 3 4 "" 10 zero_time None None None [].

Lemma ex_beat_processes : processes ex_beat.
Proof.
  intros c p Hc. unfold ex_beat in Hc. apply lookup_singleton_Some in Hc as [<- <-].
  eexists _, (New true). split; [|done].
  repeat constructor; unfold in_int64, min_int64, max_int64; simpl; lia.
Qed.

Lemma ex_beaten_reach : rtc (rstep (H := any_cache)) (ex_beat, empty_redis) (ex_beaten.1, ex_beaten.2).
Proof.
  rewrite <- surjective_pairing. apply (others_steps 1 [(Fine, 1, 10); (Fine, 2, 0)]).
  assert (Hs : match others 1 [(Fine, 1, 10); (Fine, 2, 0)] ex_beat empty_redis with
               | Some _ => True | None => False end) by (vm_compute; exact I).
  unfold ex_beaten. by destruct (others 1 _ ex_beat empty_redis).
Qed.

Lemma store_typed_witness :
  snd (perform 6 0 (GET heartbeatKey) ex_beaten.2) = inl (Some (marshal ex_status))
  /\ sensible ex_beaten.2 (GET heartbeatKey) (snd (perform 6 0 (GET heartbeatKey) ex_beaten.2)).
Proof.
  assert (Hc : match fst ex_beaten !! 1%nat with Some (Ask o _) => o = GET heartbeatKey | _ => False end)
    by (vm_compute; reflexivity).
  destruct (fst ex_beaten !! 1%nat) as [[|o k]|] eqn:E; [done| |done]. subst o.
  split; [vm_compute; reflexivity|].
  exact (store_typed (H := any_cache) _ _ _ _ _ _ 6 0 ex_beat_processes ex_beaten_reach E).
Defined.

(** The engine reads the requests to reconcile, carries them out and clears them.  A request
    that is acknowledged after the engine has read them and before it clears them is gone
    although nobody has seen it. *)
Definition ex_engine : gmap nat (calls unit) :=
  {[1%nat := session [CallRequestReconcile "btc" 1; CallReconciles; CallClearReconcile "btc"] (New true)]}.
Definition ex_asked : gmap nat (calls unit) * redis :=
  default (∅, empty_redis) (others 1 [(Fine, 1, 10); (Fine, 2, 0); (Fine, 3, 0)] ex_engine empty_redis).
Definition ex_again : redis := default empty_redis (fst <$> alone [(Fine, 4, 40); (Fine, 5, 0)] ex_asked.2
  (RequestReconcile (New true) "btc" 2)).

Lemma reconcile_request_lost : exists z w,
  rtc (rstep (H := any_cache)) (ex_engine, empty_redis) ex_asked
  /\ rruns (H := any_cache) ex_asked (RequestReconcile (New true) "btc" 2) (ex_asked.1, ex_again)
       (Ret (MkReconcileRequest "btc" 2 40, None))
  /\ rtc (rstep (H := any_cache)) (ex_asked.1, ex_again) z
  /\ rruns (H := any_cache) z (Reconciles (New true)) w (Ret ∅).
Proof.
  set (z := default (∅, empty_redis) (others 1 [(Fine, 6, 0)] ex_asked.1 ex_again)).
  exists z, (z.1, tick 7 z.2). split_and!.
  - apply (others_steps 1 [(Fine, 1, 10); (Fine, 2, 0); (Fine, 3, 0)]). vm_compute. reflexivity.
  - rewrite (surjective_pairing ex_asked) at 1. apply (alone_runs [(Fine, 4, 40); (Fine, 5, 0)]). vm_compute. reflexivity.
  - apply (others_steps 1 [(Fine, 6, 0)]). vm_compute. reflexivity.
  - rewrite (surjective_pairing z) at 1. apply (alone_runs [(Fine, 7, 0)]). vm_compute. reflexivity.
Qed.
