(* ===== verification/Configstore.v ===== *)
(** The configuration store (src/internal/configstore/store.go): drafts, publications, the
    active version and its cache.

    The SQL statements of the source are functions on the tables; each operation is a
    program of single statements, so that the operations of several processes interleave.
    [userID] values that are not positive are stored as NULL. *)
From S2P Require Import Prelude Decimal Domain Config Json World Rpc Process Scheduler Wire Configdiff ConfigJson Shared.

Open Scope string_scope.
Open Scope list_scope.
Open Scope Z_scope.

Module Configstore.

(** ** Tables *)

Record Draft := MkDraft { draft_Payload : Json; draft_By : option Z; draft_At : Time }.

Record Row := MkRow {
  row_Version : Z; row_Payload : Json; row_Active : bool; row_By : option Z; row_At : Time
}.

Record AuditRow := MkAuditRow {
  au_User : option Z; au_Action : string; au_Type : string; au_ID : string; au_Details : Json
}.

Record Tables := MkTables {
  draft_configs : option Draft;
  config_snapshots : list Row;
  audit_logs : list AuditRow
}.

Definition empty : Tables := MkTables None [] [].

(** ** Statements *)

Inductive Query :=
  | SelectDraft
  | SelectDraftForUpdate
  | UpsertDraft (payload : Json) (user : option Z)
  | AdvisoryLock
  | NextVersion
  | Deactivate
  | InsertSnapshot (version : Z) (payload : Json) (user : option Z)
  | InsertAudit (row : AuditRow)
  | SelectActive
  | SelectPayload (version : Z)
  | SelectVersion (version : Z).

Definition Rows (q : Query) : Type :=
  match q with
  | SelectDraft | SelectDraftForUpdate => option Json
  | UpsertDraft _ _ | AdvisoryLock | Deactivate | InsertAudit _ => unit
  | NextVersion => Z
  | InsertSnapshot _ _ _ => Time
  | SelectActive => option (Z * Time)
  | SelectPayload _ => option Json
  | SelectVersion _ => option (Z * Json * Time)
  end.

Definition set_snapshots (l : list Row) (T : Tables) : Tables :=
  MkTables (draft_configs T) l (audit_logs T).

Definition maxVersion (l : list Row) : Z := foldr (fun r m => Z.max (row_Version r) m) 0 l.

Definition inactive (r : Row) : Row :=
  MkRow (row_Version r) (row_Payload r) false (row_By r) (row_At r).

(** ORDER BY version DESC LIMIT 1 among the active rows. *)
Definition topActive (l : list Row) : option Row :=
  foldr (fun r best => if row_Active r then
    match best with
    | Some b => if row_Version r <? row_Version b then Some b else Some r
    | None => Some r
    end else best) None l.

Definition rowOf (version : Z) (l : list Row) : option Row :=
  snd <$> list_find (fun r => row_Version r = version) l.

Definition activeVersions (l : list Row) : list Z :=
  map row_Version (filter (fun r => row_Active r = true) l).

(** The rows with these versions are no longer active. *)
Definition deactivate (versions : list Z) (l : list Row) : list Row :=
  map (fun r => if bool_decide (row_Version r ∈ versions) then inactive r else r) l.

(** The versions are unique and at most one row is active (001_init.sql). *)
Definition run_query (q : Query) (now : Time) (T : Tables) : option ((Tables -> Tables) * Rows q) :=
  match q return option ((Tables -> Tables) * Rows q) with
  | SelectDraft | SelectDraftForUpdate => Some (id, draft_Payload <$> draft_configs T)
  | UpsertDraft payload user =>
      Some (fun T => MkTables (Some (MkDraft payload user now)) (config_snapshots T) (audit_logs T), tt)
  | AdvisoryLock => Some (id, tt)
  | NextVersion => Some (id, maxVersion (config_snapshots T) + 1)
  | Deactivate =>
      let versions := activeVersions (config_snapshots T) in
      Some (fun T => set_snapshots (deactivate versions (config_snapshots T)) T, tt)
  | InsertSnapshot version payload user =>
      if existsb (fun r => (row_Version r =? version) || row_Active r) (config_snapshots T) then None
      else Some (fun T => set_snapshots (config_snapshots T ++ [MkRow version payload true user now]) T, now)
  | InsertAudit row =>
      Some (fun T => MkTables (draft_configs T) (config_snapshots T) (audit_logs T ++ [row]), tt)
  | SelectActive =>
      Some (id, (fun r => (row_Version r, row_At r)) <$> topActive (config_snapshots T))
  | SelectPayload version => Some (id, row_Payload <$> rowOf version (config_snapshots T))
  | SelectVersion version =>
      Some (id, (fun r => (row_Version r, row_Payload r, row_At r)) <$> rowOf version (config_snapshots T))
  end.

(** The advisory lock 764223, the row of the draft, the rows of the snapshots and the entry
    of the index of active rows. *)
Inductive Lock := Advisory (key : Z) | DraftRow | SnapshotRow (version : Z) | ActiveEntry.
#[export] Instance Lock_eq_dec : EqDecision Lock.
Proof. solve_decision. Defined.

Definition query_locks (q : Query) (T : Tables) : list Lock :=
  match q with
  | SelectDraftForUpdate | UpsertDraft _ _ => [DraftRow]
  | AdvisoryLock => [Advisory 764223]
  | Deactivate => map SnapshotRow (activeVersions (config_snapshots T))
  | InsertSnapshot version _ _ => [SnapshotRow version; ActiveEntry]
  | _ => []
  end.

#[export] Instance schema : Schema := {|
  tables := Tables; query := Query; rows := Rows; lock := Lock;
  conflict l l' := bool_decide (l = l'); sql q now _ := run_query q now; locks_of q _ := query_locks q
|}.

(** ** The operations *)

Definition activeCacheKey : string := "fluxmaker:config:active".
Definition ErrNoDraft : error := Errorf "no draft configuration".

Record Store := MkStore { hasDB : bool; hasRedis : bool }.

Definition nullableUser (id : Z) : option Z := if id <=? 0 then None else Some id.

#[export] Instance marshal_snapshot : Marshal ConfigSnapshot := fun s =>
  JObj [("version", marshal (cs_Version s)); ("config", marshal (cs_Config s));
        ("published_at", JTime (PublishedAt s))].

Definition unmarshal_snapshot (j : Json) : option ConfigSnapshot :=
  l ← asObject j;
  version ← int64 "version" l; config ← ifield unmarshal_config "config" l;
  at_ ← ifield unmarshal_time "published_at" l;
  Some (MkConfigSnapshot version config at_).

Section Operations.
Context `{MapRange} (s : Store).

(** [Validate], its panics included. *)
Definition invalid (c : Config) : option error :=
  match Validate c with Ret _ => None | Err err => Some err | Panic m => Some (Errorf m) end.

(** [json.Unmarshal] of a stored payload and [NormalizeStrategySizing]. *)
Definition readConfig (payload : Json) : reply Config :=
  match unmarshal_config payload with
  | Some c => inl (NormalizeStrategySizing c)
  | None => inr json_error
  end.

(** The same with [Validate]. *)
Definition loadConfig (payload : Json) : reply Config :=
  match readConfig payload with
  | inl c => match invalid c with None => inl c | Some err => inr err end
  | inr err => inr err
  end.

Definition GetDraft : program (reply Config) :=
  orFail (ask (Exec SelectDraft)) (fun payload : option Json =>
  Return (match payload with Some j => readConfig j | None => inr ErrNoDraft end)).

Definition audit (userID : Z) (action resourceType resourceID : string) (details : Json)
    : program (reply unit) :=
  ask (Exec (InsertAudit (MkAuditRow (nullableUser userID) action resourceType resourceID details))).

Definition PutDraft (cfg : Config) (userID : Z) : program (reply unit) :=
  let cfg := NormalizeStrategySizing cfg in
  orFail (ask (Exec (UpsertDraft (marshal cfg) (nullableUser userID)))) (fun _ =>
  _ ← audit userID "config.draft.update" "config" "draft" (JObj []);
  Return (inl tt)).

Definition cache (snapshot : ConfigSnapshot) : program (option error) :=
  if hasRedis s then ask (RSet activeCacheKey (marshal snapshot)) else Return None.

(** From the advisory lock on, both publications insert the next version in the same way. *)
Definition insertActive (cfg : Config) (action : string) (userID : Z) : program (reply ConfigSnapshot) :=
  let payload := marshal cfg in
  orFail (ask (TxExec NextVersion)) (fun version : Z =>
  orFail (ask (TxExec Deactivate)) (fun _ =>
  orFail (ask (TxExec (InsertSnapshot version payload (nullableUser userID)))) (fun publishedAt : Time =>
  orFail (ask (TxExec (InsertAudit (MkAuditRow (nullableUser userID) action "config" (pretty version)
    (JObj [("version", JNum version)]))))) (fun _ =>
  orFail (checked (ask Commit)) (fun _ =>
  let snapshot := MkConfigSnapshot version cfg publishedAt in
  _ ← cache snapshot;
  Return (inl snapshot)))))).

Definition PublishDraft (userID : Z) : program (reply ConfigSnapshot) :=
  transaction
    (orFail (ask (TxExec AdvisoryLock)) (fun _ =>
     orFail (ask (TxExec SelectDraftForUpdate)) (fun payload : option Json =>
     match payload with
     | None => Return (inr ErrNoDraft)
     | Some payload =>
         match loadConfig payload with
         | inr err => Return (inr err)
         | inl cfg => insertActive cfg "config.publish" userID
         end
     end))).

Definition SaveActive (cfg : Config) (userID : Z) : program (reply ConfigSnapshot) :=
  let cfg := NormalizeStrategySizing cfg in
  match invalid cfg with
  | Some err => Return (inr err)
  | None =>
      transaction
        (orFail (ask (TxExec AdvisoryLock)) (fun _ =>
         orFail (ask (TxExec (UpsertDraft (marshal cfg) (nullableUser userID)))) (fun _ =>
         insertActive cfg "config.save" userID)))
  end.

(** What a cached value is worth: a validated snapshot or nothing. *)
Definition readCached (raw : Json) : option ConfigSnapshot :=
  match unmarshal_snapshot raw with
  | Some snapshot =>
      if cs_Version snapshot <=? 0 then None else
      let cfg := NormalizeStrategySizing (cs_Config snapshot) in
      match invalid cfg with
      | None => Some (MkConfigSnapshot (cs_Version snapshot) cfg (PublishedAt snapshot))
      | Some _ => None
      end
  | None => None
  end.

Definition cachedActive : program (option ConfigSnapshot) :=
  if negb (hasRedis s) then Return None else
  raw ← ask (RGet activeCacheKey);
  Return (match raw : reply (option Json) with inl (Some raw) => readCached raw | _ => None end).

(** The end of [LoadActive]: the payload of the active version, read and cached. *)
Definition reload (activeVersion : Z) (publishedAt : Time) : program (reply ConfigSnapshot) :=
  orFail (ask (Exec (SelectPayload activeVersion))) (fun payload : option Json =>
  match payload with
  | None => Return (inr ErrNoActive)
  | Some payload =>
      match loadConfig payload with
      | inr err => Return (inr err)
      | inl cfg =>
          let snapshot := MkConfigSnapshot activeVersion cfg publishedAt in
          _ ← cache snapshot;
          Return (inl snapshot)
      end
  end).

Definition LoadActive : program (reply ConfigSnapshot) :=
  if negb (hasDB s) then
    cached ← cachedActive;
    Return (match cached with Some snapshot => inl snapshot | None => inr ErrNoActive end)
  else
  r ← ask (Exec SelectActive);
  match r : reply (option (Z * Time)) with
  | inl None => Return (inr ErrNoActive)
  | inr err =>
      cached ← cachedActive;
      Return (match cached with Some snapshot => inl snapshot | None => inr err end)
  | inl (Some (activeVersion, publishedAt)) =>
      cached ← cachedActive;
      match (snapshot ← cached; guard (cs_Version snapshot = activeVersion);; Some snapshot) with
      | Some snapshot => Return (inl snapshot)
      | None => reload activeVersion publishedAt
      end
  end.

Definition LoadVersion (version : Z) : program (reply ConfigSnapshot) :=
  orFail (ask (Exec (SelectVersion version))) (fun row : option (Z * Json * Time) =>
  Return (match row with
          | None => inr ErrNoActive
          | Some (version, payload, publishedAt) =>
              match loadConfig payload with
              | inl cfg => inl (MkConfigSnapshot version cfg publishedAt)
              | inr err => inr err
              end
          end)).
End Operations.
End Configstore.
