(* ===== verification/ConfigstoreFacts.v ===== *)
(** What the configuration store keeps while any number of clients use it at once. *)
From S2P Require Import Prelude Decimal Domain Config Json World Rpc Process Scheduler Wire Configdiff ConfigJson Shared Configstore.
Import Configstore.

Open Scope string_scope.
Open Scope list_scope.
Open Scope Z_scope.

#[local] Existing Instance Rel_preorder.

Section Facts.
Context `{MapRange}.

(** ** The invariant *)

(** A stored payload is the JSON of a configuration that passed the validation. *)
Definition valid_payload (j : Json) : Prop :=
  exists c, j = marshal c /\ machine_config c /\ invalid c = None.

(** The versions count from one, the last one is active and no other. *)
Inductive rows_ok : list Row -> Prop :=
  | rows_nil : rows_ok []
  | rows_last l r : map row_Version (l ++ [r]) = seqZ 1 (Z.of_nat (length (l ++ [r]))) ->
      Forall (fun r => row_Active r = false) l -> row_Active r = true ->
      Forall (fun r => valid_payload (row_Payload r)) (l ++ [r]) -> rows_ok (l ++ [r]).

Definition draft_ok (T : Tables) : Prop :=
  forall d, draft_configs T = Some d -> exists c, draft_Payload d = marshal c /\ machine_config c.

Definition tables_ok (T : Tables) : Prop := rows_ok (config_snapshots T) /\ draft_ok T.

(** Rows are never changed but for the flag, and only added at the end. *)
Definition same_row (a b : Row) : Prop :=
  row_Version a = row_Version b /\ row_Payload a = row_Payload b /\ row_At a = row_At b.
Definition extends (l l' : list Row) : Prop :=
  exists l1 l2, l' = l1 ++ l2 /\ Forall2 same_row l l1.

(** A snapshot that holds what one of the rows says. *)
Definition of_row (snapshot : ConfigSnapshot) (l : list Row) : Prop :=
  exists r c, r ∈ l /\ row_Version r = cs_Version snapshot /\ row_At r = PublishedAt snapshot
    /\ row_Payload r = marshal c /\ machine_config c /\ machine_config (cs_Config snapshot)
    /\ normalized (cs_Config snapshot) = normalized c.

Definition cache_ok (s : state) : Prop :=
  forall j, kv s !! activeCacheKey = Some j ->
    exists snapshot, j = marshal snapshot /\ of_row snapshot (config_snapshots (committed s)).

Definition locks_ok (s : state) : Prop :=
  forall l c c', (l, c) ∈ held s -> (l, c') ∈ held s -> c = c'.

Record Inv (s : state) : Prop := {
  inv_tables : tables_ok (committed s);
  inv_now : head (history s) = Some (committed s);
  inv_past : Forall (fun T => tables_ok T /\ extends (config_snapshots T) (config_snapshots (committed s))) (history s);
  inv_cache : cache_ok s;
  inv_locks : locks_ok s
}.

(** ** What a client keeps, and what it relies on *)

Abbreviation advisory := (Advisory 764223).
Definition faults_of (c : nat) (s : state) : nat := length (filter (fun c' => c' = c) (faults s)).

Definition keeps (c : nat) (s s' : state) : Prop :=
  Inv s -> Inv s' /\ history s `suffix_of` history s'
  /\ (forall c', c' <> c -> open s' !! c' = open s !! c' /\ faults_of c' s' = faults_of c' s
      /\ forall l, (l, c') ∈ held s -> (l, c') ∈ held s')
  /\ (config_snapshots (committed s') = config_snapshots (committed s) \/ (advisory, c) ∈ held s).

Definition relies (c : nat) (s s' : state) : Prop :=
  Inv s -> Inv s' /\ history s `suffix_of` history s' /\ faults_of c s' = faults_of c s
  /\ (open s' !! c = None
      \/ (open s' !! c = open s !! c /\ (forall l, (l, c) ∈ held s -> (l, c) ∈ held s')
          /\ ((advisory, c) ∈ held s -> config_snapshots (committed s') = config_snapshots (committed s)))).

#[local] Instance relies_preorder c : PreOrder (relies c).
Proof.
  split.
  - intros s Hi. split_and!; [done|done|done|]. by right.
  - intros s1 s2 s3 H12 H23 Hi. destruct (H12 Hi) as (Hi2 & Hs2 & Hf2 & Ho2).
    destruct (H23 Hi2) as (Hi3 & Hs3 & Hf3 & Ho3). split_and!; [done|by etrans|congruence|].
    destruct Ho3 as [Ho3|(Ho3 & Hl3 & Ha3)]; [by left|].
    destruct Ho2 as [Ho2|(Ho2 & Hl2 & Ha2)]; [left; congruence|].
    right. split_and!; [congruence|auto|]. intros Ha. rewrite Ha3 by auto. auto.
Qed.

#[local] Instance same_row_refl : Reflexive same_row.
Proof. by intros []. Qed.
#[local] Instance same_row_trans : Transitive same_row.
Proof. intros a b d (?&?&?) (?&?&?). split_and!; congruence. Qed.

Lemma extends_refl l : extends l l.
Proof. exists l, []. split; [by rewrite app_nil_r|]. by apply Forall2_same_length_refl || reflexivity. Qed.

Lemma extends_same l l' l2 : Forall2 same_row l l' -> extends l (l' ++ l2).
Proof. intros Hl. by exists l', l2. Qed.

Lemma extends_trans l1 l2 l3 : extends l1 l2 -> extends l2 l3 -> extends l1 l3.
Proof.
  intros (a & b & -> & Ha) (a' & b' & -> & Hb). apply Forall2_app_inv_l in Hb as (x & y & Hx & _ & ->).
  exists x, (y ++ b'). rewrite app_assoc. split; [done|]. by etrans.
Qed.

Lemma extends_row l l' r : extends l l' -> r ∈ l -> exists r', r' ∈ l' /\ same_row r r'.
Proof.
  intros (a & b & -> & Ha) Hin. apply list_elem_of_lookup in Hin as [i Hi].
  destruct (Forall2_lookup_l _ _ _ _ _ Ha Hi) as (r' & Hr' & Hs). exists r'. split; [|done].
  apply elem_of_app. left. by eapply list_elem_of_lookup_2.
Qed.

Lemma of_row_extends snapshot l l' : extends l l' -> of_row snapshot l -> of_row snapshot l'.
Proof.
  intros He (r & c & Hr & Hv & Ha & Hp & Hm & Hm' & Hn).
  destruct (extends_row _ _ _ He Hr) as (r' & Hr' & Ev & Ep & Ea).
  exists r', c. split_and!; try done; congruence.
Qed.

(** ** Publishing new tables *)

Lemma publish_inv s T : Inv s -> tables_ok T ->
  extends (config_snapshots (committed s)) (config_snapshots T) -> Inv (publish T s).
Proof.
  intros [Ht Hn Hp Hc Hl] HT He. constructor; simpl; try done.
  - constructor; [split; [done|apply extends_refl]|]. eapply Forall_impl; [exact Hp|].
    intros T' [HT' He']. split; [done|]. by eapply extends_trans.
  - intros j Hj. destruct (Hc j Hj) as (snapshot & -> & Hr). exists snapshot. split; [done|].
    by eapply of_row_extends.
Qed.

Lemma endTx_inv c s : Inv s -> Inv (endTx c s).
Proof.
  intros [Ht Hn Hp Hc Hl]. constructor; try done. intros l c1 c2. simpl.
  rewrite !list_elem_of_filter. intros [_ ?] [_ ?]. by eapply Hl.
Qed.

Lemma fault_inv c s : Inv s -> Inv (fault c s).
Proof. by intros [? ? ? ? ?]. Qed.

Lemma set_open_inv o s : Inv s -> Inv (set_open o s).
Proof. by intros [? ? ? ? ?]. Qed.

Lemma set_kv_inv m s : Inv s -> cache_ok (set_kv m s) -> Inv (set_kv m s).
Proof. by intros [? ? ? ? ?]. Qed.

Lemma take_locks_inv c ls s : Inv s -> free (Nat.eqb c) ls s = true ->
  Inv (set_held (map (fun l => (l, c)) ls ++ held s) s).
Proof.
  intros [Ht Hn Hp Hc Hl] Hf. constructor; try done. simpl. intros l c1 c2.
  assert (Hfree : forall l c', l ∈ ls -> (l, c') ∈ held s -> c' = c).
  { intros l' c' Hin Hh. unfold free in Hf. rewrite forallb_forall in Hf.
    pose proof (Hf l' (proj1 (list_elem_of_In _ _) Hin)) as Hx. rewrite forallb_forall in Hx.
    pose proof (Hx (l', c') (proj1 (list_elem_of_In _ _) Hh)) as Hy. simpl in Hy.
    rewrite bool_decide_true in Hy by done. simpl in Hy. by apply Nat.eqb_eq in Hy. }
  intros [(x & [= -> <-] & Hx)%list_elem_of_fmap|H1']%elem_of_app
    [(y & [= -> <-] & Hy)%list_elem_of_fmap|H2']%elem_of_app; try done.
  - symmetry. by eapply Hfree.
  - by eapply Hfree.
  - by eapply Hl.
Qed.

(** What a step outside [c] leaves alone. *)
Lemma held_endTx c c' l s : c' <> c -> (l, c') ∈ held s -> (l, c') ∈ held (endTx c s).
Proof. intros Hne Hin. simpl. by apply list_elem_of_filter. Qed.

Lemma faults_of_cons c c' s : c' <> c -> faults_of c' (fault c s) = faults_of c' s.
Proof. intros Hne. unfold faults_of. cbn [faults fault]. by rewrite filter_cons_False. Qed.

#[export, program] Instance discipline `{!Database} : Guarantee := {| G := keeps; Rel := relies |}.
Next Obligation.
  intros ? c c' s s' Hne Hk Hi. destruct (Hk Hi) as (Hi' & Hs & Ho & Ha).
  destruct (Ho c) as (Hopen & Hf & Hl); [done|]. split_and!; try done. right. split_and!; try done.
  intros Hadv. destruct Ha as [|Ha]; [done|].
  exfalso. apply Hne. symmetry. by eapply (inv_locks s Hi advisory).
Qed.
Next Obligation.
  intros ? c s s' Hb Hi. apply between_documented in Hb. destruct Hb as [m Hm|c'].
  - split_and!; try done; [|by right]. apply set_kv_inv; [done|]. intros j Hj. apply (inv_cache s Hi).
    simpl in Hj. by eapply lookup_weaken.
  - split_and!; try done; [by apply endTx_inv|]. destruct (decide (c' = c)) as [->|Hne].
    + left. simpl. by rewrite lookup_delete_eq.
    + right. split_and!; [simpl; by rewrite lookup_delete_ne| |done]. intros l. by apply held_endTx.
Qed.

Lemma publish_keeps c T s : Inv s -> tables_ok T ->
  config_snapshots T = config_snapshots (committed s) \/ (advisory, c) ∈ held s ->
  extends (config_snapshots (committed s)) (config_snapshots T) -> keeps c s (publish T s).
Proof.
  intros Hi HT Ha He _. split_and!; [by apply publish_inv|by apply suffix_cons_r| |done].
  intros c' _. by split_and!.
Qed.

Lemma endTx_keeps c s : keeps c s (endTx c s).
Proof.
  intros Hi. split_and!; [by apply endTx_inv|done| |by left]. intros c' Hne. split_and!; [|done|].
  - simpl. by rewrite lookup_delete_ne.
  - intros l. by apply held_endTx.
Qed.

Lemma fault_keeps c s : keeps c s (fault c s).
Proof.
  intros Hi. split_and!; [by apply fault_inv|done| |by left]. intros c' Hne.
  split_and!; [done|by apply faults_of_cons|done].
Qed.

Lemma keeps_refl c s : keeps c s s.
Proof. intros Hi. split_and!; [done|done|done|by left]. Qed.

Lemma keeps_trans c s1 s2 s3 :
  ((advisory, c) ∈ held s2 -> (advisory, c) ∈ held s1) -> keeps c s1 s2 -> keeps c s2 s3 -> keeps c s1 s3.
Proof.
  intros Hh H12 H23 Hi. destruct (H12 Hi) as (Hi2 & Hs2 & Ho2 & Ha2).
  destruct (H23 Hi2) as (Hi3 & Hs3 & Ho3 & Ha3). split_and!; [done|by etrans| |].
  - intros c' Hne. destruct (Ho2 c' Hne) as (E2 & F2 & L2), (Ho3 c' Hne) as (E3 & F3 & L3).
    split_and!; [congruence|congruence|auto].
  - destruct Ha3 as [E|]; [|auto]. destruct Ha2 as [E'|]; [left; congruence|auto].
Qed.

(** ** Outside a transaction *)

Section Client.
Context `{!Database} (c : nat) (s0 : state).

(** The tables [T] were the committed ones at some moment since [s0]. *)
Definition seen (s : state) (T : Tables) : Prop :=
  T ∈ take (S (length (history s) - length (history s0))) (history s).

Record quiet (n : nat) (L : list Tables) (s : state) : Prop := {
  quiet_inv : Inv s;
  quiet_open : open s !! c = None;
  quiet_since : history s0 `suffix_of` history s;
  quiet_seen : Forall (seen s) L;
  quiet_faults : (n <= faults_of c s)%nat
}.

Lemma seen_later s s' T : history s0 `suffix_of` history s -> history s `suffix_of` history s' ->
  seen s T -> seen s' T.
Proof.
  unfold seen. intros [h0 H0'] [h Hh]. rewrite Hh, H0', !length_app. intros Hin.
  replace (S (length h + (length h0 + length (history s0)) - length (history s0)))
    with (length h + S (length h0 + length (history s0) - length (history s0)))%nat by lia.
  rewrite take_app_add. apply elem_of_app. by right.
Qed.

Lemma seen_now s : Inv s -> history s0 `suffix_of` history s -> seen s (committed s).
Proof.
  intros Hi _. unfold seen. pose proof (inv_now s Hi) as Hn. destruct (history s) as [|T h]; [done|].
  injection Hn as ->. left.
Qed.

Lemma seen_past s T : seen s T -> T ∈ history s.
Proof. apply subseteq_take. Qed.

Lemma quiet_stable n L : stable c (quiet n L).
Proof.
  intros s s' [Hi Ho Hs Hl Hf] Hr. destruct (Hr Hi) as (Hi' & Hs' & Hf' & Ho'). constructor.
  - done.
  - destruct Ho' as [|[-> _]]; done.
  - by etrans.
  - eapply Forall_impl; [exact Hl|]. intros T. by apply seen_later.
  - by rewrite Hf'.
Qed.

Lemma quiet_step n n' L s s' : quiet n L s -> keeps c s s' -> open s' !! c = None ->
  (n' <= faults_of c s')%nat -> quiet n' L s'.
Proof.
  intros [Hi Ho Hs Hl Hf] Hk Ho' Hf'. destruct (Hk Hi) as (Hi' & Hs' & _). constructor; [done|done|by etrans| |done].
  eapply Forall_impl; [exact Hl|]. intros T. by apply seen_later.
Qed.

Lemma quiet_now n L s : quiet n L s -> quiet n (committed s :: L) s.
Proof. intros [Hi Ho Hs Hl Hf]. constructor; try done. constructor; [by apply seen_now|done]. Qed.

Lemma quiet_drop n T L s : quiet n (T :: L) s -> quiet n L s.
Proof. intros [? ? ? Hl ?]. constructor; try done. by apply Forall_inv_tail in Hl. Qed.

Lemma quiet_past n L s T : quiet n L s -> T ∈ L -> extends (config_snapshots T) (config_snapshots (committed s)) /\ tables_ok T.
Proof.
  intros [Hi _ _ Hl _] HT. pose proof (proj1 (Forall_forall _ _) Hl T HT) as Hin%seen_past.
  pose proof (proj1 (Forall_forall _ _) (inv_past s Hi) T Hin) as [? ?]. done.
Qed.

(** A statement of its own that leaves the snapshots alone. *)
Definition harmless (q : Query) : Prop := forall now T w r, tables_ok T ->
  run_query q now T = Some (w, r) -> tables_ok (w T) /\ config_snapshots (w T) = config_snapshots T.

Lemma faults_of_fault s : faults_of c (fault c s) = S (faults_of c s).
Proof. unfold faults_of. cbn [faults fault]. by rewrite filter_cons_True. Qed.

Lemma quiet_fault n L s : quiet n L s -> quiet (S n) L (fault c s).
Proof.
  intros Hq. eapply quiet_step; [exact Hq|apply fault_keeps|apply Hq|].
  rewrite faults_of_fault. pose proof (quiet_faults _ _ _ Hq). lia.
Qed.

Lemma quiet_less n L s : quiet (S n) L s -> quiet n L s.
Proof. intros [? ? ? ? ?]. constructor; try done. lia. Qed.

Lemma quiet_publish n L s q now w r : harmless q -> quiet n L s ->
  run_query q now (committed s) = Some (w, r) -> let T := w (committed s) in
  keeps c s (publish T s) /\ quiet n (T :: L) (publish T s).
Proof.
  cbv zeta. intros Hq Hs Hrun. destruct (Hq _ _ _ _ (inv_tables _ (quiet_inv _ _ _ Hs)) Hrun) as [HT E].
  set (T := w (committed s)) in *. assert (Hk : keeps c s (publish T s)).
  { apply publish_keeps; [by apply Hs|done|by left|]. rewrite E. apply extends_refl. }
  split; [done|]. apply (quiet_now n L (@publish schema T s)). eapply quiet_step; [exact Hs|done|apply Hs..].
Qed.

(** It is answered, or it fails, which is counted unless a constraint was violated. *)
Lemma wp_exec {A} q (k : reply (Rows q) -> program A) n L Q s : harmless q -> quiet n L s ->
  (forall s1 now w r, run_query q now (committed s1) = Some (w, r) -> let T := w (committed s1) in
    quiet n (T :: L) (publish T s1) -> wp c (k (inl r)) Q (publish T s1)) ->
  (forall s2 err, quiet n L s2 -> quiet (S n) L s2 \/ (exists now T, run_query q now T = None) ->
    wp c (k (inr err)) Q s2) ->
  wp c (Ask (Exec q) k) Q s.
Proof.
  intros Hq Hs Hok Hfail. eapply (wp_ask _ _ _ (quiet n L)); [apply quiet_stable|exact Hs|].
  intros s1 f now bytes s2 a H1' Ha. unfold answer in Ha. simpl in Ha.
  assert (Hbroken : forall s', keeps c s1 s' -> quiet n L s' ->
    held s' = held s1 -> keeps c s1 (fault c s') /\ forall err, wp c (k (inr err)) Q (fault c s')).
  { intros s' Hk Hq' Hh. split; [eapply keeps_trans; [by rewrite Hh|done|apply fault_keeps]|].
    intros err. assert (quiet (S n) L (fault c s')) by by apply quiet_fault.
    apply Hfail; [by apply quiet_less|by left]. }
  destruct f.
  3: { injection Ha as <- <-. destruct (Hbroken s1 (keeps_refl c s1) H1' eq_refl). done. }
  all: destruct (negb _); [done|]; destruct (run_query q now (committed s1)) as [[w r]|] eqn:Hrun;
    [|injection Ha as <- <-; split; [apply keeps_refl|apply Hfail; [done|right; by eauto]]].
  all: destruct (quiet_publish _ _ _ _ _ _ _ Hq H1' Hrun) as [Hk Hq']; injection Ha as <- <-.
  - split; [done|]. by eapply Hok.
  - destruct (Hbroken (@publish schema (w (committed s1)) s1) Hk) as [Hk' Hw]; [|done|by split].
    eapply quiet_step; [exact H1'|done|apply H1'..].
Qed.

(** ** The cache *)

Lemma wp_get {A} (k : reply (option Json) -> program A) n L Q s : quiet n L s ->
  (forall s2 r, quiet n L s2 ->
    (forall j, r = inl (Some j) -> exists snapshot, j = marshal snapshot
      /\ of_row snapshot (config_snapshots (committed s2))) -> wp c (k r) Q s2) ->
  wp c (Ask (RGet activeCacheKey) k) Q s.
Proof.
  intros Hs Hk. eapply (wp_ask _ _ _ (quiet n L)); [apply quiet_stable|exact Hs|].
  intros s1 f now bytes s2 a H1' Ha. unfold answer in Ha.
  destruct f; injection Ha as <- <-; (split; [apply keeps_refl|]); apply Hk; try done.
  intros j [= Hj]. by apply (inv_cache _ (quiet_inv _ _ _ H1')).
Qed.

Lemma set_cache_keeps s snapshot : Inv s -> of_row snapshot (config_snapshots (committed s)) ->
  keeps c s (set_kv (<[activeCacheKey := marshal snapshot]> (kv s)) s).
Proof.
  intros Hi Hr _. split_and!; [|done|by intros|by left]. apply set_kv_inv; [done|].
  intros j. simpl. rewrite lookup_insert_eq. intros [= <-]. by exists snapshot.
Qed.

Lemma wp_cache {A} (st : Store) (snapshot : ConfigSnapshot) (k : option error -> program A) n L Q s T :
  quiet n L s -> T ∈ L -> of_row snapshot (config_snapshots T) ->
  (forall s2 r, quiet n L s2 -> wp c (k r) Q s2) -> wp c (cache st snapshot ≫= k) Q s.
Proof.
  intros Hs HT Hr Hk. unfold cache. destruct (hasRedis st); [|by apply Hk].
  eapply (wp_ask _ _ _ (quiet n L)); [apply quiet_stable|exact Hs|].
  intros s1 f now bytes s2 a H1' Ha. unfold answer in Ha.
  assert (Hset : keeps c s1 (set_kv (<[activeCacheKey := marshal snapshot]> (kv s1)) s1)).
  { apply set_cache_keeps; [by apply H1'|]. eapply of_row_extends; [|exact Hr].
    by destruct (quiet_past _ _ _ _ H1' HT). }
  destruct f; injection Ha as <- <-; (split; [first [exact Hset|apply keeps_refl]|]); apply Hk; try done.
  all: eapply quiet_step; [exact H1'|exact Hset|apply H1'..].
Qed.

(** ** Transactions *)

(** The statements so far turn snapshots [l] into [l'], keep the draft well formed and make
    it as [D] says. *)
Definition effect (pend : list (Tables -> Tables)) (l l' : list Row) (D : option Draft -> Prop) : Prop :=
  forall T : Tables, config_snapshots T = l -> draft_ok T ->
    let T' := @replay schema pend T in
    config_snapshots T' = l' /\ draft_ok T' /\ D (draft_configs T').

(** A transaction that is still open has the advisory lock, and the snapshots are [l]; or
    the server has ended it. *)
Record within (l l' : list Row) (D : option Draft -> Prop) (s : state) : Prop := {
  within_inv : Inv s;
  within_since : history s0 `suffix_of` history s;
  within_open : open s !! c = None
    \/ exists pend, open s !! c = Some pend /\ (advisory, c) ∈ held s
        /\ config_snapshots (committed s) = l /\ effect pend l l' D
}.

(** A transaction that has done nothing yet. *)
Record begun (s : state) : Prop := {
  begun_inv : Inv s;
  begun_since : history s0 `suffix_of` history s;
  begun_open : open s !! c = None \/ open s !! c = Some []
}.

Lemma within_stable l l' D : stable c (within l l' D).
Proof.
  intros s s' [Hi Hs Ho] Hr. destruct (Hr Hi) as (Hi' & Hs' & _ & Ho'). constructor; [done|by etrans|].
  destruct Ho' as [|(E & Hl & Ha)]; [by left|]. destruct Ho as [Ho|(pend & Ho & Hadv & El & He)].
  - left. exact (eq_trans E Ho).
  - right. exists pend. split_and!; [exact (eq_trans E Ho)|auto|by rewrite Ha|done].
Qed.

Lemma begun_stable : stable c begun.
Proof.
  intros s s' [Hi Hs Ho] Hr. destruct (Hr Hi) as (Hi' & Hs' & _ & Ho'). constructor; [done|by etrans|].
  destruct Ho' as [|(E & _)]; [by left|]. by rewrite E.
Qed.

Lemma open_endTx s : open (endTx c s) !! c = None.
Proof. simpl. by rewrite lookup_delete_eq. Qed.

Lemma quiet_endTx s : Inv s -> history s0 `suffix_of` history s -> quiet 0 [] (endTx c s).
Proof. intros Hi Hs. constructor; [by apply endTx_inv|apply open_endTx|done|done|lia]. Qed.

Lemma quiet_forgets n L s : quiet n L s -> quiet 0 [] s.
Proof. intros [? ? ? ? ?]. constructor; try done. lia. Qed.

Lemma quiet_ended s : Inv s -> history s0 `suffix_of` history s -> open s !! c = None -> quiet 0 [] s.
Proof. intros Hi Hs Ho. constructor; try done. lia. Qed.

Lemma wp_begin {A} (k : option error -> program A) n L Q s : quiet n L s ->
  (forall s2, begun s2 -> wp c (k None) Q s2) ->
  (forall s2 err, quiet 0 [] s2 -> wp c (k (Some err)) Q s2) ->
  wp c (Ask Begin k) Q s.
Proof.
  intros Hs Hok Hfail. eapply (wp_ask _ _ _ (quiet n L)); [apply quiet_stable|exact Hs|].
  intros s1 f now bytes s2 a H1' Ha. unfold answer in Ha.
  destruct f; injection Ha as <- <-.
  2-3: split; [apply fault_keeps|]; apply Hfail; by eapply quiet_forgets, quiet_fault.
  split.
  - intros Hi. split_and!; [by apply set_open_inv|done| |by left]. intros c' Hne. split_and!; try done.
    simpl. by rewrite lookup_insert_ne.
  - apply Hok. constructor; [by apply set_open_inv, H1'|by apply H1'|]. right. simpl. by rewrite lookup_insert_eq.
Qed.

Lemma wp_rollback {A} (k : unit -> program A) Q s : Inv s -> history s0 `suffix_of` history s ->
  (forall s2, quiet 0 [] s2 -> wp c (k tt) Q s2) -> wp c (Ask Rollback k) Q s.
Proof.
  intros Hi Hs Hk. eapply (wp_ask _ _ _ (fun s => Inv s /\ history s0 `suffix_of` history s)); [|done|].
  - intros s1 s2 [H1' H2'] Hr. destruct (Hr H1') as (Hi' & Hs' & _). split; [done|by etrans].
  - intros s1 f now bytes s2 [] [H1' H2'] Ha. unfold answer in Ha. injection Ha as <-.
    split; [apply endTx_keeps|]. apply Hk. by apply quiet_endTx.
Qed.

(** The state after a statement in a transaction. *)
Definition after_tx (q : Query) (w : Tables -> Tables) (pend : list (Tables -> Tables)) (s : state) : state :=
  set_open (<[c := pend ++ [w]]> (open s))
    (set_held (map (fun l => (l, c)) (query_locks q (@replay schema pend (committed s))) ++ held s) s).

Lemma after_tx_keeps q w pend s :
  free (Nat.eqb c) (query_locks q (@replay schema pend (committed s))) s = true ->
  keeps c s (after_tx q w pend s).
Proof.
  intros Hf Hi. split_and!; [by apply set_open_inv, take_locks_inv|done| |by left].
  intros c' Hne. split_and!; [simpl; by rewrite lookup_insert_ne|done|].
  intros l Hl. simpl. apply elem_of_app. by right.
Qed.

(** What may happen to a statement in a transaction. *)
Lemma answer_tx f now bytes q s s' a : answer f now bytes c (TxExec q) s = Some (s', a) ->
  (exists pend w r, open s !! c = Some pend /\ run_query q now (@replay schema pend (committed s)) = Some (w, r)
    /\ free (Nat.eqb c) (query_locks q (@replay schema pend (committed s))) s = true
    /\ s' = after_tx q w pend s /\ a = inl r)
  \/ (exists err, a = inr err /\ ((s' = s /\ open s !! c = None) \/ s' = endTx c s \/ s' = fault c (endTx c s))).
Proof.
  unfold answer. destruct (open s !! c) as [pend|] eqn:Ho; [|intros [= <- <-]; right; by eauto].
  destruct f; [|intros [= <- <-]; right; by eauto..]. simpl.
  destruct (free (Nat.eqb c) _ s) eqn:Hf; [|done]. simpl.
  destruct (run_query q now _) as [[w r]|] eqn:Hrun; intros [= <- <-]; [|right; by eauto].
  left. by exists pend, w, r.
Qed.

Lemma failed_tx s s' : Inv s -> history s0 `suffix_of` history s ->
  (s' = s /\ open s !! c = None) \/ s' = endTx c s \/ s' = fault c (endTx c s) ->
  keeps c s s' /\ quiet 0 [] s'.
Proof.
  intros Hi Hs [[-> Ho]|[->| ->]].
  - split; [apply keeps_refl|by apply quiet_ended].
  - split; [apply endTx_keeps|by apply quiet_endTx].
  - assert (Hq : quiet 0 [] (endTx c s)) by by apply quiet_endTx. split.
    + eapply keeps_trans; [|apply endTx_keeps|apply fault_keeps]. intros Hin.
      simpl in Hin. by apply list_elem_of_filter in Hin as [_ Hin].
    + by eapply quiet_forgets, quiet_fault.
Qed.

Lemma wp_tx {A} q (k : reply (Rows q) -> program A) l l' D (g : Time -> list Row)
    (D' : Time -> option Draft -> Prop) (R : Time -> Rows q -> Prop) Q s :
  within l l' D s ->
  (forall T now, config_snapshots T = l' -> draft_ok T -> D (draft_configs T) -> exists w r,
    run_query q now T = Some (w, r) /\ R now r
    /\ forall T, config_snapshots T = l' -> draft_ok T -> D (draft_configs T) ->
       draft_ok (w T) /\ config_snapshots (w T) = g now /\ D' now (draft_configs (w T))) ->
  (forall s2 now r, within l (g now) (D' now) s2 -> R now r -> wp c (k (inl r)) Q s2) ->
  (forall s2 err, quiet 0 [] s2 -> wp c (k (inr err)) Q s2) ->
  wp c (Ask (TxExec q) k) Q s.
Proof.
  intros Hs Hq Hok Hfail. eapply (wp_ask _ _ _ (within l l' D)); [apply within_stable|exact Hs|].
  intros s1 f now bytes s2 a [Hi Hsince Ho] Ha. apply answer_tx in Ha.
  destruct Ha as [(pend & w & r & Hopen & Hrun & Hf & -> & ->)|(err & -> & Hs2)].
  2: { destruct (failed_tx _ _ Hi Hsince Hs2) as [Hk Hquiet]. split; [done|by apply Hfail]. }
  pose proof (after_tx_keeps q w pend s1 Hf) as Hk. split; [done|].
  destruct Ho as [Ho|(pend' & Ho & Hadv & El & He)]; [by pose proof (eq_trans (eq_sym Ho) Hopen)|].
  pose proof (eq_trans (eq_sym Ho) Hopen) as Epend. injection Epend as ->.
  destruct (He (committed s1) El (proj2 (inv_tables _ Hi))) as (El' & Hd & HD).
  destruct (Hq _ now El' Hd HD) as (w' & r' & Hrun' & HR & Hw). rewrite Hrun in Hrun'.
  injection Hrun' as <- <-. apply (Hok _ now); [|done]. destruct (Hk Hi) as (Hi2 & Hs2 & _).
  constructor; [done|by etrans|]. right. exists (pend ++ [w]). split_and!.
  - simpl. by rewrite lookup_insert_eq.
  - simpl. apply elem_of_app. by right.
  - done.
  - intros T0 E0 D0. destruct (He T0 E0 D0) as (E1 & D1 & F1). cbv zeta. unfold replay. rewrite foldl_app. cbn [foldl].
    fold (@replay schema pend T0). destruct (Hw _ E1 D1 F1) as (? & ? & ?). by split_and!.
Qed.

Lemma wp_rollback_quiet {A} (k : unit -> program A) n L Q s : quiet n L s ->
  (forall s2, quiet n L s2 -> wp c (k tt) Q s2) -> wp c (Ask Rollback k) Q s.
Proof.
  intros Hs Hk. eapply (wp_ask _ _ _ (quiet n L)); [apply quiet_stable|exact Hs|].
  intros s1 f now bytes s2 [] H1' Ha. unfold answer in Ha. injection Ha as <-.
  split; [apply endTx_keeps|]. apply Hk. eapply quiet_step; [exact H1'|apply endTx_keeps|apply open_endTx|apply H1'].
Qed.

(** Taking the advisory lock fixes the snapshots. *)
Lemma wp_lock {A} (k : reply unit -> program A) Q s : begun s ->
  (forall s2 l, within l l (fun _ => True) s2 -> rows_ok l ->
    (forall T, T ∈ history s0 -> extends (config_snapshots T) l) -> wp c (k (inl tt)) Q s2) ->
  (forall s2 err, quiet 0 [] s2 -> wp c (k (inr err)) Q s2) ->
  wp c (Ask (TxExec AdvisoryLock) k) Q s.
Proof.
  intros Hs Hok Hfail. eapply (wp_ask _ _ _ begun); [apply begun_stable|exact Hs|].
  intros s1 f now bytes s2 a [Hi Hsince Ho] Ha. apply answer_tx in Ha.
  destruct Ha as [(pend & w & [] & Hopen & Hrun & Hf & -> & ->)|(err & -> & Hs2)].
  2: { destruct (failed_tx _ _ Hi Hsince Hs2) as [Hk Hquiet]. split; [done|by apply Hfail]. }
  injection Hrun as <-.
  pose proof (after_tx_keeps AdvisoryLock id pend s1 Hf) as Hk. split; [done|].
  destruct (Hk Hi) as (Hi2 & Hs2 & _).
  assert (pend = []) as ->.
  { destruct Ho as [Ho|Ho]; pose proof (eq_trans (eq_sym Ho) Hopen) as Epend; [done|]. by injection Epend. }
  apply (Hok _ (config_snapshots (committed s1))).
  - constructor; [done|by etrans|]. right. exists [id]. split_and!; [|by left|done|by intros T0].
    simpl. by rewrite lookup_insert_eq.
  - apply (inv_tables _ Hi).
  - intros T0 HT0. apply (proj1 (Forall_forall _ _) (inv_past _ Hi) T0).
    destruct Hsince as [h ->]. apply elem_of_app. by right.
Qed.

Lemma answer_commit f now bytes s s' a : answer f now bytes c Commit s = Some (s', a) ->
  (open s !! c = None /\ s' = s /\ a <> None)
  \/ exists pend : list (Tables -> Tables), open s !! c = Some pend
      /\ let s1 := @publish schema (replay pend (committed s)) (endTx c s) in
         (s' = s1 /\ a = None) \/ (s' = fault c s1 /\ a <> None) \/ (s' = fault c (endTx c s) /\ a <> None).
Proof.
  unfold answer. destruct (open s !! c) as [pend|] eqn:Ho; [|intros [= <- <-]; by left].
  destruct f; intros [= <- <-]; right; exists pend; (split; [done|]); cbv zeta; auto.
Qed.

(** A commit publishes the snapshots all at once. *)
Lemma wp_commit {A} (k : option error -> program A) l l' D Q s :
  within l l' D s -> rows_ok l' -> extends l l' ->
  (forall s2 T, quiet 0 [T] s2 -> config_snapshots T = l' -> D (draft_configs T) -> wp c (k None) Q s2) ->
  (forall s2 err, quiet 0 [] s2 -> wp c (k (Some err)) Q s2) ->
  wp c (Ask Commit k) Q s.
Proof.
  intros Hs Hl' He' Hok Hfail. eapply (wp_ask _ _ _ (within l l' D)); [apply within_stable|exact Hs|].
  intros s1 f now bytes s2 a [Hi Hsince Ho] Ha. apply answer_commit in Ha.
  assert (Hbad : forall a', quiet 0 [] s2 -> a' <> None -> wp c (k a') Q s2).
  { intros [err|] Hq Hne; [by apply Hfail|done]. }
  destruct Ha as [(Hnone & -> & Hne)|(pend & Hopen & Hcases)].
  { split; [apply keeps_refl|]. apply Hbad; [|done]. by apply quiet_ended. }
  destruct Ho as [Ho|(pend' & Ho & Hadv & El & He)]; [by pose proof (eq_trans (eq_sym Ho) Hopen)|].
  pose proof (eq_trans (eq_sym Ho) Hopen) as Epend. injection Epend as ->.
  destruct (He (committed s1) El (proj2 (inv_tables _ Hi))) as (El' & Hd & HD).
  set (T := @replay schema pend (committed s1)) in *.
  assert (Hk : keeps c s1 (publish T (endTx c s1))).
  { intros _. assert (Hi' : Inv (endTx c s1)) by by apply endTx_inv. destruct (endTx_keeps c s1 Hi) as (_ & _ & Hoth & _).
    split_and!; [|by apply suffix_cons_r|exact Hoth|by right].
    apply publish_inv; [done|by split; [rewrite El'|]|]. simpl. by rewrite El, El'. }
  assert (Hq : quiet 0 [T] (publish T (endTx c s1))).
  { destruct (Hk Hi) as (Hi' & Hs' & _). assert (Hq : quiet 0 [] (publish T (endTx c s1))).
    { apply quiet_ended; [done|by etrans|apply open_endTx]. }
    by apply (quiet_now 0 [] (@publish schema T (endTx c s1))). }
  cbv zeta in Hcases. fold T in Hcases. destruct Hcases as [[-> ->]|[[-> Hne]|[-> Hne]]].
  - split; [done|]. by eapply Hok.
  - split; [|apply Hbad; [|done]; eapply quiet_forgets, quiet_fault; exact Hq]. intros _.
    destruct (Hk Hi) as (Hi' & Hs' & Hoth & Ha). split_and!; [by apply fault_inv|done| |done].
    intros c' Hne'. destruct (Hoth c' Hne') as (? & ? & ?). split_and!; [done| |done]. by rewrite faults_of_cons.
  - destruct (failed_tx s1 (fault c (endTx c s1)) Hi Hsince) as [Hk' Hq']; [by right; right|].
    split; [done|by apply Hbad].
Qed.
End Client.
End Facts.
