(* ===== verification/ConfigstoreOps.v ===== *)
(** Each operation of the configuration store, among other clients. *)
From S2P Require Import Prelude Decimal Domain Config Json World Rpc Process Scheduler Wire Configdiff ConfigJson Shared Configstore ConfigstoreFacts.
Import Configstore.

Open Scope string_scope.
Open Scope list_scope.
Open Scope Z_scope.

Section Ops.
Context `{MapRange}.

(** ** The rows of the snapshots *)

Lemma readConfig_marshal c : machine_config c -> readConfig (marshal c) = inl (normalized c).
Proof. intros Hc. unfold readConfig. by rewrite decode_config. Qed.

Lemma loadConfig_inv c cfg : machine_config c -> loadConfig (marshal c) = inl cfg ->
  cfg = normalized c /\ invalid cfg = None /\ machine_config cfg.
Proof.
  intros Hc. unfold loadConfig. rewrite readConfig_marshal by done.
  destruct (invalid (normalized c)) eqn:E; [done|]. intros [= <-]. split_and!; [done|done|].
  by apply normalized_machine.
Qed.

Lemma rows_versions l : rows_ok l -> map row_Version l = seqZ 1 (Z.of_nat (length l)).
Proof. by intros []. Qed.

Lemma maxVersion_seq n : foldr Z.max 0 (seqZ 1 (Z.of_nat n)) = Z.of_nat n.
Proof.
  assert (Hm : forall k m : nat, foldr Z.max 0 (seqZ (Z.of_nat k + 1) (Z.of_nat (S m))) = Z.of_nat (k + S m)).
  { intros k m. revert k. induction m as [|m IH]; intros k.
    - rewrite seqZ_cons by lia. rewrite seqZ_nil by lia. cbn [foldr]. lia.
    - rewrite seqZ_cons by lia. cbn [foldr].
      replace (Z.pred (Z.of_nat (S (S m)))) with (Z.of_nat (S m)) by lia.
      replace (Z.succ (Z.of_nat k + 1)) with (Z.of_nat (S k) + 1) by lia. rewrite IH. lia. }
  destruct n as [|n]; [done|]. apply (Hm 0%nat n).
Qed.

Lemma maxVersion_rows l : rows_ok l -> maxVersion l = Z.of_nat (length l).
Proof.
  intros Hl. rewrite <- maxVersion_seq, <- rows_versions by done. unfold maxVersion.
  clear Hl. induction l as [|r l IH]; [done|]. cbn [foldr map]. by rewrite IH.
Qed.

Lemma map_inactive_versions l : map row_Version (map inactive l) = map row_Version l.
Proof. rewrite map_map. done. Qed.

(** Deactivating the active rows changes no other. *)
Lemma deactivate_active l : deactivate (activeVersions l) l = map inactive l.
Proof.
  apply map_ext_in. intros r Hin. case_bool_decide as Hv; [done|]. destruct (row_Active r) eqn:Ea.
  - exfalso. apply Hv. apply list_elem_of_fmap_2, list_elem_of_filter. split; [done|].
    by apply list_elem_of_In.
  - unfold inactive. destruct r. simpl in Ea. by rewrite Ea.
Qed.

Lemma rows_insert l payload user now : rows_ok l -> valid_payload payload ->
  rows_ok (map inactive l ++ [MkRow (Z.of_nat (length l) + 1) payload true user now]).
Proof.
  intros Hl Hp. apply rows_last; [| |done|].
  - rewrite map_app, map_inactive_versions, rows_versions, length_app, length_map by done. cbn [length map].
    rewrite Nat2Z.inj_add, (seqZ_app 1 (Z.of_nat (length l)) (Z.of_nat 1)) by lia. f_equal.
    rewrite seqZ_cons, seqZ_nil by lia. cbn [row_Version]. f_equal. lia.
  - apply Forall_map, Forall_true. done.
  - apply Forall_app. split; [|by constructor]. apply Forall_map. destruct Hl as [|? ? ? ? ? Hv]; [done|exact Hv].
Qed.

Lemma extends_insert l r : extends l (map inactive l ++ [r]).
Proof.
  exists (map inactive l), [r]. split; [done|]. apply Forall2_fmap_r, Forall_Forall2_diag, Forall_true. done.
Qed.

Lemma insert_allowed l payload user now T : rows_ok l -> config_snapshots T = map inactive l ->
  run_query (InsertSnapshot (Z.of_nat (length l) + 1) payload user) now T
  = Some (fun T => set_snapshots (config_snapshots T ++ [MkRow (Z.of_nat (length l) + 1) payload true user now]) T, now).
Proof.
  intros Hl E. unfold run_query. rewrite E. destruct (existsb _ _) eqn:Ex; [|done].
  apply existsb_exists in Ex as (r & Hin & Hr). exfalso.
  apply list_elem_of_In, list_elem_of_fmap in Hin as (r0 & -> & Hin). cbn in Hr. rewrite orb_false_r in Hr.
  assert (Hv : row_Version r0 ∈ map row_Version l) by by apply list_elem_of_fmap_2.
  rewrite rows_versions, elem_of_seqZ in Hv by done. lia.
Qed.

(** The last row is the active one. *)
Lemma topActive_rows l r : topActive l = Some r -> r ∈ l /\ row_Active r = true.
Proof.
  revert r. induction l as [|x l IH]; intros r; [done|]. cbn. fold (topActive l).
  destruct (row_Active x) eqn:Ex.
  - destruct (topActive l) as [b|] eqn:Eb; [destruct (row_Version x <? row_Version b)|].
    + intros [= <-]. destruct (IH b eq_refl). split; [by right|done].
    + intros [= <-]. split; [by left|done].
    + intros [= <-]. split; [by left|done].
  - intros Hr. destruct (IH r Hr). split; [by right|done].
Qed.

Lemma rowOf_inv v l r : rowOf v l = Some r -> r ∈ l /\ row_Version r = v.
Proof.
  unfold rowOf. destruct (list_find _ l) as [[i r']|] eqn:E; [|done]. simpl. intros [= <-].
  apply list_find_Some in E as (Hi & Hv & _). split; [by eapply list_elem_of_lookup_2|done].
Qed.

Lemma same_version l r r' : rows_ok l -> r ∈ l -> r' ∈ l -> row_Version r = row_Version r' -> r = r'.
Proof.
  intros Hl Hr Hr' Ev. apply list_elem_of_lookup in Hr as [i Hi], Hr' as [j Hj].
  assert (i = j) as <-; [|congruence].
  eapply (NoDup_lookup (map row_Version l)); [|by rewrite list_lookup_fmap, Hi|].
  - rewrite rows_versions by done. apply NoDup_seqZ.
  - by rewrite list_lookup_fmap, Hj, Ev.
Qed.

Lemma row_payload T r : tables_ok T -> r ∈ config_snapshots T -> valid_payload (row_Payload r).
Proof.
  intros [Hr _] Hin. destruct Hr as [|? ? ? ? ? Hv]; [by apply elem_of_nil in Hin|].
  by apply (proj1 (Forall_forall _ _) Hv r).
Qed.

(** ** Publications *)

Section Client.
Context `{!Database} (c : nat) (s0 : state).

(** The snapshot is the active row of [T] and the last of all. *)
Definition is_published (T : Tables) (snapshot : ConfigSnapshot) : Prop :=
  exists l r, config_snapshots T = l ++ [r] /\ row_Active r = true
    /\ row_Version r = cs_Version snapshot /\ row_At r = PublishedAt snapshot
    /\ row_Payload r = marshal (cs_Config snapshot).

Definition publication (F : ConfigSnapshot -> Tables -> Prop) (res : reply ConfigSnapshot) (s : state) : Prop :=
  match res with
  | inl snapshot => exists T, quiet c s0 0 [T] s /\ F snapshot T
  | inr _ => Inv s /\ history s0 `suffix_of` history s
  end.

(** The same when the transaction is over. *)
Definition finished (F : ConfigSnapshot -> Tables -> Prop) (res : reply ConfigSnapshot) (s : state) : Prop :=
  match res with
  | inl snapshot => exists T, quiet c s0 0 [T] s /\ F snapshot T
  | inr _ => quiet c s0 0 [] s
  end.

Lemma finished_quiet F res s : finished F res s -> quiet c s0 0 [] s.
Proof. destruct res as [snapshot|err]; [|exact id]. intros (T & Hq & _). exact (quiet_forgets c s0 0 [T] s Hq). Qed.

(** The snapshot of [cfg], newer than all that was committed at the start. *)
Definition publishes (cfg : Config) (D : option Draft -> Prop) (snapshot : ConfigSnapshot) (T : Tables) : Prop :=
  is_published T snapshot /\ cs_Config snapshot = cfg /\ invalid cfg = None /\ D (draft_configs T)
  /\ forall T0, T0 ∈ history s0 -> Z.of_nat (length (config_snapshots T0)) < cs_Version snapshot.

Lemma quiet_safe n L s : quiet c s0 n L s -> Inv s /\ history s0 `suffix_of` history s.
Proof. by intros [? ? ? ? ?]. Qed.

Lemma extends_length l l' : extends l l' -> (length l <= length l')%nat.
Proof. intros (a & b & -> & Ha%Forall2_length). rewrite length_app. lia. Qed.

Lemma wp_insertActive st cfg action uid l D s : rows_ok l ->
  (forall T, T ∈ history s0 -> extends (config_snapshots T) l) ->
  machine_config cfg -> invalid cfg = None -> within c s0 l l D s ->
  wp c (insertActive st cfg action uid) (publication (publishes cfg D)) s.
Proof.
  intros Hl Hnew Hm Hv Hs. unfold insertActive, orFail. set (n := Z.of_nat (length l) + 1).
  eapply (wp_tx c s0 NextVersion _ l l D (fun _ => l) (fun _ => D) (fun _ v => v = n)); [exact Hs| | |].
  { intros T now E Hd HD. exists id, n. cbn. rewrite E, maxVersion_rows by done. by split_and!. }
  2: intros s2 err Hq; by apply (quiet_safe 0 []).
  clear s Hs. intros s _ ? Hs ->.
  eapply (wp_tx c s0 Deactivate _ l l D (fun _ => map inactive l) (fun _ => D) (fun _ _ => True)); [exact Hs| | |].
  { intros T now E Hd HD. eexists _, tt. split_and!; [reflexivity|done|]. cbn. intros T0 E0 Hd0 HD0.
    rewrite E, E0, deactivate_active. by split_and!. }
  2: intros s2 err Hq; by apply (quiet_safe 0 []).
  clear s Hs. intros s _ _ Hs _.
  set (l' := fun now => map inactive l ++ [MkRow n (marshal cfg) true (nullableUser uid) now]).
  eapply (wp_tx c s0 (InsertSnapshot n (marshal cfg) (nullableUser uid)) _ l _ D l' (fun _ => D) (fun now at_ => at_ = now)); [exact Hs| | |].
  { intros T now E Hd HD. eexists _, now. split_and!; [by apply insert_allowed|done|].
    cbn. intros T0 -> Hd0 HD0. by split_and!. }
  2: intros s2 err Hq; by apply (quiet_safe 0 []).
  clear s Hs. intros s now ? Hs ->.
  eapply (wp_tx c s0 (InsertAudit _) _ l (l' now) D (fun _ => l' now) (fun _ => D) (fun _ _ => True)); [exact Hs| | |].
  { intros T now' E Hd HD. by eexists _, tt. }
  2: intros s2 err Hq; by apply (quiet_safe 0 []).
  clear s Hs. intros s _ _ Hs _.
  assert (Hok : rows_ok (l' now)) by (apply rows_insert; [done|by exists cfg]).
  unfold checked. apply wp_bind. eapply (wp_commit c s0 _ l (l' now) D); [exact Hs|done|apply extends_insert| |].
  2: intros s2 err Hq; by apply (quiet_safe 0 []).
  clear s Hs. intros s T Hs E HD. set (snapshot := MkConfigSnapshot n cfg now).
  assert (Hrow : of_row snapshot (config_snapshots T)).
  { rewrite E. exists (MkRow n (marshal cfg) true (nullableUser uid) now), cfg. split_and!; try done.
    apply elem_of_app. right. by left. }
  apply (wp_cache c s0 _ _ _ 0 [T] _ _ T); [done|by left|exact Hrow|].
  clear s Hs. intros s _ Hs. exists T. split; [done|]. split_and!; [|done|done|done|].
  - unfold is_published. rewrite E. by eexists _, _.
  - intros T0 HT0%Hnew%extends_length. cbn. unfold n. lia.
Qed.

(** The rollback at the end of a transaction. *)
Lemma wp_transaction (body : program (reply ConfigSnapshot)) F n L s : quiet c s0 n L s ->
  (forall s2, begun c s0 s2 -> wp c body (publication F) s2) ->
  wp c (transaction body) (finished F) s.
Proof.
  intros Hs Hbody. unfold transaction. eapply (wp_begin c s0 _ n L); [exact Hs| |done].
  intros s2 Hb. apply wp_bind. eapply wp_mono; [|by apply Hbody].
  intros [snapshot|err] s3 Hp.
  - destruct Hp as (T & Hq & Hp). eapply (wp_rollback_quiet c s0 _ 0 [T]); [exact Hq|].
    intros s4 Hq4. by exists T.
  - destruct Hp as [Hi Hs3]. apply (wp_rollback c s0); [done..|]. by intros s4 Hq.
Qed.

Definition mirrored (payload : Json) (d : option Draft) : Prop := draft_Payload <$> d = Some payload.

Lemma wp_SaveActive st cfg uid n L s : machine_config cfg -> quiet c s0 n L s ->
  let cfg' := NormalizeStrategySizing cfg in
  wp c (SaveActive st cfg uid) (finished (publishes cfg' (mirrored (marshal cfg')))) s.
Proof.
  intros Hm Hs. cbv zeta. unfold SaveActive. set (cfg' := NormalizeStrategySizing cfg).
  assert (Hm' : machine_config cfg') by by apply normalize_machine.
  destruct (invalid cfg') as [err|] eqn:Hv; [by apply (quiet_forgets c s0 n L)|].
  eapply wp_transaction; [exact Hs|]. clear s Hs. intros s Hs. unfold orFail.
  apply (wp_lock c s0); [exact Hs| |intros s2 err Hq; by apply (quiet_safe 0 [])].
  clear s Hs. intros s l Hs Hl Hnew.
  eapply (wp_tx c s0 (UpsertDraft (marshal cfg') (nullableUser uid)) _ l l (fun _ => True) (fun _ => l)
    (fun _ => mirrored (marshal cfg')) (fun _ _ => True)); [exact Hs| | |].
  { intros T now E Hd _. eexists _, tt. split_and!; [reflexivity|done|]. intros T0 E0 Hd0 _. split_and!; [|done|done].
    intros d. cbn. intros [= <-]. by exists cfg'. }
  2: intros s2 err Hq; by apply (quiet_safe 0 []).
  clear s Hs. intros s _ _ Hs _. by apply (wp_insertActive _ _ _ _ l).
Qed.

Lemma wp_PublishDraft st uid n L s : quiet c s0 n L s ->
  wp c (PublishDraft st uid) (finished (fun snapshot => publishes (cs_Config snapshot) (fun _ => True) snapshot)) s.
Proof.
  intros Hs. unfold PublishDraft. eapply wp_transaction; [exact Hs|]. clear s Hs. intros s Hs. unfold orFail.
  apply (wp_lock c s0); [exact Hs| |intros s2 err Hq; by apply (quiet_safe 0 [])].
  clear s Hs. intros s l Hs Hl Hnew.
  eapply (wp_tx c s0 SelectDraftForUpdate _ l l (fun _ => True) (fun _ => l) (fun _ _ => True)
    (fun _ payload => forall j, payload = Some j -> exists c, j = marshal c /\ machine_config c)); [exact Hs| | |].
  { intros T now E Hd _. eexists id, _. split_and!; [reflexivity| |done].
    intros j Hj. destruct (draft_configs T) as [d|] eqn:Ed; [|done]. injection Hj as <-. by apply Hd. }
  2: intros s2 err Hq; by apply (quiet_safe 0 []).
  clear s Hs. intros s _ [payload|] Hs Hp; [|destruct Hs; by split].
  destruct (Hp payload eq_refl) as (c0 & -> & Hm). destruct (loadConfig (marshal c0)) as [cfg|err] eqn:El.
  2: destruct Hs; by split.
  destruct (loadConfig_inv _ _ Hm El) as (-> & Hv & Hm').
  eapply wp_mono; [|by apply (wp_insertActive _ _ _ _ l)].
  intros [snapshot|err] s2 Hpub; [|done]. destruct Hpub as (T & Hq & Hpub). exists T. split; [done|].
  destruct Hpub as (Hp1 & Hc & Hn). by rewrite Hc.
Qed.

(** ** Reading *)

(** The snapshot says what row [r] of [T] says. *)
Definition contents (snapshot : ConfigSnapshot) (T : Tables) (r : Row) : Prop :=
  r ∈ config_snapshots T /\ row_Version r = cs_Version snapshot /\ row_At r = PublishedAt snapshot
  /\ (exists c, row_Payload r = marshal c /\ machine_config c /\ cs_Config snapshot = normalized c)
  /\ invalid (cs_Config snapshot) = None.

Lemma contents_of snapshot T r T' r' : tables_ok T' -> extends (config_snapshots T) (config_snapshots T') ->
  r ∈ config_snapshots T -> row_Version r = cs_Version snapshot -> contents snapshot T' r' -> contents snapshot T r.
Proof.
  intros HT He Hr Hv (Hr' & Hv' & Ha' & (cfg & Hp' & Hm & Hc) & Hi).
  destruct (extends_row _ _ _ He Hr) as (r2 & Hr2 & Ev & Ep & Ea).
  assert (r2 = r') as -> by (eapply same_version; [apply HT|done|done|congruence]).
  split_and!; [done|done|congruence| |done]. exists cfg. split_and!; [congruence|done|done].
Qed.

Lemma loaded_contents T r cfg : tables_ok T -> r ∈ config_snapshots T -> loadConfig (row_Payload r) = inl cfg ->
  contents (MkConfigSnapshot (row_Version r) cfg (row_At r)) T r
  /\ of_row (MkConfigSnapshot (row_Version r) cfg (row_At r)) (config_snapshots T).
Proof.
  intros HT Hr Hl. destruct (row_payload _ _ HT Hr) as (c0 & Hp & Hm & _). rewrite Hp in Hl.
  destruct (loadConfig_inv _ _ Hm Hl) as (-> & Hi & Hm'). split.
  - split_and!; try done. by exists c0.
  - exists r, c0. split_and!; try done. apply normalized_idem.
Qed.

Lemma readCached_inv snapshot0 snapshot : machine_config (cs_Config snapshot0) ->
  readCached (marshal snapshot0) = Some snapshot ->
  cs_Version snapshot = cs_Version snapshot0 /\ PublishedAt snapshot = PublishedAt snapshot0
  /\ cs_Config snapshot = normalized (cs_Config snapshot0) /\ invalid (cs_Config snapshot) = None.
Proof.
  intros Hm. unfold readCached. destruct (unmarshal_snapshot _) as [s1|] eqn:Es; [|done].
  assert (Hs1 : cs_Version s1 = cs_Version snapshot0 /\ PublishedAt s1 = PublishedAt snapshot0
    /\ cs_Config s1 = reread_config (cs_Config snapshot0)).
  { revert Es. unfold unmarshal_snapshot, marshal at 1, marshal_snapshot. json_fields.
    rewrite decode_config by done. unfold unmarshal_int64, marshal, marshal_Z. case_match; [|done].
    cbn. by intros [= <-]. }
  destruct Hs1 as (E1 & E2 & E3). case_match; [done|]. rewrite E3. fold (normalized (cs_Config snapshot0)).
  destruct (invalid _) eqn:Ei; [done|]. intros [= <-]. by split_and!.
Qed.

Lemma wp_cachedActive {A} st (k : option ConfigSnapshot -> program A) n L Q s : quiet c s0 n L s ->
  (forall s2 x, quiet c s0 n L s2 ->
    (forall snapshot, x = Some snapshot -> exists r, contents snapshot (committed s2) r) -> wp c (k x) Q s2) ->
  wp c (cachedActive st ≫= k) Q s.
Proof.
  intros Hs Hk. unfold cachedActive. destruct (negb (hasRedis st)); [by apply Hk|].
  apply (wp_get c s0 _ n L); [exact Hs|]. clear s Hs. intros s raw Hs Hraw. apply Hk; [done|].
  intros snapshot Hr. destruct raw as [[raw|]|]; [|done..].
  destruct (Hraw raw eq_refl) as (snapshot0 & -> & r & c0 & Hin & Hv & Ha & Hp & Hm0 & Hm & Hn).
  destruct (readCached_inv _ _ Hm Hr) as (E1 & E2 & E3 & E4). exists r.
  split_and!; [done|congruence|congruence| |done]. exists c0. split_and!; [done|done|congruence].
Qed.

(** ** Loading *)

(** Loaded while active, or, when the database did not answer, from some earlier time. *)
Definition loaded (n : nat) (res : reply ConfigSnapshot) (s : state) : Prop :=
  match res with
  | inl snapshot =>
      (exists T r, quiet c s0 n [T] s /\ contents snapshot T r /\ row_Active r = true)
      \/ (quiet c s0 (S n) [] s /\ exists T r, T ∈ history s /\ contents snapshot T r)
  | inr _ => quiet c s0 n [] s
  end.

Lemma wp_reload st n T r s : quiet c s0 n [T] s -> r ∈ config_snapshots T -> row_Active r = true ->
  wp c (reload st (row_Version r) (row_At r)) (loaded n) s.
Proof.
  intros Hs Hr Ha. unfold reload, orFail.
  apply (wp_exec c s0 (SelectPayload (row_Version r)) _ n [T]); [by intros now T0 w x Ht [= <-]|exact Hs| |].
  2: intros s2 err [? ? ? ? ?] _; by constructor.
  clear s Hs. intros s1 now w x Hrun. injection Hrun as <- <-. cbv zeta. unfold id. set (T1 := committed s1). intros Hs.
  destruct (quiet_past _ _ _ _ _ T Hs (list_elem_of_further _ _ _ (list_elem_of_here _ _))) as [He _].
  pose proof (inv_tables _ (quiet_inv _ _ _ _ _ Hs)) as HT1. cbn in He, HT1.
  revert Hs. generalize (@publish schema T1 s1). clearbody T1. clear s1. intros s Hs.
  destruct (rowOf _ _) as [r'|] eqn:Er; cbn [fmap option_fmap option_map]; [|constructor; apply Hs || constructor].
  apply rowOf_inv in Er as [Hr' Ev].
  destruct (loadConfig (row_Payload r')) as [cfg|err] eqn:El; [|constructor; apply Hs || constructor].
  destruct (loaded_contents _ _ _ HT1 Hr' El) as [Hc Hrow].
  destruct (extends_row _ _ _ He Hr) as (r2 & Hr2 & Ev2 & Ep2 & Ea2).
  assert (r2 = r') as -> by (eapply same_version; [apply HT1|done|done|congruence]).
  rewrite Ev, <- Ea2 in Hc, Hrow. apply (wp_cache c s0 _ _ _ n [T1; T] _ _ T1); [exact Hs|by left|exact Hrow|].
  clear s Hs. intros s _ Hs. left. exists T, r. split_and!; [by eapply quiet_drop|by eapply contents_of|done].
Qed.

Lemma wp_LoadActive st n s : hasDB st = true -> quiet c s0 n [] s ->
  wp c (LoadActive st) (loaded n) s.
Proof.
  intros Hdb Hs. unfold LoadActive. rewrite Hdb. cbn [negb].
  apply (wp_exec c s0 SelectActive _ n []); [by intros now T w r Ht [= <-]|exact Hs| |].
  - clear s Hs. intros s1 now w x Hrun. injection Hrun as <- <-. cbv zeta. unfold id. set (T := committed s1).
    generalize (@publish schema T s1). clearbody T. clear s1. intros s Hs.
    destruct (topActive (config_snapshots T)) as [r|] eqn:Etop; cbn [fmap option_fmap option_map].
    2: { constructor; apply Hs || constructor. }
    apply topActive_rows in Etop as [Hr Ha].
    apply (wp_cachedActive _ _ n [T]); [exact Hs|]. clear s Hs. intros s cached Hs Hcached.
    destruct (quiet_past _ _ _ _ _ _ Hs (list_elem_of_here _ _)) as [He HT].
    destruct cached as [snapshot|]; cbn [mbind option_bind].
    + case_guard as Ev; cbn [mbind option_bind mfail option_mfail]; [|by apply wp_reload with T].
      left. destruct (Hcached snapshot eq_refl) as [r' Hc]. exists T, r. split_and!; [done| |done].
      eapply (contents_of _ _ _ _ r'); [apply (inv_tables _ (quiet_inv _ _ _ _ _ Hs))|exact He|done|done|done].
    + by apply wp_reload with T.
  - clear s Hs. intros s err Hq [Hf|(now & T & Hf)]; [|done].
    apply (wp_cachedActive _ _ (S n) []); [exact Hf|]. clear s Hq Hf. intros s [snapshot|] Hs Hcached.
    + right. split; [done|]. destruct (Hcached snapshot eq_refl) as [r Hc]. exists (committed s), r.
      split; [|done]. pose proof (inv_now _ (quiet_inv _ _ _ _ _ Hs)) as Hn.
      destruct (history s) as [|T h]; [done|]. injection Hn as ->. by left.
    + by apply quiet_less.
Qed.

Lemma wp_LoadVersion v n L s : quiet c s0 n L s -> wp c (LoadVersion v) (fun res s2 => quiet c s0 n L s2
  /\ forall snapshot, res = inl snapshot -> exists T r, T ∈ history s2 /\ contents snapshot T r
       /\ cs_Version snapshot = v) s.
Proof.
  intros Hs. unfold LoadVersion, orFail.
  apply (wp_exec c s0 (SelectVersion v) _ n L); [by intros now T0 w x Ht [= <-]|exact Hs| |].
  2: intros s2 err Hq _; by split.
  clear s Hs. intros s1 now w x Hrun. injection Hrun as <- <-. cbv zeta. unfold id. set (T := committed s1). intros Hs.
  pose proof (inv_tables _ (quiet_inv _ _ _ _ _ Hs)) as HT1. cbn in HT1.
  apply quiet_drop in Hs as Hq.
  destruct (rowOf v (config_snapshots T)) as [r|] eqn:Er; cbn [fmap option_fmap option_map]; [|done].
  apply rowOf_inv in Er as [Hr <-]. destruct (loadConfig (row_Payload r)) as [cfg|err] eqn:El; [|done].
  split; [done|]. intros snapshot [= <-]. exists T, r.
  split_and!; [by left|by apply loaded_contents|done].
Qed.

(** ** Drafts *)

Lemma wp_GetDraft n L s : quiet c s0 n L s -> wp c GetDraft (fun _ s2 => quiet c s0 n L s2) s.
Proof.
  intros Hs. unfold GetDraft, orFail.
  apply (wp_exec c s0 SelectDraft _ n L); [by intros now T0 w x Ht [= <-]|exact Hs| |].
  2: by intros s2 err Hq _.
  intros s1 now w x _ T Hq. by eapply quiet_drop.
Qed.

Lemma wp_PutDraft cfg uid n L s : machine_config cfg -> quiet c s0 n L s ->
  wp c (PutDraft cfg uid) (fun _ s2 => quiet c s0 n L s2) s.
Proof.
  intros Hm Hs. unfold PutDraft, orFail.
  apply (wp_exec c s0 (UpsertDraft _ _) _ n L); [|exact Hs| |by intros s2 err Hq _].
  { intros now T w x [Ht _] [= <-]. split; [|done]. split; [exact Ht|]. intros d. cbn. intros [= <-].
    exists (NormalizeStrategySizing cfg). split; [done|by apply normalize_machine]. }
  clear s Hs. intros s1 now w x _ T Hs. unfold audit.
  apply quiet_drop in Hs as Hq.
  apply (wp_exec c s0 (InsertAudit _) _ n L); [by intros ? ? ? ? Ht [= <-]|exact Hq| |by intros s2 err Hq2 _].
  intros s2 now2 w2 y _ T2 Hq2. by eapply quiet_drop.
Qed.
End Client.
End Ops.
