(* ===== verification/ConfigstoreSafety.v ===== *)
(** What holds of the configuration store whatever its clients do at the same time. *)
From S2P Require Import Prelude Decimal Domain Config Json World Rpc Process Scheduler Wire Configdiff ConfigJson Shared Configstore ConfigstoreFacts ConfigstoreOps.
Import Configstore.

Open Scope string_scope.
Open Scope list_scope.
Open Scope Z_scope.

(** ** Clients of the store *)

Inductive call : Type -> Type :=
  | CallGetDraft : call (reply Config)
  | CallPutDraft (cfg : Config) (userID : Z) : call (reply unit)
  | CallPublishDraft (userID : Z) : call (reply ConfigSnapshot)
  | CallSaveActive (cfg : Config) (userID : Z) : call (reply ConfigSnapshot)
  | CallLoadActive : call (reply ConfigSnapshot)
  | CallLoadVersion (version : Z) : call (reply ConfigSnapshot).

(** The configurations that callers hand over have machine integers. *)
Definition machine_call {A} (q : call A) : Prop :=
  match q with CallPutDraft cfg _ | CallSaveActive cfg _ => machine_config cfg | _ => True end.

#[local] Existing Instance Rel_preorder.

Section Safety.
Context `{MapRange}.

Definition perform (st : Store) {A} (q : call A) : program A :=
  match q with
  | CallGetDraft => GetDraft
  | CallPutDraft cfg userID => PutDraft cfg userID
  | CallPublishDraft userID => PublishDraft st userID
  | CallSaveActive cfg userID => SaveActive st cfg userID
  | CallLoadActive => LoadActive st
  | CallLoadVersion version => LoadVersion version
  end.

(** A program that acts on the database and the cache through the store only. *)
Inductive client : program unit -> Prop :=
  | client_done : client (Return tt)
  | client_call st A (q : call A) k : machine_call q -> (forall a, client (k a)) ->
      client (perform st q ≫= k).

Definition clients (ts : pool) : Prop := forall c p, ts !! c = Some p -> client p.

Context `{!Database}.

Lemma quiet_start c s : Inv s -> open s !! c = None -> quiet c s (faults_of c s) [] s.
Proof. intros Hi Ho. by constructor. Qed.

Lemma wp_perform c s0 st A (q : call A) n s : machine_call q -> quiet c s0 n [] s ->
  wp c (perform st q) (fun _ s2 => quiet c s0 0 [] s2) s.
Proof.
  intros Hm Hs. destruct q; cbn [machine_call perform] in *.
  - eapply wp_mono; [|by apply wp_GetDraft]. intros ? s2. apply quiet_forgets.
  - eapply wp_mono; [|by apply wp_PutDraft]. intros ? s2. apply quiet_forgets.
  - eapply wp_mono; [|eapply wp_PublishDraft; exact Hs]. apply finished_quiet.
  - eapply wp_mono; [|eapply wp_SaveActive; [exact Hm|exact Hs]]. apply finished_quiet.
  - destruct (hasDB st) eqn:Hdb.
    + eapply wp_mono; [|by apply wp_LoadActive]. intros [snapshot|err] s2; [|apply quiet_forgets].
      intros [(T & r & Hq & _)|[Hq _]]; by eapply quiet_forgets.
    + unfold LoadActive. rewrite Hdb. apply (wp_cachedActive c s0 _ _ n []); [exact Hs|].
      intros s2 x Hq _. by eapply quiet_forgets.
  - eapply wp_mono; [|by apply wp_LoadVersion]. intros ? s2 [Hq _]. by eapply quiet_forgets.
Qed.

Lemma wp_client c p s : client p -> Inv s -> open s !! c = None -> wp c p (fun _ _ => True) s.
Proof.
  intros Hp. revert s. induction Hp as [|st A q k Hm Hk IH]; intros s Hi Ho; [done|].
  apply wp_bind. eapply wp_mono; [|eapply (wp_perform c s); [done|by apply quiet_start]].
  intros a s2 Hq. apply IH; apply Hq.
Qed.

(** ** Runs from an empty database *)

Lemma start_inv : Inv (start empty).
Proof.
  assert (Ht : tables_ok empty) by (split; [constructor|done]).
  constructor; [done|done| |done|].
  - constructor; [|done]. split; [done|apply extends_refl].
  - intros l c c' Hl. by apply elem_of_nil in Hl.
Qed.

(** What every configuration that clients can reach satisfies. *)
Record reached (x : pool * state) : Prop := {
  reached_inv : Inv x.2;
  reached_disciplined : disciplined x;
  reached_absent c : x.1 !! c = None -> open x.2 !! c = None
}.

Lemma reached_start ts : clients ts -> reached (ts, start empty).
Proof.
  intros Hts. constructor; [apply start_inv| |done]. intros c p Hp. apply wp_client; [by eapply Hts|apply start_inv|done].
Qed.

Lemma between_relies c s s' : between s s' -> relies c s s'.
Proof. exact (Rel_between c s s'). Qed.

Lemma reached_step x y : reached x -> pstep x y -> reached y.
Proof.
  intros [Hi Hd Ha] Hs. pose proof (disciplined_step x y Hd Hs) as Hd'.
  destruct Hs as [c o k ts s s' a Hc Hserve|ts s s' Hb]; simpl in *.
  - destruct (Hd c _ Hc s (reflexivity s) _ _ Hserve) as [Hg _]. destruct (Hg Hi) as (Hi' & _ & Ho & _).
    constructor; [done|done|]. simpl. intros c' [Hc' Hne]%lookup_insert_None. destruct (Ho c') as [E _]; [done|]. exact (eq_trans E (Ha c' Hc')).
  - constructor; [|done|]; simpl.
    + by destruct (between_relies 0%nat _ _ Hb Hi).
    + intros c Hc. destruct (between_relies c _ _ Hb Hi) as (_ & _ & _ & [E|[E _]]); [exact E|exact (eq_trans E (Ha c Hc))].
Qed.

Lemma reached_steps x y : reached x -> rtc pstep x y -> reached y.
Proof. intros Hx. induction 1 as [|x y z Hs _ IH]; [done|]. by eapply IH, reached_step. Qed.

(** A call of a client that takes part in nothing else. *)
Lemma runs_wp {A} c x (p : program A) y a (Q : A -> state -> Prop) : reached x -> x.1 !! c = None ->
  (forall a, stable c (Q a)) -> (quiet c x.2 (faults_of c x.2) [] x.2 -> wp c p Q x.2) ->
  runs c x p y a -> Q a y.2.
Proof.
  intros [Hi Hd Ha] Hc HQ Hw Hr.
  by destruct (wp_runs c x p y a Q HQ Hc Hd (Hw (quiet_start _ _ Hi (Ha c Hc))) Hr) as [? _].
Qed.

(** C12: however many clients publish, save, load and draft at the same time, with calls that
    fail at any point, answers that are lost and clients that die in a transaction: the
    versions in the table are always 1, 2, 3, ... without gaps, exactly the newest is
    active, every stored configuration has passed the validation, a committed row is
    never changed again but for its flag, and the cache holds nothing but the content
    of a committed row. *)
Theorem store_consistent ts y : clients ts -> rtc pstep (ts, start empty) y ->
  tables_ok (committed y.2) /\ cache_ok y.2
  /\ forall x, rtc pstep (ts, start empty) x -> rtc pstep x y ->
       extends (config_snapshots (committed x.2)) (config_snapshots (committed y.2)).
Proof.
  intros Hts Hy. pose proof (reached_steps _ _ (reached_start _ Hts) Hy) as [Hi _ _].
  split_and!; [by apply Hi|by apply Hi|]. intros x Hx Hxy.
  pose proof (reached_steps _ _ (reached_start _ Hts) Hx) as [Hix Hdx _].
  assert (Hs : history x.2 `suffix_of` history y.2).
  { clear -Hix Hdx Hxy. revert Hix Hdx. induction Hxy as [|x y z Hs _ IH]; [done|]. intros Hi Hd.
    pose proof (disciplined_step x y Hd Hs) as Hd'. etrans; [|apply IH; [|done]];
    (destruct Hs as [c o k ts s s' a Hc Hserve|ts s s' Hb]; simpl in *;
     [destruct (Hd c _ Hc s (reflexivity s) _ _ Hserve) as [Hg _]; destruct (Hg Hi) as (? & ? & _)
     |destruct (between_relies 0%nat _ _ Hb Hi) as (? & ? & _)]; done). }
  pose proof (proj1 (Forall_forall _ _) (inv_past _ Hi) (committed x.2)) as Hp. apply Hp.
  destruct Hs as [h ->]. apply elem_of_app. right. pose proof (inv_now _ Hix) as Hn.
  destruct (history x.2) as [|T h']; [done|]. injection Hn as ->. by left.
Qed.

(** The tables that were the committed ones at some moment between two states. *)
Definition during (s s' : state) (T : Tables) : Prop :=
  T ∈ take (S (length (history s') - length (history s))) (history s').

Lemma loaded_stable c s0 n res : stable c (loaded c s0 n res).
Proof.
  intros s s' Hl Hr. destruct res as [snapshot|err]; simpl in *; [|by eapply quiet_stable].
  destruct Hl as [(T & r & Hq & Hx)|[Hq (T & r & HT & Hx)]].
  - left. exists T, r. split; [by eapply quiet_stable|done].
  - right. split; [by eapply quiet_stable|]. exists T, r. split; [|done].
    destruct (Hr (quiet_inv _ _ _ _ _ Hq)) as (_ & [h ->] & _). apply elem_of_app. by right.
Qed.

Lemma finished_stable c s0 F res : stable c (finished c s0 F res).
Proof.
  intros s s' Hf Hr. destruct res as [snapshot|err]; simpl in *; [|by eapply quiet_stable].
  destruct Hf as (T & Hq & HF). exists T. split; [by eapply quiet_stable|done].
Qed.

(** C13: loading the active configuration gives a committed, validated one whole, its version
    with its own content, whether it comes from the database or from the cache; and
    unless a call of this client to the database failed, that version was the active one
    at some moment of the call. *)
Theorem load_active_current ts x c st y snapshot : clients ts -> rtc pstep (ts, start empty) x ->
  x.1 !! c = None -> hasDB st = true -> runs c x (LoadActive st) y (inl snapshot) ->
  exists T r, T ∈ history y.2 /\ contents snapshot T r
    /\ (faults_of c y.2 = faults_of c x.2 -> during x.2 y.2 T /\ row_Active r = true).
Proof.
  intros Hts Hx Hc Hdb Hr. pose proof (reached_steps _ _ (reached_start _ Hts) Hx) as Hreach.
  pose proof (runs_wp c x _ y _ _ Hreach Hc (loaded_stable c x.2 _) (wp_LoadActive c x.2 st _ _ Hdb) Hr) as Hl.
  destruct Hl as [(T & r & Hq & Hx' & Ha)|[Hq (T & r & HT & Hx')]]; exists T, r.
  - pose proof (quiet_seen _ _ _ _ _ Hq) as Hs. apply Forall_inv in Hs.
    split_and!; [exact (seen_past _ _ _ Hs)|done|by split].
  - split_and!; [done|done|]. intros Hf. pose proof (quiet_faults _ _ _ _ _ Hq). lia.
Qed.

(** C14: when saving a configuration reports success, then at one moment during the call it
    became the active row, together with an equal draft, under a version above all those
    committed before the call; what was saved had passed the validation. *)
Theorem save_takes_effect ts x c st cfg uid y snapshot : clients ts -> rtc pstep (ts, start empty) x ->
  x.1 !! c = None -> machine_config cfg -> runs c x (SaveActive st cfg uid) y (inl snapshot) ->
  exists T, during x.2 y.2 T /\ is_published T snapshot
    /\ cs_Config snapshot = NormalizeStrategySizing cfg /\ invalid (cs_Config snapshot) = None
    /\ mirrored (marshal (cs_Config snapshot)) (draft_configs T)
    /\ forall T0, T0 ∈ history x.2 -> Z.of_nat (length (config_snapshots T0)) < cs_Version snapshot.
Proof.
  intros Hts Hx Hc Hm Hr. pose proof (reached_steps _ _ (reached_start _ Hts) Hx) as Hreach.
  pose proof (runs_wp c x _ y _ _ Hreach Hc (finished_stable c x.2 _)
    (wp_SaveActive c x.2 st cfg uid _ _ _ Hm) Hr) as (T & Hq & Hp & Hcfg & Hv & HD & Hn).
  exists T. pose proof (quiet_seen _ _ _ _ _ Hq) as Hs. apply Forall_inv in Hs.
  split; [exact Hs|]. split; [exact Hp|]. rewrite Hcfg. by split_and!.
Qed.
End Safety.
