(* ===== verification/Password.v ===== *)
(** Passwords (src/internal/auth/password.go): the stored form of a password, its reading
    and its verification.  The key derivation is a parameter, class [Argon2]. *)
From S2P Require Import Prelude DecimalText Sha256 World Shared.

Open Scope string_scope.
Open Scope list_scope.
Open Scope Z_scope.

(** golang.org/x/crypto/argon2: the key has the length asked for. *)
Class Argon2 := {
  IDKey (password : string) (salt : list Z) (time memory threads : Z) (keyLen : nat) : list Z;
  IDKey_length password salt time memory threads keyLen :
    length (IDKey password salt time memory threads keyLen) = keyLen;
  IDKey_bytes password salt time memory threads keyLen :
    Forall (fun b => 0 <= b < 256) (IDKey password salt time memory threads keyLen)
}.

(** ** base64.RawStdEncoding *)

Definition base64_char (n : Z) : ascii :=
  ascii_of_N (Z.to_N (if n <? 26 then 65 + n else if n <? 52 then 71 + n
    else if n <? 62 then n - 4 else if n =? 62 then 43 else 47)).

Definition base64_value (c : ascii) : option Z :=
  let n := Z.of_N (N_of_ascii c) in
  if (65 <=? n) && (n <=? 90) then Some (n - 65)
  else if (97 <=? n) && (n <=? 122) then Some (n - 71)
  else if (48 <=? n) && (n <=? 57) then Some (n + 4)
  else if n =? 43 then Some 62 else if n =? 47 then Some 63 else None.

Fixpoint EncodeToString (l : list Z) : string :=
  match l with
  | [] => ""
  | [a] => String (base64_char (a / 4)) (String (base64_char (a mod 4 * 16)) "")
  | [a; b] => String (base64_char (a / 4)) (String (base64_char (a mod 4 * 16 + b / 16))
      (String (base64_char (b mod 16 * 4)) ""))
  | a :: b :: c :: l => String (base64_char (a / 4)) (String (base64_char (a mod 4 * 16 + b / 16))
      (String (base64_char (b mod 16 * 4 + c / 64)) (String (base64_char (c mod 64)) (EncodeToString l))))
  end.

(** Line breaks are ignored, and so are the bits left over at the end. *)
Fixpoint no_breaks (s : string) : string :=
  match s with
  | "" => ""
  | String c s => let n := Z.of_N (N_of_ascii c) in
      if (n =? 10) || (n =? 13) then no_breaks s else String c (no_breaks s)
  end.

Fixpoint decode_quads (s : string) : option (list Z) :=
  match s with
  | "" => Some []
  | String c1 (String c2 "") =>
      a ← base64_value c1; b ← base64_value c2; Some [a * 4 + b / 16]
  | String c1 (String c2 (String c3 "")) =>
      a ← base64_value c1; b ← base64_value c2; c ← base64_value c3;
      Some [a * 4 + b / 16; b mod 16 * 16 + c / 4]
  | String c1 (String c2 (String c3 (String c4 s))) =>
      a ← base64_value c1; b ← base64_value c2; c ← base64_value c3; d ← base64_value c4;
      rest ← decode_quads s;
      Some (a * 4 + b / 16 :: b mod 16 * 16 + c / 4 :: c mod 4 * 64 + d :: rest)
  | _ => None
  end.
Definition DecodeString (s : string) : option (list Z) := decode_quads (no_breaks s).

(** ** The parameters *)

Definition argonTime : Z := 3.
Definition argonMemory : Z := 64 * 1024.
Definition argonThreads : Z := 2.
Definition argonKeyLen : nat := 32.

(** A number of a [fmt.Sscanf] format, with its width in bits; blanks before it are skipped. *)
Fixpoint scanUint (bits : Z) (s : string) : option (Z * string) :=
  match s with
  | "" => None
  | String c s' =>
      if is_space c then
        if Ascii.eqb c (ascii_of_nat 10) then None else scanUint bits s'
      else
        match scan_digits s 0 with
        | (_, O, _) => None
        | (n, _, rest) => if n <? 2 ^ bits then Some (n, rest) else None
        end
  end.
Definition scanText (text s : string) : option string :=
  if HasPrefix s text then Some (drop_string (String.length text) s) else None.

(** [fmt.Sscanf(s, "m=%d,t=%d,p=%d", ...)] into two 32-bit numbers and one of 8 bits. *)
Definition scanParameters (s : string) : option (Z * Z * Z) :=
  s ← scanText "m=" s; '(memory, s) ← scanUint 32 s;
  s ← scanText ",t=" s; '(iterations, s) ← scanUint 32 s;
  s ← scanText ",p=" s; '(threads, _) ← scanUint 8 s;
  Some (memory, iterations, threads).

(** ** The functions *)

Section Password.
Context `{!Argon2}.

(** [subtle.ConstantTimeCompare(a, b) == 1] *)
Definition ConstantTimeCompare (a b : list Z) : bool := bool_decide (a = b).

Definition encodeHash (salt hash : list Z) : string :=
  "$argon2id$v=19$m=" +:+ FormatUint argonMemory 10 +:+ ",t=" +:+ FormatUint argonTime 10
  +:+ ",p=" +:+ FormatUint argonThreads 10 +:+ "$" +:+ EncodeToString salt +:+ "$" +:+ EncodeToString hash.

Definition hashOf (password : string) (salt : list Z) : list Z :=
  IDKey password salt argonTime argonMemory argonThreads argonKeyLen.

Definition HashPassword `{Schema} (password : string) : program (reply string) :=
  if (String.length password <? 12)%nat
  then Return (inr (Errorf "password must contain at least 12 characters")) else
  orFail (ask (RandomBytes 16)) (fun salt : list Z =>
  Return (inl (encodeHash salt (hashOf password salt)))).

Definition VerifyPassword (encoded password : string) : bool :=
  match Split "$" encoded with
  | [_; algorithm; _; parameters; salt; hash] =>
      if negb (String.eqb algorithm "argon2id") then false else
      match scanParameters parameters, DecodeString salt, DecodeString hash with
      | Some (memory, iterations, threads), Some salt, Some expected =>
          ConstantTimeCompare
            (IDKey password salt iterations memory threads (length expected)) expected
      | _, _, _ => false
      end
  | _ => false
  end.
End Password.

(** ** base64 read back *)

Definition is_byte (b : Z) : Prop := 0 <= b < 256.

Lemma base64_value_char n : 0 <= n < 64 -> base64_value (base64_char n) = Some n.
Proof.
  intros Hn. assert (Hall : forallb (fun n => bool_decide (base64_value (base64_char n) = Some n))
    (map Z.of_nat (seq 0 64)) = true) by by vm_compute.
  rewrite forallb_forall in Hall. eapply bool_decide_eq_true_1, Hall.
  apply in_map_iff. exists (Z.to_nat n). split; [lia|]. apply in_seq. lia.
Qed.

(** What stands in the stored form: neither separators nor line breaks. *)
Definition plain_char (c : ascii) : bool :=
  let n := Z.of_N (N_of_ascii c) in negb (Ascii.eqb c "$") && negb ((n =? 10) || (n =? 13)).

Lemma base64_char_plain n : 0 <= n < 64 -> plain_char (base64_char n) = true.
Proof.
  intros Hn. assert (Hall : forallb (fun n => plain_char (base64_char n)) (map Z.of_nat (seq 0 64)) = true) by by vm_compute.
  rewrite forallb_forall in Hall. apply Hall. apply in_map_iff. exists (Z.to_nat n). split; [lia|]. apply in_seq. lia.
Qed.

(** Lists in threes. *)
Lemma list_threes (P : list Z -> Prop) : P [] -> (forall a, P [a]) -> (forall a b, P [a; b]) ->
  (forall a b c l, P l -> P (a :: b :: c :: l)) -> forall l, P l.
Proof.
  intros H0 H1 H2 H3. fix IH 1. intros [|a [|b [|c l]]]; [done|done|done|]. apply H3, IH.
Qed.

Ltac bytes_lia := unfold is_byte in *; Z.to_euclidean_division_equations; lia.
Ltac digits := repeat (rewrite base64_value_char; [|bytes_lia]); cbn [mbind option_bind].

Lemma EncodeToString_plain l : Forall is_byte l -> forall_string plain_char (EncodeToString l) = true.
Proof.
  induction l as [|a|a b|a b c l IH] using list_threes; intros Hl; decompose_Forall_hyps; cbn;
    rewrite ?base64_char_plain by bytes_lia; auto.
Qed.

Lemma no_breaks_plain s : forall_string plain_char s = true -> no_breaks s = s.
Proof.
  induction s as [|c s IH]; cbn; [done|]. intros [Hc Hs]%andb_prop.
  apply andb_prop in Hc as [_ Hc%negb_true_iff]. by rewrite Hc, IH.
Qed.

Lemma decode_encode l : Forall is_byte l -> DecodeString (EncodeToString l) = Some l.
Proof.
  intros Hl. unfold DecodeString. rewrite no_breaks_plain by by apply EncodeToString_plain.
  revert Hl. induction l as [|a|a b|a b c l IH] using list_threes; intros Hl; decompose_Forall_hyps.
  - done.
  - cbn. digits. do 2 f_equal. bytes_lia.
  - cbn. digits. do 2 f_equal; [bytes_lia|]. f_equal. bytes_lia.
  - cbn. digits. rewrite IH by done. cbn. do 2 f_equal; [bytes_lia|]. f_equal; [bytes_lia|]. f_equal. bytes_lia.
Qed.

(** ** Stored passwords verified *)

Lemma plain_separated s : forall_string plain_char s = true ->
  forall_string (fun c => negb (Ascii.eqb c "$")) s = true.
Proof.
  induction s as [|c s IH]; cbn; [done|]. intros [Hc Hs]%andb_prop.
  apply andb_prop in Hc as [-> _]. by rewrite IH.
Qed.

Section Verified.
Context `{!Argon2}.

Lemma Split_encodeHash salt hash : Forall is_byte salt -> Forall is_byte hash ->
  Split "$" (encodeHash salt hash)
  = [""; "argon2id"; "v=19"; "m=65536,t=3,p=2"; EncodeToString salt; EncodeToString hash].
Proof.
  intros Hs Hh.
  set (rest := EncodeToString salt +:+ String "$" (EncodeToString hash)).
  transitivity ("" :: "argon2id" :: "v=19" :: "m=65536,t=3,p=2" :: Split "$" rest); [done|].
  unfold rest. rewrite Split_more, Split_one by by apply plain_separated, EncodeToString_plain. done.
Qed.

(** The stored form of a password is read back exactly (base64, separators, numbers), so
    it accepts a password if and only if that derives the same key with the same salt. *)
Theorem verify_hashed p q salt : Forall is_byte salt ->
  VerifyPassword (encodeHash salt (hashOf p salt)) q = true <-> hashOf q salt = hashOf p salt.
Proof.
  intros Hs. unfold VerifyPassword. rewrite Split_encodeHash; [|done|apply IDKey_bytes].
  rewrite !decode_encode; [|apply IDKey_bytes|done]. cbn [negb String.eqb Ascii.eqb Bool.eqb].
  change (scanParameters "m=65536,t=3,p=2") with (Some (argonMemory, argonTime, argonThreads)).
  cbv beta iota zeta. unfold hashOf at 1. rewrite IDKey_length. apply bool_decide_eq_true.
Qed.
End Verified.
