(* ===== verification/Credentials.v ===== *)
(** The credentials of the exchanges (src/internal/credentials/service.go, migration 002).

    A key and its secret are sealed with AES-256-GCM under the master key, the exchange being
    part of the additional data; the rows carry the last characters and a fingerprint of the
    key for display.  The methods are programs of statements as in internal/auth, among other
    clients of the same table.  [Update] reads its row FOR UPDATE. *)
From S2P Require Import Prelude DecimalText Domain Json World Rpc Sha256 Wire Shared Password AesGcm.
Import AesGcm.

Open Scope string_scope.
Open Scope list_scope.
Open Scope Z_scope.

Module Credentials.

(** ** The table *)

Record Credential := MkCredential {
  c_ID : Z; c_Name : string; c_VenueType : string; c_KeyCipher : list Z; c_SecretCipher : list Z;
  c_Last4 : string; c_Fingerprint : string; c_Enabled : bool;
  c_CreatedBy : option Z; c_UpdatedBy : option Z; c_CreatedAt : Time; c_UpdatedAt : Time
}.

(** [user_ids]: the users, whom created_by and updated_by refer to. *)
Record Tables := MkTables { venue_credentials : list Credential; user_ids : list Z }.
Definition set_credentials (l : list Credential) (T : Tables) : Tables := MkTables l (user_ids T).

Definition credential (id : Z) (T : Tables) : option Credential :=
  find (fun row => c_ID row =? id) (venue_credentials T).

Record Metadata := MkMetadata {
  m_ID : Z; m_Name : string; m_VenueType : string; m_APIKeyLast4 : string; m_Fingerprint : string;
  m_Enabled : bool; m_UpdatedAt : Time
}.
Definition metadata (row : Credential) : Metadata :=
  MkMetadata (c_ID row) (c_Name row) (c_VenueType row) (c_Last4 row) (c_Fingerprint row) (c_Enabled row) (c_UpdatedAt row).

(** What an update sets. *)
Record Change := MkChange {
  ch_Name : string; ch_KeyCipher : list Z; ch_SecretCipher : list Z; ch_Last4 : string;
  ch_Fingerprint : string; ch_Enabled : bool; ch_UpdatedBy : option Z
}.
Definition changed (ch : Change) (now : Time) (row : Credential) : Credential :=
  MkCredential (c_ID row) (ch_Name ch) (c_VenueType row) (ch_KeyCipher ch) (ch_SecretCipher ch) (ch_Last4 ch)
    (ch_Fingerprint ch) (ch_Enabled ch) (c_CreatedBy row) (ch_UpdatedBy ch) (c_CreatedAt row) now.
Definition update_row (id : Z) (f : Credential -> Credential) (T : Tables) : Tables :=
  set_credentials (map (fun row => if c_ID row =? id then f row else row) (venue_credentials T)) T.

(** ** Statements *)

Inductive Query :=
  | SelectAll
  | InsertCredential (name venueType : string) (key secret : list Z) (last fprint : string) (user : option Z)
  | SelectForUpdate (id : Z)
  | UpdateCredential (ch : Change) (id : Z)
  | SelectSecret (id : Z)
  | SelectReference (id : Z).

Definition Rows (q : Query) : Type :=
  match q with
  | SelectAll => list Metadata
  | InsertCredential _ _ _ _ _ _ _ => Metadata
  | SelectForUpdate _ => option Credential
  | UpdateCredential _ _ => option Metadata
  | SelectSecret _ => option (string * list Z * list Z * bool)
  | SelectReference _ => option (string * bool)
  end.

(** ORDER BY venue_type, name *)
Definition by_venue (a b : Metadata) : Prop :=
  if String.eqb (m_VenueType a) (m_VenueType b) then string_le (m_Name a) (m_Name b)
  else string_le (m_VenueType a) (m_VenueType b).
#[export] Instance by_venue_dec a b : Decision (by_venue a b).
Proof. unfold by_venue. destruct (String.eqb _ _); apply _. Defined.

(** The constraints of the table. *)
Definition serial (drawn : list Z) (T : Tables) : option Z :=
  n ← head drawn;
  if bool_decide (0 < n) && negb (existsb (fun row => c_ID row =? n) (venue_credentials T)) then Some n else None.
Definition name_taken (name : string) (except : Z) (T : Tables) : bool :=
  existsb (fun row => String.eqb (c_Name row) name && negb (c_ID row =? except)) (venue_credentials T).
Definition known_user (user : option Z) (T : Tables) : bool :=
  match user with Some u => bool_decide (u ∈ user_ids T) | None => true end.
Definition known_venue (venueType : string) : bool := bool_decide (venueType ∈ ["binance"; "mgbx"]).

Definition run_query (q : Query) (now : Time) (drawn : list Z) (T : Tables) : option ((Tables -> Tables) * Rows q) :=
  match q return option ((Tables -> Tables) * Rows q) with
  | SelectAll => Some (id, merge_sort by_venue (map metadata (venue_credentials T)))
  | InsertCredential name venueType key secret last fprint user =>
      n ← serial drawn T;
      if name_taken name 0 T || negb (known_user user T) || negb (known_venue venueType) then None else
      let row := MkCredential n name venueType key secret last fprint true user user now now in
      Some (fun T => set_credentials (venue_credentials T ++ [row]) T, metadata row)
  | SelectForUpdate i => Some (id, credential i T)
  | UpdateCredential ch i =>
      if name_taken (ch_Name ch) i T || negb (known_user (ch_UpdatedBy ch) T) then None else
      Some (update_row i (changed ch now), (fun row => metadata (changed ch now row)) <$> credential i T)
  | SelectSecret i =>
      Some (id, (fun row => (c_VenueType row, c_KeyCipher row, c_SecretCipher row, c_Enabled row)) <$> credential i T)
  | SelectReference i => Some (id, (fun row => (c_VenueType row, c_Enabled row)) <$> credential i T)
  end.

Inductive Lock := RowLock (id : Z) | NameEntry (name : string).
#[export] Instance Lock_eq_dec : EqDecision Lock.
Proof. solve_decision. Defined.

Definition query_locks (q : Query) (drawn : list Z) (T : Tables) : list Lock :=
  match q with
  | InsertCredential name _ _ _ _ _ _ => NameEntry name :: map RowLock (take 1 drawn)
  | SelectForUpdate id => [RowLock id]
  | UpdateCredential ch id => [RowLock id; NameEntry (ch_Name ch)]
  | _ => []
  end.

#[export] Instance schema : Schema := {|
  tables := Tables; query := Query; rows := Rows; lock := Lock;
  conflict := fun a b => bool_decide (a = b); sql := run_query; locks_of := query_locks
|}.

(** ** Texts *)

Definition string_of (l : list Z) : string := foldr (fun b s => String (ascii_of_N (Z.to_N b)) s) "" l.

(** How many bytes the rune takes that the text starts with, when it starts with one. *)
Definition rune_width (l : list Z) : option nat :=
  let tail k := forallb (fun b => (128 <=? b) && (b <=? 191)) (take k (drop 2 l)) && (k + 2 <=? length l)%nat in
  match l with
  | [] => None
  | b :: l' =>
      let second lo hi := match l' with c :: _ => (lo <=? c) && (c <=? hi) | [] => false end in
      if b <? 128 then Some 1%nat
      else if (194 <=? b) && (b <=? 223) then if second 128 191 then Some 2%nat else None
      else if (224 <=? b) && (b <=? 239) then
        if second (if b =? 224 then 160 else 128) (if b =? 237 then 159 else 191) && tail 1%nat then Some 3%nat else None
      else if (240 <=? b) && (b <=? 244) then
        if second (if b =? 240 then 144 else 128) (if b =? 244 then 143 else 191) && tail 2%nat then Some 4%nat else None
      else None
  end.

(** [[]rune(value)]: each rune as the bytes it is written with; a byte that belongs to none
    becomes U+FFFD. *)
Fixpoint runes (fuel : nat) (l : list Z) : list (list Z) :=
  match fuel, l with
  | S n, _ :: _ =>
      match rune_width l with
      | Some k => take k l :: runes n (drop k l)
      | None => [239; 191; 189] :: runes n (drop 1 l)
      end
  | _, _ => []
  end.

Definition last4 (value : string) : string :=
  let l := bytes_of value in let r := runes (length l) l in
  string_of (concat (drop (length r - 4) r)).

Definition fingerprint (value : string) : string := hex_encode (take 6 (Sum256 (bytes_of value))).
Definition nullableUser (id : Z) : option Z := if id <=? 0 then None else Some id.
Definition validVenue (value : string) : bool := match AdapterSpecFor value with Some _ => true | None => false end.

Example last4_ex : map last4 ["abcdefgh"; "abc"; ""] = ["efgh"; "abc"; ""].
Proof. vm_compute. reflexivity. Qed.

(** ** The master key *)

(** [base64.StdEncoding]: groups of four, the last one filled up with =. *)
Definition equals : ascii := ascii_of_nat 61.
Fixpoint decode_padded (s : string) : option (list Z) :=
  match s with
  | "" => Some []
  | String c1 (String c2 (String c3 (String c4 s'))) =>
      if Ascii.eqb c4 equals then
        if String.eqb s' "" then
          if Ascii.eqb c3 equals then decode_quads (String c1 (String c2 ""))
          else decode_quads (String c1 (String c2 (String c3 "")))
        else None
      else
        group ← decode_quads (String c1 (String c2 (String c3 (String c4 ""))));
        rest ← decode_padded s'; Some (group ++ rest)
  | _ => None
  end.

Definition decodeMasterKey (encoded : string) : reply (list Z) :=
  let encoded := TrimSpace encoded in
  if String.eqb encoded "" then inr (Errorf "CREDENTIAL_MASTER_KEY is required") else
  let key := match decode_padded (no_breaks encoded) with Some key => Some key | None => DecodeString encoded end in
  match key with
  | Some key => if (length key =? 32)%nat then inl key
                else inr (Errorf "CREDENTIAL_MASTER_KEY must be base64 for exactly 32 bytes")
  | None => inr (Errorf "CREDENTIAL_MASTER_KEY must be base64 for exactly 32 bytes")
  end.

(** ** The service *)

Record Service := MkService { master : list Z }.
Record Secret := MkSecret { APIKey : string; APISecret : string }.

Definition NewService (encodedMasterKey : string) : reply Service :=
  match decodeMasterKey encodedMasterKey with inl key => inl (MkService key) | inr err => inr err end.

Definition encrypt (s : Service) (value aad : string) : program (reply (list Z)) :=
  orFail (ask (RandomBytes NonceSize)) (fun nonce : list Z =>
    Return (inl (nonce ++ Seal (master s) nonce (bytes_of value) (bytes_of aad)))).

Definition decrypt (s : Service) (value : list Z) (aad : string) : reply string :=
  if (length value <? NonceSize)%nat then inr (Errorf "invalid encrypted credential") else
  match Open (master s) (take NonceSize value) (drop NonceSize value) (bytes_of aad) with
  | Some plain => inl (string_of plain)
  | None => inr (Errorf "decrypt credential: cipher: message authentication failed")
  end.

Definition List : program (reply (list Metadata)) := ask (Exec SelectAll).

Definition Create (s : Service) (name venueType apiKey apiSecret : string) (userID : Z) : program (reply Metadata) :=
  let name := TrimSpace name in
  let venueType := ToLower (TrimSpace venueType) in
  let apiKey := TrimSpace apiKey in
  if String.eqb name "" || negb (validVenue venueType) || String.eqb apiKey "" || String.eqb apiSecret ""
  then Return (inr (Errorf "name, supported venue, api key and secret are required")) else
  orFail (encrypt s apiKey (venueType +:+ ":api-key")) (fun keyCipher =>
  orFail (encrypt s apiSecret (venueType +:+ ":api-secret")) (fun secretCipher =>
  ask (Exec (InsertCredential name venueType keyCipher secretCipher (last4 apiKey) (fingerprint apiKey) (nullableUser userID))))).

(** The key and the secret to store: a new one, or what the row has. *)
Definition newKey (s : Service) (row : Credential) (apiKey : string) : program (reply (list Z * string * string)) :=
  let apiKey := TrimSpace apiKey in
  if String.eqb apiKey "" then Return (inl (c_KeyCipher row, c_Last4 row, c_Fingerprint row)) else
  orFail (encrypt s apiKey (c_VenueType row +:+ ":api-key")) (fun cipher =>
  Return (inl (cipher, last4 apiKey, fingerprint apiKey))).
Definition newSecret (s : Service) (row : Credential) (apiSecret : string) : program (reply (list Z)) :=
  if String.eqb apiSecret "" then Return (inl (c_SecretCipher row))
  else encrypt s apiSecret (c_VenueType row +:+ ":api-secret").

Definition ErrNoRows : error := Errorf "no rows in result set".
Definition commit : program (reply unit) := checked (ask Commit).

Definition Update (s : Service) (i : Z) (name apiKey apiSecret : string) (enabled : option bool) (userID : Z)
    : program (reply Metadata) :=
  transaction (
    orFail (ask (TxExec (SelectForUpdate i))) (fun found : option Credential =>
    match found with
    | None => Return (inr (Errorf "credential not found"))
    | Some row =>
        let name := TrimSpace (if String.eqb (TrimSpace name) "" then c_Name row else name) in
        orFail (newKey s row apiKey) (fun '(keyCipher, last, fprint) =>
        orFail (newSecret s row apiSecret) (fun secretCipher =>
        let ch := MkChange name keyCipher secretCipher last fprint (default (c_Enabled row) enabled) (nullableUser userID) in
        orFail (ask (TxExec (UpdateCredential ch i))) (fun updated : option Metadata =>
        match updated with
        | None => Return (inr ErrNoRows)
        | Some item => orFail commit (fun _ => Return (inl item))
        end)))
    end)).

Definition notFound (i : Z) : error := Errorf ("credential " +:+ pretty i +:+ " not found").
Definition disabled (i : Z) : error := Errorf ("credential " +:+ pretty i +:+ " is disabled").
Definition foreign (i : Z) (venue expected : string) : error :=
  Errorf ("credential " +:+ pretty i +:+ " belongs to " +:+ venue +:+ ", expected " +:+ expected).

Definition Resolve (s : Service) (i : Z) (expectedVenue : string) : program (reply Secret) :=
  let expectedVenue := ToLower (TrimSpace expectedVenue) in
  orFail (ask (Exec (SelectSecret i))) (fun found : option (string * list Z * list Z * bool) =>
  match found with
  | None => Return (inr (notFound i))
  | Some (venue, keyCipher, secretCipher, enabled) =>
      if negb enabled then Return (inr (disabled i)) else
      if negb (String.eqb venue expectedVenue) then Return (inr (foreign i venue expectedVenue)) else
      orFail (Return (decrypt s keyCipher (venue +:+ ":api-key"))) (fun apiKey =>
      orFail (Return (decrypt s secretCipher (venue +:+ ":api-secret"))) (fun secret =>
      Return (inl (MkSecret apiKey secret))))
  end).

Definition ValidateReference (i : Z) (expectedVenue : string) : program (reply unit) :=
  let expectedVenue := ToLower (TrimSpace expectedVenue) in
  orFail (ask (Exec (SelectReference i))) (fun found : option (string * bool) =>
  match found with
  | None => Return (inr (notFound i))
  | Some (venue, enabled) =>
      if negb enabled then Return (inr (disabled i)) else
      if negb (String.eqb venue expectedVenue) then Return (inr (foreign i venue expectedVenue))
      else Return (inl tt)
  end).
End Credentials.
