(* ===== verification/Accounts.v ===== *)
(** Accounts, roles and sessions: the tables of the administration (migrations 001, 003,
    004) and src/internal/auth/service.go, every operation.

    Statements choose the rows they change in what they see, and take the row locks that
    PostgreSQL documents, those of foreign keys included: a row of user_roles keeps its user
    and its role from being locked FOR UPDATE.  Text is ordered bytewise; the values of
    sequences are any unused ones. *)
From S2P Require Import Prelude Json World Rpc Sha256 Wire Shared Password.

Open Scope string_scope.
Open Scope list_scope.
Open Scope Z_scope.

Module Accounts.

(** ** Tables *)

Record User := MkUser {
  u_ID : Z; u_Email : string; u_Hash : string; u_Enabled : bool; u_Version : Z;
  u_CreatedAt : Time; u_UpdatedAt : Time; u_LastLoginAt : option Time; u_PasswordChangedAt : Time
}.

Record Role := MkRole { r_ID : Z; r_Code : string; r_Name : string; r_All : bool }.
#[export] Instance Role_eq_dec : EqDecision Role.
Proof. solve_decision. Defined.

Record LogRow := MkLogRow {
  log_User : option Z; log_Action : string; log_Type : string; log_ID : string; log_Details : Json
}.

Record Tables := MkTables {
  users : list User;
  roles : list Role;
  permissions : list (string * string);
  user_roles : list (Z * Z);
  role_permissions : list (Z * string);
  role_instruments : list (Z * string);
  audit_logs : list LogRow
}.

Definition set_users (l : list User) (T : Tables) : Tables :=
  MkTables l (roles T) (permissions T) (user_roles T) (role_permissions T) (role_instruments T) (audit_logs T).
Definition set_roles (l : list Role) (T : Tables) : Tables :=
  MkTables (users T) l (permissions T) (user_roles T) (role_permissions T) (role_instruments T) (audit_logs T).
Definition set_user_roles (l : list (Z * Z)) (T : Tables) : Tables :=
  MkTables (users T) (roles T) (permissions T) l (role_permissions T) (role_instruments T) (audit_logs T).
Definition set_role_permissions (l : list (Z * string)) (T : Tables) : Tables :=
  MkTables (users T) (roles T) (permissions T) (user_roles T) l (role_instruments T) (audit_logs T).
Definition set_role_instruments (l : list (Z * string)) (T : Tables) : Tables :=
  MkTables (users T) (roles T) (permissions T) (user_roles T) (role_permissions T) l (audit_logs T).
Definition add_log (row : LogRow) (T : Tables) : Tables :=
  MkTables (users T) (roles T) (permissions T) (user_roles T) (role_permissions T) (role_instruments T) (audit_logs T ++ [row]).

(** The rows [ids] of the users, changed by [f]. *)
Definition update_users (ids : list Z) (f : User -> User) (T : Tables) : Tables :=
  set_users (map (fun u => if bool_decide (u_ID u ∈ ids) then f u else u) (users T)) T.

Definition set_password (hash : string) (now : Time) (u : User) : User :=
  MkUser (u_ID u) (u_Email u) hash (u_Enabled u) (u_Version u + 1) (u_CreatedAt u) now (u_LastLoginAt u) now.
Definition set_account (email : string) (enabled : bool) (now : Time) (u : User) : User :=
  MkUser (u_ID u) email (u_Hash u) enabled (u_Version u + 1) (u_CreatedAt u) now (u_LastLoginAt u) (u_PasswordChangedAt u).
Definition enable (now : Time) (u : User) : User := set_account (u_Email u) true now u.
Definition bump (now : Time) (u : User) : User := set_account (u_Email u) (u_Enabled u) now u.
Definition set_login (now : Time) (u : User) : User :=
  MkUser (u_ID u) (u_Email u) (u_Hash u) (u_Enabled u) (u_Version u) (u_CreatedAt u) (u_UpdatedAt u) (Some now) (u_PasswordChangedAt u).

Definition user (id : Z) (T : Tables) : option User :=
  find (fun u => u_ID u =? id) (users T).
Definition userOf (email : string) (T : Tables) : option User :=
  find (fun u => String.eqb (ToLower (u_Email u)) (ToLower email)) (users T).
Definition role (id : Z) (T : Tables) : option Role :=
  find (fun r => r_ID r =? id) (roles T).
Definition roleOf (code : string) (T : Tables) : option Role :=
  find (fun r => String.eqb (r_Code r) code) (roles T).

(** The rows of [roles] joined to those of user_roles of one user. *)
Definition roleIDs (id : Z) (T : Tables) : list Z :=
  map snd (filter (fun x => fst x = id) (user_roles T)).
Definition rolesOf (id : Z) (T : Tables) : list Role :=
  filter (fun r => r_ID r ∈ roleIDs id T) (roles T).
Definition isSuper (id : Z) (T : Tables) : bool :=
  existsb (fun r => String.eqb (r_Code r) "super_admin") (rolesOf id T).

(** SELECT DISTINCT ... ORDER BY, over the roles of a user. *)
Definition sorted (l : list string) : list string := merge_sort string_le (remove_dups l).
Definition grants (id : Z) (l : list (Z * string)) (T : Tables) : list string :=
  sorted (map snd (filter (fun x => fst x ∈ roleIDs id T) l)).

(** ** Statements *)

Inductive Query :=
  | SelectByEmail (email : string)
  | InsertUser (email hash : string)
  | EnableWithPassword (hash : string) (id : Z)
  | EnableUser (id : Z)
  | GrantSuperAdmin (id : Z)
  | TouchLogin (id : Z)
  | SelectAuthorization (id : Z)
  | SelectHashForUpdate (id : Z)
  | UpdatePassword (hash : string) (id : Z)
  | SelectPermissions (id : Z)
  | SelectInstruments (id : Z)
  | SelectAllInstruments (id : Z)
  | SelectAuthorizationVersion (id : Z)
  | SelectUserForUpdate (id : Z)
  | SelectIsSuperAdmin (id : Z)
  | CountSuperAdminsExcept (id : Z)
  | SelectRoleID (code : string)
  | InsertUserRole (id role : Z)
  | UpdateUser (email : string) (enabled : bool) (id : Z)
  | DeleteUserRoles (id : Z)
  | BumpUser (id : Z)
  | SelectRoleForUpdate (id : Z)
  | UpdateRole (name : string) (all : bool) (id : Z)
  | DeleteRolePermissions (id : Z)
  | DeleteRoleInstruments (id : Z)
  | InsertRolePermission (id : Z) (code : string)
  | InsertRoleInstrument (id : Z) (instrument : string)
  | BumpRoleUsers (id : Z)
  | InsertLog (row : LogRow)
  | SelectUsers
  | SelectUserRoleCodes (id : Z)
  | SelectRoles
  | SelectRolePermissions (id : Z)
  | SelectRoleInstruments (id : Z)
  | SelectAllPermissions.

Definition Rows (q : Query) : Type :=
  match q with
  | SelectByEmail _ => option (Z * string * string * bool)
  | InsertUser _ _ => Z
  | SelectAuthorization _ => option (bool * Z)
  | SelectHashForUpdate _ => option string
  | SelectPermissions _ | SelectInstruments _ | SelectUserRoleCodes _
  | SelectRolePermissions _ | SelectRoleInstruments _ => list string
  | SelectAllInstruments _ | SelectIsSuperAdmin _ => bool
  | SelectAuthorizationVersion _ => option Z
  | SelectUserForUpdate _ => option (string * bool)
  | CountSuperAdminsExcept _ => Z
  | SelectRoleID _ => option Z
  | SelectRoleForUpdate _ => option string
  | InsertRolePermission _ _ => Z
  | SelectUsers => list User
  | SelectRoles => list Role
  | SelectAllPermissions => list (string * string)
  | _ => unit
  end.

Definition by_email (a b : User) : Prop := string_le (u_Email a) (u_Email b).
#[export] Instance by_email_dec a b : Decision (by_email a b).
Proof. unfold by_email. apply _. Defined.
Definition by_id (a b : Role) : Prop := r_ID a <= r_ID b.
#[export] Instance by_id_dec a b : Decision (by_id a b).
Proof. unfold by_id. apply _. Defined.
Definition by_code (a b : string * string) : Prop := string_le (fst a) (fst b).
#[export] Instance by_code_dec a b : Decision (by_code a b).
Proof. unfold by_code. apply _. Defined.

(** An id from the sequence of the users. *)
Definition serial (drawn : list Z) (T : Tables) : option Z :=
  n ← head drawn; if bool_decide (0 < n) && negb (existsb (fun u => u_ID u =? n) (users T)) then Some n else None.

(** [lower(email)] is unique among the users (users_email_lower_idx). *)
Definition email_taken (email : string) (except : Z) (T : Tables) : bool :=
  existsb (fun u => String.eqb (ToLower (u_Email u)) (ToLower email) && negb (u_ID u =? except)) (users T).

Definition holders (r : Z) (T : Tables) : list Z := map fst (filter (fun x => snd x = r) (user_roles T)).

Definition run_query (q : Query) (now : Time) (drawn : list Z) (T : Tables) : option ((Tables -> Tables) * Rows q) :=
  match q return option ((Tables -> Tables) * Rows q) with
  | SelectByEmail email =>
      Some (id, (fun u => (u_ID u, u_Email u, u_Hash u, u_Enabled u)) <$> userOf email T)
  | InsertUser email hash =>
      n ← serial drawn T;
      if email_taken email 0 T then None else
      Some (fun T => set_users (users T ++ [MkUser n email hash true 1 now now None now]) T, n)
  | EnableWithPassword hash id =>
      Some (update_users [id] (fun u => enable now (MkUser (u_ID u) (u_Email u) hash (u_Enabled u) (u_Version u)
        (u_CreatedAt u) (u_UpdatedAt u) (u_LastLoginAt u) now)), tt)
  | EnableUser id => Some (update_users [id] (enable now), tt)
  | GrantSuperAdmin id =>
      let new := filter (fun x => x ∉ user_roles T)
        (map (fun r => (id, r_ID r)) (filter (fun r => r_Code r = "super_admin") (roles T))) in
      match user id T with
      | Some _ => Some (fun T => set_user_roles (user_roles T ++ new) T, tt)
      | None => None
      end
  | TouchLogin id => Some (update_users [id] (set_login now), tt)
  | SelectAuthorization i => Some (id, (fun u => (u_Enabled u, u_Version u)) <$> user i T)
  | SelectHashForUpdate i =>
      Some (id, u ← user i T; if u_Enabled u then Some (u_Hash u) else None)
  | UpdatePassword hash id => Some (update_users [id] (set_password hash now), tt)
  | SelectPermissions i => Some (id, grants i (role_permissions T) T)
  | SelectInstruments i => Some (id, grants i (role_instruments T) T)
  | SelectAllInstruments i => Some (id, existsb r_All (rolesOf i T))
  | SelectAuthorizationVersion i => Some (id, u_Version <$> user i T)
  | SelectUserForUpdate i => Some (id, (fun u => (u_Email u, u_Enabled u)) <$> user i T)
  | SelectIsSuperAdmin i => Some (id, isSuper i T)
  | CountSuperAdminsExcept i =>
      Some (id, Z.of_nat (length (filter (fun u => u_Enabled u = true /\ isSuper (u_ID u) T = true /\ u_ID u <> i) (users T))))
  | SelectRoleID code => Some (id, r_ID <$> roleOf code T)
  | InsertUserRole u r =>
      match user u T, role r T with
      | Some _, Some _ =>
          if bool_decide ((u, r) ∈ user_roles T) then None
          else Some (fun T => set_user_roles (user_roles T ++ [(u, r)]) T, tt)
      | _, _ => None
      end
  | UpdateUser email enabled id =>
      if email_taken email id T then None else Some (update_users [id] (set_account email enabled now), tt)
  | DeleteUserRoles id =>
      let hit := filter (fun x => fst x = id) (user_roles T) in
      Some (fun T => set_user_roles (filter (fun x => x ∉ hit) (user_roles T)) T, tt)
  | BumpUser id => Some (update_users [id] (bump now), tt)
  | SelectRoleForUpdate i => Some (id, r_Code <$> role i T)
  | UpdateRole name all id =>
      Some (fun T => set_roles (map (fun r => if r_ID r =? id then MkRole id (r_Code r) name all else r) (roles T)) T, tt)
  | DeleteRolePermissions id =>
      let hit := filter (fun x => fst x = id) (role_permissions T) in
      Some (fun T => set_role_permissions (filter (fun x => x ∉ hit) (role_permissions T)) T, tt)
  | DeleteRoleInstruments id =>
      let hit := filter (fun x => fst x = id) (role_instruments T) in
      Some (fun T => set_role_instruments (filter (fun x => x ∉ hit) (role_instruments T)) T, tt)
  | InsertRolePermission i code =>
      if existsb (fun p => String.eqb (fst p) code) (permissions T) then
        if bool_decide ((i, code) ∈ role_permissions T \/ role i T = None) then None
        else Some (fun T => set_role_permissions (role_permissions T ++ [(i, code)]) T, 1)
      else Some (id, 0)
  | InsertRoleInstrument id instrument =>
      if bool_decide ((id, instrument) ∈ role_instruments T \/ role id T = None) then None
      else Some (fun T => set_role_instruments (role_instruments T ++ [(id, instrument)]) T, tt)
  | BumpRoleUsers id =>
      let hit := holders id T in Some (update_users hit (bump now), tt)
  | InsertLog row =>
      match log_User row with
      | Some u => match user u T with Some _ => Some (add_log row, tt) | None => None end
      | None => Some (add_log row, tt)
      end
  | SelectUsers => Some (id, merge_sort by_email (users T))
  | SelectUserRoleCodes i => Some (id, merge_sort string_le (map r_Code (rolesOf i T)))
  | SelectRoles => Some (id, merge_sort by_id (roles T))
  | SelectRolePermissions i => Some (id, merge_sort string_le (map snd (filter (fun x => fst x = i) (role_permissions T))))
  | SelectRoleInstruments i => Some (id, merge_sort string_le (map snd (filter (fun x => fst x = i) (role_instruments T))))
  | SelectAllPermissions => Some (id, merge_sort by_code (permissions T))
  end.

(** ** Locks *)

(** FOR KEY SHARE, the lock of an update that leaves the key alone, FOR UPDATE. *)
Inductive Mode := KeyShare | NoKeyUpdate | ForUpdate.
Inductive Resource :=
  | UserRow (id : Z) | RoleRow (id : Z) | EmailEntry (email : string)
  | UserRoleRow (id role : Z) | PermissionRow (role : Z) (code : string) | InstrumentRow (role : Z) (instrument : string).
#[export] Instance Resource_eq_dec : EqDecision Resource.
Proof. solve_decision. Defined.
Record Lock := MkLock { lock_on : Resource; lock_mode : Mode }.

Definition modes_conflict (a b : Mode) : bool :=
  match a, b with
  | KeyShare, ForUpdate | ForUpdate, KeyShare | ForUpdate, ForUpdate
  | NoKeyUpdate, ForUpdate | ForUpdate, NoKeyUpdate | NoKeyUpdate, NoKeyUpdate => true
  | _, _ => false
  end.
Definition conflicting (a b : Lock) : bool :=
  bool_decide (lock_on a = lock_on b) && modes_conflict (lock_mode a) (lock_mode b).

Definition query_locks (q : Query) (drawn : list Z) (T : Tables) : list Lock :=
  match q with
  | InsertUser email _ =>
      MkLock (EmailEntry (ToLower email)) ForUpdate :: map (fun n => MkLock (UserRow n) ForUpdate) (take 1 drawn)
  | EnableWithPassword _ id | EnableUser id | TouchLogin id | UpdatePassword _ id | BumpUser id =>
      [MkLock (UserRow id) NoKeyUpdate]
  | UpdateUser email _ id => [MkLock (UserRow id) NoKeyUpdate; MkLock (EmailEntry (ToLower email)) ForUpdate]
  | SelectHashForUpdate id | SelectUserForUpdate id => [MkLock (UserRow id) ForUpdate]
  | GrantSuperAdmin id =>
      flat_map (fun r => [MkLock (UserRow id) KeyShare; MkLock (RoleRow (r_ID r)) KeyShare; MkLock (UserRoleRow id (r_ID r)) ForUpdate])
        (filter (fun r => r_Code r = "super_admin") (roles T))
  | InsertUserRole u r =>
      [MkLock (UserRow u) KeyShare; MkLock (RoleRow r) KeyShare; MkLock (UserRoleRow u r) ForUpdate]
  | DeleteUserRoles id => map (fun x => MkLock (UserRoleRow (fst x) (snd x)) ForUpdate) (filter (fun x => fst x = id) (user_roles T))
  | SelectRoleForUpdate id => [MkLock (RoleRow id) ForUpdate]
  | UpdateRole _ _ id => [MkLock (RoleRow id) NoKeyUpdate]
  | DeleteRolePermissions id => map (fun x => MkLock (PermissionRow (fst x) (snd x)) ForUpdate) (filter (fun x => fst x = id) (role_permissions T))
  | DeleteRoleInstruments id => map (fun x => MkLock (InstrumentRow (fst x) (snd x)) ForUpdate) (filter (fun x => fst x = id) (role_instruments T))
  | InsertRolePermission id code => [MkLock (RoleRow id) KeyShare; MkLock (PermissionRow id code) ForUpdate]
  | InsertRoleInstrument id instrument => [MkLock (RoleRow id) KeyShare; MkLock (InstrumentRow id instrument) ForUpdate]
  | BumpRoleUsers id => map (fun n => MkLock (UserRow n) NoKeyUpdate) (holders id T)
  | InsertLog row => match log_User row with Some u => [MkLock (UserRow u) KeyShare] | None => [] end
  | _ => []
  end.

#[export] Instance schema : Schema := {|
  tables := Tables; query := Query; rows := Rows; lock := Lock;
  conflict := conflicting; sql := run_query; locks_of := query_locks
|}.

(** ** Sessions *)

Record Session := MkSession {
  UserID : Z; Email : string; Permissions : list string; AllInstruments : bool;
  Instruments : list string; AuthorizationVersion : Z; ExpiresAt : Time
}.
Definition zero_session : Session := MkSession 0 "" [] false [] 0 zero_time.

Definition Has (permission : string) (s : Session) : bool :=
  existsb (fun value => String.eqb value permission) (Permissions s).

Definition CanAccessInstrument (instrumentID : string) (s : Session) : bool :=
  AllInstruments s || existsb (fun value => String.eqb value instrumentID) (Instruments s).

#[export] Instance marshal_session : Marshal Session := fun s =>
  JObj [("user_id", marshal (UserID s)); ("email", marshal (Email s));
        ("permissions", marshal (Permissions s)); ("all_instruments", marshal (AllInstruments s));
        ("instruments", marshal (Instruments s));
        ("authorization_version", marshal (AuthorizationVersion s)); ("expires_at", JTime (ExpiresAt s))].

Definition unmarshal_session (j : Json) : option Session :=
  l ← asObject j;
  userID ← int64 "user_id" l; email ← text "email" l;
  permissions ← ifield (asSlice unmarshal) "permissions" l; all ← ifield unmarshal "all_instruments" l;
  instruments ← ifield (asSlice unmarshal) "instruments" l;
  version ← int64 "authorization_version" l; expires ← ifield unmarshal_time "expires_at" l;
  Some (MkSession userID email permissions all instruments version expires).

Definition ErrInvalidCredentials : error := Errorf "invalid credentials".
Definition ErrNoRows : error := Errorf "no rows in result set".

Definition sessionTTL : Duration := 12 * 3600 * Second.
Definition sessionKey (token : string) : string := "fluxmaker:session:" +:+ hex_encode (Sum256 (bytes_of token)).

Section Service.
Context `{!Argon2}.

Definition orNoRows {A} (x : option A) : reply A := match x with Some a => inl a | None => inr ErrNoRows end.

Definition BootstrapAdmin (email password : string) : program (option error) :=
  let email := ToLower (TrimSpace email) in
  if String.eqb email "" || String.eqb password "" then
    Return (Some (Errorf "ADMIN_EMAIL and ADMIN_PASSWORD are required")) else
  let grant userID : program (option error) :=
    r ← ask (Exec (GrantSuperAdmin userID)); Return (match r : reply unit with inl _ => None | inr err => Some err end) in
  found ← ask (Exec (SelectByEmail email));
  match found : reply (option (Z * string * string * bool)) with
  | inr err => Return (Some err)
  | inl None =>
      hash ← HashPassword password;
      match hash with
      | inr err => Return (Some err)
      | inl hash =>
          inserted ← ask (Exec (InsertUser email hash));
          match inserted : reply Z with inr err => Return (Some err) | inl userID => grant userID end
      end
  | inl (Some (userID, _, storedHash, enabled)) =>
      if negb (VerifyPassword storedHash password) then
        hash ← HashPassword password;
        match hash with
        | inr err => Return (Some err)
        | inl hash =>
            r ← ask (Exec (EnableWithPassword hash userID));
            match r : reply unit with inr err => Return (Some err) | inl _ => grant userID end
        end
      else if negb enabled then
        r ← ask (Exec (EnableUser userID));
        match r : reply unit with inr err => Return (Some err) | inl _ => grant userID end
      else grant userID
  end.

(** Four statements of their own, then the clock. *)
Definition buildSession (userID : Z) (email : string) : program (reply Session) :=
  orFail (ask (Exec (SelectPermissions userID))) (fun permissions : list string =>
  orFail (ask (Exec (SelectInstruments userID))) (fun instruments : list string =>
  orFail (ask (Exec (SelectAllInstruments userID))) (fun all : bool =>
  orFail (ask (Exec (SelectAuthorizationVersion userID))) (fun version : option Z =>
  match version with
  | None => Return (inr ErrNoRows)
  | Some version =>
      now ← ask Clock;
      Return (inl (MkSession userID email permissions all instruments version ((now : Time) + sessionTTL)))
  end)))).

Definition Login (email password : string) : program (reply (string * Session)) :=
  found ← ask (Exec (SelectByEmail (TrimSpace email)));
  match found : reply (option (Z * string * string * bool)) with
  | inl (Some (userID, canonicalEmail, storedHash, enabled)) =>
      if negb enabled || negb (VerifyPassword storedHash password) then Return (inr ErrInvalidCredentials) else
      orFail (buildSession userID canonicalEmail) (fun session =>
      orFail (ask (Exec (TouchLogin userID))) (fun _ =>
      orFail (ask (RandomBytes 32)) (fun tokenBytes : list Z =>
      let token := hex_encode tokenBytes in
      orFail (checked (ask (RSet (sessionKey token) (marshal session)))) (fun _ =>
      Return (inl (token, session))))))
  | _ => Return (inr ErrInvalidCredentials)
  end.

(** The session of a token, when its account is enabled and has the version of the session;
    else the entry is deleted. *)
Definition Authenticate (token : string) : program (reply Session) :=
  if String.eqb token "" then Return (inr ErrInvalidCredentials) else
  payload ← ask (RGet (sessionKey token));
  match payload : reply (option Json) with
  | inl (Some payload) =>
      match unmarshal_session payload with
      | None => Return (inr ErrInvalidCredentials)
      | Some session =>
          now ← ask Clock;
          if After now (ExpiresAt session) then Return (inr ErrInvalidCredentials) else
          current ← ask (Exec (SelectAuthorization (UserID session)));
          match current : reply (option (bool * Z)) with
          | inl (Some (true, version)) =>
              if version =? AuthorizationVersion session then Return (inl session) else
              _ ← ask (RDel (sessionKey token)); Return (inr ErrInvalidCredentials)
          | _ => _ ← ask (RDel (sessionKey token)); Return (inr ErrInvalidCredentials)
          end
      end
  | _ => Return (inr ErrInvalidCredentials)
  end.

Definition Logout (token : string) : program (option error) := ask (RDel (sessionKey token)).

Definition ChangePassword (userID : Z) (currentPassword newPassword : string) : program (reply unit) :=
  transaction
    (stored ← ask (TxExec (SelectHashForUpdate userID));
     match stored : reply (option string) with
     | inl (Some storedHash) =>
         if negb (VerifyPassword storedHash currentPassword) then Return (inr ErrInvalidCredentials) else
         orFail (HashPassword newPassword) (fun newHash =>
         orFail (ask (TxExec (UpdatePassword newHash userID))) (fun _ =>
         checked (ask Commit)))
     | _ => Return (inr ErrInvalidCredentials)
     end).
End Service.
End Accounts.
