(* ===== verification/Scope.v ===== *)
(** Data scopes of the configuration (src/internal/adminapi/server.go): what a user who may
    see some instruments only is shown of a configuration, and what becomes of an edit.

    A scoped edit is a lens on the configuration: [scopeConfig] shows the part in scope,
    [mergeScopedConfig] puts an edited part back. *)
From S2P Require Import Prelude Decimal Domain Config Json Wire Accounts.
Import Accounts.

Open Scope string_scope.
Open Scope list_scope.
Open Scope Z_scope.

Module AdminScope.

Definition allowed (x : Session) (id : string) : bool := bool_decide (id ∈ Accounts.Instruments x).

Definition with_parts (instruments : list InstrumentConfig) (venues : gmap string VenueConfig) (c : Config) : Config :=
  MkConfig (cfg_Mode c) (PollIntervalMS c) (AuditPath c) (AuditMaxBytes c) (AuditBackups c) (HeartbeatPath c)
    (WatchdogTimeoutSeconds c) (MarketFailureThreshold c) (MarketRecoveryThreshold c) (MarketErrorGraceSeconds c)
    (TradingProgressTimeoutSeconds c) (MaxConcurrentInstruments c) (RulesRefreshSeconds c) (RPC c) instruments venues.
Definition set_Markets (markets : gmap string VenueMarketConfig) (v : VenueConfig) : VenueConfig :=
  MkVenueConfig (venue_Type v) (Environment v) (venue_Enabled v) (TradingEnabled v) (DedicatedAccount v) (BaseURL v)
    (SelfTradePrevention v) markets.

(** The instruments, and the markets of a venue, that are in scope or are not. *)
Definition instruments_where (x : Session) (b : bool) (l : list InstrumentConfig) : list InstrumentConfig :=
  filter (fun i => allowed x (ID i) = b) l.
Definition markets_where (x : Session) (b : bool) (m : gmap string VenueMarketConfig) : gmap string VenueMarketConfig :=
  filter (fun kv => allowed x (fst kv) = b) m.
Definition part (x : Session) (b : bool) (c : Config) : Config :=
  with_parts (instruments_where x b (Config.Instruments c))
    ((fun v => set_Markets (markets_where x b (Markets v)) v) <$> Venues c) c.

Definition scopeConfig (x : Session) (c : Config) : Config := if AllInstruments x then c else part x true c.

Definition mergeScopedConfig (existing incoming : Config) (x : Session) : Config :=
  with_parts
    (instruments_where x false (Config.Instruments existing) ++ instruments_where x true (Config.Instruments incoming))
    (map_imap (fun name v =>
       let new := match Venues incoming !! name with Some w => markets_where x true (Markets w) | None => ∅ end in
       Some (set_Markets (new ∪ markets_where x false (Markets v)) v)) (Venues existing))
    existing.

Definition outside_scope (id : string) : error := Errorf ("instrument " +:+ id +:+ " is outside your data scope").
Definition enforceInstrumentScope (x : Session) (c : Config) : option error :=
  if AllInstruments x then None else
  (fun i => outside_scope (ID i)) <$> find (fun i => negb (CanAccessInstrument (ID i) x)) (Config.Instruments c).

(** ** The parts of a configuration *)

Lemma instruments_same x b l : instruments_where x b (instruments_where x b l) = instruments_where x b l.
Proof. unfold instruments_where. rewrite list_filter_filter. apply list_filter_iff. tauto. Qed.
Lemma instruments_other x b l : instruments_where x b (instruments_where x (negb b) l) = [].
Proof. induction l as [|i l IH]; [done|]. unfold instruments_where in *. rewrite filter_cons. case_decide as E; [|done].
  rewrite filter_cons, decide_False; [done|]. rewrite E. by destruct b. Qed.
Lemma instruments_app x b l l' : instruments_where x b (l ++ l') = instruments_where x b l ++ instruments_where x b l'.
Proof. apply filter_app. Qed.
Lemma instruments_split x l : instruments_where x false l ++ instruments_where x true l ≡ₚ l.
Proof.
  induction l as [|i l IH]; [done|]. unfold instruments_where in *. rewrite !filter_cons.
  destruct (allowed x (ID i)); simpl; [|by rewrite IH]. rewrite <- Permutation_middle. by rewrite IH.
Qed.

Lemma lookup_markets_where x b m k :
  markets_where x b m !! k = (if bool_decide (allowed x k = b) then m !! k else None).
Proof.
  apply option_eq. intros v. unfold markets_where. rewrite map_lookup_filter_Some. simpl. case_bool_decide; naive_solver.
Qed.
Lemma markets_union x b new old :
  markets_where x b (markets_where x true new ∪ markets_where x false old) = markets_where x b (if b then new else old).
Proof.
  apply map_eq. intros k. rewrite !lookup_markets_where, lookup_union, !lookup_markets_where.
  destruct (allowed x k), b; repeat case_bool_decide; try done; [by destruct (new !! k)|by destruct (old !! k)].
Qed.
Lemma markets_split x m : markets_where x true m ∪ markets_where x false m = m.
Proof.
  apply map_eq. intros k. rewrite lookup_union, !lookup_markets_where. destruct (allowed x k); repeat case_bool_decide; try done; by destruct (m !! k).
Qed.
Lemma with_parts_twice l m l' m' c : with_parts l m (with_parts l' m' c) = with_parts l m c.
Proof. done. Qed.
Lemma set_Markets_twice m m' v : set_Markets m (set_Markets m' v) = set_Markets m v.
Proof. done. Qed.
Lemma set_Markets_same v : set_Markets (Markets v) v = v.
Proof. by destruct v. Qed.

(** What the edit gives of the part [b]: that of the one or of the other. *)
Lemma part_merged x b d c :
  part x b (mergeScopedConfig d c x) =
  with_parts (instruments_where x b (Config.Instruments (if b then c else d)))
    (map_imap (fun name v => Some (set_Markets (markets_where x b
       (if b then match Venues c !! name with Some w => Markets w | None => ∅ end else Markets v)) v)) (Venues d)) d.
Proof.
  unfold part, mergeScopedConfig. rewrite with_parts_twice. f_equal.
  - cbn [Config.Instruments with_parts]. rewrite instruments_app. pose proof (instruments_other x b) as Ho.
    destruct b; cbn [negb] in Ho; rewrite Ho, instruments_same; [done|apply app_nil_r].
  - apply map_eq. intros name. rewrite lookup_fmap, !map_lookup_imap. cbn [Venues with_parts].
    rewrite map_lookup_imap. destruct (Venues d !! name) as [v|]; [|done]. cbn. f_equal.
    rewrite set_Markets_twice. f_equal.
    destruct (Venues c !! name) as [w|]; [by rewrite markets_union; destruct b|].
    assert (Hnil : markets_where x true ∅ = ∅) by apply map_filter_empty. rewrite <- Hnil at 1.
    by rewrite markets_union; destruct b.
Qed.
Lemma merged_shown x d : Venues (mergeScopedConfig d (part x true d) x) = Venues d.
Proof.
  apply map_eq. intros name. cbn [Venues mergeScopedConfig with_parts part]. rewrite map_lookup_imap, lookup_fmap.
  destruct (Venues d !! name) as [v|]; [|done]. cbn. f_equal.
  assert (Hs : markets_where x true (markets_where x true (Markets v)) = markets_where x true (Markets v)).
  { apply map_eq. intros k. rewrite !lookup_markets_where. by case_bool_decide. }
  by rewrite Hs, markets_split, set_Markets_same.
Qed.

Lemma merged_twice x d c c' : mergeScopedConfig (mergeScopedConfig d c x) c' x = mergeScopedConfig d c' x.
Proof.
  pose proof (part_merged x false d c) as Hp. assert (Hw : forall l v, with_parts l v (mergeScopedConfig d c x) = with_parts l v d) by done.
  unfold mergeScopedConfig at 1 3. rewrite Hw. f_equal.
  - pose proof (f_equal Config.Instruments Hp) as E. cbn [Config.Instruments with_parts part] in E. by rewrite E.
  - apply map_eq. intros name. pose proof (f_equal (fun k => Venues k !! name) Hp) as E.
    cbn [Venues with_parts part] in E. rewrite lookup_fmap, map_lookup_imap in E. rewrite !map_lookup_imap.
    destruct (Venues d !! name) as [v|] eqn:Ev.
    + destruct (Venues (mergeScopedConfig d c x) !! name) as [w|]; [|done]. cbn in E. apply (inj Some) in E. cbn. f_equal.
      pose proof (f_equal Markets E) as Em. cbn in Em. rewrite Em. clear Em.
      assert (set_Markets ∅ w = set_Markets ∅ v) as Ew by by apply (f_equal (set_Markets ∅)) in E.
      by apply (f_equal (set_Markets (match Venues c' !! name with Some w => markets_where x true (Markets w) | None => ∅ end
        ∪ markets_where x false (Markets v)))) in Ew.
    + by destruct (Venues (mergeScopedConfig d c x) !! name).
Qed.

(** C17: a scoped edit is a lens.  The edit of a user who may see some instruments only leaves
    everything else as it was, settings, venues, the other instruments and their markets; in
    scope the configuration is what the user sent, for the venues there are; sending back
    what was shown changes nothing but the order of the instruments; and of two edits the
    second one counts. *)
Theorem scoped_edit_lens x d c : AllInstruments x = false ->
  let m := mergeScopedConfig d c x in
  part x false m = part x false d
  /\ Config.Instruments (scopeConfig x m) = instruments_where x true (Config.Instruments c)
  /\ (forall name, Venues (scopeConfig x m) !! name =
        (fun v => set_Markets (markets_where x true
           (match Venues c !! name with Some w => Markets w | None => ∅ end)) v) <$> Venues d !! name)
  /\ (let same := mergeScopedConfig d (scopeConfig x d) x in
      Config.Instruments same ≡ₚ Config.Instruments d
      /\ with_parts (Config.Instruments d) (Venues same) same = d)
  /\ forall c', mergeScopedConfig m c' x = mergeScopedConfig d c' x.
Proof.
  intros Hx m. unfold scopeConfig. rewrite Hx. split_and!.
  - unfold m. rewrite part_merged. unfold part. f_equal. apply map_eq. intros name. rewrite map_lookup_imap, lookup_fmap.
    by destruct (Venues d !! name).
  - unfold m. by rewrite part_merged.
  - intros name. unfold m. rewrite part_merged. cbn [Venues with_parts]. rewrite map_lookup_imap.
    by destruct (Venues d !! name).
  - cbn [Config.Instruments mergeScopedConfig with_parts part]. rewrite instruments_same. apply instruments_split.
  - rewrite merged_shown. by destruct d.
  - intros c'. apply merged_twice.
Qed.

(** Two editors with different scopes who both started from the same draft: the second edit
    puts back what the first one has changed. *)
Lemma scoped_edits_lost x y d c c' :
  (forall id, allowed x id = true -> allowed y id = false) ->
  let first := mergeScopedConfig d c x in
  let second := mergeScopedConfig d c' y in
  instruments_where x true (Config.Instruments first) = instruments_where x true (Config.Instruments c)
  /\ instruments_where x true (Config.Instruments second) = instruments_where x true (Config.Instruments d).
Proof.
  intros Hxy first second. split.
  - exact (f_equal Config.Instruments (part_merged x true d c)).
  - pose proof (f_equal (fun k => instruments_where x true (Config.Instruments k)) (part_merged y false d c')) as E.
    assert (Hsub : forall l, instruments_where x true (instruments_where y false l) = instruments_where x true l).
    { intros l. unfold instruments_where. rewrite list_filter_filter. apply list_filter_iff. intros i. split; [by intros []|]. auto. }
    cbn [Config.Instruments with_parts part] in E. by rewrite !Hsub in E.
Qed.
End AdminScope.
