(* ===== verification/Monitoring.v ===== *)
(** Monitoring (src/internal/adminapi/monitoring.go): the alerts of the administration.

    [raised] are the alerts in the order in which the conditions are tested;
    [BuildMonitoringSummary] sorts and counts them.  The exposition of the same state to
    Prometheus is the second module, [Prometheus]. *)
From S2P Require Import Prelude Decimal Domain Config FaultData Runtimeops Oms Accounts StatusJson RuntimeStore DecimalText.
Import Accounts.

Open Scope string_scope.
Open Scope list_scope.
Open Scope Z_scope.

Module Monitoring.

(** ** Alerts *)

Record MonitoringAlert := MkMonitoringAlert {
  Severity : string; alert_Code : string; Message : string; alert_InstrumentID : string;
  alert_Venue : string; alert_Since : Time
}.

Record MonitoringSummary := MkMonitoringSummary {
  summary_Status : string; GeneratedAt : Time; Critical : Z; Warnings : Z; Alerts : list MonitoringAlert
}.

Definition critical (code message : string) (since : Time) : MonitoringAlert :=
  MkMonitoringAlert "critical" code message "" "" since.
Definition warning (code message : string) (since : Time) : MonitoringAlert :=
  MkMonitoringAlert "warning" code message "" "" since.
(** The alert of a market of an instrument. *)
Definition at_market (instrument venue : string) (a : MonitoringAlert) : MonitoringAlert :=
  MkMonitoringAlert (Severity a) (alert_Code a) (Message a) instrument venue (alert_Since a).

(** [if b { add(a) }] *)
Definition when (b : bool) (a : MonitoringAlert) : list MonitoringAlert := if b then [a] else [].

Definition timeoutOf (seconds default : Z) : Duration :=
  ((if seconds <=? 0 then default else seconds) *i Second)%go.

Section Alerts.
Context (cfg : Config) (engine : EngineStatus) (now : Time).

Definition engineAlerts : list MonitoringAlert :=
  (if negb (Online engine)
   then [critical "engine_offline" "交易引擎心跳已离线" (LastHeartbeat engine)]
   else when (negb (Ready engine)) (warning "engine_not_ready" "交易引擎在线但运行配置未就绪" (LastHeartbeat engine)))
  ++ when (negb (String.eqb (es_Error engine) "")) (warning "engine_error" (es_Error engine) (LastHeartbeat engine)).

Definition progressStale : bool :=
  let timeout := timeoutOf (TradingProgressTimeoutSeconds cfg) 120 in
  match Metrics engine with
  | Some metrics => if IsZero (LastTradingProgress engine) then timeout <? TimeSub now (ms_StartedAt metrics)
                    else timeout <? TimeSub now (LastTradingProgress engine)
  | None => negb (IsZero (LastTradingProgress engine)) && (timeout <? TimeSub now (LastTradingProgress engine))
  end.

Definition progressAlerts : list MonitoringAlert :=
  when (Online engine && Ready engine && progressStale)
    (critical "trading_progress_stale" "交易循环长时间没有完成进度" (LastTradingProgress engine)).

Definition cycleAlerts : list MonitoringAlert :=
  match Performance engine with
  | None => []
  | Some p =>
      when (0 <? perf_Failed p) (warning "cycle_failures"
        ("最近一轮有 " +:+ pretty (perf_Failed p) +:+ "/" +:+ pretty (perf_Instruments p) +:+ " 个币对失败") (perf_StartedAt p))
      ++ when ((0 <? PollIntervalMS cfg) && (PollIntervalMS cfg <? DurationMS p)) (warning "cycle_slow"
        ("最近一轮耗时 " +:+ pretty (DurationMS p) +:+ "ms，超过轮询间隔 " +:+ pretty (PollIntervalMS cfg) +:+ "ms") (perf_StartedAt p))
  end.

Definition auditAlerts : list MonitoringAlert :=
  match Metrics engine with
  | None => []
  | Some m => when (0 <? AuditPendingEvents m) (critical "audit_write_pending"
      ("审计写入异常 " +:+ pretty (AuditFlushErrorsTotal m) +:+ " 次，待写事件 " +:+ pretty (AuditPendingEvents m) +:+ " 条")
      (ms_UpdatedAt m))
  end.

(** A change of trading rules in the last hour. *)
Definition recent (change : RuleChange) : bool :=
  negb (IsZero (DetectedAt change) || (Hour <? TimeSub now (DetectedAt change))).

Definition ruleAlerts : list MonitoringAlert :=
  RuleChanges engine ≫= fun change => when (recent change)
    (at_market (rc_InstrumentID change) (rc_Venue change)
      (warning "trading_rules_changed" "交易所交易规则发生变化，已按新规则热更新" (DetectedAt change))).

Definition watchdogAlerts : list MonitoringAlert :=
  match Watchdog engine with
  | Some w =>
      if negb (String.eqb (cfg_Mode cfg) ModeLive) then [] else
      let seconds := if WatchdogTimeoutSeconds cfg <=? 0 then 15 else WatchdogTimeoutSeconds cfg in
      if (wrap64 (wrap64 (seconds * 2) * Second)) <? TimeSub now (LastCheckAt w)
      then [critical "watchdog_offline" "Watchdog 长时间没有更新检查状态" (LastCheckAt w)]
      else when (negb (Healthy w)) (critical "watchdog_triggered"
        ("Watchdog 已触发保护撤单：" +:+ ws_Reason w
          +:+ (if String.eqb (CancelError w) "" then "" else "；撤单错误：" +:+ CancelError w)) (LastTriggeredAt w))
  | None => when (String.eqb (cfg_Mode cfg) ModeLive && Online engine)
      (warning "watchdog_unknown" "尚未收到 Watchdog 检查状态" zero_time)
  end.

Definition faultSeverity (status : string) : string :=
  if String.eqb status Canceling || String.eqb status FaultData.Paused then "critical" else "warning".

Definition venueAlerts (instrument : string) (venue : VenueSnapshot) : list MonitoringAlert :=
  when (negb (MarketConnected venue)) (at_market instrument (vs_Name venue)
    (warning "market_disconnected" "交易所行情连接异常" (vs_UpdatedAt venue)))
  ++ when (String.eqb (cfg_Mode cfg) ModeLive && vs_TradingEnabled venue && negb (AccountConnected venue))
    (at_market instrument (vs_Name venue) (critical "account_disconnected" "实盘账户连接异常" (vs_UpdatedAt venue)))
  ++ match vs_Fault venue with
     | None => []
     | Some f => when (negb (String.eqb (Status f) Normal)) (MkMonitoringAlert (faultSeverity (Status f))
         ("venue_fault_" +:+ Status f) ("交易市场故障状态：" +:+ Status f) instrument (vs_Name venue) (Since f))
     end.

Definition instrumentAlerts (instrument : InstrumentSnapshot) : list MonitoringAlert :=
  when (String.eqb (is_Status instrument) "waiting") (at_market (is_InstrumentID instrument) ""
    (warning "instrument_waiting" "币对尚未产生运行快照" zero_time))
  ++ when (String.eqb (is_Status instrument) "degraded") (at_market (is_InstrumentID instrument) ""
    (warning "instrument_degraded" "币对运行降级" (is_UpdatedAt instrument)))
  ++ (is_Venues instrument ≫= venueAlerts (is_InstrumentID instrument)).

Definition raised (instruments : list InstrumentSnapshot) : list MonitoringAlert :=
  engineAlerts ++ progressAlerts ++ cycleAlerts ++ auditAlerts ++ ruleAlerts ++ watchdogAlerts
  ++ (if Online engine then instruments ≫= instrumentAlerts else []).
End Alerts.

(** ** The summary *)

Definition severityRank (value : string) : Z :=
  if String.eqb value "critical" then 2 else if String.eqb value "warning" then 1 else 0.

(** [sort.SliceStable] *)
Fixpoint insert_stable {A} (less : A -> A -> bool) (x : A) (l : list A) : list A :=
  match l with
  | [] => [x]
  | y :: l' => if less y x then y :: insert_stable less x l' else x :: l
  end.
Definition SliceStable {A} (less : A -> A -> bool) (l : list A) : list A := foldr (insert_stable less) [] l.

Definition count_severity (severity : string) (l : list MonitoringAlert) : Z :=
  Z.of_nat (length (filter (fun a => Severity a = severity) l)).

Definition BuildMonitoringSummary (cfg : Config) (engine : EngineStatus) (instruments : list InstrumentSnapshot)
    (now : Time) : MonitoringSummary :=
  let alerts := SliceStable (fun a b => severityRank (Severity b) <? severityRank (Severity a))
                  (raised cfg engine now instruments) in
  let critical := count_severity "critical" alerts in
  let warnings := count_severity "warning" alerts in
  MkMonitoringSummary (if 0 <? critical then "critical" else if 0 <? warnings then "degraded" else "healthy")
    now critical warnings alerts.

(** What a session may see of the changes of trading rules. *)
Definition set_RuleChanges (changes : list RuleChange) (e : EngineStatus) : EngineStatus :=
  MkEngineStatus (Online e) (Ready e) (es_Version e) (es_DesiredVersion e) (es_Error e) (LastHeartbeat e)
    (LastTradingProgress e) (Performance e) (Metrics e) (Watchdog e) changes.

Definition filterEngineRuleChanges (engine : EngineStatus) (session : option Session) : EngineStatus :=
  match session with
  | None => engine
  | Some s => if AllInstruments s then engine else
      set_RuleChanges (filter (fun c => CanAccessInstrument (rc_InstrumentID c) s = true) (RuleChanges engine)) engine
  end.

(** ** Stable sorting of two severities *)

Lemma insert_first {A} (less : A -> A -> bool) x (l : list A) :
  Forall (fun y => less y x = false) l -> insert_stable less x l = x :: l.
Proof. intros Hl. destruct Hl as [|y l Hy _]; [done|]. simpl. by rewrite Hy. Qed.

Lemma insert_after {A} (less : A -> A -> bool) x (l1 l2 : list A) :
  Forall (fun y => less y x = true) l1 -> Forall (fun y => less y x = false) l2 ->
  insert_stable less x (l1 ++ l2) = l1 ++ x :: l2.
Proof.
  intros H1 H2. induction H1 as [|y l1 Hy _ IH]; [by apply insert_first|]. simpl. by rewrite Hy, IH.
Qed.

(** Elements of two ranks: the higher ones first, each in their order. *)
Lemma stable_two {A} (rank : A -> Z) (l : list A) (hi lo : Z) : lo < hi -> Forall (fun a => rank a = hi \/ rank a = lo) l ->
  SliceStable (fun a b => rank b <? rank a) l =
    filter (fun a => rank a = hi) l ++ filter (fun a => rank a = lo) l.
Proof.
  intros Hlt Hl. induction Hl as [|x l Hx _ IH]; [done|]. cbn [SliceStable foldr]. unfold SliceStable in IH. rewrite IH.
  assert (Hhi : Forall (fun a => rank a = hi) (filter (fun a => rank a = hi) l)).
  { apply Forall_forall. by intros a [? _]%list_elem_of_filter. }
  assert (Hlo : Forall (fun a => rank a = lo) (filter (fun a => rank a = lo) l)).
  { apply Forall_forall. by intros a [? _]%list_elem_of_filter. }
  rewrite !filter_cons. destruct Hx as [Hx|Hx].
  - rewrite (decide_True (P := rank x = hi)), (decide_False (P := rank x = lo)) by lia.
    apply insert_first, Forall_app. split; (eapply Forall_impl; [eassumption|]); intros y Hy; simpl in *;
      apply Z.ltb_ge; lia.
  - rewrite (decide_False (P := rank x = hi)), (decide_True (P := rank x = lo)) by lia.
    apply insert_after; (eapply Forall_impl; [eassumption|]); intros y Hy; simpl in *;
      [apply Z.ltb_lt; lia|apply Z.ltb_ge; lia].
Qed.

(** ** Every alert is critical or a warning *)

Definition ranked (a : MonitoringAlert) : Prop := Severity a = "critical" \/ Severity a = "warning".

Lemma ranked_when b a : ranked a -> Forall ranked (when b a).
Proof. intros Ha. destruct b; [by constructor|done]. Qed.

Lemma ranked_bind {A} (f : A -> list MonitoringAlert) (l : list A) :
  (forall a, Forall ranked (f a)) -> Forall ranked (l ≫= f).
Proof. intros Hf. apply Forall_bind, Forall_true. done. Qed.

Lemma ranked_fault status : faultSeverity status = "critical" \/ faultSeverity status = "warning".
Proof. unfold faultSeverity. destruct (_ || _); auto. Qed.

Create HintDb ranked discriminated.
#[local] Hint Resolve ranked_when ranked_bind Forall_app_2 Forall_nil_2 : ranked.
#[local] Hint Extern 1 (ranked _) => first [by left|by right|apply ranked_fault] : ranked.

Lemma raised_ranked cfg engine now instruments : Forall ranked (raised cfg engine now instruments).
Proof.
  unfold raised. rewrite !Forall_app. split_and!.
  - unfold engineAlerts. apply Forall_app_2; [|by auto with ranked]. destruct (negb _); [|by auto with ranked].
    constructor; auto with ranked.
  - unfold progressAlerts. auto with ranked.
  - unfold cycleAlerts. destruct (Performance engine); auto with ranked.
  - unfold auditAlerts. destruct (Metrics engine); auto with ranked.
  - unfold ruleAlerts. auto with ranked.
  - unfold watchdogAlerts. destruct (Watchdog engine); [|by auto with ranked].
    destruct (negb (String.eqb _ _)); [done|]. destruct (_ <? _); [constructor|]; auto with ranked.
  - destruct (Online engine); [|done]. apply ranked_bind. intros i. unfold instrumentAlerts.
    rewrite !Forall_app. split_and!; [by auto with ranked..|]. apply ranked_bind. intros v. unfold venueAlerts.
    rewrite !Forall_app. split_and!; [by auto with ranked..|]. destruct (vs_Fault v); auto with ranked.
Qed.

Lemma rank_critical a : ranked a -> severityRank (Severity a) = 2 <-> Severity a = "critical".
Proof. unfold severityRank. by intros [-> | ->]. Qed.
Lemma rank_warning a : ranked a -> severityRank (Severity a) = 1 <-> Severity a = "warning".
Proof. unfold severityRank. by intros [-> | ->]. Qed.

Lemma filter_iff {A} (P Q : A -> Prop) `{forall x, Decision (P x), forall x, Decision (Q x)} (l : list A) :
  Forall (fun x => P x <-> Q x) l -> filter P l = filter Q l.
Proof.
  intros Hl. induction Hl as [|x l Hx _ IH]; [done|]. rewrite !filter_cons, IH.
  destruct (decide (P x)), (decide (Q x)); tauto.
Qed.

Lemma filter_none {A} (P : A -> Prop) `{forall x, Decision (P x)} (l : list A) : Forall (fun x => ~ P x) l -> filter P l = [].
Proof. intros Hl. induction Hl as [|x l Hx _ IH]; [done|]. by rewrite filter_cons_False. Qed.
Lemma filter_all {A} (P : A -> Prop) `{forall x, Decision (P x)} (l : list A) : Forall P l -> filter P l = l.
Proof. intros Hl. induction Hl as [|x l Hx _ IH]; [done|]. by rewrite filter_cons_True, IH by done. Qed.

Abbreviation criticals l := (filter (fun a => Severity a = "critical") l).
Abbreviation warnings l := (filter (fun a => Severity a = "warning") l).

Lemma summary_parts cfg engine instruments now :
  let l := raised cfg engine now instruments in
  BuildMonitoringSummary cfg engine instruments now =
    MkMonitoringSummary (match criticals l, warnings l with
                         | _ :: _, _ => "critical" | [], _ :: _ => "degraded" | [], [] => "healthy" end)
      now (Z.of_nat (length (criticals l))) (Z.of_nat (length (warnings l))) (criticals l ++ warnings l).
Proof.
  cbv zeta. pose proof (raised_ranked cfg engine now instruments) as Hr. unfold BuildMonitoringSummary.
  set (l := raised cfg engine now instruments) in *.
  rewrite (stable_two (fun a => severityRank (Severity a)) l 2 1); [|lia|].
  2: { eapply Forall_impl; [exact Hr|]. intros a [-> | ->]; auto. }
  rewrite (filter_iff (fun a => severityRank (Severity a) = 2) (fun a => Severity a = "critical") l) by (eapply Forall_impl; [exact Hr|apply rank_critical]).
  rewrite (filter_iff (fun a => severityRank (Severity a) = 1) (fun a => Severity a = "warning") l) by (eapply Forall_impl; [exact Hr|apply rank_warning]).
  set (c := criticals l). set (w := warnings l).
  assert (Hc : Forall (fun a => Severity a = "critical") c) by (apply Forall_forall; by intros a [? _]%list_elem_of_filter).
  assert (Hw : Forall (fun a => Severity a = "warning") w) by (apply Forall_forall; by intros a [? _]%list_elem_of_filter).
  unfold count_severity. rewrite !filter_app.
  rewrite (filter_all (fun a => Severity a = "critical") c), (filter_all (fun a => Severity a = "warning") w) by done.
  rewrite (filter_none (fun a => Severity a = "critical") w) by (eapply Forall_impl; [exact Hw|]; by intros a ->).
  rewrite (filter_none (fun a => Severity a = "warning") c) by (eapply Forall_impl; [exact Hc|]; by intros a ->).
  rewrite app_nil_r. simpl app. by destruct c, w.
Qed.

Lemma length_parts l : Forall ranked l -> length (criticals l ++ warnings l) = length l.
Proof.
  intros Hr. induction Hr as [|a l Ha _ IH]; [done|]. rewrite !filter_cons.
  destruct Ha as [Ha|Ha]; rewrite Ha; simpl in *; rewrite <- IH, !length_app; simpl; lia.
Qed.

(** C38: the summary is a triage of the alerts raised: first the critical ones, then the
    warnings, each in the order in which they were raised and none lost or added; the two
    counts are those of the two parts, and the status is critical exactly when there is a
    critical alert, degraded when there are warnings only, healthy when there is none. *)
Theorem summary_triage cfg engine instruments now :
  let s := BuildMonitoringSummary cfg engine instruments now in
  let l := raised cfg engine now instruments in
  Alerts s = criticals l ++ warnings l /\ length (Alerts s) = length l
  /\ Critical s = Z.of_nat (length (criticals l)) /\ Warnings s = Z.of_nat (length (warnings l))
  /\ (summary_Status s = "critical" <-> criticals l <> [])
  /\ (summary_Status s = "degraded" <-> criticals l = [] /\ warnings l <> [])
  /\ (summary_Status s = "healthy" <-> l = []).
Proof.
  cbv zeta. rewrite summary_parts. cbn [Alerts Critical Warnings summary_Status].
  pose proof (length_parts _ (raised_ranked cfg engine now instruments)) as Hl.
  set (l := raised cfg engine now instruments) in *. split_and!; [done|done|done|done|..];
    destruct (criticals l) as [|c cs] eqn:Ec, (warnings l) as [|w ws] eqn:Ew; try naive_solver;
    (split; [try done|intros ->; done]); intros _; by destruct l.
Qed.

(** ** What a healthy system is *)

Definition venue_healthy (cfg : Config) (v : VenueSnapshot) : Prop :=
  MarketConnected v = true
  /\ (cfg_Mode cfg = ModeLive -> vs_TradingEnabled v = true -> AccountConnected v = true)
  /\ forall f, vs_Fault v = Some f -> Status f = Normal.

Definition instrument_healthy (cfg : Config) (i : InstrumentSnapshot) : Prop :=
  is_Status i <> "waiting" /\ is_Status i <> "degraded" /\ Forall (venue_healthy cfg) (is_Venues i).

Definition watchdog_fresh (cfg : Config) (now : Time) (w : WatchdogStatus) : Prop :=
  TimeSub now (LastCheckAt w) <=
    wrap64 (wrap64 ((if WatchdogTimeoutSeconds cfg <=? 0 then 15 else WatchdogTimeoutSeconds cfg) * 2) * Second).

Record system_healthy (cfg : Config) (engine : EngineStatus) (instruments : list InstrumentSnapshot) (now : Time) : Prop := {
  engine_online : Online engine = true;
  engine_ready : Ready engine = true;
  engine_no_error : es_Error engine = "";
  progress_fresh : LastTradingProgress engine <> zero_time ->
    TimeSub now (LastTradingProgress engine) <= timeoutOf (TradingProgressTimeoutSeconds cfg) 120;
  start_fresh m : LastTradingProgress engine = zero_time -> Metrics engine = Some m ->
    TimeSub now (ms_StartedAt m) <= timeoutOf (TradingProgressTimeoutSeconds cfg) 120;
  cycle_complete p : Performance engine = Some p -> perf_Failed p <= 0;
  cycle_fast p : Performance engine = Some p -> 0 < PollIntervalMS cfg -> DurationMS p <= PollIntervalMS cfg;
  audit_written m : Metrics engine = Some m -> AuditPendingEvents m <= 0;
  rules_stable c : c ∈ RuleChanges engine -> DetectedAt c <> zero_time -> Hour < TimeSub now (DetectedAt c);
  watchdog_healthy : cfg_Mode cfg = ModeLive ->
    exists w, Watchdog engine = Some w /\ Healthy w = true /\ watchdog_fresh cfg now w;
  instruments_healthy : Forall (instrument_healthy cfg) instruments
}.

Lemma when_nil b a : when b a = [] <-> b = false.
Proof. by destruct b. Qed.
Lemma bind_nil {A B} (f : A -> list B) (l : list A) : l ≫= f = [] <-> Forall (fun a => f a = []) l.
Proof.
  induction l as [|a l IH]; [done|]. rewrite Forall_cons, <- IH. cbn [mbind list_bind].
  split; [intros [-> ->]%app_nil|intros [-> ->]]; done.
Qed.

Lemma venue_quiet cfg i v : venueAlerts cfg i v = [] <-> venue_healthy cfg v.
Proof.
  unfold venueAlerts, venue_healthy. rewrite !app_nil, !when_nil, negb_false_iff.
  destruct (String.eqb_spec (cfg_Mode cfg) ModeLive), (vs_TradingEnabled v), (AccountConnected v);
    destruct (vs_Fault v) as [f|]; rewrite ?when_nil, ?negb_false_iff, ?String.eqb_eq; simpl; naive_solver.
Qed.

Lemma instrument_quiet cfg i : instrumentAlerts cfg i = [] <-> instrument_healthy cfg i.
Proof.
  unfold instrumentAlerts, instrument_healthy. rewrite !app_nil, !when_nil, !String.eqb_neq, bind_nil.
  by setoid_rewrite venue_quiet.
Qed.

Lemma engine_quiet engine : engineAlerts engine = [] <-> Online engine = true /\ Ready engine = true /\ es_Error engine = "".
Proof.
  unfold engineAlerts. rewrite app_nil, when_nil, negb_false_iff, String.eqb_eq.
  destruct (Online engine), (Ready engine); simpl; naive_solver.
Qed.

Lemma progress_quiet cfg engine now : Online engine = true -> Ready engine = true ->
  progressAlerts cfg engine now = [] <->
  (LastTradingProgress engine <> zero_time ->
    TimeSub now (LastTradingProgress engine) <= timeoutOf (TradingProgressTimeoutSeconds cfg) 120)
  /\ forall m, LastTradingProgress engine = zero_time -> Metrics engine = Some m ->
    TimeSub now (ms_StartedAt m) <= timeoutOf (TradingProgressTimeoutSeconds cfg) 120.
Proof.
  intros Hon Hre. unfold progressAlerts, progressStale. rewrite when_nil, Hon, Hre. cbn [andb].
  unfold IsZero. destruct (Z.eqb_spec (LastTradingProgress engine) zero_time) as [E|E];
    destruct (Metrics engine) as [m|]; cbn [negb andb]; rewrite ?Z.ltb_ge; naive_solver.
Qed.

Lemma cycle_quiet cfg engine : cycleAlerts cfg engine = [] <->
  (forall p, Performance engine = Some p -> perf_Failed p <= 0)
  /\ forall p, Performance engine = Some p -> 0 < PollIntervalMS cfg -> DurationMS p <= PollIntervalMS cfg.
Proof.
  unfold cycleAlerts. destruct (Performance engine) as [p|]; [|naive_solver].
  rewrite app_nil, !when_nil, andb_false_iff, !Z.ltb_ge. split.
  - intros [? ?]. split; intros p' [= <-]; [done|lia].
  - intros [Hf Hd]. specialize (Hf p eq_refl). specialize (Hd p eq_refl). lia.
Qed.

Lemma rules_quiet engine now : ruleAlerts engine now = [] <->
  forall c, c ∈ RuleChanges engine -> DetectedAt c <> zero_time -> Hour < TimeSub now (DetectedAt c).
Proof.
  unfold ruleAlerts. rewrite bind_nil, Forall_forall. apply forall_proper. intros c. rewrite when_nil.
  unfold recent, IsZero. rewrite negb_false_iff, orb_true_iff, Z.eqb_eq, Z.ltb_lt.
  destruct (decide (DetectedAt c = zero_time)); naive_solver.
Qed.

Lemma watchdog_quiet cfg engine now : Online engine = true -> watchdogAlerts cfg engine now = [] <->
  (cfg_Mode cfg = ModeLive -> exists w, Watchdog engine = Some w /\ Healthy w = true /\ watchdog_fresh cfg now w).
Proof.
  intros Hon. unfold watchdogAlerts, watchdog_fresh. rewrite Hon.
  destruct (Watchdog engine) as [w|], (String.eqb_spec (cfg_Mode cfg) ModeLive) as [E|E]; cbn [negb andb];
    try rewrite when_nil; try naive_solver.
  destruct (Z.ltb_spec (wrap64 (wrap64 ((if WatchdogTimeoutSeconds cfg <=? 0 then 15 else WatchdogTimeoutSeconds cfg) * 2) * Second))
    (TimeSub now (LastCheckAt w))) as [Hl|Hl].
  - split; [done|]. intros Hw. destruct (Hw E) as (w' & [= <-] & _ & ?). lia.
  - rewrite when_nil, negb_false_iff. split; [intros ?; by exists w|]. intros Hw. by destruct (Hw E) as (w' & [= <-] & ? & _).
Qed.

(** Healthy means healthy.  The summary says healthy exactly when the engine is online,
    ready and without error, its progress is fresh, the last cycle failed nowhere and was not
    slower than the interval, no audit event waits, no trading rule has changed within the
    hour, in live mode the watchdog is there, fresh and content, and every instrument runs
    with all its markets connected and without a fault. *)
Theorem healthy_iff cfg engine instruments now :
  summary_Status (BuildMonitoringSummary cfg engine instruments now) = "healthy"
  <-> system_healthy cfg engine instruments now.
Proof.
  rewrite summary_parts. cbn [summary_Status]. pose proof (length_parts _ (raised_ranked cfg engine now instruments)) as Hl.
  set (l := raised cfg engine now instruments) in *.
  assert (Hs : (match criticals l, warnings l with
                | _ :: _, _ => "critical" | [], _ :: _ => "degraded" | [], [] => "healthy" end = "healthy") <-> l = []).
  { destruct (criticals l) as [|c cs] eqn:Ec, (warnings l) as [|w ws] eqn:Ew;
      (split; [try done|intros E; rewrite E in *; done]); intros _; by destruct l. }
  rewrite Hs. unfold l, raised. rewrite !app_nil, engine_quiet, cycle_quiet, rules_quiet.
  assert (Ha : auditAlerts engine = [] <-> forall m, Metrics engine = Some m -> AuditPendingEvents m <= 0).
  { unfold auditAlerts. destruct (Metrics engine) as [m|]; [|naive_solver]. rewrite when_nil, Z.ltb_ge. naive_solver. }
  rewrite Ha. split.
  - intros ((Hon & Hre & He) & Hp & [Hc1 Hc2] & Hau & Hr & Hw & Hi). rewrite progress_quiet in Hp by done.
    rewrite watchdog_quiet in Hw by done. rewrite Hon, bind_nil in Hi. destruct Hp as [Hp1 Hp2]. constructor; try done.
    eapply Forall_impl; [exact Hi|]. intros i. apply instrument_quiet.
  - intros [Hon Hre He Hp1 Hp2 Hc1 Hc2 Hau Hr Hw Hi]. rewrite progress_quiet, watchdog_quiet, Hon, bind_nil by done.
    split_and!; try done. eapply Forall_impl; [exact Hi|]. intros i. apply instrument_quiet.
Qed.
End Monitoring.

(** The Prometheus exposition of the administration (src/internal/adminapi/monitoring.go):
    [RenderPrometheus], the numbers it prints, and reading it back ([scrape]). *)

Module Prometheus.

(** ** float64

    A number is [m * 2 ^ e]; the results of arithmetic are rounded to 53 bits, halves to even. *)

Definition half_even (n d : Z) : Z :=
  let q := n / d in let r := 2 * (n mod d) in
  if r <? d then q else if d <? r then q + 1 else if Z.even q then q else q + 1.

Definition scaled (n e : Z) : Z := n * 2 ^ Z.max 0 e.

(** The float nearest to [n / d]. *)
Definition nearest (n d : Z) : Z * Z :=
  let a := Z.abs n in
  if a =? 0 then (0, 0) else
  let k := Z.log2 a - Z.log2 d in
  let e := (if scaled a (- k) <? scaled d k then k - 1 else k) - 52 in
  let e := Z.max (-1074) e in
  let m := half_even (scaled a (- e)) (scaled d e) in
  let '(m, e) := if m =? 2 ^ 53 then (2 ^ 52, e + 1) else (m, e) in
  (Z.sgn n * m, e).

(** Numerator and denominator. *)
Definition ratio (x : Z * Z) : Z * Z := (scaled (fst x) (snd x), scaled 1 (- snd x)).

Definition fadd (x y : Z * Z) : Z * Z :=
  let '(a, b) := ratio x in let '(c, d) := ratio y in nearest (a * d + c * b) (b * d).
Definition fdiv (x : Z * Z) (n : Z) : Z * Z := let '(a, b) := ratio x in nearest a (b * n).

(** [float64(n)] *)
Definition ofInt (n : Z) : Z * Z := nearest n 1.
(** [d.Seconds()] *)
Definition Seconds (d : Duration) : Z * Z := fadd (ofInt (Z.quot d Second)) (nearest (Z.rem d Second) Second).

(** ** The shortest text that denotes a float, as %v prints it *)

Fixpoint decimal_point (fuel : nat) (n d : Z) (dp : Z) : Z :=
  match fuel with
  | O => dp
  | S f => if d <=? n then decimal_point f n (d * 10) (dp + 1) else dp
  end.
(** [k] with [10 ^ (k - 1) <= n / d < 10 ^ k] *)
Definition magnitude (n d : Z) : Z :=
  let shift := Z.log2 d + 1 in decimal_point (Z.to_nat (Z.log2 (n * 10 ^ shift) + 2)) (n * 10 ^ shift) d (- shift).

Definition pow10 (n k : Z) : Z := n * 10 ^ Z.max 0 k.

(** [n] significant digits, and the position of the point. *)
Definition digits_to (k : Z) (x : Z * Z) : Z * Z :=
  let '(n, d) := ratio x in let dp := magnitude n d in
  (half_even (pow10 n (k - dp)) (pow10 d (dp - k)), dp - k).

Fixpoint shortest_from (fuel : nat) (k : Z) (x : Z * Z) : Z * Z :=
  let '(D, e) := digits_to k x in
  match fuel with
  | O => (D, e)
  | S f => if bool_decide (nearest (pow10 D e) (pow10 1 (- e)) = x) then (D, e) else shortest_from f (k + 1) x
  end.

Fixpoint take_string (n : nat) (s : string) : string :=
  match n, s with S n', String c s' => String c (take_string n' s') | _, _ => "" end.

Definition zeros (n : Z) : string := fixed_digits (Z.to_nat n) 0.

Definition float_text (x : Z * Z) : string :=
  if fst x =? 0 then "0" else
  let '(D, e) := shortest_from 16 1 (Z.abs (fst x), snd x) in
  let all := int_digits D in
  let ds := trim_right_by (Ascii.eqb "0") all in
  let dp := Z.of_nat (String.length all) + e in
  let nd := Z.of_nat (String.length ds) in
  let exp := dp - 1 in
  (if fst x <? 0 then "-" else "") +:+
  if (exp <? -4) || (6 <=? exp) then
    take_string 1 ds +:+ (if 1 <? nd then "." +:+ drop_string 1 ds else "") +:+ "e"
    +:+ (if exp <? 0 then "-" else "+") +:+ (if Z.abs exp <? 10 then "0" else "") +:+ int_digits (Z.abs exp)
  else if dp <=? 0 then "0." +:+ zeros (- dp) +:+ ds
  else if dp <? nd then take_string (Z.to_nat dp) ds +:+ "." +:+ drop_string (Z.to_nat dp) ds
  else ds +:+ zeros (dp - nd).

Example float_text_ex : map float_text
    [Seconds 0; Seconds 1500000000; Seconds 12345678901; fdiv (ofInt 1) 1000; fdiv (ofInt 250) 1000; ofInt (-1);
     Seconds (1234567 * Second + 500000000); fdiv (ofInt 100000) 1; Seconds 100; fadd (nearest 1 10) (nearest 2 10)]
  = ["0"; "1.5"; "12.345678901"; "0.001"; "0.25"; "-1"; "1.2345675e+06"; "100000"; "1e-07"; "0.30000000000000004"].
Proof. vm_compute. reflexivity. Qed.

Definition int_text (n : Z) : string := (if n <? 0 then "-" else "") +:+ int_digits (Z.abs n).

(** ** The lines *)

Inductive line :=
  | Note (text : string)
  | Sample (name : string) (labels : list (string * string)) (value : string).

(** A value of a metric: an integer or a float. *)
Definition boolFloat (value : bool) : Z := if value then 1 else 0.
Definition ageSeconds (now value : Time) : Z * Z :=
  if IsZero value then ofInt (-1) else
  let s := Seconds (TimeSub now value) in if fst s <? 0 then ofInt 0 else s.
(** [float64(ms) / 1000] *)
Definition milliseconds (ms : Z) : string := float_text (fdiv (ofInt ms) 1000).

Definition metric (name help metricType value : string) : list line :=
  [Note ("# HELP " +:+ name +:+ " " +:+ help); Note ("# TYPE " +:+ name +:+ " " +:+ metricType); Sample name [] value].

Definition performanceLines (p : CyclePerformance) : list line :=
  metric "fluxmaker_cycle_duration_seconds" "Duration of the latest trading cycle." "gauge" (milliseconds (DurationMS p))
  ++ metric "fluxmaker_cycle_failed_instruments" "Failed instruments in the latest trading cycle." "gauge" (int_text (perf_Failed p)).

Definition metricsLines (m : MetricsSnapshot) : list line :=
  metric "fluxmaker_cycles_total" "Trading cycles since engine start." "counter" (int_text (CyclesTotal m))
  ++ metric "fluxmaker_cycle_failures_total" "Trading cycles with at least one failure." "counter" (int_text (CycleFailuresTotal m))
  ++ metric "fluxmaker_instrument_runs_total" "Instrument executions since engine start." "counter" (int_text (InstrumentRunsTotal m))
  ++ metric "fluxmaker_instrument_failures_total" "Failed instrument executions since engine start." "counter" (int_text (InstrumentFailuresTotal m))
  ++ metric "fluxmaker_venue_fault_events_total" "Venue fault observations since engine start." "counter" (int_text (VenueFaultEventsTotal m))
  ++ metric "fluxmaker_oms_placed_orders_total" "Orders accepted by OMS since engine start." "counter" (int_text (OMSPlacedTotal m))
  ++ metric "fluxmaker_oms_canceled_orders_total" "Orders submitted for cancellation by OMS since engine start." "counter" (int_text (OMSCanceledTotal m))
  ++ metric "fluxmaker_simulated_trades_total" "Internal simulated trade events since engine start." "counter" (int_text (SimulatedTradesTotal m))
  ++ metric "fluxmaker_audit_flush_errors_total" "Audit flush failures since engine start." "counter" (int_text (AuditFlushErrorsTotal m))
  ++ metric "fluxmaker_audit_pending_events" "Audit events waiting for durable flush." "gauge" (int_text (AuditPendingEvents m))
  ++ metric "fluxmaker_rule_changes_total" "Trading rule changes detected since engine start." "counter" (int_text (RuleChangesTotal m))
  ++ metric "fluxmaker_lease_fence_rejections_total" "Exchange writes rejected because the market lease was stale or unverifiable." "counter" (int_text (LeaseFenceRejectsTotal m)).

Definition watchdogLines (now : Time) (w : WatchdogStatus) : list line :=
  metric "fluxmaker_watchdog_healthy" "Whether the independent watchdog reports healthy liveness." "gauge" (int_text (boolFloat (Healthy w)))
  ++ metric "fluxmaker_watchdog_last_check_age_seconds" "Age of the latest watchdog check." "gauge" (float_text (ageSeconds now (LastCheckAt w)))
  ++ metric "fluxmaker_watchdog_last_trigger_age_seconds" "Age of the latest watchdog protection action." "gauge" (float_text (ageSeconds now (LastTriggeredAt w))).

Definition venueLines (instrument : string) (v : VenueSnapshot) : list line :=
  let labels := [("instrument", instrument); ("venue", vs_Name v)] in
  [Sample "fluxmaker_venue_market_connected" labels (int_text (boolFloat (MarketConnected v)));
   Sample "fluxmaker_venue_account_connected" labels (int_text (boolFloat (AccountConnected v)));
   Sample "fluxmaker_venue_open_orders" labels (int_text (Z.of_nat (length (OpenOrders v))));
   Sample "fluxmaker_venue_pending_orders" labels (int_text (PendingOrders v));
   Sample "fluxmaker_venue_book_duration_seconds" labels (milliseconds (BookDurationMS v));
   Sample "fluxmaker_venue_orders_duration_seconds" labels (milliseconds (OrdersDurationMS v));
   Sample "fluxmaker_venue_fills_duration_seconds" labels (milliseconds (FillsDurationMS v));
   Sample "fluxmaker_venue_oms_duration_seconds" labels (milliseconds (OMSDurationMS v))].

Definition instrumentLines (i : InstrumentSnapshot) : list line :=
  let labels := [("instrument", is_InstrumentID i)] in
  [Sample "fluxmaker_instrument_running" labels (int_text (boolFloat (String.eqb (is_Status i) "running")));
   Sample "fluxmaker_instrument_tick_duration_seconds" labels (milliseconds (TickDurationMS i));
   Sample "fluxmaker_instrument_reference_duration_seconds" labels (milliseconds (ReferenceDurationMS i));
   Sample "fluxmaker_instrument_balance_duration_seconds" labels (milliseconds (BalanceDurationMS i))]
  ++ (is_Venues i ≫= venueLines (is_InstrumentID i)).

Definition optional {A} (f : A -> list line) (o : option A) : list line := match o with Some a => f a | None => [] end.

Definition lines (engine : EngineStatus) (instruments : list InstrumentSnapshot) (summary : Monitoring.MonitoringSummary)
    (now : Time) : list line :=
  metric "fluxmaker_engine_up" "Whether the trading engine heartbeat is online." "gauge" (int_text (boolFloat (Online engine)))
  ++ metric "fluxmaker_engine_ready" "Whether the trading engine has an applied runtime." "gauge" (int_text (boolFloat (Ready engine)))
  ++ metric "fluxmaker_engine_version" "Currently applied configuration version." "gauge" (int_text (es_Version engine))
  ++ metric "fluxmaker_engine_heartbeat_age_seconds" "Age of the latest engine heartbeat." "gauge" (float_text (ageSeconds now (LastHeartbeat engine)))
  ++ metric "fluxmaker_trading_progress_age_seconds" "Age of the latest completed instrument progress." "gauge" (float_text (ageSeconds now (LastTradingProgress engine)))
  ++ optional performanceLines (Performance engine) ++ optional metricsLines (Metrics engine)
  ++ metric "fluxmaker_recent_rule_changes" "Trading rule changes retained in the runtime alert window." "gauge" (int_text (Z.of_nat (length (RuleChanges engine))))
  ++ metric "fluxmaker_monitoring_critical_alerts" "Current critical monitoring alerts." "gauge" (int_text (Monitoring.Critical summary))
  ++ metric "fluxmaker_monitoring_warning_alerts" "Current warning monitoring alerts." "gauge" (int_text (Monitoring.Warnings summary))
  ++ optional (watchdogLines now) (Watchdog engine)
  ++ (instruments ≫= instrumentLines).

(** ** The text *)

Definition quote : ascii := ascii_of_nat 34.
Definition backslash : ascii := ascii_of_nat 92.
Definition line_feed : ascii := ascii_of_nat 10.

Fixpoint prometheusEscape (value : string) : string :=
  match value with
  | "" => ""
  | String c s =>
      if Ascii.eqb c backslash then String backslash (String backslash (prometheusEscape s))
      else if Ascii.eqb c line_feed then String backslash (String "n" (prometheusEscape s))
      else if Ascii.eqb c quote then String backslash (String quote (prometheusEscape s))
      else String c (prometheusEscape s)
  end.

Definition label_text (kv : string * string) : string :=
  fst kv +:+ "=" +:+ String quote (prometheusEscape (snd kv) +:+ String quote "").

Definition line_text (l : line) : string :=
  match l with
  | Note text => text
  | Sample name [] value => name +:+ " " +:+ value
  | Sample name labels value => name +:+ "{" +:+ StringsJoin (map label_text labels) "," +:+ "} " +:+ value
  end.

Definition RenderPrometheus (engine : EngineStatus) (instruments : list InstrumentSnapshot)
    (summary : Monitoring.MonitoringSummary) (now : Time) : string :=
  foldr (fun l text => line_text l +:+ String line_feed text) "" (lines engine instruments summary now).

(** ** Reading it back *)

(** The text up to the first of [stops], and what follows from there. *)
Fixpoint until (stops : list ascii) (s : string) : string * string :=
  match s with
  | "" => ("", "")
  | String c s' => if existsb (Ascii.eqb c) stops then ("", s)
                   else let '(a, b) := until stops s' in (String c a, b)
  end.

(** The value of a label behind its opening quote, and what follows the closing one. *)
Fixpoint scan_value (s : string) : option (string * string) :=
  match s with
  | "" => None
  | String c s' =>
      if Ascii.eqb c quote then Some ("", s') else
      if Ascii.eqb c backslash then
        match s' with
        | String c' s'' => '(v, rest) ← scan_value s'';
            Some (String (if Ascii.eqb c' "n" then line_feed else c') v, rest)
        | "" => None
        end
      else '(v, rest) ← scan_value s'; Some (String c v, rest)
  end.

Fixpoint scan_labels (fuel : nat) (s : string) : option (list (string * string) * string) :=
  match fuel with
  | O => None
  | S f =>
      let '(key, rest) := until ["="%char] s in
      match rest with
      | String _ (String q rest) =>
          '(v, rest) ← scan_value rest;
          match rest with
          | String "}" rest => Some ([(key, v)], rest)
          | String "," rest => '(l, rest) ← scan_labels f rest; Some ((key, v) :: l, rest)
          | _ => None
          end
      | _ => None
      end
  end.

Definition scan_line (s : string) : option (list (string * list (string * string) * string)) :=
  match s with
  | "" | String "#" _ => Some []
  | _ =>
      let '(name, rest) := until ["{"%char; " "%char] s in
      match rest with
      | String " " value => Some [(name, [], value)]
      | String "{" rest =>
          '(labels, rest) ← scan_labels (String.length rest) rest;
          match rest with String " " value => Some [(name, labels, value)] | _ => None end
      | _ => None
      end
  end.

(** The samples of an exposition. *)
Definition scrape (text : string) : option (list (string * list (string * string) * string)) :=
  mjoin <$> mapM scan_line (Split line_feed text).

Definition samples (l : list line) : list (string * list (string * string) * string) :=
  omap (fun x => match x with Sample name labels value => Some (name, labels, value) | Note _ => None end) l.

(** ** What is printed has no line feed *)

Definition safe (s : string) : bool := forall_string (fun c => negb (Ascii.eqb c line_feed)) s.

Lemma safe_app s t : safe (s +:+ t) = safe s && safe t.
Proof. apply forall_string_app. Qed.

Lemma safe_digits s : forall_string is_digit_char s = true -> safe s = true.
Proof.
  apply forall_string_impl. intros c Hc. destruct (Ascii.eqb_spec c line_feed) as [->|]; [|done].
  by vm_compute in Hc.
Qed.

Lemma safe_int n : safe (int_digits n) = true.
Proof. apply safe_digits, int_digits_digits. Qed.

Lemma forall_take p n s : forall_string p s = true -> forall_string p (take_string n s) = true.
Proof.
  revert n. induction s as [|c s IH]; intros [|n]; simpl; try done. intros [Hc Hs]%andb_prop. by rewrite Hc, IH.
Qed.
Lemma forall_drop p n s : forall_string p s = true -> forall_string p (drop_string n s) = true.
Proof.
  revert n. induction s as [|c s IH]; intros [|n]; simpl; try done. intros [Hc Hs]%andb_prop. by apply IH.
Qed.
Lemma forall_trim p q s : forall_string p s = true -> forall_string p (trim_right_by q s) = true.
Proof.
  induction s as [|c s IH]; simpl; [done|]. intros [Hc Hs]%andb_prop. specialize (IH Hs).
  destruct (trim_right_by q s) as [|c' t]; [destruct (q c); simpl; by rewrite ?Hc|]. simpl in *. by rewrite Hc.
Qed.

Lemma safe_zeros n : safe (zeros n) = true.
Proof.
  unfold zeros. induction (Z.to_nat n) as [|k IH]; [done|]. unfold safe in *. cbn [fixed_digits forall_string].
  rewrite Z.div_0_l by lia. by rewrite IH.
Qed.

Lemma safe_int_text n : safe (int_text n) = true.
Proof. unfold int_text. rewrite safe_app, safe_int. by destruct (n <? 0). Qed.

Lemma safe_float_text x : safe (float_text x) = true.
Proof.
  unfold float_text. destruct (fst x =? 0); [done|]. destruct (shortest_from 16 1 _) as [D e].
  set (ds := trim_right_by _ _). assert (Hd : safe ds = true) by apply forall_trim, safe_int.
  assert (Ht : forall n, safe (take_string n ds) = true) by (intros; by apply forall_take).
  assert (Hr : forall n, safe (drop_string n ds) = true) by (intros; by apply forall_drop).
  generalize dependent ds. intros ds Hd Ht Hr. cbv zeta.
  repeat match goal with |- context [if ?b then _ else _] => destruct b end;
    rewrite ?safe_app, ?Hd, ?Ht, ?Hr, ?safe_zeros, ?safe_int; done.
Qed.

Lemma safe_escape s : safe (prometheusEscape s) = true.
Proof.
  induction s as [|c s IH]; [done|]. simpl. unfold safe in *.
  destruct (Ascii.eqb_spec c backslash); [by simpl|]. destruct (Ascii.eqb_spec c line_feed); [by simpl|].
  destruct (Ascii.eqb_spec c quote); [by simpl|]. simpl. apply andb_true_intro. split; [|done].
  by destruct (Ascii.eqb_spec c line_feed).
Qed.

(** ** Lines that can be read back *)

Definition name_ok (name : string) : bool :=
  forall_string (fun c => negb (existsb (Ascii.eqb c) ["{"%char; " "%char]) && negb (Ascii.eqb c line_feed)) name
  && match name with "" | String "#" _ => false | _ => true end.
Definition key_ok (key : string) : bool :=
  forall_string (fun c => negb (existsb (Ascii.eqb c) ["="%char]) && negb (Ascii.eqb c line_feed)) key.

Definition readable (l : line) : Prop :=
  match l with
  | Note text => match text with String "#" _ => safe text = true | _ => False end
  | Sample name labels value => name_ok name = true /\ Forall (fun kv => key_ok (fst kv) = true) labels /\ safe value = true
  end.

Lemma until_stop stops name c rest :
  forall_string (fun c => negb (existsb (Ascii.eqb c) stops)) name = true -> existsb (Ascii.eqb c) stops = true ->
  until stops (name +:+ String c rest) = (name, String c rest).
Proof.
  intros Hn Hc. induction name as [|c' name IH].
  - change ("" +:+ String c rest) with (String c rest). cbn [until]. by rewrite Hc.
  - simpl in Hn. apply andb_prop in Hn as [Hc' Hn]. apply negb_true_iff in Hc'.
    change (String c' name +:+ String c rest) with (String c' (name +:+ String c rest)). cbn [until].
    by rewrite Hc', IH.
Qed.

Lemma scan_escape s rest : scan_value (prometheusEscape s +:+ String quote rest) = Some (s, rest).
Proof.
  induction s as [|c s IH].
  - change (prometheusEscape "" +:+ String quote rest) with (String quote rest). cbn [scan_value]. done.
  - cbn [prometheusEscape]. destruct (Ascii.eqb_spec c backslash) as [->|Hb]; [simpl in *; by rewrite IH|].
    destruct (Ascii.eqb_spec c line_feed) as [->|Hl]; [simpl in *; by rewrite IH|].
    destruct (Ascii.eqb_spec c quote) as [->|Hq]; [simpl in *; by rewrite IH|].
    change (String c (prometheusEscape s) +:+ String quote rest) with (String c (prometheusEscape s +:+ String quote rest)).
    cbn [scan_value]. apply Ascii.eqb_neq in Hq, Hb. by rewrite Hq, Hb, IH.
Qed.

Lemma scan_labels_text f labels rest : labels <> [] -> Forall (fun kv => key_ok (fst kv) = true) labels ->
  (length labels <= f)%nat ->
  scan_labels f (StringsJoin (map label_text labels) "," +:+ "}" +:+ rest) = Some (labels, rest).
Proof.
  intros Hne Hok. revert f. induction Hok as [|[key v] labels Hk Hok IH]; intros f Hf; [done|].
  destruct f as [|f]; [simpl in Hf; lia|]. cbn [scan_labels].
  assert (Hone : forall tail, let '(key', r) := until ["="%char] (label_text (key, v) +:+ tail) in
    key' = key /\ r = "=" +:+ String quote (prometheusEscape v +:+ String quote tail)).
  { intros tail. unfold label_text. cbn [fst snd]. rewrite string_app_assoc.
    change (("=" +:+ String quote (prometheusEscape v +:+ String quote "")) +:+ tail)
      with (String "=" (String quote ((prometheusEscape v +:+ String quote "") +:+ tail))).
    rewrite until_stop; [|eapply forall_string_impl; [|exact Hk]; by intros c [? _]%andb_prop|done].
    split; [done|]. rewrite string_app_assoc. done. }
  destruct labels as [|kv labels].
  - cbn [map StringsJoin]. specialize (Hone ("}" +:+ rest)). destruct (until _ _) as [key' r]. destruct Hone as [-> ->].
    simpl. rewrite scan_escape. done.
  - cbn [map]. change (StringsJoin (label_text (key, v) :: label_text kv :: map label_text labels) ",")
      with (label_text (key, v) +:+ "," +:+ StringsJoin (map label_text (kv :: labels)) ",").
    rewrite string_app_assoc. pose proof (IH ltac:(done) f ltac:(simpl in *; lia)) as IHf. clear IH. revert IHf.
    generalize (StringsJoin (map label_text (kv :: labels)) ","). intros joined IHf.
    specialize (Hone (("," +:+ joined) +:+ "}" +:+ rest)).
    destruct (until _ _) as [key' r]. destruct Hone as [-> ->]. simpl. rewrite scan_escape.
    simpl in *. change ("" +:+ joined) with joined. by rewrite IHf.
Qed.

Lemma labels_length labels : (length labels <= String.length (StringsJoin (map label_text labels) ","))%nat.
Proof.
  assert (Ha : forall a b, String.length (a +:+ b) = (String.length a + String.length b)%nat).
  { intros a b. induction a as [|c a IH]; [done|]. simpl. by rewrite IH. }
  assert (H1 : forall kv, (1 <= String.length (label_text kv))%nat).
  { intros kv. unfold label_text. rewrite Ha. simpl. lia. }
  induction labels as [|kv labels IH]; [done|]. destruct labels as [|kv' labels]; [apply H1|].
  change (map label_text (kv :: kv' :: labels)) with (label_text kv :: label_text kv' :: map label_text labels).
  change (StringsJoin (label_text kv :: label_text kv' :: map label_text labels) ",")
    with (label_text kv +:+ "," +:+ StringsJoin (map label_text (kv' :: labels)) ",").
  rewrite !Ha. specialize (H1 kv). change (String.length ",") with 1%nat. cbn [length] in *. lia.
Qed.

(** A line is read as what it is. *)
Lemma scan_line_text l : readable l -> scan_line (line_text l) = Some (samples [l]).
Proof.
  destruct l as [text|name labels value].
  { simpl. destruct text as [|c text]; [done|]. simpl. by repeat (destruct c as [[] [] [] [] [] [] [] []]; try done). }
  intros (Hn & Hl & _). unfold name_ok in Hn. apply andb_prop in Hn as [Hn Hfirst].
  assert (Hstop : forall_string (fun c => negb (existsb (Ascii.eqb c) ["{"%char; " "%char])) name = true).
  { eapply forall_string_impl; [|exact Hn]. by intros c [? _]%andb_prop. }
  assert (Hscan : forall c rest, scan_line (name +:+ String c rest) =
    let '(name, rest) := until ["{"%char; " "%char] (name +:+ String c rest) in
    match rest with
    | String " " value => Some [(name, [], value)]
    | String "{" rest =>
        '(labels, rest) ← scan_labels (String.length rest) rest;
        match rest with String " " value => Some [(name, labels, value)] | _ => None end
    | _ => None
    end).
  { intros c rest. destruct name as [|c0 name]; [done|]. clear -Hfirst.
    destruct c0 as [[] [] [] [] [] [] [] []]; done. }
  destruct labels as [|kv labels].
  - cbn [line_text]. change (name +:+ " " +:+ value) with (name +:+ String " " value). rewrite Hscan.
    by rewrite until_stop by done.
  - cbn [line_text]. change (name +:+ "{" +:+ StringsJoin (map label_text (kv :: labels)) "," +:+ "} " +:+ value)
      with (name +:+ String "{" (StringsJoin (map label_text (kv :: labels)) "," +:+ "}" +:+ String " " value)).
    rewrite Hscan, until_stop by done. rewrite scan_labels_text; [done|done|done|].
    pose proof (labels_length (kv :: labels)) as Hlen. etrans; [exact Hlen|].
    generalize (StringsJoin (map label_text (kv :: labels)) ","). intros a.
    induction a as [|c a IH]; [simpl; lia|]. simpl. lia.
Qed.

Lemma safe_line l : readable l -> safe (line_text l) = true.
Proof.
  destruct l as [text|name labels value]; simpl.
  { destruct text as [|c text]; [done|]. by repeat (destruct c as [[] [] [] [] [] [] [] []]; try done). }
  intros (Hn & Hl & Hv). unfold name_ok in Hn. apply andb_prop in Hn as [Hn _].
  assert (Hname : safe name = true).
  { eapply forall_string_impl; [|exact Hn]. by intros c [_ ?]%andb_prop. }
  assert (Hj : safe (StringsJoin (map label_text labels) ",") = true).
  { induction Hl as [|[key v] labels Hk _ IH]; [done|].
    assert (Hone : safe (label_text (key, v)) = true).
    { assert (Hkey : safe key = true) by (eapply forall_string_impl; [|exact Hk]; by intros c [_ ?]%andb_prop).
      assert (Hq : safe (String quote (prometheusEscape v +:+ String quote "")) = true).
      { change (safe (String quote "" +:+ prometheusEscape v +:+ String quote "") = true). by rewrite !safe_app, safe_escape. }
      unfold label_text. cbn [fst snd]. by rewrite !safe_app, Hkey, Hq. }
    destruct labels as [|kv labels]; [done|]. cbn [map StringsJoin] in *. by rewrite !safe_app, Hone, IH. }
  destruct labels as [|kv labels]; rewrite !safe_app, Hname, Hv; [done|]. by rewrite Hj.
Qed.

Lemma scrape_lines l : Forall readable l ->
  scrape (foldr (fun l text => line_text l +:+ String line_feed text) "" l) = Some (samples l).
Proof.
  intros Hl. unfold scrape. assert (E : mapM scan_line (Split line_feed (foldr (fun l text => line_text l +:+ String line_feed text) "" l))
    = Some (map (fun x => samples [x]) l ++ [[]])).
  { induction Hl as [|x l Hx _ IH]; [done|]. cbn [foldr]. rewrite Split_more by by apply safe_line.
    cbn [mapM]. rewrite scan_line_text by done. cbn [mbind option_bind]. rewrite IH. done. }
  rewrite E. cbn [fmap option_fmap option_map]. f_equal. clear. induction l as [|x l IH]; [done|].
  transitivity (samples [x] ++ samples l); [|by destruct x]. exact (f_equal (app (samples [x])) IH).
Qed.

Lemma readable_metric name help metricType value : name_ok name = true -> safe help = true -> safe metricType = true ->
  safe value = true -> Forall readable (metric name help metricType value).
Proof.
  intros Hn Hh Ht Hv. pose proof Hn as Hn'. unfold name_ok in Hn'. apply andb_prop in Hn' as [Hn' _].
  assert (Hname : safe name = true) by (eapply forall_string_impl; [|exact Hn']; by intros c [_ ?]%andb_prop).
  unfold metric. repeat constructor; simpl; try done.
  - change (safe ("# HELP " +:+ name +:+ " " +:+ help) = true). by rewrite !safe_app, Hname, Hh.
  - change (safe ("# TYPE " +:+ name +:+ " " +:+ metricType) = true). by rewrite !safe_app, Hname, Ht.
Qed.

Lemma safe_milliseconds ms : safe (milliseconds ms) = true.
Proof. apply safe_float_text. Qed.

Lemma readable_lines engine instruments summary now : Forall readable (lines engine instruments summary now).
Proof.
  unfold lines, optional. rewrite !Forall_app.
  assert (Hi : Forall readable (instruments ≫= instrumentLines)).
  { apply Forall_bind, Forall_true. intros i. unfold instrumentLines. apply Forall_app_2.
    - repeat constructor; auto using safe_int_text, safe_milliseconds.
    - apply Forall_bind, Forall_true. intros v. unfold venueLines.
      repeat constructor; auto using safe_int_text, safe_milliseconds. }
  split_and!; try done; try (apply readable_metric; auto using safe_int_text, safe_float_text; done).
  - destruct (Performance engine); [|done]. unfold performanceLines. rewrite !Forall_app.
    split_and!; apply readable_metric; auto using safe_int_text, safe_milliseconds; done.
  - destruct (Metrics engine); [|done]. unfold metricsLines. rewrite !Forall_app.
    split_and!; apply readable_metric; auto using safe_int_text; done.
  - destruct (Watchdog engine); [|done]. unfold watchdogLines. rewrite !Forall_app.
    split_and!; apply readable_metric; auto using safe_int_text, safe_float_text; done.
Qed.

(** C40: what is exposed is what is scraped.  Whatever the instruments and the exchanges are
    called, quotes, backslashes and line feeds included, a reader of the exposition format
    finds in the text exactly the samples, with their labels and values, in order. *)
Theorem exposition_round_trip engine instruments summary now :
  scrape (RenderPrometheus engine instruments summary now) = Some (samples (lines engine instruments summary now)).
Proof. apply scrape_lines, readable_lines. Qed.
End Prometheus.
