(* ===== verification/Users.v ===== *)
(** The administration of accounts (src/internal/adminapi/server.go): requests and answers,
    the session of a request, the handlers of users, roles and passwords.

    A handler is a program of statements, as in internal/auth; [inTransaction] is its
    transaction with the deferred rollback.  Parsing of mail addresses (net/mail) is a
    parameter, class [Mail]. *)
From S2P Require Import Prelude DecimalText Config Json World Rpc Sha256 Wire Shared Password Accounts.
Import Accounts.

Open Scope string_scope.
Open Scope list_scope.
Open Scope Z_scope.

(** [mail.ParseAddress]: the address in a text, when it is one. *)
Class Mail := { ParseAddress : string -> option string }.

Module Users.

(** ** Requests and answers *)

(** [Body] is the tree of the body, nothing when it is no JSON text. *)
Record Request := MkRequest {
  Method : string; Host : string; Origin : string; Authorization : string;
  Cookies : list (string * string); PathID : string; Body : option Json
}.

(** [Cookie]: the value given to the cookie fluxmaker_session, empty when it is removed. *)
Record Response := MkResponse { Code : Z; Answer : Json; Cookie : option string }.

Definition writeJSON (status : Z) (value : Json) : Response := MkResponse status value None.
Definition writeError (status : Z) (message : string) : Response := writeJSON status (JObj [("error", JStr message)]).
Definition noContent : Response := MkResponse 204 JNull None.

(** [DisallowUnknownFields] *)
Definition decodeJSON (names : list string) (r : Request) : option (list (string * Json)) :=
  body ← Body r; l ← asObject body;
  if forallb (fun kv => existsb (EqualFold (fst kv)) names) l then Some l else None.
Definition badJSON : Response := writeError 400 "invalid JSON".

Definition or_bad {A} (x : option A) (k : A -> program Response) : program Response :=
  match x with Some a => k a | None => Return badJSON end.

(** A step whose error ends the handler with [failed]. *)
Definition orRespond {A} (p : program (reply A)) (failed : error -> Response) (k : A -> program Response) : program Response :=
  r ← p; match r with inl a => k a | inr err => Return (failed err) end.

Definition inTransaction (failed : Response) (body : program Response) : program Response :=
  r ← transaction (x ← body; Return (inl x));
  Return (match r with inl x => x | inr _ => failed end).

(** ** Sessions of requests *)

(** [strings.Fields] *)
Fixpoint fields_from (word : string) (s : string) : list string :=
  match s with
  | "" => if String.eqb word "" then [] else [word]
  | String c s => if is_space c
      then (if String.eqb word "" then [] else [word]) ++ fields_from "" s
      else fields_from (word +:+ String c "") s
  end.
Definition Fields (s : string) : list string := fields_from "" s.

Definition bearerToken (r : Request) : string :=
  let cookie := match list_find (fun c => fst c = "fluxmaker_session") (Cookies r) with
                | Some (_, (_, value)) => value | None => "" end in
  match Fields (Authorization r) with
  | [scheme; token] => if EqualFold scheme "Bearer" then token else cookie
  | _ => cookie
  end.

(** The guard of every route but the public ones. *)
Definition require (permission : string) (next : Session -> Request -> program Response) (r : Request)
    : program Response :=
  let crossOrigin :=
    negb (String.eqb (Method r) "GET") && negb (String.eqb (Method r) "HEAD") && negb (String.eqb (Origin r) "")
    && match url_Parse (Origin r) with Some u => negb (EqualFold (Config.Host u) (Host r)) | None => true end in
  if crossOrigin then Return (writeError 403 "cross-origin request blocked") else
  orRespond (Authenticate (bearerToken r)) (fun _ => writeError 401 "authentication required") (fun session =>
  if negb (String.eqb permission "") && negb (Has permission session)
  then Return (writeError 403 "permission denied") else next session r).

(** ** Inputs *)

(** [strconv.ParseInt(s, 10, 64)] *)
Definition ParseInt (s : string) : option Z :=
  let '(neg, digits) := match s with
    | String "-" s => (true, s) | String "+" s => (false, s) | _ => (false, s) end in
  match scan_digits digits 0 with
  | (_, O, _) => None
  | (n, _, "") => let n := if neg : bool then - n else n in
      if (min_int64 <=? n) && (n <=? max_int64) then Some n else None
  | _ => None
  end.

Definition parseUserID (r : Request) : option Z :=
  id ← ParseInt (PathID r); if id <=? 0 then None else Some id.

Definition containsString (values : list string) (target : string) : bool :=
  existsb (fun value => String.eqb value target) values.

Definition normalizeRoleCodes (values : list string) : option (list string) :=
  let result := foldl (fun result value =>
    let code := ToLower (TrimSpace value) in
    if String.eqb code "" || containsString result code then result else result ++ [code]) [] values in
  match result with [] => None | _ => Some result end.

Definition nullableAdminUser (id : Z) : option Z := if id <=? 0 then None else Some id.

Section Handlers.
Context `{!Argon2} `{!Mail}.

Definition normalizeUserEmail (value : string) : option string :=
  let normalized := ToLower (TrimSpace value) in
  address ← ParseAddress normalized;
  if EqualFold address normalized then Some normalized else None.

Definition auditResource (userID : Z) (action resourceType resourceID : string) (details : Json) : program unit :=
  _ ← ask (Exec (InsertLog (MkLogRow (nullableAdminUser userID) action resourceType resourceID details)));
  Return tt.

Definition badEmail : Response := writeError 400 "a valid email address is required".
Definition noRoles : Response := writeError 400 "at least one role is required".
Definition rejected (err : error) : Response := writeError 400 (Error err).
Definition serverError (message : string) (_ : error) : Response := writeError 500 message.

(** ** Accounts *)

Definition login (r : Request) : program Response :=
  or_bad (decodeJSON ["email"; "password"] r) (fun l =>
  or_bad (text "email" l) (fun email =>
  or_bad (text "password" l) (fun password =>
  orRespond (Login email password)
    (fun err => if bool_decide (err = ErrInvalidCredentials) then writeError 401 "invalid credentials"
                else writeError 500 "login failed")
    (fun '(token, session) =>
      Return (MkResponse 200 (JObj [("expires_at", JTime (ExpiresAt session)); ("user", marshal session)]) (Some token)))))).

Definition logout (_ : Session) (r : Request) : program Response :=
  _ ← Logout (bearerToken r); Return (MkResponse 204 JNull (Some "")).

Definition me (s : Session) (_ : Request) : program Response := Return (writeJSON 200 (marshal s)).

Definition changeOwnPassword (s : Session) (r : Request) : program Response :=
  or_bad (decodeJSON ["current_password"; "new_password"] r) (fun l =>
  or_bad (text "current_password" l) (fun current =>
  or_bad (text "new_password" l) (fun new =>
  orRespond (ChangePassword (UserID s) current new)
    (fun err => if bool_decide (err = ErrInvalidCredentials) then writeError 400 "current password is incorrect" else rejected err)
    (fun _ => _ ← auditResource (UserID s) "user.password.change" "user" (pretty (UserID s)) (JObj []);
              Return noContent)))).

(** The ids of the roles, in order, and what becomes of an unknown one. *)
Fixpoint resolveRoleIDs (codes : list string) : program (reply (list Z)) :=
  match codes with
  | [] => Return (inl [])
  | code :: codes =>
      orFail (ask (TxExec (SelectRoleID code))) (fun id : option Z =>
      match id with
      | None => Return (inr (Errorf ("unknown role: " +:+ code)))
      | Some id => orFail (resolveRoleIDs codes) (fun ids => Return (inl (id :: ids)))
      end)
  end.

Fixpoint insertUserRoles (userID : Z) (ids : list Z) : program (reply unit) :=
  match ids with
  | [] => Return (inl tt)
  | id :: ids => orFail (ask (TxExec (InsertUserRole userID id))) (fun _ => insertUserRoles userID ids)
  end.

Definition isSuperAdmin (userID : Z) : program (reply bool) := ask (TxExec (SelectIsSuperAdmin userID)).
Definition enabledSuperAdminCountExcluding (userID : Z) : program (reply Z) :=
  ask (TxExec (CountSuperAdminsExcept userID)).
Definition commit : program (reply unit) := checked (ask Commit).

Definition createUser (s : Session) (r : Request) : program Response :=
  or_bad (decodeJSON ["email"; "password"; "roles"] r) (fun l =>
  or_bad (text "email" l) (fun email =>
  or_bad (text "password" l) (fun password =>
  or_bad (ifield (asSlice unmarshal) "roles" l) (fun codes =>
  match normalizeUserEmail email with None => Return badEmail | Some email =>
  match normalizeRoleCodes codes with None => Return noRoles | Some roleCodes =>
  orRespond (HashPassword password) rejected (fun hash =>
  let failed := serverError "create user failed" in
  inTransaction (writeError 500 "create user failed") (
    orRespond (isSuperAdmin (UserID s)) failed (fun actorSuperAdmin =>
    if containsString roleCodes "super_admin" && negb actorSuperAdmin
    then Return (writeError 403 "only a super administrator can assign super_admin") else
    orRespond (resolveRoleIDs roleCodes) rejected (fun roleIDs =>
    orRespond (ask (TxExec (InsertUser email hash))) (fun _ => writeError 400 "email already exists or is invalid") (fun userID : Z =>
    orRespond (insertUserRoles userID roleIDs) (serverError "assign user role failed") (fun _ =>
    orRespond commit failed (fun _ =>
    _ ← auditResource (UserID s) "user.create" "user" (pretty userID)
          (JObj [("email", JStr email); ("roles", marshal roleCodes)]);
    Return (writeJSON 201 (JObj [("id", JNum userID); ("email", JStr email); ("enabled", JBool true); ("roles", marshal roleCodes)]))))))))
  ) end end)))).

Definition unmarshal_bool_ptr (j : Json) : option (option bool) :=
  match j with JNull => Some None | JBool b => Some (Some b) | _ => None end.

(** The end of [updateUser], from the roles on. *)
Definition replaceUser (s : Session) (userID : Z) (currentEmail email : string) (enabled : bool) (roleCodes : list string)
    : program Response :=
  orRespond (resolveRoleIDs roleCodes) rejected (fun roleIDs =>
  orRespond (ask (TxExec (UpdateUser email enabled userID))) (fun _ => writeError 400 "email already exists or is invalid") (fun _ =>
  orRespond (ask (TxExec (DeleteUserRoles userID))) (serverError "replace user roles failed") (fun _ =>
  orRespond (insertUserRoles userID roleIDs) (serverError "replace user roles failed") (fun _ =>
  orRespond commit (serverError "update user failed") (fun _ =>
  _ ← auditResource (UserID s) "user.update" "user" (pretty userID)
        (JObj [("previous_email", JStr currentEmail); ("email", JStr email); ("enabled", JBool enabled); ("roles", marshal roleCodes)]);
  Return noContent))))).

Definition updateUser (s : Session) (r : Request) : program Response :=
  match parseUserID r with None => Return (writeError 400 "invalid user id") | Some userID =>
  or_bad (decodeJSON ["email"; "enabled"; "roles"] r) (fun l =>
  or_bad (text "email" l) (fun email =>
  or_bad (ifield unmarshal_bool_ptr "enabled" l) (fun wanted =>
  or_bad (ifield (asSlice unmarshal) "roles" l) (fun codes =>
  match normalizeUserEmail email with None => Return badEmail | Some email =>
  match normalizeRoleCodes codes with None => Return noRoles | Some roleCodes =>
  let failed := serverError "update user failed" in
  let desiredSuperAdmin := containsString roleCodes "super_admin" in
  inTransaction (writeError 500 "update user failed") (
    orRespond (ask (TxExec (SelectUserForUpdate userID))) failed (fun found : option (string * bool) =>
    match found with None => Return (writeError 404 "user not found") | Some (currentEmail, currentEnabled) =>
    orRespond (isSuperAdmin (UserID s)) failed (fun actorSuperAdmin =>
    orRespond (isSuperAdmin userID) failed (fun targetSuperAdmin =>
    if (targetSuperAdmin || desiredSuperAdmin) && negb actorSuperAdmin
    then Return (writeError 403 "only a super administrator can manage super_admin accounts") else
    let enabled := default currentEnabled wanted in
    if (userID =? UserID s) && negb enabled
    then Return (writeError 400 "you cannot disable your current account") else
    if (userID =? UserID s) && targetSuperAdmin && negb desiredSuperAdmin
    then Return (writeError 400 "you cannot remove your own super_admin role") else
    let change := replaceUser s userID currentEmail email enabled roleCodes in
    if currentEnabled && targetSuperAdmin && (negb enabled || negb desiredSuperAdmin) then
      orRespond (enabledSuperAdminCountExcluding userID) failed (fun remaining =>
      if remaining =? 0 then Return (writeError 400 "at least one enabled super administrator is required") else change)
    else change))
    end)
  ) end end)))) end.

Definition resetUserPassword (s : Session) (r : Request) : program Response :=
  match parseUserID r with None => Return (writeError 400 "invalid user id") | Some userID =>
  or_bad (decodeJSON ["password"] r) (fun l =>
  or_bad (text "password" l) (fun password =>
  orRespond (HashPassword password) rejected (fun hash =>
  let failed := serverError "reset password failed" in
  inTransaction (writeError 500 "reset password failed") (
    orRespond (ask (TxExec (SelectUserForUpdate userID))) failed (fun found : option (string * bool) =>
    match found with None => Return (writeError 404 "user not found") | Some (targetEmail, _) =>
    orRespond (isSuperAdmin (UserID s)) failed (fun actorSuperAdmin =>
    orRespond (isSuperAdmin userID) failed (fun targetSuperAdmin =>
    if targetSuperAdmin && negb actorSuperAdmin
    then Return (writeError 403 "only a super administrator can reset this password") else
    orRespond (ask (TxExec (UpdatePassword hash userID))) failed (fun _ =>
    orRespond commit failed (fun _ =>
    _ ← auditResource (UserID s) "user.password.reset" "user" (pretty userID) (JObj [("email", JStr targetEmail)]);
    Return noContent))))
    end))))) end.

Definition revokeUserSessions (s : Session) (r : Request) : program Response :=
  match parseUserID r with None => Return (writeError 400 "invalid user id") | Some userID =>
  let failed := serverError "revoke sessions failed" in
  inTransaction (writeError 500 "revoke sessions failed") (
    orRespond (ask (TxExec (SelectUserForUpdate userID))) failed (fun found : option (string * bool) =>
    match found with None => Return (writeError 404 "user not found") | Some (targetEmail, _) =>
    orRespond (isSuperAdmin userID) failed (fun targetSuperAdmin =>
    orRespond (isSuperAdmin (UserID s)) failed (fun actorSuperAdmin =>
    if targetSuperAdmin && negb actorSuperAdmin
    then Return (writeError 403 "only a super administrator can revoke these sessions") else
    orRespond (ask (TxExec (BumpUser userID))) failed (fun _ =>
    orRespond commit failed (fun _ =>
    _ ← auditResource (UserID s) "user.sessions.revoke" "user" (pretty userID) (JObj [("email", JStr targetEmail)]);
    Return noContent))))
    end)) end.

(** ** Roles *)

Fixpoint insertPermissions (id : Z) (codes : list string) (k : program Response) : program Response :=
  match codes with
  | [] => k
  | code :: codes =>
      n ← ask (TxExec (InsertRolePermission id code));
      match n : reply Z with
      | inl 1 => insertPermissions id codes k
      | _ => Return (writeError 400 ("unknown permission: " +:+ code))
      end
  end.

Fixpoint insertInstruments (id : Z) (instruments : list string) (k : program Response) : program Response :=
  match instruments with
  | [] => k
  | instrument :: instruments =>
      orRespond (ask (TxExec (InsertRoleInstrument id instrument))) (fun _ => writeError 400 "invalid instrument scope")
        (fun _ => insertInstruments id instruments k)
  end.

Definition updateRole (_ : Session) (r : Request) : program Response :=
  match ParseInt (PathID r) with None => Return (writeError 400 "invalid role id") | Some id =>
  or_bad (decodeJSON ["name"; "all_instruments"; "permissions"; "instruments"] r) (fun l =>
  or_bad (text "name" l) (fun name =>
  or_bad (ifield unmarshal "all_instruments" l) (fun all : bool =>
  or_bad (ifield (asSlice unmarshal) "permissions" l) (fun permissions =>
  or_bad (ifield (asSlice unmarshal) "instruments" l) (fun instruments =>
  let failed := serverError "update role failed" in
  let replace : program Response :=
    _ ← ask (TxExec (DeleteRolePermissions id));
    _ ← ask (TxExec (DeleteRoleInstruments id));
    insertPermissions id permissions (
    insertInstruments id (if all then [] else instruments) (
    orRespond (ask (TxExec (BumpRoleUsers id))) (serverError "invalidate role sessions failed") (fun _ =>
    orRespond commit failed (fun _ =>
    Return noContent)))) in
  inTransaction (writeError 500 "update role failed") (
    orRespond (ask (TxExec (SelectRoleForUpdate id))) (fun _ => writeError 404 "role not found") (fun found : option string =>
    match found with
    | Some code =>
        if String.eqb code "super_admin" then Return (writeError 400 "super_admin cannot be modified") else
        orRespond (ask (TxExec (UpdateRole name all id))) failed (fun _ => replace)
    | None => Return (writeError 404 "role not found")
    end)))))))
  end.

(** ** Lists *)

Definition listPermissions (_ : Session) (_ : Request) : program Response :=
  orRespond (ask (Exec SelectAllPermissions)) (serverError "list permissions failed") (fun l : list (string * string) =>
  Return (writeJSON 200 (JArr (map (fun p => JObj [("code", JStr (fst p)); ("name", JStr (snd p))]) l)))).

Definition userRoleOptions (_ : Session) (_ : Request) : program Response :=
  orRespond (ask (Exec SelectRoles)) (serverError "list user role options failed") (fun l : list Role =>
  Return (writeJSON 200 (JArr (map (fun r => JObj [("code", JStr (r_Code r)); ("name", JStr (r_Name r))]) l)))).

Definition userView (u : User) (codes : list string) : Json :=
  JObj ([("id", JNum (u_ID u)); ("email", JStr (u_Email u)); ("enabled", JBool (u_Enabled u)); ("roles", marshal codes);
         ("created_at", JTime (u_CreatedAt u)); ("updated_at", JTime (u_UpdatedAt u))]
        ++ match u_LastLoginAt u with Some t => [("last_login_at", JTime t)] | None => [] end
        ++ [("password_changed_at", JTime (u_PasswordChangedAt u))]).

Fixpoint userViews (l : list User) : program (reply (list Json)) :=
  match l with
  | [] => Return (inl [])
  | u :: l => orFail (ask (Exec (SelectUserRoleCodes (u_ID u)))) (fun codes : list string =>
      orFail (userViews l) (fun rest => Return (inl (userView u codes :: rest))))
  end.

Definition listUsers (_ : Session) (_ : Request) : program Response :=
  let failed := serverError "list users failed" in
  orRespond (ask (Exec SelectUsers)) failed (fun l : list User =>
  orRespond (userViews l) failed (fun views => Return (writeJSON 200 (JArr views)))).

Definition roleView (r : Role) (permissions instruments : list string) : Json :=
  JObj [("id", JNum (r_ID r)); ("code", JStr (r_Code r)); ("name", JStr (r_Name r)); ("all_instruments", JBool (r_All r));
        ("permissions", marshal permissions); ("instruments", marshal instruments)].

(** Lists that cannot be read are left out. *)
Fixpoint roleViews (l : list Role) : program (list Json) :=
  match l with
  | [] => Return []
  | r :: l =>
      permissions ← ask (Exec (SelectRolePermissions (r_ID r)));
      instruments ← ask (Exec (SelectRoleInstruments (r_ID r)));
      rest ← roleViews l;
      let known (x : reply (list string)) := match x with inl v => v | inr _ => [] end in
      Return (roleView r (known permissions) (known instruments) :: rest)
  end.

Definition listRoles (_ : Session) (_ : Request) : program Response :=
  orRespond (ask (Exec SelectRoles)) (serverError "list roles failed") (fun l : list Role =>
  views ← roleViews l; Return (writeJSON 200 (JArr views))).

(** ** Routes *)

Inductive Endpoint :=
  | PostLogin | PostLogout | GetMe | PutMyPassword | GetUsers | PostUsers | PutUser | PutUserPassword
  | PostRevokeSessions | GetUserRoleOptions | GetRoles | PutRole | GetPermissions.

(** [routes]: the accounts' part. *)
Definition permission_of (e : Endpoint) : string :=
  match e with
  | PostLogin | PostLogout | GetMe | PutMyPassword => ""
  | GetUsers | PostUsers | PutUser | PutUserPassword | PostRevokeSessions | GetUserRoleOptions => "users:manage"
  | GetRoles | PutRole | GetPermissions => "roles:manage"
  end.

Definition handler (e : Endpoint) : Session -> Request -> program Response :=
  match e with
  | PostLogin => fun _ => login
  | PostLogout => logout
  | GetMe => me
  | PutMyPassword => changeOwnPassword
  | GetUsers => listUsers
  | PostUsers => createUser
  | PutUser => updateUser
  | PutUserPassword => resetUserPassword
  | PostRevokeSessions => revokeUserSessions
  | GetUserRoleOptions => userRoleOptions
  | GetRoles => listRoles
  | PutRole => updateRole
  | GetPermissions => listPermissions
  end.

Definition route (e : Endpoint) : Request -> program Response :=
  match e with PostLogin => login | _ => require (permission_of e) (handler e) end.
End Handlers.
End Users.
