(* ===== verification/AdminServer.v ===== *)
(** The handlers of configuration, runtime and credentials (src/internal/adminapi/server.go,
    monitoring.go).

    A handler is a program of calls of the services behind the server: the configuration store
    (Configstore.v), the runtime store (RuntimeStore.v), the credentials (Credentials.v), the
    authentication and the audit rows (Accounts.v), a node of the chain (Rpc.v).  The calls
    may answer anything ([service], [answer_of]); [follows] says what calls were made and how
    they were answered. *)
From S2P Require Import Prelude Decimal Domain Config FaultData Json World Rpc Wire Runtimeops Configdiff ConfigJson StatusJson RuntimeStore Scheduler Configstore Shared Credentials Accounts Users Scope Monitoring.
Import Accounts AdminScope.
Import Users(Request, decodeJSON).

Open Scope string_scope.
Open Scope list_scope.
Open Scope Z_scope.

Module AdminServer.

(** ** Services *)

Inductive service :=
  | GetDraft
  | LoadActive
  | SaveActive (cfg : Config) (userID : Z)
  | ListCredentials
  | CreateCredential (name venueType apiKey apiSecret : string) (userID : Z)
  | UpdateCredential (id : Z) (name apiKey apiSecret : string) (enabled : option bool) (userID : Z)
  | ValidateReference (id : Z) (expectedVenue : string)
  | GetEngineStatus
  | GetSnapshot (instrumentID : string)
  | GetPaused
  | SetPaused (instrumentID reason : string) (userID : Z)
  | Resume (instrumentID : string)
  | RequestReconcile (instrumentID : string) (userID : Z)
  | AuthenticateToken (token : string)
  | AuditResource (userID : Z) (action resourceType resourceID : string) (detail : Json)
  | Now
  | RPCChainID (urls : list string) (timeout : Duration)
  | RPCInspectPair (urls : list string) (timeout : Duration) (pairAddress : string)
  | PingPostgres
  | PingRedis.

Definition answer_of (o : service) : Type :=
  match o with
  | GetDraft => reply Config
  | LoadActive | SaveActive _ _ => reply ConfigSnapshot
  | ListCredentials => reply (list Credentials.Metadata)
  | CreateCredential _ _ _ _ _ | UpdateCredential _ _ _ _ _ _ => reply Credentials.Metadata
  | ValidateReference _ _ => option error
  | GetEngineStatus => EngineStatus
  | GetSnapshot _ => reply InstrumentSnapshot
  | GetPaused => reply (gmap string PauseState)
  | SetPaused _ _ _ => reply PauseState
  | Resume _ => option error
  | RequestReconcile _ _ => reply ReconcileRequest
  | AuthenticateToken _ => reply Session
  | AuditResource _ _ _ _ _ => unit
  | Now => Time
  | RPCChainID _ _ => reply Z
  | RPCInspectPair _ _ _ => reply PairInfo
  | PingPostgres | PingRedis => option error
  end.

Abbreviation calls := (proc answer_of).

(** ** Answers *)

Inductive body := JSONBody (j : Json) | TextBody (s : string) | NoBody.
Record Response := MkResponse { Code : Z; Body : body }.

Definition writeJSON (status : Z) (value : Json) : Response := MkResponse status (JSONBody value).
Definition writeError (status : Z) (message : string) : Response := writeJSON status (JObj [("error", JStr message)]).
Definition badJSON : Response := writeError 400 "invalid JSON".

Definition or_bad {A} (x : option A) (k : A -> calls Response) : calls Response :=
  match x with Some a => k a | None => Return badJSON end.
(** A step whose error ends the handler with [failed]. *)
Definition orRespond {A} (p : calls (reply A)) (failed : error -> Response) (k : A -> calls Response) : calls Response :=
  r ← p; match r with inl a => k a | inr err => Return (failed err) end.
Definition rejected (err : error) : Response := writeError 400 (Error err).
Definition failing (code : Z) (message : string) (_ : error) : Response := writeError code message.

Definition getDraft_ : calls (reply Config) := ask GetDraft.
Definition loadActive_ : calls (reply ConfigSnapshot) := ask LoadActive.
Definition audit_ (userID : Z) (action resourceType resourceID : string) (detail : Json) : calls unit :=
  ask (AuditResource userID action resourceType resourceID detail).
Definition now_ : calls Time := ask Now.
Definition engineStatus_ : calls EngineStatus := ask GetEngineStatus.
Definition snapshot_ (id : string) : calls (reply InstrumentSnapshot) := ask (GetSnapshot id).
(** An error leaves the map empty. *)
Definition paused_ : calls (gmap string PauseState) :=
  r ← (ask GetPaused : calls (reply (gmap string PauseState))); Return (match r with inl m => m | inr _ => ∅ end).

(** ** JSON *)

#[local] Existing Instance Configstore.marshal_snapshot.

#[export] Instance marshal_target : Marshal MarketTarget := fun t =>
  JObj [("instrument_id", marshal (tg_InstrumentID t)); ("venue", marshal (tg_Venue t));
        ("symbol", marshal (tg_Symbol t)); ("reason", marshal (Configdiff.Reason t))].
#[export] Instance marshal_change : Marshal InstrumentChange := fun c =>
  JObj [("instrument_id", marshal (ch_InstrumentID c)); ("action", marshal (Action c)); ("reasons", marshal (Reasons c))].
#[export] Instance marshal_plan : Marshal Plan := fun p =>
  JObj [("first_publish", marshal (FirstPublish p)); ("cancel_all", marshal (CancelAll p));
        ("structural", marshal (Structural p)); ("hot_changes", marshal (HotChanges p));
        ("instrument_changes", marshal (InstrumentChanges p)); ("cancel_targets", marshal (CancelTargets p));
        ("affected_instruments", marshal (AffectedInstruments p)); ("unchanged_instruments", marshal (UnchangedInstruments p))].
Definition configPlanResponse (from to : Z) (plan : Plan) : Json :=
  JObj [("from_version", JNum from); ("to_version", JNum to); ("plan", marshal plan)].

#[export] Instance marshal_alert : Marshal Monitoring.MonitoringAlert := fun a =>
  JObj ([("severity", marshal (Monitoring.Severity a)); ("code", marshal (Monitoring.alert_Code a));
         ("message", marshal (Monitoring.Message a))]
    ++ omit_if (String.eqb (Monitoring.alert_InstrumentID a) "") "instrument_id" (marshal (Monitoring.alert_InstrumentID a))
    ++ omit_if (String.eqb (Monitoring.alert_Venue a) "") "venue" (marshal (Monitoring.alert_Venue a))
    ++ [("since", JTime (Monitoring.alert_Since a))]).
#[export] Instance marshal_summary : Marshal Monitoring.MonitoringSummary := fun s =>
  JObj [("status", marshal (Monitoring.summary_Status s)); ("generated_at", JTime (Monitoring.GeneratedAt s));
        ("critical", marshal (Monitoring.Critical s)); ("warnings", marshal (Monitoring.Warnings s));
        ("alerts", marshal (Monitoring.Alerts s))].
Definition runtimeResponse (engine : EngineStatus) (l : list InstrumentSnapshot) (summary : Monitoring.MonitoringSummary) : Json :=
  JObj [("engine", marshal engine); ("instruments", marshal l); ("monitoring", marshal summary)].

#[export] Instance marshal_metadata : Marshal Credentials.Metadata := fun m =>
  JObj [("id", JNum (Credentials.m_ID m)); ("name", JStr (Credentials.m_Name m));
        ("venue_type", JStr (Credentials.m_VenueType m)); ("api_key_last4", JStr (Credentials.m_APIKeyLast4 m));
        ("fingerprint", JStr (Credentials.m_Fingerprint m)); ("enabled", JBool (Credentials.m_Enabled m));
        ("updated_at", JTime (Credentials.m_UpdatedAt m))].
Definition credentialOption (m : Credentials.Metadata) : Json :=
  JObj [("id", JNum (Credentials.m_ID m)); ("name", JStr (Credentials.m_Name m));
        ("venue_type", JStr (Credentials.m_VenueType m)); ("enabled", JBool (Credentials.m_Enabled m))].
#[export] Instance marshal_spec : Marshal AdapterSpec := fun s =>
  JObj ([("type", marshal (spec_Type s)); ("name", marshal (spec_Name s)); ("production_base_url", marshal (ProductionBaseURL s))]
    ++ omit_if (String.eqb (TestnetBaseURL s) "") "testnet_base_url" (marshal (TestnetBaseURL s))
    ++ omit_if (String.eqb (DefaultSelfTradePrevention s) "") "default_self_trade_prevention" (marshal (DefaultSelfTradePrevention s))
    ++ [("requires_self_trade_prevention", marshal (RequiresSelfTradePrevention s));
        ("requires_dedicated_account", marshal (RequiresDedicatedAccount s))]).
Definition inspectPairResponse (info : PairInfo) (base quote : string) : Json :=
  JObj [("pair_address", JStr (info_Pair info)); ("token0", JStr (info_Token0 info)); ("token1", JStr (info_Token1 info));
        ("factory", JStr (info_Factory info)); ("base_token", JStr base); ("quote_token", JStr quote)].

(** [DisallowUnknownFields] below the top: the names of the fields of a value. *)
Inductive shape := AnyValue | Fields (l : list (string * shape)) | Each (s : shape).
Fixpoint known (s : shape) (j : Json) {struct j} : bool :=
  match s, j with
  | Fields l, JObj kv =>
      (fix go kv := match kv with
                    | [] => true
                    | (k, v) :: kv =>
                        match find (fun f => EqualFold k (fst f)) l with Some (_, s) => known s v | None => false end && go kv
                    end) kv
  | Each s, JObj kv => (fix go kv := match kv with [] => true | (_, v) :: kv => known s v && go kv end) kv
  | Each s, JArr l => (fix go l := match l with [] => true | v :: l => known s v && go l end) l
  | _, _ => true
  end.
Definition leaves (names : list string) : list (string * shape) := map (fun name => (name, AnyValue)) names.

Definition config_shape : shape :=
  let asset := Fields (leaves ["symbol"; "address"; "decimals"]) in
  let leg := Fields (leaves ["pair_address"; "expected_factory"; "base_token"; "quote_token"; "min_quote_reserve"; "max_idle_seconds"]) in
  let reference := Fields (leaves ["type"; "twap_window_seconds"; "max_spot_twap_deviation_bps"; "stale_after_seconds";
    "allow_spot_during_warmup"] ++ [("legs", Each leg)]) in
  let strategy := Fields (leaves ["half_spread_bps"; "level_spacing_bps"; "levels"; "order_size"; "min_order_notional"; "max_order_notional";
    "reprice_threshold_bps"; "balance_reserve_bps"; "max_venue_reference_deviation_bps"; "max_venue_spread_bps"; "target_base";
    "max_base_deviation"; "inventory_skew_bps"; "quote_refresh_seconds"; "quote_refresh_ratio_bps"; "min_order_lifetime_seconds";
    "max_order_lifetime_seconds"; "fill_replenish_min_delay_seconds"; "fill_replenish_max_delay_seconds"; "price_jitter_ticks";
    "best_levels"; "best_level_refresh_seconds"]) in
  let simulation := Fields (leaves ["enabled"; "source_venue"; "min_quantity"; "max_quantity"; "min_interval_ms"; "max_interval_ms";
    "buy_probability_bps"; "recent_limit"]) in
  let instrument := Fields [("id", AnyValue); ("base", asset); ("quote", asset); ("reference", reference);
    ("strategy", strategy); ("trade_simulation", simulation)] in
  let market := Fields (leaves ["symbol"; "base_asset"; "quote_asset"; "price_tick"; "quantity_step"; "min_notional"; "min_quantity";
    "max_quantity"; "max_notional"; "min_price"; "max_price"; "max_open_orders"; "max_base_commitment"; "max_quote_commitment";
    "credential_id"]) in
  let venue := Fields (leaves ["type"; "environment"; "enabled"; "trading_enabled"; "dedicated_account"; "base_url"; "self_trade_prevention"]
    ++ [("markets", Each market)]) in
  Fields (leaves ["mode"; "poll_interval_ms"; "audit_path"; "audit_max_bytes"; "audit_backups"; "heartbeat_path";
    "watchdog_timeout_seconds"; "market_failure_threshold"; "market_recovery_threshold"; "market_error_grace_seconds";
    "trading_progress_timeout_seconds"; "max_concurrent_instruments"; "rules_refresh_seconds"]
    ++ [("rpc", Fields (leaves ["urls"; "chain_id"; "request_timeout_ms"])); ("instruments", Each instrument); ("venues", Each venue)]).
(** ** Handlers of the configuration *)

Definition getDraft (x : Session) (_ : Request) : calls Response :=
  orRespond getDraft_
    (fun err => if errors_Is err Configstore.ErrNoDraft then writeError 404 "no draft configuration"
                else writeError 500 "load draft failed")
    (fun cfg => Return (writeJSON 200 (marshal (scopeConfig x cfg)))).

(** The configuration in a body. *)
Definition decodeConfig (r : Request) : option Config :=
  j ← Users.Body r; if known config_shape j then unmarshal_config j else None.

(** The order of the maps decides which binding is reported. *)
Fixpoint validateMarkets (venueName venueType : string) (l : list (string * VenueMarketConfig)) : calls (option error) :=
  match l with
  | [] => Return None
  | (instrumentID, market) :: l =>
      err ← (ask (ValidateReference (CredentialID market) venueType) : calls (option error));
      match err with
      | Some err => Return (Some (Wrapf ("venue " +:+ venueName +:+ " market " +:+ instrumentID +:+ ": ") err))
      | None => validateMarkets venueName venueType l
      end
  end.
Fixpoint validateVenues `{MapRange} (l : list (string * VenueConfig)) : calls (option error) :=
  match l with
  | [] => Return None
  | (venueName, venueCfg) :: l =>
      if negb (venue_Enabled venueCfg) || negb (TradingEnabled venueCfg) then validateVenues l else
      err ← validateMarkets venueName (venue_Type venueCfg) (range (Markets venueCfg));
      match err with Some err => Return (Some err) | None => validateVenues l end
  end.
Definition validateCredentialBindings `{MapRange} (cfg : Config) : calls (option error) :=
  if negb (String.eqb (cfg_Mode cfg) "live") then Return None else validateVenues (range (Venues cfg)).

(** The end of [putDraft]. *)
Definition saveDraft `{MapRange} (x : Session) (cfg : Config) : calls Response :=
  err ← validateCredentialBindings cfg;
  match err with
  | Some err => Return (rejected err)
  | None =>
      orRespond (ask (SaveActive cfg (UserID x))) rejected (fun _ : ConfigSnapshot =>
      Return (writeJSON 200 (JObj [("status", JStr "saved")])))
  end.

Definition putDraft `{MapRange} (x : Session) (r : Request) : calls Response :=
  or_bad (decodeConfig r) (fun cfg =>
  match enforceInstrumentScope x cfg with
  | Some err => Return (writeError 403 (Error err))
  | None =>
      if AllInstruments x then saveDraft x cfg else
      orRespond getDraft_ (failing 400 "a global draft must exist before scoped editing") (fun existing =>
      saveDraft x (mergeScopedConfig existing cfg x))
  end).

Definition scopedSnapshot (x : Session) (snapshot : ConfigSnapshot) : ConfigSnapshot :=
  MkConfigSnapshot (cs_Version snapshot) (scopeConfig x (cs_Config snapshot)) (PublishedAt snapshot).

Definition publish (x : Session) (_ : Request) : calls Response :=
  orRespond loadActive_
    (fun err => if errors_Is err ErrNoActive then writeError 400 "no configuration has been saved yet"
                else writeError 500 "load active configuration failed")
    (fun snapshot => Return (writeJSON 200 (marshal (scopedSnapshot x snapshot)))).

Definition active (x : Session) (_ : Request) : calls Response :=
  orRespond loadActive_
    (fun err => if errors_Is err ErrNoActive then writeError 404 "no published configuration"
                else writeError 500 "load active configuration failed")
    (fun snapshot => Return (writeJSON 200 (marshal (scopedSnapshot x snapshot)))).

Definition configPlan `{MapRange} `{SliceSort} (x : Session) (_ : Request) : calls Response :=
  orRespond getDraft_ (failing 400 "draft configuration not available") (fun draft =>
  match enforceInstrumentScope x draft with Some err => Return (writeError 403 (Error err)) | None =>
  match Configstore.invalid draft with Some err => Return (rejected err) | None =>
  r ← loadActive_;
  match r with
  | inl snapshot =>
      let version := cs_Version snapshot in
      Return (writeJSON 200 (configPlanResponse version (wrap64 (version + 1)) (Configdiff.Build (Some (cs_Config snapshot)) draft)))
  | inr err =>
      if errors_Is err ErrNoActive then Return (writeJSON 200 (configPlanResponse 0 1 (Configdiff.Build None draft)))
      else Return (writeError 500 "load active configuration failed")
  end end end).

(** ** A pair of the oracle *)

Definition isEVMAddress (value : string) : bool :=
  let value := TrimSpace value in
  if negb (String.length value =? 42)%nat || negb (HasPrefix (ToLower value) "0x") then false
  else forall_string (fun c => is_digit c || char_in c "a" "f" || char_in c "A" "F") (drop_string 2 value).

Definition orientPairTokens (info : PairInfo) (inputToken : string) : reply (string * string) :=
  if EqualFold inputToken (info_Token0 info) then inl (info_Token0 info, info_Token1 info)
  else if EqualFold inputToken (info_Token1 info) then inl (info_Token1 info, info_Token0 info)
  else inr (Errorf ("Pair does not contain path input token " +:+ inputToken)).

Definition pairTimeout (cfg : Config) : Duration :=
  let timeout := RequestTimeout cfg in if (timeout <=? 0) || (15 * Second <? timeout) then 5 * Second else timeout.

(** The questions to the node, and what is made of the answers. *)
Definition inspectPair (cfg : Config) (pair input expected : string) : calls Response :=
  let urls := URLs (Config.RPC cfg) in let timeout := pairTimeout cfg in
  orRespond (ask (RPCChainID urls timeout)) (fun err => writeError 502 ("query BNB Chain RPC failed: " +:+ Error err)) (fun chainID : Z =>
  if negb (chainID =? Config.ChainID (Config.RPC cfg))
  then Return (writeError 400 ("RPC chain id " +:+ pretty chainID +:+ " does not match configured " +:+ pretty (Config.ChainID (Config.RPC cfg)))) else
  orRespond (ask (RPCInspectPair urls timeout pair)) (fun err => writeError 502 ("inspect Pair failed: " +:+ Error err)) (fun info : PairInfo =>
  if negb (String.eqb expected "") && negb (EqualFold expected (info_Factory info))
  then Return (writeError 400 ("Pair factory " +:+ info_Factory info +:+ " does not match expected " +:+ expected)) else
  match orientPairTokens info input with
  | inr err => Return (rejected err)
  | inl (base, quote) => Return (writeJSON 200 (inspectPairResponse info base quote))
  end)).

Definition inspectPancakeV2Pair (x : Session) (r : Request) : calls Response :=
  if negb (Has "instrument:edit" x) then Return (writeError 403 "instrument:edit permission is required") else
  or_bad (decodeJSON ["pair_address"; "input_token"; "expected_factory"] r) (fun l =>
  or_bad (text "pair_address" l) (fun pair =>
  or_bad (text "input_token" l) (fun input =>
  or_bad (text "expected_factory" l) (fun expected =>
  if negb (isEVMAddress pair) || negb (isEVMAddress input)
  then Return (writeError 400 "valid pair_address and input_token are required") else
  if negb (String.eqb expected "") && negb (isEVMAddress expected) then Return (writeError 400 "expected_factory is invalid") else
  cfg ← getDraft_;
  match cfg with
  | inl cfg => match URLs (Config.RPC cfg) with
               | [] => Return (writeError 400 "configure and save a BNB Chain RPC first")
               | _ => inspectPair cfg pair input expected
               end
  | inr _ => Return (writeError 400 "configure and save a BNB Chain RPC first")
  end)))).
(** ** Handlers of the runtime *)

(** [mergeRuntimeControlState] *)
Definition mergeRuntimeControlState (pause : option PauseState) (s : InstrumentSnapshot) : InstrumentSnapshot :=
  match pause with
  | Some p => set_is_Status (if is_Paused s then "paused" else "pausing") (set_is_Pause (Some p) s)
  | None => if is_Paused s then set_is_Status "resuming" (set_is_Pause None s) else s
  end.

Definition redactVenue (x : Session) (v : VenueSnapshot) : VenueSnapshot :=
  let v := if Has "orders:view" x then v else set_OpenOrders [] v in
  if Has "fills:view" x then v else set_vs_Fills [] v.
Definition without_fills (t : TradesimData.Snapshot) : TradesimData.Snapshot :=
  TradesimData.MkSnapshot (TradesimData.snap_Enabled t) (TradesimData.snap_SourceVenue t) (TradesimData.snap_Status t)
    (TradesimData.snap_LastGeneratedAt t) (TradesimData.snap_NextAt t) [] (TradesimData.snap_Error t).
Definition redactRuntimeSnapshot (x : Session) (s : InstrumentSnapshot) : InstrumentSnapshot :=
  let s := if Has "fills:view" x then s else set_is_TradeSimulation (without_fills <$> is_TradeSimulation s) s in
  set_is_Venues (map (redactVenue x) (is_Venues s)) s.

(** What is shown of an instrument without a snapshot. *)
Definition waitingSnapshot (mode : Domain.Mode) (i : InstrumentConfig) (target deviation : Decimal) : InstrumentSnapshot :=
  MkInstrumentSnapshot (ID i) (asset_Symbol (inst_Base i)) (asset_Symbol (inst_Quote i)) mode "waiting" false None None
    Zero false target deviation [] None "" zero_time 0 0 0.
Definition waitingFor (mode : Domain.Mode) (i : InstrumentConfig) : InstrumentSnapshot :=
  waitingSnapshot mode i (TargetBase (Strategy i)) (MaxBaseDeviation (Strategy i)).

Definition runtimeConfig : calls (reply Config) :=
  r ← loadActive_; match r with inl snapshot => Return (inl (cs_Config snapshot)) | inr _ => getDraft_ end.

(** The snapshots of the instruments in scope, in the order of the configuration; [waiting]
    stands for one that cannot be read, [f] for what is made of each. *)
Fixpoint snapshots (inScope : string -> bool) (waiting : InstrumentConfig -> InstrumentSnapshot)
    (f : string -> InstrumentSnapshot -> InstrumentSnapshot) (l : list InstrumentConfig) : calls (list InstrumentSnapshot) :=
  match l with
  | [] => Return []
  | i :: l =>
      if negb (inScope (ID i)) then snapshots inScope waiting f l else
      r ← snapshot_ (ID i);
      rest ← snapshots inScope waiting f l;
      Return (f (ID i) (match r with inl s => s | inr _ => waiting i end) :: rest)
  end.

Definition shown (x : Session) (paused : gmap string PauseState) (id : string) (s : InstrumentSnapshot) : InstrumentSnapshot :=
  redactRuntimeSnapshot x (mergeRuntimeControlState (paused !! id) s).

(** [config.Config{}] *)
Definition zero_config : Config := MkConfig "" 0 "" 0 0 "" 0 0 0 0 0 0 0 (MkRPCConfig [] 0 0) [] ∅.

Definition runtimeList (x : Session) (_ : Request) : calls Response :=
  cfg ← runtimeConfig;
  match cfg with
  | inr _ =>
      status ← engineStatus_;
      let engine := Monitoring.filterEngineRuleChanges status (Some x) in
      now ← now_;
      Return (writeJSON 200 (runtimeResponse engine [] (Monitoring.BuildMonitoringSummary zero_config engine [] now)))
  | inl cfg =>
      paused ← paused_;
      status ← engineStatus_;
      let engine := Monitoring.filterEngineRuleChanges status (Some x) in
      l ← snapshots (fun id => CanAccessInstrument id x) (waitingFor (cfg_Mode cfg)) (shown x paused) (Config.Instruments cfg);
      now ← now_;
      Return (writeJSON 200 (runtimeResponse engine l (Monitoring.BuildMonitoringSummary cfg engine l now)))
  end.

Definition out_of_scope : Response := writeError 403 "instrument is outside your data scope".
Definition runtimeInstrument (x : Session) (r : Request) : calls Response :=
  let id := Users.PathID r in
  if negb (CanAccessInstrument id x) then Return out_of_scope else
  orRespond runtimeConfig (failing 404 "runtime configuration not available") (fun cfg =>
  match find (fun i => String.eqb (ID i) id) (Config.Instruments cfg) with
  | None => Return (writeError 404 "instrument is not in the runtime configuration")
  | Some i =>
      r ← snapshot_ id;
      paused ← paused_;
      Return (writeJSON 200 (marshal (shown x paused id (match r with inl s => s | inr _ => waitingFor (cfg_Mode cfg) i end))))
  end).

(** ** Handlers of control *)

Definition authorizeRuntimeInstrument (x : Session) (id : string) : calls (option error) :=
  if negb (CanAccessInstrument id x) then Return (Some (Errorf "instrument is outside your data scope")) else
  r ← loadActive_;
  Return (match r with
          | inr _ => Some (Errorf "no published runtime configuration")
          | inl snapshot =>
              if existsb (fun i => String.eqb (ID i) id) (Config.Instruments (cs_Config snapshot)) then None
              else Some (Errorf "instrument is not in the published configuration")
          end).
Definition authorized (x : Session) (id : string) (k : calls Response) : calls Response :=
  err ← authorizeRuntimeInstrument x id;
  match err with Some err => Return (writeError 403 (Error err)) | None => k end.

Definition controlPause (reason action : string) (x : Session) (r : Request) : calls Response :=
  let id := Users.PathID r in
  authorized x id (
  orRespond (ask (SetPaused id reason (UserID x))) (failing 500 "set pause control failed") (fun state : PauseState =>
  _ ← audit_ (UserID x) action "instrument" id (JObj [("reason", JStr reason)]);
  Return (writeJSON 202 (marshal state)))).
Definition pauseInstrument : Session -> Request -> calls Response := controlPause ReasonManualPause "runtime.pause".
Definition emergencyCancel : Session -> Request -> calls Response := controlPause ReasonEmergencyCancel "runtime.emergency_cancel".

Definition resumeInstrument (x : Session) (r : Request) : calls Response :=
  let id := Users.PathID r in
  authorized x id (
  err ← (ask (Resume id) : calls (option error));
  match err with
  | Some _ => Return (writeError 500 "resume control failed")
  | None =>
      _ ← audit_ (UserID x) "runtime.resume" "instrument" id (JObj []);
      Return (writeJSON 202 (JObj [("instrument_id", JStr id); ("paused", JBool false)]))
  end).

Definition reconcileInstrument (x : Session) (r : Request) : calls Response :=
  let id := Users.PathID r in
  authorized x id (
  orRespond (ask (RequestReconcile id (UserID x))) (failing 500 "request reconcile failed") (fun request : ReconcileRequest =>
  _ ← audit_ (UserID x) "runtime.reconcile" "instrument" id (JObj []);
  Return (writeJSON 202 (marshal request)))).

(** ** Handlers of credentials *)

Definition credentialOptions (_ : Session) (_ : Request) : calls Response :=
  orRespond (ask ListCredentials) (failing 500 "list credential options failed") (fun items : list Credentials.Metadata =>
  Return (writeJSON 200 (JArr (map credentialOption items)))).
Definition listCredentials (_ : Session) (_ : Request) : calls Response :=
  orRespond (ask ListCredentials) (failing 500 "list credentials failed") (fun items : list Credentials.Metadata =>
  Return (writeJSON 200 (marshal items))).
Definition venueTypes (_ : Session) (_ : Request) : calls Response := Return (writeJSON 200 (marshal adapterSpecs)).

Definition audit (userID : Z) (action : string) (detail : Json) : calls unit := audit_ userID action "venue_credential" "" detail.

Definition createCredential (x : Session) (r : Request) : calls Response :=
  or_bad (decodeJSON ["name"; "venue_type"; "api_key"; "api_secret"] r) (fun l =>
  or_bad (text "name" l) (fun name => or_bad (text "venue_type" l) (fun venueType =>
  or_bad (text "api_key" l) (fun apiKey => or_bad (text "api_secret" l) (fun apiSecret =>
  orRespond (ask (CreateCredential name venueType apiKey apiSecret (UserID x))) rejected (fun item : Credentials.Metadata =>
  _ ← audit (UserID x) "credential.create" (JObj [("credential_id", JNum (Credentials.m_ID item));
        ("name", JStr (Credentials.m_Name item)); ("venue_type", JStr (Credentials.m_VenueType item))]);
  Return (writeJSON 201 (marshal item)))))))).

Definition updateCredential (x : Session) (r : Request) : calls Response :=
  match Users.ParseInt (Users.PathID r) with
  | None => Return (writeError 400 "invalid credential id")
  | Some id =>
      if id <=? 0 then Return (writeError 400 "invalid credential id") else
      or_bad (decodeJSON ["name"; "api_key"; "api_secret"; "enabled"] r) (fun l =>
      or_bad (text "name" l) (fun name => or_bad (text "api_key" l) (fun apiKey =>
      or_bad (text "api_secret" l) (fun apiSecret => or_bad (ifield Users.unmarshal_bool_ptr "enabled" l) (fun enabled =>
      orRespond (ask (UpdateCredential id name apiKey apiSecret enabled (UserID x))) rejected (fun item : Credentials.Metadata =>
      _ ← audit (UserID x) "credential.update" (JObj [("credential_id", JNum (Credentials.m_ID item));
            ("name", JStr (Credentials.m_Name item)); ("enabled", JBool (Credentials.m_Enabled item))]);
      Return (writeJSON 200 (marshal item))))))))
  end.
(** ** Monitoring *)

(** Without a session every instrument is in scope. *)
Definition inScope (x : option Session) (id : string) : bool :=
  match x with Some x => CanAccessInstrument id x | None => true end.

Definition monitoringData (x : option Session) : calls (Config * EngineStatus * list InstrumentSnapshot) :=
  status ← engineStatus_;
  let engine := Monitoring.filterEngineRuleChanges status x in
  cfg ← runtimeConfig;
  match cfg with
  | inr _ => Return (zero_config, engine, [])
  | inl cfg =>
      l ← snapshots (inScope x) (fun i => waitingSnapshot (cfg_Mode cfg) i Zero Zero) (fun _ s => s) (Config.Instruments cfg);
      Return (cfg, engine, l)
  end.

Definition monitoring (x : Session) (_ : Request) : calls Response :=
  '(cfg, engine, l) ← monitoringData (Some x);
  now ← now_;
  Return (writeJSON 200 (marshal (Monitoring.BuildMonitoringSummary cfg engine l now))).

(** [header]: the value of X-Metrics-Token. *)
Definition validMetricsToken (header : string) (r : Request) (expected : string) : bool :=
  if String.eqb expected "" then false else
  let provided := if HasPrefix (Users.Authorization r) "Bearer " then TrimSpace (TrimPrefix (Users.Authorization r) "Bearer ")
                  else TrimSpace header in
  String.eqb provided expected.

Definition prometheusMetrics (metricsToken header : string) (r : Request) : calls Response :=
  if negb (validMetricsToken header r metricsToken) then Return (MkResponse 404 (TextBody ("404 page not found" +:+ newline))) else
  '(cfg, engine, l) ← monitoringData None;
  now ← now_;
  let summary := Monitoring.BuildMonitoringSummary cfg engine l now in
  now ← now_;
  Return (MkResponse 200 (TextBody (Prometheus.RenderPrometheus engine l summary now))).

(** ** Health *)

Definition ok : Response := writeJSON 200 (JObj [("status", JStr "ok")]).
Definition health (_ : Request) : calls Response :=
  db ← (ask PingPostgres : calls (option error));
  match db with
  | Some _ => Return (writeError 503 "postgres unavailable")
  | None =>
      redis ← (ask PingRedis : calls (option error));
      Return (match redis with Some _ => writeError 503 "redis unavailable" | None => ok end)
  end.
Definition live (_ : Request) : calls Response := Return ok.

(** ** Routes *)

Inductive Endpoint :=
  | GetConfigDraft | PutConfigDraft | PostConfigPublish | PostConfigPlan | GetConfigActive
  | GetRuntime | GetMonitoring | GetRuntimeInstrument | PostPause | PostResume | PostEmergencyCancel | PostReconcile
  | PostInspectPair | GetCredentialOptions | GetVenueTypes | GetCredentials | PostCredential | PutCredential.

Definition permission_of (e : Endpoint) : string :=
  match e with
  | GetConfigDraft | GetConfigActive => "config:view"
  | PutConfigDraft | PostInspectPair => "config:edit"
  | PostConfigPublish | PostConfigPlan => "config:publish"
  | GetRuntime | GetMonitoring | GetRuntimeInstrument => "runtime:view"
  | PostPause => "runtime:stop"
  | PostResume | PostReconcile => "runtime:start"
  | PostEmergencyCancel => "runtime:emergency_cancel"
  | GetCredentialOptions | GetVenueTypes => "venue:view"
  | GetCredentials | PostCredential | PutCredential => "secrets:manage"
  end.

Definition handler `{MapRange} `{SliceSort} (e : Endpoint) : Session -> Request -> calls Response :=
  match e with
  | GetConfigDraft => getDraft
  | PutConfigDraft => putDraft
  | PostConfigPublish => publish
  | PostConfigPlan => configPlan
  | GetConfigActive => active
  | GetRuntime => runtimeList
  | GetMonitoring => monitoring
  | GetRuntimeInstrument => runtimeInstrument
  | PostPause => pauseInstrument
  | PostResume => resumeInstrument
  | PostEmergencyCancel => emergencyCancel
  | PostReconcile => reconcileInstrument
  | PostInspectPair => inspectPancakeV2Pair
  | GetCredentialOptions => credentialOptions
  | GetVenueTypes => venueTypes
  | GetCredentials => listCredentials
  | PostCredential => createCredential
  | PutCredential => updateCredential
  end.

(** [require], as in Users.v, over these services. *)
Definition crossOrigin (r : Request) : bool :=
  negb (String.eqb (Users.Method r) "GET") && negb (String.eqb (Users.Method r) "HEAD") && negb (String.eqb (Users.Origin r) "")
  && match url_Parse (Users.Origin r) with Some u => negb (EqualFold (Config.Host u) (Users.Host r)) | None => true end.

Definition route `{MapRange} `{SliceSort} (e : Endpoint) (r : Request) : calls Response :=
  if crossOrigin r then Return (writeError 403 "cross-origin request blocked") else
  orRespond (ask (AuthenticateToken (Users.bearerToken r))) (failing 401 "authentication required") (fun session : Session =>
  if negb (String.eqb (permission_of e) "") && negb (Has (permission_of e) session)
  then Return (writeError 403 "permission denied") else handler e session r).
End AdminServer.
