(* ===== verification/AdminSafety.v ===== *)
(** What the handlers of the administration may do and show, however the services answer. *)
From S2P Require Import Prelude Decimal Domain Config FaultData Json World Rpc Wire Runtimeops Configdiff ConfigJson StatusJson RuntimeStore Scheduler Configstore Shared Credentials Accounts Users Scope Monitoring AdminServer.
Import Accounts AdminScope AdminServer.
Import Users(Request, decodeJSON).

Open Scope string_scope.
Open Scope list_scope.
Open Scope Z_scope.

Module AdminSafety.

(** ** Traces of calls *)

Definition event : Type := { o : service & answer_of o }.
Definition answered (o : service) (a : answer_of o) : event := existT o a.

(** [p] made the calls [t], answered as it says, and returned [a]. *)
Fixpoint follows {A} (p : calls A) (t : list event) (a : A) : Prop :=
  match p, t with
  | Return b, [] => b = a
  | Ask o k, e :: t => exists x, e = answered o x /\ follows (k x) t a
  | _, _ => False
  end.

(** The run in which the services answer as [f] says. *)
Fixpoint run {A} (f : forall o, answer_of o) (p : calls A) : list event * A :=
  match p with
  | Return a => ([], a)
  | Ask o k => let '(t, a) := run f (k (f o)) in (answered o (f o) :: t, a)
  end.

Lemma run_follows {A} f (p : calls A) t a : run f p = (t, a) -> follows p t a.
Proof.
  revert t. induction p as [b|o k IH]; simpl; intros t; [by intros [= <- <-]|].
  destruct (run f (k (f o))) as [t' a'] eqn:E. intros [= <- <-]. exists (f o). split; [done|]. by apply IH.
Qed.

(** Every call of [p] is allowed after the calls before it, and [Q] holds at the end. *)
Section Logic.
Context (allowed : list event -> service -> Prop).

Fixpoint awp {A} (p : calls A) (Q : A -> list event -> Prop) (past : list event) : Prop :=
  match p with
  | Return a => Q a past
  | Ask o k => allowed past o /\ forall x, awp (k x) Q (past ++ [answered o x])
  end.

Lemma awp_follows {A} (p : calls A) Q past t a : awp p Q past -> follows p t a ->
  Q a (past ++ t) /\ forall before o x after, t = before ++ answered o x :: after -> allowed (past ++ before) o.
Proof.
  revert past t. induction p as [b|o k IH]; intros past [|e t]; simpl; try done.
  - intros HQ ->. rewrite app_nil_r. split; [done|]. by intros [|??] ????.
  - intros [Hs Hk] (x & -> & Hf). destruct (IH x (past ++ [answered o x]) t (Hk x) Hf) as [HQ Hall].
    rewrite <- app_assoc in HQ. split; [exact HQ|]. intros [|e before] o' x' after E.
    + injection E as <- _. by rewrite app_nil_r.
    + injection E as <- E. specialize (Hall before o' x' after E). by rewrite <- app_assoc in Hall.
Qed.

Lemma awp_bind {A B} (p : calls A) (k : A -> calls B) Q past :
  awp p (fun a past => awp (k a) Q past) past -> awp (p ≫= k) Q past.
Proof. revert past. induction p as [a|o k' IH]; simpl; intros past Hw; [done|]. destruct Hw as [Hs Hw]. split; [done|]. intros x. by apply IH. Qed.

Lemma awp_mono {A} (p : calls A) (Q Q' : A -> list event -> Prop) past :
  (forall a past, Q a past -> Q' a past) -> awp p Q past -> awp p Q' past.
Proof. intros HQ. revert past. induction p as [a|o k IH]; simpl; intros past; [by apply HQ|]. intros [Hs Hk]. split; [done|]. intros x. by apply IH. Qed.

Lemma awp_anything {A} (p : calls A) (Q : A -> list event -> Prop) past :
  (forall past o, allowed past o) -> (forall a past, Q a past) -> awp p Q past.
Proof. intros Ha HQ. revert past. induction p as [a|o k IH]; intros past; [apply HQ|]. split; [apply Ha|]. intros x. apply IH. Qed.

Lemma awp_orRespond {A} (p : calls (reply A)) failed k Q past :
  awp p (fun r past => match r with inl a => awp (k a) Q past | inr err => Q (failed err) past end) past ->
  awp (orRespond p failed k) Q past.
Proof. intros Hw. apply awp_bind. eapply awp_mono; [|exact Hw]. by intros [a|err] past' H. Qed.

Lemma awp_or_bad {A} (x : option A) k Q past :
  (forall a, x = Some a -> awp (k a) Q past) -> (x = None -> Q badJSON past) -> awp (or_bad x k) Q past.
Proof. intros Hk Hb. destruct x as [a|]; [by apply Hk|by apply Hb]. Qed.
End Logic.

(** ** What a call needs *)

Definition configured (id : string) (snapshot : ConfigSnapshot) : Prop :=
  exists i, i ∈ Config.Instruments (cs_Config snapshot) /\ ID i = id.

(** The exchanges of all live orders of [c] have been asked for their credentials. *)
Definition bound (c : Config) (past : list event) : Prop :=
  cfg_Mode c = "live" -> forall name v, Venues c !! name = Some v -> venue_Enabled v = true -> TradingEnabled v = true ->
  forall id m, Markets v !! id = Some m -> answered (ValidateReference (CredentialID m) (venue_Type v)) None ∈ past.

(** The control of an instrument: that of the path, in scope, and published. *)
Definition controllable (x : Session) (r : Request) (past : list event) (id : string) : Prop :=
  id = Users.PathID r /\ CanAccessInstrument id x = true
  /\ exists snapshot, answered LoadActive (inl snapshot) ∈ past /\ configured id snapshot.

(** What was sent, or for a user with a scope what was sent put into the draft. *)
Definition edit_of (x : Session) (r : Request) (past : list event) (c : Config) : Prop :=
  exists sent, decodeConfig r = Some sent /\
    (AllInstruments x = true /\ c = sent
     \/ AllInstruments x = false /\ Forall (fun i => CanAccessInstrument (ID i) x = true) (Config.Instruments sent)
        /\ exists draft, answered GetDraft (inl draft) ∈ past /\ c = mergeScopedConfig draft sent x).

Definition needs (x : Session) (r : Request) (past : list event) (o : service) : Prop :=
  match o with
  | SaveActive c userID => Has "config:edit" x = true /\ userID = UserID x /\ edit_of x r past c /\ bound c past
  | SetPaused id reason userID =>
      Has (if String.eqb reason ReasonEmergencyCancel then "runtime:emergency_cancel" else "runtime:stop") x = true
      /\ userID = UserID x /\ controllable x r past id
  | Resume id => Has "runtime:start" x = true /\ controllable x r past id
  | RequestReconcile id userID => Has "runtime:start" x = true /\ userID = UserID x /\ controllable x r past id
  | CreateCredential _ _ _ _ userID | UpdateCredential _ _ _ _ _ userID => Has "secrets:manage" x = true /\ userID = UserID x
  | ListCredentials => Has "secrets:manage" x = true \/ Has "venue:view" x = true
  | GetSnapshot id => Has "runtime:view" x = true /\ CanAccessInstrument id x = true
  | RPCInspectPair _ _ _ | RPCChainID _ _ => Has "config:edit" x = true /\ Has "instrument:edit" x = true
  | AuditResource userID _ _ _ _ => userID = UserID x
  | AuthenticateToken _ => False
  | _ => True
  end.

Section Handlers.
Context `{MapRange} `{SliceSort} (x : Session) (r : Request).
Abbreviation asks := (awp (needs x r)).
Abbreviation anything := (fun (_ : Response) (_ : list event) => True).

Lemma answered_last o a past : answered o a ∈ past ++ [answered o a].
Proof. apply elem_of_app. right. by left. Qed.

Lemma asks_draft past (Q : reply Config -> list event -> Prop) :
  (forall a, Q a (past ++ [answered GetDraft a])) -> asks getDraft_ Q past.
Proof. intros HQ. split; [done|]. apply HQ. Qed.
Lemma asks_active past (Q : reply ConfigSnapshot -> list event -> Prop) :
  (forall a, Q a (past ++ [answered LoadActive a])) -> asks loadActive_ Q past.
Proof. intros HQ. split; [done|]. apply HQ. Qed.

(** *** Saving *)

Lemma asks_validateMarkets name type l (Q : option error -> list event -> Prop) past :
  (forall past', past ⊆ past' -> (forall id m, (id, m) ∈ l -> answered (ValidateReference (CredentialID m) type) None ∈ past') -> Q None past') ->
  (forall err past', past ⊆ past' -> Q (Some err) past') ->
  asks (validateMarkets name type l) Q past.
Proof.
  revert past. induction l as [|[id m] l IH]; intros past Hn He; simpl; [apply Hn; [done|]; by intros ?? ?%elem_of_nil|].
  split; [done|]. intros [err|]; simpl; [apply He; set_solver|]. apply IH.
  - intros past' Hp Hl. apply Hn; [set_solver|]. intros id' m' [[= <- <-]|Hin]%elem_of_cons; [|by eapply Hl].
    apply Hp, answered_last.
  - intros err past' Hp. apply He. set_solver.
Qed.

Lemma asks_validateVenues l (Q : option error -> list event -> Prop) past :
  (forall past', past ⊆ past' ->
    (forall name v, (name, v) ∈ l -> venue_Enabled v = true -> TradingEnabled v = true ->
      forall id m, Markets v !! id = Some m -> answered (ValidateReference (CredentialID m) (venue_Type v)) None ∈ past') ->
    Q None past') ->
  (forall err past', past ⊆ past' -> Q (Some err) past') ->
  asks (validateVenues l) Q past.
Proof.
  revert past. induction l as [|[name v] l IH]; intros past Hn He; simpl; [apply Hn; [done|]; by intros ?? ?%elem_of_nil|].
  destruct (negb _ || negb _) eqn:Eb.
  - apply IH; [|done]. intros past' Hp Hl. apply Hn; [done|]. intros name' v' [[= -> ->]|Hin]%elem_of_cons; [|by eapply Hl].
    intros E1 E2. by rewrite E1, E2 in Eb.
  - apply awp_bind, asks_validateMarkets; [|intros err past' Hp; by apply He].
    intros past1 Hp1 Hm. apply IH; [|intros err past' Hp; apply He; set_solver].
    intros past' Hp Hl. apply Hn; [set_solver|]. intros name' v' [[= -> ->]|Hin]%elem_of_cons; [|by eapply Hl].
    intros _ _ id m Hid. apply Hp. apply (Hm id). by apply elem_of_range.
Qed.

Lemma asks_saveDraft c past : Has "config:edit" x = true ->
  (forall past', past ⊆ past' -> edit_of x r past' c) -> asks (saveDraft x c) anything past.
Proof.
  intros Hp He. unfold saveDraft. apply awp_bind.
  assert (Hk : forall past', past ⊆ past' -> bound c past' -> asks (orRespond (ask (SaveActive c (UserID x))) rejected
    (fun _ : ConfigSnapshot => Return (writeJSON 200 (JObj [("status", JStr "saved")])))) anything past').
  { intros past' Hs Hb. apply awp_orRespond. split; [|by intros [a|err]]. split_and!; [done|done|by apply He|done]. }
  unfold validateCredentialBindings. destruct (String.eqb_spec (cfg_Mode c) "live") as [El|El]; simpl.
  2: { apply Hk; [done|]. intros E. by destruct El. }
  apply asks_validateVenues; [|done]. intros past' Hs Hv. apply Hk; [done|]. intros _ name v Hv'. eapply Hv. by apply elem_of_range.
Qed.

Lemma asks_putDraft past : Has "config:edit" x = true -> asks (putDraft x r) anything past.
Proof.
  intros Hp. unfold putDraft. apply awp_or_bad; [|done]. intros sent Es.
  destruct (enforceInstrumentScope x sent) as [err|] eqn:En; [done|].
  destruct (AllInstruments x) eqn:Ea; [apply asks_saveDraft; [done|]; intros past' _; exists sent; split; [done|]; by left|].
  apply awp_orRespond, asks_draft. intros [draft|err]; [|done]. apply asks_saveDraft; [done|]. intros past' Hs.
  exists sent. split; [done|]. right. split; [done|]. split.
  - unfold enforceInstrumentScope in En. rewrite Ea in En. destruct (find _ _) eqn:Ef; [done|].
    apply Forall_forall. intros i Hi%list_elem_of_In. pose proof (find_none _ _ Ef i Hi) as Hn. simpl in Hn.
    by apply negb_false_iff in Hn.
  - exists draft. split; [|done]. apply Hs, answered_last.
Qed.

(** *** Control *)

Lemma asks_authorized (k : calls Response) past :
  (forall past', controllable x r past' (Users.PathID r) -> asks k anything past') ->
  asks (authorized x (Users.PathID r) k) anything past.
Proof.
  intros Hk. unfold authorized, authorizeRuntimeInstrument. apply awp_bind.
  destruct (CanAccessInstrument (Users.PathID r) x) eqn:Ec; simpl; [|done]. split; [done|]. intros [snapshot|err]; simpl; [|done].
  destruct (existsb _ _) eqn:Ex; [|done]. apply Hk. split; [done|]. split; [done|]. exists snapshot. split; [apply answered_last|].
  apply existsb_exists in Ex as (i & Hi%list_elem_of_In & E%String.eqb_eq). by exists i.
Qed.

(** *** Snapshots *)

Lemma asks_snapshots inScope waiting f l (Q : list InstrumentSnapshot -> list event -> Prop) past :
  Has "runtime:view" x = true -> (forall id, inScope id = true -> CanAccessInstrument id x = true) ->
  (forall ss past', Q ss past') -> asks (snapshots inScope waiting f l) Q past.
Proof.
  intros Hp Hi. revert past Q. induction l as [|i l IH]; intros past Q HQ; simpl; [by apply HQ|].
  destruct (inScope (ID i)) eqn:Ei; simpl; [|by apply IH]. split; [split; [done|by apply Hi]|].
  intros a. apply awp_bind, IH. intros ss past'. apply HQ.
Qed.

Lemma asks_runtimeConfig (Q : reply Config -> list event -> Prop) past :
  (forall a past', Q a past') -> asks runtimeConfig Q past.
Proof. intros HQ. split; [done|]. intros [s|err]; simpl; [apply HQ|]. split; [done|]. intros a. apply HQ. Qed.

Lemma asks_monitoringData (Q : _ -> list event -> Prop) past : Has "runtime:view" x = true ->
  (forall a past', Q a past') -> asks (monitoringData (Some x)) Q past.
Proof.
  intros Hp HQ. split; [done|]. intros status. apply awp_bind, asks_runtimeConfig. intros [cfg|err] past'; [|apply HQ].
  apply awp_bind, asks_snapshots; [done|done|]. intros ss past2. apply HQ.
Qed.

(** *** Every handler *)

Lemma asks_handler e past : Has (permission_of e) x = true -> asks (handler e x r) anything past.
Proof.
  intros Hp. destruct e; simpl in Hp; cbn [handler].
  - apply awp_orRespond, asks_draft. by intros [].
  - by apply asks_putDraft.
  - apply awp_orRespond, asks_active. by intros [].
  - apply awp_orRespond, asks_draft. intros [draft|]; [|done]. destruct (enforceInstrumentScope x draft); [done|].
    destruct (Configstore.invalid draft); [done|]. apply awp_bind, asks_active. intros [s|err]; [done|]. by destruct (errors_Is _ _).
  - apply awp_orRespond, asks_active. by intros [].
  - apply awp_bind, asks_runtimeConfig. intros [cfg|err] past'; simpl; [|by repeat split].
    split; [done|]. intros paused. split; [done|]. intros status. apply awp_bind, asks_snapshots; [done|done|]. intros ss past2. by split.
  - apply awp_bind, asks_monitoringData; [done|]. intros [[cfg engine] l] past'. by split.
  - unfold runtimeInstrument. destruct (CanAccessInstrument _ x) eqn:Ec; cbn [negb]; [|done].
    apply awp_orRespond, asks_runtimeConfig. intros [cfg|err] past'; [|done]. destruct (find _ _) as [i|]; [|done]. simpl. by repeat split.
  - apply asks_authorized. intros past' Hc. apply awp_orRespond. split; [done|]. intros [s|err]; [|done]. by split.
  - apply asks_authorized. intros past' Hc. split; [done|]. intros [err|]; [done|]. by split.
  - apply asks_authorized. intros past' Hc. apply awp_orRespond. split; [done|]. intros [s|err]; [|done]. by split.
  - apply asks_authorized. intros past' Hc. apply awp_orRespond. split; [done|]. intros [s|err]; [|done]. by split.
  - unfold inspectPancakeV2Pair. destruct (Has "instrument:edit" x) eqn:Ei; simpl; [|done].
    repeat (apply awp_or_bad; [intros ? _|done]). destruct (negb _ || negb _); [done|]. destruct (_ && _); [done|].
    split; [done|]. intros [cfg|err]; simpl; [|done]. destruct (URLs _); [done|]. split; [done|]. intros [chain|err]; simpl; [|done].
    destruct (chain =? _); simpl; [|done]. split; [done|]. intros [info|err]; simpl; [|done].
    destruct (_ && _); [done|]. by destruct (orientPairTokens _ _) as [[]|].
  - apply awp_orRespond. split; [by right|]. by intros [].
  - done.
  - apply awp_orRespond. split; [by left|]. by intros [].
  - unfold createCredential. repeat (apply awp_or_bad; [intros ? _|done]). apply awp_orRespond. split; [done|].
    intros [item|err]; [|done]. by split.
  - unfold updateCredential. destruct (Users.ParseInt _); [|done]. destruct (_ <=? 0); [done|].
    repeat (apply awp_or_bad; [intros ? _|done]). apply awp_orRespond. split; [done|]. intros [item|err]; [|done]. by split.
Qed.
End Handlers.
(** The session of a request. *)
Definition session_of (r : Request) (past : list event) (x : Session) : Prop :=
  answered (AuthenticateToken (Users.bearerToken r)) (inl x) ∈ past.

Definition justified (r : Request) (past : list event) (o : service) : Prop :=
  match o with
  | AuthenticateToken token => token = Users.bearerToken r
  | _ => exists x, session_of r past x /\ needs x r past o
  end.

Lemma awp_weaken (allowed allowed' : list event -> service -> Prop) {A} (p : calls A) Q start :
  (forall past o, start `prefix_of` past -> allowed past o -> allowed' past o) ->
  forall past, start `prefix_of` past -> awp allowed p Q past -> awp allowed' p Q past.
Proof.
  intros Ha. induction p as [a|o k IH]; simpl; intros past Hs; [done|]. intros [Ho Hk]. split; [by apply Ha|].
  intros x. apply IH; [|done]. by apply prefix_app_r.
Qed.

Section Routes.
Context `{MapRange} `{SliceSort}.

(** C15: whatever the services answer, every call that a request makes is one its user may
    make.  After the lookup of the session, nothing is saved without the right to edit: the
    configuration is the one sent or, for a user with a scope, the draft with the part in
    scope replaced, and all credentials of live orders have been validated.  Pausing,
    resuming, reconciling and cancelling need their own right each and an instrument of the
    path, in scope and published.  Snapshots are read in scope only; credentials and the node
    need their rights; what is recorded carries the id of the user of the session. *)
Theorem requests_authorized e r t resp before o a after :
  follows (route e r) t resp -> t = before ++ answered o a :: after -> justified r before o.
Proof.
  intros Hf Ht.
  assert (Hw : awp (justified r) (route e r) (fun _ _ => True) []).
  { unfold route. destruct (crossOrigin r); [done|]. apply awp_orRespond. split; [done|]. intros [x|err]; [|done]. cbn [awp].
    set (past := [] ++ _). destruct (negb (String.eqb (permission_of e) "") && _) eqn:Ep; [done|].
    assert (Hp : Has (permission_of e) x = true) by (by destruct e, (Has _ x)).
    eapply (awp_weaken (needs x r) _ _ _ past); [|done|by apply asks_handler].
    intros past' o' Hs Hn. assert (session_of r past' x) by (destruct Hs as [l ->]; apply elem_of_app; left; by left).
    by destruct o'; try done; exists x. }
  destruct (awp_follows _ _ _ _ _ _ Hw Hf) as [_ Hall]. by apply (Hall before o a after).
Qed.
End Routes.
(** ** What is shown *)

Section Views.
Context (x : Session).

Definition in_view (id : string) : Prop := id = "" \/ CanAccessInstrument id x = true.

(** Instruments and markets in scope only. *)
Definition config_in_scope (c : Config) : Prop :=
  Forall (fun i => CanAccessInstrument (ID i) x = true) (Config.Instruments c)
  /\ forall name v id m, Venues c !! name = Some v -> Markets v !! id = Some m -> CanAccessInstrument id x = true.

Record visible (s : InstrumentSnapshot) : Prop := {
  visible_id : CanAccessInstrument (is_InstrumentID s) x = true;
  visible_orders : Has "orders:view" x = false -> Forall (fun v => OpenOrders v = []) (is_Venues s);
  visible_fills : Has "fills:view" x = false -> Forall (fun v => vs_Fills v = []) (is_Venues s)
    /\ forall t, is_TradeSimulation s = Some t -> TradesimData.snap_Fills t = []
}.

Definition alerts_in_scope (s : Monitoring.MonitoringSummary) : Prop :=
  Forall (fun a => in_view (Monitoring.alert_InstrumentID a)) (Monitoring.Alerts s).
Definition changes_in_scope (e : EngineStatus) : Prop :=
  Forall (fun c => CanAccessInstrument (rc_InstrumentID c) x = true) (RuleChanges e).

Lemma allowed_access id : allowed x id = true -> CanAccessInstrument id x = true.
Proof.
  intros Hin%bool_decide_eq_true. unfold CanAccessInstrument. apply orb_true_iff. right. apply existsb_exists.
  exists id. split; [by apply list_elem_of_In|by apply String.eqb_eq].
Qed.

Lemma access_all id : AllInstruments x = true -> CanAccessInstrument id x = true.
Proof. unfold CanAccessInstrument. by intros ->. Qed.

Lemma scoped_in_scope c : config_in_scope (scopeConfig x c).
Proof.
  unfold scopeConfig, config_in_scope. destruct (AllInstruments x) eqn:Ea.
  { split; [apply Forall_true|]; intros; by apply access_all. }
  split.
  - apply Forall_forall. intros i [Hi _]%list_elem_of_filter. by apply allowed_access.
  - cbn [Venues with_parts part]. intros name v id m. rewrite lookup_fmap. intros (w & _ & ->)%fmap_Some. cbn [Markets set_Markets].
    rewrite lookup_markets_where. case_bool_decide; [|done]. intros _. by apply allowed_access.
Qed.

Lemma filtered_changes status : changes_in_scope (Monitoring.filterEngineRuleChanges status (Some x)).
Proof.
  unfold changes_in_scope, Monitoring.filterEngineRuleChanges. destruct (AllInstruments x) eqn:Ea.
  - apply Forall_true. intros c. unfold CanAccessInstrument. by rewrite Ea.
  - cbn [RuleChanges Monitoring.set_RuleChanges]. apply Forall_forall. by intros c [Hc _]%list_elem_of_filter.
Qed.

Lemma view_when b a : in_view (Monitoring.alert_InstrumentID a) -> Forall (fun a => in_view (Monitoring.alert_InstrumentID a)) (Monitoring.when b a).
Proof. intros Ha. destruct b; [by constructor|done]. Qed.

Lemma raised_in_scope cfg engine now l :
  changes_in_scope engine -> Forall (fun s => CanAccessInstrument (is_InstrumentID s) x = true) l ->
  Forall (fun a => in_view (Monitoring.alert_InstrumentID a)) (Monitoring.raised cfg engine now l).
Proof.
  intros Hc Hl. unfold Monitoring.raised. repeat (apply Forall_app; split).
  - unfold Monitoring.engineAlerts. destruct (negb _); [by repeat constructor|]. apply view_when. by left.
  - apply view_when. by left.
  - apply view_when. by left.
  - unfold Monitoring.cycleAlerts. destruct (Performance engine); [|done]. apply Forall_app. split; apply view_when; by left.
  - unfold Monitoring.auditAlerts. destruct (Metrics engine); [|done]. apply view_when. by left.
  - apply Forall_bind. eapply Forall_impl; [exact Hc|]. intros c Hi. apply view_when. by right.
  - unfold Monitoring.watchdogAlerts. destruct (Watchdog engine) as [w|]; [|apply view_when; by left].
    destruct (negb _); [done|]. cbv zeta. destruct (_ <? _); [by repeat constructor|]. apply view_when. by left.
  - destruct (Online engine); [|done]. apply Forall_bind. eapply Forall_impl; [exact Hl|]. intros s Hs.
    unfold Monitoring.instrumentAlerts. repeat (apply Forall_app; split); [apply view_when; by right..|].
    apply Forall_bind, Forall_true. intros v. unfold Monitoring.venueAlerts. repeat (apply Forall_app; split); [apply view_when; by right..|].
    destruct (vs_Fault v); [|done]. apply view_when. by right.
Qed.

Lemma summary_in_scope cfg engine now l :
  changes_in_scope engine -> Forall (fun s => CanAccessInstrument (is_InstrumentID s) x = true) l ->
  alerts_in_scope (Monitoring.BuildMonitoringSummary cfg engine l now).
Proof.
  intros Hc Hl. unfold alerts_in_scope. rewrite Monitoring.summary_parts. cbn [Monitoring.Alerts].
  pose proof (raised_in_scope cfg engine now l Hc Hl) as Hr. rewrite Forall_forall in Hr.
  apply Forall_app. split; apply Forall_forall; intros a [_ Ha]%list_elem_of_filter; by apply Hr.
Qed.

Lemma shown_visible paused id s : CanAccessInstrument (is_InstrumentID s) x = true -> visible (shown x paused id s).
Proof.
  intros Hs. unfold shown. set (s' := mergeRuntimeControlState _ s).
  assert (is_InstrumentID s' = is_InstrumentID s) as Hid.
  { unfold s', mergeRuntimeControlState. destruct (paused !! id); [done|]. by destruct (is_Paused s). }
  unfold redactRuntimeSnapshot. constructor.
  - rewrite <- Hid in Hs. by destruct (Has "fills:view" x).
  - intros Ho. cbn [is_Venues set_is_Venues]. apply Forall_map, Forall_true. intros v. unfold redactVenue. cbn. rewrite Ho.
    by destruct (Has "fills:view" x).
  - intros Hf. rewrite Hf. cbn [is_Venues set_is_Venues is_TradeSimulation set_is_TradeSimulation]. split.
    + apply Forall_map, Forall_true. intros v. unfold redactVenue. cbn. by rewrite Hf.
    + intros t (t' & _ & ->)%fmap_Some. done.
Qed.

(** The runtime store answers with the snapshot of the instrument asked for. *)
Definition honest_event (e : event) : Prop :=
  match e with existT (GetSnapshot id) (inl s) => is_InstrumentID s = id | _ => True end.
Definition honest (t : list event) : Prop := Forall honest_event t.

Lemma honest_app t t' : honest (t ++ t') -> honest t.
Proof. by intros [Ht _]%Forall_app. Qed.
Lemma honest_in t id s : honest t -> answered (GetSnapshot id) (inl s) ∈ t -> is_InstrumentID s = id.
Proof. intros Ht Hin. exact (proj1 (Forall_forall _ _) Ht _ Hin). Qed.

(** The endpoints that show configurations and the runtime. *)
Definition reading (e : Endpoint) : bool :=
  match e with
  | GetConfigDraft | GetConfigActive | PostConfigPublish | GetRuntime | GetMonitoring | GetRuntimeInstrument => true
  | _ => false
  end.

(** What a successful answer of theirs shows. *)
Definition shows (e : Endpoint) (resp : Response) : Prop :=
  match e with
  | GetConfigDraft => exists c, Body resp = JSONBody (marshal c) /\ config_in_scope c
  | GetConfigActive | PostConfigPublish =>
      exists s, Body resp = JSONBody (Configstore.marshal_snapshot s) /\ config_in_scope (cs_Config s)
  | GetRuntime =>
      exists engine l summary, Body resp = JSONBody (runtimeResponse engine l summary)
        /\ changes_in_scope engine /\ Forall visible l /\ alerts_in_scope summary
  | GetMonitoring => exists summary, Body resp = JSONBody (marshal summary) /\ alerts_in_scope summary
  | GetRuntimeInstrument => exists s, Body resp = JSONBody (marshal s) /\ visible s
  | _ => False
  end.

(** Their other answers: an error with one of these texts, which name nothing. *)
Definition refusals : list Response :=
  [writeError 404 "no draft configuration"; writeError 500 "load draft failed";
   writeError 400 "no configuration has been saved yet"; writeError 404 "no published configuration";
   writeError 500 "load active configuration failed"; out_of_scope;
   writeError 404 "runtime configuration not available";
   writeError 404 "instrument is not in the runtime configuration"].

Definition answers (e : Endpoint) (resp : Response) : Prop :=
  Code resp = 200 /\ shows e resp \/ resp ∈ refusals.

Abbreviation free := (fun (_ : list event) (_ : service) => True).
Abbreviation view e := (fun (resp : Response) (t : list event) => honest t -> answers e resp).

Ltac refuse := intros _; right; unfold refusals; rewrite !elem_of_cons; auto 12.
Ltac display := intros Hh; left; split; [reflexivity|].


Lemma free_snapshots inScope waiting f l (P : InstrumentSnapshot -> Prop) (Q : list InstrumentSnapshot -> list event -> Prop) past :
  (forall i, inScope (ID i) = true -> P (f (ID i) (waiting i))) ->
  (forall s, inScope (is_InstrumentID s) = true -> P (f (is_InstrumentID s) s)) ->
  (forall ss past', (honest past' -> Forall P ss) -> Q ss past') ->
  awp free (snapshots inScope waiting f l) Q past.
Proof.
  intros Hw Hf HQ.
  enough (H : forall past, awp free (snapshots inScope waiting f l)
    (fun ss past' => past `prefix_of` past' /\ (honest past' -> Forall P ss)) past).
  { eapply awp_mono; [|apply H]. intros ss past' [_ Hss]. by apply HQ. }
  clear HQ. induction l as [|i l IH]; intros past0; simpl; [done|].
  destruct (inScope (ID i)) eqn:Ei; simpl; [|done]. split; [done|]. intros a. apply awp_bind.
  eapply awp_mono; [|apply IH]. intros ss past' [[t ->] Hss]. simpl. split; [by do 2 apply prefix_app_r|]. intros Hh.
  constructor; [|by apply Hss]. destruct a as [s|err]; [|by apply Hw].
  rewrite <- (honest_in _ (ID i) s Hh) in Ei |- * by (apply elem_of_app; left; apply answered_last). by apply Hf.
Qed.

Lemma free_config (Q : reply Config -> list event -> Prop) past :
  (forall a past', Q a past') -> awp free runtimeConfig Q past.
Proof. intros HQ. split; [done|]. intros [s|err]; simpl; [apply HQ|]. split; [done|]. intros a. apply HQ. Qed.

Lemma views_runtimeList r past : awp free (runtimeList x r) (view GetRuntime) past.
Proof.
  apply awp_bind, free_config. intros [cfg|err] past'; simpl.
  - split; [done|]. intros paused. split; [done|]. intros status. apply awp_bind.
    eapply (free_snapshots _ _ _ _ visible).
    + intros i Hi. by apply shown_visible.
    + intros s Hs. by apply shown_visible.
    + intros l past2 Hl. split; [done|]. intros now. display. apply honest_app in Hh. eexists _, l, _. split; [done|].
      specialize (Hl Hh). split_and!; [apply filtered_changes|done|]. apply summary_in_scope; [apply filtered_changes|].
      eapply Forall_impl; [exact Hl|]. by intros s [].
  - split; [done|]. intros status. split; [done|]. intros now. display. eexists _, [], _. split; [done|].
    split_and!; [apply filtered_changes|done|]. apply summary_in_scope; [apply filtered_changes|done].
Qed.

Lemma views_monitoring r past : awp free (monitoring x r) (view GetMonitoring) past.
Proof.
  apply awp_bind. split; [done|]. intros status. apply awp_bind, free_config. intros [cfg|err] past'; simpl.
  - apply awp_bind. eapply (free_snapshots _ _ _ _ (fun s => CanAccessInstrument (is_InstrumentID s) x = true)); [done|done|].
    intros l past2 Hl. split; [done|]. intros now. display. apply honest_app in Hh. eexists. split; [done|].
    apply summary_in_scope; [apply filtered_changes|by apply Hl].
  - split; [done|]. intros now. display. eexists. split; [done|]. apply summary_in_scope; [apply filtered_changes|done].
Qed.

Lemma views_runtimeInstrument r past : awp free (runtimeInstrument x r) (view GetRuntimeInstrument) past.
Proof.
  unfold runtimeInstrument. destruct (CanAccessInstrument _ x) eqn:Ec; cbn [negb]; [|refuse].
  apply awp_orRespond, free_config. intros [cfg|err] past'; [|refuse].
  destruct (find _ _) as [i|] eqn:Ei; [|refuse]. split; [done|]. intros a. split; [done|]. intros paused. display.
  eexists. split; [done|]. apply shown_visible. destruct a as [s|err].
  - rewrite (honest_in _ (Users.PathID r) s Hh); [done|]. apply elem_of_app. left. apply answered_last.
  - apply find_some in Ei as [_ E%String.eqb_eq]. cbn. by rewrite E.
Qed.
End Views.

Section Shown.
Context `{MapRange} `{SliceSort}.

Ltac refuse := intros _; right; unfold refusals; rewrite !elem_of_cons; auto 12.

(** C16: what the six endpoints that show configurations and the runtime answer.  However the
    services answer, as long as the runtime store answers with the snapshot that was asked
    for, the answer is either one of eight errors with fixed texts, or has the status 200 and
    shows to a user with a scope configurations with the instruments and the markets in scope
    only, snapshots, changes of trading rules and alerts for instruments in scope only, and
    orders and fills, those of the simulation included, only with the right to see them.  (The
    other endpoints are not covered; the plan of a publication may name instruments out of
    scope: AdminExamples.v.) *)
Theorem nothing_out_of_scope e x r t resp :
  reading e = true -> follows (handler e x r) t resp -> honest t ->
  Code resp = 200 /\ shows x e resp \/ resp ∈ refusals.
Proof.
  intros He Hf. enough (Hw : awp (fun _ _ => True) (handler e x r) (fun resp t => honest t -> answers x e resp) []).
  { exact (proj1 (awp_follows _ _ _ _ _ _ Hw Hf)). }
  destruct e; try discriminate He; cbn [handler].
  - apply awp_orRespond. split; [done|]. intros [c|err]; [|cbn; case_match; refuse].
    intros _. left. split; [done|]. eexists. split; [done|]. apply scoped_in_scope.
  - apply awp_orRespond. split; [done|]. intros [s|err]; [|cbn; case_match; refuse].
    intros _. left. split; [done|]. eexists. split; [done|]. apply scoped_in_scope.
  - apply awp_orRespond. split; [done|]. intros [s|err]; [|cbn; case_match; refuse].
    intros _. left. split; [done|]. eexists. split; [done|]. apply scoped_in_scope.
  - apply views_runtimeList.
  - apply views_monitoring.
  - apply views_runtimeInstrument.
Qed.
End Shown.
End AdminSafety.
