(* ===== verification/Commits.v ===== *)
(** Clients that commit transactions: what each keeps, given rules for the tables.

    [Rules] says which tables are well formed, how later tables relate to earlier ones, what
    an entry of the cache may hold, and what the holder of a lock may rely on while others
    commit.  A client keeps the rules with every step ([respects]) and relies on the others
    to do so.  Between its calls a client is [settled] (no transaction) or [pending] (its
    transaction is open, or the server has ended it). *)
From S2P Require Import Prelude Json World Shared.

Open Scope string_scope.
Open Scope list_scope.
Open Scope Z_scope.

Class Rules `{Schema} := {
  table_ok : tables -> Prop;
  later : relation tables;
  later_preorder : PreOrder later;
  entry_ok : list tables -> string -> Json -> Prop;
  entry_later h h' key j : entry_ok h key j -> h `suffix_of` h' -> entry_ok h' key j;
  guarded : lock -> relation tables;
  guarded_preorder l : PreOrder (guarded l);
  conflict_sym (l l' : lock) : conflict l l' = conflict l' l
}.
#[export] Existing Instance later_preorder.
#[export] Existing Instance guarded_preorder.

Section Commits.
Context `{Rules}.

Record Sound (s : state) : Prop := {
  sound_now : head (history s) = Some (committed s);
  sound_tables : Forall table_ok (history s);
  sound_later : StronglySorted (fun T' T => later T T') (history s);
  sound_entries : forall key j, kv s !! key = Some j -> entry_ok (history s) key j;
  sound_locks : forall l c l' c', (l, c) ∈ held s -> (l', c') ∈ held s -> c <> c' -> conflict l l' = false
}.

Definition respects (c : nat) (s s' : state) : Prop :=
  Sound s -> Sound s' /\ history s `suffix_of` history s'
  /\ forall c', c' <> c -> open s' !! c' = open s !! c'
     /\ forall l, (l, c') ∈ held s -> (l, c') ∈ held s' /\ guarded l (committed s) (committed s').

Definition expects (c : nat) (s s' : state) : Prop :=
  Sound s -> Sound s' /\ history s `suffix_of` history s'
  /\ (open s' !! c = None
      \/ open s' !! c = open s !! c
         /\ forall l, (l, c) ∈ held s -> (l, c) ∈ held s' /\ guarded l (committed s) (committed s')).

#[local] Instance expects_preorder c : PreOrder (expects c).
Proof.
  split.
  - intros s Hs. split_and!; [done|done|]. right. done.
  - intros s1 s2 s3 H12 H23 H1'. destruct (H12 H1') as (H2' & Hh2 & Ho2). destruct (H23 H2') as (H3' & Hh3 & Ho3).
    split_and!; [done|by etrans|]. destruct Ho3 as [Ho3|[Ho3 Hl3]]; [by left|].
    destruct Ho2 as [Ho2|[Ho2 Hl2]]; [left; congruence|]. right. split; [congruence|].
    intros l Hl. destruct (Hl2 l Hl) as [Hin Hg]. destruct (Hl3 l Hin) as [Hin' Hg']. split; [done|by etrans].
Qed.

Lemma committed_ok s : Sound s -> table_ok (committed s).
Proof. intros [Hn Ht _ _ _]. destruct (history s) as [|T h]; [done|]. injection Hn as ->. by apply Forall_inv in Ht. Qed.

Lemma committed_in s : Sound s -> committed s ∈ history s.
Proof. intros [Hn _ _ _ _]. destruct (history s); [done|]. injection Hn as ->. by left. Qed.

Lemma past_later s T : Sound s -> T ∈ history s -> later T (committed s).
Proof.
  intros [Hn _ Hl _ _] Hin. destruct (history s) as [|T' h]; [done|]. injection Hn as ->.
  apply StronglySorted_inv in Hl as [_ Hl]. apply elem_of_cons in Hin as [->|Hin]; [reflexivity|].
  by apply (proj1 (Forall_forall _ _) Hl).
Qed.

(** ** Steps that keep the rules *)

Lemma publish_sound s T : Sound s -> table_ok T -> later (committed s) T -> Sound (publish T s).
Proof.
  intros Hs HT Hl. pose proof Hs as [Hn Ht Hp He Hk]. constructor; simpl; try done.
  - by constructor.
  - constructor; [done|]. apply Forall_forall. intros T' Hin. etrans; [by apply past_later|done].
  - intros key j Hj. eapply entry_later; [by apply He|by apply suffix_cons_r].
Qed.

Lemma endTx_sound c s : Sound s -> Sound (endTx c s).
Proof.
  intros [Hn Ht Hp He Hk]. constructor; try done. intros l c1 l' c2. simpl.
  rewrite !list_elem_of_filter. intros [_ ?] [_ ?]. by eapply Hk.
Qed.

Lemma fault_sound c s : Sound s -> Sound (fault c s).
Proof. by intros [? ? ? ? ?]. Qed.

Lemma open_sound o s : Sound s -> Sound (set_open o s).
Proof. by intros [? ? ? ? ?]. Qed.

Lemma kv_sound m s : Sound s -> (forall key j, m !! key = Some j -> entry_ok (history s) key j) -> Sound (set_kv m s).
Proof. by intros [? ? ? ? ?]. Qed.

(** Which locks others hold when a client may take the locks [ls]. *)
Lemma free_spec own ls s : free own ls s = true ->
  forall l l' c, l ∈ ls -> (l', c) ∈ held s -> own c = false -> conflict l' l = false.
Proof.
  intros Hf l l' c Hl Hl' Hc. unfold free in Hf. rewrite forallb_forall in Hf.
  pose proof (Hf l (proj1 (list_elem_of_In _ _) Hl)) as Hx. rewrite forallb_forall in Hx.
  pose proof (Hx (l', c) (proj1 (list_elem_of_In _ _) Hl')) as Hy. simpl in Hy.
  rewrite Hc, orb_false_r in Hy. by apply negb_true_iff in Hy.
Qed.

Lemma held_sound c ls s : Sound s -> free (Nat.eqb c) ls s = true ->
  Sound (set_held (map (fun l => (l, c)) ls ++ held s) s).
Proof.
  intros [Hn Ht Hp He Hk] Hf. constructor; try done. simpl. intros l c1 l' c2.
  intros [(x & [= -> ->] & Hx)%list_elem_of_fmap|H1']%elem_of_app
    [(y & [= -> ->] & Hy)%list_elem_of_fmap|H2']%elem_of_app Hne; try done.
  - rewrite conflict_sym. eapply free_spec; [exact Hf|done|exact H2'|]. by apply Nat.eqb_neq.
  - eapply free_spec; [exact Hf|done|exact H1'|]. by apply Nat.eqb_neq.
  - by eapply Hk.
Qed.

Lemma endTx_held c c' l s : c' <> c -> (l, c') ∈ held s -> (l, c') ∈ held (endTx c s).
Proof. intros Hne Hin. simpl. by apply list_elem_of_filter. Qed.

#[export, program] Instance clients_respect `{!Database} : Guarantee := {| G := respects; Rel := expects |}.
Next Obligation.
  intros ? c c' s s' Hne Hk Hs. destruct (Hk Hs) as (Hs' & Hh & Ho). split_and!; [done|done|]. right. by apply Ho.
Qed.
Next Obligation.
  intros ? c s s' Hb Hs. apply between_documented in Hb. destruct Hb as [m Hm|c'].
  - split_and!; [|done|by right]. apply kv_sound; [done|]. intros key j Hj.
    apply (sound_entries s Hs). by eapply lookup_weaken.
  - split_and!; [by apply endTx_sound|done|]. destruct (decide (c' = c)) as [->|Hne].
    + left. simpl. by rewrite lookup_delete_eq.
    + right. split; [simpl; by rewrite lookup_delete_ne|]. intros l Hl. by split; [apply endTx_held|].
Qed.

Lemma respects_same c s s' : (Sound s -> Sound s') -> history s' = history s -> committed s' = committed s ->
  (forall c', c' <> c -> open s' !! c' = open s !! c' /\ forall l, (l, c') ∈ held s -> (l, c') ∈ held s') ->
  respects c s s'.
Proof.
  intros Hs Hh Hc Ho Hs1. split_and!; [by apply Hs|by rewrite Hh|]. intros c' Hne.
  destruct (Ho c' Hne) as [Hop Hl]. split; [done|]. intros l Hin. split; [by apply Hl|]. by rewrite Hc.
Qed.

Lemma respects_refl c s : respects c s s.
Proof. by apply respects_same. Qed.

Lemma respects_endTx c s : respects c s (endTx c s).
Proof.
  apply respects_same; [apply endTx_sound|done|done|]. intros c' Hne.
  split; [simpl; by rewrite lookup_delete_ne|]. intros l. by apply endTx_held.
Qed.

Lemma respects_fault c s s' : respects c s s' -> respects c s (fault c s').
Proof. intros Hr Hs. destruct (Hr Hs) as (Hs' & Hh & Ho). split_and!; [by apply fault_sound|done|done]. Qed.

Lemma respects_kv c s m : Sound s -> (forall key j, m !! key = Some j -> entry_ok (history s) key j) -> respects c s (set_kv m s).
Proof. intros Hs Hm. apply respects_same; try done. intros _. by apply kv_sound. Qed.

(** A commit: well-formed tables, and nothing that a lock of another client guards. *)
Lemma respects_publish c s T : table_ok T -> later (committed s) T ->
  (forall l c', c' <> c -> (l, c') ∈ held s -> guarded l (committed s) T) -> respects c s (publish T s).
Proof.
  intros HT Hl Hg Hs. split_and!; [by apply publish_sound|by apply suffix_cons_r|]. intros c' Hne.
  split; [done|]. intros l Hin. split; [done|]. by eapply Hg.
Qed.

Lemma respects_commit c s T : table_ok T -> later (committed s) T ->
  (forall l c', c' <> c -> (l, c') ∈ held s -> guarded l (committed s) T) -> respects c s (publish T (endTx c s)).
Proof.
  intros HT Hl Hg Hs. split_and!; [apply publish_sound; [by apply endTx_sound|done|done]|by apply suffix_cons_r|].
  intros c' Hne. split; [simpl; by rewrite lookup_delete_ne|]. intros l Hin. split; [by apply endTx_held|]. by eapply Hg.
Qed.
End Commits.

(** ** The assertions of a client, from a state [s0] on *)

Section Client.
Context `{Rules} `{!Database} (c : nat) (s0 : state).

(** The tables were the committed ones at some moment since [s0]. *)
Definition since (s : state) (T : tables) : Prop :=
  T ∈ take (S (length (history s) - length (history s0))) (history s).

Record settled (L : list tables) (s : state) : Prop := {
  settled_sound : Sound s;
  settled_open : open s !! c = None;
  settled_suffix : history s0 `suffix_of` history s;
  settled_since : Forall (since s) L
}.

(** What holds of the committed tables as long as the locks [ls] are held. *)
Definition lasting (ls : list lock) (F : tables -> Prop) : Prop := forall T T',
  table_ok T -> table_ok T' -> F T -> later T T' -> (forall l, l ∈ ls -> guarded l T T') -> F T'.

(** The transaction is open with the locks [ls]: [F] holds of the committed tables, and
    [E T X] of any tables [T] like them and those [X] its changes make of them. *)
Record pending (ls : list lock) (F : tables -> Prop) (E : tables -> tables -> Prop) (s : state) : Prop := {
  pending_sound : Sound s;
  pending_suffix : history s0 `suffix_of` history s;
  pending_lasting : lasting ls F;
  pending_open : open s !! c = None \/ exists pend, open s !! c = Some pend
    /\ (forall l, l ∈ ls -> (l, c) ∈ held s) /\ F (committed s)
    /\ forall T, table_ok T -> F T -> E T (replay pend T)
}.

Lemma since_later s s' T : history s0 `suffix_of` history s -> history s `suffix_of` history s' ->
  since s T -> since s' T.
Proof.
  unfold since. intros [h0 H0'] [h Hh]. rewrite Hh, H0', !length_app. intros Hin.
  replace (S (length h + (length h0 + length (history s0)) - length (history s0)))%nat
    with (length h + S (length h0 + length (history s0) - length (history s0)))%nat by lia.
  rewrite take_app_add. apply elem_of_app. by right.
Qed.

Lemma since_now s : Sound s -> since s (committed s).
Proof.
  intros Hs. unfold since. pose proof (sound_now s Hs) as Hn. destruct (history s) as [|T h]; [done|].
  injection Hn as ->. left.
Qed.

Lemma since_history s T : since s T -> T ∈ history s.
Proof. apply subseteq_take. Qed.

Lemma settled_stable L : stable c (settled L).
Proof.
  intros s s' [Hs Ho Hh Hl] Hr. destruct (Hr Hs) as (Hs' & Hh' & Ho'). constructor; [done| |by etrans|].
  - destruct Ho' as [|[-> _]]; done.
  - eapply Forall_impl; [exact Hl|]. intros T. by apply since_later.
Qed.

Lemma pending_stable ls F E : stable c (pending ls F E).
Proof.
  intros s s' [Hs Hh Hf Ho] Hr. destruct (Hr Hs) as (Hs' & Hh' & Ho'). constructor; [done|by etrans|done|].
  destruct Ho' as [|[Eo Hl]]; [by left|]. destruct Ho as [Ho|(pend & Ho & Hls & HF & HE)]; [left; congruence|].
  right. exists pend. split_and!; [congruence| | |done].
  - intros l Hin. by apply Hl, Hls.
  - apply (Hf (committed s)); [by apply committed_ok|by apply committed_ok|done| |].
    + apply past_later; [done|]. destruct Hh' as [h ->]. apply elem_of_app. right. by apply committed_in.
    + intros l Hin. by apply Hl, Hls.
Qed.

Lemma settled_step L s s' : settled L s -> respects c s s' -> open s' !! c = None -> settled L s'.
Proof.
  intros [Hs Ho Hh Hl] Hr Ho'. destruct (Hr Hs) as (Hs' & Hh' & _). constructor; [done|done|by etrans|].
  eapply Forall_impl; [exact Hl|]. intros T. by apply since_later.
Qed.

Lemma settled_now L s : settled L s -> settled (committed s :: L) s.
Proof. intros [? ? ? ?]. constructor; try done. constructor; [by apply since_now|done]. Qed.

Lemma settled_less L L' s : settled L s -> (forall T, T ∈ L' -> T ∈ L) -> settled L' s.
Proof.
  intros [? ? ? Hl] Hsub. constructor; try done. apply Forall_forall. intros T Hin.
  by apply (proj1 (Forall_forall _ _) Hl), Hsub.
Qed.

Lemma settled_fault L s : settled L s -> settled L (fault c s).
Proof. intros Hs. eapply settled_step; [exact Hs|apply respects_fault, respects_refl|apply Hs]. Qed.

Lemma settled_ended L s : Sound s -> history s0 `suffix_of` history s -> Forall (since s) L -> settled L (endTx c s).
Proof. intros Hs Hh Hl. constructor; [by apply endTx_sound|simpl; by rewrite lookup_delete_eq|done|done]. Qed.

Lemma settled_nil s : Sound s -> history s0 `suffix_of` history s -> open s !! c = None -> settled [] s.
Proof. by constructor. Qed.

(** ** Calls outside transactions *)

(** The writes [w] of a statement on [T] may be committed at once: no one holds a lock in
    conflict with [ls]. *)
Definition committable (ls : list lock) (T X : tables) : Prop :=
  table_ok X /\ later T X /\ forall l, (forall l', l' ∈ ls -> conflict l l' = false) -> guarded l T X.

Lemma committable_refl ls T : table_ok T -> committable ls T T.
Proof. intros HT. split_and!; [done|reflexivity|]. reflexivity. Qed.

Lemma client_exec_errors {A} q (k : reply (rows q) -> program A) L Q s : settled L s ->
  (forall now drawn T w r, table_ok T -> sql q now drawn T = Some (w, r) ->
    committable (locks_of q drawn T) T (w T)) ->
  (forall s1 now drawn T w r, table_ok T -> sql q now drawn T = Some (w, r) ->
    settled (w T :: T :: L) s1 -> wp c (k (inl r)) Q s1) ->
  (forall s1 err, settled L s1 -> err = db_error \/ err = constraint /\ (exists now drawn T, table_ok T /\ sql q now drawn T = None) ->
    wp c (k (inr err)) Q s1) ->
  wp c (Ask (Exec q) k) Q s.
Proof.
  intros Hs Hq Hok Hfail. eapply (wp_ask _ _ _ (settled L)); [apply settled_stable|exact Hs|].
  intros s1 f now bytes s2 a H1' Ha. unfold answer in Ha. pose proof (settled_sound _ _ H1') as Hsd.
  assert (Hcase : f = Broken \/ (exists w r, free (fun _ => false) (locks_of q bytes (committed s1)) s1 = true
      /\ sql q now bytes (committed s1) = Some (w, r)
      /\ ((s2 = publish (w (committed s1)) s1 /\ a = inl r)
          \/ s2 = fault c (publish (w (committed s1)) s1) /\ a = inr db_error))
    \/ (s2 = s1 /\ a = inr constraint /\ sql q now bytes (committed s1) = None)).
  { destruct f; [| |by left]; right; destruct (free _ _ s1) eqn:Hf; try done; simpl in Ha;
      destruct (sql q now bytes (committed s1)) as [[w r]|] eqn:Hw; injection Ha as <- <-; eauto 10. }
  destruct Hcase as [->|[(w & r & Hf & Hw & Hc)|(-> & -> & Hw)]].
  - injection Ha as <- <-. split; [apply respects_fault, respects_refl|]. by apply Hfail; [apply settled_fault|left].
  - set (T := committed s1) in *. destruct (Hq _ _ _ _ _ (committed_ok _ Hsd) Hw) as (Hok1 & Hl & Hg).
    assert (Hr : respects c s1 (publish (w T) s1)).
    { apply respects_publish; [done|done|]. intros l c' Hne Hin. apply Hg. intros l' Hl'. by eapply free_spec. }
    assert (Hs' : settled (w T :: T :: L) (publish (w T) s1)).
    { apply (settled_now (T :: L) (publish (w T) s1)). eapply settled_step; [by apply settled_now|done|apply H1']. }
    destruct Hc as [[-> ->]|[-> ->]]; (split; [by try apply respects_fault|]).
    + eapply Hok; [by apply committed_ok|exact Hw|done].
    + apply Hfail; [|by left]. apply settled_fault. eapply settled_less; [exact Hs'|]. intros T' Hin. by do 2 right.
  - split; [apply respects_refl|]. apply Hfail; [done|]. right. split; [done|].
    exists now, bytes, (committed s1). split; [by apply committed_ok|done].
Qed.

Lemma client_exec {A} q (k : reply (rows q) -> program A) L Q s : settled L s ->
  (forall now drawn T w r, table_ok T -> sql q now drawn T = Some (w, r) ->
    committable (locks_of q drawn T) T (w T)) ->
  (forall s1 now drawn T w r, table_ok T -> sql q now drawn T = Some (w, r) ->
    settled (w T :: T :: L) s1 -> wp c (k (inl r)) Q s1) ->
  (forall s1 err, settled L s1 -> wp c (k (inr err)) Q s1) ->
  wp c (Ask (Exec q) k) Q s.
Proof. intros Hs Hq Hok Hfail. apply (client_exec_errors _ _ L); auto. Qed.

Lemma client_get {A} key (k : reply (option Json) -> program A) L Q s : settled L s ->
  (forall s1 j, settled L s1 -> entry_ok (history s1) key j -> wp c (k (inl (Some j))) Q s1) ->
  (forall s1 r, settled L s1 -> (forall j, r <> inl (Some j)) -> wp c (k r) Q s1) ->
  wp c (Ask (RGet key) k) Q s.
Proof.
  intros Hs Hok Hno. eapply (wp_ask _ _ _ (settled L)); [apply settled_stable|exact Hs|].
  intros s1 f now bytes s2 a H1' Ha. unfold answer in Ha.
  destruct f; injection Ha as <- <-; (split; [apply respects_refl|]); try by apply Hno.
  destruct (kv s1 !! key) as [j|] eqn:Hj; [|by apply Hno]. apply Hok; [done|].
  by apply (sound_entries _ (settled_sound _ _ H1')).
Qed.

(** Only well-formed entries are stored; [P] is what makes this one well formed. *)
Lemma client_set {A} key j (k : option error -> program A) L Q s : settled L s ->
  (forall s1, settled L s1 -> entry_ok (history s1) key j) ->
  (forall s1 r, settled L s1 -> wp c (k r) Q s1) ->
  wp c (Ask (RSet key j) k) Q s.
Proof.
  intros Hs He Hk. eapply (wp_ask _ _ _ (settled L)); [apply settled_stable|exact Hs|].
  intros s1 f now bytes s2 a H1' Ha. unfold answer in Ha.
  assert (Hr : respects c s1 (set_kv (<[key := j]> (kv s1)) s1)).
  { apply respects_kv; [by apply H1'|]. intros key' j' [[<- <-]|[_ Hj]]%lookup_insert_Some; [by apply He|].
    by apply (sound_entries _ (settled_sound _ _ H1')). }
  destruct f; injection Ha as <- <-; (split; [first [exact Hr|apply respects_refl]|]); apply Hk; try done;
    (eapply settled_step; [exact H1'|exact Hr|apply H1']).
Qed.

Lemma client_del {A} key (k : option error -> program A) L Q s : settled L s ->
  (forall s1 r, settled L s1 -> wp c (k r) Q s1) -> wp c (Ask (RDel key) k) Q s.
Proof.
  intros Hs Hk. eapply (wp_ask _ _ _ (settled L)); [apply settled_stable|exact Hs|].
  intros s1 f now bytes s2 a H1' Ha. unfold answer in Ha.
  assert (Hr : respects c s1 (set_kv (delete key (kv s1)) s1)).
  { apply respects_kv; [by apply H1'|]. intros key' j' [_ Hj]%lookup_delete_Some.
    by apply (sound_entries _ (settled_sound _ _ H1')). }
  destruct f; injection Ha as <- <-; (split; [first [exact Hr|apply respects_refl]|]); apply Hk; try done;
    (eapply settled_step; [exact H1'|exact Hr|apply H1']).
Qed.

Lemma client_clock {A} (k : Time -> program A) L Q s : settled L s ->
  (forall s1 now, settled L s1 -> wp c (k now) Q s1) -> wp c (Ask Clock k) Q s.
Proof.
  intros Hs Hk. eapply (wp_ask _ _ _ (settled L)); [apply settled_stable|exact Hs|].
  intros s1 f now bytes s2 a H1' [= <- <-]. split; [apply respects_refl|]. by apply Hk.
Qed.

(** Calls that have nothing to do with the tables keep any stable assertion. *)
Lemma client_random_length {A} n (k : reply (list Z) -> program A) P Q s : stable c P -> P s ->
  (forall s1 bytes, P s1 -> length bytes = n -> wp c (k (inl bytes)) Q s1) ->
  (forall s1 err, P s1 -> wp c (k (inr err)) Q s1) -> wp c (Ask (RandomBytes n) k) Q s.
Proof.
  intros HP Hs Hk Hfail. eapply (wp_ask _ _ _ P); [exact HP|exact Hs|].
  intros s1 f now bytes s2 a H1' Ha. unfold answer in Ha.
  destruct f; [|injection Ha as <- <-; (split; [apply respects_refl|]); by apply Hfail..].
  destruct (Nat.leb_spec n (length bytes)) as [Hn|]; [|done]. injection Ha as <- <-.
  split; [apply respects_refl|]. apply Hk; [done|]. rewrite length_take. lia.
Qed.

Lemma client_random {A} n (k : reply (list Z) -> program A) P Q s : stable c P -> P s ->
  (forall s1 r, P s1 -> wp c (k r) Q s1) -> wp c (Ask (RandomBytes n) k) Q s.
Proof. intros HP Hs Hk. by apply (client_random_length n k P); [..|auto|auto]. Qed.

(** ** Transactions *)

Lemma client_begin {A} (k : option error -> program A) L Q s : settled L s ->
  (forall s1, pending [] (fun _ => True) eq s1 -> wp c (k None) Q s1) ->
  (forall s1 err, settled [] s1 -> wp c (k (Some err)) Q s1) ->
  wp c (Ask Begin k) Q s.
Proof.
  intros Hs Hok Hfail. eapply (wp_ask _ _ _ (settled L)); [apply settled_stable|exact Hs|].
  intros s1 f now bytes s2 a H1' Ha. unfold answer in Ha.
  assert (Hr : respects c s1 (set_open (<[c := []]> (open s1)) s1)).
  { apply respects_same; [apply open_sound|done|done|]. intros c' Hne. split; [|done].
    simpl. by rewrite lookup_insert_ne. }
  destruct f; injection Ha as <- <-.
  2-3: split; [apply respects_fault, respects_refl|]; apply Hfail, settled_fault;
    (eapply settled_less; [exact H1'|]); by intros ? ?%elem_of_nil.
  split; [exact Hr|]. apply Hok. constructor; [by apply open_sound, H1'|by apply H1'|done|].
  right. exists []. split_and!; [simpl; by rewrite lookup_insert_eq| |done|done]. by intros l ?%elem_of_nil.
Qed.

(** A transaction that the server has ended. *)
Lemma client_ended s s1 : Sound s -> history s0 `suffix_of` history s ->
  (s1 = s /\ open s !! c = None) \/ s1 = endTx c s \/ s1 = fault c (endTx c s) ->
  respects c s s1 /\ settled [] s1.
Proof.
  intros Hs Hh [[-> Ho]|[->| ->]].
  - split; [apply respects_refl|by apply settled_nil].
  - split; [apply respects_endTx|by apply settled_ended].
  - split; [apply respects_fault, respects_endTx|by apply settled_fault, settled_ended].
Qed.

Lemma client_tx {A} q (k : reply (rows q) -> program A) ls F E Q s : pending ls F E s ->
  (forall s1 now drawn T X w r, table_ok T -> F T -> E T X -> sql q now drawn X = Some (w, r) ->
    exists ls' F' E', (forall l, l ∈ ls' -> l ∈ ls \/ l ∈ locks_of q drawn X) /\ lasting ls' F' /\ F' T
      /\ (forall T' X', table_ok T' -> F' T' -> F T' /\ (E T' X' -> E' T' (w X')))
      /\ (pending ls' F' E' s1 -> wp c (k (inl r)) Q s1)) ->
  (forall s1 err, settled [] s1 -> wp c (k (inr err)) Q s1) ->
  wp c (Ask (TxExec q) k) Q s.
Proof.
  intros Hs Hok Hfail. eapply (wp_ask _ _ _ (pending ls F E)); [apply pending_stable|exact Hs|].
  intros s1 f now bytes s2 a [Hsd Hh Hlast Ho] Ha. unfold answer in Ha.
  assert (Hbad : forall s2 err, ((s2 = s1 /\ open s1 !! c = None) \/ s2 = endTx c s1 \/ s2 = fault c (endTx c s1)) ->
    respects c s1 s2 /\ wp c (k (inr err)) Q s2).
  { intros s3 err Hc. destruct (client_ended _ _ Hsd Hh Hc) as [Hr Hs3]. split; [done|by apply Hfail]. }
  destruct (open s1 !! c) as [pend|] eqn:Eo; [|injection Ha as <- <-; apply Hbad; by left].
  destruct f; [|injection Ha as <- <-; apply Hbad; by auto..].
  destruct (free (Nat.eqb c) _ s1) eqn:Hf; [|done]. cbn [negb] in Ha.
  set (X := replay pend (committed s1)) in *.
  destruct (sql q now bytes X) as [[w r]|] eqn:Hw; [|injection Ha as <- <-; apply Hbad; by auto].
  destruct Ho as [|(pend' & [= <-] & Hls & HF & HE)]; [done|]. injection Ha as <- <-.
  set (s2 := set_open _ _). assert (Hr : respects c s1 s2).
  { apply respects_same; [intros _; by apply open_sound, held_sound|done|done|]. intros c' Hne. split.
    - simpl. by rewrite lookup_insert_ne.
    - intros l Hl. simpl. apply elem_of_app. by right. }
  split; [exact Hr|]. destruct (Hr Hsd) as (Hsd2 & Hh2 & _).
  destruct (Hok s2 now bytes (committed s1) X w r) as (ls' & F' & E' & Hsub & Hlast' & HF' & HE' & Hk);
    [by apply committed_ok|done|apply HE; [by apply committed_ok|done]|exact Hw|].
  apply Hk. constructor; [done|by etrans|done|]. right. exists (pend ++ [w]). split_and!.
  - simpl. by rewrite lookup_insert_eq.
  - intros l Hl. simpl. apply elem_of_app. destruct (Hsub l Hl) as [Hin|Hin]; [right; by apply Hls|].
    left. apply list_elem_of_fmap. by exists l.
  - done.
  - intros T HT HFT. unfold replay. rewrite foldl_app. cbn [foldl]. destruct (HE' T (replay pend T) HT HFT) as [HF1 HE1].
    apply HE1. by apply HE.
Qed.

(** The commit of changes that keep the rules. *)
Lemma client_commit {A} (k : option error -> program A) ls F E Q s : pending ls F E s ->
  (forall T X, table_ok T -> F T -> E T X -> committable ls T X) ->
  (forall s1 T X, table_ok T -> F T -> E T X -> settled [X; T] s1 -> wp c (k None) Q s1) ->
  (forall s1 err, settled [] s1 -> wp c (k (Some err)) Q s1) ->
  wp c (Ask Commit k) Q s.
Proof.
  intros Hs Hcom Hok Hfail. eapply (wp_ask _ _ _ (pending ls F E)); [apply pending_stable|exact Hs|].
  intros s1 f now bytes s2 a [Hsd Hh Hlast Ho] Ha. unfold answer in Ha.
  destruct (open s1 !! c) as [pend|] eqn:Eo.
  2: { injection Ha as <- <-. split; [apply respects_refl|]. by apply Hfail, settled_nil. }
  destruct Ho as [|(pend' & [= <-] & Hls & HF & HE)]; [done|].
  set (T := committed s1) in *. set (X := replay pend T) in *.
  pose proof (committed_ok _ Hsd) as HT. pose proof (HE T HT HF) as HEX.
  destruct (Hcom T X HT HF HEX) as (HX & Hl & Hg).
  assert (Hr : respects c s1 (publish X (endTx c s1))).
  { apply respects_commit; [done|done|]. intros l c' Hne Hin. apply Hg. intros l' Hl'.
    eapply (sound_locks s1 Hsd); [exact Hin|by apply Hls|done]. }
  assert (Hs2 : settled [X; T] (publish X (endTx c s1))).
  { destruct (Hr Hsd) as (Hsd2 & Hh2 & _). constructor; [done|simpl; by rewrite lookup_delete_eq|by etrans|].
    constructor; [by apply (since_now (publish X (endTx c s1)))|]. constructor; [|done].
    eapply since_later; [exact Hh|exact Hh2|by apply since_now]. }
  assert (Hnil : forall L s, settled L s -> settled [] s).
  { intros L s' Hs'. eapply settled_less; [exact Hs'|]. by intros ? ?%elem_of_nil. }
  destruct f; injection Ha as <- <-.
  - split; [exact Hr|]. by apply (Hok _ T X).
  - split; [by apply respects_fault|]. by eapply Hfail, Hnil, settled_fault.
  - split; [apply respects_fault, respects_endTx|]. by apply Hfail, settled_fault, settled_ended.
Qed.

(** The rollback at the end: nothing after a commit. *)
Lemma client_rollback {A} (k : unit -> program A) L Q s : Sound s -> history s0 `suffix_of` history s ->
  Forall (since s) L -> (forall s1, settled L s1 -> wp c (k tt) Q s1) -> wp c (Ask Rollback k) Q s.
Proof.
  intros Hs Hh Hl Hk.
  eapply (wp_ask _ _ _ (fun s => Sound s /\ history s0 `suffix_of` history s /\ Forall (since s) L)); [|done|].
  - intros s1 s2 (H1' & H2' & H3') Hr. destruct (Hr H1') as (Hs' & Hh' & _). split_and!; [done|by etrans|].
    eapply Forall_impl; [exact H3'|]. intros T. by apply since_later.
  - intros s1 f now bytes s2 [] (H1' & H2' & H3') Ha. unfold answer in Ha. injection Ha as <-.
    split; [apply respects_endTx|]. by apply Hk, settled_ended.
Qed.

Lemma pending_ends ls F E s : pending ls F E s -> Sound s /\ history s0 `suffix_of` history s.
Proof. by intros [? ? ? ?]. Qed.

Lemma settled_ends L s : settled L s -> Sound s /\ history s0 `suffix_of` history s.
Proof. by intros [? ? ? ?]. Qed.
(** ** How an operation ends

    [V] speaks of its answer and of tables that were committed while it ran. *)
Definition ended {A} (V : A -> list tables -> Prop) (a : A) (s : state) : Prop :=
  exists L, Sound s /\ history s0 `suffix_of` history s /\ Forall (since s) L /\ V a L.

Definition over {A} (V : A -> list tables -> Prop) (a : A) (s : state) : Prop :=
  exists L, settled L s /\ V a L.

Lemma ended_settled {A} (V : A -> list tables -> Prop) a L s : settled L s -> V a L -> ended V a s.
Proof. intros [? ? ? ?] HV. by exists L. Qed.

Lemma ended_pending {A} (V : A -> list tables -> Prop) a ls F E s : pending ls F E s -> V a [] -> ended V a s.
Proof. intros [? ? ? ?] HV. by exists []. Qed.

Lemma wp_of_transaction {A} (body : program (reply A)) V L s : settled L s -> (forall err, V (inr err) []) ->
  (forall s1, pending [] (fun _ => True) eq s1 -> wp c body (ended V) s1) -> wp c (transaction body) (over V) s.
Proof.
  intros Hs HV Hb. unfold transaction. apply (client_begin _ L); [exact Hs| |].
  2: { intros s1 err Hs1. exists []. split; [done|apply HV]. }
  intros s1 Hs1. apply wp_bind. eapply wp_mono; [|by apply Hb]. intros a s2 (L2 & Hsd & Hh & Hl & Hv).
  apply (client_rollback _ L2); [done..|]. intros s3 Hs3. by exists L2.
Qed.

Lemma over_stable {A} (V : A -> list tables -> Prop) a : stable c (over V a).
Proof. intros s s' (L & Hs & HV) Hr. exists L. split; [by eapply settled_stable|done]. Qed.

Lemma over_settled {A} (V : A -> list tables -> Prop) a s : over V a s -> open s !! c = None.
Proof. intros (L & Hs & _). apply Hs. Qed.
End Client.

(** ** Runs *)

Section Runs.
Context `{Rules} `{!Database}.

Lemma start_sound T : table_ok T -> Sound (start T).
Proof.
  intros HT. constructor; simpl; [done|by constructor|by repeat constructor|done|]. by intros l c l' c' ?%elem_of_nil.
Qed.

(** Programs that may start in any state. *)
Definition client (c : nat) (p : program unit) : Prop :=
  forall s0, Sound s0 -> open s0 !! c = None -> wp c p (fun _ _ => True) s0.

Lemma over_client {A} c (p : program A) V :
  (forall s0, settled c s0 [] s0 -> wp c p (over c s0 V) s0) -> client c (p ≫= fun _ => Return tt).
Proof.
  intros Hp s0 Hs Ho. apply wp_bind. eapply wp_mono; [|apply Hp; by constructor]. done.
Qed.

#[local] Existing Instance Rel_preorder.

(** What every configuration that clients can reach satisfies. *)
Record reachable (x : pool * state) : Prop := {
  reachable_sound : Sound x.2;
  reachable_disciplined : disciplined x;
  reachable_absent c : x.1 !! c = None -> open x.2 !! c = None
}.

Lemma reachable_start ts T : (forall c p, ts !! c = Some p -> client c p) -> table_ok T -> reachable (ts, start T).
Proof.
  intros Hts HT. constructor; [by apply start_sound| |done].
  intros c p Hp. exact (Hts c p Hp (start T) (start_sound T HT) (lookup_empty c)).
Qed.

Lemma between_expects c s s' : between s s' -> expects c s s'.
Proof. exact (Rel_between c s s'). Qed.

Lemma reachable_step x y : reachable x -> pstep x y -> reachable y /\ history x.2 `suffix_of` history y.2.
Proof.
  intros [Hs Hd Ha] Hst. pose proof (disciplined_step x y Hd Hst) as Hd'.
  destruct Hst as [c o k ts s s' a Hc Hserve|ts s s' Hb]; simpl in *.
  - destruct (Hd c _ Hc s (reflexivity s) _ _ Hserve) as [Hg _]. destruct (Hg Hs) as (Hs' & Hh & Ho).
    split; [|done]. constructor; [done|done|]. simpl. intros c' [Hc' Hne]%lookup_insert_None.
    destruct (Ho c') as [E _]; [done|]. exact (eq_trans E (Ha c' Hc')).
  - split; [|by destruct (between_expects 0%nat _ _ Hb Hs) as (? & ? & _)]. constructor; [|done|]; simpl.
    + by destruct (between_expects 0%nat _ _ Hb Hs).
    + intros c Hc. destruct (between_expects c _ _ Hb Hs) as (_ & _ & [E|[E _]]); [exact E|exact (eq_trans E (Ha c Hc))].
Qed.

Lemma reachable_steps x y : reachable x -> rtc pstep x y -> reachable y /\ history x.2 `suffix_of` history y.2.
Proof.
  intros Hx Hr. induction Hr as [x|x y z Hs _ IH]; [done|].
  destruct (reachable_step x y Hx Hs) as [Hy Hh]. destruct (IH Hy) as [Hz Hh']. split; [done|by etrans].
Qed.

(** What was committed since [s0] is later than what was then. *)
Lemma since_after s0 s T : Sound s0 -> Sound s -> history s0 `suffix_of` history s -> since s0 s T ->
  later (committed s0) T.
Proof.
  intros H0' Hs [h Hh] Hin. unfold since in Hin. pose proof (sound_later s Hs) as Hl. pose proof (sound_now s0 H0') as Hn.
  rewrite Hh in Hin, Hl. destruct (history s0) as [|T1 h0]; [done|]. injection Hn as ->. cbn [length] in Hin.
  rewrite length_app in Hin. cbn [length] in Hin.
  replace (S (length h + S (length h0) - S (length h0)))%nat with (length h + 1)%nat in Hin by lia.
  rewrite take_app_add in Hin. apply elem_of_app in Hin as [Hin|Hin].
  - clear -Hl Hin. induction h as [|T2 h IH]; [by apply elem_of_nil in Hin|]. cbn in Hl.
    apply StronglySorted_inv in Hl as [Hl Hall]. apply elem_of_cons in Hin as [->|Hin]; [|by apply IH].
    apply (proj1 (Forall_forall _ _) Hall). apply elem_of_app. right. left.
  - cbn in Hin. apply list_elem_of_singleton in Hin as ->. reflexivity.
Qed.

(** The same while the client [c] is in a call. *)
Record reachable_but (c : nat) (x : pool * state) : Prop := {
  but_sound : Sound x.2;
  but_disciplined : disciplined x;
  but_self : x.1 !! c = None;
  but_absent c' : c' <> c -> x.1 !! c' = None -> open x.2 !! c' = None
}.

Lemma but_step c x y : reachable_but c x -> pstep x y -> reachable_but c y /\ history x.2 `suffix_of` history y.2 /\ Rel c x.2 y.2.
Proof.
  intros [Hs Hd Hc Ha] Hst. pose proof (disciplined_step x y Hd Hst) as Hd'.
  destruct Hst as [c1 o k ts s s' a Hc1 Hserve|ts s s' Hb]; simpl in *.
  - destruct (Hd c1 _ Hc1 s (reflexivity s) _ _ Hserve) as [Hg _]. destruct (Hg Hs) as (Hs' & Hh & Ho).
    assert (Hne : c1 <> c) by (intros ->; congruence).
    split_and!; [|done|exact (Rel_others c c1 s s' Hne Hg)]. constructor; [done|done|simpl; by rewrite lookup_insert_ne|].
    simpl. intros c' Hne' [Hc' Hn]%lookup_insert_None. destruct (Ho c') as [E _]; [done|]. exact (eq_trans E (Ha c' Hne' Hc')).
  - destruct (between_expects 0%nat _ _ Hb Hs) as (Hs' & Hh & _). split_and!; [|done|exact (Rel_between c s s' Hb)].
    constructor; [done|done|done|]. simpl. intros c' Hne' Hc'.
    destruct (between_expects c' _ _ Hb Hs) as (_ & _ & [E|[E _]]); [exact E|exact (eq_trans E (Ha c' Hne' Hc'))].
Qed.

Lemma but_own c o (ts : pool) s s' b : reachable_but c (ts, s) -> serve c o s s' b -> G c s s' ->
  reachable_but c (ts, s') /\ history s `suffix_of` history s'.
Proof.
  intros [Hs Hd Hc Ha] Hserve Hg. destruct (Hg Hs) as (Hs' & Hh & Ho). simpl in *. split; [|done].
  constructor; [done| |done|].
  - intros c' p Hp. simpl in *. assert (Hne : c' <> c) by (intros ->; congruence).
    eapply wp_rely; [done|by apply (Hd c' p)|by eapply Rel_others].
  - simpl. intros c' Hne Hc'. destruct (Ho c' Hne) as [E _]. exact (eq_trans E (Ha c' Hne Hc')).
Qed.

Lemma runs_keep {A} c x (p : program A) y a (Q : A -> state -> Prop) : runs c x p y a ->
  (forall a, stable c (Q a)) -> reachable_but c x -> wp c p Q x.2 ->
  Q a y.2 /\ reachable_but c y /\ history x.2 `suffix_of` history y.2.
Proof.
  intros Hr HQ. induction Hr as [x a|x x' p y a Hst _ IH|ts s s' o k b y a Hserve _ IH]; intros Hx Hw.
  - done.
  - destruct (but_step c x x' Hx Hst) as (Hx' & Hh & Hrel).
    destruct IH as (? & ? & ?); [done|by eapply wp_rely|]. split_and!; [done|done|by etrans].
  - destruct (Hw s (reflexivity s) s' b Hserve) as [Hg Hk].
    destruct (but_own c o ts s s' b Hx Hserve Hg) as [Hx' Hh].
    destruct IH as (? & ? & ?); [done|done|]. split_and!; [done|done|by etrans].
Qed.

(** A call of a client that takes part in nothing else: it ends as its specification says. *)
Lemma runs_ends {A} c x (p : program A) y a (Q : A -> state -> Prop) : reachable x -> x.1 !! c = None ->
  (forall a, stable c (Q a)) -> (settled c x.2 [] x.2 -> wp c p Q x.2) ->
  (forall a s, Q a s -> open s !! c = None) -> runs c x p y a ->
  Q a y.2 /\ reachable y /\ history x.2 `suffix_of` history y.2.
Proof.
  intros [Hs Hd Ha] Hc HQ Hw Hend Hr.
  assert (H0' : settled c x.2 [] x.2) by (constructor; [done|by apply Ha|done|done]).
  destruct (runs_keep c x p y a Q Hr HQ) as (HQa & [Hs' Hd' Hc' Ha'] & Hh); [by constructor; auto|by apply Hw|].
  split_and!; [done| |done]. constructor; [done|done|]. intros c' Hn.
  destruct (decide (c' = c)) as [->|Hne]; [by eapply Hend|by apply Ha'].
Qed.
End Runs.
