(* ===== verification/CredentialsSafety.v ===== *)
(** What holds of the credentials, whatever calls of the service run at the same time.

    [row_ok]: a row holds a key and a secret sealed for its exchange under one master key, and
    shows the last characters and the fingerprint of that key.  Rows may have been sealed under
    other master keys, or hold anything: what is shown of reading them says so.  No row
    disappears or changes its exchange; a row that is read FOR UPDATE stays as it is until the
    transaction ends. *)
From S2P Require Import Prelude Domain Json World Sha256 Wire Shared Commits Password AesGcm Credentials.
Import AesGcm Credentials.

Open Scope string_scope.
Open Scope list_scope.
Open Scope Z_scope.

Module CredentialsSafety.

(** ** Sealed texts *)

Definition sealed (key cipher : list Z) (aad value : string) : Prop :=
  exists nonce, length nonce = NonceSize /\ cipher = nonce ++ Seal key nonce (bytes_of value) (bytes_of aad).

Lemma string_of_bytes s : string_of (bytes_of s) = s.
Proof.
  induction s as [|c s IH]; [done|]. cbn [bytes_of string_of foldr]. fold (string_of (bytes_of s)).
  by rewrite IH, N2Z.id, ascii_N_embedding.
Qed.

Lemma decrypt_sealed key cipher aad value : sealed key cipher aad value ->
  decrypt (MkService key) cipher aad = inl value.
Proof.
  intros (nonce & Hn & ->). unfold decrypt. rewrite length_app, Hn.
  replace (_ <? _)%nat with false by (symmetry; apply Nat.ltb_ge; lia).
  rewrite take_app_length', drop_app_length' by done. cbn [master]. by rewrite Open_Seal, string_of_bytes.
Qed.

(** ** Rows *)

Definition key_aad (row : Credential) : string := c_VenueType row +:+ ":api-key".
Definition secret_aad (row : Credential) : string := c_VenueType row +:+ ":api-secret".

(** [row] holds the key and the secret [x]. *)
Record stores (key : list Z) (row : Credential) (x : Secret) : Prop := {
  stores_key : sealed key (c_KeyCipher row) (key_aad row) (APIKey x);
  stores_secret : sealed key (c_SecretCipher row) (secret_aad row) (APISecret x);
  stores_last4 : c_Last4 row = last4 (APIKey x);
  stores_fingerprint : c_Fingerprint row = fingerprint (APIKey x);
  stores_nonempty : APIKey x <> "" /\ APISecret x <> ""
}.

Definition row_ok (key : list Z) (row : Credential) : Prop := exists x, stores key row x.

Lemma stores_unique key row x y : stores key row x -> stores key row y -> x = y.
Proof.
  intros [Kx Sx _ _ _] [Ky Sy _ _ _]. pose proof (decrypt_sealed _ _ _ _ Kx) as E1.
  pose proof (decrypt_sealed _ _ _ _ Sx) as E2. rewrite (decrypt_sealed _ _ _ _ Ky) in E1. rewrite (decrypt_sealed _ _ _ _ Sy) in E2.
  destruct x, y. simpl in *. congruence.
Qed.

Definition rows_ok (key : list Z) (T : Tables) : Prop :=
  forall i row, credential i T = Some row -> row_ok key row.

Definition kept (T T' : Tables) : Prop := forall i row, credential i T = Some row ->
  exists row', credential i T' = Some row' /\ c_VenueType row' = c_VenueType row.

#[export] Instance kept_preorder : PreOrder kept.
Proof.
  split; [intros T i row E; by exists row|]. intros T1 T2 T3 H12 H23 i row E.
  destruct (H12 i row E) as (row2 & E2 & V2). destruct (H23 i row2 E2) as (row3 & E3 & V3).
  exists row3. split; [done|congruence].
Qed.

Definition row_guard (l : Lock) (T T' : Tables) : Prop :=
  match l with RowLock i => credential i T' = credential i T | NameEntry _ => True end.

Section Rules.
(** What is kept of every row: [row_ok key] where all processes have the same master key,
    nothing where they may differ. *)
Context (good : Credential -> Prop).

Definition all_good (T : Tables) : Prop := forall i row, credential i T = Some row -> good row.

#[export, program] Instance credential_rules : Rules := {|
  table_ok := all_good; later := kept; entry_ok := fun _ _ _ => True; guarded := row_guard
|}.
Next Obligation. done. Qed.
Next Obligation. intros [i|name]; split; cbn; try done. intros T1 T2 T3; cbn; congruence. Qed.
Next Obligation. intros a b. cbn. by apply bool_decide_ext. Qed.

(** ** Changes of the table *)

Lemma credential_id i T row : credential i T = Some row -> c_ID row = i.
Proof. intros [_ E%Z.eqb_eq]%find_some. done. Qed.

Lemma credential_new i T row : credential (c_ID row) T = None ->
  credential i (set_credentials (venue_credentials T ++ [row]) T)
  = if decide (i = c_ID row) then Some row else credential i T.
Proof.
  unfold credential. cbn [venue_credentials set_credentials]. intros Hn. induction (venue_credentials T) as [|x l IH]; cbn in *.
  - destruct (Z.eqb_spec (c_ID row) i) as [<-|Hne]; [by rewrite decide_True|by rewrite decide_False].
  - destruct (Z.eqb_spec (c_ID x) (c_ID row)) as [|Hx]; [done|]. specialize (IH Hn).
    destruct (Z.eqb_spec (c_ID x) i) as [E|]; [|done]. rewrite decide_False; [done|]. congruence.
Qed.

Lemma credential_update i j f T : (forall row, c_ID (f row) = c_ID row) ->
  credential j (update_row i f T) = (fun row => if decide (j = i) then f row else row) <$> credential j T.
Proof.
  intros Hf. unfold credential, update_row. cbn [venue_credentials set_credentials].
  induction (venue_credentials T) as [|x l IH]; [done|]. cbn.
  destruct (Z.eqb_spec (c_ID x) i) as [Hi|Hi]; rewrite ?Hf; (destruct (Z.eqb_spec (c_ID x) j) as [Hj|Hj]; [|exact IH]).
  - cbn. by rewrite decide_True by congruence.
  - cbn. by rewrite decide_False by congruence.
Qed.

Lemma serial_fresh drawn T n : serial drawn T = Some n -> credential n T = None.
Proof.
  unfold serial. intros (m & _ & H)%bind_Some. destruct (_ && _) eqn:E; [|done]. injection H as ->.
  apply andb_prop in E as [_ E]. apply negb_true_iff in E. unfold credential.
  destruct (find _ _) as [row|] eqn:Ef; [|done]. apply find_some in Ef. exfalso. rewrite <- not_true_iff_false in E. apply E.
  apply existsb_exists. by exists row.
Qed.

(** An insertion may be committed at once. *)
Lemma insert_committable name venueType kc sc last fprint user now drawn T w r :
  all_good T -> (forall n, good (MkCredential n name venueType kc sc last fprint true user user now now)) ->
  run_query (InsertCredential name venueType kc sc last fprint user) now drawn T = Some (w, r) ->
  committable (query_locks (InsertCredential name venueType kc sc last fprint user) drawn T) T (w T).
Proof.
  intros HT Hrow Hq. cbn in Hq. destruct (serial drawn T) as [n|] eqn:En; [|done]. cbn in Hq.
  destruct (_ || _); [done|]. injection Hq as <- <-. set (row := MkCredential n _ _ _ _ _ _ _ _ _ _ _).
  pose proof (serial_fresh _ _ _ En) as Hf.
  assert (Hc := fun i => credential_new i T row Hf). cbv beta. split_and!.
  - intros i x. rewrite Hc. case_decide; [|by apply HT]. intros [= <-]. apply Hrow.
  - intros i x E. exists x. rewrite Hc. split; [|done]. case_decide as Hi; [|done]. subst. unfold row in E. cbn in E. congruence.
  - intros [i|m] Hl; [|done]. cbn [guarded credential_rules row_guard]. rewrite Hc. case_decide as Hi; [|done]. exfalso. subst i. unfold serial in En.
    destruct drawn as [|d drawn]; [done|]. cbn in En. destruct (_ && _); [|done]. injection En as ->.
    specialize (Hl (RowLock n)). cbn in Hl. rewrite bool_decide_true in Hl by done. discriminate Hl. by do 2 constructor.
Qed.

(** A change of one row, under its lock. *)
Lemma update_committable i f T ls row :
  all_good T -> credential i T = Some row -> RowLock i ∈ ls ->
  (forall r, c_ID (f r) = c_ID r /\ c_VenueType (f r) = c_VenueType r) -> good (f row) ->
  committable ls T (update_row i f T).
Proof.
  intros HT E Hin Hf Hrow. assert (Hc := fun j => credential_update i j f T (fun r => proj1 (Hf r))). split_and!.
  - intros j x. rewrite Hc. intros (y & Ey & ->)%fmap_Some. case_decide; [|by eapply HT]. subst. congruence.
  - intros j x Ex. rewrite Hc, Ex. cbn. eexists. split; [done|]. case_decide; [apply Hf|done].
  - intros [j|m] Hl; [|done]. cbn [guarded credential_rules row_guard]. rewrite Hc. case_decide as Hj; [|by destruct (credential j T)].
    subst j. specialize (Hl _ Hin). cbn in Hl. by rewrite bool_decide_true in Hl.
Qed.
(** ** Calls *)

Context `{!Database} (key : list Z) (c : nat) (s0 : state).
Context (Hgood : forall row, row_ok key row -> good row).
Abbreviation settled := (settled c s0).
Abbreviation pending := (pending c s0).
Abbreviation over := (over c s0).
Abbreviation ended := (ended s0).
Abbreviation service := (MkService key).

Lemma wp_encrypt {A} value aad (k : reply (list Z) -> program A) P Q s : stable c P -> P s ->
  (forall s1 cipher, P s1 -> sealed key cipher aad value -> wp c (k (inl cipher)) Q s1) ->
  (forall s1 err, P s1 -> wp c (k (inr err)) Q s1) -> wp c (encrypt service value aad ≫= k) Q s.
Proof.
  intros HP Hs Hok Hfail. apply (client_random_length c _ _ P); [done|done| |done].
  intros s1 nonce H1 Hn. apply Hok; [done|]. by exists nonce.
Qed.

Definition whatever {A} (a : A) (L : list Tables) : Prop := True.

(** A call that stores [key] in a new row. *)
Definition created (venueType apiKey apiSecret : string) (r : reply Metadata) (L : list Tables) : Prop :=
  forall item, r = inl item -> exists T row, T ∈ L /\ credential (m_ID item) T = Some row /\ metadata row = item
    /\ c_Enabled row = true /\ c_VenueType row = ToLower (TrimSpace venueType)
    /\ stores key row (MkSecret (TrimSpace apiKey) apiSecret).

Lemma wp_Create name venueType apiKey apiSecret userID L s : settled L s ->
  wp c (Create service name venueType apiKey apiSecret userID) (over (created venueType apiKey apiSecret)) s.
Proof.
  intros Hs. unfold Create.
  assert (Hend : forall L' s1 err, settled L' s1 -> over (created venueType apiKey apiSecret) (inr err) s1)
    by by intros L' s1 err Hs1; exists L'.
  destruct (_ || _) eqn:Eg; [by eapply Hend|]. repeat rewrite orb_false_iff in Eg. destruct Eg as [[[_ _] Ek] Es].
  apply String.eqb_neq in Ek, Es.
  eapply wp_encrypt; [apply settled_stable|exact Hs| |by eapply Hend]. intros s1 kc Hs1 Hkc.
  eapply wp_encrypt; [apply settled_stable|exact Hs1| |by eapply Hend]. intros s2 sc Hs2 Hsc.
  assert (Hrow : forall n user now, stores key (MkCredential n (TrimSpace name) (ToLower (TrimSpace venueType)) kc sc
    (last4 (TrimSpace apiKey)) (fingerprint (TrimSpace apiKey)) true user user now now) (MkSecret (TrimSpace apiKey) apiSecret))
    by by constructor.
  apply (client_exec c s0 (InsertCredential _ _ _ _ _ _ _) _ L); [exact Hs2| | |intros; by eapply Hend].
  - intros now drawn T w r HT Hq. eapply insert_committable; [done| |exact Hq]. intros n. apply Hgood. by eexists.
  - intros s3 now drawn T w r HT Hq Hs3. eexists. split; [exact Hs3|]. intros item [= <-].
    cbn in Hq. destruct (serial drawn T) as [n|] eqn:En; [|done]. cbn in Hq. destruct (_ || _); [done|]. injection Hq as <- <-.
    eexists _, _. split; [by left|]. split; [|done]. cbn [m_ID metadata c_ID].
    rewrite credential_new by (by eapply serial_fresh). by rewrite decide_True.
Qed.

(** The row after an update, given the one before it. *)
Definition merged (row row' : Credential) (x : Secret) (name apiKey apiSecret : string) (enabled : option bool) : Prop :=
  c_ID row' = c_ID row /\ c_VenueType row' = c_VenueType row
  /\ c_Name row' = TrimSpace (if String.eqb (TrimSpace name) "" then c_Name row else name)
  /\ c_Enabled row' = default (c_Enabled row) enabled
  /\ stores key row' (MkSecret (if String.eqb (TrimSpace apiKey) "" then APIKey x else TrimSpace apiKey)
                               (if String.eqb apiSecret "" then APISecret x else apiSecret)).

(** A call that changed the row [i] and nothing else in one step. *)
Definition updated (i : Z) (name apiKey apiSecret : string) (enabled : option bool) (r : reply Metadata) (L : list Tables) : Prop :=
  forall item, r = inl item -> exists T X row row' x, T ∈ L /\ X ∈ L
    /\ credential i T = Some row /\ stores key row x
    /\ credential i X = Some row' /\ metadata row' = item
    /\ merged row row' x name apiKey apiSecret enabled
    /\ forall j, j <> i -> credential j X = credential j T.
Definition keyOf (x : Secret) (apiKey : string) : string := if String.eqb (TrimSpace apiKey) "" then APIKey x else TrimSpace apiKey.
Definition secretOf (x : Secret) (apiSecret : string) : string := if String.eqb apiSecret "" then APISecret x else apiSecret.

Lemma wp_newKey {A} row x apiKey (k : reply (list Z * string * string) -> program A) P Q s :
  stores key row x -> stable c P -> P s ->
  (forall s1 cipher, P s1 -> sealed key cipher (key_aad row) (keyOf x apiKey) ->
    wp c (k (inl (cipher, last4 (keyOf x apiKey), fingerprint (keyOf x apiKey)))) Q s1) ->
  (forall s1 err, P s1 -> wp c (k (inr err)) Q s1) -> wp c (newKey service row apiKey ≫= k) Q s.
Proof.
  intros [Hk _ Hl Hf _] HP Hs Hok Hfail. unfold newKey, keyOf in *. destruct (String.eqb _ ""); [rewrite Hl, Hf; by apply Hok|].
  unfold orFail at 1. apply wp_bind. eapply wp_encrypt; [exact HP|exact Hs| |exact Hfail]. intros s1 cipher H1 Hc. by apply Hok.
Qed.

Lemma wp_newSecret {A} row x apiSecret (k : reply (list Z) -> program A) P Q s :
  stores key row x -> stable c P -> P s ->
  (forall s1 cipher, P s1 -> sealed key cipher (secret_aad row) (secretOf x apiSecret) -> wp c (k (inl cipher)) Q s1) ->
  (forall s1 err, P s1 -> wp c (k (inr err)) Q s1) -> wp c (newSecret service row apiSecret ≫= k) Q s.
Proof.
  intros [_ Hs' _ _ _] HP Hs Hok Hfail. unfold newSecret, secretOf in *. destruct (String.eqb _ ""); [by apply Hok|].
  by eapply wp_encrypt.
Qed.

Lemma stores_changed row x apiKey apiSecret name kc sc enabled user now :
  stores key row x -> sealed key kc (key_aad row) (keyOf x apiKey) -> sealed key sc (secret_aad row) (secretOf x apiSecret) ->
  stores key (changed (MkChange name kc sc (last4 (keyOf x apiKey)) (fingerprint (keyOf x apiKey)) enabled user) now row)
    (MkSecret (keyOf x apiKey) (secretOf x apiSecret)).
Proof.
  intros [_ _ _ _ [H1 H2]] Hk Hs. constructor; try done. cbn. unfold keyOf, secretOf.
  destruct (String.eqb_spec (TrimSpace apiKey) ""), (String.eqb_spec apiSecret ""); done.
Qed.

Lemma wp_Update i name apiKey apiSecret enabled userID L s : (forall row, good row -> row_ok key row) -> settled L s ->
  wp c (Update service i name apiKey apiSecret enabled userID) (over (updated i name apiKey apiSecret enabled)) s.
Proof.
  intros Hsealed Hs. unfold Update. set (V := updated i name apiKey apiSecret enabled).
  assert (Hfail : forall err, V (inr err) []) by (intros err item [=]).
  assert (Hend : forall s1 err, settled [] s1 -> ended V (inr err) s1) by (intros; by eapply ended_settled).
  assert (Hpend : forall ls F E s1 err, pending ls F E s1 -> ended V (inr err) s1) by (intros; by eapply ended_pending).
  eapply wp_of_transaction; [exact Hs|done|]. intros s1 Hs1.
  apply (client_tx c s0 (SelectForUpdate i) _ [] (fun _ => True) eq); [exact Hs1| |done].
  intros s2 now drawn T X w r HT _ <- [= <- <-]. cbn [orFail].
  set (F := fun T' : Tables => credential i T' = credential i T).
  exists [RowLock i], F, eq. split_and!; [by right|..]; try done.
  { intros T1 T2 _ _ E1 _ Hg. unfold F in *. rewrite <- E1. apply (Hg (RowLock i)). by left. }
  intros Hs2. destruct (credential i T) as [row|] eqn:Erow; [|by eapply Hpend].
  destruct (Hsealed row (HT i row Erow)) as [x Hx].
  eapply (wp_newKey row x); [done|apply pending_stable|exact Hs2| |intros; by eapply Hpend]. intros s3 kc Hs3 Hkc. cbn [orFail].
  eapply (wp_newSecret row x); [done|apply pending_stable|exact Hs3| |intros; by eapply Hpend]. intros s4 sc Hs4 Hsc. cbn [orFail].
  set (ch := MkChange _ _ _ _ _ _ _).
  apply (client_tx c s0 (UpdateCredential ch i) _ [RowLock i] F eq); [exact Hs4| |done].
  intros s5 now' drawn' T' X w r HT' HF' <- Hq. cbn in Hq. destruct (_ || _); [done|]. injection Hq as <- <-.
  exists [RowLock i], F, (fun T X => X = update_row i (changed ch now') T). split_and!; [by left|apply Hs4|done| |].
  { intros T2 X2 _ HF2. split; [done|]. by intros <-. }
  intros Hs5. rewrite HF'. cbn [fmap option_fmap option_map orFail].
  assert (Hnew : stores key (changed ch now' row) (MkSecret (keyOf x apiKey) (secretOf x apiSecret))) by by apply stores_changed.
  unfold commit, checked, orFail. apply wp_bind, wp_bind.
  apply (client_commit c s0 _ [RowLock i] F (fun T X => X = update_row i (changed ch now') T)); [exact Hs5| | |done].
  - intros T1 X1 HT1 HF1 ->. eapply (update_committable i _ T1 _ row); [done|by rewrite HF1|by left|done|apply Hgood; by eexists].
  - intros s6 T1 X1 HT1 HF1 -> Hs6. eapply ended_settled; [exact Hs6|]. intros item [= <-].
    eexists T1, _, row, (changed ch now' row), x. split_and!; [right; by left|by left|by rewrite HF1|done| |done| |].
    + rewrite credential_update, HF1 by done. cbn. by rewrite decide_True.
    + by split_and!.
    + intros j Hj. rewrite credential_update by done. destruct (credential j T1); [|done]. cbn. by rewrite decide_False.
Qed.

(** What is left of it where the rows may hold anything. *)
Lemma wp_newKey_any {A} row apiKey (k : reply (list Z * string * string) -> program A) P Q s : stable c P -> P s ->
  (forall s1 r, P s1 -> wp c (k r) Q s1) -> wp c (newKey service row apiKey ≫= k) Q s.
Proof.
  intros HP Hs Hk. unfold newKey. destruct (String.eqb _ ""); [by apply Hk|].
  unfold orFail at 1. apply wp_bind. eapply wp_encrypt; [exact HP|exact Hs|intros; by apply Hk..].
Qed.

Lemma wp_newSecret_any {A} row apiSecret (k : reply (list Z) -> program A) P Q s : stable c P -> P s ->
  (forall s1 r, P s1 -> wp c (k r) Q s1) -> wp c (newSecret service row apiSecret ≫= k) Q s.
Proof.
  intros HP Hs Hk. unfold newSecret. destruct (String.eqb _ ""); [by apply Hk|].
  eapply wp_encrypt; [exact HP|exact Hs|intros; by apply Hk..].
Qed.

Lemma wp_Update_any i name apiKey apiSecret enabled userID L s : (forall row, good row) -> settled L s ->
  wp c (Update service i name apiKey apiSecret enabled userID) (over whatever) s.
Proof.
  intros Hany Hs. unfold Update.
  assert (Hend : forall L s1 r, settled L s1 -> ended (@whatever (reply Metadata)) r s1) by (intros; by eapply ended_settled).
  assert (Hpend : forall ls F E s1 r, pending ls F E s1 -> ended (@whatever (reply Metadata)) r s1) by (intros; by eapply ended_pending).
  eapply wp_of_transaction; [exact Hs|done|]. intros s1 Hs1.
  apply (client_tx c s0 (SelectForUpdate i) _ [] (fun _ => True) eq); [exact Hs1| |intros; by eapply Hend].
  intros s2 now drawn T X w r HT _ <- [= <- <-]. cbn [orFail].
  set (F := fun T' : Tables => credential i T' = credential i T).
  exists [RowLock i], F, eq. split_and!; [by right|..]; try done.
  { intros T1 T2 _ _ E1 _ Hg. unfold F in *. rewrite <- E1. apply (Hg (RowLock i)). by left. }
  intros Hs2. destruct (credential i T) as [row|] eqn:Erow; [|by eapply Hpend].
  eapply wp_newKey_any; [apply pending_stable|exact Hs2|]. intros s3 [[[kc last] fp]|err] Hs3; [|by eapply Hpend]. cbn [orFail].
  eapply wp_newSecret_any; [apply pending_stable|exact Hs3|]. intros s4 [sc|err] Hs4; [|by eapply Hpend]. cbn [orFail].
  set (ch := MkChange _ _ _ _ _ _ _).
  apply (client_tx c s0 (UpdateCredential ch i) _ [RowLock i] F eq); [exact Hs4| |intros; by eapply Hend].
  intros s5 now' drawn' T' X w r HT' HF' <- Hq. cbn in Hq. destruct (_ || _); [done|]. injection Hq as <- <-.
  exists [RowLock i], F, (fun T X => X = update_row i (changed ch now') T). split_and!; [by left|apply Hs4|done| |].
  { intros T2 X2 _ HF2. split; [done|]. by intros <-. }
  intros Hs5. rewrite HF'. cbn [fmap option_fmap option_map orFail].
  unfold commit, checked, orFail. apply wp_bind, wp_bind.
  apply (client_commit c s0 _ [RowLock i] F (fun T X => X = update_row i (changed ch now') T)); [exact Hs5| | |intros; by eapply Hend].
  - intros T1 X1 HT1 HF1 ->. eapply (update_committable i _ T1 _ row); [done|by rewrite HF1|by left|done|apply Hany].
  - intros s6 T1 X1 HT1 HF1 -> Hs6. by eapply Hend.
Qed.

(** What a call that reads a credential answers, of tables since it began. *)
Definition refusal (i : Z) (expected : string) (err : error) (T : Tables) : Prop :=
  match credential i T with
  | None => err = notFound i
  | Some row => if c_Enabled row then c_VenueType row <> expected /\ err = foreign i (c_VenueType row) expected
                else err = disabled i
  end.

(** [row] decrypts under the master key to [x], or fails to with [err]. *)
Definition opens (row : Credential) (x : Secret) : Prop :=
  decrypt service (c_KeyCipher row) (key_aad row) = inl (APIKey x)
  /\ decrypt service (c_SecretCipher row) (secret_aad row) = inl (APISecret x).
Definition unreadable (row : Credential) (err : error) : Prop :=
  decrypt service (c_KeyCipher row) (key_aad row) = inr err
  \/ decrypt service (c_SecretCipher row) (secret_aad row) = inr err.

Lemma opens_stored row x y : opens row x -> stores key row y -> y = x.
Proof.
  intros [Ek Es] [Hk Hs _ _ _]. rewrite (decrypt_sealed _ _ _ _ Hk) in Ek. rewrite (decrypt_sealed _ _ _ _ Hs) in Es.
  destruct x, y. cbn in *. congruence.
Qed.

Lemma unreadable_foreign row err : unreadable row err -> ~ row_ok key row.
Proof.
  intros Hr [y [Hk Hs _ _ _]]. unfold unreadable in Hr.
  rewrite (decrypt_sealed _ _ _ _ Hk), (decrypt_sealed _ _ _ _ Hs) in Hr. by destruct Hr.
Qed.

Definition resolved (i : Z) (expectedVenue : string) (r : reply Secret) (L : list Tables) : Prop :=
  let expected := ToLower (TrimSpace expectedVenue) in
  let live T row := T ∈ L /\ credential i T = Some row /\ c_Enabled row = true /\ c_VenueType row = expected in
  match r with
  | inl x => exists T row, live T row /\ opens row x
  | inr err => err = db_error \/ (exists T, T ∈ L /\ refusal i expected err T)
      \/ exists T row, live T row /\ unreadable row err
  end.

Definition validated (i : Z) (expectedVenue : string) (r : reply unit) (L : list Tables) : Prop :=
  let expected := ToLower (TrimSpace expectedVenue) in
  match r with
  | inl _ => exists T row, T ∈ L /\ credential i T = Some row /\ c_Enabled row = true /\ c_VenueType row = expected
  | inr err => err = db_error \/ exists T, T ∈ L /\ refusal i expected err T
  end.

(** Statements that only read. *)
Lemma wp_read {A} q (f : Tables -> rows q) (k : reply (rows q) -> program A) V L s :
  (forall now drawn T, sql q now drawn T = Some (id, f T)) -> settled L s ->
  (forall s1 T, all_good T -> settled (T :: T :: L) s1 -> wp c (k (inl (f T))) (over V) s1) ->
  (forall s1, settled L s1 -> wp c (k (inr db_error)) (over V) s1) -> wp c (Ask (Exec q) k) (over V) s.
Proof.
  intros Hq Hs Hok Hfail. apply (client_exec_errors c s0 q _ L); [exact Hs| | |].
  - intros now drawn T w r HT E. rewrite Hq in E. injection E as <- _. by apply committable_refl.
  - intros s1 now drawn T w r HT E Hs1. rewrite Hq in E. injection E as <- <-. by apply Hok.
  - intros s1 err Hs1 [->|(_ & now & drawn & T & _ & E)]; [by apply Hfail|]. by rewrite Hq in E.
Qed.

Lemma wp_Resolve i expectedVenue L s : settled L s ->
  wp c (Resolve service i expectedVenue) (over (resolved i expectedVenue)) s.
Proof.
  intros Hs. unfold Resolve. apply (wp_read (SelectSecret i) _ _ _ L _ (fun _ _ _ => eq_refl) Hs).
  2: { intros s1 Hs1. exists L. split; [done|by left]. }
  intros s1 T HT Hs1. set (expected := ToLower (TrimSpace expectedVenue)).
  assert (Href : forall err, refusal i expected err T -> over (resolved i expectedVenue) (inr err) s1).
  { intros err Hr. eexists. split; [exact Hs1|]. right. left. exists T. by split; [left|]. }
  unfold refusal in Href. destruct (credential i T) as [row|] eqn:E; [|by apply Href]. cbn.
  destruct (c_Enabled row) eqn:Ee; [|by apply Href]. cbn.
  destruct (String.eqb_spec (c_VenueType row) expected) as [Ev|Ev]; [|by apply Href]. cbn.
  assert (Hlive : T ∈ T :: T :: L /\ credential i T = Some row /\ c_Enabled row = true /\ c_VenueType row = expected)
    by (split_and!; [by left|done..]).
  assert (Hbad : forall err, unreadable row err -> over (resolved i expectedVenue) (inr err) s1)
    by (intros err Hr; eexists; split; [exact Hs1|]; right; right; by exists T, row).
  unfold unreadable, key_aad, secret_aad in Hbad.
  destruct (decrypt service (c_KeyCipher row) _) as [k|err] eqn:Ek; [|apply Hbad; by left]. cbn.
  destruct (decrypt service (c_SecretCipher row) _) as [x|err] eqn:Es; [|apply Hbad; by right]. cbn.
  eexists. split; [exact Hs1|]. by exists T, row.
Qed.

Lemma wp_ValidateReference i expectedVenue L s : settled L s ->
  wp c (ValidateReference i expectedVenue) (over (validated i expectedVenue)) s.
Proof.
  intros Hs. unfold ValidateReference. apply (wp_read (SelectReference i) _ _ _ L _ (fun _ _ _ => eq_refl) Hs).
  2: { intros s1 Hs1. exists L. split; [done|by left]. }
  intros s1 T HT Hs1. set (expected := ToLower (TrimSpace expectedVenue)).
  assert (Href : forall err, refusal i expected err T -> over (validated i expectedVenue) (inr err) s1).
  { intros err Hr. eexists. split; [exact Hs1|]. right. exists T. by split; [left|]. }
  unfold refusal in Href. destruct (credential i T) as [row|] eqn:E; [|by apply Href]. cbn.
  destruct (c_Enabled row) eqn:Ee; [|by apply Href]. cbn.
  destruct (String.eqb_spec (c_VenueType row) expected) as [Ev|Ev]; [|by apply Href]. cbn.
  eexists. split; [exact Hs1|]. exists T, row. split_and!; [by left|done..].
Qed.

Lemma wp_List L s : settled L s -> wp c List (over whatever) s.
Proof.
  intros Hs. apply (wp_read SelectAll _ _ _ L _ (fun _ _ _ => eq_refl) Hs); intros; by eexists.
Qed.
End Rules.

(** ** Clients *)

(** The calls that several processes make, all with the master key [key]. *)
Inductive serves (key : list Z) : program unit -> Prop :=
  | serves_create name venueType apiKey apiSecret userID :
      serves key (_ ← Create (MkService key) name venueType apiKey apiSecret userID; Return tt)
  | serves_update i name apiKey apiSecret enabled userID :
      serves key (_ ← Update (MkService key) i name apiKey apiSecret enabled userID; Return tt)
  | serves_resolve i venue : serves key (_ ← Resolve (MkService key) i venue; Return tt)
  | serves_validate i venue : serves key (_ ← ValidateReference i venue; Return tt)
  | serves_list : serves key (_ ← List; Return tt).

Definition serving (key : list Z) (ts : pool) : Prop := forall c p, ts !! c = Some p -> serves key p.

(** Each process has a master key of its own. *)
Definition mixed (ts : pool) : Prop := forall c p, ts !! c = Some p -> exists key, serves key p.

Section Clients.
Context `{!Database}.

Section Calls.
Context (good : Credential -> Prop).
#[local] Instance these_rules : Rules := credential_rules good.

(** A call among the others. *)
Lemma call_ends {A} ts T0 x c (p : program A) (V : A -> list Tables -> Prop) y r :
  (forall c p, ts !! c = Some p -> client c p) -> all_good good T0 -> rtc pstep (ts, start T0) x -> x.1 !! c = None ->
  (forall s0 L, settled c s0 L s0 -> wp c p (over c s0 V) s0) -> runs c x p y r ->
  exists L, Forall (since x.2 y.2) L /\ V r L.
Proof.
  intros Hts HT Hx Hc Hw Hr. pose proof (proj1 (reachable_steps _ _ (reachable_start ts T0 Hts HT) Hx)) as Hrx.
  destruct (runs_ends c x p y r _ Hrx Hc (over_stable c x.2 V) (Hw x.2 []) (over_settled c x.2 V) Hr) as ((L & HL & HV) & _).
  exists L. split; [apply HL|done].
Qed.
End Calls.

(** What the calls of the others keep, in the two cases. *)
Lemma serving_clients key ts : serving key ts ->
  forall c p, ts !! c = Some p -> @client _ (credential_rules (row_ok key)) _ c p.
Proof.
  intros Hts c p Hp. destruct (Hts c p Hp); (eapply over_client; intros s0 Hs).
  - by eapply wp_Create.
  - by eapply wp_Update.
  - by eapply wp_Resolve.
  - by eapply wp_ValidateReference.
  - by eapply wp_List.
Qed.

Lemma mixed_clients ts : mixed ts -> forall c p, ts !! c = Some p -> @client _ (credential_rules (fun _ => True)) _ c p.
Proof.
  intros Hts c p Hp. destruct (Hts c p Hp) as [key Hs']. destruct Hs'; (eapply over_client; intros s0 Hs).
  - by eapply (wp_Create (fun _ => True) key).
  - by eapply (wp_Update_any (fun _ => True) key).
  - by eapply wp_Resolve.
  - by eapply wp_ValidateReference.
  - by eapply wp_List.
Qed.

(** C23: resolving a credential, whatever the rows hold and whatever other calls run at the
    same time, of processes that may have other master keys: it gives a key and a secret only
    when at a moment during the call the row was enabled, of the exchange asked for, and
    decrypts under this process's master key to them, which are then those that were stored
    if the row was sealed under that key.  Otherwise it gives none, and fails because the
    database did not answer; because at a moment during the call there was no such row, it was
    disabled or of another exchange, and the error says which; or because the row does not
    decrypt, which happens only to a row that was not sealed under this master key, for
    instance after the master key of the processes has been changed. *)
Theorem resolve_answers ts T0 key x c i expectedVenue y r :
  mixed ts -> rtc pstep (ts, start T0) x -> x.1 !! c = None ->
  runs c x (Resolve (MkService key) i expectedVenue) y r ->
  let expected := ToLower (TrimSpace expectedVenue) in
  let live T row := since x.2 y.2 T /\ credential i T = Some row /\ c_Enabled row = true /\ c_VenueType row = expected in
  match r with
  | inl secret => exists T row, live T row /\ opens key row secret
      /\ forall stored, stores key row stored -> stored = secret
  | inr err => err = db_error \/ (exists T, since x.2 y.2 T /\ refusal i expected err T)
      \/ exists T row, live T row /\ unreadable key row err /\ ~ row_ok key row
  end.
Proof.
  intros Hts Hx Hc Hr expected live.
  destruct (call_ends (fun _ => True) ts T0 x c _ (resolved key i expectedVenue) y r (mixed_clients ts Hts) (fun _ _ _ => I) Hx Hc
    (fun s0 L => wp_Resolve (fun _ => True) key c s0 i expectedVenue L s0) Hr)
    as (L & HL & HV). rewrite Forall_forall in HL. destruct r as [secret|err].
  - destruct HV as (T & row & [Hin HV] & Ho). exists T, row. split; [split; [by apply HL|done]|]. split; [done|].
    intros stored. by apply opens_stored.
  - destruct HV as [HV|[(T & Hin & HV)|(T & row & [Hin HV] & Hu)]]; [by left| |]; right.
    + left. exists T. split; [by apply HL|done].
    + right. exists T, row. split; [split; [by apply HL|done]|]. split; [done|by eapply unreadable_foreign].
Qed.

(** C24: an update that succeeds changed its row in one step, from what it was in tables
    committed during the call, and no other row: what was not given, the key, the secret, the
    name or the state, is what the row had just before, although other updates of the same
    row interleave; key and secret are sealed again for the exchange of the row, and the last
    characters and the fingerprint are those of the key stored. *)
Theorem update_merges key ts T0 x c i name apiKey apiSecret enabled userID y item :
  serving key ts -> rows_ok key T0 -> rtc pstep (ts, start T0) x -> x.1 !! c = None ->
  runs c x (Update (MkService key) i name apiKey apiSecret enabled userID) y (inl item) ->
  exists T X row row' secret, since x.2 y.2 T /\ since x.2 y.2 X
    /\ credential i T = Some row /\ stores key row secret
    /\ credential i X = Some row' /\ metadata row' = item
    /\ merged key row row' secret name apiKey apiSecret enabled
    /\ forall j, j <> i -> credential j X = credential j T.
Proof.
  intros Hts HT Hx Hc Hr.
  destruct (call_ends (row_ok key) ts T0 x c _ (updated key i name apiKey apiSecret enabled) y _ (serving_clients key ts Hts) HT Hx Hc
    (fun s0 L => wp_Update (row_ok key) key c s0 (fun _ Hr => Hr) i name apiKey apiSecret enabled userID L s0 (fun _ Hr => Hr)) Hr)
    as (L & HL & HV).
  rewrite Forall_forall in HL. destruct (HV item eq_refl) as (T & X & row & row' & secret & HT' & HX' & HV').
  exists T, X, row, row', secret. split_and!; [by apply HL|by apply HL|apply HV'..].
Qed.
End Clients.

(** ** A run *)

Definition ex_key : list Z := map Z.of_nat (seq 0 32).
Definition ex_service : Service := MkService ex_key.
Definition ex_secret : Secret := MkSecret "KEY-0001" "first".

Definition ex_row : Credential :=
  let nonce := repeat 5 NonceSize in
  MkCredential 7 "desk" "mgbx" (nonce ++ Seal ex_key nonce (bytes_of "KEY-0001") (bytes_of "mgbx:api-key"))
    (nonce ++ Seal ex_key nonce (bytes_of "first") (bytes_of "mgbx:api-secret"))
    (last4 "KEY-0001") (fingerprint "KEY-0001") true None None 0 0.
Definition ex_tables : Tables := MkTables [ex_row] [1].

Lemma ex_rows_ok : rows_ok ex_key ex_tables.
Proof.
  intros i row E. apply find_some in E as [[<-|[]] _]. exists ex_secret.
  constructor.
  1, 2: by exists (repeat 5 NonceSize).
  1, 2: reflexivity.
  split; by intros [=].
Qed.

(** Another process disables the credential while this one gives it a new secret. *)
Definition ex_clients : pool :=
  {[ 1%nat := (_ ← Update ex_service 7 "" "" "" (Some false) 1; Return tt) ]}.
Lemma ex_serving : serving ex_key ex_clients.
Proof. intros c p. unfold ex_clients. intros [<- <-]%lookup_singleton_Some. constructor. Qed.

Definition ex_mine (now : Time) : turn := MkTurn None Fine now (repeat now 12).
Definition ex_other (now : Time) : turn := MkTurn (Some 1%nat) Fine now (repeat now 12).

Definition ex_update : program (reply Metadata) := Update ex_service 7 " main " "" "second" None 0.
Definition ex_interleaved : list turn :=
  [ex_mine 1; ex_other 2; ex_other 3; ex_other 4; ex_other 5; ex_mine 6; ex_mine 7; ex_mine 8; ex_mine 9; ex_mine 10].
Definition ex_item : Metadata := MkMetadata 7 "main" "mgbx" "0001" (fingerprint "KEY-0001") false 8.

Lemma update_merges_witness : exists x y,
  runs (H0 := postgres) 0 x ex_update y (inl ex_item) /\
  exists T X row row' secret, since x.2 y.2 T /\ since x.2 y.2 X
    /\ credential 7 T = Some row /\ stores ex_key row secret
    /\ credential 7 X = Some row' /\ metadata row' = ex_item
    /\ merged ex_key row row' secret " main " "" "second" None
    /\ forall j, j <> 7 -> credential j X = credential j T.
Proof.
  destruct (drive_spec 0 ex_interleaved ex_clients (@start schema ex_tables) ex_update (fun _ r => r) (inl ex_item))
    as (y & r & Hr & ->); [vm_compute; reflexivity|].
  exists (ex_clients, @start schema ex_tables), y. split; [exact Hr|].
  refine (update_merges ex_key ex_clients ex_tables _ 0 7 " main " "" "second" None 0 y ex_item
    ex_serving ex_rows_ok (rtc_refl _ _) _ Hr). reflexivity.
Defined.

Lemma ex_mixed : mixed ex_clients.
Proof. intros c p Hp. exists ex_key. by apply (ex_serving c p). Qed.

(** Asked for before and after the other process has disabled it, and by a process with
    another master key. *)
Definition other_service : Service := MkService (repeat 7 32).
Definition undecrypted : error := Errorf "decrypt credential: cipher: message authentication failed".

Lemma resolve_answers_witness :
  let x := (ex_clients, @start schema ex_tables) in
  let live s T row := since x.2 s T /\ credential 7 T = Some row /\ c_Enabled row = true /\ c_VenueType row = "mgbx" in
  exists y z w,
  runs (H0 := postgres) 0 x (Resolve ex_service 7 " MGBX ") y (inl ex_secret)
  /\ runs (H0 := postgres) 0 x (Resolve ex_service 7 "mgbx") z (inr (disabled 7))
  /\ runs (H0 := postgres) 0 x (Resolve other_service 7 "mgbx") w (inr undecrypted)
  /\ (exists T row, live y.2 T row /\ opens ex_key row ex_secret
        /\ forall stored, stores ex_key row stored -> stored = ex_secret)
  /\ (disabled 7 = db_error \/ (exists T, since x.2 z.2 T /\ refusal 7 "mgbx" (disabled 7) T)
        \/ exists T row, live z.2 T row /\ unreadable ex_key row (disabled 7) /\ ~ row_ok ex_key row)
  /\ (undecrypted = db_error \/ (exists T, since x.2 w.2 T /\ refusal 7 "mgbx" undecrypted T)
        \/ exists T row, live w.2 T row /\ unreadable (master other_service) row undecrypted
             /\ ~ row_ok (master other_service) row).
Proof.
  intros x live.
  destruct (drive_spec 0 [ex_mine 1] ex_clients (@start schema ex_tables) (Resolve ex_service 7 " MGBX ") (fun _ r => r) (inl ex_secret))
    as (y & r & Hr & ->); [vm_compute; reflexivity|].
  destruct (drive_spec 0 [ex_other 2; ex_other 3; ex_other 4; ex_other 5; ex_mine 6] ex_clients (@start schema ex_tables)
    (Resolve ex_service 7 "mgbx") (fun _ r => r) (inr (disabled 7))) as (z & r & Hr' & ->); [vm_compute; reflexivity|].
  destruct (drive_spec 0 [ex_mine 1] ex_clients (@start schema ex_tables) (Resolve other_service 7 "mgbx") (fun _ r => r) (inr undecrypted))
    as (w & r & Hr'' & ->); [vm_compute; reflexivity|].
  exists y, z, w. split; [exact Hr|]. split; [exact Hr'|]. split; [exact Hr''|]. split; [|split].
  - exact (resolve_answers ex_clients ex_tables ex_key _ 0 7 " MGBX " y (inl ex_secret) ex_mixed (rtc_refl _ _) eq_refl Hr).
  - exact (resolve_answers ex_clients ex_tables ex_key _ 0 7 "mgbx" z (inr (disabled 7)) ex_mixed (rtc_refl _ _) eq_refl Hr').
  - exact (resolve_answers ex_clients ex_tables (master other_service) _ 0 7 "mgbx" w (inr undecrypted) ex_mixed (rtc_refl _ _) eq_refl Hr'').
Defined.
End CredentialsSafety.
