(* ===== verification/Startup.v ===== *)
(** What the processes do before and beside their loops: the migration of the database
    (module [Migrations], src/internal/database/database.go), opening and releasing what the
    administration server needs (module [Startup], the same file and
    src/cmd/admin-api/main.go), and the heartbeat file (module [Heartbeat],
    src/internal/heartbeat/heartbeat.go). *)
From S2P Require Import Prelude DecimalText Json World Lease Wire Shared AuditLog Commits Credentials Users.

Open Scope string_scope.
Open Scope list_scope.
Open Scope Z_scope.

(** Any number of processes may migrate one database at the same time.  The embedded files
    and what PostgreSQL does when it carries out the text of one are parameters
    ([Embedded]); nobody else changes the tables while processes migrate.  A process goes
    through the files in the order of their names; the row of schema_migrations is written
    in the transaction of the file, and its primary key keeps a second process out until
    that transaction ends. *)
Module Migrations.

Record Entry := MkEntry { e_Name : string; e_IsDir : bool; e_Bytes : string }.

(** [contents]: everything in the database but schema_migrations; [carry_out text now drawn]
    is the effect of a script, none when a statement of it fails. *)
Class Embedded := {
  contents : Type;
  carry_out : string -> Time -> list Z -> contents -> option contents;
  migrationFiles : list Entry
}.

Section Migrate.
Context `{Embedded}.

Record Tables := MkTables { created : bool; versions : list string; data : contents }.

Inductive Query :=
  | CreateMigrations
  | SelectApplied (name : string)
  | Script (text : string)
  | InsertVersion (name : string).

Definition Rows (q : Query) : Type := match q with SelectApplied _ => bool | _ => unit end.

Definition applyScript (text : string) (now : Time) (drawn : list Z) (T : Tables) : Tables :=
  match carry_out text now drawn (data T) with
  | Some d => MkTables (created T) (versions T) d
  | None => T
  end.
Definition insertVersion (name : string) (T : Tables) : Tables :=
  MkTables (created T) (versions T ++ [name]) (data T).
Definition createMigrations (T : Tables) : Tables :=
  if created T then T else MkTables true [] (data T).

Definition run_query (q : Query) (now : Time) (drawn : list Z) (T : Tables)
    : option ((Tables -> Tables) * Rows q) :=
  match q return option ((Tables -> Tables) * Rows q) with
  | CreateMigrations => Some (createMigrations, tt)
  | SelectApplied name => if created T then Some (id, bool_decide (name ∈ versions T)) else None
  | Script text =>
      match carry_out text now drawn (data T) with
      | Some _ => Some (applyScript text now drawn, tt)
      | None => None
      end
  | InsertVersion name =>
      if created T && bool_decide (name ∉ versions T) then Some (insertVersion name, tt) else None
  end.

(** The key of the row that is written. *)
Definition query_locks (q : Query) (_ : list Z) (_ : Tables) : list string :=
  match q with InsertVersion name => [name] | _ => [] end.

#[export] Instance schema : Schema := {|
  tables := Tables; query := Query; rows := Rows; lock := string;
  conflict := String.eqb; sql := run_query; locks_of := query_locks
|}.

(** ** The program *)

Definition names `{SliceSort} : list string :=
  sort_slice string_less (map e_Name (filter (fun e => e_IsDir e = false) migrationFiles)).

Definition ReadFile (name : string) : reply string :=
  match find (fun e => String.eqb (e_Name e) name && negb (e_IsDir e)) migrationFiles with
  | Some e => inl (e_Bytes e)
  | None => inr (Errorf ("open migrations/" +:+ name +:+ ": file does not exist"))
  end.

Definition migration_error (name : string) (err : error) : error := Wrapf ("migration " +:+ name) err.

(** The transaction: the file is carried out and recorded, or nothing happens. *)
Definition inTransaction (name sqlBytes : string) : program (reply unit) :=
  r ← orFail (ask (TxExec (Script sqlBytes))) (fun _ => ask (TxExec (InsertVersion name)));
  match r with
  | inr err => _ ← ask Rollback; Return (inr (migration_error name err))
  | inl _ => checked (ask Commit)
  end.

(** One turn of the loop. *)
Definition migrateOne (name : string) : program (reply unit) :=
  orFail (ask (Exec (SelectApplied name))) (fun exists_ : bool =>
  if exists_ then Return (inl tt) else
  match ReadFile name with
  | inr err => Return (inr err)
  | inl sqlBytes =>
      begun ← ask Begin;
      match begun with
      | Some err => Return (inr err)
      | None => inTransaction name sqlBytes
      end
  end).

Fixpoint migrateAll (l : list string) : program (reply unit) :=
  match l with
  | [] => Return (inl tt)
  | name :: l => orFail (migrateOne name) (fun _ => migrateAll l)
  end.

Definition Migrate `{SliceSort} : program (reply unit) :=
  orFail (ask (Exec CreateMigrations)) (fun _ => migrateAll names).

End Migrate.

(** ** What a migration is

    In one step either schema_migrations is created, or one file is carried out and
    recorded: one that is not recorded yet, all earlier ones being recorded. *)
Section Facts.
Context `{Embedded} `{SliceSort}.

Definition recorded (i : nat) (T : Tables) : Prop :=
  created T = true /\ forall j name, (j < i)%nat -> names !! j = Some name -> name ∈ versions T.

Inductive migrated (T : Tables) : Tables -> Prop :=
  | migrated_created : created T = false -> migrated T (MkTables true [] (data T))
  | migrated_file i name text now drawn d :
      recorded i T -> names !! i = Some name -> name ∉ versions T -> ReadFile name = inl text ->
      carry_out text now drawn (data T) = Some d -> migrated T (MkTables true (versions T ++ [name]) d).

Definition well_formed (T : Tables) : Prop := created T = false -> versions T = [].

Definition key_guard (name : string) (T T' : Tables) : Prop :=
  name ∉ versions T -> name ∉ versions T'.

#[export, program] Instance migration_rules : Rules := {|
  table_ok := well_formed; later := rtc migrated; entry_ok := fun _ _ _ => True; guarded := key_guard
|}.
Next Obligation. done. Qed.
Next Obligation. split; unfold key_guard; [by intros T|]. intros T1 T2 T3. auto. Qed.
Next Obligation. apply String.eqb_sym. Qed.

Lemma migrated_kept T T' : well_formed T -> migrated T T' ->
  well_formed T' /\ (created T = true -> created T' = true) /\ forall name, name ∈ versions T -> name ∈ versions T'.
Proof.
  intros HT [Hc|i name text now drawn d [Hc _] _ _ _ _]; split_and!; try done; cbn.
  - intros name. by rewrite (HT Hc).
  - intros x Hx. apply elem_of_app. by left.
Qed.

Lemma later_kept T T' : rtc migrated T T' -> well_formed T ->
  well_formed T' /\ (created T = true -> created T' = true) /\ forall name, name ∈ versions T -> name ∈ versions T'.
Proof.
  induction 1 as [|T1 T2 T3 Hs _ IH]; [done|]. intros HT. destruct (migrated_kept _ _ HT Hs) as (H2 & Hc & Hv).
  destruct (IH H2) as (H3 & Hc' & Hv'). split_and!; [done|auto|auto].
Qed.

Lemma recorded_later i T T' : rtc migrated T T' -> well_formed T -> recorded i T -> recorded i T'.
Proof.
  intros Hr HT [Hc Hi]. destruct (later_kept _ _ Hr HT) as (_ & Hc' & Hv). split; [auto|]. eauto.
Qed.

(** While a file is the next one and not recorded, nothing else is migrated. *)
Lemma nothing_else i name T T' : NoDup names -> rtc migrated T T' -> well_formed T -> recorded i T ->
  names !! i = Some name -> name ∉ versions T' -> T' = T.
Proof.
  intros Hnd Hr HT [Hc Hi] Hn Hv. destruct Hr as [|T1 T2 T3 Hs Hr]; [done|]. exfalso. apply Hv.
  destruct (migrated_kept _ _ HT Hs) as (H2 & _). apply (later_kept _ _ Hr H2).
  destruct Hs as [Hc'|k m text now drawn d [_ Hk] Hm Hnew _ _]; [congruence|]. cbn. apply elem_of_app.
  destruct (lt_eq_lt_dec i k) as [[Hik| ->]|Hki].
  - left. by eapply Hk.
  - right. assert (m = name) as -> by congruence. by left.
  - exfalso. apply Hnew. by eapply Hi.
Qed.

(** ** One process *)

Context `{!Database} (c : nat).
Hypothesis distinct : NoDup names.

Record idle_at (i : nat) (s : state) : Prop := {
  idle_sound : Sound s;
  idle_open : open s !! c = None;
  idle_recorded : recorded i (committed s)
}.
Definition quiet (s : state) : Prop := Sound s /\ open s !! c = None.

Lemma settled_quiet s0 L s : settled c s0 L s -> quiet s.
Proof. by intros [? ? _ _]. Qed.

Lemma quiet_settled s : quiet s -> settled c s [] s.
Proof. intros [? ?]. by constructor. Qed.

Lemma past_migrated s T : Sound s -> T ∈ history s -> rtc migrated T (committed s).
Proof. exact (past_later s T). Qed.

(** What was true of the tables when a step began remains true. *)
Lemma settled_after s0 L s : settled c s0 L s -> Sound s0 -> rtc migrated (committed s0) (committed s).
Proof.
  intros [Hs _ [h Hh] _] H0'. apply past_migrated; [done|]. rewrite Hh. apply elem_of_app. right. exact (committed_in s0 H0').
Qed.

Lemma settled_idle s0 L s T i : settled c s0 L s -> T ∈ L -> recorded i T -> idle_at i s.
Proof.
  intros [Hs Ho Hh Hl] Hin Hi. rewrite Forall_forall in Hl. pose proof (Hl T Hin) as HT.
  apply since_history in HT. constructor; [done|done|]. eapply recorded_later; [by apply past_migrated| |done].
  pose proof (sound_tables s Hs) as Hok. rewrite Forall_forall in Hok. by apply Hok.
Qed.

(** The transaction of a file: [T0] are the tables when its script was carried out. *)
Definition unchanged (i : nat) (T0 T : Tables) : Prop := recorded i T /\ rtc migrated T0 T.
Definition scripted (text : string) (now : Time) (drawn : list Z) (T0 T X : Tables) : Prop :=
  versions X = versions T /\ (T = T0 -> X = applyScript text now drawn T).

Lemma unchanged_lasting i T0 ls : lasting ls (unchanged i T0).
Proof.
  intros T T' HT _ [Hi Hr] Hl _. split; [exact (recorded_later _ _ _ Hl HT Hi)|].
  exact (transitivity (R := rtc migrated) Hr Hl).
Qed.

Lemma pending_recorded s0 i ls F E s : Sound s0 -> recorded i (committed s0) -> pending c s0 ls F E s ->
  pending c s0 ls (fun T => F T /\ recorded i T) E s.
Proof.
  intros H0' Hi [Hs Hh Hf Ho]. constructor; [done|done| |].
  - intros T T' HT HT' [HF Hi'] Hl Hg. split; [exact (Hf T T' HT HT' HF Hl Hg)|exact (recorded_later _ _ _ Hl HT Hi')].
  - destruct Ho as [Ho|(pend & Ho & Hls & HF & HE)]; [by left|]. right. exists pend. split_and!; [done|done|done| |].
    + destruct Hh as [h Hh]. eapply recorded_later; [|exact (committed_ok s0 H0')|exact Hi].
      apply past_migrated; [done|]. rewrite Hh. apply elem_of_app. right. exact (committed_in s0 H0').
    + intros T HT [HT' _]. by apply HE.
Qed.

Lemma migrate_committable i name text now drawn T0 T X :
  names !! i = Some name -> ReadFile name = inl text -> carry_out text now drawn (data T0) <> None ->
  well_formed T0 -> well_formed T -> unchanged i T0 T -> recorded i T0 -> name ∉ versions T ->
  scripted text now drawn T0 T X -> committable [name] T (insertVersion name X) /\ recorded (S i) (insertVersion name X).
Proof.
  intros Hn Hf Hc HT0 HT [Hi Hr] Hi0 Hv [_ HX].
  pose proof (nothing_else i name T0 T distinct Hr HT0 Hi0 Hn Hv) as ->. specialize (HX eq_refl) as ->.
  unfold applyScript. destruct (carry_out _ _ _ _) as [d|] eqn:Ed; [|done].
  assert (Hs : migrated T0 (MkTables true (versions T0 ++ [name]) d)) by (by eapply migrated_file).
  assert (Hi' : recorded (S i) (MkTables true (versions T0 ++ [name]) d)).
  { split; [done|]. intros j m Hj Hm. cbn. apply elem_of_app. destruct (decide (j = i)) as [->|Hne].
    - right. assert (m = name) as -> by congruence. by left.
    - left. eapply (proj2 Hi); [|exact Hm]. lia. }
  unfold insertVersion. cbn. rewrite (proj1 Hi). split; [|done]. split_and!; [done|by apply rtc_once|].
  intros l Hl Hnew. cbn. intros [Hin|Hin%list_elem_of_singleton]%elem_of_app; [done|]. subst.
  specialize (Hl name ltac:(by left)). cbn in Hl. by rewrite String.eqb_refl in Hl.
Qed.

Definition one_done (i : nat) (r : reply unit) (s : state) : Prop :=
  quiet s /\ (r = inl tt -> idle_at i s).

Lemma failed_done i err s0 L s : settled c s0 L s -> one_done i (inr err) s.
Proof. intros Hs. split; [by eapply settled_quiet|done]. Qed.

(** What the transaction knows once its row is written, and what its commit then does. *)
Definition next_up (i : nat) (name : string) (T0 T : Tables) : Prop := unchanged i T0 T /\ name ∉ versions T.
Definition ready (name text : string) (now : Time) (drawn : list Z) (T0 T X : Tables) : Prop :=
  exists Y, scripted text now drawn T0 T Y /\ X = insertVersion name Y.

Lemma next_up_lasting i name T0 : lasting [name] (next_up i name T0).
Proof.
  intros T T' HT HT' [Hu Hv] Hl Hg. split; [exact (unchanged_lasting i T0 [name] T T' HT HT' Hu Hl Hg)|].
  exact (Hg name ltac:(by left) Hv).
Qed.

Lemma wp_record i name text now drawn T0 s0 s :
  names !! i = Some name -> ReadFile name = inl text -> carry_out text now drawn (data T0) <> None ->
  well_formed T0 -> recorded i T0 ->
  pending c s0 [name] (next_up i name T0) (ready name text now drawn T0) s ->
  wp c (checked (ask Commit)) (one_done (S i)) s.
Proof.
  intros Hn Hf Hc HT0 Hi0 Hs. unfold checked. apply wp_bind.
  assert (Hcom : forall T X, well_formed T -> next_up i name T0 T -> ready name text now drawn T0 T X ->
    committable [name] T X /\ recorded (S i) X).
  { intros T X HT [Hu Hv] (Y & HY & ->). by eapply migrate_committable. }
  apply (client_commit c s0 _ [name] (next_up i name T0) (ready name text now drawn T0)); [exact Hs| | |].
  - intros T X HT HF HE. by apply Hcom.
  - intros s1 T X HT HF HE Hs1. cbn. split; [by eapply settled_quiet|]. intros _.
    eapply settled_idle; [exact Hs1|by left|]. by apply (Hcom T X).
  - intros s1 err Hs1. by eapply failed_done.
Qed.

Lemma wp_file i name text s0 s : Sound s0 -> recorded i (committed s0) ->
  names !! i = Some name -> ReadFile name = inl text -> pending c s0 [] (fun _ => True) eq s ->
  wp c (inTransaction name text) (one_done (S i)) s.
Proof.
  intros Hs0 Hi Hn Hf Hs. unfold inTransaction.
  assert (Hfail : forall s1 err, settled c s0 [] s1 ->
    wp c (_ ← ask Rollback; Return (inr (migration_error name err))) (one_done (S i)) s1).
  { intros s1 err Hs1. destruct (settled_ends c s0 _ _ Hs1) as [Hsd Hh]. apply (client_rollback c s0 _ []); [done..|].
    intros s2 Hs2. by eapply failed_done. }
  apply (pending_recorded s0 i) in Hs; [|done..].
  apply (client_tx c s0 (Script text) _ [] (fun T => True /\ recorded i T) eq); [exact Hs| |exact Hfail].
  intros s1 now drawn T X w r HT [_ HiT] <- Hq. cbn in Hq.
  destruct (carry_out text now drawn (data T)) as [d|] eqn:Ed; [|done]. injection Hq as <- <-.
  exists [], (unchanged i T), (scripted text now drawn T).
  refine (conj _ (conj (unchanged_lasting i T []) (conj (conj HiT (rtc_refl _ _)) (conj _ _)))).
  { by intros ? ?%elem_of_nil. }
  { intros T' X' HT' [Hi' _]. split; [done|]. intros <-. split; [|done].
    unfold applyScript. destruct (carry_out text now drawn (data T')); reflexivity. }
  intros Hs1. cbn [orFail].
  apply (client_tx c s0 (InsertVersion name) _ [] (unchanged i T) (scripted text now drawn T)); [exact Hs1| |exact Hfail].
  intros s2 now2 drawn2 T2 X w r HT2 Hu [Hv HX] Hq. cbn in Hq.
  destruct (created X && bool_decide (name ∉ versions X)) eqn:Eb; [|done]. injection Hq as <- <-.
  apply andb_prop in Eb as [_ Eb%bool_decide_eq_true]. rewrite Hv in Eb.
  exists [name], (next_up i name T), (ready name text now drawn T).
  refine (conj _ (conj (next_up_lasting i name T) (conj (conj Hu Eb) (conj _ _)))).
  { by right. }
  { intros T' X' HT' [Hu' _]. split; [done|]. intros HE. by exists X'. }
  intros Hs2. cbn [orFail]. eapply wp_record; [done|done|by rewrite Ed|done|done|exact Hs2].
Qed.

Lemma wp_migrateOne i name s : names !! i = Some name -> idle_at i s -> wp c (migrateOne name) (one_done (S i)) s.
Proof.
  intros Hn [Hs Ho Hi]. assert (Hset : settled c s [] s) by (by apply quiet_settled). unfold migrateOne.
  apply (client_exec c s (SelectApplied name) _ []); [exact Hset| | |intros; by eapply failed_done].
  - intros now drawn T w r HT Hq. cbn in Hq. destruct (created T); [|done]. injection Hq as <- _. by apply committable_refl.
  - intros s1 now drawn T w r HT Hq Hs1. cbn in Hq. destruct (created T) eqn:Ec; [|done]. injection Hq as <- <-.
    assert (HiT : recorded i T).
    { eapply recorded_later; [|exact (committed_ok s Hs)|exact Hi]. destruct Hs1 as [Hsd _ Hh Hl].
      apply Forall_inv in Hl. exact (since_after s s1 T Hs Hsd Hh Hl). }
    cbn [orFail]. case_bool_decide as Hin.
    + split; [by eapply settled_quiet|]. intros _. eapply settled_idle; [exact Hs1|by left|]. split; [done|].
      intros j m Hj Hm. destruct (decide (j = i)) as [->|]; [by simplify_eq|]. eapply (proj2 HiT); [|exact Hm]. lia.
    + destruct (ReadFile name) as [text|err] eqn:Ef; [|by eapply failed_done].
      eapply (client_begin c s); [exact Hs1| |intros; by eapply failed_done].
      intros s2 Hs2. exact (wp_file i name text s s2 Hs Hi Hn Ef Hs2).
Qed.

Definition all_done (r : reply unit) (s : state) : Prop :=
  quiet s /\ (r = inl tt -> forall name, name ∈ names -> name ∈ versions (committed s)).

Lemma wp_migrateAll l i s : drop i names = l -> idle_at i s -> wp c (migrateAll l) all_done s.
Proof.
  revert i s. induction l as [|name l IH]; intros i s E Hs; cbn [migrateAll].
  - destruct Hs as [Hs Ho Hi]. split; [done|]. intros _ name (j & Hj)%list_elem_of_lookup. eapply (proj2 Hi); [|exact Hj].
    apply lookup_lt_Some in Hj. assert (length (drop i names) = 0%nat) as El by (by rewrite E).
    rewrite length_drop in El. lia.
  - assert (Hn : names !! i = Some name) by (rewrite <- (Nat.add_0_r i), <- lookup_drop, E; done).
    unfold orFail. apply wp_bind. eapply wp_mono; [|by apply (wp_migrateOne i)].
    intros [[]|err] s1 [Hq Hd]; [|by split]. apply (IH (S i)); [|by apply Hd].
    replace (S i) with (i + 1)%nat by lia. by rewrite <- drop_drop, E.
Qed.

Lemma wp_Migrate s : quiet s -> wp c Migrate all_done s.
Proof.
  intros Hs. unfold Migrate. apply (client_exec c s CreateMigrations _ []); [by apply quiet_settled| | |].
  - intros now drawn T w r HT Hq. cbn in Hq. injection Hq as <- _. unfold createMigrations.
    destruct (created T) eqn:Ec; [by apply committable_refl|]. split_and!; [done| |].
    + by apply rtc_once, migrated_created.
    + intros l _ _. cbn. apply not_elem_of_nil.
  - intros s1 now drawn T w r HT Hq Hs1. cbn in Hq. injection Hq as <- <-. cbn [orFail].
    apply (wp_migrateAll _ 0); [done|]. eapply settled_idle; [exact Hs1|by left|]. split; [|lia].
    unfold createMigrations. by destruct (created T) eqn:Ec.
  - intros s1 err Hs1. split; [by eapply settled_quiet|done].
Qed.
End Facts.

(** ** Any number of processes *)

Section Processes.
Context `{Embedded} `{SliceSort} `{!Database}.

Definition migrating (ts : pool) : Prop := forall c p, ts !! c = Some p -> p = (_ ← Migrate; Return tt).

Lemma names_elem e : e ∈ migrationFiles -> e_IsDir e = false -> e_Name e ∈ names.
Proof.
  intros Hin Hd. unfold names. rewrite sort_slice_perm. apply list_elem_of_fmap. exists e. split; [done|].
  by apply list_elem_of_filter.
Qed.

Lemma names_distinct : NoDup (map e_Name migrationFiles) -> NoDup names.
Proof.
  intros Hnd. unfold names. rewrite sort_slice_perm. induction migrationFiles as [|e l IH]; [constructor|].
  apply NoDup_cons in Hnd as [Hnew Hnd]. rewrite filter_cons. case_decide; [|by apply IH]. cbn. constructor; [|by apply IH].
  intros (e' & E & Hin%list_elem_of_filter)%list_elem_of_fmap. apply Hnew. apply list_elem_of_fmap. exists e'. naive_solver.
Qed.

Lemma all_done_stable c r : stable c (all_done c r).
Proof.
  intros s s' [[Hs Ho] Hd] Hr. destruct (Hr Hs) as (Hs' & Hh & Ho').
  split; [split; [done|destruct Ho' as [|[-> _]]; done]|]. intros E name Hin.
  apply (later_kept (committed s) (committed s')); [|exact (committed_ok s Hs)|by apply Hd].
  apply past_migrated; [done|]. destruct Hh as [h ->]. apply elem_of_app. right. exact (committed_in s Hs).
Qed.

Lemma migrating_reachable ts T0 x : NoDup (map e_Name migrationFiles) -> migrating ts -> well_formed T0 ->
  rtc pstep (ts, start T0) x -> reachable x /\ history (start T0) `suffix_of` history x.2.
Proof.
  intros Hnd Hts HT Hx. refine (reachable_steps _ _ (reachable_start ts T0 _ HT) Hx).
  intros c p Hp. rewrite (Hts c p Hp). intros s0 Hs Ho. apply wp_bind.
  eapply wp_mono; [|apply wp_Migrate; [by apply names_distinct|by split]]. done.
Qed.

(** C39: migrations are carried out once, whole and in order, however many processes migrate the
    database at the same time and whichever calls fail: the tables only ever change by
    creating schema_migrations or by a file that was not recorded, after all earlier files
    were, together with the row that records it; and when a process ends without error,
    every file is recorded. *)
Theorem migrations_once T0 ts x : NoDup (map e_Name migrationFiles) -> well_formed T0 -> migrating ts ->
  rtc pstep (ts, start T0) x ->
  rtc migrated T0 (committed x.2)
  /\ forall c y, x.1 !! c = None -> runs c x Migrate y (inl tt) ->
     rtc migrated (committed x.2) (committed y.2)
     /\ forall e, e ∈ migrationFiles -> e_IsDir e = false -> e_Name e ∈ versions (committed y.2).
Proof.
  intros Hnd HT Hts Hx. destruct (migrating_reachable _ _ _ Hnd Hts HT Hx) as [Hr Hh]. split.
  { apply past_migrated; [apply Hr|]. destruct Hh as [h ->]. apply elem_of_app. right. by left. }
  intros c y Hc Hrun.
  destruct (runs_ends c x Migrate y (inl tt) (all_done c) Hr Hc (all_done_stable c)) as ([[Hs Ho] Hd] & Hy & Hh'); [| |done|].
  - intros Hs. apply wp_Migrate; [by apply names_distinct|]. by eapply settled_quiet.
  - by intros a s [[_ ?] _].
  - split; [|intros e He Hdir; apply Hd; [done|by apply names_elem]].
    apply past_migrated; [done|]. destruct Hh' as [h ->]. apply elem_of_app. right.
    exact (committed_in x.2 (reachable_sound x Hr)).
Qed.
End Processes.

(** ** Two processes at once *)

Section Race.
#[local] Instance ex_sort : SliceSort := merge_slice_sort.

(** A database that lists the scripts it has carried out. *)
#[local] Instance ex_embedded : Embedded := {|
  contents := list string; carry_out := fun text _ _ d => Some (d ++ [text]);
  migrationFiles := [MkEntry "002_b.sql" false "b"; MkEntry "001_a.sql" false "a"; MkEntry "old" true ""]
|}.

Definition ex_empty : Tables := MkTables false [] [].
Definition ex_pool : pool := {[ 1%nat := (_ ← Migrate; Return tt) ]}.
Definition ex_turn (c : option nat) : turn := MkTurn c Fine 0 [].
Definition ex_me (n : nat) : list turn := repeat (ex_turn None) n.
Definition ex_you (n : nat) : list turn := repeat (ex_turn (Some 1%nat)) n.

Definition ex_run (l : list turn) : option (list string * list string * reply unit) :=
  (fun x => (versions (committed (snd (fst x))), data (committed (snd (fst x))), snd x))
    <$> drive 0 l ex_pool (@start schema ex_empty) Migrate.

Example one_after_the_other :
  ex_run (ex_you 6 ++ ex_me 7) = Some (["001_a.sql"; "002_b.sql"], ["a"; "b"], inl tt).
Proof. vm_compute. reflexivity. Qed.

(** The process that loses the race for a file does not find it recorded: it stops with the
    violation of the key, although the database is migrated by the other one. *)
Lemma loser_stops :
  ex_run (ex_me 4 ++ ex_you 11 ++ ex_me 2)
  = Some (["001_a.sql"; "002_b.sql"], ["a"; "b"], inr (migration_error "001_a.sql" constraint)).
Proof. vm_compute. reflexivity. Qed.

Lemma migrations_once_witness : exists y,
  runs (H0 := postgres) 0 (ex_pool, @start schema ex_empty) Migrate y (inl tt)
  /\ rtc migrated ex_empty ex_empty
  /\ rtc migrated ex_empty (committed y.2)
  /\ forall e, e ∈ migrationFiles -> e_IsDir e = false -> e_Name e ∈ versions (committed y.2).
Proof.
  destruct (drive_spec 0 (ex_you 6 ++ ex_me 7) ex_pool (@start schema ex_empty) Migrate (fun _ r => r) (inl tt))
    as (y & r & Hr & ->); [vm_compute; reflexivity|].
  exists y. split; [exact Hr|].
  destruct (migrations_once ex_empty ex_pool (ex_pool, @start schema ex_empty)) as [H1 H2].
  - apply (bool_decide_unpack _). vm_compute. exact I.
  - done.
  - intros c p. unfold ex_pool. by intros [<- <-]%lookup_singleton_Some.
  - apply rtc_refl.
  - split; [exact H1|]. exact (H2 0%nat y (lookup_singleton_ne 1%nat 0%nat _ ltac:(done)) Hr).
Defined.
End Race.
End Migrations.

(** Opening the services and the administration server.  A program of calls ([proc],
    Shared.v) answered by the environment; [safe] says what it may call when, and what is
    open at its end. *)
Module Startup.

(** ** Calls *)

(** How serving ends: a signal, then the answer of Shutdown, or the listener's error. *)
Inductive ServeEnd :=
  | Signalled (shutdown : option error)
  | ServerClosed
  | ListenFailed (err : error).

Inductive call :=
  | NewPool (url : string)
  | PingPostgres
  | ClosePool
  | NewClient (addr password : string) (db : Z)
  | PingRedis
  | CloseRedis
  | RunMigrate
  | RunBootstrapAdmin (email password : string)
  | ListenAndServe (addr metricsToken : string) (service : Credentials.Service).

Definition answer_of (c : call) : Type :=
  match c with
  | NewPool _ | PingPostgres | PingRedis | RunMigrate | RunBootstrapAdmin _ _ => option error
  | ClosePool | CloseRedis | NewClient _ _ _ => unit
  | ListenAndServe _ _ _ => ServeEnd
  end.

Abbreviation calls := (proc answer_of).

(** Whether a pointer to [Connections] is nil and what it holds. *)
Record Connections := MkConnections { Postgres : bool; Redis : bool }.

Definition wrapped (prefix : string) (err : error) : error := Wrapf prefix err.

Definition Open (databaseURL redisAddr redisPassword : string) (redisDB : Z) : calls (reply Connections) :=
  if String.eqb databaseURL "" then Return (inr (Errorf "DATABASE_URL is required")) else
  if String.eqb redisAddr "" then Return (inr (Errorf "REDIS_ADDR is required")) else
  pool ← ask (NewPool databaseURL);
  match pool with Some err => Return (inr (wrapped "open postgres" err)) | None =>
  pinged ← ask PingPostgres;
  match pinged with Some err => _ ← ask ClosePool; Return (inr (wrapped "ping postgres" err)) | None =>
  _ ← ask (NewClient redisAddr redisPassword redisDB);
  pinged ← ask PingRedis;
  match pinged with
  | Some err => _ ← ask ClosePool; _ ← ask CloseRedis; Return (inr (wrapped "ping redis" err))
  | None => Return (inl (MkConnections true true))
  end end end.

(** [strconv.Atoi]; its two errors are not told apart. *)
Definition OpenFromEnv (getenv : string -> string) : calls (reply Connections) :=
  let open db := Open (getenv "DATABASE_URL") (getenv "REDIS_ADDR") (getenv "REDIS_PASSWORD") db in
  let raw := getenv "REDIS_DB" in
  if String.eqb raw "" then open 0 else
  match Users.ParseInt raw with
  | Some db => open db
  | None => Return (inr (wrapped "REDIS_DB" (Errorf ("strconv.Atoi: parsing " +:+ quoted raw))))
  end.

Definition Close (c : option Connections) : calls unit :=
  match c with
  | None => Return tt
  | Some c =>
      _ ← (if Redis c then ask CloseRedis else Return tt);
      if Postgres c then ask ClosePool else Return tt
  end.

(** ** cmd/admin-api/main.go *)

Definition envDefault (getenv : string -> string) (key fallback : string) : string :=
  if String.eqb (getenv key) "" then fallback else getenv key.

Definition serving (getenv : string -> string) (service : Credentials.Service) : calls (option error) :=
  ended ← ask (ListenAndServe (envDefault getenv "ADMIN_ADDR" ":8080") (getenv "METRICS_TOKEN") service);
  Return (match ended with Signalled shutdown => shutdown | ServerClosed => None | ListenFailed err => Some err end).

(** [run] between opening the connections and their deferred closing. *)
Definition prepared (getenv : string -> string) : calls (option error) :=
  failed ← ask RunMigrate;
  match failed with Some err => Return (Some (wrapped "migrate" err)) | None =>
  match Credentials.NewService (getenv "CREDENTIAL_MASTER_KEY") with
  | inr err => Return (Some (wrapped "initialize credential encryption" err))
  | inl service =>
      failed ← ask (RunBootstrapAdmin (getenv "ADMIN_EMAIL") (getenv "ADMIN_PASSWORD"));
      match failed with Some err => Return (Some (wrapped "bootstrap admin" err)) | None => serving getenv service end
  end end.

Definition run (getenv : string -> string) : calls (option error) :=
  connections ← OpenFromEnv getenv;
  match connections with
  | inr err => Return (Some err)
  | inl connections =>
      result ← prepared getenv;
      _ ← Close (Some connections);
      Return result
  end.

(** ** internal/logging/logger.go: the level a logger is made with *)

Inductive Level := LevelDebug | LevelInfo | LevelWarn | LevelError.

Definition logLevel (getenv : string -> string) : Level :=
  let level := ToLower (TrimSpace (getenv "LOG_LEVEL")) in
  if String.eqb level "debug" then LevelDebug else
  if String.eqb level "warn" || String.eqb level "warning" then LevelWarn else
  if String.eqb level "error" then LevelError else LevelInfo.

(** ** What is open and what was done *)

Record Progress := MkProgress {
  pool_open : bool; pool_pinged : bool; redis_open : bool; redis_pinged : bool; migrated : bool; bootstrapped : bool
}.
Definition nothing : Progress := MkProgress false false false false false false.

(** Each service is opened once, used and closed only while it is open; the migration needs
    both to have answered, the first administrator the migration, and serving all of it. *)
Definition allowed (s : Progress) (c : call) : Prop :=
  match c with
  | NewPool url => pool_open s = false /\ url <> ""
  | PingPostgres | ClosePool => pool_open s = true
  | NewClient addr _ _ => redis_open s = false /\ addr <> ""
  | PingRedis | CloseRedis => redis_open s = true
  | RunMigrate => pool_open s = true /\ redis_open s = true /\ pool_pinged s = true /\ redis_pinged s = true
  | RunBootstrapAdmin _ _ => pool_open s = true /\ redis_open s = true /\ migrated s = true
  | ListenAndServe _ _ service =>
      pool_open s = true /\ redis_open s = true /\ migrated s = true /\ bootstrapped s = true
      /\ length (Credentials.master service) = 32%nat
  end.

Definition fine (e : option error) : bool := match e with None => true | Some _ => false end.

Definition after (s : Progress) (c : call) : answer_of c -> Progress :=
  let '(MkProgress po pp ro rp m b) := s in
  match c return answer_of c -> Progress with
  | NewPool _ => fun e => MkProgress (fine e) pp ro rp m b
  | PingPostgres => fun e => MkProgress po (fine e) ro rp m b
  | ClosePool => fun _ => MkProgress false pp ro rp m b
  | NewClient _ _ _ => fun _ => MkProgress po pp true rp m b
  | PingRedis => fun e => MkProgress po pp ro (fine e) m b
  | CloseRedis => fun _ => MkProgress po pp false rp m b
  | RunMigrate => fun e => MkProgress po pp ro rp (fine e) b
  | RunBootstrapAdmin _ _ => fun e => MkProgress po pp ro rp m (fine e)
  | ListenAndServe _ _ _ => fun _ => s
  end.

Fixpoint safe {A} (p : calls A) (Q : A -> Progress -> Prop) (s : Progress) : Prop :=
  match p with
  | Return a => Q a s
  | Ask c k => allowed s c /\ forall a, safe (k a) Q (after s c a)
  end.

Lemma safe_bind {A B} (p : calls A) (k : A -> calls B) Q s :
  safe p (fun a s => safe (k a) Q s) s -> safe (p ≫= k) Q s.
Proof. revert s. induction p as [a|c k' IH]; intros s; [done|]. intros [Ha Hk]. split; [done|]. intros a. by apply IH. Qed.

Lemma safe_mono {A} (p : calls A) (Q Q' : A -> Progress -> Prop) s :
  (forall a s, Q a s -> Q' a s) -> safe p Q s -> safe p Q' s.
Proof. intros HQ. revert s. induction p as [a|c k IH]; intros s; [apply HQ|]. intros [Ha Hk]. split; [done|]. intros a. by apply IH. Qed.

Definition closed (s : Progress) : Prop := pool_open s = false /\ redis_open s = false.

Definition opened (r : reply Connections) (s : Progress) : Prop :=
  match r with
  | inl c => c = MkConnections true true /\ s = MkProgress true true true true false false
  | inr _ => closed s
  end.

Lemma Open_safe url addr password db : safe (Open url addr password db) opened nothing.
Proof.
  unfold Open. destruct (String.eqb_spec url ""); [done|]. destruct (String.eqb_spec addr ""); [done|].
  split; [done|]. intros [err|]; [done|]. split; [done|]. intros [err|]; [by repeat split|].
  split; [done|]. intros []. split; [done|]. intros [err|]; [by repeat split|done].
Qed.

Lemma OpenFromEnv_safe getenv : safe (OpenFromEnv getenv) opened nothing.
Proof. unfold OpenFromEnv. case_match; [apply Open_safe|]. case_match; [apply Open_safe|done]. Qed.

Lemma NewService_key encoded service :
  Credentials.NewService encoded = inl service -> length (Credentials.master service) = 32%nat.
Proof.
  unfold Credentials.NewService, Credentials.decodeMasterKey. case_match; [|done].
  intros [= <-]. repeat case_match; simplify_eq; by apply Nat.eqb_eq.
Qed.

Definition ready (s : Progress) : Prop := pool_open s = true /\ redis_open s = true.

Lemma prepared_safe getenv :
  safe (prepared getenv) (fun _ s => ready s) (MkProgress true true true true false false).
Proof.
  unfold prepared. split; [done|]. intros [err|]; [done|]. cbn.
  destruct (Credentials.NewService _) as [service|err] eqn:E; [|done].
  split; [done|]. intros [err|]; [done|]. split; [|done]. split_and!; try done. by eapply NewService_key.
Qed.

(** The administration server serves only with a master key of 32 bytes, on services that
    answered, after the migration and after the first administrator was seen to; whatever
    fails, every connection that was opened is closed exactly once. *)
Theorem startup_safe getenv : safe (run getenv) (fun _ s => closed s) nothing.
Proof.
  unfold run. apply safe_bind. eapply safe_mono; [|apply OpenFromEnv_safe].
  intros [c|err] s; [|done]. intros [-> ->]. apply safe_bind. eapply safe_mono; [|apply prepared_safe].
  intros r [po pp ro rp m b] [Hp Hr]. simpl in Hp, Hr. subst. by repeat split.
Qed.

(** *** Runs *)

Fixpoint answering {A} (f : forall c, answer_of c) (p : calls A) : list call * A :=
  match p with
  | Return a => ([], a)
  | Ask c k => let '(l, a) := answering f (k (f c)) in (c :: l, a)
  end.

Definition ex_env (key : string) : string :=
  if String.eqb key "DATABASE_URL" then "postgres://db" else
  if String.eqb key "REDIS_ADDR" then "redis:6379" else
  if String.eqb key "CREDENTIAL_MASTER_KEY" then "c2hvcnQ=" else "".

(** With a key that is too short the server does not start, and closes what it opened. *)
Example short_key :
  answering (fun c => match c return answer_of c with
    | ListenAndServe _ _ _ => ServerClosed | NewPool _ | PingPostgres | PingRedis | RunMigrate | RunBootstrapAdmin _ _ => None
    | ClosePool | CloseRedis | NewClient _ _ _ => tt end) (run ex_env)
  = ([NewPool "postgres://db"; PingPostgres; NewClient "redis:6379" "" 0; PingRedis; RunMigrate; CloseRedis; ClosePool],
     Some (Wrapf "initialize credential encryption" (Errorf "CREDENTIAL_MASTER_KEY must be base64 for exactly 32 bytes"))).
Proof. vm_compute. reflexivity. Qed.
End Startup.

(** The heartbeat file (src/internal/heartbeat/heartbeat.go): one process touches it, dies
    and starts again at any moment; another one reads it at any moment. *)
Module Heartbeat.
Import Audit(prefix_of, prefix_drop, append_nil).

(** ** The file

    Its content, if it exists, and the times the writer has read from its clock, the latest
    first.  Writing is what os.WriteFile does: open with truncation, write in pieces, close. *)
Record Disk := MkDisk { content : option string; taken : list Time }.

Inductive call :=
  | MkdirAll (path : string)
  | ReadClock
  | OpenTruncate
  | WriteSome (text : string)
  | CloseFile.

Definition answer_of (c : call) : Type :=
  match c with
  | MkdirAll _ | OpenTruncate | CloseFile => option error
  | ReadClock => Time
  | WriteSome _ => nat * option error
  end.

Abbreviation calls := (proc answer_of).

(** The clock does not run backwards; a write may stop after any of its bytes. *)
Definition does (c : call) (d : Disk) : answer_of c -> Disk -> Prop :=
  match c return answer_of c -> Disk -> Prop with
  | MkdirAll _ | CloseFile => fun _ d' => d' = d
  | ReadClock => fun now d' => (forall t, head (taken d) = Some t -> t <= now) /\ 0 <= now /\ d' = MkDisk (content d) (now :: taken d)
  | OpenTruncate => fun r d' => match r with None => d' = MkDisk (Some "") (taken d) | Some _ => d' = d end
  | WriteSome text => fun r d' => d' = MkDisk ((fun s => s +:+ prefix_of (fst r) text) <$> content d) (taken d)
  end.

Definition heartbeatText (now : Time) : string := pretty (UnixMilli now) +:+ newline.

(** [File.Write]: pieces until everything is written. *)
Fixpoint writeAll (fuel : nat) (text : string) : calls (option error) :=
  match fuel with
  | O => Return None
  | S fuel =>
      if String.eqb text "" then Return None else
      r ← ask (WriteSome text);
      match r : nat * option error with
      | (_, Some err) => Return (Some err)
      | (O, None) => Return (Some (Errorf "unexpected EOF"))
      | (n, None) => writeAll fuel (drop_string n text)
      end
  end.

Definition WriteFile (text : string) : calls (option error) :=
  opened ← ask OpenTruncate;
  match opened with Some err => Return (Some err) | None =>
  written ← writeAll (String.length text) text;
  closed ← ask CloseFile;
  Return (match written, closed with None, Some err => Some err | _, _ => written end)
  end.

Definition Touch (path : string) : calls (option error) :=
  if String.eqb path "" then Return None else
  made ← ask (MkdirAll path);
  match made : option error with Some err => Return (Some err) | None =>
  now ← ask ReadClock;
  WriteFile (heartbeatText now)
  end.

(** [Age] of what was read, [now] being the time after reading. *)
Definition Age (read : option string) (now : Time) : reply Duration :=
  match read with
  | None => inr (Errorf "file does not exist")
  | Some b =>
      match Users.ParseInt (TrimSpace b) with
      | None => inr (Errorf "invalid heartbeat")
      | Some ms => inl (TimeSub now (fromUnixMilli ms))
      end
  end.

(** ** Touching, dying and starting again *)

Inductive beats (path : string) : calls (option error) * Disk -> calls (option error) * Disk -> Prop :=
  | beats_call c k d a d' : does c d a d' -> beats path (Ask c k, d) (k a, d')
  | beats_again p d : beats path (p, d) (Touch path, d).

(** One call of [p] from [d] that returns [a]. *)
Inductive exec {A} : calls A -> Disk -> A -> Disk -> Prop :=
  | exec_return a d : exec (Return a) d a d
  | exec_call c k d b d' a d'' : does c d b d' -> exec (k b) d' a d'' -> exec (Ask c k) d a d''.

(** *** Reading what was written *)

Lemma digit_value_spec c v : digit_value c = Some v -> 0 <= v < 10 /\ is_space c = false /\ c <> "-"%char /\ c <> "+"%char.
Proof.
  unfold digit_value, is_space. destruct (_ && _) eqn:E; [|done]. intros [= <-]. apply andb_prop in E as [?%Z.leb_le ?%Z.leb_le].
  split_and!; [lia|lia| |by intros ->..]. apply orb_false_intro; [|apply N.eqb_neq; lia].
  apply andb_false_intro2, N.leb_gt. lia.
Qed.

Lemma parse_digits_grows s : forall acc n, 0 <= acc -> parse_digits acc s = Some n -> acc <= n.
Proof.
  induction s as [|c s IH]; intros acc n Ha; simpl; [intros [= ->]; lia|].
  intros (v & Hv & E)%bind_Some. apply digit_value_spec in Hv as [? _]. apply IH in E; lia.
Qed.

Lemma scan_prefix p q : forall acc n, 0 <= acc -> parse_digits acc (p +:+ q) = Some n ->
  exists v, scan_digits p acc = (v, String.length p, "") /\ acc <= v <= n /\ (q = "" -> v = n).
Proof.
  induction p as [|c p IH]; intros acc n Ha.
  - intros E. exists acc. split; [done|]. split; [split; [lia|exact (parse_digits_grows q acc n Ha E)]|].
    intros ->. by injection E.
  - intros (v & Hv & E)%bind_Some. pose proof (digit_value_spec _ _ Hv) as [Hr _].
    destruct (IH (10 * acc + v) n ltac:(lia) E) as (x & E' & Hx & Hq). exists x.
    cbn [scan_digits]. rewrite Hv, E'. split; [done|]. split; [lia|done].
Qed.

Lemma digits_no_space s : forall acc n, parse_digits acc s = Some n ->
  forall_string (fun c => negb (is_space c)) s = true.
Proof.
  induction s as [|c s IH]; intros acc n; [done|]. intros (v & Hv & E)%bind_Some. cbn.
  rewrite (IH _ _ E), andb_true_r. by apply digit_value_spec in Hv as (_ & -> & _).
Qed.

Lemma ParseInt_prefix p q n : parse_digits 0 (p +:+ q) = Some n ->
  match Users.ParseInt p with
  | Some ms => ms <= n /\ (q = "" -> ms = n)
  | None => p = "" \/ max_int64 < n
  end.
Proof.
  intros E. destruct (scan_prefix p q 0 n ltac:(lia) E) as (v & Hs & Hv & Hq).
  destruct p as [|c p]; [by left|]. unfold Users.ParseInt.
  assert (Hc : c <> "-"%char /\ c <> "+"%char).
  { cbn in E. apply bind_Some in E as (x & Hx & _). by apply digit_value_spec in Hx as (_ & _ & ?). }
  replace (match String c p with String "-" s => (true, s) | String "+" s => (false, s) | _ => (false, String c p) end)
    with (false, String c p) by (destruct Hc; destruct c as [[] [] [] [] [] [] [] []]; done).
  rewrite Hs. cbn. destruct (Z.leb_spec min_int64 v); [|unfold min_int64 in *; lia].
  destruct (Z.leb_spec v max_int64); cbn; [|right; lia]. split; [lia|done].
Qed.

Lemma prefix_cases p q s : p +:+ q = s +:+ newline -> (exists q', p +:+ q' = s) \/ p = s +:+ newline.
Proof.
  revert p. induction s as [|c s IH]; intros [|x p] E.
  - left. by exists "".
  - right. injection E as Ex E. destruct p; [|done]. by rewrite Ex.
  - left. by exists (String c s).
  - injection E as -> E. destruct (IH p E) as [[q' <-]| ->]; [left; by exists q'|by right].
Qed.

Lemma TrimSpace_newline s : s <> "" -> forall_string (fun c => negb (is_space c)) s = true ->
  TrimSpace (s +:+ newline) = s.
Proof.
  intros Hne Hs. unfold TrimSpace.
  assert (El : trim_left_by is_space (s +:+ newline) = s +:+ newline).
  { destruct s as [|c s]; [done|]. cbn in Hs. apply andb_prop in Hs as [Hc%negb_true_iff _].
    change (trim_left_by is_space (String c (s +:+ newline)) = String c (s +:+ newline)). cbn [trim_left_by]. by rewrite Hc. }
  rewrite El. clear El Hne. induction s as [|c s IH]; [done|]. cbn in Hs. apply andb_prop in Hs as [Hc Hs].
  apply negb_true_iff in Hc. specialize (IH Hs).
  change (match trim_right_by is_space (s +:+ newline) with
          | "" => if is_space c then "" else String c "" | u => String c u end = String c s). rewrite IH. destruct s; [by rewrite Hc|done].
Qed.

Lemma pretty_digits n : 0 <= n -> pretty n <> "" /\ parse_digits 0 (pretty n) = Some n.
Proof.
  intros Hn. pose proof (digits_of_pretty n Hn) as E. unfold digits_of in E.
  destruct (String.eqb_spec (pretty n) ""); [done|]. by split.
Qed.

(** A file that holds a part of what was to be written never looks younger. *)
Lemma Age_prefix t p q now age : 0 <= t -> p +:+ q = heartbeatText t -> Age (Some p) now = inl age ->
  TimeSub now t <= age.
Proof.
  intros Ht Hp Ha. destruct (pretty_digits (UnixMilli t)) as [Hne Hd]; [by apply Z.div_pos|].
  pose proof (digits_no_space _ _ _ Hd) as Hsp. cbn [Age] in Ha.
  assert (Hms : forall ms, ms <= UnixMilli t -> TimeSub now t <= TimeSub now (fromUnixMilli ms)).
  { intros ms Hms. pose proof (Z.mul_div_le t Millisecond ltac:(done)) as H'. unfold UnixMilli, fromUnixMilli, TimeSub, Millisecond in *. nia. }
  destruct (prefix_cases _ _ _ Hp) as [[q' E]| ->].
  - assert (Hsp' : forall_string (fun c => negb (is_space c)) p = true).
    { rewrite <- E, forall_string_app in Hsp. by apply andb_prop in Hsp as [? _]. }
    rewrite TrimSpace_id in Ha by done. rewrite <- E in Hd. pose proof (ParseInt_prefix _ _ _ Hd) as HP.
    destruct (Users.ParseInt p); [|done]. injection Ha as <-. apply Hms, HP.
  - rewrite TrimSpace_newline in Ha by done. rewrite <- (append_nil (pretty _)) in Hd.
    pose proof (ParseInt_prefix _ _ _ Hd) as HP. destruct (Users.ParseInt _); [|done]. injection Ha as <-. apply Hms, HP.
Qed.

(** A file that was written completely gives the time to the millisecond. *)
Lemma Age_whole t now : 0 <= t -> t <= max_int64 ->
  Age (Some (heartbeatText t)) now = inl (TimeSub now (fromUnixMilli (UnixMilli t))).
Proof.
  intros Ht Hmax. destruct (pretty_digits (UnixMilli t)) as [Hne Hd]; [by apply Z.div_pos|].
  pose proof (digits_no_space _ _ _ Hd) as Hsp. unfold Age, heartbeatText. rewrite TrimSpace_newline by done.
  rewrite <- (append_nil (pretty _)) in Hd. pose proof (ParseInt_prefix _ _ _ Hd) as HP.
  destruct (Users.ParseInt _) as [ms|]; [by destruct HP as [_ ->]|]. exfalso. destruct HP as [|HP]; [done|].
  pose proof (Z.mul_div_le t Millisecond ltac:(done)) as H'. unfold UnixMilli, Millisecond, max_int64 in *. lia.
Qed.

(** *** What the file holds at any moment *)

Record sane (d : Disk) : Prop := {
  sane_order : StronglySorted (fun t u => u <= t) (taken d);
  sane_after_1970 : Forall (fun t => 0 <= t) (taken d);
  sane_content s : content d = Some s -> exists t q, t ∈ taken d /\ s +:+ q = heartbeatText t
}.

Fixpoint keeps {A} (p : calls A) (Q : A -> Disk -> Prop) (d : Disk) : Prop :=
  sane d /\ match p with
            | Return a => Q a d
            | Ask c k => forall a d', does c d a d' -> keeps (k a) Q d'
            end.

Lemma keeps_sane {A} (p : calls A) Q d : keeps p Q d -> sane d.
Proof. by destruct p; intros [? _]. Qed.

Lemma disk_keeps_bind {A B} (p : calls A) (k : A -> calls B) Q d :
  keeps p (fun a d => keeps (k a) Q d) d -> keeps (p ≫= k) Q d.
Proof. revert d. induction p as [a|c k' IH]; intros d; [by intros [_ ?]|]. intros [Hs Hk]. split; [done|]. intros a d' Hd. by apply IH, Hk. Qed.

Lemma keeps_mono {A} (p : calls A) (Q Q' : A -> Disk -> Prop) d :
  (forall a d, sane d -> Q a d -> Q' a d) -> keeps p Q d -> keeps p Q' d.
Proof.
  intros HQ. revert d. induction p as [a|c k IH]; intros d [Hs Hk]; (split; [done|]); [by apply HQ|].
  intros a d' Hd. by apply IH, Hk.
Qed.

Lemma keeps_exec {A} (p : calls A) Q d a d' : exec p d a d' -> keeps p Q d -> Q a d'.
Proof. induction 1 as [a d|c k d b d' a d'' Hd _ IH]; [by intros [_ ?]|]. intros [_ Hk]. by apply IH, Hk. Qed.

Lemma sane_written d t w q : sane d -> t ∈ taken d -> w +:+ q = heartbeatText t -> sane (MkDisk (Some w) (taken d)).
Proof. intros [Ho Hp Hc] Ht E. constructor; [done|done|]. intros s [= <-]. by exists t, q. Qed.

Lemma sane_clock d now : sane d -> (forall t, head (taken d) = Some t -> t <= now) -> 0 <= now ->
  sane (MkDisk (content d) (now :: taken d)).
Proof.
  intros [Ho Hp Hc] Hl Hn. constructor; cbn.
  - constructor; [done|]. destruct (taken d) as [|u l]; [done|]. specialize (Hl u eq_refl).
    apply StronglySorted_inv in Ho as [_ Ho]. constructor; [done|]. eapply Forall_impl; [exact Ho|]. intros x Hx; cbn in Hx; lia.
  - by constructor.
  - intros s Es. destruct (Hc s Es) as (t & q & Ht & E). exists t, q. split; [by right|done].
Qed.

Lemma drop_string_length n s : String.length (drop_string n s) = (String.length s - n)%nat.
Proof. revert s. induction n as [|n IH]; intros [|c s]; cbn; try done. Qed.

Definition written (t : Time) (l : list Time) (r : option error) (d : Disk) : Prop :=
  taken d = l /\ (r = None -> content d = Some (heartbeatText t)).

Lemma writeAll_keeps t fuel : forall w text d, (String.length text <= fuel)%nat -> sane d -> t ∈ taken d ->
  content d = Some w -> w +:+ text = heartbeatText t -> keeps (writeAll fuel text) (written t (taken d)) d.
Proof.
  induction fuel as [|fuel IH]; intros w text d Hf Hs Ht Hc E; cbn [writeAll].
  - destruct text as [|x text]; [|cbn in Hf; lia]. split; [done|]. split; [done|]. intros _. by rewrite Hc, <- E, append_nil.
  - destruct (String.eqb_spec text "") as [->|Hne].
    { split; [done|]. split; [done|]. intros _. by rewrite Hc, <- E, append_nil. }
    split; [done|]. intros [n e] d' Hd. cbn in Hd. rewrite Hc in Hd. cbn in Hd. subst d'.
    assert (E' : (w +:+ prefix_of n text) +:+ drop_string n text = heartbeatText t).
    { by rewrite string_app_assoc, prefix_drop. }
    assert (Hs' : sane (MkDisk (Some (w +:+ prefix_of n text)) (taken d))) by by eapply sane_written.
    destruct n as [|n], e as [err|]; try (split; [exact Hs'|by split]).
    apply (IH (w +:+ prefix_of (S n) text) _ (MkDisk (Some (w +:+ prefix_of (S n) text)) (taken d))); try done. rewrite drop_string_length.
    destruct text; [done|]. cbn in *. lia.
Qed.

Definition touched (path : string) (l : list Time) (r : option error) (d : Disk) : Prop :=
  path <> "" -> r = None -> exists t, taken d = t :: l /\ content d = Some (heartbeatText t).

Lemma Touch_keeps path d : sane d -> keeps (Touch path) (touched path (taken d)) d.
Proof.
  intros Hs. unfold Touch. destruct (String.eqb_spec path "") as [->|Hp]; [split; [done|by intros []]|].
  split; [done|]. intros [err|] d' ->; [split; [done|by intros _ [=]]|]. split; [done|]. intros now d' (Hl & Hn & ->).
  pose proof (sane_clock d now Hs Hl Hn) as Hs'. split; [done|]. intros [err|] d'; [intros ->; split; [done|by intros _ [=]]|]. cbn. intros ->.
  assert (Hs2 : sane (MkDisk (Some "") (now :: taken d))).
  { apply (sane_written _ now "" (heartbeatText now) Hs'); [left|done]. }
  apply disk_keeps_bind. eapply keeps_mono; [|by eapply (writeAll_keeps now _ "" _ _ (le_n _) Hs2); [left|..]].
  intros r d1 Hs1 [El Hc]. split; [done|]. intros closed d' ->. split; [done|]. intros _ Hr. exists now. split; [exact El|].
  apply Hc. by destruct r.
Qed.

Lemma beats_keep path x y : beats path x y -> keeps x.1 (fun _ _ => True) x.2 -> keeps y.1 (fun _ _ => True) y.2.
Proof.
  intros [c k d a d' Hd|p d]; cbn; [intros [_ Hk]; by apply Hk|].
  intros Hs%keeps_sane. eapply keeps_mono; [|by apply Touch_keeps]. done.
Qed.

Lemma beats_all_keep path x y : rtc (beats path) x y -> keeps x.1 (fun _ _ => True) x.2 -> keeps y.1 (fun _ _ => True) y.2.
Proof. induction 1 as [|x y z Hxy _ IH]; [done|]. intros Hk. by eapply IH, beats_keep. Qed.

(** The watchdog is not deceived: at whatever moment it reads the file, while it is being
    written or after the writer died, an age it sees is at least the time that passed since
    the writer last looked at its clock. *)
Theorem stale_is_seen path d0 p d T now age : sane d0 -> rtc (beats path) (Touch path, d0) (p, d) ->
  head (taken d) = Some T -> Age (content d) now = inl age -> TimeSub now T <= age.
Proof.
  intros Hs Hr HT Ha.
  assert (Hk : keeps p (fun _ _ => True) d).
  { apply (beats_all_keep path _ _ Hr). eapply keeps_mono; [|by apply Touch_keeps]. done. }
  destruct (keeps_sane _ _ _ Hk) as [Ho Hp Hc]. destruct (content d) as [s|]; [|done].
  destruct (Hc s eq_refl) as (t & q & Ht & E). rewrite Forall_forall in Hp.
  pose proof (Age_prefix t s q now age (Hp t Ht) E Ha) as Hage.
  assert (t <= T); [|unfold TimeSub in *; lia].
  destruct (taken d) as [|u l]; [done|]. injection HT as ->. apply StronglySorted_inv in Ho as [_ Ho].
  apply elem_of_cons in Ht as [->|Ht]; [lia|]. rewrite Forall_forall in Ho. by apply Ho.
Qed.

(** A touch that returns without error is read back, to the millisecond. *)
Theorem touch_is_read path d d' now : sane d -> path <> "" -> exec (Touch path) d None d' ->
  exists T, taken d' = T :: taken d
  /\ (T <= max_int64 -> Age (content d') now = inl (TimeSub now (fromUnixMilli (UnixMilli T)))).
Proof.
  intros Hs Hp He. pose proof (keeps_exec _ _ _ _ _ He (Touch_keeps path d Hs)) as Ht.
  destruct (Ht Hp eq_refl) as (T & El & Hc). exists T. split; [done|]. intros Hmax. rewrite Hc. apply Age_whole; [|done].
  assert (Hk : keeps (Touch path) (fun _ d => 0 <= default 0 (head (taken d))) d).
  { eapply keeps_mono; [|by apply Touch_keeps]. intros a d1 [_ H1 _] _. by destruct H1. }
  pose proof (keeps_exec _ _ _ _ _ He Hk) as H0'. cbn in H0'. by rewrite El in H0'.
Qed.

(** Half of a heartbeat is an old one, an empty file none. *)
Example read_while_writing :
  let text := heartbeatText (1700000000123 * Millisecond) in
  Age (Some text) (1700000002123 * Millisecond) = inl (2 * Second)
  /\ Age (Some (prefix_of 12 text)) (1700000002123 * Millisecond) = inl ((1700000002123 - 170000000012) * Millisecond)
  /\ Age (Some "") 0 = inr (Errorf "invalid heartbeat").
Proof. vm_compute. by split_and!. Qed.
End Heartbeat.
