(* ===== verification/AccountsFacts.v ===== *)
(** What the clients of the account tables keep.

    [kept]: no user is lost, versions only grow, and while the version of a user stays the
    same so do the password and the state of the account, and no right is lost.
    [protected]: the super administrators of some tables [T0], their role and its
    permissions are as they were there, and there are no others. *)
From S2P Require Import Prelude Json World Rpc Sha256 Wire Shared Password Accounts Commits.
Import Accounts.

Open Scope string_scope.
Open Scope list_scope.
Open Scope Z_scope.

(** ** Later tables *)

Definition retains (i : Z) (T T' : Tables) : Prop :=
  (forall p, p ∈ grants i (role_permissions T) T -> p ∈ grants i (role_permissions T') T')
  /\ (forall p, p ∈ grants i (role_instruments T) T -> p ∈ grants i (role_instruments T') T')
  /\ (existsb r_All (rolesOf i T) = true -> existsb r_All (rolesOf i T') = true).

Definition same_login (u u' : User) : Prop := u_Hash u' = u_Hash u /\ u_Enabled u' = u_Enabled u.

Definition kept (T T' : Tables) : Prop := forall i u, user i T = Some u ->
  exists u', user i T' = Some u' /\ u_Version u <= u_Version u'
    /\ (u_Version u' = u_Version u -> same_login u u' /\ retains i T T').

#[export] Instance kept_preorder : PreOrder kept.
Proof.
  split.
  - intros T i u Hu. exists u. split_and!; [done|lia|]. intros _. by repeat split.
  - intros T1 T2 T3 H12 H23 i u Hu. destruct (H12 i u Hu) as (u2 & Hu2 & Hv2 & Hk2).
    destruct (H23 i u2 Hu2) as (u3 & Hu3 & Hv3 & Hk3). exists u3. split_and!; [done|lia|].
    intros Hv. destruct Hk2 as [[] (?&?&?)]; [lia|]. destruct Hk3 as [[] (?&?&?)]; [lia|].
    split; [split; congruence|]. split_and!; auto.
Qed.

Lemma elem_of_sorted p l : p ∈ sorted l <-> p ∈ l.
Proof. unfold sorted. rewrite merge_sort_Permutation. apply elem_of_remove_dups. Qed.

Lemma elem_of_roleIDs i r T : r ∈ roleIDs i T <-> (i, r) ∈ user_roles T.
Proof.
  unfold roleIDs. rewrite list_elem_of_fmap. split.
  - intros ([i' r'] & -> & [Hi Hin]%list_elem_of_filter). simpl in *. by subst.
  - intros Hin. exists (i, r). split; [done|]. by apply list_elem_of_filter.
Qed.

Lemma elem_of_grants p i l T : p ∈ grants i l T <-> exists r, (i, r) ∈ user_roles T /\ (r, p) ∈ l.
Proof.
  unfold grants. rewrite elem_of_sorted, list_elem_of_fmap. split.
  - intros ([r p'] & -> & [Hr Hin]%list_elem_of_filter). exists r. split; [by apply elem_of_roleIDs|done].
  - intros (r & Hr & Hin). exists (r, p). split; [done|]. apply list_elem_of_filter. by split; [apply elem_of_roleIDs|].
Qed.

Lemma everywhere_spec i T : existsb r_All (rolesOf i T) = true <->
  exists row, row ∈ roles T /\ r_All row = true /\ (i, r_ID row) ∈ user_roles T.
Proof.
  rewrite existsb_exists. unfold rolesOf. split.
  - intros (row & Hin%list_elem_of_In%list_elem_of_filter & Ha). destruct Hin as [Hr Hin].
    exists row. split_and!; [done|done|by apply elem_of_roleIDs].
  - intros (row & Hin & Ha & Hr). exists row. split; [|done]. apply list_elem_of_In, list_elem_of_filter.
    by split; [apply elem_of_roleIDs|].
Qed.

Lemma isSuper_spec i T : isSuper i T = true <->
  exists row, row ∈ roles T /\ r_Code row = "super_admin" /\ (i, r_ID row) ∈ user_roles T.
Proof.
  unfold isSuper. rewrite existsb_exists. unfold rolesOf. split.
  - intros (row & Hin%list_elem_of_In%list_elem_of_filter & Ha%String.eqb_eq). destruct Hin as [Hr Hin].
    exists row. split_and!; [done|done|by apply elem_of_roleIDs].
  - intros (row & Hin & Ha & Hr). exists row. split; [|by apply String.eqb_eq].
    apply list_elem_of_In, list_elem_of_filter. by split; [apply elem_of_roleIDs|].
Qed.

(** ** Users looked up *)

Lemma find_map_same {A} (f : A -> A) (p : A -> bool) l : (forall x, p (f x) = p x) ->
  find p (map f l) = f <$> find p l.
Proof. intros Hf. induction l as [|x l IH]; [done|]. cbn. rewrite Hf. by destruct (p x). Qed.

Lemma find_app_found {A} (p : A -> bool) l l' x : find p l = Some x -> find p (l ++ l') = Some x.
Proof. induction l as [|y l IH]; [done|]. cbn. by destruct (p y). Qed.

Lemma user_id i T u : user i T = Some u -> u_ID u = i /\ u ∈ users T.
Proof. intros [Hin Hi]%find_some. split; [by apply Z.eqb_eq|by apply list_elem_of_In]. Qed.

Lemma role_id i T row : role i T = Some row -> r_ID row = i /\ row ∈ roles T.
Proof. intros [Hin Hi]%find_some. split; [by apply Z.eqb_eq|by apply list_elem_of_In]. Qed.

Lemma roleOf_code code T row : roleOf code T = Some row -> r_Code row = code /\ row ∈ roles T.
Proof. intros [Hin Hi]%find_some. split; [by apply String.eqb_eq|by apply list_elem_of_In]. Qed.

Lemma user_update i ids f T : (forall u, u_ID (f u) = u_ID u) ->
  user i (update_users ids f T) = (fun u => if bool_decide (i ∈ ids) then f u else u) <$> user i T.
Proof.
  intros Hf. unfold update_users, user at 1. cbn [users set_users].
  rewrite find_map_same by (intros u; case_bool_decide; [by rewrite Hf|done]). fold (user i T).
  destruct (user i T) as [u|] eqn:E; [|done]. apply user_id in E as [<- _]. done.
Qed.

(** ** What a transaction has changed so far

    The users [B] have a new version; only the rows of role [rr] may have lost anything;
    roles were given under the locks [ls]. *)
Record touches (ls : list Lock) (B : list Z) (rr : option Z) (T X : Tables) : Prop := {
  touch_users : forall i u, user i T = Some u -> exists u', user i X = Some u'
    /\ if bool_decide (i ∈ B) then u_Version u < u_Version u' else u_Version u' = u_Version u /\ same_login u u';
  touch_kept : forall i r, i ∉ B -> (i, r) ∈ user_roles T -> (i, r) ∈ user_roles X;
  touch_added : forall i r, (i, r) ∈ user_roles X -> (i, r) ∈ user_roles T \/ MkLock (RoleRow r) KeyShare ∈ ls;
  touch_permissions : forall r p, rr <> Some r -> (r, p) ∈ role_permissions T -> (r, p) ∈ role_permissions X;
  touch_instruments : forall r p, rr <> Some r -> (r, p) ∈ role_instruments T -> (r, p) ∈ role_instruments X;
  touch_roles : forall row, rr <> Some (r_ID row) -> row ∈ roles T -> row ∈ roles X
}.

Lemma touches_refl ls rr T : touches ls [] rr T T.
Proof. constructor; auto. intros i u Hu. exists u. by rewrite bool_decide_false by apply not_elem_of_nil. Qed.

(** At the commit the holders of the role that changed have a new version. *)
Lemma touches_kept ls B rr T X : touches ls B rr T X ->
  (forall r i, rr = Some r -> (i, r) ∈ user_roles T -> i ∈ B) -> kept T X.
Proof.
  intros [Hu Hk Ha Hp Hi Hr] Hrr i u Eu. destruct (Hu i u Eu) as (u' & Eu' & Hv). exists u'.
  case_bool_decide as HB.
  - split_and!; [done|lia|lia].
  - destruct Hv as [Hv Hl]. split_and!; [done|lia|]. intros _. split; [done|].
    assert (Hne : forall r, (i, r) ∈ user_roles T -> rr <> Some r) by (intros r Hin E; by eapply HB, Hrr).
    split_and!.
    + intros p. rewrite !elem_of_grants. intros (r & Hin & Hg). exists r. split; [by apply Hk|]. by apply Hp; [apply Hne|].
    + intros p. rewrite !elem_of_grants. intros (r & Hin & Hg). exists r. split; [by apply Hk|]. by apply Hi; [apply Hne|].
    + rewrite !everywhere_spec. intros (row & Hin & Hal & Hg). exists row. split_and!; [|done|by apply Hk].
      by apply Hr; [apply Hne|].
Qed.

(** One lemma per kind of change. *)
Lemma touches_weaken ls ls' B rr T X : (forall l, l ∈ ls -> l ∈ ls') -> touches ls B rr T X -> touches ls' B rr T X.
Proof. intros Hl [Hu Hk Ha Hp Hi Hr]. constructor; try done. intros i r [?|?]%Ha; auto. Qed.

Lemma touches_bump ls B rr T X ids f : (forall u, u_ID (f u) = u_ID u) -> (forall u, u_Version u < u_Version (f u)) ->
  touches ls B rr T X -> touches ls (ids ++ B) rr T (update_users ids f X).
Proof.
  intros Hid Hv [Hu Hk Ha Hp Hi Hr]. constructor; try done.
  - intros i u Eu. destruct (Hu i u Eu) as (u' & Eu' & Hu'). rewrite user_update, Eu' by done. eexists. split; [done|].
    repeat case_bool_decide; rewrite ?elem_of_app in *; try tauto; specialize (Hv u').
    + lia.
    + destruct Hu'. lia.
  - intros i r HB. apply Hk. intros Hin. apply HB, elem_of_app. by right.
Qed.

Lemma touches_silent ls B rr T X ids f : (forall u, u_ID (f u) = u_ID u) ->
  (forall u, u_Version (f u) = u_Version u /\ same_login u (f u)) ->
  touches ls B rr T X -> touches ls B rr T (update_users ids f X).
Proof.
  intros Hid Hv [Hu Hk Ha Hp Hi Hr]. constructor; try done.
  intros i u Eu. destruct (Hu i u Eu) as (u' & Eu' & Hu'). rewrite user_update, Eu' by done. eexists. split; [done|].
  destruct (Hv u') as [Hv' [Hh He]]. case_bool_decide as HB; case_bool_decide; try done; [lia|].
  destruct Hu' as [? []]. split; [congruence|split; congruence].
Qed.

Lemma touches_new_user ls B rr T X u : touches ls B rr T X -> touches ls B rr T (set_users (users X ++ [u]) X).
Proof.
  intros [Hu Hk Ha Hp Hi Hr]. constructor; try done. intros i v Ev. destruct (Hu i v Ev) as (v' & Ev' & Hv').
  exists v'. split; [|done]. by apply find_app_found.
Qed.

Lemma touches_give ls B rr T X new : (forall i r, (i, r) ∈ new -> MkLock (RoleRow r) KeyShare ∈ ls) ->
  touches ls B rr T X -> touches ls B rr T (set_user_roles (user_roles X ++ new) X).
Proof.
  intros Hn [Hu Hk Ha Hp Hi Hr]. constructor; try done; cbn [user_roles set_user_roles].
  - intros i r HB Hin. apply elem_of_app. left. by apply Hk.
  - intros i r [Hin|Hin]%elem_of_app; [by apply Ha|]. right. by eapply Hn.
Qed.

Lemma touches_take ls B rr T X i (hit : list (Z * Z)) : i ∈ B -> (forall x, x ∈ hit -> fst x = i) ->
  touches ls B rr T X -> touches ls B rr T (set_user_roles (filter (fun x => x ∉ hit) (user_roles X)) X).
Proof.
  intros HB Hh [Hu Hk Ha Hp Hi Hr]. constructor; try done; cbn [user_roles set_user_roles].
  - intros i' r HB' Hin. apply list_elem_of_filter. split; [|by apply Hk]. intros Hx%Hh. by simpl in Hx; subst.
  - intros i' r [_ Hin]%list_elem_of_filter. by apply Ha.
Qed.

Lemma touches_permissions ls B r T X l :
  (forall r' p, r' <> r -> (r', p) ∈ role_permissions X -> (r', p) ∈ l) ->
  touches ls B (Some r) T X -> touches ls B (Some r) T (set_role_permissions l X).
Proof.
  intros Hl [Hu Hk Ha Hp Hi Hr]. constructor; try done. intros r' p Hne Hin. apply Hl; [congruence|]. by apply Hp.
Qed.

Lemma touches_scopes ls B r T X l :
  (forall r' p, r' <> r -> (r', p) ∈ role_instruments X -> (r', p) ∈ l) ->
  touches ls B (Some r) T X -> touches ls B (Some r) T (set_role_instruments l X).
Proof.
  intros Hl [Hu Hk Ha Hp Hi Hr]. constructor; try done. intros r' p Hne Hin. apply Hl; [congruence|]. by apply Hi.
Qed.

Lemma touches_role ls B r T X l : (forall row, r_ID row <> r -> row ∈ roles X -> row ∈ l) ->
  touches ls B (Some r) T X -> touches ls B (Some r) T (set_roles l X).
Proof.
  intros Hl [Hu Hk Ha Hp Hi Hr]. constructor; try done. intros row Hne Hin. apply Hl; [congruence|]. by apply Hr.
Qed.

Lemma touches_log ls B rr T X row : touches ls B rr T X -> touches ls B rr T (add_log row X).
Proof. by intros [Hu Hk Ha Hp Hi Hr]. Qed.

(** ** Super administrators *)

Section Protected.
Context (T0 : Tables).

Definition super (i : Z) : Prop := isSuper i T0 = true.

(** The role of the super administrators. *)
Definition super_role (r : Z) : Prop := exists row, row ∈ roles T0 /\ r_ID row = r /\ r_Code row = "super_admin".

Definition same_account (u u' : User) : Prop :=
  u_Email u' = u_Email u /\ u_Hash u' = u_Hash u /\ u_Enabled u' = u_Enabled u.

Definition codes (T : Tables) : list (Z * string) := map (fun r => (r_ID r, r_Code r)) (roles T).

Record protected (T : Tables) : Prop := {
  protect_codes : codes T = codes T0;
  protect_role : forall row, r_Code row = "super_admin" -> row ∈ roles T0 -> row ∈ roles T;
  protect_members : forall i r, super i \/ super_role r -> (i, r) ∈ user_roles T <-> (i, r) ∈ user_roles T0;
  protect_accounts : forall i u, super i -> user i T0 = Some u -> exists u', user i T = Some u' /\ same_account u u';
  protect_permissions : forall r p, super_role r -> (r, p) ∈ role_permissions T <-> (r, p) ∈ role_permissions T0;
  protect_instruments : forall r p, super_role r -> (r, p) ∈ role_instruments T <-> (r, p) ∈ role_instruments T0
}.

Lemma protected_refl : protected T0.
Proof. constructor; try done. intros i u _ Hu. by exists u. Qed.

Lemma protected_super i T : protected T -> isSuper i T = true <-> super i.
Proof.
  intros [Hc _ Hm _ _ _]. unfold super. rewrite !isSuper_spec.
  assert (Hrow : forall T1 T2, codes T1 = codes T2 -> forall row, row ∈ roles T1 -> exists row', row' ∈ roles T2
    /\ r_ID row' = r_ID row /\ r_Code row' = r_Code row).
  { intros T1 T2 E row Hin. assert (Hx : (r_ID row, r_Code row) ∈ codes T2).
    { rewrite <- E. by apply (list_elem_of_fmap_2 (fun r => (r_ID r, r_Code r))). }
    apply list_elem_of_fmap in Hx as (row' & [= -> ->] & Hin'). by exists row'. }
  split; intros (row & Hin & Hs & Hg).
  - destruct (Hrow _ _ Hc row Hin) as (row' & Hin' & E1 & E2). exists row'. split_and!; [done|congruence|].
    rewrite E1. apply Hm; [|done]. right. exists row'. split_and!; [done|done|congruence].
  - destruct (Hrow _ _ (eq_sym Hc) row Hin) as (row' & Hin' & E1 & E2). exists row'. split_and!; [done|congruence|].
    rewrite E1. apply Hm; [|done]. right. by exists row.
Qed.

Lemma protected_actor i T : protected T -> ~ super i -> isSuper i T = false.
Proof. intros Hp Hi. apply not_true_is_false. by rewrite protected_super. Qed.

(** The ids of the roles do not change, nor do their codes. *)
Lemma protected_code T row r : NoDup (map r_ID (roles T0)) -> protected T -> row ∈ roles T -> super_role r ->
  r_ID row = r -> r_Code row = "super_admin".
Proof.
  intros Hnd [Hc _ _ _ _ _] Hin (row0 & Hin0 & E0 & Ec) Er.
  assert (Hx : (r_ID row, r_Code row) ∈ codes T0).
  { rewrite <- Hc. by apply (list_elem_of_fmap_2 (fun r => (r_ID r, r_Code r))). }
  apply list_elem_of_fmap in Hx as (row1 & [= E1 E2] & Hin1).
  assert (row1 = row0) as ->; [|congruence].
  apply list_elem_of_lookup in Hin0 as [k Hk], Hin1 as [k' Hk'].
  assert (k = k') as <-; [|congruence]. eapply (NoDup_lookup (map r_ID (roles T0))); [done| |].
  - by rewrite list_lookup_fmap, Hk.
  - rewrite list_lookup_fmap, Hk'. cbn. congruence.
Qed.

Lemma protect_update ids f T : (forall u, u_ID (f u) = u_ID u) ->
  (forall i u, i ∈ ids -> super i -> same_account u (f u)) -> protected T -> protected (update_users ids f T).
Proof.
  intros Hid Hs [Hc Hr Hm Ha Hp Hi]. constructor; try done. intros i u Hsup Hu.
  destruct (Ha i u Hsup Hu) as (u' & Hu' & Hsame). rewrite user_update, Hu' by done. eexists. split; [done|].
  case_bool_decide as Hin; [|done]. destruct (Hs i u' Hin Hsup) as (E1 & E2 & E3), Hsame as (E1' & E2' & E3').
  split_and!; congruence.
Qed.

Lemma protect_new_user u T : protected T -> protected (set_users (users T ++ [u]) T).
Proof.
  intros [Hc Hr Hm Ha Hp Hi]. constructor; try done. intros i v Hsup Hv.
  destruct (Ha i v Hsup Hv) as (v' & Hv' & Hsame). exists v'. split; [|done]. by apply find_app_found.
Qed.

Lemma protect_give new T : (forall i r, (i, r) ∈ new -> ~ super i /\ ~ super_role r) ->
  protected T -> protected (set_user_roles (user_roles T ++ new) T).
Proof.
  intros Hn [Hc Hr Hm Ha Hp Hi]. constructor; try done. cbn [user_roles set_user_roles]. intros i r Hs.
  rewrite elem_of_app, Hm by done. split; [|by left]. intros [|Hin]; [done|]. destruct (Hn i r Hin). tauto.
Qed.

Lemma not_super_roles i r : ~ super i -> super_role r -> (i, r) ∉ user_roles T0.
Proof. intros Hs (row & Hin & <- & Hc) Hg. apply Hs, isSuper_spec. by exists row. Qed.

Lemma protect_take i (hit : list (Z * Z)) T : ~ super i -> (forall x, x ∈ hit -> fst x = i) ->
  protected T -> protected (set_user_roles (filter (fun x => x ∉ hit) (user_roles T)) T).
Proof.
  intros Hns Hh [Hc Hr Hm Ha Hp Hi]. constructor; try done. cbn [user_roles set_user_roles]. intros i' r Hs.
  rewrite list_elem_of_filter, Hm by done. split; [by intros []|]. intros Hin. split; [|done].
  intros Hx%Hh. simpl in *. subst i'. destruct Hs as [Hs|Hs]; [done|]. by eapply not_super_roles.
Qed.

Lemma protect_permissions_of r l T : ~ super_role r ->
  (forall r' p, r' <> r -> (r', p) ∈ l <-> (r', p) ∈ role_permissions T) ->
  protected T -> protected (set_role_permissions l T).
Proof.
  intros Hn Hl [Hc Hr Hm Ha Hp Hi]. constructor; try done. intros r' p Hs. cbn [role_permissions set_role_permissions].
  rewrite Hl; [by apply Hp|]. by intros ->.
Qed.

Lemma protect_instruments_of r l T : ~ super_role r ->
  (forall r' p, r' <> r -> (r', p) ∈ l <-> (r', p) ∈ role_instruments T) ->
  protected T -> protected (set_role_instruments l T).
Proof.
  intros Hn Hl [Hc Hr Hm Ha Hp Hi]. constructor; try done. intros r' p Hs. cbn [role_instruments set_role_instruments].
  rewrite Hl; [by apply Hi|]. by intros ->.
Qed.

Lemma protect_update_role r name all T : ~ super_role r -> protected T ->
  protected (set_roles (map (fun row => if r_ID row =? r then MkRole r (r_Code row) name all else row) (roles T)) T).
Proof.
  intros Hn [Hc Hr Hm Ha Hp Hi]. constructor; try done.
  - rewrite <- Hc. unfold codes. cbn [roles set_roles]. rewrite map_map. apply map_ext. intros row.
    destruct (Z.eqb_spec (r_ID row) r); [by subst|done].
  - cbn [roles set_roles]. intros row Hcode Hin. apply list_elem_of_fmap. exists row. split; [|by apply Hr].
    destruct (Z.eqb_spec (r_ID row) r) as [E|]; [|done]. exfalso. apply Hn. by exists row.
Qed.

Lemma protect_log row T : protected T -> protected (add_log row T).
Proof. by intros [Hc Hr Hm Ha Hp Hi]. Qed.
End Protected.
