(* ===== verification/AccountsOps.v ===== *)
(** Each operation on accounts, among other clients: what it keeps and how it ends. *)
From S2P Require Import Prelude DecimalText Config Json World Rpc Sha256 Wire Shared Password Accounts Commits AccountsFacts Users.
Import Accounts Users.

Open Scope string_scope.
Open Scope list_scope.
Open Scope Z_scope.

Section Ops.
Context (strict : bool) (T0 : Tables).

(** A session in the cache has a version that its account once had. *)
Definition issued (h : list Tables) (x : Session) : Prop :=
  exists T u, T ∈ h /\ user (UserID x) T = Some u /\ u_Version u = AuthorizationVersion x.

Definition session_entry (h : list Tables) (key : string) (j : Json) : Prop :=
  forall token x, key = sessionKey token -> unmarshal_session j = Some x -> issued h x.

Definition role_guard (l : Lock) (T X : Tables) : Prop :=
  match l with
  | MkLock (RoleRow r) ForUpdate => forall i, (i, r) ∈ user_roles X -> (i, r) ∈ user_roles T
  | _ => True
  end.

Definition guarded_tables (T : Tables) : Prop := strict = true -> protected T0 T.

Lemma issued_later h h' x : issued h x -> h `suffix_of` h' -> issued h' x.
Proof. intros (T & u & HT & Hu) [h0 ->]. exists T, u. split; [|done]. apply elem_of_app. by right. Qed.

#[export, program] Instance account_rules : Rules := {|
  table_ok := guarded_tables; later := kept; entry_ok := session_entry; guarded := role_guard
|}.
Next Obligation. intros h h' key j He Hh token x Hk Hx. by eapply issued_later; [eapply He|]. Qed.
Next Obligation.
  intros [[] []]; split; try done; intros T1 T2 T3; cbn; auto.
Qed.
Next Obligation.
  intros [x a] [y b]. cbn. unfold conflicting. cbn. rewrite (bool_decide_ext (x = y) (y = x)) by done.
  f_equal. by destruct a, b.
Qed.

(** ** Commits *)

Definition changes (ls : list Lock) (B : list Z) (rr : option Z) (T X : Tables) : Prop :=
  touches ls B rr T X /\ guarded_tables X.

Lemma changes_committable ls B rr T X : changes ls B rr T X ->
  (forall r i, rr = Some r -> (i, r) ∈ user_roles T -> i ∈ B) -> committable ls T X.
Proof.
  intros [Ht Hg] Hrr. split_and!; [done|by eapply touches_kept|].
  intros [[] []] Hl; try done. intros i Hin. destruct (touch_added _ _ _ _ _ Ht _ _ Hin) as [|Hin']; [done|].
  specialize (Hl _ Hin'). cbn in Hl. unfold conflicting in Hl. cbn in Hl. by rewrite bool_decide_true in Hl.
Qed.

Context `{!Database} (c : nat) (s0 : state).

Abbreviation settled := (settled c s0).
Abbreviation pending := (pending c s0).
Abbreviation anything := (fun _ : @tables schema => True).

Lemma lasting_anything ls : @lasting schema account_rules ls anything.
Proof. done. Qed.

(** A statement that reads. *)
Lemma account_read {A} q (k : reply (Rows q) -> program A) ls F E Q s :
  (forall now drawn X w r, run_query q now drawn X = Some (w, r) -> w = id) -> pending ls F E s ->
  (forall s1 now drawn T X r, guarded_tables T -> F T -> E T X -> run_query q now drawn X = Some (id, r) ->
    pending ls F E s1 -> wp c (k (inl r)) Q s1) ->
  (forall s1 err, settled [] s1 -> wp c (k (inr err)) Q s1) ->
  wp c (Ask (TxExec q) k) Q s.
Proof.
  intros Hq Hs Hok Hfail. apply (client_tx c s0 q k ls F E); [exact Hs| |exact Hfail].
  intros s1 now drawn T X w r HT HF HE Hw. pose proof (Hq _ _ _ _ _ Hw) as ->.
  exists ls, F, E. split_and!; [by left|apply Hs|done|by intros|]. by eapply Hok.
Qed.

(** A statement that writes, under the locks [new] that it takes. *)
Lemma account_write {A} q (k : reply (Rows q) -> program A) new ls B B' rr Q s :
  (forall l drawn X, l ∈ new -> l ∈ query_locks q drawn X) ->
  pending ls anything (changes ls B rr) s ->
  (forall s1 now drawn X w r, guarded_tables X -> run_query q now drawn X = Some (w, r) ->
    (forall T X', changes (new ++ ls) B rr T X' -> changes (new ++ ls) B' rr T (w X'))
    /\ (pending (new ++ ls) anything (changes (new ++ ls) B' rr) s1 -> wp c (k (inl r)) Q s1)) ->
  (forall s1 err, settled [] s1 -> wp c (k (inr err)) Q s1) ->
  wp c (Ask (TxExec q) k) Q s.
Proof.
  intros Hnew Hs Hok Hfail. apply (client_tx c s0 q k ls anything (changes ls B rr)); [exact Hs| |exact Hfail].
  intros s1 now drawn T X w r HT _ HE Hw. destruct (Hok s1 _ _ _ _ _ (proj2 HE) Hw) as [Hch Hk].
  exists (new ++ ls), anything, (changes (new ++ ls) B' rr). split_and!; try done.
  - intros l [Hin|Hin]%elem_of_app; [right; by apply Hnew|by left].
  - intros T' X' _ _. split; [done|]. intros [Ht Hg]. apply Hch. split; [|done].
    eapply touches_weaken; [|exact Ht]. intros l Hl. apply elem_of_app. by right.
Qed.

(** ** How a handler ends *)

Abbreviation ended := (ended s0).
Abbreviation over := (over c s0).

Lemma begin_changes s : pending [] anything eq s -> pending [] anything (changes [] [] None) s.
Proof.
  intros [Hsd Hh Hl Ho]. constructor; try done. destruct Ho as [|(pend & Ho & Hls & HF & HE)]; [by left|]. right. exists pend.
  split_and!; [done|done|done|]. intros T HT _. rewrite <- HE by done. split; [apply touches_refl|done].
Qed.

Lemma wp_inTransaction (failed : Response) (body : program Response) V L s : settled L s -> V failed [] ->
  (forall s1, pending [] anything (changes [] [] None) s1 -> wp c body (ended V) s1) ->
  wp c (inTransaction failed body) (over V) s.
Proof.
  intros Hs HV Hb. unfold inTransaction. apply wp_bind.
  eapply wp_mono; [|apply (wp_of_transaction c s0 _ (fun r L => V (match r with inl x => x | inr _ => failed end) L) L); [exact Hs|done|]].
  - done.
  - intros s1 Hs1%begin_changes. apply wp_bind. eapply wp_mono; [|by apply Hb]. by intros r s2.
Qed.

(** A commit and what is done after it. *)
Lemma account_commit {A} (k : reply unit -> program A) ls F B rr Q s :
  pending ls F (changes ls B rr) s -> (forall T r i, F T -> rr = Some r -> (i, r) ∈ user_roles T -> i ∈ B) ->
  (forall s1 T X, touches ls B rr T X -> settled [X; T] s1 -> wp c (k (inl tt)) Q s1) ->
  (forall s1 err, settled [] s1 -> wp c (k (inr err)) Q s1) ->
  wp c (commit ≫= k) Q s.
Proof.
  intros Hs Hrr Hok Hfail. unfold commit, checked. apply wp_bind, wp_bind.
  apply (client_commit c s0 _ ls F (changes ls B rr)); [exact Hs| | |].
  - intros T X _ HF HE. eapply changes_committable; [exact HE|]. intros r i. by apply Hrr.
  - intros s1 T X _ _ [Ht _] Hs1. by eapply Hok.
  - intros s1 err. apply Hfail.
Qed.

Lemma log_committable ls row T : guarded_tables T -> committable ls T (add_log row T).
Proof.
  intros HT. split_and!.
  - intros Hst. apply protect_log. by apply HT.
  - intros i u Hu. exists u. split_and!; [done|lia|]. intros _. by repeat split.
  - intros [[] []]; cbn; auto.
Qed.

Lemma account_audit {A} uid action rt rid details (k : unit -> program A) L Q s : settled L s ->
  (forall s1, settled L s1 -> wp c (k tt) Q s1) -> wp c (auditResource uid action rt rid details ≫= k) Q s.
Proof.
  intros Hs Hk. unfold auditResource. apply (client_exec c s0 (InsertLog _) _ L); [exact Hs| | |].
  - intros now drawn T w r HT Hw. assert (w = add_log (MkLogRow (nullableAdminUser uid) action rt rid details)) as ->.
    { cbn in Hw. repeat case_match; try done; by injection Hw as <- _. }
    by apply log_committable.
  - intros s1 now drawn T w r _ _ Hs1. apply Hk. eapply settled_less; [exact Hs1|]. intros T' Hin. by do 2 right.
  - intros s1 err. apply Hk.
Qed.

(** ** Passwords and roles *)

Context `{!Argon2} `{!Mail}.

Lemma wp_HashPassword {A} password (k : reply string -> program A) P Q s : stable c P -> P s ->
  (forall s1 r, P s1 -> wp c (k r) Q s1) -> wp c (HashPassword password ≫= k) Q s.
Proof.
  intros HP Hs Hk. unfold HashPassword. case_match; [by apply Hk|].
  apply (client_random c 16 _ P); [exact HP|exact Hs|]. intros s1 [salt|err] Hs1; by apply Hk.
Qed.

(** The super administrators have rows of their own, the roles ids of their own. *)
Definition rooted : Prop := NoDup (map r_ID (roles T0)) /\ forall i, super T0 i -> user i T0 <> None.
Context (Hroot : strict = true -> rooted).

(** The roles to give are not that of the super administrators. *)
Definition plain_roles (ids : list Z) : Prop := strict = true -> Forall (fun r => ~ super_role T0 r) ids.
Definition plain_user (i : Z) : Prop := strict = true -> ~ super T0 i.

Lemma plain_role T code row : guarded_tables T -> roleOf code T = Some row -> code <> "super_admin" ->
  strict = true -> ~ super_role T0 (r_ID row).
Proof.
  intros HT Hrow Hne Hst Hs. apply roleOf_code in Hrow as [<- Hin]. apply Hne.
  eapply protected_code; [by apply Hroot|by apply HT|done|exact Hs|done].
Qed.

Definition going (ls : list Lock) (B : list Z) (rr : option Z) (s : state) : Prop :=
  pending ls anything (changes ls B rr) s.
Definition stopped (s : state) : Prop := Sound s /\ history s0 `suffix_of` history s.

Lemma wp_resolveRoleIDs codes ls B rr s : going ls B rr s ->
  wp c (resolveRoleIDs codes) (fun r s1 => match r with
    | inl ids => going ls B rr s1 /\ ("super_admin" ∉ codes -> plain_roles ids)
    | inr _ => stopped s1 end) s.
Proof.
  revert s. induction codes as [|code codes IH]; intros s Hs.
  { split; [done|]. intros _ _. constructor. }
  cbn [resolveRoleIDs]. unfold orFail. eapply (account_read (SelectRoleID code)); [by intros now drawn X w r [= <- <-]|exact Hs| |].
  2: intros s1 err Hs1; by eapply settled_ends.
  clear s Hs. intros s now drawn T X r _ _ [_ HX] [= <-] Hs.
  destruct (roleOf code X) as [row|] eqn:Er; cbn [fmap option_fmap option_map]; [|by eapply pending_ends].
  apply wp_bind. eapply wp_mono; [|by apply IH]. intros [ids|err] s1; [|done]. intros [Hs1 Hids]. split; [done|].
  intros Hn Hst. constructor; [|by apply Hids; [intros ?; apply Hn; right|]].
  eapply plain_role; [exact HX|exact Er| |done]. intros ->. apply Hn. left.
Qed.

Lemma wp_insertUserRoles i ids ls B s : plain_user i -> plain_roles ids -> going ls B None s ->
  wp c (insertUserRoles i ids) (fun r s1 => match r with
    | inl _ => exists ls', going ls' B None s1
    | inr _ => stopped s1 end) s.
Proof.
  intros Hi. revert ls s. induction ids as [|id ids IH]; intros ls s Hids Hs; [by exists ls|].
  cbn [insertUserRoles]. unfold orFail.
  apply (account_write (InsertUserRole i id) _ [MkLock (RoleRow id) KeyShare] ls B B None).
  - intros l drawn X ->%list_elem_of_singleton. right. left.
  - exact Hs.
  - intros s1 now drawn X w r _ Hw. cbn in Hw. split.
    + intros T X' [Ht Hg]. destruct (user i X), (role id X); try done. case_bool_decide; [done|].
      injection Hw as <- <-. split.
      * apply touches_give; [|done]. intros i' r' [= -> ->]%list_elem_of_singleton. left.
      * intros Hst. apply protect_give; [|by apply Hg]. intros i' r' [= -> ->]%list_elem_of_singleton.
        split; [by apply Hi|]. by apply (Forall_inv (Hids Hst)).
    + intros Hs1. eapply IH; [|exact Hs1]. intros Hst. by apply (Forall_inv_tail (Hids Hst)).
  - intros s1 err Hs1. by eapply settled_ends.
Qed.

(** ** The handlers of users *)

Definition bumped (i : Z) (T X : Tables) : Prop := forall u, user i T = Some u ->
  exists u', user i X = Some u' /\ u_Version u < u_Version u'.

Lemma touches_bumped ls B rr T X i : touches ls B rr T X -> i ∈ B -> bumped i T X.
Proof.
  intros [Hu _ _ _ _ _] Hi u Eu. destruct (Hu i u Eu) as (u' & Eu' & Hv). exists u'.
  by rewrite bool_decide_true in Hv.
Qed.

(** An answer without content: the account has a new version. *)
Definition renewed (i : Z) (r : Response) (L : list Tables) : Prop :=
  Code r = 204 -> exists T X, T ∈ L /\ X ∈ L /\ bumped i T X.

Lemma stopped_ended {A} (V : A -> list Tables -> Prop) a s : stopped s -> V a [] -> ended V a s.
Proof. intros [? ?] HV. by exists []. Qed.

Lemma wp_isSuperAdmin {A} i (k : reply bool -> program A) ls B rr Q s : going ls B rr s ->
  (forall s1 b, going ls B rr s1 -> (strict = true -> b = true <-> super T0 i) -> wp c (k (inl b)) Q s1) ->
  (forall s1 err, stopped s1 -> wp c (k (inr err)) Q s1) ->
  wp c (isSuperAdmin i ≫= k) Q s.
Proof.
  intros Hs Hok Hfail. unfold isSuperAdmin.
  eapply (account_read (SelectIsSuperAdmin i)); [by intros now drawn X w r [= <- <-]|exact Hs| |].
  - intros s1 now drawn T X r _ _ [_ HX] [= <-] Hs1. apply Hok; [done|]. intros Hst. by apply protected_super, HX.
  - intros s1 err Hs1. eapply Hfail, settled_ends, Hs1.
Qed.

Ltac answer := match goal with
  | H : going _ _ _ _ |- _ => eapply ended_pending; [exact H|first [by intros [=]|done]]
  | H : pending _ _ _ _ |- _ => eapply ended_pending; [exact H|first [by intros [=]|done]]
  | H : stopped _ |- _ => eapply stopped_ended; [exact H|first [by intros [=]|done]]
  | H : settled _ _ |- _ => eapply ended_settled; [exact H|first [by intros [=]|done]]
  end.

(** From the commit of a changed account on. *)
Lemma wp_renew i ls B rr uid action rt rid details failed s : going ls B rr s -> i ∈ B -> rr = None ->
  (forall err, Code (failed err) <> 204) ->
  wp c (orRespond commit failed (fun _ => auditResource uid action rt rid details ≫= fun _ => Return noContent))
    (ended (renewed i)) s.
Proof.
  intros Hs Hi -> Hf. unfold orRespond.
  eapply account_commit; [exact Hs|done| |].
  - intros s1 T X Ht Hs1. apply (account_audit _ _ _ _ _ _ [X; T]); [exact Hs1|]. intros s2 Hs2.
    eapply ended_settled; [exact Hs2|]. intros _. exists T, X. split_and!; [right; left|left|by eapply touches_bumped].
  - intros s1 err Hs1. eapply ended_settled; [exact Hs1|]. by intros E%Hf.
Qed.

(** A statement that gives the account [i] a new version. *)
Lemma account_bump {A} i q (f : Time -> User -> User) (k : reply (Rows q) -> program A) ls B Q s :
  (forall now drawn X w r, run_query q now drawn X = Some (w, r) -> w = update_users [i] (f now)) ->
  (forall now u, u_ID (f now u) = u_ID u /\ u_Version u < u_Version (f now u)) -> plain_user i ->
  going ls B None s ->
  (forall s1 r, going ls (i :: B) None s1 -> wp c (k (inl r)) Q s1) ->
  (forall s1 err, stopped s1 -> wp c (k (inr err)) Q s1) ->
  wp c (Ask (TxExec q) k) Q s.
Proof.
  intros Hq Hf Hi Hs Hok Hfail. apply (account_write q k [] ls B (i :: B) None); [|exact Hs| |].
  - by intros l drawn X ?%elem_of_nil.
  - intros s1 now drawn X w r _ Hw. pose proof (Hq _ _ _ _ _ Hw) as ->. split; [|by apply Hok].
    intros T X' [Ht Hg]. split.
    + apply (touches_bump _ _ _ _ _ [i]); [apply Hf..|done].
    + intros Hst. apply protect_update; [apply Hf| |by apply Hg]. intros i' u ->%list_elem_of_singleton Hsup.
      by destruct (Hi Hst).
  - intros s1 err Hs1. eapply Hfail, settled_ends, Hs1.
Qed.

(** The account is locked and read, then the roles of the actor and of the account. *)
Lemma wp_target {A} i (k : reply (option (string * bool)) -> program A) Q s : going [] [] None s ->
  (forall s1 r, going [] [] None s1 -> wp c (k (inl r)) Q s1) ->
  (forall s1 err, stopped s1 -> wp c (k (inr err)) Q s1) ->
  wp c (Ask (TxExec (SelectUserForUpdate i)) k) Q s.
Proof.
  intros Hs Hok Hfail. eapply account_read; [by intros now drawn X w r [= <- <-]|exact Hs| |].
  - intros s1 now drawn T X r _ _ _ _. apply Hok.
  - intros s1 err Hs1. eapply Hfail, settled_ends, Hs1.
Qed.

Definition plain_actor (x : Session) : Prop := plain_user (UserID x).

(** Only super administrators get past the check. *)
Lemma check_plain i x target actor : plain_actor x -> (strict = true -> target = true <-> super T0 i) ->
  (strict = true -> actor = true <-> super T0 (UserID x)) -> target && negb actor = false -> plain_user i.
Proof.
  intros Hx Ht Ha Hc Hst Hi. apply (Ht Hst) in Hi as ->. destruct actor; [|done].
  destruct (Hx Hst). by apply (Ha Hst).
Qed.

Lemma wp_revokeUserSessions x r L s : plain_actor x -> settled L s ->
  wp c (revokeUserSessions x r) (over (fun resp L => forall i, parseUserID r = Some i -> renewed i resp L)) s.
Proof.
  intros Hx Hs. unfold revokeUserSessions. destruct (parseUserID r) as [i|]; [|by exists L].
  eapply wp_mono; [|eapply (wp_inTransaction _ _ (renewed i) L); [exact Hs|by intros [=]|]].
  { intros resp s1 (L1 & Hs1 & Hr). exists L1. split; [done|]. by intros ? [= <-]. }
  clear s Hs. intros s Hs. unfold orRespond at 1. apply wp_target; [exact Hs| |intros; answer].
  clear s Hs. intros s [[email enabled]|] Hs; [|answer].
  unfold orRespond at 1. apply (wp_isSuperAdmin _ _ [] [] None); [exact Hs| |intros; answer].
  clear s Hs. intros s target Hs Ht. unfold orRespond at 1.
  apply (wp_isSuperAdmin _ _ [] [] None); [exact Hs| |intros; answer].
  clear s Hs. intros s actor Hs Ha. destruct (target && negb actor) eqn:Ec; [answer|].
  unfold orRespond at 1. eapply (account_bump i (BumpUser i) bump); [by intros now drawn X w [] [= <-]|..].
  - intros now u. split; [done|]. cbn. lia.
  - by eapply check_plain.
  - exact Hs.
  - intros s1 _ Hs1. eapply wp_renew; [exact Hs1|left|done|done].
  - intros; answer.
Qed.

Lemma wp_resetUserPassword x r L s : plain_actor x -> settled L s ->
  wp c (resetUserPassword x r) (over (fun resp L => forall i, parseUserID r = Some i -> renewed i resp L)) s.
Proof.
  intros Hx Hs. unfold resetUserPassword. destruct (parseUserID r) as [i|]; [|by exists L].
  unfold or_bad. destruct (decodeJSON _ r) as [l|]; [|by exists L; split; [|intros ? [= <-] [=]]].
  destruct (text "password" l) as [password|]; [|by exists L; split; [|intros ? [= <-] [=]]].
  unfold orRespond at 1. apply (wp_HashPassword _ _ (settled L)); [apply settled_stable|exact Hs|].
  clear s Hs. intros s [hash|err] Hs; [|by exists L; split; [|intros ? [= <-] [=]]].
  eapply wp_mono; [|eapply (wp_inTransaction _ _ (renewed i) L); [exact Hs|by intros [=]|]].
  { intros resp s1 (L1 & Hs1 & Hr). exists L1. split; [done|]. by intros ? [= <-]. }
  clear s Hs. intros s Hs. unfold orRespond at 1. apply wp_target; [exact Hs| |intros; answer].
  clear s Hs. intros s [[email enabled]|] Hs; [|answer].
  unfold orRespond at 1. apply (wp_isSuperAdmin _ _ [] [] None); [exact Hs| |intros; answer].
  clear s Hs. intros s actor Hs Ha. unfold orRespond at 1.
  apply (wp_isSuperAdmin _ _ [] [] None); [exact Hs| |intros; answer].
  clear s Hs. intros s target Hs Ht. destruct (target && negb actor) eqn:Ec; [answer|].
  unfold orRespond at 1. eapply (account_bump i (UpdatePassword hash i) (set_password hash)); [by intros now drawn X w [] [= <-]|..].
  - intros now u. split; [done|]. cbn. lia.
  - by eapply check_plain.
  - exact Hs.
  - intros s1 _ Hs1. eapply wp_renew; [exact Hs1|left|done|done].
  - intros; answer.
Qed.

Definition plain_codes (codes : list string) : Prop := strict = true -> "super_admin" ∉ codes.

Lemma plain_of codes ids : plain_codes codes -> ("super_admin" ∉ codes -> plain_roles ids) -> plain_roles ids.
Proof. intros Hc Hids Hst. by apply Hids; [apply Hc|]. Qed.

Lemma containsString_spec l x : containsString l x = true <-> x ∈ l.
Proof.
  unfold containsString. rewrite existsb_exists, list_elem_of_In. split.
  - by intros (y & Hin & ->%String.eqb_eq).
  - intros Hin. exists x. split; [done|by apply String.eqb_eq].
Qed.

Lemma check_codes codes target x actor : plain_actor x -> (strict = true -> actor = true <-> super T0 (UserID x)) ->
  (target || containsString codes "super_admin") && negb actor = false -> plain_codes codes.
Proof.
  intros Hx Ha Hc Hst Hin. apply containsString_spec in Hin. rewrite Hin, orb_true_r in Hc.
  destruct actor; [|done]. destruct (Hx Hst). by apply (Ha Hst).
Qed.

Lemma wp_replaceUser x i current email enabled codes s : plain_user i -> plain_codes codes -> going [] [] None s ->
  wp c (replaceUser x i current email enabled codes) (ended (renewed i)) s.
Proof.
  intros Hi Hc Hs. unfold replaceUser, orRespond at 1. apply wp_bind.
  eapply wp_mono; [|by apply wp_resolveRoleIDs]. clear s Hs. intros [ids|err] s Hs; [|answer].
  destruct Hs as [Hs Hids]. apply (plain_of codes) in Hids; [|done]. unfold orRespond at 1.
  eapply (account_bump i (UpdateUser email enabled i) (set_account email enabled));
    [intros now drawn X w [] Hw; cbn in Hw; by destruct (email_taken _ _ _); [|injection Hw as <-]| |done|exact Hs| |].
  { intros now u. split; [done|]. cbn. lia. }
  2: intros; answer.
  clear s Hs. intros s _ Hs. unfold orRespond at 1.
  apply (account_write (DeleteUserRoles i) _ [] [] [i] [i] None); [by intros l drawn X ?%elem_of_nil|exact Hs| |].
  2: intros s1 err Hs1; answer.
  clear s Hs. intros s now drawn X w [] _ [= <-]. split.
  { intros T X' [Ht Hg]. assert (Hhit : forall y, y ∈ filter (fun y => fst y = i) (user_roles X) -> fst y = i).
    { by intros y [? _]%list_elem_of_filter. }
    split; [by apply (touches_take _ _ _ _ _ i); [left|..]|].
    intros Hst. by apply (protect_take T0 i); [apply Hi|done|apply Hg]. }
  intros Hs. unfold orRespond at 1. apply wp_bind.
  eapply wp_mono; [|by eapply wp_insertUserRoles]. clear s Hs. intros [[]|err] s Hs; [|answer].
  destruct Hs as [ls Hs]. eapply wp_renew; [exact Hs|left|done|done].
Qed.

Lemma wp_updateUser x r L s : plain_actor x -> settled L s ->
  wp c (updateUser x r) (over (fun resp L => forall i, parseUserID r = Some i -> renewed i resp L)) s.
Proof.
  intros Hx Hs. unfold updateUser. destruct (parseUserID r) as [i|]; [|by exists L].
  assert (Hearly : forall resp, Code resp <> 204 ->
    over (fun resp L => forall j, Some i = Some j -> renewed j resp L) resp s).
  { intros resp Hn. exists L. split; [done|]. by intros j _ E%Hn. }
  unfold or_bad. destruct (decodeJSON _ r) as [l|]; [|by apply Hearly].
  destruct (text "email" l) as [raw|]; [|by apply Hearly]. destruct (ifield unmarshal_bool_ptr _ l) as [wanted|]; [|by apply Hearly].
  destruct (ifield _ "roles" l) as [given|]; [|by apply Hearly]. destruct (normalizeUserEmail raw) as [email|]; [|by apply Hearly].
  destruct (normalizeRoleCodes given) as [codes|]; [|by apply Hearly]. clear Hearly.
  eapply wp_mono; [|eapply (wp_inTransaction _ _ (renewed i) L); [exact Hs|by intros [=]|]].
  { intros resp s1 (L1 & Hs1 & Hr). exists L1. split; [done|]. by intros ? [= <-]. }
  clear s Hs. intros s Hs. unfold orRespond at 1. apply wp_target; [exact Hs| |intros; answer].
  clear s Hs. intros s [[current was]|] Hs; [|answer].
  unfold orRespond at 1. apply (wp_isSuperAdmin _ _ [] [] None); [exact Hs| |intros; answer].
  clear s Hs. intros s actor Hs Ha. unfold orRespond at 1.
  apply (wp_isSuperAdmin _ _ [] [] None); [exact Hs| |intros; answer].
  clear s Hs. intros s target Hs Ht. destruct ((target || _) && negb actor) eqn:Ec; [answer|].
  assert (Hi : plain_user i). { eapply check_plain; [exact Hx|exact Ht|exact Ha|]. by destruct target, actor. }
  pose proof (check_codes _ _ _ _ Hx Ha Ec) as Hc.
  destruct ((i =? UserID x) && negb _); [answer|]. destruct ((i =? UserID x) && target && _); [answer|].
  cbv zeta. destruct (was && target && _); [|by apply wp_replaceUser].
  unfold orRespond at 1. eapply (account_read (CountSuperAdminsExcept i)); [by intros now drawn X w y [= <- <-]|exact Hs| |].
  - clear s Hs. intros s now drawn T X n _ _ _ _ Hs. destruct (n =? 0); [answer|]. by apply wp_replaceUser.
  - intros s1 err Hs1. answer.
Qed.

Definition whatever {A} (_ : A) (_ : list Tables) : Prop := True.

(** A new id is not that of a super administrator. *)
Lemma serial_plain drawn X n : guarded_tables X -> serial drawn X = Some n -> plain_user n.
Proof.
  intros HX Hn Hst Hs. destruct (Hroot Hst) as [_ Hex].
  destruct (user n T0) as [u|] eqn:Eu; [|by destruct (Hex n Hs)].
  destruct (protect_accounts _ _ (HX Hst) n u Hs Eu) as (u' & Hu' & _). apply user_id in Hu' as [<- Hin].
  revert Hn. unfold serial. destruct (head drawn) as [m|]; [|done]. cbn.
  destruct (existsb _ (users X)) eqn:Ex; [by rewrite andb_false_r|]. case_bool_decide; [|done]. intros [= ->].
  apply not_true_iff_false in Ex. apply Ex, existsb_exists. exists u'. split; [by apply list_elem_of_In|by apply Z.eqb_eq].
Qed.

Lemma wp_createUser x r L s : plain_actor x -> settled L s -> wp c (createUser x r) (over whatever) s.
Proof.
  intros Hx Hs. unfold createUser.
  assert (Hearly : forall resp, over whatever (resp : Response) s) by (intros resp; by exists L).
  unfold or_bad. destruct (decodeJSON _ r) as [l|]; [|by apply Hearly].
  destruct (text "email" l) as [raw|]; [|by apply Hearly]. destruct (text "password" l) as [password|]; [|by apply Hearly].
  destruct (ifield _ "roles" l) as [given|]; [|by apply Hearly]. destruct (normalizeUserEmail raw) as [email|]; [|by apply Hearly].
  destruct (normalizeRoleCodes given) as [codes|]; [|by apply Hearly]. clear Hearly.
  unfold orRespond at 1. apply (wp_HashPassword _ _ (settled L)); [apply settled_stable|exact Hs|].
  clear s Hs. intros s [hash|err] Hs; [|by exists L].
  apply (wp_inTransaction _ _ whatever L); [exact Hs|done|]. clear s Hs. intros s Hs.
  unfold orRespond at 1. apply (wp_isSuperAdmin _ _ [] [] None); [exact Hs| |intros; answer].
  clear s Hs. intros s actor Hs Ha. destruct (containsString codes _ && negb actor) eqn:Ec; [answer|].
  pose proof (check_codes codes false _ _ Hx Ha Ec) as Hc.
  unfold orRespond at 1. apply wp_bind. eapply wp_mono; [|by apply wp_resolveRoleIDs].
  clear s Hs. intros [ids|err] s Hs; [|answer]. destruct Hs as [Hs Hids]. apply (plain_of codes) in Hids; [|done].
  unfold orRespond at 1. apply (account_write (InsertUser email hash) _ [] [] [] [] None); [by intros l' drawn X ?%elem_of_nil|exact Hs| |].
  2: intros s1 err Hs1; answer.
  clear s Hs. intros s now drawn X w n HX Hw. cbn in Hw. destruct (serial drawn X) as [m|] eqn:Em; [|done]. cbn in Hw.
  destruct (email_taken email 0 X); [done|]. injection Hw as <- <-. split.
  { intros T X' [Ht Hg]. split; [by apply touches_new_user|]. intros Hst. by apply protect_new_user, Hg. }
  intros Hs. unfold orRespond at 1. apply wp_bind.
  eapply wp_mono; [|eapply wp_insertUserRoles; [by eapply serial_plain|done|exact Hs]].
  clear s Hs. intros [[]|err] s Hs; [|answer]. destruct Hs as [ls Hs]. unfold orRespond.
  eapply account_commit; [exact Hs|done| |intros; answer].
  intros s1 T X' Ht Hs1. eapply account_audit; [exact Hs1|]. intros s2 Hs2. by eapply ended_settled.
Qed.

(** ** Roles *)

(** While the role is locked no one is given it. *)
Definition holders_in (r : Z) (hit : list Z) (T : Tables) : Prop := forall i, (i, r) ∈ user_roles T -> i ∈ hit.

Lemma lasting_holders r hit ls : MkLock (RoleRow r) ForUpdate ∈ ls -> lasting ls (holders_in r hit).
Proof. intros Hl T T' _ _ HF _ Hg i Hin. apply HF. by apply (Hg _ Hl). Qed.

Lemma elem_of_holders r i T : i ∈ holders r T <-> (i, r) ∈ user_roles T.
Proof.
  unfold holders. rewrite list_elem_of_fmap. split.
  - intros ([i' r'] & -> & [Hr Hin]%list_elem_of_filter). simpl in *. by subst.
  - intros Hin. exists (i, r). split; [done|]. by apply list_elem_of_filter.
Qed.

Abbreviation editing r := (going [MkLock (RoleRow r%Z) ForUpdate] [] (Some r%Z)).
Definition plain_role_id (r : Z) : Prop := strict = true -> ~ super_role T0 r.

(** A statement on the rows of the role alone. *)
Lemma role_write {A} r q (k : reply (Rows q) -> program A) Q s : editing r s ->
  (forall now drawn X w y, run_query q now drawn X = Some (w, y) ->
    forall ls T X', (touches ls [] (Some r) T X' -> touches ls [] (Some r) T (w X'))
      /\ (strict = true -> protected T0 X' -> protected T0 (w X'))) ->
  (forall s1 y, editing r s1 -> wp c (k (inl y)) Q s1) ->
  (forall s1 err, settled [] s1 -> wp c (k (inr err)) Q s1) ->
  wp c (Ask (TxExec q) k) Q s.
Proof.
  intros Hs Hq Hok Hfail. apply (account_write q k [] [MkLock (RoleRow r) ForUpdate] [] [] (Some r)); [|exact Hs| |].
  - by intros l drawn X ?%elem_of_nil.
  - intros s1 now drawn X w y _ Hw. split; [|by apply Hok]. intros T X' [Ht Hg].
    destruct (Hq _ _ _ _ _ Hw [MkLock (RoleRow r) ForUpdate] T X') as [H1' H2']. split; [by apply H1'|]. intros Hst. by apply H2', Hg.
  - exact Hfail.
Qed.

(** Rows of the role taken away or added leave the others. *)
Lemma other_rows (l hit : list (Z * string)) r : (forall x, x ∈ hit -> fst x = r) ->
  forall r' p, r' <> r -> (r', p) ∈ filter (fun x => x ∉ hit) l <-> (r', p) ∈ l.
Proof.
  intros Hh r' p Hne. rewrite list_elem_of_filter. split; [by intros []|]. intros Hin. split; [|done].
  by intros Hx%Hh.
Qed.

Lemma more_rows (l : list (Z * string)) r q : forall r' p, r' <> r -> (r', p) ∈ l ++ [(r, q)] <-> (r', p) ∈ l.
Proof.
  intros r' p Hne. rewrite elem_of_app, list_elem_of_singleton. split; [|by left]. by intros [|[= -> ->]].
Qed.

Lemma wp_insertPermissions r codes k s : plain_role_id r -> editing r s ->
  (forall s1, editing r s1 -> wp c k (ended whatever) s1) ->
  wp c (insertPermissions r codes k) (ended whatever) s.
Proof.
  intros Hr Hs Hk. revert s Hs. induction codes as [|code codes IH]; intros s Hs; [by apply Hk|].
  cbn [insertPermissions]. apply (role_write r (InsertRolePermission r code)); [exact Hs| | |].
  - intros now drawn X w y Hw ls T X'. cbn in Hw. destruct (existsb _ _); [|by injection Hw as <- _].
    case_bool_decide; [done|]. injection Hw as <- _. split.
    + apply touches_permissions. intros r' p Hne. by apply more_rows.
    + intros Hst. apply protect_permissions_of with r; [by apply Hr|]. by apply more_rows.
  - intros s1 y Hs1. destruct y as [|[p|p|]|p]; [answer|answer|answer|by apply IH|answer].
  - intros s1 err Hs1. answer.
Qed.

Lemma wp_insertInstruments r instruments k s : plain_role_id r -> editing r s ->
  (forall s1, editing r s1 -> wp c k (ended whatever) s1) ->
  wp c (insertInstruments r instruments k) (ended whatever) s.
Proof.
  intros Hr Hs Hk. revert s Hs. induction instruments as [|i instruments IH]; intros s Hs; [by apply Hk|].
  cbn [insertInstruments]. unfold orRespond. apply (role_write r (InsertRoleInstrument r i)); [exact Hs| | |].
  - intros now drawn X w y Hw ls T X'. cbn in Hw. case_bool_decide; [done|]. injection Hw as <- _. split.
    + apply touches_scopes. intros r' p Hne. by apply more_rows.
    + intros Hst. apply protect_instruments_of with r; [by apply Hr|]. by apply more_rows.
  - intros s1 y Hs1. by apply IH.
  - intros s1 err Hs1. answer.
Qed.

Lemma going_role r ls B s : going ls B None s -> going ls B (Some r) s.
Proof.
  intros [Hsd Hh Hl Ho]. constructor; try done. destruct Ho as [|(pend & Ho & Hls & HF & HE)]; [by left|].
  right. exists pend. split_and!; [done|done|done|]. intros T HT HFT. destruct (HE T HT HFT) as [[Hu Hk Ha Hp Hi Hr] Hg].
  split; [|done]. constructor; try done; intros; [by apply Hp|by apply Hi|by apply Hr].
Qed.

(** The role is locked and read. *)
Lemma wp_role {A} r (k : reply (option string) -> program A) Q s : going [] [] None s ->
  (forall s1 code, editing r s1 -> (code <> "super_admin" -> plain_role_id r) -> wp c (k (inl (Some code))) Q s1) ->
  (forall s1, editing r s1 -> wp c (k (inl None)) Q s1) ->
  (forall s1 err, stopped s1 -> wp c (k (inr err)) Q s1) ->
  wp c (Ask (TxExec (SelectRoleForUpdate r)) k) Q s.
Proof.
  intros Hs Hok Hno Hfail.
  apply (account_write (SelectRoleForUpdate r) k [MkLock (RoleRow r) ForUpdate] [] [] [] (Some r)); [done|by apply going_role| |].
  - intros s1 now drawn X w y HX [= <- <-]. split; [by intros T X' [Ht Hg]|].
    destruct (role r X) as [row|] eqn:Er; [|apply Hno]. cbn. intros Hs1. apply Hok; [done|].
    intros Hne Hst Hsup. apply role_id in Er as [Ei Hin]. apply Hne.
    eapply protected_code; [by apply Hroot|by apply HX|done|exact Hsup|done].
  - intros s1 err Hs1. eapply Hfail, settled_ends, Hs1.
Qed.

(** Bumping the holders of the role and committing. *)
Lemma wp_bumpRoleUsers r failed1 failed2 s : editing r s ->
  wp c (orRespond (ask (TxExec (BumpRoleUsers r))) failed1 (fun _ => orRespond commit failed2 (fun _ => Return noContent)))
    (ended whatever) s.
Proof.
  intros Hs. unfold orRespond at 1. set (ls := [MkLock (RoleRow r) ForUpdate]).
  apply (client_tx c s0 (BumpRoleUsers r) _ ls anything (changes ls [] (Some r))); [exact Hs| |intros; answer].
  intros s1 now drawn T X w y HT _ [Ht _] [= <- <-].
  exists ls, (holders_in r (holders r X)), (changes ls (holders r X ++ []) (Some r)). split_and!.
  - by left.
  - apply lasting_holders. left.
  - intros i Hin. apply elem_of_holders. apply (touch_kept _ _ _ _ _ Ht); [by apply not_elem_of_nil|done].
  - intros T' X' _ _. split; [done|]. intros [Ht' Hg]. split.
    + apply touches_bump; [done|intros u; cbn; lia|done].
    + intros Hst. apply protect_update; [done| |by apply Hg]. by intros i u _ _.
  - intros Hs1. unfold orRespond. eapply account_commit; [exact Hs1| | |intros; answer].
    + intros T1 r' i HF [= <-] Hin. rewrite app_nil_r. by apply HF.
    + intros s2 T1 X1 _ Hs2. answer.
Qed.

(** A statement whose failure is ignored: the transaction is then over, and so is all that
    follows in it. *)
Lemma role_delete {A} r q (k : reply (Rows q) -> program A) Q s : editing r s ->
  (forall now drawn X w y, run_query q now drawn X = Some (w, y) ->
    forall ls T X', (touches ls [] (Some r) T X' -> touches ls [] (Some r) T (w X'))
      /\ (strict = true -> protected T0 X' -> protected T0 (w X'))) ->
  (forall s1 y, editing r s1 -> wp c (k y) Q s1) ->
  wp c (Ask (TxExec q) k) Q s.
Proof.
  intros Hs Hq Hk. apply (role_write r q); [exact Hs|exact Hq|intros s1 y; apply Hk|].
  intros s1 err [Hsd Ho Hh Hl]. apply Hk. constructor; try done. by left.
Qed.

Lemma wp_updateRole x r L s : settled L s -> wp c (updateRole x r) (over whatever) s.
Proof.
  intros Hs. unfold updateRole.
  assert (Hearly : forall resp, over whatever (resp : Response) s) by (intros resp; by exists L).
  destruct (ParseInt (PathID r)) as [i|]; [|by apply Hearly].
  unfold or_bad. destruct (decodeJSON _ r) as [l|]; [|by apply Hearly].
  destruct (text "name" l) as [name|]; [|by apply Hearly]. destruct (ifield _ "all_instruments" l) as [all|]; [|by apply Hearly].
  destruct (ifield _ "permissions" l) as [permissions|]; [|by apply Hearly].
  destruct (ifield _ "instruments" l) as [instruments|]; [|by apply Hearly]. clear Hearly.
  apply (wp_inTransaction _ _ whatever L); [exact Hs|done|]. clear s Hs. intros s Hs.
  unfold orRespond at 1. apply (wp_role i); [exact Hs| |intros; answer|intros; answer].
  clear s Hs. intros s code Hs Hc. destruct (String.eqb_spec code "super_admin") as [->|Hne]; [answer|]. apply Hc in Hne as Hi.
  unfold orRespond at 1. apply (role_write i (UpdateRole name all i)); [exact Hs| | |intros; answer].
  { intros now drawn X w y [= <- <-] ls T X'. split.
    - apply touches_role. intros row Hr Hin. apply list_elem_of_fmap. exists row. split; [|done].
      by destruct (Z.eqb_spec (r_ID row) i).
    - intros Hst. by apply protect_update_role, Hi. }
  clear s Hs. intros s _ Hs.
  assert (Hrest : forall s, editing i s -> wp c (insertPermissions i permissions (insertInstruments i (if all then [] else instruments)
    (orRespond (ask (TxExec (BumpRoleUsers i))) (serverError "invalidate role sessions failed") (fun _ =>
      orRespond commit (serverError "update role failed") (fun _ => Return noContent))))) (ended whatever) s).
  { clear s Hs. intros s Hs. apply wp_insertPermissions; [done|done|]. clear s Hs. intros s Hs.
    apply wp_insertInstruments; [done|done|]. intros s1. apply wp_bumpRoleUsers. }
  apply (role_delete i (DeleteRolePermissions i)); [exact Hs| |].
  { intros now drawn X w y [= <- <-] ls T X'.
    assert (Hhit : forall x, x ∈ filter (fun x => fst x = i) (role_permissions X) -> fst x = i) by by intros ? [? _]%list_elem_of_filter.
    split; [apply touches_permissions; intros r' p Hr Hin; by apply (other_rows _ _ i Hhit r' p Hr)|].
    intros Hst. apply protect_permissions_of with i; [by apply Hi|]. exact (other_rows _ _ i Hhit). }
  clear s Hs. intros s y Hs. apply (role_delete i (DeleteRoleInstruments i)); [exact Hs| |].
  { intros now drawn X w z [= <- <-] ls T X'.
    assert (Hhit : forall x, x ∈ filter (fun x => fst x = i) (role_instruments X) -> fst x = i) by by intros ? [? _]%list_elem_of_filter.
    split; [apply touches_scopes; intros r' p Hr Hin; by apply (other_rows _ _ i Hhit r' p Hr)|].
    intros Hst. apply protect_instruments_of with i; [by apply Hi|]. exact (other_rows _ _ i Hhit). }
  intros s1 z. apply Hrest.
Qed.
End Ops.
