(* ===== verification/AccountsAuth.v ===== *)
(** Sessions and passwords among other clients, and every route of the accounts. *)
From S2P Require Import Prelude DecimalText Config Json World Rpc Sha256 Wire ConfigJson Shared Password Accounts Commits AccountsFacts Users AccountsOps.
Import Accounts Users.

Open Scope string_scope.
Open Scope list_scope.
Open Scope Z_scope.

Section Auth.
Context (strict : bool) (T0 : Tables) (Hroot : strict = true -> rooted T0).
Context `{!Database} (c : nat) (s0 : state) `{!Argon2} `{!Mail}.

#[local] Existing Instance account_rules.
#[local] Instance rules : Rules := account_rules strict T0.

Abbreviation settled := (settled c s0).
Abbreviation over := (over c s0).
Abbreviation guarded := (guarded_tables strict T0).

(** ** Single statements *)

Lemma settled_drop L T T' s : settled (T :: T' :: L) s -> settled L s.
Proof. intros Hs. eapply settled_less; [exact Hs|]. intros T1 Hin. by do 2 right. Qed.

Lemma auth_read {A} q (k : reply (Rows q) -> program A) L Q s : settled L s ->
  (forall now drawn X w r, run_query q now drawn X = Some (w, r) -> w = id) ->
  (forall s1 now drawn T r, run_query q now drawn T = Some (id, r) -> settled (T :: L) s1 -> wp c (k (inl r)) Q s1) ->
  (forall s1 err, settled L s1 -> wp c (k (inr err)) Q s1) ->
  wp c (Ask (Exec q) k) Q s.
Proof.
  intros Hs Hq Hok Hfail. apply (client_exec c s0 q k L); [exact Hs| | |exact Hfail].
  - intros now drawn T w r HT Hw. pose proof (Hq _ _ _ _ _ Hw) as ->. by apply committable_refl.
  - intros s1 now drawn T w r HT Hw Hs1. pose proof (Hq _ _ _ _ _ Hw) as ->. eapply Hok; [exact Hw|].
    eapply settled_less; [exact Hs1|]. intros T1 [->|Hin]%elem_of_cons; [left|]. by do 2 right.
Qed.

(** A statement of its own that changes users. *)
Lemma auth_write {A} q B (k : reply (Rows q) -> program A) L Q s : settled L s ->
  (forall now drawn T w r, guarded T -> run_query q now drawn T = Some (w, r) ->
    changes strict T0 (query_locks q drawn T) (B r) None T (w T)) ->
  (forall s1 r, settled L s1 -> wp c (k (inl r)) Q s1) ->
  (forall s1 err, settled L s1 -> wp c (k (inr err)) Q s1) ->
  wp c (Ask (Exec q) k) Q s.
Proof.
  intros Hs Hq Hok Hfail. apply (client_exec c s0 q k L); [exact Hs| | |exact Hfail].
  - intros now drawn T w r HT Hw. eapply changes_committable; [by eapply Hq|done].
  - intros s1 now drawn T w r HT Hw Hs1. by eapply Hok, settled_drop.
Qed.

Lemma read_id q : (match q with SelectByEmail _ | SelectAuthorization _ | SelectPermissions _ | SelectInstruments _
    | SelectAllInstruments _ | SelectAuthorizationVersion _ | SelectUsers | SelectUserRoleCodes _ | SelectRoles
    | SelectRolePermissions _ | SelectRoleInstruments _ | SelectAllPermissions => True | _ => False end) ->
  forall now drawn X w r, run_query q now drawn X = Some (w, r) -> w = id.
Proof. by destruct q; try done; intros _ now drawn X w r [= <- <-]. Qed.

(** ** Sessions *)

(** The session has the version that the account had at some moment. *)
Definition current (res : reply Session) (L : list Tables) : Prop :=
  match res with
  | inl x => exists T u, T ∈ L /\ user (UserID x) T = Some u /\ u_Version u = AuthorizationVersion x
  | inr _ => True
  end.

Lemma current_more x L T : current x L -> current x (T :: L).
Proof. destruct x as [x|]; [|done]. intros (T' & u & Hin & Hu). exists T', u. split; [by right|done]. Qed.

Lemma wp_buildSession i email L s : settled L s -> wp c (buildSession i email) (over current) s.
Proof.
  intros Hs. unfold buildSession, orFail.
  assert (Hfail : forall L' s1 err, settled L' s1 -> over current (inr err) s1) by by intros L' s1 err Hs1; exists L'.
  eapply auth_read; [exact Hs|by apply read_id| |intros; by eapply Hfail]. clear s Hs. intros s _ _ T1 permissions _ Hs.
  eapply auth_read; [exact Hs|by apply read_id| |intros; by eapply Hfail]. clear s Hs. intros s _ _ T2 instruments _ Hs.
  eapply auth_read; [exact Hs|by apply read_id| |intros; by eapply Hfail]. clear s Hs. intros s _ _ T3 all _ Hs.
  eapply auth_read; [exact Hs|by apply read_id| |intros; by eapply Hfail]. clear s Hs. intros s _ _ T version [= <-] Hs.
  destruct (user i T) as [u|] eqn:Eu; [|by eapply Hfail]. cbn [fmap option_fmap option_map].
  eapply client_clock; [exact Hs|]. intros s1 now Hs1. eexists. split; [exact Hs1|].
  exists T, u. split_and!; [left|done|done].
Qed.

Lemma int64_decoded n m : unmarshal_int64 (marshal n) = Some m -> m = n.
Proof. unfold unmarshal_int64, marshal, marshal_Z. case_match; [|done]. by intros [= <-]. Qed.

Lemma session_decoded x y : unmarshal_session (marshal x) = Some y ->
  UserID y = UserID x /\ AuthorizationVersion y = AuthorizationVersion x.
Proof.
  unfold unmarshal_session, marshal at 1, marshal_session. json_fields.
  destruct (unmarshal_int64 (marshal (UserID x))) eqn:E1; [|done].
  destruct (asSlice unmarshal (marshal (Permissions x))); [|done].
  destruct (asSlice unmarshal (marshal (Instruments x))); [|done].
  destruct (unmarshal_int64 (marshal (AuthorizationVersion x))) eqn:E2; [|done].
  cbn. intros [= <-]. cbn. by apply int64_decoded in E1, E2.
Qed.

Lemma current_issued x L s : settled L s -> current (inl x) L -> issued (history s) x.
Proof.
  intros Hs (T & u & Hin & Hu). exists T, u. split; [|done].
  exact (since_history s0 s T (proj1 (Forall_forall _ _) (settled_since _ _ _ _ Hs) T Hin)).
Qed.

Lemma wp_Login email password L s : settled L s -> wp c (Login email password) (over whatever) s.
Proof.
  intros Hs. unfold Login.
  assert (Hend : forall L' s1 (r : reply (string * Session)), settled L' s1 -> over whatever r s1) by by intros L' s1 r Hs1; exists L'.
  eapply auth_read; [exact Hs|by apply read_id| |intros; by eapply Hend]. clear s Hs.
  intros s _ _ T [[[[i canonical] stored] enabled]|] _ Hs; [|by eapply Hend].
  destruct (negb enabled || _); [by eapply Hend|]. unfold orFail. apply wp_bind.
  eapply wp_mono; [|by apply (wp_buildSession i canonical (T :: L))]. clear s Hs.
  intros [x|err] s (L1 & Hs & Hx); [|by eapply Hend].
  apply (auth_write (TouchLogin i) (fun _ => []) _ L1); [exact Hs| | |intros; by eapply Hend].
  { intros now drawn T' w r HT' [= <- <-]. split; [by apply touches_silent, touches_refl|].
    intros Hst. apply protect_update; [done| |by apply HT']. by intros j u _ _. }
  clear s Hs. intros s _ Hs. apply (client_random c 32 _ (settled L1)); [apply settled_stable|exact Hs|].
  clear s Hs. intros s [bytes|err] Hs; [|by eapply Hend]. unfold checked. apply wp_bind.
  apply (client_set c s0 _ _ _ L1); [exact Hs| |].
  - intros s1 Hs1 token y _ Hy. apply session_decoded in Hy as [E1 E2].
    destruct (current_issued x L1 s1 Hs1 Hx) as (T' & u & HT' & Hu & Hv). exists T', u. by rewrite E1, E2.
  - intros s1 [err|] Hs1; by eapply Hend.
Qed.

(** ** Authentication *)

(** The account is enabled and has the version of the session, at some moment of the call. *)
Definition authentic (res : reply Session) (L : list Tables) : Prop :=
  match res with
  | inl x => exists T u, T ∈ L /\ user (UserID x) T = Some u /\ u_Enabled u = true
      /\ u_Version u = AuthorizationVersion x
  | inr _ => True
  end.

Lemma wp_Authenticate token L s : settled L s -> wp c (Authenticate token) (over authentic) s.
Proof.
  intros Hs. unfold Authenticate.
  assert (Hend : forall L' s1 err, settled L' s1 -> over authentic (inr err) s1) by by intros L' s1 err Hs1; exists L'.
  destruct (String.eqb token ""); [by eapply Hend|].
  apply (client_get c s0 _ _ L); [exact Hs| |].
  2: { intros s1 [[j|]|err] Hs1 Hn; [by destruct (Hn j)|by eapply Hend..]. }
  clear s Hs. intros s j Hs _. destruct (unmarshal_session j) as [x|]; [|by eapply Hend].
  eapply client_clock; [exact Hs|]. clear s Hs. intros s now Hs. destruct (After now _); [by eapply Hend|].
  assert (Hdel : forall L' s1, settled L' s1 ->
    wp c (ask (RDel (sessionKey token)) ≫= fun _ => Return (inr ErrInvalidCredentials)) (over authentic) s1).
  { intros L' s1 Hs1. apply (client_del c s0 _ _ L'); [exact Hs1|]. intros s2 r Hs2. by eapply Hend. }
  eapply auth_read; [exact Hs|by apply read_id| |intros s1 err; by apply Hdel]. clear s Hs.
  intros s _ _ T found [= <-] Hs. destruct (user (UserID x) T) as [u|] eqn:Eu; cbn [fmap option_fmap option_map]; [|by eapply Hdel].
  destruct (u_Enabled u) eqn:Een; [|by eapply Hdel]. destruct (Z.eqb_spec (u_Version u) (AuthorizationVersion x)); [|by eapply Hdel].
  exists (T :: L). split; [done|]. exists T, u. split_and!; [left|done..].
Qed.

(** ** Passwords and the first administrator *)

Abbreviation going := (going strict T0 c s0).
Abbreviation ended := (ended s0).
Abbreviation anything := (fun _ : @tables schema => True).

Definition changed (i : Z) (res : reply unit) (L : list Tables) : Prop :=
  res = inl tt -> exists T X, T ∈ L /\ X ∈ L /\ bumped i T X.

Lemma wp_ChangePassword i current_ new L s : plain_user strict T0 i -> settled L s ->
  wp c (ChangePassword i current_ new) (over (changed i)) s.
Proof.
  intros Hi Hs. unfold ChangePassword. apply (wp_of_transaction _ _ _ _ L); [exact Hs|done|].
  clear s Hs. intros s Hs%begin_changes.
  assert (Hstop : forall s1 err, stopped strict T0 s0 s1 -> ended (changed i) (inr err) s1).
  { intros s1 err Hs1. by apply stopped_ended. }
  eapply (account_read strict T0 c s0 (SelectHashForUpdate i)); [by intros now drawn X w r [= <- <-]|exact Hs| |].
  2: intros s1 err Hs1; eapply Hstop, settled_ends, Hs1.
  clear s Hs. intros s _ _ T X r _ _ _ _ Hs. destruct r as [stored|]; [|by eapply Hstop, pending_ends].
  destruct (negb _); [by eapply Hstop, pending_ends|]. unfold orFail.
  apply (wp_HashPassword _ _ _ _ _ (going [] [] None)); [apply pending_stable|exact Hs|].
  clear s Hs. intros s [hash|err] Hs; [|by eapply Hstop, pending_ends].
  apply (account_bump strict T0 c s0 i (UpdatePassword hash i) (set_password hash) _ [] []);
    [by intros now drawn Y w [] [= <-]| |done|exact Hs| |].
  { intros now u. split; [done|]. cbn. lia. }
  2: intros s1 err Hs1; by apply Hstop.
  clear s Hs. intros s _ Hs. unfold checked. apply wp_bind.
  apply (client_commit c s0 _ [] anything (changes strict T0 [] [i] None)); [exact Hs| | |].
  - intros T1 X1 _ _ HE. by eapply changes_committable.
  - intros s1 T1 X1 _ _ [Ht _] Hs1. eapply ended_settled; [exact Hs1|]. intros _.
    exists T1, X1. split_and!; [right; left|left|eapply touches_bumped; [exact Ht|left]].
  - intros s1 err Hs1. eapply Hstop, settled_ends, Hs1.
Qed.

(** A statement of its own that gives the account [i] a new version; only without
    protected accounts. *)
Lemma auth_bump {A} i q (f : Time -> User -> User) (k : reply (Rows q) -> program A) L Q s :
  strict = false -> settled L s ->
  (forall now drawn X w r, run_query q now drawn X = Some (w, r) -> w = update_users [i] (f now)) ->
  (forall now u, u_ID (f now u) = u_ID u /\ u_Version u < u_Version (f now u)) ->
  (forall s1 r, settled L s1 -> wp c (k (inl r)) Q s1) ->
  (forall s1 err, settled L s1 -> wp c (k (inr err)) Q s1) ->
  wp c (Ask (Exec q) k) Q s.
Proof.
  intros Hst Hs Hq Hf Hok Hfail. apply (auth_write q (fun _ => [i] ++ []) _ L); [exact Hs| |exact Hok|exact Hfail].
  intros now drawn T w r _ Hw. pose proof (Hq _ _ _ _ _ Hw) as ->. split.
  - apply touches_bump; [apply Hf..|apply touches_refl].
  - unfold guarded_tables. by rewrite Hst.
Qed.

(** The first administrator is set up when the process starts. *)
Lemma wp_BootstrapAdmin email password L s : strict = false -> settled L s ->
  wp c (BootstrapAdmin email password) (over whatever) s.
Proof.
  intros Hst Hs. unfold BootstrapAdmin.
  assert (Hfree : forall T, guarded T) by by intros T; unfold guarded_tables; rewrite Hst.
  assert (Hend : forall L' s1 r, settled L' s1 -> over whatever (r : option error) s1) by by intros L' s1 r Hs1; exists L'.
  destruct (_ || _); [by eapply Hend|].
  assert (Hgrant : forall i L' s1, settled L' s1 -> wp c (ask (Exec (GrantSuperAdmin i)) ≫= (fun r : reply unit =>
    Return (match r with inl _ => None | inr err => Some err end))) (over whatever) s1).
  { intros i L' s1 Hs1. apply (auth_write (GrantSuperAdmin i) (fun _ => []) _ L'); [exact Hs1| |intros; by eapply Hend..].
    intros now drawn T w r _ Hw. cbn in Hw. destruct (user i T); [|done]. injection Hw as <- _. split; [|apply Hfree].
    apply touches_give; [|apply touches_refl]. intros j r' [_ Hin]%list_elem_of_filter.
    apply list_elem_of_fmap in Hin as (row & [= -> ->] & Hrow). cbn. apply list_elem_of_In, in_flat_map.
    exists row. split; [by apply list_elem_of_In|]. right. by left. }
  eapply auth_read; [exact Hs|by apply read_id| |intros; by eapply Hend]. clear s Hs.
  intros s _ _ T found _ Hs. destruct found as [[[[i canonical] stored] enabled]|].
  - destruct (negb (VerifyPassword _ _)); [|destruct (negb enabled); [|by eapply Hgrant]].
    + apply (wp_HashPassword _ _ _ _ _ (settled (T :: L))); [apply settled_stable|exact Hs|].
      clear s Hs. intros s [hash|err] Hs; [|by eapply Hend].
      eapply (auth_bump i); [done|exact Hs|by intros now drawn X w r [= <- _]| |intros; by eapply Hgrant|intros; by eapply Hend].
      intros now u. split; [done|]. cbn. lia.
    + eapply (auth_bump i _ enable); [done|exact Hs|by intros now drawn X w r [= <- _]| |intros; by eapply Hgrant|intros; by eapply Hend].
      intros now u. split; [done|]. cbn. lia.
  - apply (wp_HashPassword _ _ _ _ _ (settled (T :: L))); [apply settled_stable|exact Hs|].
    clear s Hs. intros s [hash|err] Hs; [|by eapply Hend].
    apply (auth_write (InsertUser (ToLower (TrimSpace email)) hash) (fun _ => []) _ (T :: L)); [exact Hs| |intros; by eapply Hgrant|intros; by eapply Hend].
    intros now drawn T' w n _ Hw. cbn in Hw. destruct (serial drawn T'); [|done]. cbn in Hw.
    destruct (email_taken _ _ _); [done|]. injection Hw as <- _. split; [|apply Hfree]. by apply touches_new_user, touches_refl.
Qed.

(** ** Handlers and routes *)

Lemma over_any {A} (V : A -> list Tables -> Prop) a L s : settled L s -> V a L -> over V a s.
Proof. intros Hs HV. by exists L. Qed.

Lemma wp_changeOwnPassword x r L s : plain_actor strict T0 x -> settled L s ->
  wp c (changeOwnPassword x r) (over (renewed (UserID x))) s.
Proof.
  intros Hx Hs. unfold changeOwnPassword, or_bad.
  destruct (decodeJSON _ r) as [l|]; [|by eapply over_any]. destruct (text _ l) as [old|]; [|by eapply over_any].
  destruct (text "new_password" l) as [new|]; [|by eapply over_any].
  unfold orRespond. apply wp_bind. eapply wp_mono; [|by apply (wp_ChangePassword _ _ _ L)]. clear s Hs.
  intros [[]|err] s (L1 & Hs & Hc).
  - destruct (Hc eq_refl) as (T & X & HT & HX & Hb). eapply account_audit; [exact Hs|].
    intros s1 Hs1. exists L1. split; [done|]. intros _. by exists T, X.
  - eapply over_any; [exact Hs|]. by case_bool_decide; intros [=].
Qed.

Lemma wp_logout x r L s : settled L s -> wp c (logout x r) (over whatever) s.
Proof. intros Hs. apply (client_del c s0 _ _ L); [exact Hs|]. intros s1 b Hs1. by exists L. Qed.

Lemma wp_login r L s : settled L s -> wp c (login r) (over whatever) s.
Proof.
  intros Hs. unfold login, or_bad.
  destruct (decodeJSON _ r) as [l|]; [|by exists L]. destruct (text "email" l) as [email|]; [|by exists L].
  destruct (text "password" l) as [password|]; [|by exists L].
  unfold orRespond. apply wp_bind. eapply wp_mono; [|by apply (wp_Login _ _ L)]. clear s Hs.
  intros [[token x]|err] s (L1 & Hs & _); [by exists L1|]. by case_bool_decide; exists L1.
Qed.

Lemma wp_userViews l L s : settled L s -> wp c (userViews l) (over whatever) s.
Proof.
  revert L s. induction l as [|u l IH]; intros L s Hs; [by exists L|]. cbn [userViews]. unfold orFail at 1.
  eapply auth_read; [exact Hs|by apply read_id| |intros s1 err Hs1; by exists L]. clear s Hs. intros s _ _ T codes _ Hs.
  unfold orFail. apply wp_bind. eapply wp_mono; [|by eapply IH]. intros [v|err] s1 (L1 & Hs1 & _); by exists L1.
Qed.

Lemma wp_roleViews l L s : settled L s -> wp c (roleViews l) (over whatever) s.
Proof.
  revert L s. induction l as [|u l IH]; intros L s Hs; [by exists L|]. cbn [roleViews].
  assert (Hrest : forall p q L s, settled L s -> wp c (roleViews l ≫= fun rest => Return (roleView u p q :: rest)) (over whatever) s).
  { clear L s Hs. intros p q L s Hs. apply wp_bind. eapply wp_mono; [|by eapply IH]. intros v s1 (L1 & Hs1 & _). by exists L1. }
  eapply auth_read; [exact Hs|by apply read_id|..]; intros s1; intros.
  all: eapply auth_read; [eassumption|by apply read_id|..]; intros s2; intros; by eapply Hrest.
Qed.

(** Which account a request renews when it is answered without content. *)
Definition target (e : Endpoint) (x : Session) (r : Request) : option Z :=
  match e with
  | PutMyPassword => Some (UserID x)
  | PutUser | PutUserPassword | PostRevokeSessions => parseUserID r
  | _ => None
  end.

Definition served (e : Endpoint) (x : Session) (r : Request) (resp : Response) (L : list Tables) : Prop :=
  forall i, target e x r = Some i -> renewed i resp L.

Lemma served_whatever e x r resp s : target e x r = None -> over whatever resp s -> over (served e x r) resp s.
Proof. intros He (L & Hs & _). exists L. split; [done|]. intros i Hi. congruence. Qed.

Lemma wp_handler e x r L s : plain_actor strict T0 x -> settled L s -> wp c (handler e x r) (over (served e x r)) s.
Proof.
  intros Hx Hs.
  assert (Hread : forall q failed (k : Rows q -> program Response), target e x r = None ->
    (forall now drawn X w y, run_query q now drawn X = Some (w, y) -> w = id) ->
    (forall s1 y, settled L s1 -> wp c (k y) (over whatever) s1) ->
    wp c (orRespond (ask (Exec q)) failed k) (over (served e x r)) s).
  { intros q failed k He Hq Hk. eapply wp_mono; [by intros resp s1; apply served_whatever|].
    unfold orRespond. eapply auth_read; [exact Hs|exact Hq| |intros s1 err Hs1; by exists L].
    intros s1 _ _ T y _ Hs1. apply Hk. eapply settled_less; [exact Hs1|]. intros T1 Hin. by right. }
  destruct e; cbn [handler].
  - eapply wp_mono; [by intros resp s1; apply served_whatever|]. by eapply wp_login.
  - eapply wp_mono; [by intros resp s1; apply served_whatever|]. by eapply wp_logout.
  - by exists L.
  - eapply wp_mono; [|by apply (wp_changeOwnPassword _ _ L)]. intros resp s1 (L1 & Hs1 & Hr). exists L1. split; [done|]. by intros i [= <-].
  - apply Hread; [done|by apply read_id|]. intros s1 l Hs1. unfold orRespond. apply wp_bind.
    eapply wp_mono; [|by eapply wp_userViews]. intros [v|err] s2 (L1 & Hs2 & _); by exists L1.
  - eapply wp_mono; [by intros resp s1; apply served_whatever|]. by eapply wp_createUser.
  - by apply (wp_updateUser strict T0 c s0 Hroot x r L).
  - by apply (wp_resetUserPassword strict T0 c s0 x r L).
  - by apply (wp_revokeUserSessions strict T0 c s0 x r L).
  - apply Hread; [done|by apply read_id|]. intros s1 l Hs1. by exists L.
  - apply Hread; [done|by apply read_id|]. intros s1 l Hs1. apply wp_bind.
    eapply wp_mono; [|by eapply wp_roleViews]. intros v s2 (L1 & Hs2 & _). by exists L1.
  - eapply wp_mono; [by intros resp s1; apply served_whatever|]. by eapply wp_updateRole.
  - apply Hread; [done|by apply read_id|]. intros s1 l Hs1. by exists L.
Qed.

Lemma wp_route e r L s : strict = false -> settled L s -> wp c (route e r) (over whatever) s.
Proof.
  intros Hst Hs.
  assert (Hreq : forall next permission, (forall x L s, settled L s -> wp c (next x r) (over whatever) s) ->
    wp c (require permission next r) (over whatever) s).
  { intros next permission Hnext. unfold require. destruct (_ && _); [by exists L|]. unfold orRespond. apply wp_bind.
    eapply wp_mono; [|by apply (wp_Authenticate _ L)]. intros [x|err] s1 (L1 & Hs1 & _); [|by exists L1].
    destruct (_ && _); [by exists L1|]. by eapply Hnext. }
  assert (Hh : forall e x L s, settled L s -> wp c (handler e x r) (over whatever) s).
  { intros e' x L' s' Hs'. eapply wp_mono; [|eapply wp_handler; [|exact Hs']].
    - intros resp s1 (L1 & Hs1 & _). by exists L1.
    - intros E. by rewrite Hst in E. }
  destruct e; cbn [route]; first [by eapply wp_login|apply Hreq; intros; by eapply Hh].
Qed.
End Auth.
