(* ===== verification/AccountsSafety.v ===== *)
(** What holds of accounts, sessions and rights whatever requests are served at the same
    time. *)
From S2P Require Import Prelude Json World Rpc Shared Password Accounts Commits AccountsFacts Users AccountsOps AccountsAuth.
Import Accounts Users.

Open Scope string_scope.
Open Scope list_scope.
Open Scope Z_scope.

(** ** Clients *)

Section Clients.
Context `{!Argon2} `{!Mail}.

(** A request to the server, or the start of another server. *)
Inductive administers : program unit -> Prop :=
  | administers_route e r : administers (_ ← route e r; Return tt)
  | administers_start email password : administers (_ ← BootstrapAdmin email password; Return tt).

Definition administration (ts : pool) : Prop := forall c p, ts !! c = Some p -> administers p.

(** A request already known to come from one of the users [A], or one that only looks its
    session up. *)
Inductive acts_for (A : Z -> Prop) : program unit -> Prop :=
  | acts_handler e x r : A (UserID x) -> acts_for A (_ ← handler e x r; Return tt)
  | acts_token token : acts_for A (_ ← Authenticate token; Return tt).

Definition acting (A : Z -> Prop) (ts : pool) : Prop := forall c p, ts !! c = Some p -> acts_for A p.

Context `{!Database}.

Definition no_root T0 : false = true -> rooted T0 := fun E => match Bool.diff_false_true E with end.

(** Without protected accounts, any tables may be the first. *)
Lemma administration_reachable T0 ts : administration ts -> reachable (H0 := account_rules false T0) (ts, start T0).
Proof.
  intros Hts. apply (reachable_start (H0 := account_rules false T0)); [|done]. intros c p Hp.
  destruct (Hts c p Hp) as [e r|email password]; eapply over_client; intros s0 Hs.
  - by apply (wp_route false T0 (no_root T0) c s0 e r []).
  - by apply (wp_BootstrapAdmin false T0 c s0 email password []).
Qed.

(** C20: whatever requests are served and servers started at the same time, with calls that
    fail at any point: no account disappears and versions only grow; as long as an account
    keeps its version it also keeps its password and its state and loses none of its
    permissions and instruments, although the statements of a change of a role and of a
    change of its holders interleave; and every session in the cache carries a version its
    account once had. *)
Theorem rights_follow_version T0 ts x : administration ts -> rtc pstep (ts, start T0) x ->
  StronglySorted (fun T' T => kept T T') (history x.2)
  /\ forall token j s, kv x.2 !! sessionKey token = Some j -> unmarshal_session j = Some s -> issued (history x.2) s.
Proof.
  intros Hts Hx. destruct (reachable_steps (H0 := account_rules false T0) _ _ (administration_reachable T0 ts Hts) Hx) as [[Hs _ _] _].
  split; [exact (sound_later _ Hs)|]. intros token j s Hj Hu. by eapply (sound_entries _ Hs).
Qed.

(** C18: when a change of password, an update of the account, a reset of its password or a
    revocation of its sessions has been answered with success, no session of that account
    issued before the request is accepted any more: every later authentication that
    succeeds for it gives a session with a greater version than the account had, and than
    any session in the cache had, when the request came. *)
Theorem revocation_final T0 ts x c e s r i y resp z c' token w s' : administration ts ->
  rtc pstep (ts, start T0) x -> x.1 !! c = None ->
  runs c x (handler e s r) y resp -> Code resp = 204 -> target e s r = Some i ->
  rtc pstep y z -> z.1 !! c' = None -> runs c' z (Authenticate token) w (inl s') -> UserID s' = i ->
  (forall u, user i (committed x.2) = Some u -> u_Version u < AuthorizationVersion s')
  /\ (forall old j s0, kv x.2 !! sessionKey old = Some j -> unmarshal_session j = Some s0 ->
        UserID s0 = i -> AuthorizationVersion s0 < AuthorizationVersion s').
Proof.
  intros Hts Hx Hc Hr Hcode Ht Hz Hc' Hauth Hi. pose (R := account_rules false T0).
  destruct (reachable_steps (H0 := R) _ _ (administration_reachable T0 ts Hts) Hx) as [Hrx _].
  destruct (runs_ends (H0 := R) c x _ y resp _ Hrx Hc (over_stable (H0 := R) c x.2 _)
    (wp_handler false T0 (no_root T0) c x.2 e s r [] x.2 (fun E => match Bool.diff_false_true E with end))
    (over_settled (H0 := R) c x.2 _) Hr) as ((L & HL & Hserved) & Hry & Hhy).
  destruct (Hserved i Ht Hcode) as (T & X & HT & HX & Hb).
  destruct (reachable_steps (H0 := R) _ _ Hry Hz) as [Hrz Hhz].
  destruct (runs_ends (H0 := R) c' z _ w (inl s') _ Hrz Hc' (over_stable (H0 := R) c' z.2 _)
    (wp_Authenticate false T0 c' z.2 token [] z.2) (over_settled (H0 := R) c' z.2 _) Hauth)
    as ((L' & HL' & T' & u' & HT' & Hu' & _ & Hv') & Hrw & Hhw).
  pose proof (reachable_sound _ Hrx) as Hsx. pose proof (reachable_sound _ Hry) as Hsy.
  pose proof (reachable_sound _ Hrz) as Hsz. pose proof (reachable_sound _ Hrw) as Hsw.
  assert (Hnew : forall u, user i (committed x.2) = Some u -> u_Version u < AuthorizationVersion s').
  { intros u Hu. pose proof (since_after (H0 := R) _ _ _ Hsx Hsy Hhy (proj1 (Forall_forall _ _) (settled_since _ _ _ _ HL) T HT)) as Hxt.
    destruct (Hxt i u Hu) as (uT & HuT & Hle & _). destruct (Hb uT HuT) as (uX & HuX & Hlt).
    assert (HXy : X ∈ history y.2) by exact (since_history _ _ _ (proj1 (Forall_forall _ _) (settled_since _ _ _ _ HL) X HX)).
    assert (HXz : X ∈ history z.2) by (destruct Hhz as [h ->]; apply elem_of_app; by right).
    destruct (past_later (H0 := R) _ _ Hsz HXz i uX HuX) as (uz & Huz & Hle2 & _).
    pose proof (since_after (H0 := R) _ _ _ Hsz Hsw Hhw (proj1 (Forall_forall _ _) (settled_since _ _ _ _ HL') T' HT')) as Hzt.
    destruct (Hzt i uz Huz) as (u2 & Hu2 & Hle3 & _). rewrite Hi in Hu'. rewrite Hu' in Hu2. injection Hu2 as <-. lia. }
  split; [exact Hnew|]. intros old j s0 Hj Hu0 Hi0.
  destruct (sound_entries _ Hsx _ _ Hj old s0 eq_refl Hu0) as (T1 & u1 & HT1 & Hu1 & <-).
  destruct (past_later (H0 := R) _ _ Hsx HT1 _ _ Hu1) as (u2 & Hu2 & Hle & _). rewrite Hi0 in Hu2.
  specialize (Hnew u2 Hu2). lia.
Qed.

(** C19: users who are not super administrators cannot, however their requests interleave and
    whatever they contain, become super administrators or make anyone one, take that role
    from anyone, change the address, the password, the state or the roles of a super
    administrator, or change the role itself or its permissions. *)
Theorem no_privilege_escalation T0 A ts x : rooted T0 -> (forall a, A a -> isSuper a T0 = false) ->
  acting A ts -> rtc pstep (ts, start T0) x ->
  protected T0 (committed x.2) /\ forall i, isSuper i (committed x.2) = isSuper i T0.
Proof.
  intros Hroot HA Hts Hx. pose (R := account_rules true T0).
  assert (Hr : reachable (H0 := R) (ts, start T0)).
  { apply (reachable_start (H0 := R)); [|intros _; apply protected_refl]. intros c p Hp.
    destruct (Hts c p Hp) as [e y r Hy|token]; eapply over_client; intros s0 Hs.
    - apply (wp_handler true T0 (fun _ => Hroot) c s0 e y r []); [|exact Hs]. intros _ Hs'. unfold super in Hs'.
      by rewrite (HA _ Hy) in Hs'.
    - by apply (wp_Authenticate true T0 c s0 token []). }
  destruct (reachable_steps (H0 := R) _ _ Hr Hx) as [[Hs _ _] _].
  pose proof (committed_ok (H0 := R) _ Hs eq_refl) as Hp. split; [done|]. intros i.
  apply eq_true_iff_eq. by apply protected_super.
Qed.
End Clients.
