(* ===== verification/EngineExamples.v ===== *)
(** Concrete engines: runs that show the hypotheses of the engine's theorems can hold
    and that a cycle really trades. *)
From S2P Require Import Prelude Decimal Domain Json FaultData TradesimData Runtimeops World Config Strategy Risk Tradesim Fault Venue Process Oms OmsFacts OmsSafety OmsCancel Rpc Oracle Discipline AuditEvents Engine EngineCycle EngineControl EngineFacts EngineWrites EngineSafety EngineLive EngineStops AccountLocks.

Open Scope string_scope.
Open Scope list_scope.
Open Scope Z_scope.

#[local] Instance ex_urls : HttpRequests := fun _ => None.
#[local] Instance ex_range : MapRange := sorted_range.
#[local] Instance ex_sort : SliceSort := merge_slice_sort.
#[local] Instance ex_schedule : Schedule := in_order.

(** A price source with one answer. *)
#[local] Instance ex_source : PriceSource ReferencePrice := fun _ p => Done (inl p, p).

Definition ex_lock_store : RuntimeStore :=
  MkRuntimeStore false false true true true true true true true.

Definition ex_engine {O} (o : O) (store : option RuntimeStore) : Engine O :=
  NewWithOwner (ex_config ex_strategy) (Some o) {[ClientKey "binance" "abc-usdt" := ex_client]} store
    "node-1" "fresh" 0.

(** An exchange with a book, balances and no orders, and a store that grants leases of
    generation seven and validates them when [valid]. *)
Definition ex_market_env (valid : bool) : Env := fun past a =>
  match a with
  | Now => 10 ^ 18
  | Call _ (CTopBook _) => inl ex_book
  | Call _ CBalances => inl [MkBalance "ABC" (dec_of 1000 1) Zero; MkBalance "USDT" (dec_of 100000 1) Zero]
  | Call _ (COpenOrders _) => inl []
  | Call _ (CPlaceBatch requests) =>
      (map (fun q => MkOrder "binance" (req_ClientID q) (req_ClientID q) (req_Symbol q) (req_Side q)
              (req_Price q) (req_Quantity q) Zero OrderNew 0) requests, None)
  | Runtime (RAcquireMarketLease _ _ _) => (7, None)
  | Runtime (RValidateMarketLease _ _ _) => (valid, None)
  | a => offline a
  end.

Definition ex_writes (es : trace) : nat := length (filter (fun e => is_write e = true) es).

Definition run_writes {A} (x : trace * go A) := (ex_writes (fst x), length (placed (fst x))).

(** One batch of five orders; none once the lease is lost. *)
Example cycle_trades :
  run_writes (run (ex_market_env true) [] (RunOnce (ex_engine ex_ref (Some ex_lock_store)))) = (1, 5)%nat.
Proof. vm_compute. reflexivity. Qed.

Example cycle_fenced :
  run_writes (run (ex_market_env false) [] (RunOnce (ex_engine ex_ref (Some ex_lock_store)))) = (0, 0)%nat.
Proof. vm_compute. reflexivity. Qed.

Definition ex_paused : Engine Oracle.Oracle :=
  set_paused {["abc-usdt" := MkPauseState "abc-usdt" true ReasonManualPause 1 0]}
    (ex_engine (Oracle.New ex_oracle_client) (Some ex_lock_store)).

Lemma RunOnce_closed_quiet_witness : exists es x,
  run (ex_market_env true) [] (RunOnce ex_paused) = (es, Ret x) /\ quiet es.
Proof.
  apply RunOnce_closed_quiet. right. intros i Hi. left.
  apply list_elem_of_singleton in Hi as ->. by eexists.
Defined.

(** ** Operator controls *)

Definition ex_idle : Engine Oracle.Oracle :=
  ex_engine (Oracle.New ex_oracle_client) (Some ex_lock_store).

Definition ex_emergency : gmap string PauseState :=
  {["abc-usdt" := MkPauseState "abc-usdt" true ReasonEmergencyCancel 1 0]}.

Lemma stops_only_cancel_witness : exists es o e',
  run (ex_market_env true) [] (Shutdown ex_idle) = (es, Ret (o, e')) /\ cancels_only ex_idle es.
Proof. apply (stops_only_cancel _ _ _ "abc-usdt" "binance"). right. left. Defined.

Lemma emergency_stop_confirmed_witness : exists es o e',
  run (ex_market_env true) [] (controlInstrument ex_emergency [] (ex_instrument ex_strategy) ex_idle)
    = (es, Ret (o, e'))
  /\ paused e' !! "abc-usdt" = ex_emergency !! "abc-usdt".
Proof.
  destruct (emergency_stop_confirmed (ex_market_env true) [] ex_idle ex_emergency []
    (ex_instrument ex_strategy) (MkPauseState "abc-usdt" true ReasonEmergencyCancel 1 0)
    eq_refl eq_refl) as (es & o & e' & Hrun & Hp & _).
  - intros Hin. by apply elem_of_empty in Hin.
  - exists es, o, e'. split; [exact Hrun|exact Hp].
Defined.

(** With an empty book the stop is applied at once. *)
Example emergency_applied :
  match snd (run (ex_market_env true) []
    (controlInstrument ex_emergency [] (ex_instrument ex_strategy) ex_idle)) with
  | Ret (_, e') => bool_decide ("abc-usdt" ∈ pauseApplied e')
  | _ => false
  end = true.
Proof. vm_compute. reflexivity. Qed.

Lemma emergency_after_pause_ignored_witness :
  run (ex_market_env true) [] (controlInstrument ex_emergency [] (ex_instrument ex_strategy)
    (set_pauseApplied {["abc-usdt"]} ex_idle))
  = ([], Ret (inl [], set_paused ex_emergency (set_pauseApplied {["abc-usdt"]} ex_idle))).
Proof.
  apply (emergency_after_pause_ignored (ex_market_env true) [] (set_pauseApplied {["abc-usdt"]} ex_idle)
    ex_emergency [] (ex_instrument ex_strategy) (MkPauseState "abc-usdt" true ReasonEmergencyCancel 1 0)).
  - reflexivity.
  - by apply elem_of_singleton.
Defined.

(** ** Workers *)

(** Two instruments on two accounts of the exchange. *)
Definition ex_second : InstrumentConfig :=
  MkInstrumentConfig "xyz-usdt" (MkAssetConfig "XYZ" (ex_address "c") 18)
    (MkAssetConfig "USDT" (ex_address "b") 18) ex_reference ex_strategy ex_no_simulation.
Definition ex_second_market : VenueMarketConfig :=
  MkVenueMarketConfig "XYZUSDT" "XYZ" "USDT" (dec_of 1 100) (dec_of 1 1000) (dec_of 5 1)
    Zero Zero Zero Zero Zero 0 Zero Zero 8.
Definition ex_two : Config :=
  MkConfig ModeLive 1000 "" 0 0 "/tmp/heartbeat" 15 3 3 15 120 4 300
    (MkRPCConfig ["https://bsc"] 56 5000) [ex_instrument ex_strategy; ex_second]
    {["binance" := MkVenueConfig "binance" "production" true true false "https://api.binance.com"
        "EXPIRE_BOTH" {["abc-usdt" := ex_market; "xyz-usdt" := ex_second_market]}]}.
Definition ex_two_engine : Engine unit := NewWithOwner ex_two None ∅ None "node-1" "" 0.

Example two_locks : map (instrumentLocks ex_two_engine) [0; 1]%nat = [["binance/7"]; ["binance/8"]].
Proof. vm_compute. reflexivity. Qed.

(** Both workers take an instrument, lock its account and run its cycle. *)
Definition ex_running_pool : Pool :=
  MkPool [] [Running 0 ["binance/7"]; Running 1 ["binance/8"]] [].

Lemma ex_running_reached :
  rtc (step (instrumentLocks ex_two_engine)) (cyclePool ex_two_engine) ex_running_pool.
Proof. apply (interleave_rtc _ [0; 1; 0; 1; 0; 1]%nat). vm_compute. reflexivity. Qed.

Lemma workers_finish_witness :
  (exists p', step (instrumentLocks ex_two_engine) ex_running_pool p')
  \/ complete ex_running_pool /\ finished ex_running_pool ≡ₚ seq 0 2.
Proof.
  exact (proj1 (workers_finish ex_two ex_two_engine ex_running_pool eq_refl ex_running_reached)).
Defined.

Lemma running_cycles_disjoint_witness : 0%nat <> 1%nat /\ forall account,
  account ∈ instrumentLocks ex_two_engine 0 -> account ∉ instrumentLocks ex_two_engine 1.
Proof.
  apply (running_cycles_disjoint ex_two_engine ex_running_pool 0 1 0 1 ["binance/7"] ["binance/8"]
    ex_running_reached); [reflexivity|reflexivity|discriminate].
Defined.
