(* ===== verification/SchedulerExamples.v ===== *)
(** Concrete runs of the main loop: witnesses, and what the runs reveal. *)
From S2P Require Import Prelude Decimal Domain Config Json Runtimeops World Strategy Risk Venue Process Oms OmsCancel Rpc Oracle Configdiff Engine EngineCycle EngineControl EngineSafety EngineExamples App Scheduler SchedulerFacts Watchdog.

Open Scope string_scope.
Open Scope list_scope.
Open Scope Z_scope.

#[local] Instance ex_urls : HttpRequests := fun _ => None.
#[local] Instance ex_getenv : Environ := fun _ => "I_UNDERSTAND".
#[local] Instance ex_range : MapRange := sorted_range.
#[local] Instance ex_sort : SliceSort := merge_slice_sort.
#[local] Instance ex_schedule : Schedule := in_order.

(** ** A publication *)

Definition ex_published (failures : Z) : Config :=
  MkConfig ModeLive 1000 "" 0 0 "/tmp/heartbeat" 15 failures 3 15 120 4 300
    (MkRPCConfig ["https://bsc"] 56 5000) [ex_instrument ex_strategy] {["binance" := ex_venue]}.

(** Version two is published, with another failure threshold; the exchange reports a
    smaller tick than the configuration has. *)
Definition ex_host_env : Env := fun past a =>
  match a with
  | Now => 10 ^ 18
  | Host HLoadActive => inl (MkConfigSnapshot 2 (ex_published 9) 0)
  | Host (HResolveCredential _ _) => inl ("key", "secret")
  | HttpPost _ _ => inl (MkHttpResponse 200 "" (Some (JObj [("id", JNum 1); ("result", JStr "0x38")])))
  | Call _ (CMarketRules _) =>
      inl (MkMarketRules "ABCUSDT" "ABC" "USDT" (dec_of 1 1000) (dec_of 1 10) (dec_of 1 10)
             Zero (dec_of 5 1) Zero Zero Zero 0)
  | a => offline a
  end.

Definition ex_running_scheduler : Scheduler :=
  set_activeRaw (ex_published 3) false (set_activeVersion 1
    (set_runtime (Some (MkRuntime (ex_published 3)
       (NewWithOwner (ex_published 3) (Some (Oracle.New ex_oracle_client)) ∅ (Some runtimeStore)
          "node-1" "" 0))) startScheduler)).

Definition ex_reloaded := run ex_host_env [] (reload (10 ^ 18) ex_running_scheduler).

Definition ex_after {A} (x : trace * go ((A + string) * Scheduler)) : Scheduler :=
  match snd x with Ret (_, s) => s | _ => startScheduler end.

Lemma ex_reloaded_run :
  run ex_host_env [] (reload (10 ^ 18) ex_running_scheduler) = (fst ex_reloaded, Ret (inl tt, ex_after ex_reloaded)).
Proof. vm_compute. reflexivity. Qed.

Lemma reload_activates_witness : exists snapshot,
  MkEvent (Host HLoadActive) (inl snapshot) ∈ fst ex_reloaded
  /\ activeVersion (ex_after ex_reloaded) = cs_Version snapshot.
Proof.
  destruct (reload_activates ex_host_env [] (10 ^ 18) ex_running_scheduler (fst ex_reloaded)
    (ex_after ex_reloaded)) as (snapshot & Hin & Hv & _).
  - exact ex_reloaded_run.
  - vm_compute. discriminate.
  - exists snapshot. split; assumption.
Defined.

(** The new threshold is in the configuration of the same engine. *)
Example parameters_in_place :
  (fun r => MarketFailureThreshold (rt_Config r)) <$> sc_runtime (ex_after ex_reloaded) = Some 9
  /\ activeVersion (ex_after ex_reloaded) = 2.
Proof. vm_compute. by split. Qed.

(** ** What the runs reveal *)

(** The published configuration after a candidate was built from it. *)
Definition ex_rewritten : option Config :=
  match snd (run ex_host_env [] (BuildRuntimeCandidate (ex_published 3) true None tt)) with
  | Ret (inl (inl _, c), _) => Some c
  | _ => None
  end.

(** Building a candidate writes the trading rules of the exchange into the published
    configuration it was given.  Compared with that configuration, the same
    publication with another threshold looks structural, although compared with what
    was published it only changes a parameter. *)
Lemma building_rewrites_published :
  Structural (Configdiff.Build (Some (ex_published 3)) (ex_published 9)) = false
  /\ (fun c => Structural (Configdiff.Build (Some c) (ex_published 9))) <$> ex_rewritten = Some true.
Proof. vm_compute. by split. Qed.

(** An engine that asked for the cancellation of order "1" a moment ago. *)
Definition ex_cancelling : Engine Oracle.Oracle :=
  set_reconciler (MkReconciler ∅ {["binance:abc-usdt" := MkPendingCancelBatch {["1"]} (10 ^ 18) 1]} ∅
                    {["binance:abc-usdt"]} false) ex_idle.

Definition ex_open_env : Env := fun past a =>
  match a with
  | Call _ (COpenOrders _) => inl ex_open
  | a => ex_market_env true past a
  end.

(** While the cancellation of one order is unconfirmed, cancelling the market reports
    success without cancelling the others: order "2" is managed and stays open.  So a
    cleanup before a switch, and a shutdown, can succeed with orders left behind. *)
Lemma cleanup_skips_unconfirmed_market :
  let x := run ex_open_env [] (CancelMarket "abc-usdt" "binance" ex_cancelling) in
  ex_writes (fst x) = 0%nat
  /\ match snd x with Ret (inl err, _) => err = None | _ => False end
  /\ "2" ∈ map OrderID (ManagedOrdersFor ex_client ex_open).
Proof. vm_compute. split_and!; [done|done|]. right. left. Qed.

(** ** A check of the watchdog *)

Definition ex_dead_env : Env := fun past a =>
  match a with
  | Host HAppliedVersion => 2
  | Host (HLoadVersion 2) => inl (MkConfigSnapshot 2 (ex_published 3) 0)
  | Host (HResolveCredential _ _) => inl ("key", "secret")
  | Call _ (COpenOrders _) => inl ex_open
  | Call _ (CCancelOrder _ _) => None
  | a => offline a
  end.

(** The heartbeat file cannot be read: the managed orders of the market are cancelled
    once, and the next check, in the same episode, writes nothing. *)
Example watchdog_acts :
  (let x := run ex_dead_env [] (check false false) in
   cancelled (fst x) = map OrderID (ManagedOrdersFor ex_client ex_open)
   /\ snd x = Ret (inl (Sleep (5 * Second)), true))
  /\ cancelled (fst (run ex_dead_env [] (check false true))) = [].
Proof. vm_compute. by split_and!. Qed.
