(* ===== verification/AdapterExamples.v ===== *)
(** Concrete runs of the exchange adapters. *)
From S2P Require Import Prelude Decimal DecimalText Domain Json World Venue Process Rpc EngineControl Wire Binance Mgbx Adapters AdapterFacts AdapterOrders.

Open Scope string_scope.
Open Scope list_scope.
Open Scope Z_scope.

#[local] Instance ex_urls : HttpRequests := fun _ => None.
#[local] Instance ex_range : MapRange := sorted_range.
#[local] Instance ex_sort : SliceSort := merge_slice_sort.
#[local] Instance ex_schedule : Schedule := in_order.

(** ** An MGBX account with a hundred and one open orders *)

Definition ex_mgbx : Mgbx.Client :=
  Mgbx.NewWithIdentity "mgbx/abc" "mgbx/abc/credential-1" "https://open.mgbx.com/" "key" "secret".

Definition ex_payload (id : Z) : Mgbx.orderPayload :=
  Mgbx.MkOrderPayload (pretty id) "ABC_USDT" "LIMIT" "BUY" "GTX" "1.5" "10" "0" "NEW" 1700000000000.

Definition ex_raws : list Mgbx.orderPayload := map ex_payload (seqZ 1 101).

Definition ex_list_url (page : Z) : string :=
  withQuery "https://open.mgbx.com/spot/v1/u/trade/order/list" (Mgbx.pageValues "ABC_USDT" page).

Definition ex_list_env : Env := fun past a =>
  match a with
  | RandRead _ => inl [1; 2; 3]
  | HttpDo q =>
      let page := if String.eqb (URL q) (ex_list_url 1) then 1 else 2 in
      inl (MkHttpResponse 200 "" (Some (page_json page 0 (page_of page ex_raws))))
  | a => offline a
  end.

Definition ex_orders : list Order :=
  match mapReply (Mgbx.parseOrder ex_mgbx) ex_raws with inl os => os | inr _ => [] end.

Lemma ex_lists : lists_orders ex_mgbx ex_list_env "ABC_USDT" 0 ex_raws.
Proof.
  split; [by eexists|]. intros past page headers Hp.
  change (Z.of_nat (length ex_raws) / 100 + 1) with 2 in Hp.
  assert (page = 1 \/ page = 2) as [->| ->] by lia; vm_compute; reflexivity.
Qed.

Lemma open_orders_complete_witness : length ex_raws = 101%nat
  /\ exists es, run ex_list_env [] (Mgbx.OpenOrders ex_mgbx "ABC_USDT") = (es, Ret (inl ex_orders)).
Proof.
  split; [vm_compute; reflexivity|].
  apply (open_orders_complete ex_mgbx ex_list_env [] "ABC_USDT" 0 ex_raws ex_orders).
  - exact ex_lists.
  - discriminate.
  - discriminate.
  - reflexivity.
  - left. reflexivity.
  - apply Forall_forall. intros o Ho. apply list_elem_of_fmap in Ho as (id & -> & _). vm_compute. split; discriminate.
  - vm_compute. reflexivity.
  - vm_compute. reflexivity.
Defined.

(** ** A request out of the window of the exchange *)

Definition ex_binance : Binance.Client :=
  Binance.NewWithIdentity "binance/abc" "binance/abc/credential-1" "https://api.binance.com" "key" "secret" "EXPIRE_BOTH".

Definition ex_place : PlaceRequest :=
  MkPlaceRequest "ABCUSDT" Buy (FromRat (5 # 4)) (FromRat 10) "fm-1" 7.

(** Binance refuses the time stamp once; after the clock is synchronised it accepts. *)
Definition ex_window_env : Env := fun past a =>
  match a with
  | Now => 1700000000000 * Millisecond
  | HttpDo q =>
      if String.eqb (ReqMethod q) "GET"
      then inl (MkHttpResponse 200 "" (Some (JObj [("serverTime", JNum 1700000005000)])))
      else if (length (effective past) <? length (List.filter is_write past))%nat
      then inl (MkHttpResponse 200 "" (Some (JObj [("symbol", JStr "ABCUSDT"); ("orderId", JNum 42);
             ("clientOrderId", JStr "fm-1"); ("price", JStr "1.25"); ("origQty", JStr "10");
             ("executedQty", JStr "0"); ("status", JStr "NEW")])))
      else inl (MkHttpResponse 400 "" (Some (JObj [("code", JNum (-1021)); ("msg", JStr "Timestamp")])))
  | a => offline a
  end.

(** Two requests, one that took effect, and the order confirmed. *)
Example refused_once :
  let x := run ex_window_env [] (serveCall (ABinance ex_binance, 0) (CPlacePostOnly ex_place)) in
  length (List.filter is_write (fst x)) = 2%nat /\ length (effective (fst x)) = 1%nat
  /\ match snd x with Ret (inl o) => OrderID o = "42" /\ order_Price o = FromRat (5 # 4) | _ => False end.
Proof. vm_compute. by split_and!. Qed.

(** The query of that order, as the exchange reads it. *)
Example order_read :
  ParseQuery (Encode (Binance.placeValues ex_binance ex_place)) =
  Some [("newClientOrderId", "fm-1"); ("newOrderRespType", "RESULT"); ("price", "1.25");
        ("quantity", "10"); ("selfTradePreventionMode", "EXPIRE_BOTH"); ("side", "BUY");
        ("symbol", "ABCUSDT"); ("type", "LIMIT_MAKER")].
Proof. vm_compute. reflexivity. Qed.
