(* ===== verification/ConfigstoreExamples.v ===== *)
(** Concrete runs of the configuration store. *)
From S2P Require Import Prelude Decimal Domain Config Json World Rpc Process Scheduler Wire Configdiff ConfigJson Shared Configstore ConfigstoreFacts ConfigstoreOps ConfigstoreSafety.
Import Configstore.

Open Scope string_scope.
Open Scope list_scope.
Open Scope Z_scope.

#[local] Instance ex_range : MapRange := sorted_range.

Definition ex_store : Store := MkStore true true.

Definition ex_first : Config := ex_config ex_strategy.
Definition ex_second : Config := set_Instruments ex_first
  [ex_instrument (MkStrategyConfig 30 10 5 Zero (dec_of 10 1) (dec_of 50 1) 30 500 500 1000
    (dec_of 100 1) (dec_of 50 1) 100 45 1000 30 300 3 8 2 3 90)].

Definition mine (f : fate) : turn := MkTurn None f 1000 [].
Definition other (c : nat) (f : fate) : turn := MkTurn (Some c) f 1000 [].

Lemma first_machine : machine_config ex_first.
Proof.
  split_and!; try done.
  - by repeat constructor.
  - by repeat constructor.
  - apply map_Forall_singleton. by apply map_Forall_singleton.
Qed.

(** ** Saving, then loading *)

Definition ex_saved := drive 0 (replicate 10 (mine Fine)) ∅ (start empty) (SaveActive ex_store ex_first 1).

(** What a run returned. *)
Definition returned {A} (x : option (pool * state * reply A)) : option A :=
  match x with Some (_, _, inl a) => Some a | _ => None end.

Lemma returned_runs {A} c l ts s (p : program (reply A)) a : returned (drive c l ts s p) = Some a ->
  exists y, runs (H0 := postgres) c (ts, s) p y (inl a).
Proof.
  unfold returned. destruct (drive c l ts s p) as [[[ts' s'] [b|]]|] eqn:E; [|done..]. intros [= ->].
  eexists. by eapply drive_runs.
Qed.

Lemma save_takes_effect_witness : exists (y : pool * state) (snapshot : ConfigSnapshot) (T : Tables),
  during (start empty) (snd y) T /\ is_published T snapshot /\ cs_Version snapshot = 1.
Proof.
  assert (E : cs_Version <$> returned ex_saved = Some 1) by (vm_compute; reflexivity).
  destruct (returned ex_saved) as [snapshot|] eqn:Er; [|done]. injection E as Ev.
  destruct (returned_runs _ _ _ _ _ _ Er) as [y Hy].
  destruct (save_takes_effect ∅ (∅, @start schema empty) 0 ex_store ex_first 1 y snapshot) as (T & HT & Hp & _).
  - intros c p Hp. done.
  - reflexivity.
  - reflexivity.
  - exact first_machine.
  - exact Hy.
  - exists y, snapshot, T. exact (conj HT (conj Hp Ev)).
Defined.

(** What was saved is loaded, whether from the cache or not. *)
Definition ex_loaded (cached : fate) :=
  drive 0 (replicate 8 (other 1 Fine) ++ [other 1 cached; other 1 Fine; mine Fine; mine Fine]
           ++ match cached with Fine => [] | _ => [mine Fine; mine Fine] end)
    {[1%nat := SaveActive ex_store ex_first 1 ≫= fun _ => Return tt]} (start empty) (LoadActive ex_store).

Example loaded_either_way : (cs_Version <$> returned (ex_loaded Fine)) = Some 1
  /\ (cs_Version <$> returned (ex_loaded Broken)) = Some 1
  /\ match returned (ex_loaded Fine), returned (ex_loaded Broken) with
     | Some a, Some b => json_eqb (marshal a) (marshal b) = true
     | _, _ => False
     end.
Proof. vm_compute. by split_and!. Qed.

Lemma load_active_current_witness : exists (y : pool * state) snapshot (T : Tables) (r : Row),
  T ∈ history (snd y) /\ contents snapshot T r /\ cs_Version snapshot = 1.
Proof.
  assert (E : cs_Version <$> returned (ex_loaded Broken) = Some 1) by (vm_compute; reflexivity).
  destruct (returned (ex_loaded Broken)) as [snapshot|] eqn:Er; [|done]. injection E as Ev.
  destruct (returned_runs _ _ _ _ _ _ Er) as [y Hy].
  destruct (load_active_current {[1%nat := SaveActive ex_store ex_first 1 ≫= fun _ => Return tt]}
    ({[1%nat := SaveActive ex_store ex_first 1 ≫= fun _ => Return tt]}, @start schema empty) 0 ex_store y snapshot)
    as (T & r & HT & Hc & _).
  - intros c p Hp. apply lookup_singleton_Some in Hp as [<- <-].
    apply (client_call ex_store _ (CallSaveActive ex_first 1)); [exact first_machine|]. intros a. constructor.
  - reflexivity.
  - reflexivity.
  - reflexivity.
  - exact Hy.
  - exists y, snapshot, T, r. exact (conj HT (conj Hc Ev)).
Defined.

Definition ex_publisher : pool := {[1%nat := SaveActive ex_store ex_first 1 ≫= fun _ => Return tt]}.
Definition ex_published := drive 0 (replicate 10 (other 1 Fine)) ex_publisher (start empty) (Return tt).

Lemma store_consistent_witness : exists y : pool * state,
  tables_ok (committed y.2) /\ length (config_snapshots (committed y.2)) = 1%nat.
Proof.
  assert (E : (fun x => length (config_snapshots (committed (snd (fst x))))) <$> ex_published = Some 1%nat) by (vm_compute; reflexivity).
  destruct ex_published as [[[ts s] []]|] eqn:Es; [|discriminate E]. injection E as E.
  exists (ts, s). split; [|exact E].
  apply (store_consistent (H0 := postgres) ex_publisher (ts, s)); [|exact (drive_steps _ _ _ _ _ _ Es)].
  unfold ex_publisher. intros c p Hp. apply lookup_singleton_Some in Hp as [<- <-].
  apply (client_call ex_store _ (CallSaveActive ex_first 1)); [exact first_machine|]. intros a. constructor.
Defined.

(** ** An outage rolls the configuration back

    A slow load of version 1 writes it to the cache after version 2 was published; while
    the database does not answer, a process that runs version 2 is given version 1. *)
Definition ex_admin : program unit :=
  SaveActive ex_store ex_first 1 ≫= fun _ => SaveActive ex_store ex_second 1 ≫= fun _ => Return tt.
Definition ex_slow : program unit := LoadActive ex_store ≫= fun _ => Return tt.
Definition ex_twice : program (reply (ConfigSnapshot * ConfigSnapshot)) :=
  orFail (LoadActive ex_store) (fun a => orFail (LoadActive ex_store) (fun b => Return (inl (a, b)))).

Definition ex_outage := drive 0
  (replicate 8 (other 1 Fine) ++ [other 1 Broken; other 1 Fine]
   ++ replicate 3 (other 2 Fine)
   ++ replicate 10 (other 1 Fine)
   ++ [mine Fine; mine Fine]
   ++ [other 2 Fine]
   ++ [mine Broken; mine Fine])
  {[1%nat := ex_admin; 2%nat := ex_slow]} (start empty) ex_twice.

Lemma outage_rolls_back : exists y a b,
  runs (H0 := postgres) 0 ({[1%nat := ex_admin; 2%nat := ex_slow]}, start empty) ex_twice y (inl (a, b))
  /\ cs_Version a = 2 /\ cs_Version b = 1.
Proof.
  assert (E : (fun x => (cs_Version (fst x), cs_Version (snd x))) <$> returned ex_outage = Some (2, 1))
    by (vm_compute; reflexivity).
  destruct (returned ex_outage) as [[a b]|] eqn:Er; [|done]. injection E as Ea Eb.
  destruct (returned_runs _ _ _ _ _ _ Er) as [y Hy]. exists y, a, b. exact (conj Hy (conj Ea Eb)).
Qed.

(** ** A configuration that is published but cannot be loaded

    A price tick of 10^-19 is positive, but is stored with eighteen digits. *)
Definition ex_tiny : Config :=
  MkConfig ModeLive 1000 "" 0 0 "/tmp/heartbeat" 15 3 3 15 120 4 300
    (MkRPCConfig ["https://bsc"] 56 5000) [ex_instrument ex_strategy]
    {["binance" := MkVenueConfig "binance" "production" true true false "https://api.binance.com" "EXPIRE_BOTH"
       {["abc-usdt" := MkVenueMarketConfig "ABCUSDT" "ABC" "USDT" (FromRat (1 # 10 ^ 19)) (dec_of 1 1000)
          (dec_of 5 1) Zero Zero Zero Zero Zero 0 Zero Zero 7]}]}.

Definition ex_unloadable := drive 0
  (replicate 10 (mine Fine) ++ replicate 3 (mine Fine)) ∅ (start empty)
  (orFail (SaveActive ex_store ex_tiny 1) (fun a => b ← LoadActive ex_store; Return (inl (a, b)))).

Lemma saved_but_unloadable : exists y a err,
  runs (H0 := postgres) 0 (∅, @start schema empty)
    (orFail (SaveActive ex_store ex_tiny 1) (fun a => b ← LoadActive ex_store; Return (inl (a, b))))
    y (inl (a, inr err)) /\ cs_Version a = 1.
Proof.
  assert (E : (fun x => (cs_Version (fst x), match snd x with inl _ => false | inr _ => true end))
    <$> returned ex_unloadable = Some (1, true)) by (vm_compute; reflexivity).
  destruct (returned ex_unloadable) as [[a [b|err]]|] eqn:Er; [done| |done]. injection E as Ea.
  destruct (returned_runs _ _ _ _ _ _ Er) as [y Hy]. exists y, a, err. exact (conj Hy Ea).
Qed.
