(* ===== verification/AccountsExamples.v ===== *)
(** Concrete runs of the administration of accounts. *)
From S2P Require Import Prelude Json World Rpc Sha256 Shared Password Accounts Commits AccountsFacts Users AccountsOps AccountsAuth AccountsSafety.
Import Accounts Users.

Open Scope string_scope.
Open Scope list_scope.
Open Scope Z_scope.

(** A key derivation for the examples: the password and the salt, cut to length. *)
Definition ex_key (password : string) (salt : list Z) (keyLen : nat) : list Z :=
  take keyLen (map (fun b => b mod 256) (bytes_of password ++ salt) ++ replicate keyLen 0).

Lemma ex_key_length password salt keyLen : length (ex_key password salt keyLen) = keyLen.
Proof. unfold ex_key. rewrite length_take, length_app, length_replicate. lia. Qed.

Lemma ex_key_bytes password salt keyLen : Forall (fun b => 0 <= b < 256) (ex_key password salt keyLen).
Proof.
  apply Forall_take, Forall_app. split; [|by apply Forall_replicate].
  apply Forall_map, Forall_true. intros b. by apply Z.mod_pos_bound.
Qed.

#[local] Instance ex_argon : Argon2 := {|
  IDKey password salt _ _ _ keyLen := ex_key password salt keyLen;
  IDKey_length password salt _ _ _ keyLen := ex_key_length password salt keyLen;
  IDKey_bytes password salt _ _ _ keyLen := ex_key_bytes password salt keyLen
|}.
#[local] Instance ex_mail : Mail := {| ParseAddress := Some |}.

Definition ex_salt : list Z := replicate 16 7.
Definition ex_user (id : Z) (email password : string) : User :=
  MkUser id email (encodeHash ex_salt (hashOf password ex_salt)) true 1 0 0 None 0.

(** Two super administrators, a manager of users and an operator. *)
Definition ex_tables : Tables := MkTables
  [ex_user 1 "ann@desk" "correct horse 1"; ex_user 2 "bob@desk" "correct horse 2";
   ex_user 3 "mia@desk" "correct horse 3"; ex_user 4 "tom@desk" "correct horse 4"]
  [MkRole 10 "super_admin" "all" true; MkRole 11 "manager" "users" false; MkRole 12 "operator" "desk" false]
  [("users:manage", ""); ("roles:manage", ""); ("runtime:stop", ""); ("runtime:view", "")]
  [(1, 10); (2, 10); (3, 11); (4, 12)]
  [(10, "users:manage"); (10, "roles:manage"); (11, "users:manage"); (12, "runtime:view"); (12, "runtime:stop")]
  [] [].

Definition ex_session (id : Z) (permissions : list string) : Session :=
  MkSession id "" permissions false [] 1 1000000000000000.

Definition ex_request (id : string) (body : list (string * Json)) : Request :=
  MkRequest "PUT" "desk" "" "" [] id (Some (JObj body)).

Definition me_ (f : fate) : turn := MkTurn None f 1000 (replicate 32 9).
Definition they (c : nat) : turn := MkTurn (Some c) Fine 1000 (replicate 32 9).

(** ** The last super administrators disable each other

    Each change counts the enabled super administrators other than its target, under a lock
    on its target alone: both see one left, and none is left. *)
Definition ex_disable (email : string) (id : string) : Request :=
  ex_request id [("email", JStr email); ("enabled", JBool false); ("roles", JArr [JStr "super_admin"])].

Definition ex_other : program unit :=
  _ ← handler PutUser (ex_session 2 ["users:manage"]) (ex_disable "ann@desk" "1"); Return tt.

Definition ex_skew : list turn :=
  replicate 5 (me_ Fine) ++ replicate 5 (they 1) ++ replicate 5 (me_ Fine) ++ replicate 5 (they 1) ++ [me_ Fine; me_ Fine].

Definition disabled_all (T : Tables) : bool := forallb (fun u => negb (u_Enabled u && isSuper (u_ID u) T)) (users T).

Lemma no_super_admin_left : exists y resp,
  runs (H0 := postgres) 0 ({[1%nat := ex_other]}, start ex_tables)
    (handler PutUser (ex_session 1 ["users:manage"]) (ex_disable "bob@desk" "2")) y resp
  /\ Code resp = 204 /\ disabled_all (committed y.2) = true.
Proof.
  destruct (drive_spec 0 ex_skew {[1%nat := ex_other]} (@start schema ex_tables)
    (handler PutUser (ex_session 1 ["users:manage"]) (ex_disable "bob@desk" "2"))
    (fun s resp => (Code resp, disabled_all (committed s))) (204, true)) as (y & resp & Hr & [= E F]).
  - vm_compute. reflexivity.
  - exists y, resp. exact (conj Hr (conj E F)).
Qed.

(** ** A session with rights that were withdrawn

    A login reads its rights before a change of the role and its version after it: the
    session has the withdrawn right under the current version, and is accepted. *)
Definition ex_withdraw : Request :=
  ex_request "12" [("name", JStr "desk"); ("all_instruments", JBool false);
                   ("permissions", JArr [JStr "runtime:view"]); ("instruments", JArr [])].
Definition ex_admin : program unit :=
  _ ← handler PutRole (ex_session 1 ["roles:manage"]) ex_withdraw; Return tt.

Definition ex_late : program (reply Session) :=
  orFail (Login "tom@desk" "correct horse 4") (fun x => Authenticate (fst x)).

Definition ex_stale : list turn :=
  replicate 2 (me_ Fine) ++ replicate 9 (they 1) ++ replicate 7 (me_ Fine) ++ replicate 3 (me_ Fine).

Definition stale (s : state) (r : reply Session) : option (bool * bool) :=
  match r with
  | inl x => Some (Has "runtime:stop" x, bool_decide ("runtime:stop" ∈ grants (UserID x) (role_permissions (committed s)) (committed s)))
  | inr _ => None
  end.

Lemma withdrawn_right_accepted : exists y x,
  runs (H0 := postgres) 0 ({[1%nat := ex_admin]}, start ex_tables) ex_late y (inl x)
  /\ Has "runtime:stop" x = true
  /\ "runtime:stop" ∉ grants (UserID x) (role_permissions (committed y.2)) (committed y.2).
Proof.
  destruct (drive_spec 0 ex_stale {[1%nat := ex_admin]} (@start schema ex_tables) ex_late stale (Some (true, false)))
    as (y & [x|err] & Hr & Hf); [vm_compute; reflexivity| |done].
  exists y, x. injection Hf as Ha Hb. split; [exact Hr|]. split; [exact Ha|]. exact (bool_decide_eq_false_1 _ Hb).
Qed.

(** ** Witnesses *)

(** A request of the server with its session looked up. *)
Definition ex_login : program unit :=
  _ ← route PostLogin (MkRequest "POST" "desk" "" "" [] "" (Some (JObj [("email", JStr "tom@desk"); ("password", JStr "correct horse 4")])));
  Return tt.
Definition ex_bootstrap : program unit := _ ← BootstrapAdmin "ann@desk" "correct horse 1"; Return tt.
Definition ex_served : pool := {[1%nat := ex_login; 2%nat := ex_bootstrap]}.

Lemma ex_served_administers : administration ex_served.
Proof.
  unfold ex_served. intros c p [[<- <-]|[_ [<- <-]%lookup_singleton_Some]]%lookup_insert_Some; constructor.
Qed.

Definition ex_steps := drive 0 (replicate 9 (they 1) ++ replicate 2 (they 2)) ex_served (@start schema ex_tables) (Return tt).

Lemma rights_follow_version_witness : exists x : pool * state, size (kv x.2) = 1%nat /\
  StronglySorted (fun T' T => kept T T') (history x.2).
Proof.
  assert (E : (fun x => size (kv (snd (fst x)))) <$> ex_steps = Some 1%nat) by (vm_compute; reflexivity).
  destruct ex_steps as [[[ts s] []]|] eqn:Es; [|done]. injection E as E.
  exists (ts, s). split; [exact E|].
  apply (rights_follow_version (H1 := postgres) ex_tables ex_served (ts, s) ex_served_administers).
  eapply drive_steps. exact Es.
Defined.

(** The sessions of an operator are revoked; the next login is accepted again. *)
Definition ex_logins : pool := {[1%nat := ex_login; 2%nat := ex_login]}.

Lemma ex_logins_administer : administration ex_logins.
Proof.
  unfold ex_logins. intros c p [[<- <-]|[_ [<- <-]%lookup_singleton_Some]]%lookup_insert_Some; constructor.
Qed.

Definition next_login : turn := MkTurn (Some 2%nat) Fine 1000 (replicate 32 5).
(** Steps of the others, then a call, then another call, computed together. *)
Lemma drive_two {A B C} l ts s c1 l1 (p1 : program A) c2 l2 (p2 : program B)
    (f : pool * state -> A -> pool * state -> B -> C) b :
  (x ← drive 0 l ts s (Return tt); let '(ts, s, _) := x in
   y ← drive c1 l1 ts s p1; let '(ts1, s1, a1) := y in
   z ← drive c2 l2 ts1 s1 p2; let '(ts2, s2, a2) := z in
   Some (f (ts, s) a1 (ts1, s1) a2)) = Some b ->
  exists x y a1 z a2, rtc (pstep (H0 := postgres)) (ts, s) x /\ runs (H0 := postgres) c1 x p1 y a1
    /\ runs (H0 := postgres) c2 y p2 z a2 /\ f x a1 y a2 = b.
Proof.
  destruct (drive 0 l ts s (Return tt)) as [[[ts0 s0] []]|] eqn:E0; [|done]. cbn [mbind option_bind].
  destruct (drive c1 l1 ts0 s0 p1) as [[[ts1 s1] a1]|] eqn:E1; [|done]. cbn [mbind option_bind].
  destruct (drive c2 l2 ts1 s1 p2) as [[[ts2 s2] a2]|] eqn:E2; [|done]. cbn [mbind option_bind]. intros [= Hf].
  exists (ts0, s0), (ts1, s1), a1, (ts2, s2), a2. split_and!; [by eapply drive_steps|by eapply drive_runs|by eapply drive_runs|done].
Qed.

Definition absent (c : nat) (x : pool * state) : bool := match x.1 !! c with None => true | Some _ => false end.
Definition cached (token : string) (x : pool * state) : option Session :=
  j ← kv x.2 !! sessionKey token; unmarshal_session j.

Definition revoked (x : pool * state) (resp : Response) (y : pool * state) (res : reply Session) : bool :=
  absent 0 x && absent 3 y && (Code resp =? 204)
  && match cached (hex_encode (replicate 32 9)) x with Some old => UserID old =? 4 | None => false end
  && match res with inl new => UserID new =? 4 | inr _ => false end.

Lemma absent_None c x : absent c x = true -> x.1 !! c = None.
Proof. unfold absent. by destruct (x.1 !! c). Qed.

Definition ex_revoke : program Response := handler PostRevokeSessions (ex_session 1 ["users:manage"]) (ex_request "4" []).

Lemma ex_revoked : exists x y resp z res, rtc (pstep (H0 := postgres)) (ex_logins, start ex_tables) x
  /\ runs (H0 := postgres) 0 x ex_revoke y resp
  /\ runs (H0 := postgres) 3 y (Authenticate (hex_encode (replicate 32 5))) z res /\ revoked x resp y res = true.
Proof.
  apply (drive_two (replicate 9 (they 1)) ex_logins (@start schema ex_tables) 0 (replicate 8 (me_ Fine)) ex_revoke
    3 (replicate 9 next_login ++ replicate 3 (me_ Fine)) (Authenticate (hex_encode (replicate 32 5))) revoked true).
  vm_compute. reflexivity.
Qed.

Lemma revocation_final_witness : exists (x : pool * state) (old new : Session),
  cached (hex_encode (replicate 32 9)) x = Some old /\ AuthorizationVersion old < AuthorizationVersion new.
Proof.
  destruct ex_revoked as (x & y & resp & z & res & Hx & Hr & Ha & Hf). unfold revoked in Hf.
  apply andb_prop in Hf as [Hf Hnew]. apply andb_prop in Hf as [Hf Hold]. apply andb_prop in Hf as [Hf Hcode].
  apply andb_prop in Hf as [H0' H3']. apply Z.eqb_eq in Hcode.
  destruct res as [new|err]; [|discriminate Hnew]. apply Z.eqb_eq in Hnew.
  destruct (cached _ x) as [old|] eqn:Ec; [|discriminate Hold]. apply Z.eqb_eq in Hold.
  exists x, old, new. split; [exact Ec|]. unfold cached in Ec.
  destruct (kv x.2 !! _) as [j|] eqn:Ej; [|discriminate Ec]. cbn [mbind option_bind] in Ec.
  destruct (revocation_final (H1 := postgres) ex_tables ex_logins x 0 PostRevokeSessions (ex_session 1 ["users:manage"])
    (ex_request "4" []) 4 y resp y 3 (hex_encode (replicate 32 5)) z new
    ex_logins_administer Hx (absent_None _ _ H0') Hr Hcode eq_refl (rtc_refl _ _) (absent_None _ _ H3') Ha Hnew) as [_ Hall].
  exact (Hall _ _ _ Ej Ec Hold).
Defined.

(** A manager of users and roles tries to promote herself and to change the role of the super
    administrators. *)
Definition ex_promote : program unit :=
  _ ← handler PutUser (ex_session 3 ["users:manage"])
        (ex_request "3" [("email", JStr "mia@desk"); ("roles", JArr [JStr "super_admin"])]); Return tt.
Definition ex_edit : program unit :=
  _ ← handler PutRole (ex_session 3 ["roles:manage"]) (ex_request "10" [("name", JStr "x")]); Return tt.
Definition ex_attack : pool := {[1%nat := ex_promote; 2%nat := ex_edit]}.
Definition finished (c : nat) (x : pool * state) : bool := match x.1 !! c with Some (Return _) => true | _ => false end.

Lemma ex_attacked : exists x, rtc (pstep (H0 := postgres)) (ex_attack, start ex_tables) x
  /\ finished 1 x && finished 2 x = true.
Proof.
  destruct (drive_two (replicate 3 (they 1) ++ replicate 2 (they 2) ++ replicate 2 (they 1) ++ [they 2]) ex_attack
    (@start schema ex_tables) 0 [] (Return tt) 0 [] (Return tt) (fun x _ _ _ => finished 1 x && finished 2 x) true)
    as (x & _ & _ & _ & _ & Hx & _ & _ & Hf); [vm_compute; reflexivity|]. by exists x.
Qed.

Lemma ex_supers i : super ex_tables i -> i ∈ [1; 2].
Proof.
  intros (row & Hrow & Hc & Hg)%isSuper_spec.
  assert (Hall : forallb (fun row => forallb (fun x => negb (String.eqb (r_Code row) "super_admin" && (r_ID row =? snd x))
    || bool_decide (fst x ∈ [1; 2])) (user_roles ex_tables)) (roles ex_tables) = true) by reflexivity.
  rewrite forallb_forall in Hall. specialize (Hall row (proj1 (list_elem_of_In _ _) Hrow)).
  rewrite forallb_forall in Hall. specialize (Hall _ (proj1 (list_elem_of_In _ _) Hg)). cbn in Hall.
  rewrite Hc, Z.eqb_refl in Hall. cbn in Hall. by apply bool_decide_eq_true in Hall.
Qed.

Lemma no_privilege_escalation_witness : exists x : pool * state,
  finished 1 x && finished 2 x = true /\ protected ex_tables (committed x.2).
Proof.
  destruct ex_attacked as (x & Hx & Hf). exists x. split; [exact Hf|].
  apply (no_privilege_escalation (H1 := postgres) ex_tables (fun i => i = 3) ex_attack x).
  - split; [by apply (bool_decide_unpack _)|]. intros i Hi.
    pose proof (ex_supers i Hi) as Hin.
    apply elem_of_cons in Hin as [->|Hin]; [done|]. by apply list_elem_of_singleton in Hin as ->.
  - by intros a ->.
  - unfold ex_attack. intros c p [[<- <-]|[_ [<- <-]%lookup_singleton_Some]]%lookup_insert_Some.
    + by apply (acts_handler _ PutUser).
    + by apply (acts_handler _ PutRole).
  - exact Hx.
Defined.

Lemma verify_hashed_witness :
  VerifyPassword (encodeHash ex_salt (hashOf "correct horse 1" ex_salt)) "correct horse 1" = true.
Proof. apply (verify_hashed "correct horse 1" "correct horse 1" ex_salt); [by repeat constructor|reflexivity]. Defined.
