(* ===== verification/AdminExamples.v ===== *)
(** Requests to the administration, run: the witnesses of AdminSafety.v and Scope.v. *)
From S2P Require Import Prelude Decimal Domain Config FaultData Json World Rpc Wire Runtimeops Configdiff ConfigJson StatusJson RuntimeStore Scheduler Configstore Shared Credentials Accounts Users Scope Monitoring AdminServer AdminSafety.
Import Accounts AdminScope AdminServer AdminSafety.
Import Users(Request, decodeJSON).

Open Scope string_scope.
Open Scope list_scope.
Open Scope Z_scope.

#[local] Instance ex_range : MapRange := sorted_range.
#[local] Instance ex_sort : SliceSort := merge_slice_sort.

(** A user who may edit one of two instruments. *)
Definition ex_editor : Session := MkSession 5 "ann@desk" ["config:edit"; "config:view"; "runtime:view"] false ["abc-usdt"] 1 0.

Definition ex_other : InstrumentConfig :=
  MkInstrumentConfig "xyz-usdt" (MkAssetConfig "XYZ" (ex_address "c") 18) (MkAssetConfig "USDT" (ex_address "b") 18)
    ex_reference ex_strategy ex_no_simulation.
Definition ex_draft : Config :=
  let c := ex_config ex_strategy in with_parts (Config.Instruments c ++ [ex_other]) (Venues c) c.

Definition ex_sent : Config :=
  part ex_editor true (ex_config (MkStrategyConfig 30 10 5 Zero (dec_of 10 1) (dec_of 50 1) 30 500 500 1000
    (dec_of 100 1) (dec_of 50 1) 100 45 1000 30 300 3 8 2 3 90)).
Definition ex_put : Request := Users.MkRequest "PUT" "desk" "" "Bearer t" [] "" (Some (marshal ex_sent)).

Lemma scoped_edit_lens_witness :
  let m := mergeScopedConfig ex_draft ex_sent ex_editor in
  part ex_editor false m = part ex_editor false ex_draft
  /\ Config.Instruments (scopeConfig ex_editor m) = instruments_where ex_editor true (Config.Instruments ex_sent)
  /\ (forall name, Venues (scopeConfig ex_editor m) !! name =
        (fun v => set_Markets (markets_where ex_editor true
           (match Venues ex_sent !! name with Some w => Markets w | None => ∅ end)) v) <$> Venues ex_draft !! name)
  /\ (let same := mergeScopedConfig ex_draft (scopeConfig ex_editor ex_draft) ex_editor in
      Config.Instruments same ≡ₚ Config.Instruments ex_draft
      /\ with_parts (Config.Instruments ex_draft) (Venues same) same = ex_draft)
  /\ forall c', mergeScopedConfig m c' ex_editor = mergeScopedConfig ex_draft c' ex_editor.
Proof. exact (scoped_edit_lens ex_editor ex_draft ex_sent eq_refl). Defined.

(** ** A scoped edit *)

Definition ex_snapshot : InstrumentSnapshot :=
  set_is_Paused true (set_is_Status "paused" (waitingFor ModeLive (ex_instrument ex_strategy))).

(** The services of [ex_draft], which is also active. *)
Definition ex_answers (o : service) : answer_of o :=
  match o return answer_of o with
  | GetDraft => inl ex_draft
  | LoadActive => inl (MkConfigSnapshot 1 ex_draft 0)
  | SaveActive c _ => inl (MkConfigSnapshot 2 c 0)
  | ListCredentials => inl []
  | CreateCredential _ _ _ _ _ | UpdateCredential _ _ _ _ _ _ => inr (Errorf "")
  | ValidateReference _ _ => None
  | GetEngineStatus => zero_status
  | GetSnapshot _ => inl ex_snapshot
  | GetPaused => inr (Errorf "i/o timeout")
  | SetPaused id reason user => inl (MkPauseState id true reason user 0)
  | Resume _ => None
  | RequestReconcile id user => inl (MkReconcileRequest id user 0)
  | AuthenticateToken _ => inl ex_editor
  | AuditResource _ _ _ _ _ => tt
  | Now => 0
  | RPCChainID _ _ | RPCInspectPair _ _ _ => inr (Errorf "")
  | PingPostgres | PingRedis => None
  end.

Definition ex_decoded : Config := default zero_config (decodeConfig ex_put).
Definition ex_saved : Config := mergeScopedConfig ex_draft ex_decoded ex_editor.
Definition ex_before : list event :=
  [answered (AuthenticateToken "t") (inl ex_editor); answered GetDraft (inl ex_draft); answered (ValidateReference 7 "binance") None].
Definition ex_trace : list event :=
  ex_before ++ [answered (SaveActive ex_saved 5) (inl (MkConfigSnapshot 2 ex_saved 0))].

Lemma ex_run : run ex_answers (route PutConfigDraft ex_put) = (ex_trace, writeJSON 200 (JObj [("status", JStr "saved")])).
Proof. vm_compute. reflexivity. Qed.

(** The edit is saved, in the name of its author, with the other instrument as it was. *)
Lemma requests_authorized_witness :
  justified ex_put ex_before (SaveActive ex_saved 5)
  /\ map ID (Config.Instruments ex_saved) = ["xyz-usdt"; "abc-usdt"].
Proof.
  split; [|vm_compute; reflexivity].
  apply (requests_authorized PutConfigDraft ex_put ex_trace _ ex_before (SaveActive ex_saved 5)
    (inl (MkConfigSnapshot 2 ex_saved 0)) [] (run_follows _ _ _ _ ex_run)). reflexivity.
Defined.

(** ** A snapshot while the pauses cannot be read *)

Definition ex_get : Request := Users.MkRequest "GET" "desk" "" "Bearer t" [] "abc-usdt" None.
Definition ex_shown : InstrumentSnapshot := shown ex_editor ∅ "abc-usdt" ex_snapshot.
Definition ex_reads : list event :=
  [answered LoadActive (inl (MkConfigSnapshot 1 ex_draft 0)); answered (GetSnapshot "abc-usdt") (inl ex_snapshot);
   answered GetPaused (inr (Errorf "i/o timeout"))].

Lemma ex_view : run ex_answers (handler GetRuntimeInstrument ex_editor ex_get) = (ex_reads, writeJSON 200 (marshal ex_shown)).
Proof. vm_compute. reflexivity. Qed.

(** The same instrument for a user who may not see it. *)
Definition ex_denied : Session := MkSession 6 "bob@desk" ["runtime:view"] false ["xyz-usdt"] 1 0.
Lemma ex_no_view : run ex_answers (handler GetRuntimeInstrument ex_denied ex_get) = ([], out_of_scope).
Proof. vm_compute. reflexivity. Qed.

Lemma nothing_out_of_scope_witness :
  (Code (writeJSON 200 (marshal ex_shown)) = 200 /\ shows ex_editor GetRuntimeInstrument (writeJSON 200 (marshal ex_shown))
   \/ writeJSON 200 (marshal ex_shown) ∈ refusals)
  /\ (Code out_of_scope = 200 /\ shows ex_denied GetRuntimeInstrument out_of_scope \/ out_of_scope ∈ refusals).
Proof.
  split.
  - apply (nothing_out_of_scope GetRuntimeInstrument ex_editor ex_get ex_reads _ eq_refl (run_follows _ _ _ _ ex_view)).
    by repeat constructor.
  - exact (nothing_out_of_scope GetRuntimeInstrument ex_denied ex_get [] _ eq_refl (run_follows _ _ _ _ ex_no_view) (Forall_nil_2 _)).
Defined.

(** The plan of a publication is refused with the name of an instrument out of scope, when the
    draft has one; and when only the published configuration has, the plan itself shows it. *)
Definition ex_publisher : Session := MkSession 7 "cid@desk" ["config:publish"] false ["abc-usdt"] 1 0.
Definition ex_plan : Request := Users.MkRequest "POST" "desk" "" "Bearer t" [] "" None.
Lemma plan_names_out_of_scope : exists t,
  follows (handler PostConfigPlan ex_publisher ex_plan) t (writeError 403 "instrument xyz-usdt is outside your data scope")
  /\ CanAccessInstrument "xyz-usdt" ex_publisher = false.
Proof.
  exists [answered GetDraft (inl ex_draft)]. split; [|reflexivity].
  apply (run_follows ex_answers). vm_compute. reflexivity.
Qed.

Definition ex_smaller : Config := ex_config ex_strategy.
Lemma plan_shows_out_of_scope : exists t plan,
  follows (handler PostConfigPlan ex_publisher ex_plan) t (writeJSON 200 (configPlanResponse 1 2 plan))
  /\ answered GetDraft (inl ex_smaller) ∈ t /\ answered LoadActive (inl (MkConfigSnapshot 1 ex_draft 0)) ∈ t
  /\ "xyz-usdt" ∈ map ch_InstrumentID (InstrumentChanges plan) /\ CanAccessInstrument "xyz-usdt" ex_publisher = false.
Proof.
  exists [answered GetDraft (inl ex_smaller); answered LoadActive (inl (MkConfigSnapshot 1 ex_draft 0))],
    (Configdiff.Build (Some ex_draft) ex_smaller).
  split; [|split_and!; [by left|right; by left|apply (bool_decide_unpack _); vm_compute; exact I|reflexivity]].
  apply (run_follows (fun o => match o with GetDraft => inl ex_smaller | o => ex_answers o end)). vm_compute. reflexivity.
Qed.

(** An instrument that is paused is shown as resuming when the pauses cannot be read. *)
Lemma unreadable_pause_shown_resuming : exists t s,
  follows (handler GetRuntimeInstrument ex_editor ex_get) t (writeJSON 200 (marshal s))
  /\ answered GetPaused (inr (Errorf "i/o timeout")) ∈ t
  /\ answered (GetSnapshot "abc-usdt") (inl ex_snapshot) ∈ t
  /\ is_Paused ex_snapshot = true /\ is_Status ex_snapshot = "paused" /\ is_Status s = "resuming".
Proof.
  exists ex_reads, ex_shown. split; [exact (run_follows _ _ _ _ ex_view)|]. unfold ex_reads.
  split_and!; [do 2 right; by left|right; by left|done..].
Qed.
